(* ===== verification/_CoqProject ===== *)
-Q . S2P
Prelude.v
CArray.v
UnityCommon.v
Hash.v
ShaderStage.v
Document.v
DocumentFormat.v
RecordTable.v
Samples.v
DocumentCorrect.v
StageContract.v
StageContractSteps.v
StageContractCorrect.v
Container.v
Utf8.v
Usbd.v
UsbdCorrect.v
Compare.v
CompareCorrect.v
Decoder.v
Heap.v
ByteStream.v
Signature.v
SignatureCorrect.v
SignatureParse.v
Resources.v
Operand.v
OperandCorrect.v
OperandFields.v
OperandParser.v
Instruction.v
InstructionCorrect.v
InstructionProgram.v
InstructionDocument.v
Parser.v
ParserCorrect.v
ParserDocument.v
Usil.v
SsaGraph.v
Cfg.v
FlowGraph.v
Postorder.v
DominatorTree.v
Dominance.v
Frontier.v
MustReach.v
FlowStructure.v
FlowMatch.v
FlowStep.v
CfgBlocks.v
CfgEdges.v
CfgConnect.v
CfgInvert.v
CfgBuild.v
FlowTrace.v
CfgAnalysis.v
CfgTheorems.v
UsilValidation.v
UsilValidationSteps.v
UsilMemory.v
UsilValidationCorrect.v
UsilHullCorrect.v
Ssa.v
SsaMeaning.v
SsaMerge.v
SsaInstruction.v
SsaPlacement.v
SsaState.v
SsaRename.v
SsaBlock.v
SsaTraversal.v
SsaCorrect.v
Provenance.v
UseDef.v
SsaTheorems.v
ProvenanceTheorems.v
UseDefTheorems.v
VariantKey.v
VariantKeyCorrect.v
VariantKeyTheorems.v
