(* ===== verification/Prelude.v ===== *)
(** * DXBCSandbox: a verification library

    DXBCSandbox (C11) reads Unity shader assets, decodes the DXBC bytecode they
    hold and reconstructs ShaderLab and HLSL.  This library models the part
    everything else stands on: [src/dxbc/] with [src/common/shader_stage.c],
    the container formats and both parsers of the bytecode; the analyses the
    reconstruction rests on, in [src/translation/]: the control-flow graph, the
    validation of instructions, the SSA form, the provenance of values and the
    use counts; and the keys of shader variants, [src/common/variant_key.c].

    ** The program and how its parts interact

    - dxbc_hash.c computes the modified MD5 checksum a container carries at
      bytes 4..19; every reader and writer below calls it.
    - dxbc_document.c parses a whole container into a lossless document (chunks,
      programs, instruction token ranges) and serialises it back.
    - dxbc_container.c finds the container in a blob, which is a raw container,
      a Unity program record or a USBD table; usbd.c opens and encodes USBD
      tables, whose payloads are containers the document parser accepts.
    - dxbc_compare.c parses two containers and localises their first difference.
    - dxbc_stage_contract.c walks a document's instructions and decodes the
      execution contract of compute, geometry, hull and domain programs;
      shader_stage.c relates the stage numbers of Unity and of the bytecode.
    - dxbc_parser.c, dxbc_instruction.c and dxbc_operand.c are the second,
      semantic parser, which the HLSL reconstruction uses: it reads signature
      tables, instructions, operands and declarations; dxbc_decoder.c names its
      opcodes.
    - hlsl_cfg.c takes the instructions lowered from that parse (the USIL
      program), matches their structured flow control, builds the graph of
      basic blocks, and computes dominance on it; every later pass of
      [src/translation/] asks it whether one block dominates or must reach
      another, which IFs are single-entry regions, which paths are straight.
    - usil_validation.c decides which USIL instructions are well shaped, what
      each of their operands is used for, which memory they access in which
      lanes, and which effects they have; every pass below asks it.
    - hlsl_ssa.c builds the SSA form of the temporaries over the control-flow
      graph: phis on the dominance frontiers, then a renaming along the
      dominator tree.  hlsl_provenance.c follows copies of values through the
      program text.  hlsl_use_def.c answers, from either, which instruction
      defines what an operand reads, and counts the uses of definitions.
    - variant_key.c validates the description of a shader variant, and gives it
      a canonical serialisation and digest, under which the compiler cache and
      the verifier keep their results.

    ** The files

    - [Prelude]: machine integers as [Z] with their wrap-around, bytes, the
      outcome type [res] of C functions ([Ret], [Fail], [Undef] for undefined
      behaviour), loops, buffers, record update, tactics.  [CArray]: arrays
      indexed by [int], and memory that is not initialised.
    - [UnityCommon]: the submodule's functions as a class of parameters.
      [Heap]: which blocks of memory are allocated, and the allocator as a
      class.  [ByteStream]: UnityCommon's stream reader as a class.
    - [Hash]: dxbc_hash.c.  The 64 MD5 steps, the streaming context [MD5_CTX],
      [calculate_dxbc_checksum], [dxbc_compute_hash], [dxbc_verify_hash];
      a reference hash written as padding plus a fold over 64-byte blocks.
    - [Document]: dxbc_document.h and dxbc_document.c, the operations.
      [DocumentFormat]: the container format as predicates on bytes.
      [DocumentCorrect]: the parser and the serialiser refine the format.
    - [ShaderStage]: shader_stage.h and shader_stage.c.
    - [StageContract], [StageContractSteps], [StageContractCorrect]:
      dxbc_stage_contract.h and .c, the operations, what one instruction does
      as a step relation on the decoding state, and the invariants of runs.
    - [RecordTable]: the USBD format; [Container]: dxbc_container.c;
      [Utf8]: the record-name validator of usbd.c; [Usbd], [UsbdCorrect]:
      usbd.h and usbd.c.
    - [Compare], [CompareCorrect]: dxbc_compare.h and dxbc_compare.c.
    - [Decoder]: the tables of dxbc_decoder.c.
    - [Signature], [SignatureCorrect], [SignatureParse]: the signature tables of
      dxbc_parser.c, their elements as owners of a heap block each.
    - [Resources]: the sorted declaration tables of dxbc_parser.c.
    - [Operand], [OperandCorrect], [OperandFields], [OperandParser]:
      dxbc_operand.c; the operations, what each reads and owns, the scalar
      fields, and the recursive parser against the grammar of operands.
    - [Instruction], [InstructionCorrect], [InstructionProgram],
      [InstructionDocument]: dxbc_instruction.c; the operations, one
      instruction, the loop over a program, and the agreement with [Document].
    - [Parser], [ParserCorrect], [ParserDocument]: [dxbc_parse] and
      [dxbc_free] of dxbc_parser.c, over all of the above.
    - [Cfg]: hlsl_cfg.h and hlsl_cfg.c, the operations.  [FlowStructure]: what
      well-structured flow control is; [FlowMatch]: the matcher decides it;
      [FlowStep]: where each instruction goes next.  [CfgBlocks], [CfgEdges],
      [CfgConnect], [CfgInvert], [CfgBuild]: the builder, phase by phase.
      [FlowGraph]: flow graphs as the analyses see them, walks and dominance;
      [Postorder], [DominatorTree], [Dominance], [Frontier], [MustReach]: the
      analyses, proved against that interface only.  [FlowTrace]: executions
      of instructions and walks of blocks; [CfgAnalysis], [CfgTheorems]: what
      the entry points say about the executions of a program.
    - [Usil]: usil.h, the instructions and declarations of a program.
      [UsilValidation]: usil_validation.h and .c, the operations;
      [UsilValidationSteps]: what each test reads; [UsilMemory]: what a memory
      access is, apart from the code's tables; [UsilValidationCorrect]: shapes,
      uses, memory accesses and effects; [UsilHullCorrect]: hull phases.
    - [SsaGraph], [Ssa]: hlsl_ssa.h and hlsl_ssa.c, the data and the
      operations.  [SsaMeaning]: what a register component holds on an
      execution; [SsaMerge]: on which blocks executions disagree about it.
      [SsaInstruction]: one instruction; [SsaPlacement]: the phis, and the
      children of the dominator tree; [SsaState], [SsaRename], [SsaBlock],
      [SsaTraversal]: the renaming, from its state to the whole traversal;
      [SsaCorrect]: what the finished form promises; [SsaTheorems]: the entry
      points.
    - [Provenance], [ProvenanceTheorems]: hlsl_provenance.c, the scan and its
      queries.  [UseDef], [UseDefTheorems]: hlsl_use_def.h and hlsl_use_def.c.
    - [VariantKey], [VariantKeyCorrect], [VariantKeyTheorems]: variant_key.h
      and variant_key.c, the operations, the serialisation, construction.
    - [Samples]: concrete containers, which the witnesses evaluate; the other
      samples are in the files that use them.

    A C function of these files keeps its name.  An out parameter and a [bool]
    or NULL result become the outcome: [Ret] with what was stored, [Fail] with
    the diagnostic ([tt] where the code reports none); a pointer that may be
    NULL is an [option]; a pointer into a buffer is the bytes readable from it,
    with an offset where the code hands the pointer back.  A loop body is a
    definition of its own, named after what the loop does, and the state its
    iterations thread is explicit.  [static] helpers that two C files define
    alike are shared ([read_u32_le], [grow_array]).  A pointer into an array
    that several owners share, like the edge lists of basic blocks, is an
    offset into the one array.

    ** What the theorems show

    - Checksum: the streaming implementation, with its two-block tail, computes
      the reference hash of every message shorter than 2^29 bytes; verification
      accepts exactly the containers whose stored digest is that hash, and a
      stamped container verifies.
    - Document: the parser never leaves its buffer and its loops end
      ([dxbc_document_parse_defined]); it accepts exactly the valid containers
      ([_accepts_iff]), returns the document the format prescribes
      ([_exact]), reports a diagnostic of the right kind otherwise
      ([_rejects]); serialisation gives the input back ([_roundtrip]); chunks
      do not overlap, instructions tile their programs, token access is in
      bounds.
    - Stage contract: decoding any parsed document is free of undefined
      behaviour; the contract is the projection of the program's declarations;
      compute limits, geometry declarations, hull phase order, and the absence
      of fields of another stage are invariants of the walk over instructions.
    - Stages: conversions between the numbering systems are mutually inverse
      where they are defined and the tuple validator decides agreement.
    - Wrappers: the container finder returns exactly the container of the three
      layouts; the USBD reader accepts exactly the encodings of well-formed
      tables, the encoder succeeds exactly on them, and each inverts the other;
      the name check is exactly UTF-8 validity.
    - Comparison: EQUAL is byte equality of valid containers; a reported
      difference is real, at the coordinate it names.
    - Signatures: parsing refines the table format, the validity test decides
      the row rules, clones are deep, and every path, failures included, leaves
      exactly the blocks that freeing gives back.
    - Declarations: the sorted table is an ordered map, and after a parse it
      holds exactly the registers the instructions declare.
    - Operands: the recursive parser returns exactly the operands of the
      grammar that lie ahead inside the limit, owns exactly the blocks of its
      relative operands, and keeps its scalar fields coherent with its tokens.
    - Instructions and the driver: the semantic parser lists the instructions
      and chunks the lossless one does; [dxbc_parse] is free of undefined
      behaviour on any bytes and any allocator, and leaks nothing.
    - Control flow: the matcher accepts exactly the well-structured ranges; the
      builder succeeds on them, memory permitting, and its blocks and edges are
      those of the step relation of instructions, the shared edge storage never
      running out; dominance is always computed, and a dominance query, a
      frontier, a must-reach proof (no execution avoids the target, forever or
      by ending) and an IF region mean what they say about executions.
    - USIL instructions: validation is total and memory safe, gives every
      operand of a valid instruction a use and every valid instruction its
      effects; a memory access is accepted exactly if it is one, and returned
      field by field; the hull check accepts exactly the programs whose phases
      tile their instructions and declare their temporaries.
    - SSA form, over executions of the step relation: the construction always
      returns; the variable of each lane read and of each phi edge stands for
      what the component holds on every execution; a phi stands only where two
      executions disagree.  So the definition a lookup names is the one every
      execution reads, "unknown" means none, "ambiguous" that they differ.
      Provenance entries are straight runs of moves from a definition that
      nothing changes in between.  Use counts are the numbers of source lanes
      and phi edges; what a source lane reads is never counted as unused.
    - Variant keys: exactly the valid descriptors are accepted, the others are
      refused with the status of their defect; two keys are equal exactly if
      their serialisations are the same bytes; a copy is equal to its source.

    ** Bounds and fuel

    [size_t] has 64 bits, [int] 32, the host is little-endian.  [for_loop]
    takes the iteration count the code computes before the loop.  [while] takes
    a fuel, an expression of the input (word counts, record counts, byte
    counts); a run that exhausts it is [Undef], and the theorems that exclude
    [Undef] show the fuel is enough ([while_fuel]: more changes nothing).  The
    operand parser has the code's own recursion budget; array growth doubles at
    most 31 times; the depth-first search takes n (n + 1) steps on n blocks,
    the dominator sweeps n (n + 1) + 2 rounds (each but the last moves a block
    up the tree), a climb the number of blocks, a chain of labels the number
    of instructions; the worklist of a phi placement holds each block once, and
    the renaming enters and leaves each block once (2 n steps).  Theorems about
    buffers carry the hypothesis the C types give (a size below 2^64, an [int]
    count at most [INT_MAX]), or a smaller one where the code's arithmetic
    needs it, stated there.

    UnityCommon is a git submodule whose sources are not in the repository:
    [UnityCommonSpec] states what the code relies on ([read_le32] decodes,
    the overflow predicates detect overflow), [MemoryAvailable] that
    allocation succeeds; the latter is a hypothesis only of the theorems that
    promise success.  [LibcMalloc] answers requests by their size: an oracle,
    so that a failure clause says that some size is refused, not which request.
    The SHA-256 of UnityCommon is a parameter of the digest of variant keys.
    The passes over USIL assume what the lowering gives: instructions with at
    most [DXBC_MAX_OPERANDS] operands, arrays of the sizes their allocations
    say ([ssa_program_ok], [declarations_ok], [instruction_ok]).

    ** Not modelled

    - [dxbc_document_decode_semantic], a call of [dxbc_parse] on a document.
    - Text only meant for people: diagnostic message formatting, [formatted_asm],
      environment-controlled traces.  Of the arrays the driver and the passes
      allocate, not the block itself but its contents.
    - [block_nesting] of a graph is stored in range; nothing is proved about
      its values, which nothing modelled reads.
    - The rest of [src/translation/]: the lowering to USIL and the emitters
      build instruction texts and source text, whose meaning is that of Unity's
      compiler.  [src/io/] reads Unity objects through UnityCommon's type trees,
      whose sources are not in the repository.  [src/compiler/] talks to
      Unity's compiler process and caches its answers, [src/app/] and
      [src/cli/] are batch drivers and command lines: input and output.  The
      rest of [src/common/] scans text files or packs files. *)

From Stdlib Require Export ZArith Lia.
From Stdlib Require Strings.Byte.
From stdpp Require Export base list numbers strings option.

#[global] Open Scope Z_scope.

(** * Machine integers

    A [w]-bit unsigned C integer is a [Z] in [0, 2^w); [u8], [u16], [u32] and
    [u64] are the wrap-around of the C arithmetic, written where the source
    computes.  [size_t] is 64 bits wide. *)

Abbreviation byte := Byte.byte.

Definition u8 (z : Z) : Z := z mod 2 ^ 8.
Definition u32 (z : Z) : Z := z mod 2 ^ 32.
Definition u64 (z : Z) : Z := z mod 2 ^ 64.

Definition INT_MAX : Z := 2147483647.
Definition UINT32_MAX : Z := 4294967295.
Definition SIZE_MAX : Z := 18446744073709551615.

Definition in_u8 (z : Z) : Prop := 0 <= z < 2 ^ 8.
Definition in_u32 (z : Z) : Prop := 0 <= z < 2 ^ 32.
Definition in_u64 (z : Z) : Prop := 0 <= z < 2 ^ 64.

Lemma u8_range z : in_u8 (u8 z).
Proof. apply Z.mod_pos_bound; lia. Qed.
Lemma u32_range z : in_u32 (u32 z).
Proof. apply Z.mod_pos_bound; lia. Qed.
Lemma u64_range z : in_u64 (u64 z).
Proof. apply Z.mod_pos_bound; lia. Qed.

Lemma u8_small z : 0 <= z < 256 -> u8 z = z.
Proof. intros; apply Z.mod_small; lia. Qed.
Lemma u32_small z : 0 <= z < 4294967296 -> u32 z = z.
Proof. intros; apply Z.mod_small; lia. Qed.
Lemma u64_small z : 0 <= z < 18446744073709551616 -> u64 z = z.
Proof. intros; apply Z.mod_small; lia. Qed.

Lemma u32_idemp z : u32 (u32 z) = u32 z.
Proof. apply Z.mod_mod; lia. Qed.

Lemma u32_add_l a b : u32 (u32 a + b) = u32 (a + b).
Proof. apply Z.add_mod_idemp_l; lia. Qed.
Lemma u32_add_r a b : u32 (a + u32 b) = u32 (a + b).
Proof. apply Z.add_mod_idemp_r; lia. Qed.
Lemma u32_mul_l a b : u32 (u32 a * b) = u32 (a * b).
Proof. apply Z.mul_mod_idemp_l; lia. Qed.
Lemma u32_mul_r a b : u32 (a * u32 b) = u32 (a * b).
Proof. apply Z.mul_mod_idemp_r; lia. Qed.

(** Masks, shifts and tests of the source as [Z] operations. *)

Lemma land_lt_pow2 (a b n : Z) : 0 <= n -> 0 <= b < 2 ^ n -> 0 <= Z.land a b < 2 ^ n.
Proof.
  intros Hn Hb. split; [apply Z.land_nonneg; lia|].
  destruct (decide (Z.land a b = 0)) as [->|Hne]; [lia|].
  assert (Hp : 0 < Z.land a b) by (pose proof (Z.land_nonneg a b); lia).
  apply Z.log2_lt_pow2; [done|].
  assert (Hb0 : 0 < b) by (destruct (decide (b = 0)) as [->|]; [rewrite Z.land_0_r in Hp|]; lia).
  destruct (Z.lt_ge_cases (Z.log2 (Z.land a b)) n) as [|Hge]; [done|exfalso].
  pose proof (Z.bit_log2 _ Hp) as Hbit. rewrite Z.land_spec, andb_true_iff in Hbit.
  destruct Hbit as [_ Hbit].
  rewrite (Z.bits_above_log2 b) in Hbit; [done|lia|].
  assert (Z.log2 b < n) by (apply Z.log2_lt_pow2; lia). lia.
Qed.

Lemma land_ones_mod (a n : Z) : 0 <= n -> Z.land a (2 ^ n - 1) = a mod 2 ^ n.
Proof. intros. rewrite <- Z.land_ones by done. f_equal. rewrite Z.ones_equiv. lia. Qed.

Lemma lor_lt_pow2 (a b n : Z) : 0 <= a < 2 ^ n -> 0 <= b < 2 ^ n -> 0 <= Z.lor a b < 2 ^ n.
Proof.
  intros Ha Hb. assert (H0 : 0 <= Z.lor a b) by (apply Z.lor_nonneg; lia). split; [done|].
  destruct (decide (Z.lor a b = 0)) as [->|]; [lia|]. apply Z.log2_lt_pow2; [lia|].
  rewrite Z.log2_lor by lia.
  assert (Hlog : forall x, 0 <= x < 2 ^ n -> x <> 0 -> Z.log2 x < n)
    by (intros x Hx Hx0; apply Z.log2_lt_pow2; lia).
  apply Z.max_lub_lt.
  - destruct (decide (a = 0)) as [->|]; [|by apply Hlog].
    apply Z.le_lt_trans with (Z.log2 b); [apply Z.log2_nonneg|]. apply Hlog; [done|].
    intros ->. by rewrite Z.lor_0_r in *.
  - destruct (decide (b = 0)) as [->|]; [|by apply Hlog].
    apply Z.le_lt_trans with (Z.log2 a); [apply Z.log2_nonneg|]. apply Hlog; [done|].
    intros ->. by rewrite Z.lor_0_l in *.
Qed.

Lemma shiftr_range (a n m : Z) :
  0 <= n -> 0 <= m -> 0 <= a < 2 ^ (n + m) -> 0 <= Z.shiftr a n < 2 ^ m.
Proof.
  intros Hn Hm Ha. rewrite Z.shiftr_div_pow2 by done.
  rewrite Z.pow_add_r in Ha by done. split.
  - apply Z.div_pos; lia.
  - apply Z.div_lt_upper_bound; lia.
Qed.

(** * Bytes and little-endian words *)

Definition byte_val (b : byte) : Z := Z.of_N (Byte.to_N b).
Definition byte_of (z : Z) : byte := default Byte.x00 (Byte.of_N (Z.to_N (u8 z))).

#[global] Instance byte_eq_dec : EqDecision byte := Byte.byte_eq_dec.

Lemma byte_val_range b : 0 <= byte_val b < 256.
Proof. unfold byte_val. pose proof (Byte.to_N_bounded b). lia. Qed.

Lemma byte_of_val b : byte_of (byte_val b) = b.
Proof.
  unfold byte_of. rewrite u8_small by apply byte_val_range.
  unfold byte_val. by rewrite N2Z.id, Byte.of_to_N.
Qed.

Lemma byte_val_of z : byte_val (byte_of z) = u8 z.
Proof.
  unfold byte_of, byte_val. pose proof (u8_range z) as Hz. unfold in_u8 in Hz.
  destruct (Byte.of_N (Z.to_N (u8 z))) as [b|] eqn:E; simpl.
  - apply Byte.to_of_N in E. rewrite E. lia.
  - apply Byte.of_N_None_iff in E. lia.
Qed.

#[global] Instance byte_val_inj : Inj (=) (=) byte_val.
Proof. intros a b H. by rewrite <- (byte_of_val a), H, byte_of_val. Qed.

(** The value of a byte string read with the least significant byte first:
    what [memcpy] into an unsigned integer yields on a little-endian host. *)
Fixpoint le_val (bs : list byte) : Z :=
  match bs with
  | [] => 0
  | b :: bs => byte_val b + 256 * le_val bs
  end.

Fixpoint le_bytes (n : nat) (z : Z) : list byte :=
  match n with
  | O => []
  | S n => byte_of z :: le_bytes n (z / 256)
  end.

Lemma length_le_bytes n z : length (le_bytes n z) = n.
Proof. revert z; induction n; intros; simpl; auto. Qed.

Lemma le_val_range bs : 0 <= le_val bs < 256 ^ Z.of_nat (length bs).
Proof.
  induction bs as [|b bs IH]; simpl length; simpl le_val; [simpl; lia|].
  rewrite Nat2Z.inj_succ, Z.pow_succ_r by lia. pose proof (byte_val_range b). nia.
Qed.

Lemma le_bytes_val bs : le_bytes (length bs) (le_val bs) = bs.
Proof.
  induction bs as [|b bs IH]; [done|]; simpl.
  pose proof (byte_val_range b). f_equal.
  - trans (byte_of (byte_val b)); [|apply byte_of_val].
    unfold byte_of. do 3 f_equal. unfold u8. change (2 ^ 8) with 256.
    Z.div_mod_to_equations; lia.
  - etransitivity; [|exact IH]. f_equal. Z.div_mod_to_equations; lia.
Qed.

Lemma le_val_bytes n z : le_val (le_bytes n z) = z mod 256 ^ Z.of_nat n.
Proof.
  revert z; induction n as [|n IH]; intros z; simpl le_bytes; simpl le_val.
  { by rewrite Z.mod_1_r. }
  rewrite IH, byte_val_of, Nat2Z.inj_succ, Z.pow_succ_r by lia.
  rewrite Z.rem_mul_r by lia. done.
Qed.

Lemma le_val_inj bs1 bs2 :
  length bs1 = length bs2 -> le_val bs1 = le_val bs2 -> bs1 = bs2.
Proof.
  intros Hl Hv. by rewrite <- (le_bytes_val bs1), Hl, Hv, le_bytes_val.
Qed.

(** [b0 | b1 << 8 | b2 << 16 | b3 << 24], the explicit decoding of the source. *)
Definition or_word (b0 b1 b2 b3 : Z) : Z :=
  Z.lor (Z.lor (Z.lor b0 (u32 (Z.shiftl b1 8))) (u32 (Z.shiftl b2 16))) (u32 (Z.shiftl b3 24)).

Lemma testbit_above a n k : 0 <= a < 2 ^ n -> n <= k -> Z.testbit a k = false.
Proof.
  intros Ha Hk. destruct (decide (a = 0)) as [->|]; [apply Z.bits_0|].
  destruct (Z.lt_ge_cases n 0); [rewrite Z.pow_neg_r in Ha; lia|].
  apply Z.bits_above_log2; [lia|].
  assert (Z.log2 a < n) by (apply Z.log2_lt_pow2; lia). lia.
Qed.

Lemma lor_add_disjoint a b n :
  0 <= n -> 0 <= a < 2 ^ n -> Z.lor a (Z.shiftl b n) = a + b * 2 ^ n.
Proof.
  intros Hn Ha. rewrite <- Z.shiftl_mul_pow2 by done. rewrite Z.add_nocarry_lxor.
  - apply Z.bits_inj'; intros k Hk. rewrite Z.lxor_spec, Z.lor_spec.
    destruct (Z.lt_ge_cases k n).
    + by rewrite Z.shiftl_spec_low, orb_false_r, xorb_false_r.
    + rewrite (testbit_above a n k) by done. by destruct (Z.testbit _ k).
  - apply Z.bits_inj'; intros k Hk. rewrite Z.land_spec, Z.bits_0.
    destruct (Z.lt_ge_cases k n).
    + by rewrite Z.shiftl_spec_low, andb_false_r.
    + by rewrite (testbit_above a n k).
Qed.

Lemma u32_shiftl z n k :
  0 <= n -> 0 <= z < 2 ^ k -> 0 <= k -> k + n <= 32 -> u32 (Z.shiftl z n) = Z.shiftl z n.
Proof.
  intros Hn Hz Hk Hkn. unfold u32. rewrite Z.shiftl_mul_pow2 by done.
  apply Z.mod_small. split; [nia|].
  assert (z * 2 ^ n < 2 ^ k * 2 ^ n) by nia.
  rewrite <- Z.pow_add_r in * by done.
  assert (2 ^ (k + n) <= 2 ^ 32) by (apply Z.pow_le_mono_r; lia). lia.
Qed.

Lemma or_word_le b0 b1 b2 b3 :
  or_word (byte_val b0) (byte_val b1) (byte_val b2) (byte_val b3) = le_val [b0; b1; b2; b3].
Proof.
  unfold or_word.
  pose proof (byte_val_range b0). pose proof (byte_val_range b1).
  pose proof (byte_val_range b2). pose proof (byte_val_range b3).
  rewrite !(u32_shiftl _ _ 8) by lia.
  rewrite (lor_add_disjoint (byte_val b0)) by lia.
  rewrite (lor_add_disjoint (byte_val b0 + _)) by lia.
  rewrite (lor_add_disjoint (byte_val b0 + _ + _)) by lia.
  simpl. lia.
Qed.

(** * Outcomes of C code

    A function that reports failure through its result and an out parameter
    returns [Ret] with what it stored, or [Fail] with the diagnostic.  [Undef]
    is undefined behaviour: an access outside its object, or a loop that has
    not ended after the iterations its bound allows.  A theorem that a run is
    never [Undef] is therefore a memory-safety and a termination theorem. *)

Inductive res (E A : Type) : Type :=
| Ret (a : A)
| Fail (e : E)
| Undef.
Arguments Ret {E A} a.
Arguments Fail {E A} e.
Arguments Undef {E A}.

#[global] Instance res_ret E : MRet (res E) := fun A => Ret.
#[global] Instance res_bind E : MBind (res E) := fun A B k m =>
  match m with Ret a => k a | Fail e => Fail e | Undef => Undef end.

Definition outcome {E A} (m : res E A) (Q : A -> Prop) (F : E -> Prop) : Prop :=
  match m with Ret a => Q a | Fail e => F e | Undef => False end.

Section outcomes.
Context {E A B : Type}.
Implicit Types (m : res E A) (k : A -> res E B).

Lemma outcome_ret a Q (F : E -> Prop) : Q a -> outcome (Ret a : res E A) Q F.
Proof. done. Qed.
Lemma outcome_fail e (Q : A -> Prop) (F : E -> Prop) : F e -> outcome (Fail e) Q F.
Proof. done. Qed.

Lemma outcome_bind m k Q F :
  outcome m (fun a => outcome (k a) Q F) F -> outcome (m ≫= k) Q F.
Proof. by destruct m. Qed.

Lemma outcome_bind_inv m k Q F :
  outcome m (fun a => outcome (k a) Q F) F <-> outcome (m ≫= k) Q F.
Proof. by destruct m. Qed.

Lemma outcome_mono m (Q Q' : A -> Prop) (F F' : E -> Prop) :
  outcome m Q F -> (forall a, Q a -> Q' a) -> (forall e, F e -> F' e) -> outcome m Q' F'.
Proof. destruct m; simpl; eauto. Qed.

Lemma outcome_if (b : bool) m1 m2 Q F :
  (b = true -> outcome m1 Q F) -> (b = false -> outcome m2 Q F) ->
  outcome (if b then m1 else m2) Q F.
Proof. destruct b; eauto. Qed.

Lemma outcome_Ret_inv m Q F a : outcome m Q F -> m = Ret a -> Q a.
Proof. by intros H ->. Qed.

Lemma outcome_Fail_inv m Q F e : outcome m Q F -> m = Fail e -> F e.
Proof. by intros H ->. Qed.

Lemma outcome_defined m Q F : outcome m Q F -> m <> Undef.
Proof. intros H ->. done. Qed.

Lemma bind_Ret_inv m k b : m ≫= k = Ret b -> exists a, m = Ret a /\ k a = Ret b.
Proof. destruct m; simpl; try done. eauto. Qed.

Lemma bind_Ret m k a : m = Ret a -> m ≫= k = k a.
Proof. by intros ->. Qed.
End outcomes.

(** A failure report replaced by another one, as when a caller maps [false] to
    its own diagnostic. *)
Definition or_fail {E E' A} (m : res E A) (e : E') : res E' A :=
  match m with Ret a => Ret a | Fail _ => Fail e | Undef => Undef end.

Lemma outcome_or_fail {E E' A} (m : res E A) (e : E') Q (F : E' -> Prop) :
  outcome m Q (fun _ => F e) -> outcome (or_fail m e) Q F.
Proof. by destruct m. Qed.

(** The result of a call whose [false] is tested by the caller. *)
Definition attempt {E A} (m : res unit A) : res E (option A) :=
  match m with Ret a => Ret (Some a) | Fail _ => Ret None | Undef => Undef end.

Lemma outcome_attempt {E A} (m : res unit A) (Q : option A -> Prop) (F : E -> Prop) :
  outcome m (fun a => Q (Some a)) (fun _ => Q None) -> outcome (attempt m) Q F.
Proof. by destruct m. Qed.

(** * Loops *)

(** [for (i = start; n iterations; ++i) state = body(i, state)] *)
Fixpoint for_loop {E S} (n : nat) (i : Z) (body : Z -> S -> res E S) (s : S) : res E S :=
  match n with
  | O => Ret s
  | Datatypes.S n => s ← body i s; for_loop n (i + 1) body s
  end.

(** [while (cond(state)) state = body(state)], at most [fuel] iterations. *)
Fixpoint while {E S} (fuel : nat) (cond : S -> bool) (body : S -> res E S) (s : S) : res E S :=
  if cond s then
    match fuel with
    | O => Undef
    | Datatypes.S fuel => s ← body s; while fuel cond body s
    end
  else Ret s.

(** A loop over the first elements of an array, with their indices. *)
Fixpoint for_each {E A} (i : Z) (xs : list A) (body : Z -> A -> res E unit) : res E unit :=
  match xs with
  | [] => Ret tt
  | x :: xs => _ ← body i x; for_each (i + 1) xs body
  end.

Section loops.
Context {E S : Type}.

Lemma outcome_for (I : Z -> S -> Prop) F n i (body : Z -> S -> res E S) s :
  I i s ->
  (forall j t, i <= j < i + Z.of_nat n -> I j t -> outcome (body j t) (I (j + 1)) F) ->
  outcome (for_loop n i body s) (I (i + Z.of_nat n)) F.
Proof.
  revert i s. induction n as [|n IH]; intros i s Hi Hbody; simpl.
  { by rewrite Z.add_0_r. }
  apply outcome_bind. eapply outcome_mono; [apply Hbody; [lia|done]| |done].
  intros t Ht. replace (i + Z.of_nat (Datatypes.S n)) with (i + 1 + Z.of_nat n) by lia.
  apply IH; [done|]. intros. apply Hbody; [lia|done].
Qed.

Lemma outcome_while (I : S -> Prop) (μ : S -> nat) F fuel cond (body : S -> res E S) s :
  I s -> (μ s <= fuel)%nat ->
  (forall t, I t -> cond t = true ->
    (0 < μ t)%nat /\ outcome (body t) (fun t' => I t' /\ (μ t' < μ t)%nat) F) ->
  outcome (while fuel cond body s) (fun t => I t /\ cond t = false) F.
Proof.
  intros Hi Hμ Hbody. revert s Hi Hμ. induction fuel as [|fuel IH]; intros s Hi Hμ; simpl.
  all: destruct (cond s) eqn:Hc; [|done]; destruct (Hbody s Hi Hc) as [Hpos Hout].
  { lia. }
  apply outcome_bind. eapply outcome_mono; [exact Hout| |done].
  intros t [Ht Hlt]. apply IH; [done|lia].
Qed.

(** More fuel than needed changes nothing. *)
Lemma while_fuel fuel fuel' cond (body : S -> res E S) s :
  while fuel cond body s <> Undef -> (fuel <= fuel')%nat ->
  while fuel' cond body s = while fuel cond body s.
Proof.
  revert fuel' s. induction fuel as [|fuel IH]; intros fuel' s Hd Hle; simpl in *.
  - destruct fuel'; simpl; by destruct (cond s).
  - destruct fuel' as [|fuel']; [lia|]; simpl. destruct (cond s); [|done].
    destruct (body s); simpl in *; [|done..]. apply IH; [done|lia].
Qed.

Lemma outcome_for_each {A} (Q : A -> Prop) F i (xs : list A) (body : Z -> A -> res E unit) :
  (forall j x, x ∈ xs -> outcome (body j x) (fun _ => Q x) F) ->
  outcome (for_each i xs body) (fun _ => Forall Q xs) F.
Proof.
  revert i. induction xs as [|x xs IH]; intros i Hbody; [constructor|].
  cbn [for_each]. apply outcome_bind.
  eapply outcome_mono; [apply Hbody; left| |done]. intros [] Hx.
  eapply outcome_mono; [apply IH; intros; apply Hbody; by right| |done].
  by constructor.
Qed.

Lemma for_each_Ret {A} i (xs : list A) (body : Z -> A -> res E unit) :
  (forall j x, x ∈ xs -> body j x = Ret tt) -> for_each i xs body = Ret tt.
Proof.
  revert i. induction xs as [|x xs IH]; intros i Hbody; [done|].
  cbn [for_each]. rewrite Hbody by left. apply IH. intros; apply Hbody; by right.
Qed.
End loops.

(** * Switches

    [switch (v) { case k: return a; ... default: return d; }] *)

Fixpoint switch {A} (v : Z) (cases : list (Z * A)) (default : A) : A :=
  match cases with
  | [] => default
  | (k, a) :: cases => if v =? k then a else switch v cases default
  end.

Section switches.
Context {A : Type}.
Implicit Types (cases : list (Z * A)) (d : A).

Lemma switch_default v cases d : v ∉ cases.*1 -> switch v cases d = d.
Proof.
  induction cases as [|[k a] cases IH]; [done|]. cbn [switch fmap list_fmap fst].
  rewrite not_elem_of_cons. intros [Hne Hni].
  rewrite (proj2 (Z.eqb_neq _ _)) by done. by apply IH.
Qed.

Lemma switch_hit v cases d : v ∈ cases.*1 -> (v, switch v cases d) ∈ cases.
Proof.
  induction cases as [|[k a] cases IH]; cbn [switch fmap list_fmap fst]; intros Hv.
  { by apply elem_of_nil in Hv. }
  destruct (Z.eqb_spec v k) as [->|Hne]; [left|right]. apply IH.
  by apply elem_of_cons in Hv as [|].
Qed.

(** What holds of every case and of the default holds of the switch. *)
Lemma switch_ind (P : Z -> A -> Prop) v cases d :
  Forall (fun c => P c.1 c.2) cases -> (v ∉ cases.*1 -> P v d) -> P v (switch v cases d).
Proof.
  intros Hc Hd. destruct (decide (v ∈ cases.*1)) as [Hv|Hv].
  - rewrite list.Forall_forall in Hc. by apply (Hc _ (switch_hit v cases d Hv)).
  - rewrite switch_default by done. auto.
Qed.

(** Distinct results, none of them the default, identify the case. *)
Lemma switch_inj v v' cases d :
  NoDup cases.*2 -> switch v cases d <> d -> switch v cases d = switch v' cases d -> v = v'.
Proof.
  intros Hnd Hv Heq.
  assert (Hin : forall w, switch w cases d <> d -> (w, switch w cases d) ∈ cases).
  { intros w Hw. apply switch_hit. destruct (decide (w ∈ cases.*1)) as [|Hn]; [done|].
    by rewrite switch_default in Hw. }
  pose proof (Hin v Hv) as H1. pose proof (Hin v') as H2. rewrite <- Heq in H2. specialize (H2 Hv).
  apply list_elem_of_lookup in H1 as [i Hi], H2 as [j Hj].
  assert (i = j) as ->; [|congruence].
  eapply NoDup_lookup; [exact Hnd|..]; rewrite list_lookup_fmap; [by rewrite Hi|by rewrite Hj].
Qed.
End switches.

(** A test that holds of every integer below [n], by evaluation. *)
Lemma below_forall (f : Z -> bool) n v :
  forallb f (seqZ 0 n) = true -> 0 <= v < n -> f v = true.
Proof.
  intros Hall Hv. rewrite forallb_forall in Hall.
  apply Hall, list_elem_of_In, elem_of_seqZ. lia.
Qed.

(** * Buffers

    A C pointer to [n] readable bytes is the list of those bytes. *)

Definition size (bs : list byte) : Z := Z.of_nat (length bs).

Definition slice (bs : list byte) (off len : Z) : list byte :=
  take (Z.to_nat len) (drop (Z.to_nat off) bs).

Definition in_bounds (bs : list byte) (off len : Z) : bool :=
  (0 <=? off) && (0 <=? len) && (off + len <=? size bs).

(** The [len] bytes at [bs + off]: undefined when they are not all inside. *)
Definition view {E} (bs : list byte) (off len : Z) : res E (list byte) :=
  if in_bounds bs off len then Ret (slice bs off len) else Undef.

(** [memcpy] of a [uint32_t] from [bs + off], on a little-endian host. *)
Definition load32 {E} (bs : list byte) (off : Z) : res E Z :=
  w ← view bs off 4; Ret (le_val w).

(** [memcpy(dst + off, src, length src)] *)
Definition blit {E} (dst : list byte) (off : Z) (src : list byte) : res E (list byte) :=
  if in_bounds dst off (size src)
  then Ret (take (Z.to_nat off) dst ++ src ++ drop (Z.to_nat off + length src) dst)
  else Undef.

(** [bs[off]] *)
Definition load8 {E} (bs : list byte) (off : Z) : res E Z :=
  if off <? 0 then Undef else
  match bs !! Z.to_nat off with Some b => Ret (byte_val b) | None => Undef end.

(** Four bytes from [bs + off], combined by shifts. *)
Definition load_or_word {E} (bs : list byte) (off : Z) : res E Z :=
  b0 ← load8 bs off; b1 ← load8 bs (off + 1); b2 ← load8 bs (off + 2); b3 ← load8 bs (off + 3);
  Ret (or_word b0 b1 b2 b3).

(** [s] is the text of the C string in [block]. *)
Definition c_string (block s : list byte) : Prop :=
  exists rest, block = s ++ Byte.x00 :: rest /\ Byte.x00 ∉ s.

Lemma c_string_cons b block s :
  c_string (b :: block) s ->
  (s = [] /\ b = Byte.x00) \/ exists s', s = b :: s' /\ b <> Byte.x00 /\ c_string block s'.
Proof.
  intros (rest & Heq & Hs). destruct s as [|c s]; injection Heq as -> Heq; [by left|].
  apply not_elem_of_cons in Hs as [? ?]. right. exists s. split; [done|]. split; [done|]. by exists rest.
Qed.

Lemma c_string_nil s : ~ c_string [] s.
Proof. intros (rest & Heq & _). by destruct s. Qed.

Definition bytes_eqb (a b : list byte) : bool := bool_decide (a = b).

(** [memcmp(bs + off, name, strlen(name)) == 0] *)
Definition magic_at {E} (bs : list byte) (off : Z) (name : string) : res E bool :=
  w ← view bs off (Z.of_nat (String.length name));
  Ret (bytes_eqb w (String.list_byte_of_string name)).

Section buffers.
Context {E : Type}.
Implicit Types bs : list byte.

Lemma size_nonneg bs : 0 <= size bs.
Proof. unfold size. lia. Qed.

Lemma size_app a b : size (a ++ b) = size a + size b.
Proof. unfold size. rewrite length_app. lia. Qed.

Lemma in_bounds_spec bs off len :
  in_bounds bs off len = true <-> 0 <= off /\ 0 <= len /\ off + len <= size bs.
Proof. unfold in_bounds. lia. Qed.

Lemma length_slice bs off len :
  0 <= off -> 0 <= len -> off + len <= size bs -> length (slice bs off len) = Z.to_nat len.
Proof. intros. unfold slice, size in *. rewrite length_take, length_drop. lia. Qed.

Lemma size_slice bs off len :
  0 <= off -> 0 <= len -> off + len <= size bs -> size (slice bs off len) = len.
Proof. intros. unfold size at 1. rewrite length_slice by done. lia. Qed.

Lemma view_ok bs off len :
  0 <= off -> 0 <= len -> off + len <= size bs -> view (E:=E) bs off len = Ret (slice bs off len).
Proof. intros. unfold view. by rewrite (proj2 (in_bounds_spec _ _ _)). Qed.

Lemma view_Ret_inv bs off len w :
  view (E:=E) bs off len = Ret w ->
  0 <= off /\ 0 <= len /\ off + len <= size bs /\ w = slice bs off len.
Proof.
  unfold view. destruct (in_bounds bs off len) eqn:Hb; [|done].
  apply in_bounds_spec in Hb. intros [= <-]. intuition.
Qed.

Lemma load32_ok bs off :
  0 <= off -> off + 4 <= size bs -> load32 (E:=E) bs off = Ret (le_val (slice bs off 4)).
Proof. intros. unfold load32. by rewrite view_ok by lia. Qed.

Lemma le32_range bs off : 0 <= off -> off + 4 <= size bs -> in_u32 (le_val (slice bs off 4)).
Proof.
  intros. pose proof (le_val_range (slice bs off 4)) as Hr.
  rewrite length_slice in Hr by lia. exact Hr.
Qed.

Lemma slice_slice bs off len off' len' :
  0 <= off -> 0 <= off' -> 0 <= len' -> off' + len' <= len ->
  slice (slice bs off len) off' len' = slice bs (off + off') len'.
Proof.
  intros. unfold slice. rewrite skipn_firstn_comm, drop_drop, take_take.
  f_equal; [lia|f_equal; lia].
Qed.

Lemma slice_0 bs : slice bs 0 (size bs) = bs.
Proof. unfold slice, size. rewrite Nat2Z.id. apply firstn_all. Qed.

Lemma slice_app_l a b off len :
  0 <= off -> 0 <= len -> off + len <= size a -> slice (a ++ b) off len = slice a off len.
Proof.
  intros. unfold slice, size in *. rewrite drop_app_le by lia.
  rewrite take_app_le; [done|]. rewrite length_drop. lia.
Qed.

Lemma slice_app_r a b off len :
  size a <= off -> slice (a ++ b) off len = slice b (off - size a) len.
Proof.
  intros. unfold slice, size in *. rewrite drop_app_ge by lia.
  do 2 f_equal. lia.
Qed.

Lemma slice_split bs off n m :
  0 <= off -> 0 <= n -> 0 <= m -> slice bs off (n + m) = slice bs off n ++ slice bs (off + n) m.
Proof.
  intros. unfold slice. rewrite !Z2Nat.inj_add by lia.
  rewrite <- drop_drop. by rewrite take_take_drop.
Qed.

Lemma blit_ok dst off src :
  0 <= off -> off + size src <= size dst ->
  blit (E:=E) dst off src =
    Ret (take (Z.to_nat off) dst ++ src ++ drop (Z.to_nat off + length src) dst).
Proof.
  intros. unfold blit. pose proof (size_nonneg src).
  by rewrite (proj2 (in_bounds_spec _ _ _)).
Qed.

Lemma bytes_eqb_eq a b : bytes_eqb a b = true <-> a = b.
Proof. apply bool_decide_eq_true. Qed.

Lemma load8_ok bs off b :
  0 <= off -> bs !! Z.to_nat off = Some b -> load8 (E:=E) bs off = Ret (byte_val b).
Proof. intros Ho Hb. unfold load8. rewrite (proj2 (Z.ltb_ge _ _)), Hb by done. done. Qed.

(** The shifts read what [memcpy] reads. *)
Lemma load_or_word_ok bs off :
  0 <= off -> off + 4 <= size bs -> load_or_word (E:=E) bs off = Ret (le_val (slice bs off 4)).
Proof.
  intros Ho Hs. set (i := Z.to_nat off).
  assert (Hget : forall k : nat, (k < 4)%nat ->
    exists b, bs !! (i + k)%nat = Some b /\ load8 (E:=E) bs (off + Z.of_nat k) = Ret (byte_val b)).
  { intros k Hk. destruct (lookup_lt_is_Some_2 bs (i + k)) as [b Hb]; [unfold size in Hs; lia|].
    exists b. split; [done|]. apply load8_ok; [lia|]. rewrite <- Hb. f_equal. lia. }
  destruct (Hget 0%nat) as (b0 & H0 & E0); [lia|]. destruct (Hget 1%nat) as (b1 & H1 & E1); [lia|].
  destruct (Hget 2%nat) as (b2 & H2 & E2); [lia|]. destruct (Hget 3%nat) as (b3 & H3 & E3); [lia|].
  rewrite Z.add_0_r in E0. unfold load_or_word. rewrite E0. cbn [mbind res_bind].
  change (Z.of_nat 1) with 1 in E1. change (Z.of_nat 2) with 2 in E2.
  change (Z.of_nat 3) with 3 in E3. rewrite E1, E2, E3. cbn [mbind res_bind]. rewrite or_word_le. do 2 f_equal.
  unfold slice. fold i. symmetry. change (Z.to_nat 4) with 4%nat.
  rewrite Nat.add_0_r in H0. rewrite (drop_S _ _ _ H0).
  rewrite Nat.add_1_r in H1. rewrite (drop_S _ _ _ H1).
  replace (i + 2)%nat with (S (S i)) in H2 by lia. rewrite (drop_S _ _ _ H2).
  replace (i + 3)%nat with (S (S (S i))) in H3 by lia. by rewrite (drop_S _ _ _ H3).
Qed.

Lemma slice_drop bs off k len :
  0 <= off -> 0 <= k -> slice (drop (Z.to_nat off) bs) k len = slice bs (off + k) len.
Proof. intros. unfold slice. rewrite drop_drop. do 2 f_equal. lia. Qed.

Lemma size_drop bs off : 0 <= off <= size bs -> size (drop (Z.to_nat off) bs) = size bs - off.
Proof. intros. unfold size in *. rewrite length_drop. lia. Qed.

Lemma outcome_view bs off len (Q : list byte -> Prop) (F : E -> Prop) :
  0 <= off -> 0 <= len -> off + len <= size bs -> Q (slice bs off len) ->
  outcome (view bs off len) Q F.
Proof. intros. by rewrite view_ok. Qed.

Lemma outcome_load32 bs off (Q : Z -> Prop) (F : E -> Prop) :
  0 <= off -> off + 4 <= size bs ->
  (in_u32 (le_val (slice bs off 4)) -> Q (le_val (slice bs off 4))) ->
  outcome (load32 bs off) Q F.
Proof. intros ? ? HQ. rewrite load32_ok by done. apply HQ, le32_range; done. Qed.
End buffers.

(** * Automation *)

(** Remove the wrap-arounds whose argument [lia] shows to be in range, the
    innermost first. *)
Ltac wrap_step :=
  match goal with
  | |- context [u64 ?z] =>
      lazymatch z with context [u64 _] => fail | context [u32 _] => fail | _ => idtac end;
      rewrite (u64_small z) by lia
  | |- context [u32 ?z] =>
      lazymatch z with context [u64 _] => fail | context [u32 _] => fail | _ => idtac end;
      rewrite (u32_small z) by lia
  end.
Ltac wrap := repeat wrap_step.

(** Case analysis on the first integer test of the goal. *)
Ltac zcase :=
  match goal with
  | |- context [?a <? ?b] => destruct (Z.ltb_spec a b)
  | |- context [?a <=? ?b] => destruct (Z.leb_spec a b)
  | |- context [?a =? ?b] => destruct (Z.eqb_spec a b)
  end.

(** One reduction of the monad. *)
Ltac mstep := cbn [mbind res_bind mret res_ret or_fail].

Create HintDb sizes.
#[export] Hint Resolve size_nonneg : sizes.

(** * Record update

    [r <| f := v |>] is [r] with field [f] set to [v].  A record type lists its
    fields once, in an [Eta] instance that rebuilds the record from them; the
    setters are derived from it. *)

Class Eta (R : Type) := eta_expand : R -> R.
Class Setter {R T : Type} (field : R -> T) := set_field : (T -> T) -> R -> R.
Arguments set_field {R T} field {_} f r.

Ltac derive_setter :=
  lazymatch goal with
  | |- @Setter ?R ?T ?field =>
      let i := constr:(_ : Eta R) in
      let r := fresh "r" in
      let g := fresh "g" in
      intros g r;
      let e := constr:(@eta_expand R i r) in
      let e := eval hnf in e in
      let h := eval pattern (field r) in e in
      lazymatch h with ?F _ => let v := eval cbv beta in (F (g (field r))) in exact v end
  end.

Notation "r <| f := v |>" := (set_field f (fun _ => v) r)
  (at level 1, left associativity, f at level 9, v at level 200, format "r  <| f  :=  v |>").
Notation "r <| f ::= g |>" := (set_field f g r)
  (at level 1, left associativity, f at level 9, g at level 200, format "r  <| f  ::=  g |>").

(** Read fields through updates, one update at a time. *)
Ltac fields :=
  repeat match goal with
  | |- context [?p (@set_field ?R ?T ?q ?i ?f ?r)] =>
      first [ constr_eq p q; change (p (@set_field R T q i f r)) with (f (p r)); cbv beta
            | change (p (@set_field R T q i f r)) with (p r) ]
  | H : context [?p (@set_field ?R ?T ?q ?i ?f ?r)] |- _ =>
      first [ constr_eq p q; change (p (@set_field R T q i f r)) with (f (p r)) in H; cbv beta in H
            | change (p (@set_field R T q i f r)) with (p r) in H ]
  end.

(** Boolean tests in the context as propositions. *)
Ltac bools :=
  repeat match goal with
  | H : _ && _ = true |- _ => apply andb_true_iff in H as [? ?]
  | H : _ || _ = false |- _ => apply orb_false_iff in H as [? ?]
  | H : negb _ = true |- _ => apply negb_true_iff in H
  | H : negb _ = false |- _ => apply negb_false_iff in H
  | H : (_ =? _) = true |- _ => apply Z.eqb_eq in H
  | H : (_ =? _) = false |- _ => apply Z.eqb_neq in H
  | H : (_ <? _) = true |- _ => apply Z.ltb_lt in H
  | H : (_ <? _) = false |- _ => apply Z.ltb_ge in H
  | H : (_ <=? _) = true |- _ => apply Z.leb_le in H
  | H : (_ <=? _) = false |- _ => apply Z.leb_gt in H
  | H : bool_decide _ = true |- _ => apply bool_decide_eq_true in H
  | H : bool_decide _ = false |- _ => apply bool_decide_eq_false in H
  end.
