(* ===== verification/CArray.v ===== *)
(** C arrays indexed by [int]: reads and writes outside the array, through a
    null pointer, or of a cell that was allocated and never written, are
    undefined.  [znth] and [zset] are the pure lookup and update the proofs
    reason with. *)

From S2P Require Import Prelude.

(** [xs[i]] where it exists, and the array with [xs[i]] replaced. *)
Definition znth {A} (xs : list A) (i : Z) : option A :=
  if 0 <=? i then xs !! Z.to_nat i else None.
Definition zset {A} (xs : list A) (i : Z) (v : A) : list A :=
  if 0 <=? i then <[Z.to_nat i := v]> xs else xs.

Definition zlength {A} (xs : list A) : Z := Z.of_nat (length xs).

Section access.
Context {E A : Type}.

Definition aget (xs : list A) (i : Z) : res E A :=
  match znth xs i with Some x => Ret x | None => Undef end.

Definition aput (xs : list A) (i : Z) (v : A) : res E (list A) :=
  match znth xs i with Some _ => Ret (zset xs i v) | None => Undef end.

Definition aupd (xs : list A) (i : Z) (f : A -> A) : res E (list A) :=
  x ← aget xs i; Ret (zset xs i (f x)).

(** Following a pointer that may be null. *)
Definition ptr (p : option A) : res E A :=
  match p with Some x => Ret x | None => Undef end.

(** The loops that search an array: [for (i < n) if (test(i)) return true]. *)
Fixpoint any_index (n : nat) (i : Z) (test : Z -> res E bool) : res E bool :=
  match n with
  | O => Ret false
  | S n => found ← test i; if found : bool then Ret true else any_index n (i + 1) test
  end.
End access.

(** Memory from [malloc]: cells that hold nothing until they are written. *)
Abbreviation cells := (list (option Z)).

Definition uninitialised (n : Z) : cells := replicate (Z.to_nat n) None.

Definition cget {E} (xs : cells) (i : Z) : res E Z := x ← aget xs i; ptr x.
Definition cput {E} (xs : cells) (i v : Z) : res E cells := aput xs i (Some v).

(** * C strings

    A string is the array it is in, up to the first NUL or beyond. *)

(** [strcmp(a, b) == 0]; both are arrays, and reading past one is undefined. *)
Fixpoint strings_equal {E} (a b : list byte) : res E bool :=
  match a, b with
  | x :: a, y :: b =>
      if bool_decide (x <> y) then Ret false
      else if bool_decide (x = Byte.x00) then Ret true else strings_equal a b
  | _, _ => Undef
  end.

(** [strlen] *)
Fixpoint strlen {E} (s : list byte) : res E Z :=
  match s with
  | [] => Undef
  | b :: s => if bool_decide (b = Byte.x00) then Ret 0 else n ← strlen s; Ret (n + 1)
  end.

(** [memcmp(a, b, n * sizeof a[0]) == 0] of two arrays. *)
Definition memory_equal {E A} `{EqDecision A} (n : Z) (a b : list A) : res E bool :=
  if (zlength a <? n) || (zlength b <? n) then Undef
  else Ret (bool_decide (take (Z.to_nat n) a = take (Z.to_nat n) b)).

(** An array whose cells a loop has all set to [v] before any use. *)
Definition filled {A} (n : Z) (v : A) : list A := replicate (Z.to_nat n) v.

Section lemmas.
Context {E A : Type}.
Implicit Types (xs : list A) (i j : Z).

Lemma znth_Some xs i x : znth xs i = Some x -> 0 <= i < zlength xs.
Proof.
  unfold znth, zlength. destruct (Z.leb_spec 0 i); [|done].
  intros Hx%lookup_lt_Some. lia.
Qed.

Lemma znth_is_Some xs i : 0 <= i < zlength xs -> exists x, znth xs i = Some x.
Proof.
  unfold znth, zlength. intros Hi. rewrite (proj2 (Z.leb_le 0 i)) by lia.
  apply lookup_lt_is_Some. lia.
Qed.

Lemma znth_None xs i : znth xs i = None <-> ~ 0 <= i < zlength xs.
Proof.
  split.
  - intros Hn Hi. destruct (znth_is_Some xs i Hi) as [x Hx]. congruence.
  - intros Hi. destruct (znth xs i) eqn:Hx; [|done]. by apply znth_Some in Hx.
Qed.

Lemma length_zset xs i v : length (zset xs i v) = length xs.
Proof. unfold zset. destruct (0 <=? i); [apply length_insert|done]. Qed.

Lemma zlength_zset xs i v : zlength (zset xs i v) = zlength xs.
Proof. unfold zlength. by rewrite length_zset. Qed.

Lemma znth_zset_eq xs i v : 0 <= i < zlength xs -> znth (zset xs i v) i = Some v.
Proof.
  unfold znth, zset, zlength. intros Hi. rewrite (proj2 (Z.leb_le 0 i)) by lia.
  apply list_lookup_insert_eq. lia.
Qed.

Lemma znth_zset_ne xs i j v : i <> j -> znth (zset xs i v) j = znth xs j.
Proof.
  unfold znth, zset. intros Hne. destruct (Z.leb_spec 0 j), (Z.leb_spec 0 i); try done.
  apply list_lookup_insert_ne. lia.
Qed.

Lemma znth_zset xs i j v :
  znth (zset xs i v) j =
  if decide (i = j) then (if decide (0 <= i < zlength xs) then Some v else None) else znth xs j.
Proof.
  destruct (decide (i = j)) as [<-|Hne]; [|by apply znth_zset_ne].
  destruct (decide _) as [Hi|Hi]; [by apply znth_zset_eq|].
  apply znth_None. by rewrite zlength_zset.
Qed.

Lemma znth_nonneg xs i : 0 <= i -> znth xs i = xs !! Z.to_nat i.
Proof. intros. unfold znth. by rewrite (proj2 (Z.leb_le 0 i)) by lia. Qed.

Lemma znth_of_nat xs (k : nat) : znth xs (Z.of_nat k) = xs !! k.
Proof. rewrite znth_nonneg, Nat2Z.id by lia. done. Qed.

Lemma znth_filled n (v : A) i : 0 <= i < n -> znth (filled n v) i = Some v.
Proof.
  intros Hi. rewrite znth_nonneg by lia. unfold filled. apply lookup_replicate_2. lia.
Qed.

Lemma zlength_filled n (v : A) : 0 <= n -> zlength (filled n v) = n.
Proof. intros. unfold zlength, filled. rewrite length_replicate. lia. Qed.

Lemma znth_elem_of xs x : x ∈ xs <-> exists i, znth xs i = Some x.
Proof.
  rewrite list_elem_of_lookup. split.
  - intros [k Hk]. exists (Z.of_nat k). by rewrite znth_of_nat.
  - intros [i Hi]. unfold znth in Hi. destruct (0 <=? i); [eauto|done].
Qed.

Lemma aget_ok xs i x : znth xs i = Some x -> aget (E:=E) xs i = Ret x.
Proof. intros Hx. unfold aget. by rewrite Hx. Qed.

Lemma aput_ok xs i v : 0 <= i < zlength xs -> aput (E:=E) xs i v = Ret (zset xs i v).
Proof. intros Hi. unfold aput. by destruct (znth_is_Some xs i Hi) as [x ->]. Qed.

Lemma aupd_ok xs i f x : znth xs i = Some x -> aupd (E:=E) xs i f = Ret (zset xs i (f x)).
Proof. intros Hx. unfold aupd. by rewrite (aget_ok _ _ _ Hx). Qed.

Lemma any_index_spec (P : Z -> Prop) n i (test : Z -> res E bool) :
  (forall j, i <= j < i + Z.of_nat n -> exists b, test j = Ret b /\ (b = true <-> P j)) ->
  exists b, any_index n i test = Ret b /\
    (b = true <-> exists j, i <= j < i + Z.of_nat n /\ P j).
Proof.
  revert i. induction n as [|n IH]; intros i Ht.
  { exists false. split; [done|]. split; [done|]. intros (j & Hj & _). lia. }
  cbn [any_index]. destruct (Ht i) as (b & -> & Hb); [lia|]. mstep. destruct b.
  { exists true. split; [done|]. split; [|done]. intros _. exists i. split; [lia|]. by apply Hb. }
  destruct (IH (i + 1)) as (b & Hrun & Hb'); [intros; apply Ht; lia|].
  exists b. split; [done|]. rewrite Hb'. split.
  - intros (j & Hj & HP). exists j. split; [lia|done].
  - intros (j & Hj & HP). exists j. split; [|done]. assert (i <> j); [|lia].
    intros ->. apply Hb in HP. done.
Qed.
End lemmas.

Lemma zlength_uninitialised n : 0 <= n -> zlength (uninitialised n) = n.
Proof. apply zlength_filled. Qed.

Lemma cget_ok {E} (xs : cells) i v : znth xs i = Some (Some v) -> cget (E:=E) xs i = Ret v.
Proof. intros Hx. unfold cget. by rewrite (aget_ok _ _ _ Hx). Qed.

Lemma zlength_nonneg {A} (xs : list A) : 0 <= zlength xs.
Proof. unfold zlength. lia. Qed.
#[export] Hint Resolve zlength_nonneg : sizes.

Lemma znth_app_l {A} (l l' : list A) i x : znth l i = Some x -> znth (l ++ l') i = Some x.
Proof.
  unfold znth. destruct (0 <=? i); [|done]. intros Hx. by apply lookup_app_l_Some.
Qed.

Lemma znth_snoc {A} (l : list A) x i y :
  znth (l ++ [x]) i = Some y <-> znth l i = Some y \/ (i = zlength l /\ y = x).
Proof.
  unfold znth, zlength. destruct (Z.leb_spec 0 i).
  - rewrite lookup_app_Some. split.
    + intros [?|[Hl Hx]]; [by left|]. apply list_lookup_singleton_Some in Hx as [? ?]. right.
      split; [lia|done].
    + intros [?|[-> ->]]; [by left|]. right. rewrite Nat2Z.id, Nat.sub_diag. split; [lia|done].
  - split; [done|]. intros [?|[? _]]; [done|lia].
Qed.

Lemma zlength_app {A} (l l' : list A) : zlength (l ++ l') = zlength l + zlength l'.
Proof. unfold zlength. rewrite length_app. lia. Qed.

Lemma zlength_cons {A} (x : A) l : zlength (x :: l) = zlength l + 1.
Proof. unfold zlength. cbn [length]. lia. Qed.

Lemma zlength_snoc {A} (x : A) l : zlength (l ++ [x]) = zlength l + 1.
Proof. by rewrite zlength_app. Qed.

(** The element after a prefix. *)
Lemma znth_middle {A} (l rest : list A) x : znth (l ++ x :: rest) (zlength l) = Some x.
Proof.
  unfold zlength. rewrite znth_of_nat, lookup_app_r, Nat.sub_diag by lia. done.
Qed.
