(* ===== verification/UnityCommon.v ===== *)
(** The functions of the UnityCommon submodule that the DXBC layer calls.

    UnityCommon is a git submodule whose sources are not part of this
    repository, so its functions are parameters: [UnityCommon] collects them,
    [UnityCommonSpec] states the documented behaviour the code relies on, and
    [MemoryAvailable] is the extra assumption that every allocation succeeds,
    used only by the theorems that say a well-formed input is accepted. *)

From S2P Require Import Prelude.

Class UnityCommon := {
  (** [read_le32]: a little-endian word as a host integer *)
  read_le32 : Z -> Z;
  (** whether [mem_alloc(n)], [mem_realloc(p, old, new)] return non-NULL *)
  mem_alloc : Z -> bool;
  mem_realloc : Z -> Z -> bool;
  dxbc_size_add_overflows : Z -> Z -> bool;
  dxbc_size_multiply_overflows : Z -> Z -> bool;
}.

Class UnityCommonSpec (U : UnityCommon) : Prop := {
  read_le32_spec v : in_u32 v -> read_le32 v = v;
  size_add_overflows_spec a b :
    in_u64 a -> in_u64 b -> dxbc_size_add_overflows a b = (2 ^ 64 <=? a + b);
  size_multiply_overflows_spec a b :
    in_u64 a -> in_u64 b -> dxbc_size_multiply_overflows a b = (2 ^ 64 <=? a * b);
}.

Class MemoryAvailable (U : UnityCommon) : Prop := {
  mem_alloc_ok n : mem_alloc n = true;
  mem_realloc_ok o n : mem_realloc o n = true;
}.

(** A concrete instance, used by the witnesses. *)
Definition unity_common_ref : UnityCommon := {|
  read_le32 v := v;
  mem_alloc _ := true;
  mem_realloc _ _ := true;
  dxbc_size_add_overflows a b := 2 ^ 64 <=? a + b;
  dxbc_size_multiply_overflows a b := 2 ^ 64 <=? a * b;
|}.

Lemma unity_common_ref_spec : UnityCommonSpec unity_common_ref.
Proof. by split. Qed.

Lemma unity_common_ref_memory : MemoryAvailable unity_common_ref.
Proof. by split. Qed.

(** [read_u32_le] of dxbc_document.c, and the same two lines in
    dxbc_container.c, dxbc_hash.c and dxbc_stage_contract.c: [memcpy] of four
    bytes followed by [read_le32]. *)
Definition read_u32_le `{UnityCommon} {E} (bs : list byte) (off : Z) : res E Z :=
  v ← load32 bs off; Ret (read_le32 v).

(** The growth step the array appends of the code share: nothing while there is
    room, else the capacity doubles (from [initial]), unless the doubling wraps,
    the byte size would overflow, or [mem_realloc] fails.  The result is the new
    capacity. *)
Definition grow_array `{UnityCommon} (initial element_size count capacity : Z) : option Z :=
  if count =? capacity then
    let new_capacity := if capacity =? 0 then initial else u64 (capacity * 2) in
    if (new_capacity <? capacity) || (SIZE_MAX / element_size <? new_capacity) then None
    else if mem_realloc (u64 (capacity * element_size)) (u64 (new_capacity * element_size))
    then Some new_capacity else None
  else Some capacity.

(** Some allocation request was refused. *)
Definition memory_failed `{UnityCommon} : Prop :=
  (exists n, mem_alloc n = false) \/ (exists o n, mem_realloc o n = false).

(** What a growable array with [count] elements maintains. *)
Definition capacity_ok (initial count capacity : Z) : Prop :=
  count <= capacity <= Z.max initial (2 * count).

Section read.
Context `{U : UnityCommon} {HU : UnityCommonSpec U} {E : Type}.

Lemma read_u32_le_ok bs off :
  0 <= off -> off + 4 <= size bs ->
  read_u32_le (E:=E) bs off = Ret (le_val (slice bs off 4)).
Proof.
  intros. unfold read_u32_le. rewrite load32_ok by done. simpl.
  by rewrite read_le32_spec by (apply le32_range; done).
Qed.

Lemma outcome_read_u32_le bs off (Q : Z -> Prop) (F : E -> Prop) :
  0 <= off -> off + 4 <= size bs ->
  (in_u32 (le_val (slice bs off 4)) -> Q (le_val (slice bs off 4))) ->
  outcome (read_u32_le bs off) Q F.
Proof. intros ? ? HQ. rewrite read_u32_le_ok by done. apply HQ, le32_range; done. Qed.
End read.

Section memory.
Context `{U : UnityCommon}.

Lemma memory_available_not_failed : MemoryAvailable U -> ~ memory_failed.
Proof.
  intros HM [[n Hn]|(o & n & Hn)].
  - by rewrite mem_alloc_ok in Hn.
  - by rewrite mem_realloc_ok in Hn.
Qed.

Lemma capacity_ok_empty initial : 0 < initial -> capacity_ok initial 0 0.
Proof. unfold capacity_ok. lia. Qed.

(** While the count stays far from the address-space limit, growth fails only
    for lack of memory, and keeps the capacity in proportion. *)
Lemma grow_array_spec initial element_size count capacity :
  0 < initial < 2 ^ 32 -> 0 < element_size <= 1024 -> 0 <= count < 2 ^ 40 ->
  capacity_ok initial count capacity ->
  match grow_array initial element_size count capacity with
  | Some capacity' => capacity_ok initial (count + 1) capacity'
  | None => memory_failed
  end.
Proof.
  unfold capacity_ok, grow_array. intros Hi He Hc Hk.
  destruct (Z.eqb_spec count capacity) as [Heq|]; [|lia].
  assert (Hmax : 2 ^ 50 <= SIZE_MAX / element_size).
  { unfold SIZE_MAX. apply Z.div_le_lower_bound; lia. }
  destruct (Z.eqb_spec capacity 0) as [Hz|Hz]; [|rewrite (u64_small (capacity * 2)) by lia].
  all: rewrite (proj2 (Z.ltb_ge _ _)), (proj2 (Z.ltb_ge (SIZE_MAX / _) _)) by lia; cbn [orb].
  all: destruct (mem_realloc _ _) eqn:Hm; [lia|right; eauto].
Qed.
End memory.
