(* ===== verification/Hash.v ===== *)
(** The DXBC container checksum: [src/dxbc/dxbc_hash.c]. *)

From S2P Require Import Prelude UnityCommon.

(** * The MD5 round functions *)

Definition MD5_F (x y z : Z) : Z := Z.lor (Z.land x y) (Z.land (u32 (Z.lnot x)) z).
Definition MD5_G (x y z : Z) : Z := Z.lor (Z.land x z) (Z.land y (u32 (Z.lnot z))).
Definition MD5_H (x y z : Z) : Z := Z.lxor (Z.lxor x y) z.
Definition MD5_I (x y z : Z) : Z := Z.lxor y (Z.lor x (u32 (Z.lnot z))).

Definition ROTATE_LEFT (x n : Z) : Z := Z.lor (u32 (Z.shiftl x n)) (Z.shiftr x (32 - n)).

(** The four step macros: [a += f(b,c,d) + x + ac; a = rotl(a, s); a += b]. *)
Definition md5_step (f : Z -> Z -> Z -> Z) (a b c d x s ac : Z) : Z :=
  let a := u32 (a + u32 (u32 (f b c d + x) + ac)) in
  let a := ROTATE_LEFT a s in
  u32 (a + b).

Definition MD5_FF := md5_step MD5_F.
Definition MD5_GG := md5_step MD5_G.
Definition MD5_HH := md5_step MD5_H.
Definition MD5_II := md5_step MD5_I.

Definition MD5_S11 := 7.
Definition MD5_S12 := 12.
Definition MD5_S13 := 17.
Definition MD5_S14 := 22.
Definition MD5_S21 := 5.
Definition MD5_S22 := 9.
Definition MD5_S23 := 14.
Definition MD5_S24 := 20.
Definition MD5_S31 := 4.
Definition MD5_S32 := 11.
Definition MD5_S33 := 16.
Definition MD5_S34 := 23.
Definition MD5_S41 := 6.
Definition MD5_S42 := 10.
Definition MD5_S43 := 15.
Definition MD5_S44 := 21.

Definition MD5_PADDING : list byte := Byte.x80 :: repeat Byte.x00 63.

(** * The digest state and the block transform *)

(** [uint32_t buf[4]] *)
Record MD5_BUF := { buf0 : Z; buf1 : Z; buf2 : Z; buf3 : Z }.

(** [in_] is uninitialised memory until [md5_update] writes it. *)
Record MD5_CTX := { i0 : Z; i1 : Z; buf : MD5_BUF; in_ : list byte }.

Definition md5_transform (h : MD5_BUF) (words : list Z) : MD5_BUF :=
  let x := fun k => nth k words 0 in
  let a := buf0 h in
  let b := buf1 h in
  let c := buf2 h in
  let d := buf3 h in
  let a := MD5_FF a b c d (x 0%nat) MD5_S11 3614090360 in
  let d := MD5_FF d a b c (x 1%nat) MD5_S12 3905402710 in
  let c := MD5_FF c d a b (x 2%nat) MD5_S13 606105819 in
  let b := MD5_FF b c d a (x 3%nat) MD5_S14 3250441966 in
  let a := MD5_FF a b c d (x 4%nat) MD5_S11 4118548399 in
  let d := MD5_FF d a b c (x 5%nat) MD5_S12 1200080426 in
  let c := MD5_FF c d a b (x 6%nat) MD5_S13 2821735955 in
  let b := MD5_FF b c d a (x 7%nat) MD5_S14 4249261313 in
  let a := MD5_FF a b c d (x 8%nat) MD5_S11 1770035416 in
  let d := MD5_FF d a b c (x 9%nat) MD5_S12 2336552879 in
  let c := MD5_FF c d a b (x 10%nat) MD5_S13 4294925233 in
  let b := MD5_FF b c d a (x 11%nat) MD5_S14 2304563134 in
  let a := MD5_FF a b c d (x 12%nat) MD5_S11 1804603682 in
  let d := MD5_FF d a b c (x 13%nat) MD5_S12 4254626195 in
  let c := MD5_FF c d a b (x 14%nat) MD5_S13 2792965006 in
  let b := MD5_FF b c d a (x 15%nat) MD5_S14 1236535329 in
  let a := MD5_GG a b c d (x 1%nat) MD5_S21 4129170786 in
  let d := MD5_GG d a b c (x 6%nat) MD5_S22 3225465664 in
  let c := MD5_GG c d a b (x 11%nat) MD5_S23 643717713 in
  let b := MD5_GG b c d a (x 0%nat) MD5_S24 3921069994 in
  let a := MD5_GG a b c d (x 5%nat) MD5_S21 3593408605 in
  let d := MD5_GG d a b c (x 10%nat) MD5_S22 38016083 in
  let c := MD5_GG c d a b (x 15%nat) MD5_S23 3634488961 in
  let b := MD5_GG b c d a (x 4%nat) MD5_S24 3889429448 in
  let a := MD5_GG a b c d (x 9%nat) MD5_S21 568446438 in
  let d := MD5_GG d a b c (x 14%nat) MD5_S22 3275163606 in
  let c := MD5_GG c d a b (x 3%nat) MD5_S23 4107603335 in
  let b := MD5_GG b c d a (x 8%nat) MD5_S24 1163531501 in
  let a := MD5_GG a b c d (x 13%nat) MD5_S21 2850285829 in
  let d := MD5_GG d a b c (x 2%nat) MD5_S22 4243563512 in
  let c := MD5_GG c d a b (x 7%nat) MD5_S23 1735328473 in
  let b := MD5_GG b c d a (x 12%nat) MD5_S24 2368359562 in
  let a := MD5_HH a b c d (x 5%nat) MD5_S31 4294588738 in
  let d := MD5_HH d a b c (x 8%nat) MD5_S32 2272392833 in
  let c := MD5_HH c d a b (x 11%nat) MD5_S33 1839030562 in
  let b := MD5_HH b c d a (x 14%nat) MD5_S34 4259657740 in
  let a := MD5_HH a b c d (x 1%nat) MD5_S31 2763975236 in
  let d := MD5_HH d a b c (x 4%nat) MD5_S32 1272893353 in
  let c := MD5_HH c d a b (x 7%nat) MD5_S33 4139469664 in
  let b := MD5_HH b c d a (x 10%nat) MD5_S34 3200236656 in
  let a := MD5_HH a b c d (x 13%nat) MD5_S31 681279174 in
  let d := MD5_HH d a b c (x 0%nat) MD5_S32 3936430074 in
  let c := MD5_HH c d a b (x 3%nat) MD5_S33 3572445317 in
  let b := MD5_HH b c d a (x 6%nat) MD5_S34 76029189 in
  let a := MD5_HH a b c d (x 9%nat) MD5_S31 3654602809 in
  let d := MD5_HH d a b c (x 12%nat) MD5_S32 3873151461 in
  let c := MD5_HH c d a b (x 15%nat) MD5_S33 530742520 in
  let b := MD5_HH b c d a (x 2%nat) MD5_S34 3299628645 in
  let a := MD5_II a b c d (x 0%nat) MD5_S41 4096336452 in
  let d := MD5_II d a b c (x 7%nat) MD5_S42 1126891415 in
  let c := MD5_II c d a b (x 14%nat) MD5_S43 2878612391 in
  let b := MD5_II b c d a (x 5%nat) MD5_S44 4237533241 in
  let a := MD5_II a b c d (x 12%nat) MD5_S41 1700485571 in
  let d := MD5_II d a b c (x 3%nat) MD5_S42 2399980690 in
  let c := MD5_II c d a b (x 10%nat) MD5_S43 4293915773 in
  let b := MD5_II b c d a (x 1%nat) MD5_S44 2240044497 in
  let a := MD5_II a b c d (x 8%nat) MD5_S41 1873313359 in
  let d := MD5_II d a b c (x 15%nat) MD5_S42 4264355552 in
  let c := MD5_II c d a b (x 6%nat) MD5_S43 2734768916 in
  let b := MD5_II b c d a (x 13%nat) MD5_S44 1309151649 in
  let a := MD5_II a b c d (x 4%nat) MD5_S41 4149444226 in
  let d := MD5_II d a b c (x 11%nat) MD5_S42 3174756917 in
  let c := MD5_II c d a b (x 2%nat) MD5_S43 718787259 in
  let b := MD5_II b c d a (x 9%nat) MD5_S44 3951481745 in
  {| buf0 := u32 (buf0 h + a); buf1 := u32 (buf1 h + b);
     buf2 := u32 (buf2 h + c); buf3 := u32 (buf3 h + d) |}.

Definition md5_iv : MD5_BUF :=
  {| buf0 := 0x67452301; buf1 := 0xefcdab89; buf2 := 0x98badcfe; buf3 := 0x10325476 |}.

(** [md5_init] leaves [in] as it finds it. *)
Definition md5_init (ctx : MD5_CTX) : MD5_CTX :=
  {| i0 := 0; i1 := 0; buf := md5_iv; in_ := in_ ctx |}.

(** The sixteen words of a 64-byte block. *)
Fixpoint block_words (n : nat) (bs : list byte) : list Z :=
  match n with
  | O => []
  | S n => le_val (take 4 bs) :: block_words n (drop 4 bs)
  end.

(** [(in[ii+3] << 24) | (in[ii+2] << 16) | (in[ii+1] << 8) | in[ii]], for the
    sixteen words of the buffer. *)
Fixpoint ctx_words (n : nat) (bs : list byte) : list Z :=
  match n, bs with
  | S n, b0 :: b1 :: b2 :: b3 :: bs =>
      Z.lor (Z.lor (Z.lor (u32 (Z.shiftl (byte_val b3) 24)) (u32 (Z.shiftl (byte_val b2) 16)))
                   (u32 (Z.shiftl (byte_val b1) 8))) (byte_val b0) :: ctx_words n bs
  | _, _ => []
  end.

(** One iteration of the [while (inLen--)] loop: store the byte at [mdi], and
    transform and reset [mdi] when the buffer is full. *)
Definition md5_update_byte {E} (st : Z * MD5_CTX) (b : byte) : res E (Z * MD5_CTX) :=
  let '(mdi, ctx) := st in
  buffer ← blit (in_ ctx) mdi [b];
  let mdi := mdi + 1 in
  if mdi =? 64 then
    Ret (0, {| i0 := i0 ctx; i1 := i1 ctx;
               buf := md5_transform (buf ctx) (ctx_words 16 buffer); in_ := buffer |})
  else Ret (mdi, {| i0 := i0 ctx; i1 := i1 ctx; buf := buf ctx; in_ := buffer |}).

Fixpoint md5_update_bytes {E} (st : Z * MD5_CTX) (bs : list byte) : res E (Z * MD5_CTX) :=
  match bs with
  | [] => Ret st
  | b :: bs => st ← md5_update_byte st b; md5_update_bytes st bs
  end.

(** [md5_update(ctx, p, inLen)] with the [inLen] bytes at [p] as [bs]. *)
Definition md5_update {E} (ctx : MD5_CTX) (bs : list byte) : res E MD5_CTX :=
  let inLen := size bs in
  let mdi := Z.land (Z.shiftr (i0 ctx) 3) 0x3F in
  let bits := u32 (Z.shiftl inLen 3) in
  let i1 := if u32 (i0 ctx + bits) <? i0 ctx then u32 (i1 ctx + 1) else i1 ctx in
  let ctx := {| i0 := u32 (i0 ctx + bits); i1 := u32 (i1 + Z.shiftr inLen 29);
                buf := buf ctx; in_ := in_ ctx |} in
  st ← md5_update_bytes (mdi, ctx) bs;
  Ret st.2.

(** * The DXBC checksum *)

(** [calculate_dxbc_checksum(pData, dwSize, dwHash)]; [stack] is the memory the
    local [MD5_CTX] occupies before [md5_init]. *)
Definition calculate_dxbc_checksum {E} (stack : MD5_CTX) (pData : list byte) (dwSize : Z)
    : res E MD5_BUF :=
  let md5Ctx := md5_init stack in
  let dwHashOffset := 20 in
  let dwSize := u32 (dwSize - dwHashOffset) in
  let dwNumberOfBits := u32 (dwSize * 8) in
  let dwFullChunksSize := Z.land dwSize 0xffffffc0 in
  full ← view pData dwHashOffset dwFullChunksSize;
  md5Ctx ← md5_update md5Ctx full;
  let dwLastChunkSize := u32 (dwSize - dwFullChunksSize) in
  let dwPaddingSize := u32 (64 - dwLastChunkSize) in
  let lastWord := Z.lor (Z.shiftr dwNumberOfBits 2) 1 in
  last ← view pData (dwHashOffset + dwFullChunksSize) dwLastChunkSize;
  if 56 <=? dwLastChunkSize then
    md5Ctx ← md5_update md5Ctx last;
    padding ← view MD5_PADDING 0 dwPaddingSize;
    md5Ctx ← md5_update md5Ctx padding;
    let words := dwNumberOfBits :: repeat 0 14 ++ [lastWord] in
    Ret (md5_transform (buf md5Ctx) words)
  else
    md5Ctx ← md5_update md5Ctx (le_bytes 4 dwNumberOfBits);
    md5Ctx ← (if negb (dwLastChunkSize =? 0) then md5_update md5Ctx last else Ret md5Ctx);
    let dwLastChunkSize := u32 (dwLastChunkSize + 4) in
    let dwPaddingSize := u32 (dwPaddingSize - 4) in
    padding ← view MD5_PADDING 0 dwPaddingSize;
    block ← blit (in_ md5Ctx) dwLastChunkSize padding;
    block ← blit block 60 (le_bytes 4 lastWord);
    block ← view block 0 64;
    Ret (md5_transform (buf md5Ctx) (block_words 16 block)).

(** [memcpy(dwHash, md5Ctx.buf, 16)] *)
Definition digest_bytes (h : MD5_BUF) : list byte :=
  le_bytes 4 (buf0 h) ++ le_bytes 4 (buf1 h) ++ le_bytes 4 (buf2 h) ++ le_bytes 4 (buf3 h).

(** The memory the local digest context occupies, whatever it holds; its buffer
    is a 64-byte array. *)
Class DigestStack := {
  digest_stack : MD5_CTX;
  digest_stack_room : length (in_ digest_stack) = 64%nat;
}.

Section hash.
Context `{UnityCommon, DigestStack}.

(** [data] is [None] for a NULL pointer; [Fail tt] is [return false]. *)
Definition dxbc_compute_hash (data : option (list byte)) : res unit (list byte) :=
  match data with
  | None => Fail tt
  | Some data =>
    if size data <? 32 then Fail tt else
    total_size ← read_u32_le data 24;
    if (total_size <? 32) || (size data <? total_size) then Fail tt else
    computed_hash ← calculate_dxbc_checksum digest_stack data total_size;
    Ret (digest_bytes computed_hash)
  end.

Definition dxbc_verify_hash {E} (data : option (list byte)) : res E bool :=
  match data with
  | None => Ret false
  | Some bs =>
    if size bs <? 32 then Ret false else
    match dxbc_compute_hash data with
    | Undef => Undef
    | Fail _ => Ret false
    | Ret computed_hash =>
      expected_hash ← view bs 4 16;
      Ret (bytes_eqb expected_hash computed_hash)
    end
  end.
End hash.

(** * The reference digest

    [absorb n h msg] folds the transform over the first [n] 64-byte blocks of
    [msg], and [dxbc_message] is the padded message the DXBC checksum is the
    digest of: MD5's padding, but with the bit count first in its block and its
    quarter (with the low bit set) last. *)

Fixpoint absorb (n : nat) (h : MD5_BUF) (msg : list byte) : MD5_BUF :=
  match n with
  | O => h
  | S n => absorb n (md5_transform h (block_words 16 (take 64 msg))) (drop 64 msg)
  end.

Definition digest_of (msg : list byte) : MD5_BUF := absorb (length msg / 64) md5_iv msg.

Definition dxbc_message (body : list byte) : list byte :=
  let bits := u32 (size body * 8) in
  let lastWord := le_bytes 4 (Z.lor (Z.shiftr bits 2) 1) in
  let n := (64 * (length body / 64))%nat in
  let full := take n body in
  let tail := drop n body in
  if (56 <=? length tail)%nat then
    full ++ (tail ++ take (64 - length tail) MD5_PADDING) ++
    le_bytes 4 bits ++ repeat Byte.x00 56 ++ lastWord
  else
    full ++ le_bytes 4 bits ++ tail ++ take (56 - length tail) MD5_PADDING ++ lastWord.

(** A context that has been fed [msg] since [md5_init]. *)
Record digesting (ctx : MD5_CTX) (msg : list byte) : Prop := {
  digesting_count : i0 ctx = u32 (size msg * 8);
  digesting_buf : buf ctx = digest_of msg;
  digesting_room : length (in_ ctx) = 64%nat;
  digesting_pending :
    take (length msg mod 64) (in_ ctx) = drop (64 * (length msg / 64)) msg;
}.

(** * Blocks *)

#[global] Opaque md5_transform.

Lemma ctx_words_block n bs : length bs = (4 * n)%nat -> ctx_words n bs = block_words n bs.
Proof.
  revert bs. induction n as [|n IH]; intros bs Hl; [by destruct bs|].
  destruct bs as [|b0 [|b1 [|b2 [|b3 bs]]]]; simpl in Hl; try lia.
  change (block_words (S n) _) with (le_val [b0; b1; b2; b3] :: block_words n bs).
  unfold ctx_words; fold ctx_words. f_equal.
  - rewrite <- or_word_le. unfold or_word.
    rewrite (Z.lor_comm _ (byte_val b0)), (Z.lor_comm _ (u32 (Z.shiftl (byte_val b1) 8))).
    rewrite (Z.lor_comm (u32 (Z.shiftl (byte_val b3) 24))). by rewrite !Z.lor_assoc.
  - apply IH. simpl. lia.
Qed.

Lemma absorb_add j k h msg :
  absorb (j + k) h msg = absorb k (absorb j h msg) (drop (64 * j) msg).
Proof.
  revert h msg. induction j as [|j IH]; intros h msg; [done|].
  cbn [absorb Nat.add]. rewrite IH, drop_drop. do 2 f_equal. lia.
Qed.

Lemma absorb_prefix j h a b : (64 * j <= length a)%nat -> absorb j h (a ++ b) = absorb j h a.
Proof.
  revert h a. induction j as [|j IH]; intros h a Hle; [done|].
  cbn [absorb]. rewrite take_app_le, drop_app_le by lia. apply IH.
  rewrite length_drop. lia.
Qed.

Lemma blocks_S n : ((64 + n) / 64 = S (n / 64))%nat.
Proof.
  symmetry. apply (Nat.div_unique _ _ _ (n mod 64)).
  - apply Nat.mod_upper_bound. lia.
  - pose proof (Nat.div_mod_eq n 64). lia.
Qed.

Lemma absorb_block h blk rest :
  length blk = 64%nat ->
  absorb (length (blk ++ rest) / 64) h (blk ++ rest) =
  absorb (length rest / 64) (md5_transform h (block_words 16 blk)) rest.
Proof.
  intros Hl. rewrite length_app, Hl, blocks_S. cbn [absorb]. by rewrite <- Hl, take_app_length, drop_app_length.
Qed.

(** * Feeding bytes *)

Definition with_block (ctx : MD5_CTX) (h : MD5_BUF) (room : list byte) : MD5_CTX :=
  {| i0 := i0 ctx; i1 := i1 ctx; buf := h; in_ := room |}.

Lemma blit_pending {E} P (ctx : MD5_CTX) b :
  (length P < 64)%nat -> length (in_ ctx) = 64%nat -> take (length P) (in_ ctx) = P ->
  blit (E:=E) (in_ ctx) (size P) [b] = Ret ((P ++ [b]) ++ drop (length P + 1) (in_ ctx)).
Proof.
  intros HP Hroom Hpend. unfold size. rewrite blit_ok by (unfold size; simpl; lia).
  rewrite Nat2Z.id, Hpend. by rewrite <- app_assoc.
Qed.

Lemma md5_update_byte_spec {E} P ctx b :
  (length P < 64)%nat -> length (in_ ctx) = 64%nat -> take (length P) (in_ ctx) = P ->
  exists room, length room = 64%nat /\
  if decide (length P = 63%nat) then
    md5_update_byte (E:=E) (size P, ctx) b =
      Ret (0, with_block ctx (md5_transform (buf ctx) (block_words 16 (P ++ [b]))) room)
  else
    md5_update_byte (E:=E) (size P, ctx) b = Ret (size (P ++ [b]), with_block ctx (buf ctx) room) /\
    take (length (P ++ [b])) room = P ++ [b].
Proof.
  intros HP Hroom Hpend. exists ((P ++ [b]) ++ drop (length P + 1) (in_ ctx)).
  unfold md5_update_byte. rewrite blit_pending by done. cbn [mbind res_bind].
  assert (Hlen : length (P ++ [b]) = S (length P)) by (rewrite length_app; cbn; lia).
  assert (Hsz : size (P ++ [b]) = size P + 1) by (unfold size; lia).
  split. { rewrite length_app, length_drop. lia. }
  destruct (decide _) as [Hfull|Hpart].
  - assert ((size P + 1 =? 64) = true) as -> by (unfold size; lia).
    rewrite (drop_ge (in_ ctx)), app_nil_r by lia.
    by rewrite ctx_words_block by lia.
  - assert ((size P + 1 =? 64) = false) as -> by (unfold size; lia).
    rewrite Hsz. split; [done|]. apply take_app_length.
Qed.

Lemma md5_update_bytes_spec {E} bs : forall P ctx,
  (length P < 64)%nat -> length (in_ ctx) = 64%nat -> take (length P) (in_ ctx) = P ->
  exists room,
    let n := (length (P ++ bs) / 64)%nat in
    let rest := drop (64 * n) (P ++ bs) in
    md5_update_bytes (E:=E) (size P, ctx) bs =
      Ret (size rest, with_block ctx (absorb n (buf ctx) (P ++ bs)) room) /\
    length room = 64%nat /\ take (length rest) room = rest.
Proof.
  induction bs as [|b bs IH]; intros P ctx HP Hroom Hpend; cbn zeta.
  { exists (in_ ctx). rewrite app_nil_r, Nat.div_small, Nat.mul_0_r, drop_0 by done.
    by destruct ctx. }
  destruct (md5_update_byte_spec (E:=E) P ctx b) as (room1 & Hr1 & Hstep); [done..|].
  cbn [md5_update_bytes].
  destruct (decide (length P = 63%nat)) as [Hfull|Hpart].
  - assert (Hlen : length (P ++ [b]) = 64%nat) by (rewrite length_app, Hfull; done).
    rewrite Hstep. cbn [mbind res_bind].
    destruct (IH [] (with_block ctx (md5_transform (buf ctx) (block_words 16 (P ++ [b]))) room1))
      as (room & Hrun & Hr & Ht); [cbn; lia|done|done|].
    exists room. change (P ++ b :: bs) with (P ++ [b] ++ bs).
    rewrite app_assoc, absorb_block, length_app, Hlen, blocks_S, drop_app_ge by lia.
    rewrite Hlen. replace (64 * S (length bs / 64) - 64)%nat with (64 * (length bs / 64))%nat by lia.
    auto.
  - destruct Hstep as [Hstep Hpre]. rewrite Hstep. cbn [mbind res_bind].
    destruct (IH (P ++ [b]) (with_block ctx (buf ctx) room1)) as (room & Hrun & Hr & Ht); [|done|done|].
    { rewrite length_app; cbn; lia. }
    exists room. change (P ++ b :: bs) with (P ++ [b] ++ bs). rewrite app_assoc. done.
Qed.

(** * Digesting is a homomorphism *)

Lemma div64_split (a b : nat) : ((64 * a + b) / 64 = a + b / 64)%nat.
Proof.
  symmetry. apply (Nat.div_unique _ _ _ (b mod 64)).
  - apply Nat.mod_upper_bound. lia.
  - pose proof (Nat.div_mod_eq b 64). lia.
Qed.

Lemma mod64_split (a b : nat) : ((64 * a + b) mod 64 = b mod 64)%nat.
Proof. rewrite Nat.add_comm, Nat.mul_comm. apply Nat.Div0.mod_add. Qed.

Lemma mdi_of_count (n : nat) :
  Z.land (Z.shiftr (u32 (Z.of_nat n * 8)) 3) 0x3F = Z.of_nat (n mod 64).
Proof.
  change 0x3F with (2 ^ 6 - 1). rewrite land_ones_mod, Z.shiftr_div_pow2 by lia.
  unfold u32. rewrite Nat2Z.inj_mod. change (2 ^ 3) with 8. change (2 ^ 6) with 64.
  change (2 ^ 32) with (8 * 536870912). rewrite (Z.mul_comm _ 8).
  rewrite Z.mul_mod_distr_l, (Z.mul_comm 8), Z.div_mul by lia.
  change 536870912 with (64 * 8388608). rewrite Z.rem_mul_r by lia.
  rewrite (Z.mul_comm 64), Z.mod_add, Z.mod_mod by lia. done.
Qed.

Lemma digesting_init stack : length (in_ stack) = 64%nat -> digesting (md5_init stack) [].
Proof. by split. Qed.

Lemma digesting_update {E} ctx msg bs :
  digesting ctx msg ->
  exists ctx', md5_update (E:=E) ctx bs = Ret ctx' /\ digesting ctx' (msg ++ bs).
Proof.
  intros [Hcount Hbuf Hroom Hpend].
  set (j := (length msg / 64)%nat) in *. set (P := drop (64 * j) msg) in *.
  pose proof (Nat.div_mod_eq (length msg) 64) as Hdm. fold j in Hdm.
  assert (HP : length P = (length msg mod 64)%nat) by (unfold P; rewrite length_drop; lia).
  assert (HP64 : (length P < 64)%nat) by (rewrite HP; apply Nat.mod_upper_bound; lia).
  assert (Hmdi : Z.land (Z.shiftr (i0 ctx) 3) 0x3F = size P)
    by (rewrite Hcount; unfold size; by rewrite mdi_of_count, HP).
  unfold md5_update. cbn zeta. rewrite Hmdi.
  set (ctx1 := {| i0 := _; i1 := _; buf := _; in_ := _ |}).
  destruct (md5_update_bytes_spec (E:=E) bs P ctx1) as (room & Hrun & Hr & Ht);
    [done|done|by rewrite HP|].
  rewrite Hrun. cbn [mbind res_bind snd].
  eexists; split; [reflexivity|].
  assert (Hm : msg = take (64 * j) msg ++ P) by (symmetry; apply take_drop).
  assert (Hl : length (msg ++ bs) = (64 * j + length (P ++ bs))%nat) by (rewrite !length_app; lia).
  assert (Hd : drop (64 * j) (msg ++ bs) = P ++ bs) by (by rewrite drop_app_le by lia).
  split; cbn [i0 buf in_ with_block ctx1]; [| |done|].
  - rewrite Hcount, u32_add_l, size_app, Z.shiftl_mul_pow2, u32_add_r by lia. f_equal. lia.
  - rewrite Hbuf. unfold digest_of. fold j. rewrite Hl, div64_split, absorb_add, Hd.
    by rewrite (absorb_prefix j) by lia.
  - rewrite Hl, div64_split, mod64_split, Nat.mul_add_distr_l, <- drop_drop, Hd.
    replace (length (P ++ bs) mod 64)%nat
      with (length (drop (64 * (length (P ++ bs) / 64)) (P ++ bs))); [done|].
    rewrite length_drop. pose proof (Nat.div_mod_eq (length (P ++ bs)) 64). lia.
Qed.

(** A context whose pending bytes complete a block with [last]. *)
Lemma digest_of_block msg blk :
  (length msg mod 64 = 0)%nat -> length blk = 64%nat ->
  digest_of (msg ++ blk) = md5_transform (digest_of msg) (block_words 16 blk).
Proof.
  intros Hm Hl. unfold digest_of.
  pose proof (Nat.div_mod_eq (length msg) 64) as Hdm.
  rewrite length_app, Hl. replace (length msg + 64)%nat with (64 * S (length msg / 64))%nat by lia.
  rewrite Nat.mul_comm, Nat.div_mul by lia.
  replace (S (length msg / 64)) with (length msg / 64 + 1)%nat by lia.
  rewrite absorb_add, absorb_prefix, drop_app_ge by lia.
  replace (64 * (length msg / 64) - length msg)%nat with 0%nat by lia.
  cbn [absorb]. rewrite drop_0, <- Hl, firstn_all. done.
Qed.

Lemma digest_of_partial msg p :
  (length msg mod 64 = 0)%nat -> (length p < 64)%nat -> digest_of (msg ++ p) = digest_of msg.
Proof.
  intros Hm Hp. unfold digest_of. pose proof (Nat.div_mod_eq (length msg) 64) as Hdm.
  rewrite length_app. replace (length msg) with (64 * (length msg / 64))%nat at 1 by lia.
  rewrite div64_split, (Nat.div_small (length p)), Nat.add_0_r by done.
  apply absorb_prefix. lia.
Qed.

Lemma block_words_cons n w rest :
  length w = 4%nat -> block_words (S n) (w ++ rest) = le_val w :: block_words n rest.
Proof. intros Hw. cbn [block_words]. by rewrite <- Hw, take_app_length, drop_app_length. Qed.

Lemma le_word_bytes z : in_u32 z -> le_val (le_bytes 4 z) = z.
Proof. intros. rewrite le_val_bytes. apply Z.mod_small. done. Qed.

Lemma block_words_repeat w n m rest :
  length w = 4%nat ->
  block_words (n + m) (concat (repeat w n) ++ rest) = repeat (le_val w) n ++ block_words m rest.
Proof.
  intros Hw. induction n as [|n IH]; [done|]. cbn [repeat concat Nat.add].
  rewrite <- app_assoc, block_words_cons, IH by done. done.
Qed.

Lemma bit_count_block bits lastWord :
  in_u32 bits -> in_u32 lastWord ->
  block_words 16 (le_bytes 4 bits ++ repeat Byte.x00 56 ++ le_bytes 4 lastWord) =
  bits :: repeat 0 14 ++ [lastWord].
Proof.
  intros Hb Hw. rewrite block_words_cons, le_word_bytes by done. f_equal.
  change (repeat Byte.x00 56) with (concat (repeat (repeat Byte.x00 4) 14)).
  change (block_words 15) with (block_words (14 + 1)).
  rewrite block_words_repeat by done. f_equal.
  rewrite <- (app_nil_r (le_bytes 4 lastWord)), block_words_cons by done.
  by rewrite le_word_bytes.
Qed.

Lemma last_word_range bits : in_u32 bits -> in_u32 (Z.lor (Z.shiftr bits 2) 1).
Proof.
  intros Hb. pose proof (shiftr_range bits 2 30) as Hs. unfold in_u32 in *.
  assert (0 <= Z.lor (Z.shiftr bits 2) 1) by (apply Z.lor_nonneg; lia).
  split; [done|].
  destruct (decide (Z.lor (Z.shiftr bits 2) 1 = 0)) as [->|]; [lia|].
  apply Z.log2_lt_pow2; [lia|]. rewrite Z.log2_lor by lia.
  apply Z.max_lub_lt; [|done].
  destruct (decide (Z.shiftr bits 2 = 0)) as [->|]; [done|].
  apply Z.log2_lt_pow2; lia.
Qed.

Lemma land_mask64 L : in_u32 L -> Z.land L 0xffffffc0 = 64 * (L / 64).
Proof.
  intros HL. trans (Z.ldiff L (Z.ones 6)).
  - apply Z.bits_inj'; intros k Hk.
    change 0xffffffc0 with (Z.ldiff (Z.ones 32) (Z.ones 6)).
    rewrite Z.land_spec, !Z.ldiff_spec, andb_assoc, <- Z.land_spec, Z.land_ones by lia.
    by rewrite Z.mod_small.
  - rewrite Z.ldiff_ones_r, Z.shiftl_mul_pow2, Z.shiftr_div_pow2 by lia.
    change (2 ^ 6) with 64. lia.
Qed.

(** * The checksum computes the reference digest *)

Lemma length_padding k : (k <= 64)%nat -> length (take k MD5_PADDING) = k.
Proof. intros. rewrite length_take. apply Nat.min_l. done. Qed.

(** The block the short case builds in place. *)
Lemma finish_blit {E} room pend w (n : nat) :
  length room = 64%nat -> length pend = (n + 4)%nat -> take (length pend) room = pend ->
  (n < 56)%nat -> length w = 4%nat ->
  exists block,
    blit (E:=E) room (Z.of_nat (n + 4)) (take (60 - n) MD5_PADDING) = Ret block /\
    blit (E:=E) block 60 w = Ret (pend ++ take (56 - n) MD5_PADDING ++ w).
Proof.
  intros Hr Hp Hpre Hn Hw. pose proof (length_padding (60 - n)) as Hpad.
  eexists. rewrite blit_ok by (unfold size; lia). split; [reflexivity|].
  rewrite Nat2Z.id, <- Hp, Hpre, (drop_ge room), app_nil_r by lia.
  rewrite blit_ok by (unfold size; rewrite ?length_app; lia). f_equal.
  change (Z.to_nat 60) with 60%nat.
  rewrite take_app_ge, take_take, drop_ge, app_nil_r by (rewrite ?length_app; lia).
  rewrite <- app_assoc. do 3 f_equal. lia.
Qed.

(** The two ways the last, partial chunk is finished, from a context that has
    been fed the full chunks. *)
Section last_chunk.
Context {E : Type} (ctx : MD5_CTX) (full last : list byte) (bits : Z).
Hypothesis (Hctx : digesting ctx full) (Hfull : (length full mod 64 = 0)%nat).
Hypothesis (Hlast : (length last < 64)%nat) (Hbits : in_u32 bits).
Let lastWord := Z.lor (Z.shiftr bits 2) 1.

Lemma finish_long :
  (56 <= length last)%nat ->
  exists ctx1 ctx2, md5_update (E:=E) ctx last = Ret ctx1 /\
    md5_update (E:=E) ctx1 (take (64 - length last) MD5_PADDING) = Ret ctx2 /\
    md5_transform (buf ctx2) (bits :: repeat 0 14 ++ [lastWord]) =
    digest_of (full ++ (last ++ take (64 - length last) MD5_PADDING) ++
               le_bytes 4 bits ++ repeat Byte.x00 56 ++ le_bytes 4 lastWord).
Proof.
  intros Hlong. destruct (digesting_update (E:=E) ctx full last Hctx) as (ctx1 & H1 & D1).
  destruct (digesting_update (E:=E) ctx1 (full ++ last) (take (64 - length last) MD5_PADDING) D1)
    as (ctx2 & H2 & D2).
  exists ctx1, ctx2. split; [done|]. split; [done|].
  rewrite (digesting_buf _ _ D2), <- bit_count_block by (try apply last_word_range; done).
  assert (Hl : length (take (64 - length last) MD5_PADDING) = (64 - length last)%nat)
    by (rewrite length_take; apply Nat.min_l; change (length MD5_PADDING) with 64%nat; lia).
  pose proof (Nat.div_mod_eq (length full) 64) as Hdm.
  rewrite <- digest_of_block; [f_equal; by rewrite <- !app_assoc| |done].
  rewrite !length_app, Hl.
  replace (length full + length last + (64 - length last))%nat
    with (64 * (length full / 64) + 64)%nat by lia.
  by rewrite mod64_split.
Qed.

Lemma finish_short :
  (length last < 56)%nat ->
  let room := Z.of_nat (length last + 4) in
  exists ctx1 ctx2, md5_update (E:=E) ctx (le_bytes 4 bits) = Ret ctx1 /\
    (if negb (size last =? 0) then md5_update (E:=E) ctx1 last else Ret ctx1) = Ret ctx2 /\
    exists block1 block2,
      blit (E:=E) (in_ ctx2) room (take (60 - length last) MD5_PADDING) = Ret block1 /\
      blit (E:=E) block1 60 (le_bytes 4 lastWord) = Ret block2 /\ length block2 = 64%nat /\
      md5_transform (buf ctx2) (block_words 16 block2) =
      digest_of (full ++ le_bytes 4 bits ++ last ++ take (56 - length last) MD5_PADDING ++
                 le_bytes 4 lastWord).
Proof.
  intros Hshort room.
  destruct (digesting_update (E:=E) ctx full (le_bytes 4 bits) Hctx) as (ctx1 & H1 & D1).
  exists ctx1.
  assert (Hctx2 : exists ctx2,
    (if negb (size last =? 0) then md5_update (E:=E) ctx1 last else Ret ctx1) = Ret ctx2 /\
    digesting ctx2 ((full ++ le_bytes 4 bits) ++ last)).
  { destruct last as [|b l]; [exists ctx1; by rewrite app_nil_r|]. by apply digesting_update. }
  destruct Hctx2 as (ctx2 & H2 & D2). exists ctx2. split; [done|]. split; [done|].
  destruct D2 as [_ Hbuf Hroom Hpend].
  set (pend := le_bytes 4 bits ++ last).
  assert (Hpl : length pend = (length last + 4)%nat) by (unfold pend; rewrite length_app; cbn; lia).
  rewrite <- app_assoc in *. fold pend in Hbuf, Hpend.
  pose proof (Nat.div_mod_eq (length full) 64) as Hdm.
  assert (Hl : length (full ++ pend) = (64 * (length full / 64) + length pend)%nat)
    by (rewrite length_app; lia).
  rewrite Hl, mod64_split, div64_split, (Nat.mod_small (length pend)),
    (Nat.div_small (length pend)), Nat.add_0_r, drop_app_ge in Hpend by lia.
  replace (64 * (length full / 64) - length full)%nat with 0%nat in Hpend by lia.
  rewrite drop_0 in Hpend.
  destruct (finish_blit (E:=E) (in_ ctx2) pend (le_bytes 4 lastWord) (length last))
    as (block1 & Hb1 & Hb2); [done..|].
  eexists block1, _. split; [done|]. split; [exact Hb2|].
  assert (Hlen : length (pend ++ take (56 - length last) MD5_PADDING ++ le_bytes 4 lastWord)
                 = 64%nat)
    by (rewrite !length_app, Hpl, length_padding by lia; cbn; lia).
  split; [done|].
  rewrite Hbuf, digest_of_partial, <- digest_of_block by (done || lia).
  unfold pend. by rewrite <- app_assoc.
Qed.
End last_chunk.

Lemma body_slices data L :
  0 <= L -> 20 + L <= size data ->
  let body := slice data 20 L in
  let n := (64 * (length body / 64))%nat in
  slice data 20 (64 * (L / 64)) = take n body /\
  slice data (20 + 64 * (L / 64)) (L - 64 * (L / 64)) = drop n body /\
  Z.of_nat (length (drop n body)) = L - 64 * (L / 64) /\
  (length (take n body) mod 64 = 0)%nat.
Proof.
  intros HL Hdata body n.
  assert (Hbody : length body = Z.to_nat L) by (apply length_slice; lia).
  assert (Hn : Z.of_nat n = 64 * (L / 64)).
  { unfold n. rewrite Hbody, Nat2Z.inj_mul, Nat2Z.inj_div, Z2Nat.id by lia. done. }
  assert (HF : 64 * (L / 64) <= L) by (Z.div_mod_to_equations; lia).
  split; [|split; [|split]].
  - unfold body, slice. rewrite take_take, <- Hn. f_equal. lia.
  - unfold body, slice. rewrite skipn_firstn_comm, drop_drop. f_equal; [lia|f_equal; lia].
  - rewrite length_drop. lia.
  - rewrite length_take, Nat.min_l by lia. unfold n. rewrite Nat.mul_comm.
    apply Nat.Div0.mod_mul.
Qed.

Lemma calculate_dxbc_checksum_spec {E} stack data dwSize :
  length (in_ stack) = 64%nat -> 20 <= dwSize < 2 ^ 32 -> dwSize <= size data ->
  calculate_dxbc_checksum (E:=E) stack data dwSize =
  Ret (digest_of (dxbc_message (slice data 20 (dwSize - 20)))).
Proof.
  intros Hstack HdwSize Hdata.
  set (L := dwSize - 20). set (body := slice data 20 L).
  destruct (body_slices data L) as (Hfull & Hlast & Hn & Hmod); [lia..|].
  fold body in Hfull, Hlast, Hn, Hmod.
  assert (HL : size body = L) by (apply size_slice; lia).
  assert (HF : 64 * (L / 64) <= L /\ L - 64 * (L / 64) < 64) by (Z.div_mod_to_equations; lia).
  unfold calculate_dxbc_checksum, dxbc_message. cbn zeta.
  rewrite HL, (u32_small (dwSize - 20)) by lia. fold L.
  rewrite land_mask64 by (unfold in_u32; lia).
  rewrite (u32_small (L - _)), (u32_small (64 - _)), (view_ok data 20), (view_ok data (20 + _)) by lia.
  rewrite Hfull, Hlast, <- Hn. set (bits := u32 (L * 8)). cbn [mbind res_bind].
  set (full := take _ body) in *. set (last := drop _ body) in *.
  destruct (digesting_update (E:=E) (md5_init stack) [] full) as (ctx & Hrun & Hctx);
    [by apply digesting_init|].
  rewrite Hrun. cbn [mbind res_bind].
  assert (Hpad : size MD5_PADDING = 64) by done.
  destruct (Nat.leb_spec 56 (length last)).
  - assert ((56 <=? Z.of_nat (length last)) = true) as -> by lia.
    destruct (finish_long (E:=E) ctx full last bits) as (ctx1 & ctx2 & H1 & H2 & <-);
      [first [done | lia | apply u32_range]..|].
    rewrite H1. cbn [mbind res_bind]. rewrite view_ok by lia. cbn [mbind res_bind].
    unfold slice. rewrite drop_0. replace (Z.to_nat _) with (64 - length last)%nat by lia.
    by rewrite H2.
  - assert ((56 <=? Z.of_nat (length last)) = false) as -> by lia.
    destruct (finish_short (E:=E) ctx full last bits)
      as (ctx1 & ctx2 & H1 & H2 & b1 & b2 & H3 & H4 & H5 & <-);
      [first [done | lia | apply u32_range]..|].
    rewrite H1. cbn [mbind res_bind]. fold (size last). rewrite H2. cbn [mbind res_bind].
    rewrite !u32_small, view_ok by (rewrite ?Hpad; unfold size; lia). cbn [mbind res_bind].
    unfold slice. rewrite drop_0. unfold size.
    replace (Z.to_nat (64 - _ - 4)) with (60 - length last)%nat by lia.
    replace (Z.of_nat (length last) + 4) with (Z.of_nat (length last + 4)) by lia.
    rewrite H3. cbn [mbind res_bind]. rewrite H4. cbn [mbind res_bind].
    rewrite view_ok by (unfold size; lia). cbn [mbind res_bind].
    replace 64 with (size b2) at 1 by (unfold size; lia). by rewrite slice_0.
Qed.

(** * The container hash *)

Definition declared_size (data : list byte) : Z := le_val (slice data 24 4).

(** What bytes 4..19 of a valid container hold. *)
Definition reference_hash (data : list byte) : list byte :=
  digest_bytes (digest_of (dxbc_message (slice data 20 (declared_size data - 20)))).

Definition hashable (data : list byte) : bool :=
  (32 <=? size data) && (32 <=? declared_size data) && (declared_size data <=? size data).

(** [data] with its hash field replaced. *)
Definition stamp_hash (data hash : list byte) : list byte := take 4 data ++ hash ++ drop 20 data.

Lemma length_digest_bytes h : length (digest_bytes h) = 16%nat.
Proof. done. Qed.

Section container_hash.
Context `{U : UnityCommon} {HU : UnityCommonSpec U}.
Implicit Types (data : list byte).

Lemma compute_hash_eq {D : DigestStack} data :
  dxbc_compute_hash (Some data) =
  if hashable data then Ret (reference_hash data) else Fail tt.
Proof.
  unfold dxbc_compute_hash, hashable.
  destruct (Z.ltb_spec (size data) 32).
  { assert ((32 <=? size data) = false) as -> by lia. done. }
  assert ((32 <=? size data) = true) as -> by lia.
  pose proof (le32_range data 24 ltac:(lia) ltac:(lia)) as Hr. unfold in_u32 in Hr.
  rewrite read_u32_le_ok by lia. cbn [mbind res_bind]. fold (declared_size data) in *.
  destruct (Z.ltb_spec (declared_size data) 32), (Z.ltb_spec (size data) (declared_size data));
    cbn [orb]; repeat match goal with |- context[?a <=? ?b] =>
      destruct (Z.leb_spec a b); try lia end; cbn [andb]; try done.
  rewrite calculate_dxbc_checksum_spec by (lia || apply digest_stack_room). done.
Qed.

Lemma verify_hash_eq {D : DigestStack} {E} data :
  dxbc_verify_hash (E:=E) (Some data) =
  Ret (hashable data && bytes_eqb (slice data 4 16) (reference_hash data)).
Proof.
  unfold dxbc_verify_hash. rewrite compute_hash_eq.
  destruct (Z.ltb_spec (size data) 32) as [Hs|Hs]; destruct (hashable data) eqn:Hh; try done.
  - exfalso. unfold hashable in Hh. lia.
  - by rewrite view_ok by lia.
Qed.

Lemma stamp_hash_slice data hash off len :
  length hash = 16%nat -> 32 <= size data -> 20 <= off -> 0 <= len -> off + len <= size data ->
  slice (stamp_hash data hash) off len = slice data off len.
Proof.
  intros Hh Hs Hoff Hlen Hb. unfold stamp_hash.
  assert (H4 : length (take 4 data) = 4%nat) by (rewrite length_take; unfold size in Hs; lia).
  rewrite app_assoc, slice_app_r by (unfold size; rewrite length_app; lia).
  unfold slice. rewrite drop_drop. f_equal. f_equal. unfold size. rewrite length_app. lia.
Qed.

Lemma stamp_hash_field data hash :
  length hash = 16%nat -> 32 <= size data -> slice (stamp_hash data hash) 4 16 = hash.
Proof.
  intros Hh Hs. unfold stamp_hash.
  assert (H4 : length (take 4 data) = 4%nat) by (rewrite length_take; unfold size in Hs; lia).
  rewrite slice_app_r by (unfold size; lia).
  rewrite slice_app_l by (unfold size; lia).
  replace (4 - size (take 4 data)) with 0 by (unfold size; lia).
  replace 16 with (size hash) by (unfold size; lia). apply slice_0.
Qed.

Lemma size_stamp_hash data hash :
  length hash = 16%nat -> 32 <= size data -> size (stamp_hash data hash) = size data.
Proof.
  intros Hh Hs. unfold stamp_hash, size in *.
  rewrite !length_app, length_take, length_drop. lia.
Qed.

Lemma stamp_hash_reference data hash :
  length hash = 16%nat -> hashable data = true ->
  hashable (stamp_hash data hash) = true /\
  reference_hash (stamp_hash data hash) = reference_hash data.
Proof.
  intros Hh Hd. unfold hashable in *. apply andb_true_iff in Hd as [Hd ?].
  apply andb_true_iff in Hd as [? ?].
  assert (Hds : declared_size (stamp_hash data hash) = declared_size data).
  { unfold declared_size. by rewrite stamp_hash_slice by lia. }
  rewrite size_stamp_hash, Hds by lia. split; [lia|].
  unfold reference_hash. by rewrite Hds, stamp_hash_slice by lia.
Qed.

(** C5: [dxbc_compute_hash] is the streaming-free reference digest of the
    declared body: the MD5 blocks of the DXBC-padded message, whatever the
    stack holds and however the updates cut the body; it fails exactly when
    the buffer or its declared size is too short, and reads nothing outside
    the buffer. *)
Theorem dxbc_compute_hash_reference {D : DigestStack} data :
  dxbc_compute_hash (Some data) =
  if hashable data then Ret (reference_hash data) else Fail tt.
Proof. apply compute_hash_eq. Qed.

(** [dxbc_verify_hash] accepts exactly the buffers that hold their declared
    size and whose hash field is the reference hash. *)
Theorem dxbc_verify_hash_iff {D : DigestStack} {E} data :
  dxbc_verify_hash (E:=E) (Some data) = Ret true <->
  32 <= declared_size data <= size data /\ slice data 4 16 = reference_hash data.
Proof.
  rewrite verify_hash_eq. split.
  - intros [= Heq]. apply andb_true_iff in Heq as [Hh Hb].
    apply bytes_eqb_eq in Hb. unfold hashable in Hh. split; [lia|done].
  - intros [Hds Hf]. apply bytes_eqb_eq in Hf. rewrite Hf.
    assert (hashable data = true) as -> by (unfold hashable; lia). done.
Qed.

(** Writing the computed hash into the hash field makes the container
    verify: the hash does not depend on its own field. *)
Theorem dxbc_hash_stamp_verifies {D D' : DigestStack} {E} data hash :
  dxbc_compute_hash (H0:=D) (Some data) = Ret hash ->
  dxbc_verify_hash (H0:=D') (E:=E) (Some (stamp_hash data hash)) = Ret true.
Proof.
  rewrite compute_hash_eq, verify_hash_eq.
  destruct (hashable data) eqn:Hh; [|done]. intros [= <-].
  assert (Hl : length (reference_hash data) = 16%nat) by apply length_digest_bytes.
  destruct (stamp_hash_reference data _ Hl Hh) as [-> ->].
  rewrite stamp_hash_field by (done || (unfold hashable in Hh; lia)).
  f_equal. by apply bytes_eqb_eq.
Qed.
End container_hash.

(** The transform computes MD5: the digest of [abc] in RFC 1321. *)
Example md5_abc :
  digest_bytes (digest_of
    (String.list_byte_of_string "abc" ++ take 53 MD5_PADDING ++ le_bytes 8 24)) =
  byte_of <$> [0x90; 0x01; 0x50; 0x98; 0x3c; 0xd2; 0x4f; 0xb0;
               0xd6; 0x96; 0x3f; 0x7d; 0x28; 0xe1; 0x7f; 0x72].
Proof. vm_compute. reflexivity. Qed.

(** * Witnesses *)

Section witnesses.
Local Existing Instances unity_common_ref unity_common_ref_spec.

Definition hash_stack : DigestStack :=
  {| digest_stack := {| i0 := 0; i1 := 0; buf := md5_iv; in_ := repeat Byte.x00 64 |};
     digest_stack_room := eq_refl |}.

(** A forty-byte container with no chunk, its hash field zero. *)
Definition hash_sample : list byte :=
  repeat Byte.x00 24 ++ le_bytes 4 40 ++ repeat Byte.x07 12.

Definition hash_sample_digest : list byte := Eval vm_compute in reference_hash hash_sample.

Lemma dxbc_compute_hash_reference_witness :
  dxbc_compute_hash (H0:=hash_stack) (Some hash_sample) =
  if hashable hash_sample then Ret (reference_hash hash_sample) else Fail tt.
Proof. exact (dxbc_compute_hash_reference (D:=hash_stack) hash_sample). Defined.

Lemma dxbc_verify_hash_iff_witness :
  dxbc_verify_hash (H0:=hash_stack) (E:=unit) (Some hash_sample) = Ret true <->
  32 <= declared_size hash_sample <= size hash_sample /\
  slice hash_sample 4 16 = reference_hash hash_sample.
Proof. exact (dxbc_verify_hash_iff (D:=hash_stack) hash_sample). Defined.

Lemma dxbc_hash_stamp_verifies_witness :
  dxbc_verify_hash (H0:=hash_stack) (E:=unit) (Some (stamp_hash hash_sample hash_sample_digest))
  = Ret true.
Proof.
  apply (dxbc_hash_stamp_verifies (D:=hash_stack)). vm_compute. reflexivity.
Defined.
End witnesses.
