(* ===== verification/ShaderStage.v ===== *)
(** Stage numbering across Unity and DXBC: [include/common/shader_stage.h] and
    [src/common/shader_stage.c].

    A C enumeration read from serialized data can hold any 32-bit value, so the
    enumerations are integers with named constants. *)

From S2P Require Import Prelude.

(** * Enumerations *)

Definition UnitySerializedProgramStage := Z.
Definition UNITY_SERIALIZED_STAGE_VERTEX : UnitySerializedProgramStage := 0.
Definition UNITY_SERIALIZED_STAGE_FRAGMENT : UnitySerializedProgramStage := 1.
Definition UNITY_SERIALIZED_STAGE_GEOMETRY : UnitySerializedProgramStage := 2.
Definition UNITY_SERIALIZED_STAGE_HULL : UnitySerializedProgramStage := 3.
Definition UNITY_SERIALIZED_STAGE_DOMAIN : UnitySerializedProgramStage := 4.
Definition UNITY_SERIALIZED_STAGE_RAY_TRACING : UnitySerializedProgramStage := 5.
Definition UNITY_SERIALIZED_STAGE_COUNT : UnitySerializedProgramStage := 6.
Definition UNITY_SERIALIZED_STAGE_INVALID : UnitySerializedProgramStage := 0xff.

Definition UnityCompilerProgramStage := Z.
Definition UNITY_COMPILER_PROGRAM_VERTEX : UnityCompilerProgramStage := 0.
Definition UNITY_COMPILER_PROGRAM_FRAGMENT : UnityCompilerProgramStage := 1.
Definition UNITY_COMPILER_PROGRAM_HULL : UnityCompilerProgramStage := 2.
Definition UNITY_COMPILER_PROGRAM_DOMAIN : UnityCompilerProgramStage := 3.
Definition UNITY_COMPILER_PROGRAM_GEOMETRY : UnityCompilerProgramStage := 4.
Definition UNITY_COMPILER_PROGRAM_COMPUTE : UnityCompilerProgramStage := 5.
Definition UNITY_COMPILER_PROGRAM_RAY_TRACING : UnityCompilerProgramStage := 6.
Definition UNITY_COMPILER_PROGRAM_COUNT : UnityCompilerProgramStage := 7.
Definition UNITY_COMPILER_PROGRAM_INVALID : UnityCompilerProgramStage := 0xff.

Definition DXBCProgramType := Z.
Definition DXBC_PROGRAM_TYPE_PIXEL : DXBCProgramType := 0.
Definition DXBC_PROGRAM_TYPE_VERTEX : DXBCProgramType := 1.
Definition DXBC_PROGRAM_TYPE_GEOMETRY : DXBCProgramType := 2.
Definition DXBC_PROGRAM_TYPE_HULL : DXBCProgramType := 3.
Definition DXBC_PROGRAM_TYPE_DOMAIN : DXBCProgramType := 4.
Definition DXBC_PROGRAM_TYPE_COMPUTE : DXBCProgramType := 5.
Definition DXBC_PROGRAM_TYPE_COUNT : DXBCProgramType := 6.
Definition DXBC_PROGRAM_TYPE_INVALID : DXBCProgramType := 0xffff.

Definition UnityGPUProgramType := Z.
Definition UNITY_GPU_PROGRAM_D3D11_VERTEX_SM40 : UnityGPUProgramType := 15.
Definition UNITY_GPU_PROGRAM_D3D11_VERTEX_SM50 : UnityGPUProgramType := 16.
Definition UNITY_GPU_PROGRAM_D3D11_PIXEL_SM40 : UnityGPUProgramType := 17.
Definition UNITY_GPU_PROGRAM_D3D11_PIXEL_SM50 : UnityGPUProgramType := 18.
Definition UNITY_GPU_PROGRAM_D3D11_GEOMETRY_SM40 : UnityGPUProgramType := 19.
Definition UNITY_GPU_PROGRAM_D3D11_GEOMETRY_SM50 : UnityGPUProgramType := 20.
Definition UNITY_GPU_PROGRAM_D3D11_HULL_SM50 : UnityGPUProgramType := 21.
Definition UNITY_GPU_PROGRAM_D3D11_DOMAIN_SM50 : UnityGPUProgramType := 22.
Definition UNITY_GPU_PROGRAM_RAY_TRACING : UnityGPUProgramType := 31.

Inductive ShaderStageTupleStatus :=
| SHADER_STAGE_TUPLE_OK
| SHADER_STAGE_TUPLE_INVALID_ARGUMENT
| SHADER_STAGE_TUPLE_INVALID_SERIALIZED_STAGE
| SHADER_STAGE_TUPLE_COMPILER_PROGRAM_MISMATCH
| SHADER_STAGE_TUPLE_PROGRAM_MASK_MISMATCH
| SHADER_STAGE_TUPLE_DXBC_PROGRAM_MISMATCH
| SHADER_STAGE_TUPLE_GPU_PROGRAM_MISMATCH
| SHADER_STAGE_TUPLE_SHADER_MODEL_MISMATCH.

Record ShaderStageTuple := {
  serialized_stage : UnitySerializedProgramStage;
  compiler_program : UnityCompilerProgramStage;
  serialized_program_mask : Z;
  gpu_program_type : UnityGPUProgramType;
  dxbc_program_type : DXBCProgramType;
  tuple_model_major : Z;
  tuple_model_minor : Z;
}.

(** * Conversions

    [None] is [return false]; the out pointers are non-NULL. *)

Definition compiler_program_mapping : list UnityCompilerProgramStage :=
  [UNITY_COMPILER_PROGRAM_VERTEX; UNITY_COMPILER_PROGRAM_FRAGMENT;
   UNITY_COMPILER_PROGRAM_GEOMETRY; UNITY_COMPILER_PROGRAM_HULL;
   UNITY_COMPILER_PROGRAM_DOMAIN; UNITY_COMPILER_PROGRAM_RAY_TRACING].

Definition shader_stage_serialized_to_compiler (serialized_stage : UnitySerializedProgramStage)
    : option UnityCompilerProgramStage :=
  if Z.of_nat (length compiler_program_mapping) <=? u32 serialized_stage then None
  else compiler_program_mapping !! Z.to_nat serialized_stage.

Definition shader_stage_compiler_to_serialized (compiler_program : UnityCompilerProgramStage)
    : option UnitySerializedProgramStage :=
  if compiler_program =? UNITY_COMPILER_PROGRAM_VERTEX then Some UNITY_SERIALIZED_STAGE_VERTEX else
  if compiler_program =? UNITY_COMPILER_PROGRAM_FRAGMENT then Some UNITY_SERIALIZED_STAGE_FRAGMENT else
  if compiler_program =? UNITY_COMPILER_PROGRAM_HULL then Some UNITY_SERIALIZED_STAGE_HULL else
  if compiler_program =? UNITY_COMPILER_PROGRAM_DOMAIN then Some UNITY_SERIALIZED_STAGE_DOMAIN else
  if compiler_program =? UNITY_COMPILER_PROGRAM_GEOMETRY then Some UNITY_SERIALIZED_STAGE_GEOMETRY else
  if compiler_program =? UNITY_COMPILER_PROGRAM_RAY_TRACING
  then Some UNITY_SERIALIZED_STAGE_RAY_TRACING
  else None.

Definition shader_stage_serialized_to_dxbc (serialized_stage : UnitySerializedProgramStage)
    : option DXBCProgramType :=
  if serialized_stage =? UNITY_SERIALIZED_STAGE_VERTEX then Some DXBC_PROGRAM_TYPE_VERTEX else
  if serialized_stage =? UNITY_SERIALIZED_STAGE_FRAGMENT then Some DXBC_PROGRAM_TYPE_PIXEL else
  if serialized_stage =? UNITY_SERIALIZED_STAGE_GEOMETRY then Some DXBC_PROGRAM_TYPE_GEOMETRY else
  if serialized_stage =? UNITY_SERIALIZED_STAGE_HULL then Some DXBC_PROGRAM_TYPE_HULL else
  if serialized_stage =? UNITY_SERIALIZED_STAGE_DOMAIN then Some DXBC_PROGRAM_TYPE_DOMAIN
  else None.

Definition shader_stage_dxbc_to_serialized (program_type : DXBCProgramType)
    : option UnitySerializedProgramStage :=
  if program_type =? DXBC_PROGRAM_TYPE_PIXEL then Some UNITY_SERIALIZED_STAGE_FRAGMENT else
  if program_type =? DXBC_PROGRAM_TYPE_VERTEX then Some UNITY_SERIALIZED_STAGE_VERTEX else
  if program_type =? DXBC_PROGRAM_TYPE_GEOMETRY then Some UNITY_SERIALIZED_STAGE_GEOMETRY else
  if program_type =? DXBC_PROGRAM_TYPE_HULL then Some UNITY_SERIALIZED_STAGE_HULL else
  if program_type =? DXBC_PROGRAM_TYPE_DOMAIN then Some UNITY_SERIALIZED_STAGE_DOMAIN
  else None.

(** Slot [s] is bit [s + 1] of the program mask. *)
Definition shader_stage_serialized_program_mask_bit
    (serialized_stage : UnitySerializedProgramStage) : option Z :=
  if UNITY_SERIALIZED_STAGE_COUNT <=? u32 serialized_stage then None
  else Some (u32 (Z.shiftl 1 (u32 serialized_stage + 1))).

(** * The D3D11 tuple *)

Definition sm40 (t : ShaderStageTuple) : bool :=
  (tuple_model_major t =? 4) && (tuple_model_minor t <=? 1).
Definition sm50 (t : ShaderStageTuple) : bool :=
  (tuple_model_major t =? 5) && (tuple_model_minor t =? 0).

Definition gpu_program_matches (t : ShaderStageTuple) : bool :=
  let gpu := gpu_program_type t in
  let stage := serialized_stage t in
  if gpu =? UNITY_GPU_PROGRAM_D3D11_VERTEX_SM40
  then (stage =? UNITY_SERIALIZED_STAGE_VERTEX) && sm40 t else
  if gpu =? UNITY_GPU_PROGRAM_D3D11_VERTEX_SM50
  then (stage =? UNITY_SERIALIZED_STAGE_VERTEX) && sm50 t else
  if gpu =? UNITY_GPU_PROGRAM_D3D11_PIXEL_SM40
  then (stage =? UNITY_SERIALIZED_STAGE_FRAGMENT) && sm40 t else
  if gpu =? UNITY_GPU_PROGRAM_D3D11_PIXEL_SM50
  then (stage =? UNITY_SERIALIZED_STAGE_FRAGMENT) && sm50 t else
  if gpu =? UNITY_GPU_PROGRAM_D3D11_GEOMETRY_SM40
  then (stage =? UNITY_SERIALIZED_STAGE_GEOMETRY) && sm40 t else
  if gpu =? UNITY_GPU_PROGRAM_D3D11_GEOMETRY_SM50
  then (stage =? UNITY_SERIALIZED_STAGE_GEOMETRY) && sm50 t else
  if gpu =? UNITY_GPU_PROGRAM_D3D11_HULL_SM50
  then (stage =? UNITY_SERIALIZED_STAGE_HULL) && sm50 t else
  if gpu =? UNITY_GPU_PROGRAM_D3D11_DOMAIN_SM50
  then (stage =? UNITY_SERIALIZED_STAGE_DOMAIN) && sm50 t
  else false.

(** The shader models the D3D11 pipeline admits. *)
Definition invalid_shader_model (major minor : Z) : bool :=
  (negb (major =? 4) && negb (major =? 5)) || ((major =? 4) && (1 <? minor)) ||
  ((major =? 5) && negb (minor =? 0)).

Definition shader_stage_validate_d3d11_tuple (tuple : option ShaderStageTuple)
    : ShaderStageTupleStatus :=
  match tuple with
  | None => SHADER_STAGE_TUPLE_INVALID_ARGUMENT
  | Some t =>
    match shader_stage_serialized_to_compiler (serialized_stage t) with
    | None => SHADER_STAGE_TUPLE_INVALID_SERIALIZED_STAGE
    | Some expected_compiler =>
      if negb (compiler_program t =? expected_compiler) then
        SHADER_STAGE_TUPLE_COMPILER_PROGRAM_MISMATCH
      else
      match shader_stage_serialized_program_mask_bit (serialized_stage t) with
      | None => SHADER_STAGE_TUPLE_PROGRAM_MASK_MISMATCH
      | Some expected_mask_bit =>
        if Z.land (serialized_program_mask t) expected_mask_bit =? 0 then
          SHADER_STAGE_TUPLE_PROGRAM_MASK_MISMATCH
        else
        match shader_stage_serialized_to_dxbc (serialized_stage t) with
        | None => SHADER_STAGE_TUPLE_DXBC_PROGRAM_MISMATCH
        | Some expected_dxbc =>
          if negb (dxbc_program_type t =? expected_dxbc) then
            SHADER_STAGE_TUPLE_DXBC_PROGRAM_MISMATCH
          else if invalid_shader_model (tuple_model_major t) (tuple_model_minor t) then
            SHADER_STAGE_TUPLE_SHADER_MODEL_MISMATCH
          else if negb (gpu_program_matches t) then SHADER_STAGE_TUPLE_GPU_PROGRAM_MISMATCH
          else SHADER_STAGE_TUPLE_OK
        end
      end
    end
  end.

Definition shader_stage_tuple_status_name (status : ShaderStageTupleStatus) : string :=
  match status with
  | SHADER_STAGE_TUPLE_OK => "ok"
  | SHADER_STAGE_TUPLE_INVALID_ARGUMENT => "invalid_argument"
  | SHADER_STAGE_TUPLE_INVALID_SERIALIZED_STAGE => "invalid_serialized_stage"
  | SHADER_STAGE_TUPLE_COMPILER_PROGRAM_MISMATCH => "compiler_program_mismatch"
  | SHADER_STAGE_TUPLE_PROGRAM_MASK_MISMATCH => "program_mask_mismatch"
  | SHADER_STAGE_TUPLE_DXBC_PROGRAM_MISMATCH => "dxbc_program_mismatch"
  | SHADER_STAGE_TUPLE_GPU_PROGRAM_MISMATCH => "gpu_program_mismatch"
  | SHADER_STAGE_TUPLE_SHADER_MODEL_MISMATCH => "shader_model_mismatch"
  end.

(** * The stage table

    The D3D11 stages, each with its number in the four domains and the shader
    model of the GPU program: what a consistent tuple is an instance of. *)

Inductive stage_row : Z -> Z -> Z -> Z -> Z -> Z -> Prop :=
| row_vertex_4 minor : minor <= 1 -> stage_row 0 0 1 15 4 minor
| row_vertex_5 : stage_row 0 0 1 16 5 0
| row_pixel_4 minor : minor <= 1 -> stage_row 1 1 0 17 4 minor
| row_pixel_5 : stage_row 1 1 0 18 5 0
| row_geometry_4 minor : minor <= 1 -> stage_row 2 4 2 19 4 minor
| row_geometry_5 : stage_row 2 4 2 20 5 0
| row_hull : stage_row 3 2 3 21 5 0
| row_domain : stage_row 4 3 4 22 5 0.

Definition consistent_tuple (t : ShaderStageTuple) : Prop :=
  stage_row (serialized_stage t) (compiler_program t) (dxbc_program_type t) (gpu_program_type t)
    (tuple_model_major t) (tuple_model_minor t) /\
  Z.testbit (serialized_program_mask t) (serialized_stage t + 1) = true.

Ltac stage_constants :=
  unfold UNITY_SERIALIZED_STAGE_VERTEX, UNITY_SERIALIZED_STAGE_FRAGMENT,
    UNITY_SERIALIZED_STAGE_GEOMETRY, UNITY_SERIALIZED_STAGE_HULL, UNITY_SERIALIZED_STAGE_DOMAIN,
    UNITY_SERIALIZED_STAGE_RAY_TRACING, UNITY_SERIALIZED_STAGE_COUNT,
    UNITY_COMPILER_PROGRAM_VERTEX, UNITY_COMPILER_PROGRAM_FRAGMENT, UNITY_COMPILER_PROGRAM_HULL,
    UNITY_COMPILER_PROGRAM_DOMAIN, UNITY_COMPILER_PROGRAM_GEOMETRY,
    UNITY_COMPILER_PROGRAM_RAY_TRACING, DXBC_PROGRAM_TYPE_PIXEL, DXBC_PROGRAM_TYPE_VERTEX,
    DXBC_PROGRAM_TYPE_GEOMETRY, DXBC_PROGRAM_TYPE_HULL, DXBC_PROGRAM_TYPE_DOMAIN in *.

Lemma serialized_to_compiler_cases s :
  in_u32 s ->
  (exists c, shader_stage_serialized_to_compiler s = Some c /\ 0 <= s < 6) \/
  shader_stage_serialized_to_compiler s = None /\ 6 <= s.
Proof.
  intros Hs. unfold shader_stage_serialized_to_compiler, in_u32 in *. rewrite u32_small by lia.
  change (Z.of_nat (length compiler_program_mapping)) with 6.
  destruct (Z.leb_spec 6 s); [by right|left].
  assert (Hl : (Z.to_nat s < length compiler_program_mapping)%nat) by (cbn; lia).
  apply lookup_lt_is_Some_2 in Hl as [c Hc]. exists c. split; [done|lia].
Qed.

(** The defined stages are the numbers below six. *)
Lemma stage_cases s : 0 <= s < 6 -> s = 0 \/ s = 1 \/ s = 2 \/ s = 3 \/ s = 4 \/ s = 5.
Proof. lia. Qed.

(** Case analysis on a stage number in range. *)
Ltac stage_split s := destruct (stage_cases s) as [->|[->|[->|[->|[->| ->]]]]]; [lia|..].

Lemma land_bit_zero a n : 0 <= n -> (Z.land a (Z.shiftl 1 n) =? 0) = negb (Z.testbit a n).
Proof.
  intros Hn. rewrite Z.shiftl_mul_pow2, Z.mul_1_l by done.
  destruct (Z.testbit a n) eqn:Hb; cbn [negb].
  - apply Z.eqb_neq. intros H0.
    assert (Ht : Z.testbit (Z.land a (2 ^ n)) n = true)
      by (by rewrite Z.land_spec, Hb, Z.pow2_bits_true).
    by rewrite H0, Z.bits_0 in Ht.
  - apply Z.eqb_eq. apply Z.bits_inj'. intros k Hk. rewrite Z.land_spec, Z.bits_0.
    rewrite Z.pow2_bits_eqb by done. destruct (Z.eqb_spec n k) as [->|]; [by rewrite Hb|].
    by rewrite andb_false_r.
Qed.

(** * Properties *)

(** The serialized and compiler stage numbers translate into each other
    without loss, although they order hull, domain and geometry differently. *)
Theorem shader_stage_serialized_compiler_inverse s c :
  in_u32 s -> in_u32 c ->
  shader_stage_serialized_to_compiler s = Some c <-> shader_stage_compiler_to_serialized c = Some s.
Proof.
  intros Hs Hc. split.
  - intros H. destruct (serialized_to_compiler_cases s Hs) as [(c' & Hc' & Hr)|[Hn _]]; [|congruence].
    clear Hc'. stage_split s; vm_compute in H; injection H as <-; reflexivity.
  - unfold shader_stage_compiler_to_serialized. stage_constants.
    repeat (zcase; [intros [= <-]; subst; reflexivity|]). done.
Qed.

(** The DXBC program types and the serialized stages they name translate
    into each other without loss. *)
Theorem shader_stage_serialized_dxbc_inverse s p :
  shader_stage_serialized_to_dxbc s = Some p <-> shader_stage_dxbc_to_serialized p = Some s.
Proof.
  unfold shader_stage_serialized_to_dxbc, shader_stage_dxbc_to_serialized. stage_constants.
  split; repeat (zcase; [intros [= <-]; subst; reflexivity|]); done.
Qed.

(** The checks after the stage number, for one stage: compiler number [c], DXBC
    type [p], and the GPU program test [g]. *)
Lemma validate_row (tc tp m b k c p : Z) (bad g : bool) :
  0 <= k -> b = Z.shiftl 1 k ->
  (if negb (tc =? c) then SHADER_STAGE_TUPLE_COMPILER_PROGRAM_MISMATCH
   else if Z.land m b =? 0 then SHADER_STAGE_TUPLE_PROGRAM_MASK_MISMATCH
   else if negb (tp =? p) then SHADER_STAGE_TUPLE_DXBC_PROGRAM_MISMATCH
   else if bad then SHADER_STAGE_TUPLE_SHADER_MODEL_MISMATCH
   else if negb g then SHADER_STAGE_TUPLE_GPU_PROGRAM_MISMATCH
   else SHADER_STAGE_TUPLE_OK) = SHADER_STAGE_TUPLE_OK <->
  tc = c /\ tp = p /\ Z.testbit m k = true /\ bad = false /\ g = true.
Proof.
  intros Hk ->. rewrite land_bit_zero by done.
  destruct (Z.eqb_spec tc c), (Z.eqb_spec tp p), (Z.testbit m k), bad, g; cbn [negb];
    split; intros H; try done; intuition congruence.
Qed.

(** Evaluate the conversions of a concrete stage. *)
Ltac evaluate_conversions :=
  repeat match goal with
  | |- context [match ?f ?k with Some _ => _ | None => _ end] =>
      let v := eval vm_compute in (f k) in change (f k) with v; cbv beta iota
  end.

Lemma stage_row_range s c p g ma mi : stage_row s c p g ma mi -> 0 <= s < 5.
Proof. by destruct 1. Qed.

(** What [gpu_program_matches] accepts. *)
Lemma gpu_program_matches_spec s c m g p ma mi :
  gpu_program_matches (Build_ShaderStageTuple s c m g p ma mi) = true <->
  ((s, g) ∈ [(0, 15); (1, 17); (2, 19)] /\ ma = 4 /\ mi <= 1) \/
  ((s, g) ∈ [(0, 16); (1, 18); (2, 20); (3, 21); (4, 22)] /\ ma = 5 /\ mi = 0).
Proof.
  unfold gpu_program_matches, sm40, sm50. cbn [serialized_stage gpu_program_type
    tuple_model_major tuple_model_minor]. stage_constants.
  rewrite !elem_of_cons, !elem_of_nil, !pair_equal_spec.
  unfold UNITY_GPU_PROGRAM_D3D11_VERTEX_SM40, UNITY_GPU_PROGRAM_D3D11_VERTEX_SM50,
    UNITY_GPU_PROGRAM_D3D11_PIXEL_SM40, UNITY_GPU_PROGRAM_D3D11_PIXEL_SM50,
    UNITY_GPU_PROGRAM_D3D11_GEOMETRY_SM40, UNITY_GPU_PROGRAM_D3D11_GEOMETRY_SM50,
    UNITY_GPU_PROGRAM_D3D11_HULL_SM50, UNITY_GPU_PROGRAM_D3D11_DOMAIN_SM50.
  repeat match goal with
    | |- context [if g =? ?k then _ else _] =>
        destruct (Z.eqb_spec g k); [rewrite !andb_true_iff, !Z.eqb_eq, ?Z.leb_le; subst; lia|]
    end.
  split; [done|lia].
Qed.

Lemma gpu_model_valid t : gpu_program_matches t = true ->
  invalid_shader_model (tuple_model_major t) (tuple_model_minor t) = false.
Proof.
  destruct t as [s c m g p ma mi]. rewrite gpu_program_matches_spec. cbn.
  intros [(_ & -> & H)|(_ & -> & ->)]; [|done]. unfold invalid_shader_model. cbn.
  destruct (Z.ltb_spec 1 mi); [lia|done].
Qed.

(** The validator accepts exactly the tuples whose four stage numbers and
    shader model are one row of the stage table and whose program mask has the
    stage's bit. *)
Theorem shader_stage_validate_ok_iff t :
  in_u32 (serialized_stage t) ->
  shader_stage_validate_d3d11_tuple (Some t) = SHADER_STAGE_TUPLE_OK <-> consistent_tuple t.
Proof.
  intros Hs. unfold shader_stage_validate_d3d11_tuple.
  pose proof (gpu_model_valid t) as Hmodel.
  destruct t as [s c m g p ma mi]. unfold consistent_tuple. cbn in Hs, Hmodel.
  cbn [serialized_stage compiler_program serialized_program_mask dxbc_program_type
       gpu_program_type tuple_model_major tuple_model_minor].
  destruct (serialized_to_compiler_cases s Hs) as [(e & _ & Hr)|[-> H6]].
  2:{ split; [done|]. intros [Hrow%stage_row_range _]. lia. }
  pose proof (gpu_program_matches_spec s c m g p ma mi) as Hgpu.
  rewrite !elem_of_cons, !elem_of_nil, !pair_equal_spec in Hgpu.
  set (ok := gpu_program_matches _) in *. clearbody ok.
  set (bad := invalid_shader_model _ _) in *. clearbody bad.
  stage_split s; evaluate_conversions.
  all: try (etransitivity; [first [by apply (validate_row c p m 2 1) | by apply (validate_row c p m 4 2)
    | by apply (validate_row c p m 8 3) | by apply (validate_row c p m 16 4)
    | by apply (validate_row c p m 32 5)]|]).
  all: split; [intros H|intros [H Hb]].
  all: try (inversion H; subst; (split; [done|split; [done|split; [done|]]]); intuition lia).
  all: try (exfalso; revert H; repeat case_match; discriminate).
  all: destruct H as (-> & -> & Hb & _ & Hok); split; [|done].
  all: apply Hgpu in Hok as [[Hg (-> & H)]|[Hg (-> & ->)]]; intuition (try lia; subst; by constructor).
Qed.

(** * Witnesses *)

Lemma shader_stage_serialized_compiler_inverse_witness :
  shader_stage_serialized_to_compiler UNITY_SERIALIZED_STAGE_HULL = Some UNITY_COMPILER_PROGRAM_HULL <->
  shader_stage_compiler_to_serialized UNITY_COMPILER_PROGRAM_HULL = Some UNITY_SERIALIZED_STAGE_HULL.
Proof.
  apply (shader_stage_serialized_compiler_inverse UNITY_SERIALIZED_STAGE_HULL
           UNITY_COMPILER_PROGRAM_HULL); by split.
Defined.

Definition sample_tuple : ShaderStageTuple := {|
  serialized_stage := UNITY_SERIALIZED_STAGE_DOMAIN;
  compiler_program := UNITY_COMPILER_PROGRAM_DOMAIN; serialized_program_mask := 0x22;
  gpu_program_type := UNITY_GPU_PROGRAM_D3D11_DOMAIN_SM50;
  dxbc_program_type := DXBC_PROGRAM_TYPE_DOMAIN; tuple_model_major := 5; tuple_model_minor := 0 |}.

Lemma shader_stage_validate_ok_iff_witness :
  shader_stage_validate_d3d11_tuple (Some sample_tuple) = SHADER_STAGE_TUPLE_OK <->
  consistent_tuple sample_tuple.
Proof. apply (shader_stage_validate_ok_iff sample_tuple). by split. Defined.
