(* ===== verification/Document.v ===== *)
(** The lossless container document: [include/dxbc/dxbc_document.h] and
    [src/dxbc/dxbc_document.c]. *)

From S2P Require Import Prelude UnityCommon Hash.

(** * Data *)

Inductive DXBCDocumentDiagnosticKind :=
| DXBC_DOCUMENT_DIAGNOSTIC_VALIDATION
| DXBC_DOCUMENT_DIAGNOSTIC_UNSUPPORTED.

Inductive DXBCDocumentDiagnosticCode :=
| DXBC_DOCUMENT_OK
| DXBC_DOCUMENT_INVALID_ARGUMENT
| DXBC_DOCUMENT_OUT_OF_MEMORY
| DXBC_DOCUMENT_NOT_DXBC
| DXBC_DOCUMENT_TRUNCATED_HEADER
| DXBC_DOCUMENT_UNSUPPORTED_CONTAINER_VERSION
| DXBC_DOCUMENT_DECLARED_SIZE_INVALID
| DXBC_DOCUMENT_DECLARED_SIZE_MISMATCH
| DXBC_DOCUMENT_CHUNK_TABLE_OVERFLOW
| DXBC_DOCUMENT_CHUNK_OFFSET_UNALIGNED
| DXBC_DOCUMENT_CHUNK_OFFSET_IN_HEADER
| DXBC_DOCUMENT_DUPLICATE_CHUNK_OFFSET
| DXBC_DOCUMENT_TRUNCATED_CHUNK_HEADER
| DXBC_DOCUMENT_CHUNK_RANGE_OVERFLOW
| DXBC_DOCUMENT_TRUNCATED_CHUNK_PAYLOAD
| DXBC_DOCUMENT_OVERLAPPING_CHUNKS
| DXBC_DOCUMENT_HASH_MISMATCH
| DXBC_DOCUMENT_EXECUTABLE_SIZE_UNALIGNED
| DXBC_DOCUMENT_TRUNCATED_EXECUTABLE_HEADER
| DXBC_DOCUMENT_EXECUTABLE_LENGTH_MISMATCH
| DXBC_DOCUMENT_TRUNCATED_INSTRUCTION
| DXBC_DOCUMENT_INSTRUCTION_LENGTH_INVALID
| DXBC_DOCUMENT_TRUNCATED_OPCODE_EXTENSION
| DXBC_DOCUMENT_UNSUPPORTED_SHADER_STAGE
| DXBC_DOCUMENT_CORRUPT_DOCUMENT.

#[global] Instance diagnostic_code_eq_dec : EqDecision DXBCDocumentDiagnosticCode.
Proof. solve_decision. Defined.

Definition DXBC_DOCUMENT_NO_INDEX : Z := UINT32_MAX.
Definition DXBC_DOCUMENT_HEADER_SIZE : Z := 32.

Record DXBCDocumentDiagnostic := {
  diag_kind : DXBCDocumentDiagnosticKind;
  diag_code : DXBCDocumentDiagnosticCode;
  diag_byte_offset : Z;
  diag_chunk_index : Z;
  diag_instruction_index : Z;
  diag_expected : Z;
  diag_actual : Z;
}.

Inductive DXBCDocumentChunkKind :=
| DXBC_DOCUMENT_CHUNK_UNKNOWN
| DXBC_DOCUMENT_CHUNK_EXECUTABLE
| DXBC_DOCUMENT_CHUNK_SIGNATURE
| DXBC_DOCUMENT_CHUNK_REFLECTION
| DXBC_DOCUMENT_CHUNK_STATISTICS
| DXBC_DOCUMENT_CHUNK_DEBUG.

#[global] Instance chunk_kind_eq_dec : EqDecision DXBCDocumentChunkKind.
Proof. solve_decision. Defined.

(** [chunk_raw_bytes] and [chunk_payload_bytes] are the byte ranges the C views
    point at; the document is immutable while they are live. *)
Record DXBCDocumentChunk := {
  chunk_fourcc : list byte;
  chunk_kind : DXBCDocumentChunkKind;
  chunk_table_index : Z;
  chunk_offset : Z;
  chunk_payload_size : Z;
  chunk_raw_size : Z;
  chunk_raw_bytes : list byte;
  chunk_payload_bytes : list byte;
}.

Record DXBCDocumentInstruction := {
  ins_chunk_index : Z;
  ins_index : Z;
  ins_byte_offset : Z;
  ins_byte_size : Z;
  ins_token_count : Z;
  ins_opcode : Z;
  ins_encoded_length : Z;
  ins_extended_opcode_token_count : Z;
  ins_uses_customdata_length : bool;
  ins_raw_bytes : list byte;
}.

(** The counts of the C arrays are the lengths of the lists; the capacities are
    kept.  [doc_owned_bytes] is [None] for NULL. *)
Record DXBCDocument := {
  doc_magic : list byte;
  doc_hash : list byte;
  doc_container_version : Z;
  doc_declared_size : Z;
  doc_chunk_count : Z;
  doc_hash_valid : bool;
  doc_owned_bytes : option (list byte);
  doc_chunks : list DXBCDocumentChunk;
  doc_instructions : list DXBCDocumentInstruction;
  doc_instruction_capacity : Z;
  doc_diagnostics : list DXBCDocumentDiagnostic;
  doc_diagnostic_capacity : Z;
}.

Definition doc_owned_size (d : DXBCDocument) : Z :=
  match doc_owned_bytes d with Some bs => size bs | None => 0 end.
Definition doc_instruction_count (d : DXBCDocument) : Z := Z.of_nat (length (doc_instructions d)).
Definition doc_diagnostic_count (d : DXBCDocument) : Z := Z.of_nat (length (doc_diagnostics d)).

(** [sizeof] on an LP64 target. *)
Definition sizeof_DXBCDocumentChunk : Z := 48.
Definition sizeof_DXBCDocumentInstruction : Z := 56.
Definition sizeof_DXBCDocumentDiagnostic : Z := 40.

(** [dxbc_document_init] *)
Definition dxbc_document_init : DXBCDocument := {|
  doc_magic := repeat Byte.x00 4; doc_hash := repeat Byte.x00 16;
  doc_container_version := 0; doc_declared_size := 0; doc_chunk_count := 0;
  doc_hash_valid := false; doc_owned_bytes := None; doc_chunks := [];
  doc_instructions := []; doc_instruction_capacity := 0;
  doc_diagnostics := []; doc_diagnostic_capacity := 0 |}.

(** [dxbc_document_free]: the zeroed document, and the sizes handed to
    [mem_free] in order; the arrays are non-NULL when their capacity, or their
    count, is positive. *)
Definition dxbc_document_free (document : option DXBCDocument) : option DXBCDocument * list Z :=
  match document with
  | None => (None, [])
  | Some d =>
      (Some dxbc_document_init,
       (if doc_diagnostic_capacity d =? 0 then []
        else [doc_diagnostic_capacity d * sizeof_DXBCDocumentDiagnostic]) ++
       (if doc_instruction_capacity d =? 0 then []
        else [doc_instruction_capacity d * sizeof_DXBCDocumentInstruction]) ++
       (if doc_chunk_count d =? 0 then [] else [doc_chunk_count d * sizeof_DXBCDocumentChunk]) ++
       match doc_owned_bytes d with Some bs => [size bs] | None => [] end)
  end.

(** * Diagnostics *)

Definition clear_diagnostic : DXBCDocumentDiagnostic := {|
  diag_kind := DXBC_DOCUMENT_DIAGNOSTIC_VALIDATION; diag_code := DXBC_DOCUMENT_OK;
  diag_byte_offset := 0; diag_chunk_index := DXBC_DOCUMENT_NO_INDEX;
  diag_instruction_index := DXBC_DOCUMENT_NO_INDEX; diag_expected := 0; diag_actual := 0 |}.

Definition diagnostic_kind (code : DXBCDocumentDiagnosticCode) : DXBCDocumentDiagnosticKind :=
  match code with
  | DXBC_DOCUMENT_UNSUPPORTED_CONTAINER_VERSION
  | DXBC_DOCUMENT_UNSUPPORTED_SHADER_STAGE => DXBC_DOCUMENT_DIAGNOSTIC_UNSUPPORTED
  | _ => DXBC_DOCUMENT_DIAGNOSTIC_VALIDATION
  end.

Definition mk_diagnostic (code : DXBCDocumentDiagnosticCode)
    (byte_offset chunk_index instruction_index expected actual : Z) : DXBCDocumentDiagnostic := {|
  diag_kind := diagnostic_kind code; diag_code := code; diag_byte_offset := byte_offset;
  diag_chunk_index := chunk_index; diag_instruction_index := instruction_index;
  diag_expected := expected; diag_actual := actual |}.

(** [return report_failure(...)]; a NULL [out_diagnostic] drops the report. *)
Definition report_failure {A} (code : DXBCDocumentDiagnosticCode)
    (byte_offset chunk_index instruction_index expected actual : Z)
    : res DXBCDocumentDiagnostic A :=
  Fail (mk_diagnostic code byte_offset chunk_index instruction_index expected actual).

Definition fourcc_equal (fourcc : list byte) (name : string) : bool :=
  bytes_eqb fourcc (String.list_byte_of_string name).

Definition classify_chunk (fourcc : list byte) : DXBCDocumentChunkKind :=
  if fourcc_equal fourcc "SHDR" || fourcc_equal fourcc "SHEX"
  then DXBC_DOCUMENT_CHUNK_EXECUTABLE else
  if fourcc_equal fourcc "ISGN" || fourcc_equal fourcc "ISG1" ||
     fourcc_equal fourcc "OSGN" || fourcc_equal fourcc "OSG1" ||
     fourcc_equal fourcc "OSG5" || fourcc_equal fourcc "PCSG" ||
     fourcc_equal fourcc "PSG1"
  then DXBC_DOCUMENT_CHUNK_SIGNATURE else
  if fourcc_equal fourcc "RDEF" || fourcc_equal fourcc "RD11"
  then DXBC_DOCUMENT_CHUNK_REFLECTION else
  if fourcc_equal fourcc "STAT" then DXBC_DOCUMENT_CHUNK_STATISTICS else
  if fourcc_equal fourcc "SDBG" || fourcc_equal fourcc "SPDB" ||
     fourcc_equal fourcc "ILDB" || fourcc_equal fourcc "ILDN"
  then DXBC_DOCUMENT_CHUNK_DEBUG
  else DXBC_DOCUMENT_CHUNK_UNKNOWN.

(** * Updating the document under construction *)

Definition set_instructions (d : DXBCDocument) l c : DXBCDocument := {|
  doc_magic := doc_magic d; doc_hash := doc_hash d;
  doc_container_version := doc_container_version d; doc_declared_size := doc_declared_size d;
  doc_chunk_count := doc_chunk_count d; doc_hash_valid := doc_hash_valid d;
  doc_owned_bytes := doc_owned_bytes d; doc_chunks := doc_chunks d;
  doc_instructions := l; doc_instruction_capacity := c;
  doc_diagnostics := doc_diagnostics d; doc_diagnostic_capacity := doc_diagnostic_capacity d |}.

Definition set_diagnostics (d : DXBCDocument) l c : DXBCDocument := {|
  doc_magic := doc_magic d; doc_hash := doc_hash d;
  doc_container_version := doc_container_version d; doc_declared_size := doc_declared_size d;
  doc_chunk_count := doc_chunk_count d; doc_hash_valid := doc_hash_valid d;
  doc_owned_bytes := doc_owned_bytes d; doc_chunks := doc_chunks d;
  doc_instructions := doc_instructions d;
  doc_instruction_capacity := doc_instruction_capacity d;
  doc_diagnostics := l; doc_diagnostic_capacity := c |}.

Definition set_chunks (d : DXBCDocument) chunks hash_valid : DXBCDocument := {|
  doc_magic := doc_magic d; doc_hash := doc_hash d;
  doc_container_version := doc_container_version d; doc_declared_size := doc_declared_size d;
  doc_chunk_count := doc_chunk_count d; doc_hash_valid := hash_valid;
  doc_owned_bytes := doc_owned_bytes d; doc_chunks := chunks;
  doc_instructions := doc_instructions d;
  doc_instruction_capacity := doc_instruction_capacity d;
  doc_diagnostics := doc_diagnostics d; doc_diagnostic_capacity := doc_diagnostic_capacity d |}.

Section document.
Context `{UnityCommon, DigestStack}.

Definition append_diagnostic (document : DXBCDocument) (code : DXBCDocumentDiagnosticCode)
    (byte_offset chunk_index instruction_index expected actual : Z)
    : res DXBCDocumentDiagnostic DXBCDocument :=
  match grow_array 4 sizeof_DXBCDocumentDiagnostic (doc_diagnostic_count document)
          (doc_diagnostic_capacity document) with
  | None => report_failure DXBC_DOCUMENT_OUT_OF_MEMORY byte_offset chunk_index
              instruction_index 0 0
  | Some capacity =>
      let diagnostic := mk_diagnostic code byte_offset chunk_index instruction_index
                          expected actual in
      Ret (set_diagnostics document (doc_diagnostics document ++ [diagnostic]) capacity)
  end.

Definition append_instruction (document : DXBCDocument) (instruction : DXBCDocumentInstruction)
    : res DXBCDocumentDiagnostic DXBCDocument :=
  match grow_array 64 sizeof_DXBCDocumentInstruction (doc_instruction_count document)
          (doc_instruction_capacity document) with
  | None => report_failure DXBC_DOCUMENT_OUT_OF_MEMORY (ins_byte_offset instruction)
              (ins_chunk_index instruction) (ins_index instruction) 0 0
  | Some capacity =>
      Ret (set_instructions document (doc_instructions document ++ [instruction]) capacity)
  end.

(** The bytes a view of the document points into; a NULL base is undefined. *)
Definition owned {E} (document : DXBCDocument) : res E (list byte) :=
  match doc_owned_bytes document with Some bs => Ret bs | None => Undef end.

(** * Executable chunks *)

(** The state of the opcode-extension loop: the next extension word, the
    count so far, and whether the last token continues. *)
Definition extension_loop (bytes : list byte) (instruction_offset token_count : Z)
    (chunk_index instruction_index : Z) (start : Z)
    : res DXBCDocumentDiagnostic (Z * Z * bool) :=
  while (Z.to_nat token_count)
    (fun '(_, _, continuation) => continuation)
    (fun '(extension_word, extension_count, _) =>
       if token_count <=? extension_word then
         report_failure DXBC_DOCUMENT_TRUNCATED_OPCODE_EXTENSION
           (u64 (instruction_offset + u64 (extension_word * 4)))
           chunk_index instruction_index (u32 (extension_word + 1)) token_count
       else
         extension_token ← read_u32_le bytes
           (u64 (instruction_offset + u64 (extension_word * 4)));
         Ret (u32 (extension_word + 1), u32 (extension_count + 1),
              negb (Z.land extension_token 0x80000000 =? 0)))
    (start, 0, true).

(** One iteration of the instruction loop of [parse_executable_chunk]. *)
Definition parse_instruction (chunk_index payload_offset declared_tokens : Z)
    (state : DXBCDocument * Z * Z)
    : res DXBCDocumentDiagnostic (DXBCDocument * Z * Z) :=
  let '(document, word_offset, instruction_index) := state in
  bytes ← owned document;
  let instruction_offset := u64 (payload_offset + u64 (word_offset * 4)) in
  first_token ← read_u32_le bytes instruction_offset;
  let opcode := Z.land first_token 0x7ff in
  let encoded_length := Z.land (Z.shiftr first_token 24) 0x7f in
  let uses_customdata_length := opcode =? 53 in
  token_count ←
    (if uses_customdata_length then
       if u32 (declared_tokens - word_offset) <? 2 then
         report_failure DXBC_DOCUMENT_TRUNCATED_INSTRUCTION instruction_offset chunk_index
           instruction_index 2 (u32 (declared_tokens - word_offset))
       else read_u32_le bytes (u64 (instruction_offset + 4))
     else if encoded_length =? 0 then
       report_failure DXBC_DOCUMENT_INSTRUCTION_LENGTH_INVALID instruction_offset chunk_index
         instruction_index 1 0
     else Ret encoded_length);
  let minimum_tokens := if uses_customdata_length then 2 else 1 in
  if token_count <? minimum_tokens then
    report_failure DXBC_DOCUMENT_INSTRUCTION_LENGTH_INVALID instruction_offset chunk_index
      instruction_index minimum_tokens token_count
  else if u32 (declared_tokens - word_offset) <? token_count then
    report_failure DXBC_DOCUMENT_TRUNCATED_INSTRUCTION instruction_offset chunk_index
      instruction_index token_count (u32 (declared_tokens - word_offset))
  else
  extension_count ←
    (if negb (Z.land first_token 0x80000000 =? 0) then
       st ← extension_loop bytes instruction_offset token_count chunk_index instruction_index
              (if uses_customdata_length then 2 else 1);
       Ret st.1.2
     else Ret 0);
  raw_bytes ← view bytes instruction_offset (u64 (token_count * 4));
  let instruction := {|
    ins_chunk_index := chunk_index; ins_index := instruction_index;
    ins_byte_offset := instruction_offset; ins_byte_size := u64 (token_count * 4);
    ins_token_count := token_count; ins_opcode := opcode;
    ins_encoded_length := encoded_length;
    ins_extended_opcode_token_count := extension_count;
    ins_uses_customdata_length := uses_customdata_length;
    ins_raw_bytes := raw_bytes |} in
  document ← append_instruction document instruction;
  Ret (document, u32 (word_offset + token_count), u32 (instruction_index + 1)).

Definition parse_executable_chunk (document : DXBCDocument) (chunk : DXBCDocumentChunk)
    : res DXBCDocumentDiagnostic DXBCDocument :=
  let chunk_index := chunk_table_index chunk in
  let payload_offset := u64 (chunk_offset chunk + 8) in
  let payload_size := chunk_payload_size chunk in
  if negb (Z.land payload_size 3 =? 0) then
    report_failure DXBC_DOCUMENT_EXECUTABLE_SIZE_UNALIGNED payload_offset chunk_index
      DXBC_DOCUMENT_NO_INDEX 4 (Z.land payload_size 3)
  else if payload_size <? 8 then
    report_failure DXBC_DOCUMENT_TRUNCATED_EXECUTABLE_HEADER payload_offset chunk_index
      DXBC_DOCUMENT_NO_INDEX 8 payload_size
  else
  version_token ← read_u32_le (chunk_payload_bytes chunk) 0;
  declared_tokens ← read_u32_le (chunk_payload_bytes chunk) 4;
  let available_tokens := payload_size / 4 in
  if negb (declared_tokens =? available_tokens) || (declared_tokens <? 2) then
    report_failure DXBC_DOCUMENT_EXECUTABLE_LENGTH_MISMATCH (u64 (payload_offset + 4))
      chunk_index DXBC_DOCUMENT_NO_INDEX available_tokens declared_tokens
  else
  let shader_stage := Z.land (Z.shiftr version_token 16) 0xffff in
  document ←
    (if 5 <? shader_stage then
       append_diagnostic document DXBC_DOCUMENT_UNSUPPORTED_SHADER_STAGE payload_offset
         chunk_index DXBC_DOCUMENT_NO_INDEX 5 shader_stage
     else Ret document);
  st ← while (Z.to_nat declared_tokens)
         (fun '(_, word_offset, _) => word_offset <? declared_tokens)
         (parse_instruction chunk_index payload_offset declared_tokens)
         (document, 2, 0);
  Ret st.1.1.

(** * The chunk table *)

(** One iteration of the chunk loop of [dxbc_document_parse]: [chunks] are the
    entries before [i]. *)
Definition parse_chunk_entry (bytes owned_bytes : list byte) (chunk_table_end : Z) (i : Z)
    (chunks : list DXBCDocumentChunk)
    : res DXBCDocumentDiagnostic (list DXBCDocumentChunk) :=
  let table_offset := u64 (DXBC_DOCUMENT_HEADER_SIZE + u64 (i * 4)) in
  let size := size bytes in
  offset ← read_u32_le bytes table_offset;
  if negb (Z.land offset 3 =? 0) then
    report_failure DXBC_DOCUMENT_CHUNK_OFFSET_UNALIGNED table_offset i DXBC_DOCUMENT_NO_INDEX
      4 (Z.land offset 3)
  else if offset <? chunk_table_end then
    report_failure DXBC_DOCUMENT_CHUNK_OFFSET_IN_HEADER table_offset i DXBC_DOCUMENT_NO_INDEX
      chunk_table_end offset
  else
  _ ← for_each 0 chunks (fun previous chunk =>
        if chunk_offset chunk =? offset then
          report_failure DXBC_DOCUMENT_DUPLICATE_CHUNK_OFFSET table_offset i
            DXBC_DOCUMENT_NO_INDEX previous offset
        else Ret tt);
  if (size <? offset) || (u64 (size - offset) <? 8) then
    report_failure DXBC_DOCUMENT_TRUNCATED_CHUNK_HEADER offset i DXBC_DOCUMENT_NO_INDEX 8
      (if offset <=? size then u64 (size - offset) else 0)
  else
  fourcc ← view owned_bytes offset 4;
  payload_size ← read_u32_le owned_bytes (u64 (offset + 4));
  let room := u32 (u32 (UINT32_MAX - offset) - 8) in
  if room <? payload_size then
    report_failure DXBC_DOCUMENT_CHUNK_RANGE_OVERFLOW (u64 (offset + 4)) i
      DXBC_DOCUMENT_NO_INDEX room payload_size
  else
  let payload_offset := u64 (offset + 8) in
  if u64 (size - payload_offset) <? payload_size then
    report_failure DXBC_DOCUMENT_TRUNCATED_CHUNK_PAYLOAD payload_offset i
      DXBC_DOCUMENT_NO_INDEX payload_size (u64 (size - payload_offset))
  else
  let raw_size := u64 (8 + payload_size) in
  raw_bytes ← view owned_bytes offset raw_size;
  payload_bytes ← view owned_bytes payload_offset payload_size;
  let this_start := offset in
  let this_end := u64 (this_start + raw_size) in
  _ ← for_each 0 chunks (fun previous chunk =>
        let previous_start := chunk_offset chunk in
        let previous_end := u64 (previous_start + chunk_raw_size chunk) in
        if (this_start <? previous_end) && (previous_start <? this_end) then
          report_failure DXBC_DOCUMENT_OVERLAPPING_CHUNKS offset i DXBC_DOCUMENT_NO_INDEX
            previous offset
        else Ret tt);
  Ret (chunks ++ [{|
    chunk_fourcc := fourcc; chunk_kind := classify_chunk fourcc; chunk_table_index := i;
    chunk_offset := offset; chunk_payload_size := payload_size; chunk_raw_size := raw_size;
    chunk_raw_bytes := raw_bytes; chunk_payload_bytes := payload_bytes |}]).

(** * Parsing *)

(** The header checks, up to the end of the chunk table: the chunk count and
    the table's end. *)
Definition parse_header (bytes : list byte) : res DXBCDocumentDiagnostic (Z * Z * Z * Z) :=
  let size := size bytes in
  let none := DXBC_DOCUMENT_NO_INDEX in
  if size <? 4 then
    report_failure DXBC_DOCUMENT_TRUNCATED_HEADER 0 none none DXBC_DOCUMENT_HEADER_SIZE size
  else
  is_dxbc ← magic_at bytes 0 "DXBC";
  if negb is_dxbc then report_failure DXBC_DOCUMENT_NOT_DXBC 0 none none 0 0
  else if size <? DXBC_DOCUMENT_HEADER_SIZE then
    report_failure DXBC_DOCUMENT_TRUNCATED_HEADER size none none DXBC_DOCUMENT_HEADER_SIZE size
  else
  container_version ← read_u32_le bytes 20;
  declared_size ← read_u32_le bytes 24;
  chunk_count ← read_u32_le bytes 28;
  if negb (container_version =? 1) then
    report_failure DXBC_DOCUMENT_UNSUPPORTED_CONTAINER_VERSION 20 none none 1 container_version
  else if declared_size <? DXBC_DOCUMENT_HEADER_SIZE then
    report_failure DXBC_DOCUMENT_DECLARED_SIZE_INVALID 24 none none DXBC_DOCUMENT_HEADER_SIZE
      declared_size
  else if negb (declared_size =? size) then
    report_failure DXBC_DOCUMENT_DECLARED_SIZE_MISMATCH 24 none none declared_size size
  else if (u32 (UINT32_MAX - DXBC_DOCUMENT_HEADER_SIZE) / 4 <? chunk_count) ||
          dxbc_size_multiply_overflows chunk_count 4 ||
          dxbc_size_add_overflows DXBC_DOCUMENT_HEADER_SIZE (u64 (chunk_count * 4)) then
    report_failure DXBC_DOCUMENT_CHUNK_TABLE_OVERFLOW 28 none none
      (u32 (declared_size - DXBC_DOCUMENT_HEADER_SIZE) / 4) chunk_count
  else
  let chunk_table_end := u64 (DXBC_DOCUMENT_HEADER_SIZE + u64 (chunk_count * 4)) in
  if declared_size <? chunk_table_end then
    report_failure DXBC_DOCUMENT_CHUNK_TABLE_OVERFLOW 28 none none
      (u32 (declared_size - DXBC_DOCUMENT_HEADER_SIZE) / 4) chunk_count
  else if dxbc_size_multiply_overflows chunk_count sizeof_DXBCDocumentChunk then
    report_failure DXBC_DOCUMENT_OUT_OF_MEMORY 28 none none 0 chunk_count
  else Ret (container_version, declared_size, chunk_count, chunk_table_end).

(** The chunks of an executable kind, parsed in table order. *)
Fixpoint parse_executables (document : DXBCDocument) (chunks : list DXBCDocumentChunk)
    : res DXBCDocumentDiagnostic DXBCDocument :=
  match chunks with
  | [] => Ret document
  | chunk :: chunks =>
      document ←
        (if decide (chunk_kind chunk = DXBC_DOCUMENT_CHUNK_EXECUTABLE)
         then parse_executable_chunk document chunk else Ret document);
      parse_executables document chunks
  end.

(** [dxbc_document_parse].  [document] is [None] for a NULL result pointer and
    otherwise the old document, which is replaced only on [Ret]. *)
Definition dxbc_document_parse (document : option DXBCDocument) (bytes : option (list byte))
    : res DXBCDocumentDiagnostic DXBCDocument :=
  let none := DXBC_DOCUMENT_NO_INDEX in
  match document, bytes with
  | None, _ | _, None => report_failure DXBC_DOCUMENT_INVALID_ARGUMENT 0 none none 0 0
  | Some _, Some bytes =>
    header ← parse_header bytes;
    let '(container_version, declared_size, chunk_count, chunk_table_end) := header in
    if negb (mem_alloc (size bytes)) then
      report_failure DXBC_DOCUMENT_OUT_OF_MEMORY 0 none none (size bytes) 0
    else
    let owned_bytes := bytes in
    magic ← view bytes 0 4;
    hash ← view bytes 4 16;
    let parsed := {|
      doc_magic := magic; doc_hash := hash; doc_container_version := container_version;
      doc_declared_size := declared_size; doc_chunk_count := chunk_count;
      doc_hash_valid := false; doc_owned_bytes := Some owned_bytes; doc_chunks := [];
      doc_instructions := []; doc_instruction_capacity := 0;
      doc_diagnostics := []; doc_diagnostic_capacity := 0 |} in
    if negb (chunk_count =? 0) && negb (mem_alloc (u64 (chunk_count * sizeof_DXBCDocumentChunk)))
    then report_failure DXBC_DOCUMENT_OUT_OF_MEMORY 28 none none chunk_count 0
    else
    chunks ← for_loop (Z.to_nat chunk_count) 0
               (parse_chunk_entry bytes owned_bytes chunk_table_end) [];
    hash_valid ← dxbc_verify_hash (Some owned_bytes);
    if negb hash_valid then report_failure DXBC_DOCUMENT_HASH_MISMATCH 4 none none 0 0
    else parse_executables (set_chunks parsed chunks hash_valid) chunks
  end.

(** [dxbc_document_serialize_exact]: the bytes and, in C, their count;
    [outputs] says that both out pointers are non-NULL. *)
Definition dxbc_document_serialize_exact (outputs : bool) (document : option DXBCDocument)
    : res DXBCDocumentDiagnostic (list byte) :=
  let none := DXBC_DOCUMENT_NO_INDEX in
  if negb outputs then report_failure DXBC_DOCUMENT_INVALID_ARGUMENT 0 none none 0 0 else
  match document with
  | None => report_failure DXBC_DOCUMENT_CORRUPT_DOCUMENT 0 none none 0 0
  | Some d =>
    match doc_owned_bytes d with
    | None => report_failure DXBC_DOCUMENT_CORRUPT_DOCUMENT 0 none none 0 (doc_owned_size d)
    | Some owned_bytes =>
      if (doc_owned_size d =? 0) || negb (doc_declared_size d =? doc_owned_size d) ||
         negb (fourcc_equal (doc_magic d) "DXBC") then
        report_failure DXBC_DOCUMENT_CORRUPT_DOCUMENT 0 none none 0 (doc_owned_size d)
      else if negb (mem_alloc (doc_owned_size d)) then
        report_failure DXBC_DOCUMENT_OUT_OF_MEMORY 0 none none (doc_owned_size d) 0
      else Ret owned_bytes
    end
  end.

(** [dxbc_document_instruction_token]; [Fail tt] is [return false]. *)
Definition dxbc_document_instruction_token (instruction : DXBCDocumentInstruction)
    (token_index : Z) : res unit Z :=
  if ins_token_count instruction <=? token_index then Fail tt
  else read_u32_le (ins_raw_bytes instruction) (u64 (token_index * 4)).
End document.

(** [dxbc_document_diagnostic_code_name] *)
Definition dxbc_document_diagnostic_code_name (code : DXBCDocumentDiagnosticCode) : string :=
  match code with
  | DXBC_DOCUMENT_OK => "ok"
  | DXBC_DOCUMENT_INVALID_ARGUMENT => "invalid_argument"
  | DXBC_DOCUMENT_OUT_OF_MEMORY => "out_of_memory"
  | DXBC_DOCUMENT_NOT_DXBC => "not_dxbc"
  | DXBC_DOCUMENT_TRUNCATED_HEADER => "truncated_header"
  | DXBC_DOCUMENT_UNSUPPORTED_CONTAINER_VERSION => "unsupported_container_version"
  | DXBC_DOCUMENT_DECLARED_SIZE_INVALID => "declared_size_invalid"
  | DXBC_DOCUMENT_DECLARED_SIZE_MISMATCH => "declared_size_mismatch"
  | DXBC_DOCUMENT_CHUNK_TABLE_OVERFLOW => "chunk_table_overflow"
  | DXBC_DOCUMENT_CHUNK_OFFSET_UNALIGNED => "chunk_offset_unaligned"
  | DXBC_DOCUMENT_CHUNK_OFFSET_IN_HEADER => "chunk_offset_in_header"
  | DXBC_DOCUMENT_DUPLICATE_CHUNK_OFFSET => "duplicate_chunk_offset"
  | DXBC_DOCUMENT_TRUNCATED_CHUNK_HEADER => "truncated_chunk_header"
  | DXBC_DOCUMENT_CHUNK_RANGE_OVERFLOW => "chunk_range_overflow"
  | DXBC_DOCUMENT_TRUNCATED_CHUNK_PAYLOAD => "truncated_chunk_payload"
  | DXBC_DOCUMENT_OVERLAPPING_CHUNKS => "overlapping_chunks"
  | DXBC_DOCUMENT_HASH_MISMATCH => "hash_mismatch"
  | DXBC_DOCUMENT_EXECUTABLE_SIZE_UNALIGNED => "executable_size_unaligned"
  | DXBC_DOCUMENT_TRUNCATED_EXECUTABLE_HEADER => "truncated_executable_header"
  | DXBC_DOCUMENT_EXECUTABLE_LENGTH_MISMATCH => "executable_length_mismatch"
  | DXBC_DOCUMENT_TRUNCATED_INSTRUCTION => "truncated_instruction"
  | DXBC_DOCUMENT_INSTRUCTION_LENGTH_INVALID => "instruction_length_invalid"
  | DXBC_DOCUMENT_TRUNCATED_OPCODE_EXTENSION => "truncated_opcode_extension"
  | DXBC_DOCUMENT_UNSUPPORTED_SHADER_STAGE => "unsupported_shader_stage"
  | DXBC_DOCUMENT_CORRUPT_DOCUMENT => "corrupt_document"
  end.
