(* ===== verification/DocumentFormat.v ===== *)
(** The DXBC container format, stated on the bytes alone, and the facts about
    it that the proofs of the parser and of its clients use. *)

From S2P Require Import Prelude UnityCommon Hash Document.

(** * The container format

    What [dxbc_document_parse] accepts, stated on the bytes alone. *)

Definition word (bytes : list byte) (off : Z) : Z := le_val (slice bytes off 4).

Definition high_bit (token : Z) : bool := negb (Z.land token 0x80000000 =? 0).

Definition chunk_count_of (bytes : list byte) : Z := word bytes 28.
Definition table_end_of (bytes : list byte) : Z := 32 + 4 * chunk_count_of bytes.

Record valid_header (bytes : list byte) : Prop := {
  header_size : 32 <= size bytes;
  header_magic : slice bytes 0 4 = String.list_byte_of_string "DXBC";
  header_version : word bytes 20 = 1;
  header_declared : word bytes 24 = size bytes;
  header_table : table_end_of bytes <= size bytes;
}.

(** The [i]-th entry of the chunk table. *)
Definition chunk_at (bytes : list byte) (i : Z) : DXBCDocumentChunk :=
  let offset := word bytes (32 + 4 * i) in
  let payload_size := word bytes (offset + 4) in
  {| chunk_fourcc := slice bytes offset 4; chunk_kind := classify_chunk (slice bytes offset 4);
     chunk_table_index := i; chunk_offset := offset; chunk_payload_size := payload_size;
     chunk_raw_size := 8 + payload_size; chunk_raw_bytes := slice bytes offset (8 + payload_size);
     chunk_payload_bytes := slice bytes (offset + 8) payload_size |}.

Definition chunk_end (c : DXBCDocumentChunk) : Z := chunk_offset c + chunk_raw_size c.

Definition chunks_disjoint (c c' : DXBCDocumentChunk) : Prop :=
  chunk_end c <= chunk_offset c' \/ chunk_end c' <= chunk_offset c.

Record valid_entry (bytes : list byte) (c : DXBCDocumentChunk) : Prop := {
  entry_aligned : chunk_offset c mod 4 = 0;
  entry_after_table : table_end_of bytes <= chunk_offset c;
  entry_header : chunk_offset c + 8 <= size bytes;
  entry_payload : chunk_end c <= size bytes;
}.

Fixpoint chunks_from (bytes : list byte) (i : Z) (n : nat) : list DXBCDocumentChunk :=
  match n with O => [] | S n => chunk_at bytes i :: chunks_from bytes (i + 1) n end.

Definition chunks_of (bytes : list byte) : list DXBCDocumentChunk :=
  chunks_from bytes 0 (Z.to_nat (chunk_count_of bytes)).

(** Tokens of the program whose first word is at byte [base]. *)
Section program.
Context (bytes : list byte) (base total : Z).

Definition token (w : Z) : Z := word bytes (base + 4 * w).
Definition token_opcode (w : Z) : Z := Z.land (token w) 0x7ff.
Definition token_length (w : Z) : Z := Z.land (Z.shiftr (token w) 24) 0x7f.
Definition is_customdata (w : Z) : bool := token_opcode w =? 53.

(** The number of tokens of the instruction at [w]. *)
Definition instruction_tokens (w : Z) : Z :=
  if is_customdata w then token (w + 1) else token_length w.
Definition first_extension (w : Z) : Z := if is_customdata w then 2 else 1.

(** The chain of extension tokens from word [j] of the instruction at [w]. *)
Inductive extension_run (w : Z) : Z -> Z -> Prop :=
| extension_last j :
    j < instruction_tokens w -> high_bit (token (w + j)) = false -> extension_run w j 1
| extension_more j k :
    j < instruction_tokens w -> high_bit (token (w + j)) = true ->
    extension_run w (j + 1) k -> extension_run w j (k + 1).

Definition extensions (w k : Z) : Prop :=
  if high_bit (token w) then extension_run w (first_extension w) k else k = 0.

Record valid_instruction (w k : Z) : Prop := {
  instruction_room : w + first_extension w <= total;
  instruction_min : first_extension w <= instruction_tokens w;
  instruction_max : w + instruction_tokens w <= total;
  instruction_extensions : extensions w k;
}.

Definition instruction_at (chunk_index index w k : Z) : DXBCDocumentInstruction := {|
  ins_chunk_index := chunk_index; ins_index := index; ins_byte_offset := base + 4 * w;
  ins_byte_size := 4 * instruction_tokens w; ins_token_count := instruction_tokens w;
  ins_opcode := token_opcode w; ins_encoded_length := token_length w;
  ins_extended_opcode_token_count := k; ins_uses_customdata_length := is_customdata w;
  ins_raw_bytes := slice bytes (base + 4 * w) (4 * instruction_tokens w) |}.

(** [run ci w i l w' i']: the instructions [l], the first of them at word [w]
    with index [i], fill the words from [w] to [w'] without gap or overlap. *)
Inductive run (ci : Z) : Z -> Z -> list DXBCDocumentInstruction -> Z -> Z -> Prop :=
| run_nil w i : run ci w i [] w i
| run_cons w i k l w' i' :
    w < total -> valid_instruction w k ->
    run ci (w + instruction_tokens w) (i + 1) l w' i' ->
    run ci w i (instruction_at ci i w k :: l) w' i'.
End program.

Definition program_words (c : DXBCDocumentChunk) : Z := chunk_payload_size c / 4.

(** [l] is the instruction list of the executable chunk [c]. *)
Record program_of (bytes : list byte) (c : DXBCDocumentChunk)
    (l : list DXBCDocumentInstruction) : Prop := {
  program_aligned : chunk_payload_size c mod 4 = 0;
  program_header : 8 <= chunk_payload_size c;
  program_length : word bytes (chunk_offset c + 12) = program_words c;
  program_run : exists i', run bytes (chunk_offset c + 8) (program_words c)
                  (chunk_table_index c) 2 0 l (program_words c) i';
}.

(** The report an executable chunk of an unknown stage leaves. *)
Definition stage_of (bytes : list byte) (c : DXBCDocumentChunk) : Z :=
  Z.land (Z.shiftr (word bytes (chunk_offset c + 8)) 16) 0xffff.

Definition stage_reports (bytes : list byte) (c : DXBCDocumentChunk)
    : list DXBCDocumentDiagnostic :=
  if 5 <? stage_of bytes c then
    [mk_diagnostic DXBC_DOCUMENT_UNSUPPORTED_SHADER_STAGE (chunk_offset c + 8)
       (chunk_table_index c) DXBC_DOCUMENT_NO_INDEX 5 (stage_of bytes c)]
  else [].

Inductive programs_of (bytes : list byte) :
    list DXBCDocumentChunk -> list DXBCDocumentInstruction -> list DXBCDocumentDiagnostic -> Prop :=
| programs_nil : programs_of bytes [] [] []
| programs_other c cs l r :
    chunk_kind c <> DXBC_DOCUMENT_CHUNK_EXECUTABLE ->
    programs_of bytes cs l r -> programs_of bytes (c :: cs) l r
| programs_executable c cs l l' r :
    chunk_kind c = DXBC_DOCUMENT_CHUNK_EXECUTABLE -> program_of bytes c l ->
    programs_of bytes cs l' r ->
    programs_of bytes (c :: cs) (l ++ l') (stage_reports bytes c ++ r).

Definition valid_table (bytes : list byte) : Prop :=
  Forall (valid_entry bytes) (chunks_of bytes) /\
  ForallOrdPairs chunks_disjoint (chunks_of bytes).

Definition valid_hash (bytes : list byte) : Prop := slice bytes 4 16 = reference_hash bytes.

Record valid_container (bytes : list byte) : Prop := {
  container_header : valid_header bytes;
  container_table : valid_table bytes;
  container_hash : valid_hash bytes;
  container_programs : exists l r, programs_of bytes (chunks_of bytes) l r;
}.

(** The document [d] is the exact view of [bytes]. *)
Record represents (bytes : list byte) (d : DXBCDocument) : Prop := {
  rep_owned : doc_owned_bytes d = Some bytes;
  rep_magic : doc_magic d = slice bytes 0 4;
  rep_hash : doc_hash d = slice bytes 4 16;
  rep_version : doc_container_version d = 1;
  rep_declared : doc_declared_size d = size bytes;
  rep_chunk_count : doc_chunk_count d = chunk_count_of bytes;
  rep_hash_valid : doc_hash_valid d = true;
  rep_chunks : doc_chunks d = chunks_of bytes;
  rep_programs : programs_of bytes (chunks_of bytes) (doc_instructions d) (doc_diagnostics d);
}.

(** * Runs of instructions *)

Section runs.
Context (bytes : list byte) (base total : Z) (ci : Z).
Abbreviation run := (run bytes base total ci).

Lemma run_app w i l w' i' l' w'' i'' :
  run w i l w' i' -> run w' i' l' w'' i'' -> run w i (l ++ l') w'' i''.
Proof. induction 1; intros; [done|]. simpl. econstructor; eauto. Qed.

Lemma run_snoc w i l w' i' k :
  run w i l w' i' -> w' < total -> valid_instruction bytes base total w' k ->
  run w i (l ++ [instruction_at bytes base ci i' w' k])
      (w' + instruction_tokens bytes base w') (i' + 1).
Proof. intros Hr Hw Hv. eapply run_app; [done|].
  eapply run_cons; [done..|]. apply run_nil. Qed.

Lemma extension_run_fun w j k k' :
  extension_run bytes base w j k -> extension_run bytes base w j k' -> k = k'.
Proof.
  intros H. revert k'. induction H; intros k' H'; inversion H'; subst; try congruence.
  f_equal; auto.
Qed.

Lemma extensions_fun w k k' :
  extensions bytes base w k -> extensions bytes base w k' -> k = k'.
Proof. unfold extensions. case_match; [apply extension_run_fun|congruence]. Qed.

(** Every complete run passes through every state a partial run reaches. *)
Lemma run_through w i l w' i' L ie :
  run w i l w' i' -> run w i L total ie -> exists L', L = l ++ L' /\ run w' i' L' total ie.
Proof.
  intros H. revert L. induction H as [|w i k l w' i' Hw Hv H IH]; intros L HL.
  { exists L. done. }
  inversion HL as [|? ? k' L0 ? ? Hw' Hv' H']; subst; [lia|].
  destruct (IH _ H') as (L' & -> & HL'). exists L'.
  by rewrite (extensions_fun w k' k (instruction_extensions _ _ _ _ _ Hv')
                (instruction_extensions _ _ _ _ _ Hv)).
Qed.

Lemma run_tokens w i l w' i' :
  run w i l w' i' -> 0 <= w -> Z.of_nat (length l) <= w' - w /\ i' = i + Z.of_nat (length l).
Proof.
  induction 1 as [|w i k l w' i' Hw Hv H IH]; intros Hw0; [simpl; lia|].
  pose proof (instruction_min _ _ _ _ _ Hv) as Hmin. unfold first_extension in Hmin.
  destruct IH; [case_match; lia|]. simpl length. case_match; lia.
Qed.
End runs.

(** * Disjoint ranges fit in their container *)

Definition total_size (cs : list DXBCDocumentChunk) : Z := foldr Z.add 0 (chunk_raw_size <$> cs).

Definition positions (c : DXBCDocumentChunk) : list Z := seqZ (chunk_offset c) (chunk_raw_size c).

Lemma elem_of_positions_concat z cs :
  z ∈ cs ≫= positions <-> exists c, c ∈ cs /\ chunk_offset c <= z < chunk_end c.
Proof.
  rewrite list_elem_of_bind. unfold positions, chunk_end. split; [intros (c & Hz%elem_of_seqZ & Hc)|intros (c & Hc & Hz)]; exists c; rewrite ?elem_of_seqZ; auto.
Qed.

Lemma positions_NoDup cs : ForallOrdPairs chunks_disjoint cs -> NoDup (cs ≫= positions).
Proof.
  induction 1 as [|c cs Hc Hcs IH]; [constructor|]. cbn [mbind list_bind].
  apply list.NoDup_app. split; [apply NoDup_seqZ|]. split; [|done].
  intros z Hz%elem_of_seqZ (c' & Hc' & Hz')%elem_of_positions_concat.
  rewrite list.Forall_forall in Hc. destruct (Hc c' Hc'); unfold chunk_end in *; lia.
Qed.

Lemma length_positions cs :
  Forall (fun c => 0 <= chunk_raw_size c) cs ->
  Z.of_nat (length (cs ≫= positions)) = total_size cs.
Proof.
  induction 1 as [|c cs Hc Hcs IH]; [done|]. cbn [mbind list_bind].
  unfold total_size in *. cbn [fmap list_fmap foldr].
  rewrite length_app. unfold positions at 1. rewrite length_seqZ. cbn [mbind] in IH. lia.
Qed.

(** Pairwise disjoint ranges inside [n] bytes have a total size of at most [n]. *)
Lemma disjoint_total cs n :
  0 <= n -> ForallOrdPairs chunks_disjoint cs ->
  Forall (fun c => 0 <= chunk_offset c /\ 0 <= chunk_raw_size c /\ chunk_end c <= n) cs ->
  total_size cs <= n.
Proof.
  intros Hn Hdis Hin. rewrite <- length_positions.
  2:{ eapply list.Forall_impl; [exact Hin|]. intros c (?&?&?). done. }
  assert (Hsub : (cs ≫= positions) ⊆+ seqZ 0 n).
  { apply NoDup_submseteq; [by apply positions_NoDup|].
    intros z (c & Hc & Hz)%elem_of_positions_concat. apply elem_of_seqZ.
    rewrite list.Forall_forall in Hin. destruct (Hin c Hc) as (?&?&?). lia. }
  apply submseteq_length in Hsub. rewrite length_seqZ in Hsub. lia.
Qed.

(** * Consequences of the format *)

Lemma chunks_from_lookup bytes s n i :
  (i < n)%nat -> chunks_from bytes s n !! i = Some (chunk_at bytes (s + Z.of_nat i)).
Proof.
  revert s i. induction n as [|n IH]; intros s i Hi; [lia|]. cbn [chunks_from].
  destruct i as [|i]; [by rewrite Z.add_0_r|]. trans (chunks_from bytes (s + 1) n !! i); [done|].
  rewrite (IH (s + 1) i) by lia. do 2 f_equal. lia.
Qed.

Lemma length_chunks_from bytes s n : length (chunks_from bytes s n) = n.
Proof. revert s. induction n; intros s; cbn [chunks_from length]; auto. Qed.

Lemma chunks_of_lookup bytes i c :
  chunks_of bytes !! i = Some c ->
  c = chunk_at bytes (Z.of_nat i) /\ Z.of_nat i < chunk_count_of bytes.
Proof.
  intros Hc. pose proof (lookup_lt_Some _ _ _ Hc) as Hlt. unfold chunks_of in *.
  rewrite length_chunks_from in Hlt. rewrite chunks_from_lookup, Z.add_0_l in Hc by done.
  simplify_eq. split; [done|lia].
Qed.

Lemma ordpairs_lookup {A} (R : A -> A -> Prop) l i j x y :
  ForallOrdPairs R l -> l !! i = Some x -> l !! j = Some y -> (i < j)%nat -> R x y.
Proof.
  intros H. revert i j. induction H as [|z l Hz Hl IH]; intros i j Hi Hj Hij; [done|].
  destruct i as [|i], j as [|j]; [lia| |lia|]; cbn in Hi, Hj.
  - simplify_eq. rewrite list.Forall_forall in Hz. apply Hz. by eapply list_elem_of_lookup_2.
  - apply (IH i j); [done..|lia].
Qed.

Section table.
Context (bytes : list byte) (Hheader : valid_header bytes) (Htable : valid_table bytes).

Lemma table_chunk i c :
  chunks_of bytes !! i = Some c ->
  c = chunk_at bytes (Z.of_nat i) /\ 0 <= chunk_offset c /\ 0 <= chunk_payload_size c /\
  valid_entry bytes c.
Proof.
  intros Hc. destruct (chunks_of_lookup _ _ _ Hc) as [-> Hlt]. split; [done|].
  destruct Htable as [Hv _]. rewrite list.Forall_forall in Hv.
  assert (He : valid_entry bytes (chunk_at bytes (Z.of_nat i)))
    by (apply Hv; by eapply list_elem_of_lookup_2).
  pose proof (header_table _ Hheader) as Ht. unfold table_end_of in Ht.
  assert (Hr : in_u32 (word bytes (32 + 4 * Z.of_nat i))) by (apply le32_range; lia).
  unfold in_u32 in Hr.
  pose proof (entry_header _ _ He) as Hh. cbn in Hh.
  assert (Hp : in_u32 (word bytes (word bytes (32 + 4 * Z.of_nat i) + 4))) by (apply le32_range; lia).
  unfold in_u32 in Hp. cbn. split; [lia|]. split; [lia|]. done.
Qed.

Lemma table_disjoint i j c c' :
  chunks_of bytes !! i = Some c -> chunks_of bytes !! j = Some c' -> i <> j ->
  chunks_disjoint c c'.
Proof.
  intros Hi Hj Hne. destruct Htable as [_ Hd].
  destruct (Nat.lt_total i j) as [?|[?|?]]; [|done|].
  - by eapply (ordpairs_lookup chunks_disjoint).
  - assert (Hs : chunks_disjoint c' c) by (by eapply (ordpairs_lookup chunks_disjoint)).
    destruct Hs; [by right|by left].
Qed.

Lemma le_bytes_word o :
  0 <= o -> o + 4 <= size bytes -> le_bytes 4 (word bytes o) = slice bytes o 4.
Proof.
  intros. unfold word. rewrite <- (le_bytes_val (slice bytes o 4)) at 2.
  by rewrite length_slice by lia.
Qed.

(** The raw bytes of a chunk are its header and its payload. *)
Lemma chunk_raw_split i c :
  chunks_of bytes !! i = Some c ->
  chunk_raw_bytes c = chunk_fourcc c ++ le_bytes 4 (chunk_payload_size c) ++ chunk_payload_bytes c.
Proof.
  intros Hc. destruct (table_chunk i c Hc) as (-> & Ho & Hp & [_ _ Hh _]).
  cbn [chunk_raw_bytes chunk_fourcc chunk_payload_size chunk_payload_bytes chunk_at
       chunk_offset] in *.
  rewrite le_bytes_word, !slice_split by lia. rewrite (slice_split _ _ 4 4) by lia.
  by rewrite <- app_assoc.
Qed.
End table.

Section run_facts.
Context (bytes : list byte) (base total ci : Z).
Hypothesis (Hbase : 0 <= base).
Abbreviation run := (run bytes base total ci).

Lemma instruction_tokens_pos w k : valid_instruction bytes base total w k ->
  1 <= instruction_tokens bytes base w /\ w + instruction_tokens bytes base w <= total.
Proof.
  intros []. unfold first_extension in *. case_match; lia.
Qed.

(** The bytes of the instructions of a run are the bytes between its ends. *)
Lemma run_bytes w i l w' i' :
  run w i l w' i' -> 0 <= w -> w <= w' /\
  (l ≫= ins_raw_bytes) = slice bytes (base + 4 * w) (4 * (w' - w)).
Proof.
  induction 1 as [w i|w i k l w' i' Hw Hv H IH]; intros Hw0.
  { split; [lia|]. rewrite Z.sub_diag. done. }
  destruct (instruction_tokens_pos w k Hv) as [Hn _].
  destruct IH as [Hle IH]; [lia|]. split; [lia|].
  cbn [mbind list_bind]. cbn [mbind] in IH. rewrite IH. cbn [ins_raw_bytes instruction_at].
  replace (base + 4 * (w + instruction_tokens bytes base w))
    with (base + 4 * w + 4 * instruction_tokens bytes base w) by lia.
  rewrite <- slice_split by lia. f_equal. lia.
Qed.

Lemma run_instruction w i l w' i' :
  run w i l w' i' -> 0 <= w ->
  Forall (fun ins => exists v k j, w <= v /\ valid_instruction bytes base total v k /\
            ins = instruction_at bytes base ci j v k) l.
Proof.
  induction 1 as [w i|w i k l w' i' Hw Hv H IH]; intros Hw0; [constructor|].
  destruct (instruction_tokens_pos w k Hv) as [Hn _].
  constructor; [by exists w, k, i|].
  eapply list.Forall_impl; [apply IH; lia|]. intros ins (v & k' & j & Hle & Hv' & ->).
  exists v, k', j. split; [lia|done].
Qed.
End run_facts.

(** The instructions of the program of chunk [c] fill its payload after the
    version and length words. *)
Lemma program_bytes bytes c l :
  0 <= chunk_offset c ->
  chunk_payload_bytes c = slice bytes (chunk_offset c + 8) (chunk_payload_size c) ->
  program_of bytes c l -> (l ≫= ins_raw_bytes) = drop 8 (chunk_payload_bytes c).
Proof.
  intros Ho Hp [Hal Hmin _ [i' Hrun]]. rewrite Hp.
  apply run_bytes in Hrun as [Hle ->]; [|lia..].
  unfold program_words in *. unfold slice. rewrite skipn_firstn_comm, drop_drop.
  f_equal; [|f_equal]; Z.div_mod_to_equations; lia.
Qed.

(** Instructions of a program carry the table index of its chunk. *)
Lemma program_index bytes c l :
  0 <= chunk_offset c -> program_of bytes c l ->
  Forall (fun ins => ins_chunk_index ins = chunk_table_index c) l.
Proof.
  intros Ho [_ _ _ [i' Hrun]].
  apply run_instruction in Hrun; [|lia].
  eapply list.Forall_impl; [exact Hrun|].
  by intros ins (v & k & j & _ & _ & ->).
Qed.

Section programs_facts.
Context (bytes : list byte).

Lemma programs_owner cs l r :
  programs_of bytes cs l r -> Forall (fun c => 0 <= chunk_offset c) cs ->
  Forall (fun ins => exists c l', c ∈ cs /\ chunk_kind c = DXBC_DOCUMENT_CHUNK_EXECUTABLE /\
            program_of bytes c l' /\ ins ∈ l' /\ ins_chunk_index ins = chunk_table_index c) l.
Proof.
  induction 1 as [|c cs l r Hk H IH|c cs l l' r Hk Hp H IH]; intros Hoff; [constructor| |].
  all: inversion Hoff as [|? ? Ho Hoff']; subst.
  - eapply list.Forall_impl; [by apply IH|].
    intros ins (c' & l' & ? & ?). exists c', l'. split; [by right|done].
  - apply Forall_app. split.
    + pose proof (program_index _ _ _ Ho Hp) as Hi.
      rewrite list.Forall_forall in Hi. apply list.Forall_forall. intros ins Hins.
      exists c, l. split; [by left|]. eauto.
    + eapply list.Forall_impl; [by apply IH|].
      intros ins (c' & l0 & ? & ?). exists c', l0. split; [by right|done].
Qed.

(** Every executable chunk holds a program. *)
Lemma programs_program cs l r c :
  programs_of bytes cs l r -> c ∈ cs -> chunk_kind c = DXBC_DOCUMENT_CHUNK_EXECUTABLE ->
  exists l', program_of bytes c l'.
Proof.
  induction 1 as [|c0 cs l r Hk H IH|c0 cs l l' r Hk Hp H IH]; intros Hc Hex; [inversion Hc| |].
  all: apply elem_of_cons in Hc as [->|Hc]; try by apply IH.
  all: try done; eauto.
Qed.

Lemma filter_index_all i (l : list DXBCDocumentInstruction) :
  Forall (fun ins => ins_chunk_index ins = i) l ->
  filter (fun ins => ins_chunk_index ins = i) l = l.
Proof.
  induction 1 as [|ins l Hi Hl IH]; [done|]. by rewrite filter_cons_True, IH.
Qed.

Lemma filter_index_none i (l : list DXBCDocumentInstruction) :
  Forall (fun ins => ins_chunk_index ins <> i) l ->
  filter (fun ins => ins_chunk_index ins = i) l = [].
Proof.
  induction 1 as [|ins l Hi Hl IH]; [done|]. by rewrite filter_cons_False.
Qed.

Lemma programs_filter cs l r c :
  programs_of bytes cs l r -> Forall (fun c => 0 <= chunk_offset c) cs ->
  NoDup (chunk_table_index <$> cs) -> c ∈ cs ->
  chunk_kind c = DXBC_DOCUMENT_CHUNK_EXECUTABLE ->
  program_of bytes c (filter (fun ins => ins_chunk_index ins = chunk_table_index c) l).
Proof.
  induction 1 as [|c0 cs l r Hk H IH|c0 cs l l' r Hk Hp H IH];
    intros Hoff Hnd Hc Hex; [inversion Hc| |].
  all: inversion Hoff as [|? ? Ho Hoff']; subst; cbn in Hnd.
  all: inversion Hnd as [|? ? Hnin Hnd']; subst.
  all: apply elem_of_cons in Hc as [->|Hc]; [|].
  - done.
  - by apply IH.
  - rewrite list.filter_app, filter_index_all by (by eapply program_index).
    rewrite filter_index_none, app_nil_r; [done|].
    eapply list.Forall_impl; [by eapply programs_owner|].
    intros ins (c & l0 & Hc & _ & _ & _ & ->) Heq. apply Hnin. rewrite <- Heq.
    by apply list_elem_of_fmap_2.
  - rewrite list.filter_app, filter_index_none; [by apply IH|].
    eapply list.Forall_impl; [by eapply program_index|].
    intros ins -> Heq. apply Hnin. rewrite Heq. by apply list_elem_of_fmap_2.
Qed.

Lemma chunks_of_indices : NoDup (chunk_table_index <$> chunks_of bytes).
Proof.
  apply NoDup_alt. intros i j x. rewrite !list_lookup_fmap, !fmap_Some.
  intros (c & Hc & ->) (c' & Hc' & Heq).
  apply chunks_of_lookup in Hc as [-> _], Hc' as [-> _]. cbn in Heq. lia.
Qed.
End programs_facts.

Section represents_facts.
Context (bytes : list byte) (d : DXBCDocument).
Hypothesis (Hrep : represents bytes d) (Hvalid : valid_container bytes).

Lemma rep_chunk_offsets : Forall (fun c => 0 <= chunk_offset c) (chunks_of bytes).
Proof.
  apply list.Forall_forall. intros c [i Hc]%list_elem_of_lookup_1.
  by destruct (table_chunk _ (container_header _ Hvalid) (container_table _ Hvalid) _ _ Hc)
    as (_ & ? & _).
Qed.

(** Every instruction of the document lies inside the container. *)
Lemma rep_instruction ins :
  ins ∈ doc_instructions d ->
  0 <= ins_byte_offset ins /\ 1 <= ins_token_count ins /\
  ins_byte_offset ins + 4 * ins_token_count ins <= size bytes /\
  ins_raw_bytes ins = slice bytes (ins_byte_offset ins) (4 * ins_token_count ins).
Proof.
  intros Hins. pose proof (programs_owner _ _ _ _ (rep_programs _ _ Hrep) rep_chunk_offsets) as Ho.
  rewrite list.Forall_forall in Ho. destruct (Ho ins Hins) as (c & l & Hc & _ & Hp & Hl & _).
  apply list_elem_of_lookup_1 in Hc as [i Hc].
  destruct (table_chunk _ (container_header _ Hvalid) (container_table _ Hvalid) _ _ Hc)
    as (Heq & Hoff & Hpay & [_ _ _ Hend]).
  destruct Hp as [_ _ _ [i' Hrun]]. apply run_instruction in Hrun; [|lia].
  rewrite list.Forall_forall in Hrun. destruct (Hrun ins Hl) as (v & k & j & Hv & Hk & ->).
  destruct (instruction_tokens_pos _ _ _ _ _ Hk) as [Hn Hm].
  cbn [ins_byte_offset ins_token_count ins_raw_bytes instruction_at].
  assert (Hraw : chunk_end c = chunk_offset c + (8 + chunk_payload_size c)) by (by rewrite Heq).
  unfold program_words in *. split; [lia|]. split; [lia|]. split; [|done].
  Z.div_mod_to_equations; lia.
Qed.
End represents_facts.
