(* ===== verification/RecordTable.v ===== *)
(** The USBD record table as a format: records, tables, and the walk of a
    reader over the records, shared by the two readers of the code. *)

From S2P Require Import Prelude DocumentFormat.

(** A USBD record, a name and a payload, as bytes. *)
Definition record_bytes (r : list byte * list byte) : list byte :=
  le_bytes 4 (size r.1) ++ r.1 ++ le_bytes 4 (size r.2) ++ r.2.

Definition table_bytes (records : list (list byte * list byte)) : list byte :=
  String.list_byte_of_string "USBD" ++ le_bytes 4 (Z.of_nat (length records)) ++
  (records ≫= record_bytes).

(** A record whose sizes fit their fields. *)
Definition small_record (r : list byte * list byte) : Prop := in_u32 (size r.1) /\ in_u32 (size r.2).

Definition record_size (r : list byte * list byte) : Z := 8 + size r.1 + size r.2.

Section walk.
Context (P : list byte * list byte -> Prop) (bs : list byte).

(** A record [r] with property [P] lies at [off]; the next one is at [off']. *)
Record entry (off : Z) (r : list byte * list byte) (off' : Z) : Prop := {
  entry_next : off' = off + record_size r;
  entry_inside : off' <= size bs;
  entry_bytes : slice bs off (record_size r) = record_bytes r;
  entry_small : small_record r;
  entry_ok : P r;
}.

Inductive walk : Z -> list (list byte * list byte) -> Z -> Prop :=
| walk_nil off : walk off [] off
| walk_cons off r off1 rs off' : entry off r off1 -> walk off1 rs off' -> walk off (r :: rs) off'.
End walk.

Lemma le_word_u32 z : in_u32 z -> le_val (le_bytes 4 z) = z.
Proof. intros Hz. rewrite le_val_bytes. by apply Z.mod_small. Qed.

Lemma size_le_bytes n z : size (le_bytes n z) = Z.of_nat n.
Proof. unfold size. by rewrite length_le_bytes. Qed.

Lemma size_record_bytes r : size (record_bytes r) = record_size r.
Proof.
  unfold record_bytes, record_size. rewrite !size_app, !size_le_bytes. lia.
Qed.

Lemma record_size_pos r : 8 <= record_size r.
Proof. unfold record_size. pose proof (size_nonneg r.1). pose proof (size_nonneg r.2). lia. Qed.

(** The word at [off], as the bytes that encode it. *)
Lemma word_bytes bs off :
  0 <= off -> off + 4 <= size bs -> slice bs off 4 = le_bytes 4 (word bs off).
Proof.
  intros. unfold word. pose proof (length_slice bs off 4) as Hl.
  rewrite <- (le_bytes_val (slice bs off 4)) at 1. by rewrite Hl by lia.
Qed.

Lemma word_range bs off : 0 <= off -> off + 4 <= size bs -> in_u32 (word bs off).
Proof. apply le32_range. Qed.

(** Reading the fields of a record yields an entry, and conversely. *)
Lemma entry_intro (P : list byte * list byte -> Prop) bs off :
  0 <= off -> off + 4 <= size bs ->
  let n := word bs off in off + 4 + n + 4 <= size bs ->
  let m := word bs (off + 4 + n) in off + 8 + n + m <= size bs ->
  P (slice bs (off + 4) n, slice bs (off + 8 + n) m) ->
  entry P bs off (slice bs (off + 4) n, slice bs (off + 8 + n) m) (off + 8 + n + m).
Proof.
  intros Ho H4 n Hn m Hm HP.
  assert (Hn0 : in_u32 n) by (by apply word_range).
  assert (Hm0 : in_u32 m) by (apply word_range; unfold in_u32 in *; lia).
  unfold in_u32 in Hn0, Hm0.
  assert (Hs1 : size (slice bs (off + 4) n) = n) by (apply size_slice; lia).
  assert (Hs2 : size (slice bs (off + 8 + n) m) = m) by (apply size_slice; lia).
  split; unfold record_size; cbn [fst snd]; rewrite ?Hs1, ?Hs2; [lia|lia| |by split; cbn; rewrite ?Hs1, ?Hs2|done].
  unfold record_bytes; cbn [fst snd]. rewrite Hs1, Hs2. unfold n at 2.
  rewrite <- word_bytes by lia. unfold m at 2. rewrite <- word_bytes by lia.
  replace (8 + n + m) with (4 + (n + (4 + m))) by lia.
  rewrite !slice_split by lia. do 3 f_equal; f_equal; lia.
Qed.

Lemma entry_elim (P : list byte * list byte -> Prop) bs off r off' :
  0 <= off -> entry P bs off r off' ->
  word bs off = size r.1 /\ slice bs (off + 4) (size r.1) = r.1 /\
  word bs (off + 4 + size r.1) = size r.2 /\ slice bs (off + 8 + size r.1) (size r.2) = r.2.
Proof.
  intros Ho [-> Hin Hb [Hs1 Hs2] _]. unfold record_size in *.
  pose proof (size_nonneg r.1). pose proof (size_nonneg r.2).
  assert (Hsub : forall k len, 0 <= k -> 0 <= len -> k + len <= 8 + size r.1 + size r.2 ->
    slice bs (off + k) len = slice (record_bytes r) k len).
  { intros. rewrite <- Hb. by rewrite slice_slice by lia. }
  unfold word. rewrite <- (Z.add_0_r off) at 1.
  rewrite <- !Z.add_assoc. rewrite !Hsub by lia. unfold record_bytes.
  pose proof (size_le_bytes 4 (size r.1)) as E1. pose proof (size_le_bytes 4 (size r.2)) as E2.
  change (Z.of_nat 4) with 4 in *.
  split; [|split; [|split]].
  - rewrite slice_app_l by lia. rewrite <- E1 at 1. rewrite slice_0. by apply le_word_u32.
  - rewrite slice_app_r, slice_app_l by lia. rewrite E1, Z.sub_diag. apply slice_0.
  - rewrite 2!slice_app_r, slice_app_l by lia.
    replace (_ - _ - _) with 0 by lia. rewrite <- E2 at 1. rewrite slice_0. by apply le_word_u32.
  - rewrite 3!slice_app_r by lia. replace (_ - _ - _ - _) with 0 by lia. apply slice_0.
Qed.

(** No record lies at [off] when no record fits what is read there. *)
Lemma no_entry (P : list byte * list byte -> Prop) bs off :
  0 <= off ->
  (forall r, word bs off = size r.1 -> slice bs (off + 4) (size r.1) = r.1 ->
     word bs (off + 4 + size r.1) = size r.2 -> slice bs (off + 8 + size r.1) (size r.2) = r.2 ->
     P r -> 0 <= size r.1 -> 0 <= size r.2 -> off + (8 + size r.1 + size r.2) <= size bs -> False) ->
  forall r off', ~ entry P bs off r off'.
Proof.
  intros Ho Hno r off' He. destruct (entry_elim P bs off r off' Ho He) as (A & B & C & D).
  destruct He as [-> He _ _ Hok]. apply (Hno r); try done; try apply size_nonneg.
Qed.

Section walks.
Context (P : list byte * list byte -> Prop) (bs : list byte).
Abbreviation entry := (entry P bs).
Abbreviation walk := (walk P bs).

Lemma entry_fun off r1 off1 r2 off2 :
  0 <= off -> entry off r1 off1 -> entry off r2 off2 -> r1 = r2 /\ off1 = off2.
Proof.
  intros Ho H1 H2.
  destruct (entry_elim _ _ _ _ _ Ho H1) as (A1 & B1 & C1 & D1).
  destruct (entry_elim _ _ _ _ _ Ho H2) as (A2 & B2 & C2 & D2).
  assert (Hf : r1.1 = r2.1) by (by rewrite <- B1, <- B2, <- A1, <- A2).
  assert (Hs : r1.2 = r2.2) by (by rewrite <- D1, <- D2, <- C1, <- C2, Hf).
  assert (r1 = r2) as -> by (destruct r1, r2; cbn in *; congruence).
  split; [done|]. by rewrite (entry_next _ _ _ _ _ H1), (entry_next _ _ _ _ _ H2).
Qed.

Lemma entry_le off r off' : entry off r off' -> off + 8 <= off' <= size bs.
Proof. intros [-> ? _ _ _]. pose proof (record_size_pos r). lia. Qed.

Lemma walk_le off rs off' : walk off rs off' -> off + 8 * Z.of_nat (length rs) <= off'.
Proof.
  induction 1 as [|off r off1 rs off' He _ IH]; [simpl; lia|].
  apply entry_le in He. cbn [length]. lia.
Qed.

Lemma walk_snoc off rs off1 r off' :
  walk off rs off1 -> entry off1 r off' -> walk off (rs ++ [r]) off'.
Proof.
  induction 1 as [|off r0 off0 rs off1 He _ IH]; intros Hr; simpl.
  - econstructor; [done|constructor].
  - econstructor; [done|auto].
Qed.

(** Any longer walk goes through the end of a shorter one. *)
Lemma walk_extend off rs off1 rs' off2 :
  0 <= off -> walk off rs off1 -> walk off rs' off2 -> (length rs < length rs')%nat ->
  exists r off3, entry off1 r off3.
Proof.
  intros Ho H. revert rs'. induction H as [off|off r off0 rs off1 He Hw IH]; intros rs' H' Hl.
  - inversion H'; subst; [simpl in Hl; lia|]. eauto.
  - inversion H' as [|? r' off0' rs1 ? He' Hw']; subst; [simpl in Hl; lia|].
    destruct (entry_fun off r off0 r' off0') as [-> <-]; [done..|].
    apply entry_le in He. apply (IH ltac:(lia) rs1); [done|]. simpl in Hl. lia.
Qed.

Lemma walk_fun off rs off1 rs' off2 :
  0 <= off -> walk off rs off1 -> walk off rs' off2 -> length rs = length rs' ->
  rs = rs' /\ off1 = off2.
Proof.
  intros Ho H. revert rs'. induction H as [off|off r off0 rs off1 He Hw IH]; intros rs' H' Hl.
  - inversion H'; subst; done.
  - inversion H' as [|? r' off0' rs1 ? He' Hw']; subst; [done|].
    destruct (entry_fun off r off0 r' off0') as [-> <-]; [done..|].
    apply entry_le in He. destruct (IH ltac:(lia) rs1 Hw') as [-> ->]; [simpl in Hl; lia|done].
Qed.

(** The walk reaches each of its records. *)
Lemma walk_lookup off rs off' j r :
  walk off rs off' -> rs !! j = Some r ->
  exists off1 off2, walk off (take j rs) off1 /\ entry off1 r off2.
Proof.
  intros H. revert j. induction H as [off|off r0 off1 rs off' He Hw IH]; intros j Hj; [done|].
  destruct j as [|j].
  - injection Hj as ->. exists off, off1. split; [constructor|done].
  - destruct (IH j Hj) as (o1 & o2 & Hw' & He'). exists o1, o2. split; [|done]. by econstructor.
Qed.

Lemma walk_forall off rs off' : walk off rs off' -> Forall P rs /\ Forall small_record rs.
Proof. induction 1 as [|????? [] _ []]; split; by constructor. Qed.

Lemma walk_bytes off rs off' :
  0 <= off -> walk off rs off' -> slice bs off (off' - off) = rs ≫= record_bytes.
Proof.
  intros Ho H. induction H as [off|off r off1 rs off' He Hw IH].
  { by rewrite Z.sub_diag. }
  pose proof (entry_le _ _ _ He) as Hle. pose proof (walk_le _ _ _ Hw).
  cbn [mbind list_bind]. rewrite <- IH by lia. rewrite <- (entry_bytes _ _ _ _ _ He).
  pose proof (entry_next _ _ _ _ _ He).
  replace (off' - off) with (record_size r + (off' - off1)) by lia.
  rewrite slice_split by lia. do 2 f_equal. lia.
Qed.

Lemma bytes_walk off rs off' :
  0 <= off <= off' -> off' <= size bs -> slice bs off (off' - off) = rs ≫= record_bytes ->
  Forall P rs -> Forall small_record rs -> walk off rs off'.
Proof.
  intros Ho Hs Hb HP Hsm. revert off Ho Hb. induction rs as [|r rs IH]; intros off Ho Hb.
  - assert (Hz : size (slice bs off (off' - off)) = 0) by (by rewrite Hb).
    rewrite size_slice in Hz by lia. replace off' with off by lia. constructor.
  - cbn [mbind list_bind] in Hb. inversion_clear HP. inversion_clear Hsm.
    assert (Hsz : off' - off = record_size r + size (rs ≫= record_bytes)).
    { rewrite <- (size_slice bs off (off' - off)) by lia. rewrite Hb, size_app.
      by rewrite size_record_bytes. }
    pose proof (record_size_pos r) as Hpos. pose proof (size_nonneg (rs ≫= record_bytes)).
    rewrite Hsz, slice_split in Hb by lia.
    apply app_inj_1 in Hb as [Hr Hrest].
    2:{ pose proof (size_record_bytes r) as E. unfold size in E. rewrite length_slice by lia. lia. }
    econstructor; [split; eauto; lia|]. apply IH; [done..|lia|].
    rewrite <- Hrest. f_equal. lia.
Qed.
End walks.

Lemma size_usbd : size (String.list_byte_of_string "USBD") = 4.
Proof. done. Qed.

(** A table is the magic, the count and a walk to the end. *)
Lemma table_walk P bs rs :
  8 <= size bs -> in_u32 (Z.of_nat (length rs)) ->
  bs = table_bytes rs /\ Forall P rs /\ Forall small_record rs <->
  slice bs 0 4 = String.list_byte_of_string "USBD" /\ word bs 4 = Z.of_nat (length rs) /\
  walk P bs 8 rs (size bs).
Proof.
  intros H8 Hc. split.
  - intros (Hbs & HP & Hsm).
    assert (Hsz : size bs = 8 + size (rs ≫= record_bytes)).
    { rewrite Hbs. unfold table_bytes. rewrite !size_app, size_le_bytes. rewrite size_usbd. lia. }
    assert (Hmid : slice bs 4 4 = le_bytes 4 (Z.of_nat (length rs))).
    { rewrite Hbs. unfold table_bytes. rewrite slice_app_r by (rewrite size_usbd; lia).
      rewrite size_usbd, Z.sub_diag.
      rewrite slice_app_l by (rewrite ?size_le_bytes; lia).
      apply (slice_0 (le_bytes 4 _)). }
    split; [|split].
    + rewrite Hbs. unfold table_bytes. by rewrite slice_app_l by (rewrite ?size_usbd; lia).
    + unfold word. rewrite Hmid. by apply le_word_u32.
    + apply bytes_walk; [lia|lia| |done..].
      pose proof (size_nonneg (rs ≫= record_bytes)). rewrite Hsz. rewrite Hbs at 1.
      unfold table_bytes. rewrite app_assoc, slice_app_r, size_app, size_le_bytes, size_usbd.
      2:{ rewrite size_app, size_le_bytes, size_usbd. lia. }
      replace (8 - _) with 0 by lia. replace (_ - 8) with (size (rs ≫= record_bytes)) by lia.
      apply slice_0.
  - intros (Hm & Hw & Hwalk). split; [|by eapply walk_forall].
    apply walk_bytes in Hwalk; [|lia]. unfold table_bytes. rewrite <- Hwalk, <- Hm, <- Hw.
    rewrite <- word_bytes by lia. change 8 with (4 + 4) at 1.
    rewrite <- (slice_split bs 4 4 (size bs - 8)) by lia.
    rewrite <- (slice_split bs 0 4) by lia.
    replace (4 + (4 + (size bs - 8))) with (size bs) by lia. by rewrite slice_0.
Qed.

(** [bs] is the table of [rs], all of whose records have the property [P]. *)
Record is_table (P : list byte * list byte -> Prop) (bs : list byte)
    (rs : list (list byte * list byte)) : Prop := {
  table_is : bs = table_bytes rs;
  table_nonempty : rs <> [];
  table_count : in_u32 (Z.of_nat (length rs));
  table_records : Forall P rs;
  table_small : Forall small_record rs;
}.

Lemma size_table_bytes rs : 8 <= size (table_bytes rs).
Proof.
  unfold table_bytes. rewrite !size_app, size_le_bytes, size_usbd.
  pose proof (size_nonneg (rs ≫= record_bytes)). lia.
Qed.

Lemma is_table_walk P bs rs :
  is_table P bs rs <->
  8 <= size bs /\ slice bs 0 4 = String.list_byte_of_string "USBD" /\
  rs <> [] /\ word bs 4 = Z.of_nat (length rs) /\ walk P bs 8 rs (size bs).
Proof.
  split.
  - intros [Hbs Hne Hc HP Hs].
    assert (8 <= size bs) by (rewrite Hbs; apply size_table_bytes).
    destruct (proj1 (table_walk P bs rs ltac:(done) Hc)) as (? & ? & ?); auto.
  - intros (H8 & Hm & Hne & Hw & Hwalk).
    assert (Hc : in_u32 (Z.of_nat (length rs))) by (rewrite <- Hw; apply word_range; lia).
    destruct (proj2 (table_walk P bs rs H8 Hc)) as (? & ? & ?); [done|]. by split.
Qed.

Lemma walk_room P bs k off rs off' :
  (forall r, P r -> k <= record_size r) -> walk P bs off rs off' ->
  off + k * Z.of_nat (length rs) <= off'.
Proof.
  intros Hk. induction 1 as [|off r off1 rs off' He _ IH]; [simpl; lia|].
  destruct He as [-> _ _ _ Hok]. specialize (Hk r Hok). cbn [length]. lia.
Qed.

(** A loop that reads one record per iteration, at the position [pos] of its
    state, walks over the table, or stops where no record lies, or stops for
    another reason [F]; [G] holds of its report. *)
Lemma walk_loop {E S} (P : list byte * list byte -> Prop) bs (pos : S -> Z)
    (I : list (list byte * list byte) -> S -> Prop) (F : Prop) (G : E -> Prop)
    (body : Z -> S -> res E S) n s :
  pos s = 8 -> 8 <= size bs -> I [] s ->
  (forall rs st, walk P bs 8 rs (pos st) -> 8 <= pos st <= size bs -> I rs st ->
    outcome (body (Z.of_nat (length rs)) st)
      (fun st' => exists r, entry P bs (pos st) r (pos st') /\ I (rs ++ [r]) st')
      (fun e => G e /\ ((forall r off', ~ entry P bs (pos st) r off') \/ F))) ->
  outcome (for_loop n 0 body s)
    (fun st => exists rs, length rs = n /\ walk P bs 8 rs (pos st) /\
                 8 <= pos st <= size bs /\ I rs st)
    (fun e => G e /\ ((forall rs off', length rs = n -> ~ walk P bs 8 rs off') \/ F)).
Proof.
  intros Hs H8 HI Hbody.
  eapply outcome_mono; [apply (outcome_for (fun j st => exists rs, j = Z.of_nat (length rs) /\
    walk P bs 8 rs (pos st) /\ 8 <= pos st <= size bs /\ I rs st))| |intros e He; exact He].
  - exists []. rewrite Hs. split; [done|]. split; [constructor|]. split; [lia|done].
  - intros j st Hj (rs & -> & Hw & Hp & Hi).
    eapply outcome_mono; [by apply Hbody|..]; cbv beta.
    + intros st' (r & He & Hi'). exists (rs ++ [r]). rewrite length_app. cbn [length].
      split; [lia|]. split; [by eapply walk_snoc|]. split; [|done].
      apply entry_le in He. lia.
    + intros e [HG [Hno|]]; (split; [done|]); [left|by right]. intros rs' off' Hl Hw'.
      destruct (walk_extend P bs 8 rs (pos st) rs' off') as (r & off3 & He); [lia|done|done|lia|].
      by apply (Hno r off3).
  - intros st (rs & Hl & Hw & Hp & Hi). exists rs. split; [lia|done].
Qed.
