(* ===== verification/Samples.v ===== *)
(** Concrete inputs for the examples and witnesses of the other files: a small
    compute-shader container, built word by word and stamped with its hash. *)

From S2P Require Import Prelude UnityCommon Hash Document RecordTable.

(** An arbitrary content for the uninitialised digest context. *)
Definition sample_stack : DigestStack := hash_stack.

Definition words_to_bytes (ws : list Z) : list byte := ws ≫= le_bytes 4.

(** A chunk: fourcc, payload size, payload words. *)
Definition sample_chunk (name : string) (payload : list Z) : list byte :=
  String.list_byte_of_string name ++ le_bytes 4 (4 * Z.of_nat (length payload)) ++
  words_to_bytes payload.

Fixpoint chunk_offsets (start : Z) (chunks : list (list byte)) : list Z :=
  match chunks with
  | [] => []
  | c :: cs => start :: chunk_offsets (start + size c) cs
  end.

(** The unstamped container of some chunks, in table order. *)
Definition sample_container (chunks : list (list byte)) : list byte :=
  let count := Z.of_nat (length chunks) in
  let table_end := 32 + 4 * count in
  let body := chunks ≫= id in
  String.list_byte_of_string "DXBC" ++ repeat Byte.x00 16 ++
  words_to_bytes ([1; table_end + size body; count] ++ chunk_offsets table_end chunks) ++ body.

Definition stamped (bytes : list byte) : list byte := stamp_hash bytes (reference_hash bytes).

(** cs_5_0: [dcl_thread_group 8, 8, 1], a customdata block, a no-op with an
    extension token, [ret]. *)
Definition compute_program : list Z :=
  [0x00050050; 12; 0x0400009b; 8; 8; 1; 0x00000035; 3; 7; 0x8200003a; 0x00000001; 0x0100003e].

(** gs_5_0: triangles in, one stream of triangle strips out, one emit and cut. *)
Definition geometry_program : list Z :=
  [0x00020050; 18; 0x0100185d; 0x0300008f; 0x00110000; 0; 0x0100285c; 0x0200005e; 3;
   0x03000075; 0x00110000; 0; 0x03000076; 0x00110000; 0; 0x0200003a; 1; 0x0100003e].

(** hs_5_0: a control-point phase, a fork phase of three instances, a join phase. *)
Definition hull_program : list Z :=
  [0x00030050; 18; 0x01000071; 0x01001893; 0x01001894; 0x01001095; 0x01000896; 0x01001897;
   0x02000098; 0x42800000; 0x01000072; 0x0100003e; 0x01000073; 0x02000099; 3; 0x0100003e;
   0x01000074; 0x0100003e].

Definition program_container (program : list Z) : list byte :=
  stamped (sample_container [sample_chunk "SHEX" program; sample_chunk "STAT" [5]]).

Definition parse_bytes (bytes : list byte) : DXBCDocument :=
  match @dxbc_document_parse unity_common_ref sample_stack (Some dxbc_document_init) (Some bytes) with
  | Ret d => d
  | _ => dxbc_document_init
  end.

Definition sample_bytes : list byte := Eval vm_compute in program_container compute_program.
Definition geometry_bytes : list byte := Eval vm_compute in program_container geometry_program.
Definition hull_bytes : list byte := Eval vm_compute in program_container hull_program.

Definition sample_document : DXBCDocument := Eval vm_compute in parse_bytes sample_bytes.
Definition geometry_document : DXBCDocument := Eval vm_compute in parse_bytes geometry_bytes.
Definition hull_document : DXBCDocument := Eval vm_compute in parse_bytes hull_bytes.

(** The three containers parse. *)
Lemma sample_parse :
  @dxbc_document_parse unity_common_ref sample_stack (Some dxbc_document_init) (Some sample_bytes)
  = Ret sample_document.
Proof. vm_compute. reflexivity. Qed.

Lemma geometry_parse :
  @dxbc_document_parse unity_common_ref sample_stack (Some dxbc_document_init)
    (Some geometry_bytes) = Ret geometry_document.
Proof. vm_compute. reflexivity. Qed.

Lemma hull_parse :
  @dxbc_document_parse unity_common_ref sample_stack (Some dxbc_document_init) (Some hull_bytes)
  = Ret hull_document.
Proof. vm_compute. reflexivity. Qed.

(** A USBD table of two named programs. *)
Definition sample_records : list (list byte * list byte) :=
  [(String.list_byte_of_string "main", sample_bytes);
   (String.list_byte_of_string "geom", geometry_bytes)].

Definition sample_table : list byte := Eval vm_compute in table_bytes sample_records.
