(* ===== verification/DocumentCorrect.v ===== *)
(** dxbc_document.c refines the container format: every run of the parser
    returns the exact document of a valid container or a well-formed report. *)

From S2P Require Import Prelude UnityCommon Hash Document DocumentFormat Samples.

(** * Refinement of the format by the parser *)

(** A well-formed report of a failure whose cause is [invalid] or memory. *)
Definition failure `{UnityCommon} (invalid : Prop) (e : DXBCDocumentDiagnostic) : Prop :=
  diag_kind e = diagnostic_kind (diag_code e) /\ diag_code e <> DXBC_DOCUMENT_OK /\
  (invalid \/ memory_failed).

Lemma failure_mono `{UnityCommon} (P Q : Prop) e : failure P e -> (P -> Q) -> failure Q e.
Proof. unfold failure. intuition. Qed.

Lemma outcome_report `{UnityCommon} {A} (invalid : Prop) code o c i x a (Q : A -> Prop) :
  code <> DXBC_DOCUMENT_OK -> invalid \/ memory_failed ->
  outcome (report_failure code o c i x a) Q (failure invalid).
Proof. intros Hc Hi. by split. Qed.

Lemma high_bit_word token : negb (Z.land token 0x80000000 =? 0) = high_bit token.
Proof. done. Qed.

Section parse_program.
Context `{U : UnityCommon} {HU : UnityCommonSpec U} {D : DigestStack}.
Context (bytes : list byte) (base total ci : Z).
Hypothesis (Hsize : size bytes < 2 ^ 32) (Hbase : 0 <= base).
Hypothesis (Hfits : base + 4 * total <= size bytes).

Lemma outcome_token off w (Q : Z -> Prop) (F : DXBCDocumentDiagnostic -> Prop) :
  off = base + 4 * w -> 0 <= w < total ->
  (in_u32 (token bytes base w) -> Q (token bytes base w)) ->
  outcome (read_u32_le bytes off) Q F.
Proof. intros -> Hw HQ. apply outcome_read_u32_le; [lia..|]. exact HQ. Qed.

(** The state of the extension loop relates the chain still to read to the
    whole chain. *)
Definition extension_state (w : Z) (st : Z * Z * bool) : Prop :=
  let '(ew, count, cont) := st in
  let s := first_extension bytes base w in
  ew = s + count /\ 0 <= count /\ ew <= instruction_tokens bytes base w /\
  if cont then
    (forall k, extension_run bytes base w ew k -> extension_run bytes base w s (count + k)) /\
    ((exists k, extension_run bytes base w s k) -> exists k, extension_run bytes base w ew k)
  else extension_run bytes base w s count.

Lemma extension_state_step w ew count :
  let t := token bytes base (w + ew) in
  ew < instruction_tokens bytes base w ->
  extension_state w (ew, count, true) ->
  extension_state w (ew + 1, count + 1, high_bit t).
Proof.
  intros t Hlt (Hew & Hc & Hn & Hrun & Hback). split; [lia|]. split; [lia|]. split; [lia|].
  subst t. destruct (high_bit _) eqn:Ht.
  - split.
    + intros k Hk. replace (count + 1 + k) with (count + (k + 1)) by lia.
      apply Hrun. by apply extension_more.
    + intros Hk. destruct (Hback Hk) as [k Hk']. inversion Hk'; subst; [congruence|eauto].
  - apply Hrun. by apply extension_last.
Qed.

(** The extension loop of the instruction starting at word [w]. *)
Lemma extension_loop_spec off w index :
  let n := instruction_tokens bytes base w in
  let s := first_extension bytes base w in
  off = base + 4 * w -> 0 <= w -> s <= n -> w + n <= total ->
  outcome (extension_loop bytes off n ci index s)
    (fun st => extension_run bytes base w s st.1.2)
    (failure (~ exists k, extension_run bytes base w s k)).
Proof.
  intros n s -> Hw Hsn Hn.
  assert (Hs : 1 <= s) by (unfold s, first_extension; case_match; lia).
  pose (μ := fun st : Z * Z * bool => Z.to_nat (n + 1 - st.1.1)).
  eapply outcome_mono; [apply (outcome_while (extension_state w) μ)| |done].
  - split; [unfold s; lia|]. do 2 (split; [lia|]). split; [|done].
    intros k Hk. by rewrite Z.add_0_l.
  - unfold μ. simpl. lia.
  - intros [[ew count] cont] Hst ->. pose proof Hst as (Hew & Hc & Hle & Hrun & Hback).
    fold s in Hew. fold n in Hle. split; [unfold μ; simpl; lia|].
    destruct (Z.leb_spec n ew).
    { apply outcome_report; [done|left]. intros Hk. destruct (Hback Hk) as [k Hk'].
      inversion Hk'; unfold n in *; lia. }
    apply outcome_bind. eapply (outcome_token _ (w + ew)); [wrap; lia|lia|]. intros _.
    wrap. rewrite high_bit_word. split; [by apply extension_state_step|unfold μ; simpl; lia].
  - intros [[ew count] cont] [(_ & _ & _ & Hrun) ->]. exact Hrun.
Qed.

(** The document under construction: [doc0] with the instructions [l] of this
    chunk appended. *)
Definition building (doc0 : DXBCDocument) (l : list DXBCDocumentInstruction)
    (d : DXBCDocument) : Prop :=
  exists capacity, d = set_instructions doc0 (doc_instructions doc0 ++ l) capacity /\
    capacity_ok 64 (doc_instruction_count d) capacity.

Context (doc0 : DXBCDocument).
Hypothesis (Howned : doc_owned_bytes doc0 = Some bytes).
Hypothesis (Hcap0 : capacity_ok 64 (doc_instruction_count doc0) (doc_instruction_capacity doc0)).
Hypothesis (Hroom : doc_instruction_count doc0 + total < 2 ^ 40).

Lemma append_instruction_spec l d ins (P : Prop) :
  building doc0 l d -> Z.of_nat (length l) < total ->
  outcome (append_instruction d ins) (building doc0 (l ++ [ins])) (failure P).
Proof.
  intros (cap & -> & Hcap) Hl. unfold append_instruction. cbn [doc_instruction_capacity set_instructions].
  set (d := set_instructions _ _ _) in *.
  assert (Hcount : doc_instruction_count d = doc_instruction_count doc0 + Z.of_nat (length l)).
  { unfold d, doc_instruction_count. simpl. rewrite length_app. lia. }
  assert (0 <= doc_instruction_count doc0) by (unfold doc_instruction_count; lia).
  pose proof (grow_array_spec 64 sizeof_DXBCDocumentInstruction (doc_instruction_count d) cap
    ltac:(lia) ltac:(unfold sizeof_DXBCDocumentInstruction; lia) ltac:(lia) Hcap) as Hg.
  change (doc_instruction_capacity d) with cap.
  destruct (grow_array _ _ _ _) as [cap'|]; [|by apply outcome_report; [done|right]].
  exists cap'. split; [unfold d; simpl; by rewrite app_assoc|].
  replace (doc_instruction_count _) with (doc_instruction_count d + 1); [done|].
  unfold doc_instruction_count. simpl. rewrite !length_app. simpl. lia.
Qed.

Lemma token_opcode_range w : in_u32 (token_opcode bytes base w).
Proof.
  unfold token_opcode. change 0x7ff with (2 ^ 11 - 1).
  rewrite land_ones_mod by lia. unfold in_u32.
  pose proof (Z.mod_pos_bound (token bytes base w) (2 ^ 11)). lia.
Qed.

Lemma token_length_range w : 0 <= token_length bytes base w < 128.
Proof.
  unfold token_length. change 0x7f with (2 ^ 7 - 1).
  rewrite land_ones_mod by lia. apply Z.mod_pos_bound. lia.
Qed.

(** The token count of the instruction at [w], as the code obtains it. *)
Lemma token_count_spec off w i :
  let unparsable := ~ exists k, valid_instruction bytes base total w k in
  off = base + 4 * w -> 2 <= w < total ->
  outcome
    (if is_customdata bytes base w then
       if total - w <? 2 then
         report_failure DXBC_DOCUMENT_TRUNCATED_INSTRUCTION off ci i 2 (total - w)
       else read_u32_le bytes (off + 4)
     else if token_length bytes base w =? 0 then
       report_failure DXBC_DOCUMENT_INSTRUCTION_LENGTH_INVALID off ci i 1 0
     else Ret (token_length bytes base w))
    (fun n => n = instruction_tokens bytes base w /\ 0 <= n < 2 ^ 32 /\
              w + first_extension bytes base w <= total)
    (failure unparsable).
Proof.
  intros unparsable -> Hw. pose proof (token_length_range w) as Hl.
  assert (Hr : forall k, valid_instruction bytes base total w k ->
                 w + first_extension bytes base w <= total /\
                 first_extension bytes base w <= instruction_tokens bytes base w).
  { intros k [? ? ? ?]. done. }
  unfold unparsable, first_extension, instruction_tokens in *.
  destruct (is_customdata bytes base w).
  - destruct (Z.ltb_spec (total - w) 2).
    { apply outcome_report; [done|left]. intros [k Hk]. apply Hr in Hk. lia. }
    apply (outcome_token _ (w + 1)); [lia|lia|]. unfold in_u32. intros ?. split; [done|lia].
  - destruct (Z.eqb_spec (token_length bytes base w) 0).
    { apply outcome_report; [done|left]. intros [k Hk]. apply Hr in Hk. lia. }
    apply outcome_ret. split; [done|lia].
Qed.

Lemma parse_instruction_spec l d w i :
  building doc0 l d -> 2 <= w < total -> Z.of_nat (length l) <= i <= w ->
  outcome (parse_instruction ci base total (d, w, i))
    (fun '(d', w', i') => exists k, valid_instruction bytes base total w k /\
       w' = w + instruction_tokens bytes base w /\ i' = i + 1 /\
       building doc0 (l ++ [instruction_at bytes base ci i w k]) d')
    (failure (~ exists k, valid_instruction bytes base total w k)).
Proof.
  intros Hd Hw Hi. unfold parse_instruction.
  assert (Hb : owned (E:=DXBCDocumentDiagnostic) d = Ret bytes).
  { unfold owned. destruct Hd as (cap & -> & _). simpl. by rewrite Howned. }
  rewrite Hb. mstep. wrap.
  apply outcome_bind, (outcome_token _ w); [lia|lia|]. intros _.
  fold (token_opcode bytes base w) (token_length bytes base w) (is_customdata bytes base w).
  apply outcome_bind.
  eapply outcome_mono; [apply token_count_spec; lia| |done].
  intros n (-> & Hn & Hfirst).
  fold (first_extension bytes base w). set (n := instruction_tokens bytes base w) in *.
  set (s := first_extension bytes base w) in *.
  assert (Hs : 1 <= s) by (unfold s, first_extension; case_match; lia).
  destruct (Z.ltb_spec n s).
  { apply outcome_report; [done|left]. intros [k []]. lia. }
  destruct (Z.ltb_spec (total - w) n).
  { apply outcome_report; [done|left]. intros [k []]. lia. }
  rewrite high_bit_word. apply outcome_bind.
  apply (outcome_mono _ (extensions bytes base w) _
           (failure (~ exists k, extensions bytes base w k))).
  - unfold extensions. destruct (high_bit (token bytes base w)); [|done].
    apply outcome_bind. eapply outcome_mono; [apply (extension_loop_spec _ w i); lia|done|done].
  - intros k Hk. rewrite view_ok by (wrap; lia). mstep.
    apply outcome_bind. eapply outcome_mono; [apply append_instruction_spec; [done|lia]| |].
    + intros d' Hd'. exists k. split; [constructor; fold n s; (lia || done)|]. wrap. split; [done|]. split; [done|].
      unfold instruction_at. fold n. revert Hd'. wrap.
      by rewrite (Z.mul_comm w 4), (Z.mul_comm n 4).
    + intros e He. exact He.
  - intros e He. eapply failure_mono; [done|]. intros Hno [k []]. eauto.
Qed.

(** A complete run of the program passes through [w] and continues there. *)
Lemma valid_next l w i :
  run bytes base total ci 2 0 l w i -> w < total ->
  (exists L ie, run bytes base total ci 2 0 L total ie) ->
  exists k, valid_instruction bytes base total w k.
Proof.
  intros Hr Hw (L & ie & HL). destruct (run_through _ _ _ _ _ _ _ _ _ _ _ Hr HL) as (L' & _ & H').
  inversion H'; subst; [lia|eauto].
Qed.

Lemma program_loop_spec fuel :
  2 <= total -> total <= Z.of_nat fuel ->
  outcome (while fuel (fun '(_, word_offset, _) => word_offset <? total)
             (parse_instruction ci base total) (doc0, 2, 0))
    (fun st => exists l i', run bytes base total ci 2 0 l total i' /\ building doc0 l st.1.1)
    (failure (~ exists l i', run bytes base total ci 2 0 l total i')).
Proof.
  intros Htotal Hfuel.
  pose (I := fun '(d, w, i) => exists l, run bytes base total ci 2 0 l w i /\
               building doc0 l d /\ 2 <= w <= total).
  pose (μ := fun st : DXBCDocument * Z * Z => Z.to_nat (total - st.1.2)).
  eapply outcome_mono; [apply (outcome_while I μ)| |done].
  - exists []. split; [apply run_nil|]. split; [|lia].
    exists (doc_instruction_capacity doc0). split; [|done].
    rewrite app_nil_r. by destruct doc0.
  - unfold μ. simpl. lia.
  - intros [[d w] i] (l & Hr & Hd & Hw) Hlt%Z.ltb_lt. split; [unfold μ; simpl; lia|].
    destruct (run_tokens _ _ _ _ _ _ _ _ _ Hr) as [Hl Hi]; [lia|].
    eapply outcome_mono; [apply (parse_instruction_spec l); [done|lia|lia]| |].
    + intros [[d' w'] i'] (k & Hk & -> & -> & Hd').
      pose proof (instruction_min _ _ _ _ _ Hk). pose proof (instruction_max _ _ _ _ _ Hk).
      assert (1 <= first_extension bytes base w) by (unfold first_extension; case_match; lia).
      split; [|unfold μ; simpl; lia].
      eexists. split; [by eapply run_snoc|]. split; [done|lia].
    + intros e He. eapply failure_mono; [done|]. intros Hno HL. apply Hno.
      by eapply valid_next.
  - intros [[d w] i] [(l & Hr & Hd & Hw) Hge%Z.ltb_ge].
    assert (w = total) as -> by lia. eauto.
Qed.
End parse_program.

(** [d'] is [d] with the instructions [l] and the reports [r] appended. *)
Definition grown (d : DXBCDocument) (l : list DXBCDocumentInstruction)
    (r : list DXBCDocumentDiagnostic) (d' : DXBCDocument) : Prop :=
  exists c c',
    d' = set_diagnostics (set_instructions d (doc_instructions d ++ l) c)
           (doc_diagnostics d ++ r) c'.

Definition capacities_ok (d : DXBCDocument) : Prop :=
  capacity_ok 64 (doc_instruction_count d) (doc_instruction_capacity d) /\
  capacity_ok 4 (doc_diagnostic_count d) (doc_diagnostic_capacity d).

Lemma grown_refl d : grown d [] [] d.
Proof.
  exists (doc_instruction_capacity d), (doc_diagnostic_capacity d).
  rewrite !app_nil_r. by destruct d.
Qed.

Lemma grown_trans d l r d' l' r' d'' :
  grown d l r d' -> grown d' l' r' d'' -> grown d (l ++ l') (r ++ r') d''.
Proof.
  intros (c & c' & ->) (e & e' & ->). exists e, e'. simpl. by rewrite !app_assoc.
Qed.

Lemma word_slice bytes off len i :
  0 <= off -> 0 <= i -> i + 4 <= len -> word (slice bytes off len) i = word bytes (off + i).
Proof. intros. unfold word. by rewrite slice_slice by lia. Qed.

Section parse_chunks.
Context `{U : UnityCommon} {HU : UnityCommonSpec U} {D : DigestStack}.
Context (bytes : list byte).
Hypothesis (Hsize : size bytes < 2 ^ 32).

Lemma payload_range c : chunk_payload_size c = word bytes (chunk_offset c + 4) ->
  valid_entry bytes c -> 0 <= chunk_offset c -> in_u32 (chunk_payload_size c).
Proof. intros -> [] H0. apply le32_range; lia. Qed.

Lemma append_diagnostic_spec d code o c i x a (P : Prop) :
  capacities_ok d -> doc_diagnostic_count d < 2 ^ 32 ->
  outcome (append_diagnostic d code o c i x a)
    (fun d' => grown d [] [mk_diagnostic code o c i x a] d' /\ capacities_ok d')
    (failure P).
Proof.
  intros [Hi Hd] Hn. unfold append_diagnostic.
  assert (0 <= doc_diagnostic_count d) by (unfold doc_diagnostic_count; lia).
  pose proof (grow_array_spec 4 sizeof_DXBCDocumentDiagnostic (doc_diagnostic_count d)
    (doc_diagnostic_capacity d) ltac:(lia) ltac:(unfold sizeof_DXBCDocumentDiagnostic; lia)
    ltac:(lia) Hd) as Hg.
  destruct (grow_array _ _ _ _) as [cap|]; [|by apply outcome_report; [done|right]].
  split.
  - exists (doc_instruction_capacity d), cap. rewrite app_nil_r. by destruct d.
  - split; [done|]. simpl. unfold doc_diagnostic_count at 1. simpl.
    rewrite length_app. simpl. by rewrite Nat2Z.inj_add.
Qed.

(** Executable chunks. *)
Lemma parse_executable_chunk_spec d i :
  let c := chunk_at bytes i in
  valid_entry bytes c -> 0 <= chunk_offset c ->
  doc_owned_bytes d = Some bytes -> capacities_ok d ->
  doc_instruction_count d + chunk_raw_size c <= 2 ^ 32 -> doc_diagnostic_count d < 2 ^ 32 ->
  outcome (parse_executable_chunk d c)
    (fun d' => exists l, program_of bytes c l /\ grown d l (stage_reports bytes c) d' /\
               capacities_ok d' /\ Z.of_nat (length l) <= chunk_raw_size c)
    (failure (~ exists l, program_of bytes c l)).
Proof.
  intros c Hc Hoff Howned Hcap Hroom Hdiag.
  pose proof (payload_range c eq_refl Hc Hoff) as Hp. unfold in_u32 in Hp.
  pose proof Hc as [_ _ Hh He]. unfold chunk_end in He.
  assert (Hraw : chunk_raw_size c = 8 + chunk_payload_size c) by done.
  assert (Hpb : chunk_payload_bytes c = slice bytes (chunk_offset c + 8) (chunk_payload_size c)) by done.
  assert (Hci : chunk_table_index c = i) by done.
  clearbody c. rewrite Hraw in *. unfold parse_executable_chunk. rewrite Hpb. clear Hpb. cbn zeta.
  change 3 with (2 ^ 2 - 1). rewrite land_ones_mod by lia. change (2 ^ 2) with 4.
  destruct (Z.eqb_spec (chunk_payload_size c mod 4) 0) as [Hal|]; cbn [negb].
  2:{ apply outcome_report; [done|left]. by intros [l []]. }
  destruct (Z.ltb_spec (chunk_payload_size c) 8).
  { apply outcome_report; [done|left]. intros [l []]. lia. }
  assert (Hsz : size (slice bytes (chunk_offset c + 8) (chunk_payload_size c)) = chunk_payload_size c)
    by (apply size_slice; lia).
  apply outcome_bind, outcome_read_u32_le; [lia..|]. intros _.
  apply outcome_bind, outcome_read_u32_le; [lia..|]. intros _.
  fold (word (slice bytes (chunk_offset c + 8) (chunk_payload_size c)) 0)
       (word (slice bytes (chunk_offset c + 8) (chunk_payload_size c)) 4).
  rewrite !word_slice by lia. rewrite Z.add_0_r.
  replace (chunk_offset c + 8 + 4) with (chunk_offset c + 12) by lia.
  assert (Ht : 2 <= program_words c /\ 4 * program_words c = chunk_payload_size c).
  { unfold program_words. Z.div_mod_to_equations; lia. }
  fold (program_words c). fold (stage_of bytes c).
  destruct (Z.eqb_spec (word bytes (chunk_offset c + 12)) (program_words c)) as [Hlen|Hlen]; cbn [negb orb].
  2:{ apply outcome_report; [done|left]. by intros [l []]. }
  rewrite Hlen. destruct (Z.ltb_spec (program_words c) 2); [lia|].
  apply outcome_bind. wrap.
  apply (outcome_mono _ (fun d1 => grown d [] (stage_reports bytes c) d1 /\ capacities_ok d1)
           _ (failure False)).
  - unfold stage_reports. destruct (5 <? _).
    + apply append_diagnostic_spec; done.
    + split; [apply grown_refl|done].
  - intros d1 [Hgrown Hcap1]. apply outcome_bind.
    destruct (Hgrown) as (c1 & c1' & Hd1). rewrite app_nil_r in Hd1.
    assert (Hcount : doc_instruction_count d1 = doc_instruction_count d) by (by subst d1).
    eapply outcome_mono.
    + apply (program_loop_spec bytes (chunk_offset c + 8) (program_words c)
               (chunk_table_index c)); try lia; [by subst d1|apply Hcap1].
    + intros [[d' w] j] (l & i' & Hrun & cap & Hd' & Hcap').
      cbn [fst] in Hd', Hcap'. exists l.
      destruct (run_tokens _ _ _ _ _ _ _ _ _ Hrun) as [Hl _]; [lia|].
      split; [by split; eauto|]. split; [|split; [split|lia]].
      * rewrite <- (app_nil_r (stage_reports bytes c)).
        apply (grown_trans d [] (stage_reports bytes c) d1 l [] d'); [done|].
        exists cap, (doc_diagnostic_capacity d1). subst d'. rewrite app_nil_r. by destruct d1.
      * subst d'. exact Hcap'.
      * subst d'. apply Hcap1.
    + intros e He'. eapply failure_mono; [done|]. intros Hno [l [_ _ _ [i' Hr]]]. eauto.
  - intros e He'. by eapply failure_mono.
Qed.
End parse_chunks.

Section parse_table.
Context `{U : UnityCommon} {HU : UnityCommonSpec U} {D : DigestStack}.
Context (bytes : list byte).
Hypothesis (Hsize : size bytes < 2 ^ 32).

(** What the chunk loop establishes of a chunk it accepts. *)
Definition read_chunk (c : DXBCDocumentChunk) : Prop :=
  (exists i, c = chunk_at bytes i) /\ valid_entry bytes c /\ 0 <= chunk_offset c.

Lemma read_chunk_size c : read_chunk c -> 8 <= chunk_raw_size c < 2 ^ 33.
Proof.
  intros ([i ->] & Hv & Ho). pose proof (payload_range bytes (chunk_at bytes i) eq_refl Hv Ho) as Hp.
  unfold in_u32 in Hp. change (chunk_raw_size _) with (8 + chunk_payload_size (chunk_at bytes i)).
  lia.
Qed.

Lemma total_size_nonneg cs : Forall read_chunk cs -> 0 <= total_size cs.
Proof.
  induction 1 as [|c cs Hc _ IH]; [done|]. apply read_chunk_size in Hc.
  unfold total_size in *. cbn [fmap list_fmap foldr]. cbn [fmap] in IH. lia.
Qed.

Lemma programs_head c cs l r :
  chunk_kind c = DXBC_DOCUMENT_CHUNK_EXECUTABLE ->
  programs_of bytes (c :: cs) l r -> exists l', program_of bytes c l'.
Proof. intros Hk H. inversion H; subst; [done|eauto]. Qed.

Lemma programs_tail c cs l r :
  programs_of bytes (c :: cs) l r -> exists l' r', programs_of bytes cs l' r'.
Proof. intros H. inversion H; subst; eauto. Qed.

Lemma grown_owned d l r d' : grown d l r d' -> doc_owned_bytes d' = doc_owned_bytes d.
Proof. by intros (c & c' & ->). Qed.

Lemma grown_counts d l r d' : grown d l r d' ->
  doc_instruction_count d' = doc_instruction_count d + Z.of_nat (length l) /\
  doc_diagnostic_count d' = doc_diagnostic_count d + Z.of_nat (length r).
Proof.
  intros (c & c' & ->). unfold doc_instruction_count, doc_diagnostic_count. simpl.
  rewrite !length_app. lia.
Qed.

Lemma stage_reports_length c : Z.of_nat (length (stage_reports bytes c)) <= 1.
Proof. unfold stage_reports. case_match; simpl; lia. Qed.

Lemma parse_executables_spec cs d :
  Forall read_chunk cs -> doc_owned_bytes d = Some bytes -> capacities_ok d ->
  doc_instruction_count d + total_size cs <= 2 ^ 32 ->
  doc_diagnostic_count d + total_size cs <= 2 ^ 32 ->
  outcome (parse_executables d cs)
    (fun d' => exists l r, programs_of bytes cs l r /\ grown d l r d')
    (failure (~ exists l r, programs_of bytes cs l r)).
Proof.
  intros Hcs. revert d. induction Hcs as [|c cs Hc Hcs IH]; intros d Ho Hcap Hi Hd.
  { exists [], []. split; [constructor|apply grown_refl]. }
  pose proof (read_chunk_size c Hc) as Hsz. pose proof (total_size_nonneg cs Hcs) as Htot.
  assert (Hsum : total_size (c :: cs) = chunk_raw_size c + total_size cs) by done.
  cbn [parse_executables]. apply outcome_bind.
  destruct (decide _) as [Hk|Hk].
  - destruct Hc as ([i ->] & Hv & Hoff).
    eapply outcome_mono; [apply parse_executable_chunk_spec; done || lia| |].
    + intros d1 (l & Hl & Hg & Hcap1 & Hlen).
      destruct (grown_counts _ _ _ _ Hg) as [Hi1 Hd1].
      pose proof (stage_reports_length (chunk_at bytes i)).
      eapply outcome_mono; [apply IH; try lia; [by rewrite (grown_owned _ _ _ _ Hg)|done]| |].
      * intros d2 (l' & r' & Hp & Hg2). exists (l ++ l'), (stage_reports bytes (chunk_at bytes i) ++ r').
        split; [by constructor|by eapply grown_trans].
      * intros e He. eapply failure_mono; [done|]. intros Hno (l0 & r0 & H0).
        apply Hno. by eapply programs_tail.
    + intros e He. eapply failure_mono; [done|]. intros Hno (l0 & r0 & H0).
      apply Hno. by eapply programs_head.
  - apply outcome_ret. eapply outcome_mono; [apply (IH d); done || lia| |].
    + intros d2 (l & r & Hp & Hg). exists l, r. split; [by constructor|done].
    + intros e He. eapply failure_mono; [done|]. intros Hno (l0 & r0 & H0).
      apply Hno. by eapply programs_tail.
Qed.
End parse_table.

Section parse_entries.
Context `{U : UnityCommon} {HU : UnityCommonSpec U} {D : DigestStack}.
Context (bytes : list byte).
Hypothesis (Hsize : size bytes < 2 ^ 32) (Hheader : valid_header bytes).
Abbreviation read_chunk := (read_chunk bytes).

Lemma table_offset_range i :
  0 <= i < chunk_count_of bytes -> 0 <= 32 + 4 * i /\ 32 + 4 * i + 4 <= size bytes.
Proof. intros Hi. pose proof (header_table _ Hheader). unfold table_end_of in *. lia. Qed.

(** The scan for an earlier chunk with the same offset. *)
Lemma duplicate_scan_spec i o table_offset cs :
  o = chunk_offset (chunk_at bytes i) -> Forall read_chunk cs ->
  outcome
    (for_each 0 cs (fun previous chunk =>
       if chunk_offset chunk =? o then
         report_failure DXBC_DOCUMENT_DUPLICATE_CHUNK_OFFSET table_offset i
           DXBC_DOCUMENT_NO_INDEX previous o
       else Ret tt))
    (fun _ => True)
    (failure (~ (valid_entry bytes (chunk_at bytes i) /\
                 Forall (fun c => chunks_disjoint c (chunk_at bytes i)) cs))).
Proof.
  intros -> Hcs. eapply outcome_mono;
    [eapply (outcome_for_each (fun _ => True)); intros j c Hc| |]; [|done|done].
  destruct (Z.eqb_spec (chunk_offset c) (chunk_offset (chunk_at bytes i))) as [He|]; [|done].
  apply outcome_report; [done|left]. intros [Hv Hdis].
  rewrite list.Forall_forall in Hcs, Hdis.
  pose proof (Hdis c Hc) as Hd. pose proof (read_chunk_size bytes _ (Hcs c Hc)).
  destruct (decide (0 <= chunk_offset (chunk_at bytes i))) as [Ho|Ho].
  - pose proof (payload_range bytes (chunk_at bytes i) eq_refl Hv Ho) as Hp. unfold in_u32 in Hp.
    unfold chunks_disjoint, chunk_end in Hd.
    change (chunk_raw_size (chunk_at bytes i)) with (8 + chunk_payload_size (chunk_at bytes i)) in Hd.
    lia.
  - pose proof (Hcs c Hc) as (_ & _ & ?). lia.
Qed.

(** The scan for an earlier chunk that overlaps. *)
Lemma overlap_scan_spec i o e cs :
  let c := chunk_at bytes i in
  o = chunk_offset c -> e = chunk_end c -> Forall read_chunk cs ->
  outcome
    (for_each 0 cs (fun previous chunk =>
       let previous_start := chunk_offset chunk in
       let previous_end := u64 (previous_start + chunk_raw_size chunk) in
       if (o <? previous_end) && (previous_start <? e) then
         report_failure DXBC_DOCUMENT_OVERLAPPING_CHUNKS o i DXBC_DOCUMENT_NO_INDEX previous o
       else Ret tt))
    (fun _ => Forall (fun c' => chunks_disjoint c' c) cs)
    (failure (~ (valid_entry bytes c /\ Forall (fun c' => chunks_disjoint c' c) cs))).
Proof.
  intros c -> -> Hcs. apply outcome_for_each. intros j c' Hc'. cbn zeta.
  pose proof Hcs as Hcs'. rewrite list.Forall_forall in Hcs'.
  pose proof (read_chunk_size bytes _ (Hcs' c' Hc')).
  pose proof (Hcs' c' Hc') as (_ & [] & ?). wrap. fold (chunk_end c').
  destruct (Z.ltb_spec (chunk_offset c) (chunk_end c')), (Z.ltb_spec (chunk_offset c') (chunk_end c));
    cbn [andb].
  1:{ apply outcome_report; [done|left]. intros [_ Hdis]. rewrite list.Forall_forall in Hdis.
      destruct (Hdis c' Hc'); lia. }
  all: apply outcome_ret; unfold chunks_disjoint; lia.
Qed.

Lemma parse_chunk_entry_spec i cs :
  let c := chunk_at bytes i in
  0 <= i < chunk_count_of bytes -> Forall read_chunk cs ->
  outcome (parse_chunk_entry bytes bytes (table_end_of bytes) i cs)
    (fun cs' => cs' = cs ++ [c] /\ read_chunk c /\ Forall (fun c' => chunks_disjoint c' c) cs)
    (failure (~ (valid_entry bytes c /\ Forall (fun c' => chunks_disjoint c' c) cs))).
Proof.
  intros c Hi Hcs. destruct (table_offset_range i Hi) as [Ht0 Ht].
  unfold parse_chunk_entry. unfold DXBC_DOCUMENT_HEADER_SIZE. cbn zeta. wrap.
  replace (i * 4) with (4 * i) by lia.
  apply outcome_bind, outcome_read_u32_le; [lia..|].
  fold (word bytes (32 + 4 * i)). change (word bytes (32 + 4 * i)) with (chunk_offset c).
  intros Ho. unfold in_u32 in Ho.
  change 3 with (2 ^ 2 - 1). rewrite land_ones_mod by lia. change (2 ^ 2) with 4.
  destruct (Z.eqb_spec (chunk_offset c mod 4) 0) as [Hal|]; cbn [negb].
  2:{ apply outcome_report; [done|left]. by intros [[] _]. }
  destruct (Z.ltb_spec (chunk_offset c) (table_end_of bytes)).
  { apply outcome_report; [done|left]. intros [[] _]. lia. }
  apply outcome_bind. eapply outcome_mono; [by apply duplicate_scan_spec| |done]. intros _ _.
  destruct (Z.ltb_spec (size bytes) (chunk_offset c)); cbn [orb].
  { apply outcome_report; [done|left]. intros [[] _]. lia. }
  wrap. destruct (Z.ltb_spec (size bytes - chunk_offset c) 8).
  { apply outcome_report; [done|left]. intros [[] _]. lia. }
  rewrite view_ok by lia. mstep.
  apply outcome_bind, outcome_read_u32_le; [lia..|].
  fold (word bytes (chunk_offset c + 4)).
  change (word bytes (chunk_offset c + 4)) with (chunk_payload_size c).
  intros Hp. unfold in_u32, UINT32_MAX in *. wrap.
  assert (Hraw : chunk_end c = chunk_offset c + (8 + chunk_payload_size c)) by done.
  destruct (Z.ltb_spec (4294967295 - chunk_offset c - 8) (chunk_payload_size c)).
  { apply outcome_report; [done|left]. intros [[] _]. lia. }
  destruct (Z.ltb_spec (size bytes - (chunk_offset c + 8)) (chunk_payload_size c)).
  { apply outcome_report; [done|left]. intros [[] _]. lia. }
  rewrite view_ok by lia. mstep. rewrite view_ok by lia. mstep.
  apply outcome_bind.
  eapply outcome_mono; [apply (overlap_scan_spec i); done| |done]. intros [] Hdis.
  split; [done|]. split; [|done]. split; [by exists i|]. split; [|lia]. split; lia || done.
Qed.

Lemma chunks_from_snoc i n :
  chunks_from bytes i (S n) = chunks_from bytes i n ++ [chunk_at bytes (i + Z.of_nat n)].
Proof.
  revert i. induction n as [|n IH]; intros i; cbn [chunks_from].
  { by rewrite Z.add_0_r. }
  cbn [chunks_from] in IH. rewrite IH. cbn [app]. do 3 f_equal. by rewrite Nat2Z.inj_succ, <- Z.add_1_l, Z.add_assoc.
Qed.

Lemma ordpairs_snoc {A} (R : A -> A -> Prop) l x :
  ForallOrdPairs R l -> Forall (fun y => R y x) l -> ForallOrdPairs R (l ++ [x]).
Proof.
  induction 1 as [|y l Hy Hl IH]; intros Hx; [by repeat constructor|].
  inversion Hx; subst. cbn [app]. constructor; [|auto].
  apply Forall_app. split; [done|]. by constructor.
Qed.

Lemma ordpairs_app {A} (R : A -> A -> Prop) l x l' :
  ForallOrdPairs R (l ++ x :: l') -> Forall (fun y => R y x) l.
Proof.
  induction l as [|y l IH]; intros H; inversion H as [|? ? Hy Hl]; subst; constructor; [|auto].
  apply Forall_app in Hy as [_ Hy]. by inversion Hy.
Qed.

Lemma chunks_from_app i n m :
  chunks_from bytes i (n + m) = chunks_from bytes i n ++ chunks_from bytes (i + Z.of_nat n) m.
Proof.
  revert i. induction n as [|n IH]; intros i; cbn [chunks_from Nat.add app].
  { by rewrite Z.add_0_r. }
  rewrite IH. do 3 f_equal. lia.
Qed.

(** A valid table validates each of its entries against the earlier ones. *)
Lemma valid_table_entry i :
  0 <= i < chunk_count_of bytes -> valid_table bytes ->
  valid_entry bytes (chunk_at bytes i) /\
  Forall (fun c => chunks_disjoint c (chunk_at bytes i)) (chunks_from bytes 0 (Z.to_nat i)).
Proof.
  intros Hi [Hv Hd]. unfold chunks_of in *.
  replace (Z.to_nat (chunk_count_of bytes))
    with (Z.to_nat i + S (Z.to_nat (chunk_count_of bytes - i - 1)))%nat in * by lia.
  rewrite chunks_from_app in *. cbn [chunks_from] in *.
  replace (0 + Z.of_nat (Z.to_nat i)) with i in * by lia. split.
  - apply Forall_app in Hv as [_ Hv]. by inversion Hv.
  - by eapply ordpairs_app.
Qed.

Lemma chunk_loop_spec :
  outcome (for_loop (Z.to_nat (chunk_count_of bytes)) 0
             (parse_chunk_entry bytes bytes (table_end_of bytes)) [])
    (fun cs => cs = chunks_of bytes /\ Forall read_chunk cs /\ ForallOrdPairs chunks_disjoint cs)
    (failure (~ valid_table bytes)).
Proof.
  pose (I := fun i cs => 0 <= i /\ cs = chunks_from bytes 0 (Z.to_nat i) /\ Forall read_chunk cs /\
               ForallOrdPairs chunks_disjoint cs).
  eapply outcome_mono; [apply (outcome_for I)| |done].
  - split; [lia|]. split; [done|]. split; constructor.
  - intros i cs Hi (_ & -> & Hcs & Hdis).
    eapply outcome_mono; [apply parse_chunk_entry_spec; [lia|done]| |].
    + intros cs' (-> & Hc & Hnew). split; [lia|]. split.
      { rewrite Z2Nat.inj_add, Nat.add_1_r, chunks_from_snoc by lia. do 3 f_equal. lia. }
      split; [apply Forall_app; split; [done|by constructor]|by apply ordpairs_snoc].
    + intros e He. eapply failure_mono; [done|]. intros Hno Ht. apply Hno.
      apply valid_table_entry; [lia|done].
  - intros cs (_ & -> & Hcs & Hdis). rewrite Z.add_0_l, Nat2Z.id in *. done.
Qed.
End parse_entries.

Section parse_document.
Context `{U : UnityCommon} {HU : UnityCommonSpec U} {D : DigestStack}.
Context (bytes : list byte).

Lemma valid_header_size : valid_header bytes -> size bytes < 2 ^ 32.
Proof.
  intros []. assert (Hr : in_u32 (word bytes 24)) by (apply le32_range; lia).
  unfold in_u32 in Hr. lia.
Qed.

Lemma outcome_magic off name (Q : bool -> Prop) (F : DXBCDocumentDiagnostic -> Prop) :
  0 <= off -> off + Z.of_nat (String.length name) <= size bytes ->
  Q (bool_decide (slice bytes off (Z.of_nat (String.length name)) = String.list_byte_of_string name)) ->
  outcome (magic_at bytes off name) Q F.
Proof. intros ? ? HQ. unfold magic_at. rewrite view_ok by lia. exact HQ. Qed.

Lemma parse_header_spec :
  outcome (parse_header bytes)
    (fun h => h = (1, size bytes, chunk_count_of bytes, table_end_of bytes) /\ valid_header bytes)
    (failure (~ valid_header bytes)).
Proof.
  unfold parse_header. cbn zeta. unfold DXBC_DOCUMENT_HEADER_SIZE, UINT32_MAX.
  pose proof (size_nonneg bytes).
  destruct (Z.ltb_spec (size bytes) 4).
  { apply outcome_report; [done|left]. intros []. lia. }
  apply outcome_bind, outcome_magic; [lia|simpl; lia|].
  change (Z.of_nat (String.length "DXBC")) with 4.
  case_bool_decide as Hmagic; cbn [negb].
  2:{ apply outcome_report; [done|left]. by intros []. }
  destruct (Z.ltb_spec (size bytes) 32).
  { apply outcome_report; [done|left]. intros []. lia. }
  apply outcome_bind, outcome_read_u32_le; [lia..|]. fold (word bytes 20). intros _.
  apply outcome_bind, outcome_read_u32_le; [lia..|]. fold (word bytes 24). intros Hdecl.
  apply outcome_bind, outcome_read_u32_le; [lia..|]. fold (word bytes 28). fold (chunk_count_of bytes).
  intros Hcount. unfold in_u32 in *.
  destruct (Z.eqb_spec (word bytes 20) 1) as [Hver|]; cbn [negb].
  2:{ apply outcome_report; [done|left]. by intros []. }
  destruct (Z.ltb_spec (word bytes 24) 32).
  { apply outcome_report; [done|left]. intros []. lia. }
  destruct (Z.eqb_spec (word bytes 24) (size bytes)) as [Hsz|]; cbn [negb].
  2:{ apply outcome_report; [done|left]. by intros []. }
  wrap. change ((4294967295 - 32) / 4) with 1073741815.
  destruct (Z.ltb_spec 1073741815 (chunk_count_of bytes)); cbn [orb].
  { apply outcome_report; [done|left]. intros []. unfold table_end_of in *. lia. }
  wrap. rewrite size_multiply_overflows_spec, size_add_overflows_spec by (unfold in_u64; lia).
  rewrite (proj2 (Z.leb_gt _ _)) by lia. rewrite (proj2 (Z.leb_gt _ _)) by lia. cbn [orb].
  replace (32 + chunk_count_of bytes * 4) with (table_end_of bytes) by (unfold table_end_of; lia).
  destruct (Z.ltb_spec (word bytes 24) (table_end_of bytes)).
  { apply outcome_report; [done|left]. intros []. lia. }
  rewrite size_multiply_overflows_spec by (unfold in_u64, sizeof_DXBCDocumentChunk; lia).
  rewrite (proj2 (Z.leb_gt _ _)) by (unfold sizeof_DXBCDocumentChunk; lia).
  apply outcome_ret. split; [by rewrite Hver, Hsz|]. split; lia || done.
Qed.

Lemma disjoint_chunks_total cs :
  Forall (read_chunk bytes) cs -> ForallOrdPairs chunks_disjoint cs -> size bytes < 2 ^ 32 ->
  total_size cs <= size bytes.
Proof.
  intros Hcs Hdis Hs. apply disjoint_total; [apply size_nonneg|done|].
  eapply list.Forall_impl; [exact Hcs|]. intros c Hc.
  pose proof (read_chunk_size bytes _ Hc). destruct Hc as (_ & [] & Ho). lia.
Qed.

(** The parser accepts what the format allows and builds the exact document;
    else it reports. *)
Lemma document_parse_refines old :
  outcome (dxbc_document_parse (Some old) (Some bytes))
    (fun d => represents bytes d /\ valid_container bytes)
    (failure (~ valid_container bytes)).
Proof.
  unfold dxbc_document_parse. apply outcome_bind.
  eapply outcome_mono; [apply parse_header_spec| |].
  2:{ intros e He. eapply failure_mono; [done|]. by intros Hno []. }
  intros h [-> Hheader]. cbv beta iota.
  pose proof (valid_header_size Hheader) as Hsize. pose proof (header_size _ Hheader).
  destruct (mem_alloc (size bytes)) eqn:Hmem; cbn [negb].
  2:{ apply outcome_report; [done|right]. left. eauto. }
  rewrite view_ok by lia. mstep. rewrite view_ok by lia. mstep.
  apply outcome_if.
  { intros [_ Hm%negb_true_iff]%andb_true_iff.
    apply outcome_report; [done|right]. left. eauto. }
  intros _. apply outcome_bind. eapply outcome_mono; [by apply chunk_loop_spec| |].
  2:{ intros e He. eapply failure_mono; [done|]. by intros Hno []. }
  intros cs (-> & Hcs & Hdis).
  assert (Htable : valid_table bytes).
  { split; [|done]. eapply list.Forall_impl; [exact Hcs|]. by intros c (_ & Hv & _). }
  apply outcome_bind. rewrite verify_hash_eq.
  assert (Hh : hashable bytes = true).
  { unfold hashable, declared_size. fold (word bytes 24).
    rewrite (header_declared _ Hheader). lia. }
  rewrite Hh. cbn [andb outcome].
  destruct (bytes_eqb _ _) eqn:Hhash; cbn [negb].
  2:{ apply outcome_report; [done|left]. intros [_ _ Hv _]. unfold valid_hash in Hv.
      apply bytes_eqb_eq in Hv. congruence. }
  apply bytes_eqb_eq in Hhash.
  eapply outcome_mono; [apply (parse_executables_spec bytes Hsize); try done| |].
  - cbn. unfold doc_instruction_count. cbn. pose proof (disjoint_chunks_total _ Hcs Hdis Hsize). lia.
  - cbn. unfold doc_diagnostic_count. cbn. pose proof (disjoint_chunks_total _ Hcs Hdis Hsize). lia.
  - intros d (l & r & Hp & c & c' & ->). split; [by split|].
    split; [done..|]. eauto.
  - intros e He. eapply failure_mono; [done|]. by intros Hno [].
Qed.
End parse_document.

(** * Properties of the document API *)

(** The concrete parse the witnesses apply the properties to. *)
Abbreviation parse_sample :=
  (@dxbc_document_parse unity_common_ref sample_stack (Some dxbc_document_init)
     (Some sample_bytes)).

Section document_properties.
Context `{U : UnityCommon} {HU : UnityCommonSpec U} {D : DigestStack}.
Implicit Types (bytes : list byte) (old d : DXBCDocument).

Lemma parse_Ret old bytes d :
  dxbc_document_parse (Some old) (Some bytes) = Ret d ->
  represents bytes d /\ valid_container bytes.
Proof. exact (outcome_Ret_inv _ _ _ _ (document_parse_refines bytes old)). Qed.

(** C1: whatever [dxbc_document_parse] returns is the exact view of the input:
    owned bytes, header fields, the chunks of the table, the instruction list
    and the stage reports of every executable chunk are those the container
    format defines, and the input is a valid container. *)
Theorem dxbc_document_parse_exact old bytes d :
  dxbc_document_parse (Some old) (Some bytes) = Ret d ->
  represents bytes d /\ valid_container bytes.
Proof. apply parse_Ret. Qed.

(** C16: with memory available, the parser accepts exactly the valid containers. *)
Theorem dxbc_document_parse_accepts_iff `{!MemoryAvailable U} old bytes :
  (exists d, dxbc_document_parse (Some old) (Some bytes) = Ret d) <-> valid_container bytes.
Proof.
  pose proof (document_parse_refines bytes old) as Hp. split.
  - intros [d Hd]. rewrite Hd in Hp. apply Hp.
  - intros Hv. destruct (dxbc_document_parse _ _) as [d|e|]; [by exists d| |done].
    destruct Hp as (_ & _ & [Hno|Hm]); [done|].
    by apply memory_available_not_failed in Hm.
Qed.

(** C25: on every input, NULL arguments included, the parser terminates and
    reads no byte outside its buffers. *)
Theorem dxbc_document_parse_defined (document : option DXBCDocument) (data : option (list byte)) :
  dxbc_document_parse document data <> Undef.
Proof.
  destruct document as [old|], data as [bytes|]; try done.
  eapply outcome_defined, document_parse_refines.
Qed.

(** C36: a rejection carries a code other than OK with the kind of that code,
    and is caused by an invalid container or a refused allocation. *)
Theorem dxbc_document_parse_rejects old bytes e :
  dxbc_document_parse (Some old) (Some bytes) = Fail e ->
  diag_kind e = diagnostic_kind (diag_code e) /\ diag_code e <> DXBC_DOCUMENT_OK /\
  (~ valid_container bytes \/ memory_failed).
Proof. exact (outcome_Fail_inv _ _ _ _ (document_parse_refines bytes old)). Qed.

(** C29: parse followed by exact serialisation is the identity on the bytes it
    accepts, and parsing the result again gives the same document. *)
Theorem dxbc_document_roundtrip `{!MemoryAvailable U} old old' bytes d :
  dxbc_document_parse (Some old) (Some bytes) = Ret d ->
  dxbc_document_serialize_exact true (Some d) = Ret bytes /\
  dxbc_document_parse (Some old') (Some bytes) = Ret d.
Proof.
  intros Hd. split; [|exact Hd]. destruct (parse_Ret _ _ _ Hd) as [Hrep Hv].
  pose proof (header_size _ (container_header _ Hv)).
  unfold dxbc_document_serialize_exact, doc_owned_size, fourcc_equal. cbn [negb].
  rewrite (rep_owned _ _ Hrep), (rep_declared _ _ Hrep), (rep_magic _ _ Hrep),
    (header_magic _ (container_header _ Hv)), Z.eqb_refl, mem_alloc_ok.
  rewrite (proj2 (Z.eqb_neq _ _)) by lia. by rewrite (proj2 (bytes_eqb_eq _ _)).
Qed.

(** The chunk views of a parsed document are aligned, lie after the chunk
    table and inside the container, are pairwise disjoint, and each is its
    fourcc, its little-endian payload size and its payload. *)
Theorem dxbc_document_chunks_separate old bytes d i c :
  dxbc_document_parse (Some old) (Some bytes) = Ret d -> doc_chunks d !! i = Some c ->
  chunk_table_index c = Z.of_nat i /\ chunk_offset c mod 4 = 0 /\
  32 + 4 * doc_chunk_count d <= chunk_offset c /\ chunk_end c <= doc_declared_size d /\
  chunk_raw_bytes c = chunk_fourcc c ++ le_bytes 4 (chunk_payload_size c) ++ chunk_payload_bytes c /\
  (forall j c', doc_chunks d !! j = Some c' -> i <> j -> chunks_disjoint c c').
Proof.
  intros Hd Hc. destruct (parse_Ret _ _ _ Hd) as [Hrep Hv].
  pose proof (container_header _ Hv) as Hh. pose proof (container_table _ Hv) as Ht.
  rewrite (rep_chunks _ _ Hrep) in *. rewrite (rep_chunk_count _ _ Hrep), (rep_declared _ _ Hrep).
  destruct (table_chunk _ Hh Ht _ _ Hc) as (Heq & Ho & Hp & [Hal Haft _ Hend]).
  split; [by rewrite Heq|]. split; [done|]. split; [done|]. split; [done|].
  split; [by eapply chunk_raw_split|]. intros j c' Hc' Hne. by eapply table_disjoint.
Qed.

(** The instruction views of an executable chunk, in order, are its payload
    after the version and length words, with no byte skipped or shared. *)
Theorem dxbc_document_instructions_tile old bytes d c :
  dxbc_document_parse (Some old) (Some bytes) = Ret d ->
  c ∈ doc_chunks d -> chunk_kind c = DXBC_DOCUMENT_CHUNK_EXECUTABLE ->
  (filter (fun ins => ins_chunk_index ins = chunk_table_index c) (doc_instructions d)
     ≫= ins_raw_bytes) = drop 8 (chunk_payload_bytes c).
Proof.
  intros Hd Hc Hk. destruct (parse_Ret _ _ _ Hd) as [Hrep Hv].
  rewrite (rep_chunks _ _ Hrep) in Hc. pose proof (rep_chunk_offsets _ Hv) as Hoff.
  assert (Hview : 0 <= chunk_offset c /\ chunk_payload_bytes c =
            slice bytes (chunk_offset c + 8) (chunk_payload_size c)).
  { apply list_elem_of_lookup_1 in Hc as [i Hc].
    by destruct (table_chunk _ (container_header _ Hv) (container_table _ Hv) _ _ Hc)
      as (-> & ? & _). }
  destruct Hview as [Ho Hp]. apply (program_bytes bytes c); [done..|].
  eapply programs_filter; [by apply rep_programs|done|apply chunks_of_indices|done|done].
Qed.

(** C40: [dxbc_document_instruction_token] on an instruction of a parsed document
    is the container's word at that token, and [false] past the last token. *)
Theorem dxbc_document_instruction_token_reads old bytes d ins k :
  dxbc_document_parse (Some old) (Some bytes) = Ret d -> ins ∈ doc_instructions d -> 0 <= k ->
  dxbc_document_instruction_token ins k =
    if k <? ins_token_count ins then Ret (word bytes (ins_byte_offset ins + 4 * k)) else Fail tt.
Proof.
  intros Hd Hins Hk. destruct (parse_Ret _ _ _ Hd) as [Hrep Hv].
  destruct (rep_instruction _ _ Hrep Hv _ Hins) as (Ho & Hn & Hend & Hraw).
  pose proof (valid_header_size bytes (container_header _ Hv)).
  unfold dxbc_document_instruction_token. rewrite Hraw.
  destruct (Z.leb_spec (ins_token_count ins) k), (Z.ltb_spec k (ins_token_count ins));
    try lia; [done|]. wrap.
  rewrite read_u32_le_ok by (rewrite ?size_slice; lia).
  fold (word (slice bytes (ins_byte_offset ins) (4 * ins_token_count ins)) (k * 4)).
  rewrite word_slice by lia. by rewrite (Z.mul_comm k).
Qed.
End document_properties.

(** * Witnesses *)

Section witnesses.
Local Existing Instances unity_common_ref unity_common_ref_spec unity_common_ref_memory sample_stack.

Lemma dxbc_document_parse_exact_witness :
  represents sample_bytes sample_document /\ valid_container sample_bytes.
Proof. exact (dxbc_document_parse_exact dxbc_document_init _ _ sample_parse). Defined.

Lemma dxbc_document_parse_accepts_iff_witness :
  (exists d, dxbc_document_parse (Some dxbc_document_init) (Some sample_bytes) = Ret d) <->
  valid_container sample_bytes.
Proof. exact (dxbc_document_parse_accepts_iff dxbc_document_init sample_bytes). Defined.

Lemma dxbc_document_parse_defined_witness :
  dxbc_document_parse (Some dxbc_document_init) (Some (take 60 sample_bytes)) <> Undef.
Proof.
  exact (dxbc_document_parse_defined (Some dxbc_document_init) (Some (take 60 sample_bytes))).
Defined.

(** A truncated container is rejected with a size mismatch. *)
Lemma dxbc_document_parse_rejects_witness :
  let e := mk_diagnostic DXBC_DOCUMENT_DECLARED_SIZE_MISMATCH 24 UINT32_MAX UINT32_MAX 108 100 in
  diag_kind e = diagnostic_kind (diag_code e) /\ diag_code e <> DXBC_DOCUMENT_OK /\
  (~ valid_container (take 100 sample_bytes) \/ memory_failed).
Proof.
  apply (dxbc_document_parse_rejects dxbc_document_init (take 100 sample_bytes)).
  vm_compute. reflexivity.
Defined.

Lemma dxbc_document_roundtrip_witness :
  dxbc_document_serialize_exact true (Some sample_document) = Ret sample_bytes /\
  dxbc_document_parse (Some sample_document) (Some sample_bytes) = Ret sample_document.
Proof.
  exact (dxbc_document_roundtrip dxbc_document_init sample_document _ _ sample_parse).
Defined.

Definition sample_shex : DXBCDocumentChunk := Eval vm_compute in chunk_at sample_bytes 0.

Lemma dxbc_document_chunks_separate_witness :
  chunk_table_index sample_shex = 0 /\ chunk_offset sample_shex mod 4 = 0 /\
  32 + 4 * doc_chunk_count sample_document <= chunk_offset sample_shex /\
  chunk_end sample_shex <= doc_declared_size sample_document /\
  chunk_raw_bytes sample_shex = chunk_fourcc sample_shex ++
    le_bytes 4 (chunk_payload_size sample_shex) ++ chunk_payload_bytes sample_shex /\
  (forall j c', doc_chunks sample_document !! j = Some c' -> 0%nat <> j ->
     chunks_disjoint sample_shex c').
Proof.
  exact (dxbc_document_chunks_separate dxbc_document_init _ _ 0 sample_shex sample_parse eq_refl).
Defined.

Lemma dxbc_document_instructions_tile_witness :
  (filter (fun ins => ins_chunk_index ins = 0) (doc_instructions sample_document)
     ≫= ins_raw_bytes) = drop 8 (chunk_payload_bytes sample_shex).
Proof.
  apply (dxbc_document_instructions_tile dxbc_document_init _ _ sample_shex sample_parse).
  - by left.
  - reflexivity.
Defined.

Definition sample_ret : DXBCDocumentInstruction :=
  Eval vm_compute in
    List.nth 3 (doc_instructions sample_document) (instruction_at [] 0 0 0 0 0).

Lemma dxbc_document_instruction_token_reads_witness :
  dxbc_document_instruction_token sample_ret 0 = Ret (word sample_bytes 92).
Proof.
  apply (dxbc_document_instruction_token_reads dxbc_document_init _ _ sample_ret 0 sample_parse).
  - do 3 right. by left.
  - lia.
Defined.
End witnesses.
