(* ===== verification/StageContract.v ===== *)
(** The stage contract of an executable chunk: [include/dxbc/dxbc_stage_contract.h]
    and [src/dxbc/dxbc_stage_contract.c], the operations. *)

From S2P Require Import Prelude UnityCommon Hash ShaderStage Document.

(** * Data *)

Inductive DXBCStageContractStatus :=
| DXBC_STAGE_CONTRACT_OK
| DXBC_STAGE_CONTRACT_INVALID_ARGUMENT
| DXBC_STAGE_CONTRACT_OUT_OF_MEMORY
| DXBC_STAGE_CONTRACT_MISSING_EXECUTABLE
| DXBC_STAGE_CONTRACT_MULTIPLE_EXECUTABLES
| DXBC_STAGE_CONTRACT_INVALID_VERSION_TOKEN
| DXBC_STAGE_CONTRACT_UNSUPPORTED_PROGRAM
| DXBC_STAGE_CONTRACT_INVALID_DECLARATION_LENGTH
| DXBC_STAGE_CONTRACT_INVALID_DECLARATION_BITS
| DXBC_STAGE_CONTRACT_INVALID_DECLARATION_VALUE
| DXBC_STAGE_CONTRACT_DUPLICATE_DECLARATION
| DXBC_STAGE_CONTRACT_DECLARATION_ORDER
| DXBC_STAGE_CONTRACT_DECLARATION_STAGE_MISMATCH
| DXBC_STAGE_CONTRACT_MISSING_DECLARATION
| DXBC_STAGE_CONTRACT_PHASE_ORDER
| DXBC_STAGE_CONTRACT_CONTAINER_MISMATCH.

Record DXBCStageContractDiagnostic := {
  status : DXBCStageContractStatus;
  status_chunk_index : Z;
  status_instruction_index : Z;
  status_opcode : Z;
  status_expected : Z;
  status_actual : Z;
}.

(** Enumerations of declaration operands, as their token values. *)
Definition DXBC_INPUT_PRIMITIVE_POINT := 1.
Definition DXBC_INPUT_PRIMITIVE_LINE := 2.
Definition DXBC_INPUT_PRIMITIVE_TRIANGLE := 3.
Definition DXBC_INPUT_PRIMITIVE_LINE_ADJACENCY := 6.
Definition DXBC_INPUT_PRIMITIVE_TRIANGLE_ADJACENCY := 7.
Definition DXBC_OUTPUT_TOPOLOGY_POINT_LIST := 1.
Definition DXBC_OUTPUT_TOPOLOGY_LINE_STRIP := 3.
Definition DXBC_OUTPUT_TOPOLOGY_TRIANGLE_STRIP := 5.
Definition DXBC_TESSELLATOR_DOMAIN_ISOLINE := 1.
Definition DXBC_TESSELLATOR_DOMAIN_QUAD := 3.
Definition DXBC_TESSELLATOR_PARTITIONING_INTEGER := 1.
Definition DXBC_TESSELLATOR_PARTITIONING_FRACTIONAL_EVEN := 4.
Definition DXBC_TESSELLATOR_OUTPUT_POINT := 1.
Definition DXBC_TESSELLATOR_OUTPUT_TRIANGLE_CCW := 4.
Definition DXBC_SYNC_UAV_MEMORY_GLOBAL := 8.

Inductive DXBCHullPhaseKind :=
| DXBC_HULL_PHASE_CONTROL_POINT
| DXBC_HULL_PHASE_FORK
| DXBC_HULL_PHASE_JOIN.

#[global] Instance hull_phase_kind_eq_dec : EqDecision DXBCHullPhaseKind.
Proof. solve_decision. Defined.

Definition hull_phase_kind_value (kind : DXBCHullPhaseKind) : Z :=
  match kind with
  | DXBC_HULL_PHASE_CONTROL_POINT => 0
  | DXBC_HULL_PHASE_FORK => 1
  | DXBC_HULL_PHASE_JOIN => 2
  end.

Inductive DXBCGeometryEffectKind :=
| DXBC_GEOMETRY_EFFECT_APPEND
| DXBC_GEOMETRY_EFFECT_RESTART_STRIP.

#[global] Instance geometry_effect_kind_eq_dec : EqDecision DXBCGeometryEffectKind.
Proof. solve_decision. Defined.

Record DXBCGeometryEffectContract := {
  effect_kind : DXBCGeometryEffectKind;
  effect_instruction_index : Z;
  effect_stream_id : Z;
  effect_explicit_stream : bool;
}.

Record DXBCHullPhaseContract := {
  phase_kind : DXBCHullPhaseKind;
  marker_instruction_index : Z;
  phase_first_instruction_index : Z;
  phase_end_instruction_index : Z;
  instance_count_declared : bool;
  instance_count : Z;
}.

#[export] Instance eta_DXBCHullPhaseContract : Eta DXBCHullPhaseContract := fun r => {|
  phase_kind := phase_kind r; marker_instruction_index := marker_instruction_index r;
  phase_first_instruction_index := phase_first_instruction_index r;
  phase_end_instruction_index := phase_end_instruction_index r;
  instance_count_declared := instance_count_declared r; instance_count := instance_count r |}.
#[export] Instance set_phase_end_instruction_index : Setter phase_end_instruction_index := ltac:(derive_setter).
#[export] Instance set_instance_count_declared : Setter instance_count_declared := ltac:(derive_setter).
#[export] Instance set_instance_count : Setter instance_count := ltac:(derive_setter).

Record DXBCThreadGroupSharedMemoryContract := {
  memory_instruction_index : Z;
  memory_register_id : Z;
  memory_structured : bool;
  memory_byte_stride : Z;
  memory_element_count : Z;
  memory_byte_count : Z;
}.

Record DXBCMemoryBarrierContract := {
  barrier_instruction_index : Z;
  barrier_flags : Z;
}.

(** A C [float], by its bits. *)
Definition float32 := Z.

(** The counts of the C arrays are the lengths of the lists. *)
Record DXBCStageContract := {
  version_token : Z;
  program_type : DXBCProgramType;
  shader_model_major : Z;
  shader_model_minor : Z;
  executable_chunk_index : Z;
  first_instruction_index : Z;
  end_instruction_index : Z;
  has_input_primitive : bool;
  input_primitive : Z;
  has_output_topology : bool;
  output_topology : Z;
  output_topology_stream_mask : Z;
  has_max_output_vertex_count : bool;
  max_output_vertex_count : Z;
  has_geometry_instance_count : bool;
  geometry_instance_count : Z;
  declared_stream_mask : Z;
  referenced_stream_mask : Z;
  geometry_effects : list DXBCGeometryEffectContract;
  geometry_effect_capacity : Z;
  has_input_control_point_count : bool;
  input_control_point_count : Z;
  has_output_control_point_count : bool;
  output_control_point_count : Z;
  has_tessellator_domain : bool;
  tessellator_domain : Z;
  has_tessellator_partitioning : bool;
  tessellator_partitioning : Z;
  has_tessellator_output_primitive : bool;
  tessellator_output_primitive : Z;
  has_max_tessellation_factor : bool;
  max_tessellation_factor_bits : Z;
  max_tessellation_factor : float32;
  hull_phases : list DXBCHullPhaseContract;
  hull_phase_capacity : Z;
  has_thread_group_size : bool;
  thread_group_size : list Z;
  thread_group_declaration_instruction_index : Z;
  thread_group_shared_memory_bytes : Z;
  thread_group_shared_memory : list DXBCThreadGroupSharedMemoryContract;
  thread_group_shared_memory_capacity : Z;
  memory_barriers : list DXBCMemoryBarrierContract;
  memory_barrier_capacity : Z;
}.

#[export] Instance eta_DXBCStageContract : Eta DXBCStageContract := fun r => {|
  version_token := version_token r; program_type := program_type r;
  shader_model_major := shader_model_major r; shader_model_minor := shader_model_minor r;
  executable_chunk_index := executable_chunk_index r;
  first_instruction_index := first_instruction_index r;
  end_instruction_index := end_instruction_index r;
  has_input_primitive := has_input_primitive r; input_primitive := input_primitive r;
  has_output_topology := has_output_topology r; output_topology := output_topology r;
  output_topology_stream_mask := output_topology_stream_mask r;
  has_max_output_vertex_count := has_max_output_vertex_count r;
  max_output_vertex_count := max_output_vertex_count r;
  has_geometry_instance_count := has_geometry_instance_count r;
  geometry_instance_count := geometry_instance_count r;
  declared_stream_mask := declared_stream_mask r;
  referenced_stream_mask := referenced_stream_mask r; geometry_effects := geometry_effects r;
  geometry_effect_capacity := geometry_effect_capacity r;
  has_input_control_point_count := has_input_control_point_count r;
  input_control_point_count := input_control_point_count r;
  has_output_control_point_count := has_output_control_point_count r;
  output_control_point_count := output_control_point_count r;
  has_tessellator_domain := has_tessellator_domain r;
  tessellator_domain := tessellator_domain r;
  has_tessellator_partitioning := has_tessellator_partitioning r;
  tessellator_partitioning := tessellator_partitioning r;
  has_tessellator_output_primitive := has_tessellator_output_primitive r;
  tessellator_output_primitive := tessellator_output_primitive r;
  has_max_tessellation_factor := has_max_tessellation_factor r;
  max_tessellation_factor_bits := max_tessellation_factor_bits r;
  max_tessellation_factor := max_tessellation_factor r; hull_phases := hull_phases r;
  hull_phase_capacity := hull_phase_capacity r;
  has_thread_group_size := has_thread_group_size r; thread_group_size := thread_group_size r;
  thread_group_declaration_instruction_index := thread_group_declaration_instruction_index r;
  thread_group_shared_memory_bytes := thread_group_shared_memory_bytes r;
  thread_group_shared_memory := thread_group_shared_memory r;
  thread_group_shared_memory_capacity := thread_group_shared_memory_capacity r;
  memory_barriers := memory_barriers r; memory_barrier_capacity := memory_barrier_capacity r |}.
#[export] Instance set_version_token : Setter version_token := ltac:(derive_setter).
#[export] Instance set_program_type : Setter program_type := ltac:(derive_setter).
#[export] Instance set_shader_model_major : Setter shader_model_major := ltac:(derive_setter).
#[export] Instance set_shader_model_minor : Setter shader_model_minor := ltac:(derive_setter).
#[export] Instance set_executable_chunk_index : Setter executable_chunk_index := ltac:(derive_setter).
#[export] Instance set_first_instruction_index : Setter first_instruction_index := ltac:(derive_setter).
#[export] Instance set_end_instruction_index : Setter end_instruction_index := ltac:(derive_setter).
#[export] Instance set_has_input_primitive : Setter has_input_primitive := ltac:(derive_setter).
#[export] Instance set_input_primitive : Setter input_primitive := ltac:(derive_setter).
#[export] Instance set_has_output_topology : Setter has_output_topology := ltac:(derive_setter).
#[export] Instance set_output_topology : Setter output_topology := ltac:(derive_setter).
#[export] Instance set_output_topology_stream_mask : Setter output_topology_stream_mask := ltac:(derive_setter).
#[export] Instance set_has_max_output_vertex_count : Setter has_max_output_vertex_count := ltac:(derive_setter).
#[export] Instance set_max_output_vertex_count : Setter max_output_vertex_count := ltac:(derive_setter).
#[export] Instance set_has_geometry_instance_count : Setter has_geometry_instance_count := ltac:(derive_setter).
#[export] Instance set_geometry_instance_count : Setter geometry_instance_count := ltac:(derive_setter).
#[export] Instance set_declared_stream_mask : Setter declared_stream_mask := ltac:(derive_setter).
#[export] Instance set_referenced_stream_mask : Setter referenced_stream_mask := ltac:(derive_setter).
#[export] Instance set_geometry_effects : Setter geometry_effects := ltac:(derive_setter).
#[export] Instance set_geometry_effect_capacity : Setter geometry_effect_capacity := ltac:(derive_setter).
#[export] Instance set_has_input_control_point_count : Setter has_input_control_point_count := ltac:(derive_setter).
#[export] Instance set_input_control_point_count : Setter input_control_point_count := ltac:(derive_setter).
#[export] Instance set_has_output_control_point_count : Setter has_output_control_point_count := ltac:(derive_setter).
#[export] Instance set_output_control_point_count : Setter output_control_point_count := ltac:(derive_setter).
#[export] Instance set_has_tessellator_domain : Setter has_tessellator_domain := ltac:(derive_setter).
#[export] Instance set_tessellator_domain : Setter tessellator_domain := ltac:(derive_setter).
#[export] Instance set_has_tessellator_partitioning : Setter has_tessellator_partitioning := ltac:(derive_setter).
#[export] Instance set_tessellator_partitioning : Setter tessellator_partitioning := ltac:(derive_setter).
#[export] Instance set_has_tessellator_output_primitive : Setter has_tessellator_output_primitive := ltac:(derive_setter).
#[export] Instance set_tessellator_output_primitive : Setter tessellator_output_primitive := ltac:(derive_setter).
#[export] Instance set_has_max_tessellation_factor : Setter has_max_tessellation_factor := ltac:(derive_setter).
#[export] Instance set_max_tessellation_factor_bits : Setter max_tessellation_factor_bits := ltac:(derive_setter).
#[export] Instance set_max_tessellation_factor : Setter max_tessellation_factor := ltac:(derive_setter).
#[export] Instance set_hull_phases : Setter hull_phases := ltac:(derive_setter).
#[export] Instance set_hull_phase_capacity : Setter hull_phase_capacity := ltac:(derive_setter).
#[export] Instance set_has_thread_group_size : Setter has_thread_group_size := ltac:(derive_setter).
#[export] Instance set_thread_group_size : Setter thread_group_size := ltac:(derive_setter).
#[export] Instance set_thread_group_declaration_instruction_index : Setter thread_group_declaration_instruction_index := ltac:(derive_setter).
#[export] Instance set_thread_group_shared_memory_bytes : Setter thread_group_shared_memory_bytes := ltac:(derive_setter).
#[export] Instance set_thread_group_shared_memory : Setter thread_group_shared_memory := ltac:(derive_setter).
#[export] Instance set_thread_group_shared_memory_capacity : Setter thread_group_shared_memory_capacity := ltac:(derive_setter).
#[export] Instance set_memory_barriers : Setter memory_barriers := ltac:(derive_setter).
#[export] Instance set_memory_barrier_capacity : Setter memory_barrier_capacity := ltac:(derive_setter).

Definition geometry_effect_count (c : DXBCStageContract) : Z :=
  Z.of_nat (length (geometry_effects c)).
Definition hull_phase_count (c : DXBCStageContract) : Z := Z.of_nat (length (hull_phases c)).
Definition thread_group_shared_memory_count (c : DXBCStageContract) : Z :=
  Z.of_nat (length (thread_group_shared_memory c)).
Definition memory_barrier_count (c : DXBCStageContract) : Z :=
  Z.of_nat (length (memory_barriers c)).

(** [sizeof] on an LP64 target. *)
Definition sizeof_DXBCGeometryEffectContract : Z := 12.
Definition sizeof_DXBCHullPhaseContract : Z := 24.
Definition sizeof_DXBCThreadGroupSharedMemoryContract : Z := 24.
Definition sizeof_DXBCMemoryBarrierContract : Z := 8.

(** [dxbc_stage_contract_init] *)
Definition dxbc_stage_contract_init : DXBCStageContract := {|
  version_token := 0; program_type := DXBC_PROGRAM_TYPE_INVALID; shader_model_major := 0;
  shader_model_minor := 0; executable_chunk_index := UINT32_MAX; first_instruction_index := 0;
  end_instruction_index := 0; has_input_primitive := false; input_primitive := 0;
  has_output_topology := false; output_topology := 0; output_topology_stream_mask := 0;
  has_max_output_vertex_count := false; max_output_vertex_count := 0;
  has_geometry_instance_count := false; geometry_instance_count := 0;
  declared_stream_mask := 0; referenced_stream_mask := 0; geometry_effects := [];
  geometry_effect_capacity := 0; has_input_control_point_count := false;
  input_control_point_count := 0; has_output_control_point_count := false;
  output_control_point_count := 0; has_tessellator_domain := false; tessellator_domain := 0;
  has_tessellator_partitioning := false; tessellator_partitioning := 0;
  has_tessellator_output_primitive := false; tessellator_output_primitive := 0;
  has_max_tessellation_factor := false; max_tessellation_factor_bits := 0;
  max_tessellation_factor := 0; hull_phases := []; hull_phase_capacity := 0;
  has_thread_group_size := false; thread_group_size := [0; 0; 0];
  thread_group_declaration_instruction_index := 0; thread_group_shared_memory_bytes := 0;
  thread_group_shared_memory := []; thread_group_shared_memory_capacity := 0;
  memory_barriers := []; memory_barrier_capacity := 0 |}.

(** [dxbc_stage_contract_free]: the reset contract, and the sizes handed to
    [mem_free] in order (zero for an array that was never allocated). *)
Definition dxbc_stage_contract_free (contract : DXBCStageContract) : DXBCStageContract * list Z :=
  (dxbc_stage_contract_init,
   [geometry_effect_capacity contract * sizeof_DXBCGeometryEffectContract;
    hull_phase_capacity contract * sizeof_DXBCHullPhaseContract;
    thread_group_shared_memory_capacity contract * sizeof_DXBCThreadGroupSharedMemoryContract;
    memory_barrier_capacity contract * sizeof_DXBCMemoryBarrierContract]).

(** * Opcodes *)

Definition OP_CUT := 9.
Definition OP_EMIT := 19.
Definition OP_RET := 62.
Definition OP_DCL_IMMEDIATE_CONSTANT_BUFFER := 53.
Definition OP_DCL_RESOURCE := 88.
Definition OP_DCL_GLOBAL_FLAGS := 106.
Definition OP_HS_DECLS := 113.
Definition OP_HS_CONTROL_POINT_PHASE := 114.
Definition OP_HS_FORK_PHASE := 115.
Definition OP_HS_JOIN_PHASE := 116.
Definition OP_EMIT_STREAM := 117.
Definition OP_CUT_STREAM := 118.
Definition OP_DCL_STREAM := 143.
Definition OP_DCL_INPUT_CONTROL_POINT_COUNT := 147.
Definition OP_DCL_OUTPUT_CONTROL_POINT_COUNT := 148.
Definition OP_DCL_TESSELLATOR_DOMAIN := 149.
Definition OP_DCL_TESSELLATOR_PARTITIONING := 150.
Definition OP_DCL_TESSELLATOR_OUTPUT_PRIMITIVE := 151.
Definition OP_DCL_HS_MAX_TESS_FACTOR := 152.
Definition OP_DCL_HS_FORK_PHASE_INSTANCE_COUNT := 153.
Definition OP_DCL_HS_JOIN_PHASE_INSTANCE_COUNT := 154.
Definition OP_DCL_THREAD_GROUP := 155.
Definition OP_DCL_TGSM_RAW := 159.
Definition OP_DCL_TGSM_STRUCTURED := 160.
Definition OP_SYNC := 190.
Definition OP_DCL_GS_INSTANCE_COUNT := 206.
Definition OP_DCL_RESOURCE_STRUCTURED := 162.
Definition OP_DCL_OUTPUT_TOPOLOGY := 92.
Definition OP_DCL_INPUT_PRIMITIVE := 93.
Definition OP_DCL_MAX_OUTPUT_VERTEX_COUNT := 94.

Definition NO_INSTRUCTION : Z := UINT32_MAX.

(** The constants of the opcode dispatch, unfolded at once. *)
Ltac opcodes :=
  unfold OP_CUT, OP_EMIT, OP_RET, OP_DCL_IMMEDIATE_CONSTANT_BUFFER, OP_DCL_RESOURCE,
    OP_DCL_GLOBAL_FLAGS, OP_HS_DECLS, OP_HS_CONTROL_POINT_PHASE, OP_HS_FORK_PHASE,
    OP_HS_JOIN_PHASE, OP_EMIT_STREAM, OP_CUT_STREAM, OP_DCL_STREAM,
    OP_DCL_INPUT_CONTROL_POINT_COUNT, OP_DCL_OUTPUT_CONTROL_POINT_COUNT,
    OP_DCL_TESSELLATOR_DOMAIN, OP_DCL_TESSELLATOR_PARTITIONING,
    OP_DCL_TESSELLATOR_OUTPUT_PRIMITIVE, OP_DCL_HS_MAX_TESS_FACTOR,
    OP_DCL_HS_FORK_PHASE_INSTANCE_COUNT, OP_DCL_HS_JOIN_PHASE_INSTANCE_COUNT,
    OP_DCL_THREAD_GROUP, OP_DCL_TGSM_RAW, OP_DCL_TGSM_STRUCTURED, OP_SYNC,
    OP_DCL_GS_INSTANCE_COUNT, OP_DCL_RESOURCE_STRUCTURED, OP_DCL_OUTPUT_TOPOLOGY,
    OP_DCL_INPUT_PRIMITIVE, OP_DCL_MAX_OUTPUT_VERTEX_COUNT in *.

Definition dxbc_geometry_input_vertex_count (primitive : Z) : Z :=
  if primitive =? DXBC_INPUT_PRIMITIVE_POINT then 1 else
  if primitive =? DXBC_INPUT_PRIMITIVE_LINE then 2 else
  if primitive =? DXBC_INPUT_PRIMITIVE_TRIANGLE then 3 else
  if primitive =? DXBC_INPUT_PRIMITIVE_LINE_ADJACENCY then 4 else
  if primitive =? DXBC_INPUT_PRIMITIVE_TRIANGLE_ADJACENCY then 6 else 0.

(** * Reports and tokens *)

(** [return fail(...)] *)
Definition fail {A} (st : DXBCStageContractStatus) (chunk_index instruction_index opcode : Z)
    (expected actual : Z) : res DXBCStageContractDiagnostic A :=
  Fail {| status := st; status_chunk_index := chunk_index;
          status_instruction_index := instruction_index; status_opcode := opcode;
          status_expected := expected; status_actual := actual |}.

(** [fail] at an instruction, as most calls have it. *)
Definition fail_at {A} (instruction : DXBCDocumentInstruction) (st : DXBCStageContractStatus)
    (expected actual : Z) : res DXBCStageContractDiagnostic A :=
  fail st (ins_chunk_index instruction) (ins_index instruction) (ins_opcode instruction)
    expected actual.

(** The value of a finite [float] times [2^149], an integer: what the comparisons
    with [1.0f] and [64.0f] compare. *)
Definition float_scaled (bits : float32) : Z :=
  let exponent := Z.land (Z.shiftr bits 23) 0xff in
  let fraction := Z.land bits 0x7fffff in
  let magnitude :=
    if exponent =? 0 then fraction else Z.shiftl (0x800000 + fraction) (exponent - 1) in
  if Z.testbit bits 31 then - magnitude else magnitude.

Definition float_one : float32 := 0x3f800000.
Definition float_sixty_four : float32 := 0x42800000.

Section decode.
Context `{UnityCommon}.
Implicit Types (instruction : DXBCDocumentInstruction) (contract : DXBCStageContract).

Definition instruction_token instruction (index : Z) : res DXBCStageContractDiagnostic Z :=
  match dxbc_document_instruction_token instruction index with
  | Ret token => Ret token
  | Fail _ => fail_at instruction DXBC_STAGE_CONTRACT_INVALID_DECLARATION_LENGTH
                (u64 (index + 1)) (ins_token_count instruction)
  | Undef => Undef
  end.

(** The control bits of a declaration of the expected length. *)
Definition declaration_header instruction (expected_length : Z)
    : res DXBCStageContractDiagnostic Z :=
  token ← instruction_token instruction 0;
  if ins_uses_customdata_length instruction ||
     negb (ins_extended_opcode_token_count instruction =? 0) ||
     negb (ins_token_count instruction =? expected_length) ||
     negb (ins_encoded_length instruction =? expected_length) then
    fail_at instruction DXBC_STAGE_CONTRACT_INVALID_DECLARATION_LENGTH expected_length
      (ins_token_count instruction)
  else if negb (Z.land token 0x80000000 =? 0) then
    fail_at instruction DXBC_STAGE_CONTRACT_INVALID_DECLARATION_BITS 0 (Z.land token 0x80000000)
  else Ret (Z.land (Z.shiftr token 11) 0x1fff).

Definition declaration_control := declaration_header.

Definition scalar_declaration instruction : res DXBCStageContractDiagnostic Z :=
  control ← declaration_header instruction 2;
  if negb (control =? 0) then
    fail_at instruction DXBC_STAGE_CONTRACT_INVALID_DECLARATION_BITS 0 control
  else instruction_token instruction 1.

(** * Operand checks *)

Definition valid_input_primitive (value : Z) : bool :=
  (value =? DXBC_INPUT_PRIMITIVE_POINT) || (value =? DXBC_INPUT_PRIMITIVE_LINE) ||
  (value =? DXBC_INPUT_PRIMITIVE_TRIANGLE) || (value =? DXBC_INPUT_PRIMITIVE_LINE_ADJACENCY) ||
  (value =? DXBC_INPUT_PRIMITIVE_TRIANGLE_ADJACENCY).

Definition valid_output_topology (value : Z) : bool :=
  (value =? DXBC_OUTPUT_TOPOLOGY_POINT_LIST) || (value =? DXBC_OUTPUT_TOPOLOGY_LINE_STRIP) ||
  (value =? DXBC_OUTPUT_TOPOLOGY_TRIANGLE_STRIP).

Definition valid_domain (value : Z) : bool :=
  (DXBC_TESSELLATOR_DOMAIN_ISOLINE <=? value) && (value <=? DXBC_TESSELLATOR_DOMAIN_QUAD).

Definition valid_partitioning (value : Z) : bool :=
  (DXBC_TESSELLATOR_PARTITIONING_INTEGER <=? value) &&
  (value <=? DXBC_TESSELLATOR_PARTITIONING_FRACTIONAL_EVEN).

Definition valid_output_primitive (value : Z) : bool :=
  (DXBC_TESSELLATOR_OUTPUT_POINT <=? value) &&
  (value <=? DXBC_TESSELLATOR_OUTPUT_TRIANGLE_CCW).

Definition is_declaration_opcode (opcode : Z) : bool :=
  (opcode =? OP_DCL_IMMEDIATE_CONSTANT_BUFFER) ||
  ((OP_DCL_RESOURCE <=? opcode) && (opcode <=? OP_DCL_GLOBAL_FLAGS)) ||
  ((OP_DCL_STREAM <=? opcode) && (opcode <=? OP_DCL_RESOURCE_STRUCTURED)) ||
  (opcode =? OP_DCL_GS_INSTANCE_COUNT).

Definition is_hull_phase_marker (opcode : Z) : bool :=
  (OP_HS_CONTROL_POINT_PHASE <=? opcode) && (opcode <=? OP_HS_JOIN_PHASE).

(** The operand token of stream [mN] and of shared memory [gN]: one immediate
    index, no component, no extension. *)
Definition stream_operand : Z := 0x00110000.
Definition shared_memory_operand : Z := 0x0011f000.

(** [(uint8_t)(1u << stream)] *)
Definition stream_bit (stream : Z) : Z := u8 (u32 (Z.shiftl 1 stream)).

(** * Appends *)

Definition append_geometry_effect contract (kind : DXBCGeometryEffectKind)
    (instruction_index stream_id : Z) (explicit_stream : bool) (chunk_index opcode : Z)
    : res DXBCStageContractDiagnostic DXBCStageContract :=
  match grow_array 8 sizeof_DXBCGeometryEffectContract (geometry_effect_count contract)
          (geometry_effect_capacity contract) with
  | None => fail DXBC_STAGE_CONTRACT_OUT_OF_MEMORY chunk_index instruction_index opcode 0 0
  | Some capacity =>
      Ret (contract
        <| geometry_effects ::= fun l => l ++ [{|
             effect_kind := kind; effect_instruction_index := instruction_index;
             effect_stream_id := stream_id; effect_explicit_stream := explicit_stream |}] |>
        <| geometry_effect_capacity := capacity |>
        <| referenced_stream_mask ::= fun mask => Z.lor mask (stream_bit stream_id) |>)
  end.

Definition append_phase contract (kind : DXBCHullPhaseKind)
    (marker_instruction_index chunk_index opcode : Z)
    : res DXBCStageContractDiagnostic DXBCStageContract :=
  match grow_array 4 sizeof_DXBCHullPhaseContract (hull_phase_count contract)
          (hull_phase_capacity contract) with
  | None =>
      fail DXBC_STAGE_CONTRACT_OUT_OF_MEMORY chunk_index marker_instruction_index opcode 0 0
  | Some capacity =>
      Ret (contract
        <| hull_phases ::= fun l => l ++ [{|
             phase_kind := kind; marker_instruction_index := marker_instruction_index;
             phase_first_instruction_index := u32 (marker_instruction_index + 1);
             phase_end_instruction_index := u32 (marker_instruction_index + 1);
             instance_count_declared := false; instance_count := 1 |}] |>
        <| hull_phase_capacity := capacity |>)
  end.

(** [reserve_execution_array]: the capacity that holds one more element. *)
Definition reserve_execution_array (capacity count element_size : Z) : option Z :=
  if count <? capacity then Some capacity else
  let new_capacity := if capacity =? 0 then 8 else u64 (capacity * 2) in
  if (new_capacity <=? capacity) || (SIZE_MAX / element_size <? new_capacity) then None else
  if mem_realloc (u64 (capacity * element_size)) (u64 (new_capacity * element_size))
  then Some new_capacity else None.

(** * Declarations *)

Definition decode_geometry_effect instruction contract (kind : DXBCGeometryEffectKind)
    (explicit_stream : bool) : res DXBCStageContractDiagnostic DXBCStageContract :=
  control ← declaration_header instruction (if explicit_stream then 3 else 1);
  if negb (control =? 0) then
    fail_at instruction DXBC_STAGE_CONTRACT_INVALID_DECLARATION_BITS 0 control
  else
  stream ←
    (if explicit_stream then
       operand ← instruction_token instruction 1;
       stream ← instruction_token instruction 2;
       if negb (operand =? stream_operand) then
         fail_at instruction DXBC_STAGE_CONTRACT_INVALID_DECLARATION_BITS stream_operand operand
       else if 3 <? stream then
         fail_at instruction DXBC_STAGE_CONTRACT_INVALID_DECLARATION_VALUE 3 stream
       else Ret stream
     else Ret 0);
  append_geometry_effect contract kind (ins_index instruction) (u8 stream) explicit_stream
    (ins_chunk_index instruction) (ins_opcode instruction).

(** The contract and the new current stream. *)
Definition decode_stream instruction contract
    : res DXBCStageContractDiagnostic (DXBCStageContract * Z) :=
  control ← declaration_header instruction 3;
  operand ← instruction_token instruction 1;
  stream ← instruction_token instruction 2;
  if negb (control =? 0) then
    fail_at instruction DXBC_STAGE_CONTRACT_INVALID_DECLARATION_BITS 0 control
  else if negb (operand =? stream_operand) then
    fail_at instruction DXBC_STAGE_CONTRACT_INVALID_DECLARATION_BITS stream_operand operand
  else if 3 <? stream then
    fail_at instruction DXBC_STAGE_CONTRACT_INVALID_DECLARATION_VALUE 3 stream
  else
  let bit := stream_bit stream in
  if negb (Z.land (declared_stream_mask contract) bit =? 0) then
    fail_at instruction DXBC_STAGE_CONTRACT_DUPLICATE_DECLARATION 0 stream
  else Ret (contract <| declared_stream_mask ::= fun mask => Z.lor mask bit |>, u8 stream).

(** The declared value; the caller stores it and sets its presence flag. *)
Definition decode_enum_declaration instruction (present : bool) (validator : Z -> bool)
    : res DXBCStageContractDiagnostic Z :=
  control ← declaration_control instruction 1;
  if present then fail_at instruction DXBC_STAGE_CONTRACT_DUPLICATE_DECLARATION 1 2
  else if negb (validator control) then
    fail_at instruction DXBC_STAGE_CONTRACT_INVALID_DECLARATION_VALUE 0 control
  else Ret control.

Definition decode_count_declaration instruction (scalar_payload : bool) (maximum : Z)
    (present : bool) : res DXBCStageContractDiagnostic Z :=
  value ← (if scalar_payload then scalar_declaration instruction
           else declaration_control instruction 1);
  if present then fail_at instruction DXBC_STAGE_CONTRACT_DUPLICATE_DECLARATION 1 2
  else if (value =? 0) || (maximum <? value) then
    fail_at instruction DXBC_STAGE_CONTRACT_INVALID_DECLARATION_VALUE maximum value
  else Ret value.

(** One axis of the thread group: its size, checked against its maximum. *)
Definition thread_group_axis instruction (axis maximum : Z)
    : res DXBCStageContractDiagnostic Z :=
  dimension ← instruction_token instruction (axis + 1);
  if (dimension =? 0) || (maximum <? dimension) then
    fail_at instruction DXBC_STAGE_CONTRACT_INVALID_DECLARATION_VALUE maximum dimension
  else Ret dimension.

Definition decode_thread_group instruction contract
    : res DXBCStageContractDiagnostic DXBCStageContract :=
  control ← declaration_header instruction 4;
  if negb (control =? 0) then
    fail_at instruction DXBC_STAGE_CONTRACT_INVALID_DECLARATION_BITS 0 control
  else if has_thread_group_size contract then
    fail_at instruction DXBC_STAGE_CONTRACT_DUPLICATE_DECLARATION 1 2
  else
  let maximum_threads := if shader_model_major contract =? 4 then 768 else 1024 in
  let maximum_z := if shader_model_major contract =? 4 then 1 else 64 in
  x ← thread_group_axis instruction 0 maximum_threads;
  y ← thread_group_axis instruction 1 maximum_threads;
  z ← thread_group_axis instruction 2 maximum_z;
  let product := u64 (u64 (u64 (1 * x) * y) * z) in
  if maximum_threads <? product then
    fail_at instruction DXBC_STAGE_CONTRACT_INVALID_DECLARATION_VALUE maximum_threads product
  else
    Ret (contract <| has_thread_group_size := true |> <| thread_group_size := [x; y; z] |>
           <| thread_group_declaration_instruction_index := ins_index instruction |>).

Definition decode_shared_memory instruction contract
    : res DXBCStageContractDiagnostic DXBCStageContract :=
  if negb (shader_model_major contract =? 5) then
    fail_at instruction DXBC_STAGE_CONTRACT_UNSUPPORTED_PROGRAM 5 (shader_model_major contract)
  else
  let structured := ins_opcode instruction =? OP_DCL_TGSM_STRUCTURED in
  control ← declaration_header instruction (if structured then 5 else 4);
  operand ← instruction_token instruction 1;
  register_id ← instruction_token instruction 2;
  stride ← instruction_token instruction 3;
  count ← (if structured then instruction_token instruction 4 else Ret 1);
  if negb (control =? 0) then
    fail_at instruction DXBC_STAGE_CONTRACT_INVALID_DECLARATION_BITS 0 control
  else if negb (operand =? shared_memory_operand) then
    fail_at instruction DXBC_STAGE_CONTRACT_INVALID_DECLARATION_BITS shared_memory_operand operand
  else
  let byte_count := u64 (stride * count) in
  if (8192 <=? register_id) || (stride =? 0) || negb (Z.land stride 3 =? 0) || (count =? 0) ||
     (32768 <? byte_count) ||
     (32768 <? u64 (byte_count + thread_group_shared_memory_bytes contract)) then
    fail_at instruction DXBC_STAGE_CONTRACT_INVALID_DECLARATION_VALUE 32768 byte_count
  else if existsb (fun memory => memory_register_id memory =? register_id)
            (thread_group_shared_memory contract) then
    fail_at instruction DXBC_STAGE_CONTRACT_DUPLICATE_DECLARATION 0 register_id
  else
  match reserve_execution_array (thread_group_shared_memory_capacity contract)
          (thread_group_shared_memory_count contract)
          sizeof_DXBCThreadGroupSharedMemoryContract with
  | None => fail_at instruction DXBC_STAGE_CONTRACT_OUT_OF_MEMORY 0 0
  | Some capacity =>
      let memory := {|
        memory_instruction_index := ins_index instruction; memory_register_id := register_id;
        memory_structured := structured; memory_byte_stride := if structured then stride else 0;
        memory_element_count := if structured then count else 0;
        memory_byte_count := u32 byte_count |} in
      Ret (contract <| thread_group_shared_memory ::= fun l => l ++ [memory] |>
             <| thread_group_shared_memory_capacity := capacity |>
             <| thread_group_shared_memory_bytes ::=
                  fun bytes => u32 (bytes + memory_byte_count memory) |>)
  end.

Definition decode_memory_barrier instruction contract
    : res DXBCStageContractDiagnostic DXBCStageContract :=
  flags ← declaration_header instruction 1;
  let compute := program_type contract =? DXBC_PROGRAM_TYPE_COMPUTE in
  if negb (Z.land flags 0xfffffff0 =? 0) ||
     (if compute then (Z.land flags 0xe =? 0) || (Z.land flags 0xc =? 0xc)
      else negb (flags =? DXBC_SYNC_UAV_MEMORY_GLOBAL)) then
    fail_at instruction DXBC_STAGE_CONTRACT_INVALID_DECLARATION_BITS 0xe flags
  else
  match reserve_execution_array (memory_barrier_capacity contract)
          (memory_barrier_count contract) sizeof_DXBCMemoryBarrierContract with
  | None => fail_at instruction DXBC_STAGE_CONTRACT_OUT_OF_MEMORY 0 0
  | Some capacity =>
      Ret (contract <| memory_barriers ::= fun l => l ++ [{|
               barrier_instruction_index := ins_index instruction;
               barrier_flags := u8 flags |}] |>
             <| memory_barrier_capacity := capacity |>)
  end.

Definition decode_version (chunk : DXBCDocumentChunk) contract
    : res DXBCStageContractDiagnostic DXBCStageContract :=
  token ← read_u32_le (chunk_payload_bytes chunk) 0;
  let program := Z.shiftr token 16 in
  let major := Z.land (Z.shiftr token 4) 0xf in
  let minor := Z.land token 0xf in
  if negb (Z.land token 0x0000ff00 =? 0) || (DXBC_PROGRAM_TYPE_COUNT <=? program) then
    fail DXBC_STAGE_CONTRACT_INVALID_VERSION_TOKEN (chunk_table_index chunk) NO_INSTRUCTION 0
      0 token
  else if (negb (major =? 4) && negb (major =? 5)) || ((major =? 4) && (1 <? minor)) ||
          ((major =? 5) && negb (minor =? 0)) ||
          (((program =? DXBC_PROGRAM_TYPE_HULL) || (program =? DXBC_PROGRAM_TYPE_DOMAIN)) &&
           negb (major =? 5)) then
    fail DXBC_STAGE_CONTRACT_UNSUPPORTED_PROGRAM (chunk_table_index chunk) NO_INSTRUCTION 0
      0 token
  else
    Ret (contract <| version_token := token |> <| program_type := program |>
           <| shader_model_major := u8 major |> <| shader_model_minor := u8 minor |>
           <| executable_chunk_index := chunk_table_index chunk |>).

Definition stage_mismatch {A} instruction : res DXBCStageContractDiagnostic A :=
  fail_at instruction DXBC_STAGE_CONTRACT_DECLARATION_STAGE_MISMATCH 0 (ins_opcode instruction).

(** * One instruction *)

(** The contract and the locals that [decode_document_internal] passes by
    reference to [decode_instruction_contract]. *)
Record decode_state := {
  contract_of : DXBCStageContract;
  seen_hs_decls : bool;
  seen_phase : bool;
  phase_has_executable : bool;
  seen_any_executable : bool;
  hull_phase_order : Z;
  seen_control_point_phase : bool;
  current_geometry_stream : Z;
}.

#[export] Instance eta_decode_state : Eta decode_state := fun r => {|
  contract_of := contract_of r; seen_hs_decls := seen_hs_decls r; seen_phase := seen_phase r;
  phase_has_executable := phase_has_executable r; seen_any_executable := seen_any_executable r;
  hull_phase_order := hull_phase_order r;
  seen_control_point_phase := seen_control_point_phase r;
  current_geometry_stream := current_geometry_stream r |}.
#[export] Instance set_contract_of : Setter contract_of := ltac:(derive_setter).
#[export] Instance set_seen_hs_decls : Setter seen_hs_decls := ltac:(derive_setter).
#[export] Instance set_seen_phase : Setter seen_phase := ltac:(derive_setter).
#[export] Instance set_phase_has_executable : Setter phase_has_executable := ltac:(derive_setter).
#[export] Instance set_seen_any_executable : Setter seen_any_executable := ltac:(derive_setter).
#[export] Instance set_hull_phase_order : Setter hull_phase_order := ltac:(derive_setter).
#[export] Instance set_seen_control_point_phase : Setter seen_control_point_phase :=
  ltac:(derive_setter).
#[export] Instance set_current_geometry_stream : Setter current_geometry_stream :=
  ltac:(derive_setter).

Implicit Types st : decode_state.

Definition is_hull st : bool := program_type (contract_of st) =? DXBC_PROGRAM_TYPE_HULL.
Definition is_domain st : bool := program_type (contract_of st) =? DXBC_PROGRAM_TYPE_DOMAIN.
Definition is_geometry st : bool := program_type (contract_of st) =? DXBC_PROGRAM_TYPE_GEOMETRY.
Definition is_compute st : bool := program_type (contract_of st) =? DXBC_PROGRAM_TYPE_COMPUTE.

(** The state with the contract a decoder returned. *)
Definition with_contract st (c : res DXBCStageContractDiagnostic DXBCStageContract)
    : res DXBCStageContractDiagnostic decode_state :=
  c ← c; Ret (st <| contract_of := c |>).

Definition opcode_in (opcode : Z) (l : list Z) : bool := existsb (Z.eqb opcode) l.

(** [OP_DCL_THREAD_GROUP], [OP_DCL_TGSM_RAW], [OP_DCL_TGSM_STRUCTURED] *)
Definition decode_compute_declaration instruction st
    : res DXBCStageContractDiagnostic decode_state :=
  if negb (is_compute st) then stage_mismatch instruction
  else if seen_any_executable st then
    fail_at instruction DXBC_STAGE_CONTRACT_DECLARATION_ORDER 0 (ins_index instruction)
  else with_contract st
    (if ins_opcode instruction =? OP_DCL_THREAD_GROUP
     then decode_thread_group instruction (contract_of st)
     else decode_shared_memory instruction (contract_of st)).

(** [OP_SYNC] *)
Definition decode_sync instruction st : res DXBCStageContractDiagnostic decode_state :=
  if negb (is_compute st) && negb (program_type (contract_of st) =? DXBC_PROGRAM_TYPE_PIXEL)
  then stage_mismatch instruction
  else with_contract (st <| seen_any_executable := true |>)
         (decode_memory_barrier instruction (contract_of st)).

(** [OP_HS_DECLS] *)
Definition decode_hs_decls instruction st : res DXBCStageContractDiagnostic decode_state :=
  if negb (is_hull st) then stage_mismatch instruction
  else if seen_hs_decls st then
    fail_at instruction DXBC_STAGE_CONTRACT_DUPLICATE_DECLARATION 1 2
  else if negb (ins_index instruction =? first_instruction_index (contract_of st)) then
    fail_at instruction DXBC_STAGE_CONTRACT_DECLARATION_ORDER
      (first_instruction_index (contract_of st)) (ins_index instruction)
  else
  control ← declaration_header instruction 1;
  if negb (control =? 0) then
    fail_at instruction DXBC_STAGE_CONTRACT_INVALID_DECLARATION_BITS 0 control
  else Ret (st <| seen_hs_decls := true |>).

Definition marker_kind (opcode : Z) : DXBCHullPhaseKind :=
  if opcode =? OP_HS_FORK_PHASE then DXBC_HULL_PHASE_FORK
  else if opcode =? OP_HS_JOIN_PHASE then DXBC_HULL_PHASE_JOIN
  else DXBC_HULL_PHASE_CONTROL_POINT.

(** [if (hull_phase_count > 0u) hull_phases[hull_phase_count - 1u] = f(...)] *)
Fixpoint update_last {A} (f : A -> A) (l : list A) : list A :=
  match l with
  | [] => []
  | [x] => [f x]
  | x :: l => x :: update_last f l
  end.

(** The phase markers. *)
Definition decode_phase_marker instruction st : res DXBCStageContractDiagnostic decode_state :=
  if negb (is_hull st) then stage_mismatch instruction
  else if negb (seen_hs_decls st) then
    fail_at instruction DXBC_STAGE_CONTRACT_PHASE_ORDER OP_HS_DECLS (ins_opcode instruction)
  else
  control ← declaration_header instruction 1;
  if negb (control =? 0) then
    fail_at instruction DXBC_STAGE_CONTRACT_INVALID_DECLARATION_BITS 0 control
  else
  let kind := marker_kind (ins_opcode instruction) in
  let order := hull_phase_kind_value kind in
  let is_control_point := bool_decide (kind = DXBC_HULL_PHASE_CONTROL_POINT) in
  if (order <? hull_phase_order st) || (is_control_point && seen_control_point_phase st) then
    fail_at instruction DXBC_STAGE_CONTRACT_PHASE_ORDER (hull_phase_order st) order
  else
  let contract := (contract_of st) <| hull_phases ::=
    update_last (fun phase => phase <| phase_end_instruction_index := ins_index instruction |>) |> in
  contract ← append_phase contract kind (ins_index instruction) (ins_chunk_index instruction)
               (ins_opcode instruction);
  Ret (st <| contract_of := contract |>
          <| seen_control_point_phase ::= fun seen => seen || is_control_point |>
          <| hull_phase_order := order |> <| seen_phase := true |>
          <| phase_has_executable := false |>).

(** The declarations that must precede every phase and every executable
    instruction. *)
Definition is_leading_declaration (opcode : Z) : bool :=
  ((OP_DCL_INPUT_CONTROL_POINT_COUNT <=? opcode) && (opcode <=? OP_DCL_HS_MAX_TESS_FACTOR)) ||
  opcode_in opcode [OP_DCL_MAX_OUTPUT_VERTEX_COUNT; OP_DCL_GS_INSTANCE_COUNT; OP_DCL_STREAM;
                    OP_DCL_INPUT_PRIMITIVE; OP_DCL_OUTPUT_TOPOLOGY].

(** [OP_EMIT], [OP_CUT], [OP_EMIT_STREAM], [OP_CUT_STREAM] *)
Definition decode_effect_case instruction st : res DXBCStageContractDiagnostic decode_state :=
  let opcode := ins_opcode instruction in
  if negb (is_geometry st) then stage_mismatch instruction
  else with_contract (st <| seen_any_executable := true |>)
    (decode_geometry_effect instruction (contract_of st)
       (if (opcode =? OP_EMIT) || (opcode =? OP_EMIT_STREAM)
        then DXBC_GEOMETRY_EFFECT_APPEND else DXBC_GEOMETRY_EFFECT_RESTART_STRIP)
       ((opcode =? OP_EMIT_STREAM) || (opcode =? OP_CUT_STREAM))).

(** The geometry declarations of the [switch]. *)
Definition decode_input_primitive instruction st : res DXBCStageContractDiagnostic decode_state :=
  if negb (is_geometry st) then stage_mismatch instruction else
  value ← decode_enum_declaration instruction (has_input_primitive (contract_of st))
            valid_input_primitive;
  Ret (st <| contract_of ::= fun c =>
         c <| has_input_primitive := true |> <| input_primitive := value |> |>).

Definition decode_output_topology instruction st : res DXBCStageContractDiagnostic decode_state :=
  if negb (is_geometry st) then stage_mismatch instruction else
  let contract := contract_of st in
  let bit := stream_bit (current_geometry_stream st) in
  let stream_has_topology :=
    negb (Z.land (output_topology_stream_mask contract)
            (u32 (Z.shiftl 1 (current_geometry_stream st))) =? 0) in
  value ← decode_enum_declaration instruction stream_has_topology valid_output_topology;
  if has_output_topology contract && negb (output_topology contract =? value) then
    fail_at instruction DXBC_STAGE_CONTRACT_INVALID_DECLARATION_VALUE
      (output_topology contract) value
  else
  Ret (st <| contract_of ::= fun c =>
         c <| has_output_topology := true |> <| output_topology := value |>
           <| output_topology_stream_mask ::= fun mask => Z.lor mask bit |> |>).

Definition decode_max_output_vertex_count instruction st
    : res DXBCStageContractDiagnostic decode_state :=
  if negb (is_geometry st) then stage_mismatch instruction else
  value ← decode_count_declaration instruction true 1024
            (has_max_output_vertex_count (contract_of st));
  Ret (st <| contract_of ::= fun c =>
         c <| has_max_output_vertex_count := true |> <| max_output_vertex_count := value |> |>).

Definition decode_stream_case instruction st : res DXBCStageContractDiagnostic decode_state :=
  if negb (is_geometry st) then stage_mismatch instruction else
  decoded ← decode_stream instruction (contract_of st);
  Ret (st <| contract_of := decoded.1 |> <| current_geometry_stream := decoded.2 |>).

Definition decode_gs_instance_count instruction st
    : res DXBCStageContractDiagnostic decode_state :=
  if negb (is_geometry st) then stage_mismatch instruction else
  value ← decode_count_declaration instruction true 32
            (has_geometry_instance_count (contract_of st));
  Ret (st <| contract_of ::= fun c =>
         c <| has_geometry_instance_count := true |> <| geometry_instance_count := value |> |>).

(** The tessellation declarations of the [switch]. *)
Definition decode_input_control_point_count instruction st
    : res DXBCStageContractDiagnostic decode_state :=
  if negb (is_hull st) && negb (is_domain st) then stage_mismatch instruction else
  value ← decode_count_declaration instruction false 32
            (has_input_control_point_count (contract_of st));
  Ret (st <| contract_of ::= fun c =>
         c <| has_input_control_point_count := true |> <| input_control_point_count := value |> |>).

Definition decode_output_control_point_count instruction st
    : res DXBCStageContractDiagnostic decode_state :=
  if negb (is_hull st) then stage_mismatch instruction else
  value ← decode_count_declaration instruction false 32
            (has_output_control_point_count (contract_of st));
  Ret (st <| contract_of ::= fun c =>
         c <| has_output_control_point_count := true |>
           <| output_control_point_count := value |> |>).

Definition decode_tessellator_domain instruction st
    : res DXBCStageContractDiagnostic decode_state :=
  if negb (is_hull st) && negb (is_domain st) then stage_mismatch instruction else
  value ← decode_enum_declaration instruction (has_tessellator_domain (contract_of st))
            valid_domain;
  Ret (st <| contract_of ::= fun c =>
         c <| has_tessellator_domain := true |> <| tessellator_domain := value |> |>).

Definition decode_tessellator_partitioning instruction st
    : res DXBCStageContractDiagnostic decode_state :=
  if negb (is_hull st) then stage_mismatch instruction else
  value ← decode_enum_declaration instruction (has_tessellator_partitioning (contract_of st))
            valid_partitioning;
  Ret (st <| contract_of ::= fun c =>
         c <| has_tessellator_partitioning := true |> <| tessellator_partitioning := value |> |>).

Definition decode_tessellator_output_primitive instruction st
    : res DXBCStageContractDiagnostic decode_state :=
  if negb (is_hull st) then stage_mismatch instruction else
  value ← decode_enum_declaration instruction (has_tessellator_output_primitive (contract_of st))
            valid_output_primitive;
  Ret (st <| contract_of ::= fun c =>
         c <| has_tessellator_output_primitive := true |>
           <| tessellator_output_primitive := value |> |>).

Definition decode_max_tessellation_factor instruction st
    : res DXBCStageContractDiagnostic decode_state :=
  if negb (is_hull st) then stage_mismatch instruction
  else if has_max_tessellation_factor (contract_of st) then
    fail_at instruction DXBC_STAGE_CONTRACT_DUPLICATE_DECLARATION 1 2
  else
  value ← scalar_declaration instruction;
  let factor : float32 := value in
  if (Z.land value 0x7f800000 =? 0x7f800000) ||
     (float_scaled factor <? float_scaled float_one) ||
     (float_scaled float_sixty_four <? float_scaled factor) then
    fail_at instruction DXBC_STAGE_CONTRACT_INVALID_DECLARATION_VALUE 0 value
  else
  Ret (st <| contract_of ::= fun c =>
         c <| has_max_tessellation_factor := true |> <| max_tessellation_factor_bits := value |>
           <| max_tessellation_factor := factor |> |>).

Definition decode_phase_instance_count instruction st
    : res DXBCStageContractDiagnostic decode_state :=
  match is_hull st, list.last (hull_phases (contract_of st)) with
  | true, Some phase =>
    let expected :=
      if ins_opcode instruction =? OP_DCL_HS_FORK_PHASE_INSTANCE_COUNT
      then DXBC_HULL_PHASE_FORK else DXBC_HULL_PHASE_JOIN in
    if negb (bool_decide (phase_kind phase = expected)) || phase_has_executable st then
      fail_at instruction DXBC_STAGE_CONTRACT_PHASE_ORDER (hull_phase_kind_value expected)
        (hull_phase_kind_value (phase_kind phase))
    else if instance_count_declared phase then
      fail_at instruction DXBC_STAGE_CONTRACT_DUPLICATE_DECLARATION 1 2
    else
    value ← scalar_declaration instruction;
    if value =? 0 then
      fail_at instruction DXBC_STAGE_CONTRACT_INVALID_DECLARATION_VALUE UINT32_MAX value
    else
    Ret (st <| contract_of ::= fun c => c <| hull_phases ::= update_last (fun phase =>
           phase <| instance_count_declared := true |> <| instance_count := value |>) |> |>)
  | _, _ => stage_mismatch instruction
  end.

(** What follows the [switch]: other declarations and executable instructions.
    The last access is to [hull_phases[hull_phase_count - 1u]]. *)
Definition decode_other instruction st : res DXBCStageContractDiagnostic decode_state :=
  if is_declaration_opcode (ins_opcode instruction) then
    if (is_hull st && seen_phase st && phase_has_executable st) ||
       (negb (is_hull st) && seen_any_executable st) then
      fail_at instruction DXBC_STAGE_CONTRACT_DECLARATION_ORDER 0 (ins_index instruction)
    else Ret st
  else if is_hull st && negb (seen_phase st) then
    fail_at instruction DXBC_STAGE_CONTRACT_PHASE_ORDER 1 0
  else
  let st := st <| seen_any_executable := true |> in
  if is_hull st then
    match hull_phases (contract_of st) with
    | [] => Undef
    | _ =>
      Ret (st <| phase_has_executable := true |>
              <| contract_of ::= fun c => c <| hull_phases ::= update_last (fun phase =>
                   phase <| phase_end_instruction_index := u32 (ins_index instruction + 1) |>) |> |>)
    end
  else Ret st.

(** The [switch] and what follows it. *)
Definition decode_switch instruction st : res DXBCStageContractDiagnostic decode_state :=
  let opcode := ins_opcode instruction in
  if opcode_in opcode [OP_EMIT; OP_CUT; OP_EMIT_STREAM; OP_CUT_STREAM]
  then decode_effect_case instruction st else
  if opcode =? OP_DCL_INPUT_PRIMITIVE then decode_input_primitive instruction st else
  if opcode =? OP_DCL_OUTPUT_TOPOLOGY then decode_output_topology instruction st else
  if opcode =? OP_DCL_MAX_OUTPUT_VERTEX_COUNT then decode_max_output_vertex_count instruction st else
  if opcode =? OP_DCL_STREAM then decode_stream_case instruction st else
  if opcode =? OP_DCL_GS_INSTANCE_COUNT then decode_gs_instance_count instruction st else
  if opcode =? OP_DCL_INPUT_CONTROL_POINT_COUNT
  then decode_input_control_point_count instruction st else
  if opcode =? OP_DCL_OUTPUT_CONTROL_POINT_COUNT
  then decode_output_control_point_count instruction st else
  if opcode =? OP_DCL_TESSELLATOR_DOMAIN then decode_tessellator_domain instruction st else
  if opcode =? OP_DCL_TESSELLATOR_PARTITIONING
  then decode_tessellator_partitioning instruction st else
  if opcode =? OP_DCL_TESSELLATOR_OUTPUT_PRIMITIVE
  then decode_tessellator_output_primitive instruction st else
  if opcode =? OP_DCL_HS_MAX_TESS_FACTOR then decode_max_tessellation_factor instruction st else
  if opcode_in opcode [OP_DCL_HS_FORK_PHASE_INSTANCE_COUNT; OP_DCL_HS_JOIN_PHASE_INSTANCE_COUNT]
  then decode_phase_instance_count instruction st
  else decode_other instruction st.

Definition decode_instruction_contract instruction st
    : res DXBCStageContractDiagnostic decode_state :=
  let opcode := ins_opcode instruction in
  if opcode_in opcode [OP_DCL_THREAD_GROUP; OP_DCL_TGSM_RAW; OP_DCL_TGSM_STRUCTURED]
  then decode_compute_declaration instruction st
  else if opcode =? OP_SYNC then decode_sync instruction st
  else if opcode =? OP_HS_DECLS then decode_hs_decls instruction st
  else if is_hull_phase_marker opcode then decode_phase_marker instruction st
  else if is_leading_declaration opcode &&
          (seen_any_executable st || (is_hull st && seen_phase st)) then
    fail_at instruction DXBC_STAGE_CONTRACT_DECLARATION_ORDER 0 (ins_index instruction)
  else decode_switch instruction st.

(** * The whole chunk *)

Definition require_declaration (present : bool) (opcode : Z) contract
    : res DXBCStageContractDiagnostic unit :=
  if present then Ret tt
  else fail DXBC_STAGE_CONTRACT_MISSING_DECLARATION (executable_chunk_index contract)
         NO_INSTRUCTION opcode 1 0.

(** The effect loop of the geometry case of [finish_contract]. *)
Definition check_geometry_effect contract (_ : Z) (effect : DXBCGeometryEffectContract)
    : res DXBCStageContractDiagnostic unit :=
  if effect_explicit_stream effect then
    let bit := stream_bit (effect_stream_id effect) in
    if Z.land (declared_stream_mask contract) bit =? 0 then
      fail DXBC_STAGE_CONTRACT_MISSING_DECLARATION (executable_chunk_index contract)
        (effect_instruction_index effect) OP_DCL_STREAM bit (declared_stream_mask contract)
    else Ret tt
  else if negb (declared_stream_mask contract =? 0) then
    fail DXBC_STAGE_CONTRACT_INVALID_DECLARATION_VALUE (executable_chunk_index contract)
      (effect_instruction_index effect)
      (if decide (effect_kind effect = DXBC_GEOMETRY_EFFECT_APPEND) then OP_EMIT else OP_CUT)
      0 (declared_stream_mask contract)
  else Ret tt.

Definition finish_geometry contract : res DXBCStageContractDiagnostic unit :=
  _ ← require_declaration (has_input_primitive contract) OP_DCL_INPUT_PRIMITIVE contract;
  _ ← require_declaration (has_output_topology contract) OP_DCL_OUTPUT_TOPOLOGY contract;
  _ ← require_declaration (has_max_output_vertex_count contract) OP_DCL_MAX_OUTPUT_VERTEX_COUNT
        contract;
  if negb (Z.land (output_topology_stream_mask contract) (declared_stream_mask contract)
           =? declared_stream_mask contract) then
    fail DXBC_STAGE_CONTRACT_MISSING_DECLARATION (executable_chunk_index contract) NO_INSTRUCTION
      OP_DCL_OUTPUT_TOPOLOGY (declared_stream_mask contract) (output_topology_stream_mask contract)
  else for_each 0 (geometry_effects contract) (check_geometry_effect contract).

Definition finish_hull contract (hs_decls phase : bool) : res DXBCStageContractDiagnostic unit :=
  _ ← require_declaration hs_decls OP_HS_DECLS contract;
  _ ← require_declaration (has_input_control_point_count contract)
        OP_DCL_INPUT_CONTROL_POINT_COUNT contract;
  _ ← require_declaration (has_output_control_point_count contract)
        OP_DCL_OUTPUT_CONTROL_POINT_COUNT contract;
  _ ← require_declaration (has_tessellator_domain contract) OP_DCL_TESSELLATOR_DOMAIN contract;
  _ ← require_declaration (has_tessellator_partitioning contract)
        OP_DCL_TESSELLATOR_PARTITIONING contract;
  _ ← require_declaration (has_tessellator_output_primitive contract)
        OP_DCL_TESSELLATOR_OUTPUT_PRIMITIVE contract;
  require_declaration phase OP_HS_FORK_PHASE contract.

Definition finish_domain contract : res DXBCStageContractDiagnostic unit :=
  _ ← require_declaration (has_input_control_point_count contract)
        OP_DCL_INPUT_CONTROL_POINT_COUNT contract;
  require_declaration (has_tessellator_domain contract) OP_DCL_TESSELLATOR_DOMAIN contract.

Definition finish_contract contract (hs_decls phase : bool)
    : res DXBCStageContractDiagnostic unit :=
  if program_type contract =? DXBC_PROGRAM_TYPE_COMPUTE then
    require_declaration (has_thread_group_size contract) OP_DCL_THREAD_GROUP contract
  else if program_type contract =? DXBC_PROGRAM_TYPE_GEOMETRY then finish_geometry contract
  else if program_type contract =? DXBC_PROGRAM_TYPE_HULL then
    finish_hull contract hs_decls phase
  else if program_type contract =? DXBC_PROGRAM_TYPE_DOMAIN then finish_domain contract
  else Ret tt.

(** The scan for the single executable chunk. *)
Fixpoint find_executable (executable : option DXBCDocumentChunk) (chunks : list DXBCDocumentChunk)
    : res DXBCStageContractDiagnostic (option DXBCDocumentChunk) :=
  match chunks with
  | [] => Ret executable
  | chunk :: chunks =>
      if decide (chunk_kind chunk = DXBC_DOCUMENT_CHUNK_EXECUTABLE) then
        match executable with
        | Some _ => fail DXBC_STAGE_CONTRACT_MULTIPLE_EXECUTABLES (chunk_table_index chunk)
                      UINT32_MAX 0 1 2
        | None => find_executable (Some chunk) chunks
        end
      else find_executable executable chunks
  end.

(** The scan for the range [first, end) of the chunk's instructions: [first] is
    [None] for SIZE_MAX. *)
Fixpoint instruction_range (table_index : Z) (i : nat) (range : option nat * nat)
    (instructions : list DXBCDocumentInstruction) : option nat * nat :=
  match instructions with
  | [] => range
  | instruction :: instructions =>
      instruction_range table_index (S i)
        (if ins_chunk_index instruction =? table_index
         then (Some (default i range.1), S i) else range)
        instructions
  end.

Fixpoint decode_instructions (instructions : list DXBCDocumentInstruction) st
    : res DXBCStageContractDiagnostic decode_state :=
  match instructions with
  | [] => Ret st
  | instruction :: instructions =>
      st ← decode_instruction_contract instruction st; decode_instructions instructions st
  end.

Definition initial_state contract : decode_state := {|
  contract_of := contract; seen_hs_decls := false; seen_phase := false;
  phase_has_executable := false; seen_any_executable := false; hull_phase_order := 0;
  seen_control_point_phase := false; current_geometry_stream := 0 |}.

(** [instructions[i].instruction_index], undefined past the end. *)
Definition index_at (instructions : list DXBCDocumentInstruction) (i : nat)
    : res DXBCStageContractDiagnostic Z :=
  match instructions !! i with Some instruction => Ret (ins_index instruction) | None => Undef end.

Definition decode_document_internal (document : option DXBCDocument) contract
    : res DXBCStageContractDiagnostic DXBCStageContract :=
  let invalid_argument :=
    fail DXBC_STAGE_CONTRACT_INVALID_ARGUMENT UINT32_MAX UINT32_MAX 0 0 0 in
  match document with
  | None => invalid_argument
  | Some d =>
    match doc_owned_bytes d, doc_chunks d with
    | None, _ | _, [] => invalid_argument
    | Some _, chunks =>
      executable ← find_executable None chunks;
      match executable with
      | None => fail DXBC_STAGE_CONTRACT_MISSING_EXECUTABLE UINT32_MAX UINT32_MAX 0 1 0
      | Some executable =>
        contract ← decode_version executable contract;
        let instructions := doc_instructions d in
        let '(first, last) :=
          instruction_range (chunk_table_index executable) 0 (None, 0%nat) instructions in
        first_index ← match first with None => Ret 0 | Some i => index_at instructions i end;
        end_index ← match last with
                    | O => Ret 0
                    | S i => index ← index_at instructions i; Ret (u32 (index + 1))
                    end;
        let contract := contract <| first_instruction_index := first_index |>
                                 <| end_instruction_index := end_index |> in
        let start := default 0%nat first in
        st ← decode_instructions (take (last - start) (drop start instructions))
               (initial_state contract);
        let contract := (contract_of st) <| hull_phases ::= update_last (fun phase =>
          phase <| phase_end_instruction_index := end_instruction_index (contract_of st) |>) |> in
        _ ← finish_contract contract (seen_hs_decls st) (seen_phase st);
        Ret contract
      end
    end
  end.

(** [dxbc_stage_contract_decode_document]; [out_contract] is [None] for NULL and
    otherwise the old contract, freed and replaced on success. *)
Definition dxbc_stage_contract_decode_document (document : option DXBCDocument)
    (out_contract : option DXBCStageContract)
    : res DXBCStageContractDiagnostic DXBCStageContract :=
  match out_contract with
  | None => fail DXBC_STAGE_CONTRACT_INVALID_ARGUMENT UINT32_MAX UINT32_MAX 0 0 0
  | Some _ => decode_document_internal document dxbc_stage_contract_init
  end.

(** The fields of [DXBCContainer] that the cross-check reads. *)
Record container_program := {
  has_executable_program : bool;
  container_program_type : DXBCProgramType;
  container_major_version : Z;
  container_minor_version : Z;
}.

(** The program identity that a mismatch report shows. *)
Definition program_identity (program major minor : Z) : Z :=
  Z.lor (Z.lor (u64 (Z.shiftl (u32 program) 16)) (u64 (Z.shiftl major 8))) minor.

Definition dxbc_stage_contract_validate_container (contract : option DXBCStageContract)
    (container : option container_program) : res DXBCStageContractDiagnostic unit :=
  match contract, container with
  | Some contract, Some container =>
    if DXBC_PROGRAM_TYPE_COUNT <=? u32 (program_type contract) then
      fail DXBC_STAGE_CONTRACT_INVALID_ARGUMENT UINT32_MAX UINT32_MAX 0 0 0
    else if negb (has_executable_program container) ||
            negb (container_program_type container =? program_type contract) ||
            negb (container_major_version container =? shader_model_major contract) ||
            negb (container_minor_version container =? shader_model_minor contract) then
      fail DXBC_STAGE_CONTRACT_CONTAINER_MISMATCH (executable_chunk_index contract) UINT32_MAX 0
        (program_identity (program_type contract) (shader_model_major contract)
           (shader_model_minor contract))
        (program_identity (container_program_type container) (container_major_version container)
           (container_minor_version container))
    else Ret tt
  | _, _ => fail DXBC_STAGE_CONTRACT_INVALID_ARGUMENT UINT32_MAX UINT32_MAX 0 0 0
  end.

Definition dxbc_stage_contract_decode (document : option DXBCDocument)
    (semantic_container : option container_program) (out_contract : option DXBCStageContract)
    : res DXBCStageContractDiagnostic DXBCStageContract :=
  match out_contract with
  | None => fail DXBC_STAGE_CONTRACT_INVALID_ARGUMENT UINT32_MAX UINT32_MAX 0 0 0
  | Some _ =>
    parsed ← decode_document_internal document dxbc_stage_contract_init;
    _ ← match semantic_container with
        | None => Ret tt
        | Some _ => dxbc_stage_contract_validate_container (Some parsed) semantic_container
        end;
    Ret parsed
  end.
End decode.

(** Write updated records out in full. *)
Ltac expand_fields :=
  cbv [set_field set_version_token set_program_type set_shader_model_major
       set_shader_model_minor set_executable_chunk_index set_first_instruction_index
       set_end_instruction_index set_has_input_primitive set_input_primitive
       set_has_output_topology set_output_topology set_output_topology_stream_mask
       set_has_max_output_vertex_count set_max_output_vertex_count
       set_has_geometry_instance_count set_geometry_instance_count set_declared_stream_mask
       set_referenced_stream_mask set_geometry_effects set_geometry_effect_capacity
       set_has_input_control_point_count set_input_control_point_count
       set_has_output_control_point_count set_output_control_point_count
       set_has_tessellator_domain set_tessellator_domain set_has_tessellator_partitioning
       set_tessellator_partitioning set_has_tessellator_output_primitive
       set_tessellator_output_primitive set_has_max_tessellation_factor
       set_max_tessellation_factor_bits set_max_tessellation_factor set_hull_phases
       set_hull_phase_capacity set_has_thread_group_size set_thread_group_size
       set_thread_group_declaration_instruction_index set_thread_group_shared_memory_bytes
       set_thread_group_shared_memory set_thread_group_shared_memory_capacity
       set_memory_barriers set_memory_barrier_capacity set_phase_end_instruction_index
       set_instance_count_declared set_instance_count set_contract_of set_seen_hs_decls
       set_seen_phase set_phase_has_executable set_seen_any_executable set_hull_phase_order
       set_seen_control_point_phase set_current_geometry_stream] in *;
  cbn [version_token program_type shader_model_major shader_model_minor
       executable_chunk_index first_instruction_index end_instruction_index
       has_input_primitive input_primitive has_output_topology output_topology
       output_topology_stream_mask has_max_output_vertex_count max_output_vertex_count
       has_geometry_instance_count geometry_instance_count declared_stream_mask
       referenced_stream_mask geometry_effects geometry_effect_capacity
       has_input_control_point_count input_control_point_count
       has_output_control_point_count output_control_point_count has_tessellator_domain
       tessellator_domain has_tessellator_partitioning tessellator_partitioning
       has_tessellator_output_primitive tessellator_output_primitive
       has_max_tessellation_factor max_tessellation_factor_bits max_tessellation_factor
       hull_phases hull_phase_capacity has_thread_group_size thread_group_size
       thread_group_declaration_instruction_index thread_group_shared_memory_bytes
       thread_group_shared_memory thread_group_shared_memory_capacity memory_barriers
       memory_barrier_capacity phase_kind marker_instruction_index
       phase_first_instruction_index phase_end_instruction_index instance_count_declared
       instance_count contract_of seen_hs_decls seen_phase phase_has_executable
       seen_any_executable hull_phase_order seen_control_point_phase current_geometry_stream] in *.

Definition dxbc_stage_contract_status_name (status : DXBCStageContractStatus) : string :=
  match status with
  | DXBC_STAGE_CONTRACT_OK => "ok"
  | DXBC_STAGE_CONTRACT_INVALID_ARGUMENT => "invalid_argument"
  | DXBC_STAGE_CONTRACT_OUT_OF_MEMORY => "out_of_memory"
  | DXBC_STAGE_CONTRACT_MISSING_EXECUTABLE => "missing_executable"
  | DXBC_STAGE_CONTRACT_MULTIPLE_EXECUTABLES => "multiple_executables"
  | DXBC_STAGE_CONTRACT_INVALID_VERSION_TOKEN => "invalid_version_token"
  | DXBC_STAGE_CONTRACT_UNSUPPORTED_PROGRAM => "unsupported_program"
  | DXBC_STAGE_CONTRACT_INVALID_DECLARATION_LENGTH => "invalid_declaration_length"
  | DXBC_STAGE_CONTRACT_INVALID_DECLARATION_BITS => "invalid_declaration_bits"
  | DXBC_STAGE_CONTRACT_INVALID_DECLARATION_VALUE => "invalid_declaration_value"
  | DXBC_STAGE_CONTRACT_DUPLICATE_DECLARATION => "duplicate_declaration"
  | DXBC_STAGE_CONTRACT_DECLARATION_ORDER => "declaration_order"
  | DXBC_STAGE_CONTRACT_DECLARATION_STAGE_MISMATCH => "declaration_stage_mismatch"
  | DXBC_STAGE_CONTRACT_MISSING_DECLARATION => "missing_declaration"
  | DXBC_STAGE_CONTRACT_PHASE_ORDER => "phase_order"
  | DXBC_STAGE_CONTRACT_CONTAINER_MISMATCH => "container_mismatch"
  end.
