(* ===== verification/StageContractSteps.v ===== *)
(** The step relation of the stage-contract decoder: what one instruction of
    each class does to the decoding state, and the proof that
    [decode_instruction_contract] only takes these steps. *)

From S2P Require Import Prelude UnityCommon Hash ShaderStage Document DocumentFormat.
From S2P Require Import DocumentCorrect StageContract.

(** * Instructions as data *)

(** A view of whole tokens, as the document parser makes them. *)
Record well_formed (ins : DXBCDocumentInstruction) : Prop := {
  wf_count : 1 <= ins_token_count ins < 2 ^ 32;
  wf_raw : size (ins_raw_bytes ins) = 4 * ins_token_count ins;
}.

Definition token_of (ins : DXBCDocumentInstruction) (k : Z) : Z := word (ins_raw_bytes ins) (4 * k).

Definition control_of (ins : DXBCDocumentInstruction) : Z :=
  Z.land (Z.shiftr (token_of ins 0) 11) 0x1fff.

(** A declaration of [n] tokens, without extension. *)
Record declares (ins : DXBCDocumentInstruction) (n : Z) : Prop := {
  declares_plain : ins_uses_customdata_length ins = false;
  declares_extensions : ins_extended_opcode_token_count ins = 0;
  declares_length : ins_token_count ins = n;
  declares_encoded : ins_encoded_length ins = n;
  declares_token : high_bit (token_of ins 0) = false;
}.

(** What an instruction adds to the arrays of the contract. *)

Definition explicit_effect (ins : DXBCDocumentInstruction) : bool :=
  (ins_opcode ins =? OP_EMIT_STREAM) || (ins_opcode ins =? OP_CUT_STREAM).

Definition effect_of (ins : DXBCDocumentInstruction) : DXBCGeometryEffectContract := {|
  effect_kind := if (ins_opcode ins =? OP_EMIT) || (ins_opcode ins =? OP_EMIT_STREAM)
                 then DXBC_GEOMETRY_EFFECT_APPEND else DXBC_GEOMETRY_EFFECT_RESTART_STRIP;
  effect_instruction_index := ins_index ins;
  effect_stream_id := if explicit_effect ins then token_of ins 2 else 0;
  effect_explicit_stream := explicit_effect ins |}.

Definition structured_memory (ins : DXBCDocumentInstruction) : bool :=
  ins_opcode ins =? OP_DCL_TGSM_STRUCTURED.

Definition memory_size (ins : DXBCDocumentInstruction) : Z :=
  token_of ins 3 * (if structured_memory ins then token_of ins 4 else 1).

Definition memory_of (ins : DXBCDocumentInstruction) : DXBCThreadGroupSharedMemoryContract := {|
  memory_instruction_index := ins_index ins; memory_register_id := token_of ins 2;
  memory_structured := structured_memory ins;
  memory_byte_stride := if structured_memory ins then token_of ins 3 else 0;
  memory_element_count := if structured_memory ins then token_of ins 4 else 0;
  memory_byte_count := memory_size ins |}.

Definition barrier_of (ins : DXBCDocumentInstruction) : DXBCMemoryBarrierContract :=
  {| barrier_instruction_index := ins_index ins; barrier_flags := control_of ins |}.

Definition phase_of (ins : DXBCDocumentInstruction) : DXBCHullPhaseContract := {|
  phase_kind := marker_kind (ins_opcode ins); marker_instruction_index := ins_index ins;
  phase_first_instruction_index := u32 (ins_index ins + 1);
  phase_end_instruction_index := u32 (ins_index ins + 1);
  instance_count_declared := false; instance_count := 1 |}.

(** * Opcode classes

    The branches of [decode_instruction_contract], in its order. *)

Inductive opcode_class :=
| ThreadGroup | SharedMemory | Barrier | HullDeclarations | PhaseMarker | GeometryEffect
| GeometryDeclaration | TessellationDeclaration | InstanceCount | Declaration | Executable.

#[global] Instance opcode_class_eq_dec : EqDecision opcode_class.
Proof. solve_decision. Defined.

Definition class_of (opcode : Z) : opcode_class :=
  if opcode_in opcode [OP_DCL_THREAD_GROUP; OP_DCL_TGSM_RAW; OP_DCL_TGSM_STRUCTURED]
  then (if opcode =? OP_DCL_THREAD_GROUP then ThreadGroup else SharedMemory)
  else if opcode =? OP_SYNC then Barrier
  else if opcode =? OP_HS_DECLS then HullDeclarations
  else if is_hull_phase_marker opcode then PhaseMarker
  else if opcode_in opcode [OP_EMIT; OP_CUT; OP_EMIT_STREAM; OP_CUT_STREAM] then GeometryEffect
  else if opcode_in opcode [OP_DCL_INPUT_PRIMITIVE; OP_DCL_OUTPUT_TOPOLOGY;
            OP_DCL_MAX_OUTPUT_VERTEX_COUNT; OP_DCL_STREAM; OP_DCL_GS_INSTANCE_COUNT]
  then GeometryDeclaration
  else if (OP_DCL_INPUT_CONTROL_POINT_COUNT <=? opcode) && (opcode <=? OP_DCL_HS_MAX_TESS_FACTOR)
  then TessellationDeclaration
  else if opcode_in opcode
            [OP_DCL_HS_FORK_PHASE_INSTANCE_COUNT; OP_DCL_HS_JOIN_PHASE_INSTANCE_COUNT]
  then InstanceCount
  else if is_declaration_opcode opcode then Declaration else Executable.

Abbreviation class ins := (class_of (ins_opcode ins)).

(** * The conditions of the declarations *)

(** [numthreads] within the limits of shader model [major]. *)
Definition valid_thread_group (major x y z : Z) : Prop :=
  let maximum_threads := if major =? 4 then 768 else 1024 in
  1 <= x <= maximum_threads /\ 1 <= y <= maximum_threads /\
  1 <= z <= (if major =? 4 then 1 else 64) /\ x * y * z <= maximum_threads.

Record valid_memory (m : DXBCThreadGroupSharedMemoryContract) : Prop := {
  memory_register : memory_register_id m < 8192;
  memory_bytes : 4 <= memory_byte_count m <= 32768;
  memory_aligned : memory_byte_count m mod 4 = 0;
  memory_shape : if memory_structured m
                 then memory_byte_count m = memory_byte_stride m * memory_element_count m
                 else memory_byte_stride m = 0 /\ memory_element_count m = 0;
}.

Definition valid_barrier_flags (program flags : Z) : Prop :=
  0 <= flags < 16 /\
  if program =? DXBC_PROGRAM_TYPE_COMPUTE
  then Z.land flags 0xe <> 0 /\ Z.land flags 0xc <> 0xc
  else flags = DXBC_SYNC_UAV_MEMORY_GLOBAL.

(** A finite [float] between one and sixty-four. *)
Definition valid_factor (bits : float32) : Prop :=
  Z.land bits 0x7f800000 <> 0x7f800000 /\
  float_scaled float_one <= float_scaled bits <= float_scaled float_sixty_four.

(** * Steps *)

(** The geometry declarations: the contract and the current stream after one. *)
Inductive geometry_declaration (ins : DXBCDocumentInstruction) (c : DXBCStageContract) (stream : Z)
    : DXBCStageContract -> Z -> Prop :=
| declare_input_primitive :
    ins_opcode ins = OP_DCL_INPUT_PRIMITIVE -> has_input_primitive c = false ->
    valid_input_primitive (control_of ins) = true ->
    geometry_declaration ins c stream
      (c <| has_input_primitive := true |> <| input_primitive := control_of ins |>) stream
| declare_output_topology :
    ins_opcode ins = OP_DCL_OUTPUT_TOPOLOGY ->
    Z.land (output_topology_stream_mask c) (u32 (Z.shiftl 1 stream)) = 0 ->
    valid_output_topology (control_of ins) = true ->
    (has_output_topology c = true -> output_topology c = control_of ins) ->
    geometry_declaration ins c stream
      (c <| has_output_topology := true |> <| output_topology := control_of ins |>
         <| output_topology_stream_mask ::= fun mask => Z.lor mask (stream_bit stream) |>) stream
| declare_max_output_vertex_count :
    ins_opcode ins = OP_DCL_MAX_OUTPUT_VERTEX_COUNT -> has_max_output_vertex_count c = false ->
    1 <= token_of ins 1 <= 1024 ->
    geometry_declaration ins c stream
      (c <| has_max_output_vertex_count := true |>
         <| max_output_vertex_count := token_of ins 1 |>) stream
| declare_stream :
    ins_opcode ins = OP_DCL_STREAM -> token_of ins 1 = stream_operand ->
    0 <= token_of ins 2 <= 3 ->
    Z.land (declared_stream_mask c) (stream_bit (token_of ins 2)) = 0 ->
    geometry_declaration ins c stream
      (c <| declared_stream_mask ::= fun mask => Z.lor mask (stream_bit (token_of ins 2)) |>)
      (token_of ins 2)
| declare_gs_instance_count :
    ins_opcode ins = OP_DCL_GS_INSTANCE_COUNT -> has_geometry_instance_count c = false ->
    1 <= token_of ins 1 <= 32 ->
    geometry_declaration ins c stream
      (c <| has_geometry_instance_count := true |>
         <| geometry_instance_count := token_of ins 1 |>) stream.

(** The tessellation declarations. *)
Inductive tessellation_declaration (ins : DXBCDocumentInstruction) (c : DXBCStageContract)
    : DXBCStageContract -> Prop :=
| declare_input_control_points :
    ins_opcode ins = OP_DCL_INPUT_CONTROL_POINT_COUNT -> has_input_control_point_count c = false ->
    1 <= control_of ins <= 32 ->
    tessellation_declaration ins c
      (c <| has_input_control_point_count := true |>
         <| input_control_point_count := control_of ins |>)
| declare_output_control_points :
    ins_opcode ins = OP_DCL_OUTPUT_CONTROL_POINT_COUNT ->
    has_output_control_point_count c = false -> 1 <= control_of ins <= 32 ->
    tessellation_declaration ins c
      (c <| has_output_control_point_count := true |>
         <| output_control_point_count := control_of ins |>)
| declare_domain :
    ins_opcode ins = OP_DCL_TESSELLATOR_DOMAIN -> has_tessellator_domain c = false ->
    valid_domain (control_of ins) = true ->
    tessellation_declaration ins c
      (c <| has_tessellator_domain := true |> <| tessellator_domain := control_of ins |>)
| declare_partitioning :
    ins_opcode ins = OP_DCL_TESSELLATOR_PARTITIONING -> has_tessellator_partitioning c = false ->
    valid_partitioning (control_of ins) = true ->
    tessellation_declaration ins c
      (c <| has_tessellator_partitioning := true |>
         <| tessellator_partitioning := control_of ins |>)
| declare_output_primitive :
    ins_opcode ins = OP_DCL_TESSELLATOR_OUTPUT_PRIMITIVE ->
    has_tessellator_output_primitive c = false -> valid_output_primitive (control_of ins) = true ->
    tessellation_declaration ins c
      (c <| has_tessellator_output_primitive := true |>
         <| tessellator_output_primitive := control_of ins |>)
| declare_max_factor :
    ins_opcode ins = OP_DCL_HS_MAX_TESS_FACTOR -> has_max_tessellation_factor c = false ->
    valid_factor (token_of ins 1) ->
    tessellation_declaration ins c
      (c <| has_max_tessellation_factor := true |>
         <| max_tessellation_factor_bits := token_of ins 1 |>
         <| max_tessellation_factor := token_of ins 1 |>).

Inductive step (ins : DXBCDocumentInstruction) (st : decode_state) : decode_state -> Prop :=
| step_thread_group :
    class ins = ThreadGroup -> is_compute st = true ->
    seen_any_executable st = false -> declares ins 4 -> control_of ins = 0 ->
    has_thread_group_size (contract_of st) = false ->
    valid_thread_group (shader_model_major (contract_of st))
      (token_of ins 1) (token_of ins 2) (token_of ins 3) ->
    step ins st (st <| contract_of ::= fun c =>
      c <| has_thread_group_size := true |>
        <| thread_group_size := [token_of ins 1; token_of ins 2; token_of ins 3] |>
        <| thread_group_declaration_instruction_index := ins_index ins |> |>)
| step_shared_memory capacity :
    class ins = SharedMemory ->
    is_compute st = true -> seen_any_executable st = false ->
    shader_model_major (contract_of st) = 5 -> valid_memory (memory_of ins) ->
    memory_size ins + thread_group_shared_memory_bytes (contract_of st) <= 32768 ->
    Forall (fun m => memory_register_id m <> token_of ins 2)
      (thread_group_shared_memory (contract_of st)) ->
    step ins st (st <| contract_of ::= fun c =>
      c <| thread_group_shared_memory ::= fun l => l ++ [memory_of ins] |>
        <| thread_group_shared_memory_capacity := capacity |>
        <| thread_group_shared_memory_bytes ::= fun bytes => bytes + memory_size ins |> |>)
| step_barrier capacity :
    class ins = Barrier -> is_compute st = true \/
      program_type (contract_of st) = DXBC_PROGRAM_TYPE_PIXEL ->
    declares ins 1 -> valid_barrier_flags (program_type (contract_of st)) (control_of ins) ->
    step ins st (st <| seen_any_executable := true |> <| contract_of ::= fun c =>
      c <| memory_barriers ::= fun l => l ++ [barrier_of ins] |>
        <| memory_barrier_capacity := capacity |> |>)
| step_hs_decls :
    class ins = HullDeclarations -> is_hull st = true -> seen_hs_decls st = false ->
    ins_index ins = first_instruction_index (contract_of st) ->
    declares ins 1 -> control_of ins = 0 ->
    step ins st (st <| seen_hs_decls := true |>)
| step_phase capacity :
    let kind := marker_kind (ins_opcode ins) in
    class ins = PhaseMarker -> is_hull st = true ->
    seen_hs_decls st = true -> declares ins 1 -> control_of ins = 0 ->
    hull_phase_order st <= hull_phase_kind_value kind ->
    (kind = DXBC_HULL_PHASE_CONTROL_POINT -> seen_control_point_phase st = false) ->
    step ins st (st <| contract_of ::= fun c =>
        c <| hull_phases ::= fun l => update_last (fun phase =>
               phase <| phase_end_instruction_index := ins_index ins |>) l ++ [phase_of ins] |>
          <| hull_phase_capacity := capacity |> |>
      <| seen_control_point_phase ::= fun seen =>
           seen || bool_decide (kind = DXBC_HULL_PHASE_CONTROL_POINT) |>
      <| hull_phase_order := hull_phase_kind_value kind |> <| seen_phase := true |>
      <| phase_has_executable := false |>)
| step_effect capacity :
    class ins = GeometryEffect -> is_geometry st = true -> declares ins (if explicit_effect ins then 3 else 1) ->
    control_of ins = 0 ->
    (explicit_effect ins = true -> token_of ins 1 = stream_operand) ->
    0 <= effect_stream_id (effect_of ins) <= 3 ->
    step ins st (st <| seen_any_executable := true |> <| contract_of ::= fun c =>
      c <| geometry_effects ::= fun l => l ++ [effect_of ins] |>
        <| geometry_effect_capacity := capacity |>
        <| referenced_stream_mask ::= fun mask =>
             Z.lor mask (stream_bit (effect_stream_id (effect_of ins))) |> |>)
| step_geometry c' stream' :
    class ins = GeometryDeclaration -> is_geometry st = true -> seen_any_executable st = false ->
    geometry_declaration ins (contract_of st) (current_geometry_stream st) c' stream' ->
    step ins st (st <| contract_of := c' |> <| current_geometry_stream := stream' |>)
| step_tessellation c' :
    class ins = TessellationDeclaration ->
    is_hull st = true \/ is_domain st = true /\
      (ins_opcode ins = OP_DCL_INPUT_CONTROL_POINT_COUNT \/
       ins_opcode ins = OP_DCL_TESSELLATOR_DOMAIN) ->
    seen_any_executable st = false -> (is_hull st = true -> seen_phase st = false) ->
    tessellation_declaration ins (contract_of st) c' ->
    step ins st (st <| contract_of := c' |>)
| step_instance_count phase :
    class ins = InstanceCount -> is_hull st = true -> list.last (hull_phases (contract_of st)) = Some phase ->
    phase_kind phase = (if ins_opcode ins =? OP_DCL_HS_FORK_PHASE_INSTANCE_COUNT
                        then DXBC_HULL_PHASE_FORK else DXBC_HULL_PHASE_JOIN) ->
    phase_has_executable st = false -> instance_count_declared phase = false ->
    declares ins 2 -> control_of ins = 0 -> 1 <= token_of ins 1 < 2 ^ 32 ->
    step ins st (st <| contract_of ::= fun c => c <| hull_phases ::= update_last (fun phase =>
      phase <| instance_count_declared := true |> <| instance_count := token_of ins 1 |>) |> |>)
| step_declaration :
    class ins = Declaration ->
    (if is_hull st then seen_phase st && phase_has_executable st else seen_any_executable st)
      = false ->
    step ins st st
| step_executable :
    class ins = Executable -> is_hull st = false ->
    step ins st (st <| seen_any_executable := true |>)
| step_hull_executable :
    class ins = Executable -> is_hull st = true -> seen_phase st = true ->
    step ins st (st <| seen_any_executable := true |> <| phase_has_executable := true |>
      <| contract_of ::= fun c => c <| hull_phases ::= update_last (fun phase =>
           phase <| phase_end_instruction_index := u32 (ins_index ins + 1) |>) |> |>).

(** * Soundness of the operations *)

(** A report of the decoder names a status other than OK. *)
Definition reported (e : DXBCStageContractDiagnostic) : Prop := status e <> DXBC_STAGE_CONTRACT_OK.

Section soundness.
Context `{U : UnityCommon} {HU : UnityCommonSpec U}.
Context (ins : DXBCDocumentInstruction) (Hwf : well_formed ins).

Lemma outcome_fail_at {A} st x a (Q : A -> Prop) :
  st <> DXBC_STAGE_CONTRACT_OK -> outcome (fail_at ins st x a) Q reported.
Proof. done. Qed.

Lemma instruction_token_spec k :
  0 <= k ->
  outcome (instruction_token ins k)
    (fun t => t = token_of ins k /\ k < ins_token_count ins /\ in_u32 t) reported.
Proof.
  intros Hk. unfold instruction_token, dxbc_document_instruction_token. destruct Hwf as [Hc Hr].
  destruct (Z.leb_spec (ins_token_count ins) k); [done|].
  wrap. rewrite read_u32_le_ok by lia. split; [by rewrite (Z.mul_comm k)|].
  split; [done|]. apply le32_range; lia.
Qed.

Lemma control_range : 0 <= control_of ins < 8192.
Proof.
  unfold control_of. change 0x1fff with (2 ^ 13 - 1). rewrite land_ones_mod by lia.
  apply Z.mod_pos_bound. lia.
Qed.

Lemma declaration_header_spec n :
  outcome (declaration_header ins n) (fun c => c = control_of ins /\ declares ins n) reported.
Proof.
  unfold declaration_header. apply outcome_bind.
  eapply outcome_mono; [by apply instruction_token_spec| |done]. intros t (-> & _ & _).
  apply outcome_if; intros Hb; [done|]. bools.
  apply outcome_if; intros Ht; [done|].
  split; [done|]. by split.
Qed.

(** Use the token lemma, or the header lemma, for the next read. *)
Ltac read_token :=
  apply outcome_bind; eapply outcome_mono; [apply instruction_token_spec; lia| |done];
  let H := fresh "Hrange" in intros ? (-> & ? & H); unfold in_u32 in H.
Ltac read_header :=
  apply outcome_bind; eapply outcome_mono; [by apply declaration_header_spec| |done];
  intros ? (-> & Hdecl).
(** One pass_guard of the code: report, or go on. *)
Ltac pass_guard := apply outcome_if; [intros _; by apply outcome_fail_at|intros ?; bools].

Lemma scalar_declaration_spec :
  outcome (scalar_declaration ins)
    (fun v => v = token_of ins 1 /\ in_u32 v /\ declares ins 2 /\ control_of ins = 0) reported.
Proof.
  unfold scalar_declaration. read_header. pass_guard.
  eapply outcome_mono; [by apply instruction_token_spec| |done]. by intros t (-> & _ & Ht).
Qed.

Lemma decode_enum_declaration_spec present validator :
  outcome (decode_enum_declaration ins present validator)
    (fun v => v = control_of ins /\ present = false /\ validator v = true) reported.
Proof. unfold decode_enum_declaration, declaration_control. read_header. pass_guard. pass_guard. done. Qed.

Lemma decode_count_declaration_spec scalar maximum present :
  outcome (decode_count_declaration ins scalar maximum present)
    (fun v => v = (if scalar then token_of ins 1 else control_of ins) /\ present = false /\
              1 <= v <= maximum) reported.
Proof.
  unfold decode_count_declaration, declaration_control. apply outcome_bind.
  apply (outcome_mono _ (fun v => v = (if scalar then token_of ins 1 else control_of ins) /\ 0 <= v)
           _ reported); [|intros v (-> & Hv)|done].
  - destruct scalar.
    + eapply outcome_mono; [apply scalar_declaration_spec| |done].
      intros v (-> & Hv & _). unfold in_u32 in Hv. split; [done|lia].
    + eapply outcome_mono; [apply declaration_header_spec| |done].
      intros v (-> & _). pose proof control_range. split; [done|lia].
  - pass_guard. pass_guard. split; [done|]. split; [done|lia].
Qed.

Lemma u8_stream s : 0 <= s <= 3 -> u8 s = s.
Proof. intros. apply u8_small. lia. Qed.

(** The sizes of a decoder's state that its arithmetic relies on. *)
Definition state_ok (st : decode_state) : Prop :=
  0 <= thread_group_shared_memory_bytes (contract_of st) <= 32768 /\
  (seen_phase st = true -> hull_phases (contract_of st) <> []).

Lemma thread_group_axis_spec axis maximum :
  0 <= axis ->
  outcome (thread_group_axis ins axis maximum)
    (fun v => v = token_of ins (axis + 1) /\ 1 <= v <= maximum) reported.
Proof. intros Ha. unfold thread_group_axis. read_token. pass_guard. split; [done|lia]. Qed.

Lemma group_product x y z :
  1 <= x <= 1024 -> 1 <= y <= 1024 -> 1 <= z <= 64 -> u64 (u64 (u64 (1 * x) * y) * z) = x * y * z.
Proof.
  intros Hx Hy Hz. assert (0 <= x * y <= 1024 * 1024) by nia.
  assert (0 <= x * y * z <= 1024 * 1024 * 64)
    by (split; [apply Z.mul_nonneg_nonneg|apply Z.mul_le_mono_nonneg]; lia).
  rewrite (u64_small (1 * x)), Z.mul_1_l by lia. rewrite (u64_small (x * y)) by lia.
  apply u64_small. lia.
Qed.

Lemma decode_thread_group_spec c :
  outcome (decode_thread_group ins c)
    (fun c' => declares ins 4 /\ control_of ins = 0 /\ has_thread_group_size c = false /\
       valid_thread_group (shader_model_major c) (token_of ins 1) (token_of ins 2) (token_of ins 3) /\
       c' = c <| has_thread_group_size := true |>
              <| thread_group_size := [token_of ins 1; token_of ins 2; token_of ins 3] |>
              <| thread_group_declaration_instruction_index := ins_index ins |>) reported.
Proof.
  unfold decode_thread_group. read_header. pass_guard. pass_guard. cbn zeta.
  set (m := if shader_model_major c =? 4 then 768 else 1024).
  set (mz := if shader_model_major c =? 4 then 1 else 64).
  assert (Hm : m <= 1024 /\ mz <= 64) by (unfold m, mz; case_match; lia).
  do 3 (apply outcome_bind; eapply outcome_mono; [by apply thread_group_axis_spec| |done];
        intros ? (-> & ?)).
  change (0 + 1) with 1 in *. change (1 + 1) with 2 in *. change (2 + 1) with 3 in *.
  rewrite group_product by lia. pass_guard.
  split; [done|]. split; [done|]. split; [done|]. split; [|done].
  unfold valid_thread_group. fold m mz. lia.
Qed.

Lemma land3_mod z : Z.land z 3 = z mod 4.
Proof. change 3 with (2 ^ 2 - 1). by rewrite land_ones_mod. Qed.

Lemma valid_memory_of :
  in_u32 (token_of ins 2) -> token_of ins 2 < 8192 -> 1 <= token_of ins 3 -> token_of ins 3 mod 4 = 0 ->
  (structured_memory ins = true -> 1 <= token_of ins 4) -> memory_size ins <= 32768 ->
  valid_memory (memory_of ins).
Proof.
  unfold memory_size, memory_of, memory_size. intros Hr Hr' H3 Hal H4 Hs.
  assert (H3' : 4 <= token_of ins 3) by (Z.div_mod_to_equations; lia).
  split; cbn; destruct (structured_memory ins); try done; rewrite ?Z.mul_1_r in *; try lia.
  all: try (specialize (H4 eq_refl); nia).
  by rewrite <- Z.mul_mod_idemp_l, Hal.
Qed.

Lemma existsb_registers r l :
  existsb (fun m => memory_register_id m =? r) l = false ->
  Forall (fun m => memory_register_id m <> r) l.
Proof.
  induction l as [|m l IH]; cbn [existsb]; intros H; [constructor|]. bools. constructor; auto.
Qed.

Lemma decode_shared_memory_spec c :
  0 <= thread_group_shared_memory_bytes c <= 32768 ->
  outcome (decode_shared_memory ins c)
    (fun c' => shader_model_major c = 5 /\ valid_memory (memory_of ins) /\
       memory_size ins + thread_group_shared_memory_bytes c <= 32768 /\
       Forall (fun m => memory_register_id m <> token_of ins 2) (thread_group_shared_memory c) /\
       exists capacity, c' = c <| thread_group_shared_memory ::= fun l => l ++ [memory_of ins] |>
              <| thread_group_shared_memory_capacity := capacity |>
              <| thread_group_shared_memory_bytes ::= fun bytes => bytes + memory_size ins |>) reported.
Proof.
  intros Hbytes. unfold decode_shared_memory. pass_guard. cbn zeta.
  fold (structured_memory ins).
  read_header. read_token. read_token. read_token. apply outcome_bind.
  apply (outcome_mono _ (fun n => n = (if structured_memory ins then token_of ins 4 else 1) /\ in_u32 n)
           _ reported); [|intros n [Hn Hnr]|done].
  { destruct (structured_memory ins); [|done].
    eapply outcome_mono; [by apply instruction_token_spec| |done]. by intros t (-> & _ & Ht). }
  unfold in_u32 in Hnr. pass_guard. pass_guard.
  assert (Hprod : 0 <= token_of ins 3 * n < 2 ^ 64) by nia.
  rewrite (u64_small (token_of ins 3 * n)) by lia.
  assert (Hsize : token_of ins 3 * n = memory_size ins) by (unfold memory_size; by rewrite Hn).
  rewrite Hsize in *. pass_guard. 
  match goal with H : u64 _ <= _ |- _ => rewrite u64_small in H by lia end.
  rewrite land3_mod in *. apply outcome_if; [intros _; by apply outcome_fail_at|].
  intros Hdup%existsb_registers.
  destruct (reserve_execution_array _ _ _) as [capacity|]; [|by apply outcome_fail_at].
  apply outcome_ret. split; [done|]. split.
  { apply valid_memory_of; try (unfold in_u32; lia). intros Hst. rewrite Hst in Hn. lia. }
  split; [lia|]. split; [done|]. exists capacity. expand_fields. cbn [memory_byte_count]. rewrite Hn. unfold memory_of.
  assert (Hu : u32 (memory_size ins) = memory_size ins) by (apply u32_small; lia).
  destruct (structured_memory ins); by rewrite Hu, (u32_small (thread_group_shared_memory_bytes c + _)) by lia.
Qed.

(** The opcodes of a class that the tests of the code name. *)
Lemma class_thread_group :
  opcode_in (ins_opcode ins) [OP_DCL_THREAD_GROUP; OP_DCL_TGSM_RAW; OP_DCL_TGSM_STRUCTURED] = true ->
  class ins = if ins_opcode ins =? OP_DCL_THREAD_GROUP then ThreadGroup else SharedMemory.
Proof. intros H. unfold class_of. by rewrite H. Qed.

Lemma decode_compute_declaration_spec st :
  opcode_in (ins_opcode ins) [OP_DCL_THREAD_GROUP; OP_DCL_TGSM_RAW; OP_DCL_TGSM_STRUCTURED] = true ->
  state_ok st -> outcome (decode_compute_declaration ins st) (step ins st) reported.
Proof.
  intros Hop%class_thread_group [Hbytes _]. unfold decode_compute_declaration. pass_guard. pass_guard.
  unfold with_contract. apply outcome_bind.
  destruct (Z.eqb_spec (ins_opcode ins) OP_DCL_THREAD_GROUP) as [Htg|Htg].
  - eapply outcome_mono; [apply decode_thread_group_spec| |done].
    intros c' (? & ? & ? & ? & ->). by apply step_thread_group.
  - eapply outcome_mono; [by apply decode_shared_memory_spec| |done].
    intros c' (? & ? & ? & ? & capacity & ->). by apply step_shared_memory.
Qed.

Lemma barrier_flags_spec p :
  negb (Z.land (control_of ins) 0xfffffff0 =? 0) ||
  (if p =? DXBC_PROGRAM_TYPE_COMPUTE
   then (Z.land (control_of ins) 0xe =? 0) || (Z.land (control_of ins) 0xc =? 0xc)
   else negb (control_of ins =? DXBC_SYNC_UAV_MEMORY_GLOBAL)) = false ->
  valid_barrier_flags p (control_of ins).
Proof.
  intros H. bools. pose proof control_range as Hr. split.
  - assert (Hs : Z.shiftr (control_of ins) 4 = 0).
    { apply Z.bits_inj'. intros k Hk. rewrite Z.shiftr_spec, Z.bits_0 by done.
      assert (Hb : Z.testbit (Z.land (control_of ins) 0xfffffff0) (k + 4) = false)
        by (rewrite H; apply Z.bits_0).
      rewrite Z.land_spec in Hb. destruct (Z.lt_ge_cases (k + 4) 32).
      - assert (Hm : Z.testbit 0xfffffff0 (k + 4) = true); [|by rewrite Hm, andb_true_r in Hb].
        change 0xfffffff0 with (Z.shiftl (Z.ones 28) 4).
        rewrite Z.shiftl_spec, Z.add_simpl_r by lia. apply Z.ones_spec_low. lia.
      - apply (testbit_above _ 13); [done|lia]. }
    rewrite Z.shiftr_div_pow2 in Hs by done. change (2 ^ 4) with 16 in Hs.
    Z.div_mod_to_equations; lia.
  - destruct (p =? DXBC_PROGRAM_TYPE_COMPUTE); bools; done.
Qed.

Lemma decode_sync_spec st :
  ins_opcode ins = OP_SYNC -> outcome (decode_sync ins st) (step ins st) reported.
Proof.
  intros Hop. unfold decode_sync. apply outcome_if; [done|].
  intros Hstage. apply andb_false_iff in Hstage.
  unfold with_contract, decode_memory_barrier. apply outcome_bind.
  read_header. apply outcome_if; [done|]. intros Hflags%barrier_flags_spec.
  destruct (reserve_execution_array _ _ _) as [capacity|]; [|done].
  apply outcome_ret. pose proof control_range. rewrite u8_small by (destruct Hflags; lia).
  apply (step_barrier _ st capacity); [by rewrite Hop| |done..].
  destruct Hstage; bools; auto.
Qed.

Lemma decode_hs_decls_spec st :
  ins_opcode ins = OP_HS_DECLS -> outcome (decode_hs_decls ins st) (step ins st) reported.
Proof.
  intros Hop. unfold decode_hs_decls. do 3 pass_guard. read_header. pass_guard.
  apply step_hs_decls; [by rewrite Hop|done..].
Qed.

Lemma decode_phase_marker_spec st :
  class ins = PhaseMarker ->
  outcome (decode_phase_marker ins st) (step ins st) reported.
Proof.
  intros Hop. unfold decode_phase_marker. do 2 pass_guard. read_header. pass_guard. cbn zeta.
  apply outcome_if; [done|]. intros [Horder Hcp]%orb_false_iff. bools.
  apply outcome_bind. unfold append_phase.
  destruct (grow_array _ _ _ _) as [capacity|]; [|done].
  apply outcome_ret. apply (step_phase _ st capacity); try done.
  intros Hk. rewrite Hk in Hcp. by rewrite bool_decide_true in Hcp.
Qed.

Lemma decode_effect_case_spec st :
  class ins = GeometryEffect ->
  outcome (decode_effect_case ins st) (step ins st) reported.
Proof.
  intros Hop. unfold decode_effect_case, with_contract, decode_geometry_effect.
  pass_guard. fold (explicit_effect ins). apply outcome_bind. read_header. pass_guard.
  apply outcome_bind.
  apply (outcome_mono _ (fun s => s = effect_stream_id (effect_of ins) /\ 0 <= s <= 3 /\
           (explicit_effect ins = true -> token_of ins 1 = stream_operand)) _ reported);
    [|intros s (-> & Hs & Hoperand)|done].
  - cbn. destruct (explicit_effect ins); [|done]. read_token. read_token. do 2 pass_guard.
    split; [done|]. split; [lia|done].
  - rewrite u8_stream by done. unfold append_geometry_effect.
    destruct (grow_array _ _ _ _) as [capacity|]; [|done].
    by apply (step_effect _ st capacity).
Qed.

(** A declaration that opens with a stage test and reads one value. *)
Ltac read_value lemma :=
  apply outcome_bind; eapply outcome_mono; [apply lemma| |done].

(** The leading declarations of the [switch], reached when the order check before
    it passes. *)
Section leading.
Context (st : decode_state).
Hypothesis (Horder : is_leading_declaration (ins_opcode ins) &&
  (seen_any_executable st || (is_hull st && seen_phase st)) = false).

Lemma leading_order :
  is_leading_declaration (ins_opcode ins) = true ->
  seen_any_executable st = false /\ (is_hull st = true -> seen_phase st = false).
Proof.
  intros Hl. rewrite Hl in Horder. cbn [andb] in Horder. bools. split; [done|]. intros Hh.
  by rewrite Hh in *.
Qed.

Lemma geometry_order (opcode : Z) :
  ins_opcode ins = opcode ->
  opcode_in opcode [OP_DCL_INPUT_PRIMITIVE; OP_DCL_OUTPUT_TOPOLOGY;
    OP_DCL_MAX_OUTPUT_VERTEX_COUNT; OP_DCL_STREAM; OP_DCL_GS_INSTANCE_COUNT] = true ->
  class_of opcode = GeometryDeclaration ->
  class ins = GeometryDeclaration /\ seen_any_executable st = false.
Proof.
  intros Hop Hin Hclass. rewrite Hop. split; [done|]. apply leading_order. rewrite Hop.
  unfold is_leading_declaration. apply orb_true_iff. right. unfold opcode_in in *.
  cbn [existsb] in *. rewrite !orb_true_iff in *. tauto.
Qed.

Lemma decode_input_primitive_spec :
  ins_opcode ins = OP_DCL_INPUT_PRIMITIVE ->
  outcome (decode_input_primitive ins st) (step ins st) reported.
Proof.
  intros Hop. unfold decode_input_primitive. pass_guard. read_value decode_enum_declaration_spec.
  intros v (-> & ? & ?). destruct (geometry_order _ Hop eq_refl eq_refl).
  apply (step_geometry _ st _ (current_geometry_stream st)); [done..|]. by constructor.
Qed.

Lemma decode_output_topology_spec :
  ins_opcode ins = OP_DCL_OUTPUT_TOPOLOGY ->
  outcome (decode_output_topology ins st) (step ins st) reported.
Proof.
  intros Hop. unfold decode_output_topology. pass_guard. read_value decode_enum_declaration_spec.
  intros v (-> & ? & ?). apply outcome_if; [done|]. intros Hsame. bools.
  destruct (geometry_order _ Hop eq_refl eq_refl).
  apply (step_geometry _ st _ (current_geometry_stream st)); [done..|].
  apply declare_output_topology; [done..|]. intros Hhas. rewrite Hhas in Hsame. cbn in Hsame.
  by bools.
Qed.

Lemma decode_max_output_vertex_count_spec :
  ins_opcode ins = OP_DCL_MAX_OUTPUT_VERTEX_COUNT ->
  outcome (decode_max_output_vertex_count ins st) (step ins st) reported.
Proof.
  intros Hop. unfold decode_max_output_vertex_count. pass_guard.
  read_value decode_count_declaration_spec. intros v (-> & ? & ?).
  destruct (geometry_order _ Hop eq_refl eq_refl).
  apply (step_geometry _ st _ (current_geometry_stream st)); [done..|]. by constructor.
Qed.

Lemma decode_gs_instance_count_spec :
  ins_opcode ins = OP_DCL_GS_INSTANCE_COUNT ->
  outcome (decode_gs_instance_count ins st) (step ins st) reported.
Proof.
  intros Hop. unfold decode_gs_instance_count. pass_guard.
  read_value decode_count_declaration_spec. intros v (-> & ? & ?).
  destruct (geometry_order _ Hop eq_refl eq_refl).
  apply (step_geometry _ st _ (current_geometry_stream st)); [done..|]. by constructor.
Qed.

Lemma decode_stream_case_spec :
  ins_opcode ins = OP_DCL_STREAM -> outcome (decode_stream_case ins st) (step ins st) reported.
Proof.
  intros Hop. unfold decode_stream_case, decode_stream. pass_guard. apply outcome_bind.
  read_header. read_token. read_token. do 4 pass_guard.
  rewrite u8_stream by lia. destruct (geometry_order _ Hop eq_refl eq_refl).
  apply (step_geometry _ st _ (token_of ins 2)); [done..|]. constructor; lia || done.
Qed.

Lemma tessellation_order :
  OP_DCL_INPUT_CONTROL_POINT_COUNT <= ins_opcode ins <= OP_DCL_HS_MAX_TESS_FACTOR ->
  seen_any_executable st = false /\ (is_hull st = true -> seen_phase st = false).
Proof.
  intros Hop. apply leading_order. unfold is_leading_declaration. apply orb_true_iff. left. lia.
Qed.

Ltac tessellation_step Hop :=
  destruct tessellation_order; [rewrite Hop; by split|];
  eapply step_tessellation; [by rewrite Hop| |done|done|].

Lemma hull_or_domain opcode :
  negb (is_hull st) && negb (is_domain st) = false ->
  ins_opcode ins = opcode ->
  opcode = OP_DCL_INPUT_CONTROL_POINT_COUNT \/ opcode = OP_DCL_TESSELLATOR_DOMAIN ->
  is_hull st = true \/ is_domain st = true /\
    (ins_opcode ins = OP_DCL_INPUT_CONTROL_POINT_COUNT \/
     ins_opcode ins = OP_DCL_TESSELLATOR_DOMAIN).
Proof. intros H ->. rewrite andb_false_iff, !negb_false_iff in H. intuition. Qed.

Lemma decode_input_control_point_count_spec :
  ins_opcode ins = OP_DCL_INPUT_CONTROL_POINT_COUNT ->
  outcome (decode_input_control_point_count ins st) (step ins st) reported.
Proof.
  intros Hop. unfold decode_input_control_point_count. pass_guard.
  read_value decode_count_declaration_spec. intros v (-> & ? & ?).
  tessellation_step Hop; [eapply hull_or_domain; eauto|]. by constructor.
Qed.

Lemma decode_output_control_point_count_spec :
  ins_opcode ins = OP_DCL_OUTPUT_CONTROL_POINT_COUNT ->
  outcome (decode_output_control_point_count ins st) (step ins st) reported.
Proof.
  intros Hop. unfold decode_output_control_point_count. pass_guard.
  read_value decode_count_declaration_spec. intros v (-> & ? & ?).
  tessellation_step Hop; [by left|]. by constructor.
Qed.

Lemma decode_tessellator_domain_spec :
  ins_opcode ins = OP_DCL_TESSELLATOR_DOMAIN ->
  outcome (decode_tessellator_domain ins st) (step ins st) reported.
Proof.
  intros Hop. unfold decode_tessellator_domain. pass_guard.
  read_value decode_enum_declaration_spec. intros v (-> & ? & ?).
  tessellation_step Hop; [eapply hull_or_domain; eauto|]. by constructor.
Qed.

Lemma decode_tessellator_partitioning_spec :
  ins_opcode ins = OP_DCL_TESSELLATOR_PARTITIONING ->
  outcome (decode_tessellator_partitioning ins st) (step ins st) reported.
Proof.
  intros Hop. unfold decode_tessellator_partitioning. pass_guard.
  read_value decode_enum_declaration_spec. intros v (-> & ? & ?).
  tessellation_step Hop; [by left|]. by constructor.
Qed.

Lemma decode_tessellator_output_primitive_spec :
  ins_opcode ins = OP_DCL_TESSELLATOR_OUTPUT_PRIMITIVE ->
  outcome (decode_tessellator_output_primitive ins st) (step ins st) reported.
Proof.
  intros Hop. unfold decode_tessellator_output_primitive. pass_guard.
  read_value decode_enum_declaration_spec. intros v (-> & ? & ?).
  tessellation_step Hop; [by left|]. by constructor.
Qed.

Lemma decode_max_tessellation_factor_spec :
  ins_opcode ins = OP_DCL_HS_MAX_TESS_FACTOR ->
  outcome (decode_max_tessellation_factor ins st) (step ins st) reported.
Proof.
  intros Hop. unfold decode_max_tessellation_factor. do 2 pass_guard.
  read_value scalar_declaration_spec. intros v (-> & Hv & ? & ?). cbn zeta. pass_guard.
  tessellation_step Hop; [by left|]. by apply declare_max_factor.
Qed.
End leading.

Lemma decode_phase_instance_count_spec st :
  class ins = InstanceCount ->
  outcome (decode_phase_instance_count ins st) (step ins st) reported.
Proof.
  intros Hop. unfold decode_phase_instance_count.
  destruct (is_hull st) eqn:Hhull; [|done].
  destruct (list.last _) as [phase|] eqn:Hlast; [|done]. cbn zeta. do 2 pass_guard.
  read_value scalar_declaration_spec. intros v (-> & Hv & ? & ?). unfold in_u32 in Hv. pass_guard.
  by apply (step_instance_count _ st phase); try lia.
Qed.

Lemma decode_other_spec st :
  class ins = (if is_declaration_opcode (ins_opcode ins) then Declaration else Executable) ->
  state_ok st -> outcome (decode_other ins st) (step ins st) reported.
Proof.
  intros Hclass [_ Hphase]. unfold decode_other.
  destruct (is_declaration_opcode (ins_opcode ins)) eqn:Hdecl.
  - pass_guard. apply step_declaration; [done|]. by destruct (is_hull st); cbn [andb negb] in *; bools.
  - destruct (is_hull st) eqn:Hhull; cbn [andb negb].
    + pass_guard. cbn zeta. change (is_hull (st <| seen_any_executable := true |>)) with (is_hull st).
      rewrite Hhull. change (contract_of (st <| _ := _ |>)) with (contract_of st).
      destruct (hull_phases (contract_of st)) eqn:Hp; [by destruct Hphase|].
      by apply step_hull_executable.
    + change (is_hull (st <| seen_any_executable := true |>)) with (is_hull st). rewrite Hhull.
      by apply step_executable.
Qed.

(** The dispatch. *)
Lemma decode_instruction_sound st :
  state_ok st -> outcome (decode_instruction_contract ins st) (step ins st) reported.
Proof.
  intros Hst. unfold decode_instruction_contract.
  assert (Hclass : class ins = class_of (ins_opcode ins)) by done. unfold class_of at 2 in Hclass.
  apply outcome_if; intros H1; rewrite H1 in Hclass; [by apply decode_compute_declaration_spec|].
  apply outcome_if; intros H2; rewrite H2 in Hclass; [bools; by apply decode_sync_spec|].
  apply outcome_if; intros H3; rewrite H3 in Hclass; [bools; by apply decode_hs_decls_spec|].
  apply outcome_if; intros H4; rewrite H4 in Hclass; [by apply decode_phase_marker_spec|].
  apply outcome_if; intros H5; [done|]. unfold decode_switch.
  apply outcome_if; intros H6; rewrite H6 in Hclass; [by apply decode_effect_case_spec|].
  apply outcome_if; intros H7; [bools; by apply decode_input_primitive_spec|].
  apply outcome_if; intros H8; [bools; by apply decode_output_topology_spec|].
  apply outcome_if; intros H9; [bools; by apply decode_max_output_vertex_count_spec|].
  apply outcome_if; intros H10; [bools; by apply decode_stream_case_spec|].
  apply outcome_if; intros H11; [bools; by apply decode_gs_instance_count_spec|].
  assert (Hgeom : opcode_in (ins_opcode ins) [OP_DCL_INPUT_PRIMITIVE; OP_DCL_OUTPUT_TOPOLOGY;
    OP_DCL_MAX_OUTPUT_VERTEX_COUNT; OP_DCL_STREAM; OP_DCL_GS_INSTANCE_COUNT] = false)
    by (unfold opcode_in; cbn [existsb]; by rewrite H7, H8, H9, H10, H11).
  rewrite Hgeom in Hclass.
  apply outcome_if; intros H12; [bools; by apply decode_input_control_point_count_spec|].
  apply outcome_if; intros H13; [bools; by apply decode_output_control_point_count_spec|].
  apply outcome_if; intros H14; [bools; by apply decode_tessellator_domain_spec|].
  apply outcome_if; intros H15; [bools; by apply decode_tessellator_partitioning_spec|].
  apply outcome_if; intros H16; [bools; by apply decode_tessellator_output_primitive_spec|].
  apply outcome_if; intros H17; [bools; by apply decode_max_tessellation_factor_spec|].
  assert (Htess : (OP_DCL_INPUT_CONTROL_POINT_COUNT <=? ins_opcode ins) &&
    (ins_opcode ins <=? OP_DCL_HS_MAX_TESS_FACTOR) = false) by (opcodes; lia).
  rewrite Htess in Hclass.
  apply outcome_if; intros H18; rewrite H18 in Hclass; [by apply decode_phase_instance_count_spec|].
  by apply decode_other_spec.
Qed.
End soundness.
