(* ===== verification/StageContractCorrect.v ===== *)
(** Runs of the stage-contract decoder over a parsed document, the invariants
    they maintain, and the properties of dxbc_stage_contract.c. *)

From S2P Require Import Prelude UnityCommon Hash ShaderStage Document DocumentFormat Samples.
From S2P Require Import DocumentCorrect StageContract StageContractSteps.

(** * Runs *)

Inductive run_of : list DXBCDocumentInstruction -> decode_state -> decode_state -> Prop :=
| run_of_nil st : run_of [] st st
| run_of_cons ins l st st' st'' : step ins st st' -> run_of l st' st'' -> run_of (ins :: l) st st''.

(** A property that every step preserves holds along a run. *)
Lemma run_invariant (I : decode_state -> Prop) l st st' :
  (forall ins s s', step ins s s' -> I s -> I s') -> run_of l st st' -> I st -> I st'.
Proof. intros Hstep. induction 1; eauto. Qed.

(** What the instructions of one class contribute, in order. *)
Definition of_class {A} (c : opcode_class) (f : DXBCDocumentInstruction -> A)
    (l : list DXBCDocumentInstruction) : list A :=
  f <$> filter (fun ins => class ins = c) l.

Lemma of_class_cons {A} c (f : DXBCDocumentInstruction -> A) ins l :
  of_class c f (ins :: l) = (if decide (class ins = c) then [f ins] else []) ++ of_class c f l.
Proof. unfold of_class. rewrite filter_cons. by case_decide. Qed.

(** An observation that each step extends by its instruction's contribution. *)
Lemma run_events {A} (obs : decode_state -> list A) c f l st st' :
  (forall ins s s', step ins s s' ->
     obs s' = obs s ++ if decide (class ins = c) then [f ins] else []) ->
  run_of l st st' -> obs st' = obs st ++ of_class c f l.
Proof.
  intros Hstep. induction 1 as [st|ins l st st' st'' Hs _ IH]; [by rewrite app_nil_r|].
  by rewrite IH, (Hstep _ _ _ Hs), of_class_cons, app_assoc.
Qed.

(** * The hull phases as a list with a current element *)

Lemma update_last_snoc {A} (f : A -> A) l x : update_last f (l ++ [x]) = l ++ [f x].
Proof.
  induction l as [|y l IH]; [done|]. cbn [app update_last].
  destruct (l ++ [x]) eqn:E; [by destruct l|]. by rewrite IH.
Qed.

Lemma update_last_nil {A} (f : A -> A) l : update_last f l = [] <-> l = [].
Proof. destruct l as [|x l]; [done|]. cbn. destruct l; done. Qed.

Lemma snoc_cases {A} (l : list A) : l = [] \/ exists l' x, l = l' ++ [x].
Proof. destruct l using rev_ind; eauto. Qed.

Lemma update_last_fmap {A B} (g : A -> B) f l :
  (forall x, g (f x) = g x) -> g <$> update_last f l = g <$> l.
Proof.
  intros Hg. destruct (snoc_cases l) as [->|(l' & x & ->)]; [done|].
  rewrite update_last_snoc, !fmap_app. cbn. by rewrite Hg.
Qed.

(** * Steps split by what they touch *)

Definition same_program (c c' : DXBCStageContract) : Prop :=
  version_token c' = version_token c /\ program_type c' = program_type c /\
  shader_model_major c' = shader_model_major c /\ shader_model_minor c' = shader_model_minor c /\
  executable_chunk_index c' = executable_chunk_index c /\
  first_instruction_index c' = first_instruction_index c /\
  end_instruction_index c' = end_instruction_index c.

Lemma geometry_frame ins c s c' s' :
  geometry_declaration ins c s c' s' ->
  same_program c c' /\ geometry_effects c' = geometry_effects c /\
  referenced_stream_mask c' = referenced_stream_mask c /\
  hull_phases c' = hull_phases c /\ has_thread_group_size c' = has_thread_group_size c /\
  thread_group_size c' = thread_group_size c /\
  thread_group_shared_memory_bytes c' = thread_group_shared_memory_bytes c /\
  thread_group_shared_memory c' = thread_group_shared_memory c /\
  memory_barriers c' = memory_barriers c.
Proof. destruct 1; fields; unfold same_program; fields; intuition. Qed.

Lemma tessellation_frame ins c c' :
  tessellation_declaration ins c c' ->
  same_program c c' /\ geometry_effects c' = geometry_effects c /\
  referenced_stream_mask c' = referenced_stream_mask c /\
  hull_phases c' = hull_phases c /\ has_thread_group_size c' = has_thread_group_size c /\
  thread_group_size c' = thread_group_size c /\
  thread_group_shared_memory_bytes c' = thread_group_shared_memory_bytes c /\
  thread_group_shared_memory c' = thread_group_shared_memory c /\
  memory_barriers c' = memory_barriers c.
Proof. destruct 1; fields; unfold same_program; fields; intuition. Qed.

Lemma step_program ins st st' : step ins st st' -> same_program (contract_of st) (contract_of st').
Proof.
  destruct 1; fields; try (by unfold same_program; fields).
  - by eapply geometry_frame.
  - by eapply tessellation_frame.
Qed.

(** * The arrays of the contract, in instruction order *)

(** Each step, by the class of its instruction. *)
Ltac step_cases :=
  destruct 1; fields;
  try match goal with
  | H : geometry_declaration _ _ _ _ _ |- _ => apply geometry_frame in H; intuition idtac
  | H : tessellation_declaration _ _ _ |- _ => apply tessellation_frame in H; intuition idtac
  end.

Ltac step_event :=
  step_cases; case_decide; try congruence; rewrite ?app_nil_r; try done; try congruence.

Lemma step_effects ins s s' : step ins s s' ->
  geometry_effects (contract_of s') = geometry_effects (contract_of s) ++
    if decide (class ins = GeometryEffect) then [effect_of ins] else [].
Proof. step_event. Qed.

Lemma step_barriers ins s s' : step ins s s' ->
  memory_barriers (contract_of s') = memory_barriers (contract_of s) ++
    if decide (class ins = Barrier) then [barrier_of ins] else [].
Proof. step_event. Qed.

Lemma step_memories ins s s' : step ins s s' ->
  thread_group_shared_memory (contract_of s') = thread_group_shared_memory (contract_of s) ++
    if decide (class ins = SharedMemory) then [memory_of ins] else [].
Proof. step_event. Qed.

(** A phase, as its marker identifies it. *)
Definition phase_marker (p : DXBCHullPhaseContract) : DXBCHullPhaseKind * Z :=
  (phase_kind p, marker_instruction_index p).

Definition marker_of (ins : DXBCDocumentInstruction) : DXBCHullPhaseKind * Z :=
  (marker_kind (ins_opcode ins), ins_index ins).

Lemma step_markers ins s s' : step ins s s' ->
  phase_marker <$> hull_phases (contract_of s') = (phase_marker <$> hull_phases (contract_of s)) ++
    if decide (class ins = PhaseMarker) then [marker_of ins] else [].
Proof.
  step_cases; case_decide; try congruence; rewrite ?app_nil_r; try done; try congruence.
  - rewrite fmap_app, update_last_fmap by done. done.
  - by rewrite update_last_fmap.
  - by rewrite update_last_fmap.
Qed.

(** * Compute *)

Definition memory_total (l : list DXBCThreadGroupSharedMemoryContract) : Z :=
  foldr Z.add 0 (memory_byte_count <$> l).

Record compute_ok (c : DXBCStageContract) : Prop := {
  compute_group : has_thread_group_size c = true -> exists x y z,
    thread_group_size c = [x; y; z] /\ valid_thread_group (shader_model_major c) x y z;
  compute_bytes : thread_group_shared_memory_bytes c = memory_total (thread_group_shared_memory c);
  compute_limit : thread_group_shared_memory_bytes c <= 32768;
  compute_memory : Forall valid_memory (thread_group_shared_memory c);
  compute_registers : NoDup (memory_register_id <$> thread_group_shared_memory c);
  compute_barriers :
    Forall (fun b => valid_barrier_flags (program_type c) (barrier_flags b)) (memory_barriers c);
}.

Lemma memory_total_snoc l m : memory_total (l ++ [m]) = memory_total l + memory_byte_count m.
Proof.
  unfold memory_total. rewrite fmap_app, foldr_app. cbn.
  induction l as [|x l IH]; cbn; [lia|]. rewrite IH. lia.
Qed.

Lemma memory_total_nonneg l : Forall valid_memory l -> 0 <= memory_total l.
Proof.
  induction 1 as [|m l Hm _ IH]; [done|]. unfold memory_total in *. cbn [fmap list_fmap foldr].
  destruct Hm. cbn [fmap] in IH. lia.
Qed.

Lemma NoDup_snoc {A} (l : list A) x : NoDup l -> x ∉ l -> NoDup (l ++ [x]).
Proof.
  intros Hl Hx. apply list.NoDup_app. split; [done|]. split; [|apply NoDup_singleton].
  intros y Hy ->%list_elem_of_singleton. done.
Qed.

(** [compute_ok] reads only these fields. *)
Lemma compute_ok_frame c c' :
  program_type c' = program_type c -> shader_model_major c' = shader_model_major c ->
  has_thread_group_size c' = has_thread_group_size c ->
  thread_group_size c' = thread_group_size c ->
  thread_group_shared_memory_bytes c' = thread_group_shared_memory_bytes c ->
  thread_group_shared_memory c' = thread_group_shared_memory c ->
  memory_barriers c' = memory_barriers c -> compute_ok c -> compute_ok c'.
Proof.
  intros H1 H2 H3 H4 H5 H6 H7 []. split; rewrite ?H1, ?H2, ?H3, ?H4, ?H5, ?H6, ?H7 in *; done.
Qed.

Lemma step_compute ins s s' :
  step ins s s' -> compute_ok (contract_of s) -> compute_ok (contract_of s').
Proof.
  destruct 1; intros Hok; try (by eapply compute_ok_frame; [..|exact Hok]).
  - destruct Hok. split; fields; try done. eauto 10.
  - destruct Hok. split; fields; try done.
    + rewrite memory_total_snoc, <- compute_bytes0. done.
    + lia.
    + apply Forall_app. split; [done|]. by constructor.
    + rewrite fmap_app. apply NoDup_snoc; [done|].
      intros (m & Heq & Hm)%list_elem_of_fmap.
      match goal with H : Forall (fun m => memory_register_id m <> _) _ |- _ =>
        rewrite list.Forall_forall in H; by apply (H m Hm) end.
  - destruct Hok. split; fields; try done. apply Forall_app. split; [done|]. by constructor.
  - match goal with H : geometry_declaration _ _ _ _ _ |- _ => apply geometry_frame in H end.
    unfold same_program in *. by eapply compute_ok_frame; [..|exact Hok]; fields; intuition.
  - match goal with H : tessellation_declaration _ _ _ |- _ => apply tessellation_frame in H end.
    unfold same_program in *. by eapply compute_ok_frame; [..|exact Hok]; fields; intuition.
Qed.

(** * Geometry *)

Record geometry_ok (c : DXBCStageContract) : Prop := {
  geometry_input : has_input_primitive c = true -> valid_input_primitive (input_primitive c) = true;
  geometry_topology :
    has_output_topology c = true -> valid_output_topology (output_topology c) = true;
  geometry_vertices : has_max_output_vertex_count c = true -> 1 <= max_output_vertex_count c <= 1024;
  geometry_instances : has_geometry_instance_count c = true -> 1 <= geometry_instance_count c <= 32;
  geometry_streams : 0 <= declared_stream_mask c < 16;
  geometry_effect_streams :
    Forall (fun e => 0 <= effect_stream_id e <= 3) (geometry_effects c);
  geometry_referenced k : 0 <= k ->
    Z.testbit (referenced_stream_mask c) k = true <->
    exists e, e ∈ geometry_effects c /\ effect_stream_id e = k;
}.

Lemma stream_bit_pow s : 0 <= s <= 3 -> stream_bit s = 2 ^ s.
Proof. intros Hs. assert (s = 0 \/ s = 1 \/ s = 2 \/ s = 3) as [->|[->|[->| ->]]] by lia; done. Qed.

Lemma stream_bit_range s : 0 <= s <= 3 -> 0 <= stream_bit s < 2 ^ 4.
Proof. intros Hs. assert (s = 0 \/ s = 1 \/ s = 2 \/ s = 3) as [->|[->|[->| ->]]] by lia; done. Qed.

Lemma testbit_lor_stream m s k :
  0 <= s <= 3 -> 0 <= k ->
  Z.testbit (Z.lor m (stream_bit s)) k = true <-> Z.testbit m k = true \/ s = k.
Proof.
  intros Hs Hk. rewrite stream_bit_pow, Z.lor_spec, Z.pow2_bits_eqb, orb_true_iff, Z.eqb_eq by lia.
  done.
Qed.

Lemma geometry_ok_frame c c' :
  has_input_primitive c' = has_input_primitive c -> input_primitive c' = input_primitive c ->
  has_output_topology c' = has_output_topology c -> output_topology c' = output_topology c ->
  has_max_output_vertex_count c' = has_max_output_vertex_count c ->
  max_output_vertex_count c' = max_output_vertex_count c ->
  has_geometry_instance_count c' = has_geometry_instance_count c ->
  geometry_instance_count c' = geometry_instance_count c ->
  declared_stream_mask c' = declared_stream_mask c ->
  referenced_stream_mask c' = referenced_stream_mask c ->
  geometry_effects c' = geometry_effects c -> geometry_ok c -> geometry_ok c'.
Proof.
  intros H1 H2 H3 H4 H5 H6 H7 H8 H9 H10 H11 [].
  split; intros *; rewrite ?H1, ?H2, ?H3, ?H4, ?H5, ?H6, ?H7, ?H8, ?H9, ?H10, ?H11 in *; auto.
Qed.

Lemma geometry_declaration_ok ins c stream c' stream' :
  geometry_declaration ins c stream c' stream' -> geometry_ok c -> geometry_ok c'.
Proof.
  destruct 1; intros []; split; fields; try done.
  apply (lor_lt_pow2 _ _ 4); [done|]. by apply stream_bit_range.
Qed.

Lemma tessellation_declaration_geometry ins c c' :
  tessellation_declaration ins c c' -> geometry_ok c -> geometry_ok c'.
Proof. destruct 1; intros Hok; by eapply geometry_ok_frame; [..|exact Hok]. Qed.

Lemma step_geometry_ok ins s s' :
  step ins s s' -> geometry_ok (contract_of s) -> geometry_ok (contract_of s').
Proof.
  destruct 1; intros Hok; try (by eapply geometry_ok_frame; [..|exact Hok]).
  - destruct Hok. split; fields; try done.
    + apply Forall_app. split; [done|]. by constructor.
    + intros k Hk. rewrite testbit_lor_stream by done. rewrite geometry_referenced0 by done.
      setoid_rewrite elem_of_app. setoid_rewrite list_elem_of_singleton.
      split; [intros [(e & He & Hs)| <-]; eauto|intros (e & [He| ->] & Hs); eauto].
  - by eapply geometry_declaration_ok.
  - by eapply tessellation_declaration_geometry.
Qed.

(** * Tessellation *)

Record tessellation_ok (c : DXBCStageContract) : Prop := {
  tess_input : has_input_control_point_count c = true -> 1 <= input_control_point_count c <= 32;
  tess_output : has_output_control_point_count c = true -> 1 <= output_control_point_count c <= 32;
  tess_domain : has_tessellator_domain c = true -> valid_domain (tessellator_domain c) = true;
  tess_partitioning : has_tessellator_partitioning c = true ->
    valid_partitioning (tessellator_partitioning c) = true;
  tess_primitive : has_tessellator_output_primitive c = true ->
    valid_output_primitive (tessellator_output_primitive c) = true;
  tess_factor : has_max_tessellation_factor c = true ->
    valid_factor (max_tessellation_factor c) /\
    max_tessellation_factor_bits c = max_tessellation_factor c;
}.

Lemma tessellation_ok_frame c c' :
  has_input_control_point_count c' = has_input_control_point_count c ->
  input_control_point_count c' = input_control_point_count c ->
  has_output_control_point_count c' = has_output_control_point_count c ->
  output_control_point_count c' = output_control_point_count c ->
  has_tessellator_domain c' = has_tessellator_domain c ->
  tessellator_domain c' = tessellator_domain c ->
  has_tessellator_partitioning c' = has_tessellator_partitioning c ->
  tessellator_partitioning c' = tessellator_partitioning c ->
  has_tessellator_output_primitive c' = has_tessellator_output_primitive c ->
  tessellator_output_primitive c' = tessellator_output_primitive c ->
  has_max_tessellation_factor c' = has_max_tessellation_factor c ->
  max_tessellation_factor c' = max_tessellation_factor c ->
  max_tessellation_factor_bits c' = max_tessellation_factor_bits c ->
  tessellation_ok c -> tessellation_ok c'.
Proof.
  intros H1 H2 H3 H4 H5 H6 H7 H8 H9 H10 H11 H12 H13 [].
  split; rewrite ?H1, ?H2, ?H3, ?H4, ?H5, ?H6, ?H7, ?H8, ?H9, ?H10, ?H11, ?H12, ?H13 in *; auto.
Qed.

Lemma tessellation_declaration_ok ins c c' :
  tessellation_declaration ins c c' -> tessellation_ok c -> tessellation_ok c'.
Proof. destruct 1; intros []; split; fields; done. Qed.

Lemma geometry_declaration_tessellation ins c stream c' stream' :
  geometry_declaration ins c stream c' stream' -> tessellation_ok c -> tessellation_ok c'.
Proof. destruct 1; intros Hok; by eapply tessellation_ok_frame; [..|exact Hok]. Qed.

Lemma step_tessellation_ok ins s s' :
  step ins s s' -> tessellation_ok (contract_of s) -> tessellation_ok (contract_of s').
Proof.
  destruct 1; intros Hok; try (by eapply tessellation_ok_frame; [..|exact Hok]).
  - by eapply geometry_declaration_tessellation.
  - by eapply tessellation_declaration_ok.
Qed.

(** The fields of a [float]'s bits. *)
Lemma float_fields b :
  in_u32 b -> exists s e f, 0 <= s <= 1 /\ 0 <= e < 256 /\ 0 <= f < 8388608 /\
    b = s * 2147483648 + e * 8388608 + f /\
    Z.testbit b 31 = (s =? 1) /\ Z.land (Z.shiftr b 23) 0xff = e /\ Z.land b 0x7fffff = f.
Proof.
  intros Hb. unfold in_u32 in Hb. exists (b / 2147483648), (b / 8388608 mod 256), (b mod 8388608).
  change 0xff with (2 ^ 8 - 1). change 0x7fffff with (2 ^ 23 - 1).
  rewrite !land_ones_mod, Z.shiftr_div_pow2 by lia.
  change (2 ^ 8) with 256. change (2 ^ 23) with 8388608.
  assert (Hs : 0 <= b / 2147483648 <= 1) by (Z.div_mod_to_equations; lia).
  assert (Hd : b / 2147483648 = b / 8388608 / 256) by (by rewrite Z.div_div).
  split; [done|]. split; [Z.div_mod_to_equations; lia|]. split; [Z.div_mod_to_equations; lia|].
  split; [rewrite Hd; Z.div_mod_to_equations; lia|]. split; [|done].
  destruct (Z.testbit b 31) eqn:Ht.
  - apply Z.testbit_true in Ht; [|done]. change (2 ^ 31) with 2147483648 in Ht.
    rewrite Z.mod_small in Ht by lia. by rewrite Ht.
  - apply Z.testbit_false in Ht; [|done]. change (2 ^ 31) with 2147483648 in Ht.
    rewrite Z.mod_small in Ht by lia. by rewrite Ht.
Qed.

Lemma valid_factor_bits b : in_u32 b -> valid_factor b -> 0x3f800000 <= b <= 0x42800000.
Proof.
  intros Hb [_ [Hlo Hhi]]. destruct (float_fields b Hb) as (s & e & f & Hs & He & Hf & Heq & Ht & Hexp & Hfrac).
  change (float_scaled float_one) with (2 ^ 149) in Hlo.
  change (float_scaled float_sixty_four) with (2 ^ 155) in Hhi.
  unfold float_scaled in *. rewrite Ht, Hexp, Hfrac in *. cbn zeta in *.
  set (m := if e =? 0 then f else Z.shiftl (0x800000 + f) (e - 1)) in *.
  assert (Hm : 0 <= m) by (unfold m; destruct (e =? 0); [lia|]; apply Z.shiftl_nonneg; lia).
  assert (Hp : 0 < 2 ^ 149) by lia.
  destruct (Z.eqb_spec s 1); [lia|]. assert (s = 0) as -> by lia.
  unfold m in *. clear m Ht. destruct (Z.eqb_spec e 0).
  { assert (2 ^ 23 <= 2 ^ 149) by (apply Z.pow_le_mono_r; lia). lia. }
  rewrite Z.shiftl_mul_pow2 in * by lia.
  assert (Hge : 127 <= e).
  { destruct (Z.lt_ge_cases e 127) as [Hlt|]; [exfalso|done].
    assert (2 ^ (e - 1) <= 2 ^ 125) by (apply Z.pow_le_mono_r; lia).
    assert (2 ^ 149 = 16777216 * 2 ^ 125) by done. nia. }
  assert (Hle : e < 133 \/ e = 133 /\ f = 0).
  { destruct (Z.lt_ge_cases e 133) as [|Hge']; [by left|right].
    assert (2 ^ 132 <= 2 ^ (e - 1)) by (apply Z.pow_le_mono_r; lia).
    assert (2 ^ 155 = 8388608 * 2 ^ 132) by done.
    assert (f = 0) by nia. split; [|done].
    destruct (Z.lt_ge_cases 133 e); [exfalso|lia].
    assert (2 ^ 133 <= 2 ^ (e - 1)) by (apply Z.pow_le_mono_r; lia).
    assert (2 ^ 133 = 2 * 2 ^ 132) by done. nia. }
  lia.
Qed.

(** * Hull phases *)

(** Each phase ends where the next begins. *)
Fixpoint contiguous (l : list DXBCHullPhaseContract) : Prop :=
  match l with
  | p :: (q :: _) as l' =>
      phase_end_instruction_index p = marker_instruction_index q /\ contiguous l'
  | _ => True
  end.

Record valid_phase (p : DXBCHullPhaseContract) : Prop := {
  phase_first : phase_first_instruction_index p = u32 (marker_instruction_index p + 1);
  phase_instances : 1 <= instance_count p < 2 ^ 32;
  phase_default : instance_count_declared p = false -> instance_count p = 1;
  phase_declared : instance_count_declared p = true -> phase_kind p <> DXBC_HULL_PHASE_CONTROL_POINT;
}.

(** Phase kinds in program order: control points, then forks, then joins, and a
    single control-point phase. *)
Record ordered_kinds (ks : list DXBCHullPhaseKind) : Prop := {
  kinds_sorted i j k k' : (i < j)%nat -> ks !! i = Some k -> ks !! j = Some k' ->
    hull_phase_kind_value k <= hull_phase_kind_value k';
  kinds_control_point i j : ks !! i = Some DXBC_HULL_PHASE_CONTROL_POINT ->
    ks !! j = Some DXBC_HULL_PHASE_CONTROL_POINT -> i = j;
}.

Record phases_ok (l : list DXBCHullPhaseContract) : Prop := {
  phases_valid : Forall valid_phase l;
  phases_contiguous : contiguous l;
  phases_ordered : ordered_kinds (phase_kind <$> l);
}.

Record hull_ok (s : decode_state) : Prop := {
  hull_phases_ok : phases_ok (hull_phases (contract_of s));
  hull_order : Forall (fun k => hull_phase_kind_value k <= hull_phase_order s)
                 (phase_kind <$> hull_phases (contract_of s));
  hull_control_point : seen_control_point_phase s = false ->
    DXBC_HULL_PHASE_CONTROL_POINT ∉ phase_kind <$> hull_phases (contract_of s);
  hull_seen : seen_phase s = true <-> hull_phases (contract_of s) <> [];
}.

Lemma contiguous_last l p p' :
  marker_instruction_index p' = marker_instruction_index p ->
  contiguous (l ++ [p]) -> contiguous (l ++ [p']).
Proof.
  intros Hm. induction l as [|x l IH]; [done|].
  destruct l as [|y l]; cbn in *; [by rewrite Hm|]. intuition.
Qed.

Lemma contiguous_snoc l p q :
  contiguous (l ++ [p]) -> phase_end_instruction_index p = marker_instruction_index q ->
  contiguous ((l ++ [p]) ++ [q]).
Proof.
  intros H He. induction l as [|x l IH]; [done|].
  destruct l as [|y l]; cbn in *; intuition.
Qed.

(** Updating the last phase, keeping its identity. *)
Lemma phases_ok_update l f :
  (forall p, phase_marker (f p) = phase_marker p) ->
  (forall p, list.last l = Some p -> valid_phase p -> valid_phase (f p)) ->
  phases_ok l -> phases_ok (update_last f l).
Proof.
  intros Hm Hv [Hval Hcon Hord].
  assert (Hk : forall p, phase_kind (f p) = phase_kind p)
    by (intros p; specialize (Hm p); unfold phase_marker in Hm; congruence).
  assert (Hmi : forall p, marker_instruction_index (f p) = marker_instruction_index p)
    by (intros p; specialize (Hm p); unfold phase_marker in Hm; congruence).
  split; [| |by rewrite update_last_fmap].
  - destruct (snoc_cases l) as [->|(l' & x & ->)]; [done|]. rewrite update_last_snoc.
    apply Forall_app in Hval as [Hl' Hx]. apply Forall_app. split; [done|].
    constructor; [|done]. apply Hv; [by rewrite last_snoc|by inversion Hx].
  - destruct (snoc_cases l) as [->|(l' & x & ->)]; [done|]. rewrite update_last_snoc.
    by apply (contiguous_last l' x).
Qed.

Lemma ordered_kinds_snoc ks k :
  ordered_kinds ks -> Forall (fun k' => hull_phase_kind_value k' <= hull_phase_kind_value k) ks ->
  (k = DXBC_HULL_PHASE_CONTROL_POINT -> DXBC_HULL_PHASE_CONTROL_POINT ∉ ks) ->
  ordered_kinds (ks ++ [k]).
Proof.
  intros [Hs Hc] Hle Hcp. rewrite list.Forall_forall in Hle. split.
  - intros i j a b Hij [Ha|[-> ->]]%lookup_snoc_Some [Hb|[-> ->]]%lookup_snoc_Some;
      [by eapply Hs; [..|apply Hb]; [|apply Ha]| |lia|lia].
    apply Hle. by eapply list_elem_of_lookup_2, Ha.
  - intros i j [[Hi Ha]|[-> ->]]%lookup_snoc_Some [[Hj Hb]|[-> Hb]]%lookup_snoc_Some; [by apply Hc| | |done].
    + exfalso. apply Hcp; [done|]. by eapply list_elem_of_lookup_2.
    + exfalso. apply Hcp; [done|]. by eapply list_elem_of_lookup_2.
Qed.

(** A new phase after closing the last one. *)
Lemma phases_ok_append l ins :
  phases_ok l ->
  Forall (fun k' => hull_phase_kind_value k' <= hull_phase_kind_value (marker_kind (ins_opcode ins)))
    (phase_kind <$> l) ->
  (marker_kind (ins_opcode ins) = DXBC_HULL_PHASE_CONTROL_POINT ->
   DXBC_HULL_PHASE_CONTROL_POINT ∉ phase_kind <$> l) ->
  phases_ok (update_last (fun phase =>
    phase <| phase_end_instruction_index := ins_index ins |>) l ++ [phase_of ins]).
Proof.
  intros Hok Hle Hcp.
  assert (Hup : phases_ok (update_last (fun phase =>
            phase <| phase_end_instruction_index := ins_index ins |>) l)).
  { apply phases_ok_update; [done| |done]. intros p _ []. by split. }
  destruct Hup as [Hval Hcon Hord]. split.
  - apply Forall_app. split; [done|]. constructor; [|done]. by split.
  - destruct (snoc_cases l) as [->|(l' & x & ->)]; [done|]. rewrite update_last_snoc in *.
    by apply contiguous_snoc.
  - rewrite fmap_app, update_last_fmap in * by done. by apply ordered_kinds_snoc.
Qed.

Lemma hull_ok_frame s s' :
  hull_phases (contract_of s') = hull_phases (contract_of s) ->
  hull_phase_order s' = hull_phase_order s ->
  seen_control_point_phase s' = seen_control_point_phase s ->
  seen_phase s' = seen_phase s -> hull_ok s -> hull_ok s'.
Proof. intros H1 H2 H3 H4 []. split; rewrite ?H1, ?H2, ?H3, ?H4; done. Qed.

(** A change of the last phase that keeps its identity. *)
Lemma hull_ok_update s s' f :
  (forall p, phase_marker (f p) = phase_marker p) ->
  (forall p, list.last (hull_phases (contract_of s)) = Some p -> valid_phase p -> valid_phase (f p)) ->
  hull_phases (contract_of s') = update_last f (hull_phases (contract_of s)) ->
  hull_phase_order s' = hull_phase_order s ->
  seen_control_point_phase s' = seen_control_point_phase s ->
  seen_phase s' = seen_phase s -> hull_ok s -> hull_ok s'.
Proof.
  intros Hm Hv H1 H2 H3 H4 [].
  assert (Hk : forall p, phase_kind (f p) = phase_kind p)
    by (intros p; specialize (Hm p); unfold phase_marker in Hm; congruence).
  split; rewrite ?H1, ?H2, ?H3, ?H4, ?update_last_nil, ?(update_last_fmap phase_kind) by done; try done.
  by apply phases_ok_update.
Qed.

Lemma hull_ok_phase s s' ins :
  let kind := marker_kind (ins_opcode ins) in
  hull_phases (contract_of s') = update_last (fun phase =>
    phase <| phase_end_instruction_index := ins_index ins |>) (hull_phases (contract_of s))
    ++ [phase_of ins] ->
  hull_phase_order s' = hull_phase_kind_value kind ->
  seen_control_point_phase s' = seen_control_point_phase s ||
    bool_decide (kind = DXBC_HULL_PHASE_CONTROL_POINT) ->
  seen_phase s' = true ->
  hull_phase_order s <= hull_phase_kind_value kind ->
  (kind = DXBC_HULL_PHASE_CONTROL_POINT -> seen_control_point_phase s = false) ->
  hull_ok s -> hull_ok s'.
Proof.
  intros kind H1 H2 H3 H4 Hle Hcp [Hp Ho Hc Hs].
  assert (Hkinds : phase_kind <$> hull_phases (contract_of s') =
            (phase_kind <$> hull_phases (contract_of s)) ++ [kind])
    by (rewrite H1, fmap_app, update_last_fmap; done).
  assert (Hbelow : Forall (fun k => hull_phase_kind_value k <= hull_phase_kind_value kind)
            (phase_kind <$> hull_phases (contract_of s)))
    by (eapply list.Forall_impl; [exact Ho|]; cbn; lia).
  split; rewrite ?Hkinds, ?H2, ?H3, ?H4.
  - rewrite H1. apply phases_ok_append; [done..|]. intros Hk. apply Hc. auto.
  - apply Forall_app. split; [done|]. by constructor.
  - intros [Hseen Hk%bool_decide_eq_false]%orb_false_iff. rewrite elem_of_app.
    intros [Hin|Hin%list_elem_of_singleton]; [by apply Hc in Hin|]. by apply Hk.
  - split; [|done]. intros _. rewrite H1. by destruct (update_last _ _).
Qed.

Lemma step_hull_ok ins s s' : step ins s s' -> hull_ok s -> hull_ok s'.
Proof.
  destruct 1; intros Hok; try (by eapply hull_ok_frame; [..|exact Hok]).
  - by eapply hull_ok_phase; [..|exact Hok].
  - match goal with H : geometry_declaration _ _ _ _ _ |- _ => apply geometry_frame in H end.
    by eapply hull_ok_frame; [..|exact Hok]; fields; intuition.
  - match goal with H : tessellation_declaration _ _ _ |- _ => apply tessellation_frame in H end.
    by eapply hull_ok_frame; [..|exact Hok]; fields; intuition.
  - eapply (hull_ok_update s); [..|exact Hok]; [| |reflexivity..]; [done|].
    intros p Hp [Hf Hi Hd Hde]. assert (p = phase) as -> by congruence.
    split; fields; try done. intros _ Hcp. rewrite Hcp in *. by case_match.
  - eapply (hull_ok_update s); [..|exact Hok]; [| |reflexivity..]; [done|].
    intros p Hp []. by split.
Qed.

(** * No contract carries another stage's data *)

Record stage_pure (c : DXBCStageContract) : Prop := {
  pure_compute : program_type c <> DXBC_PROGRAM_TYPE_COMPUTE ->
    has_thread_group_size c = false /\ thread_group_shared_memory c = [];
  pure_barriers : program_type c <> DXBC_PROGRAM_TYPE_COMPUTE ->
    program_type c <> DXBC_PROGRAM_TYPE_PIXEL -> memory_barriers c = [];
  pure_geometry : program_type c <> DXBC_PROGRAM_TYPE_GEOMETRY ->
    has_input_primitive c = false /\ has_output_topology c = false /\
    has_max_output_vertex_count c = false /\ has_geometry_instance_count c = false /\
    declared_stream_mask c = 0 /\ geometry_effects c = [];
  pure_hull : program_type c <> DXBC_PROGRAM_TYPE_HULL ->
    has_output_control_point_count c = false /\ has_tessellator_partitioning c = false /\
    has_tessellator_output_primitive c = false /\ has_max_tessellation_factor c = false /\
    hull_phases c = [];
  pure_tessellation : program_type c <> DXBC_PROGRAM_TYPE_HULL ->
    program_type c <> DXBC_PROGRAM_TYPE_DOMAIN ->
    has_input_control_point_count c = false /\ has_tessellator_domain c = false;
}.

Lemma geometry_declaration_pure ins c stream c' stream' :
  program_type c = DXBC_PROGRAM_TYPE_GEOMETRY ->
  geometry_declaration ins c stream c' stream' -> stage_pure c -> stage_pure c'.
Proof. intros Hp Hd []. destruct Hd; split; fields; rewrite Hp in *; try done; auto. Qed.

Lemma tessellation_declaration_pure ins c c' :
  program_type c = DXBC_PROGRAM_TYPE_HULL \/ program_type c = DXBC_PROGRAM_TYPE_DOMAIN /\
    (ins_opcode ins = OP_DCL_INPUT_CONTROL_POINT_COUNT \/
     ins_opcode ins = OP_DCL_TESSELLATOR_DOMAIN) ->
  tessellation_declaration ins c c' -> stage_pure c -> stage_pure c'.
Proof.
  intros Hp Hd []. destruct Hd; split; fields; destruct Hp as [Hp|[Hp Hop]];
    rewrite Hp in *; try done; auto; exfalso; opcodes; lia.
Qed.

Lemma step_pure ins s s' :
  step ins s s' -> stage_pure (contract_of s) -> stage_pure (contract_of s').
Proof.
  destruct 1; intros Hok; unfold is_compute, is_geometry, is_hull, is_domain in *; bools; fields;
    try done; try (by eapply geometry_declaration_pure).
  6:{ eapply tessellation_declaration_pure; [|done..]. rewrite !Z.eqb_eq in *. intuition. }
  all: destruct Hok; split; fields; try done.
  all: rewrite ?Z.eqb_eq in *; intuition congruence.
Qed.

(** * The whole document *)

(** Everything a run maintains of the contract under construction. *)
Record contract_inv (s : decode_state) : Prop := {
  inv_compute : compute_ok (contract_of s);
  inv_geometry : geometry_ok (contract_of s);
  inv_tessellation : tessellation_ok (contract_of s);
  inv_hull : hull_ok s;
  inv_pure : stage_pure (contract_of s);
}.

Lemma step_inv ins s s' : step ins s s' -> contract_inv s -> contract_inv s'.
Proof.
  intros Hs []. split.
  - by eapply step_compute.
  - by eapply step_geometry_ok.
  - by eapply step_tessellation_ok.
  - by eapply step_hull_ok.
  - by eapply step_pure.
Qed.

Lemma contract_inv_ok s : contract_inv s -> state_ok s.
Proof.
  intros [[] _ _ [] _]. split; [|by apply hull_seen0].
  rewrite compute_bytes0 in *. pose proof (memory_total_nonneg _ compute_memory0). lia.
Qed.

Lemma run_program l s s' : run_of l s s' -> same_program (contract_of s) (contract_of s').
Proof.
  induction 1 as [s|ins l s s' s'' Hs _ IH]; [done|]. apply step_program in Hs.
  unfold same_program in *. intuition congruence.
Qed.

(** The shader models the decoder admits for each program. *)
Definition valid_version (program major minor : Z) : Prop :=
  0 <= program < DXBC_PROGRAM_TYPE_COUNT /\
  (major = 4 /\ 0 <= minor <= 1 /\
     program <> DXBC_PROGRAM_TYPE_HULL /\ program <> DXBC_PROGRAM_TYPE_DOMAIN \/
   major = 5 /\ minor = 0).

(** The version fields of a contract are those of the version token. *)
Record version_of (token chunk_index : Z) (c : DXBCStageContract) : Prop := {
  version_is : version_token c = token;
  version_reserved : Z.land token 0xff00 = 0;
  version_program : program_type c = Z.shiftr token 16;
  version_major : shader_model_major c = Z.land (Z.shiftr token 4) 0xf;
  version_minor : shader_model_minor c = Z.land token 0xf;
  version_valid : valid_version (program_type c) (shader_model_major c) (shader_model_minor c);
  version_chunk : executable_chunk_index c = chunk_index;
}.

(** What [finish_contract] requires of each program. *)
Definition finished (c : DXBCStageContract) (hs_decls phase : bool) : Prop :=
  (program_type c = DXBC_PROGRAM_TYPE_COMPUTE -> has_thread_group_size c = true) /\
  (program_type c = DXBC_PROGRAM_TYPE_GEOMETRY ->
    has_input_primitive c = true /\ has_output_topology c = true /\
    has_max_output_vertex_count c = true /\
    Z.land (output_topology_stream_mask c) (declared_stream_mask c) = declared_stream_mask c /\
    Forall (fun e => if effect_explicit_stream e
              then Z.land (declared_stream_mask c) (stream_bit (effect_stream_id e)) <> 0
              else declared_stream_mask c = 0) (geometry_effects c)) /\
  (program_type c = DXBC_PROGRAM_TYPE_HULL ->
    hs_decls = true /\ phase = true /\ has_input_control_point_count c = true /\
    has_output_control_point_count c = true /\ has_tessellator_domain c = true /\
    has_tessellator_partitioning c = true /\ has_tessellator_output_primitive c = true) /\
  (program_type c = DXBC_PROGRAM_TYPE_DOMAIN ->
    has_input_control_point_count c = true /\ has_tessellator_domain c = true).

(** A contract with nothing decoded but its version. *)
Definition versioned (token chunk_index first_index end_index : Z) : DXBCStageContract :=
  dxbc_stage_contract_init <| version_token := token |> <| program_type := Z.shiftr token 16 |>
    <| shader_model_major := Z.land (Z.shiftr token 4) 0xf |>
    <| shader_model_minor := Z.land token 0xf |> <| executable_chunk_index := chunk_index |>
    <| first_instruction_index := first_index |> <| end_instruction_index := end_index |>.

(** One past the index of the last instruction. *)
Definition end_of (l : list DXBCDocumentInstruction) : Z :=
  match list.last l with Some ins => u32 (ins_index ins + 1) | None => 0 end.

(** [c] is the contract of the document's program [chunk]: the end of a run over
    all of its instructions that [finish_contract] accepts. *)
Inductive decoded (d : DXBCDocument) (chunk : DXBCDocumentChunk) : DXBCStageContract -> Prop :=
| decoded_intro first_index s :
    let token := word (chunk_payload_bytes chunk) 0 in
    let start := versioned token (chunk_table_index chunk) first_index
                   (end_of (doc_instructions d)) in
    chunk ∈ doc_chunks d -> chunk_kind chunk = DXBC_DOCUMENT_CHUNK_EXECUTABLE ->
    (forall c, c ∈ doc_chunks d -> chunk_kind c = DXBC_DOCUMENT_CHUNK_EXECUTABLE -> c = chunk) ->
    version_of token (chunk_table_index chunk) start ->
    run_of (doc_instructions d) (initial_state start) s -> contract_inv s ->
    let c := (contract_of s) <| hull_phases ::= update_last (fun phase =>
      phase <| phase_end_instruction_index := end_instruction_index (contract_of s) |>) |> in
    finished c (seen_hs_decls s) (seen_phase s) ->
    decoded d chunk c.

Section document.
Context `{U : UnityCommon} {HU : UnityCommonSpec U}.

Lemma decode_instructions_sound l s :
  Forall well_formed l -> contract_inv s ->
  outcome (decode_instructions l s) (fun s' => run_of l s s' /\ contract_inv s') reported.
Proof.
  intros Hl. revert s. induction Hl as [|ins l Hins _ IH]; intros s Hs; [split; [constructor|done]|].
  cbn [decode_instructions]. apply outcome_bind.
  eapply outcome_mono; [by apply decode_instruction_sound, contract_inv_ok| |done].
  intros s1 Hstep. eapply outcome_mono; [by eapply IH, step_inv| |done].
  intros s2 [Hrun Hinv]. split; [by econstructor|done].
Qed.

Lemma find_executable_spec cs executable :
  outcome (find_executable executable cs)
    (fun o => match executable, o with
       | None, None => Forall (fun c => chunk_kind c <> DXBC_DOCUMENT_CHUNK_EXECUTABLE) cs
       | None, Some c => c ∈ cs /\ chunk_kind c = DXBC_DOCUMENT_CHUNK_EXECUTABLE /\
           forall c', c' ∈ cs -> chunk_kind c' = DXBC_DOCUMENT_CHUNK_EXECUTABLE -> c' = c
       | Some c, _ => o = Some c /\ Forall (fun c => chunk_kind c <> DXBC_DOCUMENT_CHUNK_EXECUTABLE) cs
       end) reported.
Proof.
  revert executable. induction cs as [|c cs IH]; intros executable; cbn [find_executable].
  { destruct executable; by repeat constructor. }
  case_decide as Hk.
  - destruct executable as [e|]; [done|].
    eapply outcome_mono; [apply (IH (Some c))| |done]. intros o [-> Hcs].
    split; [by left|]. split; [done|]. intros c' [->|Hc']%elem_of_cons Hk'; [done|].
    rewrite list.Forall_forall in Hcs. by apply Hcs in Hc'.
  - eapply outcome_mono; [apply (IH executable)| |done]. intros o Ho.
    destruct executable as [e|]; [destruct Ho; split; [done|by constructor]|].
    destruct o as [e|]; [|by constructor]. destruct Ho as (Hin & He & Huniq).
    split; [by right|]. split; [done|]. intros c' [->|Hc']%elem_of_cons Hk'; [done|auto].
Qed.

Lemma instruction_range_all ti i first last l :
  Forall (fun ins => ins_chunk_index ins = ti) l ->
  instruction_range ti i (first, last) l =
    match l with
    | [] => (first, last)
    | _ => (Some (default i first), (i + length l)%nat)
    end.
Proof.
  intros Hl. revert i first last. induction Hl as [|ins l Hins Hl IH]; intros i first last; [done|].
  cbn [instruction_range]. rewrite Hins, Z.eqb_refl, IH. cbn [fst length].
  destruct l; cbn [length default]; f_equal; lia.
Qed.

Lemma versioned_inv token ci fi ei : contract_inv (initial_state (versioned token ci fi ei)).
Proof.
  split; unfold initial_state; cbn [contract_of].
  - split; unfold versioned; fields; try done; constructor.
  - split; unfold versioned; fields; try done. intros k Hk. split; [by rewrite Z.bits_0|].
    intros (e & He & _). inversion He.
  - split; unfold versioned; fields; done.
  - split; unfold versioned; cbn [contract_of seen_phase hull_phase_order seen_control_point_phase]; fields.
    + split; [constructor|done|]. split; [|done]. intros i j k k' _ Hi. by destruct i.
    + constructor.
    + intros _ H. inversion H.
    + done.
  - split; unfold versioned; fields; done.
Qed.

Lemma decode_version_spec chunk :
  4 <= size (chunk_payload_bytes chunk) ->
  let token := word (chunk_payload_bytes chunk) 0 in
  outcome (decode_version chunk dxbc_stage_contract_init)
    (fun c => forall fi ei,
       c <| first_instruction_index := fi |> <| end_instruction_index := ei |>
         = versioned token (chunk_table_index chunk) fi ei /\
       version_of token (chunk_table_index chunk)
         (versioned token (chunk_table_index chunk) fi ei)) reported.
Proof.
  intros Hsize token. unfold decode_version. apply outcome_bind, outcome_read_u32_le; [lia..|].
  fold (word (chunk_payload_bytes chunk) 0) token. intros Ht. unfold in_u32 in Ht. cbn zeta.
  assert (Hp : 0 <= Z.shiftr token 16) by (apply Z.shiftr_nonneg; lia).
  assert (Hma : 0 <= Z.land (Z.shiftr token 4) 0xf < 16) by (apply (land_lt_pow2 _ _ 4); lia).
  assert (Hmi : 0 <= Z.land token 0xf < 16) by (apply (land_lt_pow2 _ _ 4); lia).
  apply outcome_if; [done|]. intros [Hres Hprog]%orb_false_iff.
  apply outcome_if; [done|]. intros Hver. apply outcome_ret. intros fi ei.
  rewrite !(u8_small (Z.land _ _)) by lia. split; [done|]. bools.
  split; unfold versioned; fields; try done. split; [done|].
  destruct (Z.eqb_spec (Z.land (Z.shiftr token 4) 15) 4) as [H4|H4].
  - rewrite H4 in *. left. cbn in *. bools. rewrite andb_true_r in *. bools. repeat split; done || lia.
  - cbn in *. bools. right. destruct (Z.eqb_spec (Z.land (Z.shiftr token 4) 15) 5) as [H5|H5].
    + rewrite H5 in *. cbn in *. by bools.
    + done.
Qed.

Context {D : DigestStack} (bytes : list byte) (d : DXBCDocument).
Hypothesis (Hrep : represents bytes d) (Hvalid : valid_container bytes).

Lemma parsed_well_formed : Forall well_formed (doc_instructions d).
Proof.
  apply list.Forall_forall. intros ins Hins.
  destruct (rep_instruction _ _ Hrep Hvalid _ Hins) as (Ho & Hn & Hend & Hraw).
  pose proof (valid_header_size bytes (container_header _ Hvalid)).
  split; [lia|]. rewrite Hraw, size_slice by lia. lia.
Qed.

Lemma parsed_indices chunk :
  (forall c, c ∈ doc_chunks d -> chunk_kind c = DXBC_DOCUMENT_CHUNK_EXECUTABLE -> c = chunk) ->
  Forall (fun ins => ins_chunk_index ins = chunk_table_index chunk) (doc_instructions d).
Proof.
  intros Huniq. eapply list.Forall_impl;
    [apply (programs_owner _ _ _ _ (rep_programs _ _ Hrep) (rep_chunk_offsets _ Hvalid))|].
  intros ins (c & l & Hc & Hk & _ & _ & ->). f_equal. apply Huniq; [|done].
  by rewrite (rep_chunks _ _ Hrep).
Qed.

Lemma parsed_payload chunk :
  chunk ∈ doc_chunks d -> chunk_kind chunk = DXBC_DOCUMENT_CHUNK_EXECUTABLE ->
  4 <= size (chunk_payload_bytes chunk).
Proof.
  rewrite (rep_chunks _ _ Hrep). intros Hc Hk.
  destruct (programs_program _ _ _ _ _ (rep_programs _ _ Hrep) Hc Hk) as [l [_ Hp _ _]].
  apply list_elem_of_lookup_1 in Hc as [i Hc].
  destruct (table_chunk _ (container_header _ Hvalid) (container_table _ Hvalid) _ _ Hc)
    as (Heq & Ho & _ & [_ _ _ Hend]).
  assert (Hpb : chunk_payload_bytes chunk =
            slice bytes (chunk_offset chunk + 8) (chunk_payload_size chunk)) by (by rewrite Heq).
  assert (He : chunk_end chunk = chunk_offset chunk + (8 + chunk_payload_size chunk))
    by (by rewrite Heq).
  rewrite Hpb, size_slice by lia. lia.
Qed.

Lemma index_at_lookup l i ins :
  l !! i = Some ins -> index_at l i = Ret (ins_index ins).
Proof. unfold index_at. by intros ->. Qed.

Lemma require_declaration_spec present opcode c :
  outcome (require_declaration present opcode c) (fun _ => present = true) reported.
Proof. by destruct present. Qed.

(** A required declaration, then the rest. *)
Ltac require :=
  apply outcome_bind; eapply outcome_mono; [apply require_declaration_spec| |done]; intros [] ?.

Lemma check_geometry_effect_spec c i e :
  outcome (check_geometry_effect c i e)
    (fun _ => if effect_explicit_stream e
              then Z.land (declared_stream_mask c) (stream_bit (effect_stream_id e)) <> 0
              else declared_stream_mask c = 0) reported.
Proof.
  unfold check_geometry_effect. destruct (effect_explicit_stream e).
  - cbn zeta. apply outcome_if; [done|]. intros ?. by bools.
  - apply outcome_if; [done|]. intros ?. by bools.
Qed.

Lemma finish_geometry_spec c :
  outcome (finish_geometry c)
    (fun _ => has_input_primitive c = true /\ has_output_topology c = true /\
       has_max_output_vertex_count c = true /\
       Z.land (output_topology_stream_mask c) (declared_stream_mask c) = declared_stream_mask c /\
       Forall (fun e => if effect_explicit_stream e
                 then Z.land (declared_stream_mask c) (stream_bit (effect_stream_id e)) <> 0
                 else declared_stream_mask c = 0) (geometry_effects c)) reported.
Proof.
  unfold finish_geometry. do 3 require. apply outcome_if; [done|]. intros ?. bools.
  eapply outcome_mono; [apply outcome_for_each; intros; apply check_geometry_effect_spec| |done].
  auto 10.
Qed.

Lemma finish_hull_spec c hs_decls phase :
  outcome (finish_hull c hs_decls phase)
    (fun _ => hs_decls = true /\ phase = true /\ has_input_control_point_count c = true /\
       has_output_control_point_count c = true /\ has_tessellator_domain c = true /\
       has_tessellator_partitioning c = true /\ has_tessellator_output_primitive c = true) reported.
Proof.
  unfold finish_hull. do 6 require.
  eapply outcome_mono; [apply require_declaration_spec| |done]. auto 10.
Qed.

Lemma finish_domain_spec c :
  outcome (finish_domain c)
    (fun _ => has_input_control_point_count c = true /\ has_tessellator_domain c = true) reported.
Proof.
  unfold finish_domain. require. eapply outcome_mono; [apply require_declaration_spec| |done]. auto.
Qed.

Lemma finish_contract_spec c hs_decls phase :
  outcome (finish_contract c hs_decls phase) (fun _ => finished c hs_decls phase) reported.
Proof.
  unfold finish_contract, finished.
  destruct (Z.eqb_spec (program_type c) DXBC_PROGRAM_TYPE_COMPUTE) as [->|].
  { eapply outcome_mono; [apply require_declaration_spec| |done]. by intros [] H. }
  destruct (Z.eqb_spec (program_type c) DXBC_PROGRAM_TYPE_GEOMETRY) as [->|].
  { eapply outcome_mono; [apply finish_geometry_spec| |done]. by intros [] H. }
  destruct (Z.eqb_spec (program_type c) DXBC_PROGRAM_TYPE_HULL) as [->|].
  { eapply outcome_mono; [apply finish_hull_spec| |done]. by intros [] H. }
  destruct (Z.eqb_spec (program_type c) DXBC_PROGRAM_TYPE_DOMAIN) as [->|]; [|done].
  eapply outcome_mono; [apply finish_domain_spec| |done]. by intros [] H.
Qed.

(** Decoding a parsed document yields the contract of its program, or a report. *)
Lemma decode_document_sound :
  outcome (decode_document_internal (Some d) dxbc_stage_contract_init)
    (fun c => exists chunk, decoded d chunk c) reported.
Proof.
  unfold decode_document_internal. rewrite (rep_owned _ _ Hrep).
  destruct (doc_chunks d) as [|c0 cs] eqn:Hcs; [done|]. rewrite <- Hcs.
  apply outcome_bind. eapply outcome_mono; [apply find_executable_spec| |done].
  intros [chunk|] Hfound; [|done]. destruct Hfound as (Hin & Hk & Huniq).
  apply outcome_bind. eapply outcome_mono; [by apply decode_version_spec, parsed_payload| |done].
  intros c Hc. rewrite (instruction_range_all _ _ _ _ _ (parsed_indices _ Huniq)).
  pose proof parsed_well_formed as Hwf.
  assert (Hrest : forall l fi ei, l = doc_instructions d -> ei = end_of (doc_instructions d) ->
    outcome (s ← decode_instructions l (initial_state
                   (c <| first_instruction_index := fi |> <| end_instruction_index := ei |>));
             let c' := (contract_of s) <| hull_phases ::= update_last (fun phase =>
               phase <| phase_end_instruction_index := end_instruction_index (contract_of s) |>) |> in
             _ ← finish_contract c' (seen_hs_decls s) (seen_phase s); Ret c')
      (fun c => exists chunk, decoded d chunk c) reported).
  { intros l fi ei -> ->. destruct (Hc fi (end_of (doc_instructions d))) as [-> Hver]. apply outcome_bind.
    eapply outcome_mono; [apply decode_instructions_sound; [done|apply versioned_inv]| |done].
    intros s [Hrun Hinv]. cbn zeta. apply outcome_bind.
    eapply outcome_mono; [apply finish_contract_spec| |done].
    intros [] Hfin. exists chunk. by eapply decoded_intro. }
  destruct (doc_instructions d) as [|ins l] eqn:Hl.
  { mstep. by apply Hrest. }
  mstep. rewrite (index_at_lookup _ _ ins) by done. mstep. cbn [Nat.add length].
  destruct (lookup_lt_is_Some_2 (ins :: l) (length l)) as [last Hlast]; [cbn; lia|].
  rewrite (index_at_lookup _ _ last) by done. mstep. apply Hrest.
  - cbn [default]. rewrite drop_0, Nat.sub_0_r. apply take_ge. cbn. lia.
  - unfold end_of. rewrite last_lookup. cbn [length Nat.pred]. by rewrite Hlast.
Qed.
End document.

(** * Properties of the stage contract *)

Lemma input_vertex_count_valid p :
  valid_input_primitive p = true -> dxbc_geometry_input_vertex_count p <> 0.
Proof.
  unfold valid_input_primitive, dxbc_geometry_input_vertex_count.
  by repeat match goal with |- context [p =? ?k] => destruct (p =? k) end.
Qed.

Lemma stream_bit_declared m s :
  0 <= s <= 3 -> Z.land m (stream_bit s) <> 0 -> Z.testbit m s = true.
Proof.
  intros Hs Hm. destruct (Z.testbit m s) eqn:Hb; [done|]. exfalso. apply Hm.
  rewrite stream_bit_pow by done. apply Z.bits_inj'. intros k Hk.
  rewrite Z.land_spec, Z.bits_0, Z.pow2_bits_eqb by lia.
  destruct (Z.eqb_spec s k) as [<-|]; [by rewrite Hb|]. by rewrite andb_false_r.
Qed.

Section stage_properties.
Context `{U : UnityCommon} {HU : UnityCommonSpec U} {D : DigestStack}.
Implicit Types (bytes : list byte) (old d : DXBCDocument) (out c : DXBCStageContract).

(** The contract a successful decode returns. *)
Lemma decode_Ret old bytes d out c :
  dxbc_document_parse (Some old) (Some bytes) = Ret d ->
  dxbc_stage_contract_decode_document (Some d) (Some out) = Ret c ->
  exists chunk, decoded d chunk c.
Proof.
  intros Hd. destruct (parse_Ret _ _ _ Hd) as [Hrep Hv].
  exact (outcome_Ret_inv _ _ _ _ (decode_document_sound bytes d Hrep Hv)).
Qed.

(** The fields that closing the last phase leaves alone. *)
Definition closed (s : decode_state) : DXBCStageContract :=
  (contract_of s) <| hull_phases ::= update_last (fun phase =>
    phase <| phase_end_instruction_index := end_instruction_index (contract_of s) |>) |>.

Lemma closed_frame s :
  same_program (contract_of s) (closed s) /\
  (compute_ok (contract_of s) -> compute_ok (closed s)) /\
  (geometry_ok (contract_of s) -> geometry_ok (closed s)) /\
  (tessellation_ok (contract_of s) -> tessellation_ok (closed s)) /\
  (stage_pure (contract_of s) -> stage_pure (closed s)).
Proof.
  unfold closed. split; [by unfold same_program; fields|].
  split; [intros []; split; by fields|]. split; [intros []; split; by fields|].
  split; [intros []; split; by fields|]. intros []. split; fields; try done.
  intros H. destruct (pure_hull0 H) as (? & ? & ? & ? & ->). by split_and!.
Qed.

(** Closing the last phase at the end of the program. *)
Lemma closed_phases s ei :
  hull_ok s -> seen_phase s = true -> end_instruction_index (closed s) = ei ->
  phases_ok (hull_phases (closed s)) /\
  exists last, list.last (hull_phases (closed s)) = Some last /\
    phase_end_instruction_index last = ei.
Proof.
  unfold closed. intros [Hok _ _ Hseen] Hs Hei. fields. split.
  - apply phases_ok_update; [done| |done]. intros p _ []. by split.
  - destruct (snoc_cases (hull_phases (contract_of s))) as [Hnil|(l & x & ->)];
      [by apply Hseen in Hs|].
    rewrite update_last_snoc, last_snoc. by eexists.
Qed.

(** Decoding a parsed document, with or without a semantic container to
    cross-check, terminates without undefined behaviour, and a report names a
    status other than OK. *)
Theorem dxbc_stage_contract_decode_defined old bytes d container
    (out : option DXBCStageContract) :
  dxbc_document_parse (Some old) (Some bytes) = Ret d ->
  outcome (dxbc_stage_contract_decode (Some d) container out) (fun _ => True) reported.
Proof.
  intros Hd. destruct (parse_Ret _ _ _ Hd) as [Hrep Hv].
  unfold dxbc_stage_contract_decode. destruct out; [|done].
  apply outcome_bind. eapply outcome_mono; [apply (decode_document_sound bytes d Hrep Hv)| |done].
  intros c _. apply outcome_bind. destruct container as [k|]; [|done].
  unfold dxbc_stage_contract_validate_container. by repeat (apply outcome_if; intros _).
Qed.

(** C26: the arrays of the contract are the projections of the instruction list:
    every stream effect, barrier and shared-memory declaration in order, none
    invented, dropped or moved, and one hull phase per phase marker. *)
Theorem dxbc_stage_contract_projects old bytes d out c :
  dxbc_document_parse (Some old) (Some bytes) = Ret d ->
  dxbc_stage_contract_decode_document (Some d) (Some out) = Ret c ->
  geometry_effects c = of_class GeometryEffect effect_of (doc_instructions d) /\
  memory_barriers c = of_class Barrier barrier_of (doc_instructions d) /\
  thread_group_shared_memory c = of_class SharedMemory memory_of (doc_instructions d) /\
  (phase_marker <$> hull_phases c) = of_class PhaseMarker marker_of (doc_instructions d).
Proof.
  intros Hd Hc. destruct (decode_Ret _ _ _ _ _ Hd Hc) as [chunk [fi s token start _ _ _ _ Hrun _ c' _]].
  subst c'. fields. rewrite update_last_fmap by done. split_and!.
  - apply (run_events _ _ _ _ _ _ step_effects Hrun).
  - apply (run_events _ _ _ _ _ _ step_barriers Hrun).
  - apply (run_events _ _ _ _ _ _ step_memories Hrun).
  - apply (run_events _ _ _ _ _ _ step_markers Hrun).
Qed.

(** A decoded contract belongs to the single executable chunk of the document
    and its program and shader model are those of the version token, in a
    combination the decoder admits. *)
Theorem dxbc_stage_contract_version old bytes d out c :
  dxbc_document_parse (Some old) (Some bytes) = Ret d ->
  dxbc_stage_contract_decode_document (Some d) (Some out) = Ret c ->
  exists chunk, chunk ∈ doc_chunks d /\
    (forall k, k ∈ doc_chunks d ->
       chunk_kind k = DXBC_DOCUMENT_CHUNK_EXECUTABLE <-> k = chunk) /\
    version_of (word (chunk_payload_bytes chunk) 0) (chunk_table_index chunk) c.
Proof.
  intros Hd Hc.
  destruct (decode_Ret _ _ _ _ _ Hd Hc) as [chunk [fi s token start Hin Hk Hu Hver Hrun _ c' _]].
  exists chunk. split; [done|]. split; [intros k Hkin; split; [by apply Hu|by intros ->]|].
  apply run_program in Hrun. destruct (closed_frame s) as [Hsame _]. fold (closed s) in c'.
  unfold same_program in *. destruct Hver.
  destruct Hrun as (? & ? & ? & ? & ? & _), Hsame as (? & ? & ? & ? & ? & _).
  cbn [contract_of initial_state] in *. fold start in c'. subst c'. split; try congruence.
  all: replace (program_type (closed s)) with (program_type start) by congruence;
    replace (shader_model_major (closed s)) with (shader_model_major start) by congruence;
    replace (shader_model_minor (closed s)) with (shader_model_minor start) by congruence; done.
Qed.

(** The invariants and the requirements, of the returned contract. *)
Lemma decode_facts old bytes d out c :
  dxbc_document_parse (Some old) (Some bytes) = Ret d ->
  dxbc_stage_contract_decode_document (Some d) (Some out) = Ret c ->
  exists s, contract_inv s /\ c = closed s /\ finished c (seen_hs_decls s) (seen_phase s) /\
    end_instruction_index c = end_of (doc_instructions d).
Proof.
  intros Hd Hc.
  destruct (decode_Ret _ _ _ _ _ Hd Hc) as [chunk [fi s token start _ _ _ _ Hrun Hinv c' Hfin]].
  exists s. split; [done|]. split; [done|]. split; [done|].
  apply run_program in Hrun. unfold same_program in Hrun. subst c'. fields.
  destruct Hrun as (_ & _ & _ & _ & _ & _ & ->). done.
Qed.

(** C31: a compute contract has a thread group within the limits of its shader
    model, shared memory of aligned, distinctly registered blocks whose exact
    total is at most 32 KiB, and barriers of admitted flags. *)
Theorem dxbc_stage_contract_compute old bytes d out c :
  dxbc_document_parse (Some old) (Some bytes) = Ret d ->
  dxbc_stage_contract_decode_document (Some d) (Some out) = Ret c ->
  program_type c = DXBC_PROGRAM_TYPE_COMPUTE ->
  (exists x y z, thread_group_size c = [x; y; z] /\ valid_thread_group (shader_model_major c) x y z) /\
  thread_group_shared_memory_bytes c = memory_total (thread_group_shared_memory c) /\
  memory_total (thread_group_shared_memory c) <= 32768 /\
  Forall valid_memory (thread_group_shared_memory c) /\
  NoDup (memory_register_id <$> thread_group_shared_memory c) /\
  Forall (fun b => valid_barrier_flags (program_type c) (barrier_flags b)) (memory_barriers c).
Proof.
  intros Hd Hc Hp. destruct (decode_facts _ _ _ _ _ Hd Hc) as (s & [Hco _ _ _ _] & -> & Hfin & _).
  apply closed_frame in Hco. destruct Hco, Hfin as [Hfin _].
  split; [auto|]. rewrite <- compute_bytes0. auto.
Qed.

(** A geometry contract declares a known input primitive, topology and vertex
    count; its effects use declared streams exactly when any stream is declared,
    and the referenced mask is exactly the set of their streams. *)
Theorem dxbc_stage_contract_geometry old bytes d out c :
  dxbc_document_parse (Some old) (Some bytes) = Ret d ->
  dxbc_stage_contract_decode_document (Some d) (Some out) = Ret c ->
  program_type c = DXBC_PROGRAM_TYPE_GEOMETRY ->
  dxbc_geometry_input_vertex_count (input_primitive c) <> 0 /\
  valid_output_topology (output_topology c) = true /\ 1 <= max_output_vertex_count c <= 1024 /\
  Forall (fun e => 0 <= effect_stream_id e <= 3 /\
            if effect_explicit_stream e
            then Z.testbit (declared_stream_mask c) (effect_stream_id e) = true
            else declared_stream_mask c = 0) (geometry_effects c) /\
  (forall k, 0 <= k -> Z.testbit (referenced_stream_mask c) k = true <->
     exists e, e ∈ geometry_effects c /\ effect_stream_id e = k).
Proof.
  intros Hd Hc Hp. destruct (decode_facts _ _ _ _ _ Hd Hc) as (s & [_ Hg _ _ _] & -> & Hfin & _).
  apply closed_frame in Hg. destruct Hg, Hfin as (_ & Hfin & _).
  destruct (Hfin Hp) as (Hi & Ht & Hm & _ & Heff).
  split; [by apply input_vertex_count_valid; auto|]. split; [auto|]. split; [auto|].
  split; [|done]. rewrite list.Forall_forall in *. intros e He. split; [auto|].
  pose proof (geometry_effect_streams0 _ He) as Hs. specialize (Heff _ He).
  destruct (effect_explicit_stream e); [|done]. by apply stream_bit_declared.
Qed.

(** A hull contract has its control-point counts and tessellation parameters
    in range (a maximum factor is a float of the interval from 1 to 64), and its
    phases are well formed, in control-point, fork, join order, each ending where
    the next begins and the last at the end of the program. *)
Theorem dxbc_stage_contract_hull old bytes d out c :
  dxbc_document_parse (Some old) (Some bytes) = Ret d ->
  dxbc_stage_contract_decode_document (Some d) (Some out) = Ret c ->
  program_type c = DXBC_PROGRAM_TYPE_HULL ->
  1 <= input_control_point_count c <= 32 /\ 1 <= output_control_point_count c <= 32 /\
  valid_domain (tessellator_domain c) = true /\
  valid_partitioning (tessellator_partitioning c) = true /\
  valid_output_primitive (tessellator_output_primitive c) = true /\
  (has_max_tessellation_factor c = true -> valid_factor (max_tessellation_factor c)) /\
  phases_ok (hull_phases c) /\
  exists last, list.last (hull_phases c) = Some last /\
    phase_end_instruction_index last = end_of (doc_instructions d).
Proof.
  intros Hd Hc Hp. destruct (decode_facts _ _ _ _ _ Hd Hc) as (s & [_ _ Ht Hh _] & -> & Hfin & Hend).
  apply closed_frame in Ht. destruct Ht, Hfin as (_ & _ & Hfin & _).
  destruct (Hfin Hp) as (_ & Hseen & ? & ? & ? & ? & ?).
  split; [auto|]. split; [auto|]. split; [auto|]. split; [auto|]. split; [auto|].
  split; [by intros Hf; apply tess_factor0|]. by apply closed_phases.
Qed.

(** No contract carries data of a stage other than its own. *)
Theorem dxbc_stage_contract_pure old bytes d out c :
  dxbc_document_parse (Some old) (Some bytes) = Ret d ->
  dxbc_stage_contract_decode_document (Some d) (Some out) = Ret c -> stage_pure c.
Proof.
  intros Hd Hc. destruct (decode_facts _ _ _ _ _ Hd Hc) as (s & [_ _ _ _ Hpure] & -> & _).
  by apply closed_frame.
Qed.

Lemma decode_program old bytes d out c :
  dxbc_document_parse (Some old) (Some bytes) = Ret d ->
  dxbc_stage_contract_decode_document (Some d) (Some out) = Ret c ->
  0 <= program_type c < DXBC_PROGRAM_TYPE_COUNT.
Proof.
  intros Hd Hc.
  destruct (decode_Ret _ _ _ _ _ Hd Hc) as [chunk [fi s token start _ _ _ Hver Hrun _ c' _]].
  apply run_program in Hrun. destruct Hver as [_ _ _ _ _ [Hp _] _].
  unfold same_program in Hrun. destruct Hrun as (_ & Hprog & _). subst c'. fields.
  cbn [contract_of initial_state] in Hprog. by rewrite Hprog.
Qed.

(** Decoding with a semantic container succeeds exactly when decoding without
    it does and the container has an executable program of the same type and
    shader model; the contract is the same. *)
Theorem dxbc_stage_contract_cross_check old bytes d out k c :
  dxbc_document_parse (Some old) (Some bytes) = Ret d ->
  dxbc_stage_contract_decode (Some d) (Some k) (Some out) = Ret c <->
  dxbc_stage_contract_decode_document (Some d) (Some out) = Ret c /\
  has_executable_program k = true /\ container_program_type k = program_type c /\
  container_major_version k = shader_model_major c /\
  container_minor_version k = shader_model_minor c.
Proof.
  intros Hd. pose proof (fun c => decode_program old bytes d out c Hd) as Hprog. revert Hprog.
  unfold dxbc_stage_contract_decode, dxbc_stage_contract_decode_document.
  destruct (decode_document_internal _ _) as [c0|e|]; intros Hprog;
    [|split; [done|by intros [? _]]..].
  specialize (Hprog c0 eq_refl). unfold DXBC_PROGRAM_TYPE_COUNT in Hprog.
  cbn [mbind res_bind]. unfold dxbc_stage_contract_validate_container.
  rewrite (u32_small (program_type c0)) by lia.
  rewrite (proj2 (Z.leb_gt _ _)) by (unfold DXBC_PROGRAM_TYPE_COUNT; lia).
  destruct (has_executable_program k), (Z.eqb_spec (container_program_type k) (program_type c0)),
    (Z.eqb_spec (container_major_version k) (shader_model_major c0)),
    (Z.eqb_spec (container_minor_version k) (shader_model_minor c0)); cbn;
    split; intros H; try done; destruct_and?; simplify_eq; done.
Qed.
End stage_properties.

(** * Witnesses *)

Section witnesses.
Local Existing Instances unity_common_ref unity_common_ref_spec sample_stack.

Definition decode_sample (d : DXBCDocument) : DXBCStageContract :=
  match dxbc_stage_contract_decode_document (Some d) (Some dxbc_stage_contract_init) with
  | Ret c => c
  | _ => dxbc_stage_contract_init
  end.

Definition compute_contract : DXBCStageContract := Eval vm_compute in decode_sample sample_document.
Definition geometry_contract : DXBCStageContract :=
  Eval vm_compute in decode_sample geometry_document.
Definition hull_contract : DXBCStageContract := Eval vm_compute in decode_sample hull_document.

Lemma compute_decode :
  dxbc_stage_contract_decode_document (Some sample_document) (Some dxbc_stage_contract_init)
  = Ret compute_contract.
Proof. vm_compute. reflexivity. Qed.

Lemma geometry_decode :
  dxbc_stage_contract_decode_document (Some geometry_document) (Some dxbc_stage_contract_init)
  = Ret geometry_contract.
Proof. vm_compute. reflexivity. Qed.

Lemma hull_decode :
  dxbc_stage_contract_decode_document (Some hull_document) (Some dxbc_stage_contract_init)
  = Ret hull_contract.
Proof. vm_compute. reflexivity. Qed.

Definition sample_container_program : container_program := {|
  has_executable_program := true; container_program_type := DXBC_PROGRAM_TYPE_COMPUTE;
  container_major_version := 5; container_minor_version := 0 |}.

Lemma dxbc_stage_contract_decode_defined_witness :
  outcome (dxbc_stage_contract_decode (Some sample_document) (Some sample_container_program)
             (Some dxbc_stage_contract_init)) (fun _ => True) reported.
Proof.
  exact (dxbc_stage_contract_decode_defined dxbc_document_init _ _ (Some sample_container_program)
           (Some dxbc_stage_contract_init) sample_parse).
Defined.

Lemma dxbc_stage_contract_projects_witness :
  geometry_effects geometry_contract =
    of_class GeometryEffect effect_of (doc_instructions geometry_document) /\
  memory_barriers geometry_contract =
    of_class Barrier barrier_of (doc_instructions geometry_document) /\
  thread_group_shared_memory geometry_contract =
    of_class SharedMemory memory_of (doc_instructions geometry_document) /\
  (phase_marker <$> hull_phases geometry_contract) =
    of_class PhaseMarker marker_of (doc_instructions geometry_document).
Proof.
  exact (dxbc_stage_contract_projects dxbc_document_init _ _ dxbc_stage_contract_init _
           geometry_parse geometry_decode).
Defined.

Lemma dxbc_stage_contract_version_witness :
  exists chunk, chunk ∈ doc_chunks sample_document /\
    (forall k, k ∈ doc_chunks sample_document ->
       chunk_kind k = DXBC_DOCUMENT_CHUNK_EXECUTABLE <-> k = chunk) /\
    version_of (word (chunk_payload_bytes chunk) 0) (chunk_table_index chunk) compute_contract.
Proof.
  exact (dxbc_stage_contract_version dxbc_document_init _ _ dxbc_stage_contract_init _
           sample_parse compute_decode).
Defined.

Lemma dxbc_stage_contract_compute_witness :
  exists x y z, thread_group_size compute_contract = [x; y; z] /\
    valid_thread_group (shader_model_major compute_contract) x y z.
Proof.
  exact (proj1 (dxbc_stage_contract_compute dxbc_document_init _ _ dxbc_stage_contract_init _
           sample_parse compute_decode eq_refl)).
Defined.

Lemma dxbc_stage_contract_geometry_witness :
  dxbc_geometry_input_vertex_count (input_primitive geometry_contract) <> 0.
Proof.
  exact (proj1 (dxbc_stage_contract_geometry dxbc_document_init _ _ dxbc_stage_contract_init _
           geometry_parse geometry_decode eq_refl)).
Defined.

Lemma dxbc_stage_contract_hull_witness :
  1 <= input_control_point_count hull_contract <= 32.
Proof.
  exact (proj1 (dxbc_stage_contract_hull dxbc_document_init _ _ dxbc_stage_contract_init _
           hull_parse hull_decode eq_refl)).
Defined.

Lemma dxbc_stage_contract_pure_witness : stage_pure hull_contract.
Proof.
  exact (dxbc_stage_contract_pure dxbc_document_init _ _ dxbc_stage_contract_init _
           hull_parse hull_decode).
Defined.

Lemma dxbc_stage_contract_cross_check_witness :
  dxbc_stage_contract_decode (Some sample_document) (Some sample_container_program)
    (Some dxbc_stage_contract_init) = Ret compute_contract <->
  dxbc_stage_contract_decode_document (Some sample_document) (Some dxbc_stage_contract_init)
    = Ret compute_contract /\
  has_executable_program sample_container_program = true /\
  container_program_type sample_container_program = program_type compute_contract /\
  container_major_version sample_container_program = shader_model_major compute_contract /\
  container_minor_version sample_container_program = shader_model_minor compute_contract.
Proof.
  exact (dxbc_stage_contract_cross_check dxbc_document_init _ _ dxbc_stage_contract_init
           sample_container_program compute_contract sample_parse).
Defined.
End witnesses.
