(* ===== verification/Container.v ===== *)
(** Wrapper recognition, [src/dxbc/dxbc_container.c]: finding the first complete
    DXBC container in a raw blob, a Unity program record or a USBD table. *)

From S2P Require Import Prelude UnityCommon Hash Document DocumentFormat RecordTable.
From S2P Require Import Samples.

(** * Operations *)

Definition DXBC_HEADER_SIZE : Z := 32.
Definition USBD_HEADER_SIZE : Z := 8.
Definition UNITY_DXBC_HEADER_SIZE : Z := 38.

(** A pointer into the caller's buffer: how far from its start it points, and
    the bytes that can be read from there. *)
Record span := { span_offset : Z; span_bytes : list byte }.

(** [view_data] is the offset of [data] in the caller's buffer, [None] for NULL. *)
Record DXBCContainerView := { view_data : option Z; view_size : Z }.

Definition null_view : DXBCContainerView := {| view_data := None; view_size := 0 |}.

(** [p + off], of which [len] bytes may be read. *)
Definition advance {E} (p : span) (off len : Z) : res E span :=
  w ← view (span_bytes p) off len;
  Ret {| span_offset := span_offset p + off; span_bytes := w |}.

Section container.
Context `{U : UnityCommon}.

(** The static functions below return [Fail tt] for [return false]; their out
    pointers are those of local variables, never NULL. *)

Definition read_le_u32_at (data : option span) (size offset : Z) : res unit Z :=
  match data with
  | None => Fail tt
  | Some p =>
      if (size <? offset) || (u64 (size - offset) <? 4) then Fail tt
      else read_u32_le (span_bytes p) offset
  end.

Definition raw_dxbc_view (data : option span) (size : Z) : res unit DXBCContainerView :=
  match data with
  | None => Fail tt
  | Some p =>
      if size <? DXBC_HEADER_SIZE then Fail tt else
      is_dxbc ← magic_at (span_bytes p) 0 "DXBC";
      if negb is_dxbc then Fail tt else
      total_size ← read_le_u32_at data size 24;
      if (total_size <? DXBC_HEADER_SIZE) || (size <? total_size) then Fail tt
      else Ret {| view_data := Some (span_offset p); view_size := total_size |}
  end.

(** One iteration of the record loop of [usbd_view_first]. *)
Definition usbd_record (p : span) (size i : Z) (state : Z * DXBCContainerView)
    : res unit (Z * DXBCContainerView) :=
  let '(offset, first) := state in
  name_length ← read_le_u32_at (Some p) size offset;
  let offset := u64 (offset + 4) in
  if (name_length =? 0) || (u64 (size - offset) <? name_length) then Fail tt else
  let offset := u64 (offset + name_length) in
  payload_length ← read_le_u32_at (Some p) size offset;
  let offset := u64 (offset + 4) in
  if u64 (size - offset) <? payload_length then Fail tt else
  payload ← advance p offset payload_length;
  record ← raw_dxbc_view (Some payload) payload_length;
  if negb (view_size record =? payload_length) then Fail tt else
  Ret (u64 (offset + payload_length), if i =? 0 then record else first).

(** [usbd_view_first] writes [*out_view] only when it succeeds.  It does not
    test [data] before [memcmp]. *)
Definition usbd_view_first (data : option span) (size : Z) : res unit DXBCContainerView :=
  if size <? USBD_HEADER_SIZE then Fail tt else
  match data with
  | None => Undef
  | Some p =>
      is_usbd ← magic_at (span_bytes p) 0 "USBD";
      if negb is_usbd then Fail tt else
      record_count ← read_le_u32_at data size 4;
      if (record_count =? 0) || (u64 (size - USBD_HEADER_SIZE) / 9 <? record_count) then Fail tt
      else
      st ← for_loop (Z.to_nat record_count) 0 (usbd_record p size) (USBD_HEADER_SIZE, null_view);
      if negb (st.1 =? size) then Fail tt else Ret st.2
  end.

(** [unity_program_view]: the result and the final [*out_view], which it may
    have written before it returns false. *)
Definition unity_program_view {E} (data : option span) (size : Z) (out_view : DXBCContainerView)
    : res E (bool * DXBCContainerView) :=
  match data with
  | None => Ret (false, out_view)
  | Some p =>
      if size <=? UNITY_DXBC_HEADER_SIZE then Ret (false, out_view) else
      kind ← load8 (span_bytes p) 0;
      if negb (kind =? 2) then Ret (false, out_view) else
      let room := u64 (size - UNITY_DXBC_HEADER_SIZE) in
      program ← advance p UNITY_DXBC_HEADER_SIZE room;
      inner ← attempt (raw_dxbc_view (Some program) room);
      match inner with
      | None => Ret (false, out_view)
      | Some v => Ret (view_size v =? room, v)
      end
  end.

(** [dxbc_container_view_first]: the result and the final [*out_view]; a NULL
    [data] or [out_view] is [None]. *)
Definition dxbc_container_view_first {E} (data : option (list byte)) (size : Z)
    (out_view : option DXBCContainerView) : res E (bool * option DXBCContainerView) :=
  match out_view with
  | None => Ret (false, None)
  | Some _ =>
      let data := (fun bytes => {| span_offset := 0; span_bytes := bytes |}) <$> data in
      raw ← attempt (raw_dxbc_view data size);
      match raw with
      | Some v => Ret (true, Some v)
      | None =>
          '(is_unity, v) ← unity_program_view data size null_view;
          if is_unity : bool then Ret (true, Some v) else
          table ← attempt (usbd_view_first data size);
          match table with
          | Some v => Ret (true, Some v)
          | None => Ret (false, Some v)
          end
      end
  end.
End container.

(** * The wrapper formats *)

(** [n] bytes from the start of [bs] are a container: the magic and the total
    size of its header. *)
Record raw_container (bs : list byte) (n : Z) : Prop := {
  raw_size : 32 <= n <= size bs;
  raw_magic : slice bs 0 4 = String.list_byte_of_string "DXBC";
  raw_total : word bs 24 = n;
}.

(** What the container finder asks of a record. *)
Definition container_record (r : list byte * list byte) : Prop :=
  r.1 <> [] /\ raw_container r.2 (size r.2).

(** The container of [bs] is the [n] bytes at [off]. *)
Inductive container_layout (bs : list byte) : Z -> Z -> Prop :=
| raw_layout n : raw_container bs n -> container_layout bs 0 n
| unity_layout rest :
    38 < size bs -> bs = Byte.x02 :: rest ->
    raw_container (drop 38 bs) (size bs - 38) -> container_layout bs 38 (size bs - 38)
| usbd_layout name payload records :
    bs = table_bytes ((name, payload) :: records) ->
    in_u32 (Z.of_nat (length ((name, payload) :: records))) ->
    Forall small_record ((name, payload) :: records) ->
    Forall container_record ((name, payload) :: records) ->
    container_layout bs (16 + size name) (size payload).

(** * Correctness *)

Section container_correct.
Context `{U : UnityCommon} {HU : UnityCommonSpec U}.

Lemma read_le_u32_at_spec p sz offset (Q : Z -> Prop) (F : unit -> Prop) :
  sz = size (span_bytes p) -> in_u64 sz -> 0 <= offset ->
  (offset + 4 <= sz -> in_u32 (word (span_bytes p) offset) -> Q (word (span_bytes p) offset)) ->
  (sz < offset + 4 -> F tt) ->
  outcome (read_le_u32_at (Some p) sz offset) Q F.
Proof.
  intros -> Hs Ho HQ HF. unfold in_u64 in Hs. unfold read_le_u32_at.
  apply outcome_if; intros Hc.
  - apply HF. apply orb_true_iff in Hc as [Hc|Hc]; [apply Z.ltb_lt in Hc; lia|].
    destruct (Z.lt_ge_cases (size (span_bytes p)) offset); [lia|].
    rewrite u64_small in Hc by lia. apply Z.ltb_lt in Hc. lia.
  - bools. rewrite u64_small in * by lia. apply outcome_read_u32_le; [lia..|].
    intros. apply HQ; [lia|done].
Qed.

Lemma outcome_magic4 {E} bs name (Q : bool -> Prop) (F : E -> Prop) :
  String.length name = 4%nat -> 4 <= size bs ->
  (forall b, b = bool_decide (slice bs 0 4 = String.list_byte_of_string name) -> Q b) ->
  outcome (magic_at bs 0 name) Q F.
Proof.
  intros Hn Hs HQ. unfold magic_at. rewrite Hn. apply outcome_bind.
  apply outcome_view; [lia..|]. by apply HQ.
Qed.

Lemma raw_dxbc_view_spec p sz :
  sz = size (span_bytes p) -> in_u64 sz ->
  outcome (raw_dxbc_view (Some p) sz)
    (fun v => view_data v = Some (span_offset p) /\ raw_container (span_bytes p) (view_size v))
    (fun _ => forall n, ~ raw_container (span_bytes p) n).
Proof.
  intros -> Hs. unfold raw_dxbc_view, DXBC_HEADER_SIZE.
  apply outcome_if; intros H32; bools; [intros n []; lia|].
  apply outcome_bind, outcome_magic4; [done|lia|]. intros b Hb. subst b.
  apply outcome_if; intros Hm; bools; [by intros n []|].
  apply outcome_bind, read_le_u32_at_spec; [done|done|lia| |lia]. intros _ Hw.
  apply outcome_if; intros Ht.
  - intros n [? ? Hn]. rewrite Hn in Ht. apply orb_true_iff in Ht as [?|?]; lia.
  - bools. split; [done|]. by split.
Qed.

Lemma raw_container_fun bs n m : raw_container bs n -> raw_container bs m -> n = m.
Proof. intros [_ _ <-] [_ _ <-]. done. Qed.

(** * The record table *)

Lemma outcome_advance {E} p off len (Q : span -> Prop) (F : E -> Prop) :
  0 <= off -> 0 <= len -> off + len <= size (span_bytes p) ->
  Q {| span_offset := span_offset p + off; span_bytes := slice (span_bytes p) off len |} ->
  outcome (advance p off len) Q F.
Proof. intros. unfold advance. by apply outcome_bind, outcome_view. Qed.

Definition first_view (p : span) (rs : list (list byte * list byte)) : DXBCContainerView :=
  match rs with
  | [] => null_view
  | r :: _ => {| view_data := Some (span_offset p + (16 + size r.1)); view_size := size r.2 |}
  end.

Lemma size_pos_nonempty (l : list byte) : size l <> 0 <-> l <> [].
Proof. destruct l; unfold size; cbn [length]; split; intros; try done; lia. Qed.

(** One record: what the reader advances over is an entry of the table. *)
Lemma usbd_record_spec p sz i rs off :
  sz = size (span_bytes p) -> in_u64 sz -> 8 <= off <= sz -> i = Z.of_nat (length rs) ->
  walk container_record (span_bytes p) 8 rs off ->
  outcome (usbd_record p sz i (off, first_view p rs))
    (fun st => exists r, entry container_record (span_bytes p) off r st.1 /\
                 snd st = first_view p (rs ++ [r]))
    (fun _ => forall r off', ~ entry container_record (span_bytes p) off r off').
Proof.
  intros Hsz Hs Ho Hi Hwalk. unfold usbd_record. set (bs := span_bytes p) in *.
  unfold in_u64 in Hs.
  assert (Hno := no_entry container_record bs off ltac:(lia)).
  apply outcome_bind, read_le_u32_at_spec; [done..|lia| |]; fold bs.
  2:{ intros Hlt. refine (Hno _). intros r _ _ _ _ _ ? ? ?. lia. }
  intros H4 Hn. unfold in_u32 in Hn. set (n := word bs off) in *.
  cbv zeta. rewrite (u64_small (off + 4)) by lia. rewrite (u64_small (sz - _)) by lia.
  apply outcome_if; intros Hc1.
  { refine (Hno _). intros r Hn1 _ _ _ [Hne _] ? ? ?. apply size_pos_nonempty in Hne.
    apply orb_true_iff in Hc1 as [?|?]; lia. }
  bools. rewrite (u64_small (off + 4 + n)) by lia.
  apply outcome_bind, read_le_u32_at_spec; [done..|lia| |]; fold bs.
  2:{ intros Hlt. refine (Hno _). intros r Hn1 _ _ _ _ ? ? ?. lia. }
  intros H5 Hm. unfold in_u32 in Hm. set (m := word bs (off + 4 + n)) in *.
  rewrite (u64_small (off + 4 + n + 4)) by lia. rewrite (u64_small (sz - _)) by lia.
  apply outcome_if; intros Hc2; bools.
  { refine (Hno _). intros r Hn1 _ Hm1 _ _ ? ? ?. rewrite <- Hn1 in *. fold m in Hm1. lia. }
  apply outcome_bind, outcome_advance; [lia..|fold bs; lia|]. fold bs.
  assert (Hpl : size (slice bs (off + 4 + n + 4) m) = m) by (apply size_slice; lia).
  apply outcome_bind. eapply outcome_mono; [apply raw_dxbc_view_spec; cbn [span_bytes]; [done|unfold in_u64; lia]| |];
    cbn [span_bytes span_offset].
  2:{ intros [] Hraw. refine (Hno _). intros r Hn1 _ Hm1 Hp [_ Hr] _ _ _.
      rewrite <- Hn1 in *. fold m in Hm1. rewrite <- Hm1 in *.
      replace (off + 8 + n) with (off + 4 + n + 4) in Hp by lia. rewrite Hp in Hraw. by apply Hraw in Hr. }
  intros v [Hv Hraw]. apply outcome_if; intros Hc3; bools.
  { refine (Hno _). intros r Hn1 _ Hm1 Hp [_ Hr] _ _ _.
    rewrite <- Hn1 in *. fold m in Hm1. rewrite <- Hm1 in *.
    replace (off + 8 + n) with (off + 4 + n + 4) in Hp by lia. rewrite Hp in Hraw.
    by pose proof (raw_container_fun _ _ _ Hr Hraw). }
  cbn [outcome fst snd].
  exists (slice bs (off + 4) n, slice bs (off + 8 + n) m).
  rewrite (u64_small (off + 4 + n + 4 + m)) by lia.
  replace (off + 4 + n + 4 + m) with (off + 8 + n + m) by lia.
  replace (off + 4 + n + 4) with (off + 8 + n) in * by lia.
  assert (Hsn : size (slice bs (off + 4) n) = n) by (apply size_slice; lia).
  split.
  - apply entry_intro; fold n; fold m; [lia..|].
    split; cbn [fst snd]; [apply size_pos_nonempty; lia|]. rewrite Hpl. by rewrite <- Hc3 at 2.
  - destruct rs as [|r rs]; [|].
    + rewrite Hi. cbn [first_view app fst snd length Z.of_nat Z.eqb]. destruct v as [vd vs].
      cbn [view_data view_size] in *. inversion Hwalk; subst. f_equal; [f_equal; lia|lia].
    + rewrite (proj2 (Z.eqb_neq _ _)) by (rewrite Hi; cbn [length]; lia). done.
Qed.

Lemma container_record_room r : container_record r -> 9 <= record_size r.
Proof.
  intros [Hne _]. apply size_pos_nonempty in Hne. unfold record_size.
  pose proof (size_nonneg r.1). pose proof (size_nonneg r.2). lia.
Qed.

Lemma usbd_view_first_spec p sz :
  sz = size (span_bytes p) -> in_u64 sz ->
  outcome (usbd_view_first (Some p) sz)
    (fun v => exists rs, is_table container_record (span_bytes p) rs /\ v = first_view p rs)
    (fun _ => forall rs, ~ is_table container_record (span_bytes p) rs).
Proof.
  intros Hsz Hs. unfold usbd_view_first, USBD_HEADER_SIZE. set (bs := span_bytes p) in *.
  apply outcome_if; intros H8; bools.
  { intros rs Ht. apply is_table_walk in Ht. lia. }
  unfold in_u64 in Hs.
  apply outcome_bind, outcome_magic4; [done|fold bs; lia|]. fold bs. intros b ->.
  apply outcome_if; intros Hm; bools.
  { intros rs Ht. apply is_table_walk in Ht. tauto. }
  apply outcome_bind, read_le_u32_at_spec; [done|done|lia| |fold bs; lia]. fold bs. intros _ Hw.
  rewrite (u64_small (sz - 8)) by lia.
  apply outcome_if; intros Hc.
  { intros rs Ht. apply is_table_walk in Ht as (_ & _ & Hne & Hn & Hwalk).
    pose proof (walk_room _ _ 9 _ _ _ container_record_room Hwalk).
    rewrite Hn in Hc. apply orb_true_iff in Hc as [Hc|Hc]; bools.
    - destruct rs; [done|cbn [length] in Hc; lia].
    - assert ((sz - 8) / 9 >= Z.of_nat (length rs)); [|lia].
      apply Z.le_ge, Z.div_le_lower_bound; lia. }
  bools. apply outcome_bind.
  eapply outcome_mono; [apply (walk_loop container_record bs fst
    (fun rs st => snd st = first_view p rs) False (fun _ => True))| |].
  - done.
  - lia.
  - done.
  - intros rs [off first] Hwalk Hoff Hf. cbn [fst snd] in *. subst first.
    eapply outcome_mono; [by apply usbd_record_spec; [| |lia| |]|..]; fold bs.
    + intros st (r & He & Hv). eauto.
    + intros e Hno. split; [done|]. by left.
  - intros [off first] (rs & Hl & Hwalk & Hoff & Hf). cbn [fst snd] in *.
    unfold in_u32 in Hw. apply outcome_if; intros Hend; bools.
    + intros rs' Ht. apply is_table_walk in Ht as (_ & _ & _ & Hn & Hwalk').
      destruct (walk_fun _ _ 8 _ _ _ _ ltac:(lia) Hwalk Hwalk'); lia.
    + exists rs. split; [|done]. apply is_table_walk. subst off.
      destruct rs; [|rewrite <- Hsz; split_and!; try done; lia].
      cbn [length] in Hl. lia.
  - intros e [_ [Hno|[]]] rs Ht. apply is_table_walk in Ht as (_ & _ & _ & Hn & Hwalk').
    apply (Hno rs (size bs)); [lia|done].
Qed.

Lemma unity_program_view_spec {E} bs sz out :
  sz = size bs -> in_u64 sz ->
  outcome (unity_program_view (E:=E) (Some {| span_offset := 0; span_bytes := bs |}) sz out)
    (fun r => r.1 = true /\ view_data r.2 = Some 38 /\ view_size r.2 = sz - 38 /\
              (exists rest, bs = Byte.x02 :: rest) /\ 38 < sz /\ raw_container (drop 38 bs) (sz - 38) \/
              r.1 = false /\ forall rest, 38 < sz -> bs = Byte.x02 :: rest ->
                             ~ raw_container (drop 38 bs) (sz - 38))
    (fun _ => False).
Proof.
  intros Hsz Hs. unfold unity_program_view, UNITY_DXBC_HEADER_SIZE. unfold in_u64 in Hs.
  cbn [span_bytes]. apply outcome_if; intros H38; bools; [right; split; [done|lia]|].
  destruct bs as [|b bs0] eqn:Hbs; [by rewrite Hsz in H38|]. rewrite <- Hbs in *.
  rewrite (load8_ok _ _ b) by (rewrite ?Hbs; done). cbn [mbind res_bind].
  rewrite (u64_small (sz - 38)) by lia.
  apply outcome_if; intros H2; bools.
  { right. split; [done|]. intros rest _ Heq. rewrite Hbs in Heq. by injection Heq as -> _. }
  assert (Hb : b = Byte.x02) by (apply (inj byte_val); rewrite H2; done).
  apply outcome_bind, outcome_advance; cbn [span_bytes]; [lia..|].
  assert (Hsub : slice bs 38 (sz - 38) = drop 38 bs).
  { unfold slice. rewrite take_ge; [done|]. rewrite length_drop. unfold size in Hsz. lia. }
  rewrite Hsub. apply outcome_bind, outcome_attempt.
  eapply outcome_mono; [apply raw_dxbc_view_spec|..]; cbn [span_bytes span_offset].
  - pose proof (size_drop bs 38). change (Z.to_nat 38) with 38%nat in *. lia.
  - unfold in_u64. lia.
  - intros v [Hv Hraw]. cbn [outcome fst snd].
    destruct (Z.eqb_spec (view_size v) (sz - 38)) as [He|He]; [left|right].
    + rewrite He in Hraw. split_and!; try done. exists bs0. by rewrite Hbs, Hb.
    + split; [done|]. intros rest _ _ Hr. by destruct He; eapply raw_container_fun.
  - intros _ Hno. right. split; [done|]. intros rest _ _. apply Hno.
Qed.

Lemma layout_first bs rs :
  is_table container_record bs rs ->
  exists off n, first_view {| span_offset := 0; span_bytes := bs |} rs =
    {| view_data := Some off; view_size := n |} /\ container_layout bs off n.
Proof.
  intros [Hbs Hne Hc HP Hs]. destruct rs as [|[name payload] rs]; [done|].
  do 2 eexists. split; [reflexivity|]. cbn [fst snd span_offset]. by eapply usbd_layout.
Qed.

(** The result of [dxbc_container_view_first] on a readable buffer. *)
Lemma container_view_first_spec {E} bs out :
  in_u64 (size bs) ->
  outcome (dxbc_container_view_first (E:=E) (Some bs) (size bs) (Some out))
    (fun r => (exists off n, r = (true, Some {| view_data := Some off; view_size := n |}) /\
                 container_layout bs off n) \/
              r.1 = false /\ forall off n, ~ container_layout bs off n)
    (fun _ => False).
Proof.
  intros Hs. unfold dxbc_container_view_first. cbn [fmap option_fmap option_map].
  apply outcome_bind, outcome_attempt.
  eapply outcome_mono; [apply raw_dxbc_view_spec; done|..]; cbn [span_bytes span_offset].
  { intros [vd n] [Hv Hraw]. cbn [view_data view_size] in *. subst vd. left.
    exists 0, n. split; [done|]. by constructor. }
  intros [] Hraw. apply outcome_bind.
  eapply outcome_mono; [by apply unity_program_view_spec| |done].
  intros [b v]. cbn [fst snd]. intros [(-> & Hv & Hn & [rest Hbs] & H38 & Hr)|[-> Hunity]].
  { left. destruct v. cbn in *. subst. exists 38, (size (Byte.x02 :: rest) - 38). split; [done|].
    by eapply unity_layout. }
  apply outcome_bind, outcome_attempt.
  eapply outcome_mono; [apply usbd_view_first_spec; done|..]; cbn [span_bytes].
  - intros w (rs & Ht & ->). left. destruct (layout_first _ _ Ht) as (off & n & -> & Hl). eauto.
  - intros [] Hno. right. split; [done|]. intros off n Hl.
    destruct Hl as [n Hr|rest H38 Hbs Hr|name payload rs Hbs Hc Hsm HP].
    + by apply (Hraw n).
    + by apply (Hunity rest).
    + by apply (Hno ((name, payload) :: rs)).
Qed.
End container_correct.

Lemma table_magic rs : slice (table_bytes rs) 0 4 = String.list_byte_of_string "USBD".
Proof. done. Qed.

Lemma is_table_fun P bs rs rs' : is_table P bs rs -> is_table P bs rs' -> rs = rs'.
Proof.
  intros (_ & _ & _ & Hn & Hw)%is_table_walk (_ & _ & _ & Hn' & Hw')%is_table_walk.
  by destruct (walk_fun P bs 8 rs _ rs' _ ltac:(lia) Hw Hw'); [lia|].
Qed.

(** A buffer has at most one layout. *)
Lemma container_layout_fun bs off n off' n' :
  container_layout bs off n -> container_layout bs off' n' -> off = off' /\ n = n'.
Proof.
  intros H H'.
  assert (Hraw_unity : forall m rest, raw_container bs m -> bs = Byte.x02 :: rest -> False).
  { intros m rest [_ Hm _] ->. unfold slice in Hm. simpl in Hm. done. }
  assert (Hraw_table : forall m rs, raw_container bs m -> bs = table_bytes rs -> False).
  { intros m rs [_ Hm _] ->. by rewrite table_magic in Hm. }
  assert (Hunity_table : forall rest rs, bs = Byte.x02 :: rest -> bs = table_bytes rs -> False).
  { intros rest rs -> Ht. done. }
  destruct H as [m Hr|rest H38 Hb Hr|name payload rs Hb Hc Hs HP];
    destruct H' as [m' Hr'|rest' H38' Hb' Hr'|name' payload' rs' Hb' Hc' Hs' HP'];
    try solve [exfalso; eauto].
  - split; [done|]. by eapply raw_container_fun.
  - done.
  - assert (Heq : (name, payload) :: rs = (name', payload') :: rs')
      by (eapply (is_table_fun container_record bs); by split).
    injection Heq as -> -> ->. done.
Qed.

(** A USBD reader is not guarded against a NULL buffer, unlike its siblings. *)
Lemma container_view_first_null `{UnityCommon} {E} sz out :
  8 <= sz -> dxbc_container_view_first (E:=E) None sz (Some out) = Undef.
Proof.
  intros. unfold dxbc_container_view_first. cbn. unfold usbd_view_first, USBD_HEADER_SIZE.
  by rewrite (proj2 (Z.ltb_ge _ _)).
Qed.

(** [dxbc_container_view_first] reads inside its buffer and always returns;
    it finds exactly the container that the wrapper formats place in the buffer:
    the whole of a raw blob, the program of a Unity record, or the first payload
    of a USBD table all of whose records are complete containers. *)
Theorem dxbc_container_view_first_iff `{U : UnityCommon} {HU : UnityCommonSpec U} {E} bs out :
  in_u64 (size bs) ->
  (exists r, dxbc_container_view_first (E:=E) (Some bs) (size bs) (Some out) = Ret r) /\
  forall off n,
    dxbc_container_view_first (E:=E) (Some bs) (size bs) (Some out) =
      Ret (true, Some {| view_data := Some off; view_size := n |}) <->
    container_layout bs off n.
Proof.
  intros Hs. pose proof (container_view_first_spec (E:=E) bs out Hs) as Hspec.
  destruct (dxbc_container_view_first _ _ _) as [r| |]; [|done..]. split; [eauto|].
  intros off n. destruct Hspec as [(off' & n' & -> & Hl)|[Hr Hno]].
  - split; [by intros [= <- <-]|]. intros Hl'.
    by destruct (container_layout_fun _ _ _ _ _ Hl Hl') as [-> ->].
  - split; [by intros [= ->]|]. intros Hl. by destruct (Hno off n).
Qed.

(** * Witness *)

Lemma dxbc_container_view_first_iff_witness :
  in_u64 (size sample_table) /\ container_layout sample_table 20 (size sample_bytes).
Proof.
  split; [by vm_compute|].
  apply (@dxbc_container_view_first_iff unity_common_ref unity_common_ref_spec unit sample_table
           null_view); by vm_compute.
Defined.
