(* ===== verification/Utf8.v ===== *)
(** Record names, [valid_utf8_name] of [src/dxbc/usbd.c], against the encoding
    of Unicode scalar values. *)

From S2P Require Import Prelude.

(** * Operation *)

(** The lead byte of a sequence: continuation count, payload bits, smallest
    code point of the form. *)
Definition utf8_lead (first : Z) : res unit (Z * Z * Z) :=
  if Z.land first 0xe0 =? 0xc0 then Ret (1, Z.land first 0x1f, 0x80)
  else if Z.land first 0xf0 =? 0xe0 then Ret (2, Z.land first 0x0f, 0x800)
  else if Z.land first 0xf8 =? 0xf0 then Ret (3, Z.land first 0x07, 0x10000)
  else Fail tt.

(** One continuation byte. *)
Definition utf8_continue (bytes : list byte) (_ : Z) (state : Z * Z) : res unit (Z * Z) :=
  let '(at_, codepoint) := state in
  next ← load8 bytes at_;
  if negb (Z.land next 0xc0 =? 0x80) then Fail tt
  else Ret (u64 (at_ + 1), Z.lor (u32 (Z.shiftl codepoint 6)) (Z.land next 0x3f)).

(** One iteration of the loop over the name: the position after the character
    at [at_]. *)
Definition utf8_character (bytes : list byte) (size at_ : Z) : res unit Z :=
  first ← load8 bytes at_;
  let at_ := u64 (at_ + 1) in
  if first =? 0 then Fail tt
  else if first <? 0x80 then Ret at_
  else
  '(continuation, codepoint, minimum) ← utf8_lead first;
  if u64 (size - at_) <? continuation then Fail tt else
  '(at_, codepoint) ← for_loop (Z.to_nat continuation) 0 (utf8_continue bytes) (at_, codepoint);
  if (codepoint <? minimum) || (0x10ffff <? codepoint) ||
     ((0xd800 <=? codepoint) && (codepoint <=? 0xdfff)) then Fail tt
  else Ret at_.

(** [valid_utf8_name]; [Fail tt] is [return false], [None] is NULL. *)
Definition valid_utf8_name (bytes : option (list byte)) (size : Z) : res unit unit :=
  match bytes with
  | None => Fail tt
  | Some bytes =>
      if size =? 0 then Fail tt else
      _ ← while (Z.to_nat size) (fun at_ => at_ <? size) (utf8_character bytes size) 0;
      Ret tt
  end.

(** * Reference *)

(** The code points a name may contain: the Unicode scalar values but NUL. *)
Definition name_scalar (c : Z) : Prop := 0 < c <= 0x10ffff /\ ~ (0xd800 <= c <= 0xdfff).

Definition encode_utf8 (c : Z) : list byte :=
  if c <? 0x80 then [byte_of c]
  else if c <? 0x800 then [byte_of (0xc0 + c / 64); byte_of (0x80 + c mod 64)]
  else if c <? 0x10000 then
    [byte_of (0xe0 + c / 4096); byte_of (0x80 + c / 64 mod 64); byte_of (0x80 + c mod 64)]
  else [byte_of (0xf0 + c / 262144); byte_of (0x80 + c / 4096 mod 64);
        byte_of (0x80 + c / 64 mod 64); byte_of (0x80 + c mod 64)].

(** A non-empty sequence of encoded scalar values. *)
Definition utf8_name (bs : list byte) : Prop :=
  bs <> [] /\ exists cs, Forall name_scalar cs /\ bs = cs ≫= encode_utf8.

(** * Decoding one character *)

(** The decoder on a list: the scalar value and the rest. *)
Definition continuation (b : byte) : option Z :=
  if (0x80 <=? byte_val b) && (byte_val b <? 0xc0) then Some (byte_val b - 0x80) else None.

(** The continuation bytes of a sequence, read one after the other. *)
Fixpoint continue_all (bs : list byte) (n : nat) (c : Z) {struct n} : option Z :=
  match n with
  | O => Some c
  | S n => match bs with
           | [] => None
           | b :: bs => z ← continuation b; continue_all bs n (c * 64 + z)
           end
  end.

Definition checked (minimum c : Z) (n : nat) : option (Z * nat) :=
  if (c <? minimum) || (0x10ffff <? c) || ((0xd800 <=? c) && (c <=? 0xdfff)) then None
  else Some (c, n).

Definition decode_utf8 (bs : list byte) : option (Z * nat) :=
  match bs with
  | [] => None
  | b0 :: bs =>
    let v := byte_val b0 in
    if v =? 0 then None
    else if v <? 0x80 then Some (v, 1%nat)
    else if v <? 0xc0 then None
    else if v <? 0xe0 then c ← continue_all bs 1 (v - 0xc0); checked 0x80 c 2
    else if v <? 0xf0 then c ← continue_all bs 2 (v - 0xe0); checked 0x800 c 3
    else if v <? 0xf8 then c ← continue_all bs 3 (v - 0xf0); checked 0x10000 c 4
    else None
  end.

Lemma byte_val_small z : 0 <= z < 256 -> byte_val (byte_of z) = z.
Proof. intros. rewrite byte_val_of. by apply u8_small. Qed.

Lemma byte_of_eq b z : byte_val b = z -> byte_of z = b.
Proof. intros <-. apply byte_of_val. Qed.

Lemma continuation_encode z : 0 <= z < 64 -> continuation (byte_of (0x80 + z)) = Some z.
Proof.
  intros. unfold continuation. rewrite byte_val_small by lia.
  rewrite (proj2 (Z.leb_le _ _)), (proj2 (Z.ltb_lt _ _)) by lia. simpl. f_equal. lia.
Qed.

Lemma continuation_Some b z : continuation b = Some z -> 0 <= z < 64 /\ byte_val b = 0x80 + z.
Proof. unfold continuation. case_match; [|done]. intros [= <-]. bools. lia. Qed.

Lemma checked_scalar minimum c n :
  minimum <= c -> name_scalar c -> checked minimum c n = Some (c, n).
Proof.
  intros Hm [Hc Hs]. unfold checked.
  rewrite (proj2 (Z.ltb_ge _ _)), (proj2 (Z.ltb_ge _ _)) by lia. simpl.
  case_match; [bools; lia|done].
Qed.

Lemma checked_Some minimum c n c' n' :
  0 < minimum -> checked minimum c n = Some (c', n') ->
  c' = c /\ n' = n /\ minimum <= c /\ name_scalar c.
Proof.
  intros Hm. unfold checked, name_scalar. case_match; [done|]. intros [= <- <-]. bools.
  rewrite andb_false_iff, !Z.leb_gt in *. split_and!; try lia.
Qed.

Lemma decode_encode c rest :
  name_scalar c -> decode_utf8 (encode_utf8 c ++ rest) = Some (c, length (encode_utf8 c)).
Proof.
  intros Hc. pose proof Hc as [Hr _]. unfold encode_utf8.
  assert (Hm : forall z, 0 <= z mod 64 < 64) by (intros; apply Z.mod_pos_bound; lia).
  pose proof (Hm c). pose proof (Hm (c / 64)). pose proof (Hm (c / 4096)).
  assert (D1 : c = 64 * (c / 64) + c mod 64) by (apply Z.div_mod; lia).
  assert (D2 : c / 64 = 64 * (c / 4096) + c / 64 mod 64).
  { replace 4096 with (64 * 64) by lia. rewrite <- Z.div_div by lia. apply Z.div_mod; lia. }
  assert (D3 : c / 4096 = 64 * (c / 262144) + c / 4096 mod 64).
  { replace 262144 with (4096 * 64) by lia. rewrite <- Z.div_div by lia. apply Z.div_mod; lia. }
  repeat case_match; bools; cbn [app decode_utf8 continue_all length]; rewrite ?byte_val_small by lia.
  - rewrite (proj2 (Z.eqb_neq _ _)), (proj2 (Z.ltb_lt _ _)) by lia. done.
  - rewrite (proj2 (Z.eqb_neq _ _)), 2!(proj2 (Z.ltb_ge _ _)), (proj2 (Z.ltb_lt _ _)) by lia.
    rewrite continuation_encode by done. cbn [mbind option_bind].
    replace (_ + c mod 64) with c by lia. by apply checked_scalar.
  - rewrite (proj2 (Z.eqb_neq _ _)), 3!(proj2 (Z.ltb_ge _ _)), (proj2 (Z.ltb_lt _ _)) by lia.
    rewrite !continuation_encode by done. cbn [mbind option_bind].
    replace (_ + c mod 64) with c by lia. by apply checked_scalar.
  - rewrite (proj2 (Z.eqb_neq _ _)), 4!(proj2 (Z.ltb_ge _ _)), (proj2 (Z.ltb_lt _ _)) by lia.
    rewrite !continuation_encode by done. cbn [mbind option_bind].
    replace (_ + c mod 64) with c by lia. by apply checked_scalar.
Qed.

Lemma div_digit q m k : 0 <= q -> 0 <= m < k -> (q * k + m) / k = q /\ (q * k + m) mod k = m.
Proof.
  intros. split.
  - rewrite Z.div_add_l, (Z.div_small m) by lia. lia.
  - rewrite Z.add_comm, Z.mod_add by lia. by apply Z.mod_small.
Qed.

Ltac continuations :=
  repeat match goal with
  | H : context [continuation ?b] |- _ =>
      let E := fresh "E" in
      destruct (continuation b) eqn:E; [|done]; cbn [mbind option_bind] in H;
      apply continuation_Some in E as [? ?]
  end.

Lemma decode_sound bs c n :
  decode_utf8 bs = Some (c, n) ->
  name_scalar c /\ n = length (encode_utf8 c) /\ exists rest, bs = encode_utf8 c ++ rest.
Proof.
  destruct bs as [|b bs]; [done|]. cbn [decode_utf8]. pose proof (byte_val_range b) as Hb.
  case_match; [done|]. case_match; bools.
  { intros [= <- <-]. unfold name_scalar, encode_utf8.
    rewrite (proj2 (Z.ltb_lt _ _)) by lia. split; [lia|]. split; [done|].
    exists bs. by rewrite byte_of_val. }
  case_match; [done|]. case_match; [|case_match; [|case_match; [|done]]]; bools.
  - destruct bs as [|b1 bs]; [done|]. cbn [continue_all]. intros Hd. continuations.
    apply checked_Some in Hd as (-> & -> & Hmin & Hsc); [|lia]. split; [done|].
    destruct (div_digit (byte_val b - 0xc0) z 64) as [Hq Hr]; [lia..|].
    unfold encode_utf8. rewrite (proj2 (Z.ltb_ge _ _)), (proj2 (Z.ltb_lt _ _)) by lia.
    rewrite Hq, Hr. split; [done|]. exists bs. cbn [app].
    by rewrite (byte_of_eq b), (byte_of_eq b1) by lia.
  - destruct bs as [|b1 [|b2 bs]]; [done|cbn [continue_all]; by destruct (continuation b1)|]. cbn [continue_all]. intros Hd. continuations.
    apply checked_Some in Hd as (-> & -> & Hmin & Hsc); [|lia]. split; [done|].
    destruct (div_digit (byte_val b - 0xe0) z 64) as [Hq Hr]; [lia..|].
    destruct (div_digit ((byte_val b - 0xe0) * 64 + z) z0 64) as [Hq0 Hr0]; [lia..|].
    unfold encode_utf8. rewrite 2!(proj2 (Z.ltb_ge _ _)), (proj2 (Z.ltb_lt _ _)) by lia.
    change 4096 with (64 * 64). rewrite <- Z.div_div by lia. rewrite Hq0, Hr0, Hq, Hr.
    split; [done|]. exists bs. cbn [app].
    by rewrite (byte_of_eq b), (byte_of_eq b1), (byte_of_eq b2) by lia.
  - destruct bs as [|b1 [|b2 [|b3 bs]]];
      [done|cbn [continue_all]; by destruct (continuation b1)|
       cbn [continue_all]; destruct (continuation b1); [|done]; cbn; by destruct (continuation b2)|]. cbn [continue_all]. intros Hd. continuations.
    apply checked_Some in Hd as (-> & -> & Hmin & Hsc); [|lia]. split; [done|].
    destruct (div_digit (byte_val b - 0xf0) z 64) as [Hq Hr]; [lia..|].
    destruct (div_digit ((byte_val b - 0xf0) * 64 + z) z0 64) as [Hq0 Hr0]; [lia..|].
    destruct (div_digit (((byte_val b - 0xf0) * 64 + z) * 64 + z0) z1 64) as [Hq1 Hr1]; [lia..|].
    unfold encode_utf8. rewrite 3!(proj2 (Z.ltb_ge _ _)) by lia.
    change 262144 with (64 * (64 * 64)). change 4096 with (64 * 64).
    rewrite <- !Z.div_div by lia. rewrite Hq1, Hr1, Hq0, Hr0, Hq, Hr.
    split; [done|]. exists bs. cbn [app].
    by rewrite (byte_of_eq b), (byte_of_eq b1), (byte_of_eq b2), (byte_of_eq b3) by lia.
Qed.

(** * The loop is the reference decoder *)

Lemma lead_masks b :
  let v := byte_val b in
  (Z.land v 0xe0 =? 0xc0) = (0xc0 <=? v) && (v <? 0xe0) /\
  (Z.land v 0xf0 =? 0xe0) = (0xe0 <=? v) && (v <? 0xf0) /\
  (Z.land v 0xf8 =? 0xf0) = (0xf0 <=? v) && (v <? 0xf8) /\
  (Z.land v 0xc0 =? 0x80) = (0x80 <=? v) && (v <? 0xc0) /\
  Z.land v 0x3f = v mod 64 /\ Z.land v 0x1f = v mod 32 /\ Z.land v 0x0f = v mod 16 /\
  Z.land v 0x07 = v mod 8.
Proof. destruct b; vm_compute; repeat split. Qed.

Lemma utf8_continue_spec bs i at_ c :
  0 <= at_ < 2 ^ 64 - 1 -> 0 <= c < 2 ^ 20 -> (Z.to_nat at_ < length bs)%nat ->
  utf8_continue bs i (at_, c) =
  match bs !! Z.to_nat at_ ≫= continuation with
  | Some z => Ret (at_ + 1, c * 64 + z)
  | None => Fail tt
  end.
Proof.
  intros Ha Hc Hl. unfold utf8_continue.
  destruct (lookup_lt_is_Some_2 bs _ Hl) as [b Hb]. rewrite (load8_ok _ _ b), Hb by (done || lia).
  cbn [mbind res_bind option_bind]. unfold continuation.
  destruct (lead_masks b) as (_ & _ & _ & -> & Hm & _). cbv zeta in Hm.
  destruct ((0x80 <=? byte_val b) && (byte_val b <? 0xc0)) eqn:He; [cbn [negb]|done].
  bools. rewrite Hm, u64_small by lia.
  assert (Hmod : byte_val b mod 64 = byte_val b - 0x80).
  { replace (byte_val b) with (byte_val b - 0x80 + 2 * 64) at 1 by lia.
    rewrite Z.mod_add by lia. apply Z.mod_small; lia. }
  rewrite Hmod, (u32_shiftl c 6 20), Z.lor_comm by lia.
  rewrite lor_add_disjoint by lia. do 2 f_equal. lia.
Qed.

Lemma utf8_lead_spec b :
  let v := byte_val b in
  0x80 <= v ->
  utf8_lead v =
    if v <? 0xc0 then Fail tt
    else if v <? 0xe0 then Ret (1, v - 0xc0, 0x80)
    else if v <? 0xf0 then Ret (2, v - 0xe0, 0x800)
    else if v <? 0xf8 then Ret (3, v - 0xf0, 0x10000)
    else Fail tt.
Proof. destruct b; vm_compute; intros H; try done; by destruct H. Qed.

Lemma continue_loop bs n i at_ c rest :
  0 <= at_ -> size bs < 2 ^ 64 -> drop (Z.to_nat at_) bs = rest -> (n <= length rest)%nat ->
  0 <= c -> (c + 1) * 64 ^ Z.of_nat n <= 2 ^ 26 ->
  for_loop n i (utf8_continue bs) (at_, c) =
  match continue_all rest n c with
  | Some c' => Ret (at_ + Z.of_nat n, c')
  | None => Fail tt
  end.
Proof.
  intros Ha Hs. revert i at_ c rest Ha. induction n as [|n IH]; intros i at_ c rest Ha Hd Hn Hc Hb.
  { cbn [for_loop continue_all Z.of_nat]. by rewrite Z.add_0_r. }
  destruct rest as [|b rest]; [cbn in Hn; lia|].
  assert (Hl : bs !! Z.to_nat at_ = Some b) by (rewrite <- (Nat.add_0_r (Z.to_nat at_)), <- lookup_drop, Hd; done).
  pose proof (lookup_lt_Some _ _ _ Hl) as Hlt. unfold size in Hs.
  assert (Hpow : 64 ^ Z.of_nat (S n) = 64 * 64 ^ Z.of_nat n) by (rewrite Nat2Z.inj_succ, Z.pow_succ_r; lia).
  assert (Hpos : 1 <= 64 ^ Z.of_nat n) by (apply (Z.pow_le_mono_r 64 0); lia).
  rewrite Hpow in Hb. cbn [for_loop continue_all].
  rewrite utf8_continue_spec, Hl by (try lia; nia). cbn [mbind option_bind res_bind].
  destruct (continuation b) as [z|] eqn:Ez; [|done]. cbn [mbind option_bind res_bind].
  apply continuation_Some in Ez as [Hz _].
  rewrite (IH _ _ _ rest).
  - destruct (continue_all _ _ _); [|done]. do 2 f_equal. lia.
  - lia.
  - replace (Z.to_nat (at_ + 1)) with (Z.to_nat at_ + 1)%nat by lia.
    by rewrite <- drop_drop, Hd.
  - cbn [length] in Hn. lia.
  - lia.
  - nia.
Qed.

Lemma continue_short bs n c : (length bs < n)%nat -> continue_all bs n c = None.
Proof.
  revert bs c. induction n as [|n IH]; intros [|b bs] c Hl; cbn [length] in Hl; [lia..|done|].
  cbn [continue_all]. destruct (continuation b); [|done]. apply IH. lia.
Qed.

Lemma utf8_character_spec bs at_ :
  0 <= at_ < size bs -> size bs < 2 ^ 64 ->
  utf8_character bs (size bs) at_ =
  match decode_utf8 (drop (Z.to_nat at_) bs) with
  | Some (_, n) => Ret (at_ + Z.of_nat n)
  | None => Fail tt
  end.
Proof.
  intros Ha Hs. unfold utf8_character.
  destruct (drop (Z.to_nat at_) bs) as [|b rest] eqn:Hd.
  { pose proof (size_drop bs at_ ltac:(lia)) as Hl. rewrite Hd in Hl. change (size []) with 0 in Hl. lia. }
  assert (Hl : bs !! Z.to_nat at_ = Some b) by (rewrite <- (Nat.add_0_r (Z.to_nat at_)), <- lookup_drop, Hd; done).
  assert (Hrest : drop (Z.to_nat (at_ + 1)) bs = rest).
  { replace (Z.to_nat (at_ + 1)) with (Z.to_nat at_ + 1)%nat by lia. by rewrite <- drop_drop, Hd. }
  assert (Hsz : size bs - (at_ + 1) = Z.of_nat (length rest)).
  { rewrite <- size_drop by lia. by rewrite Hrest. }
  rewrite (load8_ok _ _ b) by (done || lia). cbn [mbind res_bind decode_utf8]. cbv zeta.
  rewrite (u64_small (at_ + 1)) by lia. rewrite Hsz.
  pose proof (byte_val_range b) as Hb.
  case_match; [done|]. case_match; [done|]. bools. rewrite utf8_lead_spec by lia.
  rewrite (u64_small (Z.of_nat _)) by lia.
  assert (Htail : forall k c0 minimum, 0 <= c0 -> (c0 + 1) * 64 ^ Z.of_nat k <= 2 ^ 26 ->
    (if Z.of_nat (length rest) <? Z.of_nat k then Fail tt
     else '(at_, c) ← for_loop k 0 (utf8_continue bs) (at_ + 1, c0);
          if (c <? minimum) || (0x10ffff <? c) || ((0xd800 <=? c) && (c <=? 0xdfff)) then Fail tt
          else Ret at_) =
    match c ← continue_all rest k c0; checked minimum c (S k) with
    | Some (_, n) => Ret (at_ + Z.of_nat n)
    | None => Fail tt
    end).
  { intros k c0 minimum Hc0 Hk. destruct (Z.ltb_spec (Z.of_nat (length rest)) (Z.of_nat k)).
    { by rewrite continue_short by lia. }
    rewrite (continue_loop bs k 0 (at_ + 1) c0 rest) by (done || lia).
    destruct (continue_all rest k c0) as [c|]; [|done]. cbn [mbind res_bind option_bind].
    unfold checked. case_match; [done|]. f_equal. lia. }
  case_match; [done|]. case_match; [|case_match; [|case_match; [|done]]]; bools;
    cbn [mbind res_bind].
  - apply (Htail 1%nat); cbn; lia.
  - apply (Htail 2%nat); cbn; lia.
  - apply (Htail 3%nat); cbn; lia.
Qed.

(** * The theorem *)

Lemma decode_step bs at_ c n :
  0 <= at_ <= size bs -> decode_utf8 (drop (Z.to_nat at_) bs) = Some (c, n) ->
  at_ + Z.of_nat n <= size bs /\ (0 < n)%nat.
Proof.
  intros Ha Hd. apply decode_sound in Hd as (_ & -> & rest & Hrest).
  pose proof (size_drop bs at_ Ha) as Hs. rewrite Hrest, size_app in Hs. unfold size in *.
  split; [lia|]. unfold encode_utf8. by repeat case_match; cbn; lia.
Qed.

(** The name from [at_] on is a sequence of characters. *)
Definition characters (bs : list byte) (at_ : Z) : Prop :=
  exists cs, Forall name_scalar cs /\ drop (Z.to_nat at_) bs = cs ≫= encode_utf8.

Lemma characters_step bs at_ :
  0 <= at_ < size bs ->
  characters bs at_ <->
  exists c n, decode_utf8 (drop (Z.to_nat at_) bs) = Some (c, n) /\ characters bs (at_ + Z.of_nat n).
Proof.
  intros Ha. pose proof (size_drop bs at_ ltac:(lia)) as Hs. split.
  - intros (cs & Hcs & Hd). destruct cs as [|c cs].
    { rewrite Hd in Hs. change (size ([] ≫= encode_utf8)) with 0 in Hs. lia. }
    inversion_clear Hcs. cbn [mbind list_bind] in Hd. rewrite Hd, decode_encode by done.
    do 2 eexists. split; [done|]. exists cs. split; [done|].
    rewrite Z2Nat.inj_add, Nat2Z.id by lia. rewrite <- drop_drop, Hd. apply drop_app_length.
  - intros (c & n & Hd & cs & Hcs & Hrest).
    apply decode_sound in Hd as (Hc & -> & rest & Hd). exists (c :: cs). split; [by constructor|].
    rewrite Z2Nat.inj_add, Nat2Z.id, <- drop_drop, Hd, drop_app_length in Hrest by lia.
    by rewrite Hd, Hrest.
Qed.

Lemma valid_utf8_name_spec bs :
  size bs < 2 ^ 64 ->
  outcome (valid_utf8_name (Some bs) (size bs)) (fun _ => utf8_name bs) (fun _ => ~ utf8_name bs).
Proof.
  intros Hs. unfold valid_utf8_name. pose proof (size_nonneg bs).
  apply outcome_if; intros H0; bools.
  { intros [Hne _]. destruct bs; [done|]. by unfold size in H0. }
  assert (Hiff : utf8_name bs <-> characters bs 0).
  { unfold utf8_name, characters. cbn [Z.to_nat drop]. split; [intros [_ ?]; done|].
    split; [by intros ->|done]. }
  apply outcome_bind. eapply outcome_mono.
  - apply (outcome_while (fun at_ => 0 <= at_ <= size bs /\ (characters bs 0 <-> characters bs at_))
      (fun at_ => Z.to_nat (size bs - at_)) (fun _ => ~ utf8_name bs)).
    + split; [lia|done].
    + lia.
    + intros at_ [Ha Hc] Hlt. bools. split; [lia|].
      rewrite utf8_character_spec by lia. pose proof (characters_step bs at_ ltac:(lia)) as Hstep.
      destruct (decode_utf8 _) as [[c n]|] eqn:Hd; cbn [outcome].
      * apply decode_step in Hd as Hb; [|lia]. split; [|lia]. split; [lia|]. rewrite Hc, Hstep.
        split; [by intros (? & ? & [= <- <-] & ?)|eauto].
      * rewrite Hiff, Hc, Hstep. by intros (? & ? & ? & _).
  - intros at_ [[Ha Hc] Hend]. bools. apply Hiff, Hc. exists []. split; [done|].
    rewrite drop_ge; [done|]. unfold size in *. lia.
  - done.
Qed.

(** [valid_utf8_name] accepts exactly the non-empty sequences of UTF-8
    encodings of Unicode scalar values other than NUL: overlong forms, surrogates,
    truncated sequences and code points beyond U+10FFFF are rejected, and the
    scan never reads past the name. *)
Theorem valid_utf8_name_iff bs :
  size bs < 2 ^ 64 ->
  (valid_utf8_name (Some bs) (size bs) = Ret tt <-> utf8_name bs) /\
  (valid_utf8_name (Some bs) (size bs) = Fail tt <-> ~ utf8_name bs).
Proof.
  intros Hs. pose proof (valid_utf8_name_spec bs Hs) as H.
  destruct (valid_utf8_name _ _) as [[]|[]|]; cbn [outcome] in H; [| |done]; naive_solver.
Qed.

(** A name of one, two, three and four byte characters. *)
Definition sample_name : list byte := [0x41; 0xe9; 0x20ac; 0x1f600] ≫= encode_utf8.

Lemma valid_utf8_name_iff_witness :
  size sample_name < 2 ^ 64 /\ utf8_name sample_name.
Proof.
  split; [by vm_compute|]. apply (valid_utf8_name_iff sample_name); by vm_compute.
Defined.
