(* ===== verification/Usbd.v ===== *)
(** The USBD result table: [include/dxbc/usbd.h] and [src/dxbc/usbd.c]. *)

From S2P Require Import Prelude UnityCommon Hash Document DocumentFormat DocumentCorrect.
From S2P Require Import RecordTable Samples Container Utf8.

(** * Data *)

Inductive DXBCUSBDStatus :=
| DXBC_USBD_OK
| DXBC_USBD_INVALID_ARGUMENT
| DXBC_USBD_BAD_MAGIC
| DXBC_USBD_BAD_RECORD_COUNT
| DXBC_USBD_TRUNCATED
| DXBC_USBD_INVALID_NAME
| DXBC_USBD_INVALID_DXBC
| DXBC_USBD_TRAILING_BYTES
| DXBC_USBD_SIZE_OVERFLOW
| DXBC_USBD_ALLOCATION_FAILED.

Record DXBCUSBDDiagnostic := {
  usbd_status : DXBCUSBDStatus;
  usbd_byte_offset : Z;
  usbd_record_index : Z;
}.

(** The pointers with their sizes are byte strings, [None] for NULL. *)
Record DXBCUSBDRecordView := {
  record_name : option (list byte);
  record_dxbc : option (list byte);
}.

Definition record_name_size (r : DXBCUSBDRecordView) : Z := from_option size 0 (record_name r).
Definition record_dxbc_size (r : DXBCUSBDRecordView) : Z := from_option size 0 (record_dxbc r).

Record DXBCUSBDTableView := {
  usbd_bytes : option (list byte);
  usbd_record_count : Z;
}.

Definition DXBC_USBD_HEADER_SIZE : Z := 8.

(** * Operations *)

Definition dxbc_usbd_table_init : DXBCUSBDTableView :=
  {| usbd_bytes := None; usbd_record_count := 0 |}.

Definition set_diagnostic (status : DXBCUSBDStatus) (byte_offset record_index : Z)
    : DXBCUSBDDiagnostic := {|
  usbd_status := status; usbd_byte_offset := byte_offset; usbd_record_index := record_index |}.

Definition usbd_fail {A} (status : DXBCUSBDStatus) (byte_offset record_index : Z)
    : res DXBCUSBDDiagnostic A := Fail (set_diagnostic status byte_offset record_index).

(** The explicit little-endian accessors of usbd.c. *)
Definition usbd_read_u32_le {E} (bytes : list byte) (off : Z) : res E Z := load_or_word bytes off.

Definition write_u32_le {E} (bytes : list byte) (off value : Z) : res E (list byte) :=
  blit bytes off [byte_of value; byte_of (Z.shiftr value 8); byte_of (Z.shiftr value 16);
                  byte_of (Z.shiftr value 24)].

Section usbd.
Context `{U : UnityCommon} `{D : DigestStack}.

Definition valid_raw_dxbc {E} (bytes : option (list byte)) : res E bool :=
  match bytes with
  | None => Ret false
  | Some bytes =>
      '(found, container) ← dxbc_container_view_first (Some bytes) (size bytes) (Some null_view);
      if negb found then Ret false else
      match container with
      | None => Ret false
      | Some container =>
          if negb (bool_decide (view_data container = Some 0)) ||
             negb (view_size container =? size bytes) then Ret false else
          match dxbc_document_parse (Some dxbc_document_init) (Some bytes) with
          | Ret _ => Ret true
          | Fail _ => Ret false
          | Undef => Undef
          end
      end
  end.

(** [parse_record]: the position after the record, and the record. *)
Definition parse_record (bytes : list byte) (size at_ record_index : Z)
    : res DXBCUSBDDiagnostic (Z * DXBCUSBDRecordView) :=
  if (size <? at_) || (u64 (size - at_) <? 4) then
    usbd_fail DXBC_USBD_TRUNCATED at_ record_index
  else
  name_size ← usbd_read_u32_le bytes at_;
  let at_ := u64 (at_ + 4) in
  if (name_size =? 0) || (u64 (size - at_) <? name_size) then
    usbd_fail DXBC_USBD_INVALID_NAME at_ record_index
  else
  name ← view bytes at_ name_size;
  _ ← or_fail (valid_utf8_name (Some name) name_size)
        (set_diagnostic DXBC_USBD_INVALID_NAME at_ record_index);
  let at_ := u64 (at_ + name_size) in
  if u64 (size - at_) <? 4 then usbd_fail DXBC_USBD_TRUNCATED at_ record_index else
  dxbc_size ← usbd_read_u32_le bytes at_;
  let at_ := u64 (at_ + 4) in
  if u64 (size - at_) <? dxbc_size then usbd_fail DXBC_USBD_TRUNCATED at_ record_index else
  dxbc ← view bytes at_ dxbc_size;
  valid ← valid_raw_dxbc (Some dxbc);
  if negb valid then usbd_fail DXBC_USBD_INVALID_DXBC at_ record_index else
  Ret (u64 (at_ + dxbc_size), {| record_name := Some name; record_dxbc := Some dxbc |}).

(** [dxbc_usbd_table_open].  [table] says whether the pointer is not NULL; the
    result is the filled table and the final diagnostic.  On [Fail] the table
    is [dxbc_usbd_table_init]. *)
Definition dxbc_usbd_table_open (table : bool) (bytes : option (list byte))
    : res DXBCUSBDDiagnostic (DXBCUSBDTableView * DXBCUSBDDiagnostic) :=
  match bytes with
  | None => usbd_fail DXBC_USBD_INVALID_ARGUMENT 0 UINT32_MAX
  | Some bytes =>
      if negb table then usbd_fail DXBC_USBD_INVALID_ARGUMENT 0 UINT32_MAX else
      let size := size bytes in
      if size <? DXBC_USBD_HEADER_SIZE then usbd_fail DXBC_USBD_BAD_MAGIC 0 UINT32_MAX else
      is_usbd ← magic_at bytes 0 "USBD";
      if negb is_usbd then usbd_fail DXBC_USBD_BAD_MAGIC 0 UINT32_MAX else
      count ← usbd_read_u32_le bytes 4;
      if (count =? 0) || (u64 (size - 8) / 9 <? count) then
        usbd_fail DXBC_USBD_BAD_RECORD_COUNT 4 UINT32_MAX
      else
      at_ ← for_loop (Z.to_nat count) 0
              (fun index at_ => r ← parse_record bytes size at_ index; Ret r.1)
              DXBC_USBD_HEADER_SIZE;
      if negb (at_ =? size) then usbd_fail DXBC_USBD_TRAILING_BYTES at_ count else
      Ret ({| usbd_bytes := Some bytes; usbd_record_count := count |},
           set_diagnostic DXBC_USBD_OK size count)
  end.

(** [dxbc_usbd_table_record]; [out_record] says whether that pointer is not NULL. *)
Definition dxbc_usbd_table_record (table : option DXBCUSBDTableView) (record_index : Z)
    (out_record : bool) : res unit DXBCUSBDRecordView :=
  match table with
  | None => Fail tt
  | Some table =>
    match usbd_bytes table with
    | None => Fail tt
    | Some bytes =>
      if negb out_record || (usbd_record_count table <=? record_index) then Fail tt else
      st ← for_loop (Z.to_nat (record_index + 1)) 0
             (fun index '(at_, found) =>
                '(at_, current) ← or_fail (parse_record bytes (size bytes) at_ index) tt;
                Ret (at_, if index =? record_index then Some current else found))
             (DXBC_USBD_HEADER_SIZE, None);
      match st.2 with Some current => Ret current | None => Fail tt end
    end
  end.

(** The first loop of [dxbc_usbd_table_encode]: validation and the total size. *)
Definition encode_check (index : Z) (total : Z) (record : DXBCUSBDRecordView)
    : res DXBCUSBDDiagnostic Z :=
  let invalid_name := set_diagnostic DXBC_USBD_INVALID_NAME total (u32 index) in
  let name_size := record_name_size record in
  let dxbc_size := record_dxbc_size record in
  if (name_size =? 0) || (UINT32_MAX <? name_size) then Fail invalid_name else
  _ ← or_fail (valid_utf8_name (record_name record) name_size) invalid_name;
  if UINT32_MAX <? dxbc_size then usbd_fail DXBC_USBD_INVALID_DXBC total (u32 index) else
  valid ← valid_raw_dxbc (record_dxbc record);
  if negb valid then usbd_fail DXBC_USBD_INVALID_DXBC total (u32 index) else
  let overhead := 8 in
  if dxbc_size_add_overflows overhead name_size ||
     dxbc_size_add_overflows (u64 (overhead + name_size)) dxbc_size ||
     dxbc_size_add_overflows total (u64 (u64 (overhead + name_size) + dxbc_size)) then
    usbd_fail DXBC_USBD_SIZE_OVERFLOW total (u32 index)
  else Ret (u64 (total + u64 (u64 (overhead + name_size) + dxbc_size))).

Fixpoint encode_sizes (records : list DXBCUSBDRecordView) (index total : Z)
    : res DXBCUSBDDiagnostic Z :=
  match records with
  | [] => Ret total
  | record :: records =>
      total ← encode_check index total record; encode_sizes records (index + 1) total
  end.

(** The second loop: writing the records into the allocation. *)
Fixpoint encode_records (records : list DXBCUSBDRecordView) (bytes : list byte) (at_ : Z)
    : res DXBCUSBDDiagnostic (list byte) :=
  match records with
  | [] => Ret bytes
  | record :: records =>
      match record_name record, record_dxbc record with
      | Some name, Some dxbc =>
          bytes ← write_u32_le bytes at_ (u32 (size name));
          let at_ := u64 (at_ + 4) in
          bytes ← blit bytes at_ name;
          let at_ := u64 (at_ + size name) in
          bytes ← write_u32_le bytes at_ (u32 (size dxbc));
          let at_ := u64 (at_ + 4) in
          bytes ← blit bytes at_ dxbc;
          encode_records records bytes (u64 (at_ + size dxbc))
      | _, _ => Undef
      end
  end.

(** [dxbc_usbd_table_encode]: the output bytes and the final diagnostic.
    [fresh] is the content of the new allocation, which is overwritten. *)
Definition dxbc_usbd_table_encode (fresh : Z -> list byte)
    (records : option (list DXBCUSBDRecordView)) (outputs : bool)
    : res DXBCUSBDDiagnostic (list byte * DXBCUSBDDiagnostic) :=
  match records with
  | None => usbd_fail DXBC_USBD_INVALID_ARGUMENT 0 UINT32_MAX
  | Some records =>
      let record_count := Z.of_nat (length records) in
      if (record_count =? 0) || (UINT32_MAX <? record_count) || negb outputs then
        usbd_fail DXBC_USBD_INVALID_ARGUMENT 0 UINT32_MAX
      else
      total ← encode_sizes records 0 DXBC_USBD_HEADER_SIZE;
      if negb (mem_alloc total) then usbd_fail DXBC_USBD_ALLOCATION_FAILED 0 UINT32_MAX else
      bytes ← blit (fresh total) 0 (String.list_byte_of_string "USBD");
      bytes ← write_u32_le bytes 4 (u32 record_count);
      bytes ← encode_records records bytes DXBC_USBD_HEADER_SIZE;
      Ret (bytes, set_diagnostic DXBC_USBD_OK total (u32 record_count))
  end.
End usbd.

Definition dxbc_usbd_status_name (status : DXBCUSBDStatus) : string :=
  match status with
  | DXBC_USBD_OK => "ok"
  | DXBC_USBD_INVALID_ARGUMENT => "invalid-argument"
  | DXBC_USBD_BAD_MAGIC => "bad-magic"
  | DXBC_USBD_BAD_RECORD_COUNT => "bad-record-count"
  | DXBC_USBD_TRUNCATED => "truncated"
  | DXBC_USBD_INVALID_NAME => "invalid-name"
  | DXBC_USBD_INVALID_DXBC => "invalid-dxbc"
  | DXBC_USBD_TRAILING_BYTES => "trailing-bytes"
  | DXBC_USBD_SIZE_OVERFLOW => "size-overflow"
  | DXBC_USBD_ALLOCATION_FAILED => "allocation-failed"
  end.
