(* ===== verification/UsbdCorrect.v ===== *)
(** The USBD reader and writer of [src/dxbc/usbd.c] implement the record-table
    format, and are inverse to each other. *)

From S2P Require Import Prelude UnityCommon Hash Document DocumentFormat DocumentCorrect.
From S2P Require Import RecordTable Samples Container Utf8 Usbd.

(** A record as the code requires it: a UTF-8 name and a whole valid container. *)
Definition usbd_record_ok (r : list byte * list byte) : Prop := utf8_name r.1 /\ valid_container r.2.

(** The view of a record. *)
Definition record_view (r : list byte * list byte) : DXBCUSBDRecordView :=
  {| record_name := Some r.1; record_dxbc := Some r.2 |}.

Section usbd_correct.
Context `{U : UnityCommon} {HU : UnityCommonSpec U} `{D : DigestStack}.

Lemma valid_container_raw bs : valid_container bs -> raw_container bs (size bs).
Proof. intros [[Hs Hm _ Hd _] _ _ _]. split; [lia|done|done]. Qed.

Lemma valid_container_range bs : valid_container bs -> 32 <= size bs < 2 ^ 32.
Proof.
  intros [[Hs _ _ Hd _] _ _ _]. split; [done|]. rewrite <- Hd. apply word_range; lia.
Qed.

(** Acceptance of a payload, up to the availability of memory. *)
Lemma valid_raw_dxbc_spec {E} bs :
  in_u64 (size bs) ->
  outcome (valid_raw_dxbc (E:=E) (Some bs))
    (fun b => if b : bool then valid_container bs else ~ valid_container bs \/ memory_failed)
    (fun _ => False).
Proof.
  intros Hs. unfold valid_raw_dxbc. apply outcome_bind.
  eapply outcome_mono; [by apply container_view_first_spec| |done].
  intros [found v] [(off & n & [= -> ->] & Hl)|[Hf Hno]]; cbn [fst negb] in *.
  2:{ subst found. left. intros Hv%valid_container_raw. apply (Hno 0 (size bs)). by constructor. }
  cbn [view_data view_size].
  destruct (negb (bool_decide (Some off = Some 0)) || negb (n =? size bs)) eqn:Hc.
  - left. intros Hv%valid_container_raw.
    destruct (container_layout_fun bs off n 0 (size bs)) as [-> ->]; [done|by constructor|].
    rewrite bool_decide_true, Z.eqb_refl in Hc by done. done.
  - pose proof (document_parse_refines bs dxbc_document_init) as Hp.
    destruct (dxbc_document_parse _ _) as [d|e|]; cbn [outcome] in *; [apply Hp| |done].
    apply Hp.
Qed.

Lemma utf8_name_size bs : utf8_name bs -> 1 <= size bs.
Proof. intros [Hne _]. destruct bs; [done|unfold size; cbn [length]; lia]. Qed.

(** ** Reading *)

Definition failed (e : DXBCUSBDDiagnostic) : Prop := usbd_status e <> DXBC_USBD_OK.

Lemma outcome_usbd_fail {A} status off i (Q : A -> Prop) (F : Prop) :
  status <> DXBC_USBD_OK -> F -> outcome (usbd_fail status off i) Q (fun e => failed e /\ F).
Proof. by split. Qed.

Lemma outcome_or_word {E} bs off (Q : Z -> Prop) (F : E -> Prop) :
  0 <= off -> off + 4 <= size bs -> (in_u32 (word bs off) -> Q (word bs off)) ->
  outcome (usbd_read_u32_le bs off) Q F.
Proof.
  intros ? ? HQ. unfold usbd_read_u32_le. rewrite load_or_word_ok by done. by apply HQ, le32_range.
Qed.

(** The failures of [parse_record]: no record is there, or memory ran out. *)
Ltac usbd_no_record Hno :=
  apply outcome_usbd_fail; [done|left; refine (Hno _);
    let r := fresh "r" in let N := fresh "N" in let B := fresh "B" in
    intros r ? ? ? ? [N%utf8_name_size B%valid_container_range] ? ? ?].

Lemma parse_record_spec bs sz at_ i :
  sz = size bs -> in_u64 sz -> 8 <= at_ <= sz ->
  outcome (parse_record bs sz at_ i)
    (fun r => exists rec, entry usbd_record_ok bs at_ rec r.1 /\ r.2 = record_view rec)
    (fun e => failed e /\ ((forall rec at', ~ entry usbd_record_ok bs at_ rec at') \/ memory_failed)).
Proof.
  intros Hsz Hs Ha. unfold parse_record. unfold in_u64 in Hs.
  assert (Hno := no_entry usbd_record_ok bs at_ ltac:(lia)).
  rewrite (u64_small (sz - at_)) by lia.
  apply outcome_if; intros Hc1.
  { usbd_no_record Hno. apply orb_true_iff in Hc1 as [?|?]; lia. }
  bools. apply outcome_bind, outcome_or_word; [lia..|]. set (n := word bs at_) in *. intros Hn.
  unfold in_u32 in Hn. cbv zeta. rewrite (u64_small (at_ + 4)), (u64_small (sz - _)) by lia.
  apply outcome_if; intros Hc2.
  { usbd_no_record Hno. apply orb_true_iff in Hc2 as [?|?]; lia. }
  bools. apply outcome_bind, outcome_view; [lia..|].
  assert (Hsn : size (slice bs (at_ + 4) n) = n) by (apply size_slice; lia).
  rewrite <- Hsn at 2. apply outcome_bind, outcome_or_fail.
  eapply outcome_mono; [apply valid_utf8_name_spec; lia| |]; cbv beta.
  2:{ intros _ Hbad. split; [done|]. left. refine (Hno _). intros r Hr1 Hr2 _ _ [Hname _] _ _ _.
      rewrite <- Hr1 in Hr2. fold n in Hr2. by rewrite Hr2 in Hbad. }
  intros _ Hname. rewrite (u64_small (at_ + 4 + n)), (u64_small (sz - (at_ + 4 + n))) by lia.
  apply outcome_if; intros Hc3; bools; [usbd_no_record Hno; lia|].
  apply outcome_bind, outcome_or_word; [lia..|]. set (m := word bs (at_ + 4 + n)) in *. intros Hm.
  unfold in_u32 in Hm. rewrite (u64_small (at_ + 4 + n + 4)), (u64_small (sz - _)) by lia.
  assert (Hsame : forall r : list byte * list byte, n = size r.1 ->
    word bs (at_ + 4 + size r.1) = size r.2 -> m = size r.2).
  { intros r Hr1 Hr2. by rewrite <- Hr1 in Hr2. }
  apply outcome_if; intros Hc4; bools.
  { usbd_no_record Hno. pose proof (Hsame r). lia. }
  apply outcome_bind, outcome_view; [lia..|].
  assert (Hsm : size (slice bs (at_ + 4 + n + 4) m) = m) by (apply size_slice; lia).
  replace (at_ + 4 + n + 4) with (at_ + 8 + n) in * by lia.
  apply outcome_bind. eapply outcome_mono; [apply valid_raw_dxbc_spec; unfold in_u64; lia| |done].
  intros [|] Hbody; cbn [negb].
  2:{ apply outcome_usbd_fail; [done|]. destruct Hbody as [Hbody|]; [left|by right].
      refine (Hno _). intros r Hr1 _ Hr2 Hr3 [_ Hok] _ _ _.
      rewrite <- (Hsame r Hr1 Hr2), <- Hr1 in Hr3. fold n in Hr3. by rewrite Hr3 in Hbody. }
  cbn [outcome fst snd]. rewrite (u64_small (at_ + 8 + n + m)) by lia.
  exists (slice bs (at_ + 4) n, slice bs (at_ + 8 + n) m). split; [|done].
  apply entry_intro; fold n; fold m; [lia..|]. by split.
Qed.

Lemma usbd_record_room r : usbd_record_ok r -> 9 <= record_size r.
Proof.
  intros [Hn%utf8_name_size Hb%valid_container_range]. unfold record_size. lia.
Qed.

Lemma table_open_spec bs :
  in_u64 (size bs) ->
  outcome (dxbc_usbd_table_open true (Some bs))
    (fun r => exists rs, is_table usbd_record_ok bs rs /\
       r = ({| usbd_bytes := Some bs; usbd_record_count := Z.of_nat (length rs) |},
            set_diagnostic DXBC_USBD_OK (size bs) (Z.of_nat (length rs))))
    (fun e => failed e /\ ((forall rs, ~ is_table usbd_record_ok bs rs) \/ memory_failed)).
Proof.
  intros Hs. unfold dxbc_usbd_table_open, DXBC_USBD_HEADER_SIZE. cbv zeta. cbn [negb].
  unfold in_u64 in Hs.
  apply outcome_if; intros H8; bools.
  { apply outcome_usbd_fail; [done|left]. intros rs Ht%is_table_walk. lia. }
  apply outcome_bind, outcome_magic4; [done|lia|]. intros b ->.
  apply outcome_if; intros Hm; bools.
  { apply outcome_usbd_fail; [done|left]. intros rs Ht%is_table_walk. tauto. }
  apply outcome_bind, outcome_or_word; [lia..|]. intros Hw. unfold in_u32 in Hw.
  rewrite (u64_small (size bs - 8)) by lia.
  apply outcome_if; intros Hc.
  { apply outcome_usbd_fail; [done|left].
    intros rs (_ & _ & Hne & Hn & Hwalk)%is_table_walk.
    pose proof (walk_room _ _ 9 _ _ _ usbd_record_room Hwalk). rewrite Hn in Hc.
    apply orb_true_iff in Hc as [Hc|Hc]; bools.
    - destruct rs; [done|cbn [length] in Hc; lia].
    - assert ((size bs - 8) / 9 >= Z.of_nat (length rs)); [|lia].
      apply Z.le_ge, Z.div_le_lower_bound; lia. }
  bools. apply outcome_bind.
  eapply outcome_mono; [apply (walk_loop usbd_record_ok bs id (fun _ _ => True) memory_failed failed);
    [done|lia|done|]| |].
  - intros rs at_ _ Hoff _. apply outcome_bind.
    eapply outcome_mono; [apply parse_record_spec; [done|unfold in_u64; lia|exact Hoff]| |done].
    intros r (rec & He & _). by exists rec.
  - intros at_ (rs & Hl & Hwalk & Hoff & _). unfold id in *.
    apply outcome_if; intros Hend; bools.
    + apply outcome_usbd_fail; [done|left]. intros rs' (_ & _ & _ & Hn & Hwalk')%is_table_walk.
      destruct (walk_fun _ _ 8 _ _ _ _ ltac:(lia) Hwalk Hwalk'); lia.
    + subst at_. assert (Hcount : word bs 4 = Z.of_nat (length rs)) by lia. rewrite Hcount.
      exists rs. split; [|done]. apply is_table_walk. destruct rs; [cbn [length] in Hcount; lia|done].
  - intros e [He [Hno|Hmem]]; (split; [done|]); [left|by right].
    intros rs (_ & _ & _ & Hn & Hwalk)%is_table_walk. apply (Hno rs (size bs)); [lia|done].
Qed.

Lemma table_record_spec bs rs i r :
  in_u64 (size bs) -> is_table usbd_record_ok bs rs -> 0 <= i -> rs !! Z.to_nat i = Some r ->
  outcome (dxbc_usbd_table_record
      (Some {| usbd_bytes := Some bs; usbd_record_count := Z.of_nat (length rs) |}) i true)
    (fun v => v = record_view r) (fun _ => memory_failed).
Proof.
  intros Hs Ht Hi Hr. pose proof (lookup_lt_Some _ _ _ Hr) as Hlt.
  apply is_table_walk in Ht as (H8 & _ & _ & _ & Hwalk).
  unfold dxbc_usbd_table_record, DXBC_USBD_HEADER_SIZE. cbn [usbd_bytes usbd_record_count negb orb].
  rewrite (proj2 (Z.leb_gt _ _)) by lia. apply outcome_bind.
  eapply outcome_mono; [apply (outcome_for (fun j '(at_, found) => exists k, j = Z.of_nat k /\
    (k <= length rs)%nat /\ walk usbd_record_ok bs 8 (take k rs) at_ /\ 8 <= at_ <= size bs /\
    (i < j -> found = Some (record_view r))) (fun _ => memory_failed))| |].
  - exists 0%nat. split_and!; [done|lia|apply walk_nil|lia|lia|lia].
  - intros j [at_ found] Hj (k & -> & Hk & Hw & Ha & Hf).
    apply outcome_bind, outcome_or_fail.
    eapply outcome_mono; [by apply parse_record_spec| |].
    + intros [at' v] (rec & He & Hv). cbn [fst snd] in *. cbn [outcome]. subst v.
      destruct (lookup_lt_is_Some_2 rs k) as [r' Hr']; [lia|].
      destruct (walk_lookup _ _ _ _ _ _ _ Hwalk Hr') as (o1 & o2 & Hw' & He').
      destruct (walk_fun _ _ 8 _ _ _ _ ltac:(lia) Hw Hw' eq_refl) as [_ <-].
      destruct (entry_fun _ _ at_ _ _ _ _ ltac:(lia) He He') as [-> ->].
      exists (S k). split; [lia|]. split; [lia|]. split; [|split].
      * rewrite (take_S_r _ _ r') by done. by eapply walk_snoc.
      * apply entry_le in He. lia.
      * intros Hlt'. destruct (Z.eqb_spec (Z.of_nat k) i) as [Hki|Hki].
        -- rewrite <- Hki, Nat2Z.id in Hr. congruence.
        -- apply Hf. lia.
    + intros e [_ [Hno|]]; [|done]. exfalso.
      destruct (lookup_lt_is_Some_2 rs k) as [r' Hr']; [lia|].
      destruct (walk_lookup _ _ _ _ _ _ _ Hwalk Hr') as (o1 & o2 & Hw' & He').
      destruct (walk_fun _ _ 8 _ _ _ _ ltac:(lia) Hw Hw' eq_refl) as [_ <-].
      by apply (Hno r' o2).
  - intros [at_ found] (k & Hk & _ & _ & _ & Hf). cbn [snd]. by rewrite Hf by lia.
  - done.
Qed.

(** ** Writing *)

Lemma write_word_bytes v :
  [byte_of v; byte_of (Z.shiftr v 8); byte_of (Z.shiftr v 16); byte_of (Z.shiftr v 24)] = le_bytes 4 v.
Proof.
  cbn [le_bytes]. rewrite !Z.shiftr_div_pow2 by lia. rewrite !Z.div_div by lia. done.
Qed.

Lemma blit_fill {E} pre old rest new off :
  off = size pre -> length old = length new ->
  blit (E:=E) (pre ++ old ++ rest) off new = Ret (pre ++ new ++ rest).
Proof.
  intros -> Hl. unfold size. pose proof (size_nonneg rest). unfold size in *.
  rewrite blit_ok by (unfold size; rewrite ?length_app; lia). f_equal. rewrite Nat2Z.id.
  rewrite take_app_length. f_equal. f_equal. rewrite <- Hl, <- drop_drop, drop_app_length.
  by rewrite drop_app_length.
Qed.

(** What a record contributes to the size of the table. *)
Definition records_size (rs : list (list byte * list byte)) : Z := size (rs ≫= record_bytes).

Lemma records_size_cons r rs : records_size (r :: rs) = record_size r + records_size rs.
Proof. unfold records_size. cbn [mbind list_bind]. by rewrite size_app, size_record_bytes. Qed.

(** Filling the [records_size rs] bytes at [pre] one record at a time. *)
Lemma encode_records_spec rs : forall pre old,
  Forall small_record rs -> size pre + records_size rs < 2 ^ 64 -> size old = records_size rs ->
  encode_records (record_view <$> rs) (pre ++ old) (size pre) = Ret (pre ++ (rs ≫= record_bytes)).
Proof.
  induction rs as [|[name dxbc] rs IH]; intros pre old Hsm Hs Hold.
  { cbn. unfold records_size in Hold. cbn in Hold. destruct old; [done|unfold size in Hold; cbn in Hold; lia]. }
  inversion_clear Hsm as [|? ? [Hn Hd] Hsm']. cbn [fst snd] in *. unfold in_u32 in *.
  rewrite records_size_cons in *. unfold record_size in *. cbn [fst snd] in *.
  pose proof (size_nonneg pre). pose proof (size_nonneg (rs ≫= record_bytes)) as Hrest.
  fold (records_size rs) in Hrest.
  cbn [fmap list_fmap encode_records record_view record_name record_dxbc fst snd].
  assert (Hsplit : exists o1 o2 o3 o4 o5, old = o1 ++ o2 ++ o3 ++ o4 ++ o5 /\
    length o1 = 4%nat /\ length o2 = length name /\ length o3 = 4%nat /\
    length o4 = length dxbc /\ size o5 = records_size rs).
  { unfold size in *. set (a := length name). set (b := length dxbc).
    exists (take 4 old), (take a (drop 4 old)), (take 4 (drop a (drop 4 old))),
      (take b (drop 4 (drop a (drop 4 old)))), (drop b (drop 4 (drop a (drop 4 old)))).
    split; [by rewrite !take_drop|]. rewrite !length_take, !length_drop. lia. }
  destruct Hsplit as (o1 & o2 & o3 & o4 & o5 & -> & H1 & H2 & H3 & H4 & H5).
  unfold write_u32_le. rewrite !(u32_small (size _)) by lia. rewrite !write_word_bytes.
  rewrite (u64_small (size pre + 4)) by lia. rewrite (u64_small (size pre + 4 + _)) by lia.
  rewrite (u64_small (size pre + 4 + size name + 4)) by lia.
  rewrite (u64_small (size pre + 4 + size name + 4 + size dxbc)) by lia.
  assert (Hw : forall z, size (le_bytes 4 z) = 4) by (intros; apply size_le_bytes).
  rewrite blit_fill by done. cbn [mbind res_bind]. rewrite (app_assoc pre).
  rewrite blit_fill by (rewrite ?size_app, ?Hw; done). cbn [mbind res_bind].
  rewrite (app_assoc _ name). rewrite blit_fill by (rewrite ?size_app, ?Hw; done || lia).
  cbn [mbind res_bind]. rewrite (app_assoc _ (le_bytes 4 (size dxbc))).
  rewrite blit_fill by (rewrite ?size_app, ?Hw; done || lia). cbn [mbind res_bind].
  rewrite (app_assoc _ dxbc).
  replace (size pre + 4 + size name + 4 + size dxbc) with
    (size (((((pre ++ le_bytes 4 (size name)) ++ name) ++ le_bytes 4 (size dxbc))) ++ dxbc))
    by (rewrite !size_app, !Hw; lia).
  rewrite IH; [|done| |done].
  - f_equal. cbn [mbind list_bind]. unfold record_bytes. cbn [fst snd]. by rewrite <- !app_assoc.
  - rewrite !size_app, !Hw. lia.
Qed.

(** A record the writer accepts. *)
Definition encodable (r : list byte * list byte) : Prop := usbd_record_ok r /\ small_record r.

#[export] Instance record_view_inj : Inj (=) (=) record_view.
Proof. intros [] []. by intros [= -> ->]. Qed.

Lemma encode_check_spec i total v :
  0 <= total < 2 ^ 64 ->
  outcome (encode_check i total v)
    (fun t => exists r, v = record_view r /\ encodable r /\ t = total + record_size r /\ t < 2 ^ 64)
    (fun e => failed e /\ ((forall r, v = record_view r ->
       ~ (encodable r /\ total + record_size r < 2 ^ 64)) \/ memory_failed)).
Proof.
  intros Ht. unfold encode_check, record_name_size, record_dxbc_size, UINT32_MAX.
  destruct v as [[name|] dxbc]; cbn [record_name record_dxbc from_option Z.eqb orb].
  2:{ split; [done|left]. by intros r [=]. }
  pose proof (size_nonneg name).
  apply outcome_if; intros Hc1.
  { split; [done|left]. intros [n b] [= -> ->] [[[Hn%utf8_name_size _] [Hs _]] _].
    unfold in_u32 in Hs. cbn [fst] in *. apply orb_true_iff in Hc1 as [?|?]; lia. }
  bools. apply outcome_bind, outcome_or_fail.
  eapply outcome_mono; [apply valid_utf8_name_spec; lia| |]; cbv beta.
  2:{ intros _ Hbad. split; [done|left]. by intros [n b] [= -> ->] [[[? _] _] _]. }
  intros _ Hname. destruct dxbc as [dxbc|]; cbn [from_option].
  2:{ split; [done|left]. by intros r [=]. }
  pose proof (size_nonneg dxbc).
  apply outcome_if; intros Hc2; bools.
  { apply outcome_usbd_fail; [done|left]. intros [n b] [= -> ->] [[_ [_ Hs]] _].
    unfold in_u32 in Hs. cbn [snd] in *. lia. }
  apply outcome_bind. eapply outcome_mono; [apply valid_raw_dxbc_spec; unfold in_u64; lia| |done].
  intros [|] Hbody; cbn [negb].
  2:{ apply outcome_usbd_fail; [done|]. destruct Hbody as [Hbody|]; [left|by right].
      by intros [n b] [= -> ->] [[[_ ?] _] _]. }
  assert (Hsz : record_size (name, dxbc) = 8 + size name + size dxbc) by done.
  rewrite !size_add_overflows_spec by (unfold in_u64; rewrite ?(u64_small (8 + size name)),
    ?(u64_small (8 + size name + size dxbc)) by lia; lia).
  rewrite (u64_small (8 + size name)), (u64_small (8 + size name + size dxbc)) by lia.
  rewrite 2!(proj2 (Z.leb_gt _ _)) by lia. cbn [orb].
  apply outcome_if; intros Hc3; bools.
  { apply outcome_usbd_fail; [done|left]. intros [n b] [= <- <-] [_ Hlt]. lia. }
  cbn [outcome]. exists (name, dxbc). rewrite (u64_small (total + _)) by lia.
  split; [done|]. split; [|lia]. split; [by split|]. unfold small_record, in_u32. cbn [fst snd]. lia.
Qed.

Lemma encode_sizes_spec vs : forall i total,
  0 <= total < 2 ^ 64 ->
  outcome (encode_sizes vs i total)
    (fun t => exists rs, vs = record_view <$> rs /\ Forall encodable rs /\
       t = total + records_size rs /\ t < 2 ^ 64)
    (fun e => failed e /\ ((forall rs, vs = record_view <$> rs ->
       ~ (Forall encodable rs /\ total + records_size rs < 2 ^ 64)) \/ memory_failed)).
Proof.
  induction vs as [|v vs IH]; intros i total Ht; cbn [encode_sizes].
  { exists []. change (records_size []) with 0. split_and!; [done|by apply list.Forall_nil_2|lia|lia]. }
  assert (Hcons : forall r rs, record_view r = v -> v :: vs = record_view <$> rs ->
    exists rs', rs = r :: rs' /\ vs = record_view <$> rs').
  { intros r [|r' rs'] <- Hvs; [done|]. cbn [fmap list_fmap] in Hvs. exists rs'.
    assert (r = r') as -> by (apply record_view_inj; congruence). split; [done|congruence]. }
  apply outcome_bind. eapply outcome_mono; [by apply encode_check_spec| |].
  - intros t (r & -> & Hr & -> & Hlt). pose proof (record_size_pos r).
    eapply outcome_mono; [apply IH; lia| |].
    + intros t (rs & -> & Hrs & -> & Hlt'). exists (r :: rs). rewrite records_size_cons.
      split_and!; [done|by constructor|lia|lia].
    + intros e [He [Hno|]]; (split; [done|]); [left|by right].
      intros rs Hvs [Hall Hsz]. destruct (Hcons r rs eq_refl Hvs) as (rs' & -> & Hvs').
      inversion_clear Hall. rewrite records_size_cons in Hsz. apply (Hno rs' Hvs').
      split; [done|lia].
  - intros e [He [Hno|]]; (split; [done|]); [left|by right].
    intros [|r rs] Hvs [Hall Hsz]; [done|]. cbn [fmap list_fmap] in Hvs.
    assert (Hv : v = record_view r) by congruence.
    inversion_clear Hall. rewrite records_size_cons in Hsz. apply (Hno r Hv).
    unfold records_size in Hsz. pose proof (size_nonneg (rs ≫= record_bytes)). split; [done|lia].
Qed.

Lemma encodable_all rs :
  Forall encodable rs <-> Forall usbd_record_ok rs /\ Forall small_record rs.
Proof. apply list.Forall_and. Qed.

Lemma table_encode_spec (fresh : Z -> list byte) vs :
  (forall n, 0 <= n -> size (fresh n) = n) ->
  outcome (dxbc_usbd_table_encode fresh (Some vs) true)
    (fun r => exists rs, vs = record_view <$> rs /\ is_table usbd_record_ok r.1 rs /\
       size r.1 < 2 ^ 64 /\
       r.2 = set_diagnostic DXBC_USBD_OK (size r.1) (Z.of_nat (length rs)))
    (fun e => failed e /\ ((forall rs bs, vs = record_view <$> rs -> is_table usbd_record_ok bs rs ->
       ~ size bs < 2 ^ 64) \/ memory_failed)).
Proof.
  intros Hfresh. unfold dxbc_usbd_table_encode, UINT32_MAX, DXBC_USBD_HEADER_SIZE. cbv zeta.
  assert (Hcount : forall rs bs, is_table usbd_record_ok bs rs ->
    0 < Z.of_nat (length rs) < 2 ^ 32 /\ size bs = 8 + records_size rs).
  { intros rs bs [-> Hne Hc _ _]. split; [|]. 
    - destruct rs; [done|unfold in_u32 in Hc; cbn [length] in *; lia].
    - unfold table_bytes, records_size. rewrite !size_app, size_le_bytes, size_usbd. lia. }
  cbn [negb]. rewrite orb_false_r. apply outcome_if; intros Hc.
  { apply outcome_usbd_fail; [done|left]. intros rs bs -> Ht _.
    apply Hcount in Ht. rewrite length_fmap in Hc. apply orb_true_iff in Hc as [?|?]; lia. }
  bools. apply outcome_bind.
  eapply outcome_mono; [apply encode_sizes_spec; lia| |].
  2:{ intros e [He [Hno|]]; (split; [done|]); [left|by right]. intros rs bs Hvs Ht Hs.
      pose proof (Hcount rs bs Ht) as [_ Hsz]. destruct Ht as [_ _ _ HP Hsm].
      apply (Hno rs Hvs). split; [by apply encodable_all|lia]. }
  intros total (rs & -> & Hrs%encodable_all & -> & Hlt). destruct Hrs as [Hok Hsm].
  rewrite length_fmap in *.
  pose proof (size_nonneg (rs ≫= record_bytes)) as Hrest. fold (records_size rs) in Hrest.
  destruct (mem_alloc _) eqn:Hmem; cbn [negb].
  2:{ apply outcome_usbd_fail; [done|right]. left. eauto. }
  assert (Hsplit : exists o1 o2 o3, fresh (8 + records_size rs) = o1 ++ o2 ++ o3 /\
    length o1 = 4%nat /\ length o2 = 4%nat /\ size o3 = records_size rs).
  { pose proof (Hfresh (8 + records_size rs) ltac:(lia)) as Hf. unfold size in Hf.
    exists (take 4 (fresh (8 + records_size rs))), (take 4 (drop 4 (fresh (8 + records_size rs)))),
      (drop 4 (drop 4 (fresh (8 + records_size rs)))).
    split; [by rewrite !take_drop|]. unfold size. rewrite !length_take, !length_drop. lia. }
  destruct Hsplit as (o1 & o2 & o3 & -> & H1 & H2 & H3).
  change (o1 ++ o2 ++ o3) with ([] ++ o1 ++ o2 ++ o3).
  rewrite blit_fill by done. cbn [mbind res_bind app].
  unfold write_u32_le. rewrite u32_small, write_word_bytes by lia.
  rewrite blit_fill by (rewrite ?H2; done). cbn [mbind res_bind]. rewrite app_assoc.
  pose proof (encode_records_spec rs (String.list_byte_of_string "USBD" ++
    le_bytes 4 (Z.of_nat (length rs))) o3 Hsm) as Henc.
  rewrite size_app, size_le_bytes, size_usbd in Henc. cbn [Z.add Z.of_nat] in Henc.
  change (4 + Z.of_nat 4) with 8 in Henc. rewrite Henc by (done || lia). cbn [mbind res_bind outcome].
  exists rs. cbn [fst snd]. rewrite <- app_assoc. fold (table_bytes rs).
  assert (Ht : is_table usbd_record_ok (table_bytes rs) rs).
  { split; [done| |unfold in_u32; lia|done|done]. intros ->. done. }
  destruct (Hcount _ _ Ht) as [_ Hsz]. rewrite Hsz. done.
Qed.

(** * Properties *)

(** The table view and the diagnostic of a successful call. *)
Definition table_of (bs : list byte) (n : nat) : DXBCUSBDTableView :=
  {| usbd_bytes := Some bs; usbd_record_count := Z.of_nat n |}.
Definition success (bs : list byte) (n : nat) : DXBCUSBDDiagnostic :=
  set_diagnostic DXBC_USBD_OK (size bs) (Z.of_nat n).

Section available.
Context `{!MemoryAvailable U}.

Lemma memory_ok : ~ memory_failed.
Proof. by apply memory_available_not_failed. Qed.

Lemma open_table bs rs :
  in_u64 (size bs) -> is_table usbd_record_ok bs rs ->
  dxbc_usbd_table_open true (Some bs) = Ret (table_of bs (length rs), success bs (length rs)).
Proof.
  intros Hs Ht. pose proof (table_open_spec bs Hs) as H. pose proof memory_ok as Hmem.
  destruct (dxbc_usbd_table_open _ _) as [r|e|]; cbn [outcome] in H; [| |done].
  2:{ destruct H as [_ [Hno|]]; [by destruct (Hno rs)|done]. }
  destruct H as (rs' & Ht' & ->). by rewrite (is_table_fun _ _ _ _ Ht Ht').
Qed.

Lemma record_table bs rs i r :
  in_u64 (size bs) -> is_table usbd_record_ok bs rs -> rs !! i = Some r ->
  dxbc_usbd_table_record (Some (table_of bs (length rs))) (Z.of_nat i) true = Ret (record_view r).
Proof.
  intros Hs Ht Hr. pose proof (table_record_spec bs rs (Z.of_nat i) r Hs Ht) as H.
  rewrite Nat2Z.id in H. specialize (H ltac:(lia) Hr). pose proof memory_ok as Hmem.
  unfold table_of. destruct (dxbc_usbd_table_record _ _ _); cbn [outcome] in H; by subst.
Qed.

Lemma encode_table fresh bs rs :
  (forall n, 0 <= n -> size (fresh n) = n) -> size bs < 2 ^ 64 -> is_table usbd_record_ok bs rs ->
  dxbc_usbd_table_encode fresh (Some (record_view <$> rs)) true = Ret (bs, success bs (length rs)).
Proof.
  intros Hf Hs Ht. pose proof (table_encode_spec fresh (record_view <$> rs) Hf) as H.
  pose proof memory_ok as Hmem.
  destruct (dxbc_usbd_table_encode _ _ _) as [[bs' d]|e|]; cbn [outcome fst snd] in H; [| |done].
  - destruct H as (rs' & Heq & Ht' & _ & ->).
    assert (rs = rs') as <- by (by apply (inj (fmap record_view))).
    by rewrite (table_is _ _ _ Ht), (table_is _ _ _ Ht').
  - destruct H as [_ [Hno|]]; [|done]. by destruct (Hno rs bs eq_refl Ht).
Qed.
End available.

(** With memory available, [dxbc_usbd_table_open] accepts exactly the tables
    of one or more records whose names are UTF-8 and whose payloads are valid
    containers, with nothing before, between or after them, and
    [dxbc_usbd_table_record] then returns these records; any other input is
    rejected with a status other than OK, and never read out of bounds. *)
Theorem dxbc_usbd_table_open_iff `{!MemoryAvailable U} bs :
  in_u64 (size bs) ->
  (forall t d, dxbc_usbd_table_open true (Some bs) = Ret (t, d) <->
     exists rs, is_table usbd_record_ok bs rs /\ t = table_of bs (length rs) /\
       d = success bs (length rs) /\
       forall i r, rs !! i = Some r ->
         dxbc_usbd_table_record (Some t) (Z.of_nat i) true = Ret (record_view r)) /\
  ((forall rs, ~ is_table usbd_record_ok bs rs) ->
     exists e, dxbc_usbd_table_open true (Some bs) = Fail e /\ failed e).
Proof.
  intros Hs. split.
  - intros t d. split.
    + intros Hopen. destruct (outcome_Ret_inv _ _ _ _ (table_open_spec bs Hs) Hopen)
        as (rs & Ht & [= -> ->]).
      exists rs. split_and!; try done. intros i r Hr. by apply (record_table bs rs).
    + intros (rs & Ht & -> & -> & _). by apply open_table.
  - intros Hno. pose proof (table_open_spec bs Hs) as H.
    destruct (dxbc_usbd_table_open _ _) as [r|e|]; cbn [outcome] in H; [|by exists e; destruct H|done].
    destruct H as (rs & Ht & _). by destruct (Hno rs).
Qed.

(** With memory available, [dxbc_usbd_table_encode] succeeds exactly on a
    non-empty list of records with non-NULL UTF-8 names and valid containers
    whose sizes fit, and its output is their table: the fresh allocation is
    completely overwritten, and no write leaves it.  Any other list is rejected
    with a status other than OK. *)
Theorem dxbc_usbd_table_encode_iff `{!MemoryAvailable U} fresh vs :
  (forall n, 0 <= n -> size (fresh n) = n) ->
  (forall bs d, dxbc_usbd_table_encode fresh (Some vs) true = Ret (bs, d) <->
     exists rs, vs = record_view <$> rs /\ is_table usbd_record_ok bs rs /\ size bs < 2 ^ 64 /\
       d = success bs (length rs)) /\
  ((forall rs bs, vs = record_view <$> rs -> is_table usbd_record_ok bs rs -> 2 ^ 64 <= size bs) ->
     exists e, dxbc_usbd_table_encode fresh (Some vs) true = Fail e /\ failed e).
Proof.
  intros Hf. pose proof (table_encode_spec fresh vs Hf) as H. split.
  - intros bs d. split.
    + intros Heq. rewrite Heq in H. exact H.
    + intros (rs & -> & Ht & Hs & ->). by apply encode_table.
  - intros Hno. destruct (dxbc_usbd_table_encode _ _ _) as [[bs d]|e|]; cbn [outcome fst snd] in H;
      [|by exists e; destruct H|done].
    destruct H as (rs & Hvs & Ht & Hs & _). specialize (Hno rs bs Hvs Ht). lia.
Qed.

(** C33: encoding and opening are inverse.  An encoded table opens with the same
    final diagnostic and gives back every record; and the records of an opened
    table encode to the bytes it was opened from. *)
Theorem dxbc_usbd_table_roundtrip `{!MemoryAvailable U} fresh bs d :
  (forall n, 0 <= n -> size (fresh n) = n) -> in_u64 (size bs) ->
  (forall vs, dxbc_usbd_table_encode fresh (Some vs) true = Ret (bs, d) ->
     exists t, dxbc_usbd_table_open true (Some bs) = Ret (t, d) /\
       forall i v, vs !! i = Some v -> dxbc_usbd_table_record (Some t) (Z.of_nat i) true = Ret v) /\
  (forall t, dxbc_usbd_table_open true (Some bs) = Ret (t, d) ->
     exists vs, Z.of_nat (length vs) = usbd_record_count t /\
       (forall i v, vs !! i = Some v -> dxbc_usbd_table_record (Some t) (Z.of_nat i) true = Ret v) /\
       dxbc_usbd_table_encode fresh (Some vs) true = Ret (bs, d)).
Proof.
  intros Hf Hs.
  assert (Hrec : forall rs i v, is_table usbd_record_ok bs rs -> (record_view <$> rs) !! i = Some v ->
    dxbc_usbd_table_record (Some (table_of bs (length rs))) (Z.of_nat i) true = Ret v).
  { intros rs i v Ht Hv. apply list_lookup_fmap_Some in Hv as (r & -> & Hr).
    by apply record_table. }
  split.
  - intros vs Henc. destruct (outcome_Ret_inv _ _ _ _ (table_encode_spec fresh vs Hf) Henc)
      as (rs & -> & Ht & _ & Hd). cbn [fst snd] in *. subst d.
    exists (table_of bs (length rs)). split; [by apply open_table|eauto].
  - intros t Hopen. destruct (outcome_Ret_inv _ _ _ _ (table_open_spec bs Hs) Hopen)
      as (rs & Ht & [= -> ->]).
    exists (record_view <$> rs). rewrite length_fmap. split; [done|]. split; [by eauto|].
    apply encode_table; [done| |done]. unfold in_u64 in Hs. lia.
Qed.
End usbd_correct.

(** * Witnesses *)

Definition fresh_zeroes (n : Z) : list byte := repeat Byte.x00 (Z.to_nat n).

Lemma fresh_zeroes_size n : 0 <= n -> size (fresh_zeroes n) = n.
Proof. intros. unfold size, fresh_zeroes. rewrite repeat_length. lia. Qed.

Abbreviation ref_open := (@dxbc_usbd_table_open unity_common_ref sample_stack).
Abbreviation ref_encode := (@dxbc_usbd_table_encode unity_common_ref sample_stack).

Lemma sample_table_opens :
  ref_open true (Some sample_table) = Ret (table_of sample_table 2, success sample_table 2).
Proof. vm_compute. reflexivity. Qed.

Lemma dxbc_usbd_table_open_iff_witness :
  in_u64 (size sample_table) /\ exists rs, is_table usbd_record_ok sample_table rs.
Proof.
  assert (Hs : in_u64 (size sample_table)) by (by vm_compute). split; [exact Hs|].
  destruct (proj1 (proj1 (@dxbc_usbd_table_open_iff unity_common_ref unity_common_ref_spec
    sample_stack unity_common_ref_memory sample_table Hs) _ _) sample_table_opens) as (rs & Ht & _).
  exists rs. exact Ht.
Defined.

Lemma dxbc_usbd_table_encode_iff_witness :
  (forall n, 0 <= n -> size (fresh_zeroes n) = n) /\
  exists rs, record_view <$> sample_records = record_view <$> rs /\
    is_table usbd_record_ok sample_table rs.
Proof.
  split; [exact fresh_zeroes_size|].
  assert (Henc : ref_encode fresh_zeroes (Some (record_view <$> sample_records)) true =
    Ret (sample_table, success sample_table 2)) by (vm_compute; reflexivity).
  destruct (proj1 (proj1 (@dxbc_usbd_table_encode_iff unity_common_ref unity_common_ref_spec
    sample_stack unity_common_ref_memory fresh_zeroes (record_view <$> sample_records)
    fresh_zeroes_size) _ _) Henc) as (rs & Hvs & Ht & _).
  exists rs. split; [exact Hvs|exact Ht].
Defined.

Lemma dxbc_usbd_table_roundtrip_witness :
  (forall n, 0 <= n -> size (fresh_zeroes n) = n) /\ in_u64 (size sample_table) /\
  exists vs, Z.of_nat (length vs) = 2 /\
    ref_encode fresh_zeroes (Some vs) true = Ret (sample_table, success sample_table 2).
Proof.
  assert (Hs : in_u64 (size sample_table)) by (by vm_compute).
  split; [exact fresh_zeroes_size|]. split; [exact Hs|].
  destruct (proj2 (@dxbc_usbd_table_roundtrip unity_common_ref unity_common_ref_spec sample_stack
    unity_common_ref_memory fresh_zeroes sample_table (success sample_table 2) fresh_zeroes_size Hs)
    _ sample_table_opens) as (vs & Hn & _ & Henc).
  exists vs. split; [exact Hn|exact Henc].
Defined.
