(* ===== verification/Compare.v ===== *)
(** Exact container comparison: [include/dxbc/dxbc_compare.h] and
    [src/dxbc/dxbc_compare.c]. *)

From S2P Require Import Prelude UnityCommon Hash Document.

(** * Data *)

Inductive DXBCCompareStatus :=
| DXBC_COMPARE_EQUAL
| DXBC_COMPARE_INVALID_ARGUMENT
| DXBC_COMPARE_EXPECTED_INVALID
| DXBC_COMPARE_ACTUAL_INVALID
| DXBC_COMPARE_CONTAINER_VERSION
| DXBC_COMPARE_CHUNK_COUNT
| DXBC_COMPARE_CHUNK_FOURCC
| DXBC_COMPARE_PROGRAM_VERSION
| DXBC_COMPARE_INSTRUCTION_COUNT
| DXBC_COMPARE_INSTRUCTION_OPCODE
| DXBC_COMPARE_INSTRUCTION_LENGTH
| DXBC_COMPARE_INSTRUCTION_TOKEN
| DXBC_COMPARE_CHUNK_PAYLOAD_SIZE
| DXBC_COMPARE_CHUNK_OFFSET
| DXBC_COMPARE_CONTAINER_SIZE
| DXBC_COMPARE_CHUNK_PAYLOAD
| DXBC_COMPARE_RAW_BYTE.

#[global] Instance compare_status_eq_dec : EqDecision DXBCCompareStatus.
Proof. solve_decision. Defined.

Record DXBCCompareResult := {
  compare_status : DXBCCompareStatus;
  expected_diagnostic : DXBCDocumentDiagnostic;
  actual_diagnostic : DXBCDocumentDiagnostic;
  expected_size : Z;
  actual_size : Z;
  first_differing_byte : Z;
  compare_chunk_index : Z;
  compare_instruction_index : Z;
  compare_token_index : Z;
  expected_value : Z;
  actual_value : Z;
}.

Definition dxbc_compare_result_init : DXBCCompareResult := {|
  compare_status := DXBC_COMPARE_EQUAL;
  expected_diagnostic := clear_diagnostic; actual_diagnostic := clear_diagnostic;
  expected_size := 0; actual_size := 0; first_differing_byte := SIZE_MAX;
  compare_chunk_index := DXBC_DOCUMENT_NO_INDEX;
  compare_instruction_index := DXBC_DOCUMENT_NO_INDEX;
  compare_token_index := DXBC_DOCUMENT_NO_INDEX;
  expected_value := 0; actual_value := 0 |}.

(** * Operations *)

(** [result] with a status and the parse diagnostics. *)
Definition with_status (result : DXBCCompareResult) (status : DXBCCompareStatus)
    (expected actual : DXBCDocumentDiagnostic) : DXBCCompareResult := {|
  compare_status := status; expected_diagnostic := expected; actual_diagnostic := actual;
  expected_size := expected_size result; actual_size := actual_size result;
  first_differing_byte := first_differing_byte result;
  compare_chunk_index := compare_chunk_index result;
  compare_instruction_index := compare_instruction_index result;
  compare_token_index := compare_token_index result;
  expected_value := expected_value result; actual_value := actual_value result |}.

Definition report (result : DXBCCompareResult) (status : DXBCCompareStatus)
    (byte_offset chunk_index instruction_index token_index expected actual : Z)
    : DXBCCompareResult := {|
  compare_status := status;
  expected_diagnostic := expected_diagnostic result; actual_diagnostic := actual_diagnostic result;
  expected_size := expected_size result; actual_size := actual_size result;
  first_differing_byte := byte_offset; compare_chunk_index := chunk_index;
  compare_instruction_index := instruction_index; compare_token_index := token_index;
  expected_value := expected; actual_value := actual |}.

Definition compare_read_u32_le {E} (bytes : list byte) : res E Z := load_or_word bytes 0.

Definition instruction_count_for_chunk (document : DXBCDocument) (chunk_index : Z) : Z :=
  foldl (fun count ins => if ins_chunk_index ins =? chunk_index then u64 (count + 1) else count) 0
    (doc_instructions document).

Fixpoint find_instruction (instructions : list DXBCDocumentInstruction)
    (chunk_index local_instruction_index current : Z) : option DXBCDocumentInstruction :=
  match instructions with
  | [] => None
  | ins :: instructions =>
      if negb (ins_chunk_index ins =? chunk_index) then
        find_instruction instructions chunk_index local_instruction_index current
      else if current =? local_instruction_index then Some ins
      else find_instruction instructions chunk_index local_instruction_index (u64 (current + 1))
  end.

Definition instruction_for_chunk (document : DXBCDocument)
    (chunk_index local_instruction_index : Z) : option DXBCDocumentInstruction :=
  find_instruction (doc_instructions document) chunk_index local_instruction_index 0.

(** The loop of [first_byte_difference], [n] bytes from the end. *)
Fixpoint first_difference {E} (n : nat) (expected actual : list byte) (offset : Z) : res E Z :=
  match n with
  | O => Ret SIZE_MAX
  | S n =>
      x ← load8 expected offset; y ← load8 actual offset;
      if negb (x =? y) then Ret offset
      else first_difference n expected actual (u64 (offset + 1))
  end.

Definition first_byte_difference {E} (expected actual : list byte) (size begin : Z) : res E Z :=
  first_difference (Z.to_nat (size - begin)) expected actual begin.

Definition fourcc_value {E} (fourcc : list byte) : res E Z := compare_read_u32_le fourcc.

(** [document.chunks[i]] *)
Definition chunk_of {E} (document : DXBCDocument) (i : Z) : res E DXBCDocumentChunk :=
  match doc_chunks document !! Z.to_nat i with Some c => Ret c | None => Undef end.

Section differences.
Context `{U : UnityCommon}.
Context (result : DXBCCompareResult) (expected_document actual_document : DXBCDocument).
Abbreviation NO_INDEX := DXBC_DOCUMENT_NO_INDEX.
Abbreviation step := (res DXBCCompareResult).

(** [RETURN_DIFFERENCE] *)
Definition difference {A} (status : DXBCCompareStatus)
    (byte_offset chunk_index instruction_index token_index expected actual : Z) : step A :=
  Fail (report result status byte_offset chunk_index instruction_index token_index expected actual).

Definition compare_token (chunk_index instruction_index : Z)
    (expected_instruction actual_instruction : DXBCDocumentInstruction) (token_index : Z)
    (_ : unit) : step unit :=
  expected_token ← attempt (dxbc_document_instruction_token expected_instruction token_index);
  actual_token ← match expected_token with
                 | Some _ => attempt (dxbc_document_instruction_token actual_instruction token_index)
                 | None => Ret None
                 end;
  match expected_token, actual_token with
  | Some expected_token, Some actual_token =>
      if negb (expected_token =? actual_token) then
        difference DXBC_COMPARE_INSTRUCTION_TOKEN
          (u64 (ins_byte_offset expected_instruction + u64 (token_index * 4)))
          chunk_index (u32 instruction_index) token_index expected_token actual_token
      else Ret tt
  | _, _ =>
      difference DXBC_COMPARE_RAW_BYTE (ins_byte_offset expected_instruction) chunk_index
        (u32 instruction_index) token_index 0 0
  end.

Definition compare_instruction (chunk_index : Z) (expected_chunk : DXBCDocumentChunk)
    (instruction_index : Z) (_ : unit) : step unit :=
  match instruction_for_chunk expected_document chunk_index instruction_index,
        instruction_for_chunk actual_document chunk_index instruction_index with
  | Some expected_instruction, Some actual_instruction =>
      if negb (ins_opcode expected_instruction =? ins_opcode actual_instruction) then
        difference DXBC_COMPARE_INSTRUCTION_OPCODE (ins_byte_offset expected_instruction)
          chunk_index (u32 instruction_index) 0 (ins_opcode expected_instruction)
          (ins_opcode actual_instruction)
      else if negb (ins_token_count expected_instruction =? ins_token_count actual_instruction) then
        difference DXBC_COMPARE_INSTRUCTION_LENGTH (ins_byte_offset expected_instruction)
          chunk_index (u32 instruction_index) 0 (ins_token_count expected_instruction)
          (ins_token_count actual_instruction)
      else
        for_loop (Z.to_nat (ins_token_count expected_instruction)) 0
          (compare_token chunk_index instruction_index expected_instruction actual_instruction) tt
  | expected_instruction, actual_instruction =>
      difference DXBC_COMPARE_RAW_BYTE (u64 (chunk_offset expected_chunk + 8)) chunk_index
        (u32 instruction_index) NO_INDEX
        (from_option (fun _ => 1) 0 expected_instruction)
        (from_option (fun _ => 1) 0 actual_instruction)
  end.

Definition compare_program (chunk_index : Z) (expected_chunk actual_chunk : DXBCDocumentChunk)
    : step unit :=
  expected_version ← compare_read_u32_le (chunk_payload_bytes expected_chunk);
  actual_version ← compare_read_u32_le (chunk_payload_bytes actual_chunk);
  if negb (expected_version =? actual_version) then
    difference DXBC_COMPARE_PROGRAM_VERSION (u64 (chunk_offset expected_chunk + 8)) chunk_index
      NO_INDEX 0 expected_version actual_version
  else
  let expected_instruction_count := instruction_count_for_chunk expected_document chunk_index in
  let actual_instruction_count := instruction_count_for_chunk actual_document chunk_index in
  if negb (expected_instruction_count =? actual_instruction_count) then
    difference DXBC_COMPARE_INSTRUCTION_COUNT (u64 (chunk_offset expected_chunk + 12)) chunk_index
      NO_INDEX NO_INDEX expected_instruction_count actual_instruction_count
  else
    for_loop (Z.to_nat expected_instruction_count) 0
      (compare_instruction chunk_index expected_chunk) tt.

(** One iteration of the first chunk loop. *)
Definition compare_chunk (chunk_index : Z) (_ : unit) : step unit :=
  expected_chunk ← chunk_of expected_document chunk_index;
  actual_chunk ← chunk_of actual_document chunk_index;
  if negb (bytes_eqb (chunk_fourcc expected_chunk) (chunk_fourcc actual_chunk)) then
    expected_fourcc ← fourcc_value (chunk_fourcc expected_chunk);
    actual_fourcc ← fourcc_value (chunk_fourcc actual_chunk);
    difference DXBC_COMPARE_CHUNK_FOURCC (chunk_offset expected_chunk) chunk_index NO_INDEX NO_INDEX
      expected_fourcc actual_fourcc
  else if bool_decide (chunk_kind expected_chunk = DXBC_DOCUMENT_CHUNK_EXECUTABLE) &&
          bool_decide (chunk_kind actual_chunk = DXBC_DOCUMENT_CHUNK_EXECUTABLE) then
    compare_program chunk_index expected_chunk actual_chunk
  else Ret tt.

(** One iteration of the second chunk loop. *)
Definition compare_layout (chunk_index : Z) (_ : unit) : step unit :=
  expected_chunk ← chunk_of expected_document chunk_index;
  actual_chunk ← chunk_of actual_document chunk_index;
  if negb (chunk_payload_size expected_chunk =? chunk_payload_size actual_chunk) then
    difference DXBC_COMPARE_CHUNK_PAYLOAD_SIZE (u64 (chunk_offset expected_chunk + 4)) chunk_index
      NO_INDEX NO_INDEX (chunk_payload_size expected_chunk) (chunk_payload_size actual_chunk)
  else if negb (chunk_offset expected_chunk =? chunk_offset actual_chunk) then
    difference DXBC_COMPARE_CHUNK_OFFSET (u64 (32 + u64 (chunk_index * 4))) chunk_index
      NO_INDEX NO_INDEX (chunk_offset expected_chunk) (chunk_offset actual_chunk)
  else Ret tt.

(** One iteration of the third chunk loop. *)
Definition compare_payload (chunk_index : Z) (_ : unit) : step unit :=
  expected_chunk ← chunk_of expected_document chunk_index;
  actual_chunk ← chunk_of actual_document chunk_index;
  let expected := chunk_payload_bytes expected_chunk in
  let actual := chunk_payload_bytes actual_chunk in
  at_ ← first_byte_difference expected actual (chunk_payload_size expected_chunk) 0;
  if negb (at_ =? SIZE_MAX) then
    expected_byte ← load8 expected at_; actual_byte ← load8 actual at_;
    difference DXBC_COMPARE_CHUNK_PAYLOAD (u64 (u64 (chunk_offset expected_chunk + 8) + at_))
      chunk_index NO_INDEX NO_INDEX expected_byte actual_byte
  else Ret tt.

(** The fallback, which looks past the checksum. *)
Definition compare_raw (expected actual : list byte) (size : Z) : step unit :=
  at_ ← first_byte_difference expected actual size 0;
  at_ ← (if (4 <=? at_) && (at_ <? 20) then
           at_ ← first_byte_difference expected actual size 20;
           if at_ =? SIZE_MAX then first_byte_difference expected actual 20 4 else Ret at_
         else Ret at_);
  let at_ := if at_ =? SIZE_MAX then 0 else at_ in
  expected_byte ← load8 expected at_; actual_byte ← load8 actual at_;
  difference DXBC_COMPARE_RAW_BYTE at_ NO_INDEX NO_INDEX NO_INDEX expected_byte actual_byte.

(** The comparison of two parsed containers: [Fail] is [RETURN_DIFFERENCE],
    [Ret] is the return of [DXBC_COMPARE_EQUAL]. *)
Definition compare_documents (expected actual : list byte) (expected_size actual_size : Z)
    : step unit :=
  if (expected_size =? actual_size) && bytes_eqb expected actual then Ret tt else
  if negb (doc_container_version expected_document =? doc_container_version actual_document) then
    difference DXBC_COMPARE_CONTAINER_VERSION 20 NO_INDEX NO_INDEX NO_INDEX
      (doc_container_version expected_document) (doc_container_version actual_document)
  else if negb (doc_chunk_count expected_document =? doc_chunk_count actual_document) then
    difference DXBC_COMPARE_CHUNK_COUNT 28 NO_INDEX NO_INDEX NO_INDEX
      (doc_chunk_count expected_document) (doc_chunk_count actual_document)
  else
  let count := Z.to_nat (doc_chunk_count expected_document) in
  _ ← for_loop count 0 compare_chunk tt;
  _ ← for_loop count 0 compare_layout tt;
  if negb (expected_size =? actual_size) then
    difference DXBC_COMPARE_CONTAINER_SIZE 24 NO_INDEX NO_INDEX NO_INDEX expected_size actual_size
  else
  _ ← for_loop count 0 compare_payload tt;
  compare_raw expected actual expected_size.
End differences.

(** [dxbc_compare_exact]: the returned status and the final [*result], [None]
    when that pointer is NULL.  A buffer that is not NULL has [expected_size]
    (resp. [actual_size]) readable bytes. *)
Definition dxbc_compare_exact `{U : UnityCommon} `{D : DigestStack} {E}
    (expected : option (list byte)) (expected_size : Z)
    (actual : option (list byte)) (actual_size : Z) (result : bool)
    : res E (DXBCCompareStatus * option DXBCCompareResult) :=
  if negb result then Ret (DXBC_COMPARE_INVALID_ARGUMENT, None) else
  let init := dxbc_compare_result_init in
  let result := {|
    compare_status := compare_status init; expected_diagnostic := expected_diagnostic init;
    actual_diagnostic := actual_diagnostic init;
    expected_size := expected_size; actual_size := actual_size;
    first_differing_byte := first_differing_byte init;
    compare_chunk_index := compare_chunk_index init;
    compare_instruction_index := compare_instruction_index init;
    compare_token_index := compare_token_index init;
    expected_value := expected_value init; actual_value := actual_value init |} in
  match expected, actual with
  | Some expected, Some actual =>
      match dxbc_document_parse (Some dxbc_document_init) (Some expected) with
      | Undef => Undef
      | Fail e =>
          Ret (DXBC_COMPARE_EXPECTED_INVALID,
               Some (with_status result DXBC_COMPARE_EXPECTED_INVALID e clear_diagnostic))
      | Ret expected_document =>
        match dxbc_document_parse (Some dxbc_document_init) (Some actual) with
        | Undef => Undef
        | Fail e =>
            Ret (DXBC_COMPARE_ACTUAL_INVALID,
                 Some (with_status result DXBC_COMPARE_ACTUAL_INVALID clear_diagnostic e))
        | Ret actual_document =>
          match compare_documents result expected_document actual_document expected actual
                  expected_size actual_size with
          | Undef => Undef
          | Fail reported => Ret (compare_status reported, Some reported)
          | Ret _ => Ret (DXBC_COMPARE_EQUAL, Some result)
          end
        end
      end
  | _, _ =>
      Ret (DXBC_COMPARE_INVALID_ARGUMENT,
           Some (with_status result DXBC_COMPARE_INVALID_ARGUMENT
                   (expected_diagnostic result) (actual_diagnostic result)))
  end.

Definition dxbc_compare_status_name (status : DXBCCompareStatus) : string :=
  match status with
  | DXBC_COMPARE_EQUAL => "equal"
  | DXBC_COMPARE_INVALID_ARGUMENT => "invalid_argument"
  | DXBC_COMPARE_EXPECTED_INVALID => "expected_invalid"
  | DXBC_COMPARE_ACTUAL_INVALID => "actual_invalid"
  | DXBC_COMPARE_CONTAINER_VERSION => "container_version"
  | DXBC_COMPARE_CHUNK_COUNT => "chunk_count"
  | DXBC_COMPARE_CHUNK_FOURCC => "chunk_fourcc"
  | DXBC_COMPARE_PROGRAM_VERSION => "program_version"
  | DXBC_COMPARE_INSTRUCTION_COUNT => "instruction_count"
  | DXBC_COMPARE_INSTRUCTION_OPCODE => "instruction_opcode"
  | DXBC_COMPARE_INSTRUCTION_LENGTH => "instruction_length"
  | DXBC_COMPARE_INSTRUCTION_TOKEN => "instruction_token"
  | DXBC_COMPARE_CHUNK_PAYLOAD_SIZE => "chunk_payload_size"
  | DXBC_COMPARE_CHUNK_OFFSET => "chunk_offset"
  | DXBC_COMPARE_CONTAINER_SIZE => "container_size"
  | DXBC_COMPARE_CHUNK_PAYLOAD => "chunk_payload"
  | DXBC_COMPARE_RAW_BYTE => "raw_byte"
  end.
