(* ===== verification/CompareCorrect.v ===== *)
(** [dxbc_compare_exact] decides byte equality of valid containers, and what it
    reports for different ones is a real difference at the coordinate it names. *)

From S2P Require Import Prelude UnityCommon Hash Document DocumentFormat Samples DocumentCorrect.
From S2P Require Import Compare.

(** * What a coordinate denotes *)

Definition instructions_of (d : DXBCDocument) (chunk_index : Z) : list DXBCDocumentInstruction :=
  filter (fun ins => ins_chunk_index ins = chunk_index) (doc_instructions d).

(** The value a document has at the coordinate of a report of each status. *)
Definition observe (bs : list byte) (d : DXBCDocument) (r : DXBCCompareResult) : option Z :=
  let chunk := doc_chunks d !! Z.to_nat (compare_chunk_index r) in
  let instruction :=
    instructions_of d (compare_chunk_index r) !! Z.to_nat (compare_instruction_index r) in
  match compare_status r with
  | DXBC_COMPARE_CHUNK_COUNT => Some (doc_chunk_count d)
  | DXBC_COMPARE_CHUNK_FOURCC => (fun c => le_val (chunk_fourcc c)) <$> chunk
  | DXBC_COMPARE_PROGRAM_VERSION => (fun c => word (chunk_payload_bytes c) 0) <$> chunk
  | DXBC_COMPARE_INSTRUCTION_COUNT =>
      Some (Z.of_nat (length (instructions_of d (compare_chunk_index r))))
  | DXBC_COMPARE_INSTRUCTION_OPCODE => ins_opcode <$> instruction
  | DXBC_COMPARE_INSTRUCTION_LENGTH => ins_token_count <$> instruction
  | DXBC_COMPARE_INSTRUCTION_TOKEN =>
      (fun ins => word (ins_raw_bytes ins) (4 * compare_token_index r)) <$> instruction
  | DXBC_COMPARE_CHUNK_PAYLOAD_SIZE => chunk_payload_size <$> chunk
  | DXBC_COMPARE_CHUNK_OFFSET => chunk_offset <$> chunk
  | DXBC_COMPARE_CONTAINER_SIZE => Some (size bs)
  | DXBC_COMPARE_CHUNK_PAYLOAD | DXBC_COMPARE_RAW_BYTE =>
      byte_val <$> bs !! Z.to_nat (first_differing_byte r)
  | _ => None
  end.

(** The report names a coordinate where the two containers have the reported,
    different values; the checksum is never the coordinate. *)
Record real_difference (e a : list byte) (de da : DXBCDocument) (r : DXBCCompareResult) : Prop := {
  real_expected : observe e de r = Some (expected_value r);
  real_actual : observe a da r = Some (actual_value r);
  real_differ : expected_value r <> actual_value r;
  real_not_checksum :
    compare_status r = DXBC_COMPARE_RAW_BYTE -> ~ (4 <= first_differing_byte r < 20);
}.

(** * Scanning *)

Lemma lookup_byte (bs : list byte) k : 0 <= k < size bs -> exists b, bs !! Z.to_nat k = Some b.
Proof. intros Hk. apply lookup_lt_is_Some_2. unfold size in Hk. lia. Qed.

Lemma outcome_load8 {E} bs k (Q : Z -> Prop) (F : E -> Prop) :
  0 <= k < size bs -> (forall b, bs !! Z.to_nat k = Some b -> Q (byte_val b)) ->
  outcome (load8 bs k) Q F.
Proof.
  intros Hk HQ. destruct (lookup_byte bs k Hk) as [b Hb]. rewrite (load8_ok _ _ b) by (done || lia).
  by apply HQ.
Qed.

(** [k] is the first position from [begin] to [end_] where the strings differ;
    [SIZE_MAX] when there is none. *)
Definition differ_first (e a : list byte) (begin end_ k : Z) : Prop :=
  let same i := e !! Z.to_nat i = a !! Z.to_nat i in
  k = SIZE_MAX /\ (forall i, begin <= i < end_ -> same i) \/
  begin <= k < end_ /\ ~ same k /\ (forall i, begin <= i < k -> same i).

Lemma first_difference_spec {E} (F : E -> Prop) n : forall e a offset,
  0 <= offset -> offset + Z.of_nat n <= size e -> offset + Z.of_nat n <= size a ->
  offset + Z.of_nat n < 2 ^ 32 ->
  outcome (first_difference n e a offset) (differ_first e a offset (offset + Z.of_nat n)) F.
Proof.
  induction n as [|n IH]; intros e a offset Ho He Ha Hs; cbn [first_difference].
  { left. split; [done|]. intros i Hi. lia. }
  apply outcome_bind, outcome_load8; [lia|]. intros x Hx.
  apply outcome_bind, outcome_load8; [lia|]. intros y Hy.
  apply outcome_if; intros Hxy; bools.
  { right. split; [lia|]. split; [|intros i Hi; lia]. rewrite Hx, Hy. congruence. }
  apply (inj byte_val) in Hxy as ->. rewrite u64_small by lia.
  eapply outcome_mono; [apply IH; lia| |done].
  intros k Hk. replace (offset + Z.of_nat (S n)) with (offset + 1 + Z.of_nat n) by lia.
  assert (Hsame : forall i, offset <= i -> offset + 1 <= i \/ e !! Z.to_nat i = a !! Z.to_nat i).
  { intros i Hi. destruct (decide (i = offset)) as [->|]; [right; congruence|left; lia]. }
  destruct Hk as [[-> Hk]|(Hk & Hne & Hbefore)]; [left|right].
  - split; [done|]. intros i Hi. destruct (Hsame i); [lia|apply Hk; lia|done].
  - split; [lia|]. split; [done|]. intros i Hi. destruct (Hsame i); [lia|apply Hbefore; lia|done].
Qed.

Lemma first_byte_difference_spec {E} (F : E -> Prop) e a sz begin :
  0 <= begin <= sz -> sz <= size e -> sz <= size a -> sz < 2 ^ 32 ->
  outcome (first_byte_difference e a sz begin) (differ_first e a begin sz) F.
Proof.
  intros. unfold first_byte_difference.
  eapply outcome_mono; [apply first_difference_spec; lia| |done].
  intros k. by replace (begin + _) with sz by lia.
Qed.

Lemma bytes_ext (e a : list byte) :
  size e = size a -> (forall i, 0 <= i < size e -> e !! Z.to_nat i = a !! Z.to_nat i) -> e = a.
Proof.
  intros Hs Hi. apply list_eq. intros i. destruct (decide (i < length e)%nat) as [Hlt|Hge].
  - rewrite <- (Nat2Z.id i). apply Hi. unfold size. lia.
  - unfold size in Hs. rewrite !lookup_ge_None_2 by lia. done.
Qed.

(** * Instructions of a chunk *)

Lemma count_spec d i n :
  n + Z.of_nat (length (instructions_of d i)) < 2 ^ 64 -> 0 <= n ->
  foldl (fun count ins => if ins_chunk_index ins =? i then u64 (count + 1) else count) n
    (doc_instructions d) = n + Z.of_nat (length (instructions_of d i)).
Proof.
  unfold instructions_of. revert n. induction (doc_instructions d) as [|ins l IH]; intros n Hn Hn0.
  { cbn. lia. }
  cbn [foldl]. destruct (Z.eqb_spec (ins_chunk_index ins) i) as [Hi|Hi].
  - rewrite filter_cons_True in * by done. cbn [length] in *. rewrite u64_small by lia.
    rewrite IH by lia. lia.
  - rewrite filter_cons_False in * by done. by apply IH.
Qed.

Lemma find_spec l i k current :
  current + Z.of_nat (length (filter (fun ins => ins_chunk_index ins = i) l)) < 2 ^ 64 ->
  0 <= current <= k ->
  find_instruction l i k current =
  filter (fun ins => ins_chunk_index ins = i) l !! Z.to_nat (k - current).
Proof.
  revert current. induction l as [|ins l IH]; intros current Hn Hc; [done|].
  cbn [find_instruction]. destruct (Z.eqb_spec (ins_chunk_index ins) i) as [Hi|Hi]; cbn [negb].
  - rewrite filter_cons_True in * by done. cbn [length] in *.
    destruct (Z.eqb_spec current k) as [->|]; [by rewrite Z.sub_diag|].
    rewrite u64_small by lia. rewrite IH by lia.
    by replace (Z.to_nat (k - current)) with (S (Z.to_nat (k - (current + 1)))) by lia.
  - rewrite filter_cons_False in * by done. by apply IH.
Qed.

(** [d] is the document of the valid container [bs]. *)
Record parsed (bs : list byte) (d : DXBCDocument) : Prop := {
  parsed_represents : represents bs d;
  parsed_valid : valid_container bs;
}.

Section parsed_facts.
Context (bs : list byte) (d : DXBCDocument) (Hparsed : parsed bs d).

Let Hrep := parsed_represents _ _ Hparsed.
Let Hvalid := parsed_valid _ _ Hparsed.

Lemma parsed_size : 32 <= size bs < 2 ^ 32.
Proof.
  destruct Hvalid as [[Hs _ _ Hd _] _ _ _]. split; [done|]. rewrite <- Hd.
  apply (le32_range bs 24); lia.
Qed.

Lemma parsed_count : doc_chunk_count d = chunk_count_of bs /\ 0 <= chunk_count_of bs < 2 ^ 32.
Proof.
  split; [apply Hrep|]. pose proof parsed_size. apply (le32_range bs 28); lia.
Qed.

(** The [i]-th chunk and its place. *)
Lemma parsed_chunk i :
  0 <= i < chunk_count_of bs ->
  exists c, doc_chunks d !! Z.to_nat i = Some c /\ chunk_table_index c = i /\
    0 <= chunk_offset c /\ 0 <= chunk_payload_size c /\
    chunk_offset c + 8 + chunk_payload_size c <= size bs /\
    chunk_fourcc c = slice bs (chunk_offset c) 4 /\
    chunk_payload_bytes c = slice bs (chunk_offset c + 8) (chunk_payload_size c).
Proof.
  intros Hi. rewrite (rep_chunks _ _ Hrep).
  destruct (lookup_lt_is_Some_2 (chunks_of bs) (Z.to_nat i)) as [c Hc].
  { unfold chunks_of. rewrite length_chunks_from. lia. }
  exists c. split; [done|].
  destruct (table_chunk bs (container_header _ Hvalid) (container_table _ Hvalid) _ _ Hc)
    as (Heq & Ho & Hp & [_ _ _ Hend]).
  unfold chunk_end in Hend. rewrite Z2Nat.id in Heq by lia. rewrite Heq in *. cbn in *.
  split_and!; lia || done.
Qed.

(** An executable chunk has its header words and fewer instructions than words. *)
Lemma parsed_program i c :
  doc_chunks d !! Z.to_nat i = Some c -> chunk_table_index c = i ->
  chunk_kind c = DXBC_DOCUMENT_CHUNK_EXECUTABLE ->
  8 <= chunk_payload_size c /\ Z.of_nat (length (instructions_of d i)) < 2 ^ 32.
Proof.
  intros Hc Hi Hk. rewrite (rep_chunks _ _ Hrep) in Hc.
  destruct (table_chunk bs (container_header _ Hvalid) (container_table _ Hvalid) _ _ Hc)
    as (Heq & Ho & Hp & [_ _ _ Hend]).
  assert (Hin : c ∈ chunks_of bs) by (by eapply list_elem_of_lookup_2).
  assert (Hraw : chunk_raw_size c = 8 + chunk_payload_size c) by (by rewrite Heq).
  pose proof (programs_filter bs _ _ _ c (rep_programs _ _ Hrep) (rep_chunk_offsets _ Hvalid)
    (chunks_of_indices bs) Hin Hk) as [_ Hhead _ [i' Hrun]].
  rewrite Hi in Hrun. split; [done|]. apply run_tokens in Hrun as [Hl _]; [|lia].
  unfold instructions_of. pose proof parsed_size. unfold chunk_end in Hend. unfold program_words in Hl.
  assert (chunk_payload_size c / 4 <= chunk_payload_size c) by (apply Z.div_le_upper_bound; lia). lia.
Qed.

Lemma parsed_instruction i k ins :
  instructions_of d i !! k = Some ins ->
  0 <= ins_byte_offset ins /\ 1 <= ins_token_count ins /\
  ins_byte_offset ins + 4 * ins_token_count ins <= size bs /\
  size (ins_raw_bytes ins) = 4 * ins_token_count ins.
Proof.
  intros Hl. assert (Hin : ins ∈ doc_instructions d).
  { apply list_elem_of_lookup_2, list_elem_of_filter in Hl as [_ Hl]. done. }
  destruct (rep_instruction bs d Hrep Hvalid ins Hin) as (Ho & Hn & Hend & Hraw).
  split_and!; try lia. rewrite Hraw. apply size_slice; lia.
Qed.

Lemma parsed_count_for i c :
  doc_chunks d !! Z.to_nat i = Some c -> chunk_table_index c = i ->
  chunk_kind c = DXBC_DOCUMENT_CHUNK_EXECUTABLE ->
  instruction_count_for_chunk d i = Z.of_nat (length (instructions_of d i)) /\
  forall k, 0 <= k -> instruction_for_chunk d i k = instructions_of d i !! Z.to_nat k.
Proof.
  intros Hc Hi Hk. destruct (parsed_program i c Hc Hi Hk) as [_ Hl]. split.
  - unfold instruction_count_for_chunk. rewrite count_spec by lia. lia.
  - intros k Hk0. unfold instruction_for_chunk. rewrite find_spec; [by rewrite Z.sub_0_r| |lia].
    unfold instructions_of in Hl. lia.
Qed.
End parsed_facts.

(** * The stages of the comparison *)

Section comparison.
Context `{U : UnityCommon} {HU : UnityCommonSpec U}.
Context (result : DXBCCompareResult) (e a : list byte) (de da : DXBCDocument).
Context (He : parsed e de) (Ha : parsed a da).

Abbreviation real := (real_difference e a de da).

(** A report whose two values are those of its coordinate. *)
Lemma outcome_difference {A} status off ci ii ti ev av (Q : A -> Prop) :
  let r := report result status off ci ii ti ev av in
  observe e de r = Some ev -> observe a da r = Some av -> ev <> av ->
  (status = DXBC_COMPARE_RAW_BYTE -> ~ (4 <= off < 20)) ->
  outcome (difference result status off ci ii ti ev av) Q real.
Proof. intros r Hev Hav Hne Hraw. by split. Qed.

Lemma outcome_chunk_of {E} bs d i (Q : DXBCDocumentChunk -> Prop) (F : E -> Prop) :
  parsed bs d -> 0 <= i < chunk_count_of bs ->
  (forall c, doc_chunks d !! Z.to_nat i = Some c -> chunk_table_index c = i ->
    0 <= chunk_offset c -> 0 <= chunk_payload_size c ->
    chunk_offset c + 8 + chunk_payload_size c <= size bs ->
    size (chunk_fourcc c) = 4 -> size (chunk_payload_bytes c) = chunk_payload_size c ->
    chunk_payload_bytes c = slice bs (chunk_offset c + 8) (chunk_payload_size c) -> Q c) ->
  outcome (chunk_of d i) Q F.
Proof.
  intros Hp Hi HQ. destruct (parsed_chunk bs d Hp i Hi) as (c & Hc & Hidx & Ho & Hs & Hend & Hf & Hb).
  unfold chunk_of. rewrite Hc. apply HQ; try done.
  - rewrite Hf. apply size_slice; lia.
  - rewrite Hb. apply size_slice; lia.
Qed.

Lemma outcome_read_word {E} bs (Q : Z -> Prop) (F : E -> Prop) :
  4 <= size bs -> Q (word bs 0) -> outcome (compare_read_u32_le bs) Q F.
Proof. intros Hs HQ. unfold compare_read_u32_le. by rewrite load_or_word_ok by lia. Qed.

Lemma compare_token_spec i k ei ai t :
  instructions_of de i !! Z.to_nat k = Some ei -> instructions_of da i !! Z.to_nat k = Some ai ->
  0 <= k < 2 ^ 32 -> ins_token_count ei = ins_token_count ai -> 0 <= t < ins_token_count ei ->
  outcome (compare_token result i k ei ai t tt) (fun _ => True) real.
Proof.
  intros Hei Hai Hk Hn Ht. unfold compare_token, dxbc_document_instruction_token.
  destruct (parsed_instruction e de He _ _ _ Hei) as (Hoff & _ & Hend & Hse).
  destruct (parsed_instruction a da Ha _ _ _ Hai) as (_ & _ & _ & Hsa).
  pose proof (parsed_size e de He).
  rewrite (proj2 (Z.leb_gt _ _)) by lia. rewrite (u64_small (t * 4)) by lia.
  rewrite read_u32_le_ok by lia. cbn [attempt mbind res_bind].
  rewrite (proj2 (Z.leb_gt _ _)) by lia. rewrite read_u32_le_ok by lia. cbn [attempt mbind res_bind].
  apply outcome_if; intros Hc; bools; [|done].
  apply outcome_difference; try done; unfold observe, report; cbn;
    rewrite u32_small by lia; rewrite ?Hei, ?Hai; cbn; by rewrite Z.mul_comm.
Qed.

Lemma compare_instruction_spec i ec ac k :
  doc_chunks de !! Z.to_nat i = Some ec -> doc_chunks da !! Z.to_nat i = Some ac ->
  chunk_table_index ec = i -> chunk_table_index ac = i ->
  chunk_kind ec = DXBC_DOCUMENT_CHUNK_EXECUTABLE -> chunk_kind ac = DXBC_DOCUMENT_CHUNK_EXECUTABLE ->
  length (instructions_of de i) = length (instructions_of da i) ->
  0 <= k < Z.of_nat (length (instructions_of de i)) ->
  outcome (compare_instruction result de da i ec k tt) (fun _ => True) real.
Proof.
  intros Hec Hac Hie Hia Hke Hka Hl Hk. unfold compare_instruction.
  destruct (parsed_count_for e de He i ec Hec Hie Hke) as [_ Hfind]; rewrite Hfind by lia; clear Hfind.
  destruct (parsed_count_for a da Ha i ac Hac Hia Hka) as [_ Hfind]; rewrite Hfind by lia; clear Hfind.
  destruct (parsed_program e de He i ec Hec Hie Hke) as [_ Hlt].
  destruct (lookup_lt_is_Some_2 (instructions_of de i) (Z.to_nat k)) as [ei Hei]; [lia|].
  destruct (lookup_lt_is_Some_2 (instructions_of da i) (Z.to_nat k)) as [ai Hai]; [lia|].
  rewrite Hei, Hai.
  apply outcome_if; intros Hop; bools.
  { apply outcome_difference; try done; unfold observe, report; cbn;
      rewrite u32_small by lia; by rewrite ?Hei, ?Hai. }
  apply outcome_if; intros Hn; bools.
  { apply outcome_difference; try done; unfold observe, report; cbn;
      rewrite u32_small by lia; by rewrite ?Hei, ?Hai. }
  eapply outcome_mono; [apply (outcome_for (fun _ _ => True)); [done|]|done|done].
  intros t [] Ht _. apply compare_token_spec; [done..|lia|done|].
  destruct (parsed_instruction e de He _ _ _ Hei) as (_ & ? & _). lia.
Qed.

Lemma compare_chunk_spec i :
  0 <= i < chunk_count_of e -> chunk_count_of e = chunk_count_of a ->
  outcome (compare_chunk result de da i tt) (fun _ => True) real.
Proof.
  intros Hi Hcount. unfold compare_chunk.
  apply outcome_bind, (outcome_chunk_of e); [done|done|]. intros ec Hec Hie Hoe Hpe Hende Hfe Hbe _.
  apply outcome_bind, (outcome_chunk_of a); [done|lia|]. intros ac Hac Hia Hoa Hpa Henda Hfa Hba _.
  apply outcome_if; intros Hf.
  { apply outcome_bind, outcome_read_word; [lia|]. apply outcome_bind, outcome_read_word; [lia|].
    assert (Hne : chunk_fourcc ec <> chunk_fourcc ac).
    { intros Heq. apply negb_true_iff in Hf. by rewrite (proj2 (bytes_eqb_eq _ _) Heq) in Hf. }
    assert (Hw : forall c, size (chunk_fourcc c) = 4 -> word (chunk_fourcc c) 0 = le_val (chunk_fourcc c)).
    { intros c Hs. unfold word. rewrite <- Hs at 1. by rewrite slice_0. }
    rewrite !Hw by done.
    apply outcome_difference; unfold observe, report; cbn; rewrite ?Hec, ?Hac; try done.
    intros Heq. apply Hne, le_val_inj; [unfold size in *; lia|done]. }
  apply outcome_if; intros Hk; [|done]. bools. unfold compare_program.
  destruct (parsed_program e de He i ec Hec Hie) as [H8e Hle]; [done|].
  destruct (parsed_program a da Ha i ac Hac Hia) as [H8a Hla]; [done|].
  apply outcome_bind, outcome_read_word; [lia|]. apply outcome_bind, outcome_read_word; [lia|].
  apply outcome_if; intros Hv; bools.
  { apply outcome_difference; unfold observe, report; cbn; by rewrite ?Hec, ?Hac. }
  destruct (parsed_count_for e de He i ec Hec Hie) as [-> _]; [done|].
  destruct (parsed_count_for a da Ha i ac Hac Hia) as [-> _]; [done|].
  apply outcome_if; intros Hn; bools.
  { by apply outcome_difference. }
  eapply outcome_mono; [apply (outcome_for (fun _ _ => True)); [done|]|done|done].
  intros k [] Hk _. eapply compare_instruction_spec; eauto; lia.
Qed.

(** Chunk [i] lies at the same place in both containers. *)
Definition same_place (i : Z) : Prop :=
  exists ec ac, doc_chunks de !! Z.to_nat i = Some ec /\ doc_chunks da !! Z.to_nat i = Some ac /\
    chunk_payload_size ec = chunk_payload_size ac /\ chunk_offset ec = chunk_offset ac.

Lemma compare_layout_spec i :
  0 <= i < chunk_count_of e -> chunk_count_of e = chunk_count_of a ->
  outcome (compare_layout result de da i tt) (fun _ => same_place i) real.
Proof.
  intros Hi Hcount. unfold compare_layout.
  apply outcome_bind, (outcome_chunk_of e); [done|done|]. intros ec Hec _ _ _ _ _ _ _.
  apply outcome_bind, (outcome_chunk_of a); [done|lia|]. intros ac Hac _ _ _ _ _ _ _.
  apply outcome_if; intros Hp; bools.
  { apply outcome_difference; unfold observe, report; cbn; by rewrite ?Hec, ?Hac. }
  apply outcome_if; intros Ho; bools.
  { apply outcome_difference; unfold observe, report; cbn; by rewrite ?Hec, ?Hac. }
  by exists ec, ac.
Qed.

Lemma lookup_slice bs off len k :
  0 <= off -> 0 <= k < len -> slice bs off len !! Z.to_nat k = bs !! Z.to_nat (off + k).
Proof.
  intros. unfold slice. rewrite lookup_take_lt, lookup_drop by lia. f_equal. lia.
Qed.

Lemma compare_payload_spec i :
  0 <= i < chunk_count_of e -> chunk_count_of e = chunk_count_of a -> same_place i ->
  outcome (compare_payload result de da i tt) (fun _ => True) real.
Proof.
  intros Hi Hcount (ec & ac & Hec & Hac & Hp & Ho). unfold compare_payload.
  apply outcome_bind, (outcome_chunk_of e); [done|done|].
  intros ec' Hec' _ Hoe Hpe Hende _ Hbe Hse. assert (ec' = ec) as -> by congruence.
  apply outcome_bind, (outcome_chunk_of a); [done|lia|].
  intros ac' Hac' _ Hoa Hpa Henda _ Hba Hsa. assert (ac' = ac) as -> by congruence.
  pose proof (parsed_size e de He).
  apply outcome_bind. eapply outcome_mono; [apply first_byte_difference_spec; lia| |done].
  intros k Hk. apply outcome_if; intros Hc; bools; [|done].
  destruct Hk as [[-> _]|(Hk & Hne & _)]; [done|].
  apply outcome_bind, outcome_load8; [lia|]. intros x Hx.
  apply outcome_bind, outcome_load8; [lia|]. intros y Hy.
  rewrite (u64_small (chunk_offset ec + 8)), u64_small by lia.
  apply outcome_difference; unfold observe, report; cbn.
  - rewrite <- lookup_slice with (len := chunk_payload_size ec) by lia. by rewrite <- Hse, Hx.
  - rewrite Ho. rewrite <- lookup_slice with (len := chunk_payload_size ac) by lia.
    by rewrite <- Hsa, Hy.
  - intros Heq%(inj byte_val). congruence.
  - done.
Qed.

(** Containers that agree from byte 20 on have the same checksum. *)
Lemma checksum_determined :
  size e = size a ->
  (forall i, 20 <= i < size e -> e !! Z.to_nat i = a !! Z.to_nat i) ->
  forall i, 4 <= i < 20 -> e !! Z.to_nat i = a !! Z.to_nat i.
Proof.
  intros Hs Htail i Hi. pose proof (parsed_size e de He). pose proof (parsed_size a da Ha).
  assert (Hdrop : drop 20 e = drop 20 a).
  { apply bytes_ext.
    - pose proof (size_drop e 20 ltac:(lia)) as E1. pose proof (size_drop a 20 ltac:(lia)) as E2.
      change (Z.to_nat 20) with 20%nat in *. lia.
    - intros j Hj. pose proof (size_drop e 20 ltac:(lia)) as E1.
      change (Z.to_nat 20) with 20%nat in *. rewrite !lookup_drop.
      specialize (Htail (20 + j)). rewrite Z2Nat.inj_add in Htail by lia. apply Htail. lia. }
  assert (Hsl : forall k len, 0 <= k -> slice e (20 + k) len = slice a (20 + k) len).
  { intros k len Hk. rewrite <- !slice_drop by lia. change (Z.to_nat 20) with 20%nat. by rewrite Hdrop. }
  assert (Hhash : slice e 4 16 = slice a 4 16).
  { destruct He as [_ [_ _ Hve _]], Ha as [_ [_ _ Hva _]]. rewrite Hve, Hva.
    unfold reference_hash, declared_size. change 24 with (20 + 4). rewrite (Hsl 4 4) by lia.
    pose proof (Hsl 0) as Hz. rewrite Z.add_0_r in Hz. by rewrite Hz by lia. }
  replace i with (4 + (i - 4)) by lia.
  rewrite <- !lookup_slice with (len := 16) by lia. by rewrite Hhash.
Qed.

Lemma compare_raw_spec :
  e <> a -> size e = size a ->
  outcome (compare_raw result e a (size e)) (fun _ => False) real.
Proof.
  intros Hne Hs. pose proof (parsed_size e de He). unfold compare_raw.
  assert (Hsome : forall k, differ_first e a 0 (size e) k -> k <> SIZE_MAX).
  { intros k [[-> Hall]|(Hk & _ & _)]; [by destruct Hne; apply bytes_ext|unfold SIZE_MAX; lia]. }
  assert (Hreport : forall at_, 0 <= at_ < size e -> e !! Z.to_nat at_ <> a !! Z.to_nat at_ ->
    ~ (4 <= at_ < 20) ->
    outcome (expected_byte ← load8 e at_; actual_byte ← load8 a at_;
      difference result DXBC_COMPARE_RAW_BYTE at_ DXBC_DOCUMENT_NO_INDEX DXBC_DOCUMENT_NO_INDEX
        DXBC_DOCUMENT_NO_INDEX expected_byte actual_byte) (fun _ : unit => False) real).
  { intros at_ Hat Hd Hn. apply outcome_bind, outcome_load8; [lia|]. intros x Hx.
    apply outcome_bind, outcome_load8; [lia|]. intros y Hy.
    apply outcome_difference; unfold observe, report; cbn; rewrite ?Hx, ?Hy; try done.
    intros Heq%(inj byte_val). congruence. }
  apply outcome_bind. eapply outcome_mono; [apply first_byte_difference_spec; lia| |done].
  intros k Hk. pose proof (Hsome k Hk) as Hkm. apply outcome_bind.
  destruct Hk as [[Hmax _]|(Hk & Hd & Hbefore)]; [done|].
  destruct ((4 <=? k) && (k <? 20)) eqn:Hsum; cbn [andb].
  - bools. apply outcome_bind. eapply outcome_mono; [apply first_byte_difference_spec; lia| |done].
    intros j [[-> Hall]|(Hj & Hdj & _)].
    + exfalso. apply Hd. apply checksum_determined; [done|done|lia].
    + assert (j <> SIZE_MAX) by (unfold SIZE_MAX; lia).
      rewrite (proj2 (Z.eqb_neq j _)) by done. cbn [outcome].
      rewrite (proj2 (Z.eqb_neq j _)) by done. apply Hreport; [lia|done|lia].
  - cbn [outcome]. rewrite (proj2 (Z.eqb_neq k _)) by done. apply Hreport; [lia|done|].
    intros ?. rewrite (proj2 (Z.leb_le _ _)), (proj2 (Z.ltb_lt _ _)) in Hsum by lia. done.
Qed.

Lemma compare_documents_spec :
  outcome (compare_documents result de da e a (size e) (size a)) (fun _ => e = a) real.
Proof.
  unfold compare_documents.
  apply outcome_if; intros Heq.
  { bools. match goal with H : bytes_eqb _ _ = true |- _ => by apply bytes_eqb_eq in H end. }
  assert (Hne : e <> a).
  { intros ->. by rewrite Z.eqb_refl, (proj2 (bytes_eqb_eq a a) eq_refl) in Heq. }
  rewrite (rep_version _ _ (parsed_represents _ _ He)), (rep_version _ _ (parsed_represents _ _ Ha)).
  cbn [Z.eqb negb Pos.eqb].
  destruct (parsed_count e de He) as [Hce Hre], (parsed_count a da Ha) as [Hca _].
  apply outcome_if; intros Hcount; bools; [by apply outcome_difference|].
  rewrite Hce, Hca in Hcount. rewrite Hce.
  apply outcome_bind. eapply outcome_mono; [apply (outcome_for (fun _ _ => True)); [done|]| |done].
  { intros i [] Hi _. apply compare_chunk_spec; [lia|done]. }
  intros [] _. apply outcome_bind.
  eapply outcome_mono; [apply (outcome_for (fun j _ => forall i, 0 <= i < j -> same_place i));
    [intros i Hi; lia|]| |done].
  { intros j [] Hj Hbefore. eapply outcome_mono; [apply compare_layout_spec; [lia|done]| |done].
    intros [] Hplace i Hi. destruct (decide (i = j)) as [->|]; [done|apply Hbefore; lia]. }
  intros [] Hplaces. apply outcome_if; intros Hs; bools; [by apply outcome_difference|].
  apply outcome_bind. eapply outcome_mono; [apply (outcome_for (fun _ _ => True)); [done|]| |done].
  { intros i [] Hi _. apply compare_payload_spec; [lia|done|apply Hplaces; lia]. }
  intros [] _. eapply outcome_mono; [by apply compare_raw_spec|done|done].
Qed.
End comparison.

(** * Properties *)

Section compare_correct.
Context `{U : UnityCommon} {HU : UnityCommonSpec U} `{D : DigestStack} {E : Type}.

Abbreviation compare e a :=
  (dxbc_compare_exact (E:=E) (Some e%list) (size e) (Some a%list) (size a) true).
Abbreviation parse bs := (dxbc_document_parse (Some dxbc_document_init) (Some bs%list)).

(** Every status but the parse failures is about two parsed containers. *)
Lemma compare_exact_spec e a :
  exists status r, compare e a = Ret (status, Some r) /\ compare_status r = status /\
  match status with
  | DXBC_COMPARE_EXPECTED_INVALID =>
      (~ valid_container e \/ memory_failed) /\ diag_code (expected_diagnostic r) <> DXBC_DOCUMENT_OK
  | DXBC_COMPARE_ACTUAL_INVALID =>
      valid_container e /\ (~ valid_container a \/ memory_failed) /\
      diag_code (actual_diagnostic r) <> DXBC_DOCUMENT_OK
  | DXBC_COMPARE_EQUAL => valid_container e /\ e = a
  | DXBC_COMPARE_INVALID_ARGUMENT => False
  | _ => exists de da, parse e = Ret de /\ parse a = Ret da /\ real_difference e a de da r
  end.
Proof.
  unfold dxbc_compare_exact. cbn [negb].
  pose proof (document_parse_refines e dxbc_document_init) as Hpe.
  destruct (parse e) as [de|d|] eqn:Heqe; cbn [outcome] in Hpe; [| |done].
  2:{ do 2 eexists. split; [done|]. split; [done|]. by destruct Hpe as (_ & ? & ?). }
  pose proof (document_parse_refines a dxbc_document_init) as Hpa.
  destruct (parse a) as [da|d|] eqn:Heqa; cbn [outcome] in Hpa; [| |done].
  2:{ do 2 eexists. split; [done|]. split; [done|]. destruct Hpe, Hpa as (_ & ? & ?). done. }
  assert (He : parsed e de) by (by destruct Hpe; split).
  assert (Ha : parsed a da) by (by destruct Hpa; split).
  pose proof (fun result => compare_documents_spec result e a de da He Ha) as Hc.
  match goal with |- context [compare_documents ?r] => specialize (Hc r) end.
  destruct (compare_documents _ _ _ _ _ _ _) as [[]|r|]; cbn [outcome] in Hc; [| |done].
  - do 2 eexists. split; [done|]. split; [done|]. by destruct Hpe.
  - do 2 eexists. split; [done|]. split; [done|]. pose proof Hc as [Hreal _ _ _].
    unfold observe in Hreal. destruct (compare_status r); try done; by exists de, da.
Qed.

(** The statuses that localise a difference between two parsed containers. *)
Definition is_difference (status : DXBCCompareStatus) : bool :=
  match status with
  | DXBC_COMPARE_EQUAL | DXBC_COMPARE_INVALID_ARGUMENT
  | DXBC_COMPARE_EXPECTED_INVALID | DXBC_COMPARE_ACTUAL_INVALID => false
  | _ => true
  end.

(** C30: with memory available [dxbc_compare_exact] always returns, reads only its
    two inputs, and classifies them exactly: EQUAL for two identical valid
    containers and for nothing else, EXPECTED_INVALID when the first is not a
    valid container, ACTUAL_INVALID when only the second is not; every other
    pair is reported as a difference. *)
Theorem dxbc_compare_exact_classifies `{!MemoryAvailable U} e a :
  exists status r, compare e a = Ret (status, Some r) /\ compare_status r = status /\
    (status = DXBC_COMPARE_EQUAL <-> valid_container e /\ e = a) /\
    (status = DXBC_COMPARE_EXPECTED_INVALID <-> ~ valid_container e) /\
    (status = DXBC_COMPARE_ACTUAL_INVALID <-> valid_container e /\ ~ valid_container a) /\
    (is_difference status = true <-> valid_container e /\ valid_container a /\ e <> a).
Proof.
  destruct (compare_exact_spec e a) as (status & r & Heq & Hst & Hspec).
  exists status, r. split; [done|]. split; [done|].
  pose proof (memory_available_not_failed MemoryAvailable0) as Hmem.
  assert (Hdiff : (exists de da, parse e = Ret de /\ parse a = Ret da /\ real_difference e a de da r) ->
    valid_container e /\ valid_container a /\ e <> a).
  { intros (de & da & He & Ha & [Hx Hy Hne _]).
    split; [by eapply parse_Ret|]. split; [by eapply parse_Ret|]. intros ->.
    assert (de = da) as -> by congruence. congruence. }
  destruct (is_difference status) eqn:Hd.
  - assert (Hall : valid_container e /\ valid_container a /\ e <> a) by (apply Hdiff; by destruct status).
    destruct Hall as (? & ? & ?). by destruct status; split_and!; split; try done; intros []; intros.
  - destruct status; try done; cbn [is_difference]; clear Hdiff.
    + destruct Hspec as [? ->]. split_and!; split; try done; by intros (? & ? & ?) || by intros [].
    + destruct Hspec as [[Hno|] _]; [|done]. split_and!; split; try done; by intros [].
    + destruct Hspec as (? & [Hno|] & _); [|done].
      split_and!; split; try done; [by intros [_ <-]|by intros (? & ? & ?)].
Qed.

(** Whenever [dxbc_compare_exact] reports a difference, both inputs parse and
    the named coordinate - a count, a fourcc, a version word, an opcode, a length,
    a token, a size, an offset or a byte - has in the two containers the two
    reported values, which differ; and the fallback never names a byte of the
    checksum, although any change of the body changes it. *)
Theorem dxbc_compare_exact_difference e a status r :
  compare e a = Ret (status, Some r) -> is_difference status = true ->
  exists de da, parse e = Ret de /\ parse a = Ret da /\ real_difference e a de da r.
Proof.
  intros Heq Hd. destruct (compare_exact_spec e a) as (status' & r' & Heq' & _ & Hspec).
  rewrite Heq in Heq'. injection Heq' as <- <-. by destruct status.
Qed.
End compare_correct.

(** * Witnesses *)

Abbreviation ref_compare :=
  (@dxbc_compare_exact unity_common_ref sample_stack unit).

Lemma dxbc_compare_exact_classifies_witness :
  exists r, ref_compare (Some sample_bytes) (size sample_bytes) (Some sample_bytes)
              (size sample_bytes) true = Ret (DXBC_COMPARE_EQUAL, Some r).
Proof.
  destruct (@dxbc_compare_exact_classifies unity_common_ref unity_common_ref_spec sample_stack unit
    unity_common_ref_memory sample_bytes sample_bytes) as (status & r & Heq & _ & [_ Hequal] & _).
  exists r. rewrite Heq. f_equal. f_equal. apply Hequal. split; [|reflexivity].
  exact (proj2 (@parse_Ret unity_common_ref unity_common_ref_spec sample_stack _ _ _ sample_parse)).
Defined.

Definition compute_geometry_difference : DXBCCompareResult :=
  Eval vm_compute in
  match ref_compare (Some sample_bytes) (size sample_bytes) (Some geometry_bytes)
          (size geometry_bytes) true with
  | Ret (_, Some r) => r
  | _ => dxbc_compare_result_init
  end.

Lemma dxbc_compare_exact_difference_witness :
  compare_status compute_geometry_difference = DXBC_COMPARE_PROGRAM_VERSION /\
  exists de da, real_difference sample_bytes geometry_bytes de da compute_geometry_difference.
Proof.
  split; [reflexivity|].
  destruct (@dxbc_compare_exact_difference unity_common_ref unity_common_ref_spec sample_stack unit
    sample_bytes geometry_bytes DXBC_COMPARE_PROGRAM_VERSION compute_geometry_difference)
    as (de & da & _ & _ & Hreal).
  - vm_compute. reflexivity.
  - reflexivity.
  - exists de, da. exact Hreal.
Defined.
