(* ===== verification/Decoder.v ===== *)
(** Opcode and enumeration names, [src/dxbc/dxbc_decoder.c]. *)

From S2P Require Import Prelude.

(** * Operations *)

Definition dxbc_opcode_is_known (op : Z) : bool :=
  (op <=? 234) && negb (op =? 107) && negb (op =? 112) && negb (op =? 209) && negb (op =? 218).

Definition dxbc_opcode_name (op : Z) : string :=
  switch op [
    (0, "ADD"); (1, "AND"); (2, "BREAK"); (3, "BREAKC"); (4, "CALL"); (5, "CALLC");
    (6, "CASE"); (7, "CONTINUE"); (8, "CONTINUEC"); (9, "CUT"); (10, "DEFAULT");
    (11, "DERIV_RTX"); (12, "DERIV_RTY"); (13, "DISCARD"); (14, "DIV"); (15, "DP2");
    (16, "DP3"); (17, "DP4"); (18, "ELSE"); (19, "EMIT"); (20, "EMITTHENCUT"); (21, "ENDIF");
    (22, "ENDLOOP"); (23, "ENDSWITCH"); (24, "EQ"); (25, "EXP"); (26, "FRC"); (27, "FTOI");
    (28, "FTOU"); (29, "GE"); (30, "IADD"); (31, "IF"); (32, "IEQ"); (33, "IGE"); (34, "ILT");
    (35, "IMAD"); (36, "IMAX"); (37, "IMIN"); (38, "IMUL"); (39, "INE"); (40, "INEG");
    (41, "ISHL"); (42, "ISHR"); (43, "ITOF"); (44, "LABEL"); (45, "LD"); (46, "LDMS");
    (47, "LOG"); (48, "LOOP"); (49, "LT"); (50, "MAD"); (51, "MIN"); (52, "MAX");
    (53, "DCL_IMMEDIATECONSTANTBUFFER"); (54, "MOV"); (55, "MOVC"); (56, "MUL"); (57, "NE");
    (58, "NOP"); (59, "NOT"); (60, "OR"); (61, "RESINFO"); (62, "RET"); (63, "RETC");
    (64, "ROUND_NE"); (65, "ROUND_NI"); (66, "ROUND_PI"); (67, "ROUND_Z"); (68, "RSQ");
    (69, "SAMPLE"); (70, "SAMPLE_C"); (71, "SAMPLE_C_LZ"); (72, "SAMPLE_L"); (73, "SAMPLE_D");
    (74, "SAMPLE_B"); (75, "SQRT"); (76, "SWITCH"); (77, "SINCOS"); (78, "UDIV"); (79, "ULT");
    (80, "UGE"); (81, "UMUL"); (82, "UMAD"); (83, "UMAX"); (84, "UMIN"); (85, "USHR");
    (86, "UTOF"); (87, "XOR"); (88, "DCL_RESOURCE"); (89, "DCL_CONSTANTBUFFER");
    (90, "DCL_SAMPLER"); (91, "DCL_INDEXRANGE"); (92, "DCL_OUTPUTTOPOLOGY");
    (93, "DCL_INPUTPRIMITIVE"); (94, "DCL_MAXOUT"); (95, "DCL_INPUT"); (96, "DCL_INPUT_SGV");
    (97, "DCL_INPUT_SIV"); (98, "DCL_INPUT_PS"); (99, "DCL_INPUT_PS_SGV");
    (100, "DCL_INPUT_PS_SIV"); (101, "DCL_OUTPUT"); (102, "DCL_OUTPUT_SGV");
    (103, "DCL_OUTPUT_SIV"); (104, "DCL_TEMPS"); (105, "DCL_INDEXABLETEMP");
    (106, "DCL_GLOBALFLAGS"); (108, "LOD"); (109, "GATHER4"); (110, "SAMPLE_POS");
    (111, "SAMPLEINFO"); (113, "HS_DECLS"); (114, "HS_CONTROL_POINT_PHASE");
    (115, "HS_FORK_PHASE"); (116, "HS_JOIN_PHASE"); (117, "EMIT_STREAM"); (118, "CUT_STREAM");
    (119, "EMITTHENCUT_STREAM"); (120, "INTERFACE_CALL"); (121, "BUFINFO");
    (122, "DERIV_RTX_COARSE"); (123, "DERIV_RTX_FINE"); (124, "DERIV_RTY_COARSE");
    (125, "DERIV_RTY_FINE"); (126, "GATHER4_C"); (127, "GATHER4_PO"); (128, "GATHER4_PO_C");
    (129, "RCP"); (130, "F32TOF16"); (131, "F16TOF32"); (132, "UADDC"); (133, "USUBB");
    (134, "COUNTBITS"); (135, "FIRSTBIT_HI"); (136, "FIRSTBIT_LO"); (137, "FIRSTBIT_SHI");
    (138, "UBFE"); (139, "IBFE"); (140, "BFI"); (141, "BFREV"); (142, "SWAPC");
    (143, "DCL_STREAM"); (144, "DCL_FUNCTION_BODY"); (145, "DCL_FUNCTION_TABLE");
    (146, "DCL_INTERFACE"); (147, "DCL_INPUT_CONTROL_POINT_COUNT");
    (148, "DCL_OUTPUT_CONTROL_POINT_COUNT"); (149, "DCL_TESSELLATOR_DOMAIN");
    (150, "DCL_TESSELLATOR_PARTITIONING"); (151, "DCL_TESSELLATOR_OUTPUT_PRIMITIVE");
    (152, "DCL_HS_MAX_TESSFACTOR"); (153, "DCL_HS_FORK_PHASE_INSTANCE_COUNT");
    (154, "DCL_HS_JOIN_PHASE_INSTANCE_COUNT"); (155, "DCL_THREAD_GROUP");
    (156, "DCL_UAV_TYPED"); (157, "DCL_UAV_RAW"); (158, "DCL_UAV_STRUCTURED");
    (159, "DCL_TGSM_RAW"); (160, "DCL_TGSM_STRUCTURED"); (161, "DCL_RESOURCE_RAW");
    (162, "DCL_RESOURCE_STRUCTURED"); (163, "LD_UAV_TYPED"); (164, "STORE_UAV_TYPED");
    (165, "LD_RAW"); (166, "STORE_RAW"); (167, "LD_STRUCTURED"); (168, "STORE_STRUCTURED");
    (169, "ATOMIC_AND"); (170, "ATOMIC_OR"); (171, "ATOMIC_XOR"); (172, "ATOMIC_CMP_STORE");
    (173, "ATOMIC_IADD"); (174, "ATOMIC_IMAX"); (175, "ATOMIC_IMIN"); (176, "ATOMIC_UMAX");
    (177, "ATOMIC_UMIN"); (178, "IMM_ATOMIC_ALLOC"); (179, "IMM_ATOMIC_CONSUME");
    (180, "IMM_ATOMIC_IADD"); (181, "IMM_ATOMIC_AND"); (182, "IMM_ATOMIC_OR");
    (183, "IMM_ATOMIC_XOR"); (184, "IMM_ATOMIC_EXCH"); (185, "IMM_ATOMIC_CMP_EXCH");
    (186, "IMM_ATOMIC_IMAX"); (187, "IMM_ATOMIC_IMIN"); (188, "IMM_ATOMIC_UMAX");
    (189, "IMM_ATOMIC_UMIN"); (190, "SYNC"); (191, "DADD"); (192, "DMAX"); (193, "DMIN");
    (194, "DMUL"); (195, "DEQ"); (196, "DGE"); (197, "DLT"); (198, "DNE"); (199, "DMOV");
    (200, "DMOVC"); (201, "DTOF"); (202, "FTOD"); (203, "EVAL_SNAPPED");
    (204, "EVAL_SAMPLE_INDEX"); (205, "EVAL_CENTROID"); (206, "DCL_GS_INSTANCE_COUNT");
    (207, "ABORT"); (208, "DEBUG_BREAK"); (210, "DDIV"); (211, "DFMA"); (212, "DRCP");
    (213, "MSAD"); (214, "DTOI"); (215, "DTOU"); (216, "ITOD"); (217, "UTOD");
    (219, "GATHER4_FEEDBACK"); (220, "GATHER4_C_FEEDBACK"); (221, "GATHER4_PO_FEEDBACK");
    (222, "GATHER4_PO_C_FEEDBACK"); (223, "LD_FEEDBACK"); (224, "LD_MS_FEEDBACK");
    (225, "LD_UAV_TYPED_FEEDBACK"); (226, "LD_RAW_FEEDBACK"); (227, "LD_STRUCTURED_FEEDBACK");
    (228, "SAMPLE_L_FEEDBACK"); (229, "SAMPLE_C_LZ_FEEDBACK"); (230, "SAMPLE_CLAMP_FEEDBACK");
    (231, "SAMPLE_B_CLAMP_FEEDBACK"); (232, "SAMPLE_D_CLAMP_FEEDBACK");
    (233, "SAMPLE_C_CLAMP_FEEDBACK"); (234, "CHECK_ACCESS_FULLY_MAPPED")] "UNKNOWN_OP".

Definition dxbc_opcode_is_declaration (op : Z) : bool :=
  (op =? 53) || ((88 <=? op) && (op <=? 106)) || (op =? 113) ||
  ((143 <=? op) && (op <=? 162)) || (op =? 206).

Definition dxbc_sys_value_name (sv : Z) : string :=
  switch sv [
    (1, "position"); (2, "clip_distance"); (3, "cull_distance");
    (4, "rendertarget_array_index"); (5, "viewport_array_index"); (6, "vertex_id");
    (7, "primitive_id"); (8, "instance_id"); (9, "is_front_face"); (10, "sample_index");
    (11, "final_quad_edge_tessfactor"); (12, "final_quad_inside_tessfactor");
    (13, "final_tri_edge_tessfactor"); (14, "final_tri_inside_tessfactor");
    (15, "final_line_detail_tessfactor"); (16, "final_line_density_tessfactor");
    (23, "barycentrics"); (24, "shading_rate"); (25, "cull_primitive"); (64, "target");
    (65, "depth"); (66, "coverage"); (67, "depth_greater_equal"); (68, "depth_less_equal");
    (69, "stencil_ref"); (70, "inner_coverage")] "unknown_siv".

Definition dxbc_interpolation_name (mode : Z) : string :=
  switch mode [
    (1, " constant"); (2, " linear"); (3, " linear centroid"); (4, " linear noperspective");
    (5, " linear noperspective centroid"); (6, " linear sample");
    (7, " linear noperspective sample")] EmptyString.

Definition dxbc_resource_dim_name (dim : Z) : string :=
  switch dim [
    (1, "buffer"); (2, "texture1d"); (3, "texture2d"); (4, "texture2dms"); (5, "texture3d");
    (6, "texturecube"); (7, "texture1darray"); (8, "texture2darray"); (9, "texture2dmsarray");
    (10, "texturecubearray"); (11, "raw_buffer"); (12, "structured_buffer")] "unknown_dim".


(** * Correctness *)

Definition declaration_name (name : string) : bool :=
  String.prefix "DCL_" name || String.eqb name "HS_DECLS".

Lemma opcode_beyond op : 235 <= op -> dxbc_opcode_name op = "UNKNOWN_OP".
Proof.
  intros Hop. apply switch_default. intros Hin.
  match type of Hin with _ ∈ ?ks =>
    assert (Hall : Forall (fun k => k < 235) ks) by (apply (bool_decide_unpack _); vm_compute; exact I)
  end.
  rewrite list.Forall_forall in Hall. apply Hall in Hin. lia.
Qed.

Lemma opcode_unknown op : 235 <= op -> dxbc_opcode_is_known op = false.
Proof. intros. unfold dxbc_opcode_is_known. by rewrite (proj2 (Z.leb_gt _ _)) by lia. Qed.

Lemma opcode_named known name :
  eqb known (negb (String.eqb name "UNKNOWN_OP")) = true ->
  (known = true <-> name <> "UNKNOWN_OP").
Proof. destruct (String.eqb_spec name "UNKNOWN_OP") as [->|]; destruct known; done. Qed.

Lemma opcode_known_iff op :
  in_u32 op -> dxbc_opcode_is_known op = true <-> dxbc_opcode_name op <> "UNKNOWN_OP".
Proof.
  intros Hop. unfold in_u32 in Hop. destruct (Z.lt_ge_cases op 235).
  - apply opcode_named.
    apply (below_forall (fun op => eqb (dxbc_opcode_is_known op)
      (negb (String.eqb (dxbc_opcode_name op) "UNKNOWN_OP"))) 235); [|lia].
    vm_compute. reflexivity.
  - rewrite opcode_unknown, opcode_beyond by lia. done.
Qed.

Lemma declaration_opcodes op :
  in_u32 op ->
  dxbc_opcode_is_declaration op = declaration_name (dxbc_opcode_name op) /\
  (dxbc_opcode_is_declaration op = true -> dxbc_opcode_is_known op = true).
Proof.
  intros Hop. unfold in_u32 in Hop.
  set (test op := eqb (dxbc_opcode_is_declaration op) (declaration_name (dxbc_opcode_name op)) &&
                  implb (dxbc_opcode_is_declaration op) (dxbc_opcode_is_known op)).
  destruct (Z.lt_ge_cases op 235) as [|Hge].
  - assert (Hall : test op = true) by (apply (below_forall test 235); [vm_compute; reflexivity|lia]).
    apply andb_true_iff in Hall as [Heq Himp]. apply eqb_prop in Heq.
    split; [done|]. intros Hd. by rewrite Hd in Himp.
  - rewrite opcode_beyond by lia.
    assert (dxbc_opcode_is_declaration op = false) as ->; [|done].
    unfold dxbc_opcode_is_declaration. lia.
Qed.

(** The opcode tables agree.  Exactly the known opcodes, the reserved holes
    excluded, have a name; a name belongs to one opcode only; and the declaration
    opcodes are exactly the known ones whose name is a declaration's, [DCL_*] or
    [HS_DECLS]. *)
Theorem dxbc_opcode_tables_agree op :
  in_u32 op ->
  (dxbc_opcode_is_known op = true <-> dxbc_opcode_name op <> "UNKNOWN_OP") /\
  (dxbc_opcode_is_known op = true ->
   forall op', dxbc_opcode_name op' = dxbc_opcode_name op -> op' = op) /\
  (dxbc_opcode_is_declaration op = true <->
   dxbc_opcode_is_known op = true /\ declaration_name (dxbc_opcode_name op) = true).
Proof.
  intros Hop. pose proof (opcode_known_iff op Hop) as Hk.
  destruct (declaration_opcodes op Hop) as [Hd Hdk].
  split; [done|]. split.
  - intros Hknown op' Heq. symmetry.
    eapply switch_inj; [|by apply Hk|symmetry; exact Heq].
    apply (bool_decide_unpack _). vm_compute. exact I.
  - rewrite <- Hd. tauto.
Qed.

Lemma dxbc_opcode_tables_agree_witness :
  in_u32 53 /\ (dxbc_opcode_is_declaration 53 = true -> dxbc_opcode_is_known 53 = true).
Proof.
  assert (H : in_u32 53) by (unfold in_u32; lia).
  split; [exact H|]. intros Hd.
  destruct (dxbc_opcode_tables_agree 53 H) as (_ & _ & Hiff). exact (proj1 (proj1 Hiff Hd)).
Defined.
