(* ===== verification/Heap.v ===== *)
(** Owned memory: the blocks [mem_alloc] returns and [mem_free] takes back.

    The store is explicit where the code hands a block from one owner to
    another: an address holds the bytes of a live block, and freeing what is
    not live, or with another size than the block's, is undefined. *)

From stdpp Require Import gmap.
From S2P Require Import Prelude UnityCommon.

Abbreviation addr := positive.
Abbreviation heap := (gmap addr (list byte)).

(** [malloc], [calloc] and [realloc] of the C library: whether a request for so
    many bytes is granted. *)
Class LibcMalloc := libc_malloc : Z -> bool.

(** Some such request was refused. *)
Definition malloc_failed `{LibcMalloc} : Prop := exists n, libc_malloc n = false.

(** What a fresh block holds before it is written. *)
Class FreshMemory := fresh_memory : nat -> byte.

Definition fresh_block `{FreshMemory} (n : Z) : list byte := fresh_memory <$> seq 0 (Z.to_nat n).

(** [mem_alloc(n)]: NULL, or a new block. *)
Definition heap_alloc `{UnityCommon, FreshMemory} (h : heap) (n : Z) : option (addr * heap) :=
  if mem_alloc n then let p := fresh (dom h) in Some (p, <[p := fresh_block n]> h) else None.

(** [mem_free(p, n)] *)
Definition heap_free {E} (h : heap) (p : addr) (n : Z) : res E heap :=
  match h !! p with
  | Some block => if size block =? n then Ret (delete p h) else Undef
  | None => Undef
  end.

(** The block behind a pointer. *)
Definition deref {E} (h : heap) (p : addr) : res E (list byte) :=
  match h !! p with Some block => Ret block | None => Undef end.

(** [memcpy(p + off, bytes, length bytes)] *)
Definition store {E} (h : heap) (p : addr) (off : Z) (bytes : list byte) : res E heap :=
  block ← deref h p;
  block ← blit block off bytes;
  Ret (<[p := block]> h).

Section heap.
Context `{U : UnityCommon, M : FreshMemory} {E : Type}.
Implicit Types h : heap.

Lemma size_fresh_block n : 0 <= n -> size (fresh_block n) = n.
Proof. intros. unfold size, fresh_block. rewrite length_fmap, length_seq. lia. Qed.

Lemma heap_alloc_spec h n :
  0 <= n ->
  match heap_alloc h n with
  | Some (p, h') => h !! p = None /\ exists block, size block = n /\ h' = <[p := block]> h
  | None => memory_failed
  end.
Proof.
  intros Hn. unfold heap_alloc. destruct (mem_alloc n) eqn:Hm.
  - split.
    + apply not_elem_of_dom, is_fresh.
    + exists (fresh_block n). by rewrite size_fresh_block.
  - left. eauto.
Qed.

Lemma heap_free_ok h p block :
  h !! p = Some block -> heap_free (E:=E) h p (size block) = Ret (delete p h).
Proof. intros Hp. unfold heap_free. by rewrite Hp, Z.eqb_refl. Qed.

Lemma deref_ok h p block : h !! p = Some block -> deref (E:=E) h p = Ret block.
Proof. intros Hp. unfold deref. by rewrite Hp. Qed.

(** Overwriting a whole new block. *)
Lemma store_all h p block bytes :
  size block = size bytes -> store (E:=E) (<[p := block]> h) p 0 bytes = Ret (<[p := bytes]> h).
Proof.
  intros Hs. unfold store. rewrite (deref_ok _ p block) by apply lookup_insert_eq. mstep.
  rewrite blit_ok by lia. mstep. rewrite insert_insert_eq. f_equal. f_equal.
  cbn [Z.to_nat take app Nat.add]. unfold size in Hs.
  rewrite drop_ge by lia. apply app_nil_r.
Qed.
End heap.
