(* ===== verification/ByteStream.v ===== *)
(** The byte stream of the UnityCommon submodule, as the DXBC parser uses it.

    Its sources are not in the repository: [ByteStreamOps] collects the
    operations and the structure members the code touches, [ByteStreamSpec]
    states their documented behaviour for a little-endian stream. *)

From S2P Require Import Prelude.

Class ByteStreamOps := {
  ByteStream : Type;
  stream_init : list byte -> ByteStream;
  stream_set_endian : ByteStream -> bool -> ByteStream;
  (** [stream->data] with [stream->size], and [stream->position] *)
  stream_data : ByteStream -> list byte;
  stream_position : ByteStream -> Z;
  stream_seek : ByteStream -> Z -> ByteStream;
  stream_big_endian : ByteStream -> bool;
  (** NULL result: the read failed *)
  stream_read_uint32 : ByteStream -> option (Z * ByteStream);
  stream_read_bytes : ByteStream -> Z -> option (list byte * ByteStream);
}.

Class ByteStreamSpec (S : ByteStreamOps) : Prop := {
  stream_init_data bs : stream_data (stream_init bs) = bs;
  stream_init_position bs : stream_position (stream_init bs) = 0;
  stream_endian_data s b : stream_data (stream_set_endian s b) = stream_data s;
  stream_endian_position s b : stream_position (stream_set_endian s b) = stream_position s;
  stream_endian_big s b : stream_big_endian (stream_set_endian s b) = b;
  stream_seek_data s p : stream_data (stream_seek s p) = stream_data s;
  stream_seek_position s p : stream_position (stream_seek s p) = p;
  stream_seek_big s p : stream_big_endian (stream_seek s p) = stream_big_endian s;
  (** a word of the remaining bytes, or failure *)
  stream_read_uint32_spec s :
    stream_big_endian s = false -> 0 <= stream_position s ->
    stream_read_uint32 s =
      if stream_position s + 4 <=? size (stream_data s)
      then Some (le_val (slice (stream_data s) (stream_position s) 4),
                 stream_seek s (stream_position s + 4))
      else None;
  stream_read_bytes_spec s n :
    0 <= stream_position s -> 0 <= n ->
    stream_read_bytes s n =
      if stream_position s + n <=? size (stream_data s)
      then Some (slice (stream_data s) (stream_position s) n,
                 stream_seek s (stream_position s + n))
      else None;
}.

(** A concrete stream, used by the witnesses. *)
Record ref_stream := { ref_data : list byte; ref_position : Z; ref_big : bool }.

Definition byte_stream_ref : ByteStreamOps := {|
  ByteStream := ref_stream;
  stream_init bs := {| ref_data := bs; ref_position := 0; ref_big := true |};
  stream_set_endian s b := {| ref_data := ref_data s; ref_position := ref_position s; ref_big := b |};
  stream_data := ref_data;
  stream_position := ref_position;
  stream_seek s p := {| ref_data := ref_data s; ref_position := p; ref_big := ref_big s |};
  stream_big_endian := ref_big;
  stream_read_uint32 s :=
    if ref_position s + 4 <=? size (ref_data s) then
      let w := slice (ref_data s) (ref_position s) 4 in
      Some (le_val (if ref_big s then rev w else w),
            {| ref_data := ref_data s; ref_position := ref_position s + 4; ref_big := ref_big s |})
    else None;
  stream_read_bytes s n :=
    if ref_position s + n <=? size (ref_data s) then
      Some (slice (ref_data s) (ref_position s) n,
            {| ref_data := ref_data s; ref_position := ref_position s + n; ref_big := ref_big s |})
    else None;
|}.

Lemma byte_stream_ref_spec : ByteStreamSpec byte_stream_ref.
Proof. split; try done. intros s Hs _. cbn in *. by rewrite Hs. Qed.

(** A read whose failure makes the caller return false. *)
Definition read_uint32 `{ByteStreamOps} {E} (s : ByteStream) (e : E) : res E (Z * ByteStream) :=
  match stream_read_uint32 s with Some r => Ret r | None => Fail e end.

Section streams.
Context `{S : ByteStreamOps} {HS : ByteStreamSpec S} {E : Type}.

Lemma outcome_read_uint32 s e (Q : Z * ByteStream -> Prop) (F : E -> Prop) :
  stream_big_endian s = false -> 0 <= stream_position s ->
  (let p := stream_position s in
   p + 4 <= size (stream_data s) -> in_u32 (le_val (slice (stream_data s) p 4)) ->
   Q (le_val (slice (stream_data s) p 4), stream_seek s (p + 4))) ->
  (size (stream_data s) < stream_position s + 4 -> F e) ->
  outcome (read_uint32 s e) Q F.
Proof.
  intros Hb Hp HQ HF. unfold read_uint32. rewrite stream_read_uint32_spec by done.
  destruct (Z.leb_spec (stream_position s + 4) (size (stream_data s))).
  - apply HQ; [done|]. apply le32_range; lia.
  - by apply HF.
Qed.
End streams.
