(* ===== verification/Signature.v ===== *)
(** Signature tables of the semantic parser: the data of
    [include/dxbc/dxbc_parser.h] and the signature part of
    [src/dxbc/dxbc_parser.c], the operations. *)

From stdpp Require Import gmap.
From S2P Require Import Prelude UnityCommon Heap ByteStream.

(** * Data *)

(** [DXBCSignatureRole]: an enumeration argument may hold any integer. *)
Definition DXBC_SIGNATURE_ROLE_INPUT : Z := 0.
Definition DXBC_SIGNATURE_ROLE_OUTPUT : Z := 1.
Definition DXBC_SIGNATURE_ROLE_PATCH_CONSTANT : Z := 2.

(** [semantic_name] is the inline buffer of 64 bytes; a longer name is in an
    owned block. *)
Record DXBCSignatureElement := {
  el_semantic_name : list byte;
  el_semantic_name_extended : option addr;
  el_semantic_name_length : Z;
  el_stream_index : Z;
  el_semantic_index : Z;
  el_system_value : Z;
  el_component_type : Z;
  el_register_id : Z;
  el_min_precision : Z;
  el_interpolation_mode : Z;
  el_mask : Z;
  el_rw_mask : Z;
}.

#[export] Instance eta_DXBCSignatureElement : Eta DXBCSignatureElement := fun e =>
  {| el_semantic_name := el_semantic_name e;
     el_semantic_name_extended := el_semantic_name_extended e;
     el_semantic_name_length := el_semantic_name_length e;
     el_stream_index := el_stream_index e; el_semantic_index := el_semantic_index e;
     el_system_value := el_system_value e; el_component_type := el_component_type e;
     el_register_id := el_register_id e; el_min_precision := el_min_precision e;
     el_interpolation_mode := el_interpolation_mode e; el_mask := el_mask e;
     el_rw_mask := el_rw_mask e |}.
#[export] Instance set_el_semantic_name : Setter el_semantic_name. Proof. derive_setter. Defined.
#[export] Instance set_el_extended : Setter el_semantic_name_extended. Proof. derive_setter. Defined.
#[export] Instance set_el_length : Setter el_semantic_name_length. Proof. derive_setter. Defined.

Definition SEMANTIC_NAME_SIZE : Z := 64.
Definition SIGNATURE_ELEMENT_SIZE : Z := 112.

(** [memset(element, 0, sizeof( *element))] *)
Definition zero_element : DXBCSignatureElement :=
  {| el_semantic_name := replicate 64 Byte.x00; el_semantic_name_extended := None;
     el_semantic_name_length := 0; el_stream_index := 0; el_semantic_index := 0;
     el_system_value := 0; el_component_type := 0; el_register_id := 0; el_min_precision := 0;
     el_interpolation_mode := 0; el_mask := 0; el_rw_mask := 0 |}.

(** * Strings

    A [const char*] is the bytes that can be read from it, [None] for NULL;
    reading past them is undefined. *)

Definition c_literal (s : string) : list byte := String.list_byte_of_string s ++ [Byte.x00].

Definition ascii_lower (value : Z) : Z :=
  if (0x41 <=? value) && (value <=? 0x5a) then u8 (value + (0x61 - 0x41)) else value.

Section strings.
Context {E : Type}.

(** The loop of [semantic_equals_ascii_case_insensitive]. *)
Fixpoint same_letters (semantic expected : list byte) : res E bool :=
  match semantic, expected with
  | s :: semantic, e :: expected =>
      if negb (byte_val s =? 0) && negb (byte_val e =? 0) then
        if negb (ascii_lower (byte_val s) =? ascii_lower (byte_val e)) then Ret false
        else same_letters semantic expected
      else Ret ((byte_val s =? 0) && (byte_val e =? 0))
  | _, _ => Undef
  end.

Definition semantic_equals_ascii_case_insensitive (semantic expected : option (list byte))
    : res E bool :=
  match semantic, expected with
  | Some semantic, Some expected => same_letters semantic expected
  | _, _ => Ret false
  end.

Definition letter_or_underscore (value : Z) : bool :=
  ((0x41 <=? value) && (value <=? 0x5a)) || ((0x61 <=? value) && (value <=? 0x7a)) ||
  (value =? 0x5f).

Definition identifier_character (value : Z) : bool :=
  ((0x41 <=? value) && (value <=? 0x5a)) || ((0x61 <=? value) && (value <=? 0x7a)) ||
  ((0x30 <=? value) && (value <=? 0x39)) || (value =? 0x5f).

(** The loop of [semantic_is_hlsl_identifier], from [semantic + index]. *)
Fixpoint identifier_rest (semantic : list byte) : res E bool :=
  match semantic with
  | [] => Undef
  | c :: semantic =>
      if byte_val c =? 0 then Ret true
      else if negb (identifier_character (byte_val c)) then Ret false
      else identifier_rest semantic
  end.

Definition semantic_is_hlsl_identifier (semantic : option (list byte)) : res E bool :=
  match semantic with
  | None => Ret false
  | Some semantic =>
      first ← load8 semantic 0;
      if first =? 0 then Ret false
      else if negb (letter_or_underscore first) then Ret false
      else identifier_rest (drop 1 semantic)
  end.

(** A loop that returns as soon as a test succeeds. *)
Fixpoint any_of {A} (test : A -> res E bool) (xs : list A) : res E bool :=
  match xs with
  | [] => Ret false
  | x :: xs => hit ← test x; if hit : bool then Ret true else any_of test xs
  end.
End strings.

(** [memchr(bs, c, length bs)]: the offset of the first [c]. *)
Fixpoint memchr (bs : list byte) (c : byte) : option Z :=
  match bs with
  | [] => None
  | b :: bs => if bool_decide (b = c) then Some 0 else Z.succ <$> memchr bs c
  end.

(** * Tables *)

Definition range_within (offset length size : Z) : bool :=
  (offset <=? size) && (length <=? u64 (size - offset)).

(** [strcmp] of the four characters of a chunk name with a literal. *)
Definition name_is (chunk_name : list byte) (name : string) : bool :=
  bytes_eqb chunk_name (String.list_byte_of_string name).

Definition signature_is_streamed (chunk_name : list byte) : bool :=
  name_is chunk_name "ISG1" || name_is chunk_name "OSG1" ||
  name_is chunk_name "OSG5" || name_is chunk_name "PSG1".

Definition signature_has_min_precision (chunk_name : list byte) : bool :=
  name_is chunk_name "ISG1" || name_is chunk_name "OSG1" || name_is chunk_name "PSG1".

Definition signature_role_for_chunk (chunk_name : list byte) : Z :=
  if name_is chunk_name "ISGN" || name_is chunk_name "ISG1" then DXBC_SIGNATURE_ROLE_INPUT
  else if name_is chunk_name "PCSG" || name_is chunk_name "PSG1"
  then DXBC_SIGNATURE_ROLE_PATCH_CONSTANT
  else DXBC_SIGNATURE_ROLE_OUTPUT.

Definition signature_min_precision_is_valid (value : Z) : bool :=
  (value =? 0) || (value =? 1) || (value =? 2) || (value =? 4) || (value =? 5) ||
  (value =? 0xf0) || (value =? 0xf1).

Definition signature_system_value_is_valid (value : Z) : bool :=
  switch value
    [(0, true); (1, true); (2, true); (3, true); (4, true); (5, true); (6, true); (7, true);
     (8, true); (9, true); (10, true); (11, true); (12, true); (13, true); (14, true);
     (15, true); (16, true); (23, true); (24, true); (25, true); (64, true); (65, true);
     (66, true); (67, true); (68, true); (69, true); (70, true)] false.

Definition signature_system_semantic (value : Z) : option string :=
  switch value
    [(1, Some "SV_Position"); (2, Some "SV_ClipDistance"); (3, Some "SV_CullDistance");
     (4, Some "SV_RenderTargetArrayIndex"); (5, Some "SV_ViewportArrayIndex");
     (6, Some "SV_VertexID"); (7, Some "SV_PrimitiveID"); (8, Some "SV_InstanceID");
     (9, Some "SV_IsFrontFace"); (10, Some "SV_SampleIndex"); (11, Some "SV_TessFactor");
     (13, Some "SV_TessFactor"); (15, Some "SV_TessFactor"); (16, Some "SV_TessFactor");
     (12, Some "SV_InsideTessFactor"); (14, Some "SV_InsideTessFactor");
     (23, Some "SV_Barycentrics"); (24, Some "SV_ShadingRate"); (25, Some "SV_CullPrimitive");
     (64, Some "SV_Target"); (65, Some "SV_Depth"); (66, Some "SV_Coverage");
     (67, Some "SV_DepthGreaterEqual"); (68, Some "SV_DepthLessEqual");
     (69, Some "SV_StencilRef"); (70, Some "SV_InnerCoverage")] None.

Definition passthrough_system_values : list Z := [6; 7; 8; 9].

Definition implicit_output_system_semantics : list string :=
  ["SV_Target"; "SV_Depth"; "SV_Coverage"; "SV_DepthGreaterEqual"; "SV_DepthLessEqual";
   "SV_StencilRef"; "SV_InnerCoverage"].

Definition signature_semantic_is_passthrough_system_value {E} (semantic : option (list byte))
    : res E bool :=
  any_of (fun value => semantic_equals_ascii_case_insensitive semantic
                         (c_literal <$> signature_system_semantic value))
    passthrough_system_values.

(** * Arrays *)


(** [reserve_array]: the new capacity.  [is_null] is [*array == NULL]; the
    addresses [array] and [allocation] are never NULL.  The doubling takes at
    most 31 rounds. *)
Definition reserve_array `{UnityCommon} (is_null : bool) (allocation required element_size : Z)
    : res unit Z :=
  if (allocation <? 0) || (required <? 0) || negb (eqb (allocation =? 0) is_null) then Fail tt
  else if required <=? allocation then Ret allocation else
  new_allocation ← while 31 (fun n => n <? required)
    (fun n => Ret (if INT_MAX / 2 <? n then required else n * 2))
    (if allocation =? 0 then 16 else allocation);
  if dxbc_size_multiply_overflows new_allocation element_size ||
     dxbc_size_multiply_overflows allocation element_size then Fail tt
  else
  let old_size := u64 (allocation * element_size) in
  let new_size := u64 (new_allocation * element_size) in
  if mem_realloc old_size new_size then Ret new_allocation else Fail tt.

(** * Elements

    The heap holds the names too long for the inline buffer. *)

Section elements.
Context `{U : UnityCommon, M : FreshMemory}.
Context {E : Type}.

(** [dxbc_signature_semantic_name], as the bytes behind the pointer. *)
Definition dxbc_signature_semantic_name (h : heap) (element : option DXBCSignatureElement)
    : res E (option (list byte)) :=
  match element with
  | None => Ret None
  | Some el =>
      match el_semantic_name_extended el with
      | Some p => block ← deref h p; Ret (Some block)
      | None => Ret (Some (el_semantic_name el))
      end
  end.

Definition dxbc_signature_element_free (h : heap) (element : option DXBCSignatureElement)
    : res E (heap * option DXBCSignatureElement) :=
  match element with
  | None => Ret (h, None)
  | Some el =>
      h ← match el_semantic_name_extended el with
          | Some p => heap_free h p (u64 (el_semantic_name_length el + 1))
          | None => Ret h
          end;
      Ret (h, Some zero_element)
  end.

(** The tests of [dxbc_signature_element_is_valid] on the fields. *)
Definition element_fields_valid (el : DXBCSignatureElement) (role : Z) : bool :=
  negb ((role <? DXBC_SIGNATURE_ROLE_INPUT) || (DXBC_SIGNATURE_ROLE_PATCH_CONSTANT <? role) ||
        (el_component_type el <? 1) || (3 <? el_component_type el) ||
        (el_mask el =? 0) || negb (Z.land (el_mask el) 0xf0 =? 0) ||
        negb (Z.land (el_rw_mask el) 0xf0 =? 0) || (3 <? el_stream_index el) ||
        (7 <? el_interpolation_mode el) ||
        negb (signature_min_precision_is_valid (el_min_precision el)) ||
        negb (signature_system_value_is_valid (el_system_value el))) &&
  negb ((role =? DXBC_SIGNATURE_ROLE_INPUT) &&
        (negb (Z.land (el_rw_mask el) (u8 (Z.lnot (el_mask el))) =? 0) ||
         negb (el_stream_index el =? 0))) &&
  negb (negb (role =? DXBC_SIGNATURE_ROLE_INPUT) && negb (el_interpolation_mode el =? 0)).

(** The terminator of the name where its storage has it. *)
Definition element_name_terminated (el : DXBCSignatureElement) (semantic : list byte) : res E bool :=
  match el_semantic_name_extended el with
  | Some _ =>
      if el_semantic_name_length el =? SIZE_MAX then Ret false else
      terminator ← load8 semantic (el_semantic_name_length el);
      if negb (terminator =? 0) then Ret false else
      text ← view semantic 0 (el_semantic_name_length el);
      Ret (negb (bool_decide (is_Some (memchr text Byte.x00))))
  | None =>
      text ← view (el_semantic_name el) 0 SEMANTIC_NAME_SIZE;
      Ret (bool_decide (is_Some (memchr text Byte.x00)))
  end.

(** [semantic] does not start with [SV_] in any case of the letters. *)
Definition outside_reserved_names (semantic : list byte) : res E bool :=
  c0 ← load8 semantic 0;
  if negb (ascii_lower c0 =? 0x73) then Ret true else
  c1 ← load8 semantic 1;
  if negb (ascii_lower c1 =? 0x76) then Ret true else
  c2 ← load8 semantic 2;
  Ret (negb (c2 =? 0x5f)).

(** Whether the semantic may stand with the system value. *)
Definition semantic_matches (semantic : list byte) (system_value role : Z) : res E bool :=
  match signature_system_semantic system_value with
  | Some expected => semantic_equals_ascii_case_insensitive (Some semantic) (Some (c_literal expected))
  | None =>
      passthrough ← signature_semantic_is_passthrough_system_value (Some semantic);
      if passthrough : bool then Ret true else
      implicit ← any_of (fun name =>
          semantic_equals_ascii_case_insensitive (Some semantic) (Some (c_literal name)))
        implicit_output_system_semantics;
      if implicit : bool then Ret (negb (role =? DXBC_SIGNATURE_ROLE_INPUT))
      else outside_reserved_names semantic
  end.

Definition dxbc_signature_element_is_valid (h : heap) (element : option DXBCSignatureElement)
    (role : Z) : res E bool :=
  match element with
  | None => Ret false
  | Some el =>
      if negb (element_fields_valid el role) then Ret false else
      semantic ← dxbc_signature_semantic_name h element;
      match semantic with
      | None => Ret false
      | Some semantic =>
          identifier ← semantic_is_hlsl_identifier (Some semantic);
          if negb identifier then Ret false else
          terminated ← element_name_terminated el semantic;
          if negb terminated then Ret false else
          semantic_matches semantic (el_system_value el) role
      end
  end.

(** [dxbc_signature_element_clone]: the result, the heap and the destination;
    [aliased] is [destination == source]. *)
Definition dxbc_signature_element_clone (h : heap)
    (destination source : option DXBCSignatureElement) (aliased : bool)
    : res E (bool * heap * option DXBCSignatureElement) :=
  match destination, source with
  | Some _, Some source =>
      if aliased then Ret (false, h, destination) else
      let destination := source <| el_semantic_name_extended := None |> in
      match el_semantic_name_extended source with
      | None => Ret (true, h, Some destination)
      | Some p =>
          let length := el_semantic_name_length source in
          if length =? SIZE_MAX then Ret (false, h, Some zero_element) else
          name ← deref h p;
          terminator ← load8 name length;
          if negb (terminator =? 0) then Ret (false, h, Some zero_element) else
          match heap_alloc h (u64 (length + 1)) with
          | None => Ret (false, h, Some zero_element)
          | Some (q, h) =>
              bytes ← view name 0 (u64 (length + 1));
              h ← store h q 0 bytes;
              Ret (true, h, Some (destination <| el_semantic_name_extended := Some q |>))
          end
      end
  | _, _ => Ret (false, h, destination)
  end.

(** [set_signature_semantic_name] on an element and a name of which [length]
    bytes are used; both pointers come from their caller, never NULL. *)
Definition set_signature_semantic_name (h : heap) (el : DXBCSignatureElement)
    (name : list byte) (length : Z) : res E (bool * heap * DXBCSignatureElement) :=
  if length =? SIZE_MAX then Ret (false, h, el) else
  let el := el <| el_semantic_name_length := length |> in
  text ← view name 0 length;
  if length <? SEMANTIC_NAME_SIZE then
    buffer ← blit (el_semantic_name el) 0 text;
    buffer ← blit buffer length [Byte.x00];
    Ret (true, h, el <| el_semantic_name := buffer |>)
  else
    match heap_alloc h (u64 (length + 1)) with
    | None => Ret (false, h, el)
    | Some (p, h) =>
        h ← store h p 0 text;
        h ← store h p length [Byte.x00];
        Ret (true, h, el <| el_semantic_name_extended := Some p |>)
    end.

(** [free_signature_list_elements]: the heap and the array. *)
Definition free_signature_list_elements (h : heap) (elements : option (list DXBCSignatureElement))
    (count : Z) : res E (heap * option (list DXBCSignatureElement)) :=
  match elements with
  | None => Ret (h, None)
  | Some els =>
      if count <=? 0 then Ret (h, Some els) else
      st ← for_loop (Z.to_nat count) 0 (fun index '(h, els) =>
             match els !! Z.to_nat index with
             | None => Undef
             | Some el =>
                 '(h, freed) ← dxbc_signature_element_free h (Some el);
                 Ret (h, <[Z.to_nat index := default el freed]> els)
             end) (h, els);
      Ret (st.1, Some st.2)
  end.
End elements.

(** * Parsing *)

(** [( *list, *count, *allocation)]: an array of which the first [count]
    elements are initialised. *)
Record signature_list := {
  sl_elements : option (list DXBCSignatureElement);
  sl_count : Z;
  sl_allocation : Z;
}.

Definition empty_signature_list : signature_list :=
  {| sl_elements := None; sl_count := 0; sl_allocation := 0 |}.

(** What [parse_signature] changes and its caller keeps, also when it fails. *)
Record signature_state := { ss_heap : heap; ss_list : signature_list }.

Section parse.
Context `{U : UnityCommon, M : FreshMemory, S : ByteStreamOps}.

(** [el = &( *list)[ *count]; ...; ++( *count)] *)
Definition append_element {E} (l : signature_list) (el : DXBCSignatureElement)
    : res E signature_list :=
  match sl_elements l with
  | Some els =>
      if (0 <=? sl_count l) && (sl_count l <? sl_allocation l) then
        Ret {| sl_elements := Some (take (Z.to_nat (sl_count l)) els ++ [el]);
               sl_count := sl_count l + 1; sl_allocation := sl_allocation l |}
      else Undef
  | None => Undef
  end.

(** One iteration of the element loop. *)
Definition parse_signature_element (chunk_start chunk_end : Z) (chunk_name : list byte)
    (st : ByteStream * signature_state)
    : res signature_state (ByteStream * signature_state) :=
  let '(stream, st) := st in
  let h := ss_heap st in
  let has_stream := signature_is_streamed chunk_name in
  let has_min_precision := signature_has_min_precision chunk_name in
  let role := signature_role_for_chunk chunk_name in
  '(stream_index, stream) ← (if has_stream then read_uint32 stream st else Ret (0, stream));
  '(name_offset, stream) ← read_uint32 stream st;
  '(semantic_index, stream) ← read_uint32 stream st;
  '(system_value, stream) ← read_uint32 stream st;
  '(component_type, stream) ← read_uint32 stream st;
  '(register_id, stream) ← read_uint32 stream st;
  '(mask_token, stream) ← read_uint32 stream st;
  '(min_precision, stream) ← (if has_min_precision then read_uint32 stream st else Ret (0, stream));
  if has_min_precision && negb (signature_min_precision_is_valid min_precision) then Fail st else
  if negb (Z.land mask_token 0xffff0000 =? 0) || (u64 (chunk_end - chunk_start) <=? name_offset)
  then Fail st else
  let el :=
    {| el_semantic_name := el_semantic_name zero_element;
       el_semantic_name_extended := el_semantic_name_extended zero_element;
       el_semantic_name_length := el_semantic_name_length zero_element;
       el_stream_index := stream_index; el_semantic_index := semantic_index;
       el_system_value := system_value; el_component_type := component_type;
       el_register_id := register_id; el_min_precision := min_precision;
       el_interpolation_mode := el_interpolation_mode zero_element;
       el_mask := u8 (Z.land mask_token 0xff);
       el_rw_mask := u8 (Z.land (Z.shiftr mask_token 8) 0xff) |} in
  let available := u64 (chunk_end - u64 (chunk_start + name_offset)) in
  name ← view (stream_data stream) (u64 (chunk_start + name_offset)) available;
  match memchr name Byte.x00 with
  | None => Fail st
  | Some length =>
      '(ok, h, el) ← set_signature_semantic_name h el name length;
      if negb (ok : bool) then Fail {| ss_heap := h; ss_list := ss_list st |} else
      valid ← dxbc_signature_element_is_valid h (Some el) role;
      if negb (valid : bool) then
        '(h, _) ← dxbc_signature_element_free h (Some el);
        Fail {| ss_heap := h; ss_list := ss_list st |}
      else
        l ← append_element (ss_list st) el;
        Ret (stream, {| ss_heap := h; ss_list := l |})
  end.

Definition parse_signature (stream : ByteStream) (chunk_start chunk_end : Z)
    (chunk_name : list byte) (st : signature_state)
    : res signature_state (ByteStream * signature_state) :=
  let element_size :=
    (if signature_is_streamed chunk_name then 4 else 0) + 24 +
    (if signature_has_min_precision chunk_name then 4 else 0) in
  let l := ss_list st in
  '(element_count, stream) ← read_uint32 stream st;
  '(parameter_offset, stream) ← read_uint32 stream st;
  if (chunk_end <? stream_position stream) ||
     (sl_count l <? 0) || (sl_allocation l <? sl_count l) ||
     ((0 <? sl_allocation l) && negb (bool_decide (is_Some (sl_elements l)))) ||
     (u64 (chunk_end - chunk_start) <? parameter_offset) ||
     (u64 (chunk_start + parameter_offset) <? stream_position stream) ||
     (u64 (chunk_end - u64 (chunk_start + parameter_offset)) / element_size <? element_count) ||
     (u32 (INT_MAX - sl_count l) <? element_count)
  then Fail st else
  allocation ← or_fail (reserve_array (negb (bool_decide (is_Some (sl_elements l))))
                          (sl_allocation l) (sl_count l + element_count) SIGNATURE_ELEMENT_SIZE) st;
  let l :=
    if bool_decide (sl_allocation l = allocation) then l
    else {| sl_elements := Some (default [] (sl_elements l)); sl_count := sl_count l;
            sl_allocation := allocation |} in
  let stream := stream_seek stream (u64 (chunk_start + parameter_offset)) in
  for_loop (Z.to_nat element_count) 0
    (fun _ => parse_signature_element chunk_start chunk_end chunk_name)
    (stream, {| ss_heap := ss_heap st; ss_list := l |}).

(** [read_chunk_header]: the name, size, start and end of the chunk at [offset]. *)
Definition read_chunk_header (stream : ByteStream) (offset total_size : Z)
    : res unit (ByteStream * list byte * Z * Z * Z) :=
  if negb (Z.land offset 3 =? 0) || negb (range_within offset 8 total_size) then Fail tt else
  let stream := stream_seek stream offset in
  match stream_read_bytes stream 4 with
  | None => Fail tt
  | Some (name, stream) =>
      '(chunk_size, stream) ← read_uint32 stream tt;
      let chunk_start := stream_position stream in
      if negb (range_within chunk_start chunk_size total_size) then Fail tt
      else Ret (stream, name, chunk_size, chunk_start, u64 (chunk_start + chunk_size))
  end.
End parse.
