(* ===== verification/SignatureCorrect.v ===== *)
(** The signature parser of [src/dxbc/dxbc_parser.c] reads exactly the rows a
    table encodes, validates them, and owns every name it allocates. *)

From stdpp Require Import gmap.
From S2P Require Import Prelude UnityCommon Hash Document DocumentFormat Heap ByteStream.
From S2P Require Import Decoder Signature.

(** * Rows *)

(** A signature element without its storage. *)
Record signature_row := {
  row_semantic : list byte;
  row_stream_index : Z;
  row_semantic_index : Z;
  row_system_value : Z;
  row_component_type : Z;
  row_register_id : Z;
  row_min_precision : Z;
  row_interpolation_mode : Z;
  row_mask : Z;
  row_rw_mask : Z;
}.

Definition row_of (el : DXBCSignatureElement) (semantic : list byte) : signature_row :=
  {| row_semantic := semantic; row_stream_index := el_stream_index el;
     row_semantic_index := el_semantic_index el; row_system_value := el_system_value el;
     row_component_type := el_component_type el; row_register_id := el_register_id el;
     row_min_precision := el_min_precision el; row_interpolation_mode := el_interpolation_mode el;
     row_mask := el_mask el; row_rw_mask := el_rw_mask el |}.

(** Where the name of an element is stored. *)
Record named (h : heap) (el : DXBCSignatureElement) (semantic : list byte) : Prop := {
  named_length : el_semantic_name_length el = size semantic;
  named_short : size semantic < SIZE_MAX;
  named_text : Byte.x00 ∉ semantic;
  named_inline : size (el_semantic_name el) = 64;
  named_storage :
    match el_semantic_name_extended el with
    | None => c_string (el_semantic_name el) semantic
    | Some p => h !! p = Some (semantic ++ [Byte.x00])
    end;
}.

Definition lower (s : list byte) : list Z := (fun b => ascii_lower (byte_val b)) <$> s.

(** Equality up to the case of ASCII letters. *)
Definition same_name (s : list byte) (name : string) : Prop :=
  lower s = lower (String.list_byte_of_string name).

#[export] Instance same_name_decision s name : Decision (same_name s name).
Proof. unfold same_name. apply _. Defined.

Definition identifier (s : list byte) : Prop :=
  match s with
  | [] => False
  | c :: rest => letter_or_underscore (byte_val c) = true /\
                 Forall (fun c => identifier_character (byte_val c) = true) rest
  end.

Definition reserved_name (s : list byte) : Prop :=
  exists c0 c1 rest, s = c0 :: c1 :: Byte.x5f :: rest /\
    ascii_lower (byte_val c0) = 0x73 /\ ascii_lower (byte_val c1) = 0x76.

(** The semantics that may stand with a system value: its own name; without a
    system value, a pass-through name, the name of a special output in an output
    table, or a name outside the reserved space. *)
Definition semantic_allowed (role system_value : Z) (s : list byte) : Prop :=
  match signature_system_semantic system_value with
  | Some name => same_name s name
  | None =>
      (exists name, name ∈ ["SV_VertexID"; "SV_PrimitiveID"; "SV_InstanceID"; "SV_IsFrontFace"] /\
                    same_name s name) \/
      (role <> DXBC_SIGNATURE_ROLE_INPUT /\
       exists name, name ∈ implicit_output_system_semantics /\ same_name s name) \/
      ~ reserved_name s
  end.

(** The types of the fields. *)
Record typed_row (r : signature_row) : Prop := {
  typed_stream : in_u32 (row_stream_index r);
  typed_system_value : in_u32 (row_system_value r);
  typed_interpolation : in_u8 (row_interpolation_mode r);
  typed_mask : in_u8 (row_mask r);
  typed_rw_mask : in_u8 (row_rw_mask r);
}.

(** The fields of a row of a table of each role: lanes are the low four bits. *)
Record valid_fields (role : Z) (r : signature_row) : Prop := {
  row_role : role ∈ [DXBC_SIGNATURE_ROLE_INPUT; DXBC_SIGNATURE_ROLE_OUTPUT;
                     DXBC_SIGNATURE_ROLE_PATCH_CONSTANT];
  row_type_known : row_component_type r ∈ [1; 2; 3];
  row_mask_lanes : 0 < row_mask r < 16;
  row_rw_lanes : 0 <= row_rw_mask r < 16;
  row_stream_known : 0 <= row_stream_index r <= 3;
  row_interpolation_known : 0 <= row_interpolation_mode r <= 7;
  row_precision_known : row_min_precision r ∈ [0; 1; 2; 4; 5; 0xf0; 0xf1];
  row_system_known :
    (row_system_value r = 0) \/ is_Some (signature_system_semantic (row_system_value r));
  row_input : role = DXBC_SIGNATURE_ROLE_INPUT ->
    (forall lane, Z.testbit (row_rw_mask r) lane = true -> Z.testbit (row_mask r) lane = true) /\
    row_stream_index r = 0;
  row_other : role <> DXBC_SIGNATURE_ROLE_INPUT -> row_interpolation_mode r = 0;
}.

Record valid_row (role : Z) (r : signature_row) : Prop := {
  row_fields : valid_fields role r;
  row_identifier : identifier (row_semantic r);
  row_allowed : semantic_allowed role (row_system_value r) (row_semantic r);
}.

(** * Strings *)

Lemma lower_cons c s : lower (c :: s) = ascii_lower (byte_val c) :: lower s.
Proof. done. Qed.

Lemma byte_zero b : (byte_val b = 0) <-> b = Byte.x00.
Proof. split; [|by intros ->]. intros Hb. by apply (inj byte_val). Qed.

Lemma byte_test b : b <> Byte.x00 -> (byte_val b =? 0) = false.
Proof. intros. apply Z.eqb_neq. by rewrite byte_zero. Qed.

Section strings.
Context {E : Type}.

Lemma c_literal_string name :
  Byte.x00 ∉ String.list_byte_of_string name ->
  c_string (c_literal name) (String.list_byte_of_string name).
Proof. intros. exists []. done. Qed.

Lemma same_letters_spec b1 b2 s1 s2 :
  c_string b1 s1 -> c_string b2 s2 ->
  same_letters (E:=E) b1 b2 = Ret (bool_decide (lower s1 = lower s2)).
Proof.
  revert b2 s1 s2. induction b1 as [|c1 b1 IH]; intros [|c2 b2] s1 s2 H1 H2;
    try (by apply c_string_nil in H1); try (by apply c_string_nil in H2).
  apply c_string_cons in H1, H2. cbn [same_letters].
  destruct H1 as [[-> ->]|(s1' & -> & Hc1 & H1)], H2 as [[-> ->]|(s2' & -> & Hc2 & H2)]; [done| | |].
  { by rewrite (byte_test c2). }
  { by rewrite (byte_test c1). }
  rewrite (byte_test c1), (byte_test c2) by done. cbn [negb andb].
  rewrite !lower_cons.
  destruct (Z.eqb_spec (ascii_lower (byte_val c1)) (ascii_lower (byte_val c2))) as [He|Hne]; cbn [negb].
  - rewrite (IH _ _ _ H1 H2). f_equal. apply bool_decide_ext. rewrite He.
    split; [by intros ->|by intros [= ?]].
  - rewrite bool_decide_eq_false_2; [done|]. by intros [=].
Qed.

Lemma equals_spec b s name :
  c_string b s -> Byte.x00 ∉ String.list_byte_of_string name ->
  semantic_equals_ascii_case_insensitive (E:=E) (Some b) (Some (c_literal name)) =
    Ret (bool_decide (same_name s name)).
Proof. intros. cbn. by rewrite (same_letters_spec _ _ _ _ ltac:(done) (c_literal_string _ ltac:(done))). Qed.

Lemma identifier_rest_spec b s :
  c_string b s ->
  identifier_rest (E:=E) b = Ret (forallb (fun c => identifier_character (byte_val c)) s).
Proof.
  revert s. induction b as [|c b IH]; intros s Hs; [by apply c_string_nil in Hs|].
  apply c_string_cons in Hs as [[-> ->]|(s' & -> & Hc & Hs)]; [done|].
  cbn [identifier_rest forallb]. rewrite byte_test by done.
  destruct (identifier_character _); cbn [negb andb]; [by apply IH|done].
Qed.

Lemma is_hlsl_identifier_spec b s :
  c_string b s ->
  exists r, semantic_is_hlsl_identifier (E:=E) (Some b) = Ret r /\ (r = true <-> identifier s).
Proof.
  intros Hs. destruct b as [|c b]; [by apply c_string_nil in Hs|].
  unfold semantic_is_hlsl_identifier. rewrite (load8_ok _ 0 c) by done. mstep.
  apply c_string_cons in Hs as [[-> ->]|(s' & -> & Hc & Hs)]; [by exists false|].
  rewrite byte_test by done. destruct (letter_or_underscore _) eqn:Hl; cbn [negb identifier].
  - change (drop 1 (c :: b)) with b. rewrite (identifier_rest_spec _ _ Hs). eexists. split; [done|].
    rewrite forallb_forall, list.Forall_forall, Hl.
    setoid_rewrite list_elem_of_In. split; [done|]. by intros [_ ?].
  - exists false. split; [done|]. rewrite Hl. split; [done|]. by intros [].
Qed.

(** A loop over tests that are decided. *)
Lemma any_of_spec {A} (test : A -> res E bool) (P : A -> Prop) xs :
  (forall x, x ∈ xs -> exists b, test x = Ret b /\ (b = true <-> P x)) ->
  exists b, any_of test xs = Ret b /\ (b = true <-> exists x, x ∈ xs /\ P x).
Proof.
  induction xs as [|x xs IH]; intros Ht; cbn [any_of].
  { exists false. split; [done|]. split; [done|]. intros (y & Hy & _). by apply elem_of_nil in Hy. }
  destruct (Ht x) as (b & -> & Hb); [left|]. mstep. destruct b.
  { exists true. split; [done|]. split; [|done]. intros _. exists x. split; [left|]. by apply Hb. }
  destruct IH as (b & -> & Hb'); [intros; apply Ht; by right|].
  exists b. split; [done|]. rewrite Hb'. split.
  - intros (y & Hy & HP). exists y. split; [by right|done].
  - intros (y & [->|Hy]%elem_of_cons & HP); [by apply Hb in HP|eauto].
Qed.

Lemma memchr_spec bs c :
  match memchr bs c with
  | Some n => exists s rest, bs = s ++ c :: rest /\ (c ∉ s) /\ n = size s
  | None => c ∉ bs
  end.
Proof.
  induction bs as [|b bs IH]; cbn [memchr]; [apply not_elem_of_nil|].
  case_bool_decide as Hb.
  { subst. exists [], bs. split_and!; try done. apply not_elem_of_nil. }
  destruct (memchr bs c) as [n|]; cbn [fmap option_fmap option_map].
  - destruct IH as (s & rest & -> & Hs & ->). exists (b :: s), rest. split_and!; [done| |].
    + apply not_elem_of_cons. auto.
    + unfold size. cbn [length]. lia.
  - apply not_elem_of_cons. auto.
Qed.
End strings.

(** * Tables *)

Lemma literal_text name :
  forallb (fun b => negb (bool_decide (b = Byte.x00))) (String.list_byte_of_string name) = true ->
  Byte.x00 ∉ String.list_byte_of_string name.
Proof.
  rewrite forallb_forall. intros Hall Hin. apply list_elem_of_In, Hall in Hin.
  by rewrite bool_decide_eq_true_2 in Hin.
Qed.

(** The two tables of system values list the same ones. *)
Lemma system_value_known v :
  signature_system_value_is_valid v = true <->
  (v = 0) \/ is_Some (signature_system_semantic v).
Proof.
  unfold signature_system_value_is_valid. split.
  - apply (switch_ind (fun v b => b = true -> v = 0 \/ is_Some (signature_system_semantic v)));
      [|done].
    apply list.Forall_cons_2; [by left|].
    repeat (apply list.Forall_cons_2; [intros _; right; eexists; reflexivity|]).
    apply list.Forall_nil_2.
  - intros [->|Hs]; [done|]. revert Hs. unfold signature_system_semantic.
    apply (switch_ind (fun v o => is_Some o -> signature_system_value_is_valid v = true));
      [|by intros _ []].
    repeat (apply list.Forall_cons_2; [by intros _|]). apply list.Forall_nil_2.
Qed.

(** They are also those with a diagnostic name. *)
Lemma system_value_named v :
  signature_system_value_is_valid v = true -> v = 0 \/ dxbc_sys_value_name v <> "unknown_siv".
Proof.
  unfold signature_system_value_is_valid.
  apply (switch_ind (fun v b => b = true -> v = 0 \/ dxbc_sys_value_name v <> "unknown_siv")); [|done].
  apply list.Forall_cons_2; [by left|].
  repeat (apply list.Forall_cons_2; [intros _; right; cbn; discriminate|]).
  apply list.Forall_nil_2.
Qed.

Lemma system_semantic_text v name :
  signature_system_semantic v = Some name -> Byte.x00 ∉ String.list_byte_of_string name.
Proof.
  unfold signature_system_semantic.
  apply (switch_ind (fun _ o => o = Some name -> _)); [|done].
  repeat (apply list.Forall_cons_2; [intros [= <-]; by apply literal_text|]). apply list.Forall_nil_2.
Qed.

Lemma min_precision_known v :
  signature_min_precision_is_valid v = true <-> v ∈ [0; 1; 2; 4; 5; 0xf0; 0xf1].
Proof.
  unfold signature_min_precision_is_valid. rewrite !orb_true_iff, !Z.eqb_eq.
  rewrite !elem_of_cons, elem_of_nil. tauto.
Qed.

Lemma lanes_below_16 m : in_u8 m -> (Z.land m 0xf0 =? 0) = (m <? 16).
Proof.
  intros Hm. apply eqb_prop.
  apply (below_forall (fun m => eqb (Z.land m 0xf0 =? 0) (m <? 16)) 256); [|exact Hm].
  vm_compute. reflexivity.
Qed.

(** No lane of [a] outside [m]. *)
Lemma lanes_subset a m :
  in_u8 a -> in_u8 m ->
  (Z.land a (u8 (Z.lnot m)) = 0) <->
  (forall lane, Z.testbit a lane = true -> Z.testbit m lane = true).
Proof.
  intros Ha Hm. unfold in_u8 in *. unfold u8. rewrite <- Z.land_ones by lia. split.
  - intros H0 lane Hl.
    assert (Hpos : 0 <= lane) by (destruct lane; cbn in *; lia || done).
    assert (lane < 8).
    { destruct (Z.lt_ge_cases lane 8); [done|]. by rewrite (testbit_above a 8) in Hl. }
    apply (f_equal (fun x => Z.testbit x lane)) in H0. revert H0.
    rewrite !Z.land_spec, Z.bits_0, Z.lnot_spec, Hl, Z.ones_spec_low by lia.
    by destruct (Z.testbit m lane).
  - intros Hsub. apply Z.bits_inj'. intros lane Hl.
    rewrite !Z.land_spec, Z.bits_0, Z.lnot_spec by lia.
    destruct (Z.testbit a lane) eqn:Hb; [|done]. by rewrite (Hsub _ Hb).
Qed.

(** * Validation *)

Lemma ascii_lower_underscore c : 0 <= c < 256 -> ascii_lower c = 0x5f -> c = 0x5f.
Proof.
  intros Hc. assert (H : implb (ascii_lower c =? 0x5f) (c =? 0x5f) = true).
  { apply (below_forall (fun c => implb (ascii_lower c =? 0x5f) (c =? 0x5f)) 256); [|done].
    vm_compute. reflexivity. }
  intros Hl. rewrite Hl in H. cbn in H. by apply Z.eqb_eq in H.
Qed.

Lemma same_name_reserved s c0 c1 rest name :
  same_name s name -> String.list_byte_of_string name = c0 :: c1 :: Byte.x5f :: rest ->
  ascii_lower (byte_val c0) = 0x73 -> ascii_lower (byte_val c1) = 0x76 -> reserved_name s.
Proof.
  unfold same_name. intros Hs Hn H0 H1. rewrite Hn, !lower_cons in Hs.
  destruct s as [|d0 [|d1 [|d2 s]]]; try done. rewrite !lower_cons in Hs.
  injection Hs as Hd0 Hd1 Hd2 _. exists d0, d1, s. split; [|split; congruence].
  do 2 f_equal. f_equal. apply (inj byte_val).
  apply ascii_lower_underscore in Hd2; [exact Hd2|apply byte_val_range].
Qed.

Lemma implicit_names_reserved s name :
  name ∈ implicit_output_system_semantics -> same_name s name -> reserved_name s.
Proof.
  intros Hin Hs. unfold implicit_output_system_semantics in Hin. rewrite !elem_of_cons, elem_of_nil in Hin.
  destruct_or! Hin; subst; try done;
    (eapply same_name_reserved; [exact Hs|reflexivity|reflexivity|reflexivity]).
Qed.

Lemma element_fields_spec el role s :
  typed_row (row_of el s) ->
  element_fields_valid el role = true <-> valid_fields role (row_of el s).
Proof.
  intros [Hst Hsv Hi Hm Hr]. cbn in *. unfold element_fields_valid.
  unfold DXBC_SIGNATURE_ROLE_INPUT, DXBC_SIGNATURE_ROLE_PATCH_CONSTANT.
  rewrite !lanes_below_16 by done.
  rewrite !andb_true_iff, !negb_true_iff, !orb_false_iff, !negb_false_iff.
  rewrite !andb_false_iff, !orb_false_iff, !negb_false_iff.
  rewrite min_precision_known, system_value_known, !Z.ltb_ge, !Z.ltb_lt, !Z.eqb_neq, !Z.eqb_eq.
  rewrite lanes_subset by done. unfold in_u8, in_u32 in *. split.
  - intros [[((((((((((? & ?) & ?) & ?) & ?) & ?) & ?) & ?) & ?) & ?) & ?) Hin] Hout].
    split; cbn; try done; try lia.
    + rewrite !elem_of_cons. unfold DXBC_SIGNATURE_ROLE_INPUT, DXBC_SIGNATURE_ROLE_OUTPUT,
        DXBC_SIGNATURE_ROLE_PATCH_CONSTANT. lia.
    + rewrite !elem_of_cons. lia.
    + intros ->. by destruct Hin.
    + unfold DXBC_SIGNATURE_ROLE_INPUT. intros Hne. by destruct Hout.
  - intros [Hrole Hty Hmask Hrw Hstr Hint Hpr Hsys Hin Hout]. cbn in *.
    rewrite !elem_of_cons, elem_of_nil in Hrole, Hty.
    unfold DXBC_SIGNATURE_ROLE_INPUT, DXBC_SIGNATURE_ROLE_OUTPUT,
        DXBC_SIGNATURE_ROLE_PATCH_CONSTANT in *.
    split_and!; try done; try lia.
    destruct (decide (role = 0)); [right; auto|by left].
Qed.

Section validation.
Context `{U : UnityCommon, M : FreshMemory} {E : Type}.

Lemma outside_reserved_spec b s :
  c_string b s ->
  exists r, outside_reserved_names (E:=E) b = Ret r /\ (r = true <-> ~ reserved_name s).
Proof.
  assert (Hz : forall c v, ascii_lower (byte_val c) = v -> v <> 0 -> c <> Byte.x00) by (by intros c v <- ? ->).
  assert (Hno : forall t, (forall c0 c1 rest, t = c0 :: c1 :: Byte.x5f :: rest ->
    ascii_lower (byte_val c0) = 0x73 -> ascii_lower (byte_val c1) = 0x76 -> False) ->
    exists r, Ret (E:=E) true = Ret r /\ (r = true <-> ~ reserved_name t)).
  { intros t Ht. exists true. split; [done|]. split; [|done]. intros _ (c0 & c1 & rest & ? & ? & ?). eauto. }
  intros Hs. unfold outside_reserved_names.
  destruct b as [|c0 b]; [by apply c_string_nil in Hs|]. rewrite (load8_ok _ 0 c0) by done. mstep.
  destruct (Z.eqb_spec (ascii_lower (byte_val c0)) 0x73) as [H0|H0]; cbn [negb].
  2:{ apply c_string_cons in Hs as [[-> ->]|(s' & -> & _)]; apply Hno; [done|].
      intros d0 d1 rest [= -> _]. done. }
  apply c_string_cons in Hs as [[_ Hx]|(s' & -> & _ & Hs)]; [by apply Hz in H0|].
  destruct b as [|c1 b]; [by apply c_string_nil in Hs|]. rewrite (load8_ok _ 1 c1) by done. mstep.
  destruct (Z.eqb_spec (ascii_lower (byte_val c1)) 0x76) as [H1|H1]; cbn [negb].
  2:{ apply Hno. intros d0 d1 rest [= _ Heq] _ Hd. subst s'.
      apply c_string_cons in Hs as [[? _]|(s'' & [= -> _] & _)]; [done|]. done. }
  apply c_string_cons in Hs as [[_ Hx]|(s'' & -> & _ & Hs)]; [by apply Hz in H1|].
  destruct b as [|c2 b]; [by apply c_string_nil in Hs|]. rewrite (load8_ok _ 2 c2) by done. mstep.
  eexists. split; [done|]. rewrite negb_true_iff, Z.eqb_neq.
  apply c_string_cons in Hs as [[-> ->]|(s3 & -> & _ & Hs)].
  { split; [|done]. intros _ (d0 & d1 & rest & ? & _). done. }
  split.
  - intros Hne (d0 & d1 & rest & [= _ _ -> _] & _). by apply Hne.
  - intros Hnr Hc. apply Hnr. exists c0, c1, s3. split; [|done].
    do 3 f_equal. apply (inj byte_val). rewrite Hc. done.
Qed.

Lemma passthrough_spec b s :
  c_string b s ->
  exists r, signature_semantic_is_passthrough_system_value (E:=E) (Some b) = Ret r /\
    (r = true <-> exists name, name ∈ ["SV_VertexID"; "SV_PrimitiveID"; "SV_InstanceID"; "SV_IsFrontFace"] /\
                    same_name s name).
Proof.
  intros Hs. unfold signature_semantic_is_passthrough_system_value.
  match goal with |- context [any_of ?t ?xs] =>
    destruct (any_of_spec t (fun v => exists name, signature_system_semantic v = Some name /\
      same_name s name) xs) as (r & Hr & Hiff) end.
  { intros v Hv.
    destruct (signature_system_semantic v) as [name|] eqn:Hsem; cbn [fmap option_fmap option_map].
    - rewrite (equals_spec _ _ _ Hs) by (by eapply system_semantic_text). eexists. split; [done|].
      rewrite bool_decide_eq_true. split; [eauto|]. intros (? & [= <-] & ?). done.
    - exists false. split; [done|]. split; [done|]. by intros (? & [=] & _). }
  exists r. split; [exact Hr|]. rewrite Hiff. unfold passthrough_system_values. split.
  - intros (v & Hv & name & Hn & Hsame). exists name. split; [|done].
    rewrite !elem_of_cons, elem_of_nil in Hv.
    destruct_or! Hv; subst; try done; cbn in Hn; injection Hn as <-; rewrite !elem_of_cons; tauto.
  - intros (name & Hn & Hsame). rewrite !elem_of_cons, elem_of_nil in Hn.
    destruct_or! Hn; subst; try done; [exists 6|exists 7|exists 8|exists 9];
      (split; [rewrite !elem_of_cons; tauto|eexists; split; [reflexivity|done]]).
Qed.

Lemma semantic_matches_spec b s system_value role :
  c_string b s ->
  exists r, semantic_matches (E:=E) b system_value role = Ret r /\
            (r = true <-> semantic_allowed role system_value s).
Proof.
  intros Hs. unfold semantic_matches, semantic_allowed.
  destruct (signature_system_semantic system_value) as [name|] eqn:Hsem.
  { rewrite (equals_spec _ _ _ Hs) by (by eapply system_semantic_text).
    eexists. split; [done|]. apply bool_decide_eq_true. }
  destruct (passthrough_spec b s Hs) as (r & -> & Hr). mstep.
  destruct r; [exists true; split; [done|]; split; [|done]; intros _; left; by apply Hr|].
  match goal with |- context [any_of ?t ?xs] =>
    destruct (any_of_spec t (same_name s) xs) as (r' & -> & Hr') end.
  { intros name Hin. exists (bool_decide (same_name s name)). split; [|apply bool_decide_eq_true].
    apply equals_spec; [done|]. revert name Hin. rewrite <- list.Forall_forall.
    repeat (apply list.Forall_cons_2; [by apply literal_text|]). apply list.Forall_nil_2. }
  mstep. destruct r'.
  - destruct Hr' as [Hr' _]. destruct (Hr' eq_refl) as (name & Hin & Hsame).
    eexists. split; [done|]. rewrite negb_true_iff, Z.eqb_neq. split.
    + intros. right; left. eauto.
    + intros [Hp|[[? _]|Hn]]; [by apply Hr in Hp|done|].
      destruct Hn. by eapply implicit_names_reserved.
  - destruct (outside_reserved_spec b s Hs) as (r'' & -> & Hr''). exists r''. split; [done|].
    rewrite Hr''. split; [tauto|].
    intros [Hp|[[_ Hi]|Hn]]; [by apply Hr in Hp|by apply Hr' in Hi|done].
Qed.

Lemma c_string_length block s : c_string block s -> size s < size block.
Proof. intros (rest & -> & _). rewrite size_app. unfold size. cbn [length]. lia. Qed.

Lemma memchr_c_string block s : c_string block s -> memchr block Byte.x00 = Some (size s).
Proof.
  intros (rest & -> & Hs). induction s as [|c s IH]; cbn [app memchr]; [done|].
  apply not_elem_of_cons in Hs as [Hc Hs]. rewrite bool_decide_eq_false_2, IH by done.
  cbn. f_equal. unfold size. cbn [length]. lia.
Qed.

Lemma memchr_absent bs c : c ∉ bs -> memchr bs c = None.
Proof.
  intros Hc. pose proof (memchr_spec bs c) as Hm. destruct (memchr bs c); [|done].
  destruct Hm as (s & rest & -> & _). destruct Hc. apply elem_of_app. right. left.
Qed.

(** The name of an element, wherever it is stored. *)
Lemma named_semantic h el s :
  named h el s ->
  exists block, dxbc_signature_semantic_name (E:=E) h (Some el) = Ret (Some block) /\
    c_string block s /\ element_name_terminated (E:=E) el block = Ret true.
Proof.
  intros [Hl Hs Ht Hi Hst]. unfold dxbc_signature_semantic_name, element_name_terminated.
  destruct (el_semantic_name_extended el) as [p|].
  - exists (s ++ [Byte.x00]). rewrite (deref_ok _ _ _ Hst). split; [done|].
    split; [by exists []|]. rewrite Hl, (proj2 (Z.eqb_neq _ _)) by lia.
    rewrite (load8_ok _ _ Byte.x00); [|apply size_nonneg|].
    2:{ unfold size. rewrite Nat2Z.id, lookup_app_r, Nat.sub_diag by lia. done. }
    mstep. change (negb (byte_val Byte.x00 =? 0)) with false. cbn iota.
    rewrite view_ok; [|lia|apply size_nonneg|rewrite size_app; pose proof (size_nonneg [Byte.x00]); lia].
    mstep. rewrite slice_app_l by (pose proof (size_nonneg s); lia).
    rewrite slice_0, memchr_absent by done. done.
  - exists (el_semantic_name el). split; [done|]. split; [done|].
    unfold SEMANTIC_NAME_SIZE. rewrite view_ok by lia. mstep.
    rewrite <- Hi, slice_0, (memchr_c_string _ _ Hst). done.
Qed.

Lemma element_is_valid_spec h el s role :
  named h el s -> typed_row (row_of el s) ->
  exists b, dxbc_signature_element_is_valid (E:=E) h (Some el) role = Ret b /\
            (b = true <-> valid_row role (row_of el s)).
Proof.
  intros Hn Ht. unfold dxbc_signature_element_is_valid.
  pose proof (element_fields_spec el role s Ht) as Hf.
  destruct (element_fields_valid el role); cbn [negb].
  2:{ exists false. split; [done|]. split; [done|]. intros [Hv _ _]. by apply Hf in Hv. }
  destruct (named_semantic h el s Hn) as (block & -> & Hb & Hterm). mstep.
  destruct (is_hlsl_identifier_spec (E:=E) block s Hb) as (r & -> & Hr). mstep.
  destruct r; cbn [negb].
  2:{ exists false. split; [done|]. split; [done|]. intros [_ Hid _]. by apply Hr in Hid. }
  rewrite Hterm. mstep. cbn [negb].
  destruct (semantic_matches_spec block s (el_system_value el) role Hb) as (b & -> & Hb').
  exists b. split; [done|]. rewrite Hb'. split.
  - intros Ha. split; [by apply Hf|by apply Hr|done].
  - by intros [_ _ Ha].
Qed.
End validation.

(** * Storage and ownership *)

(** The element [el] named [s] owns what [h] has over [h0]. *)
Record grants (h0 : heap) (el : DXBCSignatureElement) (s : list byte) (h : heap) : Prop := {
  grants_length : el_semantic_name_length el = size s;
  grants_short : size s < SIZE_MAX;
  grants_text : Byte.x00 ∉ s;
  grants_inline : size (el_semantic_name el) = 64;
  grants_storage :
    match el_semantic_name_extended el with
    | None => c_string (el_semantic_name el) s /\ h = h0
    | Some p => h0 !! p = None /\ h = <[p := s ++ [Byte.x00]]> h0
    end;
}.

(** The elements of an array own, one after the other, what [h] has over [h0]. *)
Inductive owns : heap -> list DXBCSignatureElement -> list signature_row -> heap -> Prop :=
| owns_nil h : owns h [] [] h
| owns_cons h h1 h0 el els s rows :
    grants h1 el s h -> owns h1 els rows h0 -> owns h (el :: els) (row_of el s :: rows) h0.

Section ownership.
Context `{U : UnityCommon, M : FreshMemory} {E : Type}.

Lemma grants_named h0 el s h : grants h0 el s h -> named h el s.
Proof.
  intros [Hl Hs Ht Hi Hst]. split; try done.
  destruct (el_semantic_name_extended el) as [p|].
  - destruct Hst as [_ ->]. apply lookup_insert_eq.
  - apply Hst.
Qed.

(** Writing a text and its terminator over the start of a buffer. *)
Lemma write_text {F} buffer s :
  size s < size buffer ->
  (blit (E:=F) buffer 0 s ≫= fun buffer => blit buffer (size s) [Byte.x00]) =
    Ret (s ++ Byte.x00 :: drop (S (length s)) buffer).
Proof.
  intros Hs. pose proof (size_nonneg s). rewrite blit_ok by lia. mstep.
  change (Z.to_nat 0) with 0%nat. rewrite firstn_O. cbn [app Nat.add].
  assert (Hto : Z.to_nat (size s) = length s) by (unfold size; lia).
  assert (Hd : size (drop (length s) buffer) = size buffer - size s)
    by (rewrite <- Hto; apply size_drop; lia).
  rewrite blit_ok; [|lia|rewrite size_app, Hd; change (size [Byte.x00]) with 1; lia].
  rewrite Hto, take_app_length, drop_app_ge by (cbn [length]; lia).
  f_equal. cbn [length app]. rewrite drop_drop. do 3 f_equal. lia.
Qed.

Lemma set_name_spec h el name s :
  c_string name s -> size name < SIZE_MAX ->
  el_semantic_name_extended el = None -> size (el_semantic_name el) = 64 ->
  outcome (set_signature_semantic_name (E:=E) h el name (size s))
    (fun '(ok, h', el') =>
       if ok : bool then grants h el' s h' /\ row_of el' s = row_of el s
       else h' = h /\ memory_failed)
    (fun _ => False).
Proof.
  intros Hname Hlen Hext Hbuf. pose proof (c_string_length _ _ Hname) as Hlt.
  pose proof (size_nonneg s) as H0. destruct Hname as (rest & Hname & Hs).
  unfold set_signature_semantic_name, SEMANTIC_NAME_SIZE.
  rewrite (proj2 (Z.eqb_neq _ _)) by lia. rewrite view_ok by lia. mstep.
  assert (Htext : slice name 0 (size s) = s).
  { rewrite Hname, slice_app_l by lia. apply slice_0. }
  rewrite Htext. destruct (Z.ltb_spec (size s) 64) as [Hshort|Hlong].
  - change (el_semantic_name (el <| el_semantic_name_length := size s |>)) with (el_semantic_name el).
    pose proof (write_text (F:=E) (el_semantic_name el) s ltac:(lia)) as Hw.
    destruct (blit (el_semantic_name el) 0 s); cbn [mbind res_bind] in *; try done.
    rewrite Hw. mstep. split; [|done]. split; cbn; try done; try (unfold SIZE_MAX in *; lia).
    + unfold size in *. rewrite length_app. cbn [length]. rewrite length_drop. lia.
    + rewrite Hext. split; [|done]. by eexists.
  - unfold SIZE_MAX in *. rewrite (u64_small (size s + 1)) by lia.
    pose proof (heap_alloc_spec h (size s + 1) ltac:(lia)) as Ha.
    destruct (heap_alloc h (size s + 1)) as [[p h1]|]; [|by split].
    destruct Ha as (Hp & block & Hb & ->).
    pose proof (write_text (F:=E) block s ltac:(lia)) as Hw.
    unfold store. rewrite (deref_ok _ p block) by apply lookup_insert_eq. mstep.
    destruct (blit block 0 s) as [b| |]; cbn [mbind res_bind] in *; try done.
    rewrite (deref_ok _ p b) by apply lookup_insert_eq. mstep. rewrite Hw. mstep.
    split; [|done]. split; cbn; try done; try (unfold SIZE_MAX in *; lia).
    split; [done|]. rewrite !insert_insert_eq. f_equal.
    rewrite drop_ge; [done|]. unfold size in Hb. lia.
Qed.

Lemma element_free_spec h0 el s h :
  grants h0 el s h ->
  dxbc_signature_element_free (E:=E) h (Some el) = Ret (h0, Some zero_element).
Proof.
  intros [Hl Hs Ht Hi Hst]. unfold dxbc_signature_element_free.
  destruct (el_semantic_name_extended el) as [p|].
  - destruct Hst as [Hp ->]. unfold SIZE_MAX in Hs. pose proof (size_nonneg s).
    rewrite Hl, u64_small by lia.
    replace (size s + 1) with (size (s ++ [Byte.x00])) by (rewrite size_app; done).
    rewrite heap_free_ok by apply lookup_insert_eq. mstep. by rewrite delete_insert_id.
  - by destruct Hst as [_ ->].
Qed.

(** Independent grants commute. *)
Lemma grants_swap h1 e s h el s' h' :
  grants h1 e s h -> grants h el s' h' ->
  exists h1', grants h1 el s' h1' /\ grants h1' e s h'.
Proof.
  intros [? ? ? ? Hst] [? ? ? ? Hst'].
  destruct (el_semantic_name_extended e) as [p|] eqn:He, (el_semantic_name_extended el) as [q|] eqn:Hq.
  - destruct Hst as [Hp ->], Hst' as [Hq0 ->].
    assert (p <> q) by (intros ->; by rewrite lookup_insert_eq in Hq0).
    rewrite lookup_insert_ne in Hq0 by done.
    exists (<[q := s' ++ [Byte.x00]]> h1). split; split; try done; rewrite ?Hq, ?He; split; try done.
    + by rewrite lookup_insert_ne.
    + by apply insert_insert_ne.
  - destruct Hst as [Hp ->], Hst' as [? ->]. exists h1.
    split; split; try done; rewrite ?Hq, ?He; done.
  - destruct Hst as [? ->], Hst' as [? ->]. eexists.
    split; split; try done; rewrite ?Hq, ?He; done.
  - destruct Hst as [? ->], Hst' as [? ->]. exists h1.
    split; split; try done; rewrite ?Hq, ?He; done.
Qed.

Lemma owns_app h els rows h0 el s h' :
  owns h els rows h0 -> grants h el s h' ->
  owns h' (els ++ [el]) (rows ++ [row_of el s]) h0.
Proof.
  intros Ho. revert h'. induction Ho as [h|h h1 h0 e els t rows Hg Ho IH]; intros h' Hel.
  - cbn. econstructor; [exact Hel|constructor].
  - destruct (grants_swap _ _ _ _ _ _ _ Hg Hel) as (h1' & Hel' & Hg').
    cbn. econstructor; [exact Hg'|by apply IH].
Qed.

Lemma owns_length h els rows h0 : owns h els rows h0 -> length els = length rows.
Proof. induction 1; cbn; congruence. Qed.

(** Freeing the elements gives back exactly what they own. *)
Lemma free_list_spec h els rows h0 :
  owns h els rows h0 ->
  free_signature_list_elements (E:=E) h (Some els) (Z.of_nat (length els)) =
    Ret (h0, Some (replicate (length els) zero_element)).
Proof.
  intros Ho. unfold free_signature_list_elements.
  destruct (Z.leb_spec (Z.of_nat (length els)) 0) as [Hn|_].
  { inversion Ho; subst; [done|]. cbn [length] in Hn. lia. }
  rewrite Nat2Z.id.
  match goal with |- context [for_loop _ _ ?f _] => set (body := f) end.
  assert (Hloop : forall freed : list DXBCSignatureElement,
    for_loop (length els) (Z.of_nat (length freed)) body (h, freed ++ els) =
      Ret (h0, freed ++ replicate (length els) zero_element)).
  { clear -Ho. induction Ho as [h|h h1 h0 e els t rows Hg Ho IH]; intros freed; [done|].
    cbn [length for_loop replicate].
    assert (Hstep : body (Z.of_nat (length freed)) (h, freed ++ e :: els) =
                    Ret (h1, (freed ++ [zero_element]) ++ els)).
    { unfold body. rewrite Nat2Z.id, list_lookup_middle by done.
      rewrite (element_free_spec _ _ _ _ Hg). mstep.
      rewrite insert_app_r_alt, Nat.sub_diag by lia. by rewrite <- app_assoc. }
    rewrite Hstep. mstep.
    replace (Z.of_nat (length freed) + 1) with (Z.of_nat (length (freed ++ [zero_element])))
      by (rewrite length_app; cbn [length]; lia).
    rewrite IH. by rewrite <- app_assoc. }
  specialize (Hloop []). change (Z.of_nat (length [])) with 0 in Hloop.
  change ([] ++ els) with els in Hloop. rewrite Hloop. done.
Qed.
End ownership.
