(* ===== verification/SignatureParse.v ===== *)
(** The signature table format, and [parse_signature] of
    [src/dxbc/dxbc_parser.c] as its reader. *)

From stdpp Require Import gmap.
From S2P Require Import Prelude UnityCommon Hash Document DocumentFormat Heap ByteStream.
From S2P Require Import Signature SignatureCorrect.

(** * The format

    [c] is the payload of a chunk named [name]. *)

Section format.
Variables (name c : list byte).

Definition row_size : Z :=
  (if signature_is_streamed name then 4 else 0) + 24 +
  (if signature_has_min_precision name then 4 else 0).

(** A row is a stream index where the table has one, then the name offset. *)
Definition row_base (off : Z) : Z := off + (if signature_is_streamed name then 4 else 0).

Definition row_name (off : Z) : list byte :=
  let name_offset := word c (row_base off) in slice c name_offset (size c - name_offset).

Definition decode_row (off : Z) (semantic : list byte) : signature_row :=
  let base := row_base off in
  {| row_semantic := semantic;
     row_stream_index := if signature_is_streamed name then word c off else 0;
     row_semantic_index := word c (base + 4);
     row_system_value := word c (base + 8);
     row_component_type := word c (base + 12);
     row_register_id := word c (base + 16);
     row_min_precision := if signature_has_min_precision name then word c (base + 24) else 0;
     row_interpolation_mode := 0;
     row_mask := word c (base + 20) mod 256;
     row_rw_mask := word c (base + 20) / 256 |}.

(** The row at [off] says [r]. *)
Record signature_entry (off : Z) (r : signature_row) : Prop := {
  entry_name_offset : word c (row_base off) < size c;
  entry_name : c_string (row_name off) (row_semantic r);
  entry_masks : word c (row_base off + 20) < 65536;
  entry_row : r = decode_row off (row_semantic r);
  entry_valid : valid_row (signature_role_for_chunk name) r;
}.

(** A table: the number of rows, the offset of the first, the rows. *)
Record signature_table (rows : list signature_row) : Prop := {
  table_header : 8 <= size c;
  table_count : word c 0 = Z.of_nat (length rows);
  table_offset : 8 <= word c 4;
  table_room : word c 4 + Z.of_nat (length rows) * row_size <= size c;
  table_rows i r : rows !! i = Some r -> signature_entry (word c 4 + Z.of_nat i * row_size) r;
}.
End format.

(** * Capacity *)

(** What [list], [count] and [allocation] maintain. *)
Record list_ok (l : signature_list) (els : list DXBCSignatureElement) : Prop := {
  list_elements : default [] (sl_elements l) = els;
  list_count : sl_count l = Z.of_nat (length els);
  list_capacity : sl_count l <= sl_allocation l <= INT_MAX;
  list_null : sl_elements l = None <-> (sl_allocation l = 0);
}.

Section capacity.
Context `{U : UnityCommon} {HU : UnityCommonSpec U}.

(** How many doublings remain. *)
Definition doublings (required n : Z) : nat :=
  if n <? required then Z.to_nat (31 - Z.log2 n) else 0.

(** The doubling ends, below twice what was asked for. *)
Lemma doubling_loop {E} start required (F : E -> Prop) :
  1 <= start <= INT_MAX -> 0 <= required <= INT_MAX ->
  outcome (while 31 (fun n => n <? required)
             (fun n => Ret (if INT_MAX / 2 <? n then required else n * 2)) start)
    (fun n => start <= n <= INT_MAX /\ required <= n /\ n < Z.max (start + 1) (2 * required)) F.
Proof.
  unfold INT_MAX. intros Hstart Hr.
  eapply outcome_mono; [apply (outcome_while
    (fun n => start <= n <= 2147483647 /\ n < Z.max (start + 1) (2 * required))
    (doublings required) F)| |done].
  - lia.
  - unfold doublings. pose proof (Z.log2_nonneg start). destruct (_ <? _); lia.
  - intros n [Hn Hn2] Hlt. unfold doublings at 1 3. rewrite Hlt.
    assert (Hlog : 0 <= Z.log2 n < 31) by (split; [apply Z.log2_nonneg|apply Z.log2_lt_pow2; lia]).
    apply Z.ltb_lt in Hlt. split; [lia|].
    change (2147483647 / 2) with 1073741823.
    destruct (Z.ltb_spec 1073741823 n) as [Hbig|Hsmall]; cbn [outcome]; unfold doublings.
    + rewrite Z.ltb_irrefl. lia.
    + split; [lia|]. replace (n * 2) with (2 * n) by lia. rewrite Z.log2_double by lia.
      destruct (_ <? required); lia.
  - intros n [Hn Hd]. bools. lia.
Qed.

Lemma reserve_array_spec is_null allocation required element_size :
  0 <= allocation <= INT_MAX -> ((allocation = 0) <-> is_null = true) ->
  0 <= required <= INT_MAX -> 0 < element_size <= 1024 ->
  outcome (reserve_array is_null allocation required element_size)
    (fun a => allocation <= a /\ required <= a <= INT_MAX /\
              (a = allocation \/ allocation < required /\ a < Z.max 17 (2 * required)))
    (fun _ => memory_failed).
Proof.
  unfold INT_MAX. intros Ha Hnull Hr He. unfold reserve_array, INT_MAX.
  apply outcome_if; intros Hc.
  { exfalso. assert (Hb : (allocation =? 0) = is_null).
    { destruct is_null; [apply Z.eqb_eq; by apply Hnull|].
      apply Z.eqb_neq. intros Hz. by apply Hnull in Hz. }
    rewrite Hb, eqb_reflx in Hc. cbn in Hc. lia. }
  clear Hc. apply outcome_if; intros Hroom; bools; [cbn; lia|].
  set (start := if allocation =? 0 then 16 else allocation).
  assert (Hstart : 1 <= start <= 2147483647 /\ allocation <= start /\ (start = allocation \/ start = 16)).
  { unfold start. destruct (Z.eqb_spec allocation 0); lia. }
  apply outcome_bind.
  eapply outcome_mono; [apply (doubling_loop start required (fun _ => memory_failed)); unfold INT_MAX; lia| |done].
  intros a (Ha1 & Ha2 & Ha3). unfold INT_MAX in Ha1.
  rewrite !size_multiply_overflows_spec by (unfold in_u64; lia).
  assert (a * element_size < 2 ^ 64 /\ allocation * element_size < 2 ^ 64) as [? ?] by nia.
  rewrite (proj2 (Z.leb_gt _ _)), (proj2 (Z.leb_gt _ _)) by done. cbn [orb].
  destruct (mem_realloc _ _) eqn:Hm; cbn [outcome]; [lia|]. right. eauto.
Qed.
End capacity.

(** * Streams *)

Section reading.
Context `{S : ByteStreamOps} {HS : ByteStreamSpec S} {E : Type}.

(** [s] reads little-endian from [bytes] at [p]. *)
Record stream_at (s : ByteStream) (bytes : list byte) (p : Z) : Prop := {
  at_endian : stream_big_endian s = false;
  at_data : stream_data s = bytes;
  at_position : stream_position s = p;
}.

Lemma stream_at_seek s bytes p q : stream_at s bytes p -> stream_at (stream_seek s q) bytes q.
Proof.
  intros [He Hd Hp]. split.
  - by rewrite stream_seek_big.
  - by rewrite stream_seek_data.
  - apply stream_seek_position.
Qed.

Lemma read_at s bytes p (e : E) :
  stream_at s bytes p -> 0 <= p -> p + 4 <= size bytes ->
  read_uint32 s e = Ret (word bytes p, stream_seek s (p + 4)).
Proof.
  intros [He Hd Hp] H0 Hb. unfold read_uint32. rewrite stream_read_uint32_spec by (rewrite ?Hp; done).
  by rewrite Hd, Hp, (proj2 (Z.leb_le _ _)).
Qed.

(** A word that only some tables have. *)
Lemma read_if_at (b : bool) s bytes p (e : E) :
  stream_at s bytes p -> 0 <= p -> p + (if b then 4 else 0) <= size bytes ->
  exists s', (if b then read_uint32 s e else Ret (0, s)) = Ret (if b then word bytes p else 0, s') /\
    stream_at s' bytes (p + (if b then 4 else 0)).
Proof.
  intros Hs H0 Hb. destruct b.
  - rewrite (read_at s bytes p) by done. eexists. split; [done|]. by eapply stream_at_seek.
  - exists s. split; [done|]. by rewrite Z.add_0_r.
Qed.
End reading.

(** * Rows *)

Lemma high_half_clear w : in_u32 w -> (Z.land w 0xffff0000 =? 0) = (w <? 65536).
Proof.
  intros Hw. unfold in_u32 in Hw.
  change 0xffff0000 with (Z.shiftl (2 ^ 16 - 1) 16).
  assert (Heq : Z.land w (Z.shiftl (2 ^ 16 - 1) 16) = Z.shiftl (w / 65536) 16).
  { apply Z.bits_inj'. intros k Hk. rewrite Z.land_spec, !Z.shiftl_spec by done.
    change 65536 with (2 ^ 16). rewrite <- Z.shiftr_div_pow2 by lia.
    destruct (Z.lt_ge_cases k 16).
    - rewrite !(Z.testbit_neg_r _ (k - 16)) by lia. apply andb_false_r.
    - rewrite Z.shiftr_spec by lia. replace (k - 16 + 16) with k by lia.
      change (2 ^ 16 - 1) with (Z.ones 16). destruct (Z.lt_ge_cases k 32).
      + rewrite Z.ones_spec_low by lia. apply andb_true_r.
      + by rewrite (testbit_above w 32). }
  rewrite Heq, Z.shiftl_mul_pow2 by lia.
  destruct (Z.ltb_spec w 65536); [apply Z.eqb_eq|apply Z.eqb_neq]; Z.div_mod_to_equations; lia.
Qed.

Lemma c_string_fun block s t : c_string block s -> c_string block t -> s = t.
Proof.
  intros Hs Ht. apply memchr_c_string in Hs as Hs', Ht as Ht'.
  destruct Hs as (r & -> & _), Ht as (r' & Heq & _). rewrite Hs' in Ht'. injection Ht' as Hlen.
  apply app_inj_1 in Heq as [? _]; [done|]. unfold size in Hlen. lia.
Qed.

Lemma memchr_is_string name n :
  memchr name Byte.x00 = Some n -> exists s, c_string name s /\ n = size s.
Proof.
  intros Hm. pose proof (memchr_spec name Byte.x00) as H. rewrite Hm in H.
  destruct H as (s & rest & -> & Hs & ->). exists s. split; [by exists rest|done].
Qed.

Section chunk.
Context `{U : UnityCommon} {HU : UnityCommonSpec U} `{M : FreshMemory}.
Context `{S : ByteStreamOps} {HS : ByteStreamSpec S}.
Variables (name D : list byte) (chunk_start chunk_end : Z).
Hypothesis Hchunk : 0 <= chunk_start <= chunk_end /\ chunk_end <= size D.
Hypothesis Hsize : size D < 2 ^ 32.

#[local] Abbreviation c := (slice D chunk_start (chunk_end - chunk_start)).
#[local] Abbreviation entry := (signature_entry name c).

Lemma size_chunk : size c = chunk_end - chunk_start.
Proof. apply size_slice; lia. Qed.

Lemma chunk_word k : 0 <= k -> k + 4 <= size c -> word D (chunk_start + k) = word c k.
Proof. intros. rewrite size_chunk in *. unfold word. by rewrite slice_slice by lia. Qed.

Lemma row_size_range : 24 <= row_size name <= 32.
Proof.
  unfold row_size. destruct (signature_is_streamed _), (signature_has_min_precision _); lia.
Qed.

(** What the parsed fields of an element say. *)
Lemma element_row stream_index mask_token off semantic :
  in_u32 mask_token -> mask_token < 65536 ->
  word c (row_base name off + 20) = mask_token ->
  stream_index = (if signature_is_streamed name then word c off else 0) ->
  row_of
    {| el_semantic_name := el_semantic_name zero_element;
       el_semantic_name_extended := el_semantic_name_extended zero_element;
       el_semantic_name_length := el_semantic_name_length zero_element;
       el_stream_index := stream_index; el_semantic_index := word c (row_base name off + 4);
       el_system_value := word c (row_base name off + 8);
       el_component_type := word c (row_base name off + 12);
       el_register_id := word c (row_base name off + 16);
       el_min_precision := if signature_has_min_precision name
                           then word c (row_base name off + 24) else 0;
       el_interpolation_mode := el_interpolation_mode zero_element;
       el_mask := u8 (Z.land mask_token 0xff);
       el_rw_mask := u8 (Z.land (Z.shiftr mask_token 8) 0xff) |} semantic
  = decode_row name c off semantic.
Proof.
  intros Hw Hlt Heq ->. unfold in_u32 in Hw. unfold row_of, decode_row. rewrite Heq. cbn.
  change 0xff with (2 ^ 8 - 1). rewrite !land_ones_mod, Z.shiftr_div_pow2 by lia.
  unfold u8. rewrite !Z.mod_mod by lia. f_equal.
  change (2 ^ 8) with 256. apply Z.mod_small. split; [apply Z.div_pos; lia|].
  apply Z.div_lt_upper_bound; lia.
Qed.

Lemma decode_row_typed off semantic :
  0 <= off -> off + row_size name <= size c -> word c (row_base name off + 20) < 65536 ->
  typed_row (decode_row name c off semantic).
Proof.
  intros Ho Hr Hm.
  assert (Hw : forall k, 0 <= k -> k + 4 <= size c -> in_u32 (word c k)) by (intros; by apply le32_range).
  revert Hr Hm. unfold decode_row, row_base, row_size.
  generalize (signature_is_streamed name), (signature_has_min_precision name). intros st mp Hr Hm.
  assert (H0 : in_u32 (word c (off + (if st then 4 else 0) + 20))) by (apply Hw; destruct st, mp; lia).
  unfold in_u32 in H0. split; cbn.
  - destruct st; [apply Hw; destruct mp; lia|by unfold in_u32].
  - apply Hw; destruct st, mp; lia.
  - by unfold in_u8.
  - apply Z.mod_pos_bound. lia.
  - split; [apply Z.div_pos; lia|apply Z.div_lt_upper_bound; lia].
Qed.

Lemma read_chunk_word {E} s k (e : E) :
  stream_at s D (chunk_start + k) -> 0 <= k -> k + 4 <= size c ->
  exists s', read_uint32 s e = Ret (word c k, s') /\ stream_at s' D (chunk_start + (k + 4)).
Proof.
  intros Hs Hk Hb. pose proof Hb as Hb'. rewrite size_chunk in Hb'.
  rewrite (read_at s D (chunk_start + k)), chunk_word by (done || lia).
  eexists. split; [done|]. rewrite Z.add_assoc. by eapply stream_at_seek.
Qed.

Lemma read_chunk_if {E} (b : bool) s k (e : E) :
  stream_at s D (chunk_start + k) -> 0 <= k -> k + (if b then 4 else 0) <= size c ->
  exists s', (if b then read_uint32 s e else Ret (0, s)) = Ret (if b then word c k else 0, s') /\
             stream_at s' D (chunk_start + (k + if b then 4 else 0)).
Proof.
  destruct b; [apply read_chunk_word|].
  intros Hs _ _. exists s. split; [done|]. by rewrite Z.add_0_r.
Qed.

Lemma append_element_ok {E} l els el :
  list_ok l els -> sl_count l < sl_allocation l ->
  exists l', append_element (E:=E) l el = Ret l' /\ list_ok l' (els ++ [el]) /\
    sl_allocation l' = sl_allocation l.
Proof.
  intros [He Hc Hcap Hnull] Hroom. unfold append_element.
  destruct (sl_elements l) as [es|] eqn:Hes.
  2:{ destruct Hnull as [Hn _]. specialize (Hn eq_refl). lia. }
  cbn in He. subst es. rewrite (proj2 (Z.leb_le _ _)), (proj2 (Z.ltb_lt _ _)) by lia. cbn [andb].
  rewrite Hc, Nat2Z.id, firstn_all. eexists. split; [done|]. split; [|done].
  split; cbn; [done| |lia|].
  - rewrite length_app. cbn [length]. lia.
  - split; [done|]. intros. lia.
Qed.

Lemma entry_semantic off r s :
  entry off r -> c_string (row_name name c off) s -> r = decode_row name c off s.
Proof.
  intros [Hoff Hname Hm -> Hv] Hs. cbn in Hname. by rewrite (c_string_fun _ _ _ Hname Hs).
Qed.

(** One iteration: the row is read and its name owned, or nothing is kept. *)
Lemma parse_element_spec s st els rows h0 off :
  stream_at s D (chunk_start + off) -> 0 <= off -> off + row_size name <= size c ->
  list_ok (ss_list st) els -> sl_count (ss_list st) < sl_allocation (ss_list st) ->
  owns (ss_heap st) els rows h0 ->
  outcome (parse_signature_element chunk_start chunk_end name (s, st))
    (fun '(s', st') => exists el r, entry off r /\
       stream_at s' D (chunk_start + (off + row_size name)) /\
       list_ok (ss_list st') (els ++ [el]) /\
       sl_allocation (ss_list st') = sl_allocation (ss_list st) /\
       owns (ss_heap st') (els ++ [el]) (rows ++ [r]) h0)
    (fun st' => st' = st /\ (memory_failed \/ forall r, ~ entry off r)).
Proof.
  intros Hs Hoff Hroom Hl Hcount Howns. unfold parse_signature_element.
  pose proof size_chunk as Hsc.
  assert (Hbase : row_base name off + 24 + (if signature_has_min_precision name then 4 else 0) =
                  off + row_size name) by (unfold row_base, row_size; lia).
  assert (Hb0 : off <= row_base name off) by (unfold row_base; destruct (signature_is_streamed name); lia).
  assert (Hmp : 0 <= (if signature_has_min_precision name then 4 else 0)) by (by destruct (signature_has_min_precision name)).
  edestruct (read_chunk_if (signature_is_streamed name) s off st) as (s1 & -> & Hs1);
    [done|done|unfold row_base in *; lia|].
  mstep. fold (row_base name off) in Hs1. set (base := row_base name off) in *.
  edestruct (read_chunk_word s1 base st) as (s2 & -> & Hs2); [done|lia..|]. mstep.
  edestruct (read_chunk_word s2 (base + 4) st) as (s3 & -> & Hs3); [done|lia..|]. mstep.
  replace (base + 4 + 4) with (base + 8) in Hs3 by lia.
  edestruct (read_chunk_word s3 (base + 8) st) as (s4 & -> & Hs4); [done|lia..|]. mstep.
  replace (base + 8 + 4) with (base + 12) in Hs4 by lia.
  edestruct (read_chunk_word s4 (base + 12) st) as (s5 & -> & Hs5); [done|lia..|]. mstep.
  replace (base + 12 + 4) with (base + 16) in Hs5 by lia.
  edestruct (read_chunk_word s5 (base + 16) st) as (s6 & -> & Hs6); [done|lia..|]. mstep.
  replace (base + 16 + 4) with (base + 20) in Hs6 by lia.
  edestruct (read_chunk_word s6 (base + 20) st) as (s7 & -> & Hs7); [done|lia..|]. mstep.
  replace (base + 20 + 4) with (base + 24) in Hs7 by lia.
  edestruct (read_chunk_if (signature_has_min_precision name) s7 (base + 24) st) as (s8 & -> & Hs8);
    [done|lia..|]. mstep. rewrite Hbase in Hs8.
  assert (Hw : forall k, 0 <= k -> k + 4 <= size c -> in_u32 (word c k)) by (intros; by apply le32_range).
  pose proof (Hw (base + 20) ltac:(lia) ltac:(lia)) as Hmw. pose proof (Hw base ltac:(lia) ltac:(lia)) as Hnw.
  unfold in_u32 in Hmw, Hnw.
  apply outcome_if; intros Hprec.
  { split; [done|]. right. intros r [_ _ _ Hr [Hf _ _]]. rewrite Hr in Hf.
    apply row_precision_known, min_precision_known in Hf. cbn in Hf. fold base in Hf.
    apply andb_true_iff in Hprec as [_ Hprec]. by rewrite Hf in Hprec. }
  rewrite high_half_clear by (by apply Hw; lia). rewrite (u64_small (chunk_end - chunk_start)) by lia.
  apply outcome_if; intros Hc.
  { split; [done|]. right. intros r [Hn _ Hm _ _]. fold base in Hn, Hm.
    apply orb_true_iff in Hc as [Hc|Hc]; bools; lia. }
  bools. rewrite !(u64_small (chunk_start + word c base)) by lia.
  rewrite (u64_small (chunk_end - _)) by lia. rewrite (at_data _ _ _ Hs8).
  apply outcome_bind, outcome_view; [lia..|].
  assert (Hname : slice D (chunk_start + word c base) (chunk_end - (chunk_start + word c base)) =
                  row_name name c off).
  { unfold row_name. fold base. rewrite slice_slice by (rewrite ?Hsc; lia). f_equal. lia. }
  rewrite Hname.
  destruct (memchr (row_name name c off) Byte.x00) as [len|] eqn:Hchr.
  2:{ split; [done|]. right. intros r [_ Ht _ _ _]. apply memchr_c_string in Ht. congruence. }
  destruct (memchr_is_string _ _ Hchr) as (t & Ht & ->).
  match goal with |- context [set_signature_semantic_name _ ?e _ _] => set (el := e) end.
  assert (Hrow : forall u, row_of el u = decode_row name c off u)
    by (intros u; apply element_row; [by apply Hw; lia|done..]).
  assert (Hnlen : size (row_name name c off) < SIZE_MAX).
  { rewrite <- Hname, size_slice by lia. unfold SIZE_MAX. lia. }
  apply outcome_bind.
  eapply outcome_mono; [by apply (set_name_spec (ss_heap st) el _ t Ht Hnlen)| |done].
  intros [[ok h'] el'] Hok. destruct ok; cbn [negb].
  2:{ destruct Hok as [-> Hmem]. split; [by destruct st|by left]. }
  destruct Hok as [Hg Hsame]. rewrite Hrow in Hsame.
  assert (Htyped : typed_row (row_of el' t)) by (rewrite Hsame; by apply decode_row_typed).
  destruct (element_is_valid_spec (E:=signature_state) h' el' t (signature_role_for_chunk name)
    (grants_named _ _ _ _ Hg) Htyped) as (b & -> & Hb).
  mstep. destruct b; cbn [negb].
  - destruct (append_element_ok (E:=signature_state) _ _ el' Hl Hcount) as (l' & -> & Hl' & Hal). mstep.
    exists el', (row_of el' t). split_and!; [|done|done|done|by eapply owns_app].
    split; fold base; [lia|done|lia|by rewrite Hsame|by apply Hb].
  - rewrite (element_free_spec _ _ _ _ Hg). mstep. split; [by destruct st|].
    right. intros r Hr. pose proof (entry_semantic _ _ _ Hr Ht) as ->.
    destruct Hr as [_ _ _ _ Hv]. rewrite <- Hsame in Hv. by apply Hb in Hv.
Qed.

(** * Tables *)

(** What a run keeps when it has read [els'] after the elements [els]. *)
Definition keeps (els : list DXBCSignatureElement) (rows : list signature_row) (h0 : heap)
    (st : signature_state) (rows' : list signature_row) : Prop :=
  exists els', list_ok (ss_list st) (els ++ els') /\
               owns (ss_heap st) (els ++ els') (rows ++ rows') h0.

Lemma outcome_read_at {E} s p (e : E) (Q : Z * ByteStream -> Prop) (F : E -> Prop) :
  stream_at s D p -> 0 <= p ->
  (p + 4 <= size D -> Q (word D p, stream_seek s (p + 4))) ->
  (size D < p + 4 -> F e) ->
  outcome (read_uint32 s e) Q F.
Proof.
  intros Hs Hp HQ HF. destruct (Z.lt_ge_cases (size D) (p + 4)) as [Hlt|Hge].
  - unfold read_uint32. destruct Hs as [He Hd Hpos].
    rewrite stream_read_uint32_spec by (rewrite ?Hpos; done).
    rewrite Hd, Hpos, (proj2 (Z.leb_gt _ _)) by done. by apply HF.
  - rewrite (read_at s D p) by (done || lia). apply HQ. lia.
Qed.

Lemma reserve_list_spec l els n :
  list_ok l els -> 0 <= n -> Z.of_nat (length els) + n <= INT_MAX ->
  outcome (reserve_array (negb (bool_decide (is_Some (sl_elements l)))) (sl_allocation l)
             (sl_count l + n) SIGNATURE_ELEMENT_SIZE)
    (fun a => sl_count l + n <= a /\
       list_ok (if bool_decide (sl_allocation l = a) then l
                else {| sl_elements := Some (default [] (sl_elements l)); sl_count := sl_count l;
                        sl_allocation := a |}) els)
    (fun _ => memory_failed).
Proof.
  intros Hl Hn Hmax. pose proof Hl as [He Hc Hcap Hnull]. unfold INT_MAX in *.
  eapply outcome_mono; [apply reserve_array_spec; unfold INT_MAX, SIGNATURE_ELEMENT_SIZE; try lia| |done].
  - rewrite <- Hnull. by destruct (sl_elements l).
  - intros a (Ha & Hr & Hgrow). unfold INT_MAX in Hr. split; [lia|]. case_bool_decide as Heq; [done|].
    split; cbn; [done|done|unfold INT_MAX; lia|]. split; [done|intros; exfalso; lia].
Qed.

(** The element loop. *)
Lemma parse_rows_spec els rows h0 n s st :
  let po := word c 4 in
  8 <= po -> po + Z.of_nat n * row_size name <= size c ->
  stream_at s D (chunk_start + po) -> list_ok (ss_list st) els ->
  sl_count (ss_list st) + Z.of_nat n <= sl_allocation (ss_list st) ->
  owns (ss_heap st) els rows h0 ->
  outcome (for_loop n 0 (fun _ => parse_signature_element chunk_start chunk_end name) (s, st))
    (fun '(s', st') => exists rows', length rows' = n /\
       (forall i r, rows' !! i = Some r -> entry (po + Z.of_nat i * row_size name) r) /\
       (exists p, stream_at s' D p) /\ keeps els rows h0 st' rows')
    (fun st' => (memory_failed \/
                 exists j, (j < n)%nat /\ forall r, ~ entry (po + Z.of_nat j * row_size name) r) /\
                exists rows', keeps els rows h0 st' rows').
Proof.
  intros po Hpo Hroom Hs Hl Hcap Howns. pose proof row_size_range as Hrs.
  set (I := fun j (x : ByteStream * signature_state) => exists els' rows',
    j = Z.of_nat (length rows') /\ length els' = length rows' /\
    (forall i r, rows' !! i = Some r -> entry (po + Z.of_nat i * row_size name) r) /\
    stream_at x.1 D (chunk_start + (po + j * row_size name)) /\
    list_ok (ss_list x.2) (els ++ els') /\
    sl_allocation (ss_list x.2) = sl_allocation (ss_list st) /\
    owns (ss_heap x.2) (els ++ els') (rows ++ rows') h0).
  eapply outcome_mono; [apply (outcome_for I (fun st' => (memory_failed \/
    exists j, (j < n)%nat /\ forall r, ~ entry (po + Z.of_nat j * row_size name) r) /\
    exists rows', keeps els rows h0 st' rows'))| |done].
  - exists [], []. rewrite !app_nil_r. split_and!; try done. by rewrite Z.mul_0_l, Z.add_0_r.
  - intros j [s1 st1] Hj (els' & rows' & -> & Hlen & Hrows & Hs1 & Hl1 & Hal & Ho1). cbn [fst snd] in *.
    set (j := length rows') in *.
    pose proof (list_count _ _ Hl) as Hc0. pose proof (list_count _ _ Hl1) as Hc1.
    rewrite length_app in Hc1.
    eapply outcome_mono; [eapply (parse_element_spec s1 st1 _ _ h0 (po + Z.of_nat j * row_size name));
      [exact Hs1|nia|nia|exact Hl1|lia|exact Ho1]| |].
    + intros [s2 st2] (el & r & He & Hs2 & Hl2 & Hal2 & Ho2).
      exists (els' ++ [el]), (rows' ++ [r]). rewrite !app_assoc, !length_app. cbn [length fst snd].
      split_and!; [lia|lia| | |done|congruence|done].
      * intros i r'. destruct (decide (i < j)%nat).
        { rewrite lookup_app_l by done. apply Hrows. }
        rewrite lookup_app_r by lia. destruct (i - length rows')%nat as [|k] eqn:Hi; [|by destruct k].
        cbn. intros [= <-]. by replace i with j by lia.
      * by replace (po + (Z.of_nat j + 1) * row_size name)
          with (po + Z.of_nat j * row_size name + row_size name) by lia.
    + intros st2 [-> Hcause]. split; [|exists rows', els'; done].
      destruct Hcause as [?|Hno]; [by left|right]. exists j. split; [lia|done].
  - intros [s' st'] (els' & rows' & Hn & Hlen & Hrows & Hs' & Hl' & _ & Ho').
    exists rows'. split_and!; [lia|done|by eexists|by exists els'].
Qed.

Lemma parse_signature_spec s st els rows h0 :
  stream_at s D chunk_start -> list_ok (ss_list st) els -> owns (ss_heap st) els rows h0 ->
  outcome (parse_signature s chunk_start chunk_end name st)
    (fun '(s', st') => exists rows', signature_table name c rows' /\
       (exists p, stream_at s' D p) /\ keeps els rows h0 st' rows')
    (fun st' => (memory_failed \/ forall rows', signature_table name c rows' ->
                   INT_MAX < Z.of_nat (length els) + Z.of_nat (length rows')) /\
                exists rows', keeps els rows h0 st' rows').
Proof.
  intros Hs Hl Howns. pose proof row_size_range as Hrs. pose proof size_chunk as Hsc.
  pose proof (list_capacity _ _ Hl) as Hcap. pose proof (list_count _ _ Hl) as Hcount.
  assert (Hkeep : exists rows', keeps els rows h0 st rows').
  { exists [], []. by rewrite !app_nil_r. }
  unfold parse_signature. fold (row_size name).
  apply outcome_bind, (outcome_read_at s chunk_start); [done|lia| |].
  2:{ intros. split; [right; intros ? []; lia|done]. }
  intros Hr0. pose proof (stream_at_seek _ _ _ (chunk_start + 4) Hs) as Hs1.
  apply outcome_bind, (outcome_read_at _ (chunk_start + 4)); [done|lia| |].
  2:{ intros. split; [right; intros ? []; lia|done]. }
  intros Hr4. replace (chunk_start + 4 + 4) with (chunk_start + 8) by lia.
  pose proof (stream_at_seek _ _ _ (chunk_start + 8) Hs1) as Hs2. rewrite (at_position _ _ _ Hs2).
  destruct (Z.ltb_spec chunk_end (chunk_start + 8)) as [Hshort|Hfit]; cbn [orb outcome].
  { split; [right; intros ? []; lia|done]. }
  assert (Hw0 : word D chunk_start = word c 0) by (rewrite <- chunk_word by lia; f_equal; lia).
  rewrite Hw0, chunk_word by lia.
  set (n := word c 0) in *. set (po := word c 4) in *.
  assert (Hn : in_u32 n) by (apply le32_range; lia). assert (Hp : in_u32 po) by (apply le32_range; lia).
  unfold in_u32, INT_MAX in *.
  rewrite (proj2 (Z.ltb_ge _ 0)), (proj2 (Z.ltb_ge (sl_allocation _) _)) by lia.
  assert (Hnonnull : (0 <? sl_allocation (ss_list st)) &&
                     negb (bool_decide (is_Some (sl_elements (ss_list st)))) = false).
  { apply andb_false_iff. destruct (Z.ltb_spec 0 (sl_allocation (ss_list st))); [right|by left].
    apply negb_false_iff, bool_decide_eq_true. apply not_eq_None_Some.
    rewrite (list_null _ _ Hl). lia. }
  rewrite Hnonnull. cbn [orb]. rewrite !(u64_small (chunk_end - chunk_start)), !(u64_small (chunk_start + po)),
    !(u32_small (2147483647 - _)) by lia.
  apply outcome_if; intros Hc.
  { split; [|done]. right. intros rows' [_ Hcnt Hoff Hroom _]. fold po in Hoff, Hroom. fold n in Hcnt.
    rewrite u64_small in Hc by nia. rewrite !orb_true_iff, !Z.ltb_lt in Hc.
    assert (n <= (chunk_end - (chunk_start + po)) / row_size name) by (apply Z.div_le_lower_bound; nia).
    unfold INT_MAX. nia. }
  bools. rewrite u64_small in * by lia.
  assert (Hnr : n * row_size name <= size c - po).
  { pose proof (Z.mul_div_le (chunk_end - (chunk_start + po)) (row_size name) ltac:(lia)). nia. }
  assert (Hns : n <= size c) by nia.
  apply outcome_bind, outcome_or_fail.
  eapply outcome_mono; [apply (reserve_list_spec _ els n Hl); unfold INT_MAX; lia| |].
  2:{ intros [] Hm. split; [by left|done]. }
  intros a [Ha Hl']. set (l' := if bool_decide _ then _ else _) in *.
  eapply outcome_mono; [apply (parse_rows_spec els rows h0 (Z.to_nat n))| |].
  - fold po. lia.
  - fold po. rewrite Z2Nat.id by lia. lia.
  - by eapply stream_at_seek.
  - done.
  - cbn [ss_list]. rewrite Z2Nat.id by lia. unfold l'.
    destruct (bool_decide_reflect (sl_allocation (ss_list st) = a)) as [->|]; exact Ha.
  - done.
  - intros [s' st'] (rows' & Hlen & Hrows & Hs' & Hk). exists rows'. split; [|done].
    split; [lia|fold n; lia|fold po; lia| |done]. fold po. rewrite Hlen, Z2Nat.id by lia. lia.
  - intros st' [Hcause Hk]. split; [|done]. destruct Hcause as [?|(j & Hj & Hno)]; [by left|right].
    intros rows' [_ Hcnt _ _ Hrows]. fold n in Hcnt.
    destruct (lookup_lt_is_Some_2 rows' j) as [r Hr]; [lia|]. by apply Hrows, Hno in Hr.
Qed.
End chunk.

(** * Properties *)

Lemma signature_entry_fun name c off r r' :
  signature_entry name c off r -> signature_entry name c off r' -> r = r'.
Proof.
  intros [_ Hn _ Hr _] [_ Hn' _ Hr' _]. rewrite Hr, Hr'. by rewrite (c_string_fun _ _ _ Hn Hn').
Qed.

Lemma signature_table_fun name c rows rows' :
  signature_table name c rows -> signature_table name c rows' -> rows = rows'.
Proof.
  intros [_ Hc _ _ Hr] [_ Hc' _ _ Hr']. apply list_eq. intros i.
  destruct (rows !! i) as [r|] eqn:Hi, (rows' !! i) as [r'|] eqn:Hi'; [|exfalso..|done].
  - f_equal. by eapply signature_entry_fun; [apply Hr|apply Hr'].
  - apply lookup_ge_None in Hi'. apply lookup_lt_Some in Hi. lia.
  - apply lookup_ge_None in Hi. apply lookup_lt_Some in Hi'. lia.
Qed.

Lemma grants_fun h el s t h1 h2 : grants h1 el s h -> grants h2 el t h -> s = t /\ h1 = h2.
Proof.
  intros [_ _ _ _ Hs] [_ _ _ _ Ht]. destruct (el_semantic_name_extended el) as [p|].
  - destruct Hs as [Hp ->], Ht as [Hq Heq]. pose proof (f_equal (lookup p) Heq) as Hl.
    rewrite !lookup_insert_eq in Hl. injection Hl as Hl. apply app_inj_tail in Hl as [-> _].
    split; [done|]. apply (f_equal (delete p)) in Heq. by rewrite !delete_insert_id in Heq.
  - destruct Hs as [Hs ->], Ht as [Ht ->]. split; [by eapply c_string_fun|done].
Qed.

Lemma owns_rows_fun h els r1 r2 h0 h0' : owns h els r1 h0 -> owns h els r2 h0' -> r1 = r2.
Proof.
  intros H1. revert r2. induction H1 as [h|h h1 h0 e els s rows Hg Ho IH]; intros r2 H2; inversion H2; subst.
  - done.
  - match goal with Hg' : grants _ e _ h |- _ => destruct (grants_fun _ _ _ _ _ _ Hg Hg') as [-> ->] end.
    f_equal. by apply IH.
Qed.

Section properties.
Context `{U : UnityCommon} {HU : UnityCommonSpec U} `{M : FreshMemory}.
Context `{S : ByteStreamOps} {HS : ByteStreamSpec S}.

(** C22: [parse_signature] succeeds exactly on well-formed signature tables, and
    then appends to the array the rows the table encodes: [rows'] is a table's
    content if and only if the run returns with an array that holds [rows']
    after what it held before. *)
Theorem parse_signature_reads_table {HM : MemoryAvailable U}
    name D chunk_start chunk_end s st els rows h0 rows' :
  0 <= chunk_start <= chunk_end -> chunk_end <= size D ->
  Z.of_nat (length els) + size D <= INT_MAX ->
  stream_at s D chunk_start -> list_ok (ss_list st) els -> owns (ss_heap st) els rows h0 ->
  signature_table name (slice D chunk_start (chunk_end - chunk_start)) rows' <->
  exists s' st', parse_signature s chunk_start chunk_end name st = Ret (s', st') /\
                 keeps els rows h0 st' rows'.
Proof.
  intros Hc He Hmax Hs Hl Ho. assert (HD : size D < 2 ^ 32) by (unfold INT_MAX in Hmax; lia).
  pose proof (parse_signature_spec name D chunk_start chunk_end (conj Hc He) HD
    s st els rows h0 Hs Hl Ho) as Hspec.
  destruct (parse_signature s chunk_start chunk_end name st) as [[s' st']|st'|]; [| |done]; cbn in Hspec.
  - destruct Hspec as (rows1 & Ht1 & _ & Hk1). split.
    + intros Ht. exists s', st'. split; [done|]. by rewrite <- (signature_table_fun _ _ _ _ Ht1 Ht).
    + intros (s2 & st2 & [= <- <-] & els2 & Hl2 & Ho2). destruct Hk1 as (els1 & Hl1 & Ho1).
      rewrite <- (list_elements _ _ Hl1), (list_elements _ _ Hl2) in Ho1.
      pose proof (owns_rows_fun _ _ _ _ _ _ Ho1 Ho2) as Heq. by apply app_inv_head in Heq as <-.
  - destruct Hspec as [[Hm|Hno] _]; [by apply memory_available_not_failed in Hm|].
    split; [intros Ht|by intros (? & ? & ? & _)]. exfalso. pose proof (Hno _ Ht).
    destruct Ht as [_ _ Hoff Hroom _]. pose proof (row_size_range name).
    assert (size (slice D chunk_start (chunk_end - chunk_start)) <= size D) by (rewrite size_slice by lia; lia).
    nia.
Qed.

(** The array has been handed back to the allocator as [dxbc_free] does it. *)
Definition releases_to (h0 : heap) (st : signature_state) : Prop :=
  exists freed, free_signature_list_elements (E:=unit) (ss_heap st) (sl_elements (ss_list st))
                  (sl_count (ss_list st)) = Ret (h0, freed).

Lemma keeps_releases rows' h0 st : keeps [] [] h0 st rows' -> releases_to h0 st.
Proof.
  intros (els & [He Hc Hcap Hn] & Ho). cbn in *. unfold releases_to. rewrite Hc.
  destruct (sl_elements (ss_list st)) as [es|]; cbn in He; subst.
  - eexists. by eapply free_list_spec.
  - inversion Ho; subst. by eexists.
Qed.

(** C34: whatever the bytes of the chunk, [parse_signature] ends without undefined
    behaviour and leaks nothing: freeing the elements of the array it leaves
    behind, after success and after failure alike, is defined and gives back
    exactly the memory there was before. *)
Theorem parse_signature_releases name D chunk_start chunk_end s h0 :
  0 <= chunk_start <= chunk_end -> chunk_end <= size D -> size D < 2 ^ 32 ->
  stream_at s D chunk_start ->
  outcome (parse_signature s chunk_start chunk_end name
             {| ss_heap := h0; ss_list := empty_signature_list |})
    (fun r => releases_to h0 r.2) (releases_to h0).
Proof.
  intros Hc He HD Hs.
  eapply outcome_mono; [apply (parse_signature_spec name D chunk_start chunk_end (conj Hc He) HD
    s _ [] [] h0 Hs)| |].
  - split; cbn; try done.
  - constructor.
  - intros [s' st'] (rows' & _ & _ & Hk). by eapply keeps_releases.
  - intros st' [_ [rows' Hk]]. by eapply keeps_releases.
Qed.

(** On an element whose name is stored as the parser stores it, the validity
    test is defined and decides the row rules: lanes, enumerations, the
    role-dependent fields, and a semantic that is an identifier and may stand
    with the system value. *)
Theorem dxbc_signature_element_is_valid_iff {E} h el s role :
  named h el s -> typed_row (row_of el s) ->
  exists b, dxbc_signature_element_is_valid (E:=E) h (Some el) role = Ret b /\
            (b = true <-> valid_row role (row_of el s)).
Proof. apply element_is_valid_spec. Qed.

(** A clone is deep.  When memory is there, cloning succeeds with an element
    that says the same row; freeing the original leaves the clone intact, and
    freeing both leaves only what was there before the original. *)
Theorem dxbc_signature_element_clone_deep {E} {HM : MemoryAvailable U} h0 h el s d :
  grants h0 el s h ->
  exists h' copy h1,
    dxbc_signature_element_clone (E:=E) h (Some d) (Some el) false = Ret (true, h', Some copy) /\
    row_of copy s = row_of el s /\ named h' el s /\
    dxbc_signature_element_free (E:=E) h' (Some el) = Ret (h1, Some zero_element) /\
    named h1 copy s /\
    dxbc_signature_element_free (E:=E) h1 (Some copy) = Ret (h0, Some zero_element).
Proof.
  intros Hg. unfold dxbc_signature_element_clone.
  assert (Hcopy : exists h' copy, grants h copy s h' /\ row_of copy s = row_of el s /\
    dxbc_signature_element_clone (E:=E) h (Some d) (Some el) false = Ret (true, h', Some copy)).
  { destruct Hg as [Hl Hs Ht Hi Hst]. unfold dxbc_signature_element_clone.
    destruct (el_semantic_name_extended el) as [p|] eqn:Hext.
    - destruct Hst as [Hp ->]. pose proof (size_nonneg s) as H0.
      assert (Hsz : size (s ++ [Byte.x00]) = size s + 1) by by rewrite size_app.
      rewrite Hl, (proj2 (Z.eqb_neq _ _)) by lia.
      rewrite (deref_ok _ p (s ++ [Byte.x00])) by apply lookup_insert_eq. mstep.
      rewrite (load8_ok _ _ Byte.x00); [|done|].
      2:{ unfold size. rewrite Nat2Z.id, lookup_app_r, Nat.sub_diag by lia. done. }
      mstep. change (negb (byte_val Byte.x00 =? 0)) with false. cbn iota.
      unfold SIZE_MAX in Hs. rewrite u64_small by lia.
      match goal with |- context [heap_alloc ?g ?n] =>
        pose proof (heap_alloc_spec g n ltac:(lia)) as Ha; destruct (heap_alloc g n) as [[q h1]|] end.
      2:{ by apply memory_available_not_failed in Ha. }
      destruct Ha as (Hq & block & Hb & ->). rewrite view_ok by lia. mstep.
      rewrite <- Hsz, slice_0, store_all by lia. mstep.
      eexists _, _. split; [|split; [|reflexivity]]; [|done].
      split; cbn; try done; unfold SIZE_MAX; lia.
    - destruct Hst as [Hst ->]. eexists _, _. split; [|split; [|reflexivity]]; [|done].
      split; cbn; try done. }
  destruct Hcopy as (h' & copy & Hgc & Hrow & Heq).
  destruct (grants_swap _ _ _ _ _ _ _ Hg Hgc) as (h1 & Hgc1 & Hg1).
  exists h', copy, h1. split; [exact Heq|]. split; [done|]. split; [by eapply grants_named|].
  split; [by apply (element_free_spec (E:=E) h1 el s h')|].
  split; [by eapply grants_named|by apply (element_free_spec (E:=E) h0 copy s h1)].
Qed.
End properties.

(** * Examples *)

#[local] Existing Instance unity_common_ref.
#[local] Existing Instance unity_common_ref_spec.
#[local] Existing Instance unity_common_ref_memory.
#[local] Existing Instance byte_stream_ref.
#[local] Existing Instance byte_stream_ref_spec.
#[local] Instance blank_memory : FreshMemory := fun _ => Byte.x00.

(** An ISGN table: a semantic of 70 letters, and a position. *)
Definition long_semantic : list byte := replicate 70 Byte.x41.

Definition sample_signature : list byte :=
  ([2; 8; 56; 0; 0; 3; 0; 0x0f0f; 127; 0; 1; 3; 1; 0x070f] ≫= le_bytes 4) ++
  long_semantic ++ [Byte.x00] ++ c_literal "sv_Position".

Definition sample_signature_stream : ByteStream :=
  stream_set_endian (stream_init sample_signature) false.

Definition empty_signature_state : signature_state :=
  {| ss_heap := ∅; ss_list := empty_signature_list |}.

Definition sample_name : list byte := String.list_byte_of_string "ISGN".

Lemma sample_stream_at : stream_at sample_signature_stream sample_signature 0.
Proof. by split. Qed.

Lemma empty_list_ok : list_ok empty_signature_list [].
Proof. by split. Qed.

(** Both rows are read; the long name is in a block of its own. *)
Example sample_signature_parses :
  match parse_signature sample_signature_stream 0 (size sample_signature) sample_name
          empty_signature_state with
  | Ret (_, st) =>
      el_semantic_name_length <$> default [] (sl_elements (ss_list st)) = [70; 11] /\
      (map_to_list (ss_heap st)).*2 = [long_semantic ++ [Byte.x00]]
  | _ => False
  end.
Proof. vm_compute. split; reflexivity. Qed.

Lemma parse_signature_reads_table_witness :
  size sample_signature = 139 /\
  forall rows',
    signature_table sample_name (slice sample_signature 0 (size sample_signature - 0)) rows' <->
    exists s' st', parse_signature sample_signature_stream 0 (size sample_signature) sample_name
                     empty_signature_state = Ret (s', st') /\
                   keeps [] [] ∅ st' rows'.
Proof.
  assert (Hs : size sample_signature = 139) by (vm_compute; reflexivity).
  split; [exact Hs|]. intros rows'.
  apply (parse_signature_reads_table sample_name sample_signature 0 (size sample_signature)
    sample_signature_stream empty_signature_state [] [] ∅ rows').
  - rewrite Hs. lia.
  - lia.
  - rewrite Hs. vm_compute. discriminate.
  - exact sample_stream_at.
  - exact empty_list_ok.
  - constructor.
Defined.

Lemma parse_signature_releases_witness :
  size sample_signature = 139 /\
  outcome (parse_signature sample_signature_stream 0 (size sample_signature) sample_name
             empty_signature_state)
    (fun r => releases_to ∅ r.2) (releases_to ∅).
Proof.
  assert (Hs : size sample_signature = 139) by (vm_compute; reflexivity).
  split; [exact Hs|].
  apply (parse_signature_releases sample_name sample_signature 0 (size sample_signature)).
  - rewrite Hs. lia.
  - lia.
  - rewrite Hs. lia.
  - exact sample_stream_at.
Defined.

(** A position element with an inline name, and one with a long name. *)
Definition position_element : DXBCSignatureElement :=
  {| el_semantic_name := c_literal "SV_Position" ++ replicate 52 Byte.x00;
     el_semantic_name_extended := None; el_semantic_name_length := 11; el_stream_index := 0;
     el_semantic_index := 0; el_system_value := 1; el_component_type := 3; el_register_id := 0;
     el_min_precision := 0; el_interpolation_mode := 0; el_mask := 15; el_rw_mask := 7 |}.

Definition long_element : DXBCSignatureElement :=
  position_element <| el_semantic_name_extended := Some 1%positive |>
                   <| el_semantic_name_length := 70 |>.

Lemma dxbc_signature_element_is_valid_iff_witness :
  named ∅ position_element (String.list_byte_of_string "SV_Position") /\
  typed_row (row_of position_element (String.list_byte_of_string "SV_Position")) /\
  exists b, dxbc_signature_element_is_valid (E:=unit) ∅ (Some position_element) 0 = Ret b /\
    (b = true <->
     valid_row 0 (row_of position_element (String.list_byte_of_string "SV_Position"))).
Proof.
  assert (Hn : named ∅ position_element (String.list_byte_of_string "SV_Position")).
  { split; [reflexivity|vm_compute; reflexivity|apply literal_text; reflexivity|reflexivity|].
    exists (replicate 52 Byte.x00). split; [reflexivity|apply literal_text; reflexivity]. }
  assert (Ht : typed_row (row_of position_element (String.list_byte_of_string "SV_Position"))).
  { split; cbn; unfold in_u32, in_u8; lia. }
  split; [exact Hn|]. split; [exact Ht|].
  exact (dxbc_signature_element_is_valid_iff ∅ position_element _ 0 Hn Ht).
Defined.

Lemma dxbc_signature_element_clone_deep_witness :
  grants ∅ long_element long_semantic {[ 1%positive := long_semantic ++ [Byte.x00] ]} /\
  exists h' copy,
    dxbc_signature_element_clone (E:=unit) {[ 1%positive := long_semantic ++ [Byte.x00] ]}
      (Some zero_element) (Some long_element) false = Ret (true, h', Some copy).
Proof.
  assert (Hg : grants ∅ long_element long_semantic {[ 1%positive := long_semantic ++ [Byte.x00] ]}).
  { split; [reflexivity|vm_compute; reflexivity| |reflexivity|split; reflexivity].
    intros Hin. apply elem_of_replicate in Hin as [Heq _]. discriminate Heq. }
  split; [exact Hg|].
  destruct (dxbc_signature_element_clone_deep (E:=unit) _ _ _ _ zero_element Hg)
    as (h' & copy & h1 & Heq & _).
  exists h', copy. exact Heq.
Defined.

(** An inline name without a terminator is scanned past its end: the identifier
    test runs before the test for the terminator. *)
Example unterminated_inline_name_overread :
  dxbc_signature_element_is_valid (E:=unit) ∅
    (Some (position_element <| el_semantic_name := replicate 64 Byte.x41 |>)) 0 = Undef.
Proof. vm_compute. reflexivity. Qed.
