(* ===== verification/Resources.v ===== *)
(** Resource declaration tables: [dxbc_find_resource_declaration] and
    [dxbc_get_or_add_resource_declaration] of [src/dxbc/dxbc_parser.c]. *)

From stdpp Require Import gmap sorting.
From S2P Require Import Prelude UnityCommon Heap ByteStream Signature SignatureCorrect.
From S2P Require Import SignatureParse.

(** * Data *)

Record DXBCResourceDecl := {
  decl_register_index : Z;
  decl_dim_name : list byte;
  decl_ret_types : list byte;
  decl_dimension : Z;
  decl_return_types : list Z;
  decl_sample_count : Z;
  decl_stride : Z;
  decl_is_structured : bool;
  decl_globally_coherent : bool;
  decl_rasterizer_ordered : bool;
  decl_has_order_preserving_counter : bool;
  decl_declared : bool;
}.

(** [memset(declaration, 0, ...)], then the register index. *)
Definition new_declaration (register_index : Z) : DXBCResourceDecl :=
  {| decl_register_index := register_index; decl_dim_name := replicate 32 Byte.x00;
     decl_ret_types := replicate 64 Byte.x00; decl_dimension := 0; decl_return_types := [0; 0; 0; 0];
     decl_sample_count := 0; decl_stride := 0; decl_is_structured := false;
     decl_globally_coherent := false; decl_rasterizer_ordered := false;
     decl_has_order_preserving_counter := false; decl_declared := false |}.

Definition RESOURCE_DECL_SIZE : Z := 124.

(** [(resources, resource_count, resource_alloc)], or the same of [uavs]: an
    array of which the first [count] elements are initialised. *)
Record resource_table := {
  rt_declarations : option (list DXBCResourceDecl);
  rt_count : Z;
  rt_allocation : Z;
}.

Definition empty_resource_table : resource_table :=
  {| rt_declarations := None; rt_count := 0; rt_allocation := 0 |}.

(** The two tables of a [DXBCContainer]. *)
Record resource_tables := { resources : resource_table; uavs : resource_table }.

Definition table_of (container : resource_tables) (uav : bool) : resource_table :=
  if uav then uavs container else resources container.

Definition with_table (container : resource_tables) (uav : bool) (t : resource_table)
    : resource_tables :=
  if uav then {| resources := resources container; uavs := t |}
  else {| resources := t; uavs := uavs container |}.

(** * Operations

    A pointer into the array is its index. *)

Section operations.
Context `{U : UnityCommon} {E : Type}.

(** The loop of [dxbc_find_resource_declaration], [n] iterations from [index]. *)
Fixpoint find_declaration (declarations : list DXBCResourceDecl) (register_index : Z)
    (n : nat) (index : Z) : res E (option Z) :=
  match n with
  | O => Ret None
  | S n =>
      match declarations !! Z.to_nat index with
      | None => Undef
      | Some d =>
          if decl_register_index d =? register_index then Ret (Some index)
          else if register_index <? decl_register_index d then Ret None
          else find_declaration declarations register_index n (index + 1)
      end
  end.

Definition dxbc_find_resource_declaration (container : option resource_tables)
    (register_index : Z) (uav : bool) : res E (option Z) :=
  match container with
  | None => Ret None
  | Some container =>
      if register_index <? 0 then Ret None else
      let t := table_of container uav in
      if (rt_count t <? 0) ||
         ((0 <? rt_count t) && negb (bool_decide (is_Some (rt_declarations t)))) then Ret None
      else find_declaration (default [] (rt_declarations t)) register_index
             (Z.to_nat (rt_count t)) 0
  end.

(** The [while] loop of [dxbc_get_or_add_resource_declaration]: the first
    position whose register is not below. *)
Fixpoint insertion_position (declarations : list DXBCResourceDecl) (register_index : Z)
    (n : nat) (position : Z) : res E Z :=
  match n with
  | O => Ret position
  | S n =>
      match declarations !! Z.to_nat position with
      | None => Undef
      | Some d =>
          if decl_register_index d <? register_index
          then insertion_position declarations register_index n (position + 1)
          else Ret position
      end
  end.

(** The result is the index of the declaration, with the container it is in. *)
Definition dxbc_get_or_add_resource_declaration (container : option resource_tables)
    (register_index : Z) (uav : bool) : res E (option Z * option resource_tables) :=
  match container with
  | None => Ret (None, None)
  | Some c =>
      if register_index <? 0 then Ret (None, container) else
      let t := table_of c uav in
      let is_null := negb (bool_decide (is_Some (rt_declarations t))) in
      if (rt_count t <? 0) || (rt_allocation t <? rt_count t) ||
         negb (eqb (rt_allocation t =? 0) is_null) then Ret (None, container) else
      let declarations := default [] (rt_declarations t) in
      position ← insertion_position declarations register_index (Z.to_nat (rt_count t)) 0;
      present ← (if position <? rt_count t then
                   match declarations !! Z.to_nat position with
                   | None => Undef
                   | Some d => Ret (decl_register_index d =? register_index)
                   end
                 else Ret false);
      if present : bool then Ret (Some position, container) else
      if rt_count t =? INT_MAX then Ret (None, container) else
      reserved ← attempt (reserve_array is_null (rt_allocation t) (rt_count t + 1) RESOURCE_DECL_SIZE);
      match reserved with
      | None => Ret (None, container)
      | Some allocation =>
          if rt_count t <? allocation then
            let initialised := take (Z.to_nat (rt_count t)) declarations in
            let moved := take (Z.to_nat position) initialised ++
                         new_declaration register_index :: drop (Z.to_nat position) initialised in
            Ret (Some position,
                 Some (with_table c uav {| rt_declarations := Some moved; rt_count := rt_count t + 1;
                                           rt_allocation := allocation |}))
          else Undef
      end
  end.
End operations.

(** * Correctness *)

Definition registers (els : list DXBCResourceDecl) : list Z := decl_register_index <$> els.

(** A table as a map from registers to declarations. *)
Definition as_map (els : list DXBCResourceDecl) : gmap Z DXBCResourceDecl :=
  list_to_map ((fun d => (decl_register_index d, d)) <$> els).

(** What every operation maintains: distinct registers, in order. *)
Record table_ok (t : resource_table) (els : list DXBCResourceDecl) : Prop := {
  rt_elements_ok : default [] (rt_declarations t) = els;
  rt_count_ok : rt_count t = Z.of_nat (length els);
  rt_capacity_ok : rt_count t <= rt_allocation t <= INT_MAX;
  rt_null_ok : rt_declarations t = None <-> (rt_allocation t = 0);
  rt_sorted_ok : StronglySorted Z.lt (registers els);
}.

Lemma sorted_distinct (l : list Z) : StronglySorted Z.lt l -> NoDup l.
Proof.
  induction 1 as [|x l Hs IH Hx]; [constructor|]. constructor; [|done].
  intros Hin. rewrite list.Forall_forall in Hx. apply Hx in Hin. lia.
Qed.

Lemma as_map_lookup els r d :
  NoDup (registers els) -> as_map els !! r = Some d <-> d ∈ els /\ decl_register_index d = r.
Proof.
  intros Hnd. unfold as_map. rewrite <- elem_of_list_to_map.
  - rewrite list_elem_of_fmap. split.
    + by intros (? & [= -> ->] & ?).
    + intros [? <-]. eauto.
  - by rewrite <- list_fmap_compose.
Qed.

Lemma as_map_insert l1 d l2 :
  NoDup (registers (l1 ++ d :: l2)) ->
  as_map (l1 ++ d :: l2) = <[decl_register_index d := d]> (as_map (l1 ++ l2)).
Proof.
  intros Hnd. unfold as_map. rewrite <- list_to_map_cons. apply list_to_map_proper.
  - by rewrite <- list_fmap_compose.
  - rewrite !fmap_app, fmap_cons. by rewrite Permutation_middle.
Qed.

Lemma sorted_cons d els :
  StronglySorted Z.lt (registers (d :: els)) <->
  Forall (fun e => decl_register_index d < decl_register_index e) els /\
  StronglySorted Z.lt (registers els).
Proof.
  change (registers (d :: els)) with (decl_register_index d :: registers els).
  unfold registers. rewrite StronglySorted_cons, list.Forall_fmap. done.
Qed.

(** Where a register belongs. *)
Lemma split_at_register els r :
  StronglySorted Z.lt (registers els) ->
  exists l1 l2, els = l1 ++ l2 /\
    Forall (fun d => decl_register_index d < r) l1 /\ Forall (fun d => r <= decl_register_index d) l2.
Proof.
  induction els as [|d els IH]; intros Hs; [by exists [], []|].
  apply sorted_cons in Hs as [Hd Hs].
  destruct (Z.lt_ge_cases (decl_register_index d) r) as [Hlt|Hge].
  - destruct (IH Hs) as (l1 & l2 & -> & H1 & H2). exists (d :: l1), l2.
    split; [done|]. split; [by constructor|done].
  - exists [], (d :: els). split; [done|]. split; [constructor|]. constructor; [done|].
    eapply list.Forall_impl; [exact Hd|].
    intros e He. cbn in He. lia.
Qed.

Lemma split_cases l1 l2 r :
  StronglySorted Z.lt (registers (l1 ++ l2)) -> Forall (fun d => r <= decl_register_index d) l2 ->
  (exists e l, l2 = e :: l /\ decl_register_index e = r) \/
  Forall (fun d => r < decl_register_index d) l2.
Proof.
  intros Hs H2. destruct l2 as [|e l]; [right; apply list.Forall_nil_2|].
  inversion H2 as [|? ? Hge H2']; subst.
  destruct (decide (decl_register_index e = r)) as [Heq|Hne]; [left; eauto|right].
  unfold registers in Hs. rewrite fmap_app in Hs. apply StronglySorted_app_1_r in Hs.
  apply (sorted_cons e l) in Hs as [Hall _]. constructor; [lia|].
  eapply list.Forall_impl; [exact Hall|]. intros d Hd. cbn in Hd. lia.
Qed.

Section correct.
Context `{U : UnityCommon} {HU : UnityCommonSpec U} {E : Type}.

Lemma insertion_position_spec pre l1 l2 r :
  Forall (fun d => decl_register_index d < r) l1 -> Forall (fun d => r <= decl_register_index d) l2 ->
  insertion_position (E:=E) (pre ++ l1 ++ l2) r (length (l1 ++ l2)) (Z.of_nat (length pre)) =
    Ret (Z.of_nat (length (pre ++ l1))).
Proof.
  intros H1 H2. revert pre. induction H1 as [|d l1 Hd H1 IH]; intros pre.
  - rewrite app_nil_r. cbn [app]. destruct H2 as [|d l2 Hd H2]; [done|]. cbn [length insertion_position].
    rewrite Nat2Z.id, list_lookup_middle by done. by rewrite (proj2 (Z.ltb_ge _ _)).
  - cbn [app length insertion_position]. rewrite Nat2Z.id, list_lookup_middle by done.
    rewrite (proj2 (Z.ltb_lt _ _)) by done.
    replace (Z.of_nat (length pre) + 1) with (Z.of_nat (length (pre ++ [d])))
      by (rewrite length_app; cbn [length]; lia).
    replace (pre ++ d :: l1 ++ l2) with ((pre ++ [d]) ++ l1 ++ l2) by by rewrite <- app_assoc.
    rewrite IH. by rewrite <- app_assoc.
Qed.

Lemma find_declaration_spec pre l r :
  StronglySorted Z.lt (registers l) ->
  exists o, find_declaration (E:=E) (pre ++ l) r (length l) (Z.of_nat (length pre)) = Ret o /\
    match o with
    | Some i => exists d, (pre ++ l) !! Z.to_nat i = Some d /\ d ∈ l /\ decl_register_index d = r
    | None => forall d, d ∈ l -> decl_register_index d <> r
    end.
Proof.
  revert pre. induction l as [|d l IH]; intros pre Hs.
  { exists None. split; [done|]. intros d Hd. by apply elem_of_nil in Hd. }
  apply sorted_cons in Hs as [Hd Hs].
  cbn [length find_declaration]. rewrite Nat2Z.id, list_lookup_middle by done.
  destruct (Z.eqb_spec (decl_register_index d) r) as [Heq|Hne].
  { eexists. split; [done|]. exists d. rewrite Nat2Z.id, list_lookup_middle by done.
    split; [done|]. split; [left|done]. }
  destruct (Z.ltb_spec r (decl_register_index d)) as [Hlt|Hge].
  { exists None. split; [done|]. intros e [->|He]%elem_of_cons; [done|].
    rewrite list.Forall_forall in Hd. apply Hd in He. cbn in He. lia. }
  destruct (IH (pre ++ [d]) Hs) as (o & Ho & Hspec). rewrite <- !app_assoc in *. cbn [app] in *.
  rewrite length_app, Nat2Z.inj_add in Ho. exists o. split; [exact Ho|].
  destruct o as [i|].
  - destruct Hspec as (e & He & Hin & Hr). exists e. split; [done|]. split; [by right|done].
  - intros e [->|He]%elem_of_cons; [done|]. by apply Hspec.
Qed.

Lemma find_resource_spec c els r uav :
  table_ok (table_of c uav) els -> 0 <= r ->
  exists o, dxbc_find_resource_declaration (E:=E) (Some c) r uav = Ret o /\
            (o ≫= fun i => els !! Z.to_nat i) = as_map els !! r.
Proof.
  intros [He Hc Hcap Hn Hs] Hr. unfold dxbc_find_resource_declaration.
  rewrite (proj2 (Z.ltb_ge r 0)) by done.
  assert (Hskip : (rt_count (table_of c uav) <? 0) ||
    ((0 <? rt_count (table_of c uav)) &&
     negb (bool_decide (is_Some (rt_declarations (table_of c uav))))) = false).
  { rewrite (proj2 (Z.ltb_ge _ 0)) by lia. cbn [orb]. apply andb_false_iff.
    destruct (rt_declarations (table_of c uav)) as [ds|]; [by right|]. left.
    cbn in He. subst els. rewrite Hc. done. }
  rewrite Hskip, He, Hc, Nat2Z.id.
  destruct (find_declaration_spec [] els r Hs) as (o & Ho & Hspec).
  exists o. split; [exact Ho|]. pose proof (sorted_distinct _ Hs) as Hnd.
  destruct o as [i|]; cbn.
  - destruct Hspec as (d & Hd & Hin & Hreg). change ([] ++ els) with els in Hd. rewrite Hd.
    symmetry. by apply as_map_lookup.
  - symmetry. apply eq_None_not_Some. intros [d Hd]. apply as_map_lookup in Hd as [Hin Hreg]; [|done].
    by apply Hspec in Hin.
Qed.

(** Adding a missing register keeps the table in order and adds one entry. *)
Lemma add_register l1 l2 r :
  StronglySorted Z.lt (registers (l1 ++ l2)) ->
  Forall (fun d => decl_register_index d < r) l1 -> Forall (fun d => r < decl_register_index d) l2 ->
  StronglySorted Z.lt (registers (l1 ++ new_declaration r :: l2)) /\
  as_map (l1 ++ new_declaration r :: l2) = <[r := new_declaration r]> (as_map (l1 ++ l2)) /\
  as_map (l1 ++ l2) !! r = None.
Proof.
  intros Hs H1 H2.
  assert (Hs' : StronglySorted Z.lt (registers (l1 ++ new_declaration r :: l2))).
  { induction H1 as [|d l1 Hd H1 IH]; cbn [app] in *.
    - apply sorted_cons. split; [|done]. eapply list.Forall_impl; [exact H2|]. done.
    - apply sorted_cons in Hs as [Hall Hs]. apply sorted_cons. split; [|by apply IH].
      apply list.Forall_app in Hall as [Ha Hb]. apply list.Forall_app. split; [done|].
      by constructor. }
  split; [done|]. split.
  { apply (as_map_insert l1 (new_declaration r) l2). by apply sorted_distinct. }
  apply eq_None_not_Some. intros [d Hd].
  apply as_map_lookup in Hd as [Hin Hreg]; [|by apply sorted_distinct].
  apply elem_of_app in Hin as [Hin|Hin]; rewrite list.Forall_forall in H1, H2;
    [apply H1 in Hin|apply H2 in Hin]; lia.
Qed.

(** The test for an existing declaration at the insertion position. *)
Lemma absent_test l1 l2 r :
  Forall (fun d => r < decl_register_index d) l2 ->
  (if Z.of_nat (length l1) <? Z.of_nat (length (l1 ++ l2)) then
     match (l1 ++ l2) !! length l1 with
     | None => Undef
     | Some d => Ret (decl_register_index d =? r)
     end
   else Ret false) = Ret (E:=E) false.
Proof.
  destruct l2 as [|e l2]; intros Hlt; [by rewrite app_nil_r, Z.ltb_irrefl|].
  rewrite (proj2 (Z.ltb_lt _ _)) by (rewrite length_app; cbn [length]; lia).
  rewrite list_lookup_middle by done. inversion Hlt; subst. by rewrite (proj2 (Z.eqb_neq _ _)) by lia.
Qed.

Lemma table_of_with c uav t : table_of (with_table c uav t) uav = t.
Proof. by destruct uav. Qed.

(** The declaration of [r] is at [i] of the table [els'], which is [els] with it. *)
Definition added (c c' : resource_tables) (els : list DXBCResourceDecl) (r : Z) (uav : bool) (i : Z)
    (els' : list DXBCResourceDecl) (d : DXBCResourceDecl) : Prop :=
  table_ok (table_of c' uav) els' /\ table_of c' (negb uav) = table_of c (negb uav) /\
  els' !! Z.to_nat i = Some d /\ d = default (new_declaration r) (as_map els !! r) /\
  as_map els' = <[r := d]> (as_map els).

Lemma get_or_add_outcome c els r uav :
  table_ok (table_of c uav) els -> 0 <= r ->
  (exists i c' els' d,
    dxbc_get_or_add_resource_declaration (E:=E) (Some c) r uav = Ret (Some i, Some c') /\
    added c c' els r uav i els' d) \/
  (dxbc_get_or_add_resource_declaration (E:=E) (Some c) r uav = Ret (None, Some c) /\
   (memory_failed \/ Z.of_nat (length els) = INT_MAX)).
Proof.
  intros [He Hc Hcap Hn Hs] Hr. pose proof (sorted_distinct _ Hs) as Hnd.
  unfold dxbc_get_or_add_resource_declaration. set (t := table_of c uav) in *.
  rewrite (proj2 (Z.ltb_ge r 0)), (proj2 (Z.ltb_ge (rt_count t) 0)),
    (proj2 (Z.ltb_ge (rt_allocation t) _)) by lia. cbn [orb].
  assert (Hnull : negb (bool_decide (is_Some (rt_declarations t))) = (rt_allocation t =? 0)).
  { destruct (rt_declarations t) as [ds|]; cbn; symmetry.
    - apply Z.eqb_neq. by intros ?%Hn.
    - apply Z.eqb_eq. by apply Hn. }
  rewrite Hnull, eqb_reflx, He, Hc, Nat2Z.id. cbn [negb].
  destruct (split_at_register els r Hs) as (l1 & l2 & -> & H1 & H2).
  pose proof (insertion_position_spec [] l1 l2 r H1 H2) as Hpos. cbn [app length] in Hpos.
  change (Z.of_nat 0) with 0 in Hpos. rewrite Hpos. mstep. rewrite Nat2Z.id.
  destruct (split_cases l1 l2 r Hs H2) as [(e & l & -> & He')|Hlt].
  { rewrite (proj2 (Z.ltb_lt _ _)) by (rewrite length_app; cbn [length]; lia).
    rewrite list_lookup_middle by done. mstep. rewrite (proj2 (Z.eqb_eq _ _)) by done.
    assert (Hl : as_map (l1 ++ e :: l) !! r = Some e).
    { apply as_map_lookup; [done|]. split; [|done]. apply elem_of_app. right. left. }
    left. exists (Z.of_nat (length l1)), c, (l1 ++ e :: l), e. unfold added. rewrite Hl. split; [done|].
    split; [by split|]. split; [done|]. rewrite Nat2Z.id, list_lookup_middle by done.
    split; [done|]. split; [done|]. symmetry. by apply insert_id. }
  rewrite (absent_test l1 l2 r Hlt). mstep. unfold INT_MAX in *.
  destruct (Z.eqb_spec (Z.of_nat (length (l1 ++ l2))) 2147483647) as [Hfull|Hroom]; [by auto|].
  pose proof (reserve_array_spec (rt_allocation t =? 0) (rt_allocation t)
    (Z.of_nat (length (l1 ++ l2)) + 1) RESOURCE_DECL_SIZE) as Hres.
  unfold INT_MAX, RESOURCE_DECL_SIZE in *.
  specialize (Hres ltac:(lia) ltac:(symmetry; apply Z.eqb_eq) ltac:(lia) ltac:(lia)).
  destruct (reserve_array _ _ _ _) as [a|u|]; cbn in Hres;
    [left|by auto|done].
  cbn [attempt]. mstep. rewrite (proj2 (Z.ltb_lt _ _)) by lia.
  rewrite firstn_all, take_app_length, drop_app_length.
  destruct (add_register l1 l2 r Hs H1 Hlt) as (Hs' & Hmap & Hno).
  exists (Z.of_nat (length l1)), (with_table c uav {| rt_declarations :=
    Some (l1 ++ new_declaration r :: l2); rt_count := Z.of_nat (length (l1 ++ l2)) + 1;
    rt_allocation := a |}), (l1 ++ new_declaration r :: l2), (new_declaration r).
  split; [done|]. split.
  { rewrite table_of_with. split; cbn [rt_declarations rt_count rt_allocation from_option].
    - done.
    - rewrite !length_app. cbn [length]. lia.
    - unfold INT_MAX. lia.
    - split; [done|]. intros. exfalso. lia.
    - done. }
  split; [by destruct uav|]. rewrite Nat2Z.id, list_lookup_middle by done.
  rewrite Hno. done.
Qed.

(** A declaration table is a map from registers: finding is lookup, and
    getting-or-adding returns the register's declaration, inserting a zeroed one
    if there was none; the table stays in register order without duplicates, and
    the other table of the container is untouched. *)
Theorem resource_declarations_refine_map {HM : MemoryAvailable U} c els r uav :
  table_ok (table_of c uav) els -> 0 <= r -> Z.of_nat (length els) < INT_MAX ->
  (exists o, dxbc_find_resource_declaration (E:=E) (Some c) r uav = Ret o /\
             (o ≫= fun i => els !! Z.to_nat i) = as_map els !! r) /\
  (exists i c' els' d,
    dxbc_get_or_add_resource_declaration (E:=E) (Some c) r uav = Ret (Some i, Some c') /\
    table_ok (table_of c' uav) els' /\ table_of c' (negb uav) = table_of c (negb uav) /\
    els' !! Z.to_nat i = Some d /\ d = default (new_declaration r) (as_map els !! r) /\
    as_map els' = <[r := d]> (as_map els)).
Proof.
  intros Ht Hr Hmax. split; [by apply find_resource_spec|].
  destruct (get_or_add_outcome c els r uav Ht Hr) as [Hadd|[_ [Hmem|Hfull]]]; [exact Hadd| |lia].
  by apply memory_available_not_failed in Hmem.
Qed.
End correct.

Lemma resource_declarations_refine_map_witness :
  let c := {| resources := {| rt_declarations := Some [new_declaration 1; new_declaration 4];
                              rt_count := 2; rt_allocation := 16 |};
              uavs := empty_resource_table |} in
  let els := [new_declaration 1; new_declaration 4] in
  table_ok (table_of c false) els /\
  exists i c' els',
    dxbc_get_or_add_resource_declaration (U:=unity_common_ref) (E:=unit) (Some c) 3 false
      = Ret (Some i, Some c') /\ as_map els' !! 3 = els' !! Z.to_nat i.
Proof.
  intros c els.
  assert (Ht : table_ok (table_of c false) els).
  { split; [done|done|unfold INT_MAX; cbn; lia|done|].
    apply (bool_decide_unpack _). vm_compute. exact I. }
  split; [exact Ht|].
  destruct (resource_declarations_refine_map (U:=unity_common_ref) (HU:=unity_common_ref_spec)
    (E:=unit) (HM:=unity_common_ref_memory) c els 3 false Ht ltac:(lia) ltac:(vm_compute; done))
    as (_ & i & c' & els' & d & Hadd & _ & _ & Hd & _ & Hmap).
  exists i, c', els'. split; [exact Hadd|]. rewrite Hmap, Hd. apply lookup_insert_eq.
Defined.
