(* ===== verification/Operand.v ===== *)
(** Operand tokens of the semantic parser: [DXBCOperand] of
    [include/dxbc/dxbc_parser.h] and [src/dxbc/dxbc_operand.c], the operations.

    The [text] member, and with it [context], [opcode] and the register names,
    only serve diagnostics: no part of the grammar reads them, and they are left
    out. *)

From stdpp Require Import gmultiset.
From S2P Require Import Prelude UnityCommon ByteStream.

(** * Data *)

Definition OPERAND_TYPE_IMMEDIATE32 : Z := 4.
Definition OPERAND_TYPE_IMMEDIATE64 : Z := 5.

Definition DXBC_MAX_NESTED_OPERAND_TOKENS : Z := 126.

#[local] Set Warnings "-register-all".

(** A relative operand is owned by the operand that indexes with it, so the
    pointers of the code form a tree. *)
Inductive DXBCOperand := {
  op_type : Z;
  op_raw_token : Z;
  op_extended_tokens : list Z;
  op_register_index : Z;
  op_swizzle : list Z;
  op_swizzle_mode : Z;
  op_destination_mask : Z;
  op_has_neg : bool;
  op_has_abs : bool;
  op_imm_values : list Z;
  op_imm_value_count : Z;
  op_immediate_words : list Z;
  op_immediate_word_count : Z;
  op_imm64_values : list Z;
  op_min_precision : Z;
  op_rel_op0 : option DXBCOperand;
  op_rel_op1 : option DXBCOperand;
  op_rel_op2 : option DXBCOperand;
  op_rel_offset0 : Z;
  op_rel_offset1 : Z;
  op_rel_offset2 : Z;
  op_register_index_dim : Z;
  op_index_values : list Z;
  op_index_representations : list Z;
  op_index_has_immediate : list bool;
  op_index_value_exceeds_int : list bool;
}.

(** [memset(op, 0, sizeof(DXBCOperand))] *)
Definition zero_operand : DXBCOperand :=
  {| op_type := 0; op_raw_token := 0; op_extended_tokens := []; op_register_index := 0;
     op_swizzle := [0; 0; 0; 0]; op_swizzle_mode := 0; op_destination_mask := 0;
     op_has_neg := false; op_has_abs := false; op_imm_values := [0; 0; 0; 0];
     op_imm_value_count := 0; op_immediate_words := [0; 0; 0; 0; 0; 0; 0; 0];
     op_immediate_word_count := 0; op_imm64_values := [0; 0; 0; 0]; op_min_precision := 0;
     op_rel_op0 := None; op_rel_op1 := None; op_rel_op2 := None; op_rel_offset0 := 0;
     op_rel_offset1 := 0; op_rel_offset2 := 0; op_register_index_dim := 0;
     op_index_values := [0; 0; 0]; op_index_representations := [0; 0; 0];
     op_index_has_immediate := [false; false; false];
     op_index_value_exceeds_int := [false; false; false] |}.

#[export] Instance eta_DXBCOperand : Eta DXBCOperand := fun o =>
  {| op_type := op_type o; op_raw_token := op_raw_token o;
     op_extended_tokens := op_extended_tokens o; op_register_index := op_register_index o;
     op_swizzle := op_swizzle o; op_swizzle_mode := op_swizzle_mode o;
     op_destination_mask := op_destination_mask o; op_has_neg := op_has_neg o;
     op_has_abs := op_has_abs o; op_imm_values := op_imm_values o;
     op_imm_value_count := op_imm_value_count o; op_immediate_words := op_immediate_words o;
     op_immediate_word_count := op_immediate_word_count o; op_imm64_values := op_imm64_values o;
     op_min_precision := op_min_precision o; op_rel_op0 := op_rel_op0 o;
     op_rel_op1 := op_rel_op1 o; op_rel_op2 := op_rel_op2 o; op_rel_offset0 := op_rel_offset0 o;
     op_rel_offset1 := op_rel_offset1 o; op_rel_offset2 := op_rel_offset2 o;
     op_register_index_dim := op_register_index_dim o; op_index_values := op_index_values o;
     op_index_representations := op_index_representations o;
     op_index_has_immediate := op_index_has_immediate o;
     op_index_value_exceeds_int := op_index_value_exceeds_int o |}.
#[export] Instance set_op_type : Setter op_type. Proof. derive_setter. Defined.
#[export] Instance set_op_raw_token : Setter op_raw_token. Proof. derive_setter. Defined.
#[export] Instance set_op_extended : Setter op_extended_tokens. Proof. derive_setter. Defined.
#[export] Instance set_op_register : Setter op_register_index. Proof. derive_setter. Defined.
#[export] Instance set_op_swizzle : Setter op_swizzle. Proof. derive_setter. Defined.
#[export] Instance set_op_mode : Setter op_swizzle_mode. Proof. derive_setter. Defined.
#[export] Instance set_op_mask : Setter op_destination_mask. Proof. derive_setter. Defined.
#[export] Instance set_op_neg : Setter op_has_neg. Proof. derive_setter. Defined.
#[export] Instance set_op_abs : Setter op_has_abs. Proof. derive_setter. Defined.
#[export] Instance set_op_imm : Setter op_imm_values. Proof. derive_setter. Defined.
#[export] Instance set_op_imm_count : Setter op_imm_value_count. Proof. derive_setter. Defined.
#[export] Instance set_op_words : Setter op_immediate_words. Proof. derive_setter. Defined.
#[export] Instance set_op_word_count : Setter op_immediate_word_count. Proof. derive_setter. Defined.
#[export] Instance set_op_imm64 : Setter op_imm64_values. Proof. derive_setter. Defined.
#[export] Instance set_op_precision : Setter op_min_precision. Proof. derive_setter. Defined.
#[export] Instance set_op_rel0 : Setter op_rel_op0. Proof. derive_setter. Defined.
#[export] Instance set_op_rel1 : Setter op_rel_op1. Proof. derive_setter. Defined.
#[export] Instance set_op_rel2 : Setter op_rel_op2. Proof. derive_setter. Defined.
#[export] Instance set_op_offset0 : Setter op_rel_offset0. Proof. derive_setter. Defined.
#[export] Instance set_op_offset1 : Setter op_rel_offset1. Proof. derive_setter. Defined.
#[export] Instance set_op_offset2 : Setter op_rel_offset2. Proof. derive_setter. Defined.
#[export] Instance set_op_dim : Setter op_register_index_dim. Proof. derive_setter. Defined.
#[export] Instance set_op_values : Setter op_index_values. Proof. derive_setter. Defined.
#[export] Instance set_op_reprs : Setter op_index_representations. Proof. derive_setter. Defined.
#[export] Instance set_op_has : Setter op_index_has_immediate. Proof. derive_setter. Defined.
#[export] Instance set_op_exceeds : Setter op_index_value_exceeds_int. Proof. derive_setter. Defined.

(** * Memory

    The contents of the blocks are in the tree; the ledger records the sizes of
    the blocks that are live, and freeing a block it does not have is undefined. *)

Abbreviation ledger := (gmultiset Z).

Definition OPERAND_SIZE : Z := 344.

Definition ledger_free {E} (live : ledger) (n : Z) : res E ledger :=
  if bool_decide (n ∈ live) then Ret (live ∖ {[+ n +]}) else Undef.

Section memory.
Context `{U : UnityCommon}.

Definition ledger_alloc (live : ledger) (n : Z) : option ledger :=
  if mem_alloc n then Some (live ⊎ {[+ n +]}) else None.

(** [mem_realloc(p, old, n)]; [is_null] is [p == NULL]. *)
Definition ledger_realloc {E} (live : ledger) (is_null : bool) (old n : Z) : res E (option ledger) :=
  if mem_realloc old n then
    live ← (if is_null then Ret live else ledger_free live old);
    Ret (Some (live ⊎ {[+ n +]}))
  else Ret None.
End memory.

(** [free_operand]; its assignments of NULL are to an operand that is not used
    again. *)
Fixpoint free_operand {E} (op : DXBCOperand) (live : ledger) : res E ledger :=
  live ← match op_rel_op0 op with
         | Some r => live ← free_operand r live; ledger_free live OPERAND_SIZE
         | None => Ret live
         end;
  live ← match op_rel_op1 op with
         | Some r => live ← free_operand r live; ledger_free live OPERAND_SIZE
         | None => Ret live
         end;
  live ← match op_rel_op2 op with
         | Some r => live ← free_operand r live; ledger_free live OPERAND_SIZE
         | None => Ret live
         end;
  match op_extended_tokens op with
  | [] => Ret live
  | tokens => ledger_free live (Z.of_nat (length tokens) * 4)
  end.

(** * Token fields *)

Definition operand_token_type (token0 : Z) : Z := Z.land (Z.shiftr token0 12) 0xff.
Definition component_count_code (token0 : Z) : Z := Z.land token0 0x3.
Definition index_dimension (token0 : Z) : Z := Z.land (Z.shiftr token0 20) 0x3.
Definition selection_mode (token0 : Z) : Z := Z.land (Z.shiftr token0 2) 0x3.
Definition index_representation (token0 dimension : Z) : Z :=
  Z.land (Z.shiftr token0 (22 + 3 * dimension)) 0x7.

Definition is_immediate_type (type : Z) : bool :=
  (type =? OPERAND_TYPE_IMMEDIATE32) || (type =? OPERAND_TYPE_IMMEDIATE64).

Definition token_extended (token : Z) : bool := negb (Z.land token 0x80000000 =? 0).

(** The modifier of the extension tokens: whether one was seen, its negate and
    absolute bits, its minimum precision. *)
Record modifier_state := { saw_modifier : bool; modifier : Z; min_precision : Z }.

Definition no_modifier : modifier_state :=
  {| saw_modifier := false; modifier := 0; min_precision := 0 |}.

(** One extension token; [None] where the parser gives up. *)
Definition extension_step (m : modifier_state) (ext : Z) : option modifier_state :=
  let extension_type := Z.land ext 0x3f in
  if extension_type =? 1 then
    let decoded_modifier := Z.land (Z.shiftr ext 6) 0xff in
    let precision := Z.land (Z.shiftr ext 14) 0x7 in
    if saw_modifier m || (3 <? decoded_modifier) ||
       (negb (precision =? 0) && negb (precision =? 1) && negb (precision =? 2) &&
        negb (precision =? 4) && negb (precision =? 5)) then None
    else Some {| saw_modifier := true; modifier := decoded_modifier; min_precision := precision |}
  else if negb (extension_type =? 0) then None
  else Some m.

(** [memset], the raw token, and the fields set after the extension tokens. *)
Definition operand_fields (token0 : Z) (exts : list Z) (m : modifier_state) : DXBCOperand :=
  let type := operand_token_type token0 in
  zero_operand
    <| op_raw_token := token0 |>
    <| op_extended_tokens := exts |>
    <| op_min_precision := min_precision m |>
    <| op_type := type |>
    <| op_register_index_dim := index_dimension token0 |>
    <| op_has_neg := negb (Z.land (modifier m) 0x1 =? 0) |>
    <| op_has_abs := negb (Z.land (modifier m) 0x2 =? 0) |>
    <| op_swizzle_mode := selection_mode token0 |>
    <| op_swizzle := [0; 1; 2; 3] |>
    <| op_destination_mask :=
         if (selection_mode token0 =? 0) && negb (is_immediate_type type)
         then Z.land token0 0xf0 else 0 |>.

(** [(token0 >> (4 + 2 * component)) & 3] *)
Definition selected_component (token0 component : Z) : Z :=
  Z.land (Z.shiftr token0 (4 + 2 * component)) 3.

Definition component_of (raw_values : list Z) (i : Z) : Z := nth (Z.to_nat i) raw_values 0.

(** The value count and the four values of an immediate, of either width. *)
Definition immediate_values (token0 encoded_component_count : Z) (raw_values : list Z)
    : Z * list Z :=
  if encoded_component_count =? 1 then (1, replicate 4 (component_of raw_values 0))
  else if selection_mode token0 =? 1 then
    (4, (fun component => component_of raw_values (selected_component token0 component)) <$> [0; 1; 2; 3])
  else if selection_mode token0 =? 2 then
    (1, replicate 4 (component_of raw_values (selected_component token0 0)))
  else (4, take 4 (raw_values ++ [0; 0; 0; 0])).

Definition encoded_component_count (token0 : Z) : Z :=
  if component_count_code token0 =? 1 then 1 else 4.

(** How many words of immediate data follow. *)
Definition immediate_word_count (token0 : Z) : Z :=
  let type := operand_token_type token0 in
  if is_immediate_type type then
    encoded_component_count token0 * (if type =? OPERAND_TYPE_IMMEDIATE64 then 2 else 1)
  else 0.

(** [lo | hi << 32] of consecutive words. *)
Fixpoint word_pairs (words : list Z) : list Z :=
  match words with
  | lo :: hi :: words => Z.lor lo (Z.shiftl hi 32) :: word_pairs words
  | _ => []
  end.

Definition with_immediates (op : DXBCOperand) (token0 : Z) (words : list Z) : DXBCOperand :=
  let type := operand_token_type token0 in
  if negb (is_immediate_type type) then op else
  let op := op <| op_immediate_word_count := Z.of_nat (length words) |>
               <| op_immediate_words := take 8 (words ++ op_immediate_words op) |> in
  let count := encoded_component_count token0 in
  if type =? OPERAND_TYPE_IMMEDIATE32 then
    let '(n, values) := immediate_values token0 count words in
    op <| op_imm_value_count := n |> <| op_imm_values := values |>
  else
    let '(n, values) := immediate_values token0 count (word_pairs words) in
    op <| op_imm_value_count := n |> <| op_imm64_values := values |>.

(** What one index dimension says: its representation, its immediate part if it
    has one, its relative operand if it has one. *)
Record operand_index := {
  ix_representation : Z;
  ix_immediate : option Z;
  ix_relative : option DXBCOperand;
}.

Definition INT_MAX_U64 : Z := 2147483647.

Definition sync_legacy_index (op : DXBCOperand) (dimension : nat) : DXBCOperand :=
  let value := nth dimension (op_index_values op) 0 in
  let legacy_value := if value <=? INT_MAX_U64 then value else -1 in
  let op := op <| op_index_value_exceeds_int ::= <[dimension := INT_MAX_U64 <? value]> |> in
  match dimension with
  | O => op <| op_register_index := legacy_value |> <| op_rel_offset1 := legacy_value |>
  | 1%nat => op <| op_rel_offset0 := legacy_value |>
  | _ => op <| op_rel_offset2 := legacy_value |>
  end.

(** [*relative_operand_slot(op, dimension) = r] *)
Definition set_relative (op : DXBCOperand) (dimension : nat) (r : option DXBCOperand) : DXBCOperand :=
  match dimension with
  | O => op <| op_rel_op0 := r |>
  | 1%nat => op <| op_rel_op1 := r |>
  | _ => op <| op_rel_op2 := r |>
  end.

(** The assignments of one iteration of the index loop. *)
Definition with_index (op : DXBCOperand) (dimension : nat) (ix : operand_index) : DXBCOperand :=
  let op := op <| op_index_representations ::= <[dimension := ix_representation ix]> |> in
  let op := match ix_immediate ix with
            | Some value => op <| op_index_values ::= <[dimension := value]> |>
                               <| op_index_has_immediate ::= <[dimension := true]> |>
            | None => op
            end in
  sync_legacy_index (set_relative op dimension (ix_relative ix)) dimension.

(** The swizzle of the selection mode. *)
Definition with_swizzle (op : DXBCOperand) (token0 : Z) : DXBCOperand :=
  if is_immediate_type (operand_token_type token0) then op
  else if selection_mode token0 =? 1 then
    op <| op_swizzle := selected_component token0 <$> [0; 1; 2; 3] |>
  else if selection_mode token0 =? 2 then
    op <| op_swizzle := replicate 4 (selected_component token0 0) |>
  else op.

(** * Parsing *)

Section parse.
Context `{U : UnityCommon, S : ByteStreamOps}.

(** What the recursive parser threads, also when it fails: the stream,
    [*operand_token_budget] and the live blocks. *)
Record operand_state := { os_stream : ByteStream; os_budget : Z; os_live : ledger }.

Definition with_stream (st : operand_state) (stream : ByteStream) : operand_state :=
  {| os_stream := stream; os_budget := os_budget st; os_live := os_live st |}.
Definition with_live (st : operand_state) (live : ledger) : operand_state :=
  {| os_stream := os_stream st; os_budget := os_budget st; os_live := live |}.

(** [stream] is not NULL here. *)
Definition operand_read_u32 (stream : ByteStream) (limit : Z) : option (Z * ByteStream) :=
  if (stream_position stream <=? limit) && (4 <=? u64 (limit - stream_position stream))
  then stream_read_uint32 stream else None.

(** [if (limit <= stream->size) stream->position = limit] *)
Definition seek_limit (st : operand_state) (limit : Z) : operand_state :=
  if limit <=? size (stream_data (os_stream st))
  then with_stream st (stream_seek (os_stream st) limit) else st.

Definition operand_parse_failed {A} (limit : Z) (op : DXBCOperand) (st : operand_state)
    : res operand_state A :=
  live ← free_operand op (os_live st);
  live ← ledger_free live OPERAND_SIZE;
  Fail (seek_limit (with_live st live) limit).

(** [operand_read_u32] whose failure is the operand's. *)
Definition read_operand_word (limit : Z) (op : DXBCOperand) (st : operand_state)
    : res operand_state (Z * operand_state) :=
  match operand_read_u32 (os_stream st) limit with
  | None => operand_parse_failed limit op st
  | Some (w, stream) => Ret (w, with_stream st stream)
  end.

(** [append_extended_token]: the tokens and the live blocks, or false. *)
Definition append_extended_token {E} (tokens : list Z) (live : ledger) (token : Z)
    : res E (option (list Z * ledger)) :=
  let count := Z.of_nat (length tokens) in
  if count =? SIZE_MAX / 4 then Ret None else
  reallocated ← ledger_realloc live (count =? 0) (u64 (count * 4)) (u64 ((count + 1) * 4));
  match reallocated with
  | None => Ret None
  | Some live => Ret (Some (tokens ++ [token], live))
  end.

(** The state of the extension loop. *)
Record extension_state := {
  es_tokens : list Z;
  es_modifier : modifier_state;
  es_more : bool;
  es_state : operand_state;
}.

(** The operand while its extension tokens are read. *)
Definition partial_operand (token0 : Z) (tokens : list Z) : DXBCOperand :=
  zero_operand <| op_raw_token := token0 |> <| op_extended_tokens := tokens |>.

Definition read_extension (limit token0 : Z) (es : extension_state)
    : res operand_state extension_state :=
  '(ext, st) ← read_operand_word limit (partial_operand token0 (es_tokens es)) (es_state es);
  appended ← append_extended_token (es_tokens es) (os_live st) ext;
  match appended with
  | None => operand_parse_failed limit (partial_operand token0 (es_tokens es)) st
  | Some (tokens, live) =>
      let st := with_live st live in
      match extension_step (es_modifier es) ext with
      | None => operand_parse_failed limit (partial_operand token0 tokens) st
      | Some m => Ret {| es_tokens := tokens; es_modifier := m;
                         es_more := token_extended ext; es_state := st |}
      end
  end.

(** The immediate words, one per iteration. *)
Definition read_immediate_word (limit : Z) (op : DXBCOperand) (x : list Z * operand_state)
    : res operand_state (list Z * operand_state) :=
  '(w, st) ← read_operand_word limit op x.2;
  Ret (x.1 ++ [w], st).

(** The 64-bit immediate part of an index: low word, high word. *)
Definition read_operand_word64 (limit : Z) (op : DXBCOperand) (st : operand_state)
    : res operand_state (Z * operand_state) :=
  '(lo, st) ← read_operand_word limit op st;
  '(hi, st) ← read_operand_word limit op st;
  Ret (Z.lor lo (Z.shiftl hi 32), st).

Definition read_immediate_index (limit : Z) (op : DXBCOperand) (representation : Z)
    (st : operand_state) : res operand_state (option Z * operand_state) :=
  if (representation =? 0) || (representation =? 3) then
    '(value, st) ← read_operand_word limit op st; Ret (Some value, st)
  else if (representation =? 1) || (representation =? 4) then
    '(value, st) ← read_operand_word64 limit op st; Ret (Some value, st)
  else if representation =? 2 then Ret (None, st)
  else operand_parse_failed limit op st.

(** [*relative = parse_operand_recursive_impl(...)]: its NULL is the operand's
    failure. *)
Definition or_operand_failed {A B} (limit : Z) (op : DXBCOperand)
    (r : res operand_state A) (k : A -> res operand_state B) : res operand_state B :=
  match r with
  | Ret a => k a
  | Fail st => operand_parse_failed limit op st
  | Undef => Undef
  end.

Section index_loop.
Variable parse_relative : operand_state -> res operand_state (DXBCOperand * operand_state).

(** One iteration of the index loop. *)
Definition read_index (limit token0 dimension : Z) (x : DXBCOperand * operand_state)
    : res operand_state (DXBCOperand * operand_state) :=
  let '(op, st) := x in
  let representation := index_representation token0 dimension in
  '(immediate, st) ← read_immediate_index limit op representation st;
  if representation <? 2 then
    Ret (with_index op (Z.to_nat dimension)
           {| ix_representation := representation; ix_immediate := immediate; ix_relative := None |}, st)
  else
    or_operand_failed limit op (parse_relative st) (fun '(r, st) =>
      Ret (with_index op (Z.to_nat dimension)
             {| ix_representation := representation; ix_immediate := immediate;
                ix_relative := Some r |}, st)).
End index_loop.

(** [parse_operand_recursive_impl]: every call takes one from the budget, so the
    budget bounds the depth of the recursion, and [fuel] is at most one more. *)
Fixpoint parse_operand_recursive_impl (fuel : nat) (limit : Z) (st : operand_state)
    : res operand_state (DXBCOperand * operand_state) :=
  let stream := os_stream st in
  if (os_budget st =? 0) || (size (stream_data stream) <? limit) ||
     (limit <? stream_position stream) || (u64 (limit - stream_position stream) <? 4)
  then Fail (seek_limit st limit)
  else
  match fuel with
  | O => Undef
  | Datatypes.S fuel =>
      let st := {| os_stream := stream; os_budget := u64 (os_budget st - 1); os_live := os_live st |} in
      match operand_read_u32 stream limit with
      | None => Fail st
      | Some (token0, stream) =>
          let st := with_stream st stream in
          match ledger_alloc (os_live st) OPERAND_SIZE with
          | None => Fail (with_stream st (stream_seek stream limit))
          | Some live =>
              es ← while (Z.to_nat limit) es_more (read_extension limit token0)
                {| es_tokens := []; es_modifier := no_modifier; es_more := token_extended token0;
                   es_state := with_live st live |};
              let st := es_state es in
              if (component_count_code token0 =? 3) ||
                 ((component_count_code token0 =? 2) && (selection_mode token0 =? 3))
              then operand_parse_failed limit (partial_operand token0 (es_tokens es)) st else
              let op := operand_fields token0 (es_tokens es) (es_modifier es) in
              if is_immediate_type (operand_token_type token0) &&
                 negb (component_count_code token0 =? 1) && negb (component_count_code token0 =? 2)
              then operand_parse_failed limit op st else
              '(words, st) ← for_loop (Z.to_nat (immediate_word_count token0)) 0
                (fun _ => read_immediate_word limit op) ([], st);
              let op := with_immediates op token0 words in
              '(op, st) ← for_loop (Z.to_nat (index_dimension token0)) 0
                (read_index (parse_operand_recursive_impl fuel limit) limit token0) (op, st);
              Ret (with_swizzle op token0, st)
          end
      end
  end.

(** [parse_operand_recursive] on a stream and the live blocks. *)
Definition parse_operand_recursive (stream : ByteStream) (limit : Z) (live : ledger)
    : res operand_state (DXBCOperand * operand_state) :=
  let operand_token_budget :=
    if (limit <=? size (stream_data stream)) && (stream_position stream <=? limit) then
      let budget := u64 (limit - stream_position stream) / 4 in
      if DXBC_MAX_NESTED_OPERAND_TOKENS <? budget then DXBC_MAX_NESTED_OPERAND_TOKENS else budget
    else 0 in
  parse_operand_recursive_impl (Z.to_nat operand_token_budget) limit
    {| os_stream := stream; os_budget := operand_token_budget; os_live := live |}.
End parse.
