(* ===== verification/OperandCorrect.v ===== *)
(** The operand grammar, and [src/dxbc/dxbc_operand.c] as its exact reader: the
    parser accepts exactly the encodings of operands, loses nothing of them, and
    owns exactly the blocks of the operand it returns. *)

From stdpp Require Import gmultiset.
From S2P Require Import Prelude UnityCommon Hash Document DocumentFormat Heap ByteStream.
From S2P Require Import Decoder Signature SignatureCorrect SignatureParse Operand.

#[local] Set Warnings "-register-all".

(** * The grammar *)

Definition words_bytes (ws : list Z) : list byte := ws ≫= le_bytes 4.

(** An operand as its parts: the first token, the extension tokens with what they
    say, the immediate words, the indices. *)
Fixpoint with_indices (op : DXBCOperand) (dimension : nat) (ixs : list operand_index) : DXBCOperand :=
  match ixs with
  | [] => op
  | ix :: ixs => with_indices (with_index op dimension ix) (S dimension) ixs
  end.

Definition assemble (token0 : Z) (exts : list Z) (m : modifier_state) (words : list Z)
    (ixs : list operand_index) : DXBCOperand :=
  with_swizzle (with_indices (with_immediates (operand_fields token0 exts m) token0 words) 0 ixs)
    token0.

(** The extension tokens follow each other while bit 31 is set. *)
Fixpoint extension_chain (more : bool) (m : modifier_state) (exts : list Z) : option modifier_state :=
  match more, exts with
  | false, [] => Some m
  | true, ext :: exts =>
      m ← extension_step m ext; extension_chain (token_extended ext) m exts
  | _, _ => None
  end.

Inductive valid_index (P : DXBCOperand -> Prop) : operand_index -> Prop :=
| immediate32_index v :
    in_u32 v ->
    valid_index P {| ix_representation := 0; ix_immediate := Some v; ix_relative := None |}
| immediate64_index v :
    in_u64 v ->
    valid_index P {| ix_representation := 1; ix_immediate := Some v; ix_relative := None |}
| relative_index r :
    P r -> valid_index P {| ix_representation := 2; ix_immediate := None; ix_relative := Some r |}
| relative32_index v r :
    in_u32 v -> P r ->
    valid_index P {| ix_representation := 3; ix_immediate := Some v; ix_relative := Some r |}
| relative64_index v r :
    in_u64 v -> P r ->
    valid_index P {| ix_representation := 4; ix_immediate := Some v; ix_relative := Some r |}.

(** The first token allows the rest. *)
Record valid_token (token0 : Z) : Prop := {
  token_word : in_u32 token0;
  token_components : component_count_code token0 <> 3;
  token_selection : ~ (component_count_code token0 = 2 /\ selection_mode token0 = 3);
  token_immediate : is_immediate_type (operand_token_type token0) = true ->
    component_count_code token0 = 1 \/ component_count_code token0 = 2;
}.

Inductive is_operand : DXBCOperand -> Prop :=
| operand_intro token0 exts m words ixs :
    valid_token token0 ->
    Forall in_u32 exts -> extension_chain (token_extended token0) no_modifier exts = Some m ->
    Forall in_u32 words -> Z.of_nat (length words) = immediate_word_count token0 ->
    Z.of_nat (length ixs) = index_dimension token0 ->
    (forall k ix, ixs !! k = Some ix ->
      ix_representation ix = index_representation token0 (Z.of_nat k)) ->
    Forall (valid_index is_operand) ixs ->
    is_operand (assemble token0 exts m words ixs).

(** The words of an index. *)
Definition encode_index (representation value : Z) (relative : list Z) : list Z :=
  switch representation
    [(0, [value]); (1, [value mod 2 ^ 32; value / 2 ^ 32]); (2, relative);
     (3, value :: relative); (4, value mod 2 ^ 32 :: value / 2 ^ 32 :: relative)] [].

(** The words of an operand, read off its fields. *)
Fixpoint encode_operand (op : DXBCOperand) : list Z :=
  let index k relative :=
    if Z.of_nat k <? op_register_index_dim op then
      encode_index (nth k (op_index_representations op) 0) (nth k (op_index_values op) 0)
        (match relative with Some r => encode_operand r | None => [] end)
    else [] in
  op_raw_token op :: op_extended_tokens op ++
  take (Z.to_nat (op_immediate_word_count op)) (op_immediate_words op) ++
  index 0%nat (op_rel_op0 op) ++ index 1%nat (op_rel_op1 op) ++ index 2%nat (op_rel_op2 op).

(** How many operand tokens it has. *)
Fixpoint operand_tokens (op : DXBCOperand) : Z :=
  let relative r := match r with Some r => operand_tokens r | None => 0 end in
  1 + relative (op_rel_op0 op) + relative (op_rel_op1 op) + relative (op_rel_op2 op).

(** The blocks it owns, its own excluded. *)
Fixpoint owned_blocks (op : DXBCOperand) : ledger :=
  let relative r := match r with Some r => owned_blocks r ⊎ {[+ OPERAND_SIZE +]} | None => ∅ end in
  relative (op_rel_op0 op) ⊎ relative (op_rel_op1 op) ⊎ relative (op_rel_op2 op) ⊎
  match op_extended_tokens op with [] => ∅ | l => {[+ Z.of_nat (length l) * 4 +]} end.

(** The same of an index. *)
Definition index_words (ix : operand_index) : list Z :=
  encode_index (ix_representation ix) (default 0 (ix_immediate ix))
    (match ix_relative ix with Some r => encode_operand r | None => [] end).
Definition index_tokens (ix : operand_index) : Z :=
  match ix_relative ix with Some r => operand_tokens r | None => 0 end.
Definition index_blocks (ix : operand_index) : ledger :=
  match ix_relative ix with Some r => owned_blocks r ⊎ {[+ OPERAND_SIZE +]} | None => ∅ end.
Definition token_blocks (exts : list Z) : ledger :=
  match exts with [] => ∅ | _ => {[+ Z.of_nat (length exts) * 4 +]} end.

(** * What an assembled operand holds *)

Lemma land_low (a n : Z) : 0 <= n -> 0 <= Z.land a (2 ^ n - 1) < 2 ^ n.
Proof. intros. rewrite land_ones_mod by done. apply Z.mod_pos_bound. lia. Qed.

Lemma index_dimension_range token0 : 0 <= index_dimension token0 < 4.
Proof. apply (land_low _ 2). lia. Qed.

Lemma immediate_count_cases token0 :
  immediate_word_count token0 = 0 /\ is_immediate_type (operand_token_type token0) = false \/
  is_immediate_type (operand_token_type token0) = true /\ 1 <= immediate_word_count token0 <= 8.
Proof.
  unfold immediate_word_count, encoded_component_count.
  destruct (is_immediate_type _); [right|by left]. split; [done|].
  destruct (component_count_code token0 =? 1), (_ =? OPERAND_TYPE_IMMEDIATE64); lia.
Qed.

(** The fields an encoding reads. *)
Record operand_parts := {
  part_token : Z;
  part_extensions : list Z;
  part_words : list Z;
  part_dimension : Z;
  part_representations : list Z;
  part_values : list Z;
  part_relatives : list (option DXBCOperand);
}.

Definition parts (op : DXBCOperand) : operand_parts :=
  {| part_token := op_raw_token op; part_extensions := op_extended_tokens op;
     part_words := take (Z.to_nat (op_immediate_word_count op)) (op_immediate_words op);
     part_dimension := op_register_index_dim op;
     part_representations := op_index_representations op; part_values := op_index_values op;
     part_relatives := [op_rel_op0 op; op_rel_op1 op; op_rel_op2 op] |}.

(** What an index loop does to them. *)
Definition parts_with_index (p : operand_parts) (k : nat) (ix : operand_index) : operand_parts :=
  {| part_token := part_token p; part_extensions := part_extensions p; part_words := part_words p;
     part_dimension := part_dimension p;
     part_representations := <[k := ix_representation ix]> (part_representations p);
     part_values := match ix_immediate ix with
                    | Some v => <[k := v]> (part_values p) | None => part_values p end;
     part_relatives := <[k := ix_relative ix]> (part_relatives p) |}.

Lemma parts_swizzle op token0 : parts (with_swizzle op token0) = parts op.
Proof.
  unfold with_swizzle. destruct (is_immediate_type _); [done|].
  destruct (selection_mode token0 =? 1); [done|]. by destruct (selection_mode token0 =? 2).
Qed.

Lemma parts_index op k ix :
  (k < 3)%nat -> parts (with_index op k ix) = parts_with_index (parts op) k ix.
Proof.
  intros Hk. destruct ix as [r [v|] rel]; destruct k as [|[|[|k]]]; try lia; reflexivity.
Qed.

Lemma parts_base token0 exts m words :
  Z.of_nat (length words) = immediate_word_count token0 ->
  parts (with_immediates (operand_fields token0 exts m) token0 words) =
    {| part_token := token0; part_extensions := exts; part_words := words;
       part_dimension := index_dimension token0; part_representations := [0; 0; 0];
       part_values := [0; 0; 0]; part_relatives := [None; None; None] |}.
Proof.
  intros Hl. unfold with_immediates.
  destruct (immediate_count_cases token0) as [[Hz Himm]|[Himm Hc]]; rewrite Himm; cbn [negb].
  - rewrite Hz in Hl. by destruct words.
  - assert (Ht : take (Z.to_nat (Z.of_nat (length words))) (take 8 (words ++ replicate 8 0)) = words).
    { rewrite Nat2Z.id, take_take, Nat.min_l by lia. by rewrite take_app_length. }
    destruct (_ =? OPERAND_TYPE_IMMEDIATE32);
      [destruct (immediate_values token0 _ words)|destruct (immediate_values token0 _ (word_pairs words))];
      (transitivity {| part_token := token0; part_extensions := exts;
         part_words := take (Z.to_nat (Z.of_nat (length words))) (take 8 (words ++ replicate 8 0));
         part_dimension := index_dimension token0; part_representations := [0; 0; 0];
         part_values := [0; 0; 0]; part_relatives := [None; None; None] |};
       [reflexivity|by rewrite Ht]).
Qed.

(** Encoding, counting and ownership through the parts. *)
Lemma encode_parts op :
  encode_operand op =
    part_token (parts op) :: part_extensions (parts op) ++ part_words (parts op) ++
    ([0; 1; 2]%nat ≫= fun k =>
       if Z.of_nat k <? part_dimension (parts op) then
         encode_index (nth k (part_representations (parts op)) 0) (nth k (part_values (parts op)) 0)
           (match nth k (part_relatives (parts op)) None with
            | Some r => encode_operand r | None => [] end)
       else []).
Proof. destruct op. cbn -[Z.of_nat]. rewrite app_nil_r. reflexivity. Qed.

Lemma operand_tokens_parts op :
  operand_tokens op = 1 + foldr Z.add 0 ((fun r => match r with Some r => operand_tokens r | None => 0 end)
                                           <$> part_relatives (parts op)).
Proof. destruct op. cbn. lia. Qed.

Lemma owned_blocks_parts op :
  owned_blocks op =
    foldr disj_union ∅ ((fun r => match r with
      | Some r => owned_blocks r ⊎ {[+ OPERAND_SIZE +]} | None => ∅ end) <$> part_relatives (parts op)) ⊎
    token_blocks (part_extensions (parts op)).
Proof.
  destruct op as [? ? tokens]. cbn. rewrite (right_id_L ∅ (⊎)), !(assoc_L (⊎)). by destruct tokens.
Qed.

Section assembled.
Variables (token0 : Z) (exts words : list Z) (m : modifier_state) (ixs : list operand_index).
Hypothesis Hwords : Z.of_nat (length words) = immediate_word_count token0.
Hypothesis Hixs : (length ixs <= 3)%nat.

Lemma parts_indices :
  parts (with_indices (with_immediates (operand_fields token0 exts m) token0 words) 0 ixs) =
    {| part_token := token0; part_extensions := exts; part_words := words;
       part_dimension := index_dimension token0;
       part_representations := (ix_representation <$> ixs) ++ drop (length ixs) [0; 0; 0];
       part_values := ((fun ix => default 0 (ix_immediate ix)) <$> ixs) ++ drop (length ixs) [0; 0; 0];
       part_relatives := (ix_relative <$> ixs) ++ drop (length ixs) [None; None; None] |}.
Proof.
  pose proof (parts_base token0 exts m words Hwords) as Hb.
  set (base := with_immediates _ _ _) in *.
  destruct ixs as [|a [|b [|c [|d l]]]]; cbn [with_indices].
  - exact Hb.
  - rewrite parts_index, Hb by lia. by destruct a as [? [?|] ?].
  - rewrite !parts_index, Hb by lia. by destruct a as [? [?|] ?], b as [? [?|] ?].
  - rewrite !parts_index, Hb by lia.
    by destruct a as [? [?|] ?], b as [? [?|] ?], c as [? [?|] ?].
  - cbn [length] in Hixs. lia.
Qed.

(** The blocks of the operand while its indices are read. *)
Lemma blocks_indices :
  owned_blocks (with_indices (with_immediates (operand_fields token0 exts m) token0 words) 0 ixs) =
    foldr disj_union ∅ (index_blocks <$> ixs) ⊎ token_blocks exts.
Proof.
  rewrite owned_blocks_parts, parts_indices. cbn [part_relatives part_extensions]. f_equal.
  destruct ixs as [|a [|b [|c [|d l]]]]; cbn [length] in Hixs; try lia; cbn; unfold index_blocks;
    multiset_solver.
Qed.

Lemma blocks_assemble :
  owned_blocks (assemble token0 exts m words ixs) =
    foldr disj_union ∅ (index_blocks <$> ixs) ⊎ token_blocks exts.
Proof. unfold assemble. by rewrite owned_blocks_parts, parts_swizzle, <- owned_blocks_parts, blocks_indices. Qed.

Lemma tokens_assemble :
  operand_tokens (assemble token0 exts m words ixs) = 1 + foldr Z.add 0 (index_tokens <$> ixs).
Proof.
  unfold assemble. rewrite operand_tokens_parts, parts_swizzle, parts_indices.
  cbn [part_relatives]. f_equal.
  destruct ixs as [|a [|b [|c [|d l]]]]; cbn [length] in Hixs; try lia; reflexivity.
Qed.

Lemma encode_assemble :
  Z.of_nat (length ixs) = index_dimension token0 ->
  encode_operand (assemble token0 exts m words ixs) = token0 :: exts ++ words ++ (ixs ≫= index_words).
Proof.
  intros Hd. unfold assemble. rewrite encode_parts, parts_swizzle, parts_indices, <- Hd.
  cbn [part_token part_extensions part_words part_dimension
    part_representations part_values part_relatives]. do 3 f_equal.
  destruct ixs as [|a [|b [|c [|d l]]]]; cbn [length] in Hixs; try lia; reflexivity.
Qed.
End assembled.

Lemma with_indices_snoc op k ixs ix :
  with_indices op k (ixs ++ [ix]) = with_index (with_indices op k ixs) (k + length ixs) ix.
Proof.
  revert op k. induction ixs as [|a ixs IH]; intros op k; cbn [app with_indices length].
  - by rewrite Nat.add_0_r.
  - rewrite IH. f_equal. lia.
Qed.

(** * Memory *)

Lemma ledger_free_ok {E} (live live' : ledger) n :
  live' = live ⊎ {[+ n +]} -> ledger_free (E:=E) live' n = Ret live.
Proof.
  intros ->. unfold ledger_free. rewrite bool_decide_eq_true_2 by multiset_solver.
  f_equal. multiset_solver.
Qed.

(** Freeing an operand gives back exactly what it owns. *)
Lemma free_operand_ok {E} op (live live' : ledger) :
  live' = live ⊎ owned_blocks op -> free_operand (E:=E) op live' = Ret live.
Proof.
  revert op live live'. fix IH 1. intros op live live' Hl.
  assert (Hstep : forall r l l' , l' = l ⊎ match r with
      | Some r => owned_blocks r ⊎ {[+ OPERAND_SIZE +]} | None => ∅ end ->
    (match r with Some r => forall l l', l' = l ⊎ owned_blocks r -> free_operand (E:=E) r l' = Ret l
                | None => True end) ->
    match r with
    | Some r => free_operand (E:=E) r l' ≫= fun x => ledger_free x OPERAND_SIZE
    | None => Ret l'
    end = Ret l).
  { intros [r|] l l' -> Hr; [|f_equal; multiset_solver].
    rewrite (Hr (l ⊎ {[+ OPERAND_SIZE +]})) by multiset_solver. mstep. by apply ledger_free_ok. }
  destruct op as [? ? tokens ? ? ? ? ? ? ? ? ? ? ? ? r0 r1 r2].
  cbn in Hl |- *.
  set (b0 := match r0 with Some r => _ | None => _ end) in Hl.
  set (b1 := match r1 with Some r => _ | None => _ end) in Hl.
  set (b2 := match r2 with Some r => _ | None => _ end) in Hl.
  set (bt := match tokens with [] => _ | _ => _ end) in Hl.
  rewrite (Hstep r0 (live ⊎ b1 ⊎ b2 ⊎ bt)); [|unfold b0 in Hl; multiset_solver|destruct r0; [apply IH|done]].
  mstep. rewrite (Hstep r1 (live ⊎ b2 ⊎ bt)); [|unfold b1; multiset_solver|destruct r1; [apply IH|done]].
  mstep. rewrite (Hstep r2 (live ⊎ bt)); [|unfold b2; multiset_solver|destruct r2; [apply IH|done]].
  mstep. unfold bt. destruct tokens as [|t tokens]; [f_equal; multiset_solver|].
  by apply ledger_free_ok.
Qed.

(** * Words consumed *)

Lemma length_words_bytes ws : length (words_bytes ws) = (4 * length ws)%nat.
Proof.
  unfold words_bytes. induction ws as [|w ws IH]; [done|].
  rewrite bind_cons, length_app, length_le_bytes, IH. cbn [length]. lia.
Qed.

Lemma words_bytes_app a b : words_bytes (a ++ b) = words_bytes a ++ words_bytes b.
Proof. apply bind_app. Qed.

Section reading.
Variables (D : list byte) (limit : Z).

(** The words [ws] are at [p], up to [p'], inside the limit. *)
Record consumed (p : Z) (ws : list Z) (p' : Z) : Prop := {
  consumed_end : p' = p + 4 * Z.of_nat (length ws);
  consumed_limit : p' <= limit;
  consumed_bytes : slice D p (4 * Z.of_nat (length ws)) = words_bytes ws;
}.

Lemma consumed_nil p : p <= limit -> consumed p [] p.
Proof. intros. split; [cbn; lia|done|done]. Qed.

Lemma consumed_app p a q b r : 0 <= p -> consumed p a q -> consumed q b r -> consumed p (a ++ b) r.
Proof.
  intros Hp [-> Ha1 Ha2] [-> Hb1 Hb2]. split.
  - rewrite length_app. lia.
  - done.
  - rewrite length_app, Nat2Z.inj_add, Z.mul_add_distr_l, slice_split by lia.
    by rewrite Ha2, Hb2, words_bytes_app.
Qed.

Lemma consumed_split p a b r :
  0 <= p -> limit <= size D -> consumed p (a ++ b) r ->
  consumed p a (p + 4 * Z.of_nat (length a)) /\ consumed (p + 4 * Z.of_nat (length a)) b r.
Proof.
  intros Hp HD [-> Hl Hb]. rewrite length_app, Nat2Z.inj_add in *.
  rewrite Z.mul_add_distr_l, slice_split, words_bytes_app in Hb by lia.
  apply app_inj_1 in Hb as [Ha Hb].
  2:{ rewrite length_slice, length_words_bytes by lia. lia. }
  split; split; [lia|lia|done|lia|lia|done].
Qed.

Lemma consumed_word p :
  0 <= p -> p + 4 <= limit -> limit <= size D -> consumed p [word D p] (p + 4).
Proof.
  intros. split; [cbn; lia|done|]. cbn [length words_bytes mbind list_bind app].
  unfold word. change (4 * Z.of_nat 1) with 4. change 4%nat with (Z.to_nat 4) at 1.
  rewrite app_nil_r. rewrite <- (length_slice D p 4) by lia. by rewrite le_bytes_val.
Qed.

Lemma consumed_first p w ws r :
  0 <= p -> limit <= size D -> in_u32 w -> consumed p (w :: ws) r ->
  word D p = w /\ p + 4 <= limit /\ consumed (p + 4) ws r.
Proof.
  intros Hp HD Hw Hc. change (w :: ws) with ([w] ++ ws) in Hc.
  apply consumed_split in Hc as [[_ Hl Hb] Hc]; [|done..]. cbn [length] in *.
  change (4 * Z.of_nat 1) with 4 in *. split; [|done]. unfold word. rewrite Hb.
  unfold words_bytes. cbn [mbind list_bind]. rewrite app_nil_r, le_val_bytes.
  apply Z.mod_small. exact Hw.
Qed.
End reading.

(** * Sums over indices *)

Lemma operand_tokens_pos op : 1 <= operand_tokens op.
Proof.
  revert op. fix IH 1. intros op.
  assert (H : forall r, (match r with Some r => 1 <= operand_tokens r | None => True end) ->
    0 <= match r with Some r => operand_tokens r | None => 0 end) by (intros [r|]; lia).
  destruct op as [? ? ? ? ? ? ? ? ? ? ? ? ? ? ? r0 r1 r2]. cbn.
  pose proof (H r0). pose proof (H r1). pose proof (H r2).
  assert (match r0 with Some r => 1 <= operand_tokens r | None => True end) by (destruct r0; [apply IH|done]).
  assert (match r1 with Some r => 1 <= operand_tokens r | None => True end) by (destruct r1; [apply IH|done]).
  assert (match r2 with Some r => 1 <= operand_tokens r | None => True end) by (destruct r2; [apply IH|done]).
  intuition lia.
Qed.

Lemma index_tokens_nonneg ix : 0 <= index_tokens ix.
Proof. unfold index_tokens. destruct (ix_relative ix) as [r|]; [|lia]. pose proof (operand_tokens_pos r). lia. Qed.

Lemma foldr_blocks (l : list ledger) (x : ledger) : foldr disj_union x l = foldr disj_union ∅ l ⊎ x.
Proof.
  induction l as [|a l IH]; cbn [foldr]; [by rewrite (left_id_L ∅ (⊎))|]. rewrite IH. apply (assoc_L (⊎)).
Qed.

Lemma ledger_index (base blocks tokens node ix : ledger) :
  base ⊎ (blocks ⊎ tokens) ⊎ node ⊎ ix = base ⊎ (blocks ⊎ (ix ⊎ ∅) ⊎ tokens) ⊎ node.
Proof. multiset_solver. Qed.

(** * The parser *)

Lemma ledger_swap (a b c : ledger) : a ⊎ b ⊎ c = a ⊎ c ⊎ b.
Proof. multiset_solver. Qed.

Lemma owned_partial token0 tokens : owned_blocks (partial_operand token0 tokens) = token_blocks tokens.
Proof.
  transitivity (∅ ⊎ ∅ ⊎ ∅ ⊎ token_blocks tokens : ledger); [by destruct tokens|multiset_solver].
Qed.

Section tokens.
Context `{U : UnityCommon}.

Lemma append_token_spec {E} base tokens live token :
  live = base ⊎ token_blocks tokens ⊎ {[+ OPERAND_SIZE +]} -> Z.of_nat (length tokens) < 2 ^ 32 ->
  append_extended_token (E:=E) tokens live token = Ret None \/
  append_extended_token (E:=E) tokens live token =
    Ret (Some (tokens ++ [token], base ⊎ token_blocks (tokens ++ [token]) ⊎ {[+ OPERAND_SIZE +]})).
Proof.
  intros Hl Hn. unfold append_extended_token, ledger_realloc. change (SIZE_MAX / 4) with 4611686018427387903.
  rewrite (proj2 (Z.eqb_neq _ 4611686018427387903)) by lia.
  rewrite !u64_small by lia. destruct (mem_realloc _ _); [right|by left].
  assert (Hnew : token_blocks (tokens ++ [token]) = {[+ (Z.of_nat (length tokens) + 1) * 4 +]}).
  { destruct tokens as [|t tokens]; [done|]. unfold token_blocks. rewrite length_app. cbn [app length].
    do 2 f_equal. lia. }
  rewrite Hnew. clear Hnew. set (k := (Z.of_nat (length tokens) + 1) * 4).
  assert (Hfreed : (if Z.of_nat (length tokens) =? 0 then Ret live
                    else ledger_free live (Z.of_nat (length tokens) * 4)) =
                   Ret (E:=E) (base ⊎ {[+ OPERAND_SIZE +]})).
  { destruct tokens as [|t tokens].
    - change (Z.of_nat (length (@nil Z)) =? 0) with true. cbn iota. rewrite Hl. unfold token_blocks.
      f_equal. multiset_solver.
    - rewrite (proj2 (Z.eqb_neq _ 0)) by (cbn [length]; lia). apply ledger_free_ok.
      rewrite Hl. apply ledger_swap. }
  rewrite Hfreed. mstep. by rewrite ledger_swap.
Qed.
End tokens.

Section parser.
Context `{U : UnityCommon} {HU : UnityCommonSpec U}.
Context `{S : ByteStreamOps} {HS : ByteStreamSpec S}.
Variables (D : list byte) (limit : Z).
Hypothesis Hlimit : 0 <= limit <= size D.
Hypothesis Hsize : size D < 2 ^ 32.

#[local] Abbreviation consumed := (consumed D limit).

Lemma operand_read_at s p :
  stream_at s D p -> 0 <= p <= limit ->
  operand_read_u32 s limit = if p + 4 <=? limit then Some (word D p, stream_seek s (p + 4)) else None.
Proof.
  intros [He Hd Hp] Hr. unfold operand_read_u32. rewrite Hp, u64_small by lia.
  rewrite (proj2 (Z.leb_le _ _)) by lia. cbn [andb].
  rewrite stream_read_uint32_spec, Hd, Hp by (rewrite ?Hp; done || lia).
  destruct (Z.leb_spec 4 (limit - p)), (Z.leb_spec (p + 4) limit); try lia; [|done].
  by rewrite (proj2 (Z.leb_le _ _)) by lia.
Qed.

(** What a failed parse leaves: the blocks it started with, the stream at the
    operand boundary. *)
Definition failed (base : ledger) (st : operand_state) : Prop :=
  os_live st = base /\ stream_at (os_stream st) D limit.

Lemma parse_failed_spec {A} op st base p (Q : A -> Prop) :
  stream_at (os_stream st) D p -> os_live st = base ⊎ owned_blocks op ⊎ {[+ OPERAND_SIZE +]} ->
  outcome (operand_parse_failed limit op st) Q (failed base).
Proof.
  intros Hs Hl. unfold operand_parse_failed.
  rewrite (free_operand_ok op (base ⊎ {[+ OPERAND_SIZE +]})) by (by rewrite Hl, ledger_swap). mstep.
  rewrite (ledger_free_ok base) by done. mstep. unfold seek_limit, failed, with_live, with_stream.
  cbn [os_stream os_live outcome]. rewrite (at_data _ _ _ Hs), (proj2 (Z.leb_le _ _)) by lia.
  cbn [os_stream os_live]. split; [done|]. by eapply stream_at_seek.
Qed.

(** One word of the operand [op], whose blocks are on top of [base]. *)
Lemma read_word_spec op st base p :
  stream_at (os_stream st) D p -> 0 <= p <= limit ->
  os_live st = base ⊎ owned_blocks op ⊎ {[+ OPERAND_SIZE +]} ->
  outcome (read_operand_word limit op st)
    (fun '(w, st') => in_u32 w /\ consumed p [w] (p + 4) /\ stream_at (os_stream st') D (p + 4) /\
       os_budget st' = os_budget st /\ os_live st' = os_live st)
    (failed base).
Proof.
  intros Hs Hp Hl. unfold read_operand_word. rewrite (operand_read_at _ p) by done.
  destruct (Z.leb_spec (p + 4) limit) as [Hb|Hb]; [|by eapply parse_failed_spec].
  cbn [outcome os_stream os_budget os_live with_stream].
  split; [apply le32_range; lia|]. split; [apply consumed_word; lia|].
  split; [by eapply stream_at_seek|done].
Qed.

(** The extension tokens. *)
Record extension_inv (token0 p0 : Z) (base : ledger) (budget : Z) (es : extension_state) : Prop := {
  ei_position : exists p, 0 <= p <= limit /\ p = p0 + 4 * Z.of_nat (length (es_tokens es)) /\
    stream_at (os_stream (es_state es)) D p /\ consumed p0 (es_tokens es) p;
  ei_words : Forall in_u32 (es_tokens es);
  ei_chain : forall rest,
    extension_chain (token_extended token0) no_modifier (es_tokens es ++ rest) =
    extension_chain (es_more es) (es_modifier es) rest;
  ei_budget : os_budget (es_state es) = budget;
  ei_live : os_live (es_state es) = base ⊎ token_blocks (es_tokens es) ⊎ {[+ OPERAND_SIZE +]};
}.

Lemma read_extension_spec token0 p0 base budget es :
  0 <= p0 -> es_more es = true -> extension_inv token0 p0 base budget es ->
  outcome (read_extension limit token0 es)
    (fun es' => extension_inv token0 p0 base budget es' /\
                length (es_tokens es') = Datatypes.S (length (es_tokens es)))
    (failed base).
Proof.
  intros Hp0 Hmore [(p & Hp & Hpos & Hs & Hcons) Hw Hchain Hb Hl]. unfold read_extension.
  apply outcome_bind. eapply outcome_mono; [apply (read_word_spec _ _ base p);
    [done|done|by rewrite owned_partial]| |done].
  intros [ext st] (Hext & Hcw & Hs' & Hb' & Hl').
  rewrite Hl in Hl'.
  destruct (append_token_spec (E:=operand_state) base (es_tokens es) (os_live st) ext Hl') as [-> | ->];
    [lia| |]; mstep.
  { eapply parse_failed_spec; [exact Hs'|]. by rewrite owned_partial. }
  destruct (extension_step (es_modifier es) ext) as [m|] eqn:Hstep.
  2:{ eapply parse_failed_spec; [exact Hs'|]. cbn [with_live os_live]. by rewrite owned_partial. }
  cbn [outcome es_tokens]. split; [|rewrite length_app; cbn [length]; lia].
  split; cbn [es_tokens es_more es_modifier es_state os_live os_stream os_budget with_live].
  - exists (p + 4). destruct Hcw as [? ? ?]. split; [lia|].
    split; [rewrite length_app; cbn [length]; lia|]. split; [done|].
    by eapply consumed_app; [done|exact Hcons|].
  - apply list.Forall_app. split; [done|]. by apply list.Forall_singleton.
  - intros rest. rewrite <- app_assoc, Hchain, Hmore. cbn [app extension_chain]. by rewrite Hstep.
  - congruence.
  - done.
Qed.

Lemma read_words_spec op n st base p :
  stream_at (os_stream st) D p -> 0 <= p <= limit ->
  os_live st = base ⊎ owned_blocks op ⊎ {[+ OPERAND_SIZE +]} ->
  outcome (for_loop n 0 (fun _ => read_immediate_word limit op) ([], st))
    (fun '(ws, st') => length ws = n /\ Forall in_u32 ws /\
       (exists p', 0 <= p' <= limit /\ consumed p ws p' /\ stream_at (os_stream st') D p') /\
       os_budget st' = os_budget st /\ os_live st' = os_live st)
    (failed base).
Proof.
  intros Hs Hp Hl.
  eapply outcome_mono; [apply (outcome_for (fun j (x : list Z * operand_state) =>
    Z.of_nat (length x.1) = j /\ Forall in_u32 x.1 /\
    (exists p', 0 <= p' <= limit /\ consumed p x.1 p' /\ stream_at (os_stream x.2) D p') /\
    os_budget x.2 = os_budget st /\ os_live x.2 = os_live st) (failed base))| |done].
  - split; [done|]. split; [apply list.Forall_nil_2|]. split; [|done].
    exists p. split; [lia|]. split; [apply consumed_nil; lia|done].
  - intros j [ws st1] Hj (Hlen & Hw & (q & Hq & Hc & Hs1) & Hb & Hl1). cbn [fst snd] in *.
    unfold read_immediate_word. apply outcome_bind.
    eapply outcome_mono; [apply (read_word_spec op st1 base q); [done|done|congruence]| |done].
    intros [w st2] (Hwr & Hcw & Hs2 & Hb2 & Hl2). cbn [outcome fst snd].
    split; [rewrite length_app; cbn [length]; lia|].
    split; [apply list.Forall_app; split; [done|by apply list.Forall_singleton]|].
    split; [|split; congruence]. exists (q + 4). destruct Hcw as [? ? ?]. split; [lia|].
    split; [|done]. by eapply consumed_app; [lia|exact Hc|].
  - intros [ws st'] (Hlen & Hw & Hrest). cbn [fst snd] in *. split; [lia|done].
Qed.

(** The immediate part of an index, as a read of its words. *)
Definition immediate_part (representation : Z) (immediate : option Z) : Prop :=
  match immediate with
  | Some v => (representation = 0 \/ representation = 3) /\ in_u32 v \/
              (representation = 1 \/ representation = 4) /\ in_u64 v
  | None => representation = 2
  end.

Lemma words64_split lo hi :
  in_u32 lo -> in_u32 hi ->
  in_u64 (Z.lor lo (Z.shiftl hi 32)) /\ Z.lor lo (Z.shiftl hi 32) mod 2 ^ 32 = lo /\
  Z.lor lo (Z.shiftl hi 32) / 2 ^ 32 = hi.
Proof.
  unfold in_u32, in_u64. intros Hlo Hhi. rewrite (lor_add_disjoint lo hi 32) by lia.
  split; [lia|]. split.
  - rewrite Z.mod_add by lia. by apply Z.mod_small.
  - rewrite Z.div_add, (Z.div_small lo) by lia. lia.
Qed.

Lemma read_immediate_index_spec op representation st base p :
  stream_at (os_stream st) D p -> 0 <= p <= limit ->
  os_live st = base ⊎ owned_blocks op ⊎ {[+ OPERAND_SIZE +]} ->
  outcome (read_immediate_index limit op representation st)
    (fun '(imm, st') => immediate_part representation imm /\
       (exists p', 0 <= p' <= limit /\
          consumed p (encode_index representation (default 0 imm) []) p' /\
          stream_at (os_stream st') D p') /\
       os_budget st' = os_budget st /\ os_live st' = os_live st)
    (failed base).
Proof.
  intros Hs Hp Hl. unfold read_immediate_index.
  destruct (Z.eqb_spec representation 0) as [Hr0|Hr0], (Z.eqb_spec representation 3) as [Hr3|Hr3];
    cbn [orb]; try lia.
  1,2: apply outcome_bind; eapply outcome_mono; [by apply (read_word_spec op st base p)| |done];
    intros [v st1] (Hv & Hc & Hs1 & Hb1 & Hl1); cbn [outcome]; split; [left; auto|];
    split; [|done]; exists (p + 4); split; [destruct Hc; lia|]; split; [|done]; subst representation;
    exact Hc.
  destruct (Z.eqb_spec representation 1) as [Hr1|Hr1], (Z.eqb_spec representation 4) as [Hr4|Hr4];
    cbn [orb]; try lia.
  1,2: apply outcome_bind; unfold read_operand_word64; apply outcome_bind;
    (eapply outcome_mono; [by apply (read_word_spec op st base p)| |done]);
    intros [lo st1] (Hlo & Hc & Hs1 & Hb1 & Hl1); apply outcome_bind;
    (eapply outcome_mono; [apply (read_word_spec op st1 base (p + 4)); [done|destruct Hc; lia|congruence]| |done]);
    intros [hi st2] (Hhi & Hc2 & Hs2 & Hb2 & Hl2); cbn [outcome];
    destruct (words64_split lo hi Hlo Hhi) as (H64 & Hmod & Hdiv);
    (split; [right; auto|]); (split; [|split; congruence]); exists (p + 4 + 4);
    (split; [destruct Hc2; lia|]); (split; [|done]); subst representation; unfold encode_index, default, from_option, id;
    cbn [switch Z.eqb Pos.eqb]; rewrite Hmod, Hdiv;
    change [lo; hi] with ([lo] ++ [hi]); (eapply consumed_app; [lia|exact Hc|exact Hc2]).
  destruct (Z.eqb_spec representation 2) as [Hr2|Hr2]; [|by eapply parse_failed_spec].
  cbn [outcome]. split; [done|]. split; [|done]. exists p. split; [lia|]. split; [|done].
  subst representation. apply consumed_nil. lia.
Qed.

(** A parsed operand: its words, its tokens and its blocks are accounted for. *)
Record parsed (p : Z) (base : ledger) (budget : Z) (op : DXBCOperand) (st : operand_state) : Prop := {
  parsed_operand : is_operand op;
  parsed_position : exists p', 0 <= p' <= limit /\ consumed p (encode_operand op) p' /\
                               stream_at (os_stream st) D p';
  parsed_budget : os_budget st = budget - operand_tokens op /\ 0 <= os_budget st;
  parsed_live : os_live st = base ⊎ owned_blocks op ⊎ {[+ OPERAND_SIZE +]};
}.

(** The same of an index of an operand. *)
Record parsed_index (p : Z) (live : ledger) (budget : Z) (ix : operand_index) (st : operand_state)
    : Prop := {
  index_valid : valid_index is_operand ix;
  index_position : exists p', 0 <= p' <= limit /\ consumed p (index_words ix) p' /\
                              stream_at (os_stream st) D p';
  index_budget : os_budget st = budget - index_tokens ix /\ 0 <= os_budget st;
  index_live : os_live st = live ⊎ index_blocks ix;
}.

Section index.
Variable parse_relative : operand_state -> res operand_state (DXBCOperand * operand_state).
Variable fuel : Z.
Hypothesis Hparse : forall st p,
  stream_at (os_stream st) D p -> 0 <= p <= limit -> 0 <= os_budget st <= fuel ->
  outcome (parse_relative st) (fun '(r, st') => parsed p (os_live st) (os_budget st) r st')
    (failed (os_live st)).

Lemma read_index_spec token0 k op st base p :
  stream_at (os_stream st) D p -> 0 <= p <= limit -> 0 <= os_budget st <= fuel -> 0 <= k ->
  os_live st = base ⊎ owned_blocks op ⊎ {[+ OPERAND_SIZE +]} ->
  outcome (read_index parse_relative limit token0 k (op, st))
    (fun '(op', st') => exists ix, op' = with_index op (Z.to_nat k) ix /\
       ix_representation ix = index_representation token0 k /\
       parsed_index p (os_live st) (os_budget st) ix st')
    (failed base).
Proof.
  intros Hs Hp Hb Hk Hl. unfold read_index. set (repr := index_representation token0 k).
  apply outcome_bind. eapply outcome_mono; [by apply (read_immediate_index_spec op repr st base p)| |done].
  intros [imm st1] (Himm & (q & Hq & Hc & Hs1) & Hb1 & Hl1).
  apply outcome_if; intros Hrel; bools.
  - assert (exists v, imm = Some v /\ (repr = 0 /\ in_u32 v \/ repr = 1 /\ in_u64 v)) as (v & -> & Hv).
    { unfold immediate_part in Himm. destruct imm as [v|]; [|lia]. exists v. split; [done|].
      destruct Himm as [[[?|?] ?]|[[?|?] ?]]; auto; lia. }
    cbn [outcome]. eexists. split; [reflexivity|]. split; [done|].
    split; cbn [ix_relative].
    + destruct Hv as [[-> ?]|[-> ?]]; by constructor.
    + exists q. split; [done|]. split; [|done]. exact Hc.
    + unfold index_tokens. cbn [ix_relative]. lia.
    + unfold index_blocks. cbn [ix_relative]. by rewrite (right_id_L ∅ (⊎)), Hl1.
  - assert (Hr : repr = 2 /\ imm = None \/ exists v, imm = Some v /\
      (repr = 3 /\ in_u32 v \/ repr = 4 /\ in_u64 v)).
    { unfold immediate_part in Himm. destruct imm as [v|]; [right|by left]. exists v. split; [done|].
      destruct Himm as [[[?|?] ?]|[[?|?] ?]]; auto; lia. }
    unfold or_operand_failed.
    pose proof (Hparse st1 q Hs1 Hq ltac:(lia)) as Hrp.
    destruct (parse_relative st1) as [[r st2]|st2|]; [| |done]; cbn in Hrp.
    2:{ destruct Hrp as [Hl2 Hs2]. eapply parse_failed_spec; [exact Hs2|congruence]. }
    destruct Hrp as [Hop (q' & Hq' & Hc' & Hs2) [Hb2 Hb0] Hl2].
    cbn [outcome]. eexists. split; [reflexivity|]. split; [done|]. split.
    + destruct Hr as [[-> ->]|(v & -> & [[-> ?]|[-> ?]])]; by constructor.
    + exists q'. split; [done|]. split; [|done].
      assert (Hw : index_words {| ix_representation := repr; ix_immediate := imm; ix_relative := Some r |}
                   = encode_index repr (default 0 imm) [] ++ encode_operand r).
      { unfold index_words. cbn [ix_representation ix_immediate ix_relative].
        destruct Hr as [[-> ->]|(v & -> & [[-> _]|[-> _]])]; reflexivity. }
      rewrite Hw. by eapply consumed_app; [lia|exact Hc|exact Hc'].
    + unfold index_tokens. cbn [ix_relative]. lia.
    + unfold index_blocks. cbn [ix_relative]. by rewrite Hl2, Hl1, (assoc_L (⊎)).
Qed.

(** The index loop after [with_immediates]. *)
Lemma read_indices_spec token0 exts m words st base p n :
  stream_at (os_stream st) D p -> 0 <= p <= limit -> 0 <= os_budget st <= fuel -> (n <= 3)%nat ->
  Z.of_nat (length words) = immediate_word_count token0 ->
  os_live st = base ⊎ token_blocks exts ⊎ {[+ OPERAND_SIZE +]} ->
  let op := with_immediates (operand_fields token0 exts m) token0 words in
  outcome (for_loop n 0 (read_index parse_relative limit token0) (op, st))
    (fun '(op', st') => exists ixs, length ixs = n /\ op' = with_indices op 0 ixs /\
       Forall (valid_index is_operand) ixs /\
       (forall k ix, ixs !! k = Some ix ->
          ix_representation ix = index_representation token0 (Z.of_nat k)) /\
       (exists p', 0 <= p' <= limit /\ consumed p (ixs ≫= index_words) p' /\
                   stream_at (os_stream st') D p') /\
       os_budget st' = os_budget st - foldr Z.add 0 (index_tokens <$> ixs) /\ 0 <= os_budget st' /\
       os_live st' = base ⊎ (foldr disj_union ∅ (index_blocks <$> ixs) ⊎ token_blocks exts) ⊎
                     {[+ OPERAND_SIZE +]})
    (failed base).
Proof.
  intros Hs Hp Hb Hn Hwords Hl op.
  eapply outcome_mono; [apply (outcome_for (fun j (x : DXBCOperand * operand_state) =>
    exists ixs, Z.of_nat (length ixs) = j /\ x.1 = with_indices op 0 ixs /\
       Forall (valid_index is_operand) ixs /\
       (forall k ix, ixs !! k = Some ix ->
          ix_representation ix = index_representation token0 (Z.of_nat k)) /\
       (exists p', 0 <= p' <= limit /\ consumed p (ixs ≫= index_words) p' /\
                   stream_at (os_stream x.2) D p') /\
       os_budget x.2 = os_budget st - foldr Z.add 0 (index_tokens <$> ixs) /\ 0 <= os_budget x.2 /\
       os_budget x.2 <= fuel /\
       os_live x.2 = base ⊎ (foldr disj_union ∅ (index_blocks <$> ixs) ⊎ token_blocks exts) ⊎
                     {[+ OPERAND_SIZE +]}) (failed base))| |done].
  - exists []. cbn [fst snd]. split; [done|]. split; [done|]. split; [apply list.Forall_nil_2|].
    split; [done|]. split; [exists p; split; [lia|]; split; [apply consumed_nil; lia|done]|].
    cbn [fmap list_fmap foldr]. split; [lia|]. split; [lia|]. split; [lia|].
    by rewrite Hl, (left_id_L ∅ (⊎)).
  - intros j [op1 st1] Hj (ixs & Hlen & Hop1 & Hv & Hrep & (q & Hq & Hc & Hs1) & Hbud & H0 & Hf & Hlive).
    cbn [fst snd] in *. subst op1.
    eapply outcome_mono; [apply (read_index_spec token0 j (with_indices op 0 ixs) st1 base q)| |done].
    + done.
    + done.
    + lia.
    + lia.
    + unfold op. by rewrite (blocks_indices token0 exts words m ixs Hwords ltac:(lia)).
    + intros [op2 st2] (ix & -> & Hr & [Hvi (q' & Hq' & Hc' & Hs2) [Hb2 Hb0] Hl2]).
      exists (ixs ++ [ix]). cbn [fst snd]. rewrite length_app. cbn [length].
      split; [lia|]. split; [rewrite with_indices_snoc; f_equal; lia|].
      split; [apply list.Forall_app; split; [done|by apply list.Forall_singleton]|].
      split.
      { intros i ix'. rewrite lookup_app. destruct (ixs !! i) as [x|] eqn:Hi.
        - intros [= <-]. by apply Hrep.
        - apply lookup_ge_None in Hi. intros Hx. apply list_lookup_singleton_Some in Hx as [Hx <-].
          by replace (Z.of_nat i) with j by lia. }
      split.
      { exists q'. split; [done|]. split; [|done]. rewrite bind_app. cbn [mbind list_bind].
        rewrite app_nil_r. by eapply consumed_app; [lia|exact Hc|exact Hc']. }
      rewrite fmap_app, foldr_app. cbn [fmap list_fmap foldr].
      assert (Hsum : forall l x, foldr Z.add x l = foldr Z.add 0 l + x).
      { clear. induction l as [|a l IH]; intros x; cbn; [lia|]. rewrite IH. lia. }
      rewrite Hsum. split; [lia|]. split; [lia|]. split.
      { pose proof (index_tokens_nonneg ix). lia. }
      rewrite Hl2, Hlive, fmap_app, foldr_app. cbn [fmap list_fmap foldr].
      rewrite (foldr_blocks _ (index_blocks ix ⊎ ∅)). apply ledger_index.
  - intros [op' st'] (ixs & Hlen & Hop & Hv & Hrep & Hpos & Hbud & H0 & _ & Hlive).
    cbn [fst snd] in *. exists ixs. split; [lia|done].
Qed.
End index.

(** The extension loop, run to its end. *)
Lemma read_extensions_spec token0 st base p :
  stream_at (os_stream st) D p -> 4 <= p <= limit ->
  os_live st = base ⊎ {[+ OPERAND_SIZE +]} ->
  outcome (while (Z.to_nat limit) es_more (read_extension limit token0)
             {| es_tokens := []; es_modifier := no_modifier; es_more := token_extended token0;
                es_state := st |})
    (fun es => extension_inv token0 p base (os_budget st) es /\ es_more es = false)
    (failed base).
Proof.
  intros Hs Hp Hl.
  apply (outcome_while (extension_inv token0 p base (os_budget st))
    (fun es => Z.to_nat limit - length (es_tokens es))%nat).
  - split; cbn [es_tokens es_more es_modifier es_state length app].
    + exists p. split; [lia|]. split; [lia|]. split; [done|]. apply consumed_nil. lia.
    + apply list.Forall_nil_2.
    + done.
    + done.
    + rewrite Hl. unfold token_blocks. by rewrite (right_id_L ∅ (⊎)).
  - lia.
  - intros es Hinv Hmore. pose proof (ei_position _ _ _ _ _ Hinv) as (q & Hq & Hpos & _).
    split; [lia|].
    eapply outcome_mono; [by apply (read_extension_spec token0 p base (os_budget st) es); [lia|..]| |done].
    intros es' [Hinv' Hlen]. split; [done|]. pose proof (ei_position _ _ _ _ _ Hinv') as (q' & ? & ? & _).
    lia.
Qed.

Lemma owned_fields token0 exts m : owned_blocks (operand_fields token0 exts m) = token_blocks exts.
Proof.
  transitivity (∅ ⊎ ∅ ⊎ ∅ ⊎ token_blocks exts : ledger); [by destruct exts|].
  by rewrite !(left_id_L ∅ (⊎)).
Qed.

Lemma token_field (token n k : Z) : 0 <= k -> 0 <= Z.land (Z.shiftr token n) (2 ^ k - 1) < 2 ^ k.
Proof. apply land_low. Qed.

Lemma valid_token_intro token0 :
  in_u32 token0 ->
  (component_count_code token0 =? 3) ||
    ((component_count_code token0 =? 2) && (selection_mode token0 =? 3)) = false ->
  is_immediate_type (operand_token_type token0) &&
    negb (component_count_code token0 =? 1) && negb (component_count_code token0 =? 2) = false ->
  valid_token token0.
Proof.
  intros Hw Hc Hi. apply orb_false_iff in Hc as [H3 H2]. apply Z.eqb_neq in H3.
  split; [done|done| |].
  - intros [E1 E2]. rewrite E1, E2 in H2. done.
  - intros Himm. rewrite Himm in Hi. cbn [andb] in Hi.
    apply andb_false_iff in Hi as [Hi|Hi]; apply negb_false_iff, Z.eqb_eq in Hi; auto.
Qed.

(** The parts after the extension tokens: the operand is complete. *)
Lemma parsed_intro token0 es words ixs st p base budget q0 q1 :
  0 <= p -> extension_inv token0 (p + 4) base budget es -> es_more es = false ->
  valid_token token0 -> consumed p [token0] (p + 4) ->
  consumed (p + 4) (es_tokens es) q0 -> 0 <= q0 ->
  Forall in_u32 words -> Z.of_nat (length words) = immediate_word_count token0 ->
  consumed q0 words q1 -> 0 <= q1 ->
  Z.of_nat (length ixs) = index_dimension token0 -> Forall (valid_index is_operand) ixs ->
  (forall k ix, ixs !! k = Some ix -> ix_representation ix = index_representation token0 (Z.of_nat k)) ->
  (exists p', 0 <= p' <= limit /\ consumed q1 (ixs ≫= index_words) p' /\
              stream_at (os_stream st) D p') ->
  os_budget st = budget - foldr Z.add 0 (index_tokens <$> ixs) -> 0 <= os_budget st ->
  os_live st = base ⊎ (foldr disj_union ∅ (index_blocks <$> ixs) ⊎ token_blocks (es_tokens es)) ⊎
               {[+ OPERAND_SIZE +]} ->
  parsed p base (budget + 1) (assemble token0 (es_tokens es) (es_modifier es) words ixs) st.
Proof.
  intros Hp Hinv Hmore Htok Hc0 Hc1 Hq0 Hw Hlw Hc2 Hq1 Hlix Hv Hrep (p' & Hp' & Hc3 & Hs) Hb H0 Hl.
  pose proof (index_dimension_range token0) as Hd.
  assert (Hl3 : (length ixs <= 3)%nat) by lia.
  split.
  - constructor; try done; [apply (ei_words _ _ _ _ _ Hinv)|].
    pose proof (ei_chain _ _ _ _ _ Hinv []) as Hch. rewrite app_nil_r, Hmore in Hch. exact Hch.
  - exists p'. split; [done|]. split; [|done]. rewrite encode_assemble by done.
    change (token0 :: es_tokens es ++ words ++ (ixs ≫= index_words))
      with ([token0] ++ es_tokens es ++ words ++ (ixs ≫= index_words)).
    eapply consumed_app; [done|exact Hc0|]. eapply consumed_app; [lia|exact Hc1|].
    eapply consumed_app; [lia|exact Hc2|exact Hc3].
  - rewrite tokens_assemble by done. lia.
  - rewrite Hl, blocks_assemble by done. done.
Qed.

Lemma parse_impl_spec fuel st p :
  stream_at (os_stream st) D p -> 0 <= p -> 0 <= os_budget st <= Z.of_nat fuel ->
  Z.of_nat fuel < 2 ^ 32 ->
  outcome (parse_operand_recursive_impl fuel limit st)
    (fun '(op, st') => parsed p (os_live st) (os_budget st) op st')
    (failed (os_live st)).
Proof.
  revert st p. induction fuel as [|fuel IH]; intros st p Hs Hp Hb Hf.
  all: cbn [parse_operand_recursive_impl]; rewrite (at_data _ _ _ Hs), (at_position _ _ _ Hs).
  all: apply outcome_if; intros Hc; [|bools; rewrite u64_small in * by lia].
  1,3: cbn [outcome]; unfold failed, seek_limit; rewrite (at_data _ _ _ Hs), (proj2 (Z.leb_le _ _)) by lia;
    cbn [with_stream os_live os_stream]; split; [done|by eapply stream_at_seek].
  { lia. }
  rewrite (operand_read_at _ p), (proj2 (Z.leb_le _ _)) by (done || lia).
  pose proof (consumed_word D limit p Hp ltac:(lia) ltac:(lia)) as Hc0.
  pose proof (stream_at_seek _ _ _ (p + 4) Hs) as Hs0.
  assert (Hw0 : in_u32 (word D p)) by (apply le32_range; lia).
  set (token0 := word D p) in *. unfold with_stream at 1. cbn [os_live os_budget os_stream].
  unfold ledger_alloc. destruct (mem_alloc OPERAND_SIZE) eqn:Hmem.
  2:{ cbn [outcome]. unfold failed. cbn. split; [done|by eapply stream_at_seek]. }
  apply outcome_bind.
  eapply outcome_mono; [apply (read_extensions_spec token0 _ (os_live st) (p + 4)); [exact Hs0|lia|done]| |done].
  intros es [Hinv Hmore]. cbn [with_live with_stream os_budget] in Hinv.
  pose proof Hinv as [(q0 & Hq0 & _ & Hs1 & Hc1) _ _ Hbe Hle].
  apply outcome_if; intros Hcomp; [eapply parse_failed_spec; [exact Hs1|by rewrite owned_partial]|].
  apply outcome_if; intros Himm; [eapply parse_failed_spec; [exact Hs1|by rewrite owned_fields]|].
  pose proof (valid_token_intro token0 Hw0 Hcomp Himm) as Htok.
  apply outcome_bind.
  eapply outcome_mono; [apply (read_words_spec _ _ _ (os_live st) q0);
    [exact Hs1|done|by rewrite owned_fields]| |done].
  intros [words st1] (Hlw & Hww & (q1 & Hq1 & Hc2 & Hs2) & Hb1 & Hl1).
  assert (Hlw' : Z.of_nat (length words) = immediate_word_count token0).
  { rewrite Hlw. destruct (immediate_count_cases token0) as [[? _]|[_ ?]]; lia. }
  pose proof (index_dimension_range token0) as Hd.
  apply outcome_bind.
  eapply outcome_mono; [apply (read_indices_spec (parse_operand_recursive_impl fuel limit)
    (Z.of_nat fuel)) with (base := os_live st) (p := q1)| |done].
  - intros st2 p2 Hs3 Hp2 Hb2. apply IH; [done|lia..].
  - exact Hs2.
  - done.
  - lia.
  - lia.
  - exact Hlw'.
  - congruence.
  - intros [op st2] (ixs & Hlix & -> & Hv & Hrep & Hpos & Hbud & Hnn & Hlive). cbn [outcome].
    rewrite Hb1, Hbe in Hbud.
    replace (os_budget st) with (os_budget st - 1 + 1) by lia.
    eapply (parsed_intro token0 es words ixs st2 p (os_live st) _ q0 q1); try done; lia.
Qed.
End parser.
