(* ===== verification/OperandFields.v ===== *)
(** What the fields of a parsed operand say: the scalar fields are bits of its
    first token and of its modifier token, the immediates are the words the token
    selects, and the fields of each index dimension agree with each other. *)

From stdpp Require Import gmultiset.
From S2P Require Import Prelude UnityCommon Hash Document DocumentFormat Heap ByteStream.
From S2P Require Import Decoder Signature SignatureCorrect SignatureParse Operand OperandCorrect.

#[local] Set Warnings "-register-all".

(** * The fields of the tokens *)

(** Bits [n .. n + k - 1] of a word. *)
Definition bits (w n k : Z) : Z := w / 2 ^ n mod 2 ^ k.

(** The word of component [i] of an immediate, and of its pair when 64-bit. *)
Definition immediate_component (token i : Z) : Z :=
  if bits token 0 2 =? 1 then 0
  else if bits token 2 2 =? 1 then bits token (4 + 2 * i) 2
  else if bits token 2 2 =? 2 then bits token 4 2
  else i.

(** The extension tokens that carry a modifier. *)
Definition modifier_tokens (exts : list Z) : list Z := filter (fun t => bits t 0 6 = 1) exts.

(** The scalar fields are those of the first token and of the one extension token
    that carries a modifier, if there is one. *)
Record reads_tokens (op : DXBCOperand) : Prop := {
  rt_type : op_type op = bits (op_raw_token op) 12 8;
  rt_dimension : op_register_index_dim op = bits (op_raw_token op) 20 2;
  rt_mode : op_swizzle_mode op = bits (op_raw_token op) 2 2;
  rt_mask : op_destination_mask op =
    if (op_swizzle_mode op =? 0) && negb (is_immediate_type (op_type op))
    then 16 * bits (op_raw_token op) 4 4 else 0;
  rt_swizzle : is_immediate_type (op_type op) = false ->
    op_swizzle op =
      if op_swizzle_mode op =? 1 then (fun i => bits (op_raw_token op) (4 + 2 * i) 2) <$> [0; 1; 2; 3]
      else if op_swizzle_mode op =? 2 then replicate 4 (bits (op_raw_token op) 4 2)
      else [0; 1; 2; 3];
  rt_extensions : Forall (fun t => bits t 0 6 = 0 \/ bits t 0 6 = 1) (op_extended_tokens op);
  rt_modifier : (op_has_neg op, op_has_abs op, op_min_precision op) =
    match modifier_tokens (op_extended_tokens op) with
    | [] => (false, false, 0)
    | t :: _ => (Z.testbit t 6, Z.testbit t 7, bits t 14 3)
    end;
  rt_modifiers : (length (modifier_tokens (op_extended_tokens op)) <= 1)%nat;
  rt_immediate32 : op_type op = OPERAND_TYPE_IMMEDIATE32 -> forall i, 0 <= i < 4 ->
    nth (Z.to_nat i) (op_imm_values op) 0 =
    nth (Z.to_nat (immediate_component (op_raw_token op) i)) (op_immediate_words op) 0;
  rt_immediate64 : op_type op = OPERAND_TYPE_IMMEDIATE64 -> forall i, 0 <= i < 4 ->
    let k := Z.to_nat (immediate_component (op_raw_token op) i) in
    nth (Z.to_nat i) (op_imm64_values op) 0 =
    nth (2 * k) (op_immediate_words op) 0 + 2 ^ 32 * nth (2 * k + 1) (op_immediate_words op) 0;
}.

Lemma bits_land w n k : 0 <= n -> 0 <= k -> Z.land (Z.shiftr w n) (2 ^ k - 1) = bits w n k.
Proof. intros. unfold bits. by rewrite land_ones_mod, Z.shiftr_div_pow2 by done. Qed.

Lemma bits_low w k : 0 <= k -> Z.land w (2 ^ k - 1) = bits w 0 k.
Proof. intros. rewrite <- bits_land by lia. by rewrite Z.shiftr_0_r. Qed.

Lemma selected_component_bits token i : 0 <= i -> selected_component token i = bits token (4 + 2 * i) 2.
Proof. intros. unfold selected_component. by rewrite <- bits_land by lia. Qed.

Lemma selected_component_range token0 k : 0 <= k -> 0 <= selected_component token0 k <= 3.
Proof. intros. pose proof (land_low (Z.shiftr token0 (4 + 2 * k)) 2 ltac:(lia)) as H2. unfold selected_component. change (2 ^ 2 - 1) with 3 in H2. change (2 ^ 2) with 4 in H2. lia. Qed.

Lemma with_indices_swizzle ixs : forall op k, op_swizzle (with_indices op k ixs) = op_swizzle op.
Proof.
  induction ixs as [|ix ixs IH]; intros op k; [done|]. cbn [with_indices]. rewrite IH.
  by destruct ix as [? [?|] ?], k as [|[|?]].
Qed.

(** What an index or a swizzle leaves alone. *)
Definition token_fields (op : DXBCOperand) :=
  (op_raw_token op, op_type op, op_register_index_dim op, op_swizzle_mode op,
   op_destination_mask op, op_extended_tokens op,
   (op_has_neg op, op_has_abs op, op_min_precision op),
   (op_imm_values op, op_imm64_values op, op_immediate_words op)).

Lemma token_fields_swizzle op token0 : token_fields (with_swizzle op token0) = token_fields op.
Proof.
  unfold with_swizzle. destruct (is_immediate_type _); [done|].
  destruct (selection_mode token0 =? 1); [done|]. by destruct (selection_mode token0 =? 2).
Qed.

Lemma token_fields_indices ixs : forall op k,
  token_fields (with_indices op k ixs) = token_fields op.
Proof.
  induction ixs as [|ix ixs IH]; intros op k; [done|]. cbn [with_indices]. rewrite IH.
  by destruct ix as [? [?|] ?], k as [|[|?]].
Qed.

(** The words of an immediate, and its values. *)
Definition immediates_of (token0 : Z) (words : list Z) (before : list Z * list Z * list Z)
    : list Z * list Z * list Z :=
  let type := operand_token_type token0 in
  let count := encoded_component_count token0 in
  if negb (is_immediate_type type) then before
  else if type =? OPERAND_TYPE_IMMEDIATE32
  then ((immediate_values token0 count words).2, before.1.2, take 8 (words ++ before.2))
  else (before.1.1, (immediate_values token0 count (word_pairs words)).2, take 8 (words ++ before.2)).

Lemma token_fields_immediates op token0 words :
  token_fields (with_immediates op token0 words) =
    ((token_fields op).1, immediates_of token0 words (token_fields op).2).
Proof.
  unfold with_immediates, immediates_of.
  destruct (is_immediate_type (operand_token_type token0)); cbn [negb]; [|reflexivity].
  destruct (_ =? OPERAND_TYPE_IMMEDIATE32);
    [destruct (immediate_values token0 _ words)|destruct (immediate_values token0 _ (word_pairs words))];
    reflexivity.
Qed.

Lemma token_fields_base token0 exts m :
  token_fields (operand_fields token0 exts m) =
    (token0, operand_token_type token0, index_dimension token0, selection_mode token0,
     (if (selection_mode token0 =? 0) && negb (is_immediate_type (operand_token_type token0))
      then Z.land token0 0xf0 else 0), exts,
     (negb (Z.land (modifier m) 1 =? 0), negb (Z.land (modifier m) 2 =? 0), min_precision m),
     (replicate 4 0, replicate 4 0, replicate 8 0)).
Proof. reflexivity. Qed.

Lemma assembled_token_fields token0 exts m words ixs :
  token_fields (assemble token0 exts m words ixs) =
    ((token_fields (operand_fields token0 exts m)).1,
     immediates_of token0 words (replicate 4 0, replicate 4 0, replicate 8 0)).
Proof.
  unfold assemble. by rewrite token_fields_swizzle, token_fields_indices, token_fields_immediates.
Qed.

Lemma nth_padded k words : (k < 8)%nat -> nth k (take 8 (words ++ replicate 8 0)) 0 = nth k words 0.
Proof.
  intros Hk. rewrite !nth_lookup, lookup_take_lt by done. destruct (words !! k) as [w|] eqn:Hw.
  - by rewrite (lookup_app_l_Some _ _ _ _ Hw).
  - apply lookup_ge_None in Hw. rewrite lookup_app_r by done.
    destruct (replicate 8 0 !! _) eqn:He; [|done]. by apply lookup_replicate in He as [-> _].
Qed.

Lemma nth_word_pairs words : forall k,
  Forall in_u32 words -> Nat.Even (length words) ->
  nth k (word_pairs words) 0 = nth (2 * k) words 0 + 2 ^ 32 * nth (2 * k + 1) words 0.
Proof.
  assert (H : forall n words, (length words <= n)%nat -> forall k, Forall in_u32 words ->
    Nat.Even (length words) ->
    nth k (word_pairs words) 0 = nth (2 * k) words 0 + 2 ^ 32 * nth (2 * k + 1) words 0).
  { clear. induction n as [|n IH]; intros [|lo [|hi words]] Hn k Hw He; cbn [length] in *;
      try lia; try (by destruct k).
    - by destruct He as [[|q] Hq]; lia.
    - apply list.Forall_cons in Hw as [Hlo Hw]. apply list.Forall_cons in Hw as [Hhi Hw].
      destruct k as [|k].
      + cbn [word_pairs nth Nat.mul Nat.add]. unfold in_u32 in *.
        rewrite (lor_add_disjoint lo hi 32) by lia. lia.
      + replace (2 * Datatypes.S k)%nat with (Datatypes.S (Datatypes.S (2 * k))) by lia.
        replace (Datatypes.S (Datatypes.S (2 * k)) + 1)%nat
          with (Datatypes.S (Datatypes.S (2 * k + 1))) by lia.
        cbn [word_pairs nth]. apply IH; [lia|done|]. destruct He as [q Hq]. exists (q - 1)%nat. lia. }
  intros k. by apply (H (length words)).
Qed.

Lemma immediate_component_range token i : 0 <= i < 4 -> 0 <= immediate_component token i <= 3.
Proof.
  intros Hi. unfold immediate_component, bits.
  pose proof (Z.mod_pos_bound (token / 2 ^ (4 + 2 * i)) (2 ^ 2) ltac:(lia)).
  pose proof (Z.mod_pos_bound (token / 2 ^ 4) (2 ^ 2) ltac:(lia)).
  repeat destruct (_ =? _); lia.
Qed.

Lemma mask_bits w : Z.land w 0xf0 = 16 * bits w 4 4.
Proof.
  rewrite <- bits_land by lia. change 16 with (2 ^ 4). rewrite Z.mul_comm, <- Z.shiftl_mul_pow2 by lia.
  apply Z.bits_inj'. intros n Hn. rewrite Z.land_spec.
  change 0xf0 with (Z.shiftl (Z.ones 4) 4). rewrite !Z.shiftl_spec, Z.land_spec by done.
  destruct (Z.le_gt_cases 4 n).
  - rewrite Z.shiftr_spec by lia. by replace (n - 4 + 4) with n by lia.
  - rewrite !(Z.testbit_neg_r _ (n - 4)) by lia. by rewrite andb_false_r.
Qed.

(** The value of component [i], from the raw values. *)
Lemma immediate_values_nth token0 values i :
  0 <= i < 4 -> valid_token token0 -> Z.of_nat (length values) = encoded_component_count token0 ->
  is_immediate_type (operand_token_type token0) = true ->
  nth (Z.to_nat i) (immediate_values token0 (encoded_component_count token0) values).2 0 =
  nth (Z.to_nat (immediate_component token0 i)) values 0.
Proof.
  intros Hi Htok Hl Himm. unfold immediate_values, immediate_component, encoded_component_count in *.
  rewrite <- bits_low, <- (bits_land token0 2 2), <- !(bits_land token0 4 2) by lia.
  change (Z.land token0 (2 ^ 2 - 1)) with (component_count_code token0).
  change (Z.land (Z.shiftr token0 2) (2 ^ 2 - 1)) with (selection_mode token0).
  assert (Hbits : bits token0 (4 + 2 * i) 2 = selected_component token0 i).
  { by rewrite selected_component_bits by lia. }
  rewrite Hbits. clear Hbits.
  assert (Hin : i = 0 \/ i = 1 \/ i = 2 \/ i = 3) by lia.
  destruct (component_count_code token0 =? 1); [|].
  { cbn [Z.eqb Pos.eqb snd]. by destruct Hin as [-> |[-> |[-> | ->]]]. }
  change (4 =? 1) with false. cbn iota.
  destruct (selection_mode token0 =? 1).
  { by destruct Hin as [-> |[-> |[-> | ->]]]. }
  destruct (selection_mode token0 =? 2).
  { by destruct Hin as [-> |[-> |[-> | ->]]]. }
  destruct values as [|a [|b [|c [|d [|e values]]]]]; cbn [length] in Hl; try lia.
  by destruct Hin as [-> |[-> |[-> | ->]]].
Qed.

(** The state of the extension loop, from the modifier tokens alone. *)
Definition modifier_of (t : Z) : modifier_state :=
  {| saw_modifier := true; modifier := bits t 6 8; min_precision := bits t 14 3 |}.

Lemma extension_step_some m ext m1 :
  extension_step m ext = Some m1 ->
  bits ext 0 6 = 1 /\ saw_modifier m = false /\ m1 = modifier_of ext \/ bits ext 0 6 = 0 /\ m1 = m.
Proof.
  unfold extension_step. change 0x3f with (2 ^ 6 - 1). change 0xff with (2 ^ 8 - 1).
  change 0x7 with (2 ^ 3 - 1). rewrite bits_low, !bits_land by lia.
  destruct (Z.eqb_spec (bits ext 0 6) 1) as [H1|H1].
  - destruct (saw_modifier m); [done|]. cbn [orb].
    destruct ((3 <? _) || _); [done|]. intros [= <-]. by left.
  - destruct (Z.eqb_spec (bits ext 0 6) 0) as [H0|H0]; [|done]. intros [= <-]. by right.
Qed.

Lemma extension_chain_modifier exts : forall more m m',
  extension_chain more m exts = Some m' ->
  Forall (fun t => bits t 0 6 = 0 \/ bits t 0 6 = 1) exts /\
  (length (modifier_tokens exts) <= if saw_modifier m then 0 else 1)%nat /\
  m' = match modifier_tokens exts with [] => m | t :: _ => modifier_of t end.
Proof.
  induction exts as [|ext exts IH]; intros more m m' Hch.
  - destruct more; [done|]. injection Hch as ->. split; [done|]. split; [cbn; lia|done].
  - destruct more; [|done]. cbn [extension_chain] in Hch.
    destruct (extension_step m ext) as [m1|] eqn:Hstep; [|done].
    destruct (IH _ _ _ Hch) as (Hall & Hlen & ->). unfold modifier_tokens in *.
    destruct (extension_step_some _ _ _ Hstep) as [(H1 & Hsaw & ->)|[H0 ->]].
    + rewrite filter_cons_True by done. cbn [modifier_of saw_modifier] in Hlen. rewrite Hsaw.
      destruct (filter _ exts); [|cbn in Hlen; lia].
      split; [|split; [cbn; lia|done]]. apply list.Forall_cons; auto.
    + rewrite filter_cons_False by lia. split; [|done]. apply list.Forall_cons; auto.
Qed.

Lemma modifier_bit t k n :
  0 <= k < n -> negb (Z.land (bits t 6 n) (2 ^ k) =? 0) = Z.testbit t (6 + k).
Proof.
  intros Hk. unfold bits. rewrite <- Z.shiftr_div_pow2 by lia.
  assert (Hbit : Z.testbit (Z.shiftr t 6 mod 2 ^ n) k = Z.testbit t (6 + k)).
  { rewrite Z.mod_pow2_bits_low, Z.shiftr_spec by lia. f_equal. lia. }
  rewrite <- Hbit. set (a := _ mod _). destruct (Z.testbit a k) eqn:Ha.
  - destruct (Z.eqb_spec (Z.land a (2 ^ k)) 0) as [H0|]; [exfalso|done].
    apply (f_equal (fun z => Z.testbit z k)) in H0.
    rewrite Z.land_spec, Ha, Z.pow2_bits_true, Z.bits_0 in H0 by lia. done.
  - rewrite (proj2 (Z.eqb_eq _ 0)); [done|]. apply Z.bits_inj'. intros n' Hn'.
    rewrite Z.land_spec, Z.bits_0. destruct (Z.eq_dec k n') as [->|Hne]; [by rewrite Ha|].
    rewrite Z.pow2_bits_false by done. apply andb_false_r.
Qed.

(** The swizzle of an assembled operand. *)
Lemma assembled_swizzle_values token0 exts m words ixs :
  is_immediate_type (operand_token_type token0) = false ->
  op_swizzle (assemble token0 exts m words ixs) =
    if selection_mode token0 =? 1 then selected_component token0 <$> [0; 1; 2; 3]
    else if selection_mode token0 =? 2 then replicate 4 (selected_component token0 0)
    else [0; 1; 2; 3].
Proof.
  intros Himm. unfold assemble, with_swizzle, with_immediates. rewrite Himm. cbn [negb].
  destruct (selection_mode token0 =? 1); [done|]. destruct (selection_mode token0 =? 2); [done|].
  by apply with_indices_swizzle.
Qed.

Lemma immediates32 token0 words i :
  valid_token token0 -> operand_token_type token0 = OPERAND_TYPE_IMMEDIATE32 ->
  Z.of_nat (length words) = immediate_word_count token0 -> 0 <= i < 4 ->
  let imm := immediates_of token0 words (replicate 4 0, replicate 4 0, replicate 8 0) in
  nth (Z.to_nat i) imm.1.1 0 = nth (Z.to_nat (immediate_component token0 i)) imm.2 0.
Proof.
  intros Htok Htype Hl Hi. unfold immediates_of, immediate_word_count in *. rewrite Htype in *.
  cbn [negb fst snd]. change (is_immediate_type OPERAND_TYPE_IMMEDIATE32) with true in *.
  change (OPERAND_TYPE_IMMEDIATE32 =? OPERAND_TYPE_IMMEDIATE32) with true in *. cbn [negb fst snd].
  change (OPERAND_TYPE_IMMEDIATE32 =? OPERAND_TYPE_IMMEDIATE64) with false in *.
  rewrite (immediate_values_nth token0 words i) by (done || lia || by rewrite Htype).
  symmetry. apply nth_padded. pose proof (immediate_component_range token0 i Hi). lia.
Qed.

Lemma length_word_pairs words : forall n, length words = (2 * n)%nat -> length (word_pairs words) = n.
Proof.
  intros n. revert words. induction n as [|n IH]; intros [|a [|b words]] Hl; cbn in *; try lia; try done.
  f_equal. apply IH. lia.
Qed.

Lemma immediates64 token0 words i :
  valid_token token0 -> operand_token_type token0 = OPERAND_TYPE_IMMEDIATE64 -> Forall in_u32 words ->
  Z.of_nat (length words) = immediate_word_count token0 -> 0 <= i < 4 ->
  let imm := immediates_of token0 words (replicate 4 0, replicate 4 0, replicate 8 0) in
  let k := Z.to_nat (immediate_component token0 i) in
  nth (Z.to_nat i) imm.1.2 0 = nth (2 * k) imm.2 0 + 2 ^ 32 * nth (2 * k + 1) imm.2 0.
Proof.
  intros Htok Htype Hw Hl Hi. unfold immediates_of, immediate_word_count in *. rewrite Htype in *.
  change (is_immediate_type OPERAND_TYPE_IMMEDIATE64) with true in *.
  change (OPERAND_TYPE_IMMEDIATE64 =? OPERAND_TYPE_IMMEDIATE32) with false in *. cbn [negb fst snd].
  change (OPERAND_TYPE_IMMEDIATE64 =? OPERAND_TYPE_IMMEDIATE64) with true in *.
  pose proof (immediate_component_range token0 i Hi) as Hc.
  assert (Hlen : length words = (2 * Z.to_nat (encoded_component_count token0))%nat) by lia.
  rewrite immediate_values_nth; [|done|done| |by rewrite Htype].
  2:{ rewrite (length_word_pairs _ _ Hlen). unfold encoded_component_count. destruct (_ =? 1); lia. }
  rewrite nth_word_pairs by (done || by exists (Z.to_nat (encoded_component_count token0))).
  f_equal; [|f_equal]; symmetry; apply nth_padded; lia.
Qed.

Lemma is_operand_reads_tokens op : is_operand op -> reads_tokens op.
Proof.
  intros [token0 exts m words ixs Htok Hwe Hch Hww Hlw Hlix Hrep Hv].
  pose proof (assembled_token_fields token0 exts m words ixs) as Hf.
  rewrite token_fields_base in Hf. cbn [fst snd] in Hf.
  pose proof (assembled_swizzle_values token0 exts m words ixs) as Hsw.
  pose proof (immediates32 token0 words) as H32. pose proof (immediates64 token0 words) as H64.
  destruct (extension_chain_modifier _ _ _ _ Hch) as (Hall & Hlen & Hm).
  set (the_op := assemble token0 exts m words ixs) in *.
  set (imm := immediates_of token0 words _) in *.
  unfold token_fields in Hf. destruct imm as [[imm32 imm64] imm_words]. cbn [fst snd] in H32, H64.
  injection Hf as Hraw Htype Hdim Hmode Hmask Hext Hneg Habs Hprec Hi32 Hi64 Hiw.
  assert (Hmode' : selection_mode token0 = bits token0 2 2) by by apply (bits_land token0 2 2).
  split; rewrite ?Hraw, ?Htype, ?Hmode, ?Hdim, ?Hmask, ?Hext, ?Hi32, ?Hi64, ?Hiw; try done.
  - by apply (bits_land token0 12 8).
  - by apply (bits_land token0 20 2).
  - destruct (_ && _); [|done]. apply mask_bits.
  - intros Himm. rewrite Hsw by done. destruct (selection_mode token0 =? 1); [|].
    + cbn [fmap list_fmap]. by rewrite !selected_component_bits by lia.
    + by rewrite selected_component_bits by lia.
  - rewrite Hneg, Habs, Hprec, Hm. destruct (modifier_tokens exts) as [|t ts]; [done|].
    cbn [modifier_of modifier min_precision].
    pose proof (modifier_bit t 0 8 ltac:(lia)) as H0. pose proof (modifier_bit t 1 8 ltac:(lia)) as H1.
    change (2 ^ 0) with 1 in H0. change (2 ^ 1) with 2 in H1. by rewrite H0, H1.
  - intros H i Hi. by apply H32.
  - intros H i Hi. by apply H64.
Qed.

Lemma tokens_sum_nonneg ixs : 0 <= foldr Z.add 0 (index_tokens <$> ixs).
Proof.
  induction ixs as [|ix ixs IH]; [done|]. rewrite fmap_cons. cbn [foldr].
  pose proof (index_tokens_nonneg ix). lia.
Qed.

(** * Coherence of the fields *)

(** What the fields of one dimension say. *)
Record dimension_view := {
  dv_representation : Z;
  dv_value : Z;
  dv_has_immediate : bool;
  dv_exceeds_int : bool;
  dv_relative : option DXBCOperand;
  dv_legacy : Z;
}.

Definition dimension_of (op : DXBCOperand) (k : nat) : dimension_view :=
  {| dv_representation := nth k (op_index_representations op) 0;
     dv_value := nth k (op_index_values op) 0;
     dv_has_immediate := nth k (op_index_has_immediate op) false;
     dv_exceeds_int := nth k (op_index_value_exceeds_int op) false;
     dv_relative := match k with 0 => op_rel_op0 op | 1 => op_rel_op1 op | _ => op_rel_op2 op end%nat;
     dv_legacy := match k with
                  | 0 => op_register_index op | 1 => op_rel_offset0 op | _ => op_rel_offset2 op
                  end%nat |}.

Inductive coherent_relative (P : DXBCOperand -> Prop) (representation : Z)
    : option DXBCOperand -> Prop :=
| no_relative : representation < 2 -> coherent_relative P representation None
| some_relative r : 2 <= representation -> P r -> coherent_relative P representation (Some r).

(** A dimension that was read: the value fits its representation, the flags and
    the signed copy follow the value, the relative operand the representation. *)
Record coherent_dimension (P : DXBCOperand -> Prop) (v : dimension_view) : Prop := {
  cd_representation : 0 <= dv_representation v <= 4;
  cd_value : if (dv_representation v =? 0) || (dv_representation v =? 3) then in_u32 (dv_value v)
             else if dv_representation v =? 2 then dv_value v = 0 else in_u64 (dv_value v);
  cd_immediate : dv_has_immediate v = negb (dv_representation v =? 2);
  cd_exceeds : dv_exceeds_int v = (INT_MAX_U64 <? dv_value v);
  cd_legacy : dv_legacy v = if dv_exceeds_int v then -1 else dv_value v;
  cd_relative : coherent_relative P (dv_representation v) (dv_relative v);
}.

Definition empty_dimension : dimension_view :=
  {| dv_representation := 0; dv_value := 0; dv_has_immediate := false; dv_exceeds_int := false;
     dv_relative := None; dv_legacy := 0 |}.

Inductive coherent : DXBCOperand -> Prop :=
| coherent_intro op :
    0 <= op_register_index_dim op <= 3 ->
    (forall k, Z.of_nat k < op_register_index_dim op ->
       coherent_dimension coherent (dimension_of op k)) ->
    (forall k, op_register_index_dim op <= Z.of_nat k < 3 -> dimension_of op k = empty_dimension) ->
    op_rel_offset1 op = op_register_index op ->
    length (op_swizzle op) = 4%nat -> Forall (fun c => 0 <= c <= 3) (op_swizzle op) ->
    reads_tokens op -> coherent op.

(** The view of an index. *)
Definition view_of_index (ix : operand_index) : dimension_view :=
  let value := default 0 (ix_immediate ix) in
  {| dv_representation := ix_representation ix; dv_value := value;
     dv_has_immediate := bool_decide (is_Some (ix_immediate ix));
     dv_exceeds_int := INT_MAX_U64 <? value; dv_relative := ix_relative ix;
     dv_legacy := if INT_MAX_U64 <? value then -1 else value |}.

Lemma view_of_index_coherent (P Q : DXBCOperand -> Prop) ix :
  valid_index P ix -> (forall r, ix_relative ix = Some r -> P r -> Q r) ->
  coherent_dimension Q (view_of_index ix).
Proof.
  intros Hv HPQ. destruct Hv; split; cbn in *; try done; try lia; constructor; try lia; by apply HPQ.
Qed.

(** The fields of the index dimensions, as lists. *)
Definition index_fields (op : DXBCOperand) :=
  (op_index_representations op, op_index_values op, op_index_has_immediate op,
   op_index_value_exceeds_int op, [op_rel_op0 op; op_rel_op1 op; op_rel_op2 op],
   [op_register_index op; op_rel_offset0 op; op_rel_offset2 op],
   (op_rel_offset1 op, op_register_index_dim op)).

Definition index_fields_of (dimension : Z) (vs : list dimension_view) :=
  (dv_representation <$> vs, dv_value <$> vs, dv_has_immediate <$> vs, dv_exceeds_int <$> vs,
   dv_relative <$> vs, dv_legacy <$> vs,
   (dv_legacy (nth 0 vs empty_dimension), dimension)).

Lemma index_fields_swizzle op token0 : index_fields (with_swizzle op token0) = index_fields op.
Proof.
  unfold with_swizzle. destruct (is_immediate_type _); [done|].
  destruct (selection_mode token0 =? 1); [done|]. by destruct (selection_mode token0 =? 2).
Qed.

Lemma index_fields_immediates op token0 words :
  index_fields (with_immediates op token0 words) = index_fields op.
Proof.
  unfold with_immediates. destruct (is_immediate_type _); cbn [negb]; [|done].
  destruct (_ =? OPERAND_TYPE_IMMEDIATE32);
    [destruct (immediate_values token0 _ words)|destruct (immediate_values token0 _ (word_pairs words))];
    reflexivity.
Qed.

(** One index replaces the view of its dimension. *)
Lemma index_fields_index op k ix dimension vs :
  (k < 3)%nat -> length vs = 3%nat -> vs !! k = Some empty_dimension ->
  index_fields op = index_fields_of dimension vs ->
  index_fields (with_index op k ix) = index_fields_of dimension (<[k := view_of_index ix]> vs).
Proof.
  intros Hk Hl Hv Hf. unfold index_fields, index_fields_of in Hf. simplify_eq/=.
  destruct vs as [|v0 [|v1 [|v2 [|]]]]; try done.
  destruct ix as [r [v|] rel], k as [|[|[|k]]]; try lia; cbn in Hv; simplify_eq;
    unfold index_fields, index_fields_of, with_index; cbn; simplify_eq/=;
    rewrite ?Z.leb_antisym;
    repeat match goal with H : _ op = _ |- _ => rewrite H; clear H end;
    cbn -[INT_MAX_U64]; try done; by destruct (INT_MAX_U64 <? v).
Qed.

Lemma index_fields_indices dimension ixs : forall op k vs,
  (k + length ixs <= 3)%nat -> length vs = k ->
  index_fields op = index_fields_of dimension (vs ++ replicate (3 - k) empty_dimension) ->
  index_fields (with_indices op k ixs) =
    index_fields_of dimension
      (vs ++ (view_of_index <$> ixs) ++ replicate (3 - k - length ixs) empty_dimension).
Proof.
  induction ixs as [|ix ixs IH]; intros op k vs Hk Hl Hf; cbn [length] in *.
  - by rewrite Nat.sub_0_r.
  - cbn [with_indices fmap list_fmap]. fold (fmap (M:=list) view_of_index ixs).
    rewrite (IH _ _ (vs ++ [view_of_index ix])).
    + rewrite <- app_assoc. cbn [app].
      by replace (3 - Datatypes.S k - length ixs)%nat with (3 - k - Datatypes.S (length ixs))%nat by lia.
    + lia.
    + rewrite length_app. cbn [length]. lia.
    + replace (3 - k)%nat with (Datatypes.S (3 - Datatypes.S k)) in Hf by lia. cbn [replicate] in Hf.
      assert (Hlen : length (vs ++ empty_dimension :: replicate (3 - Datatypes.S k) empty_dimension) = 3%nat)
        by (rewrite length_app; cbn [length]; rewrite length_replicate; lia).
      rewrite (index_fields_index op k ix dimension _ ltac:(lia) Hlen) with (2 := Hf)
        by (by apply list_lookup_middle).
      rewrite insert_app_r_alt, Hl, Nat.sub_diag by lia. cbn. by rewrite <- app_assoc.
Qed.

(** The dimensions of an assembled operand. *)
Lemma dimension_of_fields op dimension vs k :
  index_fields op = index_fields_of dimension vs -> length vs = 3%nat -> (k < 3)%nat ->
  dimension_of op k = nth k vs empty_dimension.
Proof.
  intros Hf Hl Hk. destruct vs as [|v0 [|v1 [|v2 [|]]]]; try done.
  unfold index_fields, index_fields_of in Hf. unfold dimension_of.
  destruct k as [|[|[|k]]]; try lia; simplify_eq/=;
    repeat match goal with H : _ op = _ |- _ => rewrite H; clear H end; cbn;
    destruct v0, v1, v2; reflexivity.
Qed.

Lemma assembled_fields token0 exts m words ixs :
  Z.of_nat (length ixs) = index_dimension token0 ->
  index_fields (assemble token0 exts m words ixs) = index_fields_of (index_dimension token0)
    ((view_of_index <$> ixs) ++ replicate (3 - length ixs) empty_dimension).
Proof.
  intros Hl. pose proof (index_dimension_range token0). unfold assemble.
  rewrite index_fields_swizzle.
  rewrite (index_fields_indices (index_dimension token0) ixs _ 0 []); [done|lia|done|].
  by rewrite index_fields_immediates.
Qed.

Lemma assembled_swizzle token0 exts m words ixs :
  let op := assemble token0 exts m words ixs in
  length (op_swizzle op) = 4%nat /\ Forall (fun c => 0 <= c <= 3) (op_swizzle op).
Proof.
  assert (Hbase : op_swizzle (with_indices (with_immediates (operand_fields token0 exts m) token0 words)
    0 ixs) = [0; 1; 2; 3]).
  { rewrite with_indices_swizzle. unfold with_immediates. destruct (is_immediate_type _); cbn [negb]; [|done].
    destruct (_ =? OPERAND_TYPE_IMMEDIATE32);
      [destruct (immediate_values token0 _ words)|destruct (immediate_values token0 _ (word_pairs words))];
      reflexivity. }
  unfold assemble, with_swizzle. destruct (is_immediate_type _); [|destruct (selection_mode token0 =? 1);
    [|destruct (selection_mode token0 =? 2)]]; cbn zeta; rewrite ?Hbase.
  1,4: split; [done|]; by repeat constructor.
  1,2: cbn -[selected_component]; split; [done|];
    repeat constructor; apply selected_component_range; lia.
Qed.

Lemma is_operand_coherent n : forall op, operand_tokens op <= n -> is_operand op -> coherent op.
Proof.
  induction (Z.to_nat n) as [|fuel IH] eqn:Hn in n |- *; intros op Hle Hop;
    pose proof (operand_tokens_pos op); [lia|].
  pose proof (is_operand_reads_tokens _ Hop) as Htokens.
  destruct Hop as [token0 exts m words ixs Htok Hwe Hch Hww Hlw Hlix Hrep Hv].
  pose proof (index_dimension_range token0) as Hd.
  rewrite tokens_assemble in Hle by (done || lia).
  pose proof (assembled_fields token0 exts m words ixs Hlix) as Hf.
  destruct (assembled_swizzle token0 exts m words ixs) as [Hs4 Hsw].
  set (op := assemble token0 exts m words ixs) in *.
  assert (Hlv : length ((view_of_index <$> ixs) ++ replicate (3 - length ixs) empty_dimension) = 3%nat).
  { rewrite length_app, length_fmap, length_replicate. lia. }
  pose proof (fun k => dimension_of_fields op _ _ k Hf Hlv) as Hdim.
  assert (Hrid : op_register_index_dim op = index_dimension token0).
  { unfold index_fields, index_fields_of in Hf. by injection Hf. }
  assert (Hoff : op_rel_offset1 op = op_register_index op).
  { pose proof (f_equal dv_legacy (Hdim 0%nat ltac:(lia))) as H0.
    unfold index_fields, index_fields_of in Hf. injection Hf as _ _ _ _ _ _ H1 _.
    rewrite H1, <- H0. done. }
  constructor; rewrite ?Hrid; try done; [lia|..].
  - intros k Hk. rewrite Hdim by lia. destruct (lookup_lt_is_Some_2 ixs k ltac:(lia)) as [ix Hix].
    erewrite nth_lookup_Some by (apply lookup_app_l_Some; rewrite list_lookup_fmap, Hix; reflexivity).
    pose proof (proj1 (list.Forall_lookup _ _) Hv k ix Hix) as Hvix.
    apply (view_of_index_coherent is_operand); [done|]. intros r Hr Hopr.
    apply (IH (n - 1)); [lia| |done].
    assert (index_tokens ix <= foldr Z.add 0 (index_tokens <$> ixs)).
    { clear -Hix. revert k Hix. induction ixs as [|a ixs IH]; intros [|k] Hix; try done;
        rewrite fmap_cons; cbn [foldr]; pose proof (tokens_sum_nonneg ixs);
        pose proof (index_tokens_nonneg a).
      - injection Hix as ->. lia.
      - specialize (IH k Hix). lia. }
    unfold index_tokens at 1 in H0. rewrite Hr in H0. lia.
  - intros k Hk. rewrite Hdim by lia. rewrite app_nth2 by (rewrite length_fmap; lia).
    rewrite length_fmap, nth_lookup.
    destruct (replicate _ empty_dimension !! _) eqn:He; [|done].
    by apply lookup_replicate in He as [-> _].
Qed.
