(* ===== verification/OperandParser.v ===== *)
(** The operand parser as a reader of the grammar: every encoding within the
    limits is accepted, and the operands it returns are coherent. *)

From stdpp Require Import gmultiset.
From S2P Require Import Prelude UnityCommon Hash Document DocumentFormat Heap ByteStream.
From S2P Require Import Decoder Signature SignatureCorrect SignatureParse Operand OperandCorrect OperandFields.

#[local] Set Warnings "-register-all".

(** * Completeness *)

Section complete.
Context `{U : UnityCommon} {HU : UnityCommonSpec U} {HM : MemoryAvailable U}.
Context `{S : ByteStreamOps} {HS : ByteStreamSpec S}.
Variables (D : list byte) (limit : Z).
Hypothesis Hlimit : 0 <= limit <= size D.
Hypothesis Hsize : size D < 2 ^ 32.

#[local] Abbreviation consumed := (consumed D limit).

(** The state after a read: at [p], with the budget and the blocks of [st]. *)
Record moved (st st' : operand_state) (p : Z) : Prop := {
  moved_stream : stream_at (os_stream st') D p;
  moved_budget : os_budget st' = os_budget st;
  moved_live : os_live st' = os_live st;
}.

Lemma moved_trans st st1 st2 p q : moved st st1 p -> moved st1 st2 q -> moved st st2 q.
Proof. intros [? ? ?] [? ? ?]. split; [done|congruence..]. Qed.

Lemma read_word_complete op st p w ws r :
  stream_at (os_stream st) D p -> 0 <= p -> in_u32 w -> consumed p (w :: ws) r ->
  exists st', read_operand_word limit op st = Ret (w, st') /\ moved st st' (p + 4) /\
              consumed (p + 4) ws r.
Proof.
  intros Hs Hp Hw Hc.
  destruct (consumed_first D limit p w ws r Hp ltac:(lia) Hw Hc) as (Hword & Hle & Hc').
  unfold read_operand_word. rewrite (operand_read_at D limit Hlimit Hsize _ p) by (done || lia).
  rewrite (proj2 (Z.leb_le _ _)), Hword by lia. eexists. split; [reflexivity|]. split; [|done].
  split; [by eapply stream_at_seek|done..].
Qed.

(** One extension token. *)
Lemma read_extension_complete token0 base toks m st p ext rest r m1 :
  stream_at (os_stream st) D p -> Z.of_nat (length toks) * 4 <= p -> in_u32 ext ->
  consumed p (ext :: rest) r -> extension_step m ext = Some m1 ->
  os_live st = base ⊎ token_blocks toks ⊎ {[+ OPERAND_SIZE +]} ->
  exists st', read_extension limit token0
      {| es_tokens := toks; es_modifier := m; es_more := true; es_state := st |} =
    Ret {| es_tokens := toks ++ [ext]; es_modifier := m1; es_more := token_extended ext;
           es_state := st' |} /\
    stream_at (os_stream st') D (p + 4) /\ os_budget st' = os_budget st /\
    os_live st' = base ⊎ token_blocks (toks ++ [ext]) ⊎ {[+ OPERAND_SIZE +]} /\
    consumed (p + 4) rest r.
Proof.
  intros Hs Ht Hext Hc Hstep Hl. unfold read_extension. cbn [es_tokens es_state es_modifier].
  destruct (read_word_complete (partial_operand token0 toks) st p ext _ r Hs ltac:(lia) Hext Hc)
    as (st1 & -> & [Hs1 Hb1 Hl1] & Hc1). mstep.
  assert (Hn : Z.of_nat (length toks) < 2 ^ 32) by (destruct Hc; lia).
  destruct (append_token_spec (E:=operand_state) base toks (os_live st1) ext) as [Hn'|Hy];
    [congruence|done|exfalso|].
  - revert Hn'. unfold append_extended_token, ledger_realloc.
    change (SIZE_MAX / 4) with 4611686018427387903.
    rewrite (proj2 (Z.eqb_neq _ 4611686018427387903)), mem_realloc_ok by lia.
    by destruct (if Z.of_nat (length toks) =? 0 then _ else _).
  - rewrite Hy. mstep. rewrite Hstep. mstep. eexists. split; [reflexivity|]. done.
Qed.

(** The extension loop on the rest of a chain. *)
Lemma read_extensions_complete token0 base exts : forall fuel toks m more st p rest r m',
  stream_at (os_stream st) D p -> Forall in_u32 exts ->
  consumed p (exts ++ rest) r -> extension_chain more m exts = Some m' ->
  os_live st = base ⊎ token_blocks toks ⊎ {[+ OPERAND_SIZE +]} ->
  (length exts <= fuel)%nat -> Z.of_nat (length toks) * 4 <= p ->
  exists st', while fuel es_more (read_extension limit token0)
      {| es_tokens := toks; es_modifier := m; es_more := more; es_state := st |} =
    Ret {| es_tokens := toks ++ exts; es_modifier := m'; es_more := false; es_state := st' |} /\
    stream_at (os_stream st') D (p + 4 * Z.of_nat (length exts)) /\ os_budget st' = os_budget st /\
    consumed (p + 4 * Z.of_nat (length exts)) rest r.
Proof.
  induction exts as [|ext exts IH]; intros fuel toks m more st p rest r m' Hs Hw Hc Hch Hl Hf Ht.
  - destruct more; [done|]. injection Hch as ->. exists st.
    rewrite app_nil_r, Z.add_0_r. destruct fuel; done.
  - destruct more; [|done]. cbn [extension_chain] in Hch.
    destruct (extension_step m ext) as [m1|] eqn:Hstep; [|done].
    apply list.Forall_cons in Hw as [Hext Hw]. destruct fuel as [|fuel]; [cbn [length] in Hf; lia|].
    destruct (read_extension_complete token0 base toks m st p ext _ r m1 Hs Ht Hext Hc Hstep Hl)
      as (st1 & Heq1 & Hs1 & Hb1 & Hl1 & Hc1).
    destruct (IH fuel (toks ++ [ext]) m1 (token_extended ext) st1 (p + 4) rest r m')
      as (st' & Heq & Hs' & Hb' & Hc'); try done.
    + cbn [length] in Hf. lia.
    + rewrite length_app. cbn [length]. lia.
    + exists st'. cbn [while es_more]. rewrite Heq1. mstep. rewrite Heq, <- app_assoc.
      cbn [app length]. split; [done|].
      replace (p + 4 * Z.of_nat (Datatypes.S (length exts)))
        with (p + 4 + 4 * Z.of_nat (length exts)) by lia.
      split; [done|]. split; [congruence|done].
Qed.

Lemma read_words_complete op words : forall acc st p rest r i,
  stream_at (os_stream st) D p -> 0 <= p -> Forall in_u32 words -> consumed p (words ++ rest) r ->
  exists st', for_loop (length words) i (fun _ => read_immediate_word limit op) (acc, st) =
      Ret (acc ++ words, st') /\ moved st st' (p + 4 * Z.of_nat (length words)) /\
    consumed (p + 4 * Z.of_nat (length words)) rest r.
Proof.
  induction words as [|w words IH]; intros acc st p rest r i Hs Hp Hw Hc.
  - exists st. rewrite app_nil_r, Z.add_0_r. done.
  - apply list.Forall_cons in Hw as [Hw0 Hw]. cbn [length for_loop].
    change ((w :: words) ++ rest) with (w :: words ++ rest) in Hc.
    destruct (read_word_complete op st p w _ r Hs Hp Hw0 Hc) as (st1 & Heq & Hm1 & Hc1).
    assert (Hstep : read_immediate_word limit op (acc, st) = Ret (acc ++ [w], st1))
      by (unfold read_immediate_word; cbn [fst snd]; by rewrite Heq).
    rewrite Hstep. mstep. destruct (IH (acc ++ [w]) st1 (p + 4) rest r (i + 1)) as (st' & -> & Hm' & Hc');
      [apply Hm1|lia|done|done|].
    exists st'. rewrite <- app_assoc. split; [done|].
    replace (p + 4 * Z.of_nat (Datatypes.S (length words)))
      with (p + 4 + 4 * Z.of_nat (length words)) by lia.
    split; [by eapply moved_trans|done].
Qed.
(** The words of an index after its immediate part. *)
Definition relative_words (ix : operand_index) : list Z :=
  match ix_relative ix with Some r => encode_operand r | None => [] end.

Lemma word64_parts v :
  in_u64 v -> in_u32 (v mod 2 ^ 32) /\ in_u32 (v / 2 ^ 32) /\
  Z.lor (v mod 2 ^ 32) (Z.shiftl (v / 2 ^ 32) 32) = v.
Proof.
  unfold in_u64, in_u32. intros Hv.
  assert (0 <= v mod 2 ^ 32 < 2 ^ 32) by (apply Z.mod_pos_bound; lia).
  assert (0 <= v / 2 ^ 32 < 2 ^ 32).
  { split; [apply Z.div_pos; lia|apply Z.div_lt_upper_bound; lia]. }
  split; [done|]. split; [done|]. rewrite (lor_add_disjoint _ _ 32) by lia.
  pose proof (Z.div_mod v (2 ^ 32)). lia.
Qed.

Lemma read_word64_complete op st p v ws r :
  stream_at (os_stream st) D p -> 0 <= p -> in_u64 v ->
  consumed p (v mod 2 ^ 32 :: v / 2 ^ 32 :: ws) r ->
  exists st', read_operand_word64 limit op st = Ret (v, st') /\ moved st st' (p + 4 + 4) /\
              consumed (p + 4 + 4) ws r.
Proof.
  intros Hs Hp Hv Hc. destruct (word64_parts v Hv) as (Hlo & Hhi & Heq).
  destruct (read_word_complete op st p _ _ r Hs Hp Hlo Hc) as (st1 & H1 & Hm1 & Hc1).
  destruct (read_word_complete op st1 (p + 4) _ _ r (moved_stream _ _ _ Hm1) ltac:(lia) Hhi Hc1)
    as (st2 & H2 & Hm2 & Hc2).
  exists st2. unfold read_operand_word64. rewrite H1. mstep. rewrite H2. mstep. rewrite Heq.
  split; [done|]. split; [by eapply moved_trans|done].
Qed.

Lemma read_immediate_index_complete P op st p ix rest r :
  stream_at (os_stream st) D p -> 0 <= p -> valid_index P ix ->
  consumed p (index_words ix ++ rest) r ->
  exists st' q, read_immediate_index limit op (ix_representation ix) st = Ret (ix_immediate ix, st') /\
    moved st st' q /\ consumed q (relative_words ix ++ rest) r /\
    q + 4 * Z.of_nat (length (relative_words ix)) = p + 4 * Z.of_nat (length (index_words ix)).
Proof.
  intros Hs Hp Hv Hc. unfold read_immediate_index.
  destruct Hv as [v Hv|v Hv|o Ho|v o Hv Ho|v o Hv Ho];
    unfold index_words, encode_index, relative_words in *;
    cbn [ix_representation ix_immediate ix_relative switch Z.eqb Pos.eqb orb app] in *;
    unfold default, from_option, id in Hc |- *.
  - destruct (read_word_complete op st p v _ r Hs Hp Hv Hc) as (st' & -> & Hm & Hc'). mstep.
    exists st', (p + 4). cbn [length]. split; [done|]. split; [done|]. split; [done|lia].
  - destruct (read_word64_complete op st p v _ r Hs Hp Hv Hc) as (st' & -> & Hm & Hc'). mstep.
    exists st', (p + 4 + 4). cbn [length]. split; [done|]. split; [done|]. split; [done|lia].
  - exists st, p. split; [done|]. split; [by split|]. split; [done|lia].
  - destruct (read_word_complete op st p v _ r Hs Hp Hv Hc) as (st' & -> & Hm & Hc'). mstep.
    exists st', (p + 4). cbn [length]. split; [done|]. split; [done|]. split; [done|lia].
  - destruct (read_word64_complete op st p v _ r Hs Hp Hv Hc) as (st' & -> & Hm & Hc'). mstep.
    exists st', (p + 4 + 4). cbn [length]. split; [done|]. split; [done|]. split; [done|lia].
Qed.

Lemma consumed_bounds p ws r : consumed p ws r -> p <= limit /\ p + 4 * Z.of_nat (length ws) <= limit.
Proof. intros []. lia. Qed.

Section index.
Variable parse_relative : operand_state -> res operand_state (DXBCOperand * operand_state).
Variable fuel : Z.
Hypothesis Hparse : forall st p,
  stream_at (os_stream st) D p -> 0 <= p <= limit -> 0 <= os_budget st <= fuel ->
  outcome (parse_relative st) (fun '(r, st') => parsed D limit p (os_live st) (os_budget st) r st')
    (failed D limit (os_live st)).
Hypothesis Hcomplete : forall st p r q,
  stream_at (os_stream st) D p -> 0 <= p -> is_operand r -> consumed p (encode_operand r) q ->
  operand_tokens r <= os_budget st <= fuel -> exists st', parse_relative st = Ret (r, st').

Lemma read_index_complete token0 k op st p ix rest r :
  stream_at (os_stream st) D p -> 0 <= p -> valid_index is_operand ix ->
  ix_representation ix = index_representation token0 k ->
  consumed p (index_words ix ++ rest) r -> index_tokens ix <= os_budget st <= fuel ->
  0 <= os_budget st ->
  exists st', read_index parse_relative limit token0 k (op, st) =
      Ret (with_index op (Z.to_nat k) ix, st') /\
    stream_at (os_stream st') D (p + 4 * Z.of_nat (length (index_words ix))) /\
    os_budget st' = os_budget st - index_tokens ix /\
    consumed (p + 4 * Z.of_nat (length (index_words ix))) rest r.
Proof.
  intros Hs Hp Hv Hr Hc Hb H0. unfold read_index. rewrite <- Hr.
  destruct (read_immediate_index_complete is_operand op st p ix rest r Hs Hp Hv Hc)
    as (st1 & q & -> & [Hs1 Hb1 _] & Hc1 & Hq). mstep.
  assert (0 <= q).
  { unfold relative_words, index_words in Hq. destruct Hv; unfold encode_index in Hq;
      cbn [ix_representation ix_immediate ix_relative switch Z.eqb Pos.eqb length] in Hq; lia. }
  apply (consumed_split D limit q) in Hc1 as [Hca Hcb]; [|done|lia]. rewrite Hq in Hcb.
  rewrite Hq in Hca.
  destruct (ix_relative ix) as [o|] eqn:Hrel.
  - assert (Ho : is_operand o /\ (ix_representation ix <? 2) = false).
    { destruct Hv; cbn in Hrel |- *; simplify_eq; done. }
    destruct Ho as [Ho ->]. unfold relative_words in Hca. rewrite Hrel in Hca.
    assert (Htok : operand_tokens o <= os_budget st1).
    { unfold index_tokens in Hb. rewrite Hrel in Hb. lia. }
    destruct (Hcomplete st1 q o _ Hs1 ltac:(done) Ho Hca ltac:(lia)) as [st2 Heq].
    pose proof (Hparse st1 q Hs1 ltac:(apply consumed_bounds in Hca; lia) ltac:(lia)) as Hout.
    rewrite Heq in Hout |- *. cbn [or_operand_failed].
    destruct Hout as [_ (q' & _ & [Hq' _ _] & Hs2) [Hb2 _] _].
    exists st2. split; [by destruct ix; cbn in *; subst|].
    split; [|split; [unfold index_tokens; rewrite Hrel; lia|done]].
    replace (p + _) with q'; [done|]. rewrite <- Hq. unfold relative_words. by rewrite Hrel.
  - assert (Hlt : (ix_representation ix <? 2) = true).
    { destruct Hv; cbn in Hrel |- *; simplify_eq; done. }
    rewrite Hlt. exists st1. split; [by destruct ix; cbn in *; subst|].
    unfold relative_words in Hq. rewrite Hrel in Hq. cbn [length] in Hq.
    split; [|split; [unfold index_tokens; rewrite Hrel; lia|done]].
    by replace (p + _) with q by lia.
Qed.

Lemma read_indices_complete token0 ixs : forall k op st p r,
  stream_at (os_stream st) D p -> 0 <= p -> Forall (valid_index is_operand) ixs ->
  (forall i ix, ixs !! i = Some ix ->
     ix_representation ix = index_representation token0 (Z.of_nat (k + i))) ->
  consumed p (ixs ≫= index_words) r ->
  foldr Z.add 0 (index_tokens <$> ixs) <= os_budget st <= fuel -> 0 <= os_budget st ->
  exists st', for_loop (length ixs) (Z.of_nat k) (read_index parse_relative limit token0) (op, st) =
    Ret (with_indices op k ixs, st').
Proof.
  induction ixs as [|ix ixs IH]; intros k op st p r Hs Hp Hv Hr Hc Hb H0; [by exists st|].
  apply list.Forall_cons in Hv as [Hv0 Hv]. cbn [fmap list_fmap foldr] in Hb.
  pose proof (index_tokens_nonneg ix).
  pose proof (tokens_sum_nonneg ixs).
  destruct (read_index_complete token0 (Z.of_nat k) op st p ix (ixs ≫= index_words) r)
    as (st1 & Heq & Hs1 & Hb1 & Hc1); try done.
  - rewrite (Hr 0%nat ix) by done. by rewrite Nat.add_0_r.
  - lia.
  - destruct (IH (Datatypes.S k) (with_index op k ix) st1
      (p + 4 * Z.of_nat (length (index_words ix))) r) as [st' Heq']; try done; try lia.
    + intros i ix' Hi. rewrite (Hr (Datatypes.S i) ix') by done. do 2 f_equal. lia.
    + exists st'. cbn [length for_loop]. rewrite Heq. mstep. rewrite Nat2Z.id.
      replace (Z.of_nat k + 1) with (Z.of_nat (Datatypes.S k)) by lia. exact Heq'.
Qed.
End index.
Lemma valid_token_accepted token0 :
  valid_token token0 ->
  (component_count_code token0 =? 3) ||
    ((component_count_code token0 =? 2) && (selection_mode token0 =? 3)) = false /\
  is_immediate_type (operand_token_type token0) &&
    negb (component_count_code token0 =? 1) && negb (component_count_code token0 =? 2) = false.
Proof.
  intros [_ H3 H2 Hi]. rewrite (proj2 (Z.eqb_neq _ _) H3). split.
  - destruct (Z.eqb_spec (component_count_code token0) 2), (Z.eqb_spec (selection_mode token0) 3);
      try done. by exfalso; apply H2.
  - destruct (is_immediate_type _); [|done]. by destruct (Hi eq_refl) as [-> | ->].
Qed.

Lemma parse_impl_complete fuel : forall st p op q,
  stream_at (os_stream st) D p -> 0 <= p -> is_operand op -> consumed p (encode_operand op) q ->
  operand_tokens op <= os_budget st <= Z.of_nat fuel -> Z.of_nat fuel < 2 ^ 32 ->
  exists st', parse_operand_recursive_impl fuel limit st = Ret (op, st').
Proof.
  induction fuel as [|fuel IH]; intros st p op q Hs Hp Hop Hc Hb Hf;
    pose proof (operand_tokens_pos op); [lia|].
  destruct Hop as [token0 exts m words ixs Htok Hwe Hch Hww Hlw Hlix Hrep Hv].
  pose proof (index_dimension_range token0) as Hd.
  rewrite encode_assemble in Hc by (done || lia). rewrite tokens_assemble in Hb by (done || lia).
  pose proof (tokens_sum_nonneg ixs).
  destruct (consumed_first D limit p token0 _ q Hp ltac:(lia) (token_word _ Htok) Hc)
    as (Hword & Hle & Hc0).
  cbn [parse_operand_recursive_impl]. rewrite (at_data _ _ _ Hs), (at_position _ _ _ Hs).
  rewrite (proj2 (Z.eqb_neq _ 0)), (proj2 (Z.ltb_ge _ _)), (proj2 (Z.ltb_ge limit p)) by lia.
  rewrite u64_small, (proj2 (Z.ltb_ge (limit - p) 4)) by lia. cbn [orb].
  rewrite (operand_read_at D limit Hlimit Hsize _ p), (proj2 (Z.leb_le _ _)), Hword by (done || lia).
  unfold ledger_alloc. rewrite mem_alloc_ok.
  destruct (read_extensions_complete token0 (os_live st) exts (Z.to_nat limit) [] no_modifier
    (token_extended token0)
    {| os_stream := stream_seek (os_stream st) (p + 4); os_budget := u64 (os_budget st - 1);
       os_live := os_live st ⊎ {[+ OPERAND_SIZE +]} |} (p + 4) (words ++ (ixs ≫= index_words)) q m)
    as (st1 & Heq1 & Hs1 & Hb1 & Hc1); try done.
  { by eapply stream_at_seek. }
  { unfold token_blocks. by rewrite (right_id_L ∅ (⊎)). }
  { destruct Hc0 as [? ? _]. rewrite length_app in *. lia. }
  { cbn [length]. lia. }
  unfold with_live, with_stream. cbn [os_stream os_budget os_live app] in *. rewrite Heq1. mstep.
  cbn [es_state es_tokens es_modifier].
  destruct (valid_token_accepted token0 Htok) as [-> ->].
  destruct (read_words_complete (operand_fields token0 exts m) words [] st1 _ _ q 0 Hs1
    ltac:(lia) Hww Hc1) as (st2 & Heq2 & [Hs2 Hb2 _] & Hc2).
  rewrite <- Hlw, Nat2Z.id, Heq2. mstep. cbn [app]. rewrite <- Hlix, Nat2Z.id.
  rewrite u64_small in Hb1 by lia.
  destruct (read_indices_complete (parse_operand_recursive_impl fuel limit) (Z.of_nat fuel))
    with (token0 := token0) (ixs := ixs) (k := 0%nat) (st := st2) (r := q)
         (op := with_immediates (operand_fields token0 exts m) token0 words)
         (p := p + 4 + 4 * Z.of_nat (length exts) + 4 * Z.of_nat (length words))
    as [st3 Heq3]; try done; try lia.
  - intros st4 p4 Hs4 Hp4 Hb4. apply parse_impl_spec; [done|done|exact Hs4|lia..].
  - intros st4 p4 op4 q4 Hs4 Hp4 Hop4 Hc4 Hb4. apply (IH st4 p4 op4 q4); [done..|lia].
  - exists st3. change (Z.of_nat 0) with 0 in Heq3. rewrite Heq3. done.
Qed.
End complete.

(** * The claims *)

(** Every operand token is a word of the encoding. *)
Lemma operand_tokens_words n : forall op,
  operand_tokens op <= n -> is_operand op ->
  operand_tokens op <= Z.of_nat (length (encode_operand op)).
Proof.
  induction (Z.to_nat n) as [|fuel IH] eqn:Hn in n |- *; intros op Hle Hop;
    pose proof (operand_tokens_pos op); [lia|].
  destruct Hop as [token0 exts m words ixs Htok Hwe Hch Hww Hlw Hlix Hrep Hv].
  pose proof (index_dimension_range token0) as Hd.
  rewrite encode_assemble, tokens_assemble in * by (done || lia).
  cbn [length]. rewrite !length_app.
  assert (Hsum : foldr Z.add 0 (index_tokens <$> ixs) <= n - 1) by lia.
  assert (foldr Z.add 0 (index_tokens <$> ixs) <= Z.of_nat (length (ixs ≫= index_words))); [|lia].
  clear -IH Hsum Hv Hn. induction Hv as [|ix ixs Hix Hv IHv]; [done|].
  rewrite fmap_cons in *. cbn [foldr] in *. rewrite bind_cons, length_app.
  pose proof (tokens_sum_nonneg ixs). pose proof (index_tokens_nonneg ix).
  specialize (IHv ltac:(lia)).
  assert (index_tokens ix <= Z.of_nat (length (index_words ix))); [|lia].
  assert (Hrel : forall r, is_operand r -> operand_tokens r <= n - 1 ->
    operand_tokens r <= Z.of_nat (length (encode_operand r))).
  { intros r Hr Hrn. apply (IH (n - 1)); [lia|done|done]. }
  unfold index_tokens, index_words, encode_index in *.
  destruct Hix as [v Hix|v Hix|r Hr|v r Hix Hr|v r Hix Hr];
    cbn [ix_representation ix_immediate ix_relative switch Z.eqb Pos.eqb length] in *; try lia;
    specialize (Hrel r Hr ltac:(lia)); lia.
Qed.

Section claims.
Context `{U : UnityCommon} {HU : UnityCommonSpec U}.
Context `{S : ByteStreamOps} {HS : ByteStreamSpec S}.
Variables (D : list byte) (s : ByteStream) (p limit : Z) (live : ledger).
Hypothesis Hlimit : 0 <= limit <= size D.
Hypothesis Hsize : size D < 2 ^ 32.
Hypothesis Hs : stream_at s D p.
Hypothesis Hp : 0 <= p <= limit.

(** The words [ws] are the next ones, inside the limit. *)
Definition words_ahead (ws : list Z) : Prop :=
  p + 4 * Z.of_nat (length ws) <= limit /\
  slice D p (4 * Z.of_nat (length ws)) = words_bytes ws.

Lemma parse_operand_unfold :
  exists budget, 0 <= budget <= 126 /\ (budget = 126 \/ budget = (limit - p) / 4) /\
    parse_operand_recursive s limit live =
      parse_operand_recursive_impl (Z.to_nat budget) limit
        {| os_stream := s; os_budget := budget; os_live := live |}.
Proof.
  unfold parse_operand_recursive, DXBC_MAX_NESTED_OPERAND_TOKENS.
  rewrite (at_data _ _ _ Hs), (at_position _ _ _ Hs), !(proj2 (Z.leb_le _ _)) by lia. cbn [andb].
  rewrite u64_small by lia.
  assert (0 <= (limit - p) / 4) by (apply Z.div_pos; lia).
  destruct (Z.ltb_spec 126 ((limit - p) / 4)); eexists; split; [|eauto|  |eauto]; lia.
Qed.

Lemma parse_operand_outcome :
  outcome (parse_operand_recursive s limit live)
    (fun '(op, st') => exists budget, budget <= 126 /\ parsed D limit p live budget op st')
    (failed D limit live).
Proof.
  destruct parse_operand_unfold as (budget & Hb & _ & ->).
  eapply outcome_mono; [apply (parse_impl_spec D limit Hlimit Hsize); [exact Hs|lia|cbn; lia|lia]| |done].
  intros [op st'] Hparsed. exists budget. split; [lia|exact Hparsed].
Qed.

(** C24: the operand parser reads exactly the grammar: it returns [op] if and only
    if the words ahead, inside the limit, are the encoding of [op] and [op] has at
    most 126 operand tokens; so parsing loses nothing, and is unambiguous. *)
Theorem parse_operand_recursive_reads_grammar {HM : MemoryAvailable U} op :
  (exists st', parse_operand_recursive s limit live = Ret (op, st')) <->
  is_operand op /\ words_ahead (encode_operand op) /\
  operand_tokens op <= DXBC_MAX_NESTED_OPERAND_TOKENS.
Proof.
  unfold DXBC_MAX_NESTED_OPERAND_TOKENS. split.
  - intros [st' Heq]. pose proof parse_operand_outcome as Hout. rewrite Heq in Hout.
    destruct Hout as (budget & Hb & [Hop (p' & _ & [-> Hl Hbytes] & _) [Hbud H0] _]).
    split; [done|]. split; [by split|lia].
  - intros (Hop & [Hl Hbytes] & Htok).
    destruct parse_operand_unfold as (budget & Hb & Hcase & ->).
    apply (parse_impl_complete D limit Hlimit Hsize _ _ p op
      (p + 4 * Z.of_nat (length (encode_operand op)))); try done; [lia|cbn [os_budget]|lia].
    split; [|lia]. destruct Hcase as [-> | ->]; [done|].
    pose proof (operand_tokens_words (operand_tokens op) op ltac:(lia) Hop).
    apply Z.div_le_lower_bound; lia.
Qed.

(** C35: whatever the bytes and whichever allocation fails, the operand parser is
    free of undefined behaviour; on success it stops right after the operand's
    words and owns exactly the operand's blocks, which [free_operand] gives back;
    on failure it owns nothing and the stream is at the operand boundary. *)
Theorem parse_operand_recursive_owns :
  outcome (parse_operand_recursive s limit live)
    (fun '(op, st') =>
       stream_at (os_stream st') D (p + 4 * Z.of_nat (length (encode_operand op))) /\
       operand_tokens op <= DXBC_MAX_NESTED_OPERAND_TOKENS /\
       os_live st' = live ⊎ owned_blocks op ⊎ {[+ OPERAND_SIZE +]} /\
       free_operand (E:=unit) op (os_live st') = Ret (live ⊎ {[+ OPERAND_SIZE +]}))
    (fun st' => os_live st' = live /\ stream_at (os_stream st') D limit).
Proof.
  eapply outcome_mono; [apply parse_operand_outcome| |done].
  intros [op st'] (budget & Hb & [Hop (p' & _ & [-> _ _] & Hs') [Hbud H0] Hl]).
  split; [done|]. split; [unfold DXBC_MAX_NESTED_OPERAND_TOKENS; lia|]. split; [done|].
  apply free_operand_ok. by rewrite Hl, ledger_swap.
Qed.

(** Every operand the parser returns is coherent, down to its relative
    operands: type, index dimension, selection mode, write mask and swizzle are the
    bits of its first token, negate, absolute and precision those of its one
    modifier token, each immediate component is the word the token selects, and
    in each dimension the value, its flags, its signed copy and the relative
    operand agree with the representation. *)
Theorem parse_operand_recursive_coherent op st' :
  parse_operand_recursive s limit live = Ret (op, st') -> coherent op.
Proof.
  intros Heq. pose proof parse_operand_outcome as Hout. rewrite Heq in Hout.
  destruct Hout as (budget & Hb & [Hop _ _ _]).
  by apply (is_operand_coherent (operand_tokens op)).
Qed.
End claims.

(** * Examples *)

#[local] Existing Instance unity_common_ref.
#[local] Existing Instance unity_common_ref_spec.
#[local] Existing Instance unity_common_ref_memory.
#[local] Existing Instance byte_stream_ref.
#[local] Existing Instance byte_stream_ref_spec.

(** [-cb2[r3.x + 5].wzyx]: an extension token, two indices, the second relative. *)
Definition sample_operand_words : list Z :=
  [0x86208000 + 0x1B0 + 0x6; 0x41; 2; 5; 0x0010000A; 3].

Definition sample_operand_bytes : list byte := words_bytes sample_operand_words ++ replicate 4 Byte.x00.

Definition sample_operand_stream : ByteStream :=
  stream_set_endian (stream_init sample_operand_bytes) false.

Definition sample_operand : DXBCOperand := Eval vm_compute in
  match parse_operand_recursive sample_operand_stream 24 ∅ with
  | Ret (op, _) => op
  | _ => zero_operand
  end.

Example sample_operand_read :
  (op_type sample_operand, op_has_neg sample_operand, op_swizzle sample_operand,
   op_index_values sample_operand, op_register_index <$> op_rel_op1 sample_operand) =
  (8, true, [3; 2; 1; 0], [2; 5; 0], Some 3).
Proof. vm_compute. reflexivity. Qed.

Lemma sample_operand_at : stream_at sample_operand_stream sample_operand_bytes 0.
Proof. by split. Qed.

Lemma sample_operand_parsed :
  exists st', parse_operand_recursive sample_operand_stream 24 ∅ = Ret (sample_operand, st').
Proof.
  destruct (parse_operand_recursive sample_operand_stream 24 ∅) as [[op st']| |] eqn:Heq.
  - exists st'. do 2 f_equal. transitivity (match parse_operand_recursive sample_operand_stream 24 ∅ with
      | Ret (op, _) => op | _ => zero_operand end); [by rewrite Heq|vm_compute; reflexivity].
  - exfalso. apply (f_equal (fun r => match r with Fail _ => true | _ => false end)) in Heq.
    vm_compute in Heq. discriminate Heq.
  - exfalso. apply (f_equal (fun r => match r with Undef => true | _ => false end)) in Heq.
    vm_compute in Heq. discriminate Heq.
Qed.

Lemma sample_operand_size : size sample_operand_bytes = 28.
Proof. vm_compute. reflexivity. Qed.

Lemma parse_operand_recursive_reads_grammar_witness :
  size sample_operand_bytes = 28 /\
  is_operand sample_operand /\ words_ahead sample_operand_bytes 0 24 (encode_operand sample_operand).
Proof.
  split; [exact sample_operand_size|].
  destruct (proj1 (parse_operand_recursive_reads_grammar sample_operand_bytes sample_operand_stream
    0 24 ∅ ltac:(rewrite sample_operand_size; lia) ltac:(rewrite sample_operand_size; lia)
    sample_operand_at ltac:(lia) sample_operand) sample_operand_parsed) as (Hop & Hw & _).
  split; [exact Hop|exact Hw].
Defined.

Lemma parse_operand_recursive_owns_witness :
  size sample_operand_bytes = 28 /\
  outcome (parse_operand_recursive sample_operand_stream 24 ∅)
    (fun '(op, st') => free_operand (E:=unit) op (os_live st') = Ret (∅ ⊎ {[+ OPERAND_SIZE +]}))
    (fun st' => os_live st' = ∅).
Proof.
  split; [exact sample_operand_size|].
  eapply outcome_mono; [apply (parse_operand_recursive_owns sample_operand_bytes sample_operand_stream
    0 24 ∅ ltac:(rewrite sample_operand_size; lia) ltac:(rewrite sample_operand_size; lia)
    sample_operand_at ltac:(lia))| |].
  - intros [op st'] (_ & _ & _ & Hfree). exact Hfree.
  - intros st' [Hl _]. exact Hl.
Defined.

Lemma parse_operand_recursive_coherent_witness :
  size sample_operand_bytes = 28 /\ coherent sample_operand.
Proof.
  split; [exact sample_operand_size|]. destruct sample_operand_parsed as [st' Heq].
  exact (parse_operand_recursive_coherent sample_operand_bytes sample_operand_stream
    0 24 ∅ ltac:(rewrite sample_operand_size; lia) ltac:(rewrite sample_operand_size; lia)
    sample_operand_at ltac:(lia) sample_operand st' Heq).
Defined.
