(* ===== verification/Instruction.v ===== *)
(** The instruction decoder of the semantic parser: [DXBCInstruction] and
    [DXBCContainer] of [include/dxbc/dxbc_parser.h] and [parse_shader_logic] of
    [src/dxbc/dxbc_instruction.c].

    [opcode_str], [formatted_asm] and the [text] of operands are presentation
    only, and left out with the code that formats them; what remains are the
    token grammar, the typed fields and the declaration tables. *)

From stdpp Require Import gmultiset.
From S2P Require Import Prelude UnityCommon Decoder Heap ByteStream Signature Resources Operand.

#[local] Set Warnings "-register-all".

(** * Data *)

Definition OPERAND_TYPE_INDEXABLE_TEMP : Z := 3.
Definition OPERAND_TYPE_RESOURCE : Z := 7.
Definition OPERAND_TYPE_UAV : Z := 30.
Definition OPERAND_TYPE_THREAD_GROUP_SHARED_MEMORY : Z := 31.

Definition DXBC_MAX_OPERANDS : Z := 8.

Inductive DXBCInstructionTest :=
| DXBC_INSTRUCTION_TEST_NONE
| DXBC_INSTRUCTION_TEST_ZERO
| DXBC_INSTRUCTION_TEST_NONZERO.

(** [di_operands] are the first [operand_count] elements of [operands]; the
    others are zero. *)
Record DXBCInstruction := {
  di_is_decl : bool;
  di_opcode : Z;
  di_token : Z;
  di_file_offset : Z;
  di_byte_length : Z;
  di_raw_instruction_index : Z;
  di_has_raw_instruction_index : bool;
  di_is_customdata_continuation : bool;
  di_structured_stride : Z;
  di_has_texel_offset : bool;
  di_texel_offsets : list Z;
  di_has_resource_dimension : bool;
  di_resource_dimension : Z;
  di_has_resource_return_types : bool;
  di_resource_return_types : list Z;
  di_resource_info_return_type : Z;
  di_sample_info_return_type : Z;
  di_saturate : bool;
  di_precise_mask : Z;
  di_condition_test : DXBCInstructionTest;
  di_has_declaration_system_value : bool;
  di_declaration_system_value : Z;
  di_has_declaration_interpolation : bool;
  di_declaration_interpolation : Z;
  di_operands : list DXBCOperand;
}.

(** [memset(inst, 0, sizeof(DXBCInstruction))] *)
Definition zero_instruction : DXBCInstruction :=
  {| di_is_decl := false; di_opcode := 0; di_token := 0; di_file_offset := 0; di_byte_length := 0;
     di_raw_instruction_index := 0; di_has_raw_instruction_index := false;
     di_is_customdata_continuation := false; di_structured_stride := 0;
     di_has_texel_offset := false; di_texel_offsets := [0; 0; 0];
     di_has_resource_dimension := false; di_resource_dimension := 0;
     di_has_resource_return_types := false; di_resource_return_types := [0; 0; 0; 0];
     di_resource_info_return_type := 0; di_sample_info_return_type := 0; di_saturate := false;
     di_precise_mask := 0; di_condition_test := DXBC_INSTRUCTION_TEST_NONE;
     di_has_declaration_system_value := false; di_declaration_system_value := 0;
     di_has_declaration_interpolation := false; di_declaration_interpolation := 0;
     di_operands := [] |}.

#[export] Instance eta_DXBCInstruction : Eta DXBCInstruction := fun i =>
  {| di_is_decl := di_is_decl i; di_opcode := di_opcode i; di_token := di_token i;
     di_file_offset := di_file_offset i; di_byte_length := di_byte_length i;
     di_raw_instruction_index := di_raw_instruction_index i;
     di_has_raw_instruction_index := di_has_raw_instruction_index i;
     di_is_customdata_continuation := di_is_customdata_continuation i;
     di_structured_stride := di_structured_stride i; di_has_texel_offset := di_has_texel_offset i;
     di_texel_offsets := di_texel_offsets i;
     di_has_resource_dimension := di_has_resource_dimension i;
     di_resource_dimension := di_resource_dimension i;
     di_has_resource_return_types := di_has_resource_return_types i;
     di_resource_return_types := di_resource_return_types i;
     di_resource_info_return_type := di_resource_info_return_type i;
     di_sample_info_return_type := di_sample_info_return_type i; di_saturate := di_saturate i;
     di_precise_mask := di_precise_mask i; di_condition_test := di_condition_test i;
     di_has_declaration_system_value := di_has_declaration_system_value i;
     di_declaration_system_value := di_declaration_system_value i;
     di_has_declaration_interpolation := di_has_declaration_interpolation i;
     di_declaration_interpolation := di_declaration_interpolation i;
     di_operands := di_operands i |}.
#[export] Instance set_di_is_decl : Setter di_is_decl. Proof. derive_setter. Defined.
#[export] Instance set_di_opcode : Setter di_opcode. Proof. derive_setter. Defined.
#[export] Instance set_di_token : Setter di_token. Proof. derive_setter. Defined.
#[export] Instance set_di_file_offset : Setter di_file_offset. Proof. derive_setter. Defined.
#[export] Instance set_di_byte_length : Setter di_byte_length. Proof. derive_setter. Defined.
#[export] Instance set_di_raw_index : Setter di_raw_instruction_index. Proof. derive_setter. Defined.
#[export] Instance set_di_has_raw : Setter di_has_raw_instruction_index. Proof. derive_setter. Defined.
#[export] Instance set_di_row : Setter di_is_customdata_continuation. Proof. derive_setter. Defined.
#[export] Instance set_di_stride : Setter di_structured_stride. Proof. derive_setter. Defined.
#[export] Instance set_di_has_texel : Setter di_has_texel_offset. Proof. derive_setter. Defined.
#[export] Instance set_di_texel : Setter di_texel_offsets. Proof. derive_setter. Defined.
#[export] Instance set_di_has_dim : Setter di_has_resource_dimension. Proof. derive_setter. Defined.
#[export] Instance set_di_dim : Setter di_resource_dimension. Proof. derive_setter. Defined.
#[export] Instance set_di_has_types : Setter di_has_resource_return_types. Proof. derive_setter. Defined.
#[export] Instance set_di_types : Setter di_resource_return_types. Proof. derive_setter. Defined.
#[export] Instance set_di_resinfo : Setter di_resource_info_return_type. Proof. derive_setter. Defined.
#[export] Instance set_di_sampleinfo : Setter di_sample_info_return_type. Proof. derive_setter. Defined.
#[export] Instance set_di_saturate : Setter di_saturate. Proof. derive_setter. Defined.
#[export] Instance set_di_precise : Setter di_precise_mask. Proof. derive_setter. Defined.
#[export] Instance set_di_test : Setter di_condition_test. Proof. derive_setter. Defined.
#[export] Instance set_di_has_sv : Setter di_has_declaration_system_value. Proof. derive_setter. Defined.
#[export] Instance set_di_sv : Setter di_declaration_system_value. Proof. derive_setter. Defined.
#[export] Instance set_di_has_interp : Setter di_has_declaration_interpolation. Proof. derive_setter. Defined.
#[export] Instance set_di_interp : Setter di_declaration_interpolation. Proof. derive_setter. Defined.
#[export] Instance set_di_operands : Setter di_operands. Proof. derive_setter. Defined.

Definition INSTRUCTION_SIZE : Z := 3480.

Record DXBCChunkInfo := { ci_name : list byte; ci_size : Z; ci_offset : Z }.

(** An array is its first [count] elements, or NULL. *)
Record DXBCContainer := {
  dc_program_type : Z;
  dc_major_version : Z;
  dc_minor_version : Z;
  dc_has_executable_program : bool;
  dc_tables : resource_tables;
  dc_input_signature : signature_list;
  dc_output_signature : signature_list;
  dc_patch_constant_signature : signature_list;
  dc_chunks : option (list DXBCChunkInfo);
  dc_chunk_alloc : Z;
  dc_instructions : option (list DXBCInstruction);
  dc_instruction_count : Z;
  dc_instruction_alloc : Z;
  dc_icb_values : option (list Z);
  dc_icb_value_count : Z;
  dc_icb_value_alloc : Z;
  dc_parsed_signature_authority : bool;
}.

(** [memset(container, 0, sizeof *container)] *)
Definition zero_container : DXBCContainer :=
  {| dc_program_type := 0; dc_major_version := 0; dc_minor_version := 0;
     dc_has_executable_program := false;
     dc_tables := {| resources := empty_resource_table; uavs := empty_resource_table |};
     dc_input_signature := empty_signature_list; dc_output_signature := empty_signature_list;
     dc_patch_constant_signature := empty_signature_list; dc_chunks := None; dc_chunk_alloc := 0;
     dc_instructions := None; dc_instruction_count := 0; dc_instruction_alloc := 0;
     dc_icb_values := None; dc_icb_value_count := 0; dc_icb_value_alloc := 0;
     dc_parsed_signature_authority := false |}.

#[export] Instance eta_DXBCContainer : Eta DXBCContainer := fun c =>
  {| dc_program_type := dc_program_type c; dc_major_version := dc_major_version c;
     dc_minor_version := dc_minor_version c; dc_has_executable_program := dc_has_executable_program c;
     dc_tables := dc_tables c; dc_input_signature := dc_input_signature c;
     dc_output_signature := dc_output_signature c;
     dc_patch_constant_signature := dc_patch_constant_signature c; dc_chunks := dc_chunks c;
     dc_chunk_alloc := dc_chunk_alloc c; dc_instructions := dc_instructions c;
     dc_instruction_count := dc_instruction_count c; dc_instruction_alloc := dc_instruction_alloc c;
     dc_icb_values := dc_icb_values c; dc_icb_value_count := dc_icb_value_count c;
     dc_icb_value_alloc := dc_icb_value_alloc c;
     dc_parsed_signature_authority := dc_parsed_signature_authority c |}.
#[export] Instance set_dc_type : Setter dc_program_type. Proof. derive_setter. Defined.
#[export] Instance set_dc_major : Setter dc_major_version. Proof. derive_setter. Defined.
#[export] Instance set_dc_minor : Setter dc_minor_version. Proof. derive_setter. Defined.
#[export] Instance set_dc_executable : Setter dc_has_executable_program. Proof. derive_setter. Defined.
#[export] Instance set_dc_tables : Setter dc_tables. Proof. derive_setter. Defined.
#[export] Instance set_dc_input : Setter dc_input_signature. Proof. derive_setter. Defined.
#[export] Instance set_dc_output : Setter dc_output_signature. Proof. derive_setter. Defined.
#[export] Instance set_dc_patch : Setter dc_patch_constant_signature. Proof. derive_setter. Defined.
#[export] Instance set_dc_chunks : Setter dc_chunks. Proof. derive_setter. Defined.
#[export] Instance set_dc_chunk_alloc : Setter dc_chunk_alloc. Proof. derive_setter. Defined.
#[export] Instance set_dc_instructions : Setter dc_instructions. Proof. derive_setter. Defined.
#[export] Instance set_dc_count : Setter dc_instruction_count. Proof. derive_setter. Defined.
#[export] Instance set_dc_alloc : Setter dc_instruction_alloc. Proof. derive_setter. Defined.
#[export] Instance set_dc_icb : Setter dc_icb_values. Proof. derive_setter. Defined.
#[export] Instance set_dc_icb_count : Setter dc_icb_value_count. Proof. derive_setter. Defined.
#[export] Instance set_dc_icb_alloc : Setter dc_icb_value_alloc. Proof. derive_setter. Defined.
#[export] Instance set_dc_authority : Setter dc_parsed_signature_authority. Proof. derive_setter. Defined.

(** * Declarations *)

Definition get_ret_type_str (t : Z) : string :=
  switch t [(1, "unorm"); (2, "snorm"); (3, "int"); (4, "uint"); (5, "float"); (6, "mixed");
            (7, "double"); (8, "continued"); (9, "unused")]%string "unknown"%string.

(** The four types of a return-type token, component 0 first. *)
Definition decode_resource_return_types (token : Z) : option (list Z) :=
  if negb (Z.land token 0xffff0000 =? 0) then None else
  let types := (fun component => Z.land (Z.shiftr token (component * 4)) 0xf) <$> [0; 1; 2; 3] in
  if existsb (fun t => (t =? 0) || (9 <? t)) types then None else Some types.

(** [format_resource_return_types_diagnostic], with its 64-byte buffer never
    too small. *)
Definition return_types_text (types : list Z) : string :=
  String.concat "," (get_ret_type_str <$> types).

(** [strcpy] to the start of an array *)
Definition strcpy_into {E} (array : list byte) (s : string) : res E (list byte) :=
  blit array 0 (c_literal s).

#[export] Instance eta_DXBCResourceDecl : Eta DXBCResourceDecl := fun d =>
  {| decl_register_index := decl_register_index d; decl_dim_name := decl_dim_name d;
     decl_ret_types := decl_ret_types d; decl_dimension := decl_dimension d;
     decl_return_types := decl_return_types d; decl_sample_count := decl_sample_count d;
     decl_stride := decl_stride d; decl_is_structured := decl_is_structured d;
     decl_globally_coherent := decl_globally_coherent d;
     decl_rasterizer_ordered := decl_rasterizer_ordered d;
     decl_has_order_preserving_counter := decl_has_order_preserving_counter d;
     decl_declared := decl_declared d |}.
#[export] Instance set_decl_dim_name : Setter decl_dim_name. Proof. derive_setter. Defined.
#[export] Instance set_decl_ret_types : Setter decl_ret_types. Proof. derive_setter. Defined.
#[export] Instance set_decl_dimension : Setter decl_dimension. Proof. derive_setter. Defined.
#[export] Instance set_decl_types : Setter decl_return_types. Proof. derive_setter. Defined.
#[export] Instance set_decl_samples : Setter decl_sample_count. Proof. derive_setter. Defined.
#[export] Instance set_decl_stride : Setter decl_stride. Proof. derive_setter. Defined.
#[export] Instance set_decl_structured : Setter decl_is_structured. Proof. derive_setter. Defined.
#[export] Instance set_decl_coherent : Setter decl_globally_coherent. Proof. derive_setter. Defined.
#[export] Instance set_decl_ordered : Setter decl_rasterizer_ordered. Proof. derive_setter. Defined.
#[export] Instance set_decl_counter : Setter decl_has_order_preserving_counter. Proof. derive_setter. Defined.
#[export] Instance set_decl_declared : Setter decl_declared. Proof. derive_setter. Defined.

(** The immediate operand of a declaration's literal DWORD. *)
Definition literal_operand (value : Z) : DXBCOperand :=
  zero_operand <| op_type := OPERAND_TYPE_IMMEDIATE32 |> <| op_imm_value_count := 1 |>
               <| op_imm_values := [value; 0; 0; 0] |> <| op_immediate_word_count := 1 |>
               <| op_immediate_words := [value; 0; 0; 0; 0; 0; 0; 0] |>.

Definition declaration_binding_register (instruction : DXBCInstruction) (expected_type : Z)
    : option Z :=
  match di_operands instruction with
  | [operand] =>
      if negb (op_type operand =? expected_type) || negb (op_register_index_dim operand =? 1) ||
         (op_register_index operand <? 0) || bool_decide (is_Some (op_rel_op0 operand)) ||
         negb (nth 0 (op_index_has_immediate operand) false) ||
         nth 0 (op_index_value_exceeds_int operand) false ||
         negb (nth 0 (op_index_values operand) 0 =? u32 (op_register_index operand))
      then None else Some (op_register_index operand)
  | _ => None
  end.

(** * The instruction token *)

(** Bits 30:24 *)
Definition dxbc_tokenized_instruction_length (token : Z) : Z := Z.land (Z.shiftr token 24) 0x7f.

Definition customdata_class (token : Z) : Z := Z.land (Z.shiftr token 11) 0x1fffff.

(** A four-bit two's-complement offset *)
Definition texel_offset (data shift : Z) : Z :=
  let v := Z.land (Z.shiftr data shift) 0xf in if 8 <=? v then v - 16 else v.

(** The fields the first token gives; [None] where it is rejected. *)
Definition instruction_header (token start_pos next_inst_pos raw_instruction_index : Z)
    : DXBCInstruction * bool :=
  let opcode := Z.land token 0x7ff in
  let is_decl := dxbc_opcode_is_declaration opcode in
  let inst := zero_instruction
    <| di_token := token |> <| di_file_offset := u32 start_pos |>
    <| di_byte_length := u32 (next_inst_pos - start_pos) |>
    <| di_raw_instruction_index := raw_instruction_index |>
    <| di_has_raw_instruction_index := true |> <| di_opcode := opcode |> <| di_is_decl := is_decl |> in
  let inst := if negb is_decl && negb (opcode =? 190)
              then inst <| di_precise_mask := Z.land (Z.shiftr token 19) 0x0f |> else inst in
  if (opcode =? 53) && negb (customdata_class token =? 3) then (inst, false) else
  let info := Z.land (Z.shiftr token 11) 0x3 in
  let inst := if opcode =? 61 then inst <| di_resource_info_return_type := info |>
              else if opcode =? 111 then inst <| di_sample_info_return_type := info |> else inst in
  if ((opcode =? 61) && (info =? 3)) || ((opcode =? 111) && (1 <? info)) then (inst, false) else
  let inst := if negb is_decl && negb (opcode =? 190) && negb (Z.land token 0x2000 =? 0)
              then inst <| di_saturate := true |> else inst in
  let inst := if (opcode =? 31) || (opcode =? 3) || (opcode =? 8) || (opcode =? 13)
              then inst <| di_condition_test := if negb (Z.land token 0x40000 =? 0)
                                                then DXBC_INSTRUCTION_TEST_NONZERO
                                                else DXBC_INSTRUCTION_TEST_ZERO |>
              else inst in
  (inst, true).

(** One opcode extension token; [None] where the instruction is rejected. *)
Definition opcode_extension (inst : DXBCInstruction) (ext : Z) : option DXBCInstruction :=
  let data := Z.land ext 0x7FFFFFFF in
  let ext_type := Z.land data 0x3F in
  if ext_type =? 1 then
    if di_has_texel_offset inst then None
    else Some (inst <| di_has_texel_offset := true |>
                    <| di_texel_offsets := texel_offset data <$> [9; 13; 17] |>)
  else if ext_type =? 2 then
    let dim := Z.land (Z.shiftr data 6) 0x1F in
    if di_has_resource_dimension inst || (dim <? 1) || (12 <? dim) then None
    else Some (inst <| di_has_resource_dimension := true |> <| di_resource_dimension := dim |>
                    <| di_structured_stride := Z.land (Z.shiftr data 11) 0xfff |>)
  else if ext_type =? 3 then
    if di_has_resource_return_types inst then None else
    types ← decode_resource_return_types (Z.shiftr data 6);
    Some (inst <| di_resource_return_types := types |> <| di_has_resource_return_types := true |>)
  else None.

(** * Parsing *)

(** [reserve_instructions]: the container with room for [required] instructions,
    or false. *)
Definition reserve_instructions `{UnityCommon} {E} (container : DXBCContainer) (required : Z)
    : res E (option DXBCContainer) :=
  let is_null := negb (bool_decide (is_Some (dc_instructions container))) in
  let allocation := dc_instruction_alloc container in
  if (required <? 0) || (dc_instruction_count container <? 0) ||
     (allocation <? dc_instruction_count container) || negb (eqb (allocation =? 0) is_null)
  then Ret None
  else if required <=? allocation then Ret (Some container) else
  new_allocation ← while 31 (fun n => n <? required)
    (fun n => Ret (if INT_MAX / 2 <? n then required else n * 2))
    (if allocation =? 0 then 128 else allocation);
  if dxbc_size_multiply_overflows allocation INSTRUCTION_SIZE ||
     dxbc_size_multiply_overflows new_allocation INSTRUCTION_SIZE then Ret None
  else if mem_realloc (u64 (allocation * INSTRUCTION_SIZE)) (u64 (new_allocation * INSTRUCTION_SIZE))
  then Ret (Some (container <| dc_instructions := Some (default [] (dc_instructions container)) |>
                            <| dc_instruction_alloc := new_allocation |>))
  else Ret None.

(** [allocate_immediate_constants]; the block's contents are not initialised. *)
Definition allocate_immediate_constants `{UnityCommon} (container : DXBCContainer)
    (dword_count : Z) : option DXBCContainer :=
  if (dword_count <=? 0) || negb (dc_icb_value_count container =? 0) ||
     negb (dc_icb_value_alloc container =? 0) ||
     bool_decide (is_Some (dc_icb_values container)) ||
     dxbc_size_multiply_overflows dword_count 4 then None
  else if mem_alloc (u64 (dword_count * 4))
  then Some (container <| dc_icb_values := Some [] |> <| dc_icb_value_alloc := dword_count |>)
  else None.

Section parse.
Context `{U : UnityCommon, S : ByteStreamOps}.

(** What the decoding of one instruction threads, also when it fails: the
    stream, the instruction at the end of the array, the continuation rows
    behind it, the container and the live operand blocks. *)
Record inst_state := {
  is_stream : ByteStream;
  is_inst : DXBCInstruction;
  is_rows : list DXBCInstruction;
  is_container : DXBCContainer;
  is_live : ledger;
}.

#[export] Instance eta_inst_state : Eta inst_state := fun x =>
  {| is_stream := is_stream x; is_inst := is_inst x; is_rows := is_rows x;
     is_container := is_container x; is_live := is_live x |}.
#[export] Instance set_is_stream : Setter is_stream. Proof. derive_setter. Defined.
#[export] Instance set_is_inst : Setter is_inst. Proof. derive_setter. Defined.
#[export] Instance set_is_rows : Setter is_rows. Proof. derive_setter. Defined.
#[export] Instance set_is_container : Setter is_container. Proof. derive_setter. Defined.
#[export] Instance set_is_live : Setter is_live. Proof. derive_setter. Defined.

Definition handler := inst_state -> res inst_state inst_state.

(** [stream] is not NULL. *)
Definition instruction_read_u32 (stream : ByteStream) (instruction_end : Z) : option (Z * ByteStream) :=
  if (stream_position stream <=? instruction_end) && (instruction_end <=? size (stream_data stream)) &&
     (4 <=? u64 (instruction_end - stream_position stream))
  then stream_read_uint32 stream else None.

(** A word of the instruction; its failure rejects the instruction. *)
Definition read_instruction_word (instruction_end : Z) (x : inst_state)
    : res inst_state (Z * inst_state) :=
  match instruction_read_u32 (is_stream x) instruction_end with
  | None => Fail x
  | Some (w, stream) => Ret (w, x <| is_stream := stream |>)
  end.

Definition reject_if (b : bool) (x : inst_state) : res inst_state unit :=
  if b then Fail x else Ret tt.

Definition append_operand (x : inst_state) (op : DXBCOperand) : inst_state :=
  x <| is_inst ::= set_field di_operands (fun ops => ops ++ [op]) |>.

Definition operand_count (x : inst_state) : Z := Z.of_nat (length (di_operands (is_inst x))).

(** The parsed operand is copied into the array and its own block freed. *)
Definition append_required_operand (instruction_end : Z) : handler := fun x =>
  if DXBC_MAX_OPERANDS <=? operand_count x then Fail x else
  match parse_operand_recursive (is_stream x) instruction_end (is_live x) with
  | Fail st => Fail (x <| is_stream := os_stream st |> <| is_live := os_live st |>)
  | Undef => Undef
  | Ret (operand, st) =>
      live ← ledger_free (os_live st) OPERAND_SIZE;
      Ret (append_operand (x <| is_stream := os_stream st |> <| is_live := live |>) operand)
  end.

Definition append_declaration_literal (instruction_end : Z) : handler := fun x =>
  if DXBC_MAX_OPERANDS <=? operand_count x then Fail x else
  '(value, x) ← read_instruction_word instruction_end x;
  Ret (append_operand x (literal_operand value)).

(** The register of a binding declaration, whose failure rejects it. *)
Definition binding_register (type : Z) (x : inst_state) : res inst_state Z :=
  match declaration_binding_register (is_inst x) type with Some r => Ret r | None => Fail x end.

(** [dxbc_get_or_add_resource_declaration], whose NULL rejects the instruction,
    and the assignments to the declaration it returns. *)
Definition declare (register : Z) (uav : bool)
    (assign : DXBCResourceDecl -> res inst_state DXBCResourceDecl) : handler := fun x =>
  '(declaration, tables) ← dxbc_get_or_add_resource_declaration
    (Some (dc_tables (is_container x))) register uav;
  let x := x <| is_container ::= set_field dc_tables (fun t => default t tables) |> in
  match declaration with
  | None => Fail x
  | Some index =>
      let table := table_of (dc_tables (is_container x)) uav in
      match default [] (rt_declarations table) !! Z.to_nat index with
      | None => Undef
      | Some d =>
          d ← assign d;
          let table := {| rt_declarations := Some (<[Z.to_nat index := d]> (default [] (rt_declarations table)));
                          rt_count := rt_count table; rt_allocation := rt_allocation table |} in
          Ret (x <| is_container ::= set_field dc_tables (fun t => with_table t uav table) |>)
      end
  end.

(** * One definition per group of opcodes

    [token] is the instruction's first token, [next] its end. *)

Definition bits_clear (token mask : Z) : bool := Z.land token mask =? 0.

(** 155 *)
Definition dcl_thread_group (token next : Z) : handler := fun x =>
  _ ← reject_if (negb (bits_clear token 0x80fff800)) x;
  x ← append_declaration_literal next x;
  x ← append_declaration_literal next x;
  append_declaration_literal next x.

(** 159, 160 *)
Definition dcl_shared_memory (opcode token next : Z) : handler := fun x =>
  _ ← reject_if (negb (bits_clear token 0x80fff800)) x;
  x ← append_required_operand next x;
  _ ← binding_register OPERAND_TYPE_THREAD_GROUP_SHARED_MEMORY x;
  x ← append_declaration_literal next x;
  if opcode =? 160 then append_declaration_literal next x else Ret x.

(** 190 *)
Definition sync (token : Z) : handler := fun x =>
  _ ← reject_if (negb (bits_clear token 0x80ff8000)) x; Ret x.

(** A continuation row of an immediate constant buffer. *)
Definition continuation_row (inst : DXBCInstruction) : DXBCInstruction :=
  zero_instruction
    <| di_token := di_token inst |> <| di_opcode := di_opcode inst |> <| di_is_decl := true |>
    <| di_file_offset := di_file_offset inst |> <| di_byte_length := di_byte_length inst |>
    <| di_raw_instruction_index := di_raw_instruction_index inst |>
    <| di_has_raw_instruction_index := true |> <| di_is_customdata_continuation := true |>.

(** [container->icb_values[container->icb_value_count++] = value] *)
Definition push_constant {E} (value : Z) (c : DXBCContainer) : res E DXBCContainer :=
  if dc_icb_value_count c <? dc_icb_value_alloc c then
    Ret (c <| dc_icb_values := Some (take (Z.to_nat (dc_icb_value_count c))
                                       (default [] (dc_icb_values c)) ++ [value]) |>
           <| dc_icb_value_count ::= Z.add 1 |>)
  else Undef.

Definition read_constant (next : Z) (_ : Z) : handler := fun x =>
  '(value, x) ← read_instruction_word next x;
  c ← push_constant value (is_container x);
  Ret (x <| is_container := c |>).

(** One vector; the first is on the instruction's own row. *)
Definition read_vector (next v : Z) : handler := fun x =>
  x ← for_loop 4 0 (read_constant next) x;
  if v =? 0 then Ret x else
  let index := dc_instruction_count (is_container x) + Z.of_nat (length (is_rows x)) + 1 in
  if index <? dc_instruction_alloc (is_container x)
  then Ret (x <| is_rows ::= fun rows => rows ++ [continuation_row (is_inst x)] |>)
  else Undef.

(** 53, class 3 *)
Definition dcl_immediate_constant_buffer (next : Z) : handler := fun x =>
  let data_bytes := u64 (next - stream_position (is_stream x)) in
  _ ← reject_if ((data_bytes =? 0) || negb (data_bytes mod 16 =? 0)) x;
  let dword_count := data_bytes / 4 in
  _ ← reject_if (INT_MAX <? dword_count) x;
  let vector_count := dword_count / 4 in
  match allocate_immediate_constants (is_container x) dword_count with
  | None => Fail x
  | Some c =>
      let x := x <| is_container := c |> in
      _ ← reject_if (INT_MAX - dc_instruction_count c <? vector_count) x;
      reserved ← reserve_instructions c (dc_instruction_count c + vector_count);
      match reserved with
      | None => Fail x
      | Some c =>
          let x := x <| is_container := c <| dc_icb_value_count := 0 |> |>
                     <| is_inst ::= set_field di_is_decl (fun _ => true) |> in
          for_loop (Z.to_nat vector_count) 0 (read_vector next) x
      end
  end.

(** 89 *)
Definition dcl_constant_buffer (token next : Z) : handler := fun x =>
  _ ← reject_if (negb (bits_clear token 0x80fff000)) x;
  append_required_operand next x.

(** 90 *)
Definition dcl_sampler (token next : Z) : handler := fun x =>
  _ ← reject_if (negb (bits_clear token 0x80ff8000)) x;
  x ← append_required_operand next x;
  _ ← reject_if (2 <? Z.land (Z.shiftr token 11) 0xf) x; Ret x.

Definition resource_dimension_bits (token : Z) : Z := Z.land (Z.shiftr token 11) 0x1f.

Definition is_multisampled (dim : Z) : bool := (dim =? 4) || (dim =? 9).

(** The text of a dimension and of its return types, in the declaration. *)
Definition with_texts (dim : Z) (types : list Z) (d : DXBCResourceDecl)
    : res inst_state DXBCResourceDecl :=
  dim_name ← strcpy_into (decl_dim_name d) (dxbc_resource_dim_name dim);
  ret_types ← strcpy_into (decl_ret_types d) (return_types_text types);
  Ret (d <| decl_dim_name := dim_name |> <| decl_ret_types := ret_types |>
         <| decl_dimension := dim |> <| decl_return_types := types |>).

(** 88 *)
Definition dcl_resource (token next : Z) : handler := fun x =>
  x ← append_required_operand next x;
  reg_idx ← binding_register OPERAND_TYPE_RESOURCE x;
  '(ret_type_token, x) ← read_instruction_word next x;
  let dim := resource_dimension_bits token in
  let sample_count := Z.land (Z.shiftr token 16) 0x7f in
  _ ← reject_if ((dim <? 1) || (10 <? dim) ||
        (if is_multisampled dim then negb (bits_clear token 0x00800000)
         else negb (bits_clear token 0x00ff0000))) x;
  match decode_resource_return_types ret_type_token with
  | None => Fail x
  | Some types =>
      declare reg_idx false (fun d =>
        d ← with_texts dim types d;
        Ret (d <| decl_sample_count := if is_multisampled dim then sample_count else 0 |>
               <| decl_is_structured := false |> <| decl_declared := true |>)) x
  end.

(** The access flags of a UAV declaration. *)
Definition with_uav_flags (token : Z) (d : DXBCResourceDecl) : DXBCResourceDecl :=
  d <| decl_globally_coherent := negb (bits_clear token 0x00010000) |>
    <| decl_rasterizer_ordered := negb (bits_clear token 0x00020000) |>.

Definition is_typed_uav_dimension (dim : Z) : bool :=
  (dim =? 1) || (dim =? 2) || (dim =? 3) || (dim =? 5) || (dim =? 7) || (dim =? 8).

(** 156 *)
Definition dcl_uav_typed (token next : Z) : handler := fun x =>
  _ ← reject_if (negb (bits_clear token 0x00fc0000)) x;
  x ← append_required_operand next x;
  reg_idx ← binding_register OPERAND_TYPE_UAV x;
  '(ret_type_token, x) ← read_instruction_word next x;
  let dim := resource_dimension_bits token in
  _ ← reject_if (negb (is_typed_uav_dimension dim)) x;
  match decode_resource_return_types ret_type_token with
  | None => Fail x
  | Some types =>
      declare reg_idx true (fun d =>
        d ← with_texts dim types d;
        Ret (with_uav_flags token (d <| decl_is_structured := false |>) <| decl_declared := true |>)) x
  end.

(** The name and dimension of a raw or structured buffer. *)
Definition with_buffer (name : string) (dimension : Z) (d : DXBCResourceDecl)
    : res inst_state DXBCResourceDecl :=
  dim_name ← strcpy_into (decl_dim_name d) name;
  Ret (d <| decl_dim_name := dim_name |> <| decl_dimension := dimension |> <| decl_declared := true |>).

(** 157, 161 *)
Definition dcl_raw (uav : bool) (token next : Z) : handler := fun x =>
  _ ← reject_if (negb (bits_clear token (if uav then 0x00fcf800 else 0x00fff800))) x;
  x ← append_required_operand next x;
  reg_idx ← binding_register (if uav then OPERAND_TYPE_UAV else OPERAND_TYPE_RESOURCE) x;
  declare reg_idx uav (fun d =>
    d ← with_buffer "raw_buffer" 11 d; Ret (if uav then with_uav_flags token d else d)) x.

(** 158, 162 *)
Definition dcl_structured (uav : bool) (token next : Z) : handler := fun x =>
  _ ← reject_if (negb (bits_clear token (if uav then 0x007cf800 else 0x00fff800))) x;
  x ← append_required_operand next x;
  reg_idx ← binding_register (if uav then OPERAND_TYPE_UAV else OPERAND_TYPE_RESOURCE) x;
  '(stride_val, x) ← read_instruction_word next x;
  _ ← reject_if ((stride_val =? 0) || negb (Z.land stride_val 3 =? 0) || (INT_MAX <? stride_val)) x;
  let x := append_operand (x <| is_inst ::= set_field di_structured_stride (fun _ => stride_val) |>)
             zero_operand in
  declare reg_idx uav (fun d =>
    d ← with_buffer "structured_buffer" 12 d;
    let d := d <| decl_stride := stride_val |> <| decl_is_structured := true |> in
    Ret (if uav then with_uav_flags token d
                       <| decl_has_order_preserving_counter := negb (bits_clear token 0x00800000) |>
         else d)) x.

(** 91 *)
Definition dcl_index_range (next : Z) : handler := fun x =>
  x ← append_required_operand next x;
  '(register_count, x) ← read_instruction_word next x;
  _ ← reject_if ((register_count =? 0) || (INT_MAX <? register_count)) x;
  Ret (append_operand x (literal_operand register_count)).

(** 113-116, 147-151: the token is the whole instruction. *)
Definition token_only (next : Z) : handler := fun x =>
  _ ← reject_if (negb (stream_position (is_stream x) =? next)) x; Ret x.

(** 152-154, 206 *)
Definition dcl_scalar (opcode next : Z) : handler := fun x =>
  '(scalar, x) ← read_instruction_word next x;
  _ ← reject_if ((((opcode =? 153) || (opcode =? 154)) && (scalar =? 0)) ||
        ((opcode =? 206) && ((scalar =? 0) || (32 <? scalar)))) x;
  Ret (append_operand x (literal_operand scalar)).

(** 104 *)
Definition dcl_temps (next : Z) : handler := fun x =>
  '(num_temps, x) ← read_instruction_word next x;
  _ ← reject_if (INT_MAX <? num_temps) x;
  Ret (append_operand x (zero_operand <| op_register_index := num_temps |>)).

(** 105 *)
Definition dcl_indexable_temp (next : Z) : handler := fun x =>
  '(reg_idx, x) ← read_instruction_word next x;
  '(reg_count, x) ← read_instruction_word next x;
  '(comp_count, x) ← read_instruction_word next x;
  _ ← reject_if ((INT_MAX <? reg_idx) || (INT_MAX <? reg_count) || (INT_MAX <? comp_count)) x;
  let x := append_operand x (zero_operand <| op_type := OPERAND_TYPE_INDEXABLE_TEMP |>
             <| op_register_index := reg_idx |> <| op_rel_offset1 := reg_count |>) in
  Ret (append_operand x (zero_operand <| op_register_index := comp_count |>)).

(** 93: a text-only operand for a primitive the diagnostics name. *)
Definition dcl_input_primitive (token : Z) : handler := fun x =>
  let prim := Z.land (Z.shiftr token 11) 0x3f in
  Ret (if (prim =? 1) || (prim =? 2) || (prim =? 3) || (prim =? 6) || (prim =? 7) ||
          ((8 <=? prim) && (prim <=? 39))
       then append_operand x zero_operand else x).

(** 92 *)
Definition dcl_output_topology (token : Z) : handler := fun x =>
  let topo := Z.land (Z.shiftr token 11) 0x3f in
  Ret (if (topo =? 1) || (topo =? 2) || (topo =? 3) || (topo =? 4) || (topo =? 5) ||
          ((10 <=? topo) && (topo <=? 13))
       then append_operand x zero_operand else x).

(** 94 *)
Definition dcl_max_out (next : Z) : handler := fun x =>
  '(_, x) ← read_instruction_word next x; Ret (append_operand x zero_operand).

(** 106 *)
Definition dcl_global_flags (token : Z) : handler := fun x =>
  let flags := Z.land (Z.shiftr token 11) 0x1fff in
  _ ← reject_if (negb (Z.land flags (u32 (Z.lnot 0x1ff)) =? 0)) x;
  Ret (if negb (flags =? 0) then append_operand x zero_operand else x).

(** 95, 101 *)
Definition dcl_input_output (token next : Z) : handler := fun x =>
  _ ← reject_if (negb (bits_clear token 0x80fff800)) x;
  append_required_operand next x.

Definition with_interpolation (token : Z) : handler := fun x =>
  let interp := Z.land (Z.shiftr token 11) 0x1f in
  _ ← reject_if (7 <? interp) x;
  Ret (x <| is_inst ::= set_field di_has_declaration_interpolation (fun _ => true) |>
         <| is_inst ::= set_field di_declaration_interpolation (fun _ => interp) |>).

(** 96, 97, 99, 100, 102, 103 *)
Definition dcl_system_value (opcode token next : Z) : handler := fun x =>
  let has_interpolation := (opcode =? 99) || (opcode =? 100) in
  _ ← reject_if (negb (bits_clear token (if has_interpolation then 0x80ff8000 else 0x80fff800))) x;
  x ← append_required_operand next x;
  '(sv_id, x) ← read_instruction_word next x;
  _ ← reject_if (negb (bits_clear sv_id 0xffff0000) || (sv_id =? 0) || (25 <? sv_id)) x;
  let x := append_operand
    (x <| is_inst ::= set_field di_has_declaration_system_value (fun _ => true) |>
       <| is_inst ::= set_field di_declaration_system_value (fun _ => sv_id) |>) zero_operand in
  if has_interpolation then with_interpolation token x else Ret x.

(** 98 *)
Definition dcl_input_ps (token next : Z) : handler := fun x =>
  _ ← reject_if (negb (bits_clear token 0x80ff8000)) x;
  x ← append_required_operand next x;
  with_interpolation token x.

(** Any other opcode: operands up to the end of the instruction.  One more than
    the maximum is never read, so nine rounds are enough. *)
Definition operands (next : Z) : handler := fun x =>
  while 9 (fun x => stream_position (is_stream x) <? next) (append_required_operand next)
    (x <| is_inst ::= set_field di_operands (fun _ => []) |>).

Definition between (lo v hi : Z) : bool := (lo <=? v) && (v <=? hi).

Definition dispatch (opcode token next : Z) : handler :=
  if opcode =? 155 then dcl_thread_group token next
  else if (opcode =? 159) || (opcode =? 160) then dcl_shared_memory opcode token next
  else if opcode =? 190 then sync token
  else if opcode =? 53 then dcl_immediate_constant_buffer next
  else if opcode =? 89 then dcl_constant_buffer token next
  else if opcode =? 90 then dcl_sampler token next
  else if opcode =? 88 then dcl_resource token next
  else if opcode =? 156 then dcl_uav_typed token next
  else if opcode =? 157 then dcl_raw true token next
  else if opcode =? 161 then dcl_raw false token next
  else if opcode =? 162 then dcl_structured false token next
  else if opcode =? 158 then dcl_structured true token next
  else if opcode =? 91 then dcl_index_range next
  else if between 113 opcode 116 || between 147 opcode 151 then token_only next
  else if between 152 opcode 154 || (opcode =? 206) then dcl_scalar opcode next
  else if opcode =? 104 then dcl_temps next
  else if opcode =? 105 then dcl_indexable_temp next
  else if opcode =? 93 then dcl_input_primitive token
  else if opcode =? 92 then dcl_output_topology token
  else if opcode =? 94 then dcl_max_out next
  else if opcode =? 106 then dcl_global_flags token
  else if (opcode =? 95) || (opcode =? 101) then dcl_input_output token next
  else if (opcode =? 96) || (opcode =? 97) || (opcode =? 99) || (opcode =? 100) ||
          (opcode =? 102) || (opcode =? 103) then dcl_system_value opcode token next
  else if opcode =? 98 then dcl_input_ps token next
  else operands next.

(** * One instruction *)

(** What the loop over instructions threads. *)
Record shader_state := {
  sh_stream : ByteStream;
  sh_raw_index : Z;
  sh_container : DXBCContainer;
  sh_live : ledger;
}.

(** [++container->instruction_count], [n] times, over the rows behind the
    counted ones. *)
Definition commit (n : nat) (rows : list DXBCInstruction) (c : DXBCContainer) : DXBCContainer :=
  c <| dc_instructions := Some (take (Z.to_nat (dc_instruction_count c))
         (default [] (dc_instructions c)) ++ take n rows) |>
    <| dc_instruction_count ::= fun count => count + Z.of_nat n |>.

(** [clear_instruction_operands] *)
Fixpoint free_operands {E} (ops : list DXBCOperand) (live : ledger) : res E ledger :=
  match ops with
  | [] => Ret live
  | op :: ops => live ← free_operand op live; free_operands ops live
  end.

(** [return reject_instruction(inst)] *)
Definition reject_instruction {A} (raw_index : Z) (x : inst_state) : res shader_state A :=
  live ← free_operands (di_operands (is_inst x)) (is_live x);
  let inst := (is_inst x) <| di_operands := [] |> in
  Fail {| sh_stream := is_stream x; sh_raw_index := raw_index;
          sh_container := commit (length (is_rows x)) (inst :: is_rows x) (is_container x);
          sh_live := live |}.

Definition or_reject {A B} (raw_index : Z) (r : res inst_state A) (k : A -> res shader_state B)
    : res shader_state B :=
  match r with
  | Ret a => k a
  | Fail x => reject_instruction raw_index x
  | Undef => Undef
  end.

(** The extension tokens: while the last one says there is another. *)
Definition read_opcode_extension (next : Z) (s : bool * inst_state) : res inst_state (bool * inst_state) :=
  '(ext, x) ← read_instruction_word next s.2;
  match opcode_extension (is_inst x) ext with
  | None => Fail x
  | Some inst => Ret (token_extended ext, x <| is_inst := inst |>)
  end.

Definition opcode_extensions (token next : Z) : handler := fun x =>
  s ← while (Z.to_nat next) fst (read_opcode_extension next) (token_extended token, x);
  Ret s.2.

(** Everything between the header and the end of the instruction. *)
Definition instruction_body (accepted : bool) (token next : Z) : handler := fun x =>
  _ ← reject_if (negb accepted) x;
  x ← opcode_extensions token next x;
  x ← dispatch (di_opcode (is_inst x)) token next x;
  _ ← reject_if (negb (stream_position (is_stream x) =? next)) x;
  Ret x.

(** A word outside the body; its failure is the parser's. *)
Definition read_program_word (end_pos : Z) (st : shader_state) : res shader_state (Z * shader_state) :=
  match instruction_read_u32 (sh_stream st) end_pos with
  | None => Fail st
  | Some (w, stream) =>
      Ret (w, {| sh_stream := stream; sh_raw_index := sh_raw_index st;
                 sh_container := sh_container st; sh_live := sh_live st |})
  end.

(** The number of words of the instruction, of which CUSTOMDATA has its own
    word. *)
Definition read_instruction_length (token end_pos : Z) (st : shader_state)
    : res shader_state (Z * shader_state) :=
  if Z.land token 0x7ff =? 53 then read_program_word end_pos st
  else if dxbc_tokenized_instruction_length token =? 0 then Fail st
  else Ret (dxbc_tokenized_instruction_length token, st).

Definition parse_shader_instruction (end_pos : Z) (st : shader_state) : res shader_state shader_state :=
  let start_pos := stream_position (sh_stream st) in
  '(token, st) ← read_program_word end_pos st;
  '(inst_len, st) ← read_instruction_length token end_pos st;
  if (inst_len =? 0) || (u64 (end_pos - start_pos) / 4 <? inst_len) then Fail st else
  let next := u64 (start_pos + u32 (inst_len * 4)) in
  if next <? stream_position (sh_stream st) then Fail st else
  let c := sh_container st in
  if dc_instruction_count c =? INT_MAX then Fail st else
  reserved ← reserve_instructions c (dc_instruction_count c + 1);
  match reserved with
  | None => Fail st
  | Some c =>
      if dc_instruction_alloc c <=? dc_instruction_count c then Undef else
      let '(inst, accepted) := instruction_header token start_pos next (sh_raw_index st) in
      or_reject (sh_raw_index st)
        (instruction_body accepted token next
           {| is_stream := sh_stream st; is_inst := inst; is_rows := []; is_container := c;
              is_live := sh_live st |})
        (fun x => Ret {| sh_stream := stream_seek (is_stream x) next;
                         sh_raw_index := u32 (sh_raw_index st + 1);
                         sh_container := commit (Datatypes.S (length (is_rows x)))
                                           (is_inst x :: is_rows x) (is_container x);
                         sh_live := is_live x |})
  end.

(** * The program *)

(** The version tokens of a supported program. *)
Definition version_accepted (version_token : Z) : bool :=
  let type := Z.shiftr version_token 16 in
  let major := Z.land (Z.shiftr version_token 4) 0xf in
  let minor := Z.land version_token 0xf in
  negb (negb (Z.land version_token 0xff00 =? 0) || (5 <? type) ||
        (negb (major =? 4) && negb (major =? 5)) ||
        ((major =? 4) && (1 <? minor)) || ((major =? 5) && negb (minor =? 0)) ||
        (((type =? 3) || (type =? 4)) && negb (major =? 5))).

(** [parse_shader_logic]; [raw_index] of the argument is not used. *)
Definition parse_shader_logic (next_pos : Z) (st : shader_state) : res shader_state shader_state :=
  if size (stream_data (sh_stream st)) <? next_pos then Fail st else
  '(version_token, st) ← read_program_word next_pos st;
  '(len, st) ← read_program_word next_pos st;
  if len <? 2 then Fail st else
  if negb (version_accepted version_token) then Fail st else
  if next_pos <? stream_position (sh_stream st) then Fail st else
  let instruction_bytes := (len - 2) * 4 in
  if negb (instruction_bytes =? u64 (next_pos - stream_position (sh_stream st))) then Fail st else
  let end_pos := u64 (stream_position (sh_stream st) + instruction_bytes) in
  st ← while (Z.to_nat (instruction_bytes / 4))
    (fun st => stream_position (sh_stream st) <? end_pos) (parse_shader_instruction end_pos)
    {| sh_stream := sh_stream st; sh_raw_index := 0; sh_container := sh_container st;
       sh_live := sh_live st |};
  if negb (stream_position (sh_stream st) =? end_pos) then Fail st else
  Ret {| sh_stream := sh_stream st; sh_raw_index := sh_raw_index st;
         sh_container := (sh_container st)
           <| dc_program_type := Z.shiftr version_token 16 |>
           <| dc_major_version := Z.land (Z.shiftr version_token 4) 0xf |>
           <| dc_minor_version := Z.land version_token 0xf |>
           <| dc_has_executable_program := true |>;
         sh_live := sh_live st |}.
End parse.
