(* ===== verification/InstructionCorrect.v ===== *)
(** What decoding one instruction maintains, whichever handler it takes: the
    arrays and tables of the container, the ownership of operand blocks, and the
    identity of the instruction. *)

From stdpp Require Import gmap gmultiset.
From S2P Require Import Prelude UnityCommon Hash Document DocumentFormat Decoder Heap ByteStream.
From S2P Require Import Signature SignatureCorrect SignatureParse Resources Operand OperandCorrect.
From S2P Require Import OperandFields OperandParser Instruction.

#[local] Set Warnings "-register-all".

Create HintDb handlers.

(** * Invariants *)

(** The blocks of an instruction's operands, and of a list of instructions. *)
Definition instruction_blocks (i : DXBCInstruction) : ledger :=
  foldr disj_union ∅ (owned_blocks <$> di_operands i).
Definition all_blocks (l : list DXBCInstruction) : ledger :=
  foldr disj_union ∅ (instruction_blocks <$> l).

(** An operand that was not parsed: a literal or a text-only one. *)
Record plain_operand (op : DXBCOperand) : Prop := {
  plain_extensions : op_extended_tokens op = [];
  plain_relatives : op_rel_op0 op = None /\ op_rel_op1 op = None /\ op_rel_op2 op = None;
}.

Definition sound_operand (op : DXBCOperand) : Prop := is_operand op \/ plain_operand op.

Record sound_instruction (i : DXBCInstruction) : Prop := {
  si_operands : Forall sound_operand (di_operands i);
  si_count : (length (di_operands i) <= 8)%nat;
}.

(** A declaration in a table. *)
Record decl_ok (d : DXBCResourceDecl) : Prop := {
  do_dim_name : length (decl_dim_name d) = 32%nat;
  do_ret_types : length (decl_ret_types d) = 64%nat;
  do_declared : decl_declared d = true;
}.

Definition tables_ok (t : resource_tables) : Prop :=
  forall uav, exists els, table_ok (table_of t uav) els /\ Forall decl_ok els.

Record constants_ok (c : DXBCContainer) : Prop := {
  ko_count : dc_icb_value_count c = Z.of_nat (length (default [] (dc_icb_values c)));
  ko_alloc : dc_icb_value_count c <= dc_icb_value_alloc c <= INT_MAX;
  ko_null : dc_icb_values c = None <-> (dc_icb_value_alloc c = 0);
}.

Record container_ok (c : DXBCContainer) (insts : list DXBCInstruction) : Prop := {
  co_instructions : default [] (dc_instructions c) = insts;
  co_count : dc_instruction_count c = Z.of_nat (length insts);
  co_alloc : dc_instruction_count c <= dc_instruction_alloc c <= INT_MAX;
  co_null : dc_instructions c = None <-> (dc_instruction_alloc c = 0);
  co_sound : Forall sound_instruction insts;
  co_tables : tables_ok (dc_tables c);
  co_constants : constants_ok c;
}.

(** The parts of a container no instruction changes. *)
Definition frame (c : DXBCContainer) : option (list DXBCChunkInfo) * Z * signature_list *
    signature_list * signature_list * bool :=
  (dc_chunks c, dc_chunk_alloc c, dc_input_signature c, dc_output_signature c,
   dc_patch_constant_signature c, dc_parsed_signature_authority c).

(** What identifies an instruction. *)
Definition identity (i : DXBCInstruction) : Z * Z * Z * Z * Z * bool :=
  (di_token i, di_opcode i, di_file_offset i, di_byte_length i, di_raw_instruction_index i,
   di_is_customdata_continuation i).

Lemma plain_blocks op : plain_operand op -> owned_blocks op = ∅.
Proof.
  intros [He (H0 & H1 & H2)]. rewrite owned_blocks_parts. unfold parts.
  cbn [part_relatives part_extensions]. rewrite He, H0, H1, H2. cbn -[disj_union empty].
  unfold token_blocks. multiset_solver.
Qed.

Lemma blocks_app (l1 l2 : list ledger) :
  foldr disj_union ∅ (l1 ++ l2) = foldr disj_union ∅ l1 ⊎ foldr disj_union ∅ l2.
Proof. rewrite foldr_app. apply foldr_blocks. Qed.

Lemma instruction_blocks_snoc i op :
  instruction_blocks (set_field di_operands (fun ops => ops ++ [op]) i) =
  instruction_blocks i ⊎ owned_blocks op.
Proof.
  unfold instruction_blocks. cbn [di_operands set_field set_di_operands].
  change (di_operands (set_field di_operands (fun ops => ops ++ [op]) i)) with (di_operands i ++ [op]).
  rewrite fmap_app, blocks_app. cbn. by rewrite (right_id_L ∅ (⊎)).
Qed.

Lemma all_blocks_app a b : all_blocks (a ++ b) = all_blocks a ⊎ all_blocks b.
Proof. unfold all_blocks. by rewrite fmap_app, blocks_app. Qed.

(** Freeing operands gives back what they own. *)
Lemma free_operands_ok {E} ops (live live' : ledger) :
  live' = live ⊎ foldr disj_union ∅ (owned_blocks <$> ops) -> free_operands (E:=E) ops live' = Ret live.
Proof.
  revert live'. induction ops as [|op ops IH]; intros live' ->; cbn [fmap list_fmap foldr free_operands].
  - f_equal. apply (right_id_L ∅ (⊎)).
  - rewrite (free_operand_ok op (live ⊎ foldr disj_union ∅ (owned_blocks <$> ops))).
    + mstep. by apply IH.
    + rewrite <- (assoc_L (⊎)). f_equal. apply (comm_L (⊎)).
Qed.

Lemma length_list_byte_of_string s : length (String.list_byte_of_string s) = String.length s.
Proof.
  unfold String.list_byte_of_string. rewrite length_map. induction s as [|c s IH]; cbn; [done|by rewrite IH].
Qed.

Lemma literal_plain v : plain_operand (literal_operand v).
Proof. by split. Qed.

(** * Array growth *)

Section growth.
Context `{U : UnityCommon} {HU : UnityCommonSpec U} {E : Type}.

(** Growing the instruction array changes its allocation only. *)
Lemma reserve_instructions_spec c insts required (F : E -> Prop) :
  container_ok c insts -> 0 <= required <= INT_MAX ->
  outcome (reserve_instructions c required)
    (fun o => match o with
              | Some c' => container_ok c' insts /\ required <= dc_instruction_alloc c' /\
                           dc_instruction_alloc c <= dc_instruction_alloc c' /\
                           dc_tables c' = dc_tables c /\ dc_icb_values c' = dc_icb_values c /\
                           dc_icb_value_alloc c' = dc_icb_value_alloc c /\ frame c' = frame c
              | None => memory_failed
              end) F.
Proof.
  intros [Hi Hc Ha Hn Hs Ht Hk] Hr. unfold INT_MAX in *. unfold reserve_instructions.
  assert (Hnull : negb (bool_decide (is_Some (dc_instructions c))) = (dc_instruction_alloc c =? 0)).
  { destruct (dc_instructions c); cbn; symmetry; [apply Z.eqb_neq; by intros ?%Hn|].
    apply Z.eqb_eq. by apply Hn. }
  rewrite Hnull, eqb_reflx, (proj2 (Z.ltb_ge required 0)), (proj2 (Z.ltb_ge (dc_instruction_count c) 0)),
    (proj2 (Z.ltb_ge (dc_instruction_alloc c) _)) by lia. cbn [orb negb].
  apply outcome_if; intros Hroom; bools.
  { cbn [outcome]. split; [by split|]. done. }
  set (start := if dc_instruction_alloc c =? 0 then 128 else dc_instruction_alloc c).
  assert (1 <= start <= 2147483647 /\ dc_instruction_alloc c <= start)
    by (unfold start; destruct (Z.eqb_spec (dc_instruction_alloc c) 0); lia).
  apply outcome_bind. eapply outcome_mono;
    [apply (doubling_loop start required F); unfold INT_MAX; lia| |done].
  intros a (Ha1 & Ha2 & _). unfold INT_MAX, INSTRUCTION_SIZE in *.
  rewrite !size_multiply_overflows_spec by (unfold in_u64; lia).
  rewrite (proj2 (Z.leb_gt _ _)), (proj2 (Z.leb_gt _ _)) by lia. cbn [orb].
  destruct (mem_realloc _ _) eqn:Hm; cbn [outcome]; [|right; eauto].
  split; [|split; [cbn; lia|split; [cbn; lia|done]]].
  split; cbn; try done; unfold INT_MAX; try lia.
  - split; [done|]. intros. lia.
  - by destruct Hk.
Qed.

Lemma allocate_constants_spec c insts n :
  container_ok c insts -> 0 <= n <= INT_MAX ->
  match allocate_immediate_constants c n with
  | Some c' => container_ok c' insts /\ dc_tables c' = dc_tables c /\
               dc_instruction_count c' = dc_instruction_count c /\
               dc_instruction_alloc c' = dc_instruction_alloc c /\
               dc_icb_values c' = Some [] /\ dc_icb_value_count c' = 0 /\ dc_icb_value_alloc c' = n /\
               frame c' = frame c
  | None => True
  end.
Proof.
  intros [Hi Hc Ha Hn Hs Ht Hk] Hr. unfold allocate_immediate_constants.
  destruct (_ || _) eqn:Hcond; [done|]. destruct (mem_alloc _); [|done].
  repeat (apply orb_false_iff in Hcond as [Hcond ?]). bools.
  assert (dc_icb_value_count c = 0).
  { destruct (Z.eqb_spec (dc_icb_value_count c) 0); done. }
  split; [|done]. split; try done. split; cbn; try done; try lia.
  split; [done|]. intros. lia.
Qed.
End growth.

(** * The body of one instruction *)

Section body.
Context `{U : UnityCommon} {HU : UnityCommonSpec U}.
Context `{S : ByteStreamOps} {HS : ByteStreamSpec S}.
Variables (D : list byte) (next : Z).
Hypothesis Hnext : 0 <= next <= size D.
Hypothesis Hsize : size D < 2 ^ 32.
(** The instructions before this one, its identity, the blocks before it. *)
Variables (insts : list DXBCInstruction) (id0 : Z * Z * Z * Z * Z * bool) (base : ledger).
(** What the container had besides instructions. *)
Variable c0 : DXBCContainer.

(** At position [q], with declaration tables that satisfy [T]. *)
Record body_at (T : resource_tables -> Prop) (q : Z) (x : inst_state) : Prop := {
  bi_position : 0 <= q <= next;
  bi_stream : stream_at (is_stream x) D q;
  bi_identity : identity (is_inst x) = id0;
  bi_sound : sound_instruction (is_inst x);
  bi_rows : Forall (fun r => di_operands r = [] /\ di_is_customdata_continuation r = true) (is_rows x);
  bi_room : Z.of_nat (length insts) + 1 + Z.of_nat (length (is_rows x)) <=
            dc_instruction_alloc (is_container x);
  bi_container : container_ok (is_container x) insts;
  bi_tables : T (dc_tables (is_container x));
  bi_live : is_live x = base ⊎ instruction_blocks (is_inst x);
  bi_frame : frame (is_container x) = frame c0;
}.

Definition body (T : resource_tables -> Prop) (x : inst_state) : Prop := exists q, body_at T q x.

(** What a rejected instruction leaves behind. *)
Definition failing (x : inst_state) : Prop := body (fun _ => True) x.

Lemma body_at_failing T q x : body_at T q x -> failing x.
Proof. intros []. exists q. by split. Qed.
Lemma body_failing T x : body T x -> failing x.
Proof. intros [q Hq]. by eapply body_at_failing. Qed.

Lemma instruction_read_at s q :
  stream_at s D q -> 0 <= q <= next ->
  instruction_read_u32 s next = if q + 4 <=? next then Some (word D q, stream_seek s (q + 4)) else None.
Proof.
  intros [He Hd Hp] Hq. unfold instruction_read_u32. rewrite Hp, Hd, u64_small by lia.
  rewrite !(proj2 (Z.leb_le _ _)) by lia. cbn [andb].
  rewrite stream_read_uint32_spec, Hd, Hp by (rewrite ?Hp; done || lia).
  destruct (Z.leb_spec 4 (next - q)), (Z.leb_spec (q + 4) next); try lia; [|done].
  by rewrite (proj2 (Z.leb_le _ _)) by lia.
Qed.

(** A word read at a known position. *)
Lemma read_word_at T q x :
  body_at T q x ->
  outcome (read_instruction_word next x)
    (fun '(w, x') => w = word D q /\ q + 4 <= next /\ body_at T (q + 4) x' /\
                     is_inst x' = is_inst x /\ is_rows x' = is_rows x /\
                     is_container x' = is_container x)
    failing.
Proof.
  intros Hx. pose proof Hx as [Hq Hs Hid Hsound Hrows Hroom Hc HT Hl Hfr]. unfold read_instruction_word.
  rewrite (instruction_read_at _ q) by done.
  destruct (Z.leb_spec (q + 4) next) as [Hle|]; [|by eapply body_at_failing].
  cbn [outcome]. split; [done|]. split; [done|]. split; [|done].
  split; cbn [is_stream is_inst is_rows is_container is_live set_field]; try done; [lia|].
  by eapply stream_at_seek.
Qed.

(** ** Steps of a handler *)

Lemma step_reject {A} T b x (k : unit -> res inst_state A) Q :
  body T x -> (b = false -> outcome (k tt) Q failing) -> outcome (reject_if b x ≫= k) Q failing.
Proof. intros Hx Hk. destruct b; cbn; [by eapply body_failing|by apply Hk]. Qed.

Lemma step_word {A} T x (k : Z * inst_state -> res inst_state A) Q :
  body T x ->
  (forall w x', in_u32 w -> body T x' -> is_inst x' = is_inst x -> is_rows x' = is_rows x ->
     is_container x' = is_container x -> outcome (k (w, x')) Q failing) ->
  outcome (read_instruction_word next x ≫= k) Q failing.
Proof.
  intros [q Hx] Hk. apply outcome_bind. eapply outcome_mono; [by apply (read_word_at T q)| |done].
  intros [w x'] (-> & Hle & Hx' & Hi & Hr & Hc). apply Hk; try done; [|by eexists].
  pose proof (bi_position _ _ _ Hx). apply le32_range; lia.
Qed.

Lemma body_append T x op :
  body T x -> sound_operand op -> owned_blocks op = ∅ -> (length (di_operands (is_inst x)) < 8)%nat ->
  body T (append_operand x op).
Proof.
  intros [q [Hq Hs Hid [Hops Hlen] Hrows Hroom Hc HT Hl Hfr]] Hop Hblocks Hn. exists q.
  split; try done; cbn [append_operand is_inst set_field set_is_inst].
  - split.
    + change (Forall sound_operand (di_operands (is_inst x) ++ [op])). apply list.Forall_app.
      split; [done|]. by apply list.Forall_singleton.
    + change (length (di_operands (is_inst x) ++ [op]) <= 8)%nat. rewrite length_app. cbn [length]. lia.
  - cbn [is_live is_inst]. rewrite instruction_blocks_snoc, Hblocks, (right_id_L ∅ (⊎)). exact Hl.
Qed.

Lemma step_operand {A} T x (k : inst_state -> res inst_state A) Q :
  body T x ->
  (forall x' op, is_operand op -> body T x' ->
     di_operands (is_inst x') = di_operands (is_inst x) ++ [op] -> is_rows x' = is_rows x ->
     is_container x' = is_container x -> outcome (k x') Q failing) ->
  outcome (append_required_operand next x ≫= k) Q failing.
Proof.
  intros Hx Hk. pose proof Hx as [q [Hq Hs Hid [Hops Hlen] Hrows Hroom Hc HT Hl Hfr]].
  unfold append_required_operand, operand_count, DXBC_MAX_OPERANDS.
  destruct (Z.leb_spec 8 (Z.of_nat (length (di_operands (is_inst x))))) as [|Hn];
    [by eapply body_failing|].
  pose proof (parse_operand_outcome D (is_stream x) q next (is_live x) Hnext Hsize Hs Hq) as Hop.
  destruct (parse_operand_recursive (is_stream x) next (is_live x)) as [[op st]|st|]; cbn in Hop; [| |done].
  - destruct Hop as (budget & _ & [Hisop (p' & Hp' & _ & Hs') _ Hlive]).
    rewrite (ledger_free_ok (is_live x ⊎ owned_blocks op)) by exact Hlive. mstep.
    apply (Hk _ op); try done. exists p'.
    split; try done; cbn [append_operand is_inst set_field set_is_inst is_live].
    + split.
      * change (Forall sound_operand (di_operands (is_inst x) ++ [op])). apply list.Forall_app.
        split; [done|]. apply list.Forall_singleton. by left.
      * change (length (di_operands (is_inst x) ++ [op]) <= 8)%nat. rewrite length_app. cbn [length]. lia.
    + rewrite instruction_blocks_snoc, Hl. symmetry. apply (assoc_L (⊎)).
  - destruct Hop as [Hlive Hs']. exists next. split; try done; [lia|]. by cbn; rewrite Hlive.
Qed.

(** Assignments to fields that do not identify the instruction. *)
Lemma body_update T x f :
  body T x -> identity (f (is_inst x)) = identity (is_inst x) ->
  di_operands (f (is_inst x)) = di_operands (is_inst x) ->
  body T (x <| is_inst ::= f |>).
Proof.
  intros [q [Hq Hs Hid [Hops Hlen] Hrows Hroom Hc HT Hl Hfr]] Hfi Hfo. exists q.
  split; try done; cbn [is_inst is_live set_field set_is_inst].
  - change (identity (f (is_inst x)) = id0). by rewrite Hfi.
  - change (sound_instruction (f (is_inst x))). split; by rewrite Hfo.
  - change (is_live x = base ⊎ instruction_blocks (f (is_inst x))). unfold instruction_blocks.
    by rewrite Hfo.
Qed.

Lemma step_register {A} T type x (k : Z -> res inst_state A) Q :
  body T x ->
  (forall r op, di_operands (is_inst x) = [op] -> op_register_index op = r -> 0 <= r ->
     op_type op = type -> outcome (k r) Q failing) ->
  outcome (binding_register type x ≫= k) Q failing.
Proof.
  intros Hx Hk. unfold binding_register, declaration_binding_register.
  destruct (di_operands (is_inst x)) as [|op [|? ?]] eqn:Hops; try (by eapply body_failing).
  destruct (_ || _) eqn:Hcond; [by eapply body_failing|].
  repeat (apply orb_false_iff in Hcond as [Hcond ?]). bools. by apply (Hk _ op).
Qed.

(** ** Declarations *)

(** The tables after the register [r] has been declared in one of them. *)
Definition declares (uav : bool) (r : Z) (t0 t : resource_tables) : Prop :=
  table_of t (negb uav) = table_of t0 (negb uav) /\
  exists els els' d, table_ok (table_of t0 uav) els /\ table_ok (table_of t uav) els' /\
    as_map els' = <[r := d]> (as_map els).

Lemma get_or_add_registers c c' els r uav i els' d :
  added c c' els r uav i els' d -> table_ok (table_of c uav) els -> decl_register_index d = r.
Proof.
  intros (_ & _ & _ & -> & _) Ht. pose proof (sorted_distinct _ (rt_sorted_ok _ _ Ht)) as Hnd.
  destruct (as_map els !! r) as [e|] eqn:He; [|done]. by apply as_map_lookup in He as [_ <-].
Qed.

(** Writing an element in place keeps the table, if the register stays. *)
Lemma table_ok_write t els i d d' :
  table_ok t els -> els !! i = Some d -> decl_register_index d' = decl_register_index d ->
  table_ok {| rt_declarations := Some (<[i := d']> els); rt_count := rt_count t;
              rt_allocation := rt_allocation t |} (<[i := d']> els) /\
  as_map (<[i := d']> els) = <[decl_register_index d := d']> (as_map els).
Proof.
  intros [He Hc Ha Hn Hs] Hi Hr.
  assert (Hreg : registers (<[i := d']> els) = registers els).
  { unfold registers. rewrite list_fmap_insert. apply list_insert_id.
    rewrite list_lookup_fmap, Hi. cbn. by rewrite Hr. }
  pose proof (lookup_lt_Some _ _ _ Hi) as Hlt.
  split.
  - split; cbn; try done; [by rewrite length_insert| |by rewrite Hreg].
    split; [done|]. intros. lia.
  - apply map_eq. intros k. pose proof (sorted_distinct _ Hs) as Hnd.
    assert (Hnd' : NoDup (registers (<[i := d']> els))) by by rewrite Hreg.
    apply option_eq. intros e. rewrite as_map_lookup by done.
    rewrite lookup_insert_Some, as_map_lookup by done.
    split.
    + intros [Hin <-]. apply list_elem_of_lookup in Hin as [j Hj].
      apply list_lookup_insert_Some in Hj as [(<- & <- & _)|[Hne Hj]]; [by left|].
      right. split; [|by split; [eapply list_elem_of_lookup_2|]].
      intros Heq. apply Hne. eapply (NoDup_lookup (registers els)); [done|..]; unfold registers;
        rewrite list_lookup_fmap; [by rewrite Hi|by rewrite Hj, Heq].
    + intros [[<- ->]|[Hne [Hin <-]]].
      * split; [|done]. apply (list_elem_of_lookup_2 _ i). by apply list_lookup_insert_eq.
      * split; [|done]. apply list_elem_of_lookup in Hin as [j Hj].
        apply (list_elem_of_lookup_2 _ j). rewrite list_lookup_insert_ne; [done|].
        intros ->. rewrite Hi in Hj. by injection Hj as ->.
Qed.

(** The assignments of a declaration: they succeed, and complete it. *)
Definition completes (assign : DXBCResourceDecl -> res inst_state DXBCResourceDecl) : Prop :=
  forall d, length (decl_dim_name d) = 32%nat -> length (decl_ret_types d) = 64%nat ->
  exists d', assign d = Ret d' /\ decl_register_index d' = decl_register_index d /\ decl_ok d'.

Lemma body_tables T T' x tables :
  body T x -> T' tables -> tables_ok tables ->
  body T' (x <| is_container ::= set_field dc_tables (fun _ => tables) |>).
Proof.
  intros [q [Hq Hs Hid Hsound Hrows Hroom [Hi Hc Ha Hn Hso Ht Hk] HT Hl Hfr]] HT' Hok. exists q.
  split; try done. split; try done. by destruct Hk.
Qed.

Lemma declare_spec r uav assign x t0 :
  body (fun t => t = t0) x -> 0 <= r -> completes assign ->
  outcome (declare r uav assign x)
    (fun x' => body (declares uav r t0) x' /\ is_inst x' = is_inst x) failing.
Proof.
  intros Hx Hr Hassign. unfold declare.
  assert (Hok : tables_ok t0 /\ dc_tables (is_container x) = t0).
  { destruct Hx as [q [_ _ _ _ _ _ [_ _ _ _ _ Ht _] <- _ _]]. done. }
  destruct Hok as [Hok ->]. destruct (Hok uav) as (els & Ht & Hels).
  destruct (get_or_add_outcome (E:=inst_state) t0 els r uav Ht Hr)
    as [(i & c' & els' & d & -> & Hadd)|[-> _]]; mstep.
  2:{ apply (body_failing (fun _ => True)). by eapply (body_tables _ _ x t0). }
  pose proof (get_or_add_registers _ _ _ _ _ _ _ _ Hadd Ht) as Hreg.
  pose proof (sorted_distinct _ (rt_sorted_ok _ _ Ht)) as Hnd.
  destruct Hadd as (Ht' & Hother & Hi & Hd & Hmap).
  cbn [is_container dc_tables set_field default from_option id].
  change (dc_tables (is_container (x <| is_container ::= set_field dc_tables (fun _ => c') |>))) with c'.
  rewrite (rt_elements_ok _ _ Ht'), Hi.
  assert (Hnames : length (decl_dim_name d) = 32%nat /\ length (decl_ret_types d) = 64%nat).
  { rewrite Hd. destruct (as_map els !! r) as [e|] eqn:He; [|done].
    apply as_map_lookup in He as [Hin _]; [|done]. rewrite list.Forall_forall in Hels.
    destruct (Hels e Hin). done. }
  destruct (Hassign d) as (d' & -> & Hr' & Hok'); [apply Hnames..|]. mstep.
  destruct (table_ok_write _ _ _ _ d' Ht' Hi Hr') as [Hw Hwm].
  rewrite Hreg, Hmap, insert_insert_eq in Hwm.
  set (table := {| rt_declarations := _; rt_count := _; rt_allocation := _ |}) in *.
  set (final := with_table c' uav table).
  split; [|done].
  change (body (declares uav r t0) (x <| is_container ::= set_field dc_tables (fun _ => final) |>)).
  apply (body_tables (fun t => t = t0)); [done|..].
  - split; [unfold final; destruct uav; exact Hother|]. exists els, (<[Z.to_nat i := d']> els'), d'.
    split; [done|]. split; [|done]. unfold final. by rewrite table_of_with.
  - intros uav'. destruct (decide (uav' = uav)) as [->|Hne].
    + exists (<[Z.to_nat i := d']> els'). unfold final. rewrite table_of_with. split; [done|].
      apply list.Forall_forall. intros e He.
      pose proof (sorted_distinct _ (rt_sorted_ok _ _ Hw)) as Hnd'.
      pose proof (proj2 (as_map_lookup _ (decl_register_index e) e Hnd') (conj He eq_refl)) as Hl.
      rewrite Hwm in Hl. apply lookup_insert_Some in Hl as [[_ <-]|[_ Hl]]; [done|].
      apply as_map_lookup in Hl as [Hin _]; [|done]. rewrite list.Forall_forall in Hels. by apply Hels.
    + destruct (Hok uav') as (els0 & H0 & Hels0). exists els0. split; [|done].
      replace (table_of final uav') with (table_of t0 uav'); [done|].
      unfold final. destruct uav, uav'; try done; by rewrite <- Hother.
Qed.

(** The texts fit their arrays. *)
Lemma strcpy_fits array s n :
  length array = n -> (String.length s < n)%nat ->
  exists b, strcpy_into (E:=inst_state) array s = Ret b /\ length b = n.
Proof.
  intros Ha Hs. unfold strcpy_into, blit, c_literal, size.
  assert (Hl : length (String.list_byte_of_string s ++ [Byte.x00]) = Datatypes.S (String.length s)).
  { rewrite length_app, length_list_byte_of_string. cbn [length]. lia. }
  rewrite Hl. rewrite (proj2 (in_bounds_spec _ _ _)) by (unfold size; lia).
  eexists. split; [done|]. rewrite length_app, length_app, Hl, length_take, length_drop. lia.
Qed.

Lemma dim_name_fits dim : (String.length (dxbc_resource_dim_name dim) < 32)%nat.
Proof.
  unfold dxbc_resource_dim_name. apply (switch_ind (fun _ s => (String.length s < 32)%nat));
    [repeat constructor; cbn; lia|cbn; lia].
Qed.

Lemma return_types_fit types : length types = 4%nat -> (String.length (return_types_text types) < 64)%nat.
Proof.
  assert (Hone : forall t, (String.length (get_ret_type_str t) <= 9)%nat).
  { intros t. unfold get_ret_type_str. apply (switch_ind (fun _ s => (String.length s <= 9)%nat));
      [repeat constructor; cbn; lia|cbn; lia]. }
  assert (Happ : forall a b, String.length (String.append a b) = (String.length a + String.length b)%nat).
  { induction a as [|c a IH]; intros b; [done|]. specialize (IH b). simpl. by f_equal. }
  destruct types as [|a [|b [|c [|d [|]]]]]; try done. intros _. unfold return_types_text.
  cbn [fmap list_fmap String.concat]. rewrite !Happ. cbn [String.length].
  pose proof (Hone a). pose proof (Hone b). pose proof (Hone c). pose proof (Hone d). lia.
Qed.

Lemma decode_types_length token types :
  decode_resource_return_types token = Some types -> length types = 4%nat.
Proof.
  unfold decode_resource_return_types. destruct (negb _); [done|]. destruct (existsb _ _); [done|].
  by intros [= <-].
Qed.

(** The assignments of each kind of declaration. *)
Lemma with_texts_completes dim types (k : DXBCResourceDecl -> res inst_state DXBCResourceDecl) :
  length types = 4%nat ->
  (forall d, length (decl_dim_name d) = 32%nat -> length (decl_ret_types d) = 64%nat ->
     exists d', k d = Ret d' /\ decl_register_index d' = decl_register_index d /\ decl_ok d') ->
  completes (fun d => d ← with_texts dim types d; k d).
Proof.
  intros Ht Hk d Hn Hr. unfold with_texts.
  destruct (strcpy_fits _ _ 32 Hn (dim_name_fits dim)) as (b & -> & Hb). mstep.
  destruct (strcpy_fits _ _ 64 Hr (return_types_fit types Ht)) as (b' & -> & Hb'). mstep.
  match goal with |- context [k ?d1] => destruct (Hk d1) as (d' & Hd' & Hreg & Hok); [done..|] end.
  by exists d'.
Qed.

Lemma with_buffer_completes name dim (k : DXBCResourceDecl -> res inst_state DXBCResourceDecl) :
  (String.length name < 32)%nat ->
  (forall d, length (decl_dim_name d) = 32%nat -> length (decl_ret_types d) = 64%nat ->
     decl_declared d = true ->
     exists d', k d = Ret d' /\ decl_register_index d' = decl_register_index d /\ decl_ok d') ->
  completes (fun d => d ← with_buffer name dim d; k d).
Proof.
  intros Ht Hk d Hn Hr. unfold with_buffer.
  destruct (strcpy_fits _ _ 32 Hn Ht) as (b & -> & Hb). mstep.
  match goal with |- context [k ?d1] => destruct (Hk d1) as (d' & Hd' & Hreg & Hok); [done..|] end.
  by exists d'.
Qed.

(** ** Handlers that declare nothing *)

Ltac handler_step :=
  first
    [ eapply step_reject; [eassumption|]; intros ?
    | eapply step_word; [eassumption|]; intros ? ? ? ? ? ? ?
    | eapply step_operand; [eassumption|]; intros ? ? ? ? ? ? ?
    | eapply step_register; [eassumption|]; intros ? ? ? ? ? ? ].

(** The operands so far, from the equations the steps leave. *)
Ltac operand_list :=
  repeat match goal with
    | H : is_inst ?x' = is_inst ?x |- context [is_inst ?x'] => rewrite H; clear H
    | H : di_operands (is_inst ?x) = _ |- context [di_operands (is_inst ?x)] => rewrite H; clear H
    end.

Ltac append_plain := eapply body_append; [eassumption|right; by split|by apply plain_blocks|operand_list; cbn; lia].

Implicit Types (T : resource_tables -> Prop) (x : inst_state).

(** A literal operand. *)
Lemma append_literal_spec T x :
  body T x -> (length (di_operands (is_inst x)) < 8)%nat ->
  outcome (append_declaration_literal next x)
    (fun x' => body T x' /\ exists v, di_operands (is_inst x') = di_operands (is_inst x) ++ [literal_operand v])
    failing.
Proof.
  intros Hx Hn. unfold append_declaration_literal, operand_count, DXBC_MAX_OPERANDS.
  rewrite (proj2 (Z.leb_gt _ _)) by lia.
  eapply step_word; [eassumption|]. intros w x' _ Hx' Hi _ _. cbn [outcome].
  split; [|exists w; by rewrite <- Hi].
  eapply body_append; [done|right; apply literal_plain|by apply plain_blocks, literal_plain|by rewrite Hi].
Qed.

Lemma step_literal {A} T x (k : inst_state -> res inst_state A) Q :
  body T x -> (length (di_operands (is_inst x)) < 8)%nat ->
  (forall x' v, body T x' -> di_operands (is_inst x') = di_operands (is_inst x) ++ [literal_operand v] ->
     outcome (k x') Q failing) ->
  outcome (append_declaration_literal next x ≫= k) Q failing.
Proof.
  intros Hx Hn Hk. apply outcome_bind. eapply outcome_mono; [by apply (append_literal_spec T x)| |done].
  intros x' (Hx' & v & Hv). by apply (Hk x' v).
Qed.

Definition preserves (h : handler) : Prop :=
  forall T x, body T x -> di_operands (is_inst x) = [] -> is_rows x = [] ->
  outcome (h x) (body T) failing.

Lemma thread_group_preserves token : preserves (dcl_thread_group token next).
Proof.
  intros T x Hx Ho Hr. unfold dcl_thread_group. handler_step.
  eapply step_literal; [done|by rewrite Ho; cbn; lia|]. intros x1 v1 H1 E1.
  eapply step_literal; [done|by rewrite E1, Ho; cbn; lia|]. intros x2 v2 H2 E2.
  eapply outcome_mono; [apply append_literal_spec; [done|by rewrite E2, E1, Ho; cbn; lia]| |done].
  by intros x3 [? _].
Qed.

Lemma shared_memory_preserves opcode token : preserves (dcl_shared_memory opcode token next).
Proof.
  intros T x Hx Ho Hr. unfold dcl_shared_memory. handler_step. handler_step. handler_step.
  match goal with H : di_operands (is_inst ?y) = [_] |- _ => rename H into E1 end.
  eapply step_literal; [done|by rewrite E1; cbn; lia|]. intros x2 v2 H2' E2.
  destruct (opcode =? 160); [|done].
  eapply outcome_mono; [apply append_literal_spec; [done|by rewrite E2, E1; cbn; lia]| |done].
  by intros x3 [? _].
Qed.

Lemma sync_preserves token : preserves (sync token).
Proof. intros T x Hx Ho Hr. unfold sync. handler_step. done. Qed.

Lemma operand_only_preserves : preserves (append_required_operand next).
Proof.
  intros T x Hx Ho Hr.
  assert (Hbind : append_required_operand next x = append_required_operand next x ≫= fun x' => Ret x')
    by by destruct (append_required_operand next x).
  rewrite Hbind. handler_step. done.
Qed.

Lemma constant_buffer_preserves token : preserves (dcl_constant_buffer token next).
Proof. intros T x Hx Ho Hr. unfold dcl_constant_buffer. handler_step. by apply operand_only_preserves. Qed.

Lemma sampler_preserves token : preserves (dcl_sampler token next).
Proof. intros T x Hx Ho Hr. unfold dcl_sampler. handler_step. handler_step. handler_step. done. Qed.

Lemma index_range_preserves : preserves (dcl_index_range next).
Proof.
  intros T x Hx Ho Hr. unfold dcl_index_range. handler_step. handler_step. handler_step.
  cbn [outcome]. append_plain.
Qed.

Lemma token_only_preserves : preserves (token_only next).
Proof. intros T x Hx Ho Hr. unfold token_only. handler_step. done. Qed.

Lemma scalar_preserves opcode : preserves (dcl_scalar opcode next).
Proof.
  intros T x Hx Ho Hr. unfold dcl_scalar. handler_step. handler_step. cbn [outcome]. append_plain.
Qed.

Lemma temps_preserves : preserves (dcl_temps next).
Proof.
  intros T x Hx Ho Hr. unfold dcl_temps. handler_step. handler_step. cbn [outcome]. append_plain.
Qed.

Lemma append_operands x op : di_operands (is_inst (append_operand x op)) = di_operands (is_inst x) ++ [op].
Proof. done. Qed.

Lemma indexable_temp_preserves : preserves (dcl_indexable_temp next).
Proof.
  intros T x Hx Ho Hr. unfold dcl_indexable_temp. do 4 handler_step. cbn [outcome].
  eapply body_append; [append_plain|right; by split|by apply plain_blocks|].
  rewrite append_operands. operand_list. cbn. lia.
Qed.

(** A text-only operand, or none. *)
Lemma text_operand_spec T x (b : bool) :
  body T x -> di_operands (is_inst x) = [] -> body T (if b then append_operand x zero_operand else x).
Proof. intros Hx Ho. destruct b; [append_plain|done]. Qed.

Lemma input_primitive_preserves token : preserves (dcl_input_primitive token).
Proof. intros T x Hx Ho Hr. unfold dcl_input_primitive. cbn [outcome]. by apply text_operand_spec. Qed.

Lemma output_topology_preserves token : preserves (dcl_output_topology token).
Proof. intros T x Hx Ho Hr. unfold dcl_output_topology. cbn [outcome]. by apply text_operand_spec. Qed.

Lemma max_out_preserves : preserves (dcl_max_out next).
Proof. intros T x Hx Ho Hr. unfold dcl_max_out. handler_step. cbn [outcome]. append_plain. Qed.

Lemma global_flags_preserves token : preserves (dcl_global_flags token).
Proof.
  intros T x Hx Ho Hr. unfold dcl_global_flags. handler_step. cbn [outcome]. by apply text_operand_spec.
Qed.

Lemma input_output_preserves token : preserves (dcl_input_output token next).
Proof. intros T x Hx Ho Hr. unfold dcl_input_output. handler_step. by apply operand_only_preserves. Qed.

Lemma interpolation_spec T token x : body T x -> outcome (with_interpolation token x) (body T) failing.
Proof.
  intros Hx. unfold with_interpolation. handler_step. cbn [outcome].
  apply body_update; [|done|done]. by apply body_update.
Qed.

Lemma system_value_preserves opcode token : preserves (dcl_system_value opcode token next).
Proof.
  intros T x Hx Ho Hr. unfold dcl_system_value. do 4 handler_step.
  match goal with |- context [append_operand ?y zero_operand] => set (x3 := y) end.
  assert (Hb3 : body T x3) by (apply body_update; [by apply body_update|done|done]).
  assert (E3 : length (di_operands (is_inst x3)) = 1%nat).
  { match goal with x3 := set_field is_inst _ (set_field is_inst _ ?y) |- _ =>
      transitivity (length (di_operands (is_inst y))); [done|] end.
    operand_list. done. }
  assert (Hb4 : body T (append_operand x3 zero_operand)).
  { eapply body_append; [done|right; by split|by apply plain_blocks|lia]. }
  destruct (_ || _); [by apply interpolation_spec|exact Hb4].
Qed.

Lemma input_ps_preserves token : preserves (dcl_input_ps token next).
Proof.
  intros T x Hx Ho Hr. unfold dcl_input_ps. handler_step. handler_step. by apply interpolation_spec.
Qed.

(** The operand loop: an operand is never empty, and a ninth is refused. *)
Lemma operands_preserves : preserves (operands next).
Proof.
  intros T x Hx Ho Hr. unfold operands.
  eapply outcome_mono; [apply (outcome_while (body T)
    (fun y => 9 - length (di_operands (is_inst y)))%nat failing)| |done].
  - by apply (body_update T x (set_field di_operands (fun _ => []))).
  - lia.
  - intros y Hy _. assert (Hn : (length (di_operands (is_inst y)) <= 8)%nat)
      by by destruct Hy as [q [_ _ _ [_ ?] _ _ _ _ _ _]].
    split; [lia|].
    assert (Hbind : append_required_operand next y = append_required_operand next y ≫= fun x' => Ret x')
      by by destruct (append_required_operand next y).
    rewrite Hbind. eapply step_operand; [exact Hy|]. intros y' op Hop Hy' E' _ _. cbn [outcome].
    split; [done|]. rewrite E', length_app. cbn [length]. lia.
  - by intros y [? _].
Qed.

(** ** Immediate constant buffers *)

Lemma body_container T x c' :
  body T x -> container_ok c' insts -> dc_tables c' = dc_tables (is_container x) ->
  dc_instruction_alloc (is_container x) <= dc_instruction_alloc c' ->
  frame c' = frame (is_container x) -> body T (x <| is_container := c' |>).
Proof.
  intros [q [Hq Hs Hid Hsound Hrows Hroom Hc HT Hl Hfr]] Hc' Ht Ha Hf. exists q.
  split; try done; cbn [is_container is_rows set_field set_is_container].
  - change (Z.of_nat (length insts) + 1 + Z.of_nat (length (is_rows x)) <= dc_instruction_alloc c'). lia.
  - change (T (dc_tables c')). by rewrite Ht.
  - change (frame c' = frame c0). by rewrite Hf.
Qed.

(** The constants so far, and the rows of the vectors so far. *)
Record vectors_ok (T : resource_tables -> Prop) (count : Z) (n : Z) (rows : nat) (x : inst_state) : Prop := {
  vo_body : body T x;
  vo_rows : length (is_rows x) = rows;
  vo_count : dc_icb_value_count (is_container x) = n;
  vo_alloc : dc_icb_value_alloc (is_container x) = 4 * count;
  vo_room : Z.of_nat (length insts) + count <= dc_instruction_alloc (is_container x);
}.

Lemma read_constant_spec T count n rows x j :
  vectors_ok T count n rows x -> 0 <= n < 4 * count ->
  outcome (read_constant next j x) (vectors_ok T count (n + 1) rows) failing.
Proof.
  intros [Hx Hr Hn Ha Hroom] Hc. unfold read_constant.
  eapply step_word; [eassumption|]. intros w x' _ Hx' Hi Hr' Hcont.
  unfold push_constant. rewrite Hcont, Hn, Ha, (proj2 (Z.ltb_lt _ _)) by lia. mstep. cbn [outcome].
  pose proof Hx' as [q [_ _ _ _ _ _ [Ci Cc Ca Cn Cs Ct [Kc Ka Kn]] _ _ Hfr]]. rewrite Hcont in *.
  match goal with |- vectors_ok _ _ _ _ (x' <| is_container := ?c |>) => set (c' := c) end.
  assert (Hc' : container_ok c' insts).
  { split; try done. split; cbn.
    - rewrite length_app, length_take. cbn [length]. lia.
    - lia.
    - split; [done|]. rewrite Ha. intros. lia. }
  split; cbn [is_container is_rows set_field set_is_container]; try done.
  - apply body_container; [done|done|by rewrite Hcont|rewrite Hcont; done|by rewrite Hcont].
  - change (length (is_rows x') = rows). by rewrite Hr'.
  - change (1 + dc_icb_value_count (is_container x) = n + 1). lia.
Qed.

Lemma read_vector_spec T count v x :
  vectors_ok T count (4 * v) (Z.to_nat (v - 1)) x -> 0 <= v < count ->
  outcome (read_vector next v x) (vectors_ok T count (4 * (v + 1)) (Z.to_nat v)) failing.
Proof.
  intros Hx Hv. unfold read_vector. apply outcome_bind.
  eapply outcome_mono; [apply (outcome_for
    (fun j => vectors_ok T count (4 * v + j) (Z.to_nat (v - 1))) failing)| |done].
  - by rewrite Z.add_0_r.
  - intros j t Hj Ht. rewrite Z.add_assoc. apply read_constant_spec; [done|lia].
  - intros x' Hx'. change (0 + Z.of_nat 4) with 4 in Hx'.
    replace (4 * v + 4) with (4 * (v + 1)) in Hx' by lia. destruct Hx' as [Hb Hr Hn Ha Hroom].
    destruct (Z.eqb_spec v 0) as [->|Hne]; [by split|].
    destruct Hb as [q [Hq Hs Hid Hsound Hrows Hroom' Hc HT Hl Hfr]].
    rewrite (co_count _ _ Hc), Hr, (proj2 (Z.ltb_lt _ _)) by lia. cbn [outcome].
    assert (Hlen : length (is_rows x' ++ [continuation_row (is_inst x')]) = Z.to_nat v)
      by (rewrite length_app, Hr; cbn [length]; lia).
    split; try done. exists q.
    split; try done; cbn [is_container is_rows set_field set_is_rows].
    + change (Forall (fun r => di_operands r = [] /\ di_is_customdata_continuation r = true)
        (is_rows x' ++ [continuation_row (is_inst x')])). apply list.Forall_app. split; [done|].
      by apply list.Forall_singleton.
    + change (Z.of_nat (length insts) + 1 +
        Z.of_nat (length (is_rows x' ++ [continuation_row (is_inst x')])) <=
        dc_instruction_alloc (is_container x')). rewrite Hlen. lia.
Qed.

Lemma immediate_constant_buffer_preserves : preserves (dcl_immediate_constant_buffer next).
Proof.
  intros T x Hx Ho Hr. unfold dcl_immediate_constant_buffer. pose proof Hx as [q [Hq Hs _ _ _ _ Hc _ _ Hfr]].
  rewrite (at_position _ _ _ Hs), u64_small by lia.
  handler_step. handler_step. bools.
  pose proof (allocate_constants_spec (is_container x) insts ((next - q) / 4) Hc) as Halloc.
  assert (0 <= (next - q) / 4 <= INT_MAX) as Hn4 by (split; [apply Z.div_pos; lia|lia]).
  specialize (Halloc Hn4).
  destruct (allocate_immediate_constants _ _) as [c|]; [|by eapply body_failing].
  destruct Halloc as (Hok & Htab & Hcount & Hal & Hv & Hvc & Hva & Hfa).
  assert (Hx1 : body T (x <| is_container := c |>)).
  { apply body_container; [done|done|done|lia|done]. }
  handler_step. bools. apply outcome_bind.
  eapply outcome_mono; [apply (reserve_instructions_spec c insts _ failing Hok)| |done].
  { pose proof (co_count _ _ Hok). pose proof (co_alloc _ _ Hok).
    assert (0 <= (next - q) / 4 / 4) by (apply Z.div_pos; lia). lia. }
  intros [c2|] Hres; [|by eapply body_failing].
  destruct Hres as (Hok2 & Halloc2 & Hgrow & Htab2 & Hval2 & Hva2 & Hfr2).
  set (count := (next - q) / 4 / 4) in *.
  assert (Hcount4 : (next - q) / 4 = 4 * count).
  { unfold count. Z.div_mod_to_equations. lia. }
  assert (Hok3 : container_ok (c2 <| dc_icb_value_count := 0 |>) insts).
  { destruct Hok2 as [Ci Cc Ca Cn Cs Ct [Kc Ka Kn]]. split; try done. split; cbn; [|lia|done].
    by rewrite Hval2, Hv. }
  eapply outcome_mono; [apply (outcome_for
    (fun v => vectors_ok T count (4 * v) (Z.to_nat (v - 1))) failing)| |done].
  - split.
    + apply body_update; [|done|done]. by apply body_container.
    + by cbn; rewrite Hr.
    + done.
    + cbn. lia.
    + change (Z.of_nat (length insts) + count <= dc_instruction_alloc c2).
      pose proof (co_count _ _ Hok). lia.
  - intros v t Hv' Ht. replace (Z.to_nat (v + 1 - 1)) with (Z.to_nat v) by lia.
    apply read_vector_spec; [done|lia].
  - intros x' []. done.
Qed.

(** ** Handlers that declare a resource *)

Definition first_register (i : DXBCInstruction) : option Z := op_register_index <$> head (di_operands i).

Definition declared_by (uav : bool) (t0 : resource_tables) (x : inst_state) : Prop :=
  exists r, body (declares uav r t0) x /\ first_register (is_inst x) = Some r.

Definition declaring (uav : bool) (h : handler) : Prop :=
  forall t0 x, body (fun t => t = t0) x -> di_operands (is_inst x) = [] ->
  outcome (h x) (declared_by uav t0) failing.

Lemma declare_register uav t0 assign r x op ops :
  body (fun t => t = t0) x -> di_operands (is_inst x) = op :: ops -> op_register_index op = r ->
  0 <= r -> completes assign -> outcome (declare r uav assign x) (declared_by uav t0) failing.
Proof.
  intros Hx Ho Hop Hr Ha. eapply outcome_mono; [by apply (declare_spec r uav assign x t0)| |done].
  intros x' [Hx' Hi]. exists r. split; [done|]. unfold first_register. rewrite Hi, Ho. cbn. by rewrite Hop.
Qed.

Lemma uav_flags_complete token d :
  decl_ok d -> decl_register_index (with_uav_flags token d) = decl_register_index d /\
               decl_ok (with_uav_flags token d).
Proof. by intros []. Qed.

Ltac declare_now :=
  eapply declare_register; [eassumption| |eassumption|eassumption|];
    [repeat match goal with H : is_inst ?x' = is_inst ?x |- context [is_inst ?x'] => rewrite H end;
     eassumption|].

Lemma resource_declares token : declaring false (dcl_resource token next).
Proof.
  intros t0 x Hx Ho. unfold dcl_resource. do 4 handler_step.
  destruct (decode_resource_return_types _) as [types|] eqn:Ht; [|by eapply body_failing].
  declare_now. apply with_texts_completes; [by eapply decode_types_length|].
  intros d Hn Hr. eexists. split; [done|]. by split.
Qed.

Lemma uav_typed_declares token : declaring true (dcl_uav_typed token next).
Proof.
  intros t0 x Hx Ho. unfold dcl_uav_typed. do 5 handler_step.
  destruct (decode_resource_return_types _) as [types|] eqn:Ht; [|by eapply body_failing].
  declare_now. apply with_texts_completes; [by eapply decode_types_length|].
  intros d Hn Hr. eexists. split; [done|]. by split.
Qed.

Lemma raw_declares uav token : declaring uav (dcl_raw uav token next).
Proof.
  intros t0 x Hx Ho. unfold dcl_raw. do 3 handler_step.
  declare_now. apply with_buffer_completes; [cbn; lia|].
  intros d Hn Hr Hd. eexists. split; [done|]. destruct uav; [by apply uav_flags_complete|by split].
Qed.

Lemma structured_declares uav token : declaring uav (dcl_structured uav token next).
Proof.
  intros t0 x Hx Ho. unfold dcl_structured. do 5 handler_step.
  eapply declare_register.
  - eapply body_append; [apply body_update; [eassumption|done|done]|right; by split|by apply plain_blocks|].
    match goal with |- context [is_inst (?y <| is_inst ::= ?f |>)] =>
      change (di_operands (is_inst (y <| is_inst ::= f |>))) with (di_operands (is_inst y)) end.
    operand_list. cbn. lia.
  - rewrite append_operands.
    match goal with |- context [is_inst (?y <| is_inst ::= ?f |>)] =>
      change (di_operands (is_inst (y <| is_inst ::= f |>))) with (di_operands (is_inst y)) end.
    operand_list. reflexivity.
  - eassumption.
  - eassumption.
  - apply with_buffer_completes; [cbn; lia|].
    intros d Hn Hr Hd. eexists. split; [done|]. by destruct uav.
Qed.

(** ** The dispatch *)

#[local] Hint Resolve thread_group_preserves shared_memory_preserves sync_preserves
  immediate_constant_buffer_preserves constant_buffer_preserves sampler_preserves
  index_range_preserves token_only_preserves scalar_preserves temps_preserves
  indexable_temp_preserves input_primitive_preserves output_topology_preserves
  max_out_preserves global_flags_preserves input_output_preserves system_value_preserves
  input_ps_preserves operands_preserves : handlers.

(** The table an opcode declares in. *)
Definition declares_in (opcode : Z) : option bool :=
  switch opcode [(88, Some false); (161, Some false); (162, Some false);
                 (156, Some true); (157, Some true); (158, Some true)] None.

Lemma dispatch_spec opcode token t0 x :
  body (fun t => t = t0) x -> di_operands (is_inst x) = [] -> is_rows x = [] ->
  outcome (dispatch opcode token next x)
    (fun x' => match declares_in opcode with
               | None => body (fun t => t = t0) x'
               | Some uav => declared_by uav t0 x'
               end) failing.
Proof.
  intros Hx Ho Hr. unfold dispatch, declares_in. cbn [switch].
  repeat match goal with |- outcome ((if ?b then _ else _) x) _ _ => destruct b eqn:? end;
    repeat match goal with H : _ || _ = true |- _ => apply orb_true_iff in H as [H|H] end;
    bools; subst; cbn [Z.eqb Pos.eqb].
  all: first
    [ apply resource_declares; assumption | apply uav_typed_declares; assumption
    | apply raw_declares; assumption | apply structured_declares; assumption
    | match goal with |- outcome (?h _) _ _ =>
        let Hh := fresh in assert (Hh : preserves h) by auto with handlers nocore;
        by apply (Hh (fun t => t = t0))
      end ].
Qed.
End body.
