(* ===== verification/InstructionProgram.v ===== *)
(** The instruction parser on a whole program: it reads the same instructions as
    the lossless document parser, keeps the declaration tables in step with the
    declarations, and owns exactly the blocks of the operands it stores. *)

From stdpp Require Import gmap gmultiset.
From S2P Require Import Prelude UnityCommon Hash Document DocumentFormat Decoder Heap ByteStream.
From S2P Require Import Signature SignatureCorrect SignatureParse Resources Operand OperandCorrect.
From S2P Require Import OperandFields OperandParser Instruction InstructionCorrect.

#[local] Set Warnings "-register-all".

(** * The token *)

Lemma token_extended_high_bit t : token_extended t = high_bit t.
Proof. done. Qed.

Lemma header_identity token start next index inst accepted :
  instruction_header token start next index = (inst, accepted) ->
  identity inst = (token, Z.land token 0x7ff, u32 start, u32 (next - start), index, false) /\
  di_operands inst = [].
Proof.
  unfold instruction_header. intros Heq.
  repeat match type of Heq with (if ?b then _ else _) = _ => destruct b eqn:? end;
    injection Heq as <- <-.
  all: split; repeat match goal with |- context [if ?b then _ else _] => destruct b end; done.
Qed.

Lemma opcode_extension_keeps inst ext inst' :
  opcode_extension inst ext = Some inst' ->
  identity inst' = identity inst /\ di_operands inst' = di_operands inst.
Proof.
  unfold opcode_extension. intros Heq.
  repeat match type of Heq with (if ?b then _ else _) = _ => destruct b end; try done.
  - by injection Heq as <-.
  - by injection Heq as <-.
  - destruct (decode_resource_return_types _) as [types|]; [|done]. cbn in Heq. by injection Heq as <-.
Qed.

(** * The body, extension tokens included *)

Section body.
Context `{U : UnityCommon} {HU : UnityCommonSpec U}.
Context `{S : ByteStreamOps} {HS : ByteStreamSpec S}.
Variables (D : list byte) (p0 total next w : Z).
Hypothesis Hp0 : 0 <= p0.
Hypothesis Hw : 0 <= w.
Hypothesis Hnext : 0 <= next <= size D.
Hypothesis Hsize : size D < 2 ^ 32.
Hypothesis Hlen : next = p0 + 4 * (w + instruction_tokens D p0 w).
Variables (insts : list DXBCInstruction) (base : ledger) (c0 : DXBCContainer).

Let token := word D (p0 + 4 * w).
Variable index : Z.
Let id0 := (token, Z.land token 0x7ff, u32 (p0 + 4 * w), u32 (next - (p0 + 4 * w)), index, false).

#[local] Abbreviation body_at := (body_at D next insts id0 base c0).
#[local] Abbreviation body := (body D next insts id0 base c0).
#[local] Abbreviation failing := (failing D next insts id0 base c0).

(** Where the chain of extension tokens stands: what remains to be read, after
    [j] words, completes it. *)
Definition chain_to (j : Z) (more : bool) : Prop :=
  forall k, (if more then extension_run D p0 w j k else k = 0) ->
            extensions D p0 w (k + (j - first_extension D p0 w)).

Lemma opcode_extensions_spec T x :
  body_at T (p0 + 4 * (w + first_extension D p0 w)) x -> di_operands (is_inst x) = [] ->
  is_rows x = [] ->
  outcome (opcode_extensions token next x)
    (fun x' => body T x' /\ di_operands (is_inst x') = [] /\ is_rows x' = [] /\
               exists k, extensions D p0 w k)
    failing.
Proof.
  intros Hx Ho Hr. unfold opcode_extensions. apply outcome_bind.
  set (inv := fun s : bool * inst_state => exists j, 0 <= j /\ j <= instruction_tokens D p0 w /\
    body_at T (p0 + 4 * (w + j)) s.2 /\ di_operands (is_inst s.2) = [] /\ is_rows s.2 = [] /\
    chain_to j s.1).
  pose proof (bi_position _ _ _ _ _ _ _ _ _ Hx) as Hfirst.
  assert (Hf : first_extension D p0 w = 1 \/ first_extension D p0 w = 2 /\ is_customdata D p0 w = true).
  { unfold first_extension. destruct (is_customdata D p0 w); auto. }
  eapply outcome_mono; [apply (outcome_while inv
    (fun s => Z.to_nat (next - stream_position (is_stream s.2) + 1)) failing)| |done].
  - exists (first_extension D p0 w). cbn [fst snd]. split; [lia|]. split; [lia|].
    split; [done|]. split; [done|]. split; [done|]. intros k Hk. rewrite Z.sub_diag, Z.add_0_r.
    unfold extensions. exact Hk.
  - cbn [snd]. rewrite (at_position _ _ _ (bi_stream _ _ _ _ _ _ _ _ _ Hx)). lia.
  - intros [more y] (j & Hj & Hjn & Hy & Hoy & Hry & Hchain) Hmore. cbn [fst snd] in *. subst more.
    pose proof (at_position _ _ _ (bi_stream _ _ _ _ _ _ _ _ _ Hy)) as Hpos. rewrite Hpos.
    split; [lia|]. unfold read_opcode_extension. cbn [snd]. apply outcome_bind.
    eapply outcome_mono; [by eapply read_word_at; [| |exact Hy]| |done].
    intros [ext y1] (-> & Hle & Hy1 & Hi1 & Hr1 & _).
    set (ext := word D (p0 + 4 * (w + j))) in *.
    destruct (opcode_extension (is_inst y1) ext) as [inst|] eqn:Hext; [|by eapply body_at_failing].
    destruct (opcode_extension_keeps _ _ _ Hext) as [Hid Hops]. cbn [outcome fst snd].
    split.
    + exists (j + 1). cbn [fst snd]. split; [lia|]. split; [lia|].
      replace (p0 + 4 * (w + (j + 1))) with (p0 + 4 * (w + j) + 4) by lia.
      assert (Hy2 : body_at T (p0 + 4 * (w + j) + 4) (y1 <| is_inst := inst |>)).
      { destruct Hy1 as [Hq1 Hs1 Hid1 Hso1 Hrow1 Hroom1 Hc1 HT1 Hl1 Hfr1]. split; try done.
        - change (identity inst = id0). by rewrite Hid.
        - change (sound_instruction inst). destruct Hso1. split; by rewrite Hops.
        - change (is_live y1 = base ⊎ instruction_blocks inst). unfold instruction_blocks.
          by rewrite Hops. }
      split; [exact Hy2|]. split; [change (di_operands inst = []); by rewrite Hops, Hi1|].
      split; [change (is_rows y1 = []); by rewrite Hr1|].
      intros k Hk. unfold chain_to in Hchain. rewrite token_extended_high_bit in Hk.
      change (high_bit ext) with (high_bit (DocumentFormat.token D p0 (w + j))) in Hk.
      replace (k + (j + 1 - first_extension D p0 w)) with (k + 1 + (j - first_extension D p0 w)) by lia.
      apply Hchain. destruct (high_bit (DocumentFormat.token D p0 (w + j))) eqn:Hbit.
      * apply extension_more; [lia|done|exact Hk].
      * subst k. apply extension_last; [lia|done].
    + destruct Hy1 as [_ Hs1 _ _ _ _ _ _ _ _].
      change (is_stream (y1 <| is_inst := inst |>)) with (is_stream y1).
      rewrite (at_position _ _ _ Hs1). lia.
  - intros [more y] [(j & _ & _ & Hy & Hoy & Hry & Hchain) Hdone]. cbn [fst snd] in *. subst more.
    cbn [outcome]. split; [by eexists|]. split; [done|]. split; [done|].
    eexists. by apply (Hchain 0).
Qed.

(** The declaration tables after the instruction. *)
Definition tables_after (t0 : resource_tables) (x : inst_state) : Prop :=
  match declares_in (di_opcode (is_inst x)) with
  | None => dc_tables (is_container x) = t0
  | Some uav => exists r, declares uav r t0 (dc_tables (is_container x)) /\
                          first_register (is_inst x) = Some r
  end.

Lemma instruction_body_spec accepted t0 x :
  body_at (fun t => t = t0) (p0 + 4 * (w + first_extension D p0 w)) x ->
  di_operands (is_inst x) = [] -> is_rows x = [] ->
  outcome (instruction_body accepted token next x)
    (fun x' => body_at (fun _ => True) next x' /\ tables_after t0 x' /\ exists k, extensions D p0 w k)
    failing.
Proof.
  intros Hx Ho Hr. unfold instruction_body.
  eapply step_reject; [eexists; exact Hx|]. intros _.
  apply outcome_bind. eapply outcome_mono; [by apply (opcode_extensions_spec (fun t => t = t0))| |done].
  intros x1 (Hx1 & Ho1 & Hr1 & Hk). apply outcome_bind.
  assert (Hop : di_opcode (is_inst x1) = Z.land token 0x7ff).
  { destruct Hx1 as [q [_ _ Hid _ _ _ _ _ _ _]]. unfold identity, id0 in Hid. by injection Hid. }
  rewrite Hop.
  eapply outcome_mono; [by apply (dispatch_spec D next Hnext Hsize insts id0 base c0 _ token t0 x1)| |done].
  intros x2 Hx2.
  assert (Hdone : exists q, body_at (fun _ => True) q x2 /\ tables_after t0 x2).
  { assert (Hop2 : forall T q, body_at T q x2 -> di_opcode (is_inst x2) = Z.land token 0x7ff).
    { intros T q [_ _ Hid _ _ _ _ _ _ _]. unfold identity, id0 in Hid. by injection Hid. }
    unfold tables_after. destruct (declares_in (Z.land token 0x7ff)) as [uav|] eqn:Hd.
    - destruct Hx2 as (r & [q Hq] & Hreg). exists q. rewrite (Hop2 _ _ Hq), Hd.
      destruct Hq as [? ? ? ? ? ? ? Hdecl ? ?]. split; [by split|]. by exists r.
    - destruct Hx2 as [q Hq]. exists q. rewrite (Hop2 _ _ Hq), Hd.
      destruct Hq as [? ? ? ? ? ? ? Hdecl ? ?]. split; [by split|done]. }
  destruct Hdone as (q & Hq & Htab).
  pose proof (at_position _ _ _ (bi_stream _ _ _ _ _ _ _ _ _ Hq)) as Hpos. rewrite Hpos.
  destruct (Z.eqb_spec q next) as [->|Hne]; cbn; [done|]. by eapply body_at_failing.
Qed.
End body.

(** * Commitment to the array *)

Lemma commit_ok n l c insts :
  container_ok c insts -> Forall sound_instruction l -> (n <= length l)%nat ->
  Z.of_nat (length insts) + Z.of_nat n <= dc_instruction_alloc c ->
  0 < dc_instruction_alloc c ->
  container_ok (commit n l c) (insts ++ take n l).
Proof.
  intros [Hi Hc Ha Hn Hs Ht [Kc Ka Kn]] Hl Hlen Hroom Hpos.
  assert (Htake : take (Z.to_nat (dc_instruction_count c)) (default [] (dc_instructions c)) = insts)
    by (rewrite Hi, Hc, Nat2Z.id; apply firstn_all).
  split; try done.
  - unfold commit. cbn. by rewrite Htake.
  - unfold commit. cbn. rewrite length_app, length_take. lia.
  - unfold commit. cbn. lia.
  - unfold commit. cbn. split; [done|]. lia.
  - apply list.Forall_app. split; [done|]. by apply list.Forall_take.
Qed.

Lemma bare_sound i : di_operands i = [] -> sound_instruction i.
Proof. intros Hi. split; rewrite Hi; [apply list.Forall_nil_2|cbn; lia]. Qed.

Lemma bare_blocks l : Forall (fun i => di_operands i = []) l -> all_blocks l = ∅.
Proof.
  induction 1 as [|i l Hi Hl IH]; [done|].
  change (instruction_blocks i ⊎ all_blocks l = ∅). rewrite IH. unfold instruction_blocks. rewrite Hi.
  apply (left_id_L ∅ (⊎)).
Qed.

(** * The loop over instructions *)

Definition is_instruction (i : DXBCInstruction) : Prop := di_is_customdata_continuation i = false.
#[local] Instance is_instruction_dec i : Decision (is_instruction i) := decide (_ = false).

(** The semantic instruction is the lossless one. *)
Record agrees (bytes : list byte) (d : DXBCDocumentInstruction) (i : DXBCInstruction) : Prop := {
  ag_offset : di_file_offset i = ins_byte_offset d;
  ag_size : di_byte_length i = ins_byte_size d;
  ag_opcode : di_opcode i = ins_opcode d;
  ag_token : di_token i = word bytes (ins_byte_offset d);
  ag_index : di_raw_instruction_index i = ins_index d;
}.

(** The registers some instructions declare in a table, and the registers in it. *)
Definition declared_registers (uav : bool) (l : list DXBCInstruction) : gset Z :=
  list_to_set (omap (fun i => if decide (declares_in (di_opcode i) = Some uav)
                              then first_register i else None) l).
Definition table_registers (uav : bool) (t : resource_tables) : gset Z :=
  list_to_set (registers (default [] (rt_declarations (table_of t uav)))).

Lemma table_registers_dom uav t els :
  table_ok (table_of t uav) els -> table_registers uav t = dom (as_map els).
Proof.
  intros Ht. unfold table_registers. rewrite (rt_elements_ok _ _ Ht). unfold as_map, registers.
  rewrite dom_list_to_map_L, <- list_fmap_compose. done.
Qed.

Lemma declares_registers uav r t0 t uav' :
  tables_ok t0 -> declares uav r t0 t ->
  table_registers uav' t = table_registers uav' t0 ∪ (if decide (uav' = uav) then {[ r ]} else ∅).
Proof.
  intros Hok (Hother & els & els' & d & H0 & H1 & Hmap). destruct (decide (uav' = uav)) as [->|Hne].
  - rewrite (table_registers_dom uav t els' H1), (table_registers_dom uav t0 els H0), Hmap.
    rewrite dom_insert_L. apply (comm_L (∪)).
  - rewrite (right_id_L ∅ (∪)). unfold table_registers. replace uav' with (negb uav); [by rewrite Hother|].
    by destruct uav, uav'.
Qed.

Lemma declared_registers_app uav a b :
  declared_registers uav (a ++ b) = declared_registers uav a ∪ declared_registers uav b.
Proof. unfold declared_registers. by rewrite omap_app, list_to_set_app_L. Qed.

Lemma declared_registers_bare uav l :
  Forall (fun i => di_operands i = []) l -> declared_registers uav l = ∅.
Proof.
  intros Hl. unfold declared_registers. induction Hl as [|i l Hi Hl IH]; [done|]. cbn [omap list_omap].
  unfold first_register. rewrite Hi. cbn [head fmap option_fmap option_map].
  by destruct (decide _).
Qed.

Section program.
Context `{U : UnityCommon} {HU : UnityCommonSpec U}.
Context `{S : ByteStreamOps} {HS : ByteStreamSpec S}.
Variables (D : list byte) (p0 total ci : Z).
Hypothesis Hp0 : 0 <= p0.
Hypothesis Hend : p0 + 4 * total <= size D.
Hypothesis Hsize : size D < 2 ^ 32.
(** What there was before the program. *)
Variables (insts0 : list DXBCInstruction) (base : ledger) (t0 : resource_tables) (c0 : DXBCContainer).

(** The container holds sound instructions, and the ledger their operands. *)
Definition holds (st : shader_state) (news : list DXBCInstruction) : Prop :=
  container_ok (sh_container st) (insts0 ++ news) /\ sh_live st = base ⊎ all_blocks news /\
  frame (sh_container st) = frame c0 /\
  exists q, 0 <= q <= p0 + 4 * total /\ stream_at (sh_stream st) D q.

Definition failed_program (st : shader_state) : Prop := exists news, holds st news.

(** At word [w], after the instructions [l] of the lossless parser. *)
Record at_word (st : shader_state) (w : Z) (l : list DXBCDocumentInstruction)
    (news : list DXBCInstruction) : Prop := {
  aw_range : 2 <= w <= total;
  aw_stream : stream_at (sh_stream st) D (p0 + 4 * w);
  aw_run : run D p0 total ci 2 0 l w (sh_raw_index st);
  aw_index : 0 <= sh_raw_index st <= w;
  aw_agrees : Forall2 (agrees D) l (filter is_instruction news);
  aw_container : container_ok (sh_container st) (insts0 ++ news);
  aw_live : sh_live st = base ⊎ all_blocks news;
  aw_tables : forall uav, table_registers uav (dc_tables (sh_container st)) =
                          table_registers uav t0 ∪ declared_registers uav news;
  aw_frame : frame (sh_container st) = frame c0;
}.

Lemma at_word_failed st w l news : at_word st w l news -> failed_program st.
Proof.
  intros [? ? _ _ _ ? ? _ ?]. exists news. split; [done|]. split; [done|]. split; [done|].
  exists (p0 + 4 * w). split; [lia|done].
Qed.

Lemma program_word_at st q :
  stream_at (sh_stream st) D q -> 0 <= q <= p0 + 4 * total ->
  read_program_word (p0 + 4 * total) st =
    if q + 4 <=? p0 + 4 * total
    then Ret (word D q, {| sh_stream := stream_seek (sh_stream st) (q + 4);
                           sh_raw_index := sh_raw_index st; sh_container := sh_container st;
                           sh_live := sh_live st |})
    else Fail st.
Proof.
  intros Hs Hq. unfold read_program_word.
  rewrite (instruction_read_at D (p0 + 4 * total)) with (q := q) by (done || lia).
  by destruct (_ <=? _).
Qed.

Definition same_program (st st' : shader_state) : Prop :=
  sh_raw_index st' = sh_raw_index st /\ sh_container st' = sh_container st /\ sh_live st' = sh_live st.

Lemma failed_program_move st st' q news :
  holds st news -> same_program st st' -> stream_at (sh_stream st') D q -> 0 <= q <= p0 + 4 * total ->
  failed_program st'.
Proof.
  intros (Hc & Hl & Hf & _) (Hi & Hc' & Hl') Hs Hq. exists news. unfold holds. rewrite Hc', Hl'. eauto 6.
Qed.

(** The length of the instruction at word [w], from its token or its second word. *)
Lemma read_length_spec st w news :
  0 <= w < total -> stream_at (sh_stream st) D (p0 + 4 * w + 4) -> holds st news ->
  outcome (read_instruction_length (word D (p0 + 4 * w)) (p0 + 4 * total) st)
    (fun '(n, st') => n = instruction_tokens D p0 w /\ in_u32 n /\
       stream_at (sh_stream st') D (p0 + 4 * (w + first_extension D p0 w)) /\
       w + first_extension D p0 w <= total /\ same_program st st')
    failed_program.
Proof.
  intros Hw Hs Hh. unfold read_instruction_length, instruction_tokens, first_extension, is_customdata,
    token_opcode, token_length, token, dxbc_tokenized_instruction_length.
  destruct (Z.land (word D (p0 + 4 * w)) 0x7ff =? 53).
  - rewrite (program_word_at st (p0 + 4 * w + 4)) by (done || lia).
    destruct (Z.leb_spec (p0 + 4 * w + 4 + 4) (p0 + 4 * total)) as [Hle|]; [|by exists news].
    cbn [outcome sh_stream sh_raw_index sh_container sh_live].
    replace (p0 + 4 * w + 4) with (p0 + 4 * (w + 1)) in * by lia.
    replace (p0 + 4 * (w + 1) + 4) with (p0 + 4 * (w + 2)) in * by lia.
    split; [done|]. split; [apply le32_range; lia|]. split; [by eapply stream_at_seek|].
    split; [lia|done].
  - destruct (Z.eqb_spec (Z.land (Z.shiftr (word D (p0 + 4 * w)) 24) 0x7f) 0); [by exists news|].
    cbn [outcome]. split; [done|]. split.
    { pose proof (land_low (Z.shiftr (word D (p0 + 4 * w)) 24) 7 ltac:(lia)) as Hl.
      change (2 ^ 7 - 1) with 0x7f in Hl. unfold in_u32. lia. }
    replace (p0 + 4 * (w + 1)) with (p0 + 4 * w + 4) by lia. split; [done|]. split; [lia|done].
Qed.

(** A rejected instruction leaves the blocks of the others. *)
Lemma reject_spec {A} next id0 news idx x (Q : A -> Prop) :
  failing D next (insts0 ++ news) id0 (base ⊎ all_blocks news) c0 x -> next <= p0 + 4 * total ->
  outcome (reject_instruction idx x) Q failed_program.
Proof.
  intros [q [Hq Hs Hid Hsound Hrows Hroom Hc _ Hl Hfr]] Hle. unfold reject_instruction.
  rewrite (free_operands_ok _ (base ⊎ all_blocks news)) by exact Hl. mstep. cbn [outcome].
  set (bare := (is_inst x) <| di_operands := [] |>).
  assert (Hbare : Forall (fun i => di_operands i = []) (take (length (is_rows x)) (bare :: is_rows x))).
  { apply list.Forall_take. constructor; [done|]. eapply list.Forall_impl; [exact Hrows|].
    by intros i [? _]. }
  exists (news ++ take (length (is_rows x)) (bare :: is_rows x)). unfold holds. cbn [sh_container sh_live sh_stream].
  split; [|split; [|split; [exact Hfr|exists q; split; [lia|done]]]].
  - rewrite app_assoc. apply commit_ok; [done| |cbn [length]; lia|lia|lia].
    constructor; [by apply bare_sound|]. eapply list.Forall_impl; [exact Hrows|].
    intros i [? _]. by apply bare_sound.
  - by rewrite all_blocks_app, (bare_blocks _ Hbare), (right_id_L ∅ (⊎)).
Qed.

(** What an accepted instruction adds. *)
Lemma accept_spec st st2 w n l news next idx c x k t1 :
  at_word st w l news -> w < total -> n = instruction_tokens D p0 w ->
  next = p0 + 4 * (w + n) -> next <= p0 + 4 * total -> first_extension D p0 w <= n ->
  w + first_extension D p0 w <= total -> extensions D p0 w k ->
  idx = sh_raw_index st -> t1 = dc_tables (sh_container st) -> tables_ok t1 ->
  body_at D next (insts0 ++ news)
    (word D (p0 + 4 * w), Z.land (word D (p0 + 4 * w)) 0x7ff, u32 (p0 + 4 * w),
     u32 (next - (p0 + 4 * w)), idx, false) (base ⊎ all_blocks news) c0 (fun _ => True) next x ->
  tables_after t1 x -> c = is_container x ->
  st2 = {| sh_stream := stream_seek (is_stream x) next; sh_raw_index := u32 (idx + 1);
           sh_container := commit (Datatypes.S (length (is_rows x))) (is_inst x :: is_rows x) c;
           sh_live := is_live x |} ->
  at_word st2 (w + n) (l ++ [instruction_at D p0 ci idx w k]) (news ++ is_inst x :: is_rows x).
Proof.
  intros [Hr Hs Hrun Hidx Hag Hc Hl Ht Hfr] Hw -> -> Hle Hmin Hroom Hk -> -> Htok Hx Htab -> ->.
  pose proof Hx as [Hq Hsx Hid Hsound Hrows Hroomx Hcx _ Hlx Hfx].
  set (n := instruction_tokens D p0 w) in *. unfold identity in Hid.
  assert (Hf : 1 <= first_extension D p0 w) by (unfold first_extension; destruct (is_customdata _ _ _); lia).
  assert (Hsmall : u32 (sh_raw_index st + 1) = sh_raw_index st + 1) by (apply u32_small; lia).
  rewrite !u32_small in Hid by lia. injection Hid as Htoken Hopcode Hoffset Hbytes Hindex Hcont.
  split; cbn [sh_stream sh_raw_index sh_container sh_live]; rewrite ?Hsmall.
  - lia.
  - by eapply stream_at_seek.
  - apply run_snoc; [done|done|]. split; [lia|done|unfold n in *; lia|done].
  - lia.
  - rewrite list.filter_app, filter_cons_True by exact Hcont. apply Forall2_app; [done|].
    replace (filter is_instruction (is_rows x)) with (@nil DXBCInstruction).
    + constructor; [|constructor]. split; unfold instruction_at;
        cbn [ins_byte_offset ins_byte_size ins_opcode ins_index]; try done. unfold n in Hbytes. lia.
    + symmetry. clear -Hrows. induction Hrows as [|r rows [_ Hr] Hrows IH]; [done|].
      rewrite filter_cons_False; [done|]. unfold is_instruction. by rewrite Hr.
  - rewrite app_assoc.
    assert (Hall : take (Datatypes.S (length (is_rows x))) (is_inst x :: is_rows x) = is_inst x :: is_rows x)
      by by apply take_ge.
    rewrite <- Hall at 2. apply commit_ok; [done| |done|lia|lia].
    constructor; [done|]. eapply list.Forall_impl; [exact Hrows|]. intros i [? _]. by apply bare_sound.
  - rewrite all_blocks_app, Hlx.
    change (all_blocks (is_inst x :: is_rows x)) with (instruction_blocks (is_inst x) ⊎ all_blocks (is_rows x)).
    rewrite (bare_blocks (is_rows x)), (right_id_L ∅ (⊎)), (assoc_L (⊎)); [done|].
    eapply list.Forall_impl; [exact Hrows|]. by intros i [? _].
  - intros uav.
    assert (Hrowdecl : declared_registers uav (is_rows x) = ∅).
    { apply declared_registers_bare. eapply list.Forall_impl; [exact Hrows|]. by intros i [? _]. }
    change (is_inst x :: is_rows x) with ([is_inst x] ++ is_rows x).
    rewrite !declared_registers_app, Hrowdecl, (right_id_L ∅ (∪)), (assoc_L (∪)), <- Ht.
    change (dc_tables (commit ?n ?l (is_container x))) with (dc_tables (is_container x)).
    unfold tables_after in Htab. unfold declared_registers at 1. cbn [omap list_omap].
    destruct (declares_in (di_opcode (is_inst x))) as [uav'|] eqn:Hd.
    + destruct Htab as (r & Hdecl & Hreg). rewrite (declares_registers _ _ _ _ uav Htok Hdecl), Hreg.
      f_equal. destruct (decide (uav = uav')) as [->|Hne].
      * rewrite decide_True by done. cbn. by rewrite (right_id_L ∅ (∪)).
      * rewrite decide_False by congruence. done.
    + rewrite Htab. rewrite decide_False by done. cbn. by rewrite (right_id_L ∅ (∪)).
  - exact Hfx.
Qed.

Lemma parse_shader_instruction_spec st w l news :
  at_word st w l news -> w < total ->
  outcome (parse_shader_instruction (p0 + 4 * total) st)
    (fun st' => exists w' l' news', at_word st' w' l' news' /\ w < w') failed_program.
Proof.
  intros Haw Hw. pose proof Haw as [Hr Hs Hrun Hidx Hag Hc Hl Ht Hfr].
  assert (Hh : holds st news).
  { split; [done|split; [done|split; [done|]]]. exists (p0 + 4 * w). split; [lia|done]. }
  unfold parse_shader_instruction. rewrite (at_position _ _ _ Hs).
  rewrite (program_word_at st (p0 + 4 * w)) by (done || lia).
  rewrite (proj2 (Z.leb_le _ _)) by lia. mstep.
  match goal with |- context [read_instruction_length _ _ ?s] => set (st1 := s) end.
  assert (Hs1 : stream_at (sh_stream st1) D (p0 + 4 * w + 4)) by (by eapply stream_at_seek).
  assert (Hh1 : holds st1 news).
  { split; [done|]. split; [done|]. split; [done|]. exists (p0 + 4 * w + 4). split; [lia|done]. }
  apply outcome_bind. eapply outcome_mono; [by apply (read_length_spec st1 w news); [lia|..]| |done].
  intros [n st2] (Hn & Hn32 & Hs2 & Hfirst & Hi2 & Hc2 & Hl2). unfold in_u32 in Hn32.
  set (pos := p0 + 4 * (w + first_extension D p0 w)) in *.
  assert (Hh2 : holds st2 news).
  { unfold holds. rewrite Hc2, Hl2. split; [done|]. split; [done|]. split; [done|]. exists pos.
    pose proof (proj1 Hr). assert (0 <= first_extension D p0 w)
      by (unfold first_extension; destruct (is_customdata _ _ _); lia). unfold pos. split; [lia|done]. }
  assert (Hfail2 : failed_program st2) by by exists news.
  rewrite u64_small by lia. replace (p0 + 4 * total - (p0 + 4 * w)) with ((total - w) * 4) by lia.
  rewrite Z.div_mul by lia.
  apply outcome_if; intros Hlen; [exact Hfail2|]. apply orb_false_iff in Hlen as [Hnz Hmax]. bools.
  rewrite (u32_small (n * 4)), u64_small by lia.
  set (next := p0 + 4 * w + n * 4).
  rewrite (at_position _ _ _ Hs2).
  apply outcome_if; intros Hmin; [exact Hfail2|]. bools.
  rewrite Hc2, Hi2. change (sh_container st1) with (sh_container st).
  change (sh_raw_index st1) with (sh_raw_index st).
  apply outcome_if; intros Hcount; [exact Hfail2|]. bools.
  apply outcome_bind.
  eapply outcome_mono; [apply (reserve_instructions_spec (sh_container st) (insts0 ++ news) _
    failed_program Hc)| |done].
  { pose proof (co_count _ _ Hc). pose proof (co_alloc _ _ Hc). lia. }
  intros [c|] Hres; [|exact Hfail2].
  destruct Hres as (Hc' & Halloc & _ & Htab & _ & _ & Hfc).
  assert (Hcc : dc_instruction_count c = dc_instruction_count (sh_container st))
    by by rewrite (co_count _ _ Hc), (co_count _ _ Hc').
  rewrite Hcc, (proj2 (Z.leb_gt _ _)) by lia.
  destruct (instruction_header _ _ _ _) as [inst accepted] eqn:Hhdr.
  destruct (header_identity _ _ _ _ _ _ Hhdr) as [Hid Hops].
  assert (Hnext : 0 <= next <= size D) by (unfold next; lia).
  assert (Hnexteq : next = p0 + 4 * (w + instruction_tokens D p0 w)) by (unfold next; lia).
  pose proof (instruction_body_spec D p0 next w Hp0 ltac:(lia) Hnext Hsize Hnexteq (insts0 ++ news)
    (base ⊎ all_blocks news) c0 (sh_raw_index st) accepted (dc_tables (sh_container st))) as Hbody.
  match goal with |- context [instruction_body _ _ _ ?x0] => specialize (Hbody x0) end.
  assert (Hlive2 : sh_live st2 = base ⊎ all_blocks news ⊎ instruction_blocks inst).
  { rewrite Hl2. change (sh_live st1) with (sh_live st). unfold instruction_blocks. rewrite Hops.
    cbn -[disj_union empty]. by rewrite (right_id_L ∅ (⊎)). }
  assert (Hstart : forall x0, x0 = {| is_stream := sh_stream st2; is_inst := inst; is_rows := [];
      is_container := c; is_live := sh_live st2 |} ->
    body_at D next (insts0 ++ news) (word D (p0 + 4 * w), Z.land (word D (p0 + 4 * w)) 0x7ff,
      u32 (p0 + 4 * w), u32 (next - (p0 + 4 * w)), sh_raw_index st, false)
      (base ⊎ all_blocks news) c0 (fun t => t = dc_tables (sh_container st)) pos x0).
  { intros x0 ->. split; try done.
    - unfold next, pos in *. assert (0 <= first_extension D p0 w)
        by (unfold first_extension; destruct (is_customdata _ _ _); lia). lia.
    - by apply bare_sound.
    - cbn [is_rows is_container]. pose proof (co_count _ _ Hc). cbn [length]. lia.
    - cbn [is_container]. by rewrite Hfc. }
  specialize (Hbody (Hstart _ eq_refl) Hops eq_refl).
  destruct (instruction_body accepted _ next _) as [x|x|]; cbn [or_reject]; [| |done].
  - cbn [outcome] in Hbody |- *. destruct Hbody as (Hx & Htab' & k & Hk).
    exists (w + n). do 2 eexists. split; [|lia].
    eapply (accept_spec st _ w n l news next (sh_raw_index st) (is_container x) x k
      (dc_tables (sh_container st))); try done; try (unfold next, pos in *; lia).
    by apply (co_tables _ _ Hc).
  - eapply (reject_spec next); [apply Hbody|unfold next; lia].
Qed.

Lemma parse_loop_spec st :
  at_word st 2 [] [] ->
  outcome (while (Z.to_nat (total - 2)) (fun st => stream_position (sh_stream st) <? p0 + 4 * total)
             (parse_shader_instruction (p0 + 4 * total)) st)
    (fun st' => exists l news, at_word st' total l news) failed_program.
Proof.
  intros Hst.
  eapply outcome_mono; [apply (outcome_while (fun s => exists w l news, at_word s w l news)
    (fun s => Z.to_nat ((p0 + 4 * total - stream_position (sh_stream s)) / 4)) failed_program)| |done].
  - eauto.
  - rewrite (at_position _ _ _ (aw_stream _ _ _ _ Hst)).
    replace (p0 + 4 * total - (p0 + 4 * 2)) with ((total - 2) * 4) by lia. rewrite Z.div_mul by lia. done.
  - intros t (w & l & news & Ht) Hlt. rewrite (at_position _ _ _ (aw_stream _ _ _ _ Ht)) in Hlt |- *. bools.
    replace (p0 + 4 * total - (p0 + 4 * w)) with ((total - w) * 4) by lia. rewrite Z.div_mul by lia.
    split; [lia|].
    eapply outcome_mono; [apply (parse_shader_instruction_spec t w l news Ht); lia| |done].
    intros t' (w' & l' & news' & Ht' & Hww'). split; [eauto|].
    rewrite (at_position _ _ _ (aw_stream _ _ _ _ Ht')).
    replace (p0 + 4 * total - (p0 + 4 * w')) with ((total - w') * 4) by lia. rewrite Z.div_mul by lia. lia.
  - intros t [(w & l & news & Ht) Hdone]. rewrite (at_position _ _ _ (aw_stream _ _ _ _ Ht)) in Hdone. bools.
    pose proof (aw_range _ _ _ _ Ht). replace total with w by lia. eauto.
Qed.
End program.

(** * The program of a chunk *)

(** A version the instruction parser accepts names a known stage. *)
Lemma version_reports bytes c :
  0 <= chunk_offset c /\ chunk_offset c + 12 <= size bytes ->
  version_accepted (word bytes (chunk_offset c + 8)) = true -> stage_reports bytes c = [].
Proof.
  intros [Ho Hs] Hva. unfold stage_reports, stage_of. unfold version_accepted in Hva.
  apply negb_true_iff in Hva. repeat (apply orb_false_iff in Hva as [Hva ?]). bools.
  change 0xffff with (Z.ones 16). rewrite Z.land_ones by lia.
  assert (Hw : in_u32 (word bytes (chunk_offset c + 8))) by (apply le32_range; lia).
  unfold in_u32 in Hw. rewrite Z.mod_small; [by rewrite (proj2 (Z.ltb_ge _ _)) by lia|].
  rewrite Z.shiftr_div_pow2 by lia. split; [apply Z.div_pos; lia|apply Z.div_lt_upper_bound; lia].
Qed.

Section chunk.
Context `{U : UnityCommon} {HU : UnityCommonSpec U}.
Context `{S : ByteStreamOps} {HS : ByteStreamSpec S}.
Variables (D : list byte) (c : DXBCDocumentChunk) (st : shader_state).
Variables (insts0 : list DXBCInstruction).

(** The payload of the chunk, as the parser is given it. *)
Let start : Z := chunk_offset c + 8.
Let finish : Z := start + chunk_payload_size c.

Hypothesis Hstart : 0 <= chunk_offset c.
Hypothesis Hpayload : 0 <= chunk_payload_size c.
Hypothesis Hfinish : finish <= size D.
Hypothesis Hsize : size D < 2 ^ 32.
Hypothesis Hs : stream_at (sh_stream st) D start.
Hypothesis Hc : container_ok (sh_container st) insts0.

(** What the parsed program adds to the container. *)
Record parsed_program (st' : shader_state) (l : list DXBCDocumentInstruction)
    (news : list DXBCInstruction) : Prop := {
  pp_program : program_of D c l;
  pp_agrees : Forall2 (agrees D) l (filter is_instruction news);
  pp_version : version_accepted (word D start) = true /\
    dc_program_type (sh_container st') = Z.shiftr (word D start) 16 /\
    dc_major_version (sh_container st') = Z.land (Z.shiftr (word D start) 4) 0xf /\
    dc_minor_version (sh_container st') = Z.land (word D start) 0xf /\
    dc_has_executable_program (sh_container st') = true;
  pp_container : container_ok (sh_container st') (insts0 ++ news);
  pp_live : sh_live st' = sh_live st ⊎ all_blocks news;
  pp_tables : forall uav, table_registers uav (dc_tables (sh_container st')) =
    table_registers uav (dc_tables (sh_container st)) ∪ declared_registers uav news;
  pp_stream : stream_at (sh_stream st') D finish;
  pp_frame : frame (sh_container st') = frame (sh_container st);
}.

(** What a rejected one leaves: sound instructions, and the blocks they own. *)
Definition rejected_program (st' : shader_state) : Prop :=
  exists news, container_ok (sh_container st') (insts0 ++ news) /\
               sh_live st' = sh_live st ⊎ all_blocks news /\
               frame (sh_container st') = frame (sh_container st).

Lemma rejected_unchanged st' :
  sh_container st' = sh_container st -> sh_live st' = sh_live st -> rejected_program st'.
Proof.
  intros Hc' Hl'. exists []. rewrite app_nil_r, Hc', Hl'. split; [done|]. split; [|done].
  symmetry. apply (right_id_L ∅ (⊎)).
Qed.

Lemma parse_shader_logic_spec :
  outcome (parse_shader_logic finish st)
    (fun st' => exists l news, parsed_program st' l news) rejected_program.
Proof.
  unfold parse_shader_logic. rewrite (at_data _ _ _ Hs), (proj2 (Z.ltb_ge _ _)) by done.
  assert (Hword : forall st1 q (k : Z * shader_state -> res shader_state shader_state) Q,
    stream_at (sh_stream st1) D q -> 0 <= q <= finish ->
    sh_container st1 = sh_container st -> sh_live st1 = sh_live st ->
    (forall st2, q + 4 <= finish -> stream_at (sh_stream st2) D (q + 4) ->
      sh_container st2 = sh_container st -> sh_live st2 = sh_live st ->
      outcome (k (word D q, st2)) Q rejected_program) ->
    outcome (read_program_word finish st1 ≫= k) Q rejected_program).
  { intros st1 q k Q Hs1 Hq Hc1 Hl1 Hk. unfold read_program_word.
    rewrite (instruction_read_at D finish) with (q := q) by (done || lia).
    destruct (Z.leb_spec (q + 4) finish); cbn [outcome mbind res_bind];
      [|by apply rejected_unchanged].
    apply Hk; try done. by eapply stream_at_seek. }
  apply (Hword st start); try done; [unfold finish; lia|]. intros st1 Hq1 Hs1 Hc1 Hl1.
  apply (Hword st1 (start + 4)); try done; [lia|]. intros st2 Hq2 Hs2 Hc2 Hl2.
  assert (Hrej : forall st', sh_container st' = sh_container st2 -> sh_live st' = sh_live st2 ->
    rejected_program st') by (intros st' E1 E2; apply rejected_unchanged; congruence).
  set (len := word D (start + 4)).
  apply outcome_if; intros Hlen; [by apply Hrej|]. bools.
  apply outcome_if; intros Hversion; [by apply Hrej|]. apply negb_false_iff in Hversion.
  rewrite (at_position _ _ _ Hs2).
  apply outcome_if; intros Hpos; [by apply Hrej|]. bools. rewrite u64_small by lia.
  apply outcome_if; intros Hexact; [by apply Hrej|]. apply negb_false_iff, Z.eqb_eq in Hexact.
  assert (Hfin : finish = start + 4 * len) by lia.
  rewrite u64_small by lia. replace (start + 4 + 4 + (len - 2) * 4) with (start + 4 * len) by lia.
  rewrite Z.div_mul by lia. apply outcome_bind.
  assert (Hinit : at_word D start len (chunk_table_index c) insts0 (sh_live st) (dc_tables (sh_container st))
    (sh_container st) {| sh_stream := sh_stream st2; sh_raw_index := 0; sh_container := sh_container st2;
       sh_live := sh_live st2 |} 2 [] []).
  { split; cbn [sh_stream sh_raw_index sh_container sh_live]; try lia.
    - by replace (start + 4 * 2) with (start + 4 + 4) by lia.
    - constructor.
    - constructor.
    - by rewrite app_nil_r, Hc2.
    - rewrite Hl2. symmetry. apply (right_id_L ∅ (⊎)).
    - intros uav. rewrite Hc2. symmetry. apply (right_id_L ∅ (∪)).
    - by rewrite Hc2. }
  eapply outcome_mono; [apply (parse_loop_spec D start len (chunk_table_index c) ltac:(unfold start; lia)
    ltac:(lia) Hsize insts0 (sh_live st) (dc_tables (sh_container st))
    (sh_container st) _ Hinit)| |].
  2:{ intros st' (news & Hc' & Hl' & Hf' & _). by exists news. }
  intros st3 (l & news & [Hr Hs3 Hrun Hidx Hag Hc3 Hl3 Ht3 Hf3]).
  rewrite (at_position _ _ _ Hs3), Z.eqb_refl. cbn [negb outcome].
  exists l, news. split; cbn [sh_stream sh_container sh_live]; try done.
  - assert (Hps : chunk_payload_size c = 4 * len) by (unfold finish in Hfin; lia).
    split.
    + rewrite Hps, Z.mul_comm. by apply Z.mod_mul.
    + lia.
    + unfold program_words. rewrite Hps, Z.mul_comm, Z.div_mul by lia. unfold len, start. f_equal. lia.
    + exists (sh_raw_index st3). unfold program_words. rewrite Hps, Z.mul_comm, Z.div_mul by lia. exact Hrun.
  - destruct Hc3 as [? ? ? ? ? ? []]. by split.
  - by rewrite Hfin.
Qed.
End chunk.
