(* ===== verification/InstructionDocument.v ===== *)
(** What [parse_shader_logic] means to its callers: it sees the instructions
    the lossless document parser sees, it declares what they declare, and the
    operand blocks it takes are those of the instructions it stores. *)

From stdpp Require Import gmap gmultiset.
From S2P Require Import Prelude UnityCommon Hash Document DocumentFormat Samples DocumentCorrect.
From S2P Require Import Decoder Heap ByteStream Signature SignatureCorrect SignatureParse Resources.
From S2P Require Import Operand OperandCorrect OperandFields OperandParser.
From S2P Require Import Instruction InstructionCorrect InstructionProgram.

#[local] Set Warnings "-register-all".

(** * The program of a chunk is unique *)

Lemma run_nil_inv bytes base total ci i l ie :
  run bytes base total ci total i l total ie -> l = [].
Proof. inversion 1; subst; [done|lia]. Qed.

Lemma program_of_fun bytes c l l' : program_of bytes c l -> program_of bytes c l' -> l = l'.
Proof.
  intros [_ _ _ [i Hl]] [_ _ _ [i' Hl']].
  destruct (run_through _ _ _ _ _ _ _ _ _ _ _ Hl Hl') as (L & -> & HL).
  apply run_nil_inv in HL as ->. by rewrite app_nil_r.
Qed.

(** A chunk of a parsed document, and its share of the instruction list. *)
Lemma executable_chunk_program `{U : UnityCommon} `{HU : !UnityCommonSpec U} `{DS : DigestStack} old bytes d c :
  dxbc_document_parse (Some old) (Some bytes) = Ret d ->
  c ∈ doc_chunks d -> chunk_kind c = DXBC_DOCUMENT_CHUNK_EXECUTABLE ->
  (0 <= chunk_offset c /\ 0 <= chunk_payload_size c /\
   chunk_offset c + 8 + chunk_payload_size c <= size bytes < 2 ^ 32) /\
  program_of bytes c
    (filter (fun ins => ins_chunk_index ins = chunk_table_index c) (doc_instructions d)).
Proof.
  intros Hd Hc Hk. destruct (parse_Ret _ _ _ Hd) as [Hrep Hv].
  rewrite (rep_chunks _ _ Hrep) in Hc. pose proof (rep_chunk_offsets _ Hv) as Hoff. split.
  - apply list_elem_of_lookup_1 in Hc as [i Hc].
    destruct (table_chunk _ (container_header _ Hv) (container_table _ Hv) _ _ Hc)
      as (Heq & ? & ? & [_ _ _ Hend]).
    assert (chunk_end c = chunk_offset c + (8 + chunk_payload_size c)) by (by rewrite Heq).
    pose proof (valid_header_size bytes (container_header _ Hv)). lia.
  - eapply programs_filter; [by apply rep_programs|done|apply chunks_of_indices|done|done].
Qed.

(** * Lookup in a table *)

Lemma find_in_table {E} t els uav r :
  table_ok (table_of t uav) els -> 0 <= r ->
  exists o, dxbc_find_resource_declaration (E:=E) (Some t) r uav = Ret o /\
    (is_Some (o ≫= fun i => els !! Z.to_nat i) <-> r ∈ table_registers uav t).
Proof.
  intros Ht Hr. destruct (find_resource_spec (E:=E) t els r uav Ht Hr) as (o & Ho & Hd).
  exists o. split; [done|]. by rewrite Hd, (table_registers_dom _ _ _ Ht), elem_of_dom.
Qed.

Lemma zero_container_ok : container_ok zero_container [].
Proof.
  split; try done.
  - intros uav. exists []. split; [|done]. destruct uav; split; cbn; try done; unfold INT_MAX; try lia; constructor.
Qed.

Lemma free_news_ok {E} (news : list DXBCInstruction) (live : ledger) :
  free_operands (E:=E) (news ≫= di_operands) (live ⊎ all_blocks news) = Ret live.
Proof.
  apply free_operands_ok. f_equal. unfold all_blocks, instruction_blocks.
  induction news as [|i news IH]; [done|]. cbn [fmap list_fmap foldr mbind list_bind].
  rewrite fmap_app, blocks_app. by f_equal.
Qed.

Section properties.
Context `{U : UnityCommon} {HU : UnityCommonSpec U} `{DS : DigestStack}.
Context `{S : ByteStreamOps} {HS : ByteStreamSpec S}.

(** C18: on an executable chunk of a container the lossless document parser
    accepts, the instructions [parse_shader_logic] appends are, continuation
    rows of an immediate constant buffer apart, that document's instructions of
    the chunk, one for one: same offset, size, opcode, token and index; and the
    program type it records is the stage the document reports. *)
Theorem parse_shader_logic_matches_document old bytes d c st insts0 st' :
  dxbc_document_parse (Some old) (Some bytes) = Ret d ->
  c ∈ doc_chunks d -> chunk_kind c = DXBC_DOCUMENT_CHUNK_EXECUTABLE ->
  stream_at (sh_stream st) bytes (chunk_offset c + 8) ->
  container_ok (sh_container st) insts0 ->
  parse_shader_logic (chunk_offset c + 8 + chunk_payload_size c) st = Ret st' ->
  dc_program_type (sh_container st') = Z.shiftr (word bytes (chunk_offset c + 8)) 16 /\
  stage_reports bytes c = [] /\
  exists news,
    default [] (dc_instructions (sh_container st')) = insts0 ++ news /\
    Forall2 (agrees bytes)
      (filter (fun ins => ins_chunk_index ins = chunk_table_index c) (doc_instructions d))
      (filter is_instruction news).
Proof.
  intros Hd Hc Hk Hs Hok Hst'. destruct (executable_chunk_program _ _ _ _ Hd Hc Hk) as [(Ho & Hp & He & Hsz) Hprog].
  pose proof (outcome_Ret_inv _ _ _ _ (parse_shader_logic_spec bytes c st insts0 Ho Hp He Hsz Hs Hok) Hst')
    as (l & news & [Hl Hag (Hva & Htype & _) Hc' _ _ _ _]).
  split; [done|]. split; [|exists news; split; [apply Hc'|by rewrite (program_of_fun _ _ _ _ Hprog Hl)]].
  destruct Hl as [_ ? _ _]. apply version_reports; [lia|done].
Qed.

(** C28: whatever the bytes of a chunk and the answers of the allocator,
    [parse_shader_logic] has no undefined behaviour; whether it accepts or
    rejects, the instructions it leaves behind are well formed, and freeing
    their operands gives back exactly the blocks that were live before. *)
Theorem parse_shader_logic_owns bytes start next_pos st insts0 :
  8 <= start <= next_pos -> size bytes < 2 ^ 32 -> stream_at (sh_stream st) bytes start ->
  container_ok (sh_container st) insts0 ->
  let owns st' := exists news,
    container_ok (sh_container st') (insts0 ++ news) /\
    free_operands (E:=unit) (news ≫= di_operands) (sh_live st') = Ret (sh_live st) in
  outcome (parse_shader_logic next_pos st) owns owns.
Proof.
  intros Hstart Hsz Hs Hok owns.
  assert (Hrej : forall news st', container_ok (sh_container st') (insts0 ++ news) ->
    sh_live st' = sh_live st ⊎ all_blocks news -> owns st').
  { intros news st' H1 H2. exists news. split; [done|]. rewrite H2. apply free_news_ok. }
  destruct (Z.le_gt_cases next_pos (size bytes)) as [Hle|Hgt].
  - set (c := {| chunk_fourcc := []; chunk_kind := DXBC_DOCUMENT_CHUNK_EXECUTABLE; chunk_table_index := 0;
      chunk_offset := start - 8; chunk_payload_size := next_pos - start; chunk_raw_size := 0;
      chunk_raw_bytes := []; chunk_payload_bytes := [] |}).
    assert (Hpos : chunk_offset c + 8 = start) by (cbn; lia).
    assert (Hnext : chunk_offset c + 8 + chunk_payload_size c = next_pos) by (cbn; lia).
    rewrite <- Hnext.
    eapply outcome_mono; [apply (parse_shader_logic_spec bytes c st insts0)| |].
    + cbn. lia.
    + cbn. lia.
    + rewrite Hnext. lia.
    + done.
    + by rewrite Hpos.
    + done.
    + intros st' (l & news & [_ _ _ Hc' Hl' _ _ _]). by apply (Hrej news).
    + intros st' (news & Hc' & Hl' & _). by apply (Hrej news).
  - unfold parse_shader_logic. rewrite (at_data _ _ _ Hs), (proj2 (Z.ltb_lt _ _)) by lia.
    apply (Hrej []); [by rewrite app_nil_r|]. symmetry. apply (right_id_L ∅ (⊎)).
Qed.

(** C32: after a successful [parse_shader_logic] on a container, the declaration
    tables hold the registers they held and those the appended instructions
    declare, an SRV by opcodes 88, 161 and 162 and a UAV by 156 to 158, and no
    other; every entry is marked declared, and every stored instruction has at
    most eight sound operands. *)
Theorem parse_shader_logic_declares old bytes d c st insts0 st' :
  dxbc_document_parse (Some old) (Some bytes) = Ret d ->
  c ∈ doc_chunks d -> chunk_kind c = DXBC_DOCUMENT_CHUNK_EXECUTABLE ->
  stream_at (sh_stream st) bytes (chunk_offset c + 8) ->
  container_ok (sh_container st) insts0 ->
  parse_shader_logic (chunk_offset c + 8 + chunk_payload_size c) st = Ret st' ->
  exists news,
    default [] (dc_instructions (sh_container st')) = insts0 ++ news /\
    Forall sound_instruction news /\
    forall uav r, 0 <= r -> exists o els,
      dxbc_find_resource_declaration (E:=unit) (Some (dc_tables (sh_container st'))) r uav = Ret o /\
      table_ok (table_of (dc_tables (sh_container st')) uav) els /\
      Forall (fun e => decl_declared e = true) els /\
      (is_Some (o ≫= fun i => els !! Z.to_nat i) <->
       r ∈ table_registers uav (dc_tables (sh_container st)) \/ r ∈ declared_registers uav news).
Proof.
  intros Hd Hc Hk Hs Hok Hst'. destruct (executable_chunk_program _ _ _ _ Hd Hc Hk) as [(Ho & Hp & He & Hsz) Hprog].
  pose proof (outcome_Ret_inv _ _ _ _ (parse_shader_logic_spec bytes c st insts0 Ho Hp He Hsz Hs Hok) Hst')
    as (l & news & [_ _ _ Hc' _ Htab _ _]).
  exists news. split; [apply Hc'|]. split.
  { pose proof (co_sound _ _ Hc') as Hsound. by apply list.Forall_app in Hsound as [_ ?]. }
  intros uav r Hr. destruct (co_tables _ _ Hc' uav) as (els & Ht & Hels).
  destruct (find_in_table (E:=unit) _ _ _ _ Ht Hr) as (o & Hfind & Hin). exists o, els.
  split; [done|]. split; [done|]. split.
  - eapply list.Forall_impl; [exact Hels|]. by intros e [].
  - by rewrite Hin, Htab, elem_of_union.
Qed.
End properties.

(** * Witnesses *)

#[local] Existing Instance unity_common_ref.
#[local] Existing Instance unity_common_ref_spec.
#[local] Existing Instance byte_stream_ref.
#[local] Existing Instance byte_stream_ref_spec.
#[local] Existing Instance sample_stack.

(** ps_5_0: [dcl_resource_texture2d t3], [dcl_temps 1], [add r0.x, r1.x, l(1.0)],
    [nop], [ret]. *)
Definition pixel_program : list Z :=
  [0x00000050; 17; 0x04001858; 0x00107000; 3; 0x5555; 0x02000068; 1; 0x07000000; 0x00100012; 0;
   0x0010000a; 1; 0x00004001; 0x3f800000; 0x0100003a; 0x0100003e].

Definition pixel_bytes : list byte := Eval vm_compute in program_container pixel_program.
Definition pixel_document : DXBCDocument := Eval vm_compute in parse_bytes pixel_bytes.

Lemma pixel_parse :
  dxbc_document_parse (Some dxbc_document_init) (Some pixel_bytes) = Ret pixel_document.
Proof. vm_compute. reflexivity. Qed.

Definition pixel_chunk : DXBCDocumentChunk := Eval vm_compute in chunk_at pixel_bytes 0.

Definition pixel_state : shader_state :=
  {| sh_stream := stream_seek (stream_set_endian (stream_init pixel_bytes) false) 48;
     sh_raw_index := 0; sh_container := zero_container; sh_live := ∅ |}.

Lemma pixel_state_at : stream_at (sh_stream pixel_state) pixel_bytes 48.
Proof. by split. Qed.

Definition pixel_parsed : shader_state :=
  match parse_shader_logic 116 pixel_state with Ret st => st | _ => pixel_state end.

Lemma pixel_logic : parse_shader_logic 116 pixel_state = Ret pixel_parsed.
Proof.
  unfold pixel_parsed. destruct (parse_shader_logic 116 pixel_state) as [st|st|] eqn:Heq; [done| |];
    exfalso; apply (f_equal (fun r => match r with Ret _ => true | _ => false end)) in Heq;
    vm_compute in Heq; discriminate Heq.
Qed.

Lemma parse_shader_logic_matches_document_witness :
  dc_program_type (sh_container pixel_parsed) = 0 /\
  exists news,
    default [] (dc_instructions (sh_container pixel_parsed)) = news /\
    Forall2 (agrees pixel_bytes) (doc_instructions pixel_document) (filter is_instruction news).
Proof.
  destruct (parse_shader_logic_matches_document dxbc_document_init pixel_bytes pixel_document pixel_chunk
    pixel_state [] pixel_parsed pixel_parse) as (Htype & _ & news & Hn & Hag).
  - by left.
  - reflexivity.
  - exact pixel_state_at.
  - exact zero_container_ok.
  - exact pixel_logic.
  - split; [rewrite Htype; reflexivity|]. exists news. split; [exact Hn|exact Hag].
Defined.

Lemma parse_shader_logic_owns_witness :
  exists news, free_operands (E:=unit) (news ≫= di_operands) (sh_live pixel_parsed) = Ret ∅.
Proof.
  assert (Hsz : size pixel_bytes < 2 ^ 32) by (vm_compute; reflexivity).
  pose proof (parse_shader_logic_owns pixel_bytes 48 116 pixel_state [] ltac:(lia) Hsz
    pixel_state_at zero_container_ok) as Hown.
  rewrite pixel_logic in Hown. destruct Hown as (news & _ & Hfree). exists news. exact Hfree.
Defined.

Lemma parse_shader_logic_declares_witness :
  exists o els, dxbc_find_resource_declaration (E:=unit)
      (Some (dc_tables (sh_container pixel_parsed))) 3 false = Ret o /\
    table_ok (table_of (dc_tables (sh_container pixel_parsed)) false) els.
Proof.
  destruct (parse_shader_logic_declares dxbc_document_init pixel_bytes pixel_document pixel_chunk
    pixel_state [] pixel_parsed pixel_parse) as (news & _ & _ & Hfind).
  - by left.
  - reflexivity.
  - exact pixel_state_at.
  - exact zero_container_ok.
  - exact pixel_logic.
  - destruct (Hfind false 3 ltac:(lia)) as (o & els & Ho & Ht & _). exists o, els. split; [exact Ho|exact Ht].
Defined.
