(* ===== verification/Parser.v ===== *)
(** The semantic parser: [dxbc_parse] and [dxbc_free] of
    [src/dxbc/dxbc_parser.c], over the container finder, the hash check, the
    signature parser and the instruction parser of the other files.

    The blocks of the container's arrays have no other owner than their fields,
    so freeing them is left out; operand blocks are in the ledger and the long
    names of signature elements in the heap, and those are freed as the code
    frees them. *)

From stdpp Require Import gmap gmultiset.
From S2P Require Import Prelude UnityCommon Hash ShaderStage Document Container Heap ByteStream.
From S2P Require Import Signature Resources Operand Instruction.

#[local] Set Warnings "-register-all".

Definition CHUNK_INFO_SIZE : Z := 16.

(** What the container and its owned memory are at each point, failure included. *)
Record container_state := {
  cs_container : DXBCContainer;
  cs_heap : heap;
  cs_live : ledger;
}.

(** * Freeing *)

Section free.
Context `{U : UnityCommon} {E : Type}.

(** The operands of the first [count] instructions *)
Definition free_instructions (instructions : list DXBCInstruction) (count : Z) (live : ledger)
    : res E ledger :=
  for_loop (Z.to_nat count) 0 (fun i live =>
    match instructions !! Z.to_nat i with
    | None => Undef
    | Some inst => free_operands (di_operands inst) live
    end) live.

Definition free_signature (h : heap) (l : signature_list) : res E heap :=
  '(h, _) ← free_signature_list_elements h (sl_elements l) (sl_count l); Ret h.

Definition dxbc_free (st : container_state) : res E container_state :=
  let c := cs_container st in
  live ← match dc_instructions c with
         | None => Ret (cs_live st)
         | Some instructions => free_instructions instructions (dc_instruction_count c) (cs_live st)
         end;
  h ← free_signature (cs_heap st) (dc_input_signature c);
  h ← free_signature h (dc_output_signature c);
  h ← free_signature h (dc_patch_constant_signature c);
  Ret {| cs_container := zero_container; cs_heap := h; cs_live := live |}.
End free.

(** * Parsing *)

Section parse.
Context `{U : UnityCommon, DS : DigestStack, M : FreshMemory, L : LibcMalloc, S : ByteStreamOps}.

(** The header: total size and chunk count. *)
Definition parse_container_header (stream : ByteStream) (view_size : Z)
    : res unit (ByteStream * Z * Z) :=
  '(magic, stream) ← read_uint32 stream tt;
  if negb (magic =? 0x43425844) then Fail tt else
  match stream_read_bytes stream 16 with
  | None => Fail tt
  | Some (_, stream) =>
      '(version, stream) ← read_uint32 stream tt;
      if negb (version =? 1) then Fail tt else
      '(total_size, stream) ← read_uint32 stream tt;
      if negb (total_size =? view_size) || (total_size <? DXBC_HEADER_SIZE) then Fail tt else
      '(chunk_count, stream) ← read_uint32 stream tt;
      if (u32 (total_size - DXBC_HEADER_SIZE) / 4 <? chunk_count) || (INT_MAX <? chunk_count)
      then Fail tt else Ret (stream, total_size, chunk_count)
  end.

(** The chunk offsets, each after the table. *)
Definition read_offset (chunk_count : Z) (_ : Z) (st : ByteStream * list Z)
    : res unit (ByteStream * list Z) :=
  let '(stream, offsets) := st in
  '(offset, stream) ← read_uint32 stream tt;
  if offset <? u64 (DXBC_HEADER_SIZE + chunk_count * 4) then Fail tt
  else Ret (stream, offsets ++ [offset]).

Definition read_offsets (stream : ByteStream) (chunk_count : Z) : res unit (ByteStream * list Z) :=
  for_loop (Z.to_nat chunk_count) 0 (read_offset chunk_count) (stream, []).

Definition allocate_chunks (c : DXBCContainer) (chunk_count : Z) : option DXBCContainer :=
  if negb (0 <? chunk_count) then Some c
  else if dxbc_size_multiply_overflows chunk_count CHUNK_INFO_SIZE then None
  else if mem_alloc (u64 (chunk_count * CHUNK_INFO_SIZE))
  then Some (c <| dc_chunks := Some [] |> <| dc_chunk_alloc := chunk_count |>) else None.

(** [container->chunks[container->chunk_count++] = info]; the count is the
    length of the list. *)
Definition append_chunk_info {E} (c : DXBCContainer) (info : DXBCChunkInfo) : res E DXBCContainer :=
  match dc_chunks c with
  | Some chunks =>
      if Z.of_nat (length chunks) <? dc_chunk_alloc c
      then Ret (c <| dc_chunks := Some (chunks ++ [info]) |>) else Undef
  | None => Undef
  end.

(** The signature of a role, and the role of a signature chunk. *)
Definition signature_of (role : Z) (c : DXBCContainer) : signature_list :=
  if role =? DXBC_SIGNATURE_ROLE_INPUT then dc_input_signature c
  else if role =? DXBC_SIGNATURE_ROLE_OUTPUT then dc_output_signature c
  else dc_patch_constant_signature c.

Definition with_signature (role : Z) (c : DXBCContainer) (l : signature_list) : DXBCContainer :=
  if role =? DXBC_SIGNATURE_ROLE_INPUT then c <| dc_input_signature := l |>
  else if role =? DXBC_SIGNATURE_ROLE_OUTPUT then c <| dc_output_signature := l |>
  else c <| dc_patch_constant_signature := l |>.

Definition signature_chunk_role (chunk_name : list byte) : option Z :=
  if name_is chunk_name "ISGN" || name_is chunk_name "ISG1" then Some DXBC_SIGNATURE_ROLE_INPUT
  else if name_is chunk_name "OSGN" || name_is chunk_name "OSG1" || name_is chunk_name "OSG5"
  then Some DXBC_SIGNATURE_ROLE_OUTPUT
  else if name_is chunk_name "PCSG" || name_is chunk_name "PSG1"
  then Some DXBC_SIGNATURE_ROLE_PATCH_CONSTANT
  else None.

Definition read_chunk_header_at (offsets : list Z) (total_size i : Z)
    (st : ByteStream * container_state)
    : res container_state (Z * (ByteStream * list byte * Z * Z * Z)) :=
  match offsets !! Z.to_nat i with
  | None => Undef
  | Some offset =>
      header ← or_fail (read_chunk_header st.1 offset total_size) st.2;
      Ret (offset, header)
  end.

(** The first loop: chunk list and signatures. *)
Definition parse_chunk (offsets : list Z) (total_size i : Z) (st : ByteStream * container_state)
    : res container_state (ByteStream * container_state) :=
  '(offset, (stream, chunk_name, chunk_size, chunk_start, chunk_end))
    ← read_chunk_header_at offsets total_size i st;
  let cs := st.2 in
  c ← append_chunk_info (cs_container cs)
        {| ci_name := chunk_name ++ [Byte.x00]; ci_size := chunk_size; ci_offset := offset |};
  match signature_chunk_role chunk_name with
  | None => Ret (stream, {| cs_container := c; cs_heap := cs_heap cs; cs_live := cs_live cs |})
  | Some role =>
      let after (ss : signature_state) :=
        {| cs_container := with_signature role c (ss_list ss); cs_heap := ss_heap ss;
           cs_live := cs_live cs |} in
      match parse_signature stream chunk_start chunk_end chunk_name
              {| ss_heap := cs_heap cs; ss_list := signature_of role c |} with
      | Ret (stream, ss) => Ret (stream, after ss)
      | Fail ss => Fail (after ss)
      | Undef => Undef
      end
  end.

(** The second loop: the programs. *)
Definition parse_program (offsets : list Z) (total_size i : Z) (st : ByteStream * container_state)
    : res container_state (ByteStream * container_state) :=
  '(_, (stream, chunk_name, _, _, chunk_end)) ← read_chunk_header_at offsets total_size i st;
  let cs := st.2 in
  if name_is chunk_name "SHEX" || name_is chunk_name "SHDR" then
    let after (sh : shader_state) :=
      {| cs_container := sh_container sh; cs_heap := cs_heap cs; cs_live := sh_live sh |} in
    match parse_shader_logic chunk_end
            {| sh_stream := stream; sh_raw_index := 0; sh_container := cs_container cs;
               sh_live := cs_live cs |} with
    | Ret sh => Ret (sh_stream sh, after sh)
    | Fail sh => Fail (after sh)
    | Undef => Undef
    end
  else Ret (stream, cs).

(** From the offset table to the label [cleanup]. *)
Definition parse_chunks (stream : ByteStream) (total_size chunk_count : Z) (cs : container_state)
    : res container_state container_state :=
  '(stream, offsets) ← or_fail (read_offsets stream chunk_count) cs;
  match allocate_chunks (cs_container cs) chunk_count with
  | None => Fail cs
  | Some c =>
      let cs := {| cs_container := c; cs_heap := cs_heap cs; cs_live := cs_live cs |} in
      st ← for_loop (Z.to_nat chunk_count) 0 (parse_chunk offsets total_size) (stream, cs);
      st ← for_loop (Z.to_nat chunk_count) 0 (parse_program offsets total_size) st;
      Ret st.2
  end.

(** The label [cleanup] with [success] false. *)
Definition cleanup {E} (cs : container_state) : res E (bool * container_state) :=
  cs ← dxbc_free cs; Ret (false, cs).

Definition invalid_container : DXBCContainer :=
  zero_container <| dc_program_type := DXBC_PROGRAM_TYPE_INVALID |>.

(** The bytes of a view *)
Definition view_bytes {E} (data : option (list byte)) (v : DXBCContainerView)
    : res E (option (list byte)) :=
  match data, view_data v with
  | Some bytes, Some off => bytes ← view bytes off (view_size v); Ret (Some bytes)
  | _, None => Ret None
  | None, Some _ => Undef
  end.

(** [container] is not NULL; its old contents are overwritten. *)
Definition dxbc_parse {E} (data : option (list byte)) (size : Z) (h : heap) (live : ledger)
    : res E (bool * container_state) :=
  let cs := {| cs_container := invalid_container; cs_heap := h; cs_live := live |} in
  '(view_valid, v) ← dxbc_container_view_first data size (Some null_view);
  if negb view_valid then Ret (false, cs) else
  let v := default null_view v in
  bytes ← view_bytes data v;
  hash_valid ← dxbc_verify_hash bytes;
  if negb hash_valid then Ret (false, cs) else
  let stream := stream_set_endian (stream_init (default [] bytes)) false in
  header ← attempt (parse_container_header stream (view_size v));
  match header with
  | None => Ret (false, cs)
  | Some (stream, total_size, chunk_count) =>
      if (0 <? chunk_count) && negb (libc_malloc (chunk_count * 4)) then Ret (false, cs) else
      match parse_chunks stream total_size chunk_count cs with
      | Undef => Undef
      | Fail cs => cleanup cs
      | Ret cs =>
          if dc_has_executable_program (cs_container cs)
          then Ret (true, {| cs_container := (cs_container cs) <| dc_parsed_signature_authority := true |>;
                             cs_heap := cs_heap cs; cs_live := cs_live cs |})
          else cleanup cs
      end
  end.
End parse.
