(* ===== verification/ParserCorrect.v ===== *)
(** What the semantic parser maintains from one chunk to the next: the chunk
    list, the three signatures with the names they own, the programs with the
    operands they own; and what [dxbc_free] gives back. *)

From stdpp Require Import gmap gmultiset.
From S2P Require Import Prelude UnityCommon Hash ShaderStage Document DocumentFormat RecordTable.
From S2P Require Import Container Heap ByteStream Signature SignatureCorrect SignatureParse Resources.
From S2P Require Import Operand OperandCorrect Instruction InstructionCorrect InstructionProgram Parser.

#[local] Set Warnings "-register-all".

(** * Names owned by several arrays *)

(** A grant commutes with the grants of a whole array. *)
Lemma owns_grants h els rows h0 el s h' :
  owns h els rows h0 -> grants h el s h' ->
  exists h0', grants h0 el s h0' /\ owns h' els rows h0'.
Proof.
  intros Ho. revert h'. induction Ho as [h|h h1 h0 e els t rows Hg Ho IH]; intros h' Hel.
  - exists h'. split; [done|constructor].
  - destruct (grants_swap _ _ _ _ _ _ _ Hg Hel) as (h1' & Hel' & Hg').
    destruct (IH _ Hel') as (h0' & H0 & Ho'). exists h0'. split; [done|]. by econstructor.
Qed.

Lemma owns_grants_under h els rows h1 el s h0 :
  owns h els rows h1 -> grants h0 el s h1 ->
  exists h', grants h' el s h /\ owns h' els rows h0.
Proof.
  intros Ho. revert h0. induction Ho as [h|h h1 h2 e els t rows Hg Ho IH]; intros h0 Hel.
  - exists h0. split; [done|constructor].
  - destruct (IH _ Hel) as (h1' & Hel1 & Ho1).
    destruct (grants_swap _ _ _ _ _ _ _ Hel1 Hg) as (h' & Hg' & Hel').
    exists h'. split; [done|]. by econstructor.
Qed.

Lemma owns_swap h a ra h1 b rb h0 :
  owns h a ra h1 -> owns h1 b rb h0 ->
  exists h1', owns h b rb h1' /\ owns h1' a ra h0.
Proof.
  intros Ha Hb. revert h a ra Ha. induction Hb as [h1|h1 h2 h0 e b s rb Hg Hb IH]; intros h a ra Ha.
  - exists h. split; [constructor|done].
  - destruct (owns_grants_under _ _ _ _ _ _ _ Ha Hg) as (h' & Hg' & Ha').
    destruct (IH _ _ _ Ha') as (h1' & Hb' & Ha''). exists h1'. split; [|done]. by econstructor.
Qed.

Definition roles : list Z :=
  [DXBC_SIGNATURE_ROLE_INPUT; DXBC_SIGNATURE_ROLE_OUTPUT; DXBC_SIGNATURE_ROLE_PATCH_CONSTANT].

Lemma role_cases role :
  role ∈ roles -> role = DXBC_SIGNATURE_ROLE_INPUT \/ role = DXBC_SIGNATURE_ROLE_OUTPUT \/
                  role = DXBC_SIGNATURE_ROLE_PATCH_CONSTANT.
Proof.
  unfold roles. rewrite !elem_of_cons. intros [?|[?|[?|Hn]]]; auto. by apply elem_of_nil in Hn.
Qed.

(** The arrays of the roles [rs] own, one after the other, what [h] has over [h0]. *)
Fixpoint stacked (rs : list Z) (els : Z -> list DXBCSignatureElement)
    (rows : Z -> list signature_row) (h h0 : heap) : Prop :=
  match rs with
  | [] => h = h0
  | role :: rs => exists h1, owns h (els role) (rows role) h1 /\ stacked rs els rows h1 h0
  end.

(** One array replaced. *)
Definition update {A} (role : Z) (v : A) (f : Z -> A) (r : Z) : A := if r =? role then v else f r.

Lemma update_same {A} role (v : A) f : update role v f role = v.
Proof. unfold update. by rewrite Z.eqb_refl. Qed.
Lemma update_other {A} role (v : A) f r : r <> role -> update role v f r = f r.
Proof. intros Hr. unfold update. by rewrite (proj2 (Z.eqb_neq _ _)). Qed.

Lemma stacked_ext rs els els' rows rows' h h0 :
  (forall r, r ∈ rs -> els r = els' r /\ rows r = rows' r) ->
  stacked rs els rows h h0 -> stacked rs els' rows' h h0.
Proof.
  revert h. induction rs as [|r rs IH]; intros h Heq; [done|]. cbn. intros (h1 & Ho & Hs).
  destruct (Heq r) as [<- <-]; [by left|]. exists h1. split; [done|]. apply IH; [|done].
  intros r' Hr'. apply Heq. by right.
Qed.

(** Any array may be taken for the last one filled. *)
Lemma stacked_on_top rs els rows h h0 role :
  NoDup rs -> role ∈ rs -> stacked rs els rows h h0 ->
  exists h1, owns h (els role) (rows role) h1 /\
    forall els1 rows1 h', owns h' els1 rows1 h1 ->
      stacked rs (update role els1 els) (update role rows1 rows) h' h0.
Proof.
  intros Hnd Hin. revert h. induction Hnd as [|r rs Hr Hnd IH]; intros h; [by apply elem_of_nil in Hin|].
  intros (h1 & Ho & Hs). destruct (decide (role = r)) as [->|Hne].
  - exists h1. split; [done|]. intros els1 rows1 h' Ho'. exists h1. rewrite !update_same. split; [done|].
    eapply stacked_ext; [|exact Hs]. intros r' Hr'. rewrite !update_other by congruence. done.
  - apply elem_of_cons in Hin as [?|Hin]; [done|].
    destruct (IH Hin h1 Hs) as (h2 & Ho2 & Hup).
    destruct (owns_swap _ _ _ _ _ _ _ Ho Ho2) as (h3 & Htop & Hrest). exists h3. split; [done|].
    intros els1 rows1 h' Ho'. destruct (owns_swap _ _ _ _ _ _ _ Ho' Hrest) as (h4 & Hr4 & Ho4).
    exists h4. rewrite !update_other by done. split; [done|]. by apply Hup.
Qed.

Lemma roles_NoDup : NoDup roles.
Proof. apply (bool_decide_unpack _). vm_compute. exact I. Qed.

(** * The container *)

(** The instructions and names of a container own the rest of the memory. *)
Record sound_container (h0 : heap) (base : ledger) (insts : list DXBCInstruction)
    (els : Z -> list DXBCSignatureElement) (rows : Z -> list signature_row)
    (cs : container_state) : Prop := {
  sc_program : container_ok (cs_container cs) insts;
  sc_live : cs_live cs = base ⊎ all_blocks insts;
  sc_lists role : role ∈ roles -> list_ok (signature_of role (cs_container cs)) (els role);
  sc_names : stacked roles els rows (cs_heap cs) h0;
}.

Section free.
Context {E : Type}.

Lemma free_instructions_loop (before insts : list DXBCInstruction) (live : ledger) :
  for_loop (E:=E) (length insts) (Z.of_nat (length before)) (fun i live =>
    match (before ++ insts) !! Z.to_nat i with
    | None => Undef
    | Some inst => free_operands (di_operands inst) live
    end) (live ⊎ all_blocks insts) = Ret live.
Proof.
  revert before live. induction insts as [|i insts IH]; intros before live; cbn [length for_loop].
  - f_equal. apply (right_id_L ∅ (⊎)).
  - rewrite Nat2Z.id, list_lookup_middle by done.
    rewrite (free_operands_ok _ (live ⊎ all_blocks insts)).
    + mstep. specialize (IH (before ++ [i]) live). rewrite <- app_assoc, length_app in IH.
      cbn [app length] in IH. replace (Z.of_nat (length before) + 1)
        with (Z.of_nat (length before + 1)) by lia. exact IH.
    + change (all_blocks (i :: insts)) with (instruction_blocks i ⊎ all_blocks insts).
      rewrite (comm_L (⊎) (instruction_blocks i)). apply (assoc_L (⊎)).
Qed.

Lemma free_instructions_ok insts (live : ledger) :
  free_instructions (E:=E) insts (Z.of_nat (length insts)) (live ⊎ all_blocks insts) = Ret live.
Proof. unfold free_instructions. rewrite Nat2Z.id. exact (free_instructions_loop [] insts live). Qed.

Lemma free_signature_ok h l els rows h0 :
  list_ok l els -> owns h els rows h0 -> free_signature (E:=E) h l = Ret h0.
Proof.
  intros [He Hc _ _] Ho. unfold free_signature. rewrite Hc.
  destruct (sl_elements l) as [es|]; cbn in He; subst.
  - by rewrite (free_list_spec _ _ _ _ Ho).
  - inversion Ho; subst. done.
Qed.

(** [dxbc_free] gives back the names and the operands, and nothing else. *)
Lemma dxbc_free_ok h0 base insts els rows cs :
  sound_container h0 base insts els rows cs ->
  dxbc_free (E:=E) cs = Ret {| cs_container := zero_container; cs_heap := h0; cs_live := base |}.
Proof.
  intros [Hc Hl Hlists (h1 & H1 & h2 & H2 & h3 & H3 & <-)]. unfold dxbc_free.
  assert (Hi : match dc_instructions (cs_container cs) with
               | None => Ret (cs_live cs)
               | Some l => free_instructions l (dc_instruction_count (cs_container cs)) (cs_live cs)
               end = Ret (E:=E) base).
  { pose proof (co_instructions _ _ Hc) as Hi. rewrite Hl, (co_count _ _ Hc).
    destruct (dc_instructions (cs_container cs)) as [l|]; cbn in Hi; subst.
    - apply free_instructions_ok.
    - f_equal. apply (right_id_L ∅ (⊎)). }
  rewrite Hi. mstep.
  rewrite (free_signature_ok _ (dc_input_signature (cs_container cs)) _ _ h1 (Hlists _ ltac:(by left)) H1).
  mstep. rewrite (free_signature_ok _ (dc_output_signature (cs_container cs)) _ _ h2
    (Hlists _ ltac:(by right; left)) H2).
  mstep. by rewrite (free_signature_ok _ (dc_patch_constant_signature (cs_container cs)) _ _ h3
    (Hlists _ ltac:(by right; right; left)) H3).
Qed.
End free.

(** * What the chunks say *)

Definition chunk_info (c : DXBCDocumentChunk) : DXBCChunkInfo :=
  {| ci_name := chunk_fourcc c ++ [Byte.x00]; ci_size := chunk_payload_size c;
     ci_offset := chunk_offset c |}.

(** The rows of a signature: those of its chunks, in table order. *)
Inductive signature_rows (role : Z) : list DXBCDocumentChunk -> list signature_row -> Prop :=
| rows_none : signature_rows role [] []
| rows_other c cs rows :
    signature_chunk_role (chunk_fourcc c) <> Some role ->
    signature_rows role cs rows -> signature_rows role (c :: cs) rows
| rows_chunk c cs rows rows' :
    signature_chunk_role (chunk_fourcc c) = Some role ->
    signature_table (chunk_fourcc c) (chunk_payload_bytes c) rows ->
    signature_rows role cs rows' -> signature_rows role (c :: cs) (rows ++ rows').

Lemma rows_app role cs cs' rows rows' :
  signature_rows role cs rows -> signature_rows role cs' rows' ->
  signature_rows role (cs ++ cs') (rows ++ rows').
Proof.
  induction 1 as [|c cs rows Hr H IH|c cs r1 r2 Hr Ht H IH]; intros H'; cbn [app]; [done| |].
  - apply rows_other; [done|by apply IH].
  - rewrite <- app_assoc. apply rows_chunk; [done..|by apply IH].
Qed.

Lemma programs_app bytes cs cs' l l' r r' :
  programs_of bytes cs l r -> programs_of bytes cs' l' r' ->
  programs_of bytes (cs ++ cs') (l ++ l') (r ++ r').
Proof.
  induction 1 as [|c cs l r Hk H IH|c cs l1 l r Hk Hp H IH]; intros H'; cbn [app]; [done| |].
  - apply programs_other; [done|by apply IH].
  - rewrite <- !app_assoc. apply programs_executable; [done..|by apply IH].
Qed.

Definition is_executable (c : DXBCDocumentChunk) : Prop := chunk_kind c = DXBC_DOCUMENT_CHUNK_EXECUTABLE.

Lemma classify_executable name :
  classify_chunk name = DXBC_DOCUMENT_CHUNK_EXECUTABLE <->
  name_is name "SHEX" || name_is name "SHDR" = true.
Proof.
  unfold classify_chunk. rewrite (orb_comm (name_is name "SHEX")).
  change (fourcc_equal name "SHDR") with (name_is name "SHDR").
  change (fourcc_equal name "SHEX") with (name_is name "SHEX").
  destruct (name_is name "SHDR" || name_is name "SHEX"); [done|].
  repeat match goal with |- context [if ?b then _ else _] => destruct b end; done.
Qed.

(** ** Chunk headers *)

Section chunks.
Context `{U : UnityCommon} {HU : UnityCommonSpec U} `{M : FreshMemory}.
Context `{S : ByteStreamOps} {HS : ByteStreamSpec S}.
Variable D : list byte.
Hypothesis Hsize : size D < 2 ^ 32.

Definition somewhere (s : ByteStream) : Prop := exists p, stream_at s D p.

Lemma read_chunk_header_spec s i (c := chunk_at D i) :
  somewhere s -> in_u32 (chunk_offset c) ->
  outcome (read_chunk_header s (chunk_offset c) (size D))
    (fun '(s', name, n, start, finish) =>
       name = chunk_fourcc c /\ n = chunk_payload_size c /\ start = chunk_offset c + 8 /\
       finish = start + n /\ stream_at s' D start /\ in_u32 n /\
       chunk_offset c mod 4 = 0 /\ finish <= size D)
    (fun _ => True).
Proof.
  intros [p Hs] Ho. unfold in_u32 in Ho. unfold read_chunk_header, range_within.
  apply outcome_if; intros Hc; [done|]. apply orb_false_iff in Hc as [Hal Hin]. bools.
  rewrite u64_small in * by lia.
  pose proof (stream_at_seek _ _ _ (chunk_offset c) Hs) as [He Hd Hp].
  rewrite stream_read_bytes_spec, Hd, Hp by lia. rewrite (proj2 (Z.leb_le _ _)) by lia.
  set (s1 := stream_seek (stream_seek s (chunk_offset c)) (chunk_offset c + 4)).
  assert (Hs1 : stream_at s1 D (chunk_offset c + 4)) by by repeat eapply stream_at_seek.
  rewrite (read_at _ D (chunk_offset c + 4)) by (done || lia). mstep.
  pose proof (stream_at_seek _ _ _ (chunk_offset c + 4 + 4) Hs1) as Hs2.
  rewrite (at_position _ _ _ Hs2).
  assert (Hn : in_u32 (word D (chunk_offset c + 4))) by (apply le32_range; lia).
  change (word D (chunk_offset c + 4)) with (chunk_payload_size c) in *.
  unfold in_u32 in Hn.
  apply outcome_if; intros Hr; [done|]. bools. rewrite u64_small in * by lia.
  cbn [outcome]. split; [done|]. split; [done|]. split; [lia|]. split; [lia|].
  split; [by replace (chunk_offset c + 8) with (chunk_offset c + 4 + 4) by lia|].
  split; [done|]. split; [|lia].
  change 3 with (Z.ones 2) in Hal. by rewrite Z.land_ones in Hal by lia.
Qed.

(** ** The chunk table *)

#[local] Abbreviation chunks := (chunks_of D).
#[local] Abbreviation count := (chunk_count_of D).

Lemma take_chunks i :
  0 <= i < count -> take (Z.to_nat (i + 1)) chunks = take (Z.to_nat i) chunks ++ [chunk_at D i].
Proof.
  intros Hi. replace (Z.to_nat (i + 1)) with (Datatypes.S (Z.to_nat i)) by lia.
  apply take_S_r. unfold chunks_of. rewrite chunks_from_lookup by lia. do 2 f_equal. lia.
Qed.

Lemma take_all_chunks : take (Z.to_nat count) chunks = chunks.
Proof. apply take_ge. unfold chunks_of. by rewrite length_chunks_from. Qed.

Definition offset_ok (o : Z) : Prop := in_u32 o /\ table_end_of D <= o.

Lemma read_offsets_spec s :
  valid_header D -> stream_at s D 32 ->
  outcome (read_offsets s count)
    (fun '(s', offsets) => somewhere s' /\ offsets = chunk_offset <$> chunks /\ Forall offset_ok offsets)
    (fun _ => True).
Proof.
  intros Hv Hs. pose proof (header_table _ Hv) as Htab. pose proof (header_size _ Hv) as H32.
  assert (Hcount : in_u32 count) by (apply le32_range; lia).
  unfold table_end_of, in_u32 in *. unfold read_offsets.
  eapply outcome_mono; [apply (outcome_for (fun j (st : ByteStream * list Z) =>
    stream_at st.1 D (32 + 4 * j) /\ st.2 = chunk_offset <$> take (Z.to_nat j) chunks /\
    Forall offset_ok st.2) (fun _ => True))| |done].
  - split; [done|]. split; [done|constructor].
  - intros j [s1 offs] Hj (Hs1 & Ho & Hok). cbn [fst snd] in *. unfold read_offset.
    rewrite (read_at _ D (32 + 4 * j)) by (done || lia). mstep.
    assert (Hw : in_u32 (word D (32 + 4 * j))) by (apply le32_range; lia).
    unfold DXBC_HEADER_SIZE. rewrite u64_small by lia.
    apply outcome_if; intros Hlt; [done|]. bools. cbn [outcome fst snd].
    split; [replace (32 + 4 * (j + 1)) with (32 + 4 * j + 4) by lia; by eapply stream_at_seek|].
    split; [rewrite take_chunks, fmap_app, Ho by lia; done|].
    apply list.Forall_app. split; [done|]. apply list.Forall_singleton. split; [done|].
    unfold table_end_of. lia.
  - intros [s1 offs] (Hs1 & Ho & Hok). cbn [fst snd] in *. split; [by eexists|].
    rewrite Z.add_0_l, Z2Nat.id, take_all_chunks in Ho by lia. done.
Qed.

(** ** The first loop *)

Variables (h0 : heap) (base : ledger).

(** A container whose memory is accounted for. *)
Definition accounted (cs : container_state) : Prop :=
  exists insts els rows, sound_container h0 base insts els rows cs.

(** What [i] chunks have put into the chunk list and the signatures. *)
Record listed (i : Z) (rows : Z -> list signature_row) (c : DXBCContainer) : Prop := {
  li_chunks : default [] (dc_chunks c) = chunk_info <$> take (Z.to_nat i) chunks;
  li_null : 0 < count -> is_Some (dc_chunks c);
  li_alloc : dc_chunk_alloc c = count \/ count = 0;
  li_entries : Forall (valid_entry D) (take (Z.to_nat i) chunks);
  li_rows role : role ∈ roles -> signature_rows role (take (Z.to_nat i) chunks) (rows role);
}.

Record first_loop (i : Z) (st : ByteStream * container_state) : Prop := {
  fl_stream : somewhere st.1;
  fl_listed : exists els rows, sound_container h0 base [] els rows st.2 /\
                               listed i rows (cs_container st.2);
  fl_bare : dc_has_executable_program (cs_container st.2) = false;
  fl_tables : dc_tables (cs_container st.2) = dc_tables zero_container;
}.

Lemma chunk_role_for name role :
  signature_chunk_role name = Some role -> role ∈ roles /\ signature_role_for_chunk name = role.
Proof.
  unfold signature_chunk_role, signature_role_for_chunk. intros Heq.
  destruct (name_is name "ISGN" || name_is name "ISG1").
  { injection Heq as <-. split; [by left|done]. }
  destruct (name_is name "OSGN" || name_is name "OSG1" || name_is name "OSG5") eqn:Ho.
  - injection Heq as <-. split; [by right; left|].
    assert (Hp : name_is name "PCSG" || name_is name "PSG1" = false).
    { apply orb_false_iff. unfold name_is in *. rewrite !orb_true_iff, !bytes_eqb_eq in Ho.
      split; apply not_true_iff_false; rewrite bytes_eqb_eq; intros ->; by destruct Ho as [[|]|]. }
    by rewrite Hp.
  - destruct (name_is name "PCSG" || name_is name "PSG1"); [|done]. injection Heq as <-.
    split; [by right; right; left|done].
Qed.

Lemma with_signature_same role c l : role ∈ roles -> signature_of role (with_signature role c l) = l.
Proof. by intros [->|[->| ->]]%role_cases. Qed.
Lemma with_signature_other role role' c l :
  role ∈ roles -> role' ∈ roles -> role' <> role ->
  signature_of role' (with_signature role c l) = signature_of role' c.
Proof. by intros [->|[->| ->]]%role_cases [->|[->| ->]]%role_cases Hne. Qed.

Lemma container_ok_signature role c l insts :
  container_ok c insts -> container_ok (with_signature role c l) insts.
Proof.
  intros [? ? ? ? ? ? []]. unfold with_signature.
  destruct (role =? _); [|destruct (role =? _)]; by split.
Qed.

Hypothesis Hvalid : valid_header D.
Variable offsets : list Z.
Hypothesis Hoffsets : offsets = chunk_offset <$> chunks.
Hypothesis Hok : Forall offset_ok offsets.

Lemma count_range : 0 <= count < 2 ^ 30.
Proof using Hvalid Hsize.
  pose proof (header_table _ Hvalid). pose proof (header_size _ Hvalid).
  assert (Hc : in_u32 count) by (apply le32_range; lia). unfold table_end_of, in_u32 in *. lia.
Qed.

Lemma read_header_at_spec i st Q F :
  0 <= i < count -> somewhere st.1 -> F st.2 ->
  (forall s' name n start finish (c := chunk_at D i),
     name = chunk_fourcc c -> n = chunk_payload_size c -> start = chunk_offset c + 8 ->
     finish = start + n -> stream_at s' D start -> in_u32 n -> valid_entry D c -> finish <= size D ->
     0 <= chunk_offset c ->
     Q (chunk_offset c, (s', name, n, start, finish))) ->
  outcome (read_chunk_header_at offsets (size D) i st) Q F.
Proof using HS HU Hoffsets Hok Hsize Hvalid.
  intros Hi Hs HF HQ. unfold read_chunk_header_at.
  assert (Ho : offsets !! Z.to_nat i = Some (chunk_offset (chunk_at D i))).
  { rewrite Hoffsets, list_lookup_fmap. unfold chunks_of. rewrite chunks_from_lookup by lia.
    cbn [fmap option_fmap option_map]. do 3 f_equal. lia. }
  rewrite Ho. assert (Hoff : offset_ok (chunk_offset (chunk_at D i))).
  { rewrite list.Forall_forall in Hok. apply Hok. by eapply list_elem_of_lookup_2. }
  destruct Hoff as [Hr Ht]. pose proof (header_size _ Hvalid). pose proof count_range.
  unfold table_end_of in Ht.
  apply outcome_bind, outcome_or_fail.
  eapply outcome_mono; [apply (read_chunk_header_spec st.1 i Hs Hr)| |done].
  intros [[[[s' name] n] start] finish] (-> & -> & -> & -> & Hs' & Hn & Hal & Hfin). cbn [outcome].
  unfold in_u32 in Hn.
  assert (Hend : chunk_end (chunk_at D i) = chunk_offset (chunk_at D i) + 8 + chunk_payload_size (chunk_at D i))
    by (unfold chunk_end; cbn; lia).
  apply HQ; try done; try lia.
  split; [done|unfold table_end_of; lia|lia|lia].
Qed.

(** The rows of one more chunk. *)
Lemma rows_snoc role i rows rows' (c := chunk_at D i) :
  0 <= i < count -> signature_rows role (take (Z.to_nat i) chunks) rows ->
  signature_rows role [c] rows' -> signature_rows role (take (Z.to_nat (i + 1)) chunks) (rows ++ rows').
Proof. intros Hi H H'. rewrite take_chunks by done. by apply rows_app. Qed.

Lemma sound_signature insts els rows cs role h1 ss els' rows' c :
  sound_container h0 base insts els rows cs -> role ∈ roles ->
  container_ok c insts -> (forall r, r ∈ roles -> signature_of r c = signature_of r (cs_container cs)) ->
  (forall els1 rows1 h', owns h' els1 rows1 h1 ->
     stacked roles (update role els1 els) (update role rows1 rows) h' h0) ->
  list_ok (ss_list ss) (els role ++ els') -> owns (ss_heap ss) (els role ++ els') (rows role ++ rows') h1 ->
  sound_container h0 base insts (update role (els role ++ els') els) (update role (rows role ++ rows') rows)
    {| cs_container := with_signature role c (ss_list ss); cs_heap := ss_heap ss; cs_live := cs_live cs |}.
Proof.
  intros [Hc Hl Hlists Hn] Hrole Hc' Hsame Hup Hlist Howns.
  split; cbn [cs_container cs_heap cs_live]; [by apply container_ok_signature|done| |by apply Hup].
  intros r Hr. destruct (decide (r = role)) as [->|Hne].
  - by rewrite with_signature_same, update_same.
  - rewrite with_signature_other, update_other, Hsame by done. by apply Hlists.
Qed.

Lemma parse_chunk_spec i st :
  0 <= i < count -> first_loop i st ->
  outcome (parse_chunk offsets (size D) i st) (first_loop (i + 1)) accounted.
Proof using HS HU Hoffsets Hok Hsize Hvalid.
  intros Hi [Hs (els & rows & Hsound & [Hch Hnull Halloc Hent Hrows]) Hbare Htab]. unfold parse_chunk.
  assert (Hacc : accounted st.2) by (by exists [], els, rows).
  apply outcome_bind, read_header_at_spec; [done|done|done|].
  intros s' name n start finish c -> -> -> -> Hs' Hn Hentry Hfin Hoff. unfold in_u32 in Hn.
  destruct (Hnull ltac:(lia)) as [infos Hinfos]. rewrite Hinfos in Hch. cbn in Hch. subst infos.
  assert (Hlen : length (chunk_info <$> take (Z.to_nat i) chunks) = Z.to_nat i).
  { rewrite length_fmap, length_take. unfold chunks_of. rewrite length_chunks_from. lia. }
  unfold append_chunk_info. rewrite Hinfos, Hlen, (proj2 (Z.ltb_lt _ _)) by lia. mstep.
  match goal with |- context [with_signature _ ?k _] => set (c1 := k) end.
  pose proof Hsound as [Hc Hl Hlists Hnames].
  assert (Hc1 : container_ok c1 []) by (by destruct Hc as [? ? ? ? ? ? []]).
  assert (Hsame : forall r, r ∈ roles -> signature_of r c1 = signature_of r (cs_container st.2))
    by (by intros r [->|[->| ->]]%role_cases).
  assert (Hlisted : forall rows', (forall role, role ∈ roles ->
      exists more, rows' role = rows role ++ more /\ signature_rows role [c] more) ->
    forall c2, dc_chunks c2 = dc_chunks c1 -> dc_chunk_alloc c2 = dc_chunk_alloc c1 -> listed (i + 1) rows' c2).
  { intros rows' Hmore c2 E1 E2. split; rewrite ?E1, ?E2; try done.
    - rewrite take_chunks, fmap_app by lia. done.
    - rewrite take_chunks by lia. apply list.Forall_app. split; [done|]. by apply list.Forall_singleton.
    - intros role Hrole. destruct (Hmore role Hrole) as (more & -> & Hm). apply rows_snoc; [lia|by apply Hrows|done]. }
  destruct (signature_chunk_role (chunk_fourcc c)) as [role|] eqn:Hrole.
  - destruct (chunk_role_for _ _ Hrole) as [Hin Hfor].
    destruct (stacked_on_top roles els rows _ _ role roles_NoDup Hin Hnames) as (h1 & Htop & Hup).
    assert (Hpay : slice D (chunk_offset c + 8) (chunk_offset c + 8 + chunk_payload_size c - (chunk_offset c + 8))
                   = chunk_payload_bytes c) by (unfold c; cbn; f_equal; lia).
    pose proof (parse_signature_spec (chunk_fourcc c) D (chunk_offset c + 8)
      (chunk_offset c + 8 + chunk_payload_size c) ltac:(lia) Hsize s'
      {| ss_heap := cs_heap st.2; ss_list := signature_of role c1 |} (els role) (rows role) h1 Hs') as Hsig.
    cbn [ss_list ss_heap] in Hsig. rewrite Hsame in Hsig by done.
    specialize (Hsig (Hlists role Hin) Htop). rewrite Hpay in Hsig. rewrite Hsame by done.
    destruct (parse_signature _ _ _ _ _) as [[s2 ss]|ss|]; cbn [outcome] in Hsig |- *; [| |done].
    + destruct Hsig as (rows' & Ht & Hs2 & els' & Hlist & Howns). split; cbn [fst snd cs_container]; [done| | |].
      2:{ unfold with_signature. destruct (_ =? _); [|destruct (_ =? _)]; exact Hbare. }
      2:{ unfold with_signature. destruct (_ =? _); [|destruct (_ =? _)]; exact Htab. }
      exists (update role (els role ++ els') els), (update role (rows role ++ rows') rows).
      split; [by apply (sound_signature [] els rows st.2 role h1)|]. cbn [cs_container]. apply Hlisted.
      * intros r Hr. destruct (decide (r = role)) as [->|Hne].
        -- exists rows'. split; [by rewrite update_same|]. rewrite <- (app_nil_r rows').
           apply rows_chunk; [done|done|constructor].
        -- exists []. split; [by rewrite update_other, app_nil_r|].
           apply rows_other; [congruence|constructor].
      * unfold with_signature. by destruct (_ =? _); [|destruct (_ =? _)].
      * unfold with_signature. by destruct (_ =? _); [|destruct (_ =? _)].
    + destruct Hsig as (_ & rows' & els' & Hlist & Howns). exists [], (update role (els role ++ els') els),
        (update role (rows role ++ rows') rows). by apply (sound_signature [] els rows st.2 role h1).
  - cbn [outcome]. split; cbn [fst snd cs_container]; [by eexists| |exact Hbare|exact Htab].
    exists els, rows. split.
    + split; cbn [cs_container cs_heap cs_live]; try done.
    + apply Hlisted; [|done|done]. intros r Hr. exists []. rewrite app_nil_r. split; [done|].
      apply rows_other; [congruence|constructor].
Qed.

(** ** The second loop *)

(** What [i] chunks have put into the program, above the signatures. *)
Record second_loop (els : Z -> list DXBCSignatureElement) (rows : Z -> list signature_row) (i : Z)
    (st : ByteStream * container_state) : Prop := {
  pl_stream : somewhere st.1;
  pl_listed : listed count rows (cs_container st.2);
  pl_program : exists insts l,
    sound_container h0 base insts els rows st.2 /\ programs_of D (take (Z.to_nat i) chunks) l [] /\
    Forall2 (agrees D) l (filter is_instruction insts) /\
    forall uav, table_registers uav (dc_tables (cs_container st.2)) = declared_registers uav insts;
  pl_executable : dc_has_executable_program (cs_container st.2) = true <->
                  Exists is_executable (take (Z.to_nat i) chunks);
}.

Lemma frame_signature r c c' : frame c' = frame c -> signature_of r c' = signature_of r c.
Proof. unfold frame. intros [= _ _ H1 H2 H3 _]. unfold signature_of. by rewrite H1, H2, H3. Qed.

Lemma frame_listed i rows c c' : frame c' = frame c -> listed i rows c -> listed i rows c'.
Proof. unfold frame. intros [= H1 H2 _ _ _ _] []. by split; rewrite ?H1, ?H2. Qed.

Lemma sound_program insts els rows cs insts' sh :
  sound_container h0 base insts els rows cs -> container_ok (sh_container sh) (insts ++ insts') ->
  sh_live sh = cs_live cs ⊎ all_blocks insts' -> frame (sh_container sh) = frame (cs_container cs) ->
  sound_container h0 base (insts ++ insts') els rows
    {| cs_container := sh_container sh; cs_heap := cs_heap cs; cs_live := sh_live sh |}.
Proof.
  intros [Hc Hl Hlists Hn] Hc' Hl' Hf. split; cbn [cs_container cs_heap cs_live]; [done| | |done].
  - rewrite Hl', Hl, all_blocks_app. symmetry. apply (assoc_L (⊎)).
  - intros r Hr. rewrite (frame_signature r _ _ Hf). by apply Hlists.
Qed.

Lemma parse_program_spec els rows i st :
  0 <= i < count -> second_loop els rows i st ->
  outcome (parse_program offsets (size D) i st) (second_loop els rows (i + 1)) accounted.
Proof using HS HU Hoffsets Hok Hsize Hvalid.
  intros Hi [Hs Hlisted (insts & l & Hsound & Hprog & Hag & Htab) Hex]. unfold parse_program.
  assert (Hacc : accounted st.2) by (by exists insts, els, rows).
  apply outcome_bind, read_header_at_spec; [done|done|done|].
  intros s' name n start finish c -> -> -> -> Hs' Hn Hentry Hfin Hoff. unfold in_u32 in Hn.
  pose proof (classify_executable (chunk_fourcc c)) as Hkind.
  change (classify_chunk (chunk_fourcc c)) with (chunk_kind c) in Hkind.
  destruct (name_is (chunk_fourcc c) "SHEX" || name_is (chunk_fourcc c) "SHDR") eqn:Hname.
  - assert (Hexc : is_executable c) by (by apply Hkind).
    pose proof (parse_shader_logic_spec D c
      {| sh_stream := s'; sh_raw_index := 0; sh_container := cs_container st.2; sh_live := cs_live st.2 |}
      insts Hoff ltac:(lia) Hfin Hsize Hs' (sc_program _ _ _ _ _ _ Hsound)) as Hlogic.
    destruct (parse_shader_logic _ _) as [sh|sh|]; cbn [outcome] in Hlogic |- *; [| |done].
    + destruct Hlogic as (l' & news & [Hp Ha (Hver & _ & _ & _ & Hdone) Hc Hl Ht Hst Hf]).
      cbn [sh_container sh_live] in *.
      split; cbn [fst snd cs_container]; [by eexists|eapply frame_listed; [exact Hf|exact Hlisted]| |].
      * exists (insts ++ news), (l ++ l'). split; [by apply sound_program|]. split; [|split].
        -- rewrite take_chunks by done. apply (programs_app _ _ _ _ _ [] []); [done|].
           pose proof (program_header _ _ _ Hp).
           assert (Hrep : stage_reports D c = []) by (apply version_reports; [lia|done]).
           pose proof (programs_executable D c [] l' [] [] Hexc Hp (programs_nil D)) as Hone.
           rewrite Hrep, app_nil_r in Hone. exact Hone.
        -- rewrite list.filter_app. by apply Forall2_app.
        -- intros uav. by rewrite Ht, Htab, declared_registers_app.
      * rewrite Hdone, take_chunks by done. split; [intros _|done]. apply Exists_app. right. by constructor.
    + destruct Hlogic as (news & Hc & Hl & Hf). exists (insts ++ news), els, rows. by apply sound_program.
  - assert (Hexc : chunk_kind c <> DXBC_DOCUMENT_CHUNK_EXECUTABLE) by (by intros ?%Hkind).
    cbn [outcome]. split; cbn [fst snd]; [by eexists|done| |].
    + exists insts, l. split; [done|]. split; [|done]. rewrite take_chunks by done.
      rewrite <- (app_nil_r l). apply (programs_app _ _ _ _ _ [] []); [done|].
      apply programs_other; [done|constructor].
    + rewrite Hex, take_chunks, Exists_app by done. split; [by left|]. intros [?|He]; [done|].
      inversion He as [? ? He'|? ? He']; subst; [done|inversion He'].
Qed.
End chunks.
