(* ===== verification/ParserDocument.v ===== *)
(** [dxbc_parse] as its callers see it: what a successful parse has read from
    the container, how it compares with the lossless document of the same bytes,
    and that memory is given back on every path. *)

From stdpp Require Import gmap gmultiset.
From S2P Require Import Prelude UnityCommon Hash ShaderStage Document DocumentFormat RecordTable.
From S2P Require Import Samples DocumentCorrect Container Heap ByteStream.
From S2P Require Import Signature SignatureCorrect SignatureParse Resources Operand OperandCorrect.
From S2P Require Import Instruction InstructionCorrect InstructionProgram InstructionDocument.
From S2P Require Import Parser ParserCorrect.

#[local] Set Warnings "-register-all".

(** * The view *)

Lemma layout_view bs off n :
  container_layout bs off n -> 0 <= off /\ 32 <= n /\ off + n <= size bs /\ n < 2 ^ 32.
Proof.
  assert (Hraw : forall b m, raw_container b m -> 32 <= m <= size b /\ m < 2 ^ 32).
  { intros b m [Hs _ Ht]. split; [done|]. rewrite <- Ht.
    assert (Hr : in_u32 (word b 24)) by (apply le32_range; lia). apply Hr. }
  intros [m H|rest H38 -> H|name payload records -> _ _ Hr].
  - apply Hraw in H. lia.
  - apply Hraw in H. unfold size in *. rewrite length_drop in H. lia.
  - inversion Hr as [|? ? [_ Hp] _]; subst. cbn [snd] in Hp. apply Hraw in Hp.
    pose proof (size_nonneg name). pose proof (size_nonneg (records ≫= record_bytes)).
    assert (Hs : size (table_bytes ((name, payload) :: records)) =
                 16 + size name + size payload + size (records ≫= record_bytes)).
    { unfold table_bytes. cbn [mbind list_bind]. change (list_bind _ _ record_bytes records)
        with (records ≫= record_bytes).
      rewrite !size_app, size_usbd, size_le_bytes, size_record_bytes. unfold record_size. cbn [fst snd].
      change (Z.of_nat 4) with 4. lia. }
    lia.
Qed.

Section header.
Context `{S : ByteStreamOps} {HS : ByteStreamSpec S}.

Lemma parse_container_header_spec s D :
  stream_at s D 0 -> size D < 2 ^ 32 ->
  outcome (parse_container_header s (size D))
    (fun '(s', total_size, count) => total_size = size D /\ count = chunk_count_of D /\
       valid_header D /\ stream_at s' D 32)
    (fun _ => True).
Proof.
  intros Hs Hsize. unfold parse_container_header.
  apply outcome_bind, (outcome_read_at D s 0); [done|lia| |done]. intros H4.
  pose proof (stream_at_seek _ _ _ (0 + 4) Hs) as Hs4. change (0 + 4) with 4 in *.
  apply outcome_if; intros Hm; [done|]. bools.
  pose proof Hs4 as [He Hd Hp]. rewrite stream_read_bytes_spec, Hd, Hp by lia.
  destruct (Z.leb_spec (4 + 16) (size D)) as [H20|]; [|done].
  pose proof (stream_at_seek _ _ _ (4 + 16) Hs4) as Hs20. change (4 + 16) with 20 in *.
  apply outcome_bind, (outcome_read_at D _ 20); [done|lia| |done]. intros H24.
  pose proof (stream_at_seek _ _ _ (20 + 4) Hs20) as Hs24. change (20 + 4) with 24 in *.
  apply outcome_if; intros Hv; [done|]. bools.
  apply outcome_bind, (outcome_read_at D _ 24); [done|lia| |done]. intros H28.
  pose proof (stream_at_seek _ _ _ (24 + 4) Hs24) as Hs28. change (24 + 4) with 28 in *.
  apply outcome_if; intros Ht; [done|]. unfold DXBC_HEADER_SIZE in *. bools.
  apply outcome_bind, (outcome_read_at D _ 28); [done|lia| |done]. intros H32.
  pose proof (stream_at_seek _ _ _ (28 + 4) Hs28) as Hs32. change (28 + 4) with 32 in *.
  apply outcome_if; intros Hc; [done|]. bools. cbn [outcome].
  rewrite u32_small in * by lia.
  split; [done|]. split; [done|]. split; [|done].
  split; [lia| |done|done|].
  - pose proof (le_bytes_word D 0 ltac:(lia) ltac:(lia)) as Hw. rewrite <- Hw.
    replace (word D 0) with 0x43425844 by done. reflexivity.
  - unfold table_end_of. pose proof (Z.mul_div_le (size D - 32) 4 ltac:(lia)).
    replace (word D 24) with (size D) in * by done. unfold chunk_count_of. lia.
Qed.
End header.

(** * The whole parse *)

Section whole.
Context `{U : UnityCommon} {HU : UnityCommonSpec U} `{DS : DigestStack} `{M : FreshMemory} `{L : LibcMalloc}.
Context `{S : ByteStreamOps} {HS : ByteStreamSpec S}.

(** What a successful parse of the container [D] has produced. *)
Record parsed_container (D : list byte) (h0 : heap) (base : ledger) (cs : container_state)
    (els : Z -> list DXBCSignatureElement) (rows : Z -> list signature_row)
    (insts : list DXBCInstruction) (l : list DXBCDocumentInstruction) : Prop := {
  pc_header : valid_header D;
  pc_hash : valid_hash D;
  pc_entries : Forall (valid_entry D) (chunks_of D);
  pc_executable : Exists is_executable (chunks_of D);
  pc_chunks : dc_chunks (cs_container cs) = Some (chunk_info <$> chunks_of D);
  pc_rows role : role ∈ roles -> signature_rows role (chunks_of D) (rows role);
  pc_program : programs_of D (chunks_of D) l [];
  pc_agrees : Forall2 (agrees D) l (filter is_instruction insts);
  pc_tables uav : table_registers uav (dc_tables (cs_container cs)) = declared_registers uav insts;
  pc_sound : sound_container h0 base insts els rows cs;
}.

Lemma sound_invalid h base :
  sound_container h base [] (fun _ => []) (fun _ => [])
    {| cs_container := invalid_container; cs_heap := h; cs_live := base |}.
Proof.
  pose proof zero_container_ok as Hz.
  split; cbn [cs_container cs_heap cs_live].
  - destruct Hz as [? ? ? ? ? ? []]. by split.
  - symmetry. apply (right_id_L ∅ (⊎)).
  - intros r Hr. apply role_cases in Hr as [->|[->| ->]]; exact empty_list_ok.
  - repeat (eexists; split; [constructor|]). done.
Qed.

Lemma parse_chunks_spec D s h base :
  size D < 2 ^ 32 -> valid_header D -> stream_at s D 32 ->
  outcome (parse_chunks s (size D) (chunk_count_of D)
             {| cs_container := invalid_container; cs_heap := h; cs_live := base |})
    (fun cs => exists s' els rows, second_loop D h base els rows (chunk_count_of D) (s', cs))
    (accounted h base).
Proof.
  intros Hsize Hv Hs. pose proof (count_range D Hsize Hv) as Hcount. pose proof (sound_invalid h base) as Hinv.
  assert (Hacc : accounted h base {| cs_container := invalid_container; cs_heap := h; cs_live := base |})
    by (by eexists _, _, _).
  unfold parse_chunks. apply outcome_bind, outcome_or_fail.
  eapply outcome_mono; [by apply (read_offsets_spec D Hsize s)| |done].
  intros [s1 offsets] (Hs1 & Hoffs & Hok). unfold allocate_chunks.
  cbn [cs_container cs_heap cs_live].
  match goal with |- context [match ?a with Some _ => _ | None => _ end] =>
    assert (Ha : match a with
      | Some c => container_ok c [] /\ frame c = frame (invalid_container <| dc_chunks := dc_chunks c |>
                    <| dc_chunk_alloc := dc_chunk_alloc c |>) /\ default [] (dc_chunks c) = [] /\
                  (0 < chunk_count_of D -> is_Some (dc_chunks c)) /\
                  (dc_chunk_alloc c = chunk_count_of D \/ chunk_count_of D = 0) /\
                  dc_has_executable_program c = false /\ dc_tables c = dc_tables zero_container
      | None => True end) end.
  { pose proof (sc_program _ _ _ _ _ _ Hinv) as [? ? ? ? ? ? []]. cbn [cs_container] in *.
    destruct (Z.ltb_spec 0 (chunk_count_of D)); cbn [negb].
    - destruct (dxbc_size_multiply_overflows _ _); [done|]. destruct (mem_alloc _); [|done].
      split; [by split|]. repeat (split; [done|]). split; [by left|done].
    - split; [by split|]. repeat (split; [done|]). split; [lia|]. split; [right; lia|done]. }
  match goal with |- context [match ?a with Some _ => _ | None => _ end] => destruct a as [c|] end; [|exact Hacc].
  destruct Ha as (Hc & Hframe & Hch & Hnull & Halloc & Hbare & Htab). unfold frame in Hframe.
  injection Hframe as Hin Hout Hpatch _.
  apply outcome_bind. eapply outcome_mono; [apply (outcome_for
    (fun i st => first_loop D h base i st) (accounted h base))| |done].
  - split; cbn [fst snd cs_container]; [done| |done|done]. exists (fun _ => []), (fun _ => []).
    split.
    + destruct Hinv as [_ Hl Hlists Hn]. split; cbn [cs_container cs_heap cs_live] in *; [done|done| |done].
      intros r Hr. specialize (Hlists r Hr). unfold signature_of in *. by rewrite Hin, Hout, Hpatch.
    + split; [by rewrite Hch|done|done|constructor|]. intros r Hr. constructor.
  - intros i st Hi Hst. apply (parse_chunk_spec D Hsize h base Hv offsets Hoffs Hok); [lia|done].
  - intros st1 Hst1. rewrite Z.add_0_l, Z2Nat.id in Hst1 by lia.
    destruct Hst1 as [Hs2 (els & rows & Hsound & Hlisted) Hbare1 Htab1].
    apply outcome_bind. eapply outcome_mono; [apply (outcome_for
      (fun i st => second_loop D h base els rows i st) (accounted h base))| |done].
    + split; [done|done| |].
      * exists [], []. split; [done|]. split; [constructor|]. split; [constructor|].
        intros uav. rewrite Htab1. by destruct uav.
      * rewrite Hbare1. split; [done|]. intros He. inversion He.
    + intros i st Hi Hst. apply (parse_program_spec D Hsize h base Hv offsets Hoffs Hok); [lia|done].
    + intros st2 Hst2. rewrite Z.add_0_l, Z2Nat.id in Hst2 by lia. cbn [outcome].
      exists st2.1, els, rows. by destruct st2.
Qed.

(** The outcome of the whole call, on a readable buffer. *)
Lemma dxbc_parse_spec {E} data h base :
  in_u64 (size data) ->
  outcome (dxbc_parse (E:=E) (Some data) (size data) h base)
    (fun '(success, cs) =>
       if success : bool then exists off n els rows insts l,
         container_layout data off n /\ parsed_container (slice data off n) h base cs els rows insts l
       else cs_heap cs = h /\ cs_live cs = base /\
            (cs_container cs = zero_container \/ cs_container cs = invalid_container))
    (fun _ => False).
Proof.
  intros Hdata. unfold dxbc_parse. apply outcome_bind.
  eapply outcome_mono; [by apply container_view_first_spec| |done].
  intros [valid v] Hview. cbn [fst] in Hview.
  destruct Hview as [(off & n & [= -> ->] & Hlayout)|[-> _]]; cbn [negb default]; [|by cbn [outcome]; auto].
  destruct (layout_view _ _ _ Hlayout) as (Hoff & Hn & Hend & Hn32).
  unfold view_bytes. cbn [from_option view_data view_size id]. rewrite view_ok by lia. mstep.
  set (D := slice data off n). assert (HD : size D = n) by (unfold D; rewrite size_slice; lia).
  rewrite verify_hash_eq. mstep.
  destruct (hashable D && bytes_eqb (slice D 4 16) (reference_hash D)) eqn:Hhash; cbn [negb]; [|by cbn [outcome]; auto].
  apply andb_true_iff in Hhash as [_ Hhash%bytes_eqb_eq].
  assert (Hs : stream_at (stream_set_endian (stream_init D) false) D 0).
  { split; [apply stream_endian_big|by rewrite stream_endian_data, stream_init_data|].
    by rewrite stream_endian_position, stream_init_position. }
  rewrite <- HD. apply outcome_bind, outcome_attempt.
  eapply outcome_mono; [apply (parse_container_header_spec _ D Hs); lia| |by cbn [outcome]; auto].
  intros [[s1 total] count] (-> & -> & Hv & Hs1).
  apply outcome_if; intros Hmalloc; [by cbn [outcome]; auto|].
  assert (Hclean : forall cs, accounted h base cs ->
    outcome (E:=E) (cleanup cs) (fun '(success, cs) =>
       if success : bool then exists off n els rows insts l,
         container_layout data off n /\ parsed_container (slice data off n) h base cs els rows insts l
       else cs_heap cs = h /\ cs_live cs = base /\
            (cs_container cs = zero_container \/ cs_container cs = invalid_container)) (fun _ => False)).
  { intros cs (insts & els & rows & Hcs). unfold cleanup. rewrite (dxbc_free_ok _ _ _ _ _ _ Hcs). mstep. by cbn [outcome]; auto. }
  pose proof (parse_chunks_spec D s1 h base ltac:(lia) Hv Hs1) as Hchunks.
  destruct (parse_chunks s1 (size D) (chunk_count_of D) _) as [cs|cs|]; cbn [outcome] in Hchunks;
    [|by apply Hclean|done].
  destruct Hchunks as (s2 & els & rows & [_ Hlisted (insts & l & Hsound & Hprog & Hag & Htab) Hex]).
  cbn [snd] in *. rewrite take_all_chunks in Hprog, Hex.
  destruct (dc_has_executable_program (cs_container cs)) eqn:Hdone.
  2:{ apply Hclean. by exists insts, els, rows. }
  cbn [outcome]. exists off, n, els, rows, insts, l. split; [done|]. fold D.
  pose proof (proj1 Hex eq_refl) as Hexists. destruct Hlisted as [Hch Hnull _ Hent Hrows].
  rewrite take_all_chunks in Hch, Hent.
  assert (Hpos : 0 < chunk_count_of D).
  { pose proof (count_range D ltac:(lia) Hv).
    destruct (Z.eqb_spec (chunk_count_of D) 0) as [Hz|]; [|lia]. unfold chunks_of in Hexists.
    rewrite Hz in Hexists. inversion Hexists. }
  split; cbn [cs_container]; try done.
  - destruct (Hnull Hpos) as [infos Hinfos]. rewrite Hinfos in Hch. cbn in Hch. subst infos. exact Hinfos.
  - intros r Hr. rewrite <- take_all_chunks. by apply Hrows.
  - destruct Hsound as [Hc Hl Hlists Hnames]. split; cbn [cs_container cs_heap cs_live]; try done.
    destruct Hc as [? ? ? ? ? ? []]. by split.
Qed.
End whole.

(** * Properties *)

(** In the memory [h], the element [el] says the row [r]. *)
Definition says (h : heap) (el : DXBCSignatureElement) (r : signature_row) : Prop :=
  exists s, named h el s /\ r = row_of el s.

Lemma grants_subseteq h0 el s h : grants h0 el s h -> h0 ⊆ h.
Proof.
  intros [_ _ _ _ Hst]. destruct (el_semantic_name_extended el).
  - destruct Hst as [Hp ->]. by apply insert_subseteq.
  - by destruct Hst as [_ ->].
Qed.

Lemma says_mono h h' el r : h ⊆ h' -> says h el r -> says h' el r.
Proof.
  intros Hsub (s & [Hl Hs Ht Hi Hst] & ->). exists s. split; [|done]. split; try done.
  destruct (el_semantic_name_extended el); [|done]. by eapply lookup_weaken.
Qed.

Lemma owns_says h els rows h0 : owns h els rows h0 -> Forall2 (says h) els rows.
Proof.
  induction 1 as [|h h1 h0 el els s rows Hg Ho IH]; [constructor|]. constructor.
  - exists s. split; [by eapply grants_named|done].
  - eapply Forall2_impl; [|exact IH]. intros e r. apply says_mono. by eapply grants_subseteq.
Qed.

Lemma programs_fun bytes cs l r l' r' :
  programs_of bytes cs l r -> programs_of bytes cs l' r' -> l = l' /\ r = r'.
Proof.
  intros H. revert l' r'. induction H as [|c cs l r Hk H IH|c cs l1 l r Hk Hp H IH]; intros l' r' H';
    inversion H'; subst; try done; try congruence.
  - by apply IH.
  - match goal with Hp' : program_of bytes c _, H'' : programs_of bytes cs _ _ |- _ =>
      rewrite (program_of_fun _ _ _ _ Hp Hp'); destruct (IH _ _ H'') as [-> ->] end. done.
Qed.

Section properties.
Context `{U : UnityCommon} {HU : UnityCommonSpec U} `{DS : DigestStack} `{M : FreshMemory} `{L : LibcMalloc}.
Context `{S : ByteStreamOps} {HS : ByteStreamSpec S}.

(** C9: a container [dxbc_parse] accepts lies in the buffer where the wrapper
    formats place it, has a valid header, hash and chunk table and at least one
    program, and has been read in full: the chunk list, the rows of each
    signature chunk in table order under its role, the instructions of every
    program, and the declarations of those instructions. *)
Theorem dxbc_parse_reads_container data h base cs :
  in_u64 (size data) ->
  dxbc_parse (E:=unit) (Some data) (size data) h base = Ret (true, cs) ->
  exists off n, container_layout data off n /\
    let D := slice data off n in let c := cs_container cs in
    (valid_header D /\ valid_hash D /\ Forall (valid_entry D) (chunks_of D) /\
     Exists is_executable (chunks_of D)) /\
    dc_chunks c = Some (chunk_info <$> chunks_of D) /\
    (forall role, role ∈ roles -> exists rows, signature_rows role (chunks_of D) rows /\
       Forall2 (says (cs_heap cs)) (default [] (sl_elements (signature_of role c))) rows) /\
    (exists l, programs_of D (chunks_of D) l [] /\
       Forall2 (agrees D) l (filter is_instruction (default [] (dc_instructions c)))) /\
    (forall uav, table_registers uav (dc_tables c) =
                 declared_registers uav (default [] (dc_instructions c))).
Proof.
  intros Hdata Hcs.
  destruct (outcome_Ret_inv _ _ _ _ (dxbc_parse_spec (E:=unit) data h base Hdata) Hcs)
    as (off & n & els & rows & insts & l & Hlayout & [Hh Hhash He Hex Hch Hrows Hprog Hag Htab [Hc _ Hl Hn]]).
  exists off, n. split; [done|]. cbn zeta. rewrite (co_instructions _ _ Hc).
  split; [done|]. split; [done|]. split; [|split; [by exists l|done]].
  intros role Hrole. exists (rows role). split; [by apply Hrows|].
  rewrite (list_elements _ _ (Hl role Hrole)).
  destruct (stacked_on_top _ _ _ _ _ role roles_NoDup Hrole Hn) as (h1 & Ho & _). by eapply owns_says.
Qed.

(** C10: the two parsers agree: where the lossless parser accepts the container
    in the buffer and [dxbc_parse] does too, both list the same chunks, the
    instructions of [dxbc_parse] are the document's, in order and one for one,
    and the document carries no diagnostic. *)
Theorem dxbc_parse_matches_document data h base cs off n old d :
  in_u64 (size data) -> container_layout data off n ->
  dxbc_document_parse (Some old) (Some (slice data off n)) = Ret d ->
  dxbc_parse (E:=unit) (Some data) (size data) h base = Ret (true, cs) ->
  dc_chunks (cs_container cs) = Some (chunk_info <$> doc_chunks d) /\
  Forall2 (agrees (slice data off n)) (doc_instructions d)
    (filter is_instruction (default [] (dc_instructions (cs_container cs)))) /\
  doc_diagnostics d = [].
Proof.
  intros Hdata Hlayout Hd Hcs. destruct (parse_Ret _ _ _ Hd) as [Hrep _].
  destruct (outcome_Ret_inv _ _ _ _ (dxbc_parse_spec (E:=unit) data h base Hdata) Hcs)
    as (off' & n' & els & rows & insts & l & Hlayout' & [_ _ _ _ Hch _ Hprog Hag _ [Hc _ _ _]]).
  destruct (container_layout_fun _ _ _ _ _ Hlayout Hlayout') as [<- <-].
  destruct (programs_fun _ _ _ _ _ _ (rep_programs _ _ Hrep) Hprog) as [-> ->].
  rewrite (rep_chunks _ _ Hrep), (co_instructions _ _ Hc). done.
Qed.

(** C27: on any readable buffer [dxbc_parse] returns, without undefined
    behaviour, whatever the allocators answer; a failed parse has given back
    every name and operand block it took, and after a successful one
    [dxbc_free] gives them back. *)
Theorem dxbc_parse_releases data h base :
  in_u64 (size data) ->
  exists success cs, dxbc_parse (E:=unit) (Some data) (size data) h base = Ret (success, cs) /\
    if success : bool then
      dxbc_free (E:=unit) cs = Ret {| cs_container := zero_container; cs_heap := h; cs_live := base |}
    else cs_heap cs = h /\ cs_live cs = base /\
         (cs_container cs = zero_container \/ cs_container cs = invalid_container).
Proof.
  intros Hdata. pose proof (dxbc_parse_spec (E:=unit) data h base Hdata) as Hspec.
  destruct (dxbc_parse _ _ _ _) as [[success cs]|e|]; [|done..]. exists success, cs. split; [done|].
  cbn [outcome] in Hspec. destruct success; [|exact Hspec].
  destruct Hspec as (off & n & els & rows & insts & l & _ & Hp). by eapply dxbc_free_ok, pc_sound.
Qed.
End properties.

(** * Witnesses *)

#[local] Existing Instance unity_common_ref.
#[local] Existing Instance unity_common_ref_spec.
#[local] Existing Instance byte_stream_ref.
#[local] Existing Instance byte_stream_ref_spec.
#[local] Existing Instance sample_stack.
#[local] Instance blank_memory : FreshMemory := fun _ => Byte.x00.
#[local] Instance generous_malloc : LibcMalloc := fun _ => true.

(** A pixel shader with an input signature of a long and a short name, behind
    the header of a Unity record. *)
Definition signed_container : list byte := Eval vm_compute in
  stamped (sample_container
    [String.list_byte_of_string "ISGN" ++ le_bytes 4 (size sample_signature + 1) ++
       sample_signature ++ [Byte.x00];
     sample_chunk "SHEX" pixel_program]).

Definition signed_data : list byte := Byte.x02 :: replicate 37 Byte.x00 ++ signed_container.

Definition signed_document : DXBCDocument := Eval vm_compute in parse_bytes signed_container.

Lemma signed_size : in_u64 (size signed_data).
Proof. vm_compute. split; [discriminate|reflexivity]. Qed.

Lemma signed_parses :
  exists cs, dxbc_parse (E:=unit) (Some signed_data) (size signed_data) ∅ ∅ = Ret (true, cs).
Proof.
  destruct (dxbc_parse (Some signed_data) (size signed_data) ∅ ∅) as [[success cs]|e|] eqn:Heq;
    apply (f_equal (fun r => match r with Ret (b, _) => b | _ => false end)) in Heq;
    vm_compute in Heq; [|discriminate Heq..].
  subst success. by exists cs.
Qed.

Lemma dxbc_parse_reads_container_witness :
  exists cs off n, container_layout signed_data off n /\
    dc_chunks (cs_container cs) = Some (chunk_info <$> chunks_of (slice signed_data off n)).
Proof.
  destruct signed_parses as [cs Hcs].
  destruct (dxbc_parse_reads_container signed_data ∅ ∅ cs signed_size Hcs)
    as (off & n & Hl & _ & Hc & _). exists cs, off, n. split; [exact Hl|exact Hc].
Defined.

(** The container starts behind the 38 bytes of the record's header. *)
Lemma signed_layout : container_layout signed_data 38 (size signed_container).
Proof.
  assert (Hl : container_layout signed_data 38 (size signed_data - 38)).
  { apply (unity_layout signed_data (replicate 37 Byte.x00 ++ signed_container)); [vm_compute; reflexivity|done|].
    split; [vm_compute; split; discriminate|vm_compute; reflexivity..]. }
  replace (size signed_data - 38) with (size signed_container) in Hl by (vm_compute; reflexivity). exact Hl.
Qed.

Lemma signed_document_parse :
  dxbc_document_parse (Some dxbc_document_init)
    (Some (slice signed_data 38 (size signed_container))) = Ret signed_document.
Proof. vm_compute. reflexivity. Qed.

Lemma dxbc_parse_matches_document_witness :
  exists cs, dc_chunks (cs_container cs) = Some (chunk_info <$> doc_chunks signed_document).
Proof.
  destruct signed_parses as [cs Hcs].
  destruct (dxbc_parse_matches_document signed_data ∅ ∅ cs 38 (size signed_container) dxbc_document_init
    signed_document signed_size signed_layout signed_document_parse Hcs) as [Hc _]. exists cs. exact Hc.
Defined.

Lemma dxbc_parse_releases_witness :
  exists cs, dxbc_free (E:=unit) cs = Ret {| cs_container := zero_container; cs_heap := ∅; cs_live := ∅ |}.
Proof.
  destruct signed_parses as [cs Hcs]. exists cs.
  destruct (dxbc_parse_releases signed_data ∅ ∅ signed_size) as (success & cs' & Heq & Hfree).
  rewrite Hcs in Heq. injection Heq as <- <-. exact Hfree.
Defined.
