(* ===== verification/Usil.v ===== *)
(** The intermediate program of the reconstruction: [include/translation/usil.h].

    The tables and fields no modelled pass reads (signatures, samplers,
    indexable temps, the immediate constant buffer, the texts) are left out. *)

From stdpp Require Import gmultiset.
From S2P Require Import Prelude CArray UnityCommon ShaderStage StageContract Operand Instruction.

#[local] Set Warnings "-register-all".

(** * Opcodes *)

Inductive USILOpcode : Type :=
| USIL_OP_NOP | USIL_OP_ADD | USIL_OP_SUB | USIL_OP_MUL | USIL_OP_DIV | USIL_OP_MAD
| USIL_OP_MOV | USIL_OP_MOVC | USIL_OP_DP2 | USIL_OP_DP3 | USIL_OP_DP4 | USIL_OP_RCP
| USIL_OP_RSQ | USIL_OP_SQRT | USIL_OP_MIN | USIL_OP_MAX | USIL_OP_LT | USIL_OP_GE | USIL_OP_EQ
| USIL_OP_NE | USIL_OP_ILT | USIL_OP_IGE | USIL_OP_IEQ | USIL_OP_INE | USIL_OP_ULT
| USIL_OP_UGE | USIL_OP_AND | USIL_OP_OR | USIL_OP_XOR | USIL_OP_NOT | USIL_OP_ISHL
| USIL_OP_ISHR | USIL_OP_USHR | USIL_OP_FTOI | USIL_OP_FTOU | USIL_OP_ITOF | USIL_OP_UTOF
| USIL_OP_SAMPLE | USIL_OP_SAMPLE_C | USIL_OP_SAMPLE_C_LZ | USIL_OP_SAMPLE_L | USIL_OP_SAMPLE_D
| USIL_OP_SAMPLE_B | USIL_OP_LD | USIL_OP_LD_STRUCTURED | USIL_OP_LD_MS | USIL_OP_RESINFO
| USIL_OP_SAMPLEINFO | USIL_OP_LOG | USIL_OP_EXP | USIL_OP_SIN | USIL_OP_COS | USIL_OP_FRC
| USIL_OP_ROUND_NE | USIL_OP_ROUND_NI | USIL_OP_ROUND_PI | USIL_OP_ROUND_Z | USIL_OP_IF
| USIL_OP_ELSE | USIL_OP_ENDIF | USIL_OP_LOOP | USIL_OP_ENDLOOP | USIL_OP_SWITCH | USIL_OP_CASE
| USIL_OP_DEFAULT | USIL_OP_ENDSWITCH | USIL_OP_BREAK | USIL_OP_BREAKC | USIL_OP_CONTINUE
| USIL_OP_CONTINUEC | USIL_OP_RET | USIL_OP_DISCARD | USIL_OP_DERIV_RTX | USIL_OP_DERIV_RTY
| USIL_OP_DERIV_RTX_COARSE | USIL_OP_DERIV_RTY_COARSE | USIL_OP_DERIV_RTX_FINE
| USIL_OP_DERIV_RTY_FINE | USIL_OP_IADD | USIL_OP_IMUL | USIL_OP_IMAD | USIL_OP_IMAX
| USIL_OP_IMIN | USIL_OP_UMAX | USIL_OP_UMIN | USIL_OP_UDIV | USIL_OP_INEG
| USIL_OP_IMM_ATOMIC_IADD | USIL_OP_LDMS | USIL_OP_SINCOS | USIL_OP_UBFE
| USIL_OP_GEOMETRY_APPEND | USIL_OP_GEOMETRY_RESTART_STRIP | USIL_OP_SYNC
| USIL_OP_LD_UAV_TYPED | USIL_OP_STORE_UAV_TYPED | USIL_OP_LD_RAW | USIL_OP_STORE_RAW
| USIL_OP_STORE_STRUCTURED | USIL_OP_ATOMIC_XOR | USIL_OP_ATOMIC_IADD
| USIL_OP_IMM_ATOMIC_ALLOC | USIL_OP_IMM_ATOMIC_CONSUME | USIL_OP_IMM_ATOMIC_CMP_EXCH.

(** The enumerators are numbered from 0 in order. *)
Definition usil_opcodes : list USILOpcode :=
  [USIL_OP_NOP; USIL_OP_ADD; USIL_OP_SUB; USIL_OP_MUL; USIL_OP_DIV; USIL_OP_MAD; USIL_OP_MOV;
   USIL_OP_MOVC; USIL_OP_DP2; USIL_OP_DP3; USIL_OP_DP4; USIL_OP_RCP; USIL_OP_RSQ; USIL_OP_SQRT;
   USIL_OP_MIN; USIL_OP_MAX; USIL_OP_LT; USIL_OP_GE; USIL_OP_EQ; USIL_OP_NE; USIL_OP_ILT;
   USIL_OP_IGE; USIL_OP_IEQ; USIL_OP_INE; USIL_OP_ULT; USIL_OP_UGE; USIL_OP_AND; USIL_OP_OR;
   USIL_OP_XOR; USIL_OP_NOT; USIL_OP_ISHL; USIL_OP_ISHR; USIL_OP_USHR; USIL_OP_FTOI;
   USIL_OP_FTOU; USIL_OP_ITOF; USIL_OP_UTOF; USIL_OP_SAMPLE; USIL_OP_SAMPLE_C;
   USIL_OP_SAMPLE_C_LZ; USIL_OP_SAMPLE_L; USIL_OP_SAMPLE_D; USIL_OP_SAMPLE_B; USIL_OP_LD;
   USIL_OP_LD_STRUCTURED; USIL_OP_LD_MS; USIL_OP_RESINFO; USIL_OP_SAMPLEINFO; USIL_OP_LOG;
   USIL_OP_EXP; USIL_OP_SIN; USIL_OP_COS; USIL_OP_FRC; USIL_OP_ROUND_NE; USIL_OP_ROUND_NI;
   USIL_OP_ROUND_PI; USIL_OP_ROUND_Z; USIL_OP_IF; USIL_OP_ELSE; USIL_OP_ENDIF; USIL_OP_LOOP;
   USIL_OP_ENDLOOP; USIL_OP_SWITCH; USIL_OP_CASE; USIL_OP_DEFAULT; USIL_OP_ENDSWITCH;
   USIL_OP_BREAK; USIL_OP_BREAKC; USIL_OP_CONTINUE; USIL_OP_CONTINUEC; USIL_OP_RET;
   USIL_OP_DISCARD; USIL_OP_DERIV_RTX; USIL_OP_DERIV_RTY; USIL_OP_DERIV_RTX_COARSE;
   USIL_OP_DERIV_RTY_COARSE; USIL_OP_DERIV_RTX_FINE; USIL_OP_DERIV_RTY_FINE; USIL_OP_IADD;
   USIL_OP_IMUL; USIL_OP_IMAD; USIL_OP_IMAX; USIL_OP_IMIN; USIL_OP_UMAX; USIL_OP_UMIN;
   USIL_OP_UDIV; USIL_OP_INEG; USIL_OP_IMM_ATOMIC_IADD; USIL_OP_LDMS; USIL_OP_SINCOS;
   USIL_OP_UBFE; USIL_OP_GEOMETRY_APPEND; USIL_OP_GEOMETRY_RESTART_STRIP; USIL_OP_SYNC;
   USIL_OP_LD_UAV_TYPED; USIL_OP_STORE_UAV_TYPED; USIL_OP_LD_RAW; USIL_OP_STORE_RAW;
   USIL_OP_STORE_STRUCTURED; USIL_OP_ATOMIC_XOR; USIL_OP_ATOMIC_IADD; USIL_OP_IMM_ATOMIC_ALLOC;
   USIL_OP_IMM_ATOMIC_CONSUME; USIL_OP_IMM_ATOMIC_CMP_EXCH].

Definition usil_code (o : USILOpcode) : nat :=
  match o with
  | USIL_OP_NOP => 0 | USIL_OP_ADD => 1 | USIL_OP_SUB => 2 | USIL_OP_MUL => 3 | USIL_OP_DIV => 4
  | USIL_OP_MAD => 5 | USIL_OP_MOV => 6 | USIL_OP_MOVC => 7 | USIL_OP_DP2 => 8 | USIL_OP_DP3 => 9
  | USIL_OP_DP4 => 10 | USIL_OP_RCP => 11 | USIL_OP_RSQ => 12 | USIL_OP_SQRT => 13
  | USIL_OP_MIN => 14 | USIL_OP_MAX => 15 | USIL_OP_LT => 16 | USIL_OP_GE => 17
  | USIL_OP_EQ => 18 | USIL_OP_NE => 19 | USIL_OP_ILT => 20 | USIL_OP_IGE => 21
  | USIL_OP_IEQ => 22 | USIL_OP_INE => 23 | USIL_OP_ULT => 24 | USIL_OP_UGE => 25
  | USIL_OP_AND => 26 | USIL_OP_OR => 27 | USIL_OP_XOR => 28 | USIL_OP_NOT => 29
  | USIL_OP_ISHL => 30 | USIL_OP_ISHR => 31 | USIL_OP_USHR => 32 | USIL_OP_FTOI => 33
  | USIL_OP_FTOU => 34 | USIL_OP_ITOF => 35 | USIL_OP_UTOF => 36 | USIL_OP_SAMPLE => 37
  | USIL_OP_SAMPLE_C => 38 | USIL_OP_SAMPLE_C_LZ => 39 | USIL_OP_SAMPLE_L => 40
  | USIL_OP_SAMPLE_D => 41 | USIL_OP_SAMPLE_B => 42 | USIL_OP_LD => 43
  | USIL_OP_LD_STRUCTURED => 44 | USIL_OP_LD_MS => 45 | USIL_OP_RESINFO => 46
  | USIL_OP_SAMPLEINFO => 47 | USIL_OP_LOG => 48 | USIL_OP_EXP => 49 | USIL_OP_SIN => 50
  | USIL_OP_COS => 51 | USIL_OP_FRC => 52 | USIL_OP_ROUND_NE => 53 | USIL_OP_ROUND_NI => 54
  | USIL_OP_ROUND_PI => 55 | USIL_OP_ROUND_Z => 56 | USIL_OP_IF => 57 | USIL_OP_ELSE => 58
  | USIL_OP_ENDIF => 59 | USIL_OP_LOOP => 60 | USIL_OP_ENDLOOP => 61 | USIL_OP_SWITCH => 62
  | USIL_OP_CASE => 63 | USIL_OP_DEFAULT => 64 | USIL_OP_ENDSWITCH => 65 | USIL_OP_BREAK => 66
  | USIL_OP_BREAKC => 67 | USIL_OP_CONTINUE => 68 | USIL_OP_CONTINUEC => 69 | USIL_OP_RET => 70
  | USIL_OP_DISCARD => 71 | USIL_OP_DERIV_RTX => 72 | USIL_OP_DERIV_RTY => 73
  | USIL_OP_DERIV_RTX_COARSE => 74 | USIL_OP_DERIV_RTY_COARSE => 75
  | USIL_OP_DERIV_RTX_FINE => 76 | USIL_OP_DERIV_RTY_FINE => 77 | USIL_OP_IADD => 78
  | USIL_OP_IMUL => 79 | USIL_OP_IMAD => 80 | USIL_OP_IMAX => 81 | USIL_OP_IMIN => 82
  | USIL_OP_UMAX => 83 | USIL_OP_UMIN => 84 | USIL_OP_UDIV => 85 | USIL_OP_INEG => 86
  | USIL_OP_IMM_ATOMIC_IADD => 87 | USIL_OP_LDMS => 88 | USIL_OP_SINCOS => 89
  | USIL_OP_UBFE => 90 | USIL_OP_GEOMETRY_APPEND => 91 | USIL_OP_GEOMETRY_RESTART_STRIP => 92
  | USIL_OP_SYNC => 93 | USIL_OP_LD_UAV_TYPED => 94 | USIL_OP_STORE_UAV_TYPED => 95
  | USIL_OP_LD_RAW => 96 | USIL_OP_STORE_RAW => 97 | USIL_OP_STORE_STRUCTURED => 98
  | USIL_OP_ATOMIC_XOR => 99 | USIL_OP_ATOMIC_IADD => 100 | USIL_OP_IMM_ATOMIC_ALLOC => 101
  | USIL_OP_IMM_ATOMIC_CONSUME => 102 | USIL_OP_IMM_ATOMIC_CMP_EXCH => 103
  end.

Lemma usil_code_lookup o : usil_opcodes !! usil_code o = Some o.
Proof. by destruct o. Qed.

#[export] Instance usil_opcode_eq_dec : EqDecision USILOpcode.
Proof.
  intros o o'. destruct (decide (usil_code o = usil_code o')) as [He|He].
  - left. pose proof (usil_code_lookup o) as Ho. rewrite He, usil_code_lookup in Ho. congruence.
  - right. by intros ->.
Defined.

Definition op_is (o o' : USILOpcode) : bool := bool_decide (o = o').

(** * Instructions *)

Inductive USILGeometryEffectKind :=
| USIL_GEOMETRY_EFFECT_NONE
| USIL_GEOMETRY_EFFECT_APPEND
| USIL_GEOMETRY_EFFECT_RESTART_STRIP.

#[export] Instance usil_geometry_effect_eq_dec : EqDecision USILGeometryEffectKind.
Proof. solve_decision. Defined.

#[export] Instance instruction_test_eq_dec : EqDecision DXBCInstructionTest.
Proof. solve_decision. Defined.

(** [ui_operands] is the whole array of [DXBC_MAX_OPERANDS], of which the first
    [ui_operand_count] are in use; [ui_resource_dimension] is [char[16]]. *)
Record USILInstruction := {
  ui_opcode : USILOpcode;
  ui_saturate : bool;
  ui_precise_mask : Z;
  ui_condition_test : DXBCInstructionTest;
  ui_resource_dimension : list byte;
  ui_has_resource_dimension : bool;
  ui_resource_stride : Z;
  ui_has_texel_offset : bool;
  ui_has_resource_return_types : bool;
  ui_resource_return_types : list Z;
  ui_source_instruction_index : Z;
  ui_geometry_effect : USILGeometryEffectKind;
  ui_geometry_stream_id : Z;
  ui_geometry_stream_explicit : bool;
  ui_sync_flags : Z;
  ui_operands : list DXBCOperand;
  ui_operand_count : Z;
}.

(** * Declarations *)

Record USILConstantBuffer := { cb_reg_idx : Z; cb_size : Z }.

Record USILUav := {
  uav_reg_idx : Z;
  uav_dimension : list byte;
  uav_return_types : list Z;
  uav_stride : Z;
  uav_globally_coherent : bool;
  uav_rasterizer_ordered : bool;
  uav_has_order_preserving_counter : bool;
}.

Record USILTexture := {
  tx_reg_idx : Z;
  tx_dimension : list byte;
  tx_return_types : list Z;
  tx_stride : Z;
}.

Record USILSignatureDeclaration := { sd_operand_type : Z; sd_mask : Z }.

Record USILHullPhase := {
  hp_marker_source_instruction_index : Z;
  hp_first_source_instruction_index : Z;
  hp_end_source_instruction_index : Z;
  hp_first_instruction_index : Z;
  hp_end_instruction_index : Z;
  hp_has_temp_count : bool;
  hp_temp_count : Z;
  hp_temp_count_source_instruction_index : Z;
}.

Record USILTessellationContract := {
  tc_valid : bool;
  tc_phase_count : Z;
  tc_phase_capacity : Z;
  tc_phases : option (list USILHullPhase);
}.

Record USILComputeContract := {
  cc_valid : bool;
  cc_shared_memory : option (list DXBCThreadGroupSharedMemoryContract);
  cc_shared_memory_count : Z;
  cc_shared_memory_capacity : Z;
}.

(** * Programs *)

Record USILProgram := {
  up_signature_declarations : option (list USILSignatureDeclaration);
  up_signature_declaration_count : Z;
  up_signature_declaration_alloc : Z;
  up_temp_count : Z;
  up_cbuffers : option (list USILConstantBuffer);
  up_cbuffer_count : Z;
  up_cbuffer_alloc : Z;
  up_textures : option (list USILTexture);
  up_texture_count : Z;
  up_texture_alloc : Z;
  up_uavs : option (list USILUav);
  up_uav_count : Z;
  up_uav_alloc : Z;
  up_instructions : option (list USILInstruction);
  up_instruction_count : Z;
  up_instruction_alloc : Z;
  up_has_stage_contract : bool;
  up_program_type : Z;
  up_shader_model_major : Z;
  up_shader_model_minor : Z;
  up_tessellation : USILTessellationContract;
  up_compute : USILComputeContract;
}.

(** [program->instructions[index]] *)
Definition instruction_at {E} (program : USILProgram) (index : Z) : res E USILInstruction :=
  instructions ← ptr (up_instructions program); aget instructions index.

Definition opcode_at {E} (program : USILProgram) (index : Z) : res E USILOpcode :=
  instruction ← instruction_at program index;
  Ret (ui_opcode instruction).

(** [instruction->operands[index]] *)
Definition operand_at {E} (instruction : USILInstruction) (index : Z) : res E DXBCOperand :=
  aget (ui_operands instruction) index.

(** * Plain instructions and programs, for samples: everything else is zero *)

Definition plain_instruction (opcode : USILOpcode) (operands : list DXBCOperand) : USILInstruction := {|
  ui_opcode := opcode; ui_saturate := false; ui_precise_mask := 0;
  ui_condition_test := DXBC_INSTRUCTION_TEST_NONE;
  ui_resource_dimension := replicate 16 Byte.x00; ui_has_resource_dimension := false;
  ui_resource_stride := 0; ui_has_texel_offset := false; ui_has_resource_return_types := false;
  ui_resource_return_types := [0; 0; 0; 0]; ui_source_instruction_index := 0;
  ui_geometry_effect := USIL_GEOMETRY_EFFECT_NONE; ui_geometry_stream_id := 0;
  ui_geometry_stream_explicit := false; ui_sync_flags := 0;
  ui_operands := operands ++ replicate (Z.to_nat DXBC_MAX_OPERANDS - length operands) zero_operand;
  ui_operand_count := zlength operands |}.

Definition plain_program (temp_count : Z) (instructions : list USILInstruction) : USILProgram := {|
  up_signature_declarations := None; up_signature_declaration_count := 0;
  up_signature_declaration_alloc := 0; up_temp_count := temp_count;
  up_cbuffers := None; up_cbuffer_count := 0; up_cbuffer_alloc := 0;
  up_textures := None; up_texture_count := 0; up_texture_alloc := 0;
  up_uavs := None; up_uav_count := 0; up_uav_alloc := 0;
  up_instructions := Some instructions; up_instruction_count := zlength instructions;
  up_instruction_alloc := zlength instructions; up_has_stage_contract := false;
  up_program_type := DXBC_PROGRAM_TYPE_PIXEL; up_shader_model_major := 5; up_shader_model_minor := 0;
  up_tessellation := {| tc_valid := false; tc_phase_count := 0; tc_phase_capacity := 0; tc_phases := None |};
  up_compute := {| cc_valid := false; cc_shared_memory := None; cc_shared_memory_count := 0;
                   cc_shared_memory_capacity := 0 |} |}.
