(* ===== verification/SsaGraph.v ===== *)
(** What the value analyses of the reconstruction compute:
    [include/translation/hlsl_ssa.h], [include/translation/hlsl_use_def.h] and
    the provenance records of [include/translation/hlsl_semantic.h].

    A definition is the index of an instruction, or one of two negative codes. *)

From S2P Require Import Prelude CArray.

#[local] Set Warnings "-register-all".

Definition HLSL_DEFINITION_UNKNOWN : Z := -1.
Definition HLSL_DEFINITION_AMBIGUOUS : Z := -2.

(** * SSA form *)

(** [incoming_vars] and [incoming_blocks] have one element for each predecessor
    of the block, and are null where it has none. *)
Record HLSLPhiNode := {
  phi_register_index : Z;
  phi_component : Z;
  phi_ssa_var : Z;
  phi_incoming_vars : list Z;
  phi_incoming_blocks : list Z;
}.

(** [phi_count] is the length. *)
Record HLSLBlockPhis := { bp_phis : list HLSLPhiNode }.

Record HLSLSSAGraph := {
  ssa_block_phis : option (list HLSLBlockPhis);
  ssa_operand_ssa_vars : option (list Z);
  ssa_relative_operand_ssa_vars : option (list Z);
  ssa_var_defs : option cells;
  ssa_instruction_count : Z;
  ssa_var_count : Z;
}.

Definition zero_ssa : HLSLSSAGraph := {|
  ssa_block_phis := None; ssa_operand_ssa_vars := None; ssa_relative_operand_ssa_vars := None;
  ssa_var_defs := None; ssa_instruction_count := 0; ssa_var_count := 0 |}.

#[export] Instance eta_phi : Eta HLSLPhiNode := fun r =>
  {| phi_register_index := phi_register_index r; phi_component := phi_component r;
     phi_ssa_var := phi_ssa_var r; phi_incoming_vars := phi_incoming_vars r;
     phi_incoming_blocks := phi_incoming_blocks r |}.
#[export] Instance set_phi_ssa_var : Setter phi_ssa_var := ltac:(derive_setter).
#[export] Instance set_phi_vars : Setter phi_incoming_vars := ltac:(derive_setter).
#[export] Instance set_phi_blocks : Setter phi_incoming_blocks := ltac:(derive_setter).

(** * Uses *)

Record HLSLUseDefGraph := {
  ud_operand_definitions : option (list Z);
  ud_definition_use_counts : option (list Z);
  ud_instruction_count : Z;
}.

Definition zero_use_def : HLSLUseDefGraph :=
  {| ud_operand_definitions := None; ud_definition_use_counts := None; ud_instruction_count := 0 |}.

(** * Provenance *)

Inductive HLSLProvenanceKind :=
| HLSL_PROVENANCE_UNDEFINED
| HLSL_PROVENANCE_INPUT
| HLSL_PROVENANCE_CONSTANT
| HLSL_PROVENANCE_TEXTURE
| HLSL_PROVENANCE_COPY
| HLSL_PROVENANCE_ARITHMETIC
| HLSL_PROVENANCE_COMPARISON
| HLSL_PROVENANCE_CONTROL.

Record HLSLComponentProvenance := {
  cp_kind : HLSLProvenanceKind;
  cp_definition_instruction : Z;
  cp_root_instruction : Z;
  cp_root_register : Z;
  cp_root_component : Z;
  cp_vector_definition : Z;
  cp_vector_mask : Z;
}.

Definition zero_provenance : HLSLComponentProvenance := {|
  cp_kind := HLSL_PROVENANCE_UNDEFINED; cp_definition_instruction := 0; cp_root_instruction := 0;
  cp_root_register := 0; cp_root_component := 0; cp_vector_definition := 0; cp_vector_mask := 0 |}.
