(* ===== verification/Cfg.v ===== *)
(** The control-flow graph of the HLSL reconstruction:
    [src/translation/hlsl_cfg.c] with [include/translation/hlsl_cfg.h].

    The matcher of structured flow control, the construction of the basic
    blocks and their edges, the depth-first postorder, dominance and dominance
    frontiers, the must-reach analysis and the recogniser of IF regions.  Of an
    instruction the graph only reads the opcode.  Every array is its own block
    of memory with the [cfg] field as sole owner, so [free] is the field
    becoming null. *)

From S2P Require Import Prelude CArray UnityCommon Heap Usil SsaGraph.

#[local] Set Warnings "-register-all".

(** * The graph *)

(** [successors] and [predecessors] are pointers into the graph's edge storage:
    an offset, or null. *)
Record HLSLBasicBlock := {
  bb_first_instruction : Z;
  bb_last_instruction : Z;
  bb_successors : option Z;
  bb_predecessors : option Z;
  bb_successor_count : Z;
  bb_predecessor_count : Z;
  bb_has_ambiguous_flow : bool;
  bb_may_exit : bool;
}.

Record HLSLBlockNesting := {
  bn_parent_block : Z;
  bn_is_loop : bool;
  bn_is_if : bool;
}.

Record HLSLInstructionFlow := {
  fl_end : Z;
  fl_alternate : Z;
  fl_parent : Z;
  fl_jump_scope : Z;
  fl_first_case : Z;
  fl_next_case : Z;
  fl_has_default : bool;
}.

Record HLSLControlFlowGraph := {
  cfg_blocks : option (list HLSLBasicBlock);
  cfg_successor_storage : option cells;
  cfg_predecessor_storage : option cells;
  cfg_block_count : Z;
  cfg_instruction_count : Z;
  cfg_instruction_block : option (list Z);
  cfg_instruction_flow : option (list HLSLInstructionFlow);
  cfg_idom : option (list Z);
  cfg_df : option (list (option (list Z)));
  cfg_df_count : option (list Z);
  cfg_nesting : option (list HLSLBlockNesting);
}.

Record HLSLIfRegion := {
  ir_header_block : Z;
  ir_true_block : Z;
  ir_false_block : Z;
  ir_join_block : Z;
  ir_else_instruction : Z;
  ir_end_instruction : Z;
}.

(** The part of [HLSLEmitterContext] the analyses use. *)
Record HLSLEmitterContext := {
  ctx_program : option USILProgram;
  ctx_component_provenance : option (list HLSLComponentProvenance);
  ctx_provenance_register_count : Z;
  ctx_cfg : HLSLControlFlowGraph;
  ctx_use_def : HLSLUseDefGraph;
  ctx_ssa : HLSLSSAGraph;
}.

#[export] Instance eta_context : Eta HLSLEmitterContext := fun r =>
  {| ctx_program := ctx_program r; ctx_component_provenance := ctx_component_provenance r;
     ctx_provenance_register_count := ctx_provenance_register_count r; ctx_cfg := ctx_cfg r;
     ctx_use_def := ctx_use_def r; ctx_ssa := ctx_ssa r |}.
#[export] Instance set_ctx_provenance : Setter ctx_component_provenance := ltac:(derive_setter).
#[export] Instance set_ctx_registers : Setter ctx_provenance_register_count := ltac:(derive_setter).
#[export] Instance set_ctx_cfg : Setter ctx_cfg := ltac:(derive_setter).
#[export] Instance set_ctx_use_def : Setter ctx_use_def := ltac:(derive_setter).
#[export] Instance set_ctx_ssa : Setter ctx_ssa := ltac:(derive_setter).

#[export] Instance eta_block : Eta HLSLBasicBlock := fun r =>
  {| bb_first_instruction := bb_first_instruction r; bb_last_instruction := bb_last_instruction r;
     bb_successors := bb_successors r; bb_predecessors := bb_predecessors r;
     bb_successor_count := bb_successor_count r; bb_predecessor_count := bb_predecessor_count r;
     bb_has_ambiguous_flow := bb_has_ambiguous_flow r; bb_may_exit := bb_may_exit r |}.
#[export] Instance set_bb_first : Setter bb_first_instruction := ltac:(derive_setter).
#[export] Instance set_bb_last : Setter bb_last_instruction := ltac:(derive_setter).
#[export] Instance set_bb_succs : Setter bb_successors := ltac:(derive_setter).
#[export] Instance set_bb_preds : Setter bb_predecessors := ltac:(derive_setter).
#[export] Instance set_bb_succ_count : Setter bb_successor_count := ltac:(derive_setter).
#[export] Instance set_bb_pred_count : Setter bb_predecessor_count := ltac:(derive_setter).
#[export] Instance set_bb_ambiguous : Setter bb_has_ambiguous_flow := ltac:(derive_setter).
#[export] Instance set_bb_exit : Setter bb_may_exit := ltac:(derive_setter).

#[export] Instance eta_flow : Eta HLSLInstructionFlow := fun r =>
  {| fl_end := fl_end r; fl_alternate := fl_alternate r; fl_parent := fl_parent r;
     fl_jump_scope := fl_jump_scope r; fl_first_case := fl_first_case r;
     fl_next_case := fl_next_case r; fl_has_default := fl_has_default r |}.
#[export] Instance set_fl_end : Setter fl_end := ltac:(derive_setter).
#[export] Instance set_fl_alternate : Setter fl_alternate := ltac:(derive_setter).
#[export] Instance set_fl_parent : Setter fl_parent := ltac:(derive_setter).
#[export] Instance set_fl_jump_scope : Setter fl_jump_scope := ltac:(derive_setter).
#[export] Instance set_fl_first_case : Setter fl_first_case := ltac:(derive_setter).
#[export] Instance set_fl_next_case : Setter fl_next_case := ltac:(derive_setter).
#[export] Instance set_fl_has_default : Setter fl_has_default := ltac:(derive_setter).

#[export] Instance eta_cfg : Eta HLSLControlFlowGraph := fun r =>
  {| cfg_blocks := cfg_blocks r; cfg_successor_storage := cfg_successor_storage r;
     cfg_predecessor_storage := cfg_predecessor_storage r; cfg_block_count := cfg_block_count r;
     cfg_instruction_count := cfg_instruction_count r;
     cfg_instruction_block := cfg_instruction_block r;
     cfg_instruction_flow := cfg_instruction_flow r; cfg_idom := cfg_idom r; cfg_df := cfg_df r;
     cfg_df_count := cfg_df_count r; cfg_nesting := cfg_nesting r |}.
#[export] Instance set_cfg_blocks : Setter cfg_blocks := ltac:(derive_setter).
#[export] Instance set_cfg_succ : Setter cfg_successor_storage := ltac:(derive_setter).
#[export] Instance set_cfg_pred : Setter cfg_predecessor_storage := ltac:(derive_setter).
#[export] Instance set_cfg_block_count : Setter cfg_block_count := ltac:(derive_setter).
#[export] Instance set_cfg_inst_count : Setter cfg_instruction_count := ltac:(derive_setter).
#[export] Instance set_cfg_inst_block : Setter cfg_instruction_block := ltac:(derive_setter).
#[export] Instance set_cfg_inst_flow : Setter cfg_instruction_flow := ltac:(derive_setter).
#[export] Instance set_cfg_idom : Setter cfg_idom := ltac:(derive_setter).
#[export] Instance set_cfg_df : Setter cfg_df := ltac:(derive_setter).
#[export] Instance set_cfg_df_count : Setter cfg_df_count := ltac:(derive_setter).
#[export] Instance set_cfg_nesting : Setter cfg_nesting := ltac:(derive_setter).

#[export] Instance eta_nesting : Eta HLSLBlockNesting := fun r =>
  {| bn_parent_block := bn_parent_block r; bn_is_loop := bn_is_loop r; bn_is_if := bn_is_if r |}.
#[export] Instance set_bn_parent : Setter bn_parent_block := ltac:(derive_setter).
#[export] Instance set_bn_loop : Setter bn_is_loop := ltac:(derive_setter).
#[export] Instance set_bn_if : Setter bn_is_if := ltac:(derive_setter).

(** What [calloc] and [memset(.., 0, ..)] leave. *)
Definition zero_block : HLSLBasicBlock := {|
  bb_first_instruction := 0; bb_last_instruction := 0; bb_successors := None;
  bb_predecessors := None; bb_successor_count := 0; bb_predecessor_count := 0;
  bb_has_ambiguous_flow := false; bb_may_exit := false |}.
Definition zero_nesting : HLSLBlockNesting :=
  {| bn_parent_block := 0; bn_is_loop := false; bn_is_if := false |}.
Definition zero_flow : HLSLInstructionFlow :=
  {| fl_end := 0; fl_alternate := 0; fl_parent := 0; fl_jump_scope := 0; fl_first_case := 0;
     fl_next_case := 0; fl_has_default := false |}.
Definition zero_cfg : HLSLControlFlowGraph := {|
  cfg_blocks := None; cfg_successor_storage := None; cfg_predecessor_storage := None;
  cfg_block_count := 0; cfg_instruction_count := 0; cfg_instruction_block := None;
  cfg_instruction_flow := None; cfg_idom := None; cfg_df := None; cfg_df_count := None;
  cfg_nesting := None |}.

(** A context that holds a program and its graph, and no other analysis. *)
Definition emitter_context (program : USILProgram) (cfg : HLSLControlFlowGraph) : HLSLEmitterContext := {|
  ctx_program := Some program; ctx_component_provenance := None;
  ctx_provenance_register_count := 0; ctx_cfg := cfg; ctx_use_def := zero_use_def;
  ctx_ssa := zero_ssa |}.

(** [sizeof] of the structures; [int] has 4 bytes and pointers 8. *)
Definition BASIC_BLOCK_SIZE : Z := 40.
Definition BLOCK_NESTING_SIZE : Z := 8.
Definition INSTRUCTION_FLOW_SIZE : Z := 28.
Definition DFS_FRAME_SIZE : Z := 8.

(** [cfg->blocks[b]], [cfg->blocks[b].successors[e]], [.predecessors[e]], and
    an assignment to a block. *)
Definition block_at {E} (cfg : HLSLControlFlowGraph) (b : Z) : res E HLSLBasicBlock :=
  blocks ← ptr (cfg_blocks cfg); aget blocks b.
Definition successor_at {E} (cfg : HLSLControlFlowGraph) (block : HLSLBasicBlock) (e : Z)
    : res E Z :=
  storage ← ptr (cfg_successor_storage cfg); base ← ptr (bb_successors block);
  cget storage (base + e).
Definition predecessor_at {E} (cfg : HLSLControlFlowGraph) (block : HLSLBasicBlock) (e : Z)
    : res E Z :=
  storage ← ptr (cfg_predecessor_storage cfg); base ← ptr (bb_predecessors block);
  cget storage (base + e).
Definition update_block {E} (cfg : HLSLControlFlowGraph) (b : Z)
    (f : HLSLBasicBlock -> HLSLBasicBlock) : res E HLSLControlFlowGraph :=
  blocks ← ptr (cfg_blocks cfg); blocks ← aupd blocks b f;
  Ret (cfg <| cfg_blocks := Some blocks |>).

(** * Matching structured flow control *)

Definition is_boundary (opcode : USILOpcode) : bool :=
  match opcode with
  | USIL_OP_IF | USIL_OP_ELSE | USIL_OP_ENDIF | USIL_OP_LOOP | USIL_OP_ENDLOOP
  | USIL_OP_SWITCH | USIL_OP_CASE | USIL_OP_DEFAULT | USIL_OP_ENDSWITCH | USIL_OP_BREAK
  | USIL_OP_BREAKC | USIL_OP_CONTINUE | USIL_OP_CONTINUEC | USIL_OP_RET | USIL_OP_DISCARD
  | USIL_OP_GEOMETRY_APPEND | USIL_OP_GEOMETRY_RESTART_STRIP => true
  | _ => false
  end.

Definition MAX_FLOW_DEPTH : nat := 64.

(** [stack] and [last_case] up to [depth], the top first. *)
Abbreviation flow_state := (list HLSLInstructionFlow * list (Z * Z))%type.

(** The nearest scope a jump leaves. *)
Fixpoint find_jump_scope {E} (program : USILProgram) (loop_only : bool) (stack : list (Z * Z))
    : res E (option Z) :=
  match stack with
  | [] => Ret None
  | (item, _) :: stack =>
      kind ← opcode_at program item;
      if op_is kind USIL_OP_LOOP || (negb loop_only && op_is kind USIL_OP_SWITCH)
      then Ret (Some item) else find_jump_scope program loop_only stack
  end.

Definition is_opener (o : USILOpcode) : bool :=
  op_is o USIL_OP_IF || op_is o USIL_OP_LOOP || op_is o USIL_OP_SWITCH.
Definition is_closer (o : USILOpcode) : bool :=
  op_is o USIL_OP_ENDIF || op_is o USIL_OP_ENDLOOP || op_is o USIL_OP_ENDSWITCH.
Definition is_label (o : USILOpcode) : bool := op_is o USIL_OP_CASE || op_is o USIL_OP_DEFAULT.
Definition is_continue (o : USILOpcode) : bool :=
  op_is o USIL_OP_CONTINUE || op_is o USIL_OP_CONTINUEC.
Definition is_jump (o : USILOpcode) : bool :=
  op_is o USIL_OP_BREAK || op_is o USIL_OP_BREAKC || is_continue o.

(** The opener a closer requires. *)
Definition required_opener (o : USILOpcode) : USILOpcode :=
  if op_is o USIL_OP_ENDIF then USIL_OP_IF
  else if op_is o USIL_OP_ENDLOOP then USIL_OP_LOOP else USIL_OP_SWITCH.

Definition match_else (enclosing : USILOpcode) (scope index : Z) (flow : list HLSLInstructionFlow)
    : res unit (list HLSLInstructionFlow) :=
  if negb (op_is enclosing USIL_OP_IF) then Fail tt else
  s ← aget flow scope;
  if 0 <=? fl_alternate s then Fail tt else
  flow ← aupd flow scope (fun f => f <| fl_alternate := index |>);
  s ← aget flow scope;
  aupd flow index (fun f => f <| fl_parent := fl_parent s |>).

Definition match_end (scope index : Z) (flow : list HLSLInstructionFlow)
    : res unit (list HLSLInstructionFlow) :=
  flow ← aupd flow scope (fun f => f <| fl_end := index |>);
  s ← aget flow scope;
  flow ← (if 0 <=? fl_alternate s
          then aupd flow (fl_alternate s) (fun f => f <| fl_end := index |>) else Ret flow);
  flow ← aupd flow index (fun f => f <| fl_jump_scope := scope |>);
  s ← aget flow scope;
  aupd flow index (fun f => f <| fl_parent := fl_parent s |>).

Definition match_label (opcode enclosing : USILOpcode) (scope last_case index : Z)
    (flow : list HLSLInstructionFlow) : res unit (list HLSLInstructionFlow) :=
  if negb (op_is enclosing USIL_OP_SWITCH) then Fail tt else
  s ← aget flow scope;
  if op_is opcode USIL_OP_DEFAULT && fl_has_default s then Fail tt else
  flow ← (if op_is opcode USIL_OP_DEFAULT
          then aupd flow scope (fun f => f <| fl_has_default := true |>) else Ret flow);
  if 0 <=? last_case then aupd flow last_case (fun f => f <| fl_next_case := index |>)
  else aupd flow scope (fun f => f <| fl_first_case := index |>).

(** One instruction of the matcher. *)
Definition match_step (program : USILProgram) (index : Z) (st : flow_state)
    : res unit flow_state :=
  let '(flow, stack) := st in
  opcode ← opcode_at program index;
  let scope := match stack with (s, _) :: _ => s | [] => -1 end in
  enclosing ← (if 0 <=? scope then opcode_at program scope else Ret USIL_OP_NOP);
  parent ← (if 0 <=? scope
            then s ← aget flow scope; Ret (if 0 <=? fl_alternate s then fl_alternate s else scope)
            else Ret scope);
  flow ← aupd flow index (fun f => f <| fl_parent := parent |>);
  if is_opener opcode then
    if (length stack =? MAX_FLOW_DEPTH)%nat then Fail tt else Ret (flow, (index, -1) :: stack)
  else if op_is opcode USIL_OP_ELSE then
    flow ← match_else enclosing scope index flow; Ret (flow, stack)
  else if is_closer opcode then
    if negb (op_is enclosing (required_opener opcode)) then Fail tt else
    flow ← match_end scope index flow; Ret (flow, tail stack)
  else if is_label opcode then
    let last_case := match stack with (_, c) :: _ => c | [] => -1 end in
    flow ← match_label opcode enclosing scope last_case index flow;
    Ret (flow, match stack with (s, _) :: stack => (s, index) :: stack | [] => [] end)
  else if is_jump opcode then
    found ← find_jump_scope program (is_continue opcode) stack;
    match found with
    | None => Fail tt
    | Some scope => flow ← aupd flow index (fun f => f <| fl_jump_scope := scope |>); Ret (flow, stack)
    end
  else Ret (flow, stack).

Definition no_flow (f : HLSLInstructionFlow) : HLSLInstructionFlow :=
  f <| fl_end := -1 |> <| fl_alternate := -1 |> <| fl_parent := -1 |>
    <| fl_jump_scope := -1 |> <| fl_first_case := -1 |> <| fl_next_case := -1 |>.

Definition match_flow_structure (program : USILProgram) (flow : list HLSLInstructionFlow)
    (first_instruction end_instruction : Z) : res unit (list HLSLInstructionFlow) :=
  flow ← for_loop (Z.to_nat (up_instruction_count program)) 0
           (fun index flow => aupd flow index no_flow) flow;
  '(flow, stack) ← for_loop (Z.to_nat (end_instruction - first_instruction)) first_instruction
                     (match_step program) (flow, []);
  match stack with [] => Ret flow | _ => Fail tt end.

(** * Building the graph *)

Section build.
Context `{U : UnityCommon, L : LibcMalloc}.

(** Is [to] already a successor of [block]? *)
Definition has_successor {E} (cfg : HLSLControlFlowGraph) (block : HLSLBasicBlock) (to : Z)
    : res E bool :=
  any_index (Z.to_nat (bb_successor_count block)) 0
    (fun item => successor ← successor_at cfg block item; Ret (successor =? to)).

(** The graph and the number of edges it has. *)
Definition add_successor (cfg : HLSLControlFlowGraph)
    (from instruction first_instruction end_instruction edge_count : Z)
    : res unit (HLSLControlFlowGraph * Z) :=
  if (from <? 0) || (cfg_block_count cfg <=? from) then Fail tt else
  if instruction =? end_instruction then
    cfg ← update_block cfg from (fun b => b <| bb_may_exit := true |>);
    Ret (cfg, edge_count)
  else if (instruction <? first_instruction) || (end_instruction <=? instruction) then Fail tt else
  instruction_block ← ptr (cfg_instruction_block cfg);
  to ← aget instruction_block instruction;
  if (to <? 0) || (cfg_block_count cfg <=? to) then Fail tt else
  block ← block_at cfg from;
  known ← has_successor cfg block to;
  if known : bool then Ret (cfg, edge_count) else
  target ← block_at cfg to;
  if (u64 (cfg_instruction_count cfg * 3) <=? edge_count) ||
     (bb_successor_count block =? INT_MAX) || (bb_predecessor_count target =? INT_MAX)
  then Fail tt else
  storage ← ptr (cfg_successor_storage cfg);
  base ← ptr (bb_successors block);
  storage ← cput storage (base + bb_successor_count block) to;
  let cfg := cfg <| cfg_successor_storage := Some storage |> in
  cfg ← update_block cfg from (fun b => b <| bb_successor_count ::= Z.add 1 |>);
  cfg ← update_block cfg to (fun b => b <| bb_predecessor_count ::= Z.add 1 |>);
  Ret (cfg, u64 (edge_count + 1)).

(** The instructions that start a block. *)
Definition mark_leader (program : USILProgram) (end_instruction index : Z) (leader : list bool)
    : res unit (list bool) :=
  opcode ← opcode_at program index;
  if negb (is_boundary opcode) then Ret leader else
  leader ← aput leader index true;
  if index + 1 <? end_instruction then aput leader (index + 1) true else Ret leader.

Definition mark_leaders (program : USILProgram) (first_instruction end_instruction : Z)
    : res unit (list bool) :=
  leader ← aput (filled (up_instruction_count program) false) first_instruction true;
  for_loop (Z.to_nat (end_instruction - first_instruction)) first_instruction
    (mark_leader program end_instruction) leader.

(** [cfg->blocks[cfg->block_count++]] at a leader. *)
Definition open_block (leader : list bool) (index : Z) (cfg : HLSLControlFlowGraph)
    : res unit HLSLControlFlowGraph :=
  leads ← aget leader index;
  if negb leads then Ret cfg else
  let block := cfg_block_count cfg in
  let cfg := cfg <| cfg_block_count ::= Z.add 1 |> in
  cfg ← update_block cfg block (fun b => b <| bb_first_instruction := index |>);
  if 0 <? block
  then update_block cfg (block - 1) (fun b => b <| bb_last_instruction := index - 1 |>)
  else Ret cfg.

Definition split_blocks (leader : list bool) (first_instruction end_instruction : Z)
    (cfg : HLSLControlFlowGraph) : res unit HLSLControlFlowGraph :=
  cfg ← for_loop (Z.to_nat (end_instruction - first_instruction)) first_instruction
          (open_block leader) cfg;
  update_block cfg (cfg_block_count cfg - 1)
    (fun b => b <| bb_last_instruction := end_instruction - 1 |>).

(** [instruction_block] of the instructions of one block. *)
Definition number_block (blocks : list HLSLBasicBlock) (block : Z) (instruction_block : list Z)
    : res unit (list Z) :=
  b ← aget blocks block;
  for_loop (Z.to_nat (bb_last_instruction b + 1 - bb_first_instruction b))
    (bb_first_instruction b) (fun index map => aput map index block) instruction_block.

Definition number_blocks (cfg : HLSLControlFlowGraph) : res unit HLSLControlFlowGraph :=
  blocks ← ptr (cfg_blocks cfg);
  map ← ptr (cfg_instruction_block cfg);
  map ← for_loop (Z.to_nat (cfg_block_count cfg)) 0 (number_block blocks) map;
  Ret (cfg <| cfg_instruction_block := Some map |>).

(** [cfg->nesting[block]] *)
Definition nest_block (program : USILProgram) (cfg : HLSLControlFlowGraph) (block parent : Z)
    : res unit HLSLControlFlowGraph :=
  nesting ← ptr (cfg_nesting cfg);
  map ← ptr (cfg_instruction_block cfg);
  parent_block ← (if 0 <=? parent then aget map parent else Ret (-1));
  nesting ← aupd nesting block (fun n => n <| bn_parent_block := parent_block |>);
  nesting ←
    (if 0 <=? parent then
       opcode ← opcode_at program parent;
       aupd nesting block (fun n =>
         n <| bn_is_loop := op_is opcode USIL_OP_LOOP |>
           <| bn_is_if := op_is opcode USIL_OP_IF || op_is opcode USIL_OP_ELSE |>)
     else Ret nesting);
  Ret (cfg <| cfg_nesting := Some nesting |>).

(** The edges to the labels of a switch, [label] being the next one. *)
Definition add_label_edge (flow : list HLSLInstructionFlow)
    (edge : Z -> HLSLControlFlowGraph * Z -> res unit (HLSLControlFlowGraph * Z))
    (st : Z * (HLSLControlFlowGraph * Z)) : res unit (Z * (HLSLControlFlowGraph * Z)) :=
  let '(label, st) := st in
  st ← edge label st;
  f ← aget flow label;
  Ret (fl_next_case f, st).

(** The edges out of a block whose last instruction is [last]; [edge] is the
    macro EDGE. *)
Definition add_edges (program : USILProgram) (flow : list HLSLInstructionFlow) (block last : Z)
    (edge : Z -> HLSLControlFlowGraph * Z -> res unit (HLSLControlFlowGraph * Z))
    (st : HLSLControlFlowGraph * Z) : res unit (HLSLControlFlowGraph * Z) :=
  let '(cfg, edge_count) := st in
  opcode ← opcode_at program last;
  if op_is opcode USIL_OP_RET then
    cfg ← update_block cfg block (fun b => b <| bb_may_exit := true |>);
    Ret (cfg, edge_count)
  else if op_is opcode USIL_OP_SWITCH then
    cfg ← update_block cfg block (fun b => b <| bb_has_ambiguous_flow := true |>);
    f ← aget flow last;
    '(_, st) ← while (length flow) (fun st => 0 <=? fst st) (add_label_edge flow edge)
                 (fl_first_case f, (cfg, edge_count));
    if negb (fl_has_default f) then edge (fl_end f + 1) st else Ret st
  else if op_is opcode USIL_OP_IF then
    st ← edge (last + 1) st;
    f ← aget flow last;
    edge ((if 0 <=? fl_alternate f then fl_alternate f else fl_end f) + 1) st
  else if op_is opcode USIL_OP_ELSE then
    f ← aget flow last;
    edge (fl_end f + 1) st
  else if is_jump opcode then
    st ← (if op_is opcode USIL_OP_BREAKC || op_is opcode USIL_OP_CONTINUEC
          then edge (last + 1) st else Ret st);
    f ← aget flow last;
    scope ← aget flow (fl_jump_scope f);
    edge (if is_continue opcode then fl_end scope else fl_end scope + 1) st
  else if op_is opcode USIL_OP_ENDLOOP then
    f ← aget flow last;
    edge (fl_jump_scope f + 1) st
  else
    cfg ← (if is_label opcode || op_is opcode USIL_OP_ENDSWITCH
           then update_block cfg block (fun b => b <| bb_has_ambiguous_flow := true |>)
           else Ret cfg);
    cfg ← update_block cfg block (fun b => b <| bb_may_exit := op_is opcode USIL_OP_DISCARD |>);
    edge (last + 1) (cfg, edge_count).

(** One block of the edge loop. *)
Definition connect_block (program : USILProgram) (flow : list HLSLInstructionFlow)
    (first_instruction end_instruction block : Z) (st : HLSLControlFlowGraph * Z)
    : res unit (HLSLControlFlowGraph * Z) :=
  let '(cfg, edge_count) := st in
  b ← block_at cfg block;
  f ← aget flow (bb_first_instruction b);
  cfg ← nest_block program cfg block (fl_parent f);
  cfg ← update_block cfg block (fun b => b <| bb_successors := Some edge_count |>);
  add_edges program flow block (bb_last_instruction b)
    (fun target '(cfg, edge_count) =>
       add_successor cfg block target first_instruction end_instruction edge_count)
    (cfg, edge_count).

(** The predecessor lists: offsets from the counts, then one entry per edge. *)
Definition place_predecessors (block : Z) (st : HLSLControlFlowGraph * Z)
    : res unit (HLSLControlFlowGraph * Z) :=
  let '(cfg, predecessor_offset) := st in
  b ← block_at cfg block;
  cfg ← update_block cfg block (fun b =>
    b <| bb_predecessors := Some predecessor_offset |> <| bb_predecessor_count := 0 |>);
  Ret (cfg, u64 (predecessor_offset + bb_predecessor_count b)).

Definition add_predecessor (block : Z) (edge : Z) (cfg : HLSLControlFlowGraph)
    : res unit HLSLControlFlowGraph :=
  value ← block_at cfg block;
  to ← successor_at cfg value edge;
  target ← block_at cfg to;
  storage ← ptr (cfg_predecessor_storage cfg);
  base ← ptr (bb_predecessors target);
  storage ← cput storage (base + bb_predecessor_count target) block;
  update_block (cfg <| cfg_predecessor_storage := Some storage |>) to
    (fun b => b <| bb_predecessor_count ::= Z.add 1 |>).

Definition add_predecessors (block : Z) (cfg : HLSLControlFlowGraph)
    : res unit HLSLControlFlowGraph :=
  value ← block_at cfg block;
  for_loop (Z.to_nat (bb_successor_count value)) 0 (add_predecessor block) cfg.

Definition invert_edges (cfg : HLSLControlFlowGraph) : res unit HLSLControlFlowGraph :=
  '(cfg, _) ← for_loop (Z.to_nat (cfg_block_count cfg)) 0 place_predecessors (cfg, 0);
  for_loop (Z.to_nat (cfg_block_count cfg)) 0 add_predecessors cfg.

(** The graph between the allocations and the label [fail]. *)
Definition connect_graph (program : USILProgram) (first_instruction end_instruction : Z)
    (cfg : HLSLControlFlowGraph) : res unit HLSLControlFlowGraph :=
  flow ← match_flow_structure program
           (filled (up_instruction_count program) zero_flow) first_instruction end_instruction;
  let cfg := cfg <| cfg_instruction_flow := Some flow |> in
  let cfg := cfg <| cfg_instruction_block := Some (filled (up_instruction_count program) (-1)) |> in
  leader ← mark_leaders program first_instruction end_instruction;
  cfg ← split_blocks leader first_instruction end_instruction cfg;
  cfg ← number_blocks cfg;
  if negb (libc_malloc (cfg_block_count cfg * BLOCK_NESTING_SIZE)) then Fail tt else
  let cfg := cfg <| cfg_nesting := Some (filled (cfg_block_count cfg) zero_nesting) |> in
  '(cfg, edge_count) ← for_loop (Z.to_nat (cfg_block_count cfg)) 0
    (connect_block program flow first_instruction end_instruction) (cfg, 0);
  let predecessors := if edge_count =? 0 then 1 else edge_count in
  if negb (libc_malloc (predecessors * 4)) then Fail tt else
  invert_edges (cfg <| cfg_predecessor_storage := Some (uninitialised predecessors) |>).

(** Whether the five allocations at the start are all granted. *)
Definition graph_memory (count : Z) : bool :=
  libc_malloc (count * 1) && libc_malloc (count * INSTRUCTION_FLOW_SIZE) &&
  libc_malloc (count * 4) && libc_malloc (count * 3 * 4) && libc_malloc (count * BASIC_BLOCK_SIZE).

Definition is_null {A} (p : option A) : bool := match p with None => true | Some _ => false end.

Definition free_control_flow_graph (ctx : HLSLEmitterContext) : HLSLEmitterContext :=
  ctx <| ctx_cfg := zero_cfg |>.

(** The result and the context; a context may be null. *)
Definition build_control_flow_graph_range {E} (ctx : option HLSLEmitterContext)
    (first_instruction end_instruction : Z) : res E (bool * option HLSLEmitterContext) :=
  match ctx with
  | None => Ret (false, ctx)
  | Some c =>
  match ctx_program c with
  | None => Ret (false, ctx)
  | Some program =>
      let count := up_instruction_count program in
      if count <? 0 then Ret (false, ctx) else
      if (first_instruction <? 0) || (end_instruction <? first_instruction) ||
         (count <? end_instruction) || ((first_instruction =? end_instruction) && negb (count =? 0))
      then Ret (false, ctx) else
      let cfg := ctx_cfg c in
      if count =? 0 then Ret (true, ctx) else
      if is_null (up_instructions program) || negb (is_null (cfg_blocks cfg)) ||
         negb (is_null (cfg_instruction_block cfg)) || negb (is_null (cfg_successor_storage cfg)) ||
         negb (is_null (cfg_predecessor_storage cfg)) || negb (is_null (cfg_instruction_flow cfg)) ||
         dxbc_size_multiply_overflows count INSTRUCTION_FLOW_SIZE ||
         dxbc_size_multiply_overflows count BASIC_BLOCK_SIZE ||
         dxbc_size_multiply_overflows count (3 * 4)
      then Ret (false, ctx) else
      built ← (if negb (graph_memory count) then Ret None else
        attempt (connect_graph program first_instruction end_instruction
          (cfg <| cfg_instruction_count := count |>
               <| cfg_successor_storage := Some (uninitialised (count * 3)) |>
               <| cfg_blocks := Some (filled count zero_block) |>)));
      match built with
      | Some cfg => Ret (true, Some (c <| ctx_cfg := cfg |>))
      | None => Ret (false, Some (free_control_flow_graph c))
      end
  end end.

Definition build_control_flow_graph {E} (ctx : option HLSLEmitterContext)
    : res E (bool * option HLSLEmitterContext) :=
  match ctx ≫= ctx_program with
  | None => Ret (false, ctx)
  | Some program => build_control_flow_graph_range ctx 0 (up_instruction_count program)
  end.
End build.

(** * Paths *)

(** One step of the walk over adjacent blocks: is the path from [block] to
    [block + 1] the only one? *)
Definition only_step {E} (cfg : HLSLControlFlowGraph) (block : Z) : res E bool :=
  current ← block_at cfg block;
  next ← block_at cfg (block + 1);
  if bb_has_ambiguous_flow current || bb_has_ambiguous_flow next ||
     negb (bb_successor_count current =? 1) then Ret false else
  successor ← successor_at cfg current 0;
  Ret ((successor =? block + 1) && (bb_predecessor_count next =? 1)).

Definition instructions_have_unambiguous_path {E} (program : USILProgram)
    (cfg : HLSLControlFlowGraph) (first second : Z) : res E bool :=
  match cfg_instruction_block cfg with
  | None => Ret false
  | Some instruction_block =>
      if (first <? 0) || (second <? first) || (up_instruction_count program <=? second)
      then Ret false else
      first_block ← aget instruction_block first;
      second_block ← aget instruction_block second;
      if (first_block <? 0) || (second_block <? 0) then Ret false else
      if first_block =? second_block then Ret true else
      rejected ← any_index (Z.to_nat (second_block - first_block)) first_block
        (fun block => only ← only_step cfg block; Ret (negb only));
      Ret (negb rejected)
  end.

Definition analyze_block_nesting (ctx : option HLSLEmitterContext) : bool :=
  match ctx with
  | None => false
  | Some c =>
      (0 <=? cfg_block_count (ctx_cfg c)) &&
      ((cfg_block_count (ctx_cfg c) =? 0) || negb (is_null (cfg_nesting (ctx_cfg c))))
  end.

(** * Postorder *)

Record DFSFrame := { df_block : Z; df_next_successor : Z }.

(** The stack up to [depth], the top first; [visited]; [postorder] and its count. *)
Record dfs_state := {
  ds_stack : list DFSFrame;
  ds_visited : list bool;
  ds_postorder : cells;
  ds_count : Z;
}.

Definition dfs_step {E} (cfg : HLSLControlFlowGraph) (st : dfs_state) : res E dfs_state :=
  match ds_stack st with
  | [] => Undef
  | frame :: stack =>
      block ← block_at cfg (df_block frame);
      if df_next_successor frame =? bb_successor_count block then
        postorder ← cput (ds_postorder st) (ds_count st) (df_block frame);
        Ret {| ds_stack := stack; ds_visited := ds_visited st; ds_postorder := postorder;
               ds_count := ds_count st + 1 |}
      else
        successor ← successor_at cfg block (df_next_successor frame);
        let stack :=
          {| df_block := df_block frame; df_next_successor := df_next_successor frame + 1 |}
            :: stack in
        seen ← aget (ds_visited st) successor;
        if seen : bool then
          Ret {| ds_stack := stack; ds_visited := ds_visited st; ds_postorder := ds_postorder st;
                 ds_count := ds_count st |}
        else
          visited ← aput (ds_visited st) successor true;
          if (cfg_block_count cfg <=? Z.of_nat (length stack)) then Undef else
          Ret {| ds_stack := {| df_block := successor; df_next_successor := 0 |} :: stack;
                 ds_visited := visited; ds_postorder := ds_postorder st;
                 ds_count := ds_count st |}
  end.

Definition dfs_running (st : dfs_state) : bool :=
  match ds_stack st with [] => false | _ => true end.

(** Each block is pushed and popped once and each edge crossed once. *)
Definition dfs_fuel (cfg : HLSLControlFlowGraph) : nat :=
  Z.to_nat (cfg_block_count cfg * (cfg_block_count cfg + 1)).

(** * Dominance *)

(** The inner loops of [intersect]: from [finger] up to a number not below that
    of [bound]. *)
Fixpoint climb {E} (fuel : nat) (postorder_numbers idom : list Z) (finger bound : Z) : res E Z :=
  if finger <? 0 then Ret finger else
  n ← aget postorder_numbers finger;
  m ← aget postorder_numbers bound;
  if negb (n <? m) then Ret finger else
  match fuel with
  | O => Undef
  | S fuel => next ← aget idom finger; climb fuel postorder_numbers idom next bound
  end.

Fixpoint intersect_loop {E} (fuel : nat) (postorder_numbers idom : list Z) (finger1 finger2 : Z)
    : res E Z :=
  if finger1 =? finger2 then Ret finger1 else
  match fuel with
  | O => Undef
  | S fuel =>
      finger1 ← climb (length idom) postorder_numbers idom finger1 finger2;
      if finger1 <? 0 then Ret finger2 else
      finger2 ← climb (length idom) postorder_numbers idom finger2 finger1;
      if finger2 <? 0 then Ret finger1 else
      intersect_loop fuel postorder_numbers idom finger1 finger2
  end.

Definition intersect {E} (b1 b2 : Z) (postorder_numbers idom : list Z) : res E Z :=
  intersect_loop (2 * length idom) postorder_numbers idom b1 b2.

(** [frontiers] and [frontier_counts]. *)
Abbreviation frontier_state := (list (option (list Z)) * list Z)%type.

Section dominance.
Context `{U : UnityCommon, L : LibcMalloc}.

Definition build_postorder (cfg : HLSLControlFlowGraph) (postorder : cells)
    : res unit (cells * Z) :=
  let n := cfg_block_count cfg in
  if dxbc_size_multiply_overflows n DFS_FRAME_SIZE then Fail tt else
  if negb (libc_malloc (n * DFS_FRAME_SIZE) && libc_malloc (n * 1)) then Fail tt else
  visited ← aput (filled n false) 0 true;
  st ← while (dfs_fuel cfg) dfs_running (dfs_step cfg)
         {| ds_stack := [{| df_block := 0; df_next_successor := 0 |}]; ds_visited := visited;
            ds_postorder := postorder; ds_count := 0 |};
  Ret (ds_postorder st, ds_count st).

(** A frontier array after its first [count] entries have been searched. *)
Definition add_frontier (values : option (list Z)) (count block : Z)
    : res unit (option (list Z) * Z) :=
  present ← any_index (Z.to_nat count) 0
    (fun index => xs ← ptr values; x ← aget xs index; Ret (x =? block));
  if present : bool then Ret (values, count) else
  if (count =? INT_MAX) || dxbc_size_multiply_overflows (u64 (count + 1)) 4 then Fail tt else
  if negb (libc_malloc (u64 (u64 (count + 1) * 4))) then Fail tt else
  Ret (Some (default [] values ++ [block]), count + 1).

(** The parent over the predecessors seen so far. *)
Definition meet_predecessor {E} (cfg : HLSLControlFlowGraph) (block : HLSLBasicBlock)
    (numbers idom : list Z) (edge parent : Z) : res E Z :=
  predecessor ← predecessor_at cfg block edge;
  d ← aget idom predecessor;
  if d <? 0 then Ret parent
  else if parent <? 0 then Ret predecessor else intersect parent predecessor numbers idom.

(** The immediate dominator of one block, recomputed. *)
Definition update_idom {E} (cfg : HLSLControlFlowGraph) (numbers : list Z) (block_index : Z)
    (st : bool * list Z) : res E (bool * list Z) :=
  let '(changed, idom) := st in
  block ← block_at cfg block_index;
  parent ← for_loop (Z.to_nat (bb_predecessor_count block)) 0
             (meet_predecessor cfg block numbers idom) (-1);
  old ← aget idom block_index;
  if negb (parent =? old) then idom ← aput idom block_index parent; Ret (true, idom)
  else Ret (changed, idom).

(** One pass of the [while (changed)] loop, in reverse postorder. *)
Definition sweep {E} (cfg : HLSLControlFlowGraph) (postorder : cells) (postorder_count : Z)
    (numbers : list Z) (st : bool * list Z) : res E (bool * list Z) :=
  for_loop (Z.to_nat (postorder_count - 1)) 0
    (fun k st => block_index ← cget postorder (postorder_count - 2 - k);
                 update_idom cfg numbers block_index st)
    (false, snd st).

(** Every pass but the last moves an immediate dominator up. *)
Definition sweep_fuel (cfg : HLSLControlFlowGraph) : nat :=
  Z.to_nat (cfg_block_count cfg * (cfg_block_count cfg + 1) + 2).

(** One block whose frontier [block_index] joins, from a predecessor up. *)
Definition runner_step (idom : list Z) (block_index : Z) (st : Z * frontier_state)
    : res unit (Z * frontier_state) :=
  let '(runner, (frontiers, counts)) := st in
  values ← aget frontiers runner;
  count ← aget counts runner;
  '(values, count) ← add_frontier values count block_index;
  frontiers ← aput frontiers runner values;
  counts ← aput counts runner count;
  next ← aget idom runner;
  Ret (next, (frontiers, counts)).

Definition frontier_edge (cfg : HLSLControlFlowGraph) (idom : list Z) (block_index : Z)
    (block : HLSLBasicBlock) (edge : Z) (st : frontier_state) : res unit frontier_state :=
  runner ← predecessor_at cfg block edge;
  d ← aget idom runner;
  if d <? 0 then Ret st else
  stop ← aget idom block_index;
  '(_, st) ← while (length idom) (fun st => negb (fst st =? stop)) (runner_step idom block_index)
               (runner, st);
  Ret st.

Definition frontier_block (cfg : HLSLControlFlowGraph) (idom : list Z) (block_index : Z)
    (st : frontier_state) : res unit frontier_state :=
  block ← block_at cfg block_index;
  d ← aget idom block_index;
  if (d <? 0) || (bb_predecessor_count block <? 2) then Ret st else
  for_loop (Z.to_nat (bb_predecessor_count block)) 0
    (frontier_edge cfg idom block_index block) st.

(** The computation between the allocations and the label [cleanup]. *)
Definition dominance_tree (cfg : HLSLControlFlowGraph) : res unit (list Z) :=
  let n := cfg_block_count cfg in
  '(postorder, postorder_count) ← build_postorder cfg (uninitialised n);
  numbers ← for_loop (Z.to_nat postorder_count) 0
    (fun index numbers => b ← cget postorder index; aput numbers b index) (filled n (-1));
  idom ← aput (filled n (-1)) 0 0;
  '(_, idom) ← while (sweep_fuel cfg) fst (sweep cfg postorder postorder_count numbers)
                 (true, idom);
  Ret idom.

Definition dominance_frontiers (cfg : HLSLControlFlowGraph) (idom : list Z)
    : res unit frontier_state :=
  let n := cfg_block_count cfg in
  for_loop (Z.to_nat n) 0 (frontier_block cfg idom) (filled n None, filled n 0).

Definition compute_dominance {E} (cfg : HLSLControlFlowGraph)
    : res E (bool * HLSLControlFlowGraph) :=
  let n := cfg_block_count cfg in
  if (n <? 0) || negb (is_null (cfg_idom cfg)) || negb (is_null (cfg_df cfg)) ||
     negb (is_null (cfg_df_count cfg)) || dxbc_size_multiply_overflows n 4 ||
     dxbc_size_multiply_overflows n 8 then Ret (false, cfg) else
  if n =? 0 then Ret (true, cfg) else
  if is_null (cfg_blocks cfg) || is_null (cfg_successor_storage cfg) ||
     is_null (cfg_predecessor_storage cfg) then Ret (false, cfg) else
  if negb (libc_malloc (n * 4) && libc_malloc (n * 8)) then Ret (false, cfg) else
  computed ← attempt (
    idom ← dominance_tree cfg;
    '(frontiers, counts) ← dominance_frontiers cfg idom;
    Ret (idom, frontiers, counts));
  match computed with
  | None => Ret (false, cfg)
  | Some (idom, frontiers, counts) =>
      Ret (true, cfg <| cfg_idom := Some idom |> <| cfg_df := Some frontiers |>
                     <| cfg_df_count := Some counts |>)
  end.
End dominance.

(** The walk of [hlsl_cfg_dominates], [steps] iterations left. *)
Fixpoint dominates_loop {E} (steps : nat) (block_count : Z) (idom : list Z) (dominator block : Z)
    : res E bool :=
  match steps with
  | O => Ret false
  | S steps =>
      if block =? dominator then Ret true else
      parent ← aget idom block;
      if (parent <? 0) || (block_count <=? parent) || (parent =? block) then Ret false
      else dominates_loop steps block_count idom dominator parent
  end.

Definition hlsl_cfg_dominates {E} (cfg : HLSLControlFlowGraph) (dominator block : Z)
    : res E bool :=
  match cfg_idom cfg with
  | None => Ret false
  | Some idom =>
      let n := cfg_block_count cfg in
      if (dominator <? 0) || (n <=? dominator) || (block <? 0) || (n <=? block) then Ret false else
      d ← aget idom dominator;
      b ← aget idom block;
      if (d <? 0) || (b <? 0) then Ret false
      else dominates_loop (Z.to_nat n) n idom dominator block
  end.

(** * Must-reach *)

Record reach_state := {
  rs_remaining : list Z;
  rs_queue : cells;
  rs_head : Z;
  rs_tail : Z;
}.

Section reach.
Context `{U : UnityCommon, L : LibcMalloc}.

(** One predecessor of a proven block; [Fail b] is [goto cleanup] with
    [proven = b]. *)
Definition reach_predecessor (cfg : HLSLControlFlowGraph) (idom : list Z) (start : Z)
    (block : HLSLBasicBlock) (edge : Z) (st : reach_state) : res bool reach_state :=
  predecessor ← predecessor_at cfg block edge;
  if (predecessor <? 0) || (cfg_block_count cfg <=? predecessor) then Fail false else
  d ← aget idom predecessor;
  p ← block_at cfg predecessor;
  remaining ← aget (rs_remaining st) predecessor;
  if (d <? 0) || bb_may_exit p || (remaining <=? 0) then Ret st else
  counts ← aput (rs_remaining st) predecessor (remaining - 1);
  if negb (remaining - 1 =? 0) then
    Ret {| rs_remaining := counts; rs_queue := rs_queue st; rs_head := rs_head st;
           rs_tail := rs_tail st |}
  else if predecessor =? start then Fail true else
  queue ← cput (rs_queue st) (rs_tail st) predecessor;
  Ret {| rs_remaining := counts; rs_queue := queue; rs_head := rs_head st;
         rs_tail := rs_tail st + 1 |}.

Definition reach_block (cfg : HLSLControlFlowGraph) (idom : list Z) (start : Z)
    (st : reach_state) : res bool reach_state :=
  b ← cget (rs_queue st) (rs_head st);
  block ← block_at cfg b;
  for_loop (Z.to_nat (bb_predecessor_count block)) 0
    (reach_predecessor cfg idom start block)
    {| rs_remaining := rs_remaining st; rs_queue := rs_queue st; rs_head := rs_head st + 1;
       rs_tail := rs_tail st |}.

(** The loop of the function, up to [cleanup]. *)
Definition prove_reach (cfg : HLSLControlFlowGraph) (idom : list Z) (start target : Z)
    : res bool reach_state :=
  let n := cfg_block_count cfg in
  remaining ← for_loop (Z.to_nat n) 0
    (fun b remaining => block ← block_at cfg b; aput remaining b (bb_successor_count block))
    (filled n 0);
  queue ← cput (uninitialised n) 0 target;
  remaining ← aput remaining target 0;
  while (Z.to_nat n) (fun st => rs_head st <? rs_tail st) (reach_block cfg idom start)
    {| rs_remaining := remaining; rs_queue := queue; rs_head := 0; rs_tail := 1 |}.

Definition hlsl_cfg_must_reach {E} (cfg : HLSLControlFlowGraph) (start target : Z)
    : res E bool :=
  match cfg_blocks cfg, cfg_idom cfg with
  | Some _, Some idom =>
      let n := cfg_block_count cfg in
      if (start <? 0) || (n <=? start) || (target <? 0) || (n <=? target) then Ret false else
      s ← aget idom start;
      t ← aget idom target;
      if (s <? 0) || (t <? 0) || dxbc_size_multiply_overflows n 4 then Ret false else
      if start =? target then Ret true else
      if negb (libc_malloc (n * 4)) then Ret false else
      match prove_reach cfg idom start target with
      | Ret _ => Ret false
      | Fail proven => Ret proven
      | Undef => Undef
      end
  | _, _ => Ret false
  end.

(** * IF regions *)

(** One block strictly between the header and the join: [true] rejects. *)
Definition foreign_block {E} (cfg : HLSLControlFlowGraph) (header join index : Z) : res E bool :=
  block ← block_at cfg index;
  dominated ← hlsl_cfg_dominates cfg header index;
  if negb dominated then Ret true else
  any_index (Z.to_nat (bb_predecessor_count block)) 0
    (fun edge => predecessor ← predecessor_at cfg block edge;
                 Ret ((predecessor <? header) || (join <=? predecessor))).

Definition hlsl_cfg_if_region {E} (ctx : HLSLEmitterContext) (instruction : Z)
    : res E (option HLSLIfRegion) :=
  match ctx_program ctx with
  | None => Ret None
  | Some program =>
  match up_instructions program with
  | None => Ret None
  | Some _ =>
      if (instruction <? 0) || (up_instruction_count program <=? instruction) then Ret None else
      opcode ← opcode_at program instruction;
      if negb (op_is opcode USIL_OP_IF) then Ret None else
      let cfg := ctx_cfg ctx in
      match cfg_blocks cfg, cfg_instruction_flow cfg, cfg_instruction_block cfg with
      | Some _, Some instruction_flow, Some instruction_block =>
          if negb (cfg_instruction_count cfg =? up_instruction_count program) then Ret None else
          flow ← aget instruction_flow instruction;
          if (fl_end flow <=? instruction) || (cfg_instruction_count cfg - 1 <=? fl_end flow)
          then Ret None else
          header ← aget instruction_block instruction;
          on_true ← aget instruction_block (instruction + 1);
          on_false ← aget instruction_block
            ((if 0 <=? fl_alternate flow then fl_alternate flow else fl_end flow) + 1);
          join ← aget instruction_block (fl_end flow + 1);
          dominated ← hlsl_cfg_dominates cfg header join;
          if negb dominated then Ret None else
          reached ← hlsl_cfg_must_reach cfg header join;
          if negb reached then Ret None else
          foreign ← any_index (Z.to_nat (join - (header + 1))) (header + 1)
            (foreign_block cfg header join);
          if foreign : bool then Ret None else
          Ret (Some {| ir_header_block := header; ir_true_block := on_true;
                       ir_false_block := on_false; ir_join_block := join;
                       ir_else_instruction := fl_alternate flow;
                       ir_end_instruction := fl_end flow |})
      | _, _, _ => Ret None
      end
  end end.
End reach.
