(* ===== verification/FlowGraph.v ===== *)
(** Flow graphs as the analyses of hlsl_cfg.c see them: what a
    [HLSLControlFlowGraph] represents, and the notions the analyses are about:
    reachability, walks and dominance.

    [CfgBuild] shows that the graphs the builder makes represent a well-formed
    flow graph; [Postorder], [Dominance], [Frontier] and [MustReach] only rely
    on that. *)

From stdpp Require Import relations.
From S2P Require Import Prelude CArray Usil Cfg.

#[local] Set Warnings "-register-all".

Record flow_graph := {
  fg_count : Z;
  fg_succ : Z -> list Z;
  fg_pred : Z -> list Z;
  fg_exit : Z -> bool;
}.

Definition node (G : flow_graph) (b : Z) : Prop := 0 <= b < fg_count G.
Definition edge (G : flow_graph) (a b : Z) : Prop := node G a /\ b ∈ fg_succ G a.

(** Block 0 is the entry, which no edge enters. *)
Record flow_graph_ok (G : flow_graph) : Prop := {
  fg_count_ok : 0 < fg_count G <= INT_MAX;
  fg_edge_node a b : edge G a b -> node G b;
  fg_inverse a b : node G b -> a ∈ fg_pred G b <-> edge G a b;
  fg_succ_nodup b : NoDup (fg_succ G b);
  fg_pred_nodup b : NoDup (fg_pred G b);
  fg_entry a : ~ edge G a 0;
}.

(** A block of [cfg] with its lists. *)
Record block_represents (cfg : HLSLControlFlowGraph) (G : flow_graph) (b : Z)
    (block : HLSLBasicBlock) : Prop := {
  br_succ_count : bb_successor_count block = zlength (fg_succ G b);
  br_pred_count : bb_predecessor_count block = zlength (fg_pred G b);
  br_exit : bb_may_exit block = fg_exit G b;
  br_succ e s : znth (fg_succ G b) e = Some s -> forall E, successor_at (E:=E) cfg block e = Ret s;
  br_pred e p : znth (fg_pred G b) e = Some p -> forall E, predecessor_at (E:=E) cfg block e = Ret p;
}.

Record represents (cfg : HLSLControlFlowGraph) (G : flow_graph) : Prop := {
  rp_count : cfg_block_count cfg = fg_count G;
  rp_blocks : cfg_blocks cfg <> None;
  rp_block b : node G b ->
    exists block, (forall E, block_at (E:=E) cfg b = Ret block) /\ block_represents cfg G b block;
}.

(** * Walks *)

Definition reachable (G : flow_graph) (b : Z) : Prop := rtc (edge G) 0 b.

(** The blocks a walk visits, both ends included. *)
Inductive walk (G : flow_graph) (a : Z) : list Z -> Z -> Prop :=
| walk_one : walk G a [a] a
| walk_step l b c : walk G a l b -> edge G b c -> walk G a (l ++ [c]) c.

(** [d] is on every walk from the entry to [b]. *)
Definition dominates (G : flow_graph) (d b : Z) : Prop :=
  reachable G b /\ forall l, walk G 0 l b -> d ∈ l.

(** [b] is in the dominance frontier of [d]. *)
Definition in_frontier (G : flow_graph) (d b : Z) : Prop :=
  (exists p, edge G p b /\ dominates G d p) /\ ~ (dominates G d b /\ d <> b).

(** A loop over the elements of an array. *)
Lemma outcome_for_array {E S A} (xs : list A) (I : list A -> S -> Prop) (F : E -> Prop)
    (body : Z -> S -> res E S) s :
  I [] s ->
  (forall done x rest t, xs = done ++ x :: rest -> znth xs (zlength done) = Some x -> I done t ->
     outcome (body (zlength done) t) (I (done ++ [x])) F) ->
  outcome (for_loop (Z.to_nat (zlength xs)) 0 body s) (I xs) F.
Proof.
  intros Hs Hbody. set (J (i : Z) t := I (take (Z.to_nat i) xs) t).
  eapply outcome_mono with (Q := J (0 + Z.of_nat (Z.to_nat (zlength xs)))); [| |done].
  - apply outcome_for; [done|]. intros j t Hj HJ.
    destruct (znth_is_Some xs j) as [x Hx]; [lia|].
    assert (Hlook : xs !! Z.to_nat j = Some x) by (rewrite znth_nonneg in Hx; [done|lia]).
    assert (Hl : zlength (take (Z.to_nat j) xs) = j).
    { unfold zlength. apply lookup_lt_Some in Hlook. rewrite length_take_le by lia. lia. }
    eapply outcome_mono; [|intros u Hu; exact Hu|done].
    unfold J. replace (Z.to_nat (j + 1)) with (Datatypes.S (Z.to_nat j)) by lia.
    rewrite (take_S_r _ _ _ Hlook). rewrite <- Hl at 1.
    eapply Hbody; [|by rewrite Hl|exact HJ]. symmetry. by apply take_drop_middle.
  - intros t. unfold J, zlength. rewrite take_ge by lia. done.
Qed.

(** A search through an array. *)
Lemma any_index_array {E A} (xs : list A) (P : A -> Prop) (test : Z -> res E bool) :
  (forall i x, znth xs i = Some x -> exists b, test i = Ret b /\ (b = true <-> P x)) ->
  exists b, any_index (Z.to_nat (zlength xs)) 0 test = Ret b /\
    (b = true <-> exists x, x ∈ xs /\ P x).
Proof.
  intros Ht.
  destruct (any_index_spec (fun i => exists x, znth xs i = Some x /\ P x)
              (Z.to_nat (zlength xs)) 0 test) as (b & Hrun & Hb).
  { intros j Hj. destruct (znth_is_Some xs j) as [x Hx]; [lia|].
    destruct (Ht j x Hx) as (b & Hb & HP). exists b. split; [done|]. rewrite HP. split; [eauto|].
    intros (y & Hy & HPy). congruence. }
  exists b. split; [done|]. rewrite Hb. split.
  - intros (j & _ & x & Hx & HP). exists x. split; [|done]. apply znth_elem_of. eauto.
  - intros (x & Hx & HP). apply znth_elem_of in Hx as [j Hj]. exists j.
    split; [apply znth_Some in Hj; lia|eauto].
Qed.

Section graph.
Context (G : flow_graph) (HG : flow_graph_ok G).

#[export] Instance node_decision b : Decision (node G b).
Proof. unfold node. apply _. Defined.

Lemma entry_node : node G 0.
Proof. pose proof (fg_count_ok G HG). unfold node. lia. Qed.

Lemma reachable_entry : reachable G 0.
Proof. apply rtc_refl. Qed.

Lemma reachable_step a b : reachable G a -> edge G a b -> reachable G b.
Proof. apply rtc_r. Qed.

Lemma reachable_node b : reachable G b -> node G b.
Proof.
  unfold reachable. intros Hr. apply rtc_inv_r in Hr as [<-|(a & _ & He)].
  - apply entry_node.
  - by eapply fg_edge_node.
Qed.

Lemma reachable_walk b : reachable G b <-> exists l, walk G 0 l b.
Proof.
  split.
  - unfold reachable. revert b. apply rtc_ind_r.
    + eexists. apply walk_one.
    + intros a b _ Hab [l Hl]. eexists. by eapply walk_step.
  - intros [l Hl]. induction Hl; [apply reachable_entry|by eapply reachable_step].
Qed.

Lemma walk_end a l b : walk G a l b -> b ∈ l.
Proof. destruct 1; [by left|]. apply elem_of_app. right. by left. Qed.

Lemma walk_start a l b : walk G a l b -> a ∈ l.
Proof. induction 1; [by left|]. apply elem_of_app. by left. Qed.

Lemma walk_app a l b l' c : walk G a l b -> walk G b l' c -> exists m, walk G a m c /\
  forall x, x ∈ m <-> x ∈ l \/ x ∈ l'.
Proof.
  intros Hl Hl'. induction Hl' as [|l' c e Hc (m & Hm & Hx) He].
  - exists l. split; [done|]. intros x. rewrite list_elem_of_singleton. split; [eauto|].
    intros [?| ->]; [done|]. by eapply walk_end.
  - exists (m ++ [e]). split; [by eapply walk_step|]. intros x.
    rewrite !elem_of_app, Hx. tauto.
Qed.

(** A walk has been at each of its blocks. *)
Lemma walk_prefix a l b c : walk G a l b -> c ∈ l -> exists l1 l2, l = l1 ++ [c] ++ l2 /\ walk G a (l1 ++ [c]) c.
Proof.
  induction 1 as [|l b e Hl IH He]; intros Hc.
  - apply list_elem_of_singleton in Hc as ->. exists [], []. split; [done|constructor].
  - apply elem_of_app in Hc as [Hc|Hc].
    + destruct (IH Hc) as (l1 & l2 & -> & Hw). exists l1, (l2 ++ [e]). by rewrite <- !app_assoc.
    + apply list_elem_of_singleton in Hc as ->. exists l, []. by split; [|eapply walk_step].
Qed.

(** A walk that is at no block twice, through no others. *)
Lemma walk_simple a l b : walk G a l b -> exists m, walk G a m b /\ NoDup m /\ forall x, x ∈ m -> x ∈ l.
Proof.
  induction 1 as [|l b c Hl (m & Hm & Hn & Hsub) He].
  - exists [a]. split_and!; [constructor|apply NoDup_singleton|done].
  - destruct (decide (c ∈ m)) as [Hc|Hc].
    + destruct (walk_prefix a m b c Hm Hc) as (m1 & m2 & -> & Hw). exists (m1 ++ [c]). split_and!; [done| |].
      * rewrite app_assoc in Hn. by apply list.NoDup_app in Hn as [? _].
      * intros x Hx. apply elem_of_app. left. apply Hsub. rewrite app_assoc. apply elem_of_app. by left.
    + exists (m ++ [c]). split_and!; [by eapply walk_step| |].
      * apply list.NoDup_app. split_and!; [done| |apply NoDup_singleton]. by intros x Hx ->%list_elem_of_singleton.
      * intros x Hx. apply elem_of_app in Hx as [Hx|Hx]; apply elem_of_app; [left; by apply Hsub|by right].
Qed.

Lemma walk_nodes l b : walk G 0 l b -> forall x, x ∈ l -> node G x.
Proof.
  intros Hw x Hx. destruct (walk_prefix 0 l b x Hw Hx) as (l1 & l2 & _ & Hp). apply reachable_node, reachable_walk. eauto.
Qed.

(** Whether a walk of at most [n] steps from the entry avoids [d]. *)
Fixpoint avoids (d : Z) (n : nat) (b : Z) : Prop :=
  b <> d /\ (b = 0 \/ match n with O => False | S n => Exists (avoids d n) (fg_pred G b) end).

#[local] Instance avoids_dec d n b : Decision (avoids d n b).
Proof. revert b. induction n as [|n IH]; intros b; apply _. Defined.

Lemma avoids_walk d n b : node G b -> avoids d n b -> exists l, walk G 0 l b /\ d ∉ l.
Proof.
  revert b. induction n as [|n IH]; intros b Hb [Hbd [->|Hn]]; try done.
  1,2: exists [0]; split; [constructor|]; rewrite list_elem_of_singleton; congruence.
  apply list.Exists_exists in Hn as (p & Hp & Ha). apply (fg_inverse G HG) in Hp; [|done].
  destruct (IH p) as (l & Hl & Hd); [by destruct Hp|done|]. exists (l ++ [b]). split; [by eapply walk_step|].
  rewrite elem_of_app, list_elem_of_singleton. by intros [?| ->].
Qed.

Lemma walk_avoids d l b n : walk G 0 l b -> d ∉ l -> (length l <= S n)%nat -> avoids d n b.
Proof.
  intros Hw. revert n. induction Hw as [|l b c Hw IH He]; intros n Hd Hn.
  - destruct n; (split; [|by left]); intros <-; apply Hd; left.
  - rewrite elem_of_app, list_elem_of_singleton in Hd. rewrite length_app in Hn. cbn in Hn.
    destruct n as [|n]; [destruct Hw; cbn in Hn; rewrite ?length_app in Hn; cbn in Hn; lia|].
    split; [intros ->; tauto|]. right. apply list.Exists_exists. exists b. split.
    + apply (fg_inverse G HG); [by eapply fg_edge_node|done].
    + apply IH; [tauto|lia].
Qed.

(** * Dominance *)

(** A block that does not dominate a reachable one is avoided by some walk to it. *)
Lemma not_dominates d b : reachable G b -> ~ dominates G d b -> exists l, walk G 0 l b /\ d ∉ l.
Proof.
  intros Hb Hd. destruct (decide (avoids d (Z.to_nat (fg_count G)) b)) as [Ha|Ha].
  { by apply (avoids_walk d (Z.to_nat (fg_count G)) b); [apply reachable_node|]. }
  exfalso. apply Hd. split; [done|]. intros l Hl. destruct (decide (d ∈ l)) as [|Hno]; [done|]. exfalso. apply Ha.
  destruct (walk_simple 0 l b Hl) as (m & Hm & Hnd & Hsub). apply (walk_avoids d m b); [done|by intros ?%Hsub|].
  assert (Hle : (length m <= length (seqZ 0 (fg_count G)))%nat).
  { apply submseteq_length, NoDup_submseteq; [done|]. intros x Hx. apply elem_of_seqZ.
    pose proof (walk_nodes m b Hm x Hx). unfold node in *. lia. }
  rewrite length_seqZ in Hle. lia.
Qed.

(** A block in the frontier of [d] is entered by a walk that has not been at [d]. *)
Lemma frontier_entered d b : in_frontier G d b -> exists l q, walk G 0 l q /\ edge G q b /\ d ∉ l.
Proof.
  intros [(p & He & Hd) Hno]. pose proof (reachable_step p b (proj1 Hd) He) as Hb.
  assert (Hw : exists l, walk G 0 l b /\ forall l' , l = l' ++ [b] -> d ∉ l').
  { destruct (decide (d = b)) as [->|Hne].
    - apply reachable_walk in Hb as [l Hl]. destruct (walk_simple 0 l b Hl) as (m & Hm & Hnd & _). exists m. split; [done|].
      intros l' ->. apply list.NoDup_app in Hnd as (_ & Hnd & _). intros Hin. apply (Hnd b Hin). by left.
    - destruct (not_dominates d b Hb) as (l & Hl & Hd'); [tauto|]. exists l. split; [done|]. intros l' -> Hin.
      apply Hd', elem_of_app. by left. }
  destruct Hw as (l & Hl & Hd'). destruct Hl as [|l q b Hl Hq]; [by apply (fg_entry G HG) in He|]. exists l, q. eauto.
Qed.

Lemma dominates_refl b : reachable G b -> dominates G b b.
Proof. intros Hb. split; [done|]. intros l. apply walk_end. Qed.

Lemma dominates_entry b : reachable G b -> dominates G 0 b.
Proof. intros Hb. split; [done|]. intros l. apply walk_start. Qed.

Lemma dominates_of_entry d : dominates G d 0 -> d = 0.
Proof. intros [_ Hd]. apply list_elem_of_singleton, Hd. constructor. Qed.

(** A strict dominator dominates every reachable predecessor, and conversely. *)
Lemma dominates_pred d b :
  reachable G b -> b <> 0 -> d <> b ->
  dominates G d b <-> forall p, edge G p b -> reachable G p -> dominates G d p.
Proof.
  intros Hb Hb0 Hdb. split.
  - intros [_ Hd] p Hp Hrp. split; [done|]. intros l Hl.
    pose proof (Hd _ (walk_step G 0 l p b Hl Hp)) as Hin. apply elem_of_app in Hin as [?|Hin]; [done|].
    apply list_elem_of_singleton in Hin. done.
  - intros Hall. split; [done|]. intros l Hl. destruct Hl as [|l p c Hl He]; [done|].
    apply elem_of_app. left. apply (Hall p); [done| |done]. apply reachable_walk. eauto.
Qed.

Lemma edge_pred a b : node G b -> edge G a b -> a ∈ fg_pred G b.
Proof. intros ?. by apply fg_inverse. Qed.

Lemma pred_edge a b : node G b -> a ∈ fg_pred G b -> edge G a b.
Proof. intros ?. by apply fg_inverse. Qed.
End graph.

Section read.
Context (cfg : HLSLControlFlowGraph) (G : flow_graph) (HR : represents cfg G).

(** Reading a block of a graph. *)
Lemma read_block {E} b : node G b -> exists block,
  block_at (E:=E) cfg b = Ret block /\ block_represents cfg G b block.
Proof. intros Hb. destruct (rp_block cfg G HR b Hb) as (block & Hrun & Hblock). eauto. Qed.
End read.
