(* ===== verification/Postorder.v ===== *)
(** The depth-first search of hlsl_cfg.c ([build_postorder]): it numbers every
    reachable block once, the entry last, and every other block below one of
    its predecessors. *)

From stdpp Require Import relations.
From S2P Require Import Prelude CArray UnityCommon Heap Usil Cfg FlowGraph.

#[local] Set Warnings "-register-all".

(** What a postorder promises to the dominance computation. *)
Record postorder_of (G : flow_graph) (P : list Z) : Prop := {
  po_nodup : NoDup P;
  po_reach b : b ∈ P <-> reachable G b;
  po_entry : list.last P = Some 0;
  po_parent i b : znth P i = Some b -> b <> 0 ->
    exists j p, i < j /\ znth P j = Some p /\ edge G p b;
}.

(** The cells an array has received so far. *)
Definition wrote (xs : cells) (l : list Z) : Prop :=
  forall i x, znth l i = Some x -> znth xs i = Some (Some x).

Section arrays.
Implicit Types (xs : cells) (l : list Z).

Lemma wrote_push xs l x :
  wrote xs l -> wrote (zset xs (zlength l) (Some x)) (l ++ [x]) \/ zlength xs <= zlength l.
Proof.
  intros Hw. destruct (decide (zlength l < zlength xs)) as [Hlt|]; [left|lia].
  intros i y Hy. apply znth_snoc in Hy as [Hy|[-> ->]].
  - rewrite znth_zset_ne; [by apply Hw|]. apply znth_Some in Hy. lia.
  - apply znth_zset_eq. pose proof (zlength_nonneg l). lia.
Qed.

(** Distinct numbers below [n]. *)
Lemma zlength_NoDup_le l n : 0 <= n -> NoDup l -> (forall x, x ∈ l -> 0 <= x < n) -> zlength l <= n.
Proof.
  intros Hn Hd Hr. assert (Hs : l ⊆+ seqZ 0 n).
  { apply NoDup_submseteq; [done|]. intros x Hx. apply elem_of_seqZ. specialize (Hr x Hx). lia. }
  apply submseteq_length in Hs. rewrite length_seqZ in Hs. unfold zlength. lia.
Qed.
End arrays.

Section dfs.
Context `{U : UnityCommon} `{L : LibcMalloc}.
Context (G : flow_graph) (HG : flow_graph_ok G).
Context (cfg : HLSLControlFlowGraph) (HR : represents cfg G).

Abbreviation blocks := (map df_block).

(** From the top of the stack down, each block entered from the next. *)
Inductive linked : list DFSFrame -> Prop :=
| linked_nil : linked []
| linked_one f : df_block f = 0 -> linked [f]
| linked_cons f g stack :
    edge G (df_block g) (df_block f) -> linked (g :: stack) -> linked (f :: g :: stack).

Definition entered (P : list Z) (stack : list DFSFrame) (b : Z) : Prop := b ∈ P ++ blocks stack.

(** The first [next_successor] successors of a frame have been entered. *)
Definition frame_ok (P : list Z) (stack : list DFSFrame) (f : DFSFrame) : Prop :=
  0 <= df_next_successor f <= zlength (fg_succ G (df_block f)) /\
  forall e s, e < df_next_successor f -> znth (fg_succ G (df_block f)) e = Some s ->
    entered P stack s.

Record dfs_inv (st : dfs_state) (P : list Z) : Prop := {
  di_count : ds_count st = zlength P;
  di_cells : wrote (ds_postorder st) P /\ zlength (ds_postorder st) = fg_count G;
  di_seen : zlength (ds_visited st) = fg_count G /\
    forall b v, znth (ds_visited st) b = Some v -> v = true <-> entered P (ds_stack st) b;
  di_nodup : NoDup (P ++ blocks (ds_stack st));
  di_reach b : entered P (ds_stack st) b -> reachable G b;
  di_frames : Forall (frame_ok P (ds_stack st)) (ds_stack st);
  di_closed a b : a ∈ P -> edge G a b -> entered P (ds_stack st) b;
  di_linked : linked (ds_stack st);
  di_last : ds_stack st = [] -> list.last P = Some 0;
  di_parent i b : znth P i = Some b -> b <> 0 ->
    exists p, edge G p b /\ (p ∈ blocks (ds_stack st) \/ exists j, i < j /\ znth P j = Some p);
}.

Lemma entered_le P stack : NoDup (P ++ blocks stack) ->
  (forall b, entered P stack b -> reachable G b) -> zlength P + zlength stack <= fg_count G.
Proof.
  intros Hd Hr. replace (zlength stack) with (zlength (blocks stack)).
  - rewrite <- zlength_app. apply zlength_NoDup_le; [|done|].
    + pose proof (fg_count_ok G HG). lia.
    + intros x Hx. by apply (reachable_node G HG), Hr.
  - unfold zlength. by rewrite length_map.
Qed.

Lemma succ_le b : node G b -> zlength (fg_succ G b) <= fg_count G.
Proof.
  intros Hb. apply zlength_NoDup_le.
  - pose proof (fg_count_ok G HG). lia.
  - apply (fg_succ_nodup G HG).
  - intros x Hx. by apply (fg_edge_node G HG b).
Qed.

(** The steps still ahead: [n + 1] for a block not entered, less for a frame. *)
Definition frame_work (f : DFSFrame) : Z := fg_count G - df_next_successor f + 1.
Fixpoint stack_work (stack : list DFSFrame) : Z :=
  match stack with [] => 0 | f :: stack => frame_work f + stack_work stack end.
Definition dfs_work (st : dfs_state) : Z :=
  (fg_count G - ds_count st - zlength (ds_stack st)) * (fg_count G + 1) + stack_work (ds_stack st).

Lemma stack_work_nonneg P stack' stack :
  (forall b, b ∈ blocks stack -> node G b) -> Forall (frame_ok P stack') stack ->
  0 <= stack_work stack.
Proof.
  intros Hn Hf. induction Hf as [|f stack [Hf _] _ IH]; cbn [stack_work]; [lia|].
  assert (Hnode : node G (df_block f)) by (apply Hn; left). apply succ_le in Hnode.
  unfold frame_work. specialize (IH (fun b Hb => Hn b ltac:(by right))). lia.
Qed.

Lemma dfs_work_nonneg st P : dfs_inv st P -> 0 <= dfs_work st.
Proof.
  intros HI. pose proof (entered_le _ _ (di_nodup _ _ HI) (di_reach _ _ HI)).
  unfold dfs_work. rewrite (di_count _ _ HI).
  enough (0 <= stack_work (ds_stack st)) by (pose proof (fg_count_ok G HG); nia).
  eapply stack_work_nonneg; [|apply (di_frames _ _ HI)]. intros b Hb.
  apply (reachable_node G HG), (di_reach _ _ HI). apply elem_of_app. by right.
Qed.

Lemma frame_ok_mono P stack P' stack' f :
  (forall b, entered P stack b -> entered P' stack' b) -> frame_ok P stack f -> frame_ok P' stack' f.
Proof. intros Hm [Hr Hf]. split; [done|]. eauto. Qed.

Lemma entered_pop P f stack b :
  entered (P ++ [df_block f]) stack b <-> entered P (f :: stack) b.
Proof. unfold entered. cbn [map]. rewrite <- app_assoc. done. Qed.

Lemma linked_tail f stack : linked (f :: stack) -> linked stack.
Proof. inversion 1; subst; [constructor|done]. Qed.

(** A finished frame is numbered. *)
Lemma dfs_pop st P f stack :
  dfs_inv st P -> ds_stack st = f :: stack ->
  df_next_successor f = zlength (fg_succ G (df_block f)) ->
  zlength P < fg_count G /\
  dfs_inv {| ds_stack := stack; ds_visited := ds_visited st;
             ds_postorder := zset (ds_postorder st) (ds_count st) (Some (df_block f));
             ds_count := ds_count st + 1 |} (P ++ [df_block f]).
Proof.
  intros HI Hst Hnext. pose proof (entered_le _ _ (di_nodup _ _ HI) (di_reach _ _ HI)) as Hle.
  destruct HI as [Hc [Hw Hwl] [Hvl Hv] Hd Hr Hf Hcl Hli Hla Hpa]. rewrite Hst in *.
  rewrite zlength_cons in Hle. pose proof (zlength_nonneg stack). split; [lia|].
  apply list.Forall_cons in Hf as [[_ Hfs] Hf].
  split; cbn [ds_stack ds_visited ds_postorder ds_count].
  - rewrite zlength_snoc. lia.
  - rewrite zlength_zset, Hc. split; [|done].
    destruct (wrote_push _ _ (df_block f) Hw) as [|]; [done|lia].
  - split; [done|]. intros b v Hb. rewrite entered_pop. by apply Hv.
  - by rewrite <- app_assoc.
  - intros b Hb. apply Hr. by apply entered_pop.
  - eapply list.Forall_impl; [exact Hf|]. intros g. apply frame_ok_mono.
    intros b. apply entered_pop.
  - intros a b Ha Hab. apply entered_pop. apply elem_of_app in Ha as [Ha|Ha]; [eauto|].
    apply list_elem_of_singleton in Ha as ->. destruct Hab as [_ Hab].
    apply znth_elem_of in Hab as [e He]. eapply (Hfs e); [|done]. apply znth_Some in He. lia.
  - by eapply linked_tail.
  - intros ->. rewrite last_snoc. inversion Hli; subst. congruence.
  - intros i b Hb Hb0. apply znth_snoc in Hb as [Hb|[-> ->]].
    + destruct (Hpa i b Hb Hb0) as (p & Hp & [Hin|(j & Hj & Hjp)]).
      * cbn [map] in Hin. apply elem_of_cons in Hin as [->|Hin]; [|eauto].
        exists (df_block f). split; [done|]. right. exists (zlength P).
        split; [apply znth_Some in Hb; lia|]. apply znth_snoc. by right.
      * exists p. split; [done|]. right. exists j. split; [done|]. by apply znth_app_l.
    + inversion Hli as [|f' Hf0|f' g stack' He Hl]; subst; [done|].
      exists (df_block g). split; [done|]. left. cbn [map]. by left.
Qed.

Lemma linked_next f n stack : linked (f :: stack) ->
  linked ({| df_block := df_block f; df_next_successor := n |} :: stack).
Proof. inversion 1; subst; by constructor. Qed.

(** The frame whose next successor [s] is crossed. *)
Lemma dfs_cross st P f stack s :
  dfs_inv st P -> ds_stack st = f :: stack ->
  znth (fg_succ G (df_block f)) (df_next_successor f) = Some s ->
  forall f', f' = {| df_block := df_block f; df_next_successor := df_next_successor f + 1 |} ->
  (entered P (f :: stack) s ->
   dfs_inv {| ds_stack := f' :: stack; ds_visited := ds_visited st;
              ds_postorder := ds_postorder st; ds_count := ds_count st |} P) /\
  (~ entered P (f :: stack) s ->
   zlength P + zlength (f' :: stack) < fg_count G /\
   dfs_inv {| ds_stack := {| df_block := s; df_next_successor := 0 |} :: f' :: stack;
              ds_visited := zset (ds_visited st) s true;
              ds_postorder := ds_postorder st; ds_count := ds_count st |} P).
Proof.
  intros HI Hst Hs f' Hf'. destruct HI as [Hc [Hw Hwl] [Hvl Hv] Hd Hr Hf Hcl Hli Hla Hpa].
  rewrite Hst in *. assert (Hbl : blocks (f' :: stack) = blocks (f :: stack)) by (by rewrite Hf').
  apply list.Forall_cons in Hf as [[Hfr Hfs] Hf]. apply znth_Some in Hs as Hsr.
  assert (Hrf : reachable G (df_block f)) by (apply Hr, elem_of_app; right; left).
  assert (Hfs' : edge G (df_block f) s).
  { split; [by apply (reachable_node G HG)|]. apply znth_elem_of. eauto. }
  split; intros Hse.
  - subst f'. split; cbn [ds_stack ds_visited ds_postorder ds_count]; try done.
    + constructor; [|done]. split; rewrite ?Hf'; cbn [df_block df_next_successor]; [lia|].
      intros e x He Hx. destruct (decide (e = df_next_successor f)) as [->|].
      { assert (x = s) as -> by congruence. done. }
      eapply Hfs; [|done]. lia.
    + by apply linked_next.
  - rewrite <- Hbl in Hd.
    assert (Hnew : NoDup (P ++ s :: blocks (f' :: stack))).
    { apply list.NoDup_app in Hd as (HP & Hdis & Hst').
      assert (Hsp : (s ∉ P) /\ (s ∉ blocks (f' :: stack))).
      { unfold entered in Hse. rewrite <- Hbl, elem_of_app in Hse. tauto. }
      destruct Hsp. apply list.NoDup_app. split_and!; [done| |by constructor].
      intros x Hx [->|Hin]%elem_of_cons; [tauto|]. by eapply Hdis. }
    assert (Hstep : forall b, entered P (f :: stack) b ->
              entered P ({| df_block := s; df_next_successor := 0 |} :: f' :: stack) b).
    { unfold entered. intros b. rewrite <- Hbl. cbn [map]. rewrite !elem_of_app, !elem_of_cons.
      tauto. }
    assert (Hreach : forall b,
      entered P ({| df_block := s; df_next_successor := 0 |} :: f' :: stack) b -> reachable G b).
    { intros b Hb. unfold entered in Hb. cbn [map] in Hb.
      rewrite elem_of_app, elem_of_cons in Hb. destruct Hb as [Hb|[->|Hb]].
      - apply Hr. apply elem_of_app. by left.
      - by eapply reachable_step.
      - apply Hr. unfold entered. rewrite <- Hbl. apply elem_of_app. by right. }
    split.
    { pose proof (entered_le P ({| df_block := s; df_next_successor := 0 |} :: f' :: stack) Hnew
                    Hreach) as Hle. rewrite zlength_cons in Hle. lia. }
    assert (Hs0 : entered P ({| df_block := s; df_next_successor := 0 |} :: f' :: stack) s).
    { apply elem_of_app. right. left. }
    split; cbn [ds_stack ds_visited ds_postorder ds_count]; try done.
    + rewrite zlength_zset. split; [done|]. intros b v. rewrite znth_zset.
      destruct (decide (s = b)) as [<-|Hne].
      * destruct (decide _); [|done]. intros [= <-]. done.
      * intros Hb. rewrite (Hv b v Hb). split; [apply Hstep|]. unfold entered. rewrite <- Hbl.
        cbn [map]. rewrite !elem_of_app, !elem_of_cons. intros [?|[?|?]]; [tauto|done|tauto].
    + constructor; [|constructor].
      * split; cbn [df_block df_next_successor]; [pose proof (zlength_nonneg (fg_succ G s)); lia|].
        intros e x He Hx. apply znth_Some in Hx. lia.
      * split; rewrite ?Hf'; cbn [df_block df_next_successor]; [lia|]. intros e x.
        cbn [df_block df_next_successor]. intros He Hx. rewrite <- Hf'. destruct (decide (e = df_next_successor f)) as [->|].
        -- assert (x = s) as -> by congruence. done.
        -- apply Hstep. eapply Hfs; [|done]. lia.
      * eapply list.Forall_impl; [exact Hf|]. intros g. by apply frame_ok_mono.
    + intros a b Ha Hab. apply Hstep. eauto.
    + constructor; rewrite Hf'; [done|]. by apply linked_next.
    + intros i b Hb Hb0. destruct (Hpa i b Hb Hb0) as (p & Hp & [Hin|Hj]); [|eauto].
      exists p. split; [done|]. left. rewrite <- Hbl in Hin. by right.
Qed.
(** One iteration. *)
Lemma dfs_step_spec {E} st P :
  dfs_inv st P -> dfs_running st = true ->
  exists st' P', dfs_step (E:=E) cfg st = Ret st' /\ dfs_inv st' P' /\ dfs_work st' < dfs_work st.
Proof.
  intros HI Hrun. unfold dfs_running in Hrun. destruct (ds_stack st) as [|f stack] eqn:Hst; [done|].
  unfold dfs_step. rewrite Hst. pose proof (di_frames _ _ HI) as Hf. rewrite Hst in Hf.
  apply list.Forall_cons in Hf as [[Hfr _] _].
  assert (Hnode : node G (df_block f)).
  { apply (reachable_node G HG), (di_reach _ _ HI). rewrite Hst. apply elem_of_app. right. left. }
  destruct (read_block cfg G HR (E:=E) _ Hnode) as (block & -> & Hb). mstep.
  rewrite (br_succ_count _ _ _ _ Hb). pose proof (di_count _ _ HI) as Hc.
  unfold dfs_work. rewrite Hst. cbn [stack_work]. rewrite zlength_cons.
  destruct (Z.eqb_spec (df_next_successor f) (zlength (fg_succ G (df_block f)))) as [Hn|Hn].
  - destruct (dfs_pop st P f stack HI Hst Hn) as [Hlt HI'].
    unfold cput. rewrite aput_ok by (rewrite (proj2 (di_cells _ _ HI)), Hc;
      pose proof (zlength_nonneg P); lia). mstep.
    eexists _, _. split; [done|]. split; [exact HI'|]. cbn [ds_stack ds_count].
    pose proof (succ_le _ Hnode). unfold frame_work. lia.
  - destruct (znth_is_Some (fg_succ G (df_block f)) (df_next_successor f)) as [s Hs]; [lia|].
    rewrite (br_succ _ _ _ _ Hb _ _ Hs). mstep.
    destruct (dfs_cross st P f stack s HI Hst Hs _ eq_refl) as [Hold Hnew].
    assert (Hsn : 0 <= s < zlength (ds_visited st)).
    { rewrite (proj1 (di_seen _ _ HI)). apply (fg_edge_node G HG (df_block f)).
      split; [done|]. apply znth_elem_of. eauto. }
    destruct (znth_is_Some _ _ Hsn) as [v Hv]. rewrite (aget_ok _ _ _ Hv). mstep.
    pose proof (proj2 (di_seen _ _ HI) s v Hv) as Hseen. rewrite Hst in Hseen. destruct v.
    + eexists _, _. split; [done|]. split; [apply Hold; by apply Hseen|].
      cbn [ds_stack ds_count stack_work]. rewrite zlength_cons. unfold frame_work.
      cbn [df_next_successor]. lia.
    + destruct Hnew as [Hroom HI']; [rewrite <- Hseen; congruence|].
      rewrite aput_ok by done. mstep.
      rewrite (proj2 (Z.leb_gt _ _)).
      2:{ rewrite (rp_count _ _ HR). pose proof (zlength_nonneg P). unfold zlength in *. lia. }
      eexists _, _. split; [done|]. split; [exact HI'|].
      cbn [ds_stack ds_count stack_work]. rewrite !zlength_cons. unfold frame_work.
      cbn [df_next_successor]. lia.
Qed.

Lemma dfs_start visited postorder :
  visited = zset (filled (fg_count G) false) 0 true -> zlength postorder = fg_count G ->
  dfs_inv {| ds_stack := [{| df_block := 0; df_next_successor := 0 |}]; ds_visited := visited;
             ds_postorder := postorder; ds_count := 0 |} [].
Proof.
  intros -> Hp. pose proof (fg_count_ok G HG) as Hn.
  assert (Hl : zlength (filled (fg_count G) false) = fg_count G) by (apply zlength_filled; lia).
  split; cbn [ds_stack ds_visited ds_postorder ds_count]; try done.
  - split; [|done]. intros i x Hx. apply znth_Some in Hx. unfold zlength in Hx. cbn in Hx. lia.
  - rewrite zlength_zset. split; [done|]. intros b v. rewrite znth_zset, Hl.
    unfold entered. cbn [map app df_block]. rewrite list_elem_of_singleton.
    destruct (decide (0 = b)) as [<-|]; [destruct (decide _); [|done]; intros [= <-]; done|].
    intros Hb. pose proof (znth_Some _ _ _ Hb) as Hr. rewrite Hl in Hr.
    rewrite znth_filled in Hb by done. injection Hb as <-. split; [done|]. congruence.
  - cbn. apply NoDup_singleton.
  - intros b Hb. apply list_elem_of_singleton in Hb as ->. apply reachable_entry.
  - constructor; [|constructor]. split; cbn [df_block df_next_successor].
    + pose proof (zlength_nonneg (fg_succ G 0)). lia.
    + intros e s He Hs. apply znth_Some in Hs. lia.
  - intros a b Ha. by apply not_elem_of_nil in Ha.
  - by constructor.
  - intros i b Hb. apply znth_Some in Hb. unfold zlength in Hb. cbn in Hb. lia.
Qed.

Lemma dfs_finish st P : dfs_inv st P -> dfs_running st = false -> postorder_of G P.
Proof.
  intros HI Hrun. unfold dfs_running in Hrun. destruct (ds_stack st) eqn:Hst; [|done].
  destruct HI as [_ _ _ Hd Hr _ Hcl _ Hla Hpa]. rewrite Hst in *. cbn [map] in *.
  rewrite app_nil_r in Hd. unfold entered in *. cbn [map] in *.
  specialize (Hla eq_refl). split; [done| |done|].
  - intros b. split; [intros Hb; apply Hr; by rewrite app_nil_r|].
    unfold reachable. revert b. apply rtc_ind_r.
    + by eapply last_Some_elem_of.
    + intros a b _ Hab Ha. specialize (Hcl a b Ha Hab). by rewrite app_nil_r in Hcl.
  - intros i b Hb Hb0. destruct (Hpa i b Hb Hb0) as (p & Hp & [Hin|(j & Hj & Hjp)]); [|by eauto].
    by apply not_elem_of_nil in Hin.
Qed.

(** The function, given memory. *)
Lemma build_postorder_spec {HU : UnityCommonSpec U} :
  outcome (build_postorder cfg (uninitialised (fg_count G)))
    (fun '(xs, count) => exists P, postorder_of G P /\ wrote xs P /\ count = zlength P)
    (fun _ => malloc_failed).
Proof.
  pose proof (fg_count_ok G HG) as Hn. unfold build_postorder. rewrite (rp_count _ _ HR).
  unfold INT_MAX, DFS_FRAME_SIZE in *.
  rewrite size_multiply_overflows_spec by (unfold in_u64; lia).
  rewrite (proj2 (Z.leb_gt _ _)) by lia.
  destruct (libc_malloc (fg_count G * 8)) eqn:H1; [|by eexists].
  destruct (libc_malloc (fg_count G * 1)) eqn:H2; [|by eexists].
  cbn [negb andb]. rewrite aput_ok by (rewrite zlength_filled; lia). mstep.
  apply outcome_bind. eapply outcome_mono; [apply outcome_while with
    (I := fun st => exists P, dfs_inv st P) (μ := fun st => Z.to_nat (dfs_work st))
    (F := fun _ => malloc_failed)| |done].
  - exists []. apply dfs_start; [done|]. apply zlength_uninitialised. lia.
  - unfold dfs_fuel. rewrite (rp_count _ _ HR). apply Z2Nat.inj_le; [|nia|].
    + apply (dfs_work_nonneg _ []). apply dfs_start; [done|]. apply zlength_uninitialised. lia.
    + unfold dfs_work, frame_work. cbn. unfold frame_work. cbn. unfold zlength. cbn. nia.
  - intros st [P HI] Hrun. destruct (dfs_step_spec (E:=unit) st P HI Hrun) as (st' & P' & -> & HI' & Hw).
    pose proof (dfs_work_nonneg _ _ HI). pose proof (dfs_work_nonneg _ _ HI').
    split; [lia|]. cbn [outcome]. split; [eauto|lia].
  - intros st [[P HI] Hrun]. cbn. exists P. split; [by eapply dfs_finish|].
    split; [apply (di_cells _ _ HI)|apply (di_count _ _ HI)].
Qed.
End dfs.
