(* ===== verification/DominatorTree.v ===== *)
(** The mathematics of the Cooper-Harvey-Kennedy iteration: partial trees given
    by a parent function whose parents have larger postorder numbers, the
    replacement of one parent by the meet of the predecessors, and the
    invariant of the passes that makes every parent only move up. *)

From stdpp Require Import relations.
From S2P Require Import Prelude CArray Usil Cfg FlowGraph.

#[local] Set Warnings "-register-all".

(** [d] is [b] or above it. *)
Inductive anc (f : Z -> Z) (d : Z) : Z -> Prop :=
| anc_refl : anc f d d
| anc_up b : b <> 0 -> anc f d (f b) -> anc f d b.

Lemma anc_strict f d b : anc f d b -> d <> b -> b <> 0 /\ anc f d (f b).
Proof. by destruct 1. Qed.

Lemma anc_trans f d e b : anc f d e -> anc f e b -> anc f d b.
Proof. intros Hd He. induction He; [done|]. by apply anc_up. Qed.

Lemma anc_of_root f d : anc f d 0 -> d = 0.
Proof. by inversion 1. Qed.

(** Trees are read pointwise: two arrays with the same entries are one tree. *)
Abbreviation same_parents := (pointwise_relation Z (@eq Z)).

#[export] Instance anc_proper : Proper (same_parents ==> eq ==> eq ==> iff) anc.
Proof.
  assert (Hle : forall f g d b, (forall x, f x = g x) -> anc f d b -> anc g d b).
  { intros f g d b Hfg Ha. induction Ha as [|b Hb0 _ IH]; [constructor|].
    apply anc_up; [done|]. by rewrite <- Hfg. }
  intros f g Hfg d _ <- b _ <-. split; apply Hle; [done|]. intros x. by rewrite Hfg.
Qed.

Section tree.
Context (G : flow_graph) (HG : flow_graph_ok G).

(** Postorder numbers and, for every block but the entry, a predecessor with a
    larger number. *)
Context (N tau : Z -> Z).
Hypothesis N_range : forall b, reachable G b -> 0 <= N b <= N 0.
Hypothesis N_inj : forall a b, reachable G a -> reachable G b -> N a = N b -> a = b.
Hypothesis tau_ok : forall b, reachable G b -> b <> 0 ->
  reachable G (tau b) /\ edge G (tau b) b /\ N b < N (tau b).

Abbreviation done_ f b := (0 <= f b).

(** The parents found so far. *)
Record tree (f : Z -> Z) : Prop := {
  tr_root : f 0 = 0;
  tr_reach b : done_ f b -> reachable G b;
  tr_up b : done_ f b -> b <> 0 -> done_ f (f b) /\ N b < N (f b) /\ anc tau (f b) b;
}.

Section one.
Context (f : Z -> Z) (Hf : tree f).

Lemma tree_ind (Q : Z -> Prop) :
  (forall b, done_ f b -> (b <> 0 -> done_ f (f b) -> N b < N (f b) -> Q (f b)) -> Q b) ->
  forall b, done_ f b -> Q b.
Proof.
  intros Hstep b Hb. remember (Z.to_nat (N 0 - N b)) as k eqn:Hk. revert b Hb Hk.
  induction (lt_wf k) as [k _ IH]. intros b Hb ->. apply Hstep; [done|]. intros Hb0 Hfb Hlt.
  eapply IH; [|done|done]. pose proof (N_range _ (tr_reach f Hf _ Hfb)). lia.
Qed.

Lemma root_done : done_ f 0.
Proof. rewrite (tr_root f Hf). lia. Qed.

Lemma anc_root b : done_ f b -> anc f 0 b.
Proof.
  revert b. apply tree_ind. intros b Hb IH. destruct (decide (b = 0)) as [->|]; [constructor|].
  apply anc_up; [done|]. by apply IH; [|apply (tr_up f Hf)..].
Qed.

Lemma anc_done d b : anc f d b -> done_ f b -> done_ f d.
Proof. induction 1 as [|b Hb0 _ IH]; [done|]. intros Hb. by apply IH, (tr_up f Hf). Qed.

Lemma anc_num d b : anc f d b -> done_ f b -> d = b \/ N b < N d.
Proof.
  induction 1 as [|b Hb0 _ IH]; [by left|]. intros Hb.
  destruct (tr_up f Hf b Hb Hb0) as (Hfb & Hlt & _). right. destruct (IH Hfb) as [->|]; lia.
Qed.

Lemma anc_num_le d b : anc f d b -> done_ f b -> N b <= N d.
Proof. intros Ha Hb. destruct (anc_num d b Ha Hb) as [->|]; lia. Qed.

Lemma anc_linear d e b : anc f d b -> anc f e b -> done_ f b -> N d <= N e -> anc f e d.
Proof.
  induction 1 as [|b Hb0 Hd IH]; [done|]. intros He Hb Hle.
  destruct (tr_up f Hf b Hb Hb0) as (Hfb & Hlt & _). apply IH; [|done|done].
  destruct (decide (e = b)) as [->|]; [|by apply anc_strict].
  pose proof (anc_num_le _ _ Hd Hfb). lia.
Qed.

Lemma anc_or_not d b : done_ f b -> anc f d b \/ ~ anc f d b.
Proof.
  revert b. apply tree_ind. intros b Hb IH. destruct (decide (d = b)) as [->|Hdb].
  { left. constructor. }
  destruct (decide (b = 0)) as [->|Hb0].
  { right. intros Ha. by apply anc_of_root in Ha. }
  destruct IH as [Ha|Ha]; [done|by apply (tr_up f Hf)..| |].
  - left. by apply anc_up.
  - right. intros [_ ?]%anc_strict; done.
Qed.

(** The tree lies above the search tree. *)
Lemma anc_tau d b : anc f d b -> done_ f b -> anc tau d b.
Proof.
  induction 1 as [|b Hb0 _ IH]; [constructor|]. intros Hb.
  destruct (tr_up f Hf b Hb Hb0) as (Hfb & _ & Ht). eapply anc_trans; [by apply IH|done].
Qed.
End one.

(** Below [c] the search tree only visits smaller numbers. *)
Lemma tau_walk c b l :
  anc tau c b -> reachable G b -> walk G 0 l c ->
  exists l', walk G 0 l' b /\ forall x, x ∈ l' -> x ∈ l \/ N x < N c.
Proof.
  intros Ha Hb Hl. enough (exists l', walk G 0 l' b /\ N b <= N c /\
    forall x, x ∈ l' -> x ∈ l \/ N x < N c) as (l' & ? & _ & ?) by eauto.
  induction Ha as [|b Hb0 Ha IH]; [exists l; split_and!; eauto; lia|].
  destruct (tau_ok b Hb Hb0) as (Hrt & He & Hlt). destruct (IH Hrt) as (l' & Hl' & Hle & Hx).
  exists (l' ++ [b]). split_and!; [by eapply walk_step|lia|].
  intros x [Hin|Hin]%elem_of_app; [by apply Hx|]. apply list_elem_of_singleton in Hin as ->.
  right. lia.
Qed.

Lemma tree_ext f g : (forall x, f x = g x) -> tree f -> tree g.
Proof.
  intros He [Hr Hd Hu]. split.
  - by rewrite <- He.
  - intros b. rewrite <- He. apply Hd.
  - intros b. rewrite <- !He. apply Hu.
Qed.

#[export] Instance tree_proper : Proper (same_parents ==> iff) tree.
Proof. intros f g Hfg. split; apply tree_ext; intros x; by rewrite Hfg. Qed.

(** * Replacing a parent *)

Definition set_parent (f : Z -> Z) (c m : Z) (x : Z) : Z := if decide (x = c) then m else f x.

Section replace.
Context (f : Z -> Z) (Hf : tree f) (c m : Z).
Hypothesis Hc : reachable G c.
Hypothesis Hc0 : c <> 0.
Hypothesis Hm : done_ f m.
Hypothesis Hm_num : N c < N m.
Hypothesis Hm_tau : anc tau m c.
Hypothesis Hold : done_ f c -> anc f m (f c).

Abbreviation f' := (set_parent f c m).

Lemma set_parent_c : f' c = m.
Proof. unfold set_parent. by rewrite decide_True. Qed.
Lemma set_parent_ne x : x <> c -> f' x = f x.
Proof. intros. unfold set_parent. by rewrite decide_False. Qed.

Lemma m_nonneg : 0 <= m.
Proof. apply (reachable_node G HG). by apply (tr_reach f Hf). Qed.

Lemma set_parent_done x : done_ f x -> done_ f' x.
Proof.
  intros. destruct (decide (x = c)) as [->|]; [rewrite set_parent_c; apply m_nonneg|].
  by rewrite set_parent_ne.
Qed.

Lemma set_parent_done_inv x : done_ f' x -> x = c \/ done_ f x.
Proof. destruct (decide (x = c)); [by left|]. rewrite set_parent_ne by done. by right. Qed.

Lemma set_parent_tree : tree f'.
Proof.
  split.
  - rewrite set_parent_ne by done. apply (tr_root f Hf).
  - intros b [->|Hb]%set_parent_done_inv; [done|by apply (tr_reach f Hf)].
  - intros b Hb Hb0. destruct (decide (b = c)) as [->|Hne].
    + rewrite set_parent_c. split_and!; [by apply set_parent_done|done|done].
    + rewrite !(set_parent_ne b) in * by done. destruct (tr_up f Hf b Hb Hb0) as (? & ? & ?).
      split_and!; [by apply set_parent_done|done|done].
Qed.

(** A chain above [c] stays as it was. *)
Lemma anc_above d b : done_ f b -> N c < N b -> anc f' d b <-> anc f d b.
Proof.
  revert b. apply (tree_ind f Hf (fun b => N c < N b -> anc f' d b <-> anc f d b)).
  intros b Hb IH Hlt. assert (b <> c) by (intros ->; lia).
  destruct (decide (d = b)) as [->|Hdb]; [split; constructor|].
  split; intros [Hb0 Ha]%anc_strict; try done; apply anc_up; try done;
    destruct (tr_up f Hf b Hb Hb0) as (Hfb & Hl & _).
  - rewrite set_parent_ne in Ha by done. by apply IH; [..|lia|].
  - rewrite set_parent_ne by done. by apply IH; [..|lia|].
Qed.

(** Chains only shrink. *)
Lemma anc_shrinks d b : done_ f b -> anc f' d b -> anc f d b.
Proof.
  intros Hb Ha. revert Hb. induction Ha as [|b Hb0 Ha IH]; [constructor|]. intros Hb.
  apply anc_up; [done|]. destruct (decide (b = c)) as [->|Hne].
  - rewrite set_parent_c in *. eapply anc_trans; [by apply IH|by apply Hold].
  - rewrite set_parent_ne in * by done. apply IH. by apply (tr_up f Hf).
Qed.

(** Up to [c] a chain stays as it was. *)
Lemma anc_below d b : done_ f b -> anc f d b -> N d <= N c -> anc f' d b.
Proof.
  intros Hb Ha. revert Hb. induction Ha as [|b Hb0 Ha IH]; [constructor|]. intros Hb Hle.
  destruct (tr_up f Hf b Hb Hb0) as (Hfb & Hlt & _).
  pose proof (anc_num_le f Hf _ _ Ha Hfb). assert (b <> c) by (intros ->; lia).
  apply anc_up; [done|]. rewrite set_parent_ne by done. by apply IH.
Qed.

(** Beyond [c] it continues with the new parent. *)
Lemma anc_beyond d b :
  done_ f b -> anc f c b -> N c < N d -> anc f' d b <-> anc f d m.
Proof.
  intros Hb Ha Hlt. pose proof (anc_below c b Hb Ha ltac:(lia)) as Hcb.
  rewrite <- (anc_above d m Hm Hm_num). split.
  - intros Hd. assert (Hdc : anc f' d c).
    { eapply (anc_linear f' set_parent_tree c d b); [done|done|by apply set_parent_done|lia]. }
    apply anc_strict in Hdc as [_ Hdm]; [|intros ->; lia]. by rewrite set_parent_c in Hdm.
  - intros Hd. eapply anc_trans; [|exact Hcb]. apply anc_up; [done|]. by rewrite set_parent_c.
Qed.

(** Chains that do not meet [c] stay as they were. *)
Lemma anc_apart d b : done_ f b -> ~ anc f c b -> anc f' d b <-> anc f d b.
Proof.
  intros Hb Hn. split; [by apply anc_shrinks|]. intros Ha. revert Hb Hn.
  induction Ha as [|b Hb0 Ha IH]; [constructor|]. intros Hb Hn.
  assert (b <> c) by (intros ->; apply Hn; constructor).
  apply anc_up; [done|]. rewrite set_parent_ne by done.
  apply IH; [by apply (tr_up f Hf)|]. intros Hc'. apply Hn. by apply anc_up.
Qed.
End replace.

(** * The invariant of the passes

    During a pass the blocks with numbers above [k] have been recomputed. *)

Record pass_inv (f : Z -> Z) (k : Z) : Prop := {
  pi_tree : tree f;
  pi_done b : reachable G b -> k < N b -> done_ f b;
  pi_tau b : done_ f b -> b <> 0 -> done_ f (tau b);
  (** no dominator is ever lost *)
  pi_sound d b : done_ f b -> dominates G d b -> anc f d b;
  (** a chain holds whatever the chains of all predecessors hold *)
  pi_meet b d : done_ f b -> b <> 0 ->
    (forall p, edge G p b -> done_ f p -> anc f d p) -> anc f d (f b);
  (** and, where this pass has not yet changed it, only what the chain of the
      block's tree predecessor holds *)
  pi_chain b d : done_ f b -> b <> 0 -> anc f d (f b) -> N d <= k \/ k < N b -> anc f d (tau b);
}.

Lemma pass_inv_ext f g k : same_parents f g -> pass_inv f k -> pass_inv g k.
Proof.
  intros He [Ht Hd Htau Hs Hm Hc]. assert (Heq : forall x, g x = f x) by done.
  split; [by rewrite <- He| | | | |].
  - intros b. rewrite Heq. apply Hd.
  - intros b. rewrite !Heq. apply Htau.
  - intros d b. rewrite Heq, <- He. apply Hs.
  - intros b d. rewrite !Heq, <- He. intros Hb Hb0 Hall. apply Hm; [done..|].
    intros p Hp Hdp. rewrite He. apply Hall; [done|by rewrite Heq].
  - intros b d. rewrite !Heq, <- !He. apply Hc.
Qed.

#[export] Instance pass_inv_proper : Proper (same_parents ==> eq ==> iff) pass_inv.
Proof. intros f g Hfg k _ <-. split; by apply pass_inv_ext. Qed.

(** [m] is the meet of the computed predecessors of [c]. *)
Definition meet_of (f : Z -> Z) (c m : Z) : Prop :=
  done_ f m /\ forall d, anc f d m <-> forall p, edge G p c -> done_ f p -> anc f d p.

Section step.
Context (f : Z -> Z) (c m : Z).
Hypothesis HI : pass_inv f (N c).
Hypothesis Hc : reachable G c.
Hypothesis Hc0 : c <> 0.
Hypothesis Hm : meet_of f c m.

Let Hf : tree f := pi_tree f (N c) HI.

Lemma tau_c_done : done_ f (tau c).
Proof. destruct (tau_ok c Hc Hc0) as (Hr & _ & Hlt). by apply (pi_done _ _ HI). Qed.

Lemma meet_tau : anc f m (tau c).
Proof.
  apply (proj1 (proj2 Hm m)); [constructor| |apply tau_c_done]. by apply tau_ok.
Qed.

Lemma meet_num : N c < N m.
Proof.
  destruct (tau_ok c Hc Hc0) as (_ & _ & Hlt).
  pose proof (anc_num_le f Hf _ _ meet_tau tau_c_done). lia.
Qed.

Lemma meet_above_tau : anc tau m c.
Proof. apply anc_up; [done|]. apply (anc_tau f Hf); [apply meet_tau|apply tau_c_done]. Qed.

(** The parent of a computed block only moves up. *)
Lemma meet_moves_up : done_ f c -> anc f m (f c).
Proof.
  intros Hd. apply (pi_meet _ _ HI); [done|done|]. intros p Hp Hdp.
  by apply (proj1 (proj2 Hm m)); [constructor|..].
Qed.

Abbreviation f' := (set_parent f c m).

Local Hint Resolve meet_num meet_above_tau meet_moves_up : core.

Let Hm' : done_ f m := proj1 Hm.

Lemma step_tree : tree f'.
Proof. apply set_parent_tree; auto. Qed.

Lemma step_shrinks d b : done_ f b -> anc f' d b -> anc f d b.
Proof. apply anc_shrinks; auto. Qed.

Lemma step_above d b : done_ f b -> N c < N b -> anc f' d b <-> anc f d b.
Proof. apply anc_above; auto. Qed.

Lemma step_done b : done_ f b -> done_ f' b.
Proof. apply set_parent_done; auto. Qed.

Lemma step_f'_c : f' c = m.
Proof. apply set_parent_c. Qed.

Lemma step_sound d b : done_ f' b -> dominates G d b -> anc f' d b.
Proof.
  intros Hb Hd. assert (Hdc : dominates G d c -> d <> c -> anc f d m).
  { intros Hdc Hne. apply (proj2 Hm). intros p Hp Hdp. apply (pi_sound _ _ HI); [done|].
    by apply (proj1 (dominates_pred G d c Hc Hc0 Hne)); [..|apply (tr_reach f Hf)]. }
  assert (Hbc : anc f' d c <-> d = c \/ anc f d m).
  { split.
    - intros Ha. destruct (decide (d = c)); [by left|]. right.
      apply anc_strict in Ha as [_ Ha]; [|done]. rewrite step_f'_c in Ha. by apply step_shrinks.
    - intros [->|Ha]; [constructor|]. apply anc_up; [done|]. rewrite step_f'_c.
      by apply step_above; [|apply meet_num|]. }
  destruct (decide (b = c)) as [->|Hne].
  { apply Hbc. destruct (decide (d = c)); [by left|]. right. by apply Hdc. }
  apply set_parent_done_inv in Hb as [->|Hb]; [done|].
  pose proof (pi_sound _ _ HI d b Hb Hd) as Ha.
  destruct (decide (N d <= N c)) as [Hle|Hlt]; [apply anc_below; auto|].
  destruct (anc_or_not f Hf c b Hb) as [Hcb|Hcb]; [|apply anc_apart; auto].
  apply anc_beyond; auto; [lia|]. apply Hdc; [|intros ->; lia].
  split; [done|]. intros l Hl.
  destruct (tau_walk c b l) as (l' & Hl' & Hx); [by apply (anc_tau f Hf)|apply Hd|done|].
  destruct (Hx d) as [|]; [by apply Hd|done|lia].
Qed.

Lemma step_meet b d :
  done_ f' b -> b <> 0 -> (forall p, edge G p b -> done_ f' p -> anc f' d p) -> anc f' d (f' b).
Proof.
  intros Hb Hb0 Hall.
  assert (Hall' : forall p, edge G p b -> done_ f p -> anc f d p).
  { intros p Hp Hdp. apply step_shrinks; [done|]. apply Hall; [done|]. by apply step_done. }
  destruct (decide (b = c)) as [->|Hne].
  { rewrite step_f'_c. apply step_above; [done|apply meet_num|]. by apply (proj2 Hm). }
  apply set_parent_done_inv in Hb as [->|Hb]; [done|]. rewrite set_parent_ne by done.
  pose proof (pi_meet _ _ HI b d Hb Hb0 Hall') as Ha.
  destruct (tr_up f Hf b Hb Hb0) as (Hfb & _ & _).
  destruct (decide (N d <= N c)) as [Hle|Hlt]; [apply anc_below; auto|].
  destruct (anc_or_not f Hf c (f b) Hfb) as [Hcb|Hcb]; [|apply anc_apart; auto].
  apply anc_beyond; auto; [lia|].
  pose proof (pi_chain _ _ HI b c Hb Hb0 Hcb ltac:(lia)) as Hct.
  pose proof (pi_tau _ _ HI b Hb Hb0) as Ht.
  rewrite <- (anc_beyond f Hf c m) with (b := tau b); auto; [|lia].
  apply Hall; [|by apply step_done]. apply tau_ok; [by apply (tr_reach f Hf)|done].
Qed.

Lemma step_chain b d :
  done_ f' b -> b <> 0 -> anc f' d (f' b) -> N d <= N c - 1 \/ N c - 1 < N b -> anc f' d (tau b).
Proof.
  intros Hb Hb0 Ha Hk. assert (Habove : forall x, anc f d (tau x) -> done_ f (tau x) ->
    N c < N (tau x) -> anc f' d (tau x)) by (intros; by apply step_above).
  destruct (decide (b = c)) as [->|Hne].
  { rewrite step_f'_c in Ha. apply step_above in Ha; [|done|apply meet_num].
    apply Habove; [|apply tau_c_done|by apply tau_ok].
    eapply anc_trans; [exact Ha|apply meet_tau]. }
  apply set_parent_done_inv in Hb as [->|Hb]; [done|]. rewrite set_parent_ne in Ha by done.
  apply step_shrinks in Ha; [|by apply (tr_up f Hf)].
  pose proof (tr_reach f Hf b Hb) as Hr. pose proof (pi_tau _ _ HI b Hb Hb0) as Ht.
  assert (N b <> N c) by (intros Heq; by apply Hne, N_inj).
  destruct (tau_ok b Hr Hb0) as (_ & _ & Hlt).
  assert (Hda : anc f d (tau b)) by (apply (pi_chain _ _ HI); [done..|lia]).
  destruct Hk as [Hk|Hk]; [apply anc_below; auto; lia|]. apply Habove; [done..|lia].
Qed.

(** Recomputing [c] advances the pass. *)
Lemma pass_step : pass_inv f' (N c - 1).
Proof.
  split.
  - apply step_tree.
  - intros b Hr Hb. destruct (decide (b = c)) as [->|Hne].
    + rewrite step_f'_c. eapply m_nonneg; [exact Hf|exact Hm'].

    + apply step_done, (pi_done _ _ HI); [done|].
      assert (N b <> N c) by (intros Heq; by apply Hne, N_inj). lia.
  - intros b [->|Hb]%set_parent_done_inv Hb0; apply step_done; [apply tau_c_done|].
    by apply (pi_tau _ _ HI).
  - apply step_sound.
  - apply step_meet.
  - apply step_chain.
Qed.
End step.

(** Before the first pass only the entry has a parent. *)
Lemma pass_start f k :
  N 0 - 1 <= k -> f 0 = 0 -> (forall b, b <> 0 -> f b = -1) -> pass_inv f k.
Proof.
  intros Hk H0 Hf. assert (Hd : forall b, done_ f b -> b = 0).
  { intros b Hb. destruct (decide (b = 0)); [done|]. rewrite Hf in Hb by done. lia. }
  split.
  - split; [done| |].
    + intros b Hb. rewrite (Hd b Hb). apply reachable_entry.
    + intros b Hb. by rewrite (Hd b Hb).
  - intros b Hr Hb. assert (b = 0) as ->; [|lia].
    apply N_inj; [done|apply reachable_entry|]. pose proof (N_range b Hr). lia.
  - intros b Hb. by rewrite (Hd b Hb).
  - intros d b Hb. rewrite (Hd b Hb). intros ->%dominates_of_entry. constructor.
  - intros b d Hb. by rewrite (Hd b Hb).
  - intros b d Hb. by rewrite (Hd b Hb).
Qed.

(** A finished pass can be followed by another. *)
Lemma pass_next f k : pass_inv f (-1) -> pass_inv f k.
Proof.
  intros [Ht Hd Htau Hs Hm Hc]. split; [done| |done..|].
  - intros b Hr _. apply Hd; [done|]. pose proof (N_range b Hr). lia.
  - intros b d Hb Hb0 Ha _. apply Hc; [done..|]. right.
    pose proof (N_range b (tr_reach f Ht b Hb)). lia.
Qed.

(** When a pass changes nothing, the tree is the dominator tree. *)
Theorem fixpoint_dominates f :
  pass_inv f (-1) -> (forall c, reachable G c -> c <> 0 -> meet_of f c (f c)) ->
  forall d b, reachable G b -> anc f d b <-> dominates G d b.
Proof.
  intros HI Hfix.
  assert (Hd : forall b, reachable G b -> done_ f b).
  { intros b Hr. apply (pi_done _ _ HI); [done|]. pose proof (N_range b Hr). lia. }
  intros d b Hr. split; [|by apply (pi_sound _ _ HI), Hd]. intros Ha. split; [done|].
  intros l Hl. induction Hl as [|l b e Hl IH He].
  - apply anc_of_root in Ha as ->. by left.
  - assert (Hrb : reachable G b) by (apply reachable_walk; eauto).
    apply elem_of_app. destruct (decide (d = e)) as [->|Hne]; [right; by left|left].
    apply anc_strict in Ha as [He0 Ha]; [|done]. apply IH; [done|].
    apply (proj1 (proj2 (Hfix e Hr He0) d) Ha); [done|by apply Hd].
Qed.

(** * Progress *)

(** The sum of the parents' numbers, one more for each, over the blocks. *)
Definition parent_work (f : Z -> Z) (b : Z) : Z := if 0 <=? f b then N (f b) + 1 else 0.
Definition tree_work (f : Z -> Z) (l : list Z) : Z := foldr (fun b w => parent_work f b + w) 0 l.

Lemma parent_work_range f b :
  tree f -> 0 <= parent_work f b <= N 0 + 1.
Proof.
  intros Hf. unfold parent_work. pose proof (N_range 0 (reachable_entry G)).
  destruct (Z.leb_spec 0 (f b)) as [Hb|]; [|lia].
  destruct (decide (b = 0)) as [->|Hb0]; [rewrite (tr_root f Hf); lia|].
  destruct (tr_up f Hf b Hb Hb0) as (Hfb & _).
  pose proof (N_range _ (tr_reach f Hf _ Hfb)). lia.
Qed.

Lemma tree_work_cons f b l : tree_work f (b :: l) = parent_work f b + tree_work f l.
Proof. done. Qed.

Lemma tree_work_range f l : tree f -> 0 <= tree_work f l <= (N 0 + 1) * zlength l.
Proof.
  intros Hf. induction l as [|b l IH]; [cbn; unfold zlength; cbn; lia|].
  rewrite tree_work_cons, zlength_cons. pose proof (parent_work_range f b Hf). lia.
Qed.

Lemma tree_work_ext f g l : (forall b, b ∈ l -> f b = g b) -> tree_work f l = tree_work g l.
Proof.
  induction l as [|b l IH]; [done|]. intros He. rewrite !tree_work_cons. unfold parent_work.
  rewrite (He b) by left. f_equal. apply IH. intros. apply He. by right.
Qed.

Lemma tree_work_set f c m l :
  NoDup l -> c ∈ l -> tree_work (set_parent f c m) l =
  tree_work f l + (if 0 <=? m then N m + 1 else 0) - parent_work f c.
Proof.
  induction 1 as [|b l Hb Hl IH]; [by intros ?%not_elem_of_nil|].
  intros Hc. rewrite !tree_work_cons. destruct (decide (b = c)) as [->|Hne].
  - rewrite (tree_work_ext _ f).
    + unfold parent_work at 1. rewrite set_parent_c. lia.
    + intros x Hx. apply set_parent_ne. by intros ->.
  - apply elem_of_cons in Hc as [->|Hc]; [done|]. rewrite IH by done.
    unfold parent_work at 1. rewrite set_parent_ne by done. fold (parent_work f b). lia.
Qed.
End tree.
