(* ===== verification/Dominance.v ===== *)
(** Dominance: [intersect] is the meet of a dominator tree, every pass of
    [compute_dominance] preserves the invariant of [DominatorTree] and moves
    parents up, so the loop ends, and then [hlsl_cfg_dominates] decides
    dominance. *)

From stdpp Require Import relations.
From S2P Require Import Prelude CArray UnityCommon Heap Usil Cfg FlowGraph Postorder DominatorTree.

#[local] Set Warnings "-register-all".

(** An array read as a function; [-1] outside it. *)
Definition at_ (xs : list Z) (b : Z) : Z := default (-1) (znth xs b).

Lemma at_Some xs b v : znth xs b = Some v -> at_ xs b = v.
Proof. unfold at_. by intros ->. Qed.

Lemma aget_at {E} xs b : 0 <= b < zlength xs -> aget (E:=E) xs b = Ret (at_ xs b).
Proof. intros Hb. destruct (znth_is_Some xs b Hb) as [v Hv]. by rewrite (aget_ok _ _ _ Hv), (at_Some _ _ _ Hv). Qed.

Lemma at_zset xs c m : 0 <= c < zlength xs -> same_parents (at_ (zset xs c m)) (set_parent (at_ xs) c m).
Proof.
  intros Hc x. unfold at_, set_parent. destruct (decide (x = c)) as [->|Hne].
  - by rewrite znth_zset_eq.
  - by rewrite znth_zset_ne.
Qed.

Section dominance.
Context (G : flow_graph) (HG : flow_graph_ok G).
Context (P : list Z) (HP : postorder_of G P).
Context (numbers : list Z).
Hypothesis numbers_length : zlength numbers = fg_count G.
Hypothesis numbers_at : forall i b, znth P i = Some b -> at_ numbers b = i.
Hypothesis numbers_outside : forall b, ~ reachable G b -> at_ numbers b = -1.

Abbreviation N := (at_ numbers).

Lemma N_at b : reachable G b -> znth P (N b) = Some b.
Proof.
  intros Hr. apply (po_reach G P HP) in Hr. apply znth_elem_of in Hr as [i Hi].
  by rewrite (numbers_at i b Hi).
Qed.

Lemma N_entry : N 0 = zlength P - 1.
Proof.
  apply numbers_at. pose proof (po_entry G P HP) as Hl. rewrite last_lookup in Hl.
  pose proof (lookup_lt_Some _ _ _ Hl). unfold zlength.
  rewrite znth_nonneg by lia. replace (Z.to_nat _) with (Nat.pred (length P)) by lia. done.
Qed.

Lemma N_range b : reachable G b -> 0 <= N b <= N 0.
Proof. intros Hr. apply N_at, znth_Some in Hr. rewrite N_entry. lia. Qed.

Lemma N_inj a b : reachable G a -> reachable G b -> N a = N b -> a = b.
Proof. intros Ha%N_at Hb%N_at Heq. congruence. Qed.

Lemma N_reachable b : 0 <= N b -> reachable G b.
Proof.
  intros Hb. destruct (decide (b ∈ P)) as [Hin|Hin]; [by apply (po_reach G P HP)|].
  rewrite numbers_outside in Hb; [lia|]. intros Hr. by apply Hin, (po_reach G P HP).
Qed.

Lemma P_length : zlength P <= fg_count G.
Proof.
  apply zlength_NoDup_le; [pose proof (fg_count_ok G HG); lia|apply (po_nodup G P HP)|].
  intros b Hb. by apply (reachable_node G HG), (po_reach G P HP).
Qed.

(** The predecessor from which the search entered a block. *)
Definition tau (b : Z) : Z :=
  match base.filter (fun p => N b < N p) (fg_pred G b) with p :: _ => p | [] => 0 end.

Lemma tau_ok b : reachable G b -> b <> 0 ->
  reachable G (tau b) /\ edge G (tau b) b /\ N b < N (tau b).
Proof.
  intros Hr Hb0. pose proof (N_range b Hr) as Hb. pose proof (reachable_node G HG b Hr) as Hn.
  assert (Hin : tau b ∈ base.filter (fun p => N b < N p) (fg_pred G b)).
  { destruct (po_parent G P HP (N b) b (N_at b Hr) Hb0) as (j & p & Hj & Hp & He).
    assert (Hp' : p ∈ base.filter (fun p => N b < N p) (fg_pred G b)).
    { apply list_elem_of_filter. rewrite (numbers_at _ _ Hp).
      split; [done|by apply (edge_pred G HG)]. }
    unfold tau. destruct (base.filter _ _); [by apply not_elem_of_nil in Hp'|by left]. }
  apply list_elem_of_filter in Hin as [Hlt Hin].
  split; [apply N_reachable; lia|]. split; [by apply (pred_edge G HG)|done].
Qed.

Abbreviation tree' := (tree G N tau).
Abbreviation inv := (pass_inv G N tau).

(** * The meet *)

Section meet.
Context (idom : list Z) (Hlen : zlength idom = fg_count G) (Hf : tree' (at_ idom)).

Abbreviation up := (at_ idom).

Lemma done_node b : 0 <= up b -> node G b.
Proof. intros Hb. by apply (reachable_node G HG), (tr_reach _ _ _ _ Hf). Qed.

Lemma done_root : 0 <= up 0.
Proof. by apply (root_done G N tau). Qed.

(** [meets x a b]: the chain of [x] is what the chains of [a] and [b] share. *)
Definition meets (x a b : Z) : Prop :=
  0 <= up x /\ forall d, anc up d x <-> anc up d a /\ anc up d b.

Lemma climb_spec {E} fuel x b :
  0 <= up x -> 0 <= up b -> (Z.to_nat (N 0 - N x) <= fuel)%nat ->
  exists x', climb (E:=E) fuel numbers idom x b = Ret x' /\ 0 <= up x' /\ anc up x' x /\
    N b <= N x' /\ (x' = x \/ N x < N x') /\
    forall d, anc up d b -> anc up d x <-> anc up d x'.
Proof.
  intros Hx Hb. revert x Hx. induction fuel as [|fuel IH]; intros x Hx Hfuel; cbn [climb].
  all: pose proof (done_node x Hx) as Hnx; pose proof (done_node b Hb) as Hnb.
  all: pose proof (N_range b (tr_reach _ _ _ _ Hf b Hb)) as HNb.
  all: pose proof (N_range x (tr_reach _ _ _ _ Hf x Hx)) as HNx.
  all: unfold node in Hnx, Hnb; rewrite (proj2 (Z.ltb_ge x 0)) by lia.
  all: rewrite !aget_at by lia; mstep.
  all: destruct (Z.ltb_spec (N x) (N b)) as [Hlt|Hge]; cbn [negb].
  - lia.
  - exists x. split_and!; [done|done|constructor|done|by left|done].
  - rewrite ?aget_at by lia. mstep. destruct (decide (x = 0)) as [->|Hx0]; [lia|].
    destruct (tr_up _ _ _ _ Hf x Hx Hx0) as (Hux & Hnum & _).
    destruct (IH (up x) Hux ltac:(lia)) as (x' & -> & Hx' & Ha & Hle & Hmove & Hd).
    exists x'. split_and!; [done|done|by apply anc_up|done|right; destruct Hmove as [->|]; lia|].
    intros d Hdb. rewrite <- Hd by done. split; [|by apply anc_up].
    intros Hdx. apply anc_strict in Hdx as [_ ?]; [done|]. intros ->.
    pose proof (anc_num_le _ _ _ _ Hf _ _ Hdb Hb). lia.
  - exists x. split_and!; [done|done|constructor|done|by left|done].
Qed.

Lemma intersect_loop_spec {E} fuel a b :
  0 <= up a -> 0 <= up b -> (Z.to_nat (N 0 - N a + (N 0 - N b)) <= fuel)%nat ->
  exists x, intersect_loop (E:=E) fuel numbers idom a b = Ret x /\ meets x a b.
Proof.
  revert a b. induction fuel as [|fuel IH]; intros a b Ha Hb Hfuel; cbn [intersect_loop].
  all: pose proof (tr_reach _ _ _ _ Hf a Ha) as Hra; pose proof (tr_reach _ _ _ _ Hf b Hb) as Hrb.
  all: pose proof (N_range a Hra); pose proof (N_range b Hrb).
  all: destruct (Z.eqb_spec a b) as [->|Hab]; [exists b; split; [done|split; [done|tauto]]|].
  all: assert (N a <> N b) by (intros Heq; by apply Hab, N_inj).
  { lia. }
  assert (Hfu : forall x, 0 <= up x -> (Z.to_nat (N 0 - N x) <= length idom)%nat).
  { intros x Hx. pose proof (N_range x (tr_reach _ _ _ _ Hf x Hx)).
    pose proof P_length. rewrite N_entry in *. unfold zlength in *. lia. }
  destruct (climb_spec (E:=E) (length idom) a b Ha Hb (Hfu a Ha))
    as (a' & -> & Ha' & Haa & Hle & Hma & Hda). mstep.
  pose proof (done_node a' Ha') as Hna. unfold node in Hna.
  rewrite (proj2 (Z.ltb_ge a' 0)) by lia.
  destruct (climb_spec (E:=E) (length idom) b a' Hb Ha' (Hfu b Hb))
    as (b' & -> & Hb' & Hbb & Hle' & Hmb & Hdb). mstep.
  pose proof (done_node b' Hb') as Hnb. unfold node in Hnb.
  rewrite (proj2 (Z.ltb_ge b' 0)) by lia.
  pose proof (N_range a' (tr_reach _ _ _ _ Hf a' Ha')).
  pose proof (N_range b' (tr_reach _ _ _ _ Hf b' Hb')).
  destruct (IH a' b' Ha' Hb') as (x & Hrun & Hx & Hd).
  { destruct Hma as [->|], Hmb as [->|]; lia. }
  exists x. split; [done|]. split; [done|]. intros d. rewrite Hd. split.
  - intros [Hda' Hdb']. split; [exact (anc_trans _ _ _ _ Hda' Haa)|exact (anc_trans _ _ _ _ Hdb' Hbb)].
  - intros [Hdxa Hdxb]. apply Hda in Hdxa; [|done]. split; [done|]. by apply Hdb.
Qed.

Lemma intersect_spec {E} a b :
  0 <= up a -> 0 <= up b ->
  exists x, intersect (E:=E) a b numbers idom = Ret x /\ meets x a b.
Proof.
  intros Ha Hb. apply intersect_loop_spec; [done..|].
  pose proof (N_range a (tr_reach _ _ _ _ Hf a Ha)). pose proof (N_range b (tr_reach _ _ _ _ Hf b Hb)).
  pose proof P_length. rewrite N_entry in *. unfold zlength in *. lia.
Qed.
End meet.

(** * The passes *)

Section passes.
Context (cfg : HLSLControlFlowGraph) (HR : represents cfg G).

Lemma meet_loop {E} idom c block :
  zlength idom = fg_count G -> inv (at_ idom) (N c) -> reachable G c -> c <> 0 ->
  block_represents cfg G c block ->
  outcome (for_loop (Z.to_nat (bb_predecessor_count block)) 0
             (meet_predecessor (E:=E) cfg block numbers idom) (-1))
    (meet_of G (at_ idom) c) (fun _ => False).
Proof.
  intros Hlen HI Hc Hc0 Hb. pose proof (pi_tree _ _ _ _ _ HI) as Hf.
  rewrite (br_pred_count _ _ _ _ Hb).
  eapply outcome_mono; [apply outcome_for_array with (xs := fg_pred G c) (I := fun l m =>
    (m = -1 /\ forall p, p ∈ l -> at_ idom p < 0) \/
    (0 <= at_ idom m /\ forall d, anc (at_ idom) d m <->
       forall p, p ∈ l -> 0 <= at_ idom p -> anc (at_ idom) d p))
    (F := fun _ => False)| |done].
  - left. split; [done|]. by intros p ?%not_elem_of_nil.
  - intros l p rest m Heq Hp HI'. unfold meet_predecessor.
    assert (Hpin : p ∈ fg_pred G c) by (rewrite Heq; apply elem_of_app; right; left).
    assert (Hnp : node G p) by apply (pred_edge G HG p c (reachable_node G HG c Hc) Hpin).
    rewrite (br_pred _ _ _ _ Hb (zlength l) p) by (rewrite Heq; apply znth_middle).
    mstep. unfold node in Hnp. rewrite aget_at by lia. mstep.
    assert (Hl : forall Q : Z -> Prop,
      (forall x, x ∈ l ++ [p] -> Q x) <-> (forall x, x ∈ l -> Q x) /\ Q p).
    { intros Q. split.
      - intros HQ. split; [intros x Hx|]; apply HQ, elem_of_app; [by left|right; left].
      - intros [HQ Hp'] x [Hx|Hx]%elem_of_app; [by apply HQ|].
        by apply list_elem_of_singleton in Hx as ->. }
    destruct (Z.ltb_spec (at_ idom p) 0) as [Hneg|Hpos].
    { cbn. destruct HI' as [[-> Hall]|[Hm Hd]]; [left|right].
      - split; [done|]. by apply Hl.
      - split; [done|]. intros d. rewrite Hd, Hl. split; [|tauto]. intros ?. split; [done|lia]. }
    destruct HI' as [[-> Hall]|[Hm Hd]].
    { cbn. right. split; [done|]. intros d. rewrite Hl. split; [|intros [_ ?]; by auto].
      intros Ha. split; [|done]. intros x Hx. specialize (Hall x Hx). lia. }
    pose proof (done_node idom Hf m Hm) as Hnm. unfold node in Hnm.
    rewrite (proj2 (Z.ltb_ge m 0)) by lia.
    destruct (intersect_spec idom Hlen Hf (E:=E) m p Hm Hpos) as (x & -> & Hx & Hdx).
    cbn. right. split; [done|]. intros d. rewrite Hdx, Hd, Hl. tauto.
  - destruct (tau_ok c Hc Hc0) as (Ht & Het & _).
    assert (Htd : 0 <= at_ idom (tau c)) by (apply (tau_c_done G N tau tau_ok (at_ idom)); done).
    pose proof (reachable_node G HG c Hc) as Hnc.
    intros m [[-> Hall]|[Hm Hd]].
    + specialize (Hall (tau c) (edge_pred G HG _ _ Hnc Het)). lia.
    + split; [done|]. intros d. rewrite Hd. split; intros Hall p Hp; apply Hall.
      * by apply (edge_pred G HG).
      * by apply (pred_edge G HG).
Qed.

Abbreviation work := (fun idom => tree_work N (at_ idom) (seqZ 0 (fg_count G))).

(** Recomputing one block. *)
Lemma update_idom_spec {E} idom c changed :
  zlength idom = fg_count G -> inv (at_ idom) (N c) -> reachable G c -> c <> 0 ->
  outcome (update_idom (E:=E) cfg numbers c (changed, idom))
    (fun '(changed', idom') =>
       zlength idom' = fg_count G /\ inv (at_ idom') (N c - 1) /\
       ((changed' = changed /\ idom' = idom /\ meet_of G (at_ idom) c (at_ idom c)) \/
        (changed' = true /\ work idom < work idom')))
    (fun _ => False).
Proof.
  intros Hlen HI Hc Hc0. pose proof (reachable_node G HG c Hc) as Hnc.
  destruct (read_block cfg G HR (E:=E) c Hnc) as (block & Hrun & Hb).
  unfold update_idom. rewrite Hrun. mstep. apply outcome_bind.
  eapply outcome_mono; [by apply meet_loop| |done]. intros m Hm. cbv beta.
  pose proof (pass_step G HG N tau N_range N_inj tau_ok (at_ idom) c m HI Hc Hc0 Hm) as Hstep.
  unfold node in Hnc. rewrite aget_at by lia. mstep.
  destruct (Z.eqb_spec m (at_ idom c)) as [->|Hne]; cbn [negb].
  - cbn. split; [done|]. split; [|by left].
    eapply pass_inv_ext; [|exact Hstep]. intros x. unfold set_parent.
    by destruct (decide (x = c)) as [->|].
  - rewrite aput_ok by lia. mstep. cbn. rewrite zlength_zset. split; [done|].
    assert (Hsame : same_parents (at_ (zset idom c m)) (set_parent (at_ idom) c m))
      by (apply at_zset; lia).
    split; [by rewrite Hsame|]. right. split; [done|].
    rewrite (tree_work_ext N (at_ (zset idom c m)) (set_parent (at_ idom) c m)) by (intros; apply Hsame).
    rewrite tree_work_set; [|apply NoDup_seqZ|apply elem_of_seqZ; lia].
    pose proof (pi_tree _ _ _ _ _ HI) as Hf.
    pose proof (done_node idom Hf m (proj1 Hm)) as Hnm. unfold node in Hnm.
    rewrite (proj2 (Z.leb_le 0 m)) by lia. unfold parent_work.
    pose proof (N_range m (tr_reach _ _ _ _ Hf m (proj1 Hm))).
    destruct (Z.leb_spec 0 (at_ idom c)) as [Hd|]; [|lia].
    pose proof (meet_moves_up G N tau (at_ idom) c m HI Hc0 Hm Hd) as Hup.
    destruct (anc_num G N tau (at_ idom) Hf _ _ Hup) as [|]; [|congruence|lia].
    by apply (tr_up _ _ _ _ Hf).
Qed.

(** One pass: either nothing changes, and the tree is a fixed point, or the
    sum of the numbers grows. *)
Lemma sweep_spec {E} xs idom changed :
  wrote xs P -> zlength idom = fg_count G -> inv (at_ idom) (-1) \/ inv (at_ idom) (N 0 - 1) ->
  outcome (sweep (E:=E) cfg xs (zlength P) numbers (changed, idom))
    (fun '(changed', idom') =>
       zlength idom' = fg_count G /\ inv (at_ idom') (-1) /\
       if changed' : bool then work idom < work idom'
       else forall c, reachable G c -> c <> 0 -> meet_of G (at_ idom') c (at_ idom' c))
    (fun _ => False).
Proof.
  intros Hw Hlen HI. assert (HI' : inv (at_ idom) (N 0 - 1)).
  { destruct HI as [HI|HI]; [|done]. by apply (pass_next G N tau N_range). }
  unfold sweep. cbn [snd]. pose proof (N_range 0 (reachable_entry G)) as Hn0.
  pose proof N_entry as HN0. rewrite <- HN0.
  eapply outcome_mono; [apply outcome_for with (I := fun k '(changed', idom') =>
       zlength idom' = fg_count G /\ inv (at_ idom') (N 0 - 1 - k) /\
       if changed' : bool then work idom < work idom'
       else idom' = idom /\ forall c, reachable G c -> c <> 0 -> N 0 - 1 - k < N c ->
              meet_of G (at_ idom) c (at_ idom c)) (F := fun _ => False)| |done].
  - split_and!; [done|by rewrite Z.sub_0_r|done|]. intros c Hr Hc0 Hlt.
    exfalso. apply Hc0, N_inj; [done|apply reachable_entry|]. pose proof (N_range c Hr). lia.
  - intros k [changed' idom'] Hk (Hlen' & HIk & Hch).
    destruct (znth_is_Some P (zlength P - 2 - k)) as [c Hc]; [lia|].
    rewrite (cget_ok _ _ _ (Hw _ _ Hc)). mstep.
    assert (Hr : reachable G c) by (apply (po_reach G P HP), znth_elem_of; eauto).
    pose proof (numbers_at _ _ Hc) as HNc.
    assert (c <> 0) by (intros ->; lia).
    replace (N 0 - 1 - k) with (N c) in * by lia.
    eapply outcome_mono; [by apply update_idom_spec| |done].
    intros [ch idom''] (Hl & HI'' & Hcase). split; [done|].
    replace (N 0 - 1 - (k + 1)) with (N c - 1) by lia. split; [done|].
    destruct Hcase as [(-> & -> & Hm)|(-> & Hwk)].
    + destruct changed'; [done|]. destruct Hch as [-> Hch]. split; [done|].
      intros b Hrb Hb0 Hlt. destruct (decide (b = c)) as [->|Hne]; [done|].
      apply Hch; [done..|]. assert (N b <> N c) by (intros Heq; by apply Hne, N_inj). lia.
    + destruct changed'; [lia|]. destruct Hch as [-> _]. done.
  - intros [changed' idom'] (Hl & HI'' & Hch).
    replace (N 0 - 1 - (0 + Z.of_nat (Z.to_nat (N 0)))) with (-1) in * by lia.
    split_and!; [done|done|]. destruct changed'; [done|]. destruct Hch as [-> Hch].
    intros c Hr Hc0. apply Hch; [done..|]. pose proof (N_range c Hr). lia.
Qed.
End passes.
End dominance.

(** * The tree *)

(** What [compute_dominance] leaves in [idom]: the immediate dominators, -1 for
    unreachable blocks, and their numbers as a measure of the chains. *)
Record dominator_tree (G : flow_graph) (idom : list Z) : Prop := {
  dt_length : zlength idom = fg_count G;
  dt_done b : 0 <= at_ idom b <-> reachable G b;
  dt_root : at_ idom 0 = 0;
  dt_anc d b : reachable G b -> anc (at_ idom) d b <-> dominates G d b;
  dt_rank : exists rank : Z -> Z, forall b, reachable G b ->
    0 <= rank b < fg_count G /\
    (b <> 0 -> reachable G (at_ idom b) /\ rank b < rank (at_ idom b));
}.

Section compute.
Context `{U : UnityCommon} {HU : UnityCommonSpec U} `{L : LibcMalloc}.
Context (G : flow_graph) (HG : flow_graph_ok G).
Context (cfg : HLSLControlFlowGraph) (HR : represents cfg G).

(** The array of postorder numbers. *)
Lemma number_loop xs P (F : unit -> Prop) :
  postorder_of G P -> wrote xs P ->
  outcome (for_loop (Z.to_nat (zlength P)) 0
             (fun index numbers => b ← cget xs index; aput numbers b index)
             (filled (fg_count G) (-1)))
    (fun numbers => zlength numbers = fg_count G /\
       (forall i b, znth P i = Some b -> at_ numbers b = i) /\
       (forall b, ~ reachable G b -> at_ numbers b = -1)) F.
Proof.
  intros HP Hw. pose proof (fg_count_ok G HG) as Hn.
  eapply outcome_mono; [apply outcome_for_array with (xs := P) (F := F) (I := fun l numbers =>
    zlength numbers = fg_count G /\ (forall i b, znth l i = Some b -> at_ numbers b = i) /\
    (forall b, b ∉ l -> at_ numbers b = -1))| |done].
  - rewrite zlength_filled by lia. split_and!; [done| |].
    + intros i b Hb. apply znth_Some in Hb. unfold zlength in Hb. cbn in Hb. lia.
    + intros b _. unfold at_. destruct (znth _ _) eqn:Hb; [|done].
      pose proof (znth_Some _ _ _ Hb) as Hr. rewrite zlength_filled in Hr by lia.
      rewrite znth_filled in Hb by done. by injection Hb as <-.
  - intros l b rest numbers Heq Hb (Hlen & Hat & Hout). rewrite (cget_ok _ _ _ (Hw _ _ Hb)). mstep.
    assert (Hnb : 0 <= b < zlength numbers).
    { rewrite Hlen. apply (reachable_node G HG), (po_reach G P HP), znth_elem_of. eauto. }
    rewrite aput_ok by done. cbn. rewrite zlength_zset. split; [done|].
    pose proof (po_nodup G P HP) as Hd. rewrite Heq in Hd.
    apply list.NoDup_app in Hd as (_ & Hdis & _).
    assert (Hset : forall x, at_ (zset numbers b (zlength l)) x =
                             if decide (x = b) then zlength l else at_ numbers x).
    { intros x. apply (at_zset numbers b (zlength l) Hnb x). }
    split.
    + intros i x Hx. rewrite Hset. apply znth_snoc in Hx as [Hx|[-> ->]].
      * rewrite decide_False; [by apply Hat|]. intros ->.
        apply (Hdis b); [apply znth_elem_of; eauto|left].
      * by rewrite decide_True.
    + intros x Hx. rewrite elem_of_app, list_elem_of_singleton in Hx.
      rewrite Hset, decide_False by tauto. apply Hout. tauto.
  - intros numbers (Hlen & Hat & Hout). split_and!; [done..|].
    intros b Hr. apply Hout. intros Hin. by apply Hr, (po_reach G P HP).
Qed.

Lemma at_start x : at_ (zset (filled (fg_count G) (-1)) 0 0) x = if decide (x = 0) then 0 else -1.
Proof.
  pose proof (fg_count_ok G HG) as Hn.
  assert (Hz : 0 <= 0 < zlength (filled (fg_count G) (-1))) by (rewrite zlength_filled; lia).
  rewrite (at_zset _ _ _ Hz x). unfold set_parent.
  destruct (decide (x = 0)); [done|]. unfold at_. destruct (znth _ _) eqn:Hx; [|done].
  pose proof (znth_Some _ _ _ Hx) as Hr. rewrite zlength_filled in Hr by lia.
  rewrite znth_filled in Hx by done. by injection Hx as <-.
Qed.

Lemma dominance_tree_spec :
  outcome (dominance_tree cfg) (dominator_tree G) (fun _ => malloc_failed).
Proof.
  pose proof (fg_count_ok G HG) as Hn. unfold dominance_tree. rewrite (rp_count _ _ HR).
  apply outcome_bind. eapply outcome_mono; [by apply (build_postorder_spec G HG cfg HR)| |done].
  intros [xs count] (P & HP & Hw & ->). apply outcome_bind.
  eapply outcome_mono; [by apply number_loop with (F := fun _ => malloc_failed)| |done].
  intros numbers (Hlen & Hat & Hout).
  set (N := at_ numbers). set (t := tau G numbers).
  pose proof (N_range G P HP numbers Hat) as HNr. pose proof (N_inj G P HP numbers Hat) as HNi.
  pose proof (tau_ok G HG P HP numbers Hat Hout) as Ht.
  fold N in HNr, HNi, Ht. fold t in Ht.
  rewrite aput_ok by (rewrite zlength_filled; lia). mstep. apply outcome_bind.
  assert (HN0 : N 0 = zlength P - 1) by by apply (N_entry G P HP).
  pose proof (P_length G HG P HP) as HPl.
  set (work := fun idom => tree_work N (at_ idom) (seqZ 0 (fg_count G))).
  eapply outcome_mono; [apply outcome_while with
    (I := fun '(changed, idom) => zlength idom = fg_count G /\
       (pass_inv G N t (at_ idom) (-1) \/ pass_inv G N t (at_ idom) (N 0 - 1)) /\
       (changed = false -> pass_inv G N t (at_ idom) (-1) /\
          forall c, reachable G c -> c <> 0 -> meet_of G (at_ idom) c (at_ idom c)))
    (μ := fun '(changed, idom) => if changed : bool
          then S (Z.to_nat (fg_count G * fg_count G - work idom)) else 0%nat)
    (F := fun _ => malloc_failed)| |done].
  - rewrite zlength_zset, zlength_filled by lia. split_and!; [done| |done]. right.
    apply pass_start; [done|done|lia|by rewrite at_start|].
    intros b Hb. by rewrite at_start, decide_False.
  - unfold sweep_fuel. rewrite (rp_count _ _ HR). unfold work.
    enough (0 <= tree_work N (at_ (zset (filled (fg_count G) (-1)) 0 0)) (seqZ 0 (fg_count G)))
      by nia.
    eapply tree_work_range with (G := G) (tau := t); [done|].
    eapply (pi_tree G N t _ (N 0 - 1)).
    apply pass_start; [done|done|lia|by rewrite at_start|].
    intros b Hb. by rewrite at_start, decide_False.
  - intros [changed idom] (Hl & HI & _) Hch. cbn in Hch. subst changed. split; [lia|].
    eapply outcome_mono; [by apply (sweep_spec G HG P HP numbers Hlen Hat Hout cfg HR)| |done].
    intros [changed' idom'] (Hl' & HI' & Hcase).
    split; [split_and!; [done|by left|]; intros ->; done|].
    destruct changed'; [|lia]. fold N in Hcase. fold (work idom) (work idom') in Hcase.
    enough (work idom' <= fg_count G * fg_count G) by lia.
    assert (Hr : 0 <= tree_work N (at_ idom') (seqZ 0 (fg_count G)) <=
                 (N 0 + 1) * zlength (seqZ 0 (fg_count G))).
    { eapply tree_work_range; [done|]. apply (pi_tree _ _ _ _ _ HI'). }
    unfold zlength in Hr at 1. rewrite length_seqZ in Hr. unfold work. nia.
  - intros [changed idom] [(Hl & _ & Hfix) Hch]. cbn in Hch. subst changed.
    destruct (Hfix eq_refl) as [HI Hm]. cbn.
    pose proof (pi_tree _ _ _ _ _ HI) as Htree.
    assert (Hdone : forall b, reachable G b -> 0 <= at_ idom b).
    { intros b Hb. apply (pi_done _ _ _ _ _ HI); [done|]. pose proof (HNr b Hb). lia. }
    split; [done| |apply (tr_root _ _ _ _ Htree)| |].
    + intros b. split; [apply (tr_reach _ _ _ _ Htree)|apply Hdone].
    + by apply (fixpoint_dominates G N t HNr).
    + exists N. intros b Hb. pose proof (HNr b Hb). split; [lia|]. intros Hb0.
      destruct (tr_up _ _ _ _ Htree b (Hdone b Hb) Hb0) as (Hu & Hlt & _).
      split; [by apply (tr_reach _ _ _ _ Htree)|done].
Qed.
End compute.

(** * Asking the tree *)

Section query.
Context (G : flow_graph) (HG : flow_graph_ok G).
Context (idom : list Z) (HD : dominator_tree G idom).

Lemma idom_reachable b : reachable G b -> reachable G (at_ idom b).
Proof.
  intros Hb. destruct (decide (b = 0)) as [->|Hb0].
  - rewrite (dt_root _ _ HD). apply reachable_entry.
  - destruct (dt_rank _ _ HD) as [rank Hr]. by apply Hr.
Qed.

Lemma idom_node b : reachable G b -> 0 <= b < zlength idom.
Proof. intros Hb. rewrite (dt_length _ _ HD). by apply (reachable_node G HG). Qed.

Lemma dominates_loop_spec {E} (rank : Z -> Z) steps d b :
  (forall b, reachable G b -> 0 <= rank b < fg_count G /\
    (b <> 0 -> reachable G (at_ idom b) /\ rank b < rank (at_ idom b))) ->
  reachable G b -> (Z.to_nat (fg_count G - rank b) <= steps)%nat ->
  exists v, dominates_loop (E:=E) steps (fg_count G) idom d b = Ret v /\
    (v = true <-> anc (at_ idom) d b).
Proof.
  intros Hrank. revert b. induction steps as [|steps IH]; intros b Hb Hsteps.
  all: destruct (Hrank b Hb) as [Hr Hup]; cbn [dominates_loop].
  { lia. }
  destruct (Z.eqb_spec b d) as [->|Hne]; [exists true; split; [done|]; split; [constructor|done]|].
  rewrite (aget_at idom b (idom_node b Hb)). mstep.
  pose proof (idom_reachable b Hb) as Hu. pose proof (idom_node _ Hu) as Hun.
  rewrite (dt_length _ _ HD) in Hun.
  rewrite (proj2 (Z.ltb_ge _ 0)), (proj2 (Z.leb_gt (fg_count G) _)) by lia. cbn [orb].
  destruct (Z.eqb_spec (at_ idom b) b) as [Heq|Hneq].
  - exists false. split; [done|]. split; [done|]. intros Ha. exfalso.
    destruct (decide (b = 0)) as [->|Hb0]; [by apply Hne, eq_sym, (anc_of_root _ _ Ha)|].
    destruct (Hup Hb0) as [_ Hlt]. rewrite Heq in Hlt. lia.
  - assert (Hb0 : b <> 0) by (intros ->; by apply Hneq, (dt_root _ _ HD)).
    destruct (Hup Hb0) as [_ Hlt]. destruct (IH (at_ idom b) Hu ltac:(lia)) as (v & -> & Hv).
    exists v. split; [done|]. rewrite Hv. split; [by apply anc_up|].
    intros Ha. by apply anc_strict in Ha as [_ ?].
Qed.

Lemma dominates_reachable d b : dominates G d b -> reachable G d.
Proof.
  intros [Hb Hd]. apply reachable_walk in Hb as [l Hl]. specialize (Hd l Hl).
  clear -Hl Hd. induction Hl as [|l b c Hl IH He].
  - apply list_elem_of_singleton in Hd as ->. apply reachable_entry.
  - apply elem_of_app in Hd as [Hd|Hd]; [by apply IH|].
    apply list_elem_of_singleton in Hd as ->. eapply reachable_step; [|done].
    apply reachable_walk. eauto.
Qed.

(** [hlsl_cfg_dominates] on any two numbers. *)
Lemma hlsl_cfg_dominates_spec {E} cfg d b :
  cfg_block_count cfg = fg_count G -> cfg_idom cfg = Some idom ->
  exists v, hlsl_cfg_dominates (E:=E) cfg d b = Ret v /\ (v = true <-> dominates G d b).
Proof.
  intros Hn Hi. unfold hlsl_cfg_dominates. rewrite Hi, Hn.
  assert (Hno : (~ reachable G d \/ ~ reachable G b) -> exists v,
            Ret (E:=E) false = Ret v /\ (v = true <-> dominates G d b)).
  { intros Hr. exists false. split; [done|]. split; [done|]. intros Hd.
    exfalso. destruct Hr as [Hr|Hr]; apply Hr; [by eapply dominates_reachable|apply Hd]. }
  assert (Hout : forall x, ~ node G x -> ~ reachable G x)
    by (intros x Hx Hr; by apply Hx, (reachable_node G HG)).
  unfold node in Hout.
  destruct ((d <? 0) || (fg_count G <=? d) || (b <? 0) || (fg_count G <=? b)) eqn:Hg.
  { apply Hno. rewrite !orb_true_iff, !Z.ltb_lt, !Z.leb_le in Hg.
    destruct Hg as [[[Hg|Hg]|Hg]|Hg]; [left|left|right|right]; apply Hout; lia. }
  bools. pose proof (dt_length _ _ HD). rewrite !aget_at by lia. mstep.
  destruct (Z.ltb_spec (at_ idom d) 0) as [Hd|Hd].
  { apply Hno. left. intros Hr%(dt_done _ _ HD). lia. }
  destruct (Z.ltb_spec (at_ idom b) 0) as [Hb|Hb].
  { apply Hno. right. intros Hr%(dt_done _ _ HD). lia. }
  apply (dt_done _ _ HD) in Hb. destruct (dt_rank _ _ HD) as [rank Hrank]. cbn [orb].
  destruct (dominates_loop_spec (E:=E) rank (Z.to_nat (fg_count G)) d b Hrank Hb) as (v & -> & Hv).
  { pose proof (proj1 (Hrank b Hb)). lia. }
  exists v. split; [done|]. rewrite Hv. by apply (dt_anc _ _ HD).
Qed.
End query.
