(* ===== verification/Frontier.v ===== *)
(** Dominance frontiers: walking from every predecessor of a block up to the
    block's immediate dominator fills, for every block, exactly its frontier. *)

From stdpp Require Import relations.
From S2P Require Import Prelude CArray UnityCommon Heap Usil Cfg FlowGraph Postorder DominatorTree Dominance.

#[local] Set Warnings "-register-all".

(** The frontier arrays hold the relation [R d x]: [x] is in the array of [d]. *)
Record frontier_holds (G : flow_graph) (st : frontier_state) (R : Z -> Z -> Prop) : Prop := {
  fh_length : zlength (fst st) = fg_count G /\ zlength (snd st) = fg_count G;
  fh_at d : node G d -> exists v, znth (fst st) d = Some v /\
    znth (snd st) d = Some (zlength (default [] v)) /\ NoDup (default [] v) /\
    (forall x, x ∈ default [] v -> node G x) /\ forall x, x ∈ default [] v <-> R d x;
}.

#[export] Instance frontier_holds_proper G st :
  Proper (pointwise_relation Z (pointwise_relation Z iff) ==> iff) (frontier_holds G st).
Proof.
  assert (Hle : forall R R' : Z -> Z -> Prop, (forall d x, R d x <-> R' d x) ->
            frontier_holds G st R -> frontier_holds G st R').
  { intros R R' HR [Hl Ha]. split; [done|]. intros d Hd.
    destruct (Ha d Hd) as (v & ? & ? & ? & ? & Hx). exists v. split_and!; [done..|].
    intros x. rewrite Hx. apply HR. }
  intros R R' HR. split; apply Hle; intros d x; [|symmetry]; apply HR.
Qed.

Section frontier.
Context `{U : UnityCommon} {HU : UnityCommonSpec U} `{L : LibcMalloc}.
Context (G : flow_graph) (HG : flow_graph_ok G).
Context (cfg : HLSLControlFlowGraph) (HR : represents cfg G).
Context (idom : list Z) (HD : dominator_tree G idom).

Abbreviation up := (at_ idom).
Abbreviation chain := (anc up).

Lemma chain_dominates d b : reachable G b -> chain d b <-> dominates G d b.
Proof. apply (dt_anc _ _ HD). Qed.

Lemma chain_reachable d b : chain d b -> reachable G b -> reachable G d.
Proof. intros Ha Hb. eapply (dominates_reachable G). by apply chain_dominates. Qed.

(** Two blocks on each other's chain are one. *)
Lemma chain_antisym d b : reachable G b -> chain d b -> chain b d -> d = b.
Proof.
  destruct (dt_rank _ _ HD) as [rank Hrank].
  assert (Hle : forall d b, chain d b -> reachable G b -> d = b \/ rank b < rank d).
  { induction 1 as [|b' Hb0 _ IH]; [by left|]. intros Hb. right.
    destruct (Hrank b' Hb) as [_ [Hu Hlt]]; [done|]. destruct (IH Hu) as [->|]; lia. }
  intros Hb Hdb Hbd. destruct (Hle _ _ Hdb Hb) as [|H1]; [done|].
  destruct (Hle _ _ Hbd (chain_reachable _ _ Hdb Hb)) as [|]; [done|lia].
Qed.

Lemma chain_strict d b : reachable G b -> b <> 0 -> chain d (up b) <-> dominates G d b /\ d <> b.
Proof.
  intros Hb Hb0. rewrite <- chain_dominates by done. split.
  - intros Ha. split; [by apply anc_up|]. intros ->.
    pose proof (idom_reachable G idom HD b Hb) as Hu.
    assert (Heq : b = up b).
    { apply chain_antisym; [done|done|]. apply anc_up; [done|constructor]. }
    destruct (dt_rank _ _ HD) as [rank Hrank]. destruct (Hrank b Hb) as [_ [_ Hlt]]; [done|].
    rewrite <- Heq in Hlt. lia.
  - intros [Ha Hne]. by apply anc_strict in Ha as [_ ?].
Qed.

(** A block other than the entry is entered from another block. *)
Lemma other_pred b : reachable G b -> b <> 0 -> exists p, edge G p b /\ p <> b /\ reachable G p.
Proof.
  intros [l Hl]%reachable_walk. induction Hl as [|l c b Hl IH He]; [done|]. intros Hb0.
  destruct (decide (c = b)) as [->|Hne]; [by apply IH|]. exists c. split_and!; [done..|].
  apply reachable_walk. eauto.
Qed.

(** With a single predecessor a block is in no frontier. *)
Lemma single_pred_frontier d b : zlength (fg_pred G b) < 2 -> ~ in_frontier G d b.
Proof.
  intros Hlt [(p & Hp & Hd) Hno]. pose proof (proj1 Hd) as Hrp.
  pose proof (reachable_step G p b Hrp Hp) as Hrb. pose proof (reachable_node G HG b Hrb) as Hnb.
  assert (Hb0 : b <> 0) by (intros ->; by apply (fg_entry G HG p)).
  assert (Hone : forall q, edge G q b -> q = p).
  { intros q Hq. pose proof (edge_pred G HG q b Hnb Hq) as Hqin.
    pose proof (edge_pred G HG p b Hnb Hp) as Hpin.
    unfold zlength in Hlt. destruct (fg_pred G b) as [|x [|y l]]; cbn [length] in Hlt; [|..|lia].
    - by apply not_elem_of_nil in Hqin.
    - apply list_elem_of_singleton in Hqin, Hpin. congruence. }
  destruct (other_pred b Hrb Hb0) as (q & Hq & Hqb & _). rewrite (Hone q Hq) in Hqb.
  assert (Hpb : dominates G p b).
  { apply dominates_pred; [done..|]. intros q' Hq' Hr. rewrite (Hone q' Hq').
    by apply dominates_refl. }
  apply Hno. destruct (decide (d = b)) as [->|Hne].
  - exfalso. apply Hqb. apply chain_antisym; [done|by apply chain_dominates..].
  - split; [|done]. apply dominates_pred; [done..|]. intros q' Hq' _. by rewrite (Hone q' Hq').
Qed.

(** A frontier block and its predecessor, by the chains. *)
Lemma in_frontier_chain d b :
  reachable G b ->
  in_frontier G d b <-> exists p, edge G p b /\ reachable G p /\ chain d p /\ ~ chain d (up b).
Proof.
  intros Hb. assert (Hb0 : forall p, edge G p b -> b <> 0)
    by (intros p Hp ->; by apply (fg_entry G HG p)).
  split.
  - intros [(p & Hp & Hd) Hno]. pose proof (proj1 Hd) as Hrp. exists p. split_and!; [done..| |].
    + by apply chain_dominates.
    + intros Ha. apply Hno. by apply chain_strict in Ha; [|done|eapply Hb0].
  - intros (p & Hp & Hrp & Ha & Hno). split.
    + exists p. split; [done|]. by apply chain_dominates.
    + intros Hs. apply Hno. by apply chain_strict; [|eapply Hb0|].
Qed.

(** * The arrays *)

Lemma frontier_start : frontier_holds G (filled (fg_count G) None, filled (fg_count G) 0)
  (fun _ _ => False).
Proof.
  pose proof (fg_count_ok G HG). split; cbn [fst snd].
  - rewrite !zlength_filled by lia. done.
  - intros d Hd. exists None. rewrite !znth_filled by done. cbn. split_and!; [done..|constructor| |].
    + by intros x ?%not_elem_of_nil.
    + intros x. by rewrite elem_of_nil.
Qed.

Lemma add_frontier_spec v b :
  node G b -> NoDup (default [] v) -> (forall x, x ∈ default [] v -> node G x) ->
  outcome (add_frontier v (zlength (default [] v)) b)
    (fun '(v', count) => count = zlength (default [] v') /\ NoDup (default [] v') /\
       forall x, x ∈ default [] v' <-> x ∈ default [] v \/ x = b)
    (fun _ => malloc_failed).
Proof.
  intros Hb Hd Hn. pose proof (fg_count_ok G HG) as Hc. unfold add_frontier.
  destruct (any_index_array (E:=unit) (default [] v) (fun x => x = b)
    (fun index => xs ← ptr v; x ← aget xs index; Ret (x =? b))) as (found & -> & Hf).
  { intros i x Hx. destruct v as [xs|]; cbn in Hx |- *; [|apply znth_Some in Hx; unfold zlength in Hx; cbn in Hx; lia].
    rewrite (aget_ok _ _ _ Hx). mstep. eexists. split; [done|]. apply Z.eqb_eq. }
  mstep. destruct found.
  - cbn. split_and!; [done..|]. intros x. split; [by left|]. intros [?| ->]; [done|].
    destruct (proj1 Hf eq_refl) as (y & Hy & ->). done.
  - assert (Hnew : b ∉ default [] v) by (intros Hin; enough (false = true) by done; apply Hf; eauto).
    assert (Hd' : NoDup (default [] v ++ [b])).
    { apply list.NoDup_app. split_and!; [done| |apply NoDup_singleton].
      intros x Hx ->%list_elem_of_singleton. done. }
    assert (Hle : zlength (default [] v ++ [b]) <= fg_count G).
    { apply zlength_NoDup_le; [lia|done|].
      intros x [?|Hx]%elem_of_app; [by apply Hn|]. by apply list_elem_of_singleton in Hx as ->. }
    rewrite zlength_snoc in Hle. pose proof (zlength_nonneg (default [] v)). unfold INT_MAX in *.
    rewrite (proj2 (Z.eqb_neq _ _)) by lia. wrap.
    rewrite size_multiply_overflows_spec by (unfold in_u64; lia).
    rewrite (proj2 (Z.leb_gt _ _)) by lia. cbn [orb].
    destruct (libc_malloc (_ * 4)) eqn:Hm; [|by eexists]. cbn. rewrite zlength_snoc.
    split_and!; [done..|]. intros x. by rewrite elem_of_app, list_elem_of_singleton.
Qed.

(** One runner joins the frontier. *)
Lemma runner_step_spec R b runner st :
  frontier_holds G st R -> node G b -> reachable G runner ->
  outcome (runner_step idom b (runner, st))
    (fun '(next, st') => next = up runner /\
       frontier_holds G st' (fun d x => R d x \/ (d = runner /\ x = b)))
    (fun _ => malloc_failed).
Proof.
  destruct st as [frontiers counts]. intros [[Hl1 Hl2] Hat] Hb Hr. cbn [fst snd] in *.
  pose proof (reachable_node G HG _ Hr) as Hnr.
  destruct (Hat runner Hnr) as (v & Hv & Hc & Hd & Hn & Hx). unfold runner_step.
  rewrite (aget_ok _ _ _ Hv). mstep. rewrite (aget_ok _ _ _ Hc). mstep. apply outcome_bind.
  eapply outcome_mono; [by apply add_frontier_spec| |done].
  intros [v' count] (-> & Hd' & Hx'). unfold node in Hnr.
  rewrite !aput_ok by lia. mstep. rewrite ?aput_ok by lia. mstep.
  rewrite (aget_at idom runner) by (rewrite (dt_length _ _ HD); done). cbn. split; [done|].
  split; cbn [fst snd]; [by rewrite !zlength_zset|]. intros d Hnd.
  destruct (decide (d = runner)) as [->|Hne].
  - exists v'. rewrite !znth_zset_eq by lia. split_and!; [done..| |].
    + intros x [?| ->]%Hx'; [by apply Hn|done].
    + intros x. rewrite Hx', Hx. tauto.
  - destruct (Hat d Hnd) as (w & Hw & Hcw & Hdw & Hnw & Hxw). exists w.
    rewrite !znth_zset_ne by congruence. split_and!; [done..|]. intros x. rewrite Hxw. tauto.
Qed.
(** From a predecessor [p] of [b] up to the immediate dominator of [b]. *)
Definition joins (b p d x : Z) : Prop := x = b /\ chain d p /\ ~ chain d (up b).

Lemma idom_on_pred b p :
  reachable G b -> b <> 0 -> edge G p b -> reachable G p -> chain (up b) p.
Proof.
  intros Hb Hb0 Hp Hrp. destruct (proj1 (chain_strict (up b) b Hb Hb0)) as [Hd Hne]; [constructor|].
  apply chain_dominates; [done|]. by eapply (dominates_pred G (up b) b).
Qed.

Lemma runner_loop R b p st :
  frontier_holds G st R -> reachable G b -> b <> 0 -> edge G p b -> reachable G p ->
  outcome (while (length idom) (fun st => negb (fst st =? up b)) (runner_step idom b) (p, st))
    (fun '(_, st') => frontier_holds G st' (fun d x => R d x \/ joins b p d x))
    (fun _ => malloc_failed).
Proof.
  intros HF Hb Hb0 Hp Hrp. destruct (dt_rank _ _ HD) as [rank Hrank].
  pose proof (idom_on_pred b p Hb Hb0 Hp Hrp) as Hup.
  eapply outcome_mono; [apply outcome_while with (F := fun _ => malloc_failed)
    (I := fun '(r, st') => chain r p /\ chain (up b) r /\
       frontier_holds G st' (fun d x => R d x \/ (x = b /\ chain d p /\ ~ chain d r)))
    (μ := fun '(r, _) => Z.to_nat (fg_count G - rank r))| |done].
  - split_and!; [constructor|done|]. eapply frontier_holds_proper; [|exact HF].
    intros d x. split; [|by left]. intros [?|(_ & ? & ?)]; done.
  - pose proof (proj1 (Hrank p Hrp)). pose proof (dt_length _ _ HD) as Hl. unfold zlength in Hl. lia.
  - intros [r st'] (Hr & Hur & HF') Hc. cbn [fst] in Hc. apply negb_true_iff, Z.eqb_neq in Hc.
    pose proof (chain_reachable _ _ Hr Hrp) as Hrr. pose proof (proj1 (Hrank r Hrr)).
    split; [lia|].
    eapply outcome_mono; [by apply runner_step_spec; [|apply (reachable_node G HG)|]| |done].
    intros [next st''] (-> & HF''). destruct (anc_strict _ _ _ Hur) as [Hr0 Hur']; [congruence|].
    destruct (Hrank r Hrr) as [_ [Hru Hlt]]; [done|].
    assert (Hrp' : chain (up r) p).
    { eapply anc_trans; [|exact Hr]. apply anc_up; [done|constructor]. }
    split; [|pose proof (proj1 (Hrank (up r) Hru)); lia]. split_and!; [done|done|].
    eapply frontier_holds_proper; [|exact HF'']. intros d x.
    assert (Hsplit : chain d r <-> d = r \/ chain d (up r)).
    { split; [|intros [->|]; [constructor|by apply anc_up]].
      intros Ha. destruct (decide (d = r)); [by left|]. right. by apply anc_strict in Ha as [_ ?]. }
    assert (Hirr : ~ chain r (up r)).
    { intros Ha. by apply chain_strict in Ha as [_ ?]. }
    rewrite Hsplit. split.
    + intros [?|(-> & Hdp & Hn)]; [by left; left|]. destruct (decide (d = r)) as [->|]; [by right|].
      left. right. tauto.
    + intros [[?|(-> & Hdp & Hn)]|[-> ->]]; [by left|right; tauto|]. right. done.
  - intros [r st'] [(_ & _ & HF') Hc]. cbn [fst] in Hc. apply negb_false_iff, Z.eqb_eq in Hc as ->.
    done.
Qed.

(** One block joins the frontiers from each of its predecessors. *)
Lemma frontier_block_spec R b st :
  frontier_holds G st R -> node G b ->
  outcome (frontier_block cfg idom b st)
    (fun st' => frontier_holds G st' (fun d x => R d x \/ (x = b /\ in_frontier G d b)))
    (fun _ => malloc_failed).
Proof.
  intros HF Hnb. unfold frontier_block.
  destruct (read_block cfg G HR (E:=unit) b Hnb) as (block & Hrun & Hbl). rewrite Hrun. mstep.
  pose proof (dt_length _ _ HD) as Hlen. unfold node in Hnb. rewrite aget_at by lia. mstep.
  rewrite (br_pred_count _ _ _ _ Hbl).
  assert (Hskip : (forall d, ~ in_frontier G d b) ->
            frontier_holds G st (fun d x => R d x \/ (x = b /\ in_frontier G d b))).
  { intros Hno. eapply frontier_holds_proper; [|exact HF]. intros d x.
    split; [|by left]. intros [?|[_ ?]]; [done|exfalso; by eapply Hno]. }
  destruct (Z.ltb_spec (at_ idom b) 0) as [Hneg|Hpos].
  { cbn. apply Hskip. intros d [(p & Hp & Hd) _].
    assert (Hr : reachable G b) by (eapply reachable_step; [exact (proj1 Hd)|done]).
    apply (dt_done _ _ HD) in Hr. lia. }
  apply (dt_done _ _ HD) in Hpos as Hb.
  destruct (Z.ltb_spec (zlength (fg_pred G b)) 2) as [Hlt|_]; cbn [orb].
  { cbn. apply Hskip. intros d. by apply single_pred_frontier. }
  eapply outcome_mono; [apply outcome_for_array with (xs := fg_pred G b)
    (F := fun _ => malloc_failed) (I := fun l st' => frontier_holds G st' (fun d x =>
       R d x \/ exists p, p ∈ l /\ reachable G p /\ joins b p d x))| |done].
  - eapply frontier_holds_proper; [|exact HF]. intros d x. split; [|by left].
    intros [?|(p & Hp & _)]; [done|by apply not_elem_of_nil in Hp].
  - intros l p rest st' Heq Hp HF'.
    assert (Hpin : p ∈ fg_pred G b) by (rewrite Heq; apply elem_of_app; right; left).
    pose proof (pred_edge G HG p b Hnb Hpin) as Hpe. pose proof (proj1 Hpe) as Hnp.
    assert (Hb0 : b <> 0) by (intros ->; by apply (fg_entry G HG p)).
    unfold frontier_edge. rewrite (br_pred _ _ _ _ Hbl _ _ Hp). mstep.
    unfold node in Hnp. rewrite (aget_at idom p) by lia. mstep.
    assert (Hl : forall d x, (exists q, q ∈ l ++ [p] /\ reachable G q /\ joins b q d x) <->
      (exists q, q ∈ l /\ reachable G q /\ joins b q d x) \/ (reachable G p /\ joins b p d x)).
    { intros d x. split.
      - intros (q & [Hq|Hq]%elem_of_app & Hr & Hj); [left; eauto|right].
        by apply list_elem_of_singleton in Hq as ->.
      - intros [(q & Hq & Hr & Hj)|[Hr Hj]]; [exists q|exists p]; rewrite elem_of_app;
          (split; [|done]); [by left|right; by left]. }
    destruct (Z.ltb_spec (at_ idom p) 0) as [Hneg|Hpp].
    { cbn. eapply frontier_holds_proper; [|exact HF']. intros d x. rewrite Hl.
      assert (~ reachable G p) by (rewrite <- (dt_done _ _ HD); lia). tauto. }
    apply (dt_done _ _ HD) in Hpp. rewrite (aget_at idom b) by lia. mstep. apply outcome_bind.
    eapply outcome_mono; [by apply (runner_loop _ b p st' HF' Hb Hb0 Hpe Hpp)| |done].
    intros [r st''] HF''. cbn. eapply frontier_holds_proper; [|exact HF'']. intros d x.
    rewrite Hl. tauto.
  - intros st' HF'. eapply frontier_holds_proper; [|exact HF']. intros d x.
    rewrite in_frontier_chain by done. unfold joins.
    assert (Hpe : forall p, p ∈ fg_pred G b <-> edge G p b).
    { intros p. split; [by apply pred_edge|by apply edge_pred]. }
    setoid_rewrite Hpe. split.
    + intros [?|(-> & p & ? & ? & ? & ?)]; [by left|]. right. exists p. done.
    + intros [?|(p & ? & ? & -> & ? & ?)]; [by left|]. right. split; [done|]. exists p. done.
Qed.

(** The frontiers of a graph. *)
Lemma dominance_frontiers_spec :
  outcome (dominance_frontiers cfg idom)
    (fun st => frontier_holds G st (in_frontier G)) (fun _ => malloc_failed).
Proof.
  pose proof (fg_count_ok G HG) as Hn. unfold dominance_frontiers. rewrite (rp_count _ _ HR).
  eapply outcome_mono; [apply outcome_for with (F := fun _ => malloc_failed)
    (I := fun i st => frontier_holds G st (fun d x => x < i /\ node G x /\ in_frontier G d x))| |done].
  - eapply frontier_holds_proper; [|exact frontier_start]. intros d x. unfold node. split; [lia|done].
  - intros b st Hb HF. assert (Hnb : node G b) by (unfold node; lia).
    eapply outcome_mono; [by apply frontier_block_spec| |done].
    intros st' HF'. eapply frontier_holds_proper; [|exact HF']. intros d x. split.
    + intros (Hlt & Hx & Hf). destruct (decide (x = b)) as [->|]; [by right|].
      left. split; [lia|done].
    + intros [(Hlt & Hx & Hf)|[-> Hf]]; (split; [lia|done]).
  - intros st HF. eapply frontier_holds_proper; [|exact HF]. intros d x. split; [|tauto].
    intros Hf. assert (Hx : node G x) by (destruct Hf as [(p & Hp & _) _]; by apply (fg_edge_node G HG p)).
    split; [unfold node in Hx; lia|done].
Qed.
End frontier.
