(* ===== verification/MustReach.v ===== *)
(** Must-reach: the worklist of [hlsl_cfg_must_reach] computes the least set of
    blocks from which every run, finite or infinite, gets to the target. *)

From stdpp Require Import relations.
From S2P Require Import Prelude CArray UnityCommon Heap Usil Cfg FlowGraph Postorder DominatorTree Dominance.

#[local] Set Warnings "-register-all".

(** A run that never ends, block by block. *)
Definition infinite_run (G : flow_graph) (a : Z) (run : nat -> Z) : Prop :=
  run 0%nat = a /\ forall i, edge G (run i) (run (S i)).

(** Execution may stop in [b]: at an exit, or for want of a successor. *)
Definition may_stop (G : flow_graph) (b : Z) : Prop := fg_exit G b = true \/ fg_succ G b = [].

(** Whatever path execution takes from [a], it gets to [t]: it neither runs
    forever nor stops without having been there. *)
Definition always_reaches (G : flow_graph) (t a : Z) : Prop :=
  (forall run, infinite_run G a run -> exists i, run i = t) /\
  (forall l b, walk G a l b -> may_stop G b -> t ∈ l).

(** The same as a least fixed point. *)
Inductive must_reach (G : flow_graph) (t : Z) : Z -> Prop :=
| must_here : must_reach G t t
| must_step b : ~ may_stop G b -> (forall s, edge G b s -> must_reach G t s) -> must_reach G t b.

Section runs.
Context (G : flow_graph) (t : Z).

Lemma walk_cons a b l c : edge G a b -> walk G b l c -> walk G a (a :: l) c.
Proof.
  intros He Hl. induction Hl as [|l c d Hl IH Hc].
  - exact (walk_step G a [a] a b (walk_one G a) He).
  - exact (walk_step G a (a :: l) c d IH Hc).
Qed.

(** A walk is one block, or an edge and a walk. *)
Lemma walk_inv a l c : walk G a l c -> (l = [a] /\ c = a) \/
  exists b l', edge G a b /\ walk G b l' c /\ l = a :: l'.
Proof.
  intros Hl. induction Hl as [|l b c Hl IH He]; [by left|]. right.
  destruct IH as [[-> ->]|(b' & l' & Hab & Hl' & ->)].
  - exists c, [c]. split_and!; [done|constructor|done].
  - exists b', (l' ++ [c]). split_and!; [done|by eapply walk_step|done].
Qed.

Lemma must_reach_always a : must_reach G t a -> always_reaches G t a.
Proof.
  induction 1 as [|a Hstop _ IH]; split.
  - intros run [H0 _]. by exists 0%nat.
  - intros l b Hl _. by eapply walk_start.
  - intros run [H0 Hrun]. destruct (proj1 (IH (run 1%nat) ltac:(rewrite <- H0; apply Hrun))
      (fun i => run (S i))) as [i Hi].
    + split; [done|]. intros i. apply Hrun.
    + by exists (S i).
  - intros l b Hl Hb. apply walk_inv in Hl as [[-> ->]|(s & l' & He & Hl' & ->)]; [done|].
    right. by apply (proj2 (IH s He) l' b).
Qed.

(** Where a set that holds [t] is left by no block that must go on into it,
    the blocks outside have a run that avoids [t]. *)
Lemma escape (proven : list Z) a :
  t ∈ proven -> reachable G a -> a ∉ proven ->
  (forall b, reachable G b -> b ∉ proven -> ~ may_stop G b -> exists s, edge G b s /\ s ∉ proven) ->
  ~ always_reaches G t a.
Proof.
  intros Ht Ha Hap Hout [Hinf Hfin].
  set (next b := match base.filter (fun s => s ∉ proven) (fg_succ G b) with s :: _ => s | [] => b end).
  assert (Hnext : forall b, reachable G b -> b ∉ proven -> ~ may_stop G b ->
            edge G b (next b) /\ next b ∉ proven).
  { intros b Hb Hbp Hgo. destruct (Hout b Hb Hbp Hgo) as (s & [Hn Hs] & Hsp).
    assert (Hin : next b ∈ base.filter (fun s => s ∉ proven) (fg_succ G b)).
    { assert (Hs' : s ∈ base.filter (fun s => s ∉ proven) (fg_succ G b))
        by (by apply list_elem_of_filter).
      unfold next. destruct (base.filter _ _); [by apply not_elem_of_nil in Hs'|left]. }
    apply list_elem_of_filter in Hin as [? ?]. done. }
  set (run := fix run i := match i with O => a | S i => next (run i) end).
  assert (Hrun : forall i, reachable G (run i) /\ (run i ∉ proven) /\
            exists l, walk G a l (run i) /\ t ∉ l).
  { intros i. induction i as [|i (Hr & Hp & l & Hl & Htl)].
    - split_and!; [done|done|]. exists [a]. split; [constructor|].
      rewrite list_elem_of_singleton. by intros ->.
    - assert (Hgo : ~ may_stop G (run i)) by (intros Hs; by apply Htl, (Hfin l (run i))).
      destruct (Hnext (run i) Hr Hp Hgo) as [He Hn]. cbn [run].
      split_and!; [by eapply reachable_step|done|]. exists (l ++ [next (run i)]).
      split; [by eapply walk_step|]. rewrite elem_of_app, list_elem_of_singleton.
      intros [?| ->]; done. }
  destruct (Hinf run) as [i Hi].
  - split; [done|]. intros i. destruct (Hrun i) as (Hr & Hp & l & Hl & Htl).
    apply Hnext; [done|done|]. intros Hs. by apply Htl, (Hfin l (run i)).
  - apply (proj1 (proj2 (Hrun i))). by rewrite Hi.
Qed.
End runs.

(** * The counts *)

(** How many of [l] are not yet in [D]. *)
Definition outside (D l : list Z) : Z := zlength (base.filter (fun s => s ∉ D) l).

Lemma outside_cons D s l : outside D (s :: l) = outside D l + (if decide (s ∈ D) then 0 else 1).
Proof.
  unfold outside. destruct (decide (s ∈ D)) as [Hs|Hs].
  - rewrite filter_cons_False by (intros Hn; by apply Hn). lia.
  - rewrite filter_cons_True by done. by rewrite zlength_cons.
Qed.

Lemma outside_nil l : outside [] l = zlength l.
Proof.
  induction l as [|s l IH]; [done|]. rewrite outside_cons, zlength_cons, IH.
  rewrite decide_False by apply not_elem_of_nil. done.
Qed.

Lemma outside_other D c l : c ∉ l -> outside (c :: D) l = outside D l.
Proof.
  induction l as [|s l IH]; [done|]. rewrite not_elem_of_cons. intros [Hc Hl].
  rewrite !outside_cons, IH by done. f_equal.
  destruct (decide (s ∈ D)), (decide (s ∈ c :: D)) as [Hs|Hs]; try done.
  - exfalso. apply Hs. by right.
  - apply elem_of_cons in Hs as [->|]; done.
Qed.

Lemma outside_in D c l : NoDup l -> c ∈ l -> c ∉ D -> outside (c :: D) l = outside D l - 1.
Proof.
  intros Hl Hc HD. induction Hl as [|s l Hs Hl IH]; [by apply not_elem_of_nil in Hc|].
  rewrite !outside_cons. destruct (decide (s = c)) as [->|Hne].
  - rewrite outside_other by done. rewrite decide_True by left. rewrite decide_False by done. lia.
  - apply elem_of_cons in Hc as [->|Hc]; [done|]. rewrite IH by done.
    destruct (decide (s ∈ D)), (decide (s ∈ c :: D)) as [Hs'|Hs']; try lia.
    + exfalso. apply Hs'. by right.
    + apply elem_of_cons in Hs' as [->|]; done.
Qed.

Lemma outside_zero D l : outside D l <= 0 <-> forall s, s ∈ l -> s ∈ D.
Proof.
  induction l as [|s l IH].
  - split; [by intros _ s ?%not_elem_of_nil|done].
  - rewrite outside_cons. pose proof (zlength_nonneg (base.filter (fun s => s ∉ D) l)) as Hn.
    fold (outside D l) in Hn. destruct (decide (s ∈ D)) as [Hs|Hs].
    + rewrite Z.add_0_r, IH. split; [intros Hall x [->|?]%elem_of_cons; auto|].
      intros Hall x Hx. apply Hall. by right.
    + split; [lia|]. intros Hall. exfalso. apply Hs, Hall. left.
Qed.

Lemma outside_ext D D' l : (forall s, s ∈ D <-> s ∈ D') -> outside D l = outside D' l.
Proof. intros He. unfold outside. f_equal. apply list_filter_iff. intros s. by rewrite He. Qed.

(** * The worklist *)

Section worklist.
Context `{U : UnityCommon} {HU : UnityCommonSpec U} `{L : LibcMalloc}.
Context (G : flow_graph) (HG : flow_graph_ok G).
Context (cfg : HLSLControlFlowGraph) (HR : represents cfg G).
Context (idom : list Z) (HD : dominator_tree G idom).
Context (start target : Z).
Hypothesis Hstart : reachable G start.
Hypothesis Htarget : reachable G target.
Hypothesis Hne : start <> target.

(** The blocks the worklist counts down. *)
Definition counted (b : Z) : Prop := reachable G b /\ fg_exit G b = false /\ b <> target.

(** [D] are the blocks taken from the queue, [Q] all that were put into it; the
    predecessors [l] of [c] have been counted for [c] too. *)
Record reach_inv (D Q : list Z) (c : Z) (l : list Z) (st : reach_state) : Prop := {
  ri_length : zlength (rs_remaining st) = fg_count G /\ zlength (rs_queue st) = fg_count G;
  ri_queue : wrote (rs_queue st) Q /\ rs_tail st = zlength Q;
  ri_taken b : b ∈ D -> b ∈ Q;
  ri_nodup : NoDup Q;
  ri_start : start ∉ Q;
  ri_target : target ∈ Q /\ at_ (rs_remaining st) target = 0;
  ri_proven b : b ∈ Q -> must_reach G target b /\ reachable G b;
  ri_count b : counted b ->
    at_ (rs_remaining st) b = outside (if decide (b ∈ l) then c :: D else D) (fg_succ G b);
  ri_queued b : counted b -> fg_succ G b <> [] -> at_ (rs_remaining st) b <= 0 <-> b ∈ Q;
}.

Lemma reach_predecessor_spec D Q c l p rest block st :
  fg_pred G c = l ++ p :: rest -> znth (fg_pred G c) (zlength l) = Some p ->
  block_represents cfg G c block -> c ∈ Q -> c ∉ D ->
  reach_inv D Q c l st ->
  outcome (reach_predecessor cfg idom start block (zlength l) st)
    (fun st' => rs_head st' = rs_head st /\ exists Q', reach_inv D Q' c (l ++ [p]) st' /\
       exists new, Q' = Q ++ new)
    (fun b => b = true /\ must_reach G target start).
Proof.
  intros Heq Hp Hbl HcQ HcD HI. destruct HI as [[Hl1 Hl2] [Hw Ht] Htk Hnd Hs [Htq Ht0] Hpr Hct Hqd].
  assert (Hrc : reachable G c) by by apply Hpr.
  assert (Hpin : p ∈ fg_pred G c) by (rewrite Heq; apply elem_of_app; right; left).
  pose proof (pred_edge G HG p c (reachable_node G HG c Hrc) Hpin) as Hpe.
  pose proof (proj1 Hpe) as Hnp. assert (Hcs : c ∈ fg_succ G p) by apply Hpe.
  assert (Hpl : p ∉ l).
  { pose proof (fg_pred_nodup G HG c) as Hd. rewrite Heq in Hd.
    apply list.NoDup_app in Hd as (_ & Hdis & _). intros Hin. apply (Hdis p Hin). left. }
  unfold reach_predecessor. rewrite (br_pred _ _ _ _ Hbl _ _ Hp). mstep.
  rewrite (rp_count _ _ HR). unfold node in Hnp.
  rewrite (proj2 (Z.ltb_ge p 0)), (proj2 (Z.leb_gt _ p)) by lia. cbn [orb].
  pose proof (dt_length _ _ HD) as Hlen. rewrite (aget_at idom p) by lia. mstep.
  destruct (read_block cfg G HR (E:=bool) p Hnp) as (pb & -> & Hpb). mstep.
  rewrite (aget_at _ p) by lia. mstep. rewrite (br_exit _ _ _ _ Hpb).
  assert (Hnil : fg_succ G p <> []) by (intros Hn; rewrite Hn in Hcs; by apply not_elem_of_nil in Hcs).
  assert (Hmem : forall b, b <> p -> (if decide (b ∈ l ++ [p]) then c :: D else D) =
                                     (if decide (b ∈ l) then c :: D else D)).
  { intros b Hb. destruct (decide (b ∈ l)) as [Hin|Hin].
    - rewrite decide_True; [done|]. apply elem_of_app. by left.
    - rewrite decide_False; [done|]. rewrite elem_of_app, list_elem_of_singleton. tauto. }
  destruct ((at_ idom p <? 0) || fg_exit G p || (at_ (rs_remaining st) p <=? 0)) eqn:Hskip.
  { (* not counted: the counts of the others are as they were *)
    assert (Hno : ~ counted p).
    { intros (Hr & He & Hpt). apply (dt_done _ _ HD) in Hr as Hi. rewrite He in Hskip.
      rewrite !orb_true_iff, Z.ltb_lt, Z.leb_le in Hskip.
      destruct Hskip as [[?|?]|Hle]; [lia|done|].
      rewrite Hct in Hle by done. rewrite decide_False in Hle by done.
      apply HcD. by apply (proj1 (outside_zero D (fg_succ G p))). }
    cbn. split; [done|]. exists Q. split; [|by exists []; rewrite app_nil_r].
    split; try done. intros b Hb. rewrite Hmem; [by apply Hct|]. by intros ->. }
  bools. assert (Hrp : reachable G p) by by apply (dt_done _ _ HD).
  assert (Hpt : p <> target) by (intros ->; lia).
  assert (Hcp : counted p) by done.
  assert (HpQ : p ∉ Q) by (intros Hin; apply Hqd in Hin; [lia|done|done]).
  rewrite aput_ok by lia. mstep.
  set (r := at_ (rs_remaining st) p) in *.
  assert (Hr1 : r - 1 = outside (c :: D) (fg_succ G p)).
  { unfold r. rewrite Hct by done. rewrite decide_False by done.
    rewrite outside_in; [done|apply (fg_succ_nodup G HG)|done|done]. }
  assert (Hset : forall b, at_ (zset (rs_remaining st) p (r - 1)) b =
                           if decide (b = p) then r - 1 else at_ (rs_remaining st) b).
  { intros b. apply (at_zset (rs_remaining st) p (r - 1)). lia. }
  assert (Hct' : forall b, counted b -> at_ (zset (rs_remaining st) p (r - 1)) b =
            outside (if decide (b ∈ l ++ [p]) then c :: D else D) (fg_succ G b)).
  { intros b Hb. rewrite Hset. destruct (decide (b = p)) as [->|Hbp].
    - rewrite (decide_True (P := p ∈ l ++ [p])); [done|]. apply elem_of_app. right. left.
    - rewrite Hmem by done. by apply Hct. }
  destruct (Z.eqb_spec (r - 1) 0) as [Hz|Hz]; cbn [negb].
  2:{ cbn. split; [done|]. exists Q. split; [|by exists []; rewrite app_nil_r].
      split; cbn [rs_remaining rs_queue rs_head rs_tail]; try done.
      - by rewrite zlength_zset.
      - rewrite Hset, decide_False by done. done.
      - intros b Hb Hsb. rewrite Hset. destruct (decide (b = p)) as [->|]; [|by apply Hqd].
        split; [lia|done]. }
  assert (Hproven : must_reach G target p).
  { apply must_step.
    - intros [He|Hn]; [by rewrite He in *|done].
    - intros s [_ Hss]. assert (Hin : s ∈ c :: D) by (by apply (proj1 (outside_zero (c :: D) (fg_succ G p))); [lia|]).
      apply elem_of_cons in Hin as [->|Hin]; [by apply Hpr|]. by apply Hpr, Htk. }
  destruct (Z.eqb_spec p start) as [->|Hps]; [done|].
  assert (Hnd' : NoDup (Q ++ [p])).
  { apply list.NoDup_app. split_and!; [done| |apply NoDup_singleton].
    intros x Hx ->%list_elem_of_singleton. done. }
  assert (Hlt : zlength Q < fg_count G).
  { enough (zlength (Q ++ [p]) <= fg_count G) by (rewrite zlength_snoc in *; lia).
    apply zlength_NoDup_le; [lia|done|]. intros x [Hx|Hx]%elem_of_app.
    - by apply (reachable_node G HG), Hpr.
    - by apply list_elem_of_singleton in Hx as ->. }
  pose proof (zlength_nonneg Q). unfold cput. rewrite aput_ok by lia. mstep.
  cbn. split; [done|]. exists (Q ++ [p]). split; [|eauto].
  split; cbn [rs_remaining rs_queue rs_head rs_tail].
  - by rewrite !zlength_zset.
  - rewrite Ht. split; [|by rewrite zlength_snoc].
    destruct (wrote_push _ _ p Hw) as [|]; [done|lia].
  - intros b Hb. apply elem_of_app. left. by apply Htk.
  - done.
  - rewrite elem_of_app, list_elem_of_singleton. intros [?|?]; [done|by apply Hps].
  - split; [apply elem_of_app; by left|]. rewrite Hset, decide_False by done. done.
  - intros b [Hb|Hb]%elem_of_app; [by apply Hpr|]. by apply list_elem_of_singleton in Hb as ->.
  - done.
  - intros b Hb Hsb. rewrite Hset, elem_of_app, list_elem_of_singleton.
    destruct (decide (b = p)) as [->|Hbp]; [split; [by right|lia]|].
    rewrite (Hqd b Hb Hsb). tauto.
Qed.

(** Where the count of a block's predecessors starts and ends. *)
Lemma reach_inv_enter D Q c c' st : reach_inv D Q c [] st -> reach_inv D Q c' [] st.
Proof.
  by intros []; split.
Qed.

Lemma reach_inv_leave D Q c st :
  c ∈ Q -> (forall b, b ∈ D -> b <> c) -> reach_inv D Q c (fg_pred G c) st -> reachable G c ->
  reach_inv (D ++ [c]) Q c [] st.
Proof.
  intros HcQ HcD [] Hrc. split; try done.
  - intros b [Hb|Hb]%elem_of_app; [by apply ri_taken0|]. by apply list_elem_of_singleton in Hb as ->.
  - intros b Hb. rewrite ri_count0 by done. rewrite (decide_False (P := b ∈ [])) by apply not_elem_of_nil.
    rewrite (outside_ext (D ++ [c]) (c :: D)).
    2:{ intros s. rewrite elem_of_app, list_elem_of_singleton, elem_of_cons. tauto. }
    destruct (decide (b ∈ fg_pred G c)) as [|Hno]; [done|]. symmetry. apply outside_other.
    intros Hin. apply Hno. apply (edge_pred G HG); [by apply (reachable_node G HG)|].
    split; [|done]. by apply (reachable_node G HG), Hb.
Qed.

(** The outer loop: the queue up to [head] has been taken. *)
Definition worklist_inv (st : reach_state) : Prop :=
  exists Q, 0 <= rs_head st <= zlength Q /\
    reach_inv (take (Z.to_nat (rs_head st)) Q) Q target [] st.

Lemma reach_block_spec st :
  worklist_inv st -> rs_head st < rs_tail st ->
  outcome (reach_block cfg idom start st)
    (fun st' => worklist_inv st' /\ rs_head st' = rs_head st + 1)
    (fun b => b = true /\ must_reach G target start).
Proof.
  intros (Q & Hh & HI) Hlt. destruct (ri_queue _ _ _ _ _ HI) as [Hw Ht].
  destruct (znth_is_Some Q (rs_head st)) as [c Hc]; [lia|].
  unfold reach_block. rewrite (cget_ok _ _ _ (Hw _ _ Hc)). mstep.
  assert (HcQ : c ∈ Q) by (apply znth_elem_of; eauto).
  pose proof (proj2 (ri_proven _ _ _ _ _ HI c HcQ)) as Hrc.
  assert (Hlook : Q !! Z.to_nat (rs_head st) = Some c) by (by rewrite <- znth_nonneg by lia).
  set (D := take (Z.to_nat (rs_head st)) Q) in *.
  assert (HcD : c ∉ D).
  { intros Hin. apply elem_of_take in Hin as (i & Hi & Hil).
    assert (i = Z.to_nat (rs_head st)); [|lia].
    by eapply NoDup_lookup; [exact (ri_nodup _ _ _ _ _ HI)|..]. }
  destruct (read_block cfg G HR (E:=bool) c (reachable_node G HG c Hrc)) as (block & -> & Hbl). mstep.
  rewrite (br_pred_count _ _ _ _ Hbl).
  eapply outcome_mono; [apply outcome_for_array with (xs := fg_pred G c)
    (F := fun b => b = true /\ must_reach G target start)
    (I := fun l st' => rs_head st' = rs_head st + 1 /\ exists Q', reach_inv D Q' c l st' /\
            exists new, Q' = Q ++ new)| |done].
  - split; [done|]. exists Q. split; [|by exists []; rewrite app_nil_r].
    apply (reach_inv_enter _ _ _ c) in HI. by destruct HI; split.
  - intros l p rest st' Heq Hp (Hh' & Q' & HI' & new & ->).
    eapply outcome_mono; [apply (reach_predecessor_spec D (Q ++ new) c l p rest block st');
      [done|done|done|apply elem_of_app; by left|done|done]| |done].
    intros st'' (Hh'' & Q'' & HI'' & new' & ->). split; [congruence|].
    exists ((Q ++ new) ++ new'). split; [done|]. exists (new ++ new'). by rewrite app_assoc.
  - intros st' (Hh' & Q' & HI' & new & ->). split; [|done]. exists (Q ++ new).
    pose proof (lookup_lt_Some _ _ _ Hlook) as Hll. rewrite Hh'. split.
    { rewrite zlength_app. pose proof (zlength_nonneg new). lia. }
    replace (Z.to_nat (rs_head st + 1)) with (S (Z.to_nat (rs_head st))) by lia.
    rewrite take_app_le by lia. rewrite (take_S_r _ _ _ Hlook). fold D.
    apply (reach_inv_enter _ _ c). apply reach_inv_leave; [apply elem_of_app; by left| |done|done].
    intros b Hb ->. done.
Qed.

Lemma reach_start remaining queue :
  zlength remaining = fg_count G -> (forall b, node G b -> at_ remaining b = zlength (fg_succ G b)) ->
  queue = zset (uninitialised (fg_count G)) 0 (Some target) ->
  worklist_inv {| rs_remaining := zset remaining target 0; rs_queue := queue; rs_head := 0;
                  rs_tail := 1 |}.
Proof.
  intros Hl Hr ->. pose proof (fg_count_ok G HG) as Hn.
  pose proof (reachable_node G HG target Htarget) as Hnt. unfold node in Hnt.
  assert (Hset : forall b, at_ (zset remaining target 0) b =
                           if decide (b = target) then 0 else at_ remaining b).
  { intros b. apply (at_zset remaining target 0). lia. }
  exists [target]. split; [done|]. cbn [rs_head]. rewrite take_0.
  split; cbn [rs_remaining rs_queue rs_tail].
  - rewrite !zlength_zset, zlength_uninitialised by lia. done.
  - split; [|done]. intros i x Hx. rewrite <- (app_nil_l [target]) in Hx.
    apply znth_snoc in Hx as [Hx|[-> ->]].
    + apply znth_Some in Hx. unfold zlength in Hx. cbn in Hx. lia.
    + apply znth_zset_eq. rewrite zlength_uninitialised; unfold zlength; cbn; lia.
  - by intros b ?%not_elem_of_nil.
  - apply NoDup_singleton.
  - by rewrite list_elem_of_singleton.
  - split; [by left|]. by rewrite Hset, decide_True.
  - intros b ->%list_elem_of_singleton. split; [constructor|done].
  - intros b (Hrb & _ & Hbt). rewrite Hset, decide_False by done.
    rewrite decide_False by apply not_elem_of_nil. rewrite outside_nil.
    apply Hr. by apply (reachable_node G HG).
  - intros b (Hrb & _ & Hbt) Hs. rewrite Hset, decide_False, list_elem_of_singleton by done.
    rewrite Hr by (by apply (reachable_node G HG)). split; [|done].
    destruct (fg_succ G b); [done|]. rewrite zlength_cons. pose proof (zlength_nonneg l). lia.
Qed.

(** When the queue is empty the start has a run that avoids the target. *)
Lemma worklist_done st :
  worklist_inv st -> rs_tail st <= rs_head st -> ~ always_reaches G target start.
Proof.
  intros (Q & Hh & HI) Hle. destruct HI as [_ [_ Ht] _ _ Hs [Htq _] _ Hct Hqd].
  rewrite take_ge in Hct by (unfold zlength in *; lia).
  apply (escape G target Q start Htq Hstart Hs). intros b Hb HbQ Hgo.
  assert (Hcb : counted b).
  { split_and!; [done| |by intros ->]. destruct (fg_exit G b) eqn:He; [|done].
    exfalso. apply Hgo. by left. }
  assert (Hnil : fg_succ G b <> []) by (intros Hn; apply Hgo; by right).
  assert (Hpos : ~ at_ (rs_remaining st) b <= 0) by (by rewrite (Hqd b Hcb Hnil)).
  rewrite Hct in Hpos by done. rewrite decide_False in Hpos by apply not_elem_of_nil.
  rewrite outside_zero in Hpos.
  destruct (decide (Exists (fun s => s ∉ Q) (fg_succ G b))) as [He|He].
  - apply list.Exists_exists in He as (s & Hsb & Hsq). exists s. split; [|done].
    split; [by apply (reachable_node G HG)|done].
  - exfalso. apply Hpos. intros s Hsb. apply dec_stable. intros Hsq. apply He.
    apply list.Exists_exists. eauto.
Qed.

Lemma prove_reach_spec :
  outcome (prove_reach cfg idom start target)
    (fun _ => ~ always_reaches G target start) (fun b => b = true /\ must_reach G target start).
Proof.
  pose proof (fg_count_ok G HG) as Hn. unfold prove_reach. rewrite (rp_count _ _ HR).
  pose proof (reachable_node G HG target Htarget) as Hnt. unfold node in Hnt.
  apply outcome_bind. eapply outcome_mono; [apply outcome_for with (F := fun b => b = true /\
      must_reach G target start) (I := fun i remaining => zlength remaining = fg_count G /\
      forall b, 0 <= b < i -> at_ remaining b = zlength (fg_succ G b))| |done].
  - rewrite zlength_filled by lia. split; [done|lia].
  - intros b remaining Hb [Hl Hr].
    destruct (read_block cfg G HR (E:=bool) b) as (block & -> & Hbl); [unfold node; lia|]. mstep.
    rewrite aput_ok by lia. cbn. rewrite zlength_zset. split; [done|]. intros x Hx.
    rewrite (at_zset remaining b _ ltac:(lia) x). unfold set_parent.
    destruct (decide (x = b)) as [->|]; [apply (br_succ_count _ _ _ _ Hbl)|apply Hr; lia].
  - intros remaining [Hl Hr]. unfold cput.
    rewrite (aput_ok (uninitialised _)) by (rewrite zlength_uninitialised; lia).
    mstep. rewrite aput_ok by lia. mstep.
    assert (HI : worklist_inv {| rs_remaining := zset remaining target 0;
       rs_queue := zset (uninitialised (fg_count G)) 0 (Some target); rs_head := 0; rs_tail := 1 |}).
    { apply reach_start; [done| |done]. intros b Hb. apply Hr. unfold node in Hb. lia. }
    eapply outcome_mono; [apply outcome_while with (I := worklist_inv)
      (μ := fun st => Z.to_nat (fg_count G - rs_head st))
      (F := fun b => b = true /\ must_reach G target start)| |].
    + done.
    + cbn [rs_head]. lia.
    + intros st HI' Hc. apply Z.ltb_lt in Hc.
      assert (Hlt : rs_head st < fg_count G).
      { destruct HI' as (Q & Hh & HQ). rewrite (proj2 (ri_queue _ _ _ _ _ HQ)) in Hc.
        enough (zlength Q <= fg_count G) by lia.
        apply zlength_NoDup_le; [lia|apply (ri_nodup _ _ _ _ _ HQ)|].
        intros x Hx. by apply (reachable_node G HG), (ri_proven _ _ _ _ _ HQ). }
      assert (0 <= rs_head st) by (destruct HI' as (Q & Hh & _); lia).
      split; [lia|]. eapply outcome_mono; [by apply reach_block_spec| |done].
      intros st' [HI'' ->]. split; [done|lia].
    + intros st [HI' Hc]. apply Z.ltb_ge in Hc. by eapply worklist_done.
    + done.
Qed.
End worklist.

(** What [hlsl_cfg_must_reach] answers. *)
Section answer.
Context `{U : UnityCommon} {HU : UnityCommonSpec U} `{L : LibcMalloc}.
Context (G : flow_graph) (HG : flow_graph_ok G).
Context (cfg : HLSLControlFlowGraph) (HR : represents cfg G).
Context (idom : list Z) (HD : dominator_tree G idom) (Hidom : cfg_idom cfg = Some idom).

Lemma hlsl_cfg_must_reach_spec {E} start target :
  exists v, hlsl_cfg_must_reach (E:=E) cfg start target = Ret v /\
    (v = true -> reachable G start /\ reachable G target /\ must_reach G target start) /\
    (v = false -> malloc_failed \/
       ~ (reachable G start /\ reachable G target /\ always_reaches G target start)).
Proof.
  pose proof (fg_count_ok G HG) as Hn. pose proof (dt_length _ _ HD) as Hl.
  unfold hlsl_cfg_must_reach. pose proof (rp_blocks _ _ HR) as Hb.
  destruct (cfg_blocks cfg) as [blocks|]; [|done]. rewrite Hidom, (rp_count _ _ HR).
  assert (Hout : forall x, ~ node G x -> ~ reachable G x)
    by (intros x Hx Hr; by apply Hx, (reachable_node G HG)).
  unfold node in Hout.
  assert (Hno : (~ reachable G start \/ ~ reachable G target) -> exists v,
     Ret (E:=E) false = Ret v /\
     (v = true -> reachable G start /\ reachable G target /\ must_reach G target start) /\
     (v = false -> malloc_failed \/
       ~ (reachable G start /\ reachable G target /\ always_reaches G target start))).
  { intros Hr. exists false. split_and!; [done|done|]. intros _. right. tauto. }
  destruct ((start <? 0) || (fg_count G <=? start) || (target <? 0) || (fg_count G <=? target)) eqn:Hg.
  { apply Hno. rewrite !orb_true_iff, !Z.ltb_lt, !Z.leb_le in Hg.
    destruct Hg as [[[Hg|Hg]|Hg]|Hg]; [left|left|right|right]; apply Hout; lia. }
  bools. rewrite !aget_at by lia. mstep. unfold INT_MAX in *.
  rewrite size_multiply_overflows_spec by (unfold in_u64; lia).
  rewrite (proj2 (Z.leb_gt _ (_ * 4))) by lia. rewrite orb_false_r.
  destruct (Z.ltb_spec (at_ idom start) 0) as [Hs|Hs].
  { apply Hno. left. intros Hr%(dt_done _ _ HD). lia. }
  destruct (Z.ltb_spec (at_ idom target) 0) as [Ht|Ht].
  { apply Hno. right. intros Hr%(dt_done _ _ HD). lia. }
  apply (dt_done _ _ HD) in Hs, Ht. cbn [orb].
  destruct (Z.eqb_spec start target) as [->|Hne].
  { exists true. split_and!; [done| |done]. intros _. split_and!; [done..|].
    constructor. }
  destruct (libc_malloc (fg_count G * 4)) eqn:Hm; cbn [negb].
  2:{ exists false. split_and!; [done|done|]. intros _. left. by eexists. }
  pose proof (prove_reach_spec G HG cfg HR idom HD start target Hs Ht Hne) as Hp.
  destruct (prove_reach cfg idom start target) as [st|b|]; cbn in Hp; [|destruct Hp as [-> Hp]|done].
  - exists false. split_and!; [done|done|]. intros _. right. tauto.
  - exists true. split_and!; [done|done|done].
Qed.
End answer.
