(* ===== verification/FlowStructure.v ===== *)
(** Structured flow control as a grammar of the opcode sequence, and the
    matcher of hlsl_cfg.c against it: [match_flow_structure] accepts exactly
    the well-structured programs, and the links it leaves are those the nesting
    prescribes. *)

From S2P Require Import Prelude CArray Usil Cfg.

#[local] Set Warnings "-register-all".

(** The instructions a program has, and the opcode of each. *)
Definition program_ok (program : USILProgram) : Prop :=
  exists l, up_instructions program = Some l /\ zlength l = up_instruction_count program.

Definition op_of (program : USILProgram) (i : Z) : USILOpcode :=
  default USIL_OP_NOP (l ← up_instructions program; ui_opcode <$> znth l i).

Lemma opcode_at_ok {E} program i :
  program_ok program -> 0 <= i < up_instruction_count program ->
  opcode_at (E:=E) program i = Ret (op_of program i).
Proof.
  intros (l & Hl & Hn) Hi. unfold opcode_at, instruction_at, op_of. rewrite Hl. cbn [ptr]. mstep.
  destruct (znth_is_Some l i) as [x Hx]; [lia|]. rewrite (aget_ok _ _ _ Hx). mstep. cbn.
  by rewrite Hx.
Qed.

Lemma op_is_true o o' : op_is o o' = true <-> o = o'.
Proof. apply bool_decide_eq_true. Qed.
Lemma op_is_false o o' : op_is o o' = false <-> o <> o'.
Proof. apply bool_decide_eq_false. Qed.

(** A closer and the opener it closes. *)
Definition closes (opener closer : USILOpcode) : Prop :=
  is_closer closer = true /\ opener = required_opener closer.

(** * The nesting *)

Section nesting.
Context (op : Z -> USILOpcode) (first : Z).

(** From [a] up to [b] every scope that is opened is closed, and none else. *)
Inductive balanced : Z -> Z -> Prop :=
| balanced_nil a : balanced a a
| balanced_plain a b :
    is_opener (op a) = false -> is_closer (op a) = false -> balanced (a + 1) b -> balanced a b
| balanced_scope a e b :
    is_opener (op a) = true -> balanced (a + 1) e -> closes (op a) (op e) -> balanced (e + 1) b ->
    balanced a b.

(** [s] is the innermost scope around [k]. *)
Definition inside (s k : Z) : Prop :=
  first <= s /\ is_opener (op s) = true /\ balanced (s + 1) k.

(** All the scopes around [k], the innermost first. *)
Inductive scopes : Z -> list Z -> Prop :=
| scopes_nil k : balanced first k -> scopes k []
| scopes_cons s k stack : inside s k -> scopes s stack -> scopes k (s :: stack).

(** The ELSE, the labels and the end of a scope; an ELSE ends with its IF. *)
Definition else_of (s k : Z) : Prop := inside s k /\ op s = USIL_OP_IF /\ op k = USIL_OP_ELSE.
Definition label_of (s k : Z) : Prop :=
  inside s k /\ op s = USIL_OP_SWITCH /\ is_label (op k) = true.
Definition end_of (s k : Z) : Prop := inside s k /\ closes (op s) (op k).
Definition ends (i k : Z) : Prop := end_of i k \/ exists s, else_of s i /\ end_of s k.

(** The scope a jump leaves or repeats. *)
Definition breakable (loop_only : bool) (o : USILOpcode) : bool :=
  op_is o USIL_OP_LOOP || (negb loop_only && op_is o USIL_OP_SWITCH).

Inductive jump_scope (loop_only : bool) : Z -> Z -> Prop :=
| jump_here k s : inside s k -> breakable loop_only (op s) = true -> jump_scope loop_only k s
| jump_out k s t :
    inside s k -> breakable loop_only (op s) = false -> jump_scope loop_only s t ->
    jump_scope loop_only k t.

(** What one instruction requires of its surroundings. *)
Record instruction_ok (k : Z) : Prop := {
  io_depth stack : is_opener (op k) = true -> scopes k stack -> (length stack < MAX_FLOW_DEPTH)%nat;
  io_else : op k = USIL_OP_ELSE -> exists s, else_of s k /\ forall k', else_of s k' -> k' < k -> False;
  io_close : is_closer (op k) = true -> exists s, end_of s k;
  io_label : is_label (op k) = true -> exists s, label_of s k /\
    (op k = USIL_OP_DEFAULT -> forall k', label_of s k' -> op k' = USIL_OP_DEFAULT -> k' < k -> False);
  io_jump : is_jump (op k) = true -> exists s, jump_scope (is_continue (op k)) k s;
}.

(** A well-structured range of instructions. *)
Definition structured (end_ : Z) : Prop :=
  balanced first end_ /\ forall k, first <= k < end_ -> instruction_ok k.

(** * Lemmas on nesting *)

Lemma balanced_le a b : balanced a b -> a <= b.
Proof. induction 1; lia. Qed.

Lemma balanced_app a b c : balanced a b -> balanced b c -> balanced a c.
Proof.
  induction 1 as [|a b Ho Hc _ IH|a e b Ho He _ Hcl _ IH]; intros Hbc; [done|..].
  - apply balanced_plain; auto.
  - eapply balanced_scope; eauto.
Qed.

Lemma balanced_snoc_plain a k :
  balanced a k -> is_opener (op k) = false -> is_closer (op k) = false -> balanced a (k + 1).
Proof.
  intros Ha Ho Hc. eapply balanced_app; [done|]. apply balanced_plain; [done..|constructor].
Qed.

Lemma balanced_snoc_scope a s k :
  balanced a s -> is_opener (op s) = true -> balanced (s + 1) k -> closes (op s) (op k) ->
  balanced a (k + 1).
Proof.
  intros Ha Ho Hb Hc. eapply balanced_app; [done|]. eapply balanced_scope; [done..|constructor].
Qed.

(** How many more scopes are opened than closed in [n] instructions from [a]. *)
Definition weight (i : Z) : Z :=
  if is_opener (op i) then 1 else if is_closer (op i) then -1 else 0.
Fixpoint height (a : Z) (n : nat) : Z :=
  match n with O => 0 | S n => weight a + height (a + 1) n end.
Definition height_to (a b : Z) : Z := height a (Z.to_nat (b - a)).

Lemma height_nil a : height_to a a = 0.
Proof. unfold height_to. by rewrite Z.sub_diag. Qed.

Lemma height_cons a b : a < b -> height_to a b = weight a + height_to (a + 1) b.
Proof.
  intros. unfold height_to. replace (Z.to_nat (b - a)) with (S (Z.to_nat (b - (a + 1)))) by lia. done.
Qed.

Lemma height_app a b c : a <= b <= c -> height_to a c = height_to a b + height_to b c.
Proof.
  intros Hab. remember (Z.to_nat (b - a)) as n eqn:Hn. revert a Hab Hn.
  induction n as [|n IH]; intros a Hab Hn.
  - assert (a = b) as -> by lia. by rewrite height_nil.
  - rewrite (height_cons a c), (height_cons a b) by lia. rewrite (IH (a + 1)) by lia. lia.
Qed.

Lemma closer_not_opener o : is_closer o = true -> is_opener o = false.
Proof. by destruct o. Qed.

Lemma closes_weight s k : is_opener (op s) = true -> closes (op s) (op k) -> weight s + weight k = 0.
Proof.
  intros Ho [Hc _]. unfold weight. rewrite Ho, Hc, (closer_not_opener _ Hc). done.
Qed.

Lemma balanced_height a b :
  balanced a b -> height_to a b = 0 /\ forall m, a <= m <= b -> 0 <= height_to a m.
Proof.
  induction 1 as [a|a b Ho Hc Hb [IH IHm]|a e b Ho He [IHe IHem] Hcl Hb [IH IHm]].
  - split; [apply height_nil|]. intros m Hm. assert (m = a) as -> by lia. by rewrite height_nil.
  - pose proof (balanced_le _ _ Hb).
    assert (Hw : weight a = 0) by (unfold weight; by rewrite Ho, Hc).
    split; [rewrite height_cons by lia; lia|]. intros m Hm.
    destruct (decide (m = a)) as [->|]; [by rewrite height_nil|].
    rewrite height_cons by lia. specialize (IHm m). lia.
  - pose proof (balanced_le _ _ Hb). pose proof (balanced_le _ _ He).
    pose proof (closes_weight a e Ho Hcl) as Hw.
    assert (Hwa : weight a = 1) by (unfold weight; by rewrite Ho).
    assert (Hend : height_to a (e + 1) = 0).
    { rewrite height_cons, (height_app (a + 1) e), (height_cons e), height_nil by lia. lia. }
    split; [rewrite (height_app a (e + 1)) by lia; lia|]. intros m Hm.
    destruct (decide (m = a)) as [->|]; [by rewrite height_nil|].
    destruct (decide (m <= e)); [rewrite height_cons by lia; specialize (IHem m); lia|].
    rewrite (height_app a (e + 1)) by lia. specialize (IHm m). lia.
Qed.

(** Nothing is open where everything is balanced. *)
Lemma inside_not_balanced a s k :
  balanced a k -> a <= s -> is_opener (op s) = true -> balanced (s + 1) k -> False.
Proof.
  intros Hf Hs Ho Hb. pose proof (balanced_le _ _ Hb).
  destruct (balanced_height _ _ Hf) as [H0 Hm]. destruct (balanced_height _ _ Hb) as [H1 _].
  rewrite (height_app a s), (height_cons s k) in H0 by lia. specialize (Hm s ltac:(lia)).
  assert (Hw : weight s = 1) by (unfold weight; by rewrite Ho). lia.
Qed.

Lemma inside_lt s k : inside s k -> s < k.
Proof. intros (_ & _ & Hb). apply balanced_le in Hb. lia. Qed.

Lemma inside_unique s s' k : inside s k -> inside s' k -> s = s'.
Proof.
  assert (Hlt : forall s s', inside s k -> inside s' k -> ~ s < s').
  { intros a b (_ & _ & Ha) (_ & Ho & Hb) Hab.
    eapply (inside_not_balanced (a + 1) b k); [done|lia|done|done]. }
  intros Hs Hs'. pose proof (Hlt s s' Hs Hs'). pose proof (Hlt s' s Hs' Hs). lia.
Qed.

Lemma scopes_inside k stack s : scopes k stack -> inside s k -> exists rest, stack = s :: rest.
Proof.
  intros Hsc Hs. destruct Hsc as [k Hb|s' k stack Hs' _].
  - exfalso. destruct Hs as (Hf & Ho & Hbs). exact (inside_not_balanced _ _ _ Hb Hf Ho Hbs).
  - rewrite (inside_unique s s' k) by done. eauto.
Qed.

Lemma scopes_unique k stack stack' : scopes k stack -> scopes k stack' -> stack = stack'.
Proof.
  intros Hsc. revert stack'. induction Hsc as [k Hb|s k stack Hs _ IH]; intros stack' Hsc'.
  - destruct Hsc' as [|s k stack' (Hf & Ho & Hbs) _]; [done|].
    exfalso. exact (inside_not_balanced _ _ _ Hb Hf Ho Hbs).
  - destruct (scopes_inside _ _ _ Hsc' Hs) as [rest ->]. inversion Hsc'; subst. f_equal. by apply IH.
Qed.

Lemma scopes_lt k stack s : scopes k stack -> s ∈ stack -> s < k.
Proof.
  induction 1 as [|t k stack Ht _ IH]; [by intros ?%not_elem_of_nil|]. pose proof (inside_lt _ _ Ht).
  intros [->|Hin]%elem_of_cons; [done|]. specialize (IH Hin). lia.
Qed.

(** How an instruction moves the open scopes. *)
Lemma scopes_plain k stack :
  scopes k stack -> is_opener (op k) = false -> is_closer (op k) = false -> scopes (k + 1) stack.
Proof.
  intros Hsc Ho Hc. destruct Hsc as [k Hb|s k stack (Hf & Hs & Hb) Hsc]; constructor; try done.
  - by apply balanced_snoc_plain.
  - split_and!; [done|done|]. by apply balanced_snoc_plain.
Qed.

Lemma scopes_open k stack :
  scopes k stack -> first <= k -> is_opener (op k) = true -> scopes (k + 1) (k :: stack).
Proof. intros Hsc Hf Ho. constructor; [|done]. split_and!; [done|done|constructor]. Qed.

Lemma scopes_close k s stack : scopes k (s :: stack) -> closes (op s) (op k) -> scopes (k + 1) stack.
Proof.
  intros Hsc Hcl. inversion Hsc as [|s' k' stack' (Hf & Hs & Hb) Hss]; subst.
  destruct Hss as [s Hb'|t s stack (Hft & Ht & Hbt) Hss]; constructor; try done.
  - by eapply balanced_snoc_scope.
  - split_and!; [done|done|]. by eapply balanced_snoc_scope.
Qed.

(** Nothing is inside a scope after its end. *)
Lemma inside_before_end s i k : inside s i -> end_of s k -> i <= k.
Proof.
  intros Hi [Hk [Hc _]]. destruct (decide (i <= k)) as [|Hlt]; [done|exfalso].
  pose proof (inside_lt s k Hk). destruct Hi as (_ & _ & Hbi). destruct Hk as (_ & _ & Hbk).
  destruct (balanced_height _ _ Hbi) as [_ Hm]. destruct (balanced_height _ _ Hbk) as [H0 _].
  specialize (Hm (k + 1) ltac:(lia)). rewrite (height_app _ k), (height_cons k), height_nil in Hm by lia.
  assert (Hw : weight k = -1) by (unfold weight; by rewrite (closer_not_opener _ Hc), Hc). lia.
Qed.

(** Each closer of a balanced range has its scope. *)
Lemma balanced_closer a b k :
  first <= a -> balanced a b -> a <= k < b -> is_closer (op k) = true -> exists s, end_of s k.
Proof.
  intros Hf Hb. revert Hf. induction Hb as [a|a b Ho Hc Hb IH|a e b Ho He IHe Hcl Hb IH]; intros Hf Hk Hck.
  - lia.
  - apply IH; [lia| |done]. destruct (decide (k = a)) as [->|]; [congruence|lia].
  - destruct (decide (k = a)) as [->|].
    { apply closer_not_opener in Hck. congruence. }
    destruct (decide (k < e)) as [|]; [apply IHe; [lia|lia|done]|].
    destruct (decide (k = e)) as [->|]; [|apply IH; [apply balanced_le in He; lia|lia|done]].
    exists a. done.
Qed.
End nesting.

(** * The links *)

Section links.
Context (op : Z -> USILOpcode) (first : Z).

Abbreviation inside_ := (inside op first).
Abbreviation else_of_ := (else_of op first).
Abbreviation label_of_ := (label_of op first).
Abbreviation ends_ := (ends op first).

(** [v] is the one index before [k] with property [R], or -1. *)
Definition known (k : Z) (R : Z -> Prop) (v : Z) : Prop :=
  (v = -1 /\ forall x, first <= x < k -> ~ R x) \/ (first <= v < k /\ R v).

(** The labels of a switch, in order. *)
Definition first_label (s k : Z) : Prop := label_of_ s k /\ forall y, y < k -> ~ label_of_ s y.
Definition next_label (i k : Z) : Prop :=
  exists s, label_of_ s i /\ label_of_ s k /\ i < k /\ forall y, i < y < k -> ~ label_of_ s y.
Definition has_default (s k : Z) : Prop := exists x, x < k /\ label_of_ s x /\ op x = USIL_OP_DEFAULT.

(** The links of instruction [i] once the instructions before [k] are matched. *)
Record links (k i : Z) (f : HLSLInstructionFlow) : Prop := {
  ln_end : known k (ends_ i) (fl_end f);
  ln_alternate : known k (else_of_ i) (fl_alternate f);
  ln_first : known k (first_label i) (fl_first_case f);
  ln_next : known k (next_label i) (fl_next_case f);
  ln_default : fl_has_default f = true <-> has_default i k;
  ln_close : i < k -> is_closer (op i) = true -> inside_ (fl_jump_scope f) i;
  ln_jump : i < k -> is_jump (op i) = true ->
    jump_scope op first (is_continue (op i)) i (fl_jump_scope f);
  ln_none : k <= i -> fl_jump_scope f = -1;
}.

(** The last label of an open scope. *)
Definition last_label (k s c : Z) : Prop :=
  (c = -1 /\ forall x, x < k -> ~ label_of_ s x) \/
  (first <= c < k /\ label_of_ s c /\ forall x, c < x < k -> ~ label_of_ s x).

Lemma known_skip k R v : known k R v -> ~ R k -> known (k + 1) R v.
Proof.
  intros [[-> Hn]|[Hv HR]] Hk; [left|right; split; [lia|done]]. split; [done|].
  intros x Hx. destruct (decide (x = k)) as [->|]; [done|]. apply Hn. lia.
Qed.

Lemma known_hit k (R : Z -> Prop) : first <= k -> R k -> known (k + 1) R k.
Proof. intros Hk HR. right. split; [lia|done]. Qed.

Lemma known_nonneg k (R : Z -> Prop) v : 0 <= first -> known k R v -> 0 <= v -> first <= v < k /\ R v.
Proof. intros Hf [[-> _]|?] Hv; [lia|done]. Qed.

Lemma known_none k (R : Z -> Prop) v :
  0 <= first -> known k R v -> v < 0 -> forall x, first <= x < k -> ~ R x.
Proof. intros Hf [[_ Hn]|[Hv _]] Hlt; [done|lia]. Qed.

Lemma inside_range s k : inside_ s k -> first <= s < k.
Proof. intros Hs. pose proof (inside_lt op first s k Hs). destruct Hs as [? _]. lia. Qed.

Lemma label_range s k : label_of_ s k -> first <= s < k.
Proof. intros [Hs _]. by apply inside_range. Qed.

(** Which links an instruction makes. *)
Lemma ends_closer i k : ends_ i k -> is_closer (op k) = true.
Proof. intros [[_ [? _]]|(s & _ & _ & [? _])]; done. Qed.
Lemma else_of_else i k : else_of_ i k -> op k = USIL_OP_ELSE.
Proof. by intros (_ & _ & ?). Qed.
Lemma label_of_label i k : label_of_ i k -> is_label (op k) = true.
Proof. by intros (_ & _ & ?). Qed.

(** An instruction that is neither a label nor an ELSE nor a closer. *)
Lemma links_quiet k i f f' :
  op k <> USIL_OP_ELSE -> is_closer (op k) = false -> is_label (op k) = false ->
  links k i f ->
  fl_end f' = fl_end f -> fl_alternate f' = fl_alternate f -> fl_first_case f' = fl_first_case f ->
  fl_next_case f' = fl_next_case f -> fl_has_default f' = fl_has_default f ->
  (i <> k -> fl_jump_scope f' = fl_jump_scope f) ->
  (i = k -> is_jump (op k) = true -> jump_scope op first (is_continue (op k)) k (fl_jump_scope f')) ->
  links (k + 1) i f'.
Proof.
  intros He Hc Hl [H1 H2 H3 H4 H5 H6 H7 H8] E1 E2 E3 E4 E5 E6 Hj.
  split; rewrite ?E1, ?E2, ?E3, ?E4, ?E5.
  - apply known_skip; [done|]. intros ?%ends_closer. congruence.
  - apply known_skip; [done|]. by intros ?%else_of_else.
  - apply known_skip; [done|]. intros [?%label_of_label _]. congruence.
  - apply known_skip; [done|]. intros (s & _ & ?%label_of_label & _). congruence.
  - rewrite H5. split; intros (x & Hx & Hlx & Hd); exists x; (split; [|done]); [lia|].
    destruct (decide (x = k)) as [->|]; [|lia]. apply label_of_label in Hlx. congruence.
  - intros Hi Hci. destruct (decide (i = k)) as [->|]; [congruence|].
    rewrite E6 by done. apply H6; [lia|done].
  - intros Hi Hji. destruct (decide (i = k)) as [->|]; [by apply Hj|].
    rewrite E6 by done. apply H7; [lia|done].
  - intros Hi. rewrite E6 by lia. apply H8. lia.
Qed.

(** An ELSE of [s]. *)
Lemma links_else k s i f f' :
  first <= k -> else_of_ s k -> links k i f ->
  fl_end f' = fl_end f -> fl_first_case f' = fl_first_case f -> fl_next_case f' = fl_next_case f ->
  fl_has_default f' = fl_has_default f -> fl_jump_scope f' = fl_jump_scope f ->
  fl_alternate f' = (if decide (i = s) then k else fl_alternate f) ->
  links (k + 1) i f'.
Proof.
  intros Hk Hs [H1 H2 H3 H4 H5 H6 H7 H8] E1 E3 E4 E5 E6 E2.
  pose proof (else_of_else _ _ Hs) as Hop.
  assert (Hc : is_closer (op k) = false) by (by rewrite Hop).
  assert (Hl : is_label (op k) = false) by (by rewrite Hop).
  assert (Hj : is_jump (op k) = false) by (by rewrite Hop).
  split; rewrite ?E1, ?E2, ?E3, ?E4, ?E5, ?E6.
  - apply known_skip; [done|]. intros ?%ends_closer. congruence.
  - destruct (decide (i = s)) as [->|Hne]; [by apply known_hit|]. apply known_skip; [done|].
    intros [Hi _]. apply Hne. eapply (inside_unique op first); [exact Hi|apply Hs].
  - apply known_skip; [done|]. intros [?%label_of_label _]. congruence.
  - apply known_skip; [done|]. intros (s' & _ & ?%label_of_label & _). congruence.
  - rewrite H5. split; intros (x & Hx & Hlx & Hd); exists x; (split; [|done]); [lia|].
    destruct (decide (x = k)) as [->|]; [|lia]. apply label_of_label in Hlx. congruence.
  - intros Hi Hci. destruct (decide (i = k)) as [->|]; [congruence|]. apply H6; [lia|done].
  - intros Hi Hji. destruct (decide (i = k)) as [->|]; [congruence|]. apply H7; [lia|done].
  - intros Hi. apply H8. lia.
Qed.

(** The end of [s], whose ELSE is [l] or -1. *)
Lemma links_close k s l i f f' :
  first <= k -> end_of op first s k -> known k (else_of_ s) l ->
  (forall i, else_of_ s i -> first <= i < k -> i = l) -> links k i f ->
  fl_alternate f' = fl_alternate f -> fl_first_case f' = fl_first_case f ->
  fl_next_case f' = fl_next_case f -> fl_has_default f' = fl_has_default f ->
  fl_jump_scope f' = (if decide (i = k) then s else fl_jump_scope f) ->
  fl_end f' = (if decide (i = s \/ (0 <= l /\ i = l)) then k else fl_end f) -> 0 <= first ->
  links (k + 1) i f'.
Proof.
  intros Hk Hs Hkn Hone [H1 H2 H3 H4 H5 H6 H7 H8] E2 E3 E4 E5 E6 E1 Hf.
  assert (Hc : is_closer (op k) = true) by apply Hs.
  assert (He : op k <> USIL_OP_ELSE) by (by intros Hop; rewrite Hop in Hc).
  assert (Hl : is_label (op k) = false) by (by destruct (op k)).
  assert (Hj : is_jump (op k) = false) by (by destruct (op k)).
  split; rewrite ?E1, ?E2, ?E3, ?E4, ?E5, ?E6.
  - destruct (decide (i = s \/ _)) as [Hi|Hi].
    + apply known_hit; [done|]. destruct Hi as [->|[Hl0 ->]]; [by left|]. right. exists s.
      split; [|done]. by eapply known_nonneg.
    + apply known_skip; [done|]. intros [[Hin _]|(s' & Hel & Hin & _)].
      * apply Hi. left. eapply (inside_unique op first); [exact Hin|apply Hs].
      * assert (s' = s) as -> by (eapply (inside_unique op first); [exact Hin|apply Hs]).
        pose proof (inside_range _ _ (proj1 Hel)) as Hr.
        assert (Hik : i < k).
        { pose proof (inside_before_end op first s i k (proj1 Hel) Hs).
          destruct (decide (i = k)) as [->|]; [|lia]. by apply else_of_else in Hel. }
        apply Hi. right. assert (i = l) as -> by (apply Hone; [done|lia]). lia.
  - apply known_skip; [done|]. by intros ?%else_of_else.
  - apply known_skip; [done|]. intros [?%label_of_label _]. congruence.
  - apply known_skip; [done|]. intros (s' & _ & ?%label_of_label & _). congruence.
  - rewrite H5. split; intros (x & Hx & Hlx & Hd); exists x; (split; [|done]); [lia|].
    destruct (decide (x = k)) as [->|]; [|lia]. apply label_of_label in Hlx. congruence.
  - intros Hi Hci. destruct (decide (i = k)) as [->|]; [apply Hs|]. apply H6; [lia|done].
  - intros Hi Hji. destruct (decide (i = k)) as [->|]; [congruence|]. apply H7; [lia|done].
  - intros Hi. destruct (decide (i = k)) as [->|]; [lia|]. apply H8. lia.
Qed.

(** A label of [s], whose last label so far is [c] or -1. *)
Lemma links_label k s c i f f' :
  0 <= first <= k -> label_of_ s k -> last_label k s c -> links k i f ->
  fl_end f' = fl_end f -> fl_alternate f' = fl_alternate f ->
  fl_jump_scope f' = fl_jump_scope f ->
  fl_has_default f' = (if decide (i = s /\ op k = USIL_OP_DEFAULT) then true else fl_has_default f) ->
  fl_next_case f' = (if decide (0 <= c /\ i = c) then k else fl_next_case f) ->
  fl_first_case f' = (if decide (c < 0 /\ i = s) then k else fl_first_case f) ->
  links (k + 1) i f'.
Proof.
  intros Hk Hs Hc [H1 H2 H3 H4 H5 H6 H7 H8] E1 E2 E6 E5 E4 E3.
  pose proof (label_of_label _ _ Hs) as Hl.
  assert (Hcl : is_closer (op k) = false) by (by destruct (op k)).
  assert (He : op k <> USIL_OP_ELSE) by (by intros Hop; rewrite Hop in Hl).
  assert (Hj : is_jump (op k) = false) by (by destruct (op k)).
  assert (Huniq : forall t, label_of_ t k -> t = s).
  { intros t [Ht _]. eapply (inside_unique op first); [exact Ht|apply Hs]. }
  split; rewrite ?E1, ?E2, ?E6.
  - apply known_skip; [done|]. intros ?%ends_closer. congruence.
  - apply known_skip; [done|]. by intros ?%else_of_else.
  - rewrite E3. destruct (decide (c < 0 /\ i = s)) as [[Hc0 ->]|Hno].
    + apply known_hit; [lia|]. split; [done|]. destruct Hc as [[_ Hc]|[Hr _]]; [done|lia].
    + apply known_skip; [done|]. intros [Hi Hfirst]. apply Hno.
      assert (i = s) as -> by by apply Huniq. destruct Hc as [[-> _]|(Hr & Hlc & _)]; [lia|].
      exfalso. by apply (Hfirst c); [lia|].
  - rewrite E4. destruct (decide (0 <= c /\ i = c)) as [[Hc0 ->]|Hno].
    + apply known_hit; [lia|]. destruct Hc as [[-> _]|(Hr & Hlc & Hn)]; [lia|].
      exists s. split_and!; [done|done|lia|done].
    + apply known_skip; [done|]. intros (t & Hti & Htk & Hik & Hn). apply Hno.
      assert (t = s) as -> by by apply Huniq. destruct Hc as [[-> Hc]|(Hr & Hlc & Hnc)].
      * exfalso. by apply (Hc i Hik).
      * split; [lia|]. destruct (Z.lt_trichotomy i c) as [Hlt|[|Hlt]]; [|done|]; exfalso.
        -- by apply (Hn c); [lia|].
        -- by apply (Hnc i); [lia|].
  - rewrite E5. split.
    + destruct (decide (i = s /\ op k = USIL_OP_DEFAULT)) as [[-> Hd]|_]; intros Hf.
      * exists k. split; [lia|done].
      * apply H5 in Hf as (x & Hx & Hlx & Hd). exists x. split; [lia|done].
    + intros (x & Hx & Hlx & Hd). destruct (decide (i = s /\ op k = USIL_OP_DEFAULT)) as [|Hno]; [done|]. apply H5.
      exists x. split; [|done]. destruct (decide (x = k)) as [->|]; [|lia].
      exfalso. apply Hno. split; [by apply Huniq|done].
  - intros Hi Hci. destruct (decide (i = k)) as [->|]; [congruence|]. apply H6; [lia|done].
  - intros Hi Hji. destruct (decide (i = k)) as [->|]; [congruence|]. apply H7; [lia|done].
  - intros Hi. apply H8. lia.
Qed.

Lemma last_label_next k s c : last_label k s c -> ~ label_of_ s k -> last_label (k + 1) s c.
Proof.
  intros [[-> Hn]|(Hr & Hl & Hn)] Hk; [left|right]; (split; [done|lia]) || split_and!; try done; try lia.
  - intros x Hx. destruct (decide (x = k)) as [->|]; [done|]. apply Hn. lia.
  - intros x Hx. destruct (decide (x = k)) as [->|]; [done|]. apply Hn. lia.
Qed.

Lemma last_label_new k s : first <= k -> label_of_ s k -> last_label (k + 1) s k.
Proof. intros Hk Hs. right. split_and!; [lia|lia|done|]. intros x Hx. lia. Qed.

Lemma last_label_open k : first <= k -> last_label (k + 1) k (-1).
Proof.
  intros Hk. left. split; [done|]. intros x Hx [Hi _]. apply inside_range in Hi. lia.
Qed.

Lemma known_start R : known first R (-1).
Proof. left. split; [done|]. intros x Hx. lia. Qed.

Lemma links_start i f :
  first <= i -> fl_has_default f = false -> fl_end f = -1 -> fl_alternate f = -1 -> fl_first_case f = -1 ->
  fl_next_case f = -1 -> fl_jump_scope f = -1 -> links first i f.
Proof.
  intros Hi Hd E1 E2 E3 E4 E5. split; rewrite ?E1, ?E2, ?E3, ?E4, ?E5; try apply known_start; try lia.
  rewrite Hd. split; [done|]. intros (x & Hx & Hl & _). apply label_range in Hl. lia.
Qed.
End links.
