(* ===== verification/FlowMatch.v ===== *)
(** The matcher of hlsl_cfg.c refines the grammar of [FlowStructure]. *)

From S2P Require Import Prelude CArray Usil Cfg FlowStructure.

#[local] Set Warnings "-register-all".

(** [flow'] is [flow] with [h i] applied to the entry of each [i]. *)
Definition entrywise {A} (h : Z -> A -> A) (xs xs' : list A) : Prop :=
  zlength xs' = zlength xs /\ forall i x, znth xs i = Some x -> znth xs' i = Some (h i x).

Lemma entrywise_refl {A} (xs : list A) : entrywise (fun _ x => x) xs xs.
Proof. done. Qed.

Lemma entrywise_inv {A} (h : Z -> A -> A) xs xs' i y :
  entrywise h xs xs' -> znth xs' i = Some y -> exists x, znth xs i = Some x /\ y = h i x.
Proof.
  intros [Hl Hh] Hy. pose proof (znth_Some _ _ _ Hy) as Hi. rewrite Hl in Hi.
  destruct (znth_is_Some xs i Hi) as [x Hx]. exists x. split; [done|].
  apply Hh in Hx. congruence.
Qed.

(** One assignment more. *)
Lemma aupd_entrywise {E A} (h : Z -> A -> A) xs xs' i g :
  entrywise h xs xs' -> 0 <= i < zlength xs -> exists xs'', aupd (E:=E) xs' i g = Ret xs'' /\
    entrywise (fun j x => if decide (j = i) then g (h j x) else h j x) xs xs''.
Proof.
  intros [Hl Hh] Hi. destruct (znth_is_Some xs i Hi) as [x Hx].
  rewrite (aupd_ok _ _ _ _ (Hh i x Hx)). eexists. split; [done|]. split; [by rewrite zlength_zset|].
  intros j y Hy. rewrite znth_zset. destruct (decide (i = j)) as [<-|Hne].
  - rewrite !decide_True by (done || lia). by assert (x = y) as -> by congruence.
  - rewrite decide_False by congruence. by apply Hh.
Qed.

Lemma aget_entrywise {E A} (h : Z -> A -> A) xs xs' i x :
  entrywise h xs xs' -> znth xs i = Some x -> aget (E:=E) xs' i = Ret (h i x).
Proof. intros [_ Hh] Hx. by apply aget_ok, Hh. Qed.

Section matcher.
Context (program : USILProgram) (Hprog : program_ok program).
Context (first end_ : Z).

Abbreviation op := (op_of program).
Abbreviation count := (up_instruction_count program).

Hypothesis Hrange : 0 <= first <= end_ /\ end_ <= count.

(** The state before instruction [k]. *)
Record match_inv (k : Z) (flow : list HLSLInstructionFlow) (stack : list (Z * Z)) : Prop := {
  mi_length : zlength flow = count;
  mi_scopes : scopes op first k (map fst stack);
  mi_depth : (length stack <= MAX_FLOW_DEPTH)%nat;
  mi_labels s c : (s, c) ∈ stack -> last_label op first k s c;
  mi_ok j : first <= j < k -> instruction_ok op first j;
  mi_links i f : first <= i -> znth flow i = Some f -> links op first k i f;
  mi_parent i f : znth flow i = Some f -> -1 <= fl_parent f < count;
}.

(** * Jumps *)

Lemma find_jump_scope_spec {E} lo k stack :
  scopes op first k (map fst stack) -> k <= end_ ->
  exists r, find_jump_scope (E:=E) program lo stack = Ret r /\
    match r with
    | Some t => jump_scope op first lo k t
    | None => forall t, ~ jump_scope op first lo k t
    end.
Proof.
  revert k. induction stack as [|[s c] stack IH]; intros k Hsc Hk; cbn [find_jump_scope].
  - exists None. split; [done|]. intros t Ht.
    assert (Hin : exists s, inside op first s k) by (destruct Ht; eauto).
    destruct Hin as [s Hs]. by destruct (scopes_inside _ _ _ _ _ Hsc Hs).
  - cbn [map fst] in Hsc. assert (Hs : inside op first s k /\ scopes op first s (map fst stack))
      by (by inversion Hsc). destruct Hs as [Hs Hss].
    pose proof (inside_range _ _ _ _ Hs). rewrite opcode_at_ok by (done || lia). mstep.
    fold (breakable lo (op s)). destruct (breakable lo (op s)) eqn:Hb.
    + exists (Some s). split; [done|]. by apply jump_here.
    + destruct (IH s Hss ltac:(lia)) as (r & -> & Hr). exists r. split; [done|]. destruct r as [t|].
      * by eapply jump_out.
      * intros t Ht. destruct Ht as [k s' Hs' Hb'|k s' t Hs' _ Ht].
        -- assert (s' = s) as -> by (by eapply inside_unique). congruence.
        -- assert (s' = s) as -> by (by eapply inside_unique). by apply (Hr t).
Qed.

(** * One instruction *)

Section step.
Context (k : Z) (flow : list HLSLInstructionFlow) (stack : list (Z * Z)).
Hypothesis Hk : first <= k < end_.
Hypothesis HI : match_inv k flow stack.

(** The innermost scope, and the opcode the matcher compares. *)
Definition scope : Z := match stack with (s, _) :: _ => s | [] => -1 end.

Lemma scope_inside : 0 <= scope -> inside op first scope k.
Proof.
  pose proof (mi_scopes _ _ _ HI) as Hsc. unfold scope. destruct stack as [|[s c] rest]; [lia|].
  intros _. by inversion Hsc.
Qed.

Lemma inside_scope s : inside op first s k -> s = scope.
Proof.
  intros Hs. destruct (scopes_inside _ _ _ _ _ (mi_scopes _ _ _ HI) Hs) as [rest Hr].
  unfold scope. destruct stack as [|[s' c] rest']; [done|]. cbn in Hr. congruence.
Qed.

Lemma inside_scope_nonneg s : inside op first s k -> 0 <= scope.
Proof. intros Hs. rewrite <- (inside_scope s Hs). pose proof (inside_range _ _ _ _ Hs). lia. Qed.

(** The opcode of the scope is NOP without one. *)
Definition enclosing : USILOpcode := if 0 <=? scope then op scope else USIL_OP_NOP.

Lemma enclosing_inside o : o <> USIL_OP_NOP -> enclosing = o -> inside op first scope k /\ op scope = o.
Proof.
  unfold enclosing. destruct (Z.leb_spec 0 scope) as [Hs|]; [|congruence].
  intros _ <-. split; [by apply scope_inside|done].
Qed.

Lemma inside_enclosing s : inside op first s k -> enclosing = op s.
Proof.
  intros Hs. unfold enclosing. pose proof (inside_scope_nonneg s Hs).
  rewrite (proj2 (Z.leb_le _ _)) by done. by rewrite <- (inside_scope s Hs).
Qed.

(** What [k] with its links proved adds to the state. *)
Lemma match_inv_next flow' stack' h :
  entrywise h flow flow' ->
  scopes op first (k + 1) (map fst stack') -> (length stack' <= MAX_FLOW_DEPTH)%nat ->
  (forall s c, (s, c) ∈ stack' -> last_label op first (k + 1) s c) ->
  instruction_ok op first k ->
  (forall i f, first <= i -> links op first k i f -> znth flow i = Some f ->
     links op first (k + 1) i (h i f)) ->
  (forall i f, znth flow i = Some f -> -1 <= fl_parent f < count -> -1 <= fl_parent (h i f) < count) ->
  match_inv (k + 1) flow' stack'.
Proof.
  intros Hh Hsc Hd Hl Hok Hli Hpa. split; [|done|done|done| | |].
  - rewrite (proj1 Hh). apply (mi_length _ _ _ HI).
  - intros j Hj. destruct (decide (j = k)) as [->|]; [done|]. apply (mi_ok _ _ _ HI). lia.
  - intros i f' Hi Hf'. destruct (entrywise_inv _ _ _ _ _ Hh Hf') as (f & Hf & ->).
    apply Hli; [done| |done]. by apply (mi_links _ _ _ HI).
  - intros i f' Hf'. destruct (entrywise_inv _ _ _ _ _ Hh Hf') as (f & Hf & ->).
    apply Hpa; [done|]. by apply (mi_parent _ _ _ HI i).
Qed.

(** The parent link comes first, whatever the instruction is. *)
Section linked.
Context (p : Z) (Hp : -1 <= p < count).

Definition with_parent (j : Z) (f : HLSLInstructionFlow) : HLSLInstructionFlow :=
  if decide (j = k) then f <| fl_parent := p |> else f.

Context (flow1 : list HLSLInstructionFlow) (Hflow1 : entrywise with_parent flow flow1).

Lemma length_flow1 : zlength flow = count /\ zlength flow1 = count.
Proof. rewrite (proj1 Hflow1). pose proof (mi_length _ _ _ HI). done. Qed.

(** The entry of the innermost scope, before the instruction. *)
Lemma scope_entry : 0 <= scope -> exists f, znth flow scope = Some f /\
  links op first k scope f /\ with_parent scope f = f /\ -1 <= fl_parent f < count.
Proof.
  intros Hs. pose proof (scope_inside Hs) as Hin.
  pose proof (inside_range _ _ _ _ Hin) as Hr.
  destruct (znth_is_Some flow scope) as [f Hf]; [rewrite (proj1 length_flow1); lia|].
  exists f. split; [done|]. split; [apply (mi_links _ _ _ HI); [lia|done]|].
  split; [|by eapply (mi_parent _ _ _ HI)]. unfold with_parent. rewrite decide_False by lia. done.
Qed.

Ltac entries :=
  cbv beta; unfold with_parent; repeat case_decide; subst; try reflexivity; try lia; try tauto.

Lemma with_parent_fields j f :
  fl_end (with_parent j f) = fl_end f /\ fl_alternate (with_parent j f) = fl_alternate f /\
  fl_first_case (with_parent j f) = fl_first_case f /\
  fl_next_case (with_parent j f) = fl_next_case f /\
  fl_has_default (with_parent j f) = fl_has_default f /\
  fl_jump_scope (with_parent j f) = fl_jump_scope f.
Proof. entries. Qed.

Lemma parents_in_range j f : -1 <= fl_parent f < count -> -1 <= fl_parent (with_parent j f) < count.
Proof. intros Hf. unfold with_parent. case_decide; done. Qed.

(** An instruction that makes no links but its own jump scope. *)
Lemma quiet_next flow' h stack' :
  op k <> USIL_OP_ELSE -> is_closer (op k) = false -> is_label (op k) = false ->
  entrywise h flow flow' -> 
  (forall j f, h j f = with_parent j f \/ (j = k /\ exists t, h j f = (with_parent j f) <| fl_jump_scope := t |>)) ->
  (is_jump (op k) = true -> forall f, jump_scope op first (is_continue (op k)) k (fl_jump_scope (h k f))) ->
  scopes op first (k + 1) (map fst stack') -> (length stack' <= MAX_FLOW_DEPTH)%nat ->
  (forall s c, (s, c) ∈ stack' -> last_label op first (k + 1) s c) ->
  instruction_ok op first k -> match_inv (k + 1) flow' stack'.
Proof.
  intros He Hc Hl Hh Hform Hj Hsc Hd Hll Hok. apply (match_inv_next flow' stack' h); try done.
  - intros i f Hi Hli Hf. destruct (with_parent_fields i f) as (E1 & E2 & E3 & E4 & E5 & E6).
    apply (links_quiet op first k i f); try done.
    1-5: destruct (Hform i f) as [->|(_ & t & ->)]; [congruence|].
    + exact E1.
    + exact E2.
    + exact E3.
    + exact E4.
    + exact E5.
    + intros Hne. destruct (Hform i f) as [->|(-> & _)]; [congruence|done].
    + intros -> Hjk. by apply Hj.
  - intros i f _ Hf. destruct (Hform i f) as [->|(_ & t & ->)]; by apply parents_in_range.
Qed.

Lemma match_else_spec :
  op k = USIL_OP_ELSE ->
  outcome (match_else enclosing scope k flow1)
    (fun flow' => match_inv (k + 1) flow' stack) (fun _ => ~ structured op first end_).
Proof.
  intros Hop. unfold match_else. destruct (op_is enclosing USIL_OP_IF) eqn:He; cbn [negb].
  2:{ apply op_is_false in He. intros [_ Hok].
      destruct (io_else _ _ _ (Hok k ltac:(lia)) Hop) as (s & (Hs & Ho & _) & _).
      apply He. by rewrite (inside_enclosing s Hs). }
  apply op_is_true in He.
  destruct (enclosing_inside USIL_OP_IF ltac:(done) He) as [Hin Hos].
  pose proof (inside_range _ _ _ _ Hin) as Hr.
  destruct scope_entry as (f & Hf & Hlf & Hwf & Hpf); [lia|].
  rewrite (aget_entrywise _ _ _ _ _ Hflow1 Hf), Hwf. mstep.
  assert (Helse : else_of op first scope k) by done.
  destruct (Z.leb_spec 0 (fl_alternate f)) as [Ha|Ha].
  { cbn. intros [_ Hok]. destruct (known_nonneg first k _ _ ltac:(lia) (ln_alternate _ _ _ _ _ Hlf) Ha).
    destruct (io_else _ _ _ (Hok k ltac:(lia)) Hop) as (s & Hs & Huniq).
    assert (s = scope) as -> by (apply inside_scope, Hs).
    apply (Huniq (fl_alternate f)); [done|lia]. }
  pose proof length_flow1 as [Hl0 Hl1].
  destruct (aupd_entrywise (E:=unit) _ _ _ scope (fun f => f <| fl_alternate := k |>) Hflow1)
    as (flow2 & -> & H2); [lia|]. mstep.
  rewrite (aget_entrywise _ _ _ _ _ H2 Hf). mstep.
  destruct (aupd_entrywise (E:=unit) _ _ _ k (fun f' => f' <| fl_parent := fl_parent f |>) H2)
    as (flow3 & Hrun & H3); [lia|].
  rewrite decide_True by done. rewrite Hwf.
  change (fl_parent (f <| fl_alternate := k |>)) with (fl_parent f). rewrite Hrun.
  cbn [outcome]. eapply match_inv_next; [exact H3| |apply (mi_depth _ _ _ HI)|..].
  - apply scopes_plain; [apply (mi_scopes _ _ _ HI)|by rewrite Hop..].
  - intros s c Hsc. apply last_label_next; [by apply (mi_labels _ _ _ HI)|].
    intros Hlab%label_of_label. by rewrite Hop in Hlab.
  - split; rewrite ?Hop; try done. intros _. exists scope. split; [done|].
    intros k' Hk' Hlt. apply (known_none first k _ _ ltac:(lia) (ln_alternate _ _ _ _ _ Hlf) Ha k'); [|done].
    pose proof (inside_range _ _ _ _ (proj1 Hk')). lia.
  - intros i g Hi Hg Hgi. eapply (links_else op first k scope i g); try done; try lia; entries.
  - intros i g Hgi Hpg. entries; done.
Qed.

(** A scope has one ELSE. *)
Lemma one_else t i l :
  known first k (else_of op first t) l -> else_of op first t i -> first <= i < k -> i = l.
Proof.
  intros Hl Hi Hik.
  assert (Hfirst : forall j, first <= j < k -> else_of op first t j ->
            forall j', else_of op first t j' -> ~ j' < j).
  { intros j Hj Hjt. destruct (io_else _ _ _ (mi_ok _ _ _ HI j Hj) (else_of_else _ _ _ _ Hjt))
      as (s & Hs & Huniq).
    assert (s = t) as -> by (eapply (inside_unique op first); [apply Hs|apply Hjt]).
    intros j' Hj' Hlt. by apply (Huniq j'). }
  destruct Hl as [[-> Hn]|[Hr Hl]]; [by destruct (Hn i Hik)|].
  pose proof (Hfirst i Hik Hi l Hl). pose proof (Hfirst l Hr Hl i Hi). lia.
Qed.

Lemma match_end_spec (F : unit -> Prop) :
  is_closer (op k) = true -> enclosing = required_opener (op k) ->
  outcome (match_end scope k flow1) (fun flow' => match_inv (k + 1) flow' (tail stack)) F.
Proof.
  intros Hcl He. assert (Hnop : required_opener (op k) <> USIL_OP_NOP).
  { unfold required_opener. by repeat case_match. }
  destruct (enclosing_inside (required_opener (op k)) Hnop He) as [Hin Hos].
  pose proof (inside_range _ _ _ _ Hin) as Hr. assert (Hend : end_of op first scope k) by done.
  destruct scope_entry as (f & Hf & Hlf & Hwf & Hpf); [lia|].
  pose proof length_flow1 as [Hl0 Hl1]. pose proof (ln_alternate _ _ _ _ _ Hlf) as Hkn.
  set (l := fl_alternate f) in *.
  assert (Hlr : -1 <= l < k) by (destruct Hkn as [[-> _]|[? _]]; lia).
  unfold match_end.
  destruct (aupd_entrywise (E:=unit) _ _ _ scope (fun f => f <| fl_end := k |>) Hflow1)
    as (flow2 & -> & H2); [lia|]. mstep.
  rewrite (aget_entrywise _ _ _ _ _ H2 Hf). mstep. rewrite decide_True by done. rewrite Hwf.
  change (fl_alternate (f <| fl_end := k |>)) with l.
  assert (H3 : exists flow3 h3, (if 0 <=? l then aupd flow2 l (fun f => f <| fl_end := k |>)
            else Ret flow2) = Ret (E:=unit) flow3 /\ entrywise h3 flow flow3 /\
            forall j g, h3 j g = if decide (j = scope \/ (0 <= l /\ j = l))
              then (with_parent j g) <| fl_end := k |> else with_parent j g).
  { destruct (Z.leb_spec 0 l) as [Hl|Hl].
    - destruct (aupd_entrywise (E:=unit) _ _ _ l (fun f => f <| fl_end := k |>) H2)
        as (flow3 & -> & H3); [lia|]. eexists _, _. split; [done|]. split; [exact H3|].
      intros j g. cbv beta. repeat case_decide; try done; tauto.
    - eexists _, _. split; [done|]. split; [exact H2|]. intros j g. cbv beta.
      repeat case_decide; try done; lia. }
  destruct H3 as (flow3 & h3 & -> & H3 & Hh3). mstep.
  destruct (aupd_entrywise (E:=unit) _ _ _ k (fun f => f <| fl_jump_scope := scope |>) H3)
    as (flow4 & -> & H4); [lia|]. mstep.
  rewrite (aget_entrywise _ _ _ _ _ H4 Hf). mstep.
  set (q := fl_parent _).
  assert (Hq : -1 <= q < count).
  { unfold q. rewrite decide_False by lia. rewrite Hh3, decide_True by (by left). by rewrite Hwf. }
  destruct (aupd_entrywise (E:=unit) _ _ _ k (fun f' => f' <| fl_parent := q |>) H4)
    as (flow5 & -> & H5); [lia|].
  cbn [outcome]. eapply match_inv_next; [exact H5|..].
  - pose proof (mi_scopes _ _ _ HI) as Hsc. destruct (scopes_inside _ _ _ _ _ Hsc Hin) as [rest Hrest].
    rewrite Hrest in Hsc. replace (map fst (tail stack)) with rest.
    + by eapply scopes_close.
    + destruct stack; [done|]. cbn in Hrest |- *. congruence.
  - pose proof (mi_depth _ _ _ HI) as Hd. destruct stack; cbn in Hd |- *; lia.
  - intros s c Hsc. apply last_label_next.
    + apply (mi_labels _ _ _ HI). destruct stack; [done|]. by right.
    + intros Hlab%label_of_label. by destruct (op k).
  - split; try (by destruct (op k)). intros _. by exists scope.
  - intros i g Hi Hg Hgi. destruct (with_parent_fields i g) as (E1 & E2 & E3 & E4 & E5 & E6).
    eapply (links_close op first k scope l i g); try done; try lia.
    + intros j Hj Hjk. by eapply one_else.
    + cbv beta. rewrite Hh3. repeat case_decide; exact E2.
    + cbv beta. rewrite Hh3. repeat case_decide; exact E3.
    + cbv beta. rewrite Hh3. repeat case_decide; exact E4.
    + cbv beta. rewrite Hh3. repeat case_decide; exact E5.
    + cbv beta. rewrite Hh3. repeat case_decide; try done; exact E6.
    + cbv beta. rewrite Hh3. repeat case_decide; try done; exact E1.
  - intros i g Hgi Hpg. cbv beta. rewrite Hh3. pose proof (parents_in_range i g Hpg).
    repeat case_decide; done.
Qed.

Lemma match_label_spec :
  is_label (op k) = true ->
  outcome (match_label (op k) enclosing scope (match stack with (_, c) :: _ => c | [] => -1 end) k flow1)
    (fun flow' => match_inv (k + 1) flow'
       (match stack with (s, _) :: stack => (s, k) :: stack | [] => [] end))
    (fun _ => ~ structured op first end_).
Proof.
  intros Hlab. unfold match_label. destruct (op_is enclosing USIL_OP_SWITCH) eqn:He; cbn [negb].
  2:{ apply op_is_false in He. intros [_ Hok].
      destruct (io_label _ _ _ (Hok k ltac:(lia)) Hlab) as (s & (Hs & Ho & _) & _).
      apply He. by rewrite (inside_enclosing s Hs). }
  apply op_is_true in He. destruct (enclosing_inside USIL_OP_SWITCH ltac:(done) He) as [Hin Hos].
  pose proof (inside_range _ _ _ _ Hin) as Hr. assert (Hl : label_of op first scope k) by done.
  destruct scope_entry as (f & Hf & Hlf & Hwf & Hpf); [lia|].
  pose proof length_flow1 as [Hl0 Hl1].
  rewrite (aget_entrywise _ _ _ _ _ Hflow1 Hf), Hwf. mstep.
  destruct (op_is (op k) USIL_OP_DEFAULT && fl_has_default f) eqn:Hdup.
  { apply andb_true_iff in Hdup as [Hd Hf']. apply op_is_true in Hd.
    apply (ln_default _ _ _ _ _ Hlf) in Hf' as (x & Hx & Hlx & Hdx). intros [_ Hok].
    destruct (io_label _ _ _ (Hok k ltac:(lia)) Hlab) as (s & Hs & Huniq).
    assert (s = scope) as -> by (apply inside_scope, Hs). by apply (Huniq Hd x). }
  set (last := match stack with (_, c) :: _ => c | [] => -1 end).
  assert (Hlast : last_label op first k scope last /\ exists rest,
     map fst stack = scope :: rest /\
     match stack with (s, _) :: stack => (s, k) :: stack | [] => [] end = (scope, k) :: tail stack).
  { pose proof (mi_labels _ _ _ HI) as Hm.
    destruct (scopes_inside _ _ _ _ _ (mi_scopes _ _ _ HI) Hin) as [rest Hrest].
    split; [|exists rest; split; [done|]]; unfold last; destruct stack as [|[s c] st]; try done.
    - apply Hm. cbn in Hrest. injection Hrest as <- _. left.
    - cbn in Hrest |- *. by injection Hrest as <- _. }
  destruct Hlast as (Hlast & rest & Hstack & ->).
  assert (Hlr : -1 <= last < k) by (destruct Hlast as [[-> _]|[? _]]; lia).
  assert (H2 : exists flow2 h2, (if op_is (op k) USIL_OP_DEFAULT
      then aupd flow1 scope (fun f => f <| fl_has_default := true |>) else Ret flow1) = Ret (E:=unit) flow2 /\
      entrywise h2 flow flow2 /\ forall j g, h2 j g =
        if decide (j = scope /\ op k = USIL_OP_DEFAULT)
        then (with_parent j g) <| fl_has_default := true |> else with_parent j g).
  { destruct (op_is (op k) USIL_OP_DEFAULT) eqn:Hd.
    - apply op_is_true in Hd.
      destruct (aupd_entrywise (E:=unit) _ _ _ scope (fun f => f <| fl_has_default := true |>) Hflow1)
        as (flow2 & -> & H2); [lia|]. eexists _, _. split; [done|]. split; [exact H2|].
      intros j g. cbv beta. repeat case_decide; try done; tauto.
    - apply op_is_false in Hd. eexists _, _. split; [done|]. split; [exact Hflow1|].
      intros j g. case_decide; [tauto|done]. }
  destruct H2 as (flow2 & h2 & -> & H2 & Hh2). mstep.
  assert (H3 : exists flow3 h3, (if 0 <=? last then aupd flow2 last (fun f => f <| fl_next_case := k |>)
      else aupd flow2 scope (fun f => f <| fl_first_case := k |>)) = Ret (E:=unit) flow3 /\
      entrywise h3 flow flow3 /\ forall j g, h3 j g =
        if decide (0 <= last /\ j = last) then (h2 j g) <| fl_next_case := k |>
        else if decide (last < 0 /\ j = scope) then (h2 j g) <| fl_first_case := k |> else h2 j g).
  { destruct (Z.leb_spec 0 last) as [Hpos|Hneg].
    - destruct (aupd_entrywise (E:=unit) _ _ _ last (fun f => f <| fl_next_case := k |>) H2)
        as (flow3 & -> & H3); [lia|]. eexists _, _. split; [done|]. split; [exact H3|].
      intros j g. cbv beta. repeat case_decide; try done; lia.
    - destruct (aupd_entrywise (E:=unit) _ _ _ scope (fun f => f <| fl_first_case := k |>) H2)
        as (flow3 & -> & H3); [lia|]. eexists _, _. split; [done|]. split; [exact H3|].
      intros j g. cbv beta. repeat case_decide; try done; lia. }
  destruct H3 as (flow3 & h3 & -> & H3 & Hh3). cbn [outcome].
  assert (Htail : map fst (tail stack) = rest).
  { destruct stack; [done|]. cbn in Hstack |- *. congruence. }
  pose proof (mi_scopes _ _ _ HI) as Hsc. rewrite Hstack in Hsc.
  eapply match_inv_next; [exact H3|..].
  - cbn [map fst]. rewrite Htail. apply scopes_plain; [done|by destruct (op k)..].
  - pose proof (mi_depth _ _ _ HI) as Hd. destruct stack; [done|]. cbn in Hd |- *. lia.
  - intros s c [[= -> ->]|Hin']%elem_of_cons; [by apply last_label_new; [lia|]|].
    apply last_label_next; [apply (mi_labels _ _ _ HI); destruct stack; [done|by right]|].
    intros [Hsk _]. apply inside_scope in Hsk as ->.
    assert (Hlt : scope ∈ rest) by (rewrite <- Htail; apply list_elem_of_fmap; by exists (scope, c)).
    inversion Hsc as [|t k' stk _ Hss]; subst. pose proof (scopes_lt _ _ _ _ _ Hss Hlt). lia.
  - split; try (by destruct (op k)). intros _. exists scope. split; [done|].
    intros Hd x Hlx Hdx Hx. rewrite (proj2 (op_is_true _ _) Hd) in Hdup. cbn in Hdup.
    enough (fl_has_default f = true) by congruence. apply (ln_default _ _ _ _ _ Hlf). by exists x.
  - intros i g Hi Hg Hgi. destruct (with_parent_fields i g) as (E1 & E2 & E3 & E4 & E5 & E6).
    eapply (links_label op first k scope last i g); try done; try lia;
      rewrite Hh3, ?Hh2; repeat case_decide; try done; try lia; try tauto.
  - intros i g Hgi Hpg. rewrite Hh3, Hh2. pose proof (parents_in_range i g Hpg).
    repeat case_decide; done.
Qed.
End linked.

(** * The step *)

Lemma opener_other o : is_opener o = true ->
  o <> USIL_OP_ELSE /\ is_closer o = false /\ is_label o = false /\ is_jump o = false.
Proof. by destruct o. Qed.

Lemma stack_plain (o := op k) :
  is_opener o = false -> is_closer o = false -> is_label o = false ->
  scopes op first (k + 1) (map fst stack) /\
  forall s c, (s, c) ∈ stack -> last_label op first (k + 1) s c.
Proof.
  intros Ho Hc Hl. split; [apply scopes_plain; [apply (mi_scopes _ _ _ HI)|done..]|].
  intros s c Hsc. apply last_label_next; [by apply (mi_labels _ _ _ HI)|].
  intros Hlk%label_of_label. unfold o in *. congruence.
Qed.

Lemma match_step_spec :
  outcome (match_step program k (flow, stack))
    (fun '(flow', stack') => match_inv (k + 1) flow' stack') (fun _ => ~ structured op first end_).
Proof.
  unfold match_step. fold scope. rewrite (opcode_at_ok program k) by (done || lia). mstep.
  assert (Hsr : 0 <= scope -> first <= scope < k).
  { intros Hs. apply (inside_range op). by apply scope_inside. }
  assert (He : (if 0 <=? scope then opcode_at program scope else Ret USIL_OP_NOP) =
               Ret (E:=unit) enclosing).
  { unfold enclosing. destruct (Z.leb_spec 0 scope); [|done]. apply opcode_at_ok; [done|lia]. }
  rewrite He. mstep. clear He.
  assert (Hp : exists p, (if 0 <=? scope then
       s ← aget flow scope; Ret (if 0 <=? fl_alternate s then fl_alternate s else scope)
     else Ret scope) = Ret (E:=unit) p /\ -1 <= p < count).
  { destruct (Z.leb_spec 0 scope) as [Hs|Hs].
    - destruct (znth_is_Some flow scope) as [f Hf]; [rewrite (mi_length _ _ _ HI); lia|].
      rewrite (aget_ok _ _ _ Hf). mstep. eexists. split; [done|].
      pose proof (mi_links _ _ _ HI scope f ltac:(lia) Hf) as Hlf.
      specialize (Hsr Hs). destruct (ln_alternate _ _ _ _ _ Hlf) as [[-> _]|[? _]]; zcase; lia.
    - exists scope. split; [done|]. unfold scope in *. destruct stack as [|[s c] st]; [lia|].
      assert (Hin : inside op first s k) by (pose proof (mi_scopes _ _ _ HI) as Hx; by inversion Hx).
      apply inside_range in Hin. lia. }
  destruct Hp as (p & -> & Hp). mstep.
  destruct (aupd_entrywise (E:=unit) _ _ _ k (fun f => f <| fl_parent := p |>) (entrywise_refl flow))
    as (flow1 & -> & H1); [rewrite (mi_length _ _ _ HI); lia|]. mstep.
  assert (Hflow1 : entrywise (with_parent p) flow flow1) by exact H1. clear H1.
  destruct (is_opener (op k)) eqn:Ho.
  { destruct (opener_other _ Ho) as (Hne & Hc & Hl & Hj).
    destruct (Nat.eqb_spec (length stack) MAX_FLOW_DEPTH) as [Hd|Hd]; cbn [outcome].
    { intros [_ Hok]. pose proof (mi_scopes _ _ _ HI) as Hsc.
      pose proof (io_depth _ _ _ (Hok k ltac:(lia)) _ Ho Hsc) as Hlt. rewrite length_map in Hlt. lia. }
    pose proof (mi_depth _ _ _ HI) as Hle.
    eapply (quiet_next p Hp flow1 (with_parent p)); try done; [by left|congruence|..].
    - cbn [map fst]. apply scopes_open; [apply (mi_scopes _ _ _ HI)|lia|done].
    - cbn. lia.
    - intros s c [[= -> ->]|Hin]%elem_of_cons; [apply last_label_open; lia|].
      apply last_label_next; [by apply (mi_labels _ _ _ HI)|]. intros Hlk%label_of_label. congruence.
    - split; try (by destruct (op k)). intros st _ Hsc.
      rewrite (scopes_unique _ _ _ _ _ Hsc (mi_scopes _ _ _ HI)), length_map. lia. }
  destruct (op_is (op k) USIL_OP_ELSE) eqn:Helse.
  { apply op_is_true in Helse. apply outcome_bind.
    eapply outcome_mono; [by apply (match_else_spec p Hp flow1 Hflow1)| |done]. done. }
  apply op_is_false in Helse. destruct (is_closer (op k)) eqn:Hc.
  { destruct (op_is enclosing (required_opener (op k))) eqn:Hr; cbn [negb].
    - apply op_is_true in Hr. apply outcome_bind.
      eapply outcome_mono; [by apply (match_end_spec p Hp flow1 Hflow1 (fun _ => ~ structured op first end_))| |done].
      done.
    - apply op_is_false in Hr. cbn [outcome]. intros [_ Hok].
      destruct (io_close _ _ _ (Hok k ltac:(lia)) Hc) as (s & Hs & _ & Hq).
      apply Hr. by rewrite (inside_enclosing s Hs). }
  destruct (is_label (op k)) eqn:Hl.
  { apply outcome_bind. eapply outcome_mono; [by apply (match_label_spec p Hp flow1 Hflow1)| |done].
    done. }
  destruct (stack_plain Ho Hc Hl) as [Hsc Hll].
  destruct (is_jump (op k)) eqn:Hj.
  - destruct (find_jump_scope_spec (E:=unit) (is_continue (op k)) k stack (mi_scopes _ _ _ HI))
      as (r & -> & Hr); [lia|]. mstep. destruct r as [t|].
    + destruct (aupd_entrywise (E:=unit) _ _ _ k (fun f => f <| fl_jump_scope := t |>) Hflow1)
        as (flow2 & -> & H2); [rewrite (mi_length _ _ _ HI); lia|]. mstep. cbn [outcome].
      eapply (quiet_next p Hp flow2 _ stack); try done.
      * intros j f. cbv beta. case_decide; [right|by left]. split; [done|by exists t].
      * intros _ f. cbv beta. by rewrite decide_True.
      * apply (mi_depth _ _ _ HI).
      * split; try (by destruct (op k)). intros _. eauto.
    + cbn [outcome]. intros [_ Hok]. destruct (io_jump _ _ _ (Hok k ltac:(lia)) Hj) as [s Hs].
      by apply (Hr s).
  - cbn [outcome]. eapply (quiet_next p Hp flow1 (with_parent p) stack); try done; [by left|congruence| |].
    + apply (mi_depth _ _ _ HI).
    + split; intros; try done; congruence.
Qed.
End step.

(** * The matcher *)

(** What the links say of a whole program. *)
Record flow_links (flow : list HLSLInstructionFlow) : Prop := {
  fk_length : zlength flow = count;
  fk_links i f : first <= i < end_ -> znth flow i = Some f -> links op first end_ i f;
  fk_parent i f : znth flow i = Some f -> -1 <= fl_parent f < count;
}.

Lemma reset_flow {E} flow :
  zlength flow = count -> (forall i f, znth flow i = Some f -> fl_has_default f = false) ->
  outcome (for_loop (E:=E) (Z.to_nat count) 0 (fun index flow => aupd flow index no_flow) flow)
    (fun flow' => zlength flow' = count /\ forall i f, znth flow' i = Some f ->
       exists g, f = no_flow g /\ fl_has_default g = false) (fun _ => False).
Proof.
  intros Hl Hd. eapply outcome_mono; [apply outcome_for with (F := fun _ => False) (I := fun k flow' =>
      zlength flow' = count /\ forall i f, znth flow' i = Some f -> exists g,
        fl_has_default g = false /\ if decide (i < k) then f = no_flow g else f = g)| |done].
  - split; [done|]. intros i f Hf. exists f. split; [by eapply Hd|].
    apply znth_Some in Hf. by rewrite decide_False by lia.
  - intros k flow' Hk [Hl' Hall]. destruct (znth_is_Some flow' k) as [f Hf]; [lia|].
    rewrite (aupd_ok _ _ _ _ Hf). cbn. rewrite zlength_zset. split; [done|].
    intros i g. rewrite znth_zset. destruct (decide (k = i)) as [<-|Hne].
    + rewrite decide_True by lia. intros [= <-]. destruct (Hall k f Hf) as (g & Hg & Hif).
      rewrite decide_False in Hif by lia. subst g. exists f. by rewrite decide_True by lia.
    + intros Hg. destruct (Hall i g Hg) as (g' & Hg' & Hif). exists g'. split; [done|].
      repeat case_decide; try done; lia.
  - intros flow' [Hl' Hall]. split; [done|]. intros i f Hf. destruct (Hall i f Hf) as (g & Hg & Hif).
    exists g. pose proof (znth_Some _ _ _ Hf). by rewrite decide_True in Hif by lia.
Qed.

(** The matcher accepts exactly the well-structured programs. *)
Lemma match_flow_structure_spec :
  outcome (match_flow_structure program (filled count zero_flow) first end_)
    (fun flow => structured op first end_ /\ flow_links flow)
    (fun _ => ~ structured op first end_).
Proof.
  unfold match_flow_structure. apply outcome_bind. eapply outcome_mono; [apply reset_flow| |done].
  - apply zlength_filled. lia.
  - intros i f Hf. pose proof (znth_Some _ _ _ Hf) as Hi. rewrite zlength_filled in Hi by lia.
    rewrite znth_filled in Hf by done. by injection Hf as <-.
  - intros flow [Hl Hall]. apply outcome_bind. eapply outcome_mono; [apply outcome_for with
      (F := fun _ => ~ structured op first end_)
      (I := fun k '(flow, stack) => match_inv k flow stack)| |done].
    + split; try done.
      * cbn. constructor. constructor.
      * cbn. unfold MAX_FLOW_DEPTH. lia.
      * by intros s c ?%not_elem_of_nil.
      * lia.
      * intros i f Hi Hf. destruct (Hall i f Hf) as (g & -> & Hg). by apply links_start.
      * intros i f Hf. destruct (Hall i f Hf) as (g & -> & Hg). cbn. lia.
    + intros k [flow' stack'] Hk HI. apply match_step_spec; [lia|done].
    + replace (first + Z.of_nat (Z.to_nat (end_ - first))) with end_ by lia.
      intros [flow' stack'] HI. destruct stack' as [|[s c] st]; cbn [outcome].
      * split.
        -- split; [pose proof (mi_scopes _ _ _ HI) as Hsc; by inversion Hsc|apply (mi_ok _ _ _ HI)].
        -- split; [apply (mi_length _ _ _ HI)| |apply (mi_parent _ _ _ HI)].
           intros i f Hi. apply (mi_links _ _ _ HI). lia.
      * intros [Hb _]. pose proof (mi_scopes _ _ _ HI) as Hsc. cbn in Hsc.
        inversion Hsc as [|s' k' stk Hs _]; subst. destruct Hs as (Hf & Ho & Hbs).
        exact (inside_not_balanced op _ _ _ Hb Hf Ho Hbs).
Qed.
End matcher.
