(* ===== verification/FlowStep.v ===== *)
(** Where control goes after an instruction: the step relation of structured
    flow control, and the targets [add_edges] reads off the links. *)

From S2P Require Import Prelude CArray Usil Cfg FlowStructure.

#[local] Set Warnings "-register-all".

Section step.
Context (op : Z -> USILOpcode) (first : Z).

(** The instructions control can fall out of the bottom of. *)
Definition falls_through (o : USILOpcode) : bool :=
  negb (op_is o USIL_OP_RET || op_is o USIL_OP_SWITCH || op_is o USIL_OP_ELSE ||
        op_is o USIL_OP_BREAK || op_is o USIL_OP_CONTINUE || op_is o USIL_OP_ENDLOOP).

(** One step, from an instruction to the next one executed.  An ELSE is only
    met at the end of the arm before it; the instruction after the range is the
    exit. *)
Inductive flow_step (i : Z) : Z -> Prop :=
| step_next : falls_through (op i) = true -> flow_step i (i + 1)
| step_if_else l : op i = USIL_OP_IF -> else_of op first i l -> flow_step i (l + 1)
| step_if_end e :
    op i = USIL_OP_IF -> (forall l, ~ else_of op first i l) -> end_of op first i e -> flow_step i (e + 1)
| step_else s e :
    op i = USIL_OP_ELSE -> else_of op first s i -> end_of op first s e -> flow_step i (e + 1)
| step_label l : op i = USIL_OP_SWITCH -> label_of op first i l -> flow_step i l
| step_no_default e :
    op i = USIL_OP_SWITCH -> (forall l, label_of op first i l -> op l <> USIL_OP_DEFAULT) ->
    end_of op first i e -> flow_step i (e + 1)
| step_break s e :
    op i = USIL_OP_BREAK \/ op i = USIL_OP_BREAKC -> jump_scope op first false i s ->
    end_of op first s e -> flow_step i (e + 1)
| step_continue s e :
    is_continue (op i) = true -> jump_scope op first true i s -> end_of op first s e -> flow_step i e
| step_loop s : op i = USIL_OP_ENDLOOP -> end_of op first s i -> flow_step i (s + 1).

(** Control may also leave the program: at a RET or a DISCARD. *)
Definition leaves (o : USILOpcode) : bool := op_is o USIL_OP_RET || op_is o USIL_OP_DISCARD.

Section structured.
Context (end_ : Z) (Hfirst : 0 <= first <= end_) (Hst : structured op first end_).

Lemma balanced_opener a b s :
  first <= a -> balanced op a b -> a <= s < b -> is_opener (op s) = true ->
  exists e, e < b /\ end_of op first s e.
Proof.
  intros Hf Hb. revert Hf. induction Hb as [a|a b Ho Hc Hb IH|a e b Ho He IHe Hcl Hb IH]; intros Hf Hs Hos.
  - lia.
  - apply IH; [lia| |done]. destruct (decide (s = a)) as [->|]; [congruence|lia].
  - pose proof (balanced_le _ _ _ He). pose proof (balanced_le _ _ _ Hb).
    destruct (decide (s = a)) as [->|]; [exists e; split; [lia|done]|].
    destruct (decide (s < e)) as [|].
    { destruct IHe as (x & Hx & Hex); [lia|lia|done|]. exists x. split; [lia|done]. }
    destruct (decide (s = e)) as [->|]; [|apply IH; [lia|lia|done]].
    destruct Hcl as [Hce _]. by rewrite (closer_not_opener _ Hce) in Hos.
Qed.

(** Every scope has its end, inside the range. *)
Lemma opener_end s : first <= s < end_ -> is_opener (op s) = true -> exists e, e < end_ /\ end_of op first s e.
Proof. intros Hs Ho. by apply (balanced_opener first end_ s ltac:(lia) (proj1 Hst)). Qed.

Lemma end_unique s e e' : end_of op first s e -> end_of op first s e' -> e = e'.
Proof.
  intros He He'. pose proof (inside_before_end op first s e e' (proj1 He) He').
  pose proof (inside_before_end op first s e' e (proj1 He') He). lia.
Qed.

Lemma jump_scope_breakable lo k s :
  jump_scope op first lo k s -> first <= s < k /\ breakable lo (op s) = true.
Proof.
  induction 1 as [k s Hs Hb|k s t Hs _ _ [IH Hb]].
  - split; [|done]. by apply (inside_range op).
  - apply (inside_range op) in Hs. split; [lia|done].
Qed.

Lemma jump_scope_unique lo k s s' :
  jump_scope op first lo k s -> jump_scope op first lo k s' -> s = s'.
Proof.
  intros Hj. revert s'. induction Hj as [k s Hs Hb|k s t Hs Hb _ IH]; intros s' Hj'.
  - destruct Hj' as [k s' Hs' _|k s' t' Hs' Hb' _].
    + by eapply inside_unique.
    + assert (s' = s) as -> by (by eapply inside_unique). congruence.
  - destruct Hj' as [k s' Hs' Hb'|k s' t' Hs' _ Hj'].
    + assert (s' = s) as -> by (by eapply inside_unique). congruence.
    + assert (s' = s) as -> by (by eapply inside_unique). by apply IH.
Qed.

Lemma breakable_opener lo o : breakable lo o = true -> is_opener o = true.
Proof. unfold breakable. by destruct lo, o. Qed.

(** A scope has one ELSE. *)
Lemma else_unique s l l' :
  first <= s < end_ -> else_of op first s l -> else_of op first s l' -> l = l'.
Proof.
  intros Hs Hl Hl'. assert (Ho : is_opener (op s) = true) by apply Hl.
  destruct (opener_end s Hs Ho) as (e & He & Hend).
  assert (Hfirst_else : forall a b, else_of op first s a -> else_of op first s b -> ~ b < a).
  { intros a b Ha Hb Hlt. pose proof (inside_range _ _ _ _ (proj1 Ha)).
    pose proof (inside_before_end op first s a e (proj1 Ha) Hend).
    destruct (io_else _ _ _ (proj2 Hst a ltac:(lia)) (else_of_else _ _ _ _ Ha)) as (s' & Hs' & Huniq).
    assert (s' = s) as -> by (eapply (inside_unique op first); [apply Hs'|apply Ha]).
    by apply (Huniq b). }
  pose proof (Hfirst_else l l' Hl Hl'). pose proof (Hfirst_else l' l Hl' Hl). lia.
Qed.

(** The end of a loop is an ENDLOOP. *)
Lemma loop_end s e : end_of op first s e -> op s = USIL_OP_LOOP -> op e = USIL_OP_ENDLOOP.
Proof.
  intros (_ & Hc & Hr) Hs. rewrite Hs in Hr. destruct (op e); try done.
Qed.

Lemma closer_boundary o : is_closer o = true -> is_boundary o = true.
Proof. by destruct o. Qed.
Lemma label_boundary o : is_label o = true -> is_boundary o = true.
Proof. by destruct o. Qed.

(** A step goes to the instruction after a boundary, or to a boundary, or just
    on; in any case it stays in the range. *)
Lemma flow_step_target i t :
  first <= i < end_ -> flow_step i t ->
  first < t <= end_ /\
  (t = i + 1 \/ (t < end_ -> is_boundary (op t) = true \/ is_boundary (op (t - 1)) = true)).
Proof.
  intros Hi Hs.
  assert (Hin : forall s x, inside op first s x -> first <= s < x) by (intros; by apply (inside_range op)).
  assert (Hend : forall s e, end_of op first s e -> first <= s < end_ -> s < e < end_).
  { intros s e He Hs'. destruct (opener_end s Hs') as (e' & He' & Hend); [apply He|].
    rewrite (end_unique s e e' He Hend). split; [|done]. by apply Hin, Hend. }
  assert (Hafter : forall x, is_boundary (op x) = true -> is_boundary (op (x + 1 - 1)) = true)
    by (intros x; by replace (x + 1 - 1) with x by lia).
  destruct Hs as [Hf|l Hop Hl|e Hop _ He|s e Hop Hs He|l Hop Hl|e Hop _ He|s e Hop Hs He|s e Hop Hs He|s Hop Hs].
  - split; [lia|by left].
  - pose proof (Hin _ _ (proj1 Hl)). destruct (opener_end i Hi) as (e & He & Hend'); [by rewrite Hop|].
    pose proof (inside_before_end op first i l e (proj1 Hl) Hend').
    split; [lia|]. right. intros _. right. apply Hafter. by destruct Hl as (_ & _ & ->).
  - destruct (Hend _ _ He Hi). split; [lia|]. right. intros _. right. by apply Hafter, closer_boundary, He.
  - pose proof (Hin _ _ (proj1 Hs)). destruct (Hend _ _ He ltac:(lia)).
    split; [lia|]. right. intros _. right. by apply Hafter, closer_boundary, He.
  - pose proof (Hin _ _ (proj1 Hl)). destruct (opener_end i Hi) as (e & He & Hend'); [by rewrite Hop|].
    pose proof (inside_before_end op first i l e (proj1 Hl) Hend').
    split; [lia|]. right. intros _. left. by apply label_boundary, Hl.
  - destruct (Hend _ _ He Hi). split; [lia|]. right. intros _. right. by apply Hafter, closer_boundary, He.
  - destruct (jump_scope_breakable _ _ _ Hs) as [Hr _]. destruct (Hend _ _ He ltac:(lia)).
    split; [lia|]. right. intros _. right. by apply Hafter, closer_boundary, He.
  - destruct (jump_scope_breakable _ _ _ Hs) as [Hr _]. destruct (Hend _ _ He ltac:(lia)).
    split; [lia|]. right. intros _. left. by apply closer_boundary, He.
  - pose proof (Hin _ _ (proj1 Hs)). split; [lia|]. right. intros _. right. apply Hafter.
    destruct Hs as (_ & _ & Hr). rewrite Hop in Hr. by rewrite Hr.
Qed.
End structured.
End step.

(** The steps of an instruction of known opcode. *)
Ltac step_cases Hs Hop :=
  destruct Hs as [Hft|l Hso Hsl|e' Hso Hsn Hse|s' e' Hso Hss Hse|l Hso Hsl|e' Hso Hsn Hse
                 |s' e' Hso Hss Hse|s' e' Hso Hss Hse|s' Hso Hss];
  try (exfalso; rewrite Hop in Hso; clear -Hso; (done || by destruct Hso));
  try (exfalso; rewrite Hop in Hft; clear -Hft; done).
