(* ===== verification/CfgBlocks.v ===== *)
(** The first half of [build_control_flow_graph_range]: the leaders split the
    range of instructions into blocks, and every instruction knows its block. *)

From S2P Require Import Prelude CArray UnityCommon Heap Usil Cfg FlowGraph FlowStructure.

#[local] Set Warnings "-register-all".

Section blocks.
Context (program : USILProgram) (Hprog : program_ok program).
Context (first end_ : Z).

Abbreviation op := (op_of program).
Abbreviation count := (up_instruction_count program).

Hypothesis Hrange : 0 <= first < end_ /\ end_ <= count.

(** A block starts at the first instruction, at a boundary, and after one. *)
Definition starts_block (i : Z) : Prop :=
  i = first \/ is_boundary (op i) = true \/ (first < i /\ is_boundary (op (i - 1)) = true).

(** The starts of the blocks below [k], in order. *)
Record split_at (k : Z) (starts : list Z) : Prop := {
  sp_in i : i ∈ starts <-> first <= i < k /\ starts_block i;
  sp_sorted a b x y : znth starts a = Some x -> znth starts b = Some y -> a < b -> x < y;
}.

(** The last instruction of a block. *)
Definition block_end (starts : list Z) (b : Z) : Z := default end_ (znth starts (b + 1)) - 1.

(** A block as the split leaves it. *)
Record untouched_block (block : HLSLBasicBlock) : Prop := {
  fb_succ : bb_successors block = None;
  fb_pred : bb_predecessors block = None;
  fb_succ_count : bb_successor_count block = 0;
  fb_pred_count : bb_predecessor_count block = 0;
  fb_exit : bb_may_exit block = false;
}.

(** * Leaders *)

Lemma mark_leaders_spec :
  outcome (mark_leaders program first end_)
    (fun leader => zlength leader = count /\
       forall i, first <= i < end_ -> exists v, znth leader i = Some v /\ (v = true <-> starts_block i))
    (fun _ => False).
Proof.
  unfold mark_leaders. rewrite aput_ok by (rewrite zlength_filled; lia). mstep.
  eapply outcome_mono; [apply outcome_for with (F := fun _ => False) (I := fun k leader =>
     zlength leader = count /\ forall i v, znth leader i = Some v -> v = true <->
       i = first \/ (first <= i < k /\ is_boundary (op i) = true) \/
       (first < i <= k /\ i < end_ /\ is_boundary (op (i - 1)) = true))| |done].
  - rewrite zlength_zset, zlength_filled by lia. split; [done|]. intros i v. rewrite znth_zset.
    destruct (decide (first = i)) as [<-|Hne].
    + rewrite zlength_filled, decide_True by lia. intros [= <-]. split; [by left|done].
    + intros Hv. pose proof (znth_Some _ _ _ Hv) as Hr. rewrite zlength_filled in Hr by lia.
      rewrite znth_filled in Hv by done. injection Hv as <-. split; [done|].
      intros [->|[[? _]|[? _]]]; [done|lia|lia].
  - intros k leader Hk [Hl Hall]. unfold mark_leader.
    rewrite (opcode_at_ok program k) by (done || lia). mstep.
    destruct (is_boundary (op k)) eqn:Hb; cbn [negb].
    + rewrite aput_ok by lia. mstep.
      assert (Hset : forall i v, znth (zset leader k true) i = Some v -> v = true <->
                i = k \/ i = first \/ (first <= i < k /\ is_boundary (op i) = true) \/
                (first < i <= k /\ i < end_ /\ is_boundary (op (i - 1)) = true)).
      { intros i v. rewrite znth_zset. destruct (decide (k = i)) as [<-|Hne].
        - rewrite decide_True by lia. intros [= <-]. split; [by left|done].
        - intros Hv. rewrite (Hall i v Hv). split; [by right|]. intros [->|?]; done. }
      destruct (Z.ltb_spec (k + 1) end_) as [Hlt|Hge].
      * rewrite aput_ok by (rewrite zlength_zset; lia). cbn. rewrite !zlength_zset. split; [done|].
        intros i v. rewrite znth_zset, zlength_zset. destruct (decide (k + 1 = i)) as [<-|Hne].
        -- rewrite decide_True by lia. intros [= <-]. split; [|done]. intros _. right. right.
           replace (k + 1 - 1) with k by lia. split_and!; [lia|lia|lia|done].
        -- intros Hv. rewrite (Hset i v Hv). split.
           ++ intros [->|[->|[[? ?]|(? & ? & ?)]]]; [right; left|by left|right; left|right; right];
                split_and!; done || lia.
           ++ intros [->|[[? ?]|(? & ? & ?)]]; [by right; left| |].
              ** destruct (decide (i = k)) as [->|]; [by left|]. right. right. left. split; [lia|done].
              ** right. right. right. split_and!; [lia|lia|done|done].
      * cbn. rewrite zlength_zset. split; [done|]. intros i v Hv. rewrite (Hset i v Hv). split.
        -- intros [->|[->|[[? ?]|(? & ? & ?)]]]; [right; left|by left|right; left|right; right];
             split_and!; done || lia.
        -- intros [->|[[? ?]|(? & ? & ?)]]; [by right; left| |].
           ++ destruct (decide (i = k)) as [->|]; [by left|]. right. right. left. split; [lia|done].
           ++ right. right. right. split_and!; [lia|lia|done|done].
    + cbn. split; [done|]. intros i v Hv. rewrite (Hall i v Hv). split.
      * intros [->|[[? ?]|(? & ? & ?)]]; [by left|right; left|right; right]; split_and!; done || lia.
      * intros [->|[[? ?]|(? & ? & ?)]]; [by left|right; left|right; right].
        -- destruct (decide (i = k)) as [->|]; [congruence|]. split; [lia|done].
        -- destruct (decide (i = k + 1)) as [->|]; [|split_and!; [lia|lia|done|done]].
           replace (k + 1 - 1) with k in * by lia. congruence.
  - intros leader [Hl Hall]. split; [done|]. intros i Hi.
    destruct (znth_is_Some leader i) as [v Hv]; [lia|]. exists v. split; [done|].
    rewrite (Hall i v Hv). unfold starts_block. split.
    + intros [->|[[? ?]|(? & ? & ?)]]; [by left|by right; left|right; right]. split; [lia|done].
    + intros [->|[?|[? ?]]]; [by left|right; left|right; right]; split_and!; done || lia.
Qed.

(** * Splitting *)

Lemma split_start starts : split_at first starts -> starts = [].
Proof.
  intros Hs. destruct starts as [|x l]; [done|]. exfalso.
  assert (Hx : x ∈ x :: l) by left. apply (sp_in _ _ Hs) in Hx as [? _]. lia.
Qed.

Lemma split_empty : split_at first [].
Proof.
  split.
  - intros i. rewrite elem_of_nil. split; [done|]. intros [? _]. lia.
  - intros a b x y Hx. apply znth_Some in Hx. unfold zlength in Hx. cbn in Hx. lia.
Qed.

Lemma split_skip k starts : split_at k starts -> ~ starts_block k -> split_at (k + 1) starts.
Proof.
  intros [Hin Hso] Hk. split; [|done]. intros i. rewrite Hin. split; intros [Hr Hb]; (split; [|done]); [lia|].
  destruct (decide (i = k)) as [->|]; [done|lia].
Qed.

Lemma split_push k starts :
  first <= k -> split_at k starts -> starts_block k -> split_at (k + 1) (starts ++ [k]).
Proof.
  intros Hf [Hin Hso] Hk. split.
  - intros i. rewrite elem_of_app, list_elem_of_singleton, Hin. split.
    + intros [[Hr Hb]| ->]; (split; [lia|done]).
    + intros [Hr Hb]. destruct (decide (i = k)) as [->|]; [by right|]. left. split; [lia|done].
  - intros a b x y Hx Hy Hab. apply znth_snoc in Hx as [Hx|[-> ->]]; apply znth_snoc in Hy as [Hy|[-> ->]].
    + by eapply Hso.
    + assert (Hxs : x ∈ starts) by (apply znth_elem_of; eauto). apply Hin in Hxs as [? _]. lia.
    + apply znth_Some in Hy. lia.
    + lia.
Qed.

(** The blocks written so far; the last one has no end yet. *)
Definition blocks_hold (starts : list Z) (blocks : list HLSLBasicBlock) : Prop :=
  zlength blocks = count /\ forall b block, znth blocks b = Some block -> untouched_block block /\
    (forall x, znth starts b = Some x -> bb_first_instruction block = x) /\
    (forall y, znth starts (b + 1) = Some y -> bb_last_instruction block = y - 1).

Lemma split_length k starts : first <= k <= end_ -> split_at k starts -> zlength starts <= k - first.
Proof.
  intros Hk [Hin Hso]. assert (Hd : NoDup starts).
  { apply NoDup_alt. intros i j x Hi Hj.
    destruct (Nat.lt_trichotomy i j) as [Hlt|[|Hlt]]; [|done|]; exfalso.
    - pose proof (Hso (Z.of_nat i) (Z.of_nat j) x x). rewrite !znth_of_nat in *. specialize (H Hi Hj). lia.
    - pose proof (Hso (Z.of_nat j) (Z.of_nat i) x x). rewrite !znth_of_nat in *. specialize (H Hj Hi). lia. }
  assert (Hs : starts ⊆+ seqZ first (k - first)).
  { apply NoDup_submseteq; [done|]. intros x Hx. apply Hin in Hx as [? _]. apply elem_of_seqZ. lia. }
  apply submseteq_length in Hs. rewrite length_seqZ in Hs. unfold zlength. lia.
Qed.

Lemma open_block_spec leader cfg0 k starts blocks :
  first <= k < end_ -> (exists v, znth leader k = Some v /\ (v = true <-> starts_block k)) ->
  split_at k starts -> blocks_hold starts blocks ->
  outcome (open_block leader k
             (cfg0 <| cfg_blocks := Some blocks |> <| cfg_block_count := zlength starts |>))
    (fun cfg => exists starts' blocks', split_at (k + 1) starts' /\ blocks_hold starts' blocks' /\
       cfg = cfg0 <| cfg_blocks := Some blocks' |> <| cfg_block_count := zlength starts' |>)
    (fun _ => False).
Proof.
  intros Hk (v & Hv & Hvb) Hs [Hl Hb]. unfold open_block. rewrite (aget_ok _ _ _ Hv). mstep.
  destruct v; cbn [negb].
  2:{ cbn [outcome]. exists starts, blocks. split; [|split; done]. apply split_skip; [done|].
      intros Hsb. by apply Hvb in Hsb. }
  pose proof (split_length k starts ltac:(lia) Hs) as Hn. pose proof (zlength_nonneg starts).
  cbv zeta. unfold update_block. fields. cbn [ptr]. mstep.
  destruct (znth_is_Some blocks (zlength starts)) as [nb Hnb]; [lia|].
  rewrite (aupd_ok _ _ _ _ Hnb). mstep. fields.
  set (blocks1 := zset blocks (zlength starts) _).
  assert (Hb1 : forall b block, znth blocks1 b = Some block -> untouched_block block /\
     (forall x, znth (starts ++ [k]) b = Some x -> bb_first_instruction block = x) /\
     (forall y, znth starts (b + 1) = Some y -> bb_last_instruction block = y - 1)).
  { unfold blocks1. intros b block. rewrite znth_zset. destruct (decide (zlength starts = b)) as [<-|Hne].
    - rewrite decide_True by lia. intros [= <-]. destruct (Hb _ _ Hnb) as ([] & _ & Hlast).
      split; [by split|]. split; [|done]. intros x [Hx|[_ ->]]%znth_snoc; [|done].
      apply znth_Some in Hx. lia.
    - intros Hbk. destruct (Hb _ _ Hbk) as (Hf & Hfirst & Hlast). split; [done|]. split; [|done].
      intros x [Hx|[-> _]]%znth_snoc; [by apply Hfirst|done]. }
  assert (Hl1 : zlength blocks1 = count) by (unfold blocks1; by rewrite zlength_zset).
  assert (Hend : forall blocks2, zlength blocks2 = count ->
    (forall b block, znth blocks2 b = Some block -> untouched_block block /\
     (forall x, znth (starts ++ [k]) b = Some x -> bb_first_instruction block = x) /\
     (forall y, znth (starts ++ [k]) (b + 1) = Some y -> bb_last_instruction block = y - 1)) ->
    exists starts' blocks', split_at (k + 1) starts' /\ blocks_hold starts' blocks' /\
     cfg0 <| cfg_blocks := Some blocks2 |> <| cfg_block_count := 1 + zlength starts |> =
     cfg0 <| cfg_blocks := Some blocks' |> <| cfg_block_count := zlength starts' |>).
  { intros blocks2 Hl2 Hb2. exists (starts ++ [k]), blocks2.
    split; [apply split_push; [lia|done|by apply Hvb]|]. split; [done|].
    by rewrite zlength_snoc, Z.add_comm. }
  destruct (Z.ltb_spec 0 (zlength starts)) as [Hpos|Hzero].
  - destruct (znth_is_Some blocks1 (zlength starts - 1)) as [lb Hlb]; [lia|].
    fields. cbn [ptr]. mstep. rewrite (aupd_ok _ _ _ _ Hlb). mstep.
    apply (Hend (zset blocks1 (zlength starts - 1) _)); [by rewrite zlength_zset|].
    intros b block. rewrite znth_zset. destruct (decide (zlength starts - 1 = b)) as [<-|Hne].
    + rewrite decide_True by lia. intros [= <-]. destruct (Hb1 _ _ Hlb) as ([] & Hfirst & _).
      split; [by split|]. split; [exact Hfirst|]. intros y [Hy|[_ ->]]%znth_snoc; [|done].
      apply znth_Some in Hy. lia.
    + intros Hbk. destruct (Hb1 _ _ Hbk) as (Hf & Hfirst & Hlast). split; [done|]. split; [done|].
      intros y [Hy|[Hy _]]%znth_snoc; [by apply Hlast|lia].
  - apply (Hend blocks1); [done|]. intros b block Hbk.
    destruct (Hb1 _ _ Hbk) as (Hf & Hfirst & Hlast). split; [done|]. split; [done|].
    intros y [Hy|[Hy _]]%znth_snoc; [by apply Hlast|]. apply znth_Some in Hbk. lia.
Qed.

(** The blocks with both ends. *)
Definition split_blocks_hold (starts : list Z) (blocks : list HLSLBasicBlock) : Prop :=
  zlength blocks = count /\ forall b x, znth starts b = Some x -> exists block,
    znth blocks b = Some block /\ untouched_block block /\ bb_first_instruction block = x /\
    bb_last_instruction block = block_end starts b.

Lemma split_nonempty k starts : first < k -> split_at k starts -> znth starts 0 = Some first.
Proof.
  intros Hk [Hin Hso]. assert (Hf : first ∈ starts) by (apply Hin; split; [lia|by left]).
  apply znth_elem_of in Hf as [a Ha]. destruct (decide (a = 0)) as [->|Ha0]; [done|].
  pose proof (znth_Some _ _ _ Ha). destruct (znth_is_Some starts 0) as [x Hx]; [lia|].
  assert (Hxs : x ∈ starts) by (apply znth_elem_of; eauto). apply Hin in Hxs as [? _].
  pose proof (Hso 0 a x first Hx Ha). lia.
Qed.

Lemma split_blocks_spec leader cfg0 :
  (forall i, first <= i < end_ -> exists v, znth leader i = Some v /\ (v = true <-> starts_block i)) ->
  cfg_blocks cfg0 = Some (filled count zero_block) -> cfg_block_count cfg0 = 0 ->
  outcome (split_blocks leader first end_ cfg0)
    (fun cfg => exists starts blocks, split_at end_ starts /\ split_blocks_hold starts blocks /\
       cfg = cfg0 <| cfg_blocks := Some blocks |> <| cfg_block_count := zlength starts |>)
    (fun _ => False).
Proof.
  intros Hlead Hblocks Hcount. unfold split_blocks. apply outcome_bind.
  eapply outcome_mono; [apply outcome_for with (F := fun _ => False) (I := fun k cfg =>
    exists starts blocks, split_at k starts /\ blocks_hold starts blocks /\
      cfg = cfg0 <| cfg_blocks := Some blocks |> <| cfg_block_count := zlength starts |>)| |done].
  - exists [], (filled count zero_block). split; [apply split_empty|]. split.
    + split; [apply zlength_filled; lia|]. intros b block Hb. pose proof (znth_Some _ _ _ Hb) as Hr.
      rewrite zlength_filled in Hr by lia. rewrite znth_filled in Hb by done. injection Hb as <-.
      split; [by split|]. split; intros x Hx; apply znth_Some in Hx; unfold zlength in Hx; cbn in Hx; lia.
    + destruct cfg0. cbn in Hblocks, Hcount. subst. done.
  - intros k cfg Hk (starts & blocks & Hs & Hb & ->). apply open_block_spec; [lia|apply Hlead; lia|done|done].
  - replace (first + Z.of_nat (Z.to_nat (end_ - first))) with end_ by lia.
    intros cfg (starts & blocks & Hs & [Hl Hb] & ->).
    pose proof (split_nonempty end_ starts ltac:(lia) Hs) as H0.
    apply znth_Some in H0 as Hpos. unfold update_block. fields. cbn [ptr]. mstep.
    pose proof (split_length end_ starts ltac:(lia) Hs).
    destruct (znth_is_Some blocks (zlength starts - 1)) as [lb Hlb]; [lia|].
    rewrite (aupd_ok _ _ _ _ Hlb). mstep. cbn [outcome].
    exists starts, (zset blocks (zlength starts - 1) (lb <| bb_last_instruction := end_ - 1 |>)).
    split; [done|]. split; [|done]. split; [by rewrite zlength_zset|].
    intros b x Hx. pose proof (znth_Some _ _ _ Hx) as Hr. rewrite znth_zset.
    destruct (decide (zlength starts - 1 = b)) as [<-|Hne].
    + rewrite decide_True by lia. eexists. split; [done|]. destruct (Hb _ _ Hlb) as ([] & Hfirst & _).
      split; [by split|]. split; [by apply Hfirst|]. unfold block_end. fields.
      destruct (znth starts (zlength starts - 1 + 1)) eqn:Hy; [apply znth_Some in Hy; lia|done].
    + destruct (znth_is_Some blocks b) as [block Hblock]; [lia|].
      destruct (znth_is_Some starts (b + 1)) as [y Hy]; [lia|].
      destruct (Hb _ _ Hblock) as (Hf & Hfirst & Hlast). exists block.
      split_and!; [done|done|by apply Hfirst|]. unfold block_end. rewrite Hy. by apply Hlast.
Qed.

(** * Numbering *)

Section numbering.
Context (starts : list Z) (Hs : split_at end_ starts).

Lemma block_range b x : znth starts b = Some x -> first <= x <= block_end starts b /\ block_end starts b < end_.
Proof.
  intros Hx. assert (Hin : x ∈ starts) by (apply znth_elem_of; eauto).
  apply (sp_in _ _ Hs) in Hin as [Hr _]. unfold block_end.
  destruct (znth starts (b + 1)) as [y|] eqn:Hy; cbn; [|lia].
  pose proof (sp_sorted _ _ Hs b (b + 1) x y Hx Hy ltac:(lia)).
  assert (Hiny : y ∈ starts) by (apply znth_elem_of; eauto). apply (sp_in _ _ Hs) in Hiny as [? _]. lia.
Qed.

(** [i] is in block [b]. *)
Definition in_block (i b : Z) : Prop := exists x, znth starts b = Some x /\ x <= i <= block_end starts b.

Lemma in_block_unique i b b' : in_block i b -> in_block i b' -> b = b'.
Proof.
  assert (Hlt : forall b b', in_block i b -> in_block i b' -> ~ b < b').
  { intros a a' (x & Hx & Hi) (y & Hy & Hi') Haa.
    pose proof (znth_Some _ _ _ Hx). pose proof (znth_Some _ _ _ Hy).
    destruct (znth_is_Some starts (a + 1)) as [z Hz]; [lia|].
    unfold block_end in Hi. rewrite Hz in Hi. cbn in Hi.
    destruct (decide (a + 1 = a')) as [<-|]; [assert (y = z) by congruence; lia|].
    pose proof (sp_sorted _ _ Hs (a + 1) a' z y Hz Hy ltac:(lia)). lia. }
  intros Hb Hb'. pose proof (Hlt b b' Hb Hb'). pose proof (Hlt b' b Hb' Hb). lia.
Qed.

Lemma in_block_exists i : first <= i < end_ -> exists b, in_block i b.
Proof.
  intros Hi. assert (Hex : forall n : nat, first + Z.of_nat n < end_ -> exists b, in_block (first + Z.of_nat n) b).
  { induction n as [|n IH]; intros Hn.
    - exists 0. exists first. pose proof (split_nonempty end_ starts ltac:(lia) Hs) as H0.
      split; [done|]. pose proof (block_range _ _ H0). lia.
    - destruct IH as (b & x & Hx & Hr); [lia|].
      destruct (decide (first + Z.of_nat n = block_end starts b)) as [Heq|Hne].
      + exists (b + 1). unfold block_end in Heq. destruct (znth starts (b + 1)) as [y|] eqn:Hy.
        * cbn in Heq. exists y. split; [done|]. pose proof (block_range _ _ Hy). lia.
        * cbn in Heq. lia.
      + exists b, x. split; [done|]. lia. }
  destruct (Hex (Z.to_nat (i - first))) as [b Hb]; [lia|]. exists b.
  by replace (first + Z.of_nat (Z.to_nat (i - first))) with i in Hb by lia.
Qed.

Lemma start_in_block b x : znth starts b = Some x -> in_block x b.
Proof. intros Hx. exists x. split; [done|]. pose proof (block_range _ _ Hx). lia. Qed.

(** What [instruction_block] holds. *)
Definition numbers_hold (map : list Z) : Prop :=
  zlength map = count /\ forall i b, znth map i = Some b ->
    (in_block i b \/ (b = -1 /\ ~ first <= i < end_)).

Lemma numbers_hold_at map i : numbers_hold map -> first <= i < end_ ->
  exists b, znth map i = Some b /\ in_block i b.
Proof.
  intros [Hl Hm] Hi. destruct (znth_is_Some map i) as [b Hb]; [lia|]. exists b. split; [done|].
  destruct (Hm i b Hb) as [|[_ Hn]]; done.
Qed.

Lemma number_block_spec blocks b map :
  split_blocks_hold starts blocks -> 0 <= b < zlength starts -> zlength map = count ->
  (forall i v, znth map i = Some v -> (exists a, a < b /\ v = a /\ in_block i a) \/
     (v = -1 /\ forall a, a < b -> ~ in_block i a)) ->
  outcome (number_block blocks b map) (fun map' => zlength map' = count /\
    forall i v, znth map' i = Some v -> (exists a, a < b + 1 /\ v = a /\ in_block i a) \/
     (v = -1 /\ forall a, a < b + 1 -> ~ in_block i a)) (fun _ => False).
Proof.
  intros [_ Hb] Hbr Hl Hm. destruct (znth_is_Some starts b) as [x Hx]; [lia|].
  destruct (Hb b x Hx) as (block & Hblock & _ & Hfirst & Hlast). unfold number_block.
  rewrite (aget_ok _ _ _ Hblock). mstep. rewrite Hfirst, Hlast.
  pose proof (block_range b x Hx) as Hr.
  eapply outcome_mono; [apply outcome_for with (F := fun _ => False) (I := fun k map' =>
    zlength map' = count /\ forall i v, znth map' i = Some v ->
      if decide (x <= i < k) then v = b else znth map i = Some v)| |done].
  - split; [done|]. intros i v Hv. by rewrite decide_False by lia.
  - intros k map' Hk [Hl' Hm']. rewrite aput_ok by lia. cbn. rewrite zlength_zset. split; [done|].
    intros i v. rewrite znth_zset. destruct (decide (k = i)) as [<-|Hne].
    + rewrite decide_True by lia. intros [= <-]. by rewrite decide_True by lia.
    + intros Hv. specialize (Hm' i v Hv). repeat case_decide; try done; lia.
  - replace (x + Z.of_nat (Z.to_nat (block_end starts b + 1 - x))) with (block_end starts b + 1) by lia.
    intros map' [Hl' Hm']. split; [done|]. intros i v Hv. specialize (Hm' i v Hv).
    destruct (decide (x <= i < block_end starts b + 1)) as [Hi|Hi].
    + subst v. left. exists b. split_and!; [lia|done|]. exists x. split; [done|lia].
    + destruct (Hm i v Hm') as [(a & Ha & -> & Hia)|(-> & Hn)].
      * left. exists a. split_and!; [lia|done|done].
      * right. split; [done|]. intros a Ha. destruct (decide (a = b)) as [->|]; [|apply Hn; lia].
        intros (y & Hy & Hiy). assert (y = x) as -> by congruence. lia.
Qed.

Lemma number_blocks_spec cfg blocks :
  split_blocks_hold starts blocks -> cfg_blocks cfg = Some blocks ->
  cfg_block_count cfg = zlength starts -> cfg_instruction_block cfg = Some (filled count (-1)) ->
  outcome (number_blocks cfg)
    (fun cfg' => exists map, numbers_hold map /\ cfg' = cfg <| cfg_instruction_block := Some map |>)
    (fun _ => False).
Proof.
  intros Hb Hcb Hcn Hcm. unfold number_blocks. rewrite Hcb, Hcm, Hcn. cbn [ptr]. mstep.
  apply outcome_bind. eapply outcome_mono; [apply outcome_for with (F := fun _ => False)
    (I := fun b map => zlength map = count /\ forall i v, znth map i = Some v ->
       (exists a, a < b /\ v = a /\ in_block i a) \/ (v = -1 /\ forall a, a < b -> ~ in_block i a))| |done].
  - split; [apply zlength_filled; lia|]. intros i v Hv. pose proof (znth_Some _ _ _ Hv) as Hr.
    rewrite zlength_filled in Hr by lia. rewrite znth_filled in Hv by done. injection Hv as <-.
    right. split; [done|]. intros a Ha (x & Hx & _). apply znth_Some in Hx. lia.
  - intros b map Hbr [Hl Hm]. apply number_block_spec; [done|lia|done|done].
  - intros map [Hl Hm]. cbn [outcome mbind res_bind]. exists map. split; [|done]. split; [done|].
    intros i v Hv. destruct (Hm i v Hv) as [(a & _ & -> & Ha)|(-> & Hn)]; [by left|]. right.
    split; [done|]. intros Hi. destruct (in_block_exists i Hi) as [b Hbi]. apply (Hn b); [|done].
    destruct Hbi as (x & Hx & _). apply znth_Some in Hx. lia.
Qed.
End numbering.
End blocks.
