(* ===== verification/CfgEdges.v ===== *)
(** [add_edges] follows the step relation: the targets it hands to EDGE are
    exactly those of the last instruction of the block. *)

From S2P Require Import Prelude CArray UnityCommon Heap Usil Cfg FlowStructure FlowMatch FlowStep.

#[local] Set Warnings "-register-all".

Section edges.
Context (program : USILProgram) (Hprog : program_ok program).
Context (first end_ : Z).

Abbreviation op := (op_of program).
Abbreviation count := (up_instruction_count program).

Hypothesis Hrange : 0 <= first <= end_ /\ end_ <= count.

Context (flow : list HLSLInstructionFlow) (Hflow : flow_links program first end_ flow).
Hypothesis Hst : structured op first end_.

Lemma flow_at i : first <= i < end_ -> exists f, znth flow i = Some f /\ links op first end_ i f.
Proof.
  intros Hi. destruct (znth_is_Some flow i) as [f Hf]; [rewrite (fk_length _ _ _ _ Hflow); lia|].
  exists f. split; [done|]. by apply (fk_links _ _ _ _ Hflow).
Qed.

Abbreviation end_of_ := (end_of op first).
Abbreviation label_of_ := (label_of op first).
Abbreviation else_of_ := (else_of op first).

(** The end a link names. *)
Lemma link_end i f s e :
  first <= i < end_ -> links op first end_ i f -> (end_of_ i e \/ (else_of_ s i /\ end_of_ s e)) ->
  first <= e < end_ -> fl_end f = e.
Proof.
  intros Hi Hl He Her. destruct (ln_end _ _ _ _ _ Hl) as [[_ Hn]|[_ Hv]].
  - exfalso. apply (Hn e Her). destruct He as [He|[Hs He]]; [by left|right; by exists s].
  - assert (Hcase : forall t, else_of_ t i -> is_opener (op i) = false).
    { intros t (_ & _ & Hop). by rewrite Hop. }
    destruct Hv as [Hv|(t & Ht & Hv)], He as [He|[Hs He]].
    + by eapply end_unique.
    + destruct Hv as [(_ & Ho & _) _]. rewrite (Hcase s Hs) in Ho. done.
    + destruct He as [(_ & Ho & _) _]. rewrite (Hcase t Ht) in Ho. done.
    + assert (t = s) as -> by (eapply (inside_unique op first); [apply Ht|apply Hs]).
      by eapply end_unique.
Qed.

(** No first label, no label. *)
Lemma no_first_label s v : known first end_ (first_label op first s) v -> v < 0 ->
  forall x, x < end_ -> ~ label_of_ s x.
Proof.
  intros Hk Hv. assert (Hn := known_none first end_ _ v ltac:(lia) Hk Hv).
  enough (Hall : forall n : nat, forall x, x < end_ -> x - first < Z.of_nat n -> ~ label_of_ s x).
  { intros x Hx. apply (Hall (S (Z.to_nat (x - first)))); lia. }
  induction n as [|n IH]; intros x Hx Hxn Hl; pose proof (label_range _ _ _ _ Hl) as Hr; [lia|].
  apply (Hn x ltac:(lia)). split; [done|]. intros y Hy. apply IH; lia.
Qed.

Lemma no_next_label i s v :
  known first end_ (next_label op first i) v -> v < 0 -> label_of_ s i ->
  forall x, i < x < end_ -> ~ label_of_ s x.
Proof.
  intros Hk Hv Hi. assert (Hn := known_none first end_ _ v ltac:(lia) Hk Hv).
  pose proof (label_range _ _ _ _ Hi).
  enough (Hall : forall n : nat, forall x, i < x < end_ -> x - i < Z.of_nat n -> ~ label_of_ s x).
  { intros x Hx. apply (Hall (S (Z.to_nat (x - i)))); lia. }
  induction n as [|n IH]; intros x Hx Hxn Hl; [lia|].
  apply (Hn x ltac:(lia)). exists s. split_and!; [done|done|lia|]. intros y Hy. apply IH; lia.
Qed.

Lemma label_before_end s l e : label_of_ s l -> end_of_ s e -> l < e.
Proof.
  intros Hl He. pose proof (inside_before_end op first s l e (proj1 Hl) He).
  destruct (decide (l = e)) as [->|]; [|lia]. destruct Hl as (_ & _ & Hl), He as (_ & Hc & _).
  by destruct (op e).
Qed.

(** * The run *)

Section run.
Context (block last : Z) (Hlast : first <= last < end_).
Context (edge : Z -> HLSLControlFlowGraph * Z -> res unit (HLSLControlFlowGraph * Z)).
(** [I ts v st]: the targets [ts] have been added; [v] is the exit flag before them. *)
Context (I : list Z -> bool -> HLSLControlFlowGraph * Z -> Prop) (capacity : Z).
Context (F : unit -> Prop).

Hypothesis edge_ok : forall ts v t st,
  I ts v st -> flow_step op first last t -> zlength ts < capacity ->
  outcome (edge t st) (I (ts ++ [t]) v) F.
Hypothesis ambiguous_ok : forall cfg n, I [] false (cfg, n) ->
  outcome (update_block cfg block (fun b => b <| bb_has_ambiguous_flow := true |>))
    (fun cfg => I [] false (cfg, n)) F.
Hypothesis exit_ok : forall cfg n v, I [] false (cfg, n) ->
  outcome (update_block cfg block (fun b => b <| bb_may_exit := v |>)) (fun cfg => I [] v (cfg, n)) F.
Hypothesis capacity_ok : forall ls, NoDup ls -> (forall l, l ∈ ls -> label_of_ last l) ->
  zlength ls + 1 < capacity.

Lemma capacity_two : 1 < capacity.
Proof.
  pose proof (capacity_ok [] (NoDup_nil_2) (fun l Hl => False_ind _ (not_elem_of_nil _ Hl))) as Hc.
  unfold zlength in Hc. cbn in Hc. lia.
Qed.

(** All labels of the switch, in order. *)
Lemma labels_loop f st :
  znth flow last = Some f -> links op first end_ last f -> op last = USIL_OP_SWITCH ->
  I [] false st ->
  outcome (while (length flow) (fun st => 0 <=? fst st) (add_label_edge flow edge) (fl_first_case f, st))
    (fun '(_, st') => exists ls, I ls false st' /\ NoDup ls /\
       forall l, l ∈ ls <-> label_of_ last l) F.
Proof.
  intros Hf Hlf Hop HI. pose proof (fk_length _ _ _ _ Hflow) as Hlen.
  destruct (opener_end op first end_ Hst last Hlast) as (e & He & Hend); [by rewrite Hop|].
  eapply outcome_mono; [apply outcome_while with (F := F)
    (I := fun '(label, st') => exists ls, I ls false st' /\ NoDup ls /\
       (forall l, l ∈ ls -> label_of_ last l) /\
       ((label < 0 /\ forall l, label_of_ last l -> l ∈ ls) \/
        (first <= label < end_ /\ label_of_ last label /\
         forall y, label_of_ last y -> y < label <-> y ∈ ls)))
    (μ := fun '(label, _) => if 0 <=? label then Z.to_nat (count - label) else 0%nat)| |done].
  - exists []. split; [done|]. split; [constructor|]. split; [by intros l ?%not_elem_of_nil|].
    pose proof (ln_first _ _ _ _ _ Hlf) as Hk. destruct (decide (fl_first_case f < 0)) as [Hn|Hp].
    + left. split; [done|]. intros l Hl. exfalso. eapply no_first_label; [exact Hk|done| |exact Hl].
      pose proof (label_before_end last l e Hl Hend). lia.
    + destruct (known_nonneg first end_ _ _ ltac:(lia) Hk ltac:(lia)) as [Hr [Hl Hmin]]. right.
      split; [done|]. split; [done|]. intros y Hy. split; [|by intros ?%not_elem_of_nil].
      intros Hlt. by destruct (Hmin y Hlt).
  - unfold zlength in Hlen. zcase; lia.
  - intros [label st'] (ls & HI' & Hd & Hls & Hcase) Hc. cbn [fst] in Hc. apply Z.leb_le in Hc.
    destruct Hcase as [[? _]|(Hr & Hl & Hmin)]; [lia|].
    rewrite (proj2 (Z.leb_le 0 label)) by lia. split; [lia|].
    unfold add_label_edge. apply outcome_bind. eapply outcome_mono; [apply (edge_ok ls)| |done].
    + done.
    + by apply step_label.
    + pose proof (capacity_ok ls Hd Hls). lia.
    + intros st'' HI''. destruct (flow_at label Hr) as (fl & Hfl & Hll).
      rewrite (aget_ok _ _ _ Hfl). mstep. cbn [outcome].
      assert (Hnew : label ∉ ls) by (intros Hin; apply Hmin in Hin; [lia|done]).
      pose proof (ln_next _ _ _ _ _ Hll) as Hk.
      split.
      * exists (ls ++ [label]). split; [done|]. split.
        { apply list.NoDup_app. split_and!; [done| |apply NoDup_singleton].
          intros x Hx ->%list_elem_of_singleton. done. }
        split.
        { intros l [Hin|Hin]%elem_of_app; [by apply Hls|]. by apply list_elem_of_singleton in Hin as ->. }
        assert (Hsplit : forall y, label_of_ last y -> y ∈ ls ++ [label] <-> y <= label).
        { intros y Hy. rewrite elem_of_app, list_elem_of_singleton, <- (Hmin y Hy). lia. }
        destruct (decide (fl_next_case fl < 0)) as [Hn|Hp].
        -- left. split; [done|]. intros l Hll'. apply Hsplit; [done|].
           destruct (decide (l <= label)) as [|Hgt]; [done|]. exfalso.
           eapply no_next_label; [exact Hk|done|exact Hl| |exact Hll'].
           pose proof (label_before_end last l e Hll' Hend). lia.
        -- destruct (known_nonneg first end_ _ _ ltac:(lia) Hk ltac:(lia)) as [Hr' (s & Hs & Hsn & Hlt & Hbetween)].
           assert (s = last) as -> by (eapply (inside_unique op first); [apply Hs|apply Hl]).
           right. split; [done|]. split; [done|]. intros y Hy. rewrite (Hsplit y Hy).
           split; [|lia]. intros Hyl. destruct (decide (y <= label)) as [|Hgt]; [done|].
           exfalso. by apply (Hbetween y); [lia|].
      * zcase; [|lia].
        destruct (known_nonneg first end_ _ _ ltac:(lia) Hk ltac:(lia)) as [Hr' (s & _ & _ & Hlt & _)]. lia.
  - intros [label st'] [(ls & HI' & Hd & Hls & Hcase) Hc]. cbn [fst] in Hc. apply Z.leb_gt in Hc.
    exists ls. split; [done|]. split; [done|]. intros l. split; [apply Hls|].
    destruct Hcase as [[_ Hall]|[? _]]; [apply Hall|lia].
Qed.

(** What the targets of the whole block come to. *)
Definition edges_done (st : HLSLControlFlowGraph * Z) : Prop :=
  exists ts ls, I ts (leaves (op last)) st /\ (forall t, t ∈ ts <-> flow_step op first last t) /\
    NoDup ls /\ (forall l, l ∈ ls -> label_of_ last l) /\ zlength ts <= 2 + zlength ls.

Lemma few_edges ts st :
  I ts (leaves (op last)) st -> zlength ts <= 2 ->
  (forall t, t ∈ ts -> flow_step op first last t) -> (forall t, flow_step op first last t -> t ∈ ts) ->
  edges_done st.
Proof.
  intros HI Hl H1 H2. exists ts, []. split; [done|]. split; [intros t; split; auto|].
  split; [constructor|]. split; [by intros l ?%not_elem_of_nil|]. unfold zlength in *. cbn. lia.
Qed.

(** One edge more, after at most one. *)
Lemma edge_more ts v t st Q :
  I ts v st -> zlength ts <= 1 -> flow_step op first last t ->
  (forall st', I (ts ++ [t]) v st' -> Q st') -> outcome (edge t st) Q F.
Proof.
  intros HI Hl Hs HQ. pose proof capacity_two.
  eapply outcome_mono; [apply (edge_ok ts v t st HI Hs); lia|exact HQ|done].
Qed.

Lemma switch_edges cfg n f :
  znth flow last = Some f -> links op first end_ last f -> op last = USIL_OP_SWITCH ->
  I [] false (cfg, n) ->
  outcome ('(_, st) ← while (length flow) (fun st => 0 <=? fst st) (add_label_edge flow edge)
                 (fl_first_case f, (cfg, n));
           if negb (fl_has_default f) then edge (fl_end f + 1) st else Ret st) edges_done F.
Proof.
  intros Hf Hlf Hop HI. apply outcome_bind. eapply outcome_mono; [by apply labels_loop| |done].
  intros [x st] (ls & HI' & Hd & Hls). assert (Hlv : leaves (op last) = false) by (by rewrite Hop).
  destruct (opener_end op first end_ Hst last Hlast) as (e & He & Hend); [by rewrite Hop|].
  pose proof (inside_range op first last e (proj1 Hend)) as Her.
  assert (Hfe : fl_end f = e) by (eapply (link_end last f last e); [done|done|by left|lia]).
  assert (Hdef : fl_has_default f = true <-> exists l, label_of_ last l /\ op l = USIL_OP_DEFAULT).
  { rewrite (ln_default _ _ _ _ _ Hlf). split; [intros (l & _ & Hl); eauto|].
    intros (l & Hl & Hlo). exists l. pose proof (label_before_end last l e Hl Hend).
    split; [lia|done]. }
  destruct (fl_has_default f) eqn:Hhd; cbn [negb].
  - cbn [outcome]. exists ls, ls. rewrite Hlv. split; [done|]. split.
    + intros t. rewrite Hls. split; [intros Hl; by apply step_label|]. intros Hs.
      step_cases Hs Hop; [done|].
      destruct (proj1 Hdef eq_refl) as (l & Hl & Hlo). exfalso. by apply (Hsn l).
    + split; [done|]. split; [intros l; apply Hls|lia].
  - assert (Hno : forall l, label_of_ last l -> op l <> USIL_OP_DEFAULT).
    { intros l Hl Hlo. enough (false = true) by done. apply Hdef. eauto. }
    eapply outcome_mono; [apply (edge_ok ls false _ st HI')| |done].
    + rewrite Hfe. by apply step_no_default.
    + pose proof (capacity_ok ls Hd (fun l Hl => proj1 (Hls l) Hl)). lia.
    + intros st' HI''. exists (ls ++ [fl_end f + 1]), ls. rewrite Hlv, Hfe in *. split; [done|]. split.
      * intros t. rewrite elem_of_app, list_elem_of_singleton, Hls. split.
        -- intros [Hl| ->]; [by apply step_label|by apply step_no_default].
        -- intros Hs. step_cases Hs Hop; [by left|].
           right. f_equal. by eapply end_unique.
      * rewrite zlength_snoc. split; [done|]. split; [intros l; apply Hls|lia].
Qed.

Lemma if_edges cfg n f :
  znth flow last = Some f -> links op first end_ last f -> op last = USIL_OP_IF -> I [] false (cfg, n) ->
  outcome (st ← edge (last + 1) (cfg, n); f ← aget flow last;
           edge ((if 0 <=? fl_alternate f then fl_alternate f else fl_end f) + 1) st) edges_done F.
Proof.
  intros Hf Hlf Hop HI. assert (Hlv : leaves (op last) = false) by (by rewrite Hop).
  destruct (opener_end op first end_ Hst last Hlast) as (e & He & Hend); [by rewrite Hop|].
  pose proof (inside_range op first last e (proj1 Hend)) as Her.
  assert (Hfe : fl_end f = e) by (eapply (link_end last f last e); [done|done|by left|lia]).
  assert (Hnext : flow_step op first last (last + 1)) by (apply step_next; by rewrite Hop).
  assert (Helse : flow_step op first last
            ((if 0 <=? fl_alternate f then fl_alternate f else fl_end f) + 1) /\
          forall t, flow_step op first last t -> t = last + 1 \/
            t = (if 0 <=? fl_alternate f then fl_alternate f else fl_end f) + 1).
  { pose proof (ln_alternate _ _ _ _ _ Hlf) as Hk. destruct (Z.leb_spec 0 (fl_alternate f)) as [Ha|Ha].
    - destruct (known_nonneg first end_ _ _ ltac:(lia) Hk Ha) as [Hr Hel].
      split; [by apply step_if_else|]. intros t Hs.
      step_cases Hs Hop; [by left| |].
      + right. f_equal. by apply (else_unique op first end_ Hst last).
      + exfalso. by apply (Hsn _ Hel).
    - assert (Hno : forall l, ~ else_of_ last l).
      { intros l Hl. pose proof (inside_range _ _ _ _ (proj1 Hl)).
        apply (known_none first end_ _ _ ltac:(lia) Hk Ha l); [|done].
        pose proof (inside_before_end op first last l e (proj1 Hl) Hend). lia. }
      rewrite Hfe. split; [by apply step_if_end|]. intros t Hs.
      step_cases Hs Hop; [by left| |].
      + by destruct (Hno l).
      + right. f_equal. by eapply end_unique. }
  destruct Helse as [Helse Honly].
  apply outcome_bind. apply (edge_more [] false _ (cfg, n)); [done|done|done|]. intros st HI'.
  rewrite (aget_ok _ _ _ Hf). mstep. apply (edge_more _ false _ st _ HI'); [done|done|]. intros st' HI''.
  eapply few_edges; [by rewrite Hlv|done| |].
  - cbn [app]. intros t Ht. apply elem_of_cons in Ht as [->|Ht]; [done|].
    by apply list_elem_of_singleton in Ht as ->.
  - intros t Hs. destruct (Honly t Hs) as [->| ->]; [left|right; left].
Qed.

(** One target only. *)
Lemma one_edge v t st :
  v = leaves (op last) -> I [] v st -> flow_step op first last t ->
  (forall t', flow_step op first last t' -> t' = t) -> outcome (edge t st) edges_done F.
Proof.
  intros -> HI Hs Honly. apply (edge_more [] _ t st _ HI); [done|done|]. intros st' HI'.
  eapply few_edges; [exact HI'|done| |].
  - by intros t' ->%list_elem_of_singleton.
  - intros t' Ht'. rewrite (Honly t' Ht'). by left.
Qed.

Lemma else_edges st f :
  links op first end_ last f -> op last = USIL_OP_ELSE -> I [] false st ->
  outcome (edge (fl_end f + 1) st) edges_done F.
Proof.
  intros Hlf Hop HI.
  destruct (io_else _ _ _ (proj2 Hst last Hlast) Hop) as (s & Hs & _).
  pose proof (inside_range _ _ _ _ (proj1 Hs)) as Hsr.
  destruct (opener_end op first end_ Hst s ltac:(lia)) as (e & He & Hend); [apply Hs|].
  pose proof (inside_range _ _ _ _ (proj1 Hend)).
  pose proof (inside_before_end op first s last e (proj1 Hs) Hend).
  assert (Hfe : fl_end f = e) by (eapply (link_end last f s e); [done|done|by right|lia]).
  rewrite Hfe. apply (one_edge false); [by rewrite Hop|done|by eapply step_else|].
  intros t Ht. step_cases Ht Hop. f_equal.
  assert (s' = s) as -> by (eapply (inside_unique op first); [apply Hss|apply Hs]).
  by eapply end_unique.
Qed.

Lemma loop_edges st f :
  links op first end_ last f -> op last = USIL_OP_ENDLOOP -> I [] false st ->
  outcome (edge (fl_jump_scope f + 1) st) edges_done F.
Proof.
  intros Hlf Hop HI. assert (Hc : is_closer (op last) = true) by (by rewrite Hop).
  pose proof (ln_close _ _ _ _ _ Hlf ltac:(lia) Hc) as Hin.
  destruct (io_close _ _ _ (proj2 Hst last Hlast) Hc) as (s & Hs).
  assert (Heq : fl_jump_scope f = s) by (by eapply (inside_unique op first); [|apply Hs]).
  rewrite Heq. apply (one_edge false); [by rewrite Hop|done|by apply step_loop|].
  intros t Ht. step_cases Ht Hop. f_equal. eapply (inside_unique op first); [apply Hss|apply Hs].
Qed.

Lemma jump_edges cfg n f :
  znth flow last = Some f -> links op first end_ last f -> is_jump (op last) = true ->
  I [] false (cfg, n) ->
  outcome (st ← (if op_is (op last) USIL_OP_BREAKC || op_is (op last) USIL_OP_CONTINUEC
                 then edge (last + 1) (cfg, n) else Ret (cfg, n));
           f ← aget flow last; scope ← aget flow (fl_jump_scope f);
           edge (if is_continue (op last) then fl_end scope else fl_end scope + 1) st) edges_done F.
Proof.
  intros Hf Hlf Hj HI. pose proof (ln_jump _ _ _ _ _ Hlf ltac:(lia) Hj) as Hjs.
  set (s := fl_jump_scope f) in *. destruct (jump_scope_breakable _ _ _ _ _ Hjs) as [Hsr Hb].
  destruct (opener_end op first end_ Hst s ltac:(lia)) as (e & He & Hend);
    [by eapply breakable_opener|].
  pose proof (inside_range _ _ _ _ (proj1 Hend)) as Her.
  destruct (flow_at s ltac:(lia)) as (fs & Hfs & Hls).
  assert (Hfe : fl_end fs = e) by (eapply (link_end s fs s e); [lia|done|by left|lia]).
  set (t := if is_continue (op last) then e else e + 1).
  assert (Hlv : leaves (op last) = false) by (by destruct (op last)).
  assert (Ht : flow_step op first last t).
  { unfold t. destruct (is_continue (op last)) eqn:Hc.
    - by apply (step_continue op first last s).
    - apply (step_break op first last s); [|done|done]. by destruct (op last); try done; [left|right]. }
  set (two := op_is (op last) USIL_OP_BREAKC || op_is (op last) USIL_OP_CONTINUEC).
  assert (Htwo : two = falls_through (op last)) by (unfold two; by destruct (op last)).
  assert (Honly : forall t', flow_step op first last t' -> t' = t \/ (two = true /\ t' = last + 1)).
  { intros t' Ht'. rewrite Htwo.
    destruct Ht' as [Hft|l Hso Hsl|e' Hso Hsn Hse|s' e' Hso Hss Hse|l Hso Hsl|e' Hso Hsn Hse
                    |s' e' Hso Hss Hse|s' e' Hso Hss Hse|s' Hso Hss];
      try (exfalso; rewrite Hso in Hj; clear -Hj; done); [by right|left|left]; unfold t.
    - assert (Hc : is_continue (op last) = false) by (by destruct Hso as [-> | ->]).
      rewrite Hc in *. assert (s' = s) as -> by (by eapply jump_scope_unique).
      f_equal. by eapply end_unique.
    - rewrite Hso in *. assert (s' = s) as -> by (by eapply jump_scope_unique). by eapply end_unique. }
  assert (Hread : forall st', (f0 ← aget flow last; scope ← aget flow (fl_jump_scope f0);
     edge (if is_continue (op last) then fl_end scope else fl_end scope + 1) st') = edge t st').
  { intros st'. rewrite (aget_ok _ _ _ Hf). mstep. fold s. rewrite (aget_ok _ _ _ Hfs). mstep.
    by rewrite Hfe. }
  destruct two eqn:H2.
  - apply outcome_bind. apply (edge_more [] false (last + 1) (cfg, n)); [done|done| |].
    { apply step_next. congruence. }
    intros st HI'. rewrite Hread. apply (edge_more _ false t st _ HI'); [done|done|]. intros st' HI''.
    eapply few_edges; [by rewrite Hlv|done| |].
    + cbn [app]. intros t' Ht'. apply elem_of_cons in Ht' as [->|Ht']; [apply step_next; congruence|].
      by apply list_elem_of_singleton in Ht' as ->.
    + intros t' Ht'. destruct (Honly t' Ht') as [->|[_ ->]]; [right; left|left].
  - mstep. rewrite Hread. apply (one_edge false); [done|done|done|].
    intros t' Ht'. destruct (Honly t' Ht') as [->|[? _]]; done.
Qed.

Lemma add_edges_spec cfg n :
  I [] false (cfg, n) -> outcome (add_edges program flow block last edge (cfg, n)) edges_done F.
Proof.
  intros HI. unfold add_edges. rewrite (opcode_at_ok program last) by (done || lia). mstep.
  destruct (flow_at last Hlast) as (f & Hf & Hlf).
  destruct (op_is (op last) USIL_OP_RET) eqn:H1.
  { apply op_is_true in H1. apply outcome_bind. eapply outcome_mono; [by apply exit_ok| |done].
    intros cfg' HI'. eapply (few_edges []); [by rewrite H1|done|by intros t ?%not_elem_of_nil|].
    intros t Ht. step_cases Ht H1. }
  destruct (op_is (op last) USIL_OP_SWITCH) eqn:H2.
  { apply op_is_true in H2. apply outcome_bind. eapply outcome_mono; [by apply ambiguous_ok| |done].
    intros cfg' HI'. rewrite (aget_ok _ _ _ Hf). mstep. by apply switch_edges. }
  destruct (op_is (op last) USIL_OP_IF) eqn:H3; [apply op_is_true in H3; by apply (if_edges _ _ f)|].
  destruct (op_is (op last) USIL_OP_ELSE) eqn:H4.
  { apply op_is_true in H4. rewrite (aget_ok _ _ _ Hf). mstep. by apply else_edges. }
  destruct (is_jump (op last)) eqn:H5; [by apply (jump_edges _ _ f)|].
  destruct (op_is (op last) USIL_OP_ENDLOOP) eqn:H6.
  { apply op_is_true in H6. rewrite (aget_ok _ _ _ Hf). mstep. by apply loop_edges. }
  apply outcome_bind. eapply outcome_mono with (Q := fun cfg' => I [] false (cfg', n)) (F := F); [| |done].
  { destruct (is_label (op last) || _); [by apply ambiguous_ok|done]. }
  intros cfg' HI'. apply outcome_bind. eapply outcome_mono; [by apply exit_ok| |done].
  intros cfg'' HI''. unfold is_jump, is_continue in H5.
  rewrite !orb_false_iff in H5. destruct H5 as [[Hbr Hbrc] [Hco Hcoc]].
  apply op_is_false in H1, H2, H3, H4, H6, Hbr, Hbrc, Hco, Hcoc.
  apply (one_edge (op_is (op last) USIL_OP_DISCARD)).
  - unfold leaves. rewrite (proj2 (op_is_false _ USIL_OP_RET)) by done. done.
  - done.
  - apply step_next. unfold falls_through.
    rewrite !(proj2 (op_is_false _ _)) by done. done.
  - intros t Ht. destruct Ht as [Hft|l Hso Hsl|e' Hso Hsn Hse|s' e' Hso Hss Hse|l Hso Hsl|e' Hso Hsn Hse
                    |s' e' Hso Hss Hse|s' e' Hso Hss Hse|s' Hso Hss]; try done.
    + by destruct Hso.
    + unfold is_continue in Hso. apply orb_true_iff in Hso as [Hso|Hso]; by apply op_is_true in Hso.
Qed.
End run.
End edges.
