(* ===== verification/CfgConnect.v ===== *)
(** The edge loop of [build_control_flow_graph_range]: every block's successors
    are the blocks its last instruction steps to, and the shared edge storage
    never runs out. *)

From S2P Require Import Prelude CArray UnityCommon Heap Usil Cfg FlowGraph Postorder FlowStructure FlowMatch FlowStep CfgBlocks CfgEdges.

#[local] Set Warnings "-register-all".

(** * Rows of edges *)

(** How often [c] occurs in [l]. *)
Definition occ (c : Z) (l : list Z) : Z := zlength (base.filter (fun x => x = c) l).

(** Where the row of a block starts in the flat storage. *)
Definition offset (rows : list (list Z)) (b : Z) : Z := zlength (concat (take (Z.to_nat b) rows)).

Lemma occ_app c l l' : occ c (l ++ l') = occ c l + occ c l'.
Proof. unfold occ. by rewrite list.filter_app, zlength_app. Qed.

Lemma occ_cons c x l : occ c (x :: l) = (if decide (x = c) then 1 else 0) + occ c l.
Proof.
  unfold occ. destruct (decide (x = c)).
  - rewrite filter_cons_True by done. rewrite zlength_cons. lia.
  - by rewrite filter_cons_False.
Qed.

Lemma occ_nonneg c l : 0 <= occ c l.
Proof. apply zlength_nonneg. Qed.

Lemma occ_zero c l : c ∉ l -> occ c l = 0.
Proof.
  induction l as [|x l IH]; [done|]. rewrite not_elem_of_cons. intros [Hx Hl].
  rewrite occ_cons, IH by done. by rewrite decide_False by congruence.
Qed.

Lemma occ_nodup c l : NoDup l -> occ c l <= 1.
Proof.
  induction 1 as [|x l Hx _ IH]; [done|]. rewrite occ_cons. case_decide; [|lia].
  subst x. rewrite occ_zero by done. lia.
Qed.

Lemma occ_concat c rows : Forall NoDup rows -> occ c (concat rows) <= zlength rows.
Proof.
  induction 1 as [|row rows Hr _ IH]; [done|]. cbn [concat]. rewrite occ_app, zlength_cons.
  pose proof (occ_nodup c row Hr). lia.
Qed.

Lemma concat_snoc {A} (rows : list (list A)) row : concat (rows ++ [row]) = concat rows ++ row.
Proof. rewrite concat_app. cbn. by rewrite app_nil_r. Qed.

Lemma offset_snoc pre row b : 0 <= b <= zlength pre -> offset (pre ++ [row]) b = offset pre b.
Proof. intros Hb. unfold offset, zlength in *. rewrite take_app_le by lia. done. Qed.

Lemma offset_all rows : offset rows (zlength rows) = zlength (concat rows).
Proof. unfold offset, zlength. rewrite Nat2Z.id, take_ge by lia. done. Qed.

(** An element of a row in the flat list. *)
Lemma offset_row rows b row e x :
  znth rows b = Some row -> znth row e = Some x -> znth (concat rows) (offset rows b + e) = Some x.
Proof.
  intros Hb He. pose proof (znth_Some _ _ _ Hb) as Hr. pose proof (znth_Some _ _ _ He) as Her.
  rewrite znth_nonneg in Hb by lia.
  rewrite <- (take_drop_middle rows (Z.to_nat b) row Hb), concat_app. cbn [concat].
  assert (Ho : offset (take (Z.to_nat b) rows ++ row :: drop (S (Z.to_nat b)) rows) b =
               zlength (concat (take (Z.to_nat b) rows))).
  { unfold offset. rewrite take_app_le, take_take, Nat.min_id; [done|].
    rewrite length_take. apply lookup_lt_Some in Hb. lia. }
  rewrite Ho. set (l := concat (take _ _)). unfold zlength in *. rewrite znth_nonneg by lia.
  rewrite lookup_app_r by lia. rewrite lookup_app_l by lia. rewrite znth_nonneg in He by lia.
  replace (Z.to_nat _ - length l)%nat with (Z.to_nat e) by lia. done.
Qed.

Section connect.
Context `{U : UnityCommon} `{L : LibcMalloc}.
Context (program : USILProgram) (Hprog : program_ok program).
Context (first end_ : Z).

Abbreviation op := (op_of program).
Abbreviation count := (up_instruction_count program).

Hypothesis Hrange : 0 <= first < end_ /\ end_ <= count.
Hypothesis Hcount : count <= INT_MAX.

Context (starts : list Z) (Hs : split_at program first end_ starts).
Context (map : list Z) (Hmap : numbers_hold program first end_ starts map).
Context (flow : list HLSLInstructionFlow).

Abbreviation n := (zlength starts).
Abbreviation last_of := (block_end end_ starts).
Abbreviation in_block_ := (in_block end_ starts).

(** What the loop does not touch. *)
Record static (cfg : HLSLControlFlowGraph) : Prop := {
  sc_blocks : cfg_block_count cfg = n;
  sc_count : cfg_instruction_count cfg = count;
  sc_map : cfg_instruction_block cfg = Some map;
  sc_flow : cfg_instruction_flow cfg = Some flow;
  sc_pred : cfg_predecessor_storage cfg = None;
  sc_nesting : exists ns, cfg_nesting cfg = Some ns /\ zlength ns = n;
  sc_idom : cfg_idom cfg = None /\ cfg_df cfg = None /\ cfg_df_count cfg = None;
}.

(** A block when the rows of the first blocks are known. *)
Record block_connected (rows : list (list Z)) (exits : list bool) (b : Z)
    (block : HLSLBasicBlock) : Prop := {
  bc_first : znth starts b = Some (bb_first_instruction block);
  bc_last : bb_last_instruction block = last_of b;
  bc_preds : bb_predecessors block = None;
  bc_pred_count : bb_predecessor_count block = occ b (concat rows);
  bc_row row : znth rows b = Some row ->
    bb_successors block = Some (offset rows b) /\ bb_successor_count block = zlength row;
  bc_exit v : znth exits b = Some v -> bb_may_exit block = v;
  bc_later : zlength rows <= b ->
    bb_successors block = None /\ bb_successor_count block = 0 /\ bb_may_exit block = false;
}.

Definition blocks_connected rows exits blocks : Prop :=
  zlength blocks = count /\ forall b, 0 <= b < n -> exists block,
    znth blocks b = Some block /\ block_connected rows exits b block.

Record connected (rows : list (list Z)) (exits : list bool) (st : HLSLControlFlowGraph * Z) : Prop := {
  cn_static : static (fst st);
  cn_count : snd st = zlength (concat rows);
  cn_storage : exists cells, cfg_successor_storage (fst st) = Some cells /\
    zlength cells = count * 3 /\ wrote cells (concat rows);
  cn_nodup : Forall NoDup rows;
  cn_nodes c : c ∈ concat rows -> 0 <= c < n;
  cn_lengths : zlength exits = zlength rows /\ zlength rows <= n;
  cn_blocks : exists blocks, cfg_blocks (fst st) = Some blocks /\ blocks_connected rows exits blocks;
}.

Lemma n_le_count : 0 < n <= count.
Proof.
  pose proof (split_nonempty program first end_ starts ltac:(lia) Hs) as H0. apply znth_Some in H0.
  pose proof (split_length program first end_ end_ starts ltac:(lia) Hs). lia.
Qed.

(** * One edge *)

Section edge.
Context (pre : list (list Z)) (exits : list bool).
Hypothesis Hpre : zlength exits = zlength pre /\ zlength pre < n.

Abbreviation block := (zlength pre).

(** Changing one block of many. *)
Lemma blocks_change rows exits1 rows' exits' blocks i x :
  blocks_connected rows exits1 blocks -> 0 <= i < n ->
  block_connected rows' exits' i x ->
  (forall b y, 0 <= b < n -> b <> i -> block_connected rows exits1 b y -> block_connected rows' exits' b y) ->
  blocks_connected rows' exits' (zset blocks i x).
Proof.
  intros [Hl Hb] Hi Hx Hother. split; [by rewrite zlength_zset|]. intros b Hbr.
  rewrite znth_zset. pose proof n_le_count. destruct (decide (i = b)) as [<-|Hne].
  - rewrite decide_True by lia. eauto.
  - destruct (Hb b Hbr) as (y & Hy & Hyc). exists y. split; [done|]. by apply Hother; [|congruence|].
Qed.

(** An update of the current block that keeps its row. *)
Lemma update_current {E} row v v' st f :
  connected (pre ++ [row]) (exits ++ [v]) st ->
  (forall y, block_connected (pre ++ [row]) (exits ++ [v]) block y ->
     block_connected (pre ++ [row]) (exits ++ [v']) block (f y)) ->
  outcome (E:=E) (update_block (fst st) block f)
    (fun cfg => connected (pre ++ [row]) (exits ++ [v']) (cfg, snd st)) (fun _ => False).
Proof.
  destruct st as [cfg ec]. intros [Hst Hec Hsto Hnd Hno Hlen (blocks & Hcb & Hbl)] Hf.
  cbn [fst snd] in *. pose proof (zlength_nonneg pre).
  unfold update_block. rewrite Hcb. cbn [ptr]. mstep.
  destruct (proj2 Hbl block ltac:(lia)) as (b & Hb & Hbc). rewrite (aupd_ok _ _ _ _ Hb). mstep.
  cbn [outcome]. split; cbn [fst snd]; try done.
  - destruct Hst; by split.
  - by rewrite !zlength_snoc in *.
  - eexists. split; [reflexivity|]. eapply blocks_change; [exact Hbl|lia|by apply Hf|].
    intros a y Ha Hne []. split; try done.
    intros x [Hx|[Ha' _]]%znth_snoc; [|lia]. apply bc_exit0. by apply znth_app_l.
Qed.

Lemma exit_connected row v v' y :
  block_connected (pre ++ [row]) (exits ++ [v]) block y ->
  block_connected (pre ++ [row]) (exits ++ [v']) block (y <| bb_may_exit := v' |>).
Proof.
  intros []. split; try done.
  - intros x [Hx|[_ ->]]%znth_snoc; [apply znth_Some in Hx; lia|done].
  - rewrite zlength_snoc. lia.
Qed.

Lemma edge_exit_spec row v st :
  connected (pre ++ [row]) (exits ++ [v]) st ->
  outcome (add_successor (fst st) block end_ first end_ (snd st))
    (connected (pre ++ [row]) (exits ++ [true])) (fun _ => False).
Proof.
  intros HC. unfold add_successor. rewrite (sc_blocks _ (cn_static _ _ _ HC)).
  pose proof (zlength_nonneg pre).
  rewrite (proj2 (Z.ltb_ge block 0)), (proj2 (Z.leb_gt n block)) by lia. cbn [orb].
  rewrite Z.eqb_refl. apply outcome_bind.
  eapply outcome_mono; [apply (update_current row v true _ _ HC); apply exit_connected|done|done].
Qed.

Lemma has_successor_spec {E} cfg cells row blk c :
  cfg_successor_storage cfg = Some cells -> wrote cells (concat (pre ++ [row])) ->
  bb_successors blk = Some (zlength (concat pre)) -> bb_successor_count blk = zlength row ->
  exists v, has_successor (E:=E) cfg blk c = Ret v /\ (v = true <-> c ∈ row).
Proof.
  intros Hc Hw Hb Hn. unfold has_successor. rewrite Hn.
  destruct (any_index_array (E:=E) row (fun x => x = c)
    (fun item => successor ← successor_at cfg blk item; Ret (successor =? c))) as (v & Hrun & Hv).
  { intros i x Hx. unfold successor_at. rewrite Hc, Hb. cbn [ptr]. mstep.
    rewrite (cget_ok cells _ x).
    - mstep. eexists. split; [done|]. apply Z.eqb_eq.
    - apply Hw. rewrite concat_snoc. pose proof (znth_Some _ _ _ Hx).
      rewrite <- offset_all, <- (offset_snoc pre row), <- concat_snoc
        by (pose proof (zlength_nonneg pre); lia).
      eapply offset_row; [|exact Hx]. apply znth_snoc. by right. }
  exists v. split; [done|]. rewrite Hv. split; [intros (x & Hx & ->); done|eauto].
Qed.

(** A block once the current row has got the edge to [c]. *)
Lemma connected_more row v c a y y' :
  block_connected (pre ++ [row]) (exits ++ [v]) a y ->
  bb_first_instruction y' = bb_first_instruction y -> bb_last_instruction y' = bb_last_instruction y ->
  bb_predecessors y' = bb_predecessors y -> bb_successors y' = bb_successors y ->
  bb_may_exit y' = bb_may_exit y ->
  bb_predecessor_count y' = bb_predecessor_count y + (if decide (c = a) then 1 else 0) ->
  bb_successor_count y' = bb_successor_count y + (if decide (a = block) then 1 else 0) ->
  block_connected (pre ++ [row ++ [c]]) (exits ++ [v]) a y'.
Proof.
  intros [] E1 E2 E3 E4 E5 E6 E7. split; rewrite ?E1, ?E2, ?E3, ?E4, ?E5, ?E6, ?E7; try done.
  - rewrite bc_pred_count0. rewrite !concat_snoc, !occ_app, occ_cons. unfold occ at 5. cbn.
    unfold zlength at 1. cbn. lia.
  - intros r Hr. pose proof (znth_Some _ _ _ Hr) as Hra. rewrite zlength_snoc in Hra.
    rewrite offset_snoc by lia. apply znth_snoc in Hr as [Hr|[-> ->]].
    + pose proof (znth_Some _ _ _ Hr). destruct (bc_row0 r) as [Hsu Hn]; [by apply znth_app_l|].
      rewrite offset_snoc in Hsu by lia. rewrite decide_False by lia. split; [done|lia].
    + destruct (bc_row0 row) as [Hsu Hn]; [apply znth_snoc; by right|].
      rewrite offset_snoc in Hsu by lia. rewrite decide_True by done. rewrite zlength_snoc.
      split; [done|lia].
  - rewrite zlength_snoc in *. intros Ha. rewrite decide_False by lia.
    destruct (bc_later0 Ha) as (? & Hn & ?). split_and!; [done|lia|done].
Qed.

(** What one more edge in the current row does to the other blocks. *)
Lemma edge_block_spec row v st t c :
  connected (pre ++ [row]) (exits ++ [v]) st -> first <= t < end_ -> in_block_ t c ->
  zlength (concat pre) + zlength row < count * 3 ->
  outcome (add_successor (fst st) block t first end_ (snd st))
    (connected (pre ++ [if decide (c ∈ row) then row else row ++ [c]]) (exits ++ [v])) (fun _ => False).
Proof.
  destruct st as [cfg ec]. intros HC Ht Htc Hcap. pose proof HC as Hsame.
  destruct HC as [Hst Hec (cells & Hcc & Hcl & Hw) Hnd Hno Hlen (blocks & Hcb & Hbl)].
  cbn [fst snd] in *. unfold add_successor. rewrite (sc_blocks _ Hst).
  pose proof (zlength_nonneg pre) as Hp0. pose proof n_le_count as Hnc.
  rewrite (proj2 (Z.ltb_ge block 0)), (proj2 (Z.leb_gt n block)) by lia. cbn [orb].
  rewrite (proj2 (Z.eqb_neq t end_)) by lia.
  rewrite (proj2 (Z.ltb_ge t first)), (proj2 (Z.leb_gt end_ t)) by lia. cbn [orb].
  rewrite (sc_map _ Hst). cbn [ptr]. mstep.
  destruct (numbers_hold_at program first end_ Hrange starts map t Hmap Ht) as (c' & Hc' & Htc').
  assert (c' = c) as -> by (by eapply (in_block_unique program first end_ starts Hs)).
  rewrite (aget_ok _ _ _ Hc'). mstep.
  assert (Hcn : 0 <= c < n) by (destruct Htc as (x & Hx & _); by apply znth_Some in Hx).
  rewrite (proj2 (Z.ltb_ge c 0)), (proj2 (Z.leb_gt n c)) by lia. cbn [orb].
  unfold block_at. rewrite Hcb. cbn [ptr]. mstep.
  destruct (proj2 Hbl block ltac:(lia)) as (b & Hb & Hbc). rewrite (aget_ok _ _ _ Hb). mstep.
  destruct (bc_row _ _ _ _ Hbc row) as [Hbs Hbn]; [apply znth_snoc; by right|].
  rewrite offset_snoc, offset_all in Hbs by lia.
  destruct (has_successor_spec (E:=unit) cfg cells row b c Hcc Hw Hbs Hbn) as (known & -> & Hknown).
  mstep. destruct known.
  { rewrite decide_True by (by apply Hknown). exact Hsame. }
  assert (Hnew : c ∉ row) by (rewrite <- Hknown; done).
  rewrite (decide_False (P := c ∈ row)) by done.
  destruct (proj2 Hbl c ltac:(lia)) as (target & Htg & Htgc). rewrite (aget_ok _ _ _ Htg). mstep.
  apply Forall_app in Hnd as [Hndp Hndr]. apply list.Forall_cons in Hndr as [Hndr _].
  assert (Hrn : forall x, x ∈ row -> 0 <= x < n).
  { intros x Hx. apply Hno. rewrite concat_snoc. apply elem_of_app. by right. }
  assert (Hrow : zlength (row ++ [c]) <= n).
  { apply zlength_NoDup_le; [lia| |].
    - apply list.NoDup_app. split_and!; [done| |apply NoDup_singleton].
      intros x Hx ->%list_elem_of_singleton. done.
    - intros x [Hx|Hx]%elem_of_app; [by apply Hrn|]. by apply list_elem_of_singleton in Hx as ->. }
  rewrite zlength_snoc in Hrow.
  assert (Hocc : occ c (concat (pre ++ [row])) < n).
  { rewrite concat_snoc, occ_app, (occ_zero c row) by done. pose proof (occ_concat c pre Hndp). lia. }
  unfold INT_MAX in *. rewrite (sc_count _ Hst), Hec, concat_snoc, zlength_app.
  pose proof (zlength_nonneg (concat pre)). pose proof (zlength_nonneg row).
  rewrite (u64_small (count * 3)) by lia.
  rewrite (bc_pred_count _ _ _ _ Htgc), Hbn.
  rewrite (proj2 (Z.leb_gt _ _)), !(proj2 (Z.eqb_neq _ _)) by lia. cbn [orb].
  rewrite Hcc, Hbs. cbn [ptr]. mstep. unfold cput. rewrite aput_ok by lia. mstep.
  unfold update_block. fields. rewrite Hcb. cbn [ptr]. mstep. rewrite (aupd_ok _ _ _ _ Hb). mstep.
  set (b1 := b <| bb_successor_count ::= Z.add 1 |>).
  assert (Htg1 : exists target1, znth (zset blocks block b1) c = Some target1 /\
     if decide (c = block) then target1 = b1 else target1 = target).
  { rewrite znth_zset. destruct (decide (block = c)) as [->|Hne].
    - rewrite (decide_True (P := 0 <= c < zlength blocks)) by (rewrite (proj1 Hbl); lia).
      exists b1. by rewrite decide_True.
    - exists target. by rewrite decide_False by congruence. }
  destruct Htg1 as (target1 & Htg1 & Htgcase).
  fields. cbn [ptr]. mstep. rewrite (aupd_ok _ _ _ _ Htg1). mstep. cbn [outcome].
  split; cbn [fst snd].
  - destruct Hst; by split.
  - rewrite concat_snoc, !zlength_app. change (zlength [c]) with 1.
    rewrite u64_small; lia.
  - eexists. split; [reflexivity|]. rewrite zlength_zset. split; [done|].
    rewrite concat_snoc in Hw. destruct (wrote_push _ _ c Hw) as [Hw'|Hw'];
      [|rewrite zlength_app in Hw'; lia].
    rewrite concat_snoc, app_assoc. rewrite zlength_app in Hw'. exact Hw'.
  - apply Forall_app. split; [done|]. constructor; [|constructor]. apply list.NoDup_app.
    split_and!; [done| |apply NoDup_singleton]. intros x Hx ->%list_elem_of_singleton. done.
  - intros x. rewrite concat_snoc, app_assoc, elem_of_app, list_elem_of_singleton.
    rewrite concat_snoc in Hno. intros [Hx| ->]; [by apply Hno|done].
  - by rewrite !zlength_snoc in *.
  - eexists. split; [reflexivity|]. split; [rewrite !zlength_zset; apply Hbl|]. intros a Ha.
    destruct (proj2 Hbl a Ha) as (y & Hy & Hyc).
    assert (Hlen' : zlength blocks = count) by apply Hbl.
    rewrite znth_zset, zlength_zset. destruct (decide (c = a)) as [<-|Hca].
    + rewrite decide_True by lia. eexists. split; [done|].
      assert (y = target) as -> by congruence.
      apply (connected_more row v c c target); try done;
        destruct (decide (c = block)) as [Hcb'|Hcb']; subst target1; unfold b1; fields; try done;
        rewrite ?decide_True by done; try lia;
        try (assert (b = target) as -> by congruence); try done; lia.
    + rewrite znth_zset. destruct (decide (block = a)) as [<-|Hba].
      * rewrite decide_True by lia. exists b1. split; [done|]. assert (y = b) as -> by congruence.
        apply (connected_more row v c block b); try done; unfold b1; fields;
          rewrite ?decide_True, ?decide_False by done; lia.
      * exists y. split; [done|].
        apply (connected_more row v c a y); try done; rewrite decide_False by congruence; lia.
Qed.
End edge.

(** * One block *)

Context (Hflow : flow_links program first end_ flow) (Hst : structured op first end_).

Lemma last_range b : 0 <= b < n -> first <= last_of b < end_.
Proof.
  intros Hb. destruct (znth_is_Some starts b Hb) as [x Hx].
  pose proof (block_range program first end_ starts Hs b x Hx). lia.
Qed.

Lemma nest_block_spec rows exits cfg ec b parent :
  connected rows exits (cfg, ec) -> 0 <= b < n -> -1 <= parent < count ->
  outcome (nest_block program cfg b parent)
    (fun cfg' => connected rows exits (cfg', ec)) (fun _ => False).
Proof.
  intros HC Hb Hp. pose proof (cn_static _ _ _ HC) as Hsc. cbn [fst] in Hsc.
  destruct (sc_nesting _ Hsc) as (ns & Hns & Hnl). unfold nest_block.
  rewrite Hns, (sc_map _ Hsc). cbn [ptr]. mstep.
  assert (Hset : forall ns', zlength ns' = n ->
            connected rows exits (cfg <| cfg_nesting := Some ns' |>, ec)).
  { intros ns' Hl'. destruct HC. split; try done. destruct cn_static0. split; try done. eauto. }
  destruct (znth_is_Some ns b) as [nb Hnb]; [lia|].
  destruct (Z.leb_spec 0 parent) as [Hp0|Hp0].
  - destruct (znth_is_Some map parent) as [pb Hpb]; [rewrite (proj1 Hmap); lia|].
    rewrite (aget_ok _ _ _ Hpb). mstep. rewrite (aupd_ok _ _ _ _ Hnb). mstep.
    rewrite (opcode_at_ok program parent) by (done || lia). mstep.
    assert (Hnb' : znth (zset ns b (nb <| bn_parent_block := pb |>)) b = Some (nb <| bn_parent_block := pb |>))
      by (apply znth_zset_eq; lia).
    rewrite (aupd_ok _ _ _ _ Hnb'). mstep. cbn [outcome]. apply Hset. by rewrite !zlength_zset.
  - mstep. rewrite (aupd_ok _ _ _ _ Hnb). mstep. cbn [outcome]. apply Hset. by rewrite zlength_zset.
Qed.

(** A new row. *)
Lemma open_row {E} rows exits cfg ec :
  connected rows exits (cfg, ec) -> zlength rows < n ->
  outcome (E:=E) (update_block cfg (zlength rows) (fun b => b <| bb_successors := Some ec |>))
    (fun cfg' => connected (rows ++ [[]]) (exits ++ [false]) (cfg', ec)) (fun _ => False).
Proof.
  intros [Hsc Hec Hsto Hnd Hno Hlen (blocks & Hcb & Hbl)] Hlt. cbn [fst snd] in *.
  pose proof (zlength_nonneg rows). unfold update_block. rewrite Hcb. cbn [ptr]. mstep.
  destruct (proj2 Hbl (zlength rows) ltac:(lia)) as (b & Hb & Hbc).
  rewrite (aupd_ok _ _ _ _ Hb). mstep. cbn [outcome].
  assert (Hcc : concat (rows ++ [[]]) = concat rows) by (rewrite concat_snoc; apply app_nil_r).
  assert (Hother : forall a y, 0 <= a < n -> a <> zlength rows ->
     block_connected rows exits a y -> block_connected (rows ++ [[]]) (exits ++ [false]) a y).
  { intros a y Ha Hne []. split; rewrite ?Hcc; try done.
    - intros r Hr. apply znth_snoc in Hr as [Hr|[? _]]; [|done]. pose proof (znth_Some _ _ _ Hr).
      rewrite offset_snoc by lia. by apply bc_row0.
    - intros v [Hv|[? _]]%znth_snoc; [by apply bc_exit0|lia].
    - rewrite zlength_snoc. intros Ha'. apply bc_later0. lia. }
  split; cbn [fst snd]; rewrite ?Hcc; try done.
  - destruct Hsc; by split.
  - apply Forall_app. split; [done|]. constructor; [constructor|constructor].
  - rewrite !zlength_snoc. lia.
  - eexists. split; [reflexivity|]. eapply blocks_change; [exact Hbl|lia| |exact Hother].
    destruct Hbc. destruct bc_later0 as (_ & Hn0 & He0); [lia|]. split; rewrite ?Hcc; try done.
    + intros r Hr. apply znth_snoc in Hr as [Hr|[_ ->]]; [apply znth_Some in Hr; lia|].
      rewrite offset_snoc, offset_all by lia. by rewrite Hec.
    + intros v [Hv|[_ ->]]%znth_snoc; [apply znth_Some in Hv; lia|done].
    + rewrite zlength_snoc. lia.
Qed.

(** What a finished row holds: the blocks its last instruction steps to. *)
Definition row_steps (b : Z) (row : list Z) (v : bool) : Prop :=
  (forall c, c ∈ row <-> exists t, flow_step op first (last_of b) t /\ t < end_ /\ in_block_ t c) /\
  (v = true <-> leaves (op (last_of b)) = true \/ flow_step op first (last_of b) end_).

(** The state while the edges of a block are added. *)
Definition row_state (pre : list (list Z)) (exits : list bool) (ts : list Z) (v : bool)
    (st : HLSLControlFlowGraph * Z) : Prop :=
  exists row ex, connected (pre ++ [row]) (exits ++ [ex]) st /\
    (forall c, c ∈ row <-> exists t, t ∈ ts /\ t < end_ /\ in_block_ t c) /\
    (ex = true <-> v = true \/ end_ ∈ ts) /\ zlength row <= zlength ts.

Lemma row_state_edge pre exits ts v t st :
  zlength exits = zlength pre /\ zlength pre < n ->
  row_state pre exits ts v st -> flow_step op first (last_of (zlength pre)) t ->
  zlength ts < count * 3 - zlength (concat pre) ->
  outcome (let '(cfg, ec) := st in add_successor cfg (zlength pre) t first end_ ec)
    (row_state pre exits (ts ++ [t]) v) (fun _ => False).
Proof.
  intros Hpre (row & ex & HC & Hrow & Hex & Hl) Hstep Hcap. destruct st as [cfg ec].
  pose proof (zlength_nonneg pre). pose proof (last_range (zlength pre) ltac:(lia)) as Hlr.
  destruct (flow_step_target op first end_ Hst _ t Hlr Hstep) as [Ht _].
  assert (Hin : forall (Q : Z -> Prop), (exists x, x ∈ ts ++ [t] /\ Q x) <-> (exists x, x ∈ ts /\ Q x) \/ Q t).
  { intros Q. split.
    - intros (x & [Hx|Hx]%elem_of_app & HQ); [left; eauto|]. apply list_elem_of_singleton in Hx as ->. by right.
    - intros [(x & Hx & HQ)|HQ]; [exists x|exists t]; rewrite elem_of_app; (split; [|done]);
        [by left|right; by left]. }
  destruct (decide (t = end_)) as [->|Hne].
  - eapply outcome_mono; [by apply (edge_exit_spec pre exits Hpre row ex (cfg, ec))| |done].
    intros st' HC'. exists row, true. split; [done|]. split.
    + intros c. rewrite Hrow, (Hin (fun x => x < end_ /\ in_block_ x c)). split; [by left|].
      intros [?|[? _]]; [done|lia].
    + rewrite zlength_snoc. split; [|lia]. split; [|done]. intros _. right. apply elem_of_app. right. by left.
  - destruct (in_block_exists program first end_ Hrange starts Hs t ltac:(lia)) as [c Htc].
    eapply outcome_mono; [apply (edge_block_spec pre exits Hpre row ex (cfg, ec) t c);
      [done|lia|done|lia]| |done].
    intros st' HC'. eexists _, ex. split; [exact HC'|]. split.
    + intros x. rewrite (Hin (fun y => y < end_ /\ in_block_ y x)), <- Hrow.
      assert (Hxc : (t < end_ /\ in_block_ t x) <-> x = c).
      { split; [|intros ->; split; [lia|done]]. intros [_ Hx].
        by eapply (in_block_unique program first end_ starts Hs). }
      rewrite Hxc. case_decide as Hd; [split; [by left|intros [?| ->]; done]|].
      by rewrite elem_of_app, list_elem_of_singleton.
    + rewrite elem_of_app, list_elem_of_singleton, zlength_snoc. split.
      * rewrite Hex. split; [intros [?|?]; auto|]. intros [?|[?|Heq]]; [by left|by right|]. by destruct Hne.
      * case_decide; [lia|]. rewrite zlength_snoc. lia.
Qed.

(** Labels used up by the switches before block [b]. *)
Definition labels_used (b : Z) (used : list Z) : Prop :=
  NoDup used /\ forall t, t ∈ used -> 0 <= t < count /\ exists i, 0 <= i < b /\ label_of op first (last_of i) t.

Record loop_inv (b : Z) (st : HLSLControlFlowGraph * Z) : Prop := {
  lp_state : exists rows exits, connected rows exits st /\ zlength rows = b /\
    (forall i row v, znth rows i = Some row -> znth exits i = Some v -> row_steps i row v) /\
    exists used, labels_used b used /\ zlength (concat rows) <= 2 * b + zlength used;
}.

Lemma last_injective b b' : 0 <= b < n -> 0 <= b' < n -> last_of b = last_of b' -> b = b'.
Proof.
  intros Hb Hb' Heq. destruct (znth_is_Some starts b Hb) as [x Hx].
  destruct (znth_is_Some starts b' Hb') as [y Hy].
  pose proof (block_range program first end_ starts Hs b x Hx).
  pose proof (block_range program first end_ starts Hs b' y Hy).
  eapply (in_block_unique program first end_ starts Hs (last_of b)).
  - exists x. split; [done|lia].
  - exists y. split; [done|lia].
Qed.

Lemma connect_block_spec b st :
  0 <= b < n -> loop_inv b st ->
  outcome (connect_block program flow first end_ b st) (loop_inv (b + 1)) (fun _ => False).
Proof.
  intros Hb [(rows & exits & HC & Hrb & Hsteps & used & [Hud Hu] & Hsize)].
  destruct st as [cfg ec]. pose proof (cn_blocks _ _ _ HC) as (blocks & Hcb & Hbl). cbn [fst] in Hcb.
  destruct (proj2 Hbl b Hb) as (blk & Hblk & Hbc). pose proof n_le_count as Hnc.
  unfold connect_block, block_at. rewrite Hcb. cbn [ptr]. mstep. rewrite (aget_ok _ _ _ Hblk). mstep.
  pose proof (block_range program first end_ starts Hs b _ (bc_first _ _ _ _ Hbc)) as Hfr.
  destruct (znth_is_Some flow (bb_first_instruction blk)) as [f Hf].
  { rewrite (fk_length _ _ _ _ Hflow). lia. }
  rewrite (aget_ok _ _ _ Hf). mstep. apply outcome_bind.
  eapply outcome_mono; [apply (nest_block_spec rows exits cfg ec b); [done|done|]| |done].
  { by apply (fk_parent _ _ _ _ Hflow (bb_first_instruction blk)). }
  intros cfg1 HC1. apply outcome_bind. subst b.
  eapply outcome_mono; [apply (open_row rows exits cfg1 ec HC1); lia| |done]. intros cfg2 HC2.
  rewrite (bc_last _ _ _ _ Hbc).
  pose proof (cn_lengths _ _ _ HC) as [Hel _]. assert (Hpre : zlength exits = zlength rows /\ zlength rows < n) by lia.
  pose proof (last_range _ Hb) as Hlr.
  assert (Hdisj : forall ls, NoDup ls -> (forall l, l ∈ ls -> label_of op first (last_of (zlength rows)) l) ->
            labels_used (zlength rows + 1) (used ++ ls)).
  { intros ls Hld Hls. split.
    - apply list.NoDup_app. split_and!; [done| |done]. intros t Ht Htl.
      destruct (Hu t Ht) as (_ & i & Hi & Hlab). pose proof (Hls t Htl) as Hlab'.
      assert (Heq : last_of i = last_of (zlength rows)).
      { eapply (inside_unique op first); [apply Hlab|apply Hlab']. }
      apply last_injective in Heq; lia.
    - intros t [Ht|Ht]%elem_of_app.
      + destruct (Hu t Ht) as (? & i & Hi & ?). split; [done|]. exists i. split; [lia|done].
      + pose proof (Hls t Ht) as Hlab. pose proof (label_range _ _ _ _ Hlab).
        destruct (opener_end op first end_ Hst (last_of (zlength rows)) Hlr) as (e & He & Hend).
        { apply Hlab. }
        pose proof (inside_before_end op first _ t e (proj1 Hlab) Hend).
        split; [lia|]. exists (zlength rows). split; [lia|done]. }
  assert (Hused : forall ls, NoDup ls -> (forall l, l ∈ ls -> label_of op first (last_of (zlength rows)) l) ->
            zlength used + zlength ls <= count).
  { intros ls Hld Hls. destruct (Hdisj ls Hld Hls) as [Hd Hr]. rewrite <- zlength_app.
    apply zlength_NoDup_le; [lia|done|]. intros x Hx. by apply Hr. }
  pose proof (zlength_nonneg rows) as Hr0.
  eapply outcome_mono; [apply (add_edges_spec program Hprog first end_ ltac:(lia) flow Hflow Hst
    (zlength rows) (last_of (zlength rows)) Hlr _ (row_state rows exits)
    (count * 3 - zlength (concat rows)) (fun _ => False))| |done].
  - intros ts v t st' HI Ht Hcap. by apply row_state_edge.
  - intros cfg' m (row & ex & HCr & Hrow & Hex & Hl).
    eapply outcome_mono; [apply (update_current rows exits Hpre row ex ex (cfg', m)); [done|]| |done].
    + intros y []. by split.
    + intros cfg'' HCr'. by exists row, ex.
  - intros cfg' m v (row & ex & HCr & Hrow & Hex & Hl).
    eapply outcome_mono; [apply (update_current rows exits Hpre row ex v (cfg', m) _ HCr);
      apply exit_connected; exact Hpre| |done].
    intros cfg'' HCr'. exists row, v. split; [done|]. split; [done|]. split; [|done].
    split; [by left|]. intros [?|?%not_elem_of_nil]; done.
  - intros ls Hld Hls. pose proof (Hused ls Hld Hls). lia.
  - exists [], false. split; [done|]. split.
    + intros c. rewrite elem_of_nil. split; [done|]. intros (t & ?%not_elem_of_nil & _). done.
    + split; [|done]. split; [done|]. intros [?|?%not_elem_of_nil]; done.
  - intros st' (ts & ls & (row & ex & HCr & Hrow & Hex & Hl) & Hts & Hld & Hls & Htl).
    split. exists (rows ++ [row]), (exits ++ [ex]). split; [done|]. split; [by rewrite zlength_snoc|]. split.
    + intros i r v Hri Hvi. apply znth_snoc in Hri as [Hri|[-> ->]].
      * apply znth_snoc in Hvi as [Hvi|[-> _]]; [by eapply Hsteps|]. apply znth_Some in Hri. lia.
      * apply znth_snoc in Hvi as [Hvi|[_ ->]]; [apply znth_Some in Hvi; lia|]. split.
        -- intros c. rewrite Hrow. split; intros (t & Ht & Htc); exists t; (split; [|done]); by apply Hts.
        -- rewrite Hex. by rewrite Hts.
    + exists (used ++ ls). split; [by apply Hdisj|]. rewrite concat_snoc, !zlength_app. lia.
Qed.
End connect.
