(* ===== verification/CfgInvert.v ===== *)
(** The predecessor lists: [invert_edges] turns the rows of successors into the
    inverse rows, packed into a storage of exactly as many cells as edges. *)

From S2P Require Import Prelude CArray UnityCommon Heap Usil Cfg FlowGraph Postorder CfgConnect.

#[local] Set Warnings "-register-all".

(** * Edges as pairs *)

Fixpoint pairs_from (i : Z) (rows : list (list Z)) : list (Z * Z) :=
  match rows with
  | [] => []
  | row :: rows => map (pair i) row ++ pairs_from (i + 1) rows
  end.

(** The sources of the edges into [j], in order. *)
Definition sources (done : list (Z * Z)) (j : Z) : list Z :=
  map fst (base.filter (fun e => e.2 = j) done).

(** How many edges go to blocks below [j]: where the sources of [j] start. *)
Definition below (flat : list Z) (j : Z) : Z := zlength (base.filter (fun x => x < j) flat).

Lemma pairs_from_snoc i rows row :
  pairs_from i (rows ++ [row]) = pairs_from i rows ++ map (pair (i + zlength rows)) row.
Proof.
  revert i. induction rows as [|r rows IH]; intros i; cbn [pairs_from app].
  - unfold zlength. cbn. by rewrite app_nil_r, Z.add_0_r.
  - rewrite IH, zlength_cons, app_assoc. do 3 f_equal. lia.
Qed.

Lemma pairs_snd i rows : map snd (pairs_from i rows) = concat rows.
Proof.
  revert i. induction rows as [|r rows IH]; intros i; [done|]. cbn [pairs_from concat].
  rewrite map_app, IH. f_equal. rewrite map_map. cbn. apply map_id.
Qed.

Lemma elem_of_pairs i rows p c :
  (p, c) ∈ pairs_from i rows <-> exists row, znth rows (p - i) = Some row /\ c ∈ row.
Proof.
  revert i. induction rows as [|r rows IH]; intros i; cbn [pairs_from].
  - rewrite elem_of_nil. split; [done|]. intros (row & Hr & _). apply znth_Some in Hr.
    unfold zlength in Hr. cbn in Hr. lia.
  - rewrite elem_of_app, IH, list_elem_of_fmap. split.
    + intros [(x & [= -> ->] & Hx)|(row & Hr & Hc)].
      * exists r. rewrite Z.sub_diag. done.
      * pose proof (znth_Some _ _ _ Hr). exists row. split; [|done].
        rewrite znth_nonneg in Hr |- * by lia.
        by replace (Z.to_nat (p - i)) with (S (Z.to_nat (p - (i + 1)))) by lia.
    + intros (row & Hr & Hc). pose proof (znth_Some _ _ _ Hr) as Hb. rewrite zlength_cons in Hb.
      destruct (decide (p = i)) as [->|Hne].
      * left. rewrite Z.sub_diag in Hr. injection Hr as ->. eauto.
      * right. exists row. split; [|done]. rewrite znth_nonneg in Hr |- * by lia.
        by replace (Z.to_nat (p - i)) with (S (Z.to_nat (p - (i + 1)))) in Hr by lia.
Qed.

Lemma pairs_nodup i rows : Forall NoDup rows -> NoDup (pairs_from i rows).
Proof.
  intros Hr. revert i. induction Hr as [|r rows Hd _ IH]; intros i; [constructor|]. cbn [pairs_from].
  apply list.NoDup_app. split_and!.
  - apply NoDup_fmap_2; [|done]. intros x y [= ->]. done.
  - intros [p c] (x & [= -> ->] & Hx)%list_elem_of_fmap (row & Hrow & _)%elem_of_pairs.
    apply znth_Some in Hrow. lia.
  - apply IH.
Qed.

Lemma elem_of_sources done j p : p ∈ sources done j <-> (p, j) ∈ done.
Proof.
  unfold sources. rewrite list_elem_of_fmap. split.
  - intros ([q k] & -> & [Hk Hin]%list_elem_of_filter). cbn in *. by subst k.
  - intros Hin. exists (p, j). split; [done|]. by apply list_elem_of_filter.
Qed.

Lemma sources_nodup done j : NoDup done -> NoDup (sources done j).
Proof.
  intros Hd. unfold sources. apply NoDup_fmap_2_strong; [|by apply list.NoDup_filter].
  intros [p c] [q d] [Hp _]%list_elem_of_filter [Hq _]%list_elem_of_filter Heq. cbn in *. congruence.
Qed.

Lemma sources_snoc done i c j :
  sources (done ++ [(i, c)]) j = if decide (c = j) then sources done j ++ [i] else sources done j.
Proof.
  unfold sources. rewrite list.filter_app. destruct (decide (c = j)) as [->|Hne].
  - rewrite (filter_cons_True _ (i, j) []) by done. by rewrite map_app.
  - rewrite (filter_cons_False _ (i, c) []) by done. by rewrite app_nil_r.
Qed.

Lemma sources_length done j : zlength (sources done j) = occ j (map snd done).
Proof.
  induction done as [|[p c] done IH]; [done|]. unfold sources in *. cbn [map snd]. rewrite occ_cons.
  destruct (decide (c = j)) as [->|Hne].
  - rewrite filter_cons_True by done. cbn [map]. rewrite zlength_cons, IH. lia.
  - rewrite filter_cons_False by done. rewrite IH. lia.
Qed.

Lemma below_cons x l j : below (x :: l) j = (if decide (x < j) then 1 else 0) + below l j.
Proof.
  unfold below. destruct (decide (x < j)).
  - rewrite filter_cons_True by done. rewrite zlength_cons. lia.
  - by rewrite filter_cons_False.
Qed.

Lemma below_next flat j : below flat (j + 1) = below flat j + occ j flat.
Proof.
  induction flat as [|x l IH]; [done|]. rewrite !below_cons, occ_cons, IH.
  repeat case_decide; lia.
Qed.

Lemma below_mono flat j j' : j <= j' -> below flat j <= below flat j'.
Proof.
  intros Hj. induction flat as [|x l IH]; [done|]. rewrite !below_cons. repeat case_decide; lia.
Qed.

Lemma below_zero flat : (forall x, x ∈ flat -> 0 <= x) -> below flat 0 = 0.
Proof.
  induction flat as [|x l IH]; [done|]. intros Hf. rewrite below_cons.
  rewrite decide_False by (specialize (Hf x ltac:(left)); lia). rewrite IH; [done|].
  intros y Hy. apply Hf. by right.
Qed.

Lemma below_le flat j : below flat j <= zlength flat.
Proof.
  induction flat as [|x l IH]; [done|]. rewrite below_cons, zlength_cons. case_decide; lia.
Qed.

(** The ranges of two blocks do not overlap. *)
Lemma below_disjoint flat j j' m m' :
  0 <= m < occ j flat -> 0 <= m' < occ j' flat -> below flat j + m = below flat j' + m' -> j = j' /\ m = m'.
Proof.
  assert (Hlt : forall j j' m m', 0 <= m < occ j flat -> 0 <= m' < occ j' flat ->
            below flat j + m = below flat j' + m' -> ~ j < j').
  { intros a b k k' Hk Hk' Heq Hab. pose proof (below_mono flat (a + 1) b ltac:(lia)) as Hm.
    rewrite below_next in Hm. lia. }
  intros Hm Hm' Heq. pose proof (Hlt j j' m m' Hm Hm' Heq).
  pose proof (Hlt j' j m' m Hm' Hm ltac:(lia)). assert (j = j') as -> by lia. split; [done|lia].
Qed.

(** * The inversion *)

Section invert.
Context (rows : list (list Z)) (cfg0 : HLSLControlFlowGraph) (blocks0 : list HLSLBasicBlock).
Context (succs : cells).

Abbreviation n := (zlength rows).
Abbreviation flat := (concat rows).

Hypothesis Hblocks0 : cfg_blocks cfg0 = Some blocks0.
Hypothesis Hcount0 : cfg_block_count cfg0 = n.
Hypothesis Hbound : n <= zlength blocks0.
Hypothesis Hsuccs : cfg_successor_storage cfg0 = Some succs.
Hypothesis Hwrote : wrote succs flat.
Hypothesis Hnodes : forall c, c ∈ flat -> 0 <= c < n.
Hypothesis Hflat : zlength flat < 2 ^ 64.
Hypothesis Hrows : forall b blk row, znth blocks0 b = Some blk -> znth rows b = Some row ->
  bb_successors blk = Some (offset rows b) /\ bb_successor_count blk = zlength row /\
  bb_predecessor_count blk = occ b flat.

(** A block with its row of predecessors open at [done]. *)
Definition with_sources (done : list (Z * Z)) (b : Z) (blk : HLSLBasicBlock) : HLSLBasicBlock :=
  blk <| bb_predecessors := Some (below flat b) |> <| bb_predecessor_count := zlength (sources done b) |>.

Definition placed (k : Z) (st : HLSLControlFlowGraph * Z) : Prop :=
  exists blocks, st = (cfg0 <| cfg_blocks := Some blocks |>, below flat k) /\
    zlength blocks = zlength blocks0 /\
    forall b blk, 0 <= b -> znth blocks0 b = Some blk ->
      znth blocks b = Some (if b <? k then with_sources [] b blk else blk).

Lemma place_spec {F} k st : 0 <= k < n -> placed k st ->
  outcome (place_predecessors k st) (placed (k + 1)) F.
Proof.
  intros Hk (blocks & -> & Hl & Hb). destruct (znth_is_Some blocks0 k) as [blk Hblk]; [lia|].
  destruct (znth_is_Some rows k) as [row Hrow]; [lia|].
  destruct (Hrows k blk row Hblk Hrow) as (_ & _ & Hocc).
  pose proof (Hb k blk ltac:(lia) Hblk) as Hcur. rewrite Z.ltb_irrefl in Hcur.
  unfold place_predecessors, block_at, update_block. fields. cbn [ptr]. mstep.
  rewrite (aget_ok _ _ _ Hcur). mstep. rewrite (aupd_ok _ _ _ _ Hcur). mstep. cbn [outcome].
  pose proof (zlength_nonneg (base.filter (fun x => x < k) flat)) as H0.
  pose proof (below_next flat k) as Hn. pose proof (below_le flat (k + 1)).
  rewrite Hocc, <- Hn, u64_small by (rewrite Hn; unfold below, occ in *; pose proof (zlength_nonneg (base.filter (fun x => x = k) flat)); lia).
  eexists. split; [reflexivity|]. rewrite zlength_zset. split; [done|]. intros b y Hb0 Hy.
  rewrite znth_zset. destruct (decide (k = b)) as [<-|Hne].
  - rewrite decide_True by lia. rewrite (proj2 (Z.ltb_lt k (k + 1))) by lia.
    assert (y = blk) as -> by congruence. done.
  - rewrite (Hb b y Hb0 Hy). destruct (Z.ltb_spec b k), (Z.ltb_spec b (k + 1)); try done; lia.
Qed.

(** What is filled in after the edges [done]. *)
Definition inverted (done : list (Z * Z)) (cfg : HLSLControlFlowGraph) : Prop :=
  exists blocks preds,
    cfg = cfg0 <| cfg_blocks := Some blocks |> <| cfg_predecessor_storage := Some preds |> /\
    zlength blocks = zlength blocks0 /\ zlength flat <= zlength preds /\
    (forall b blk, 0 <= b < n -> znth blocks0 b = Some blk ->
       znth blocks b = Some (with_sources done b blk)) /\
    (forall b m p, znth (sources done b) m = Some p -> znth preds (below flat b + m) = Some (Some p)).

Lemma read_row {E} done cfg i blk :
  inverted done cfg -> 0 <= i < n -> block_at (E:=E) cfg i = Ret blk ->
  exists blk0, znth blocks0 i = Some blk0 /\ blk = with_sources done i blk0.
Proof.
  intros (blocks & preds & -> & Hl & Hp & Hb & Hc) Hi. unfold block_at. fields. cbn [ptr]. mstep.
  destruct (znth_is_Some blocks0 i) as [blk0 Hblk]; [lia|].
  rewrite (aget_ok _ _ _ (Hb i blk0 Hi Hblk)). intros [= <-]. eauto.
Qed.

Lemma occ_prefix (done rest : list (Z * Z)) (i c : Z) :
  pairs_from 0 rows = done ++ (i, c) :: rest -> zlength (sources done c) < occ c flat.
Proof.
  intros Hp. rewrite sources_length, <- (pairs_snd 0 rows), Hp, map_app, occ_app. cbn [map snd].
  rewrite occ_cons, decide_True by done. pose proof (occ_nonneg c (map snd rest)). lia.
Qed.

Lemma add_predecessor_spec {F} done i rest row e c cfg :
  pairs_from 0 rows = done ++ (i, c) :: rest ->
  znth rows i = Some row -> znth row e = Some c -> inverted done cfg ->
  outcome (add_predecessor i e cfg) (inverted (done ++ [(i, c)])) F.
Proof.
  intros Hpairs Hrow He (blocks & preds & -> & Hl & Hp & Hb & Hcell).
  pose proof (znth_Some _ _ _ Hrow) as Hi.
  destruct (znth_is_Some blocks0 i) as [blk Hblk]; [lia|].
  destruct (Hrows i blk row Hblk Hrow) as (Hsu & Hsn & _).
  pose proof (offset_row rows i row e c Hrow He) as Hread.
  assert (Hc : 0 <= c < n) by (apply Hnodes, znth_elem_of; eauto).
  destruct (znth_is_Some blocks0 c) as [target Htg]; [lia|].
  pose proof (occ_prefix done rest i c Hpairs) as Hocc.
  unfold add_predecessor, block_at, successor_at, update_block. fields. cbn [ptr]. mstep.
  rewrite (aget_ok _ _ _ (Hb i blk Hi Hblk)). mstep. unfold with_sources. fields. rewrite Hsuccs, Hsu. cbn [ptr]. mstep.
  rewrite (cget_ok _ _ c) by (by apply Hwrote). mstep.
  rewrite (aget_ok _ _ _ (Hb c target Hc Htg)). mstep. unfold with_sources. fields. cbn [ptr]. mstep.
  pose proof (zlength_nonneg (sources done c)) as Hs0.
  assert (Hroom : 0 <= below flat c + zlength (sources done c) < zlength preds).
  { pose proof (below_next flat c). pose proof (below_le flat (c + 1)).
    assert (0 <= below flat c) by apply zlength_nonneg. lia. }
  unfold cput. rewrite aput_ok by done. mstep. fields. cbn [ptr]. mstep.
  rewrite (aupd_ok _ _ _ _ (Hb c target Hc Htg)). mstep. cbn [outcome].
  eexists _, _. split; [reflexivity|]. rewrite !zlength_zset. split; [done|]. split; [done|]. split.
  - intros b y Hbr Hy. rewrite znth_zset. destruct (decide (c = b)) as [<-|Hne].
    + rewrite decide_True by lia. assert (y = target) as -> by congruence.
      unfold with_sources. rewrite sources_snoc, decide_True by done. rewrite zlength_snoc.
      fields. by rewrite Z.add_comm.
    + rewrite (Hb b y Hbr Hy). unfold with_sources. by rewrite sources_snoc, decide_False.
  - intros b m p. rewrite sources_snoc. destruct (decide (c = b)) as [<-|Hne].
    + intros [Hm|[-> ->]]%znth_snoc; [|by apply znth_zset_eq].
      rewrite znth_zset_ne; [by apply Hcell|]. apply znth_Some in Hm. lia.
    + intros Hm. rewrite znth_zset_ne; [by apply Hcell|]. intros Heq.
      pose proof (znth_Some _ _ _ Hm) as Hmr. assert (Hmo : zlength (sources done b) <= occ b flat).
      { rewrite sources_length, <- (pairs_snd 0 rows), Hpairs, map_app, occ_app.
        pose proof (occ_nonneg b (map snd ((i, c) :: rest))). lia. }
      pose proof (below_disjoint flat c b (zlength (sources done c)) m ltac:(lia) ltac:(lia) Heq) as [? _].
      congruence.
Qed.

Lemma add_predecessors_spec {F} pre row post cfg :
  rows = pre ++ row :: post -> inverted (pairs_from 0 pre) cfg ->
  outcome (add_predecessors (zlength pre) cfg) (inverted (pairs_from 0 (pre ++ [row]))) F.
Proof.
  intros Hsplit Hinv. pose proof (znth_middle pre post row) as Hrow. rewrite <- Hsplit in Hrow.
  pose proof (znth_Some _ _ _ Hrow) as Hi. destruct Hinv as (blocks & preds & -> & Hl & Hp & Hb & Hcell).
  destruct (znth_is_Some blocks0 (zlength pre)) as [blk Hblk]; [lia|].
  destruct (Hrows _ blk row Hblk Hrow) as (_ & Hsn & _).
  unfold add_predecessors, block_at. fields. cbn [ptr]. mstep.
  rewrite (aget_ok _ _ _ (Hb _ blk Hi Hblk)). mstep. unfold with_sources. fields. rewrite Hsn, pairs_from_snoc, Z.add_0_l.
  apply (outcome_for_array row (fun l => inverted (pairs_from 0 pre ++ map (pair (zlength pre)) l))).
  { cbn [map]. rewrite app_nil_r. exists blocks, preds. done. }
  intros l x rest t -> Hx Ht. rewrite map_app, app_assoc. cbn [map].
  apply (add_predecessor_spec _ _ (map (pair (zlength pre)) rest ++ pairs_from (zlength pre + 1) post)
    (l ++ x :: rest)); [|done|done|done].
  assert (Hgo : forall j a b, pairs_from j (a ++ b) = pairs_from j a ++ pairs_from (j + zlength a) b).
  { intros j a b. revert j. induction a as [|r a IH]; intros j; cbn [pairs_from app].
    - unfold zlength. cbn. by rewrite Z.add_0_r.
    - rewrite IH, zlength_cons, app_assoc. do 2 f_equal. lia. }
  rewrite Hsplit, Hgo. cbn [pairs_from]. rewrite Z.add_0_l, map_app. cbn [map]. by rewrite <- !app_assoc.
Qed.

Lemma invert_edges_spec {F} size :
  zlength flat <= size -> cfg_predecessor_storage cfg0 = Some (uninitialised size) ->
  outcome (invert_edges cfg0) (inverted (pairs_from 0 rows)) F.
Proof.
  intros Hsize Hpreds. unfold invert_edges. rewrite Hcount0. apply outcome_bind.
  pose proof (zlength_nonneg flat). pose proof (zlength_nonneg rows).
  eapply outcome_mono; [apply outcome_for with (I := placed) (F := F)| |done].
  - exists blocks0. split; [|split; [done|]].
    + f_equal; [by destruct cfg0; cbn in *; subst|]. symmetry. apply below_zero. intros x Hx. by apply Hnodes.
    + intros b y Hb Hy. by rewrite (proj2 (Z.ltb_ge b 0)) by lia.
  - intros j st Hj Hst. apply place_spec; [lia|done].
  - intros [cfg off] (blocks & [= -> _] & Hl & Hb). fields. rewrite Hcount0.
    apply (outcome_for_array rows (fun done => inverted (pairs_from 0 done))).
    + exists blocks, (uninitialised size).
      split; [by destruct cfg0; cbn in *; subst|]. rewrite zlength_uninitialised by lia.
      split; [done|]. split; [done|]. split.
      * intros b y Hbr Hy. rewrite (Hb b y ltac:(lia) Hy).
        by rewrite (proj2 (Z.ltb_lt b _)) by lia.
      * intros b m p Hm. apply znth_Some in Hm. unfold zlength in Hm. cbn in Hm. lia.
    + intros pre row post t Hsplit _ Ht. by eapply add_predecessors_spec.
Qed.
End invert.
