(* ===== verification/CfgBuild.v ===== *)
(** The whole builder: a well-structured range gets a graph whose blocks
    partition it and whose edges are the steps of its instructions; any other
    range, or a refused allocation, leaves an empty graph. *)

From S2P Require Import Prelude CArray UnityCommon Heap Usil Cfg FlowGraph Postorder FlowStructure FlowMatch FlowStep CfgBlocks CfgEdges CfgConnect CfgInvert.

#[local] Set Warnings "-register-all".

(** The graph of the rows of successors. *)
Definition graph_of (rows : list (list Z)) (exits : list bool) : flow_graph := {|
  fg_count := zlength rows;
  fg_succ b := default [] (znth rows b);
  fg_pred b := sources (pairs_from 0 rows) b;
  fg_exit b := default false (znth exits b);
|}.

Lemma graph_edge rows exits a b : edge (graph_of rows exits) a b <-> exists row, znth rows a = Some row /\ b ∈ row.
Proof.
  unfold edge, node. cbn. split.
  - intros [Ha Hb]. destruct (znth_is_Some rows a Ha) as [row Hr]. rewrite Hr in Hb. eauto.
  - intros (row & Hr & Hb). rewrite Hr. split; [by apply znth_Some in Hr|done].
Qed.

Lemma wrote_room xs l : wrote xs l -> zlength l <= zlength xs.
Proof.
  intros Hw. pose proof (zlength_nonneg l). pose proof (zlength_nonneg xs).
  destruct (decide (zlength l = 0)); [lia|].
  destruct (znth_is_Some l (zlength l - 1)) as [x Hx]; [lia|].
  apply Hw, znth_Some in Hx. lia.
Qed.

Section build.
Context `{U : UnityCommon} `{L : LibcMalloc}.
Context (program : USILProgram) (Hprog : program_ok program).
Context (first end_ : Z).

Abbreviation op := (op_of program).
Abbreviation count := (up_instruction_count program).

(** What a built graph holds: [starts] are the first instructions of its
    blocks, [G] the graph of its successors and predecessors. *)
Record built_graph (cfg : HLSLControlFlowGraph) (starts : list Z) (G : flow_graph) : Prop := {
  bg_split : split_at program first end_ starts;
  bg_count : fg_count G = zlength starts;
  bg_blocks b x : znth starts b = Some x -> exists block,
    (forall E, block_at (E:=E) cfg b = Ret block) /\ bb_first_instruction block = x /\
    bb_last_instruction block = block_end end_ starts b;
  bg_map : exists map, cfg_instruction_block cfg = Some map /\ numbers_hold program first end_ starts map;
  bg_flow : exists flow, cfg_instruction_flow cfg = Some flow /\ flow_links program first end_ flow;
  bg_nesting : exists ns, cfg_nesting cfg = Some ns /\ zlength ns = zlength starts;
  bg_represents : represents cfg G;
  bg_ok : flow_graph_ok G;
  bg_edge a b : edge G a b <-> 0 <= a < zlength starts /\ exists t,
    flow_step op first (block_end end_ starts a) t /\ t < end_ /\ znth starts b = Some t;
  bg_exit a : 0 <= a < zlength starts -> fg_exit G a = true <->
    leaves (op (block_end end_ starts a)) = true \/ flow_step op first (block_end end_ starts a) end_;
  bg_storage : cfg_successor_storage cfg <> None /\ cfg_predecessor_storage cfg <> None;
  bg_instructions : cfg_instruction_count cfg = count;
  bg_fresh : cfg_idom cfg = None /\ cfg_df cfg = None /\ cfg_df_count cfg = None;
}.

Hypothesis Hrange : 0 <= first < end_ /\ end_ <= count.
Hypothesis Hcount : count <= INT_MAX.

Section blocks.
Context (starts : list Z) (Hs : split_at program first end_ starts) (Hst : structured op first end_).

(** The target of a step out of a block is the start of a block. *)
Lemma step_to_start a t c :
  0 <= a < zlength starts -> flow_step op first (block_end end_ starts a) t -> t < end_ ->
  in_block end_ starts t c -> znth starts c = Some t.
Proof.
  intros Ha Hstep Ht Hc. destruct (znth_is_Some starts a Ha) as [x Hx].
  pose proof (block_range program first end_ starts Hs a x Hx) as Hr.
  destruct (flow_step_target op first end_ Hst (block_end end_ starts a) t ltac:(lia) Hstep) as [Htr Hcase].
  assert (Hin : t ∈ starts).
  { apply (sp_in _ _ _ _ Hs). split; [lia|]. destruct Hcase as [Heq|Hcase].
    - destruct (znth starts (a + 1)) as [y|] eqn:Hy; unfold block_end in Heq; rewrite Hy in Heq; cbn [from_option] in Heq; unfold id in Heq.
      + assert (t = y) as -> by lia. apply (sp_in _ _ _ _ Hs). apply znth_elem_of. eauto.
      + lia.
    - destruct (Hcase Ht) as [Hb|Hb]; [right; by left|right; right; split; [lia|done]]. }
  apply znth_elem_of in Hin as [d Hd].
  by rewrite (in_block_unique program first end_ starts Hs t c d Hc
    (start_in_block program first end_ starts Hs d t Hd)).
Qed.
End blocks.

(** * From the rows to the graph *)

Section assemble.
Context (starts map : list Z) (flow : list HLSLInstructionFlow).
Context (Hs : split_at program first end_ starts) (Hst : structured op first end_).
Context (Hmap : numbers_hold program first end_ starts map) (Hflow : flow_links program first end_ flow).
Context (rows : list (list Z)) (exits : list bool) (cfg : HLSLControlFlowGraph) (ec : Z).
Context (HC : connected program end_ starts map flow rows exits (cfg, ec)).
Context (Hall : zlength rows = zlength starts).
Context (Hsteps : forall i row v, znth rows i = Some row -> znth exits i = Some v ->
  row_steps program first end_ starts i row v).

Abbreviation G := (graph_of rows exits).

Lemma assembled_edge a b : edge G a b <-> 0 <= a < zlength starts /\ exists t,
  flow_step op first (block_end end_ starts a) t /\ t < end_ /\ znth starts b = Some t.
Proof.
  rewrite graph_edge. pose proof (cn_lengths _ _ _ _ _ _ _ _ HC) as [Hel _].
  assert (Hrow : forall row, znth rows a = Some row -> forall c, c ∈ row <-> exists t,
    flow_step op first (block_end end_ starts a) t /\ t < end_ /\ in_block end_ starts t c).
  { intros row Hr. pose proof (znth_Some _ _ _ Hr). destruct (znth_is_Some exits a) as [v Hv]; [lia|].
    apply (Hsteps a row v Hr Hv). }
  split.
  - intros (row & Hr & Hb). pose proof (znth_Some _ _ _ Hr). split; [lia|].
    apply (Hrow row Hr) in Hb as (t & Hstep & Ht & Hin). exists t. split; [done|]. split; [done|].
    eapply (step_to_start starts Hs Hst a); [lia|done..].
  - intros (Ha & t & Hstep & Ht & Hb). destruct (znth_is_Some rows a) as [row Hr]; [lia|].
    exists row. split; [done|]. apply (Hrow row Hr). exists t. split; [done|]. split; [done|].
    by apply (start_in_block program first end_ starts Hs).
Qed.

Lemma assembled_ok : flow_graph_ok G.
Proof.
  pose proof (n_le_count program first end_ Hrange starts Hs).
  pose proof (cn_nodup _ _ _ _ _ _ _ _ HC) as Hnd.
  split.
  - cbn. rewrite Hall. lia.
  - intros a b (Ha & t & _ & _ & Hb)%assembled_edge. apply znth_Some in Hb. unfold node. cbn. lia.
  - intros a b Hb. rewrite graph_edge. cbn. rewrite elem_of_sources, elem_of_pairs. by rewrite Z.sub_0_r.
  - intros b. cbn. destruct (znth rows b) as [row|] eqn:Hr; cbn; [|constructor].
    eapply list.Forall_forall; [exact Hnd|]. apply znth_elem_of. eauto.
  - intros b. cbn. apply sources_nodup. by apply pairs_nodup.
  - intros a (Ha & t & Hstep & Ht & Hb)%assembled_edge.
    destruct (znth_is_Some starts a Ha) as [x Hx].
    pose proof (block_range program first end_ starts Hs a x Hx).
    destruct (flow_step_target op first end_ Hst (block_end end_ starts a) t ltac:(lia) Hstep) as [Htr _].
    rewrite (split_nonempty program first end_ starts ltac:(lia) Hs) in Hb. injection Hb as <-. lia.
Qed.
(** The finished graph. *)
Lemma assembled_built size cfg' blocks0 :
  cfg_blocks cfg = Some blocks0 ->
  inverted rows (cfg <| cfg_predecessor_storage := Some (uninitialised size) |>) blocks0
    (pairs_from 0 rows) cfg' ->
  built_graph cfg' starts G.
Proof.
  intros Hb0 (blocks & preds & -> & Hl & _ & Hb & Hcell).
  destruct HC as [Hsc Hec (cells & Hcells & Hcl & Hw) Hnd Hno [Hel _] (blocks1 & Hb1 & Hbl)].
  cbn [fst snd] in *. assert (blocks1 = blocks0) as -> by congruence.
  assert (Hblock : forall b, 0 <= b < zlength rows -> exists y, znth blocks0 b = Some y /\
    block_connected end_ starts rows exits b y /\
    znth blocks b = Some (with_sources rows (pairs_from 0 rows) b y)).
  { intros b Hbr. destruct (proj2 Hbl b ltac:(lia)) as (y & Hy & Hyc).
    exists y. split; [done|]. split; [done|]. by apply Hb. }
  destruct Hsc. split; fields; try done.
  - intros b x Hx. pose proof (znth_Some _ _ _ Hx). destruct (Hblock b ltac:(lia)) as (y & Hy & [] & Hz).
    exists (with_sources rows (pairs_from 0 rows) b y). split_and!.
    + intros E. unfold block_at. fields. cbn [ptr]. mstep. by apply aget_ok.
    + unfold with_sources. fields. congruence.
    + unfold with_sources. fields. congruence.
  - eauto.
  - eauto.
  - split; fields; [cbn; congruence|done|]. intros b Hn. unfold node in Hn. cbn in Hn.
    destruct (Hblock b Hn) as (y & Hy & [] & Hz).
    exists (with_sources rows (pairs_from 0 rows) b y). split.
    { intros E. unfold block_at. fields. cbn [ptr]. mstep. by apply aget_ok. }
    destruct (znth_is_Some rows b Hn) as [row Hrow]. destruct (znth_is_Some exits b ltac:(lia)) as [v Hv].
    destruct (bc_row row Hrow) as [Hsu Hsn]. split; unfold with_sources; fields.
    + cbn. by rewrite Hrow.
    + done.
    + cbn. rewrite Hv. by apply bc_exit.
    + cbn. rewrite Hrow. cbn. intros e s He E. unfold successor_at. fields. rewrite Hcells, Hsu.
      cbn [ptr]. mstep. apply cget_ok, Hw. by apply (offset_row rows b row).
    + cbn. intros e p He E. unfold predecessor_at. fields. cbn [ptr]. mstep.
      by apply cget_ok, Hcell.
  - by apply assembled_ok.
  - by apply assembled_edge.
  - intros a Ha. cbn. destruct (znth_is_Some exits a ltac:(lia)) as [v Hv]. rewrite Hv.
    destruct (znth_is_Some rows a ltac:(lia)) as [row Hr]. by apply (Hsteps a row v).
  - by rewrite Hcells.
Qed.
End assemble.
(** * The builder *)

(** The graph [connect_graph] starts from. *)
Definition new_graph : HLSLControlFlowGraph :=
  zero_cfg <| cfg_instruction_count := count |>
           <| cfg_successor_storage := Some (uninitialised (count * 3)) |>
           <| cfg_blocks := Some (filled count zero_block) |>.

(** The state before the first edge. *)
Lemma connected_start cfg starts blocks map flow ns :
  split_at program first end_ starts -> split_blocks_hold program end_ starts blocks ->
  zlength ns = zlength starts ->
  cfg = new_graph <| cfg_instruction_flow := Some flow |> <| cfg_instruction_block := Some map |>
          <| cfg_blocks := Some blocks |> <| cfg_block_count := zlength starts |>
          <| cfg_nesting := Some ns |> ->
  connected program end_ starts map flow [] [] (cfg, 0).
Proof.
  intros Hs [Hl Hb] Hn ->. split; cbn [fst snd]; try done.
  - split; try done. exists ns. done.
  - exists (uninitialised (count * 3)). split; [done|]. rewrite zlength_uninitialised by lia.
    split; [done|]. cbn. intros i x Hx. apply znth_Some in Hx. unfold zlength in Hx. cbn in Hx. lia.
  - by intros c ?%not_elem_of_nil.
  - split; [done|]. pose proof (zlength_nonneg starts). unfold zlength at 1. cbn. lia.
  - exists blocks. split; [done|]. split; [done|]. intros b Hbr.
    destruct (znth_is_Some starts b Hbr) as [x Hx].
    destruct (Hb b x Hx) as (y & Hy & [] & Hf & Hla). exists y. split; [done|].
    split; try done; try congruence.
    + intros row Hr. apply znth_Some in Hr. unfold zlength in Hr. cbn in Hr. lia.
    + intros v Hv. apply znth_Some in Hv. unfold zlength in Hv. cbn in Hv. lia.
Qed.

Lemma connect_graph_spec :
  outcome (connect_graph program first end_ new_graph)
    (fun cfg => structured op first end_ /\ exists starts G, built_graph cfg starts G)
    (fun _ => ~ structured op first end_ \/ malloc_failed).
Proof.
  unfold connect_graph. apply outcome_bind.
  eapply outcome_mono; [apply (match_flow_structure_spec program Hprog first end_); lia| |by left].
  intros flow [Hst Hflow]. apply outcome_bind.
  eapply outcome_mono; [by apply mark_leaders_spec| |done]. intros leader [_ Hlead].
  apply outcome_bind. eapply outcome_mono; [by apply (split_blocks_spec program first end_)| |done].
  intros cfg1 (starts & blocks & Hs & Hb & ->). apply outcome_bind.
  eapply outcome_mono; [by apply (number_blocks_spec program first end_ Hrange starts Hs _ blocks Hb)| |done].
  intros cfg2 (map & Hmap & ->). fields.
  destruct (libc_malloc (zlength starts * BLOCK_NESTING_SIZE)) eqn:Hm1; cbn [negb];
    [|right; by eexists]. apply outcome_bind.
  pose proof (zlength_nonneg starts) as Hs0.
  eapply outcome_mono; [apply outcome_for with (F := fun _ => False)
    (I := loop_inv program first end_ starts map flow)| |done].
  - split. exists [], []. split; [|split; [done|]; split].
    + eapply (connected_start _ starts blocks map flow (filled (zlength starts) zero_nesting));
        [done|done|by apply zlength_filled|done].
    + intros i row v Hr. apply znth_Some in Hr. unfold zlength in Hr. cbn in Hr. lia.
    + exists []. split; [|done]. split; [constructor|]. by intros t ?%not_elem_of_nil.
  - intros b st Hbr. apply connect_block_spec; try done. lia.
  - intros [cfg ec] [(rows & exits & HC & Hall & Hsteps & _)].
    set (size := if ec =? 0 then 1 else ec).
    destruct (libc_malloc (size * 4)) eqn:Hm2; cbn [negb]; [|right; by eexists].
    destruct (cn_blocks _ _ _ _ _ _ _ _ HC) as (blocks2 & Hb2 & Hbl).
    pose proof (cn_count _ _ _ _ _ _ _ _ HC) as Hec. pose proof (cn_static _ _ _ _ _ _ _ _ HC) as Hsc.
    destruct (cn_storage _ _ _ _ _ _ _ _ HC) as (cells & Hcells & Hcl & Hw). cbn [fst snd] in *.
    pose proof (wrote_room _ _ Hw) as Hroom. pose proof (n_le_count program first end_ Hrange starts Hs).
    assert (Hsize : zlength (concat rows) <= size) by (unfold size; destruct (Z.eqb_spec ec 0); lia).
    eapply outcome_mono; [apply (invert_edges_spec rows _ blocks2 cells) with (size := size)
      (F := fun _ => False)| |done]; try done.
    + fields. rewrite (sc_blocks _ _ _ _ _ Hsc). lia.
    + rewrite (proj1 Hbl). lia.
    + intros c Hc. pose proof (cn_nodes _ _ _ _ _ _ _ _ HC c Hc). lia.
    + unfold INT_MAX in *. lia.
    + intros b y row Hy Hr. pose proof (znth_Some _ _ _ Hr).
      destruct (proj2 Hbl b ltac:(lia)) as (y' & Hy' & Hyc). assert (y' = y) as -> by congruence.
      destruct (bc_row _ _ _ _ _ _ Hyc row Hr). split; [done|]. split; [done|].
      apply (bc_pred_count _ _ _ _ _ _ Hyc).
    + intros cfg' Hinv. split; [done|]. exists starts, (graph_of rows exits).
      eapply assembled_built; try done. lia.
Qed.

(** The result of the builder on a context without a graph. *)
Definition build_result (r : bool * option HLSLEmitterContext) : Prop :=
  (exists cfg starts G,
     r = (true, Some (emitter_context program cfg)) /\
     structured op first end_ /\ built_graph cfg starts G) \/
  (r = (false, Some (emitter_context program zero_cfg)) /\
   (~ structured op first end_ \/ malloc_failed)).

Lemma build_range_spec `{!UnityCommonSpec U} {E} :
  exists r, build_control_flow_graph_range (E:=E)
    (Some (emitter_context program zero_cfg)) first end_ = Ret r /\ build_result r.
Proof.
  assert (Hdone : forall r : bool * option HLSLEmitterContext,
    build_result r -> exists r', Ret (E:=E) r = Ret r' /\ build_result r') by eauto.
  unfold build_control_flow_graph_range. cbn [emitter_context ctx_program ctx_cfg].
  rewrite (proj2 (Z.ltb_ge count 0)), (proj2 (Z.ltb_ge first 0)), (proj2 (Z.ltb_ge end_ first)),
    (proj2 (Z.ltb_ge count end_)), (proj2 (Z.eqb_neq first end_)), (proj2 (Z.eqb_neq count 0)) by lia.
  destruct Hprog as (l & Hl & Hln). rewrite Hl. unfold INT_MAX in Hcount.
  unfold INSTRUCTION_FLOW_SIZE, BASIC_BLOCK_SIZE.
  rewrite !size_multiply_overflows_spec by (unfold in_u64; lia).
  rewrite !(proj2 (Z.leb_gt (2 ^ 64) _)) by lia. cbn [orb andb is_null negb zero_cfg].
  destruct (graph_memory count) eqn:Hm; cbn [negb].
  - mstep. pose proof connect_graph_spec as Hspec. unfold new_graph in Hspec.
    destruct (connect_graph _ _ _ _) as [cfg|[]|]; cbn [outcome attempt] in *; mstep; [| |done].
    + destruct Hspec as (Hst & starts & G & Hg). apply Hdone. left. eauto 10.
    + apply Hdone. by right.
  - mstep. apply Hdone. right. split; [done|]. right. unfold graph_memory in Hm.
    rewrite !andb_false_iff in Hm. unfold malloc_failed. destruct Hm as [[[[?|?]|?]|?]|?]; eauto.
Qed.
End build.
