(* ===== verification/FlowTrace.v ===== *)
(** Executions of a program, instruction by instruction, and what the blocks of
    its graph say about them: walks are the shadows of executions, dominance
    and must-reach of blocks hold of the instructions they start with. *)

From S2P Require Import Prelude CArray UnityCommon Heap Usil Cfg FlowGraph MustReach FlowStructure FlowMatch FlowStep CfgBlocks CfgBuild.

#[local] Set Warnings "-register-all".

Section paths.
Context (op : Z -> USILOpcode) (first end_ : Z).

(** The instructions executed from [a] up to [i], both included. *)
Inductive path (a : Z) : list Z -> Z -> Prop :=
| path_one : path a [a] a
| path_step l i t : path a l i -> flow_step op first i t -> t < end_ -> path a (l ++ [t]) t.

Definition executed (i : Z) : Prop := exists l, path first l i.

(** Every execution up to [i] has been at [d]. *)
Definition executed_before (d i : Z) : Prop := executed i /\ forall l, path first l i -> d ∈ l.

(** Execution may end after [i]. *)
Definition stops (i : Z) : Prop :=
  leaves (op i) = true \/ flow_step op first i end_ \/ forall t, flow_step op first i t -> end_ <= t.

Definition endless (a : Z) (run : nat -> Z) : Prop :=
  run 0%nat = a /\ forall n, flow_step op first (run n) (run (S n)) /\ run (S n) < end_.

(** Whatever is executed from [a] on, [t] will be. *)
Definition always_executes (t a : Z) : Prop :=
  (forall run, endless a run -> exists n, run n = t) /\
  (forall l i, path a l i -> stops i -> t ∈ l).

Lemma path_head a l i :
  path a l i -> (i = a /\ l = [a]) \/
  exists t l', flow_step op first a t /\ t < end_ /\ path t l' i /\ l = a :: l'.
Proof.
  induction 1 as [|l i t _ IH Hs Ht]; [by left|]. right. destruct IH as [[-> ->]|(u & l' & Hu & Hue & Hp & ->)].
  - exists t, [t]. split_and!; [done|done|constructor|done].
  - exists u, (l' ++ [t]). split_and!; [done|done|by eapply path_step|done].
Qed.

Lemma always_here t : always_executes t t.
Proof.
  split; [by intros run [H0 _]; exists 0%nat|]. intros l i Hp _.
  destruct (path_head _ _ _ Hp) as [[_ ->]|(u & l' & _ & _ & _ & ->)]; left.
Qed.

Lemma always_next t a :
  ~ stops a -> (forall u, flow_step op first a u -> u < end_ -> always_executes t u) ->
  always_executes t a.
Proof.
  intros Hs Hn. split.
  - intros run [H0 Hr]. destruct (Hr 0%nat) as [Hstep Hlt]. rewrite H0 in Hstep.
    destruct (proj1 (Hn _ Hstep Hlt) (fun n => run (S n))) as [n Hrun]; [by split; [|intros n; apply Hr]|].
    by exists (S n).
  - intros l i Hp Hi. destruct (path_head _ _ _ Hp) as [[-> _]|(u & l' & Hu & Hue & Hp' & ->)]; [done|].
    right. by apply (proj2 (Hn u Hu Hue) l' i).
Qed.
End paths.

Section trace.
Context (program : USILProgram) (first end_ : Z).

Abbreviation op := (op_of program).
Abbreviation count := (up_instruction_count program).

Hypothesis Hrange : 0 <= first < end_ /\ end_ <= count.

Context (starts : list Z) (G : flow_graph) (cfg : HLSLControlFlowGraph).
Context (Hst : structured op first end_) (HB : built_graph program first end_ cfg starts G).

Abbreviation last_of := (block_end end_ starts).
Abbreviation in_block_ := (in_block end_ starts).

Lemma plain_step i t : is_boundary (op i) = false -> flow_step op first i t -> t = i + 1.
Proof.
  intros Hb Hs.
  destruct Hs as [_|l Ho _|e Ho _ _|s e Ho _ _|l Ho _|e Ho _ _|s e Ho _ _|s e Ho _ _|s Ho _]; [done|exfalso..].
  all: try (rewrite Ho in Hb; done).
  - by destruct Ho as [Ho|Ho]; rewrite Ho in Hb.
  - unfold is_continue in Ho. by destruct (op i).
Qed.

Lemma plain_falls i : is_boundary (op i) = false -> flow_step op first i (i + 1).
Proof. intros Hb. apply step_next. by destruct (op i). Qed.

(** Inside a block there is nothing but the next instruction. *)
Lemma inner_instruction i b :
  in_block_ i b -> i <> last_of b -> is_boundary (op i) = false /\ in_block_ (i + 1) b.
Proof.
  intros (x & Hx & Hi) Hne. pose proof (bg_split _ _ _ _ _ _ HB) as Hs.
  pose proof (block_range program first end_ starts Hs b x Hx) as Hr.
  assert (Hin : in_block_ (i + 1) b) by (exists x; split; [done|lia]). split; [|done].
  destruct (is_boundary (op i)) eqn:Hb; [|done]. exfalso.
  assert (Hst1 : i + 1 ∈ starts).
  { apply (sp_in _ _ _ _ Hs). split; [lia|]. right; right. split; [lia|].
    by replace (i + 1 - 1) with i by lia. }
  apply znth_elem_of in Hst1 as [d Hd].
  pose proof (start_in_block program first end_ starts Hs d _ Hd) as Hin'.
  rewrite (in_block_unique program first end_ starts Hs _ _ _ Hin Hin') in Hx. assert (x = i + 1) by congruence. lia.
Qed.

Lemma inner_runs i b : in_block_ i b -> i <> last_of b -> ~ stops op first end_ i.
Proof.
  intros Hi Hne. destruct (inner_instruction i b Hi Hne) as [Hb (x & Hx & Hin)].
  pose proof (block_range program first end_ starts (bg_split _ _ _ _ _ _ HB) b x Hx) as Hr.
  intros [Hl|[He|Hn]].
  - unfold leaves in Hl. by destruct (op i).
  - apply plain_step in He; [lia|done].
  - pose proof (Hn _ (plain_falls i Hb)). lia.
Qed.

(** A path goes on to any later instruction of its block, and to its end. *)
Lemma path_to a l i j b :
  path op first end_ a l i -> in_block_ i b -> in_block_ j b -> i <= j ->
  exists l', path op first end_ a l' j /\ forall k, k ∈ l' -> k ∈ l \/ in_block_ k b.
Proof.
  intros Hp Hi Hj Hij. remember (Z.to_nat (j - i)) as k eqn:Hk. revert l i Hp Hi Hij Hk.
  induction k as [|k IH]; intros l i Hp Hi Hij Hk.
  - assert (i = j) as -> by lia. exists l. split; [done|]. by left.
  - assert (Hne : i <> last_of b) by (destruct Hj as (x & _ & ?); lia).
    destruct (inner_instruction i b Hi Hne) as [Hb Hin]. pose proof Hin as (x & Hx & Hin').
    pose proof (block_range program first end_ starts (bg_split _ _ _ _ _ _ HB) b x Hx) as Hr.
    destruct (IH (l ++ [i + 1]) (i + 1)) as (l' & Hl' & Hall); [|done|lia|lia|].
    + eapply path_step; [exact Hp|by apply plain_falls|lia].
    + exists l'. split; [done|]. intros m Hm. destruct (Hall m Hm) as [Hm'|]; [|by right].
      apply elem_of_app in Hm' as [|Hm']; [by left|]. apply list_elem_of_singleton in Hm' as ->. by right.
Qed.

Lemma path_through a l i b :
  path op first end_ a l i -> in_block_ i b ->
  exists l', path op first end_ a l' (last_of b) /\ forall j, j ∈ l' -> j ∈ l \/ in_block_ j b.
Proof.
  intros Hp (x & Hx & Hi). apply (path_to a l i (last_of b) b Hp); [exists x|exists x|]; (split; [done|lia]) || lia.
Qed.

(** A walk is the shadow of an execution. *)
Lemma walk_path a l b x :
  znth starts a = Some x -> walk G a l b -> exists tr y, znth starts b = Some y /\
    path op first end_ x tr y /\ forall j, j ∈ tr -> exists d, d ∈ l /\ in_block_ j d.
Proof.
  intros Hx. pose proof (bg_split _ _ _ _ _ _ HB) as Hs.
  induction 1 as [|l b c Hw (tr & y & Hy & Hp & Hall) He].
  - exists [x], x. split; [done|]. split; [constructor|].
    intros j ->%list_elem_of_singleton. exists a. split; [left|].
    by apply (start_in_block program first end_ starts Hs).
  - apply (bg_edge _ _ _ _ _ _ HB) in He as (Hb & t & Hstep & Ht & Hc).
    destruct (path_through x tr y b Hp (start_in_block program first end_ starts Hs b y Hy))
      as (tr' & Hp' & Hall').
    exists (tr' ++ [t]), t. split; [done|]. split; [by eapply path_step|]. intros j [Hj|Hj]%elem_of_app.
    + destruct (Hall' j Hj) as [Hj'|Hin].
      * destruct (Hall j Hj') as (d & Hd & Hin). exists d. split; [|done]. apply elem_of_app. by left.
      * exists b. split; [|done]. apply elem_of_app. left. by eapply walk_end.
    + apply list_elem_of_singleton in Hj as ->. exists c. split; [apply elem_of_app; right; left|].
      by apply (start_in_block program first end_ starts Hs).
Qed.

Lemma walk_executed l b :
  walk G 0 l b -> exists tr y, znth starts b = Some y /\ path op first end_ first tr y /\
    forall j, j ∈ tr -> exists d, d ∈ l /\ in_block_ j d.
Proof.
  apply walk_path, (split_nonempty program first end_ starts ltac:(lia) (bg_split _ _ _ _ _ _ HB)).
Qed.

(** And conversely. *)
Lemma executed_walk tr i :
  path op first end_ first tr i -> exists l b, in_block_ i b /\ walk G 0 l b /\
    forall d, d ∈ l -> exists x, znth starts d = Some x /\ x ∈ tr.
Proof.
  pose proof (bg_split _ _ _ _ _ _ HB) as Hs.
  pose proof (split_nonempty program first end_ starts ltac:(lia) Hs) as H0.
  induction 1 as [|tr i t Hp (l & b & Hib & Hw & Hall) Hstep Ht].
  - exists [0], 0. split; [by apply (start_in_block program first end_ starts Hs)|].
    split; [constructor|]. intros d ->%list_elem_of_singleton. exists first. split; [done|left].
  - assert (Hkeep : forall d, d ∈ l -> exists x, znth starts d = Some x /\ x ∈ tr ++ [t]).
    { intros d Hd. destruct (Hall d Hd) as (x & Hx & Hin). exists x. rewrite elem_of_app. auto. }
    destruct (decide (i = last_of b)) as [->|Hne].
    + assert (Hb : 0 <= b < zlength starts) by (destruct Hib as (x & Hx & _); by apply znth_Some in Hx).
      assert (Hlast : first <= last_of b < end_).
      { destruct Hib as (x & Hx & _). pose proof (block_range program first end_ starts Hs b x Hx). lia. }
      destruct (flow_step_target op first end_ Hst (last_of b) t Hlast Hstep) as [Htr _].
      destruct (in_block_exists program first end_ Hrange starts Hs t ltac:(lia)) as [c Htc].
      pose proof (step_to_start program first end_ starts Hs Hst b t c Hb Hstep Ht Htc) as Hc.
      exists (l ++ [c]), c. split; [done|]. split.
      * eapply walk_step; [done|]. apply (bg_edge _ _ _ _ _ _ HB). eauto.
      * intros d [Hd|Hd]%elem_of_app; [by apply Hkeep|]. apply list_elem_of_singleton in Hd as ->.
        exists t. split; [done|]. rewrite elem_of_app. right. left.
    + destruct (inner_instruction i b Hib Hne) as [Hb Hin].
      apply (plain_step _ _ Hb) in Hstep as ->. by exists l, b.
Qed.

(** * Blocks and their first instructions *)

Lemma reachable_executed b y : znth starts b = Some y -> reachable G b <-> executed op first end_ y.
Proof.
  intros Hy. rewrite (reachable_walk G). split.
  - intros [l (tr & y' & Hy' & Hp & _)%walk_executed]. exists tr. congruence.
  - intros [tr (l & c & Hc & Hw & _)%executed_walk]. exists l.
    pose proof (bg_split _ _ _ _ _ _ HB) as Hs.
    by rewrite (in_block_unique program first end_ starts Hs y b c
      (start_in_block program first end_ starts Hs b y Hy) Hc).
Qed.

(** From the last instruction of a block on. *)
Lemma always_from_end t a b :
  in_block_ a b -> always_executes op first end_ t (last_of b) -> always_executes op first end_ t a.
Proof.
  intros Hi Hl. remember (Z.to_nat (last_of b - a)) as k eqn:Hk. revert a Hi Hk.
  induction k as [|k IH]; intros a Hi Hk.
  - assert (a = last_of b) as -> by (destruct Hi as (x & _ & ?); lia). done.
  - assert (Hne : a <> last_of b) by lia. destruct (inner_instruction a b Hi Hne) as [Hb Hin].
    apply always_next; [by apply (inner_runs a b)|]. intros u ->%plain_step _; [|done].
    apply IH; [done|lia].
Qed.

(** A block from which [c] must be reached. *)
Lemma must_reach_executes c b x y :
  must_reach G c b -> znth starts c = Some x -> znth starts b = Some y ->
  always_executes op first end_ x y.
Proof.
  intros Hm Hx. revert y. pose proof (bg_split _ _ _ _ _ _ HB) as Hs.
  induction Hm as [|b Hstop Hsucc IH]; intros y Hy.
  - assert (y = x) as -> by congruence. apply always_here.
  - pose proof (znth_Some _ _ _ Hy) as Hb.
    apply (always_from_end x y b); [by apply (start_in_block program first end_ starts Hs)|].
    apply always_next.
    + intros Hst'. apply Hstop. unfold may_stop. rewrite (bg_exit _ _ _ _ _ _ HB b Hb).
      destruct Hst' as [?|[?|Hno]]; [by left; left|by left; right|]. right.
      destruct (fg_succ G b) as [|d ds] eqn:Hd; [done|]. exfalso.
      assert (He : edge G b d).
      { split; [unfold node; rewrite (bg_count _ _ _ _ _ _ HB); lia|]. rewrite Hd. left. }
      apply (bg_edge _ _ _ _ _ _ HB) in He as (_ & t & Hstep & Ht & _). specialize (Hno t Hstep). lia.
    + intros u Hstep Hu. pose proof (block_range program first end_ starts Hs b y Hy) as Hr.
      destruct (flow_step_target op first end_ Hst (last_of b) u ltac:(lia) Hstep) as [Hur _].
      destruct (in_block_exists program first end_ Hrange starts Hs u ltac:(lia)) as [d Hd].
      pose proof (step_to_start program first end_ starts Hs Hst b u d Hb Hstep Hu Hd) as Hsd.
      apply (IH d); [|done]. apply (bg_edge _ _ _ _ _ _ HB). eauto.
Qed.

(** * Instructions inside blocks *)

Lemma in_block_mono i j b c : in_block_ i b -> in_block_ j c -> i <= j -> b <= c.
Proof.
  pose proof (bg_split _ _ _ _ _ _ HB) as Hs. intros (x & Hx & Hi) (y & Hy & Hj) Hij.
  destruct (decide (b <= c)) as [|Hlt]; [done|]. exfalso.
  pose proof (znth_Some _ _ _ Hx). pose proof (znth_Some _ _ _ Hy).
  destruct (znth_is_Some starts (c + 1)) as [z Hz]; [lia|].
  assert (Hend : last_of c = z - 1) by (unfold block_end; by rewrite Hz).
  assert (z <= x); [|lia]. destruct (decide (c + 1 = b)) as [<-|].
  - assert (z = x) as -> by congruence. done.
  - pose proof (sp_sorted _ _ _ _ Hs (c + 1) b z x Hz Hx ltac:(lia)). lia.
Qed.

(** A boundary has a block of its own. *)
Lemma boundary_start i b :
  in_block_ i b -> is_boundary (op i) = true -> znth starts b = Some i /\ last_of b = i.
Proof.
  intros Hib Hb. pose proof (bg_split _ _ _ _ _ _ HB) as Hs.
  destruct (decide (i = last_of b)) as [Heq|Hne].
  2:{ destruct (inner_instruction i b Hib Hne). congruence. }
  split; [|done]. destruct Hib as (x & Hx & Hi).
  pose proof (block_range program first end_ starts Hs b x Hx) as Hr.
  assert (Hin : i ∈ starts) by (apply (sp_in _ _ _ _ Hs); split; [lia|]; right; by left).
  apply znth_elem_of in Hin as [d Hd].
  rewrite (in_block_unique program first end_ starts Hs i b d); [done|by exists x|].
  by apply (start_in_block program first end_ starts Hs).
Qed.

Lemma after_boundary_start i b :
  in_block_ (i + 1) b -> first <= i -> is_boundary (op i) = true -> znth starts b = Some (i + 1).
Proof.
  intros Hib Hf Hb. pose proof (bg_split _ _ _ _ _ _ HB) as Hs.
  assert (Hr : i + 1 < end_).
  { destruct Hib as (x & Hx & Hi). pose proof (block_range program first end_ starts Hs b x Hx). lia. }
  assert (Hin : i + 1 ∈ starts).
  { apply (sp_in _ _ _ _ Hs). split; [lia|]. right; right. split; [lia|].
    by replace (i + 1 - 1) with i by lia. }
  apply znth_elem_of in Hin as [d Hd].
  by rewrite (in_block_unique program first end_ starts Hs (i + 1) b d Hib
    (start_in_block program first end_ starts Hs d _ Hd)).
Qed.

Lemma dominates_inner d b x j :
  znth starts d = Some x -> in_block_ j b -> dominates G d b <-> executed_before op first end_ x j.
Proof.
  intros Hx Hj. pose proof (bg_split _ _ _ _ _ _ HB) as Hs.
  assert (Hto : forall l, walk G 0 l b -> exists tr, path op first end_ first tr j /\
    forall k, k ∈ tr -> exists d, d ∈ l /\ in_block_ k d).
  { intros l Hw. destruct (walk_executed l b Hw) as (tr & y & Hy & Hp & Hall).
    destruct (path_to first tr y j b) as (tr' & Hp' & Hall'); [done| |done| |].
    - by apply (start_in_block program first end_ starts Hs).
    - destruct Hj as (y' & Hy' & Hj). assert (y' = y) as -> by congruence. lia.
    - exists tr'. split; [done|]. intros k Hk. destruct (Hall' k Hk) as [Hk'|Hk']; [by apply Hall|].
      exists b. split; [by eapply walk_end|done]. }
  split; intros [Hr Hd]; split.
  - apply (reachable_walk G) in Hr as [l (tr & Hp & _)%Hto]. by exists tr.
  - intros tr (l & c & Hc & Hw & Hall)%executed_walk.
    rewrite (in_block_unique program first end_ starts Hs j c b Hc Hj) in Hw.
    destruct (Hall d (Hd l Hw)) as (x' & Hx' & Hin). by assert (x' = x) as -> by congruence.
  - destruct Hr as [tr (l & c & Hc & Hw & _)%executed_walk]. apply (reachable_walk G). exists l.
    by rewrite <- (in_block_unique program first end_ starts Hs j c b Hc Hj).
  - intros l (tr & Hp & Hall)%Hto. destruct (Hall x (Hd tr Hp)) as (e & He & Hin).
    by rewrite (in_block_unique program first end_ starts Hs x d e
      (start_in_block program first end_ starts Hs d x Hx) Hin).
Qed.

(** A step is an edge or stays in its block. *)
Lemma step_edge k j a c :
  flow_step op first k j -> j < end_ -> in_block_ k a -> in_block_ j c ->
  (edge G a c /\ k = last_of a /\ znth starts c = Some j) \/ (a = c /\ j = k + 1).
Proof.
  intros Hstep Hj Hk Hjc. pose proof (bg_split _ _ _ _ _ _ HB) as Hs.
  destruct (decide (k = last_of a)) as [Heq|Hne].
  - left. subst k. assert (Ha : 0 <= a < zlength starts) by (destruct Hk as (x & Hx & _); by apply znth_Some in Hx).
    pose proof (step_to_start program first end_ starts Hs Hst a j c Ha Hstep Hj Hjc) as Hc.
    split_and!; [|done|done]. apply (bg_edge _ _ _ _ _ _ HB). eauto.
  - right. destruct (inner_instruction k a Hk Hne) as [Hb Hin].
    apply (plain_step _ _ Hb) in Hstep as ->. split; [|done].
    by eapply (in_block_unique program first end_ starts Hs (k + 1)).
Qed.

(** * From runs of blocks to executions *)

Definition start_of (b : Z) : Z := default 0 (znth starts b).

Lemma start_of_ok b : 0 <= b < zlength starts -> znth starts b = Some (start_of b).
Proof. intros Hb. unfold start_of. by destruct (znth_is_Some starts b Hb) as [x ->]. Qed.

(** Where execution along [run] is after some instructions: the number of the
    block in [run], and the instruction. *)
Fixpoint along (run : nat -> Z) (n : nat) : nat * Z :=
  match n with
  | O => (O, start_of (run O))
  | S n => let '(k, i) := along run n in
      if decide (i = last_of (run k)) then (S k, start_of (run (S k))) else (k, i + 1)
  end.

Lemma edge_steps a b : edge G a b -> flow_step op first (last_of a) (start_of b) /\ start_of b < end_ /\
  0 <= a < zlength starts /\ 0 <= b < zlength starts.
Proof.
  intros (Ha & t & Hstep & Ht & Hb)%(bg_edge _ _ _ _ _ _ HB).
  unfold start_of. rewrite Hb. split; [done|]. split; [done|]. split; [lia|]. apply znth_Some in Hb. lia.
Qed.

Lemma along_step run n :
  (forall k, edge G (run k) (run (S k))) ->
  in_block_ (along run n).2 (run (along run n).1) ->
  flow_step op first (along run n).2 (along run (S n)).2 /\ (along run (S n)).2 < end_ /\
  in_block_ (along run (S n)).2 (run (along run (S n)).1).
Proof.
  intros Hrun. cbn [along]. destruct (along run n) as [k i]. cbn [fst snd]. intros Hin.
  pose proof (bg_split _ _ _ _ _ _ HB) as Hs. case_decide as Hd; cbn [fst snd].
  - destruct (edge_steps _ _ (Hrun k)) as (Hstep & Hlt & _ & Hb). split; [by rewrite Hd|]. split; [done|].
    apply (start_in_block program first end_ starts Hs). by apply start_of_ok.
  - destruct (inner_instruction i (run k) Hin Hd) as [Hb Hin']. split; [by apply plain_falls|].
    split; [|done]. destruct Hin' as (x & Hx & Hi).
    pose proof (block_range program first end_ starts Hs (run k) x Hx). lia.
Qed.

Lemma along_endless run a :
  infinite_run G a run -> endless op first end_ (start_of a) (fun n => (along run n).2) /\
  forall n, in_block_ (along run n).2 (run (along run n).1).
Proof.
  intros [H0 Hrun]. assert (Hin : forall n, in_block_ (along run n).2 (run (along run n).1)).
  { induction n as [|n IH]; [|by apply along_step]. cbn.
    apply (start_in_block program first end_ starts (bg_split _ _ _ _ _ _ HB)), start_of_ok.
    by destruct (edge_steps _ _ (Hrun 0%nat)) as (_ & _ & ? & _). }
  split; [|done]. split; [by rewrite <- H0|]. intros n. destruct (along_step run n Hrun (Hin n)) as (? & ? & _). done.
Qed.

(** So what is always executed is always reached. *)
Lemma executes_always_reaches c b x y :
  znth starts c = Some x -> znth starts b = Some y ->
  always_executes op first end_ x y -> always_reaches G c b.
Proof.
  intros Hx Hy [Hrun Hpath]. pose proof (bg_split _ _ _ _ _ _ HB) as Hs.
  assert (Hxc : forall d, in_block_ x d -> d = c).
  { intros d Hd. apply (in_block_unique program first end_ starts Hs x); [done|].
    by apply (start_in_block program first end_ starts Hs). }
  split.
  - intros run Hr. destruct (along_endless run b Hr) as [He Hin].
    assert (Hyb : start_of b = y) by (unfold start_of; by rewrite Hy).
    rewrite Hyb in He. destruct (Hrun _ He) as [n Hn]. exists (along run n).1. apply Hxc.
    rewrite <- Hn. apply Hin.
  - intros l d Hw Hstop. destruct (walk_path b l d y Hy Hw) as (tr & z & Hz & Hp & Hall).
    destruct (path_through y tr z d Hp (start_in_block program first end_ starts Hs d z Hz))
      as (tr' & Hp' & Hall').
    assert (Hd : 0 <= d < zlength starts) by by apply znth_Some in Hz.
    assert (Hin : x ∈ tr').
    { apply (Hpath _ _ Hp'). destruct Hstop as [He|He].
      - apply (bg_exit _ _ _ _ _ _ HB d Hd) in He as [?|?]; [by left|by right; left].
      - right; right. intros t Hstep. destruct (decide (end_ <= t)) as [|Hlt]; [done|]. exfalso.
        pose proof (block_range program first end_ starts Hs d z Hz) as Hr.
        destruct (flow_step_target op first end_ Hst (last_of d) t ltac:(lia) Hstep) as [Htr _].
        destruct (in_block_exists program first end_ Hrange starts Hs t ltac:(lia)) as [e Hte].
        pose proof (step_to_start program first end_ starts Hs Hst d t e Hd Hstep ltac:(lia) Hte) as Hse.
        assert (Hedge : edge G d e) by (apply (bg_edge _ _ _ _ _ _ HB); split; [done|exists t; split; [done|split; [lia|done]]]).
        destruct Hedge as [_ Hedge]. rewrite He in Hedge. by apply not_elem_of_nil in Hedge. }
    destruct (Hall' x Hin) as [Hj|Hj].
    + destruct (Hall x Hj) as (e & Hel & Hxe). by rewrite <- (Hxc e Hxe).
    + rewrite <- (Hxc d Hj). by eapply walk_end.
Qed.
End trace.
