(* ===== verification/CfgAnalysis.v ===== *)
(** The analyses of the graphs the builder makes: what [compute_dominance]
    leaves behind, and what [hlsl_cfg_dominates], [hlsl_cfg_must_reach],
    [hlsl_cfg_if_region] and [instructions_have_unambiguous_path] say about the
    executions of the program. *)

From S2P Require Import Prelude CArray UnityCommon Heap Usil Cfg FlowGraph Postorder Dominance Frontier MustReach FlowStructure FlowMatch FlowStep CfgBlocks CfgBuild FlowTrace.

#[local] Set Warnings "-register-all".

Section analysis.
Context `{U : UnityCommon} {HU : UnityCommonSpec U} `{L : LibcMalloc}.
Context (program : USILProgram) (first end_ : Z).

Abbreviation op := (op_of program).
Abbreviation count := (up_instruction_count program).

(** A built graph with its dominator tree [idom] and its dominance frontiers. *)
Record analysed_graph (cfg : HLSLControlFlowGraph) (starts : list Z) (G : flow_graph)
    (idom : list Z) : Prop := {
  ag_structured : structured op first end_;
  ag_built : exists cfg0 frontiers counts, built_graph program first end_ cfg0 starts G /\
    frontier_holds G (frontiers, counts) (in_frontier G) /\
    cfg = cfg0 <| cfg_idom := Some idom |> <| cfg_df := Some frontiers |>
               <| cfg_df_count := Some counts |>;
  ag_tree : dominator_tree G idom;
}.

Lemma represents_more cfg G idom frontiers counts :
  represents cfg G ->
  represents (cfg <| cfg_idom := Some idom |> <| cfg_df := Some frontiers |>
                  <| cfg_df_count := Some counts |>) G.
Proof.
  intros [Hc Hb Hr]. split; [done|done|]. intros b Hn.
  destruct (Hr b Hn) as (block & Hat & []). exists block. by split.
Qed.

Lemma analysed_represents cfg starts G idom : analysed_graph cfg starts G idom -> represents cfg G.
Proof.
  intros [_ (cfg0 & fs & cs & HB & _ & ->) _]. apply represents_more, (bg_represents _ _ _ _ _ _ HB).
Qed.

(** The computation, on a fresh graph. *)
Lemma compute_dominance_spec {E} cfg starts G :
  structured op first end_ -> built_graph program first end_ cfg starts G ->
  exists ok cfg', compute_dominance (E:=E) cfg = Ret (ok, cfg') /\
    ((ok = true /\ exists idom, analysed_graph cfg' starts G idom) \/
     (ok = false /\ cfg' = cfg /\ malloc_failed)).
Proof.
  intros Hst HB. pose proof HB as [_ _ _ _ _ _ HR HG _ _ [Hs Hp] _ (Hi & Hd & Hdc)].
  pose proof (fg_count_ok G HG) as Hn. pose proof (rp_count _ _ HR) as Hc.
  unfold compute_dominance, INT_MAX in *. rewrite Hi, Hd, Hdc, Hc.
  rewrite !size_multiply_overflows_spec by (unfold in_u64; lia).
  rewrite !(proj2 (Z.leb_gt (2 ^ 64) _)) by lia.
  rewrite (proj2 (Z.ltb_ge _ _)), (proj2 (Z.eqb_neq _ _)) by lia. cbn [is_null negb orb].
  pose proof (rp_blocks _ _ HR). destruct (cfg_blocks cfg); [|done].
  destruct (cfg_successor_storage cfg); [|done]. destruct (cfg_predecessor_storage cfg); [|done].
  cbn [is_null orb].
  destruct (libc_malloc (fg_count G * 4)) eqn:H1; cbn [andb negb];
    [|exists false, cfg; split; [done|]; right; split_and!; try done; by eexists].
  destruct (libc_malloc (fg_count G * 8)) eqn:H2; cbn [negb];
    [|exists false, cfg; split; [done|]; right; split_and!; try done; by eexists].
  pose proof (dominance_tree_spec G HG cfg HR) as Ht.
  destruct (dominance_tree cfg) as [idom|[]|]; cbn in Ht; mstep; [| |done].
  2:{ exists false, cfg. split; [done|]. by right. }
  pose proof (dominance_frontiers_spec G HG cfg HR idom Ht) as Hf.
  destruct (dominance_frontiers cfg idom) as [[fs cs]|[]|]; cbn in Hf; mstep; [| |done].
  2:{ exists false, cfg. split; [done|]. by right. }
  eexists true, _. split; [done|]. left. split; [done|]. exists idom. split; [done| |done].
  by exists cfg, fs, cs.
Qed.

(** * Queries *)

Section queries.
Hypothesis Hprog : program_ok program.
Hypothesis Hrange : 0 <= first < end_ /\ end_ <= count.

Context (cfg : HLSLControlFlowGraph) (starts : list Z) (G : flow_graph) (idom : list Z).
Context (HA : analysed_graph cfg starts G idom).

Abbreviation in_block_ := (in_block end_ starts).

Lemma analysed_ok : flow_graph_ok G.
Proof. destruct HA as [_ (cfg0 & fs & cs & HB & _) _]. apply (bg_ok _ _ _ _ _ _ HB). Qed.

Lemma dominates_answer {E} d b :
  exists v, hlsl_cfg_dominates (E:=E) cfg d b = Ret v /\ (v = true <-> dominates G d b).
Proof.
  apply (hlsl_cfg_dominates_spec G analysed_ok idom (ag_tree _ _ _ _ HA)).
  - apply (rp_count _ _ (analysed_represents _ _ _ _ HA)).
  - by destruct HA as [_ (cfg0 & fs & cs & _ & _ & ->) _].
Qed.

Lemma must_reach_answer {E} start target :
  exists v, hlsl_cfg_must_reach (E:=E) cfg start target = Ret v /\
    (v = true -> reachable G start /\ reachable G target /\ must_reach G target start) /\
    (v = false -> malloc_failed \/
       ~ (reachable G start /\ reachable G target /\ always_reaches G target start)).
Proof.
  apply (hlsl_cfg_must_reach_spec G analysed_ok cfg (analysed_represents _ _ _ _ HA) idom
    (ag_tree _ _ _ _ HA)).
  by destruct HA as [_ (cfg0 & fs & cs & _ & _ & ->) _].
Qed.

(** The number of a block in [instruction_block]. *)
Lemma block_of {E} map i :
  numbers_hold program first end_ starts map -> 0 <= i < count ->
  exists b, aget (E:=E) map i = Ret b /\ (in_block_ i b \/ (b = -1 /\ ~ first <= i < end_)).
Proof.
  intros [Hl Hm] Hi. destruct (znth_is_Some map i) as [b Hb]; [lia|].
  exists b. split; [by apply aget_ok|]. by apply Hm.
Qed.

Lemma foreign_block_spec {E} header join index :
  0 <= index < zlength starts ->
  exists v, foreign_block (E:=E) cfg header join index = Ret v /\
    (v = false <-> dominates G header index /\ forall p, edge G p index -> header <= p < join).
Proof.
  intros Hi. pose proof analysed_ok as HG. pose proof (analysed_represents _ _ _ _ HA) as HR.
  assert (Hn : node G index).
  { destruct HA as [_ (cfg0 & fs & cs & HB & _) _]. unfold node. rewrite (bg_count _ _ _ _ _ _ HB). lia. }
  unfold foreign_block. destruct (read_block cfg G HR (E:=E) index Hn) as (block & -> & Hbl). mstep.
  destruct (dominates_answer (E:=E) header index) as (v & -> & Hv). mstep. destruct v; cbn [negb].
  2:{ exists true. split; [done|]. split; [done|]. intros [Hd _]. apply Hv in Hd. done. }
  rewrite (br_pred_count _ _ _ _ Hbl).
  destruct (any_index_array (E:=E) (fg_pred G index) (fun p => ~ header <= p < join)
    (fun e => p ← predecessor_at cfg block e; Ret ((p <? header) || (join <=? p)))) as (v & -> & Hv').
  { intros e p He. rewrite (br_pred _ _ _ _ Hbl e p He). mstep. eexists. split; [done|].
    rewrite orb_true_iff, Z.ltb_lt, Z.leb_le. lia. }
  exists v. split; [done|]. split.
  - intros ->. split; [by apply Hv|]. intros p Hp. destruct (decide (header <= p < join)) as [|Hout]; [done|].
    assert (Hn' : ~ (false = true)) by done. rewrite Hv' in Hn'. exfalso. apply Hn'. exists p.
    split; [by apply fg_inverse|done].
  - intros [_ Hall]. destruct v; [|done]. destruct (proj1 Hv' eq_refl) as (p & Hp & Hout).
    exfalso. apply Hout, Hall. by apply fg_inverse.
Qed.

(** The instructions from [i] to [e] are entered at [i] only, and left for
    [e + 1] only, which is executed once [i] is. *)
Record single_entry (i e : Z) : Prop := {
  se_before : executed_before op first end_ i (e + 1);
  se_after : always_executes op first end_ (e + 1) i;
  se_inside j : i < j <= e -> executed_before op first end_ i j;
  se_entry k j : first <= k < end_ -> i < j <= e -> flow_step op first k j -> i <= k <= e;
}.

(** What an IF region promises. *)
Record if_region_of (i : Z) (r : HLSLIfRegion) : Prop := {
  ro_if : op i = USIL_OP_IF;
  ro_end : end_of op first i (ir_end_instruction r) /\ ir_end_instruction r + 1 < end_;
  ro_else : known first end_ (else_of op first i) (ir_else_instruction r);
  ro_header : in_block_ i (ir_header_block r);
  ro_true : in_block_ (i + 1) (ir_true_block r);
  ro_false : in_block_ ((if 0 <=? ir_else_instruction r then ir_else_instruction r
                         else ir_end_instruction r) + 1) (ir_false_block r);
  ro_join : in_block_ (ir_end_instruction r + 1) (ir_join_block r);
  ro_single : single_entry i (ir_end_instruction r);
}.

(** What the checks on the blocks say about the instructions. *)
Lemma region_single_entry i e header join :
  op i = USIL_OP_IF -> end_of op first i e -> first <= i -> e + 1 < end_ ->
  in_block_ i header -> in_block_ (e + 1) join ->
  dominates G header join -> must_reach G join header ->
  (forall b, header < b < join -> dominates G header b /\ forall p, edge G p b -> header <= p < join) ->
  single_entry i e.
Proof.
  intros Hop He Hf Hlt Hh Hj Hdom Hmust Hall.
  destruct HA as [Hst (cfg0 & fs & cs & HB & _) _]. pose proof (bg_split _ _ _ _ _ _ HB) as Hs.
  pose proof (inside_lt op first i e (proj1 He)) as Hie.
  destruct (boundary_start _ _ _ _ _ _ HB i header Hh ltac:(by rewrite Hop)) as [Hsh Hlh].
  assert (Hbe : is_boundary (op e) = true) by (destruct He as [_ [Hc _]]; by destruct (op e)).
  pose proof (after_boundary_start _ _ _ _ _ _ HB e join Hj ltac:(lia) Hbe) as Hsj.
  assert (Hmid : forall j b, i < j <= e -> in_block_ j b -> header < b < join).
  { intros j b Hjr Hb. pose proof (in_block_mono _ _ _ _ _ _ HB i j header b Hh Hb ltac:(lia)).
    pose proof (in_block_mono _ _ _ _ _ _ HB j (e + 1) b join Hb Hj ltac:(lia)).
    assert (header <> b) by (intros ->; destruct Hb as (x & _ & ?); lia).
    assert (b <> join); [|lia]. intros ->. destruct Hb as (x & Hx & ?).
    assert (x = e + 1) by congruence. lia. }
  split.
  - by apply (dominates_inner program first end_ Hrange starts G cfg0 Hst HB header join i (e + 1)).
  - by apply (must_reach_executes program first end_ Hrange starts G cfg0 Hst HB join header).
  - intros j Hjr. destruct (in_block_exists program first end_ Hrange starts Hs j ltac:(lia)) as [b Hb].
    apply (dominates_inner program first end_ Hrange starts G cfg0 Hst HB header b i j); [done..|].
    by apply Hall, (Hmid j).
  - intros k j Hk Hjr Hstep.
    destruct (in_block_exists program first end_ Hrange starts Hs j ltac:(lia)) as [b Hb].
    destruct (in_block_exists program first end_ Hrange starts Hs k Hk) as [a Ha].
    destruct (step_edge program first end_ starts G cfg0 Hst HB k j a b Hstep ltac:(lia) Ha Hb)
      as [(Hedge & _ & _)|[_ ->]]; [|lia].
    pose proof (proj2 (Hall b (Hmid j b Hjr Hb)) a Hedge) as Har.
    destruct (decide (i <= k)) as [Hik|Hik].
    + split; [done|]. destruct (decide (k <= e)) as [|Hke]; [done|].
      pose proof (in_block_mono _ _ _ _ _ _ HB (e + 1) k join a Hj Ha ltac:(lia)). lia.
    + pose proof (in_block_mono _ _ _ _ _ _ HB k i a header Ha Hh ltac:(lia)).
      assert (a = header) as -> by lia. destruct Ha as (x & Hx & ?). assert (x = i) by congruence. lia.
Qed.

Lemma if_region_spec {E} i :
  (0 <= i < count -> first <= i < end_) ->
  exists o, hlsl_cfg_if_region (E:=E) (emitter_context program cfg) i = Ret o /\
    forall r, o = Some r -> if_region_of i r.
Proof.
  intros Hir. assert (Hno : exists o, Ret (E:=E) None = Ret o /\ forall r, o = Some r -> if_region_of i r)
    by (exists (@None HLSLIfRegion); split; [done|]; by intros r [=]).
  assert (Hprog' := Hprog). destruct Hprog' as (l & Hl & Hln).
  unfold hlsl_cfg_if_region. cbn [emitter_context ctx_program ctx_cfg]. rewrite Hl.
  destruct ((i <? 0) || (count <=? i)) eqn:Hg; [done|]. bools. specialize (Hir ltac:(lia)).
  rewrite (opcode_at_ok program i) by (done || lia). mstep.
  destruct (op_is (op i) USIL_OP_IF) eqn:Hop; cbn [negb]; [|done]. apply op_is_true in Hop.
  assert (HA' := HA). destruct HA' as [Hst (cfg0 & fs & cs & HB & _ & Hcfg) _].
  pose proof (rp_blocks _ _ (analysed_represents _ _ _ _ HA)) as Hblocks.
  destruct (cfg_blocks cfg) as [blocks|]; [|done].
  destruct (bg_flow _ _ _ _ _ _ HB) as (flow & Hflow & Hlinks).
  destruct (bg_map _ _ _ _ _ _ HB) as (map & Hmap & Hnum).
  pose proof (bg_instructions _ _ _ _ _ _ HB) as Hcount.
  assert (Hf : cfg_instruction_flow cfg = Some flow) by by rewrite Hcfg.
  assert (Hm : cfg_instruction_block cfg = Some map) by by rewrite Hcfg.
  assert (Hc : cfg_instruction_count cfg = count) by by rewrite Hcfg.
  rewrite Hf, Hm, Hc, Z.eqb_refl. cbn [negb].
  destruct (znth_is_Some flow i) as [f Hfi]; [rewrite (fk_length _ _ _ _ Hlinks); lia|].
  rewrite (aget_ok _ _ _ Hfi). mstep. pose proof (fk_links _ _ _ _ Hlinks i f Hir Hfi) as Hln'.
  destruct ((fl_end f <=? i) || (count - 1 <=? fl_end f)) eqn:Hg; [done|]. bools.
  assert (He : end_of op first i (fl_end f)).
  { destruct (ln_end _ _ _ _ _ Hln') as [[Hn _]|[_ [He|(s & (_ & _ & Helse) & _)]]]; [lia|done|congruence]. }
  set (e := fl_end f) in *. set (skip := if 0 <=? fl_alternate f then fl_alternate f else e).
  assert (Hskip : i < skip <= e).
  { unfold skip. destruct (Z.leb_spec 0 (fl_alternate f)); [|lia].
    destruct (ln_alternate _ _ _ _ _ Hln') as [[? _]|[_ Helse]]; [lia|].
    pose proof (inside_lt op first _ _ (proj1 Helse)).
    pose proof (inside_before_end op first _ _ _ (proj1 Helse) He). lia. }
  destruct (block_of (E:=E) map i Hnum ltac:(lia)) as (header & -> & Hh). mstep.
  destruct (block_of (E:=E) map (i + 1) Hnum ltac:(lia)) as (yes & -> & Hy). mstep.
  destruct (block_of (E:=E) map (skip + 1) Hnum ltac:(lia)) as (no & -> & Hn). mstep.
  destruct (block_of (E:=E) map (e + 1) Hnum ltac:(lia)) as (join & -> & Hj). mstep.
  destruct (dominates_answer (E:=E) header join) as (v & -> & Hdom). mstep.
  destruct v; cbn [negb]; [|done]. assert (Hd : dominates G header join) by by apply Hdom.
  destruct (must_reach_answer (E:=E) header join) as (v & -> & Hmust & _). mstep.
  destruct v; cbn [negb]; [|done]. destruct Hmust as (_ & Hrj & Hmr); [done|].
  assert (Hjn : node G join) by (by apply (reachable_node G analysed_ok)).
  unfold node in Hjn. rewrite (bg_count _ _ _ _ _ _ HB) in Hjn.
  destruct Hh as [Hh|[_ Hh]]; [|lia]. destruct Hj as [Hj|[-> _]]; [|lia].
  assert (Hjr : e + 1 < end_).
  { destruct Hj as (x & Hx & Hjx).
    pose proof (block_range program first end_ starts (bg_split _ _ _ _ _ _ HB) join x Hx). lia. }
  destruct Hy as [Hy|[_ Hy]]; [|lia]. destruct Hn as [Hn|[_ Hn]]; [|lia].
  assert (Hh0 : 0 <= header) by (destruct Hh as (x & Hx & _); apply znth_Some in Hx; lia).
  destruct (any_index_spec (E:=E) (fun b => foreign_block (E:=E) cfg header join b = Ret true)
    (Z.to_nat (join - (header + 1))) (header + 1) (foreign_block cfg header join)) as (v & -> & Hv).
  { intros b Hb. destruct (foreign_block_spec (E:=E) header join b ltac:(lia)) as (w & -> & _).
    exists w. split; [done|]. by destruct w. }
  mstep. destruct v; [done|]. eexists. split; [done|]. intros r [= <-].
  split; cbn [ir_end_instruction ir_else_instruction ir_header_block ir_true_block ir_false_block ir_join_block];
    try done.
  - by apply (ln_alternate _ _ _ _ _ Hln').
  - apply (region_single_entry i e header join); try done; [lia|]. intros b Hb.
    destruct (foreign_block_spec (E:=E) header join b ltac:(lia)) as (w & Hw & HP). apply HP.
    destruct w; [|done]. exfalso. enough (false = true) by done. apply Hv. exists b. split; [lia|done].
Qed.
End queries.

(** * Straight paths *)

Section straight.
Hypothesis Hrange : 0 <= first < end_ /\ end_ <= count.

Context (cfg : HLSLControlFlowGraph) (starts : list Z) (G : flow_graph).
Context (Hst : structured op first end_) (HB : built_graph program first end_ cfg starts G).

Abbreviation in_block_ := (in_block end_ starts).

(** From [a] to [b] each instruction leads to the next one only, and the next
    one is only reached from it. *)
Definition straight_path (a b : Z) : Prop := forall k, a <= k < b ->
  (forall t, flow_step op first k t -> t < end_ -> t = k + 1) /\
  (forall j, first <= j < end_ -> flow_step op first j (k + 1) -> j = k).

Lemma singleton_list {A} (l : list A) x : zlength l = 1 -> x ∈ l -> l = [x].
Proof.
  destruct l as [|y [|z l]]; unfold zlength; cbn; intros Hl Hx; [lia| |lia].
  by apply list_elem_of_singleton in Hx as ->.
Qed.

Lemma only_step_spec {E} c :
  0 <= c -> c + 1 < zlength starts ->
  exists v, only_step (E:=E) cfg c = Ret v /\
    (v = true -> fg_succ G c = [c + 1] /\ fg_pred G (c + 1) = [c]).
Proof.
  intros Hc0 Hc. pose proof (bg_represents _ _ _ _ _ _ HB) as HR. pose proof (bg_ok _ _ _ _ _ _ HB) as HG.
  pose proof (bg_count _ _ _ _ _ _ HB) as Hn.
  assert (Hno : exists v, Ret (E:=E) false = Ret v /\
    (v = true -> fg_succ G c = [c + 1] /\ fg_pred G (c + 1) = [c])) by (by exists false).
  destruct (read_block cfg G HR (E:=E) c) as (cur & Hcur & Hbc); [unfold node; lia|].
  destruct (read_block cfg G HR (E:=E) (c + 1)) as (next & Hnext & Hbn); [unfold node; lia|].
  unfold only_step. rewrite Hcur. mstep. rewrite Hnext. mstep.
  destruct (_ || _ || _) eqn:Hg; [done|]. bools. rewrite (br_succ_count _ _ _ _ Hbc) in *.
  destruct (znth_is_Some (fg_succ G c) 0) as [s Hs]; [lia|].
  rewrite (br_succ _ _ _ _ Hbc 0 s Hs). mstep. eexists. split; [done|]. intros Hv. bools. subst s.
  assert (Hin : c + 1 ∈ fg_succ G c) by (apply znth_elem_of; eauto).
  split; [by apply singleton_list|]. apply singleton_list.
  - rewrite <- (br_pred_count _ _ _ _ Hbn). lia.
  - apply (fg_inverse G HG); unfold edge, node; [lia|]. split; [lia|done].
Qed.

Lemma straight_blocks a b c d :
  in_block_ a c -> in_block_ b d ->
  (forall e, c <= e < d -> fg_succ G e = [e + 1] /\ fg_pred G (e + 1) = [e]) -> straight_path a b.
Proof.
  intros Ha Hb Hall k Hk. pose proof (bg_split _ _ _ _ _ _ HB) as Hs.
  assert (Hr : first <= a /\ b < end_).
  { destruct Ha as (x & Hx & ?), Hb as (y & Hy & ?).
    pose proof (block_range program first end_ starts Hs c x Hx).
    pose proof (block_range program first end_ starts Hs d y Hy). lia. }
  destruct (in_block_exists program first end_ Hrange starts Hs k ltac:(lia)) as [e He].
  destruct (in_block_exists program first end_ Hrange starts Hs (k + 1) ltac:(lia)) as [e' He'].
  pose proof (in_block_mono _ _ _ _ _ _ HB a k c e Ha He ltac:(lia)).
  pose proof (in_block_mono _ _ _ _ _ _ HB k (k + 1) e e' He He' ltac:(lia)).
  pose proof (in_block_mono _ _ _ _ _ _ HB (k + 1) b e' d He' Hb ltac:(lia)).
  assert (Hnext : e' = e \/ (e' = e + 1 /\ znth starts e' = Some (k + 1))).
  { destruct (decide (k = block_end end_ starts e)) as [Heq|Hne].
    - right. destruct He as (x & Hx & _). pose proof (znth_Some _ _ _ Hx).
      destruct (znth starts (e + 1)) as [y|] eqn:Hy.
      + assert (Hyk : y = k + 1) by (unfold block_end in Heq; rewrite Hy in Heq; cbn [from_option] in Heq; unfold id in Heq; lia).
        subst y. rewrite (in_block_unique program first end_ starts Hs (k + 1) e' (e + 1) He'); [done|].
        by apply (start_in_block program first end_ starts Hs).
      + exfalso. unfold block_end in Heq. rewrite Hy in Heq. cbn [from_option] in Heq. lia.
    - left. destruct (inner_instruction program first end_ starts G cfg HB k e He Hne) as [_ Hin].
      by apply (in_block_unique program first end_ starts Hs (k + 1)). }
  split.
  - intros t Hstep Ht. destruct (flow_step_target op first end_ Hst k t ltac:(lia) Hstep) as [Htr _].
    destruct (in_block_exists program first end_ Hrange starts Hs t ltac:(lia)) as [f Hf].
    destruct (step_edge program first end_ starts G cfg Hst HB k t e f Hstep Ht He Hf)
      as [([_ Hedge] & Hlast & Hft)|[_ ->]]; [|done].
    destruct Hnext as [->|[-> Hse]].
    { destruct He' as (x & _ & ?). lia. }
    rewrite (proj1 (Hall e ltac:(lia))) in Hedge. apply list_elem_of_singleton in Hedge as ->. congruence.
  - intros j Hj Hstep. destruct (in_block_exists program first end_ Hrange starts Hs j Hj) as [f Hf].
    destruct (step_edge program first end_ starts G cfg Hst HB j (k + 1) f e' Hstep ltac:(lia) Hf He')
      as [(Hedge & Hlast & Hft)|[_ ?]]; [|lia].
    destruct Hnext as [->|[-> Hse]].
    { destruct He as (x & Hx & ?). assert (x = k + 1) by congruence. lia. }
    pose proof (bg_ok _ _ _ _ _ _ HB) as HG.
    assert (Hn : node G (e + 1)) by by eapply fg_edge_node.
    apply (fg_inverse G HG) in Hedge; [|done]. rewrite (proj2 (Hall e ltac:(lia))) in Hedge.
    apply list_elem_of_singleton in Hedge as ->. subst j. unfold block_end. rewrite Hse. cbn. lia.
Qed.

Lemma unambiguous_path_spec {E} a b :
  exists v, instructions_have_unambiguous_path (E:=E) program cfg a b = Ret v /\
    (v = true -> first <= a <= b /\ b < end_ /\ straight_path a b).
Proof.
  pose proof (bg_split _ _ _ _ _ _ HB) as Hs.
  destruct (bg_map _ _ _ _ _ _ HB) as (map & Hmap & Hnum).
  unfold instructions_have_unambiguous_path. rewrite Hmap.
  assert (Hno : exists v, Ret (E:=E) false = Ret v /\
    (v = true -> first <= a <= b /\ b < end_ /\ straight_path a b)) by (by exists false).
  destruct ((a <? 0) || (b <? a) || (count <=? b)) eqn:Hg; [done|]. bools.
  destruct (block_of starts (E:=E) map a Hnum ltac:(lia)) as (c & -> & Hc). mstep.
  destruct (block_of starts (E:=E) map b Hnum ltac:(lia)) as (d & -> & Hd). mstep.
  destruct ((c <? 0) || (d <? 0)) eqn:Hg; [done|]. bools.
  destruct Hc as [Hc|[? _]]; [|lia]. destruct Hd as [Hd|[? _]]; [|lia].
  pose proof (in_block_mono _ _ _ _ _ _ HB a b c d Hc Hd ltac:(lia)).
  assert (Hdn : d < zlength starts) by (destruct Hd as (y & Hy & _); apply znth_Some in Hy; lia).
  assert (Hr : first <= a /\ b < end_).
  { destruct Hc as (x & Hx & ?), Hd as (y & Hy & ?).
    pose proof (block_range program first end_ starts Hs c x Hx).
    pose proof (block_range program first end_ starts Hs d y Hy). lia. }
  destruct (Z.eqb_spec c d) as [->|Hne].
  { exists true. split; [done|]. intros _. split; [lia|]. split; [lia|].
    apply (straight_blocks a b d d); [done..|]. lia. }
  destruct (any_index_spec (E:=E) (fun e => only_step (E:=E) cfg e = Ret false) (Z.to_nat (d - c)) c
    (fun e => only ← only_step cfg e; Ret (negb only))) as (v & -> & Hv).
  { intros e He. destruct (only_step_spec (E:=E) e ltac:(lia) ltac:(lia)) as (w & -> & _). mstep.
    exists (negb w). split; [done|]. by destruct w. }
  mstep. exists (negb v). split; [done|]. intros ->%negb_true_iff. split; [lia|]. split; [lia|].
  apply (straight_blocks a b c d); [done..|]. intros e He.
  destruct (only_step_spec (E:=E) e ltac:(lia) ltac:(lia)) as (w & Hw & HP). apply HP.
  destruct w; [done|]. exfalso. enough (false = true) by done. apply Hv. exists e. split; [lia|done].
Qed.
End straight.
End analysis.
