(* ===== verification/CfgTheorems.v ===== *)
(** What the control-flow analyses promise about a program, in terms of its
    executions, from the entry points of hlsl_cfg.c; with a sample program that
    meets every hypothesis. *)

From S2P Require Import Prelude CArray UnityCommon Heap Usil Cfg FlowGraph Postorder Dominance Frontier MustReach FlowStructure FlowMatch FlowStep CfgBlocks CfgBuild FlowTrace CfgAnalysis.

#[local] Set Warnings "-register-all".

(** * A sample *)

Definition instructions_of (ops : list USILOpcode) : USILProgram :=
  plain_program 0 ((fun o => plain_instruction o []) <$> ops).

(** An IF with two arms, a loop with a switch in it, and the end. *)
Definition sample_program : USILProgram := instructions_of
  [USIL_OP_MOV; USIL_OP_MOV; USIL_OP_IF; USIL_OP_MOV; USIL_OP_ELSE; USIL_OP_MOV; USIL_OP_ENDIF;
   USIL_OP_LOOP; USIL_OP_BREAKC; USIL_OP_SWITCH; USIL_OP_CASE; USIL_OP_MOV; USIL_OP_BREAK;
   USIL_OP_DEFAULT; USIL_OP_CONTINUE; USIL_OP_ENDSWITCH; USIL_OP_ENDLOOP; USIL_OP_MOV; USIL_OP_RET].

(** An allocator that grants everything. *)
Definition ample_memory : LibcMalloc := fun _ => true.

Lemma instructions_of_ok ops : program_ok (instructions_of ops).
Proof. eexists. split; [reflexivity|]. cbn. unfold zlength. by rewrite length_map. Qed.

Section theorems.
Context `{U : UnityCommon} {HU : UnityCommonSpec U} `{L : LibcMalloc}.
Context (program : USILProgram) (first end_ : Z).

Abbreviation op := (op_of program).
Abbreviation count := (up_instruction_count program).

Record range_ok : Prop := {
  rg_program : program_ok program;
  rg_range : 0 <= first < end_ /\ end_ <= count;
  rg_count : count <= INT_MAX;
}.

(** The graph and its dominance, as the callers compute them:
    [build_control_flow_graph_range(ctx, ...) && compute_dominance(&ctx->cfg)]. *)
Definition analysed : option HLSLControlFlowGraph :=
  match build_control_flow_graph_range (E:=Empty_set)
          (Some (emitter_context program zero_cfg)) first end_ with
  | Ret (true, Some ctx) =>
      match compute_dominance (E:=Empty_set) (ctx_cfg ctx) with
      | Ret (true, cfg) => Some cfg
      | _ => None
      end
  | _ => None
  end.

(** The block of [cfg] that starts at an instruction. *)
Definition starts_at (cfg : HLSLControlFlowGraph) (b x : Z) : Prop :=
  exists block, block_at (E:=Empty_set) cfg b = Ret block /\ 0 <= b < cfg_block_count cfg /\
    bb_first_instruction block = x.

Lemma analysed_inv cfg : range_ok -> analysed = Some cfg ->
  exists starts G idom, analysed_graph program first end_ cfg starts G idom.
Proof.
  intros [Hp Hr Hc]. unfold analysed.
  destruct (build_range_spec program Hp first end_ Hr Hc (E:=Empty_set)) as (r & -> & [H|[-> _]]); [|done].
  destruct H as (cfg0 & starts & G & -> & Hst & HB). cbn [emitter_context ctx_cfg].
  destruct (compute_dominance_spec program first end_ (E:=Empty_set) cfg0 starts G Hst HB)
    as (ok & cfg' & -> & [[-> [idom HA]]|(-> & _ & _)]); [|done].
  intros [= <-]. eauto.
Qed.

Lemma starts_at_inv cfg starts G idom b x :
  analysed_graph program first end_ cfg starts G idom ->
  starts_at cfg b x <-> znth starts b = Some x.
Proof.
  intros HA. pose proof (analysed_represents _ _ _ _ _ _ _ HA) as HR.
  destruct HA as [_ (cfg0 & fs & cs & HB & _ & ->) _]. unfold starts_at. fields.
  assert (Hn : cfg_block_count cfg0 = zlength starts).
  { pose proof (rp_count _ _ HR) as Hc. cbn in Hc. rewrite Hc. apply (bg_count _ _ _ _ _ _ HB). }
  rewrite Hn. split.
  - intros (block & Hat & Hb & <-). destruct (znth_is_Some starts b Hb) as [y Hy].
    destruct (bg_blocks _ _ _ _ _ _ HB b y Hy) as (block' & Hat' & <- & _).
    specialize (Hat' Empty_set). unfold block_at in *. fields. cbn in *. congruence.
  - intros Hx. destruct (bg_blocks _ _ _ _ _ _ HB b x Hx) as (block & Hat & <- & _).
    exists block. split; [apply Hat|]. split; [by apply znth_Some in Hx|done].
Qed.

(** Execution meets the frontier of [x] at [y]: it can step there from below
    [x], and also get there without [x]. *)
Definition meets (x y : Z) : Prop :=
  (exists k, executed_before op first end_ x k /\ flow_step op first k y) /\
  ~ (executed_before op first end_ x y /\ x <> y).

Lemma frontier_meets cfg starts G idom d b x y :
  range_ok -> analysed_graph program first end_ cfg starts G idom ->
  znth starts d = Some x -> znth starts b = Some y -> in_frontier G d b <-> meets x y.
Proof.
  intros [_ Hr _] [Hst (cfg0 & _ & _ & HB & _) _] Hx Hy. pose proof (bg_split _ _ _ _ _ _ HB) as Hs.
  assert (Hyr : first <= y < end_) by (apply (sp_in _ _ _ _ Hs), znth_elem_of; eauto).
  pose proof (fun p j => dominates_inner program first end_ Hr starts G cfg0 Hst HB d p x j Hx) as Hdom.
  unfold in_frontier, meets.
  rewrite (Hdom b y) by by apply (start_in_block program first end_ starts Hs).
  assert (Hxy : d = b <-> x = y).
  { split; [intros ->; congruence|]. intros ->.
    apply (in_block_unique program first end_ starts Hs y); by apply (start_in_block program first end_ starts Hs). }
  assert (Hne : d <> b <-> x <> y) by tauto. rewrite Hne. apply and_iff_compat_r. split.
  - intros (p & (Hp & t & Hstep & Ht & Hb)%(bg_edge _ _ _ _ _ _ HB) & Hd).
    exists (block_end end_ starts p). assert (t = y) as -> by congruence. split; [|done].
    apply (Hdom p); [|done]. destruct (znth_is_Some starts p Hp) as [z Hz]. exists z.
    split; [done|]. pose proof (block_range program first end_ starts Hs p z Hz). lia.
  - intros (k & Hk & Hstep). destruct (proj1 Hk) as [tr Htr].
    destruct (executed_walk program first end_ Hr starts G cfg0 Hst HB tr k Htr) as (_ & p & Hkp & _ & _).
    exists p. split; [|by apply (Hdom p k)].
    destruct (step_edge program first end_ starts G cfg0 Hst HB k y p b Hstep ltac:(lia) Hkp
      (start_in_block program first end_ starts Hs b y Hy)) as [(He & _ & _)|[-> ->]]; [done|].
    exfalso. destruct Hkp as (z & Hz & Hkz). assert (z = k + 1) by congruence. lia.
Qed.

(** C8: [match_flow_structure] accepts exactly the well-structured ranges -
    scopes balanced, at most [MAX_FLOW_DEPTH] deep, one ELSE and one DEFAULT at
    most, labels and jumps in scope - and links every instruction to its scope,
    its end, its ELSE and its labels. *)
Theorem match_flow_structure_iff :
  program_ok program -> 0 <= first <= end_ /\ end_ <= count ->
  (exists flow,
     match_flow_structure program (filled count zero_flow) first end_ = Ret flow /\
     structured op first end_ /\ flow_links program first end_ flow) \/
  (match_flow_structure program (filled count zero_flow) first end_ = Fail tt /\
   ~ structured op first end_).
Proof.
  intros Hp Hr. pose proof (match_flow_structure_spec program Hp first end_ Hr) as Hspec.
  destruct (match_flow_structure _ _ _ _) as [flow|[]|]; cbn in Hspec; [left|by right|done].
  by exists flow.
Qed.

(** C2: on a context without a graph the builder always returns, with no
    undefined behaviour.  It succeeds exactly on the well-structured ranges for
    which there is memory; then the blocks partition the range at its
    boundaries, [instruction_block] and the links are right, a block's
    successors are the blocks its last instruction steps to, its predecessors
    are their inverse, and [may_exit] says where execution may end.  When it
    fails it leaves an empty graph. *)
Theorem build_control_flow_graph_range_correct :
  range_ok -> exists r,
    build_control_flow_graph_range (E:=Empty_set)
      (Some (emitter_context program zero_cfg)) first end_ = Ret r /\
    build_result program first end_ r.
Proof. intros [Hp Hr Hc]. by apply build_range_spec. Qed.

(** C11: the dominance of a built graph is always computed, unless memory runs
    out, which leaves the graph as it was.  The frontier of a block is listed
    without repetition, with its length: the blocks where execution that has
    passed the block meets execution that has not. *)
Theorem compute_dominance_frontiers ctx :
  range_ok ->
  build_control_flow_graph_range (E:=Empty_set)
    (Some (emitter_context program zero_cfg)) first end_ = Ret (true, Some ctx) ->
  (compute_dominance (E:=Empty_set) (ctx_cfg ctx) = Ret (false, ctx_cfg ctx) /\ malloc_failed) \/
  exists cfg frontiers counts,
    compute_dominance (E:=Empty_set) (ctx_cfg ctx) = Ret (true, cfg) /\
    cfg_df cfg = Some frontiers /\ cfg_df_count cfg = Some counts /\
    forall d x, starts_at cfg d x -> exists row,
      znth frontiers d = Some row /\ znth counts d = Some (zlength (default [] row)) /\
      NoDup (default [] row) /\
      forall b, b ∈ default [] row <-> exists y, starts_at cfg b y /\ meets x y.
Proof.
  intros Hok Hbuild. pose proof Hok as [Hp Hr Hc].
  destruct (build_range_spec program Hp first end_ Hr Hc (E:=Empty_set)) as (r & Hrun & Hres).
  rewrite Hrun in Hbuild. injection Hbuild as ->.
  destruct Hres as [(cfg0 & starts & G & [= ->] & Hst & HB)|[[=] _]]. cbn [emitter_context ctx_cfg].
  destruct (compute_dominance_spec program first end_ (E:=Empty_set) cfg0 starts G Hst HB)
    as (ok & cfg & -> & [[-> [idom HA]]|(-> & -> & Hm)]); [right|by left].
  pose proof HA as [_ (cfg1 & fs & cs & HB1 & HF & Hcfg) _].
  exists cfg, fs, cs. split; [done|]. split; [by subst cfg|]. split; [by subst cfg|]. intros d x Hd.
  apply (starts_at_inv _ _ _ _ _ _ HA) in Hd as Hx.
  assert (Hn : forall b, node G b <-> exists y, znth starts b = Some y).
  { intros b. unfold node. rewrite (bg_count _ _ _ _ _ _ HB). split; [apply znth_is_Some|].
    intros [y Hy]. by apply znth_Some in Hy. }
  destruct (fh_at _ _ _ HF d) as (row & Hrow & Hcount & Hnd & Hnode & Hin); [apply Hn; eauto|].
  exists row. split_and!; [done..|]. intros b. rewrite Hin. split.
  - intros Hb. apply Hin in Hb as Hb'. apply Hnode, Hn in Hb' as [y Hy]. exists y.
    split; [by apply (starts_at_inv _ _ _ _ _ _ HA)|]. by eapply frontier_meets.
  - intros (y & Hy & Hm). apply (starts_at_inv _ _ _ _ _ _ HA) in Hy. by eapply frontier_meets.
Qed.

(** C7: [hlsl_cfg_dominates] decides dominance: of two blocks it says yes
    exactly when the second is executed at all and every execution that gets to
    it has been through the first; of anything that is no block it says no. *)
Theorem hlsl_cfg_dominates_iff cfg d b :
  range_ok -> analysed = Some cfg ->
  exists v, hlsl_cfg_dominates (E:=Empty_set) cfg d b = Ret v /\
    (v = true <-> exists x y, starts_at cfg d x /\ starts_at cfg b y /\ executed_before op first end_ x y).
Proof.
  intros Hok Han. destruct (analysed_inv cfg Hok Han) as (starts & G & idom & HA). destruct Hok as [_ Hr _].
  destruct (dominates_answer program first end_ cfg starts G idom HA (E:=Empty_set) d b) as (v & -> & Hv).
  exists v. split; [done|]. rewrite Hv. pose proof HA as [Hst (cfg0 & _ & _ & HB & _) _].
  pose proof (analysed_ok program first end_ cfg starts G idom HA) as HG.
  assert (Hdom : forall x y, znth starts d = Some x -> znth starts b = Some y ->
     dominates G d b <-> executed_before op first end_ x y).
  { intros x y Hx Hy. apply (dominates_inner program first end_ Hr starts G cfg0 Hst HB); [done|].
    by apply (start_in_block program first end_ starts (bg_split _ _ _ _ _ _ HB)). }
  split.
  - intros Hd. assert (Hn : forall c, reachable G c -> exists z, znth starts c = Some z).
    { intros c Hc%(reachable_node G HG). unfold node in Hc. rewrite (bg_count _ _ _ _ _ _ HB) in Hc.
      by apply znth_is_Some. }
    destruct (Hn d) as [x Hx]; [by eapply dominates_reachable|]. destruct (Hn b (proj1 Hd)) as [y Hy].
    exists x, y. rewrite !(starts_at_inv _ _ _ _ _ _ HA). split_and!; [done..|]. by apply Hdom.
  - intros (x & y & Hx & Hy & He). apply (starts_at_inv _ _ _ _ _ _ HA) in Hx, Hy. by eapply Hdom.
Qed.

(** C6: [hlsl_cfg_must_reach] proves liveness: it says yes only when both
    blocks are executed and whatever execution does from the first, it neither
    runs forever nor ends without having been at the second; and it says no
    only when that is not so, or there is no memory for its worklist. *)
Theorem hlsl_cfg_must_reach_live cfg s t x y :
  range_ok -> analysed = Some cfg -> starts_at cfg s y -> starts_at cfg t x ->
  exists v, hlsl_cfg_must_reach (E:=Empty_set) cfg s t = Ret v /\
    (v = true -> executed op first end_ y /\ executed op first end_ x /\
                 always_executes op first end_ x y) /\
    (v = false -> malloc_failed \/
       ~ (executed op first end_ y /\ executed op first end_ x /\ always_executes op first end_ x y)).
Proof.
  intros Hok Han Hy Hx. destruct (analysed_inv cfg Hok Han) as (starts & G & idom & HA). destruct Hok as [_ Hr _].
  apply (starts_at_inv _ _ _ _ _ _ HA) in Hx, Hy.
  destruct (must_reach_answer program first end_ cfg starts G idom HA (E:=Empty_set) s t)
    as (v & -> & Htrue & Hfalse).
  pose proof HA as [Hst (cfg0 & _ & _ & HB & _) _].
  pose proof (reachable_executed program first end_ Hr starts G cfg0 Hst HB) as Hre.
  exists v. split; [done|]. split.
  - intros (Hs & Ht & Hm)%Htrue. split_and!; [by eapply Hre|by eapply Hre|].
    by apply (must_reach_executes program first end_ Hr starts G cfg0 Hst HB t s).
  - intros [?|Hno]%Hfalse; [by left|right]. intros (Hs & Ht & Ha). apply Hno.
    split_and!; [by eapply Hre|by eapply Hre|].
    by apply (executes_always_reaches program first end_ Hr starts G cfg0 Hst HB t s x y).
Qed.

(** C17: [hlsl_cfg_if_region] never reads out of bounds, and a region it returns
    is the IF's: its links and blocks are right, control enters it at the IF
    alone, and once the IF is executed so is the join. *)
Theorem hlsl_cfg_if_region_single_entry cfg i :
  range_ok -> analysed = Some cfg -> (0 <= i < count -> first <= i < end_) ->
  exists o, hlsl_cfg_if_region (E:=Empty_set) (emitter_context program cfg) i = Ret o /\
    forall r, o = Some r -> exists starts, split_at program first end_ starts /\
      (forall b x, starts_at cfg b x <-> znth starts b = Some x) /\
      if_region_of program first end_ starts i r.
Proof.
  intros Hok Han Hi. destruct (analysed_inv cfg Hok Han) as (starts & G & idom & HA). destruct Hok as [Hp Hr _].
  destruct (if_region_spec program first end_ Hp Hr cfg starts G idom HA (E:=Empty_set) i Hi) as (o & -> & Ho).
  exists o. split; [done|]. intros r Hor. exists starts. pose proof HA as [_ (cfg0 & _ & _ & HB & _) _].
  split; [apply (bg_split _ _ _ _ _ _ HB)|]. split; [|by apply Ho].
  intros b x. by apply (starts_at_inv _ _ _ _ _ _ HA).
Qed.

(** When [instructions_have_unambiguous_path] says yes, from the first
    instruction to the second each one leads to the next only, and the next is
    reached from it only; on any arguments it answers, within bounds. *)
Theorem instructions_have_unambiguous_path_straight cfg a b :
  range_ok -> analysed = Some cfg ->
  exists v, instructions_have_unambiguous_path (E:=Empty_set) program cfg a b = Ret v /\
    (v = true -> first <= a <= b /\ b < end_ /\ straight_path program first end_ a b).
Proof.
  intros Hok Han. destruct (analysed_inv cfg Hok Han) as (starts & G & idom & HA). destruct Hok as [_ Hr _].
  destruct HA as [Hst (cfg0 & fs & cs & HB & _ & ->) _].
  exact (unambiguous_path_spec program first end_ Hr cfg0 starts G Hst HB (E:=Empty_set) a b).
Qed.
End theorems.

(** * The hypotheses hold of the sample *)

Section sample.
#[local] Existing Instance unity_common_ref.
#[local] Existing Instance unity_common_ref_spec.
#[local] Existing Instance ample_memory.

Definition sample_cfg : HLSLControlFlowGraph := default zero_cfg (analysed sample_program 0 19).

Lemma sample_ok : range_ok sample_program 0 19.
Proof. split; [apply instructions_of_ok|by vm_compute|by vm_compute]. Qed.

Lemma sample_analysed : analysed sample_program 0 19 = Some sample_cfg.
Proof. by vm_compute. Qed.

Lemma match_flow_structure_iff_witness :
  structured (op_of sample_program) 0 19 /\
  ~ structured (op_of (instructions_of [USIL_OP_IF; USIL_OP_ENDLOOP])) 0 2.
Proof.
  split.
  - destruct (match_flow_structure_iff sample_program 0 19) as [(flow & _ & Hs & _)|[Hf _]];
      [apply instructions_of_ok|by vm_compute|exact Hs|by vm_compute in Hf].
  - destruct (match_flow_structure_iff (instructions_of [USIL_OP_IF; USIL_OP_ENDLOOP]) 0 2)
      as [(flow & Hf & _)|[_ Hs]]; [apply instructions_of_ok|by vm_compute|by vm_compute in Hf|exact Hs].
Defined.

Lemma build_control_flow_graph_range_correct_witness :
  range_ok sample_program 0 19 /\ exists r, build_result sample_program 0 19 r /\ fst r = true.
Proof.
  split; [exact sample_ok|].
  destruct (build_control_flow_graph_range_correct sample_program 0 19 sample_ok) as (r & Hr & Hb).
  exists r. split; [exact Hb|]. destruct r as [[] c]; [reflexivity|by vm_compute in Hr].
Defined.

Definition sample_built : HLSLEmitterContext :=
  match build_control_flow_graph_range (E:=Empty_set)
          (Some (emitter_context sample_program zero_cfg)) 0 19 with
  | Ret (true, Some c) => c
  | _ => emitter_context sample_program zero_cfg
  end.

Lemma compute_dominance_frontiers_witness :
  exists cfg, compute_dominance (E:=Empty_set) (ctx_cfg sample_built) = Ret (true, cfg) /\
    is_null (cfg_df cfg) = false.
Proof.
  destruct (compute_dominance_frontiers sample_program 0 19 sample_built sample_ok ltac:(by vm_compute))
    as [[Hf _]|(cfg & fs & cs & Hrun & Hf & _)].
  - by vm_compute in Hf.
  - exists cfg. split; [exact Hrun|]. by rewrite Hf.
Defined.

(** Block 8 is the SWITCH, block 9 its CASE. *)
Lemma hlsl_cfg_dominates_iff_witness :
  exists x y, starts_at sample_cfg 8 x /\ starts_at sample_cfg 9 y /\
    executed_before (op_of sample_program) 0 19 x y.
Proof.
  destruct (hlsl_cfg_dominates_iff sample_program 0 19 sample_cfg 8 9 sample_ok sample_analysed) as (v & Hv & Hd).
  apply Hd. vm_compute in Hv. injection Hv as <-. reflexivity.
Defined.

Lemma sample_block b x :
  0 <= b < 18 ->
  option_map bb_first_instruction (blocks ← cfg_blocks sample_cfg; znth blocks b) = Some x ->
  starts_at sample_cfg b x.
Proof.
  intros Hb18 Hx. unfold starts_at, block_at. destruct (cfg_blocks sample_cfg) as [blocks|] eqn:Hb; [|done].
  cbn in Hx. destruct (znth blocks b) as [block|] eqn:Hz; [|done]. injection Hx as <-.
  exists block. split; [cbn; by apply aget_ok|]. split; [|done].
  assert (Hn : cfg_block_count sample_cfg = 18) by by vm_compute. by rewrite Hn.
Qed.

(** Block 1 is the IF at 2, block 6 the LOOP at 7, which is always got to. *)
Lemma hlsl_cfg_must_reach_live_witness :
  starts_at sample_cfg 1 2 /\ starts_at sample_cfg 6 7 /\ always_executes (op_of sample_program) 0 19 7 2.
Proof.
  assert (Hs : starts_at sample_cfg 1 2) by by apply sample_block.
  assert (Ht : starts_at sample_cfg 6 7) by by apply sample_block.
  split; [exact Hs|]. split; [exact Ht|].
  destruct (hlsl_cfg_must_reach_live sample_program 0 19 sample_cfg 1 6 7 2 sample_ok sample_analysed Hs Ht)
    as (v & Hv & Hyes & _).
  apply Hyes. vm_compute in Hv. injection Hv as <-. reflexivity.
Defined.

Lemma hlsl_cfg_if_region_single_entry_witness :
  exists starts r, if_region_of sample_program 0 19 starts 2 r.
Proof.
  destruct (hlsl_cfg_if_region_single_entry sample_program 0 19 sample_cfg 2 sample_ok sample_analysed)
    as (o & Ho & Hr).
  - vm_compute. intuition congruence.
  - vm_compute in Ho. injection Ho as <-. destruct (Hr _ eq_refl) as (starts & _ & _ & H). eauto.
Defined.

Lemma instructions_have_unambiguous_path_straight_witness :
  straight_path sample_program 0 19 0 1.
Proof.
  destruct (instructions_have_unambiguous_path_straight sample_program 0 19 sample_cfg 0 1 sample_ok sample_analysed)
    as (v & Hv & Hs).
  vm_compute in Hv. injection Hv as <-. exact (proj2 (proj2 (Hs eq_refl))).
Defined.
End sample.
