(* ===== verification/UsilValidation.v ===== *)
(** The shape checks of USIL instructions:
    [src/translation/usil_validation.c] with [include/translation/usil_validation.h].

    What every operand of an instruction is used for and which lanes of it are
    read, the memory accesses of compute programs, the observable effects of an
    instruction, and the temporaries of hull phases.  A [bool] result with an
    out parameter is [Fail] for [false], [Ret] with what is stored otherwise;
    [NULL] arguments are left out. *)

From stdpp Require Import gmultiset.
From S2P Require Import Prelude CArray UnityCommon ShaderStage StageContract Operand Instruction Usil.

#[local] Set Warnings "-register-all".

(** * Characters and masks *)

Definition literal (s : string) : list byte := String.list_byte_of_string s ++ [Byte.x00].

Definition string_is {E} (a : list byte) (s : string) : res E bool := strings_equal a (literal s).

(** [memchr(a, '\0', sizeof(a))] *)
Definition terminated (a : list byte) : bool := bool_decide (Byte.x00 ∈ a).

(** [a[0]] as a condition. *)
Definition not_empty {E} (a : list byte) : res E bool :=
  c ← aget a 0; Ret (bool_decide (c <> Byte.x00)).

(** [mask & (1u << lane)] *)
Definition has_lane (mask lane : Z) : bool := negb (Z.land mask (Z.shiftl 1 lane) =? 0).

(** * Operands *)

Definition OPERAND_TYPE_TEMP : Z := 0.
Definition OPERAND_TYPE_CONSTANT_BUFFER : Z := 8.
Definition OPERAND_TYPE_OUTPUT_DEPTH : Z := 12.
Definition OPERAND_TYPE_NULL : Z := 13.
Definition OPERAND_TYPE_STREAM : Z := 16.
Definition OPERAND_TYPE_INPUT_THREAD_ID : Z := 32.
Definition OPERAND_TYPE_INPUT_THREAD_GROUP_ID : Z := 33.
Definition OPERAND_TYPE_INPUT_THREAD_ID_IN_GROUP : Z := 34.
Definition OPERAND_TYPE_INPUT_THREAD_ID_IN_GROUP_FLATTENED : Z := 36.
Definition OPERAND_TYPE_OUTPUT_DEPTH_GREATER_EQUAL : Z := 38.
Definition OPERAND_TYPE_OUTPUT_DEPTH_LESS_EQUAL : Z := 39.

Definition usil_operand_destination_lane_mask (destination : DXBCOperand) : Z :=
  if op_type destination =? OPERAND_TYPE_NULL then 0 else
  let mask := u8 (Z.shiftr (op_destination_mask destination) 4) in
  let mask :=
    if (mask =? 0) && ((op_type destination =? OPERAND_TYPE_OUTPUT_DEPTH) ||
                       (op_type destination =? OPERAND_TYPE_OUTPUT_DEPTH_GREATER_EQUAL) ||
                       (op_type destination =? OPERAND_TYPE_OUTPUT_DEPTH_LESS_EQUAL))
    then 1 else mask in
  u8 (Z.land mask 0x0f).

Definition usil_operand_source_component {E} (operand : DXBCOperand) (lane : Z) : res E Z :=
  if (lane <? 0) || (4 <=? lane) || (2 <? op_swizzle_mode operand) then Ret (-1) else
  component ←
    (if op_swizzle_mode operand =? 2 then aget (op_swizzle operand) 0
     else if op_swizzle_mode operand =? 1 then aget (op_swizzle operand) lane
     else Ret lane);
  Ret (if component <? 4 then component else -1).

(** * Textures *)

(** The first texture declared for a register. *)
Fixpoint find_texture {E} (n : nat) (index : Z) (textures : option (list USILTexture)) (reg : Z)
    : res E (option USILTexture) :=
  match n with
  | O => Ret None
  | S n =>
      xs ← ptr textures; texture ← aget xs index;
      if tx_reg_idx texture =? reg then Ret (Some texture)
      else find_texture n (index + 1) textures reg
  end.

(** The coordinates a texture dimension takes, and whether it has mip levels. *)
Fixpoint dimension_lanes {E} (table : list (string * (Z * bool))) (dimension : list byte)
    : res E (option (Z * bool)) :=
  match table with
  | [] => Ret None
  | (name, lanes) :: table =>
      found ← string_is dimension name;
      if found : bool then Ret (Some lanes) else dimension_lanes table dimension
  end.

Definition texture_dimensions : list (string * (Z * bool)) :=
  [("buffer", (1, false)); ("1d", (1, true)); ("1darray", (2, true)); ("2d", (2, true));
   ("2dms", (2, true)); ("2darray", (3, true)); ("2dmsarray", (3, true)); ("3d", (3, true));
   ("cube", (3, true)); ("cubearray", (4, true))]%string.

Definition texture_dimension_lanes (program : USILProgram) (instruction : USILInstruction)
    (resource_operand : Z) (include_lod : bool) : res unit Z :=
  if (resource_operand <? 0) || (ui_operand_count instruction <=? resource_operand) then Fail tt else
  resource ← operand_at instruction resource_operand;
  if negb (op_type resource =? OPERAND_TYPE_RESOURCE) then Fail tt else
  own ← not_empty (ui_resource_dimension instruction);
  dimension ←
    (if own : bool then Ret (ui_resource_dimension instruction)
     else
       texture ← find_texture (Z.to_nat (up_texture_count program)) 0 (up_textures program)
                   (op_register_index resource);
       Ret (from_option tx_dimension (ui_resource_dimension instruction) texture));
  found ← dimension_lanes texture_dimensions dimension;
  match found with
  | None => Fail tt
  | Some (lanes, has_mip_coordinate) =>
      let lanes := if include_lod && has_mip_coordinate && (lanes <? 4) then lanes + 1 else lanes in
      Ret (u8 (Z.shiftl 1 lanes - 1))
  end.

(** * Opcodes *)

Definition regular_componentwise_operand_count (opcode : USILOpcode) : Z :=
  match opcode with
  | USIL_OP_MOV | USIL_OP_RCP | USIL_OP_RSQ | USIL_OP_SQRT | USIL_OP_NOT | USIL_OP_FTOI
  | USIL_OP_FTOU | USIL_OP_ITOF | USIL_OP_UTOF | USIL_OP_LOG | USIL_OP_EXP | USIL_OP_SIN
  | USIL_OP_COS | USIL_OP_FRC | USIL_OP_ROUND_NE | USIL_OP_ROUND_NI | USIL_OP_ROUND_PI
  | USIL_OP_ROUND_Z | USIL_OP_DERIV_RTX | USIL_OP_DERIV_RTY | USIL_OP_DERIV_RTX_COARSE
  | USIL_OP_DERIV_RTY_COARSE | USIL_OP_DERIV_RTX_FINE | USIL_OP_DERIV_RTY_FINE
  | USIL_OP_INEG => 2
  | USIL_OP_ADD | USIL_OP_SUB | USIL_OP_MUL | USIL_OP_DIV | USIL_OP_MIN | USIL_OP_MAX
  | USIL_OP_LT | USIL_OP_GE | USIL_OP_EQ | USIL_OP_NE | USIL_OP_ILT | USIL_OP_IGE | USIL_OP_IEQ
  | USIL_OP_INE | USIL_OP_ULT | USIL_OP_UGE | USIL_OP_AND | USIL_OP_OR | USIL_OP_XOR
  | USIL_OP_ISHL | USIL_OP_ISHR | USIL_OP_USHR | USIL_OP_IADD | USIL_OP_IMAX | USIL_OP_IMIN
  | USIL_OP_UMAX | USIL_OP_UMIN => 3
  | USIL_OP_MAD | USIL_OP_MOVC | USIL_OP_IMAD | USIL_OP_UBFE => 4
  | _ => -1
  end.

(** The number of operands of a geometry effect. *)
Definition geometry_shape_valid (instruction : USILInstruction) : res unit Z :=
  let expected := if op_is (ui_opcode instruction) USIL_OP_GEOMETRY_APPEND
                  then USIL_GEOMETRY_EFFECT_APPEND else USIL_GEOMETRY_EFFECT_RESTART_STRIP in
  if bool_decide (ui_geometry_effect instruction <> expected) ||
     (3 <? ui_geometry_stream_id instruction) then Fail tt else
  if negb (ui_geometry_stream_explicit instruction) then
    if negb (ui_geometry_stream_id instruction =? 0) then Fail tt else Ret 0
  else if negb (ui_operand_count instruction =? 1) then Ret 1 else
  stream ← operand_at instruction 0;
  immediate ← aget (op_index_has_immediate stream) 0;
  exceeds ← aget (op_index_value_exceeds_int stream) 0;
  value ← aget (op_index_values stream) 0;
  if (op_type stream =? OPERAND_TYPE_STREAM) && (op_register_index_dim stream =? 1) && immediate &&
     bool_decide (op_rel_op0 stream = None) && bool_decide (op_rel_op1 stream = None) &&
     bool_decide (op_rel_op2 stream = None) && negb exceeds && (0 <=? op_register_index stream) &&
     (op_register_index stream =? value) && (value =? ui_geometry_stream_id instruction)
  then Ret 1 else Fail tt.

(** * Memory accesses *)

Inductive USILMemoryKind := USIL_MEMORY_RAW | USIL_MEMORY_STRUCTURED | USIL_MEMORY_TYPED | USIL_MEMORY_COUNTER.
Inductive USILMemorySpace :=
| USIL_MEMORY_SHADER_RESOURCE | USIL_MEMORY_UNORDERED_ACCESS | USIL_MEMORY_THREAD_GROUP.
Inductive USILCounterMode :=
| USIL_COUNTER_NONE | USIL_COUNTER_APPEND_INVOCATION | USIL_COUNTER_ORDER_PRESERVING.

#[export] Instance memory_kind_eq_dec : EqDecision USILMemoryKind.
Proof. solve_decision. Defined.
#[export] Instance memory_space_eq_dec : EqDecision USILMemorySpace.
Proof. solve_decision. Defined.

Record USILMemoryAccess := {
  ma_kind : USILMemoryKind;
  ma_space : USILMemorySpace;
  ma_register_id : Z;
  ma_byte_stride : Z;
  ma_shared_memory_byte_count : Z;
  ma_dimension : list byte;
  ma_return_types : list Z;
  ma_globally_coherent : bool;
  ma_rasterizer_ordered : bool;
  ma_has_order_preserving_counter : bool;
  ma_counter_mode : USILCounterMode;
  ma_reads : bool;
  ma_writes : bool;
  ma_atomic : bool;
  ma_destination_operand : Z;
  ma_binding_operand : Z;
  ma_address_operand : Z;
  ma_byte_offset_operand : Z;
  ma_value_operand : Z;
  ma_compare_operand : Z;
  ma_destination_lanes : Z;
  ma_address_lanes : Z;
  ma_value_lanes : Z;
  ma_memory_component_lanes : Z;
}.

#[export] Instance eta_USILMemoryAccess : Eta USILMemoryAccess := fun a => {|
  ma_kind := ma_kind a; ma_space := ma_space a; ma_register_id := ma_register_id a;
  ma_byte_stride := ma_byte_stride a; ma_shared_memory_byte_count := ma_shared_memory_byte_count a;
  ma_dimension := ma_dimension a; ma_return_types := ma_return_types a;
  ma_globally_coherent := ma_globally_coherent a; ma_rasterizer_ordered := ma_rasterizer_ordered a;
  ma_has_order_preserving_counter := ma_has_order_preserving_counter a;
  ma_counter_mode := ma_counter_mode a; ma_reads := ma_reads a; ma_writes := ma_writes a;
  ma_atomic := ma_atomic a; ma_destination_operand := ma_destination_operand a;
  ma_binding_operand := ma_binding_operand a; ma_address_operand := ma_address_operand a;
  ma_byte_offset_operand := ma_byte_offset_operand a; ma_value_operand := ma_value_operand a;
  ma_compare_operand := ma_compare_operand a; ma_destination_lanes := ma_destination_lanes a;
  ma_address_lanes := ma_address_lanes a; ma_value_lanes := ma_value_lanes a;
  ma_memory_component_lanes := ma_memory_component_lanes a |}.
#[export] Instance set_ma_kind : Setter ma_kind := ltac:(derive_setter).
#[export] Instance set_ma_space : Setter ma_space := ltac:(derive_setter).
#[export] Instance set_ma_register : Setter ma_register_id := ltac:(derive_setter).
#[export] Instance set_ma_stride : Setter ma_byte_stride := ltac:(derive_setter).
#[export] Instance set_ma_shared : Setter ma_shared_memory_byte_count := ltac:(derive_setter).
#[export] Instance set_ma_dimension : Setter ma_dimension := ltac:(derive_setter).
#[export] Instance set_ma_types : Setter ma_return_types := ltac:(derive_setter).
#[export] Instance set_ma_counter : Setter ma_counter_mode := ltac:(derive_setter).
#[export] Instance set_ma_destination_lanes : Setter ma_destination_lanes := ltac:(derive_setter).
#[export] Instance set_ma_address_lanes : Setter ma_address_lanes := ltac:(derive_setter).
#[export] Instance set_ma_value_lanes : Setter ma_value_lanes := ltac:(derive_setter).
#[export] Instance set_ma_component_lanes : Setter ma_memory_component_lanes := ltac:(derive_setter).

Record MemoryOpcodeShape := {
  ms_operand_count : Z;
  ms_destination : Z;
  ms_binding : Z;
  ms_address : Z;
  ms_byte_offset : Z;
  ms_value : Z;
  ms_compare : Z;
  ms_kind : USILMemoryKind;
  ms_flexible_kind : bool;
  ms_reads : bool;
  ms_writes : bool;
  ms_atomic : bool;
}.

Definition memory_opcode_shape (opcode : USILOpcode) : option MemoryOpcodeShape :=
  let shape n destination binding address byte_offset value compare kind flexible reads writes atomic :=
    Some {| ms_operand_count := n; ms_destination := destination; ms_binding := binding;
            ms_address := address; ms_byte_offset := byte_offset; ms_value := value;
            ms_compare := compare; ms_kind := kind; ms_flexible_kind := flexible;
            ms_reads := reads; ms_writes := writes; ms_atomic := atomic |} in
  match opcode with
  | USIL_OP_LD_UAV_TYPED => shape 3 0 2 1 (-1) (-1) (-1) USIL_MEMORY_TYPED false true false false
  | USIL_OP_STORE_UAV_TYPED => shape 3 (-1) 0 1 (-1) 2 (-1) USIL_MEMORY_TYPED false false true false
  | USIL_OP_LD_RAW => shape 3 0 2 1 (-1) (-1) (-1) USIL_MEMORY_RAW false true false false
  | USIL_OP_STORE_RAW => shape 3 (-1) 0 1 (-1) 2 (-1) USIL_MEMORY_RAW false false true false
  | USIL_OP_LD_STRUCTURED => shape 4 0 3 1 2 (-1) (-1) USIL_MEMORY_STRUCTURED false true false false
  | USIL_OP_STORE_STRUCTURED => shape 4 (-1) 0 1 2 3 (-1) USIL_MEMORY_STRUCTURED false false true false
  | USIL_OP_ATOMIC_XOR | USIL_OP_ATOMIC_IADD =>
      shape 3 (-1) 0 1 (-1) 2 (-1) USIL_MEMORY_RAW true true true true
  | USIL_OP_IMM_ATOMIC_IADD => shape 4 0 1 2 (-1) 3 (-1) USIL_MEMORY_RAW true true true true
  | USIL_OP_IMM_ATOMIC_CMP_EXCH => shape 5 0 1 2 (-1) 4 3 USIL_MEMORY_RAW true true true true
  | USIL_OP_IMM_ATOMIC_ALLOC | USIL_OP_IMM_ATOMIC_CONSUME =>
      shape 2 0 1 (-1) (-1) (-1) (-1) USIL_MEMORY_COUNTER false true true true
  | _ => None
  end.

Definition usil_opcode_has_memory_access (opcode : USILOpcode) : bool :=
  bool_decide (is_Some (memory_opcode_shape opcode)).

Definition memory_operand_base_valid (operand : DXBCOperand) : bool :=
  negb (op_has_abs operand) && negb (op_has_neg operand) && (op_min_precision operand =? 0) &&
  bool_decide (op_extended_tokens operand = []) && bool_decide (op_rel_op0 operand = None) &&
  bool_decide (op_rel_op1 operand = None) && bool_decide (op_rel_op2 operand = None).

(** One index dimension that is not an immediate [int]: [true] rejects. *)
Definition dynamic_index {E} (operand : DXBCOperand) (index : Z) : res E bool :=
  immediate ← aget (op_index_has_immediate operand) index;
  exceeds ← aget (op_index_value_exceeds_int operand) index;
  representation ← aget (op_index_representations operand) index;
  value ← aget (op_index_values operand) index;
  Ret (negb immediate || exceeds || negb (representation =? 0) || (INT_MAX <? value)).

Definition memory_static_indices_valid {E} (operand : DXBCOperand) (dimensions : Z) : res E bool :=
  if negb (memory_operand_base_valid operand) ||
     negb (op_register_index_dim operand =? dimensions) then Ret false else
  rejected ← any_index (Z.to_nat dimensions) 0 (dynamic_index operand);
  if rejected : bool then Ret false else
  if dimensions =? 0 then Ret true else
  value ← aget (op_index_values operand) 0;
  Ret ((0 <=? op_register_index operand) && (value =? op_register_index operand)).

(** Whether the destination is valid, and its lanes. *)
Definition memory_destination_valid {E} (program : USILProgram) (operand : DXBCOperand) (scalar : bool)
    : res E (bool * Z) :=
  let lanes := usil_operand_destination_lane_mask operand in
  if op_type operand =? OPERAND_TYPE_NULL then
    static ← memory_static_indices_valid operand 0;
    Ret (scalar && static && (lanes =? 0), lanes)
  else
    static ← memory_static_indices_valid operand 1;
    Ret ((op_type operand =? OPERAND_TYPE_TEMP) && static &&
         (op_register_index operand <? up_temp_count program) && (op_swizzle_mode operand =? 0) &&
         (Z.land (op_destination_mask operand) 0x0f =? 0) && negb (lanes =? 0) &&
         (negb scalar || (Z.land lanes (lanes - 1) =? 0)), lanes).

(** The components the lanes of [mask] select, from [lane] on, [n] lanes left;
    [None] if one selects none. *)
Fixpoint select_components {E} (n : nat) (lane : Z) (operand : DXBCOperand) (mask components : Z)
    : res E (option Z) :=
  match n with
  | O => Ret (Some components)
  | S n =>
      if has_lane mask lane then
        component ← usil_operand_source_component operand lane;
        if component <? 0 then Ret None
        else select_components n (lane + 1) operand mask (Z.lor components (u8 (Z.shiftl 1 component)))
      else select_components n (lane + 1) operand mask components
  end.

Definition immediate_valid {E} (operand : DXBCOperand) : res E bool :=
  static ← memory_static_indices_valid operand 0;
  if negb static || negb (op_swizzle_mode operand =? 0) || negb (op_destination_mask operand =? 0) ||
     (negb (op_imm_value_count operand =? 1) && negb (op_imm_value_count operand =? 4)) ||
     negb (op_immediate_word_count operand =? op_imm_value_count operand) then Ret false else
  differs ← any_index (Z.to_nat (op_imm_value_count operand)) 0 (fun index =>
    word ← aget (op_immediate_words operand) index;
    value ← aget (op_imm_values operand) index;
    Ret (negb (word =? value)));
  Ret (negb differs).

(** A table whose count is not between 0 and its bounds. *)
Definition table_bad {A} (count limit alloc : Z) (xs : option A) : bool :=
  (count <? 0) || (limit <? count) || (alloc <? count) ||
  (negb (count =? 0) && match xs with None => true | Some _ => false end).

(** The constant buffer of the operand, searched from [index]. *)
Fixpoint constant_buffer_valid {E} (n : nat) (index : Z) (program : USILProgram) (operand : DXBCOperand)
    : res E bool :=
  match n with
  | O => Ret false
  | S n =>
      xs ← ptr (up_cbuffers program); cbuffer ← aget xs index;
      if cb_reg_idx cbuffer =? op_register_index operand then
        value ← aget (op_index_values operand) 1;
        Ret ((0 <? cb_size cbuffer) && (value <? u32 (cb_size cbuffer)))
      else constant_buffer_valid n (index + 1) program operand
  end.

(** The declaration of a thread identifier, searched from [index]. *)
Fixpoint thread_id_valid {E} (n : nat) (index : Z) (program : USILProgram) (operand : DXBCOperand)
    (components : Z) : res E bool :=
  match n with
  | O => Ret false
  | S n =>
      xs ← ptr (up_signature_declarations program); declaration ← aget xs index;
      if sd_operand_type declaration =? op_type operand then
        let declared := if op_type operand =? OPERAND_TYPE_INPUT_THREAD_ID_IN_GROUP_FLATTENED
                        then 1 else sd_mask declaration in
        Ret (Z.land components (Z.lnot declared) =? 0)
      else thread_id_valid n (index + 1) program operand components
  end.

Definition is_thread_id (type : Z) : bool :=
  (type =? OPERAND_TYPE_INPUT_THREAD_ID) || (type =? OPERAND_TYPE_INPUT_THREAD_GROUP_ID) ||
  (type =? OPERAND_TYPE_INPUT_THREAD_ID_IN_GROUP) ||
  (type =? OPERAND_TYPE_INPUT_THREAD_ID_IN_GROUP_FLATTENED).

Definition memory_source_valid {E} (program : USILProgram) (operand : DXBCOperand) (lanes : Z)
    : res E bool :=
  if negb (memory_operand_base_valid operand) || (lanes =? 0) || (2 <? op_swizzle_mode operand)
  then Ret false else
  selected ← select_components 4 0 operand lanes 0;
  match selected with
  | None => Ret false
  | Some components =>
      if op_type operand =? OPERAND_TYPE_IMMEDIATE32 then immediate_valid operand else
      if negb (op_destination_mask operand =? 0) || (op_swizzle_mode operand =? 0) then Ret false else
      if op_type operand =? OPERAND_TYPE_TEMP then
        static ← memory_static_indices_valid operand 1;
        Ret (static && (op_register_index operand <? up_temp_count program))
      else if op_type operand =? OPERAND_TYPE_CONSTANT_BUFFER then
        static ← memory_static_indices_valid operand 2;
        let n := up_cbuffer_count program in
        if negb static || table_bad n 15 (up_cbuffer_alloc program) (up_cbuffers program) then Ret false else
        constant_buffer_valid (Z.to_nat n) 0 program operand
      else if is_thread_id (op_type operand) then
        static ← memory_static_indices_valid operand 0;
        let n := up_signature_declaration_count program in
        if negb static || table_bad n 4 (up_signature_declaration_alloc program)
                            (up_signature_declarations program) then Ret false else
        thread_id_valid (Z.to_nat n) 0 program operand components
      else Ret false
  end.

(** What an access copies from a declaration. *)
Definition texture_access (texture : USILTexture) (access : USILMemoryAccess) : USILMemoryAccess :=
  access <| ma_space := USIL_MEMORY_SHADER_RESOURCE |>
         <| ma_dimension := tx_dimension texture |>
         <| ma_return_types := tx_return_types texture |>
         <| ma_byte_stride := u32 (tx_stride texture) |>.

Definition uav_access (uav : USILUav) (access : USILMemoryAccess) : USILMemoryAccess := {|
  ma_kind := ma_kind access; ma_space := USIL_MEMORY_UNORDERED_ACCESS;
  ma_register_id := ma_register_id access; ma_byte_stride := u32 (uav_stride uav);
  ma_shared_memory_byte_count := ma_shared_memory_byte_count access;
  ma_dimension := uav_dimension uav; ma_return_types := uav_return_types uav;
  ma_globally_coherent := uav_globally_coherent uav;
  ma_rasterizer_ordered := uav_rasterizer_ordered uav;
  ma_has_order_preserving_counter := uav_has_order_preserving_counter uav;
  ma_counter_mode := ma_counter_mode access; ma_reads := ma_reads access;
  ma_writes := ma_writes access; ma_atomic := ma_atomic access;
  ma_destination_operand := ma_destination_operand access;
  ma_binding_operand := ma_binding_operand access; ma_address_operand := ma_address_operand access;
  ma_byte_offset_operand := ma_byte_offset_operand access; ma_value_operand := ma_value_operand access;
  ma_compare_operand := ma_compare_operand access; ma_destination_lanes := ma_destination_lanes access;
  ma_address_lanes := ma_address_lanes access; ma_value_lanes := ma_value_lanes access;
  ma_memory_component_lanes := ma_memory_component_lanes access |}.

(** One texture of the search for a binding; the access once it is found. *)
Definition declare_texture (program : USILProgram) (binding : DXBCOperand) (index : Z)
    (st : bool * USILMemoryAccess) : res unit (bool * USILMemoryAccess) :=
  let '(found, access) := st in
  xs ← ptr (up_textures program); texture ← aget xs index;
  if negb (tx_reg_idx texture =? op_register_index binding) then Ret st else
  if (found : bool) || (tx_stride texture <? 0) then Fail tt else
  Ret (true, texture_access texture access).

Definition declare_uav (program : USILProgram) (binding : DXBCOperand) (index : Z)
    (st : bool * USILMemoryAccess) : res unit (bool * USILMemoryAccess) :=
  let '(found, access) := st in
  xs ← ptr (up_uavs program); uav ← aget xs index;
  if negb (uav_reg_idx uav =? op_register_index binding) then Ret st else
  if (found : bool) || (uav_stride uav <? 0) then Fail tt else
  Ret (true, uav_access uav access).

(** A shared-memory declaration the hardware accepts. *)
Definition shared_memory_ok (memory : DXBCThreadGroupSharedMemoryContract) : bool :=
  negb ((memory_byte_count memory =? 0) || (32768 <? memory_byte_count memory) ||
        negb (Z.land (memory_byte_count memory) 3 =? 0) ||
        (memory_structured memory &&
         ((memory_element_count memory =? 0) || (memory_byte_stride memory =? 0) ||
          negb (u64 (memory_byte_stride memory * memory_element_count memory) =? memory_byte_count memory))) ||
        (negb (memory_structured memory) &&
         (negb (memory_byte_stride memory =? 0) || negb (memory_element_count memory =? 0)))).

(** [strcpy] of a literal into an array that has room for it. *)
Definition copy_literal (s : string) (a : list byte) : list byte :=
  literal s ++ drop (length (literal s)) a.

Definition shared_access (memory : DXBCThreadGroupSharedMemoryContract) (access : USILMemoryAccess)
    : USILMemoryAccess :=
  access <| ma_space := USIL_MEMORY_THREAD_GROUP |>
         <| ma_dimension ::= copy_literal (if memory_structured memory then "structured" else "raw") |>
         <| ma_byte_stride := memory_byte_stride memory |>
         <| ma_shared_memory_byte_count := memory_byte_count memory |>.

Definition declare_shared (program : USILProgram) (index : Z) (st : bool * USILMemoryAccess)
    : res unit (bool * USILMemoryAccess) :=
  let '(found, access) := st in
  xs ← ptr (cc_shared_memory (up_compute program)); memory ← aget xs index;
  if negb (memory_register_id memory =? ma_register_id access) then Ret st else
  if (found : bool) || negb (shared_memory_ok memory) then Fail tt else
  Ret (true, shared_access memory access).

(** The search for the declaration of the binding: whether there is one. *)
Definition find_memory_declaration (program : USILProgram) (binding : DXBCOperand) (access : USILMemoryAccess)
    : res unit (bool * USILMemoryAccess) :=
  let reg := ma_register_id access in
  let compute := up_compute program in
  if op_type binding =? OPERAND_TYPE_RESOURCE then
    if (128 <=? reg) || table_bad (up_texture_count program) 128 (up_texture_alloc program) (up_textures program)
    then Fail tt
    else for_loop (Z.to_nat (up_texture_count program)) 0 (declare_texture program binding) (false, access)
  else if op_type binding =? OPERAND_TYPE_UAV then
    if (8 <=? reg) || table_bad (up_uav_count program) 8 (up_uav_alloc program) (up_uavs program)
    then Fail tt
    else for_loop (Z.to_nat (up_uav_count program)) 0 (declare_uav program binding) (false, access)
  else if op_type binding =? OPERAND_TYPE_THREAD_GROUP_SHARED_MEMORY then
    if (8192 <=? reg) || table_bad (cc_shared_memory_count compute) 8192
                           (cc_shared_memory_capacity compute) (cc_shared_memory compute)
    then Fail tt
    else for_loop (Z.to_nat (cc_shared_memory_count compute)) 0 (declare_shared program) (false, access)
  else Fail tt.

(** The kind of memory its dimension names. *)
Definition classify_memory (access : USILMemoryAccess) : res unit USILMemoryAccess :=
  if negb (terminated (ma_dimension access)) then Fail tt else
  raw ← string_is (ma_dimension access) "raw";
  if raw : bool then
    if ma_byte_stride access =? 0 then Ret (access <| ma_kind := USIL_MEMORY_RAW |>) else Fail tt
  else
  structured ← string_is (ma_dimension access) "structured";
  if structured : bool then
    if negb (ma_byte_stride access =? 0) && (Z.land (ma_byte_stride access) 3 =? 0) &&
       (bool_decide (ma_space access = USIL_MEMORY_THREAD_GROUP) || (ma_byte_stride access <=? 2048))
    then Ret (access <| ma_kind := USIL_MEMORY_STRUCTURED |>) else Fail tt
  else
  if bool_decide (ma_space access = USIL_MEMORY_UNORDERED_ACCESS) && (ma_byte_stride access =? 0) &&
     negb (ma_has_order_preserving_counter access)
  then Ret (access <| ma_kind := USIL_MEMORY_TYPED |>) else Fail tt.

Definition memory_declaration (program : USILProgram) (binding : DXBCOperand) (access : USILMemoryAccess)
    : res unit USILMemoryAccess :=
  static ← memory_static_indices_valid binding 1;
  if negb static then Fail tt else
  '(found, access) ← find_memory_declaration program binding
                       (access <| ma_register_id := u32 (op_register_index binding) |>);
  if negb found then Fail tt else classify_memory access.

Definition typed_memory_address_lanes {E} (dimension : list byte) : res E Z :=
  buffer ← string_is dimension "buffer"; one ← string_is dimension "1d";
  if (buffer : bool) || one then Ret 1 else
  two ← string_is dimension "2d"; array ← string_is dimension "1darray";
  if (two : bool) || array then Ret 3 else
  three ← string_is dimension "3d"; array2 ← string_is dimension "2darray";
  if (three : bool) || array2 then Ret 7 else Ret 0.

(** [USILMemoryAccess access = {0}] with the operands of the shape. *)
Definition new_access (shape : MemoryOpcodeShape) : USILMemoryAccess := {|
  ma_kind := USIL_MEMORY_RAW; ma_space := USIL_MEMORY_SHADER_RESOURCE; ma_register_id := 0;
  ma_byte_stride := 0; ma_shared_memory_byte_count := 0; ma_dimension := replicate 16 Byte.x00;
  ma_return_types := [0; 0; 0; 0]; ma_globally_coherent := false; ma_rasterizer_ordered := false;
  ma_has_order_preserving_counter := false; ma_counter_mode := USIL_COUNTER_NONE;
  ma_reads := ms_reads shape; ma_writes := ms_writes shape; ma_atomic := ms_atomic shape;
  ma_destination_operand := ms_destination shape; ma_binding_operand := ms_binding shape;
  ma_address_operand := ms_address shape; ma_byte_offset_operand := ms_byte_offset shape;
  ma_value_operand := ms_value shape; ma_compare_operand := ms_compare shape;
  ma_destination_lanes := 0; ma_address_lanes := 0; ma_value_lanes := 0;
  ma_memory_component_lanes := 0 |}.

(** The program and the instruction admit a memory access of the shape. *)
Definition memory_instruction_ok (program : USILProgram) (instruction : USILInstruction)
    (shape : MemoryOpcodeShape) : bool :=
  up_has_stage_contract program && cc_valid (up_compute program) &&
  (up_program_type program =? DXBC_PROGRAM_TYPE_COMPUTE) && (up_shader_model_major program =? 5) &&
  (0 <=? up_temp_count program) && (up_temp_count program <=? 4096) &&
  (up_shader_model_minor program =? 0) && (ui_operand_count instruction =? ms_operand_count shape) &&
  negb (ui_saturate instruction) && (ui_precise_mask instruction =? 0) &&
  (ui_sync_flags instruction =? 0) &&
  bool_decide (ui_condition_test instruction = DXBC_INSTRUCTION_TEST_NONE) &&
  negb (ui_has_texel_offset instruction) &&
  bool_decide (ui_geometry_effect instruction = USIL_GEOMETRY_EFFECT_NONE) &&
  terminated (ui_resource_dimension instruction).

(** A counter is a structured view with a counter. *)
Definition counter_access (binding : DXBCOperand) (shape : MemoryOpcodeShape) (access : USILMemoryAccess)
    : res unit USILMemoryAccess :=
  if negb (bool_decide (ms_kind shape = USIL_MEMORY_COUNTER)) then Ret access else
  if negb (bool_decide (ma_kind access = USIL_MEMORY_STRUCTURED)) ||
     negb (bool_decide (ma_space access = USIL_MEMORY_UNORDERED_ACCESS)) ||
     negb (op_swizzle_mode binding =? 0) || negb (op_destination_mask binding =? 0) then Fail tt else
  Ret (access <| ma_counter_mode := if ma_has_order_preserving_counter access
                                    then USIL_COUNTER_ORDER_PRESERVING else USIL_COUNTER_APPEND_INVOCATION |>
              <| ma_kind := USIL_MEMORY_COUNTER |>).

(** The lanes of the address operand. *)
Definition address_access (shape : MemoryOpcodeShape) (access : USILMemoryAccess)
    : res unit USILMemoryAccess :=
  if bool_decide (ma_kind access = USIL_MEMORY_TYPED) then
    lanes ← typed_memory_address_lanes (ma_dimension access);
    if lanes =? 0 then Fail tt else
    rejected ← any_index 4 0 (fun component =>
      type ← aget (ma_return_types access) component;
      Ret ((type =? 0) || (9 <? type) ||
           (ms_atomic shape && negb (type =? 3) && negb (type =? 4))));
    if rejected : bool then Fail tt else Ret (access <| ma_address_lanes := lanes |>)
  else if 0 <=? ms_address shape then
    Ret (access <| ma_address_lanes :=
      if ms_atomic shape && bool_decide (ma_kind access = USIL_MEMORY_STRUCTURED) then 3 else 1 |>)
  else Ret access.

Definition destination_access (program : USILProgram) (instruction : USILInstruction)
    (shape : MemoryOpcodeShape) (access : USILMemoryAccess) : res unit USILMemoryAccess :=
  if ms_destination shape <? 0 then Ret access else
  operand ← operand_at instruction (ms_destination shape);
  '(valid, lanes) ← memory_destination_valid program operand (ms_atomic shape);
  if (valid : bool) then Ret (access <| ma_destination_lanes := lanes |>) else Fail tt.

(** The lanes of the value operand and the components of memory. *)
Definition component_access (binding : DXBCOperand) (shape : MemoryOpcodeShape)
    (access : USILMemoryAccess) : res unit USILMemoryAccess :=
  if ms_atomic shape then
    if negb (op_swizzle_mode binding =? 0) || negb (op_destination_mask binding =? 0) then Fail tt else
    Ret (access <| ma_value_lanes := if 0 <=? ms_value shape then 1 else 0 |>
                <| ma_memory_component_lanes := 1 |>)
  else if ms_writes shape then
    let lanes := usil_operand_destination_lane_mask binding in
    if negb (op_swizzle_mode binding =? 0) || negb (Z.land (op_destination_mask binding) 0x0f =? 0) ||
       (lanes =? 0) then Fail tt else
    Ret (access <| ma_value_lanes := lanes |> <| ma_memory_component_lanes := lanes |>)
  else
    if (op_swizzle_mode binding =? 0) || negb (op_destination_mask binding =? 0) then Fail tt else
    selected ← select_components 4 0 binding (ma_destination_lanes access) (ma_memory_component_lanes access);
    match selected with
    | None => Fail tt
    | Some components => Ret (access <| ma_memory_component_lanes := components |>)
    end.

(** A source operand the shape may have. *)
Definition source_access (program : USILProgram) (instruction : USILInstruction) (operand lanes : Z)
    : res unit unit :=
  if operand <? 0 then Ret tt else
  value ← operand_at instruction operand;
  valid ← memory_source_valid program value lanes;
  if valid : bool then Ret tt else Fail tt.

(** What the instruction says about its resource agrees with the declaration. *)
Definition resource_agrees (instruction : USILInstruction) (access : USILMemoryAccess) : res unit unit :=
  named ← not_empty (ui_resource_dimension instruction);
  same ← (if named : bool then strings_equal (ui_resource_dimension instruction) (ma_dimension access)
          else Ret true);
  if negb same ||
     (ui_has_resource_dimension instruction && negb (ui_resource_stride instruction =? ma_byte_stride access)) ||
     (negb (ui_has_resource_dimension instruction) && negb (ui_resource_stride instruction =? 0))
  then Fail tt else
  if negb (ui_has_resource_return_types instruction) then Ret tt else
  differs ← any_index 4 0 (fun component =>
    expected ← (if bool_decide (ma_kind access = USIL_MEMORY_TYPED)
                then aget (ma_return_types access) component else Ret 6);
    type ← aget (ui_resource_return_types instruction) component;
    Ret (negb (type =? expected)));
  if differs : bool then Fail tt else Ret tt.

Definition usil_instruction_memory_access (program : USILProgram) (instruction : USILInstruction)
    : res unit USILMemoryAccess :=
  match memory_opcode_shape (ui_opcode instruction) with
  | None => Fail tt
  | Some shape =>
      if negb (memory_instruction_ok program instruction shape) then Fail tt else
      binding ← operand_at instruction (ms_binding shape);
      access ← memory_declaration program binding (new_access shape);
      if (ms_writes shape && bool_decide (ma_space access = USIL_MEMORY_SHADER_RESOURCE)) ||
         (negb (ms_flexible_kind shape) && negb (bool_decide (ms_kind shape = USIL_MEMORY_COUNTER)) &&
          negb (bool_decide (ms_kind shape = ma_kind access))) then Fail tt else
      access ← counter_access binding shape access;
      access ← address_access shape access;
      access ← destination_access program instruction shape access;
      access ← component_access binding shape access;
      _ ← source_access program instruction (ms_address shape) (ma_address_lanes access);
      _ ← source_access program instruction (ms_byte_offset shape) 1;
      _ ← source_access program instruction (ms_value shape) (ma_value_lanes access);
      _ ← source_access program instruction (ms_compare shape) 1;
      _ ← resource_agrees instruction access;
      Ret access
  end.

(** * Shapes *)

Definition expected_operand_count (instruction : USILInstruction) : res unit Z :=
  match memory_opcode_shape (ui_opcode instruction) with
  | Some shape => Ret (ms_operand_count shape)
  | None =>
      let componentwise := regular_componentwise_operand_count (ui_opcode instruction) in
      if 0 <=? componentwise then Ret componentwise else
      match ui_opcode instruction with
      | USIL_OP_NOP | USIL_OP_ELSE | USIL_OP_ENDIF | USIL_OP_LOOP | USIL_OP_ENDLOOP
      | USIL_OP_DEFAULT | USIL_OP_ENDSWITCH | USIL_OP_BREAK | USIL_OP_CONTINUE | USIL_OP_RET
      | USIL_OP_SYNC => Ret 0
      | USIL_OP_IF | USIL_OP_SWITCH | USIL_OP_CASE | USIL_OP_BREAKC | USIL_OP_CONTINUEC
      | USIL_OP_DISCARD => Ret 1
      | USIL_OP_SAMPLEINFO => Ret 2
      | USIL_OP_DP2 | USIL_OP_DP3 | USIL_OP_DP4 | USIL_OP_LD | USIL_OP_RESINFO
      | USIL_OP_SINCOS => Ret 3
      | USIL_OP_IMUL | USIL_OP_UDIV | USIL_OP_LD_STRUCTURED | USIL_OP_LD_MS
      | USIL_OP_IMM_ATOMIC_IADD | USIL_OP_LDMS | USIL_OP_SAMPLE => Ret 4
      | USIL_OP_SAMPLE_C | USIL_OP_SAMPLE_C_LZ | USIL_OP_SAMPLE_L | USIL_OP_SAMPLE_B => Ret 5
      | USIL_OP_SAMPLE_D => Ret 6
      | USIL_OP_GEOMETRY_APPEND | USIL_OP_GEOMETRY_RESTART_STRIP => geometry_shape_valid instruction
      | _ => Fail tt
      end
  end.

Inductive USILOperandUse :=
| USIL_OPERAND_USE_DESTINATION
| USIL_OPERAND_USE_SOURCE
| USIL_OPERAND_USE_RESOURCE_BINDING
| USIL_OPERAND_USE_SAMPLER_BINDING
| USIL_OPERAND_USE_STREAM_SELECTOR.

#[export] Instance operand_use_eq_dec : EqDecision USILOperandUse.
Proof. solve_decision. Defined.

(** [USIL_OPERAND_USE_INVALID] is only what a failure leaves. *)
Record USILOperandUseInfo := { ou_use : USILOperandUse; ou_source_lane_mask : Z }.

Definition use_of (use : USILOperandUse) (mask : Z) : res unit USILOperandUseInfo :=
  Ret {| ou_use := use; ou_source_lane_mask := mask |}.

Definition destination_use := use_of USIL_OPERAND_USE_DESTINATION 0.
Definition resource_use := use_of USIL_OPERAND_USE_RESOURCE_BINDING 0.
Definition source_use (mask : Z) := use_of USIL_OPERAND_USE_SOURCE mask.

(** A source read in the lanes the destinations write. *)
Definition written_lanes_use (mask : Z) : res unit USILOperandUseInfo :=
  if mask =? 0 then Fail tt else source_use mask.

Definition memory_operand_use (access : USILMemoryAccess) (operand_index : Z)
    : res unit USILOperandUseInfo :=
  if operand_index =? ma_destination_operand access then destination_use
  else if operand_index =? ma_binding_operand access then resource_use
  else if operand_index =? ma_address_operand access then source_use (ma_address_lanes access)
  else if operand_index =? ma_value_operand access then source_use (ma_value_lanes access)
  else if (operand_index =? ma_byte_offset_operand access) ||
          (operand_index =? ma_compare_operand access) then source_use 1
  else Fail tt.

Definition sample_operand_use (program : USILProgram) (instruction : USILInstruction) (operand_index : Z)
    : res unit USILOperandUseInfo :=
  if operand_index =? 0 then destination_use else
  if (operand_index =? 1) ||
     (op_is (ui_opcode instruction) USIL_OP_SAMPLE_D && ((operand_index =? 4) || (operand_index =? 5))) then
    mask ← texture_dimension_lanes program instruction 2 false;
    source_use (if (4 <=? operand_index) && (mask =? 0xf) then 0x7 else mask)
  else if operand_index =? 2 then resource_use
  else if operand_index =? 3 then use_of USIL_OPERAND_USE_SAMPLER_BINDING 0
  else source_use 1.

(** LD, which takes a mip level, and LD_MS and LDMS, which take a sample. *)
Definition load_operand_use (program : USILProgram) (instruction : USILInstruction) (operand_index : Z)
    (multisampled : bool) : res unit USILOperandUseInfo :=
  if operand_index =? 0 then destination_use else
  if operand_index =? 2 then resource_use else
  if multisampled && (operand_index =? 3) then source_use 1 else
  mask ← texture_dimension_lanes program instruction 2 (negb multisampled);
  source_use mask.

Definition operand_use_unchecked (program : USILProgram) (instruction : USILInstruction)
    (operand_index : Z) : res unit USILOperandUseInfo :=
  let opcode := ui_opcode instruction in
  if usil_opcode_has_memory_access opcode && (up_program_type program =? DXBC_PROGRAM_TYPE_COMPUTE) then
    access ← usil_instruction_memory_access program instruction;
    memory_operand_use access operand_index
  else
  if 0 <=? regular_componentwise_operand_count opcode then
    if operand_index =? 0 then destination_use else
    destination ← operand_at instruction 0;
    written_lanes_use (usil_operand_destination_lane_mask destination)
  else
  match opcode with
  | USIL_OP_DP2 => if operand_index =? 0 then destination_use else source_use 0x3
  | USIL_OP_DP3 => if operand_index =? 0 then destination_use else source_use 0x7
  | USIL_OP_DP4 => if operand_index =? 0 then destination_use else source_use 0xf
  | USIL_OP_IF | USIL_OP_SWITCH | USIL_OP_CASE | USIL_OP_BREAKC | USIL_OP_CONTINUEC
  | USIL_OP_DISCARD => source_use 1
  | USIL_OP_IMUL | USIL_OP_UDIV | USIL_OP_SINCOS =>
      if operand_index <? 2 then destination_use else
      first ← operand_at instruction 0;
      second ← operand_at instruction 1;
      written_lanes_use (Z.lor (usil_operand_destination_lane_mask first)
                               (usil_operand_destination_lane_mask second))
  | USIL_OP_SAMPLE | USIL_OP_SAMPLE_C | USIL_OP_SAMPLE_C_LZ | USIL_OP_SAMPLE_L | USIL_OP_SAMPLE_D
  | USIL_OP_SAMPLE_B => sample_operand_use program instruction operand_index
  | USIL_OP_LD => load_operand_use program instruction operand_index false
  | USIL_OP_LD_MS | USIL_OP_LDMS => load_operand_use program instruction operand_index true
  | USIL_OP_LD_STRUCTURED =>
      if operand_index =? 0 then destination_use
      else if operand_index =? 3 then resource_use else source_use 1
  | USIL_OP_RESINFO =>
      if operand_index =? 0 then destination_use
      else if operand_index =? 1 then source_use 1 else resource_use
  | USIL_OP_SAMPLEINFO => if operand_index =? 0 then destination_use else resource_use
  | USIL_OP_IMM_ATOMIC_IADD =>
      if operand_index =? 0 then destination_use
      else if operand_index =? 1 then resource_use else source_use 1
  | USIL_OP_GEOMETRY_APPEND | USIL_OP_GEOMETRY_RESTART_STRIP =>
      use_of USIL_OPERAND_USE_STREAM_SELECTOR 0
  | _ => Fail tt
  end.

(** The flags of a SYNC, which no other instruction may have. *)
Definition sync_valid {E} (program : USILProgram) (instruction : USILInstruction) : res E bool :=
  let flags := ui_sync_flags instruction in
  if op_is (ui_opcode instruction) USIL_OP_SYNC then
    named ← not_empty (ui_resource_dimension instruction);
    Ret (up_has_stage_contract program && (up_program_type program =? DXBC_PROGRAM_TYPE_COMPUTE) &&
         cc_valid (up_compute program) && negb (ui_saturate instruction) &&
         (ui_precise_mask instruction =? 0) &&
         bool_decide (ui_condition_test instruction = DXBC_INSTRUCTION_TEST_NONE) &&
         bool_decide (ui_geometry_effect instruction = USIL_GEOMETRY_EFFECT_NONE) &&
         negb (ui_has_resource_dimension instruction) && negb named &&
         (ui_resource_stride instruction =? 0) && negb (ui_has_texel_offset instruction) &&
         negb (ui_has_resource_return_types instruction) &&
         (Z.land flags (Z.lnot 0xf) =? 0) && negb (Z.land flags 0xe =? 0) &&
         negb (Z.land flags 0xc =? 0xc))
  else Ret (flags =? 0).

(** The modifiers the integer encodings do not have. *)
Definition modifiers_valid {E} (instruction : USILInstruction) : res E bool :=
  match ui_opcode instruction with
  | USIL_OP_NOP => Ret (negb (ui_saturate instruction))
  | USIL_OP_IMUL =>
      a ← operand_at instruction 2; b ← operand_at instruction 3;
      Ret (negb (ui_saturate instruction) && negb (op_has_abs a) && negb (op_has_abs b))
  | USIL_OP_UDIV =>
      a ← operand_at instruction 2; b ← operand_at instruction 3;
      Ret (negb (ui_saturate instruction) && negb (op_has_abs a) && negb (op_has_neg a) &&
           negb (op_has_abs b) && negb (op_has_neg b))
  | _ => Ret true
  end.

(** One operand of the final loop: [true] rejects. *)
Definition operand_use_invalid {E} (program : USILProgram) (instruction : USILInstruction) (operand : Z)
    : res E bool :=
  info ← attempt (operand_use_unchecked program instruction operand);
  Ret match info with
      | None => true
      | Some info => negb (Bool.eqb (bool_decide (ou_use info = USIL_OPERAND_USE_SOURCE))
                                    (negb (ou_source_lane_mask info =? 0)))
      end.

Definition usil_instruction_shape_valid {E} (program : USILProgram) (instruction : USILInstruction)
    : res E bool :=
  let opcode := ui_opcode instruction in
  if (ui_operand_count instruction <? 0) || (DXBC_MAX_OPERANDS <? ui_operand_count instruction)
  then Ret false else
  if usil_opcode_has_memory_access opcode &&
     ((up_program_type program =? DXBC_PROGRAM_TYPE_COMPUTE) ||
      (negb (op_is opcode USIL_OP_LD_STRUCTURED) && negb (op_is opcode USIL_OP_IMM_ATOMIC_IADD))) then
    access ← attempt (usil_instruction_memory_access program instruction);
    Ret (bool_decide (is_Some access))
  else
  expected ← attempt (expected_operand_count instruction);
  match expected with
  | None => Ret false
  | Some expected =>
      if negb (ui_operand_count instruction =? expected) then Ret false else
      sync ← sync_valid program instruction;
      if negb sync then Ret false else
      modifiers ← modifiers_valid instruction;
      if negb modifiers then Ret false else
      invalid ← any_index (Z.to_nat expected) 0 (operand_use_invalid program instruction);
      Ret (negb invalid)
  end.

Definition usil_instruction_operand_use (program : USILProgram) (instruction : USILInstruction)
    (operand_index : Z) : res unit USILOperandUseInfo :=
  valid ← usil_instruction_shape_valid program instruction;
  if negb valid || (operand_index <? 0) || (ui_operand_count instruction <=? operand_index) then Fail tt
  else operand_use_unchecked program instruction operand_index.

(** * Effects *)

Definition USIL_EFFECT_NONE : Z := 0.
Definition USIL_EFFECT_CONTROL : Z := 1.
Definition USIL_EFFECT_RESOURCE_READ : Z := 2.
Definition USIL_EFFECT_EXTERNAL_WRITE : Z := 4.
Definition USIL_EFFECT_QUAD_CONTEXT : Z := 8.
Definition USIL_EFFECT_GEOMETRY_OUTPUT : Z := 16.
Definition USIL_EFFECT_UNKNOWN : Z := 32.
Definition USIL_EFFECT_MEMORY_BARRIER : Z := 64.
Definition USIL_EFFECT_ATOMIC : Z := 128.
Definition USIL_EFFECT_COUNTER : Z := 256.
Definition USIL_EFFECT_THREAD_GROUP_READ : Z := 512.
Definition USIL_EFFECT_THREAD_GROUP_WRITE : Z := 1024.
Definition DXBC_SYNC_THREADS_IN_GROUP : Z := 1.

Definition memory_effects (access : USILMemoryAccess) : Z :=
  let group := bool_decide (ma_space access = USIL_MEMORY_THREAD_GROUP) in
  let effects := USIL_EFFECT_NONE in
  let effects := if ma_reads access then
    Z.lor effects (if group then USIL_EFFECT_THREAD_GROUP_READ else USIL_EFFECT_RESOURCE_READ) else effects in
  let effects := if ma_writes access then
    Z.lor effects (if group then USIL_EFFECT_THREAD_GROUP_WRITE else USIL_EFFECT_EXTERNAL_WRITE) else effects in
  let effects := if ma_atomic access then Z.lor effects USIL_EFFECT_ATOMIC else effects in
  if bool_decide (ma_kind access = USIL_MEMORY_COUNTER) then Z.lor effects USIL_EFFECT_COUNTER else effects.

(** The effects of an opcode that is no memory access of a compute program. *)
Definition opcode_effects (instruction : USILInstruction) : option Z :=
  match ui_opcode instruction with
  | USIL_OP_DERIV_RTX | USIL_OP_DERIV_RTY | USIL_OP_DERIV_RTX_COARSE | USIL_OP_DERIV_RTY_COARSE
  | USIL_OP_DERIV_RTX_FINE | USIL_OP_DERIV_RTY_FINE => Some USIL_EFFECT_QUAD_CONTEXT
  | USIL_OP_SAMPLE | USIL_OP_SAMPLE_B | USIL_OP_SAMPLE_C =>
      Some (Z.lor USIL_EFFECT_RESOURCE_READ USIL_EFFECT_QUAD_CONTEXT)
  | USIL_OP_SAMPLE_L | USIL_OP_SAMPLE_D | USIL_OP_SAMPLE_C_LZ | USIL_OP_LD | USIL_OP_LD_STRUCTURED
  | USIL_OP_LD_MS | USIL_OP_LDMS | USIL_OP_RESINFO | USIL_OP_SAMPLEINFO =>
      Some USIL_EFFECT_RESOURCE_READ
  | USIL_OP_IMM_ATOMIC_IADD => Some (Z.lor USIL_EFFECT_RESOURCE_READ USIL_EFFECT_EXTERNAL_WRITE)
  | USIL_OP_GEOMETRY_APPEND | USIL_OP_GEOMETRY_RESTART_STRIP => Some USIL_EFFECT_GEOMETRY_OUTPUT
  | USIL_OP_SYNC =>
      Some (if negb (Z.land (ui_sync_flags instruction) DXBC_SYNC_THREADS_IN_GROUP =? 0)
            then Z.lor USIL_EFFECT_MEMORY_BARRIER USIL_EFFECT_CONTROL else USIL_EFFECT_MEMORY_BARRIER)
  | USIL_OP_DISCARD => Some (Z.lor USIL_EFFECT_CONTROL USIL_EFFECT_QUAD_CONTEXT)
  | USIL_OP_IF | USIL_OP_ELSE | USIL_OP_ENDIF | USIL_OP_LOOP | USIL_OP_ENDLOOP | USIL_OP_SWITCH
  | USIL_OP_CASE | USIL_OP_DEFAULT | USIL_OP_ENDSWITCH | USIL_OP_BREAK | USIL_OP_BREAKC
  | USIL_OP_CONTINUE | USIL_OP_CONTINUEC | USIL_OP_RET => Some USIL_EFFECT_CONTROL
  | USIL_OP_NOP | USIL_OP_DP2 | USIL_OP_DP3 | USIL_OP_DP4 | USIL_OP_IMUL | USIL_OP_UDIV
  | USIL_OP_SINCOS => Some USIL_EFFECT_NONE
  | opcode => if regular_componentwise_operand_count opcode <? 0 then None else Some USIL_EFFECT_NONE
  end.

(** The result, and [*out_effects]. *)
Definition usil_instruction_effects {E} (program : USILProgram) (instruction : USILInstruction)
    : res E (bool * Z) :=
  valid ← usil_instruction_shape_valid program instruction;
  if negb valid then Ret (false, USIL_EFFECT_UNKNOWN) else
  if usil_opcode_has_memory_access (ui_opcode instruction) &&
     (up_program_type program =? DXBC_PROGRAM_TYPE_COMPUTE) then
    access ← attempt (usil_instruction_memory_access program instruction);
    Ret match access with
        | None => (false, USIL_EFFECT_UNKNOWN)
        | Some access => (true, memory_effects access)
        end
  else
    Ret match opcode_effects instruction with
        | None => (false, USIL_EFFECT_UNKNOWN)
        | Some effects => (true, effects)
        end.

(** * Temporaries of hull phases *)

(** The budget of operand nodes that is left. *)
Fixpoint hull_temp_operand_is_declared (operand : DXBCOperand) (count : Z) (remaining : Z)
    : option Z :=
  if remaining =? 0 then None else
  let remaining := remaining - 1 in
  if (op_type operand =? OPERAND_TYPE_TEMP) &&
     ((op_register_index operand <? 0) || (count <=? op_register_index operand)) then None else
  remaining ← match op_rel_op0 operand with
              | Some root => hull_temp_operand_is_declared root count remaining
              | None => Some remaining
              end;
  remaining ← match op_rel_op1 operand with
              | Some root => hull_temp_operand_is_declared root count remaining
              | None => Some remaining
              end;
  match op_rel_op2 operand with
  | Some root => hull_temp_operand_is_declared root count remaining
  | None => Some remaining
  end.

(** The tests on one phase that starts at [next]. *)
Definition hull_phase_ok (program : USILProgram) (scope : USILHullPhase) (next : Z) : bool :=
  (hp_first_instruction_index scope =? next) && (next <? hp_end_instruction_index scope) &&
  (hp_end_instruction_index scope <=? up_instruction_count program) &&
  (hp_marker_source_instruction_index scope <? hp_first_source_instruction_index scope) &&
  (hp_first_source_instruction_index scope <? hp_end_source_instruction_index scope) &&
  (if hp_has_temp_count scope then
     (hp_temp_count scope <=? 4096) &&
     (hp_first_source_instruction_index scope <=? hp_temp_count_source_instruction_index scope) &&
     (hp_temp_count_source_instruction_index scope <? hp_end_source_instruction_index scope)
   else (hp_temp_count scope =? 0) && (hp_temp_count_source_instruction_index scope =? 0)).

Definition hull_operand_undeclared {E} (scope : USILHullPhase) (instruction : USILInstruction) (operand : Z)
    : res E bool :=
  value ← operand_at instruction operand;
  Ret (bool_decide (hull_temp_operand_is_declared value (hp_temp_count scope)
                      DXBC_MAX_NESTED_OPERAND_TOKENS = None)).

(** One instruction of a phase: [true] rejects. *)
Definition hull_instruction_bad {E} (program : USILProgram) (scope : USILHullPhase) (index : Z)
    : res E bool :=
  instruction ← instruction_at program index;
  if (ui_source_instruction_index instruction <? hp_first_source_instruction_index scope) ||
     (hp_end_source_instruction_index scope <=? ui_source_instruction_index instruction) ||
     (ui_operand_count instruction <? 0) || (DXBC_MAX_OPERANDS <? ui_operand_count instruction)
  then Ret true else
  any_index (Z.to_nat (ui_operand_count instruction)) 0 (hull_operand_undeclared scope instruction).

(** One phase, over the maximum so far and the next instruction. *)
Definition hull_phase_step (program : USILProgram) (phases : list USILHullPhase) (phase : Z)
    (st : Z * Z) : res unit (Z * Z) :=
  let '(maximum, next) := st in
  scope ← aget phases phase;
  if negb (hull_phase_ok program scope next) then Fail tt else
  bad ← any_index (Z.to_nat (hp_end_instruction_index scope - next)) next
          (hull_instruction_bad program scope);
  if bad : bool then Fail tt else
  Ret (if maximum <? hp_temp_count scope then hp_temp_count scope else maximum,
       hp_end_instruction_index scope).

Definition usil_hull_phase_temp_registers_are_valid {E} (program : USILProgram) : res E bool :=
  let tessellation := up_tessellation program in
  match up_instructions program, tc_phases tessellation with
  | Some _, Some phases =>
      if negb (up_program_type program =? DXBC_PROGRAM_TYPE_HULL) ||
         negb (up_has_stage_contract program) || negb (tc_valid tessellation) ||
         (up_instruction_count program <=? 0) ||
         (up_instruction_alloc program <? up_instruction_count program) ||
         (up_temp_count program <? 0) || (4096 <? up_temp_count program) ||
         (tc_phase_count tessellation =? 0) ||
         (u64 (up_instruction_count program) <? tc_phase_count tessellation) ||
         (tc_phase_capacity tessellation <? tc_phase_count tessellation) then Ret false else
      walked ← attempt (for_loop (Z.to_nat (tc_phase_count tessellation)) 0
                          (hull_phase_step program phases) (0, 0));
      Ret match walked with
          | None => false
          | Some (maximum, next) =>
              (next =? up_instruction_count program) && (maximum =? u32 (up_temp_count program))
          end
  | _, _ => Ret false
  end.
