(* ===== verification/UsilValidationSteps.v ===== *)
(** Every read the shape checks make is inside its object, and what a memory
    access they accept looks like. *)

From stdpp Require Import gmultiset.
From S2P Require Import Prelude CArray UnityCommon ShaderStage StageContract Operand Instruction Usil UsilValidation.

#[local] Set Warnings "-register-all".

(** * Arrays of the size the structures give them *)

(** The fixed arrays of [DXBCOperand]; [uint8_t swizzle[4]]. *)
Record operand_ok (o : DXBCOperand) : Prop := {
  ok_swizzle : zlength (op_swizzle o) = 4;
  ok_swizzle_range : Forall (fun c => 0 <= c) (op_swizzle o);
  ok_imm_values : zlength (op_imm_values o) = 4;
  ok_words : zlength (op_immediate_words o) = 8;
  ok_index_values : zlength (op_index_values o) = 3;
  ok_representations : zlength (op_index_representations o) = 3;
  ok_has_immediate : zlength (op_index_has_immediate o) = 3;
  ok_exceeds : zlength (op_index_value_exceeds_int o) = 3;
}.

Record instruction_ok (i : USILInstruction) : Prop := {
  io_dimension : length (ui_resource_dimension i) = 16%nat;
  io_return_types : zlength (ui_resource_return_types i) = 4;
  io_operands : zlength (ui_operands i) = DXBC_MAX_OPERANDS;
  io_operand : Forall operand_ok (ui_operands i);
}.

Definition texture_ok (t : USILTexture) : Prop :=
  length (tx_dimension t) = 16%nat /\ zlength (tx_return_types t) = 4.
Definition uav_ok (u : USILUav) : Prop :=
  length (uav_dimension u) = 16%nat /\ zlength (uav_return_types u) = 4.

(** A table that is allocated has the elements its allocation says. *)
Definition table_ok {A} (P : A -> Prop) (alloc : Z) (xs : option (list A)) : Prop :=
  forall l, xs = Some l -> zlength l = alloc /\ Forall P l.

Record declarations_ok (p : USILProgram) : Prop := {
  do_textures : table_ok texture_ok (up_texture_alloc p) (up_textures p);
  do_texture_count : up_texture_count p <= up_texture_alloc p;
  do_texture_table : 0 < up_texture_count p -> up_textures p <> None;
  do_uavs : table_ok uav_ok (up_uav_alloc p) (up_uavs p);
  do_cbuffers : table_ok (fun _ => True) (up_cbuffer_alloc p) (up_cbuffers p);
  do_signature : table_ok (fun _ => True) (up_signature_declaration_alloc p) (up_signature_declarations p);
  do_shared : table_ok (fun _ => True) (cc_shared_memory_capacity (up_compute p))
                (cc_shared_memory (up_compute p));
}.

(** * Characters *)

Section strings.
Context {E : Type}.

(** Comparing with an array that is terminated stays inside both. *)
Lemma strings_equal_defined a b :
  (length b <= length a)%nat -> terminated b = true ->
  exists r, strings_equal (E:=E) a b = Ret r.
Proof.
  unfold terminated. intros Hl Ht%bool_decide_eq_true. revert a Hl.
  induction b as [|y b IH]; [by apply elem_of_nil in Ht|].
  intros [|x a] Hl; [simpl in Hl; lia|]. cbn [strings_equal].
  destruct (decide (x = y)) as [->|]; [|by rewrite bool_decide_eq_true_2; eauto].
  rewrite (bool_decide_eq_false_2 (y <> y)) by tauto.
  destruct (decide (y = Byte.x00)) as [->|Hy]; [by eauto|].
  rewrite bool_decide_eq_false_2 by done. apply IH; [|simpl in Hl; lia].
  apply elem_of_cons in Ht as [<-|]; done.
Qed.

Lemma string_is_defined a s :
  (length (literal s) <= length a)%nat -> exists r, string_is (E:=E) a s = Ret r.
Proof.
  intros. apply strings_equal_defined; [done|]. unfold terminated, literal.
  apply bool_decide_eq_true, elem_of_app. right. by left.
Qed.

Lemma not_empty_defined a : (0 < length a)%nat -> exists r, not_empty (E:=E) a = Ret r.
Proof.
  intros. unfold not_empty. destruct (znth_is_Some a 0) as [c Hc]; [unfold zlength; lia|].
  rewrite (aget_ok _ _ _ Hc). by eexists.
Qed.
End strings.

(** * Operands *)

Lemma low_nibble_range m : 0 <= u8 (Z.land m 0x0f) < 16.
Proof.
  assert (0 <= Z.land m 0x0f < 2 ^ 4) by (apply land_lt_pow2; lia).
  rewrite u8_small by lia. done.
Qed.

Lemma destination_lanes_range o : 0 <= usil_operand_destination_lane_mask o < 16.
Proof.
  unfold usil_operand_destination_lane_mask. destruct (_ =? _); [lia|]. apply low_nibble_range.
Qed.

Section operands.
Context {E : Type}.

Lemma operand_get {A} (xs : list A) n i : zlength xs = n -> 0 <= i < n -> exists x, aget (E:=E) xs i = Ret x.
Proof. intros <- Hi. destruct (znth_is_Some xs i Hi) as [x Hx]. exists x. by apply aget_ok. Qed.

Lemma source_component_defined o lane :
  operand_ok o -> exists c, usil_operand_source_component (E:=E) o lane = Ret c /\ -1 <= c < 4.
Proof.
  intros Ho. unfold usil_operand_source_component.
  destruct ((lane <? 0) || (4 <=? lane) || (2 <? op_swizzle_mode o)) eqn:Hb; [by exists (-1)|]. bools.
  assert (Hget : forall k, 0 <= k < 4 -> exists c, aget (E:=E) (op_swizzle o) k = Ret c /\ 0 <= c).
  { intros k Hk. destruct (znth_is_Some (op_swizzle o) k) as [c Hc]; [rewrite (ok_swizzle o Ho); lia|].
    exists c. split; [by apply aget_ok|]. pose proof (ok_swizzle_range o Ho) as HF.
    rewrite list.Forall_forall in HF. apply HF, znth_elem_of. eauto. }
  assert (exists c, (if op_swizzle_mode o =? 2 then aget (op_swizzle o) 0
     else if op_swizzle_mode o =? 1 then aget (op_swizzle o) lane
     else Ret lane : res E Z) = Ret c /\ 0 <= c) as (c & -> & Hc).
  { repeat zcase; [apply Hget; lia|apply Hget; lia|]. exists lane. split; [done|lia]. }
  mstep. eexists. split; [reflexivity|]. zcase; lia.
Qed.

Lemma select_components_defined n lane o mask components :
  operand_ok o -> 0 <= components < 16 ->
  exists r, select_components (E:=E) n lane o mask components = Ret r /\
    forall c, r = Some c -> 0 <= c < 16.
Proof.
  intros Ho. revert lane components. induction n as [|n IH]; intros lane components Hc; cbn [select_components].
  { eexists. split; [done|]. by intros c [= <-]. }
  destruct (has_lane mask lane); [|by apply IH].
  destruct (source_component_defined o lane Ho) as (c & -> & Hr). mstep.
  zcase; [by eexists|]. apply IH. apply (lor_lt_pow2 _ _ 4); [done|].
  assert (c = 0 \/ c = 1 \/ c = 2 \/ c = 3) as Hcs by lia.
  destruct Hcs as [-> | [-> | [-> | ->]]]; vm_compute; split; congruence.
Qed.

Lemma any_index_defined n i (test : Z -> res E bool) :
  (forall j, i <= j < i + Z.of_nat n -> exists b, test j = Ret b) ->
  exists b, any_index n i test = Ret b.
Proof.
  intros Ht. destruct (any_index_spec (fun j => test j = Ret true) n i test) as (b & Hb & _); [|eauto].
  intros j Hj. destruct (Ht j Hj) as [b Hb]. exists b. split; [done|]. rewrite Hb. split; [by intros ->|congruence].
Qed.

Lemma dynamic_index_defined o i : operand_ok o -> 0 <= i < 3 -> exists b, dynamic_index (E:=E) o i = Ret b.
Proof.
  intros [] Hi. unfold dynamic_index.
  repeat (edestruct (operand_get (A:=bool)) as [? ->]; [eassumption|done|]; mstep).
  repeat (edestruct (operand_get (A:=Z)) as [? ->]; [eassumption|done|]; mstep). by eexists.
Qed.
End operands.

(** * Operands of memory accesses *)

Section memory_operands.
Context {E : Type} (program : USILProgram) (Hd : declarations_ok program).

Lemma static_indices_defined o d :
  operand_ok o -> 0 <= d <= 3 ->
  exists b, memory_static_indices_valid (E:=E) o d = Ret b /\
    (b = true -> op_register_index_dim o = d /\ (0 < d -> 0 <= op_register_index o)).
Proof.
  intros Ho Hr. unfold memory_static_indices_valid.
  destruct (_ || _) eqn:Hb; [by eexists|]. bools.
  edestruct (any_index_defined (E:=E)) as [r ->]; [intros; apply dynamic_index_defined; [done|lia]|]. mstep.
  destruct r; [by eexists|]. destruct (Z.eqb_spec d 0); [exists true; split; [done|]; lia|].
  edestruct (operand_get (E:=E) (op_index_values o) 3 0) as [v ->]; [apply Ho|lia|]. mstep.
  eexists. split; [done|]. intros ?. bools. lia.
Qed.

Lemma memory_destination_defined o scalar :
  operand_ok o ->
  exists valid, memory_destination_valid (E:=E) program o scalar =
      Ret (valid, usil_operand_destination_lane_mask o) /\
    (valid = true ->
      (op_type o = OPERAND_TYPE_NULL /\ scalar = true) \/
      (op_type o = OPERAND_TYPE_TEMP /\ 0 <= op_register_index o < up_temp_count program /\
       0 < usil_operand_destination_lane_mask o)).
Proof.
  intros Ho. unfold memory_destination_valid. pose proof (destination_lanes_range o).
  destruct (Z.eqb_spec (op_type o) OPERAND_TYPE_NULL).
  - destruct (static_indices_defined o 0 Ho) as (b & -> & _); [lia|]. mstep.
    eexists. split; [done|]. intros ?. bools. left. by split.
  - destruct (static_indices_defined o 1 Ho) as (b & -> & Hb); [lia|]. mstep.
    eexists. split; [done|]. intros ?. bools. right. destruct Hb as [_ Hb]; [done|].
    repeat split; try done; lia.
Qed.

Lemma immediate_defined o : operand_ok o -> exists b, immediate_valid (E:=E) o = Ret b.
Proof.
  intros Ho. unfold immediate_valid. destruct (static_indices_defined o 0 Ho) as (b & -> & _); [lia|].
  mstep. destruct (_ || negb (op_immediate_word_count o =? _)) eqn:Hb; [by eexists|].
  assert (0 <= op_imm_value_count o <= 4).
  { apply orb_false_iff in Hb as [Hb _]. apply orb_false_iff in Hb as [_ Hb].
    apply andb_false_iff in Hb as [Hb|Hb]; bools; lia. }
  edestruct (any_index_defined (E:=E)) as [r ->]; [|by eexists].
  intros j Hj.
  edestruct (operand_get (E:=E) (op_immediate_words o) 8 j) as [w ->]; [apply Ho|lia|]. mstep.
  edestruct (operand_get (E:=E) (op_imm_values o) 4 j) as [v ->]; [apply Ho|lia|]. by eexists.
Qed.

(** The elements of a table with a count the guards accept. *)
Lemma table_get {A} (P : A -> Prop) count alloc limit (xs : option (list A)) i :
  table_ok P alloc xs -> table_bad count limit alloc xs = false -> 0 <= i < count ->
  exists l x, xs = Some l /\ znth l i = Some x /\ P x.
Proof.
  unfold table_bad. intros Ht Hb Hi. bools. destruct xs as [l|].
  2:{ rewrite andb_true_r in *. bools. lia. }
  destruct (Ht l eq_refl) as [Hl HP]. destruct (znth_is_Some l i) as [x Hx]; [lia|].
  exists l, x. split; [done|]. split; [done|]. rewrite list.Forall_forall in HP.
  apply HP, znth_elem_of. eauto.
Qed.

Lemma constant_buffer_defined n index o :
  operand_ok o -> 0 <= index ->
  (forall i, index <= i < index + Z.of_nat n ->
    exists l x, up_cbuffers program = Some l /\ znth l i = Some x) ->
  exists b, constant_buffer_valid (E:=E) n index program o = Ret b.
Proof.
  intros Ho. revert index. induction n as [|n IH]; intros index Hi Ht; [by eexists|].
  cbn [constant_buffer_valid]. destruct (Ht index) as (l & x & -> & Hx); [lia|]. cbn [ptr]. mstep.
  rewrite (aget_ok _ _ _ Hx). mstep. destruct (cb_reg_idx x =? _).
  - edestruct (operand_get (E:=E) (op_index_values o) 3 1) as [v ->]; [apply Ho|lia|]. by eexists.
  - apply IH; [lia|]. intros i Hj. apply Ht. lia.
Qed.

Lemma thread_id_defined n index o components :
  0 <= index ->
  (forall i, index <= i < index + Z.of_nat n ->
    exists l x, up_signature_declarations program = Some l /\ znth l i = Some x) ->
  exists b, thread_id_valid (E:=E) n index program o components = Ret b.
Proof.
  revert index. induction n as [|n IH]; intros index Hi Ht; [by eexists|].
  cbn [thread_id_valid]. destruct (Ht index) as (l & x & -> & Hx); [lia|]. cbn [ptr]. mstep.
  rewrite (aget_ok _ _ _ Hx). mstep. destruct (_ =? _); [by eexists|].
  apply IH; [lia|]. intros i Hj. apply Ht. lia.
Qed.

Lemma memory_source_defined o lanes :
  operand_ok o ->
  exists b, memory_source_valid (E:=E) program o lanes = Ret b /\ (b = true -> lanes <> 0).
Proof.
  intros Ho. unfold memory_source_valid.
  destruct (_ || _) eqn:Hb; [by eexists|]. bools.
  destruct (select_components_defined (E:=E) 4 0 o lanes 0 Ho) as (r & -> & _); [lia|]. mstep.
  assert (Hany : forall m : res E bool, (exists b, m = Ret b) -> exists b, m = Ret b /\ (b = true -> lanes <> 0)).
  { intros m [b ->]. eauto. }
  destruct r as [components|]; [|by eexists].
  destruct (op_type o =? _); [by apply Hany, immediate_defined|].
  destruct (negb _ || _); [by eexists|].
  destruct (op_type o =? _); [destruct (static_indices_defined o 1 Ho) as (b & -> & _); [lia|]; by eauto|].
  destruct (op_type o =? _).
  { destruct (static_indices_defined o 2 Ho) as (b & -> & _); [lia|]. mstep.
    destruct (_ || _) eqn:Hg; [by eexists|]. apply Hany. bools.
    apply constant_buffer_defined; [done|lia|]. intros i Hi.
    destruct (table_get (fun _ => True) (up_cbuffer_count program) (up_cbuffer_alloc program) 15
                (up_cbuffers program) i) as (l & x & ? & ? & _); [apply Hd|done|lia|eauto]. }
  destruct (is_thread_id _); [|by eexists].
  destruct (static_indices_defined o 0 Ho) as (b & -> & _); [lia|]. mstep.
  destruct (_ || _) eqn:Hg; [by eexists|]. apply Hany. bools.
  apply thread_id_defined; [lia|]. intros i Hi.
  destruct (table_get (fun _ => True) (up_signature_declaration_count program)
              (up_signature_declaration_alloc program) 4
              (up_signature_declarations program) i) as (l & x & ? & ? & _); [apply Hd|done|lia|eauto].
Qed.
End memory_operands.

(** * Declarations *)

(** The one element among the first [count] whose register is [r]. *)
Definition declared {A} (xs : option (list A)) (count : Z) (register : A -> Z) (r : Z) (x : A) : Prop :=
  exists l i, xs = Some l /\ 0 <= i < count /\ znth l i = Some x /\ register x = r /\
    forall j y, 0 <= j < count -> znth l j = Some y -> register y = r -> j = i.

(** The declaration a binding operand names, as an access copies it. *)
Definition binding_declared (program : USILProgram) (binding : DXBCOperand) (access : USILMemoryAccess) : Prop :=
  match ma_space access with
  | USIL_MEMORY_SHADER_RESOURCE =>
      op_type binding = OPERAND_TYPE_RESOURCE /\
      exists t, declared (up_textures program) (up_texture_count program) tx_reg_idx
                  (op_register_index binding) t /\
        ma_dimension access = tx_dimension t /\ ma_return_types access = tx_return_types t /\
        0 <= tx_stride t /\ ma_byte_stride access = u32 (tx_stride t)
  | USIL_MEMORY_UNORDERED_ACCESS =>
      op_type binding = OPERAND_TYPE_UAV /\
      exists u, declared (up_uavs program) (up_uav_count program) uav_reg_idx
                  (op_register_index binding) u /\
        ma_dimension access = uav_dimension u /\ ma_return_types access = uav_return_types u /\
        ma_has_order_preserving_counter access = uav_has_order_preserving_counter u /\
        0 <= uav_stride u /\ ma_byte_stride access = u32 (uav_stride u)
  | USIL_MEMORY_THREAD_GROUP =>
      op_type binding = OPERAND_TYPE_THREAD_GROUP_SHARED_MEMORY /\
      exists m, declared (cc_shared_memory (up_compute program))
                  (cc_shared_memory_count (up_compute program)) memory_register_id
                  (ma_register_id access) m /\
        shared_memory_ok m = true /\ ma_byte_stride access = memory_byte_stride m /\
        ma_shared_memory_byte_count access = memory_byte_count m
  end.

Section declaration_loop.
Context {A : Type} (xs : option (list A)) (count : Z) (register : A -> Z) (r : Z)
  (good : A -> bool) (declare : A -> USILMemoryAccess -> USILMemoryAccess)
  (key : USILMemoryAccess -> Z)
  (body : Z -> bool * USILMemoryAccess -> res unit (bool * USILMemoryAccess)).
Hypothesis (body_eq : forall i found a, body i (found, a) =
  (l ← ptr xs; x ← aget l i;
   if negb (register x =? key a) then Ret (found, a) else
   if (found : bool) || negb (good x) then Fail tt else Ret (true, declare x a))).
Hypothesis (key_declare : forall x a, key (declare x a) = key a).
Hypothesis (table : forall i, 0 <= i < count -> exists l x, xs = Some l /\ znth l i = Some x).

Lemma declare_loop a0 : key a0 = r ->
  outcome (for_loop (Z.to_nat count) 0 body (false, a0))
    (fun '(found, a) => if found : bool then
       exists x, declared xs count register r x /\ good x = true /\ a = declare x a0 else True)
    (fun _ => True).
Proof.
  intros Hk.
  destruct (Z.lt_ge_cases count 0); [by replace (Z.to_nat count) with 0%nat by lia|].
  eapply outcome_mono; [apply (outcome_for (fun i '(found, a) =>
    if found : bool then
      exists x, declared xs i register r x /\ good x = true /\ a = declare x a0
    else a = a0 /\ forall l j y, xs = Some l -> 0 <= j < i -> znth l j = Some y -> register y <> r) (fun _ => True))| |done].
  - split; [done|]. lia.
  - intros i [found a] Hi Hinv. rewrite body_eq.
    destruct (table i) as (l & x & Hxs & Hx); [lia|].
    rewrite (eq_refl : ptr (E:=unit) xs = match xs with Some x => Ret x | None => Undef end), Hxs at 1. mstep.
    rewrite (aget_ok _ _ _ Hx). mstep.
    assert (Ha : key a = r) by (destruct found; [destruct Hinv as (y & _ & _ & ->); by rewrite key_declare
      |by destruct Hinv as [-> _]]).
    rewrite Ha. destruct (Z.eqb_spec (register x) r) as [Hr|Hr]; cbn [negb outcome].
    + destruct found; [exact I|]. destruct Hinv as [-> Hno]. simpl.
      destruct (good x) eqn:Hg; [|done]. exists x. split; [|done].
      exists l, i. split; [done|]. split; [lia|]. split; [done|]. split; [done|]. intros j y Hj Hy Hry.
      destruct (decide (j = i)) as [|Hne]; [done|]. exfalso. by apply (Hno l j y Hxs ltac:(lia) Hy).
    + destruct found.
      * destruct Hinv as (y & (l' & k & Hxs' & Hk' & Hy & Hry & Huniq) & Hg & ->).
        exists y. split; [|done]. exists l', k. split; [done|]. split; [lia|]. split; [done|]. split; [done|].
        intros j z Hj Hz Hrz. destruct (decide (j = i)) as [->|]; [|apply (Huniq j z); [lia|done..]].
        congruence.
      * destruct Hinv as [-> Hno]. split; [done|]. intros l' j y Hxs' Hj Hy.
        destruct (decide (j = i)) as [->|]; [congruence|apply (Hno l' j y); [done|lia|done]].
  - replace (0 + Z.of_nat (Z.to_nat count)) with count by lia. intros [[] a]; [done|]. done.
Qed.
End declaration_loop.

(** The fields a declaration leaves alone. *)
Definition access_operands (a : USILMemoryAccess) :=
  (ma_destination_operand a, ma_binding_operand a, ma_address_operand a, ma_byte_offset_operand a,
   ma_value_operand a, ma_compare_operand a, ma_reads a, ma_writes a, ma_atomic a).
Definition access_lanes (a : USILMemoryAccess) :=
  (ma_destination_lanes a, ma_address_lanes a, ma_value_lanes a, ma_memory_component_lanes a,
   ma_counter_mode a).

Lemma declare_texture_loop program binding a :
  declarations_ok program ->
  table_bad (up_texture_count program) 128 (up_texture_alloc program) (up_textures program) = false ->
  outcome (for_loop (Z.to_nat (up_texture_count program)) 0 (declare_texture program binding) (false, a))
    (fun '(found, a') => found = true ->
       exists t, declared (up_textures program) (up_texture_count program) tx_reg_idx
                  (op_register_index binding) t /\ texture_ok t /\ 0 <= tx_stride t /\
       a' = texture_access t a)
    (fun _ => True).
Proof.
  intros Hd Hbad.
  eapply outcome_mono; [eapply (declare_loop (up_textures program) _ tx_reg_idx (op_register_index binding)
    (fun t => 0 <=? tx_stride t) texture_access (fun _ => op_register_index binding))| |done].
  - intros i found b. unfold declare_texture. destruct (up_textures program) as [l|]; [|done].
    cbn [ptr]. mstep. destruct (aget l i); try done. mstep. by rewrite <- Z.ltb_antisym.
  - done.
  - intros i Hi. destruct (table_get texture_ok _ _ _ _ i (do_textures _ Hd) Hbad Hi) as (l & x & ? & ? & _). eauto.
  - done.
  - intros [[] a'] H; [|done]. intros _. destruct H as (t & Ht & Hs & ->). bools. exists t.
    split; [done|]. split; [|done]. destruct Ht as (l & i & Hxs & Hi & Hx & _ & _).
    destruct (table_get texture_ok _ _ _ _ i (do_textures _ Hd) Hbad Hi) as (l' & x & Hxs' & Hx' & Hok).
    congruence.
Qed.

Lemma declare_uav_loop program binding a :
  declarations_ok program ->
  table_bad (up_uav_count program) 8 (up_uav_alloc program) (up_uavs program) = false ->
  outcome (for_loop (Z.to_nat (up_uav_count program)) 0 (declare_uav program binding) (false, a))
    (fun '(found, a') => found = true ->
       exists u, declared (up_uavs program) (up_uav_count program) uav_reg_idx
                  (op_register_index binding) u /\ uav_ok u /\ 0 <= uav_stride u /\
       a' = uav_access u a)
    (fun _ => True).
Proof.
  intros Hd Hbad.
  eapply outcome_mono; [eapply (declare_loop (up_uavs program) _ uav_reg_idx (op_register_index binding)
    (fun u => 0 <=? uav_stride u) uav_access (fun _ => op_register_index binding))| |done].
  - intros i found b. unfold declare_uav. destruct (up_uavs program) as [l|]; [|done].
    cbn [ptr]. mstep. destruct (aget l i); try done. mstep. by rewrite <- Z.ltb_antisym.
  - done.
  - intros i Hi. destruct (table_get uav_ok _ _ _ _ i (do_uavs _ Hd) Hbad Hi) as (l & x & ? & ? & _). eauto.
  - done.
  - intros [[] a'] H; [|done]. intros _. destruct H as (u & Hu & Hs & ->). bools. exists u.
    split; [done|]. split; [|done]. destruct Hu as (l & i & Hxs & Hi & Hx & _ & _).
    destruct (table_get uav_ok _ _ _ _ i (do_uavs _ Hd) Hbad Hi) as (l' & x & Hxs' & Hx' & Hok).
    congruence.
Qed.

Lemma declare_shared_loop program a :
  declarations_ok program ->
  table_bad (cc_shared_memory_count (up_compute program)) 8192
    (cc_shared_memory_capacity (up_compute program)) (cc_shared_memory (up_compute program)) = false ->
  outcome (for_loop (Z.to_nat (cc_shared_memory_count (up_compute program))) 0
             (declare_shared program) (false, a))
    (fun '(found, a') => found = true ->
       exists m, declared (cc_shared_memory (up_compute program))
                  (cc_shared_memory_count (up_compute program)) memory_register_id (ma_register_id a) m /\
       shared_memory_ok m = true /\ a' = shared_access m a)
    (fun _ => True).
Proof.
  intros Hd Hbad.
  eapply outcome_mono; [eapply (declare_loop (cc_shared_memory (up_compute program)) _ memory_register_id
    (ma_register_id a) shared_memory_ok shared_access ma_register_id)| |done].
  - done.
  - done.
  - intros i Hi. destruct (table_get _ _ _ _ _ i (do_shared _ Hd) Hbad Hi) as (l & x & ? & ? & _). eauto.
  - done.
  - intros [[] a'] H; [|done]. intros _. by destruct H as (m & ? & ? & ->); eauto.
Qed.

(** A declaration that is found, as the access has it. *)
Record declaration_copied (program : USILProgram) (binding : DXBCOperand)
    (before after : USILMemoryAccess) : Prop := {
  dc_dimension : length (ma_dimension after) = 16%nat;
  dc_types : zlength (ma_return_types after) = 4;
  dc_binding : binding_declared program binding after;
  dc_operands : access_operands after = access_operands before;
  dc_lanes : access_lanes after = access_lanes before;
}.

(** What [memory_declaration] fills in. *)
Record declaration_filled (program : USILProgram) (binding : DXBCOperand)
    (before after : USILMemoryAccess) : Prop := {
  df_bound : 0 <= op_register_index binding;
  df_binding : binding_declared program binding after;
  df_dimension : length (ma_dimension after) = 16%nat;
  df_terminated : terminated (ma_dimension after) = true;
  df_types : zlength (ma_return_types after) = 4;
  df_kind : match ma_kind after with
            | USIL_MEMORY_RAW => ma_byte_stride after = 0
            | USIL_MEMORY_STRUCTURED => ma_byte_stride after <> 0 /\ Z.land (ma_byte_stride after) 3 = 0 /\
                (ma_space after = USIL_MEMORY_THREAD_GROUP \/ ma_byte_stride after <= 2048)
            | USIL_MEMORY_TYPED => ma_space after = USIL_MEMORY_UNORDERED_ACCESS /\ ma_byte_stride after = 0
            | USIL_MEMORY_COUNTER => False
            end;
  df_operands : access_operands after = access_operands before;
  df_lanes : access_lanes after = access_lanes before;
}.

Lemma length_copy_literal s a :
  (length (literal s) <= length a)%nat -> length (copy_literal s a) = length a.
Proof. intros. unfold copy_literal. rewrite length_app, length_drop. lia. Qed.

Lemma classify_memory_spec program binding access :
  length (ma_dimension access) = 16%nat -> zlength (ma_return_types access) = 4 ->
  0 <= op_register_index binding -> binding_declared program binding access ->
  outcome (classify_memory access) (declaration_filled program binding access) (fun _ => True).
Proof.
  intros Hl Ht Hb Hd. unfold classify_memory.
  destruct (terminated (ma_dimension access)) eqn:Hterm; [|done]. cbn [negb].
  destruct (string_is_defined (E:=unit) (ma_dimension access) "raw") as [raw ->]; [rewrite Hl; vm_compute; lia|].
  destruct (string_is_defined (E:=unit) (ma_dimension access) "structured") as [structured ->];
    [rewrite Hl; vm_compute; lia|]. mstep.
  destruct raw; [|destruct structured].
  - zcase; [|done]. constructor; unfold binding_declared, access_operands, access_lanes in *; by fields.
  - destruct (_ && _) eqn:Hs; [|done]. bools.
    constructor; unfold binding_declared, access_operands, access_lanes in *; fields; try done.
    split; [done|]. split; [done|].
    match goal with H : _ || _ = true |- _ => apply orb_true_iff in H as [H|H] end; bools; auto.
  - destruct (_ && _) eqn:Hs; [|done]. bools.
    constructor; unfold binding_declared, access_operands, access_lanes in *; by fields.
Qed.

Lemma find_memory_declaration_spec program binding a :
  declarations_ok program -> length (ma_dimension a) = 16%nat -> zlength (ma_return_types a) = 4 ->
  outcome (find_memory_declaration program binding a)
    (fun '(found, a') => found = true -> declaration_copied program binding a a') (fun _ => True).
Proof.
  intros Hd Hl Ht. unfold find_memory_declaration.
  destruct (Z.eqb_spec (op_type binding) OPERAND_TYPE_RESOURCE) as [H1|_];
    [|destruct (Z.eqb_spec (op_type binding) OPERAND_TYPE_UAV) as [H2|_];
    [|destruct (Z.eqb_spec (op_type binding) OPERAND_TYPE_THREAD_GROUP_SHARED_MEMORY) as [H3|_]; [|done]]].
  all: destruct (_ || _) eqn:Hb; [done|]; apply orb_false_iff in Hb as [_ Hb].
  - eapply outcome_mono; [by apply declare_texture_loop| |done].
    intros [found a'] H Hf. destruct (H Hf) as (t & Ht' & [Ho1 Ho2] & Hs & ->).
    constructor; try done. split; [done|]. by exists t.
  - eapply outcome_mono; [by apply declare_uav_loop| |done].
    intros [found a'] H Hf. destruct (H Hf) as (u & Hu & [Ho1 Ho2] & Hs & ->).
    constructor; try done. split; [done|]. by exists u.
  - eapply outcome_mono; [by apply declare_shared_loop| |done].
    intros [found a'] H Hf. destruct (H Hf) as (m & Hm & Hs & ->).
    constructor; try done; [|split; [done|]; by exists m].
    transitivity (length (copy_literal (if memory_structured m then "structured" else "raw") (ma_dimension a)));
      [done|]. rewrite length_copy_literal; [done|]. rewrite Hl. destruct (memory_structured m); vm_compute; lia.
Qed.

Lemma memory_declaration_spec program binding a :
  declarations_ok program -> operand_ok binding ->
  length (ma_dimension a) = 16%nat -> zlength (ma_return_types a) = 4 ->
  outcome (memory_declaration program binding a) (declaration_filled program binding a) (fun _ => True).
Proof.
  intros Hd Ho Hl Ht. unfold memory_declaration.
  destruct (static_indices_defined (E:=unit) binding 1 Ho) as (b & -> & Hb); [lia|]. mstep.
  destruct b; [|done]. destruct Hb as [_ Hb]; [done|]. cbn [negb].
  apply outcome_bind. eapply outcome_mono; [by apply find_memory_declaration_spec| |done].
  intros [[] a'] H; [|done]. destruct (H eq_refl) as [Hl' Ht' Hbd Hop Hla]. cbn [negb].
  eapply outcome_mono; [apply (classify_memory_spec program binding); try done; apply Hb; lia| |done].
  intros a2 [? ? ? ? ? ? Hop2 Hla2]. constructor; try done.
  - rewrite Hop2, Hop. unfold access_operands. by fields.
  - rewrite Hla2, Hla. unfold access_lanes. by fields.
Qed.

(** * Memory accesses *)

Lemma typed_lanes_defined {E} d : length d = 16%nat ->
  exists l, typed_memory_address_lanes (E:=E) d = Ret l /\ 0 <= l < 16.
Proof.
  intros Hl. unfold typed_memory_address_lanes.
  assert (Hs : forall s, (length (literal s) <= 16)%nat -> exists r, string_is (E:=E) d s = Ret r).
  { intros s Hle. apply string_is_defined. by rewrite Hl. }
  destruct (Hs "buffer") as [b ->]; [vm_compute; lia|]. destruct (Hs "1d") as [b1 ->]; [vm_compute; lia|].
  mstep. destruct (b || b1); [by exists 1|].
  destruct (Hs "2d") as [b2 ->]; [vm_compute; lia|]. destruct (Hs "1darray") as [b3 ->]; [vm_compute; lia|].
  mstep. destruct (b2 || b3); [by exists 3|].
  destruct (Hs "3d") as [b4 ->]; [vm_compute; lia|]. destruct (Hs "2darray") as [b5 ->]; [vm_compute; lia|].
  mstep. destruct (b4 || b5); [by exists 7|by exists 0].
Qed.

Lemma counter_access_spec binding shape a :
  outcome (counter_access binding shape a) (fun a' =>
    (ms_kind shape <> USIL_MEMORY_COUNTER /\ a' = a) \/
    (ms_kind shape = USIL_MEMORY_COUNTER /\ ma_space a = USIL_MEMORY_UNORDERED_ACCESS /\
     ma_kind a = USIL_MEMORY_STRUCTURED /\
     exists mode, mode <> USIL_COUNTER_NONE /\
       a' = a <| ma_counter_mode := mode |> <| ma_kind := USIL_MEMORY_COUNTER |>)) (fun _ => True).
Proof.
  unfold counter_access. destruct (bool_decide (ms_kind shape = _)) eqn:Hk; bools; cbn [negb]; [|by left].
  destruct (_ || _) eqn:Hb; [done|]. bools. right. split; [done|]. split; [done|]. split; [done|].
  eexists. split; [|reflexivity]. by destruct (ma_has_order_preserving_counter a).
Qed.

Lemma address_access_spec shape a :
  length (ma_dimension a) = 16%nat -> zlength (ma_return_types a) = 4 -> 0 <= ma_address_lanes a < 16 ->
  outcome (address_access shape a) (fun a' => exists lanes,
    0 <= lanes < 16 /\ a' = a <| ma_address_lanes := lanes |>) (fun _ => True).
Proof.
  intros Hl Ht Ha. unfold address_access. destruct (bool_decide _).
  - destruct (typed_lanes_defined (E:=unit) (ma_dimension a) Hl) as (l & -> & Hr). mstep.
    destruct (l =? 0); [done|].
    edestruct (any_index_defined (E:=unit)) as [r ->]; [|mstep; destruct r; [done|by exists l]].
    intros j Hj. edestruct (operand_get (E:=unit) (ma_return_types a) 4 j) as [t ->]; [done|lia|].
    by eexists.
  - destruct (0 <=? ms_address shape).
    + eexists. split; [|reflexivity]. destruct (_ && _); lia.
    + exists (ma_address_lanes a). split; [done|]. by destruct a.
Qed.

Section stages.
Context (program : USILProgram) (instruction : USILInstruction).
Hypothesis (Hd : declarations_ok program) (Hi : instruction_ok instruction).

Lemma operand_at_ok i : 0 <= i < DXBC_MAX_OPERANDS ->
  exists o, operand_at (E:=unit) instruction i = Ret o /\ znth (ui_operands instruction) i = Some o /\ operand_ok o.
Proof.
  intros Hr. destruct (znth_is_Some (ui_operands instruction) i) as [o Ho]; [by rewrite (io_operands _ Hi)|].
  exists o. split; [by apply aget_ok|]. split; [done|].
  pose proof (io_operand _ Hi) as HF. rewrite list.Forall_forall in HF. apply HF, znth_elem_of. eauto.
Qed.

(** The destination of an access with such lanes. *)
Definition destination_written (shape : MemoryOpcodeShape) (lanes : Z) : Prop :=
  0 <= ms_destination shape ->
  exists o, znth (ui_operands instruction) (ms_destination shape) = Some o /\
    lanes = usil_operand_destination_lane_mask o /\
    ((op_type o = OPERAND_TYPE_NULL /\ ms_atomic shape = true) \/
     (op_type o = OPERAND_TYPE_TEMP /\ 0 <= op_register_index o < up_temp_count program /\ 0 < lanes)).

Lemma destination_access_spec shape a :
  ms_destination shape < DXBC_MAX_OPERANDS -> 0 <= ma_destination_lanes a < 16 ->
  outcome (destination_access program instruction shape a) (fun a' => exists lanes,
    0 <= lanes < 16 /\ destination_written shape lanes /\ a' = a <| ma_destination_lanes := lanes |>)
    (fun _ => True).
Proof.
  intros Hm Hr. unfold destination_access, destination_written.
  destruct (Z.ltb_spec (ms_destination shape) 0).
  { exists (ma_destination_lanes a). split; [done|]. split; [lia|]. by destruct a. }
  destruct (operand_at_ok (ms_destination shape)) as (o & -> & Hz & Ho); [lia|]. mstep.
  destruct (memory_destination_defined (E:=unit) program o (ms_atomic shape) Ho) as (valid & -> & Hv).
  mstep. destruct valid; [|done]. eexists. split; [apply destination_lanes_range|]. split; [|done].
  intros _. exists o. split; [done|]. split; [done|]. by apply Hv.
Qed.

Lemma component_access_spec binding shape a :
  operand_ok binding -> ma_memory_component_lanes a = 0 -> 0 <= ma_value_lanes a < 16 ->
  outcome (component_access binding shape a) (fun a' => exists value components,
    0 <= value < 16 /\ 0 <= components < 16 /\
    a' = a <| ma_value_lanes := value |> <| ma_memory_component_lanes := components |>) (fun _ => True).
Proof.
  intros Ho Hc Hv. unfold component_access. destruct (ms_atomic shape); [|destruct (ms_writes shape)].
  - destruct (_ || _); [done|]. eexists _, _. split; [|split; [|reflexivity]]; [zcase; lia|lia].
  - destruct (_ || _); [done|]. pose proof (destination_lanes_range binding).
    eexists _, _. split; [|split; [|reflexivity]]; done.
  - destruct (_ || _); [done|].
    destruct (select_components_defined (E:=unit) 4 0 binding (ma_destination_lanes a)
                (ma_memory_component_lanes a) Ho) as (r & -> & Hr); [lia|]. mstep.
    destruct r as [c|]; [|done]. exists (ma_value_lanes a), c. split; [done|]. split; [by apply Hr|].
    by destruct a.
Qed.

Lemma source_access_spec operand lanes :
  operand < DXBC_MAX_OPERANDS ->
  outcome (source_access program instruction operand lanes) (fun _ => 0 <= operand -> lanes <> 0)
    (fun _ => True).
Proof.
  intros Hr. unfold source_access. destruct (Z.ltb_spec operand 0); [simpl; lia|].
  destruct (operand_at_ok operand) as (o & -> & _ & Ho); [lia|]. mstep.
  destruct (memory_source_defined (E:=unit) program Hd o lanes Ho) as (b & -> & Hb). mstep.
  destruct b; [|done]. intros _. by apply Hb.
Qed.

Lemma resource_agrees_defined a :
  length (ma_dimension a) = 16%nat -> terminated (ma_dimension a) = true ->
  zlength (ma_return_types a) = 4 ->
  outcome (resource_agrees instruction a) (fun _ => True) (fun _ => True).
Proof.
  intros Hl Ht Hr. unfold resource_agrees. pose proof (io_dimension _ Hi) as Hdim.
  destruct (not_empty_defined (E:=unit) (ui_resource_dimension instruction)) as [named ->]; [lia|]. mstep.
  assert (exists s, (if named then strings_equal (ui_resource_dimension instruction) (ma_dimension a)
                     else Ret true : res unit bool) = Ret s) as [s ->].
  { destruct named; [apply strings_equal_defined; [lia|done]|by eexists]. }
  mstep. destruct (_ || _); [done|]. destruct (negb _); [done|].
  edestruct (any_index_defined (E:=unit)) as [r ->]; [|by destruct r].
  intros j Hj.
  assert (exists t, (if bool_decide (ma_kind a = USIL_MEMORY_TYPED) then aget (ma_return_types a) j
                     else Ret 6 : res unit Z) = Ret t) as [t ->].
  { destruct (bool_decide _); [|by eexists].
    by edestruct (operand_get (E:=unit) (ma_return_types a) 4 j) as [t ->]; [|lia|eexists]. }
  mstep. edestruct (operand_get (E:=unit) (ui_resource_return_types instruction) 4 j) as [u ->];
    [apply Hi|lia|]. by eexists.
Qed.
End stages.
