(* ===== verification/UsilMemory.v ===== *)
(** What a memory access of a compute program is, said without the tables of
    usil_validation.c: the roles of the operands of each opcode, the one
    declaration its binding names, the lanes each operand is read or written
    in, and that [usil_instruction_memory_access] returns exactly that. *)

From stdpp Require Import gmultiset.
From S2P Require Import Prelude CArray UnityCommon ShaderStage StageContract Operand Instruction Usil UsilValidation UsilValidationSteps.

#[local] Set Warnings "-register-all,-clear-no-such-hyp,-level-tolerance".

(** A computation that answers whether [P]. *)
Definition decides {E} (m : res E bool) (P : Prop) : Prop := exists b, m = Ret b /\ (b = true <-> P).

Lemma decides_bool {E} (b : bool) (P : Prop) : (b = true <-> P) -> decides (Ret b : res E bool) P.
Proof. intros H. by exists b. Qed.

Lemma decides_mono {E} (m : res E bool) P Q : decides m P -> (P <-> Q) -> decides m Q.
Proof. intros (b & -> & Hb) HPQ. exists b. split; [done|]. by rewrite Hb. Qed.

(** A computation that answers whether not [P]. *)
Definition rejects {E} (m : res E bool) (P : Prop) : Prop := exists b, m = Ret b /\ (b = false <-> P).

Lemma rejects_bool {E} (b : bool) (P : Prop) : (b = false <-> P) -> rejects (Ret b : res E bool) P.
Proof. intros H. by exists b. Qed.

(** A loop that rejects at the first index whose test does. *)
Lemma rejects_any {E} n (test : Z -> res E bool) (P : Z -> Prop) :
  (forall i, 0 <= i < Z.of_nat n -> rejects (test i) (P i)) ->
  rejects (any_index n 0 test) (forall i, 0 <= i < Z.of_nat n -> P i).
Proof.
  intros Ht. destruct (any_index_spec (fun i => test i = Ret true) n 0 test) as (b & Hb & Hiff).
  { intros j Hj. destruct (Ht j ltac:(lia)) as (b & Hb & _). exists b. split; [done|]. rewrite Hb.
    split; [by intros ->|congruence]. }
  exists b. split; [done|]. split.
  - intros -> i Hi. destruct (Ht i Hi) as ([] & Hi' & HP); [|by apply HP]. exfalso.
    enough (false = true) by done. apply Hiff. exists i. split; [lia|done].
  - intros Hall. destruct b; [|done]. destruct (proj1 Hiff eq_refl) as (i & Hi & Hrun).
    destruct (Ht i ltac:(lia)) as (b & Hb' & HP). assert (b = true) as -> by congruence.
    by apply HP, Hall; lia.
Qed.

Lemma bind_Ret_iff {E A B} (m : res E A) (k : A -> res E B) b :
  m ≫= k = Ret b <-> exists a, m = Ret a /\ k a = Ret b.
Proof. split; [apply bind_Ret_inv|]. by intros (a & -> & Hk). Qed.

(** A test in the middle of a computation. *)
Lemma guard_iff {E A} (b : bool) (e : E) (m : res E A) a :
  (if b then Fail e else m) = Ret a <-> b = false /\ m = Ret a.
Proof. destruct b; naive_solver. Qed.

Lemma decides_guard {E A} (m : res E bool) P (k : bool -> res E A) a : decides m P ->
  m ≫= k = Ret a <-> (P /\ k true = Ret a) \/ (~ P /\ k false = Ret a).
Proof. intros ([] & -> & Hb); mstep; destruct Hb; naive_solver. Qed.

(** * Strings *)

(** The array begins with the string and its terminator. *)
Definition holds (a : list byte) (s : string) : Prop := literal s `prefix_of` a.

(** Two arrays hold the same string. *)
Definition same_string (a b : list byte) : Prop :=
  exists s, Byte.x00 ∉ s /\ s ++ [Byte.x00] `prefix_of` a /\ s ++ [Byte.x00] `prefix_of` b.

Section strings.
Context {E : Type}.

Lemma strings_equal_decides a b : (length b <= length a)%nat -> terminated b = true ->
  decides (strings_equal (E:=E) a b) (same_string a b).
Proof.
  unfold terminated. intros Hl Ht%bool_decide_eq_true. revert a Hl.
  induction b as [|y b IH]; [by apply elem_of_nil in Ht|].
  intros [|x a] Hl; [simpl in Hl; lia|]. cbn [strings_equal].
  destruct (decide (x = y)) as [->|Hne].
  2:{ rewrite bool_decide_eq_true_2 by done. apply decides_bool. split; [done|].
      intros (s & _ & [r1 H1] & [r2 H2]). destruct s as [|c s]; cbn in H1, H2; congruence. }
  rewrite (bool_decide_eq_false_2 (y <> y)) by tauto.
  destruct (decide (y = Byte.x00)) as [->|Hy].
  { rewrite bool_decide_eq_true_2 by done. apply decides_bool. split; [|done]. intros _.
    exists []. split; [apply not_elem_of_nil|]. split; [by exists a|by exists b]. }
  rewrite bool_decide_eq_false_2 by done. apply elem_of_cons in Ht as [|Ht]; [by subst|].
  eapply decides_mono; [apply IH; [done|simpl in Hl; lia]|]. split.
  - intros (s & Hs & [r1 H1] & [r2 H2]). exists (y :: s). split; [|by split; [exists r1|exists r2]; rewrite ?H1, ?H2].
    intros [?|?]%elem_of_cons; congruence.
  - intros (s & Hs & [r1 H1] & [r2 H2]). destruct s as [|c s]; cbn in H1, H2; [congruence|].
    injection H1 as -> H1. injection H2 as H2. apply not_elem_of_cons in Hs as [_ Hs].
    exists s. split; [done|]. split; [by exists r1|by exists r2].
Qed.

Lemma string_is_decides a s : Byte.x00 ∉ String.list_byte_of_string s -> (length (literal s) <= length a)%nat ->
  decides (string_is (E:=E) a s) (holds a s).
Proof.
  intros Hs Hl. eapply decides_mono; [apply strings_equal_decides; [done|]|].
  { unfold terminated, literal. apply bool_decide_eq_true, elem_of_app. right. by left. }
  unfold holds, literal. split.
  - intros (s' & Hs' & H1 & [r H2]).
    enough (s' = String.list_byte_of_string s) as <- by done. clear H1.
    revert H2 Hs Hs'. generalize (String.list_byte_of_string s) as t. clear. induction s' as [|c s' IH]; intros [|d t].
    + done.
    + cbn. intros [= -> _] Ht. by destruct Ht; left.
    + cbn. intros [= -> _] _ Ht. by destruct Ht; left.
    + cbn. intros [= -> H] Ht Hs. apply not_elem_of_cons in Ht as [_ Ht], Hs as [_ Hs]. f_equal. by apply IH.
  - intros H1. eexists. split; [exact Hs|]. split; [done|reflexivity].
Qed.

Lemma not_empty_decides a : (0 < length a)%nat -> decides (not_empty (E:=E) a) (~ holds a "").
Proof.
  intros Hl. unfold not_empty. destruct a as [|c a]; [simpl in Hl; lia|]. cbn. apply decides_bool.
  rewrite bool_decide_eq_true. unfold holds, literal. cbn. split.
  - intros Hc [r H]. by injection H as ->.
  - intros Hn ->. apply Hn. by exists a.
Qed.
End strings.

(** * Lanes *)

(** [mask] has the lanes [P] holds of. *)
Definition lanes_are (mask : Z) (P : Z -> Prop) : Prop :=
  0 <= mask < 16 /\ forall k, 0 <= k < 4 -> Z.testbit mask k = true <-> P k.

Lemma small_testbit m k : 0 <= m < 16 -> 4 <= k -> Z.testbit m k = false.
Proof.
  intros Hm Hk. destruct (decide (m = 0)) as [->|]; [apply Z.bits_0|]. apply Z.bits_above_log2; [lia|].
  assert (Z.log2 m < 4) by (apply Z.log2_lt_pow2; lia). lia.
Qed.

Lemma lanes_are_unique m m' P : lanes_are m P -> lanes_are m' P -> m = m'.
Proof.
  intros [Hm HP] [Hm' HP']. apply Z.bits_inj'. intros k Hk. destruct (decide (k < 4)) as [Hk4|].
  - specialize (HP k ltac:(lia)). specialize (HP' k ltac:(lia)).
    destruct (Z.testbit m k), (Z.testbit m' k); naive_solver.
  - by rewrite !small_testbit by lia.
Qed.

Lemma has_lane_testbit mask lane : 0 <= lane -> has_lane mask lane = Z.testbit mask lane.
Proof.
  intros Hl. unfold has_lane. destruct (Z.testbit mask lane) eqn:Hb.
  - apply negb_true_iff, Z.eqb_neq. intros H0. assert (Hc : Z.testbit (Z.land mask (Z.shiftl 1 lane)) lane = false)
      by by rewrite H0, Z.bits_0.
    rewrite Z.land_spec, Hb, Z.shiftl_spec, Z.sub_diag in Hc by done. done.
  - apply negb_false_iff, Z.eqb_eq, Z.bits_inj'. intros k Hk. rewrite Z.bits_0, Z.land_spec.
    destruct (decide (k = lane)) as [->|]; [by rewrite Hb|]. rewrite Z.shiftl_spec by done.
    destruct (decide (k < lane)); [rewrite (Z.testbit_neg_r 1) by lia; by rewrite andb_false_r|].
    rewrite (Z.bits_above_log2 1) by (cbn; lia). by rewrite andb_false_r.
Qed.

(** The lanes a destination writes: the high half of its mask. *)
Definition written_lanes (o : DXBCOperand) (lanes : Z) : Prop :=
  lanes_are lanes (fun k => Z.testbit (op_destination_mask o) (k + 4) = true).

Lemma destination_mask_lanes o :
  op_type o <> OPERAND_TYPE_NULL -> op_type o <> OPERAND_TYPE_OUTPUT_DEPTH ->
  op_type o <> OPERAND_TYPE_OUTPUT_DEPTH_GREATER_EQUAL -> op_type o <> OPERAND_TYPE_OUTPUT_DEPTH_LESS_EQUAL ->
  written_lanes o (usil_operand_destination_lane_mask o).
Proof.
  intros H1 H2 H3 H4. split; [apply destination_lanes_range|]. intros k Hk.
  unfold usil_operand_destination_lane_mask. rewrite (proj2 (Z.eqb_neq _ _) H1).
  rewrite (proj2 (Z.eqb_neq _ _) H2), (proj2 (Z.eqb_neq _ _) H3), (proj2 (Z.eqb_neq _ _) H4), andb_false_r.
  rewrite u8_small by (pose proof (land_lt_pow2 (u8 (Z.shiftr (op_destination_mask o) 4)) 0x0f 4); lia).
  rewrite Z.land_spec. unfold u8. rewrite Z.mod_pow2_bits_low, Z.shiftr_spec by lia.
  assert (Z.testbit 15 k = true) as ->; [|by rewrite andb_true_r].
  assert (k = 0 \/ k = 1 \/ k = 2 \/ k = 3) as H by lia. by destruct H as [-> | [-> | [-> | ->]]].
Qed.

(** The component a lane of an operand selects. *)
Definition component_of (o : DXBCOperand) (lane component : Z) : Prop :=
  0 <= lane < 4 /\ 0 <= component < 4 /\ op_swizzle_mode o <= 2 /\
  Some component = (if decide (op_swizzle_mode o = 2) then znth (op_swizzle o) 0
                    else if decide (op_swizzle_mode o = 1) then znth (op_swizzle o) lane else Some lane).

(** Every lane of [mask] selects a component, and [components] are those. *)
Definition selects (o : DXBCOperand) (mask components : Z) : Prop :=
  (forall lane, 0 <= lane < 4 -> Z.testbit mask lane = true -> exists c, component_of o lane c) /\
  lanes_are components (fun c => exists lane, Z.testbit mask lane = true /\ component_of o lane c).

Lemma component_of_unique o lane c c' : component_of o lane c -> component_of o lane c' -> c = c'.
Proof. intros (_ & _ & _ & H) (_ & _ & _ & H'). congruence. Qed.

Lemma selects_unique o mask c c' : selects o mask c -> selects o mask c' -> c = c'.
Proof. intros [_ H] [_ H']. by eapply lanes_are_unique. Qed.

Section operands.
Context {E : Type}.

Lemma source_component_of o lane : operand_ok o -> 0 <= lane < 4 ->
  exists c, usil_operand_source_component (E:=E) o lane = Ret c /\
    ((0 <= c /\ component_of o lane c) \/ (c = -1 /\ forall k, ~ component_of o lane k)).
Proof.
  intros Ho Hl. unfold usil_operand_source_component, component_of.
  rewrite (proj2 (Z.ltb_ge lane 0)), (proj2 (Z.leb_gt 4 lane)) by lia. cbn [orb].
  destruct (Z.ltb_spec 2 (op_swizzle_mode o)) as [Hm|Hm].
  { eexists. split; [done|]. right. split; [done|]. intros k H. lia. }
  assert (Hget : forall k, 0 <= k < 4 -> exists c, znth (op_swizzle o) k = Some c /\ 0 <= c).
  { intros k Hk. destruct (znth_is_Some (op_swizzle o) k) as [c Hc]; [rewrite (ok_swizzle o Ho); lia|].
    exists c. split; [done|]. pose proof (ok_swizzle_range o Ho) as HF.
    rewrite list.Forall_forall in HF. apply HF, znth_elem_of. eauto. }
  assert (Hc : exists c, (if op_swizzle_mode o =? 2 then aget (op_swizzle o) 0
     else if op_swizzle_mode o =? 1 then aget (op_swizzle o) lane else Ret lane : res E Z) = Ret c /\ 0 <= c /\
     Some c = (if decide (op_swizzle_mode o = 2) then znth (op_swizzle o) 0
                    else if decide (op_swizzle_mode o = 1) then znth (op_swizzle o) lane else Some lane)).
  { destruct (Z.eqb_spec (op_swizzle_mode o) 2); [rewrite decide_True by done|rewrite decide_False by done;
      destruct (Z.eqb_spec (op_swizzle_mode o) 1); [rewrite decide_True by done|rewrite decide_False by done]].
    - destruct (Hget 0 ltac:(lia)) as (c & Hc & H0). rewrite (aget_ok _ _ _ Hc). eauto.
    - destruct (Hget lane Hl) as (c & Hc & H0). rewrite (aget_ok _ _ _ Hc). eauto.
    - exists lane. split_and!; done || lia. }
  destruct Hc as (c & -> & H0 & <-). mstep. eexists. split; [reflexivity|].
  destruct (Z.ltb_spec c 4); [left; split_and!; done || lia|right]. split; [done|].
  intros k (_ & Hk & _ & [= ->]). lia.
Qed.

Lemma select_components_from n lane o mask components :
  operand_ok o -> 0 <= lane -> lane + Z.of_nat n = 4 ->
  (forall j, 0 <= j < lane -> Z.testbit mask j = true -> exists c, component_of o j c) ->
  lanes_are components (fun c => exists j, j < lane /\ Z.testbit mask j = true /\ component_of o j c) ->
  exists r, select_components (E:=E) n lane o mask components = Ret r /\
    match r with Some c => selects o mask c | None => forall c, ~ selects o mask c end.
Proof.
  intros Ho. revert lane components. induction n as [|n IH]; intros lane components H0 Hn Hall Hc; cbn [select_components].
  { eexists. split; [done|]. assert (lane = 4) as -> by lia. split; [done|]. destruct Hc as [Hr Hc]. split; [done|].
    intros c Hcr. rewrite (Hc c Hcr). split; [intros (j & _ & ?); eauto|]. intros (j & Hj & Hco). exists j.
    split; [apply Hco|done]. }
  rewrite has_lane_testbit by done. destruct (Z.testbit mask lane) eqn:Hb.
  - destruct (source_component_of o lane Ho ltac:(lia)) as (c & -> & [[Hc0 Hco]|[-> Hno]]); mstep.
    2:{ eexists. split; [done|]. intros c [Hsel _]. destruct (Hsel lane ltac:(lia) Hb) as [k Hk]. by eapply Hno. }
    rewrite (proj2 (Z.ltb_ge _ _)) by lia. apply IH; [lia|lia| |].
    + intros j Hj Hjb. destruct (decide (j = lane)) as [->|]; [by eexists|]. apply Hall; [lia|done].
    + assert (Hc4 : 0 <= c < 4) by apply Hco.
      assert (Hpow : 0 <= Z.shiftl 1 c < 2 ^ 4) by (rewrite Z.shiftl_1_l; split; [lia|apply Z.pow_lt_mono_r; lia]).
      rewrite u8_small by lia. destruct Hc as [Hr Hc]. split; [by apply (lor_lt_pow2 _ _ 4)|].
      intros k Hk. rewrite Z.lor_spec, orb_true_iff, (Hc k Hk), Z.shiftl_1_l, Z.pow2_bits_eqb, Z.eqb_eq by lia. split.
      * intros [(j & Hj & ?)| ->]; [exists j|exists lane]; split_and!; done || lia || naive_solver.
      * intros (j & Hj & Hjb & Hjk). destruct (decide (j = lane)) as [->|]; [right; by eapply component_of_unique|].
        left. exists j. split; [lia|done].
  - apply IH; [lia|lia| |].
    + intros j Hj Hjb. destruct (decide (j = lane)) as [->|]; [congruence|]. apply Hall; [lia|done].
    + destruct Hc as [Hr Hc]. split; [done|]. intros k Hk. rewrite (Hc k Hk). split.
      * intros (j & Hj & ?). exists j. split; [lia|done].
      * intros (j & Hj & Hjb & ?). exists j. destruct (decide (j = lane)) as [->|]; [congruence|]. split; [lia|done].
Qed.

Lemma select_components_selects o mask : operand_ok o ->
  exists r, select_components (E:=E) 4 0 o mask 0 = Ret r /\ forall c, r = Some c <-> selects o mask c.
Proof.
  intros Ho. destruct (select_components_from 4 0 o mask 0 Ho) as (r & Hr & Hs); [lia|lia|lia| |].
  { split; [lia|]. intros k Hk. rewrite Z.bits_0. split; [done|]. intros (j & Hj & _ & ? & _). lia. }
  exists r. split; [done|]. intros c. destruct r as [c'|].
  - split; [by intros [= <-]|]. intros Hc. f_equal. by eapply selects_unique.
  - split; [done|]. intros Hc. by apply Hs in Hc.
Qed.

(** * Indices *)

(** An operand as written in assembly, without modifiers or relative indices. *)
Record plain_operand (o : DXBCOperand) : Prop := {
  po_abs : op_has_abs o = false;
  po_neg : op_has_neg o = false;
  po_precision : op_min_precision o = 0;
  po_extended : op_extended_tokens o = [];
  po_relative : op_rel_op0 o = None /\ op_rel_op1 o = None /\ op_rel_op2 o = None;
}.

Lemma plain_operand_iff o : memory_operand_base_valid o = true <-> plain_operand o.
Proof.
  unfold memory_operand_base_valid. rewrite !andb_true_iff, !negb_true_iff, Z.eqb_eq, !bool_decide_eq_true.
  split; [intros; destruct_and!; by constructor|]. intros [? ? ? ? (? & ? & ?)]. by split_and!.
Qed.

(** Index [i] is an immediate [int]. *)
Definition static_index (o : DXBCOperand) (i : Z) : Prop :=
  znth (op_index_has_immediate o) i = Some true /\ znth (op_index_value_exceeds_int o) i = Some false /\
  znth (op_index_representations o) i = Some 0 /\ exists v, znth (op_index_values o) i = Some v /\ v <= INT_MAX.

(** An operand with [d] immediate indices, the first its register. *)
Record static_operand (o : DXBCOperand) (d : Z) : Prop := {
  so_plain : plain_operand o;
  so_dimension : op_register_index_dim o = d;
  so_index i : 0 <= i < d -> static_index o i;
  so_register : 0 < d -> 0 <= op_register_index o /\ znth (op_index_values o) 0 = Some (op_register_index o);
}.

Lemma dynamic_index_rejects o i : operand_ok o -> 0 <= i < 3 ->
  rejects (dynamic_index (E:=E) o i) (static_index o i).
Proof.
  intros Ho Hi. unfold dynamic_index, static_index.
  destruct (znth_is_Some (op_index_has_immediate o) i) as [x1 H1]; [rewrite (ok_has_immediate o Ho); lia|].
  destruct (znth_is_Some (op_index_value_exceeds_int o) i) as [x2 H2]; [rewrite (ok_exceeds o Ho); lia|].
  destruct (znth_is_Some (op_index_representations o) i) as [x3 H3]; [rewrite (ok_representations o Ho); lia|].
  destruct (znth_is_Some (op_index_values o) i) as [x4 H4]; [rewrite (ok_index_values o Ho); lia|].
  rewrite (aget_ok _ _ _ H1). mstep. rewrite (aget_ok _ _ _ H2). mstep. rewrite (aget_ok _ _ _ H3). mstep.
  rewrite (aget_ok _ _ _ H4). mstep. apply rejects_bool. rewrite H1, H2, H3, H4. split.
  - intros Hb. bools. subst. split_and!; [done..|]. eauto.
  - intros ([= ->] & [= ->] & [= ->] & v & [= <-] & Hv). cbn. apply Z.ltb_ge. lia.
Qed.

Lemma static_operand_decides o d : operand_ok o -> 0 <= d <= 3 ->
  decides (memory_static_indices_valid (E:=E) o d) (static_operand o d).
Proof.
  intros Ho Hd. unfold memory_static_indices_valid. destruct (_ || _) eqn:Hb.
  { apply decides_bool. split; [done|]. intros [Hp Hdim _ _]. apply plain_operand_iff in Hp.
    rewrite Hp, Hdim, Z.eqb_refl in Hb. done. }
  bools. assert (Hp : plain_operand o) by by apply plain_operand_iff.
  destruct (rejects_any (Z.to_nat d) (dynamic_index (E:=E) o) (static_index o)) as (r & -> & Hr).
  { intros i Hi. apply dynamic_index_rejects; [done|lia]. }
  mstep. rewrite Z2Nat.id in Hr by lia. destruct r.
  { apply decides_bool. split; [done|]. intros Hs. enough (true = false) by done.
    apply Hr. intros i Hi. by apply (so_index _ _ Hs). }
  pose proof (proj1 Hr eq_refl) as Hall. destruct (Z.eqb_spec d 0) as [->|Hne].
  { apply decides_bool. split; [|done]. intros _. constructor; [done|done|done|lia]. }
  destruct (znth_is_Some (op_index_values o) 0) as [v Hv]; [rewrite (ok_index_values o Ho); lia|].
  rewrite (aget_ok _ _ _ Hv). mstep. apply decides_bool. rewrite andb_true_iff, Z.leb_le, Z.eqb_eq. split.
  - intros [Hnn ->]. by constructor.
  - intros [_ _ _ Hreg]. destruct (Hreg ltac:(lia)) as [? Hreg']. split; [done|congruence].
Qed.
End operands.

(** * Tables *)

(** A table the program may search: its count is one it can have. *)
Definition searchable {A} (count limit alloc : Z) (xs : option A) : Prop :=
  0 <= count <= limit /\ count <= alloc /\ (count <> 0 -> xs <> None).

Lemma searchable_iff {A} count limit alloc (xs : option A) :
  table_bad count limit alloc xs = false <-> searchable count limit alloc xs.
Proof.
  unfold table_bad, searchable.
  rewrite !orb_false_iff, !Z.ltb_ge, andb_false_iff, negb_false_iff, Z.eqb_eq. destruct xs as [x|].
  - split; [intros (((? & ?) & ?) & _); by split_and!|]. intros ((? & ?) & ? & _). split; [done|by right].
  - split; [intros (((? & ?) & ?) & [?|?]); by split_and!|]. intros ((? & ?) & ? & Hne0). split; [done|left].
    destruct (decide (count = 0)) as [|Hne]; [done|]. by destruct (Hne0 Hne).
Qed.

(** The first element among the first [count] whose key is [k]. *)
Definition first_named {A} (xs : option (list A)) (from count : Z) (key : A -> Z) (k : Z) (x : A) : Prop :=
  exists l i, xs = Some l /\ from <= i < count /\ znth l i = Some x /\ key x = k /\
    forall j y, from <= j < i -> znth l j = Some y -> key y <> k.

Section search.
Context {E A : Type} (xs : option (list A)) (key : A -> Z) (k : Z) (test : A -> res E bool) (P : A -> Prop)
  (search : nat -> Z -> res E bool).
Hypothesis (search_O : forall i, search O i = Ret false).
Hypothesis (search_S : forall n i, search (S n) i =
  (l ← ptr xs; x ← aget l i; if key x =? k then test x else search n (i + 1))).
Hypothesis (test_decides : forall x, decides (test x) (P x)).

Lemma search_decides n i :
  (forall j, i <= j < i + Z.of_nat n -> exists l x, xs = Some l /\ znth l j = Some x) ->
  decides (search n i) (exists x, first_named xs i (i + Z.of_nat n) key k x /\ P x).
Proof.
  revert i. induction n as [|n IH]; intros i Ht.
  { rewrite search_O. apply decides_bool. split; [done|]. intros (x & (l & j & _ & Hj & _) & _). lia. }
  rewrite search_S. destruct (Ht i ltac:(lia)) as (l & x & Hxs & Hx). rewrite Hxs at 1. cbn [ptr]. mstep.
  rewrite (aget_ok _ _ _ Hx). mstep. destruct (Z.eqb_spec (key x) k) as [Hk|Hk].
  - eapply decides_mono; [apply test_decides|]. split.
    + intros HP. exists x. split; [|done]. exists l, i. split_and!; [done|lia|lia|done|done|]. intros j y Hj. lia.
    + intros (y & (l' & j & Hl' & Hj & Hy & Hky & Hno) & HP). assert (l' = l) as -> by congruence.
      destruct (decide (j = i)) as [->|]; [congruence|]. exfalso. by apply (Hno i x); [lia|..].
  - eapply decides_mono; [apply IH; intros; apply Ht; lia|]. split; intros (y & (l' & j & Hl' & Hj & Hy & Hky & Hno) & HP);
      assert (l' = l) as -> by congruence; exists y; (split; [|done]); exists l, j; (split; [done|]).
    + split; [lia|]. split_and!; [done|done|]. intros m z Hm Hz. destruct (decide (m = i)) as [->|]; [congruence|].
      apply (Hno m z); [lia|done].
    + assert (j <> i) by congruence. split; [lia|]. split_and!; [done|done|]. intros m z Hm. apply Hno. lia.
Qed.
End search.

(** * The operands of an access *)

(** A destination, and the lanes written: a temporary, in one lane if the access
    is atomic, which may also drop its result. *)
Inductive destination_of (program : USILProgram) (atomic : bool) (o : DXBCOperand) (lanes : Z) : Prop :=
| destination_null : op_type o = OPERAND_TYPE_NULL -> atomic = true -> static_operand o 0 -> lanes = 0 ->
    destination_of program atomic o lanes
| destination_temp : op_type o = OPERAND_TYPE_TEMP -> static_operand o 1 ->
    op_register_index o < up_temp_count program -> op_swizzle_mode o = 0 ->
    (forall k, 0 <= k < 4 -> Z.testbit (op_destination_mask o) k = false) ->
    written_lanes o lanes -> lanes <> 0 -> (atomic = true -> lanes ∈ [1; 2; 4; 8]) ->
    destination_of program atomic o lanes.

(** A declared temporary, a constant-buffer element or a thread identifier. *)
Inductive register_read (program : USILProgram) (o : DXBCOperand) (components : Z) : Prop :=
| read_temp : op_type o = OPERAND_TYPE_TEMP -> static_operand o 1 ->
    op_register_index o < up_temp_count program -> register_read program o components
| read_constant cb v : op_type o = OPERAND_TYPE_CONSTANT_BUFFER -> static_operand o 2 ->
    searchable (up_cbuffer_count program) 15 (up_cbuffer_alloc program) (up_cbuffers program) ->
    first_named (up_cbuffers program) 0 (up_cbuffer_count program) cb_reg_idx (op_register_index o) cb ->
    0 < cb_size cb -> znth (op_index_values o) 1 = Some v -> v < u32 (cb_size cb) ->
    register_read program o components
| read_thread_id declaration : is_thread_id (op_type o) = true -> static_operand o 0 ->
    searchable (up_signature_declaration_count program) 4 (up_signature_declaration_alloc program)
      (up_signature_declarations program) ->
    first_named (up_signature_declarations program) 0 (up_signature_declaration_count program)
      sd_operand_type (op_type o) declaration ->
    (forall k, Z.testbit components k = true ->
       if decide (op_type o = OPERAND_TYPE_INPUT_THREAD_ID_IN_GROUP_FLATTENED) then k = 0
       else Z.testbit (sd_mask declaration) k = true) ->
    register_read program o components.

(** An operand read in some lanes. *)
Inductive source_of (program : USILProgram) (o : DXBCOperand) (lanes : Z) : Prop :=
| source_immediate components : lanes <> 0 -> selects o lanes components ->
    op_type o = OPERAND_TYPE_IMMEDIATE32 -> static_operand o 0 -> op_swizzle_mode o = 0 ->
    op_destination_mask o = 0 -> (op_imm_value_count o = 1 \/ op_imm_value_count o = 4) ->
    op_immediate_word_count o = op_imm_value_count o ->
    (forall i, 0 <= i < op_imm_value_count o -> znth (op_immediate_words o) i = znth (op_imm_values o) i) ->
    source_of program o lanes
| source_register components : lanes <> 0 -> selects o lanes components ->
    op_swizzle_mode o <> 0 -> op_swizzle_mode o <= 2 -> op_destination_mask o = 0 ->
    register_read program o components ->
    source_of program o lanes.

Lemma land_zero_bits a b : 0 <= a -> Z.land a (Z.lnot b) = 0 <-> forall k, Z.testbit a k = true -> Z.testbit b k = true.
Proof.
  intros Ha. split.
  - intros H k Hk. destruct (decide (0 <= k)); [|by rewrite Z.testbit_neg_r in Hk by lia].
    assert (Hb : Z.testbit (Z.land a (Z.lnot b)) k = false) by by rewrite H, Z.bits_0.
    rewrite Z.land_spec, Z.lnot_spec, Hk in Hb by done. by apply negb_false_iff in Hb.
  - intros H. apply Z.bits_inj'. intros k Hk. rewrite Z.bits_0, Z.land_spec, Z.lnot_spec by done.
    destruct (Z.testbit a k) eqn:Hak; [|done]. by rewrite (H k Hak).
Qed.

Lemma single_lane lanes : 0 < lanes < 16 -> Z.land lanes (lanes - 1) = 0 <-> lanes ∈ [1; 2; 4; 8].
Proof.
  intros Hl. assert (Hc : lanes ∈ seqZ 1 15) by (apply elem_of_seqZ; lia).
  assert (Hall : Forall (fun l => bool_decide (Z.land l (l - 1) = 0) = bool_decide (l ∈ [1; 2; 4; 8])) (seqZ 1 15)).
  { apply (bool_decide_unpack _). by vm_compute. }
  rewrite list.Forall_forall in Hall. specialize (Hall _ Hc).
  by rewrite <- (bool_decide_eq_true (_ = 0)), <- (bool_decide_eq_true (_ ∈ _)), Hall.
Qed.

Lemma low_lanes_clear mask : Z.land mask 0x0f = 0 <-> forall k, 0 <= k < 4 -> Z.testbit mask k = false.
Proof.
  change 0x0f with (Z.ones 4). rewrite Z.land_ones by lia. split.
  - intros H k Hk. rewrite <- (Z.mod_pow2_bits_low _ 4) by lia. by rewrite H, Z.bits_0.
  - intros H. apply Z.bits_inj'. intros k Hk. rewrite Z.bits_0. destruct (decide (k < 4)).
    + rewrite Z.mod_pow2_bits_low by lia. apply H. lia.
    + by rewrite Z.mod_pow2_bits_high by lia.
Qed.

Section operand_lemmas.
Context (program : USILProgram) (Hd : declarations_ok program).

Lemma destination_decides {E} o atomic : operand_ok o ->
  exists valid lanes, memory_destination_valid (E:=E) program o atomic = Ret (valid, lanes) /\
    forall lanes', valid = true /\ lanes = lanes' <-> destination_of program atomic o lanes'.
Proof.
  intros Ho. unfold memory_destination_valid. destruct (Z.eqb_spec (op_type o) OPERAND_TYPE_NULL) as [Ht|Ht].
  - destruct (static_operand_decides (E:=E) o 0 Ho) as (b & -> & Hb); [lia|]. mstep. eexists _, _. split; [done|].
    assert (Hz : usil_operand_destination_lane_mask o = 0).
    { unfold usil_operand_destination_lane_mask. by rewrite Ht. }
    rewrite Hz, andb_true_r. intros lanes'. split.
    + intros [[-> Hs%Hb]%andb_true_iff <-]. by apply destination_null.
    + intros [_ -> Hs ->|Ht' _ _ _ _ _ _ _]; [split; [|done]; by apply Hb in Hs as ->|].
      unfold OPERAND_TYPE_NULL, OPERAND_TYPE_TEMP in *. lia.
  - destruct (static_operand_decides (E:=E) o 1 Ho) as (b & -> & Hb); [lia|]. mstep. eexists _, _. split; [done|].
    set (m := usil_operand_destination_lane_mask o). intros lanes'.
    assert (Hw : op_type o = OPERAND_TYPE_TEMP -> written_lanes o m).
    { intros Ht'. apply destination_mask_lanes; rewrite Ht'; unfold OPERAND_TYPE_TEMP; done. }
    pose proof (low_lanes_clear (op_destination_mask o)) as Hlow.
    pose proof (destination_lanes_range o) as Hr. fold m in Hr. split.
    + intros [Hv <-]. rewrite !andb_true_iff, !Z.eqb_eq, Z.ltb_lt, negb_true_iff, Z.eqb_neq in Hv. destruct_and!.
      apply destination_temp; try done; [by apply Hb|by apply Hlow|by apply Hw|].
      intros ->. cbn in *. bools. apply single_lane; [lia|done].
    + intros [Ht' _ _ _|Ht' Hs Hreg Hm Hbits Hl Hl0 Hat]; [by rewrite Ht' in Ht|].
      assert (m = lanes') as -> by (eapply lanes_are_unique; [by apply Hw|done]).
      split; [|done]. rewrite !andb_true_iff, !Z.eqb_eq, Z.ltb_lt, negb_true_iff, Z.eqb_neq.
      split_and!; try done; [by apply Hb|by apply Hlow|]. destruct atomic; [|done]. cbn. apply Z.eqb_eq.
      apply single_lane; [destruct Hl; lia|by apply Hat].
Qed.

Lemma immediate_decides {E} o : operand_ok o ->
  decides (immediate_valid (E:=E) o) (static_operand o 0 /\ op_swizzle_mode o = 0 /\ op_destination_mask o = 0 /\
    (op_imm_value_count o = 1 \/ op_imm_value_count o = 4) /\ op_immediate_word_count o = op_imm_value_count o /\
    forall i, 0 <= i < op_imm_value_count o -> znth (op_immediate_words o) i = znth (op_imm_values o) i).
Proof.
  intros Ho. unfold immediate_valid. destruct (static_operand_decides (E:=E) o 0 Ho) as (b & -> & Hb); [lia|]. mstep.
  destruct (_ || negb (op_immediate_word_count o =? _)) eqn:Hg.
  { apply decides_bool. split; [done|]. intros (Hs%Hb & Hm & Hdm & Hn & Hw & _).
    rewrite Hs, Hm, Hdm, Hw, Z.eqb_refl, orb_false_r in Hg. by destruct Hn as [Hn|Hn]; rewrite Hn in Hg. }
  rewrite !orb_false_iff, andb_false_iff, !negb_false_iff, !Z.eqb_eq in Hg.
  destruct Hg as ((((Hs & Hm) & Hdm) & Hn) & Hw). subst b.
  destruct (rejects_any (E:=E) (Z.to_nat (op_imm_value_count o)) (fun index =>
    word ← aget (op_immediate_words o) index; value ← aget (op_imm_values o) index; Ret (negb (word =? value)))
    (fun i => znth (op_immediate_words o) i = znth (op_imm_values o) i)) as (r & -> & Hr).
  { intros i Hi. rewrite Z2Nat.id in Hi by lia.
    destruct (znth_is_Some (op_immediate_words o) i) as [x Hx]; [rewrite (ok_words o Ho); lia|].
    destruct (znth_is_Some (op_imm_values o) i) as [y Hy]; [rewrite (ok_imm_values o Ho); lia|].
    rewrite (aget_ok _ _ _ Hx). mstep. rewrite (aget_ok _ _ _ Hy). mstep. apply rejects_bool.
    rewrite Hx, Hy, negb_false_iff, Z.eqb_eq. split; [by intros ->|by intros [= ->]]. }
  mstep. apply decides_bool. rewrite negb_true_iff, Hr, Z2Nat.id by lia. split.
  - intros Hall. split_and!; try done. by apply Hb.
  - by intros (_ & _ & _ & _ & _ & Hall).
Qed.

Lemma register_read_types o components : register_read program o components -> op_type o <> OPERAND_TYPE_IMMEDIATE32.
Proof.
  intros [Ht _ _|cb v Ht _ _ _ _ _ _|d Ht _ _ _ _] Hn; rewrite Hn in Ht; by vm_compute in Ht.
Qed.

(** The last component test of a thread identifier. *)
Lemma declared_components o declaration components : 0 <= components ->
  Z.land components (Z.lnot (if op_type o =? OPERAND_TYPE_INPUT_THREAD_ID_IN_GROUP_FLATTENED then 1
                             else sd_mask declaration)) = 0 <->
  forall k, Z.testbit components k = true ->
    if decide (op_type o = OPERAND_TYPE_INPUT_THREAD_ID_IN_GROUP_FLATTENED) then k = 0
    else Z.testbit (sd_mask declaration) k = true.
Proof.
  intros Hc. rewrite land_zero_bits by done.
  destruct (Z.eqb_spec (op_type o) OPERAND_TYPE_INPUT_THREAD_ID_IN_GROUP_FLATTENED) as [He|He];
    [|by setoid_rewrite decide_False; [|done]].
  setoid_rewrite decide_True; [|done]. split; intros H k Hk; specialize (H k Hk).
  - destruct (decide (k < 0)); [by rewrite Z.testbit_neg_r in Hk by lia|].
    destruct (decide (k = 0)); [done|]. rewrite (Z.bits_above_log2 1) in H by (cbn; lia). done.
  - by subst k.
Qed.

Lemma register_read_decides {E} o components : operand_ok o -> 0 <= components ->
  decides (if op_type o =? OPERAND_TYPE_TEMP then
        static ← memory_static_indices_valid o 1;
        Ret (static && (op_register_index o <? up_temp_count program))
      else if op_type o =? OPERAND_TYPE_CONSTANT_BUFFER then
        static ← memory_static_indices_valid o 2;
        let n := up_cbuffer_count program in
        if negb static || table_bad n 15 (up_cbuffer_alloc program) (up_cbuffers program) then Ret false else
        constant_buffer_valid (Z.to_nat n) 0 program o
      else if is_thread_id (op_type o) then
        static ← memory_static_indices_valid o 0;
        let n := up_signature_declaration_count program in
        if negb static || table_bad n 4 (up_signature_declaration_alloc program)
                            (up_signature_declarations program) then Ret false else
        thread_id_valid (Z.to_nat n) 0 program o components
      else Ret false : res E bool) (register_read program o components).
Proof.
  intros Ho Hc.
  destruct (Z.eqb_spec (op_type o) OPERAND_TYPE_TEMP) as [Ht|Ht];
    [|destruct (Z.eqb_spec (op_type o) OPERAND_TYPE_CONSTANT_BUFFER) as [Ht2|Ht2];
    [|destruct (is_thread_id (op_type o)) eqn:Ht3]].
  - destruct (static_operand_decides (E:=E) o 1 Ho) as (b & -> & Hb); [lia|]. mstep. apply decides_bool.
    rewrite andb_true_iff, Z.ltb_lt, Hb. split; [intros []; by apply read_temp|].
    intros [_ ? ?|cb v Ht' _ _ _ _ _ _|d Ht' _ _ _ _]; [done|by rewrite Ht' in Ht|by rewrite Ht in Ht'].
  - destruct (static_operand_decides (E:=E) o 2 Ho) as (b & -> & Hb); [lia|]. mstep. cbv zeta.
    destruct (negb b || _) eqn:Hg.
    { apply decides_bool. split; [done|]. intros [? _ _|cb v _ Hs%Hb Hse%searchable_iff _ _ _ _|d Ht' _ _ _ _];
        [done|by rewrite Hs, Hse in Hg|by rewrite Ht2 in Ht']. }
    apply orb_false_iff in Hg as [->%negb_false_iff Hse]. pose proof Hse as Hse'%searchable_iff.
    destruct (znth_is_Some (op_index_values o) 1) as [v Hv]; [rewrite (ok_index_values o Ho); lia|].
    eapply decides_mono; [apply (search_decides (up_cbuffers program) cb_reg_idx (op_register_index o)
      (fun cb => value ← aget (op_index_values o) 1; Ret ((0 <? cb_size cb) && (value <? u32 (cb_size cb))))
      (fun cb => 0 < cb_size cb /\ v < u32 (cb_size cb)) (fun n i => constant_buffer_valid n i program o))|].
    + done.
    + done.
    + intros cb. rewrite (aget_ok _ _ _ Hv). mstep. apply decides_bool. by rewrite andb_true_iff, !Z.ltb_lt.
    + intros j Hj. destruct (table_get (fun _ => True) _ _ _ _ j (do_cbuffers _ Hd) Hse) as (l & x & ? & ? & _); [lia|eauto].
    + destruct Hse' as [Hn _]. rewrite Z2Nat.id, Z.add_0_l by lia. split.
      * intros (cb & Hcb & Hsz & Hvs). eapply read_constant; [done|by apply Hb|by apply searchable_iff|done..].
      * intros [? _ _|cb v' _ _ _ Hcb Hsz Hv' Hvs|d Ht' _ _ _ _]; [done| |by rewrite Ht2 in Ht'].
        exists cb. split; [done|]. split; [done|]. congruence.
  - destruct (static_operand_decides (E:=E) o 0 Ho) as (b & -> & Hb); [lia|]. mstep. cbv zeta.
    destruct (negb b || _) eqn:Hg.
    { apply decides_bool. split; [done|]. intros [? _ _|cb v ? _ _ _ _ _ _|d _ Hs%Hb Hse%searchable_iff _ _];
        [done|done|by rewrite Hs, Hse in Hg]. }
    apply orb_false_iff in Hg as [->%negb_false_iff Hse]. pose proof Hse as Hse'%searchable_iff.
    eapply decides_mono; [apply (search_decides (up_signature_declarations program) sd_operand_type (op_type o)
      (fun d => Ret (Z.land components (Z.lnot (if op_type o =? OPERAND_TYPE_INPUT_THREAD_ID_IN_GROUP_FLATTENED
                        then 1 else sd_mask d)) =? 0))
      (fun d => forall k, Z.testbit components k = true ->
         if decide (op_type o = OPERAND_TYPE_INPUT_THREAD_ID_IN_GROUP_FLATTENED) then k = 0
         else Z.testbit (sd_mask d) k = true) (fun n i => thread_id_valid n i program o components))|].
    + done.
    + done.
    + intros d. apply decides_bool. rewrite Z.eqb_eq. by apply declared_components.
    + intros j Hj. destruct (table_get (fun _ => True) _ _ _ _ j (do_signature _ Hd) Hse) as (l & x & ? & ? & _); [lia|eauto].
    + destruct Hse' as [Hn _]. rewrite Z2Nat.id, Z.add_0_l by lia. split.
      * intros (d & Hdc & Hco). eapply read_thread_id; [done|by apply Hb|by apply searchable_iff|done..].
      * intros [? _ _|cb v ? _ _ _ _ _ _|d _ _ _ Hdc Hco]; [done|done|]. by exists d.
  - apply decides_bool. split; [done|]. intros [? _ _|cb v ? _ _ _ _ _ _|d ? _ _ _ _]; [done|done|congruence].
Qed.

Lemma source_decides {E} o lanes : operand_ok o ->
  decides (memory_source_valid (E:=E) program o lanes) (source_of program o lanes).
Proof.
  intros Ho. unfold memory_source_valid. destruct (_ || (2 <? op_swizzle_mode o)) eqn:Hg.
  { apply decides_bool. split; [done|].
    assert (Hno : lanes <> 0 -> plain_operand o -> op_swizzle_mode o <= 2 -> False).
    { intros Hl Hp%plain_operand_iff Hm. rewrite Hp, (proj2 (Z.eqb_neq _ _) Hl), (proj2 (Z.ltb_ge _ _) Hm) in Hg. done. }
    intros [c Hl _ _ Hs Hm _ _ _ _|c Hl _ _ Hm _ Hr].
    - exfalso. apply Hno; [done|apply Hs|lia].
    - exfalso. apply Hno; [done| |done]. by destruct Hr as [_ Hs _|? ? _ Hs _ _ _ _ _|? _ Hs _ _ _]; apply Hs. }
  rewrite !orb_false_iff, negb_false_iff, Z.eqb_neq, Z.ltb_ge in Hg. destruct Hg as [[Hp Hl] Hm].
  destruct (select_components_selects (E:=E) o lanes Ho) as (r & -> & Hr). mstep. destruct r as [components|].
  2:{ apply decides_bool. split; [done|]. by intros [c _ Hs _ _ _ _ _ _ _|c _ Hs _ _ _ _]; apply Hr in Hs. }
  pose proof (proj1 (Hr components) eq_refl) as Hs.
  destruct (Z.eqb_spec (op_type o) OPERAND_TYPE_IMMEDIATE32) as [Ht|Ht].
  { eapply decides_mono; [by apply immediate_decides|]. split.
    - intros (? & ? & ? & ? & ? & ?). by eapply source_immediate.
    - intros [c _ _ _ ? ? ? ? ? ?|c _ _ _ _ _ Hrd%register_read_types]; [done|by destruct Hrd]. }
  destruct (negb _ || _) eqn:Hg.
  { apply decides_bool. split; [done|]. intros [c _ _ ? _ _ _ _ _ _|c _ _ Hm0 _ Hdm _]; [done|].
    rewrite Hdm, (proj2 (Z.eqb_neq _ _) Hm0) in Hg. done. }
  rewrite orb_false_iff, negb_false_iff, Z.eqb_eq, Z.eqb_neq in Hg. destruct Hg as [Hdm Hm0].
  eapply decides_mono; [apply register_read_decides; [done|]; by destruct Hs as [_ [[? _] _]]|]. split.
  - intros Hrd. by eapply source_register.
  - intros [c _ _ ? _ _ _ _ _ _|c _ Hs' _ _ _ Hrd]; [done|]. by rewrite (selects_unique _ _ _ _ Hs Hs').
Qed.
End operand_lemmas.

(** * Instructions *)

(** What an operand of a memory instruction is, and what the instruction does. *)
Inductive operand_role :=
| ROLE_DESTINATION | ROLE_BINDING | ROLE_ADDRESS | ROLE_OFFSET | ROLE_VALUE | ROLE_COMPARE.
Inductive memory_action := LOAD | STORE | ATOMIC.

#[export] Instance operand_role_eq_dec : EqDecision operand_role.
Proof. solve_decision. Defined.
#[export] Instance memory_action_eq_dec : EqDecision memory_action.
Proof. solve_decision. Defined.

(** The operands of each opcode, in order; the kind of memory it needs, if it
    needs one. *)
Definition memory_instruction (opcode : USILOpcode)
    : option (memory_action * option USILMemoryKind * list operand_role) :=
  match opcode with
  | USIL_OP_LD_UAV_TYPED => Some (LOAD, Some USIL_MEMORY_TYPED, [ROLE_DESTINATION; ROLE_ADDRESS; ROLE_BINDING])
  | USIL_OP_LD_RAW => Some (LOAD, Some USIL_MEMORY_RAW, [ROLE_DESTINATION; ROLE_ADDRESS; ROLE_BINDING])
  | USIL_OP_LD_STRUCTURED =>
      Some (LOAD, Some USIL_MEMORY_STRUCTURED, [ROLE_DESTINATION; ROLE_ADDRESS; ROLE_OFFSET; ROLE_BINDING])
  | USIL_OP_STORE_UAV_TYPED => Some (STORE, Some USIL_MEMORY_TYPED, [ROLE_BINDING; ROLE_ADDRESS; ROLE_VALUE])
  | USIL_OP_STORE_RAW => Some (STORE, Some USIL_MEMORY_RAW, [ROLE_BINDING; ROLE_ADDRESS; ROLE_VALUE])
  | USIL_OP_STORE_STRUCTURED =>
      Some (STORE, Some USIL_MEMORY_STRUCTURED, [ROLE_BINDING; ROLE_ADDRESS; ROLE_OFFSET; ROLE_VALUE])
  | USIL_OP_ATOMIC_XOR | USIL_OP_ATOMIC_IADD => Some (ATOMIC, None, [ROLE_BINDING; ROLE_ADDRESS; ROLE_VALUE])
  | USIL_OP_IMM_ATOMIC_IADD => Some (ATOMIC, None, [ROLE_DESTINATION; ROLE_BINDING; ROLE_ADDRESS; ROLE_VALUE])
  | USIL_OP_IMM_ATOMIC_CMP_EXCH =>
      Some (ATOMIC, None, [ROLE_DESTINATION; ROLE_BINDING; ROLE_ADDRESS; ROLE_COMPARE; ROLE_VALUE])
  | USIL_OP_IMM_ATOMIC_ALLOC | USIL_OP_IMM_ATOMIC_CONSUME =>
      Some (ATOMIC, Some USIL_MEMORY_COUNTER, [ROLE_DESTINATION; ROLE_BINDING])
  | _ => None
  end.

(** The operand with a role, -1 if there is none. *)
Definition place (r : operand_role) (roles : list operand_role) : Z :=
  match list_find (eq r) roles with Some (i, _) => Z.of_nat i | None => -1 end.

Definition at_role (instruction : USILInstruction) (roles : list operand_role) (r : operand_role) (o : DXBCOperand) : Prop :=
  r ∈ roles /\ znth (ui_operands instruction) (place r roles) = Some o.

(** The shape the code has for it. *)
Definition shape_of (action : memory_action) (kind : option USILMemoryKind) (roles : list operand_role)
    : MemoryOpcodeShape := {|
  ms_operand_count := zlength roles; ms_destination := place ROLE_DESTINATION roles;
  ms_binding := place ROLE_BINDING roles; ms_address := place ROLE_ADDRESS roles;
  ms_byte_offset := place ROLE_OFFSET roles; ms_value := place ROLE_VALUE roles;
  ms_compare := place ROLE_COMPARE roles; ms_kind := default USIL_MEMORY_RAW kind;
  ms_flexible_kind := bool_decide (kind = None); ms_reads := bool_decide (action <> STORE);
  ms_writes := bool_decide (action <> LOAD); ms_atomic := bool_decide (action = ATOMIC) |}.

Lemma shape_of_opcode opcode : memory_opcode_shape opcode =
  (fun '(action, kind, roles) => shape_of action kind roles) <$> memory_instruction opcode.
Proof. by destruct opcode. Qed.

(** What the table of instructions has in common. *)
Record layout_ok (action : memory_action) (kind : option USILMemoryKind) (roles : list operand_role) : Prop := {
  lo_length : zlength roles <= 5;
  lo_binding : ROLE_BINDING ∈ roles;
  lo_counter : kind = Some USIL_MEMORY_COUNTER <-> ROLE_ADDRESS ∉ roles;
  lo_value : action <> ATOMIC -> ROLE_VALUE ∈ roles <-> action = STORE;
  lo_flexible : kind = None -> action = ATOMIC;
  lo_fixed : action = ATOMIC -> kind = None \/ kind = Some USIL_MEMORY_COUNTER;
}.

Lemma memory_instruction_layout opcode action kind roles :
  memory_instruction opcode = Some (action, kind, roles) -> layout_ok action kind roles.
Proof.
  destruct opcode; intros [= <- <- <-]; split.
  all: first [by vm_compute|by apply (bool_decide_unpack _); vm_compute|idtac].
Qed.

Lemma role_place_range r roles : r ∈ roles -> 0 <= place r roles < zlength roles.
Proof.
  intros Hr. unfold place, zlength. destruct (list_find (eq r) roles) as [[i x]|] eqn:Hf.
  - apply list_find_Some in Hf as (Hi & _ & _). apply lookup_lt_Some in Hi. lia.
  - apply list_find_None in Hf. rewrite list.Forall_forall in Hf. by destruct (Hf r Hr).
Qed.

Lemma place_absent r roles : r ∉ roles -> place r roles = -1.
Proof.
  intros Hr. unfold place. destruct (list_find (eq r) roles) as [[i x]|] eqn:Hf; [|done].
  apply list_find_Some in Hf as (Hi & <- & _). destruct Hr. by apply list_elem_of_lookup_2 in Hi.
Qed.

(** * Memory *)

(** The memory a binding names, as an access describes it. *)
Record memory := {
  me_space : USILMemorySpace;
  me_dimension : list byte;
  me_return_types : list Z;
  me_stride : Z;
  me_bytes : Z;
  me_coherent : bool;
  me_ordered : bool;
  me_counter : bool;
}.

Definition texture_memory (t : USILTexture) : memory := {|
  me_space := USIL_MEMORY_SHADER_RESOURCE; me_dimension := tx_dimension t; me_return_types := tx_return_types t;
  me_stride := u32 (tx_stride t); me_bytes := 0; me_coherent := false; me_ordered := false; me_counter := false |}.

Definition uav_memory (u : USILUav) : memory := {|
  me_space := USIL_MEMORY_UNORDERED_ACCESS; me_dimension := uav_dimension u; me_return_types := uav_return_types u;
  me_stride := u32 (uav_stride u); me_bytes := 0; me_coherent := uav_globally_coherent u;
  me_ordered := uav_rasterizer_ordered u; me_counter := uav_has_order_preserving_counter u |}.

(** A string in an array of 16 characters, padded with zeros. *)
Definition padded (s : string) : list byte := literal s ++ replicate (16 - length (literal s)) Byte.x00.

Definition shared_memory (m : DXBCThreadGroupSharedMemoryContract) : memory := {|
  me_space := USIL_MEMORY_THREAD_GROUP; me_dimension := padded (if memory_structured m then "structured" else "raw");
  me_return_types := [0; 0; 0; 0]; me_stride := memory_byte_stride m; me_bytes := memory_byte_count m;
  me_coherent := false; me_ordered := false; me_counter := false |}.

(** At most 32 KiB in words, all of it elements if it has any. *)
Definition shared_memory_valid (m : DXBCThreadGroupSharedMemoryContract) : Prop :=
  memory_byte_count m <> 0 /\ memory_byte_count m <= 32768 /\ Z.land (memory_byte_count m) 3 = 0 /\
  if memory_structured m
  then memory_element_count m <> 0 /\ memory_byte_stride m <> 0 /\
       u64 (memory_byte_stride m * memory_element_count m) = memory_byte_count m
  else memory_byte_stride m = 0 /\ memory_element_count m = 0.

Inductive names_memory (program : USILProgram) (binding : DXBCOperand) : memory -> Prop :=
| names_texture t : op_type binding = OPERAND_TYPE_RESOURCE -> op_register_index binding < 128 ->
    searchable (up_texture_count program) 128 (up_texture_alloc program) (up_textures program) ->
    declared (up_textures program) (up_texture_count program) tx_reg_idx (op_register_index binding) t ->
    0 <= tx_stride t -> names_memory program binding (texture_memory t)
| names_uav u : op_type binding = OPERAND_TYPE_UAV -> op_register_index binding < 8 ->
    searchable (up_uav_count program) 8 (up_uav_alloc program) (up_uavs program) ->
    declared (up_uavs program) (up_uav_count program) uav_reg_idx (op_register_index binding) u ->
    0 <= uav_stride u -> names_memory program binding (uav_memory u)
| names_shared m : op_type binding = OPERAND_TYPE_THREAD_GROUP_SHARED_MEMORY -> op_register_index binding < 8192 ->
    searchable (cc_shared_memory_count (up_compute program)) 8192 (cc_shared_memory_capacity (up_compute program))
      (cc_shared_memory (up_compute program)) ->
    declared (cc_shared_memory (up_compute program)) (cc_shared_memory_count (up_compute program))
      memory_register_id (op_register_index binding) m ->
    shared_memory_valid m -> names_memory program binding (shared_memory m).

(** The kind of memory its declaration makes it. *)
Inductive kind_of_memory (m : memory) : USILMemoryKind -> Prop :=
| raw_memory : holds (me_dimension m) "raw" -> me_stride m = 0 -> kind_of_memory m USIL_MEMORY_RAW
| structured_memory : holds (me_dimension m) "structured" -> me_stride m <> 0 -> Z.land (me_stride m) 3 = 0 ->
    (me_space m = USIL_MEMORY_THREAD_GROUP \/ me_stride m <= 2048) -> kind_of_memory m USIL_MEMORY_STRUCTURED
| typed_memory : Byte.x00 ∈ me_dimension m -> ~ holds (me_dimension m) "raw" -> ~ holds (me_dimension m) "structured" ->
    me_space m = USIL_MEMORY_UNORDERED_ACCESS -> me_stride m = 0 -> me_counter m = false ->
    kind_of_memory m USIL_MEMORY_TYPED.

(** The kind of access to it: what the opcode needs, or what the memory is; a
    counter belongs to a structured view. *)
Inductive access_kind (needed : option USILMemoryKind) (binding : DXBCOperand) (m : memory)
    : USILMemoryKind -> USILCounterMode -> Prop :=
| kind_needed k : needed = Some k -> k <> USIL_MEMORY_COUNTER -> kind_of_memory m k ->
    access_kind needed binding m k USIL_COUNTER_NONE
| kind_free k : needed = None -> kind_of_memory m k -> access_kind needed binding m k USIL_COUNTER_NONE
| kind_counter : needed = Some USIL_MEMORY_COUNTER -> kind_of_memory m USIL_MEMORY_STRUCTURED ->
    me_space m = USIL_MEMORY_UNORDERED_ACCESS -> op_swizzle_mode binding = 0 -> op_destination_mask binding = 0 ->
    access_kind needed binding m USIL_MEMORY_COUNTER
      (if me_counter m then USIL_COUNTER_ORDER_PRESERVING else USIL_COUNTER_APPEND_INVOCATION).

(** * Lanes of an access *)

(** The coordinates of a typed view, as lanes. *)
Inductive coordinate_lanes (dimension : list byte) : Z -> Prop :=
| lanes_x : holds dimension "buffer" \/ holds dimension "1d" -> coordinate_lanes dimension 1
| lanes_xy : holds dimension "2d" \/ holds dimension "1darray" -> coordinate_lanes dimension 3
| lanes_xyz : holds dimension "3d" \/ holds dimension "2darray" -> coordinate_lanes dimension 7.

(** A resource return type; atomics work on integers (3 and 4). *)
Definition return_type_ok (action : memory_action) (t : Z) : Prop :=
  t <> 0 /\ t <= 9 /\ (action = ATOMIC -> t = 3 \/ t = 4).

(** The lanes of the address: coordinates, a byte offset, an element, or for
    atomics an element and the offset in it. *)
Inductive address_lanes_of (action : memory_action) (m : memory) : USILMemoryKind -> Z -> Prop :=
| address_typed lanes : coordinate_lanes (me_dimension m) lanes ->
    (forall i, 0 <= i < 4 -> exists t, znth (me_return_types m) i = Some t /\ return_type_ok action t) ->
    address_lanes_of action m USIL_MEMORY_TYPED lanes
| address_raw : address_lanes_of action m USIL_MEMORY_RAW 1
| address_element : action <> ATOMIC -> address_lanes_of action m USIL_MEMORY_STRUCTURED 1
| address_atomic : action = ATOMIC -> address_lanes_of action m USIL_MEMORY_STRUCTURED 3
| address_none : address_lanes_of action m USIL_MEMORY_COUNTER 0.

Definition destination_lanes_of (program : USILProgram) (instruction : USILInstruction) (action : memory_action)
    (roles : list operand_role) (lanes : Z) : Prop :=
  if decide (ROLE_DESTINATION ∈ roles)
  then exists o, at_role instruction roles ROLE_DESTINATION o /\
         destination_of program (bool_decide (action = ATOMIC)) o lanes
  else lanes = 0.

(** The lanes of the value and the components of memory: an atomic works on one;
    a store on those the mask of its binding names, a load on those its swizzle
    selects for the lanes of the destination. *)
Inductive data_lanes_of (action : memory_action) (roles : list operand_role) (binding : DXBCOperand)
    (destination : Z) : Z -> Z -> Prop :=
| data_atomic : action = ATOMIC -> op_swizzle_mode binding = 0 -> op_destination_mask binding = 0 ->
    data_lanes_of action roles binding destination (if decide (ROLE_VALUE ∈ roles) then 1 else 0) 1
| data_store lanes : action = STORE -> op_swizzle_mode binding = 0 ->
    (forall k, 0 <= k < 4 -> Z.testbit (op_destination_mask binding) k = false) ->
    written_lanes binding lanes -> lanes <> 0 ->
    data_lanes_of action roles binding destination lanes lanes
| data_load components : action = LOAD -> op_swizzle_mode binding <> 0 -> op_destination_mask binding = 0 ->
    selects binding destination components -> data_lanes_of action roles binding destination 0 components.

(** The lanes a source is read in. *)
Definition source_lanes (r : operand_role) (address value : Z) : option Z :=
  match r with
  | ROLE_ADDRESS => Some address
  | ROLE_VALUE => Some value
  | ROLE_OFFSET | ROLE_COMPARE => Some 1
  | ROLE_DESTINATION | ROLE_BINDING => None
  end.

(** What the instruction says about its resource is what was declared. *)
Record resource_agreed (instruction : USILInstruction) (m : memory) (kind : USILMemoryKind) : Prop := {
  ra_dimension : holds (ui_resource_dimension instruction) "" \/
    same_string (ui_resource_dimension instruction) (me_dimension m);
  ra_stride : ui_resource_stride instruction =
    if ui_has_resource_dimension instruction then me_stride m else 0;
  ra_types i : ui_has_resource_return_types instruction = true -> 0 <= i < 4 ->
    znth (ui_resource_return_types instruction) i =
      if decide (kind = USIL_MEMORY_TYPED) then znth (me_return_types m) i else Some 6;
}.

(** A compute program of shader model 5.0. *)
Record compute_program (program : USILProgram) : Prop := {
  cp_contract : up_has_stage_contract program = true;
  cp_valid : cc_valid (up_compute program) = true;
  cp_type : up_program_type program = DXBC_PROGRAM_TYPE_COMPUTE;
  cp_model : up_shader_model_major program = 5 /\ up_shader_model_minor program = 0;
  cp_temps : 0 <= up_temp_count program <= 4096;
}.

(** An instruction of [n] operands with nothing that only other instructions have. *)
Record bare_instruction (instruction : USILInstruction) (n : Z) : Prop := {
  bi_count : ui_operand_count instruction = n;
  bi_saturate : ui_saturate instruction = false;
  bi_precise : ui_precise_mask instruction = 0;
  bi_sync : ui_sync_flags instruction = 0;
  bi_test : ui_condition_test instruction = DXBC_INSTRUCTION_TEST_NONE;
  bi_offset : ui_has_texel_offset instruction = false;
  bi_geometry : ui_geometry_effect instruction = USIL_GEOMETRY_EFFECT_NONE;
  bi_dimension : Byte.x00 ∈ ui_resource_dimension instruction;
}.

(** The access with these parts. *)
Definition access_of (action : memory_action) (roles : list operand_role) (register : Z) (m : memory)
    (kind : USILMemoryKind) (mode : USILCounterMode) (destination address value components : Z) : USILMemoryAccess := {|
  ma_kind := kind; ma_space := me_space m; ma_register_id := register; ma_byte_stride := me_stride m;
  ma_shared_memory_byte_count := me_bytes m; ma_dimension := me_dimension m; ma_return_types := me_return_types m;
  ma_globally_coherent := me_coherent m; ma_rasterizer_ordered := me_ordered m;
  ma_has_order_preserving_counter := me_counter m; ma_counter_mode := mode;
  ma_reads := bool_decide (action <> STORE); ma_writes := bool_decide (action <> LOAD);
  ma_atomic := bool_decide (action = ATOMIC);
  ma_destination_operand := place ROLE_DESTINATION roles; ma_binding_operand := place ROLE_BINDING roles;
  ma_address_operand := place ROLE_ADDRESS roles; ma_byte_offset_operand := place ROLE_OFFSET roles;
  ma_value_operand := place ROLE_VALUE roles; ma_compare_operand := place ROLE_COMPARE roles;
  ma_destination_lanes := destination; ma_address_lanes := address; ma_value_lanes := value;
  ma_memory_component_lanes := components |}.

(** The memory accesses of an instruction. *)
Inductive memory_access_of (program : USILProgram) (instruction : USILInstruction) : USILMemoryAccess -> Prop :=
| makes_access action needed roles binding m kind mode destination address value components :
    memory_instruction (ui_opcode instruction) = Some (action, needed, roles) ->
    compute_program program -> bare_instruction instruction (zlength roles) ->
    at_role instruction roles ROLE_BINDING binding -> static_operand binding 1 ->
    names_memory program binding m -> (action <> LOAD -> me_space m <> USIL_MEMORY_SHADER_RESOURCE) ->
    access_kind needed binding m kind mode ->
    address_lanes_of action m kind address ->
    destination_lanes_of program instruction action roles destination ->
    data_lanes_of action roles binding destination value components ->
    (forall r lanes, r ∈ roles -> source_lanes r address value = Some lanes ->
       exists o, at_role instruction roles r o /\ source_of program o lanes) ->
    resource_agreed instruction m kind ->
    memory_access_of program instruction
      (access_of action roles (op_register_index binding) m kind mode destination address value components).

(** * The stages of the code *)

Lemma compute_program_iff program instruction action needed roles :
  memory_instruction_ok program instruction (shape_of action needed roles) = true <->
  compute_program program /\ bare_instruction instruction (zlength roles).
Proof.
  unfold memory_instruction_ok, terminated.
  rewrite !andb_true_iff, !negb_true_iff, !Z.eqb_eq, !Z.leb_le, !bool_decide_eq_true. cbn [ms_operand_count shape_of].
  split; [intros; destruct_and!; by split; constructor|]. intros [[? ? ? [? ?] [? ?]] []]. by split_and!.
Qed.

Lemma shared_memory_iff m : shared_memory_ok m = true <-> shared_memory_valid m.
Proof.
  unfold shared_memory_ok, shared_memory_valid.
  rewrite negb_true_iff, !orb_false_iff, !negb_false_iff, Z.ltb_ge, Z.eqb_eq, Z.eqb_neq.
  destruct (memory_structured m); cbn [negb andb].
  - rewrite !orb_false_iff, negb_false_iff, !Z.eqb_neq, Z.eqb_eq. naive_solver.
  - rewrite !orb_false_iff, !negb_false_iff, !Z.eqb_eq. naive_solver.
Qed.

Section found.
Context {A : Type} (xs : option (list A)) (count : Z) (register : A -> Z) (r : Z)
  (good : A -> bool) (declare : A -> USILMemoryAccess -> USILMemoryAccess)
  (key : USILMemoryAccess -> Z)
  (body : Z -> bool * USILMemoryAccess -> res unit (bool * USILMemoryAccess)).
Hypothesis (body_eq : forall i found a, body i (found, a) =
  (l ← ptr xs; x ← aget l i;
   if negb (register x =? key a) then Ret (found, a) else
   if (found : bool) || negb (good x) then Fail tt else Ret (true, declare x a))).
Hypothesis (key_declare : forall x a, key (declare x a) = key a).
Hypothesis (table : forall i, 0 <= i < count -> exists l x, xs = Some l /\ znth l i = Some x).

(** The search finds the one declaration, and nothing else. *)
Lemma declare_loop_iff a0 a : key a0 = r -> 0 <= count ->
  for_loop (Z.to_nat count) 0 body (false, a0) = Ret (true, a) <->
  exists x, declared xs count register r x /\ good x = true /\ a = declare x a0.
Proof.
  intros Hk Hc. split.
  - intros Hrun. pose proof (declare_loop xs count register r good declare key body body_eq key_declare table a0 Hk) as Ho.
    by rewrite Hrun in Ho.
  - intros (x & (l & i & Hxs & Hi & Hx & Hr & Huniq) & Hg & ->).
    pose (I := fun (j : Z) (st : bool * USILMemoryAccess) => st = if decide (j <= i) then (false, a0) else (true, declare x a0)).
    assert (Ho : outcome (for_loop (Z.to_nat count) 0 body (false, a0)) (I (0 + Z.of_nat (Z.to_nat count))) (fun _ => False)).
    { apply outcome_for; unfold I.
      - by rewrite decide_True by lia.
      - intros j st Hj ->. destruct (table j ltac:(lia)) as (l' & y & Hl' & Hy).
        assert (l' = l) as -> by congruence. assert (Hstep : forall found b, body j (found, b) =
          (if negb (register y =? key b) then Ret (found, b) else
           if (found : bool) || negb (good y) then Fail tt else Ret (true, declare y b))).
        { intros found b. rewrite body_eq, Hxs at 1. cbn [ptr]. mstep. by rewrite (aget_ok _ _ _ Hy). }
        destruct (decide (j = i)) as [->|Hne].
        + rewrite decide_True by lia. rewrite decide_False by lia. rewrite Hstep, Hk.
          assert (y = x) as -> by congruence. rewrite Hr, Z.eqb_refl, Hg. done.
        + assert (Hyr : register y <> r) by (intros Hyr; apply Hne, (Huniq j y); [lia|done|done]).
          case_decide; rewrite Hstep, ?key_declare, Hk, (proj2 (Z.eqb_neq _ _) Hyr); cbn; case_decide; done || lia. }
    unfold I in Ho. rewrite decide_False in Ho by lia. destruct (for_loop _ _ _ _); cbn in Ho; [by subst|done|done].
Qed.
End found.

Section stages.
Context (program : USILProgram) (Hd : declarations_ok program).

Lemma texture_found binding a0 a :
  table_bad (up_texture_count program) 128 (up_texture_alloc program) (up_textures program) = false ->
  for_loop (Z.to_nat (up_texture_count program)) 0 (declare_texture program binding) (false, a0) = Ret (true, a) <->
  exists t, declared (up_textures program) (up_texture_count program) tx_reg_idx (op_register_index binding) t /\
    (0 <=? tx_stride t) = true /\ a = texture_access t a0.
Proof.
  intros Hb. apply (declare_loop_iff _ _ tx_reg_idx _ (fun t => 0 <=? tx_stride t) texture_access
    (fun _ => op_register_index binding)); [|done| |done|by apply searchable_iff in Hb as [[? _] _]].
  - intros i found b. unfold declare_texture. destruct (up_textures program) as [l|]; [|done].
    cbn [ptr]. mstep. destruct (aget l i); try done. mstep. by rewrite <- Z.ltb_antisym.
  - intros i Hi. destruct (table_get texture_ok _ _ _ _ i (do_textures _ Hd) Hb Hi) as (l & x & ? & ? & _). eauto.
Qed.

Lemma uav_found binding a0 a :
  table_bad (up_uav_count program) 8 (up_uav_alloc program) (up_uavs program) = false ->
  for_loop (Z.to_nat (up_uav_count program)) 0 (declare_uav program binding) (false, a0) = Ret (true, a) <->
  exists u, declared (up_uavs program) (up_uav_count program) uav_reg_idx (op_register_index binding) u /\
    (0 <=? uav_stride u) = true /\ a = uav_access u a0.
Proof.
  intros Hb. apply (declare_loop_iff _ _ uav_reg_idx _ (fun t => 0 <=? uav_stride t) uav_access
    (fun _ => op_register_index binding)); [|done| |done|by apply searchable_iff in Hb as [[? _] _]].
  - intros i found b. unfold declare_uav. destruct (up_uavs program) as [l|]; [|done].
    cbn [ptr]. mstep. destruct (aget l i); try done. mstep. by rewrite <- Z.ltb_antisym.
  - intros i Hi. destruct (table_get uav_ok _ _ _ _ i (do_uavs _ Hd) Hb Hi) as (l & x & ? & ? & _). eauto.
Qed.

Lemma shared_found a0 a :
  table_bad (cc_shared_memory_count (up_compute program)) 8192
    (cc_shared_memory_capacity (up_compute program)) (cc_shared_memory (up_compute program)) = false ->
  for_loop (Z.to_nat (cc_shared_memory_count (up_compute program))) 0 (declare_shared program) (false, a0) = Ret (true, a) <->
  exists m, declared (cc_shared_memory (up_compute program)) (cc_shared_memory_count (up_compute program))
      memory_register_id (ma_register_id a0) m /\ shared_memory_ok m = true /\ a = shared_access m a0.
Proof.
  intros Hb. apply (declare_loop_iff _ _ memory_register_id _ shared_memory_ok shared_access ma_register_id);
    [done|done| |done|by apply searchable_iff in Hb as [[? _] _]].
  intros i Hi. destruct (table_get _ _ _ _ _ i (do_shared _ Hd) Hb Hi) as (l & x & ? & ? & _). eauto.
Qed.

Context (action : memory_action) (needed : option USILMemoryKind) (roles : list operand_role)
  (HL : layout_ok action needed roles).

Abbreviation shape := (shape_of action needed roles).
Abbreviation begun binding m kind := (access_of action roles (op_register_index binding) m kind USIL_COUNTER_NONE 0 0 0 0).

Lemma declaration_found binding a : 0 <= op_register_index binding <= INT_MAX ->
  find_memory_declaration program binding ((new_access shape) <| ma_register_id := u32 (op_register_index binding) |>) =
    Ret (true, a) <->
  exists m, names_memory program binding m /\ a = begun binding m USIL_MEMORY_RAW.
Proof.
  intros Hr. unfold INT_MAX in Hr. rewrite u32_small by lia. unfold find_memory_declaration. fields.
  set (a0 := (new_access shape) <| ma_register_id := op_register_index binding |>).
  destruct (Z.eqb_spec (op_type binding) OPERAND_TYPE_RESOURCE) as [H1|N1];
    [|destruct (Z.eqb_spec (op_type binding) OPERAND_TYPE_UAV) as [H2|N2];
    [|destruct (Z.eqb_spec (op_type binding) OPERAND_TYPE_THREAD_GROUP_SHARED_MEMORY) as [H3|N3]]].
  4:{ split; [done|]. intros (m & [? ?|? ?|? ?] & _); congruence. }
  all: rewrite guard_iff, orb_false_iff, Z.leb_gt; split.
  - intros [[Hb Hs] (t & Ht & Hst%Z.leb_le & ->)%texture_found]; [|done]. apply searchable_iff in Hs.
    exists (texture_memory t). split; [by apply names_texture|done].
  - intros (m & [t _ Hb Hs Ht Hst|u Hty _ _ _ _|s Hty _ _ _ _] & ->); [|by rewrite H1 in Hty..].
    apply searchable_iff in Hs. split; [done|]. apply texture_found; [done|]. exists t. split; [done|].
    split; [by apply Z.leb_le|done].
  - intros [[Hb Hs] (t & Ht & Hst%Z.leb_le & ->)%uav_found]; [|done]. apply searchable_iff in Hs.
    exists (uav_memory t). split; [by apply names_uav|done].
  - intros (m & [t Hty _ _ _ _|u _ Hb Hs Ht Hst|s Hty _ _ _ _] & ->); [by rewrite H2 in Hty| |by rewrite H2 in Hty].
    apply searchable_iff in Hs. split; [done|]. apply uav_found; [done|]. exists u. split; [done|].
    split; [by apply Z.leb_le|done].
  - intros [[Hb Hs] (t & Ht & Hst%shared_memory_iff & ->)%shared_found]; [|done]. apply searchable_iff in Hs.
    exists (shared_memory t). split; [by apply names_shared|]. unfold shared_access, shared_memory. by destruct (memory_structured t).
  - intros (m & [t Hty _ _ _ _|u Hty _ _ _ _|s _ Hb Hs Ht Hst] & ->); [by rewrite H3 in Hty..|].
    apply searchable_iff in Hs. split; [done|]. apply shared_found; [done|]. exists s. split; [done|].
    split; [by apply shared_memory_iff|]. unfold shared_access, shared_memory. by destruct (memory_structured s).
Qed.

Lemma memory_sizes binding m : names_memory program binding m ->
  length (me_dimension m) = 16%nat /\ zlength (me_return_types m) = 4.
Proof.
  intros [t _ _ Hs (l & i & Hl & Hi & Hx & _) _|u _ _ Hs (l & i & Hl & Hi & Hx & _) _|s _ _ _ _ _]; cbn.
  - apply searchable_iff in Hs. destruct (table_get texture_ok _ _ _ _ i (do_textures _ Hd) Hs Hi) as (l' & x & Hl' & Hx' & Hok).
    by assert (x = t) as -> by congruence.
  - apply searchable_iff in Hs. destruct (table_get uav_ok _ _ _ _ i (do_uavs _ Hd) Hs Hi) as (l' & x & Hl' & Hx' & Hok).
    by assert (x = u) as -> by congruence.
  - split; [|done]. by destruct (memory_structured s).
Qed.

Lemma holds_decides {E} d s : length d = 16%nat ->
  bool_decide (Byte.x00 ∉ String.list_byte_of_string s /\ (length (literal s) <= 16)%nat) = true ->
  decides (string_is (E:=E) d s) (holds d s).
Proof. intros Hl [H1 H2]%bool_decide_eq_true. apply string_is_decides; [done|by rewrite Hl]. Qed.

Lemma classified binding m a : length (me_dimension m) = 16%nat ->
  classify_memory (begun binding m USIL_MEMORY_RAW) = Ret a <->
  exists k, kind_of_memory m k /\ a = begun binding m k.
Proof.
  intros Hl. unfold classify_memory, terminated. cbn [ma_dimension ma_byte_stride ma_space ma_has_order_preserving_counter access_of].
  rewrite guard_iff, negb_false_iff, bool_decide_eq_true.
  rewrite (decides_guard _ _ _ _ (holds_decides (me_dimension m) "raw" Hl eq_refl)).
  rewrite (decides_guard _ _ _ _ (holds_decides (me_dimension m) "structured" Hl eq_refl)).
  assert (Hterm : forall s, holds (me_dimension m) s -> Byte.x00 ∈ me_dimension m).
  { intros s [r ->]. apply elem_of_app. left. apply elem_of_app. right. left. }
  split.
  - intros (Ht & [[Hraw Hrun]|[Hraw [[Hst Hrun]|[Hst Hrun]]]]).
    + destruct (Z.eqb_spec (me_stride m) 0); [|done]. injection Hrun as <-. eexists. split; [by apply raw_memory|done].
    + destruct (_ && _) eqn:Hg; [|done]. injection Hrun as <-. bools.
      match goal with H : _ || _ = true |- _ => apply orb_true_iff in H end.
      eexists. split; [apply structured_memory; try done|done].
      match goal with H : _ \/ _ |- _ => destruct H; bools; auto end.
    + destruct (_ && _) eqn:Hg; [|done]. injection Hrun as <-. bools.
      eexists. split; [by apply typed_memory|done].
  - intros (k & [Hh H0|Hh H0 H3 Hsp|Ht Hn1 Hn2 Hsp H0 Hc] & ->).
    + split; [by eapply Hterm|]. left. by rewrite H0.
    + split; [by eapply Hterm|]. right. split.
      { intros [r Hr]. destruct Hh as [r' Hr']. rewrite Hr in Hr'. done. }
      left. split; [done|]. rewrite (proj2 (Z.eqb_neq _ _) H0), H3. cbn [negb andb Z.eqb].
      destruct (bool_decide (me_space m = USIL_MEMORY_THREAD_GROUP)) eqn:Hb; [done|].
      apply bool_decide_eq_false in Hb. destruct Hsp as [|Hle]; [done|]. by rewrite (proj2 (Z.leb_le _ _) Hle).
    + split; [done|]. right. split; [done|]. right. split; [done|]. by rewrite Hsp, H0, Hc.
Qed.

Lemma declaration_iff binding a : operand_ok binding ->
  memory_declaration program binding (new_access shape) = Ret a <->
  static_operand binding 1 /\ exists m k, names_memory program binding m /\ kind_of_memory m k /\ a = begun binding m k.
Proof.
  intros Ho. unfold memory_declaration.
  rewrite (decides_guard _ _ _ _ (static_operand_decides binding 1 Ho ltac:(lia))). cbn [negb].
  assert (Hreg : static_operand binding 1 -> 0 <= op_register_index binding <= INT_MAX).
  { intros [_ _ Hi Hr]. destruct (Hr ltac:(lia)) as [? Hv]. split; [done|].
    destruct (Hi 0 ltac:(lia)) as (_ & _ & _ & v & Hv' & ?). congruence. }
  split.
  - intros [[Hs Hrun]|[_ ?]]; [|done]. split; [done|]. apply bind_Ret_inv in Hrun as ([[] a'] & Hf & Hrun); [|done].
    apply declaration_found in Hf as (m & Hm & ->); [|by apply Hreg]. cbn [negb] in Hrun.
    apply classified in Hrun as (k & Hk & ->); [by exists m, k|by eapply memory_sizes].
  - intros (Hs & m & k & Hm & Hk & ->). left. split; [done|].
    rewrite (proj2 (declaration_found binding (begun binding m USIL_MEMORY_RAW) (Hreg Hs)));
      [|by exists m]. mstep. cbn [negb]. apply classified; [by eapply memory_sizes|]. by exists k.
Qed.

Abbreviation acc binding m kind mode := (access_of action roles (op_register_index binding) m kind mode).

(** The test between the declaration and the counter. *)
Definition kind_refused (m : memory) (k : USILMemoryKind) : bool :=
  (ms_writes shape && bool_decide (me_space m = USIL_MEMORY_SHADER_RESOURCE)) ||
  (negb (ms_flexible_kind shape) && negb (bool_decide (ms_kind shape = USIL_MEMORY_COUNTER)) &&
   negb (bool_decide (ms_kind shape = k))).

Lemma kind_refused_iff m k : kind_refused m k = false <->
  (action <> LOAD -> me_space m <> USIL_MEMORY_SHADER_RESOURCE) /\
  (needed = None \/ needed = Some USIL_MEMORY_COUNTER \/ needed = Some k).
Proof.
  unfold kind_refused. cbn [ms_writes ms_flexible_kind ms_kind shape_of]. rewrite orb_false_iff. apply Morphisms_Prop.and_iff_morphism.
  - rewrite andb_false_iff, !bool_decide_eq_false. destruct (decide (action = LOAD)); naive_solver.
  - rewrite !andb_false_iff, !negb_false_iff, !bool_decide_eq_true. destruct needed as [n|]; cbn; naive_solver.
Qed.

Lemma counter_not_memory m : ~ kind_of_memory m USIL_MEMORY_COUNTER.
Proof. by inversion 1. Qed.

Lemma kind_found binding m a :
  (exists k, kind_of_memory m k /\ kind_refused m k = false /\ counter_access binding shape (begun binding m k) = Ret a) <->
  (action <> LOAD -> me_space m <> USIL_MEMORY_SHADER_RESOURCE) /\
  exists kind mode, access_kind needed binding m kind mode /\ a = acc binding m kind mode 0 0 0 0.
Proof.
  assert (Hms : ms_kind shape = USIL_MEMORY_COUNTER <-> needed = Some USIL_MEMORY_COUNTER).
  { cbn. destruct needed; cbn; [|done]. split; [by intros ->|by intros [= ->]]. }
  split.
  - intros (k & Hk & [Hw Hn]%kind_refused_iff & Hrun). split; [done|]. unfold counter_access in Hrun.
    destruct (bool_decide (ms_kind shape = _)) eqn:Hc; cbn [negb] in Hrun.
    + apply bool_decide_eq_true, Hms in Hc. destruct (_ || negb (op_destination_mask binding =? 0)) eqn:Hg; [done|].
      injection Hrun as <-. bools. cbn in *. subst k. eexists _, _. split; [by apply kind_counter|done].
    + apply bool_decide_eq_false in Hc. injection Hrun as <-.
      assert (Hc' : needed <> Some USIL_MEMORY_COUNTER) by tauto. exists k, USIL_COUNTER_NONE. split; [|done].
      destruct Hn as [Hn|[|Hn]]; [by apply kind_free|done|apply kind_needed; [done|congruence|done]].
  - intros (Hw & kind & mode & Hk & ->). destruct Hk as [k Hn Hne Hk|k Hn Hk|Hn Hk Hsp Hm1 Hm2].
    + exists k. split; [done|]. split; [apply kind_refused_iff; auto|]. unfold counter_access.
      rewrite bool_decide_eq_false_2; [done|]. rewrite Hms. congruence.
    + exists k. split; [done|]. split; [apply kind_refused_iff; auto|]. unfold counter_access.
      rewrite bool_decide_eq_false_2; [done|]. rewrite Hms. congruence.
    + exists USIL_MEMORY_STRUCTURED. split; [done|]. split; [apply kind_refused_iff; auto|]. unfold counter_access.
      rewrite bool_decide_eq_true_2 by by apply Hms. cbn [negb ma_kind ma_space access_of]. rewrite Hsp, Hm1, Hm2. done.
Qed.

Lemma holds_exclusive d s t : holds d s -> holds d t ->
  bool_decide (literal s `prefix_of` literal t \/ literal t `prefix_of` literal s) = true.
Proof. intros Hs Ht. apply bool_decide_eq_true. by eapply prefix_weak_total. Qed.

Lemma coordinates_found {E} d : length d = 16%nat -> exists lanes, typed_memory_address_lanes (E:=E) d = Ret lanes /\
  forall n, lanes = n /\ n <> 0 <-> coordinate_lanes d n.
Proof.
  intros Hl. unfold typed_memory_address_lanes.
  destruct (holds_decides (E:=E) d "buffer" Hl eq_refl) as (b1 & -> & H1).
  destruct (holds_decides (E:=E) d "1d" Hl eq_refl) as (b2 & -> & H2).
  destruct (holds_decides (E:=E) d "2d" Hl eq_refl) as (b3 & -> & H3).
  destruct (holds_decides (E:=E) d "1darray" Hl eq_refl) as (b4 & -> & H4).
  destruct (holds_decides (E:=E) d "3d" Hl eq_refl) as (b5 & -> & H5).
  destruct (holds_decides (E:=E) d "2darray" Hl eq_refl) as (b6 & -> & H6).
  mstep. assert (Hno : forall s t, bool_decide (literal s `prefix_of` literal t \/ literal t `prefix_of` literal s) = false ->
    holds d s -> holds d t -> False).
  { intros s t Hb Hs Ht. rewrite (holds_exclusive d s t Hs Ht) in Hb. done. }
  assert (HA : b1 || b2 = true <-> holds d "buffer" \/ holds d "1d") by by rewrite orb_true_iff, H1, H2.
  assert (HB : b3 || b4 = true <-> holds d "2d" \/ holds d "1darray") by by rewrite orb_true_iff, H3, H4.
  assert (HC : b5 || b6 = true <-> holds d "3d" \/ holds d "2darray") by by rewrite orb_true_iff, H5, H6.
  assert (Hxy : holds d "buffer" \/ holds d "1d" -> holds d "2d" \/ holds d "1darray" -> False).
  { intros [Ho|Ho] [Ho'|Ho']; (eapply Hno; [|exact Ho|exact Ho']; by vm_compute). }
  assert (Hxz : holds d "buffer" \/ holds d "1d" -> holds d "3d" \/ holds d "2darray" -> False).
  { intros [Ho|Ho] [Ho'|Ho']; (eapply Hno; [|exact Ho|exact Ho']; by vm_compute). }
  assert (Hyz : holds d "2d" \/ holds d "1darray" -> holds d "3d" \/ holds d "2darray" -> False).
  { intros [Ho|Ho] [Ho'|Ho']; (eapply Hno; [|exact Ho|exact Ho']; by vm_compute). }
  destruct (b1 || b2); [|destruct (b3 || b4); [|destruct (b5 || b6)]]; (eexists; split; [reflexivity|]); intros n; split.
  - intros [<- _]. by apply lanes_x, HA.
  - pose proof (proj1 HA eq_refl) as Hx. by intros [H|H|H]; [|exfalso; auto..].
  - intros [<- _]. by apply lanes_xy, HB.
  - pose proof (proj1 HB eq_refl) as Hx. by intros [H|H|H]; [apply HA in H| |exfalso; auto].
  - intros [<- _]. by apply lanes_xyz, HC.
  - by intros [H|H|H]; [apply HA in H|apply HB in H|].
  - by intros [<- ?].
  - by intros [H|H|H]; [apply HA in H|apply HB in H|apply HC in H].
Qed.

Lemma address_found binding m kind mode a :
  length (me_dimension m) = 16%nat -> zlength (me_return_types m) = 4 -> access_kind needed binding m kind mode ->
  address_access shape (acc binding m kind mode 0 0 0 0) = Ret a <->
  exists lanes, address_lanes_of action m kind lanes /\ a = acc binding m kind mode 0 lanes 0 0.
Proof.
  intros Hl Ht Hk. unfold address_access. cbn [ma_kind ma_dimension ma_return_types access_of ms_address ms_atomic shape_of].
  assert (Hcounter : kind = USIL_MEMORY_COUNTER <-> ROLE_ADDRESS ∉ roles).
  { rewrite <- (lo_counter _ _ _ HL). destruct Hk as [k -> Hne _| k -> Hk| -> _ _ _ _]; [|split; [|done]|done].
    - split; [by intros ->|by intros [= ->]].
    - intros ->. by apply counter_not_memory in Hk. }
  destruct (decide (kind = USIL_MEMORY_TYPED)) as [->|Hne].
  - rewrite bool_decide_eq_true_2 by done. destruct (coordinates_found (E:=unit) (me_dimension m) Hl) as (lanes & -> & Hlanes).
    mstep. destruct (rejects_any (E:=unit) 4 (fun component =>
      type ← aget (me_return_types m) component;
      Ret ((type =? 0) || (9 <? type) || (bool_decide (action = ATOMIC) && negb (type =? 3) && negb (type =? 4))))
      (fun i => exists t, znth (me_return_types m) i = Some t /\ return_type_ok action t)) as (r & Hr & Hrej).
    { intros i Hi. destruct (znth_is_Some (me_return_types m) i) as [t Hx]; [lia|]. rewrite (aget_ok _ _ _ Hx). mstep.
      apply rejects_bool. rewrite !orb_false_iff, !andb_false_iff, !negb_false_iff, Z.ltb_ge, !Z.eqb_eq, Z.eqb_neq, bool_decide_eq_false, Hx.
      unfold return_type_ok. destruct (decide (action = ATOMIC)); naive_solver. }
    rewrite guard_iff, Z.eqb_neq. split.
    + intros [H0 Hrun]. rewrite Hr in Hrun. mstep. cbn in Hrun. destruct r; [done|]. injection Hrun as <-.
      exists lanes. split; [|done]. apply address_typed; [by apply Hlanes|]. by apply Hrej.
    + intros (n & Hn & ->). inversion Hn as [? Hc Hall| | | |]; subst. apply Hlanes in Hc as [<- H0].
      split; [done|]. rewrite Hr. mstep. by rewrite (proj2 Hrej Hall).
  - rewrite bool_decide_eq_false_2 by done. cbn [ms_address shape_of]. destruct (decide (ROLE_ADDRESS ∈ roles)) as [Hin|Hin].
    + pose proof (role_place_range _ _ Hin). rewrite (proj2 (Z.leb_le _ _)) by lia. cbn [ma_kind access_of].
      assert (kind <> USIL_MEMORY_COUNTER) by (intros ?%Hcounter; done). destruct kind; try done.
      * rewrite (bool_decide_eq_false_2 (USIL_MEMORY_RAW = _)), andb_false_r by done. split.
        -- intros [= <-]. exists 1. split; [constructor|done].
        -- intros (n & Hn & ->). by inversion Hn.
      * rewrite (bool_decide_eq_true_2 (USIL_MEMORY_STRUCTURED = _)), andb_true_r by done. split.
        -- intros [= <-]. eexists. split; [|reflexivity]. case_bool_decide; by constructor.
        -- intros (n & Hn & ->). inversion Hn; subst; by case_bool_decide.
    + rewrite (place_absent _ _ Hin). cbn [Z.leb]. apply Hcounter in Hin as ->. split.
      * intros [= <-]. exists 0. split; [constructor|done].
      * intros (n & Hn & ->). by inversion Hn.
Qed.

Section instruction.
Context (instruction : USILInstruction) (Hi : instruction_ok instruction).

Lemma role_operand r : r ∈ roles -> exists o,
  operand_at (E:=unit) instruction (place r roles) = Ret o /\ at_role instruction roles r o /\ operand_ok o.
Proof.
  intros Hr. pose proof (role_place_range _ _ Hr). pose proof (lo_length _ _ _ HL).
  destruct (operand_at_ok instruction Hi (place r roles)) as (o & Ho & Hz & Hok); [unfold DXBC_MAX_OPERANDS; lia|].
  exists o. by split_and!.
Qed.

Lemma at_role_unique r o o' : at_role instruction roles r o -> at_role instruction roles r o' -> o = o'.
Proof. intros [_ H] [_ H']. congruence. Qed.

Lemma destination_found binding m kind mode al a :
  destination_access program instruction shape (acc binding m kind mode 0 al 0 0) = Ret a <->
  exists lanes, destination_lanes_of program instruction action roles lanes /\ a = acc binding m kind mode lanes al 0 0.
Proof.
  unfold destination_access, destination_lanes_of. cbn [ms_destination ms_atomic shape_of].
  destruct (decide (ROLE_DESTINATION ∈ roles)) as [Hin|Hin].
  - pose proof (role_place_range _ _ Hin). rewrite (proj2 (Z.ltb_ge _ _)) by lia.
    destruct (role_operand _ Hin) as (o & -> & Hat & Ho). mstep.
    destruct (destination_decides program (E:=unit) o (bool_decide (action = ATOMIC)) Ho) as (valid & lanes & -> & Hl).
    mstep. split.
    + destruct valid; [|done]. intros [= <-]. exists lanes. split; [|done]. exists o. split; [done|]. by apply Hl.
    + intros (n & (o' & Hat' & Hn) & ->). rewrite (at_role_unique _ _ _ Hat' Hat) in Hn. by apply Hl in Hn as [-> ->].
  - rewrite (place_absent _ _ Hin). cbn [Z.ltb Z.compare]. split; [intros [= <-]; by exists 0|]. by intros (n & -> & ->).
Qed.

Lemma names_memory_type binding m : names_memory program binding m ->
  op_type binding ∈ [OPERAND_TYPE_RESOURCE; OPERAND_TYPE_UAV; OPERAND_TYPE_THREAD_GROUP_SHARED_MEMORY].
Proof. intros [t -> _ _ _ _|u -> _ _ _ _|s -> _ _ _ _]; apply (bool_decide_unpack _); by vm_compute. Qed.

Lemma components_found binding m kind mode dl al a : operand_ok binding -> names_memory program binding m ->
  component_access binding shape (acc binding m kind mode dl al 0 0) = Ret a <->
  exists value components, data_lanes_of action roles binding dl value components /\
    a = acc binding m kind mode dl al value components.
Proof.
  intros Ho Hm. unfold component_access. cbn [ms_atomic ms_writes ms_value shape_of ma_destination_lanes ma_memory_component_lanes access_of].
  assert (Hcase : action = ATOMIC \/ action = STORE \/ action = LOAD) by (destruct action; auto).
  destruct Hcase as [Ha|[Ha|Ha]]; rewrite Ha;
    rewrite ?(bool_decide_eq_true_2 (ATOMIC = ATOMIC)), ?(bool_decide_eq_false_2 (STORE = ATOMIC)),
      ?(bool_decide_eq_false_2 (LOAD = ATOMIC)), ?(bool_decide_eq_true_2 (STORE <> LOAD)),
      ?(bool_decide_eq_false_2 (LOAD <> LOAD)) by (done || by intros []).
  - rewrite guard_iff, orb_false_iff, !negb_false_iff, !Z.eqb_eq.
    assert (Hv : (if 0 <=? place ROLE_VALUE roles then 1 else 0) = if decide (ROLE_VALUE ∈ roles) then 1 else 0).
    { case_decide as Hin; [pose proof (role_place_range _ _ Hin); by rewrite (proj2 (Z.leb_le _ _)) by lia|by rewrite place_absent]. }
    rewrite Hv. split.
    + intros [[? ?] [= <-]]. eexists _, _. split; [by apply data_atomic|done].
    + intros (v & c & [? ? ?|? ? _ _ _ _|? ? _ _ _] & ->); [done|congruence..].
  - rewrite guard_iff, !orb_false_iff, !negb_false_iff, !Z.eqb_eq, Z.eqb_neq, low_lanes_clear.
    assert (Hw : written_lanes binding (usil_operand_destination_lane_mask binding)).
    { pose proof (names_memory_type _ _ Hm) as Hty. apply destination_mask_lanes;
        intros Hc; rewrite Hc in Hty; by apply (bool_decide_pack _) in Hty. }
    split.
    + intros [[[? ?] ?] [= <-]]. eexists _, _. split; [by apply data_store|done].
    + intros (v & c & [? ? ?|lanes _ ? ? Hl ?|? ? _ _ _] & ->); [congruence| |congruence].
      rewrite (lanes_are_unique _ _ _ Hw Hl). done.
  - rewrite guard_iff, orb_false_iff, negb_false_iff, Z.eqb_eq, Z.eqb_neq.
    destruct (select_components_selects (E:=unit) binding dl Ho) as (r & Hr & Hs). split.
    + intros [[? ?] Hrun]. rewrite Hr in Hrun. mstep. cbn in Hrun. destruct r as [c|]; [|done]. injection Hrun as <-.
      eexists _, _. split; [apply data_load; try done; by apply Hs|done].
    + intros (v & c & [? ? ?|? ? _ _ _ _|c' _ ? ? Hc] & ->); [congruence|congruence|].
      apply Hs in Hc as ->. split; [done|]. by rewrite Hr.
Qed.

Lemma source_found r lanes : source_access program instruction (place r roles) lanes = Ret tt <->
  (r ∈ roles -> exists o, at_role instruction roles r o /\ source_of program o lanes).
Proof.
  unfold source_access. destruct (decide (r ∈ roles)) as [Hin|Hin].
  - pose proof (role_place_range _ _ Hin). rewrite (proj2 (Z.ltb_ge _ _)) by lia.
    destruct (role_operand _ Hin) as (o & -> & Hat & Ho). mstep.
    destruct (source_decides program Hd (E:=unit) o lanes Ho) as (b & -> & Hb). mstep. split.
    + destruct b; [|done]. intros _ _. exists o. split; [done|]. by apply Hb.
    + intros Hsrc. destruct (Hsrc Hin) as (o' & Hat' & Hs). rewrite (at_role_unique _ _ _ Hat' Hat) in Hs. by apply Hb in Hs as ->.
  - rewrite (place_absent _ _ Hin). done.
Qed.

Lemma resource_found access m kind : ma_kind access = kind -> ma_dimension access = me_dimension m ->
  ma_return_types access = me_return_types m -> ma_byte_stride access = me_stride m ->
  length (me_dimension m) = 16%nat -> zlength (me_return_types m) = 4 -> Byte.x00 ∈ me_dimension m ->
  resource_agrees instruction access = Ret tt <-> resource_agreed instruction m kind.
Proof.
  intros Hk Hdim Hty Hst Hl Ht Hterm. unfold resource_agrees. rewrite Hk, Hdim, Hty, Hst. pose proof (io_dimension _ Hi) as Hil.
  destruct (not_empty_decides (E:=unit) (ui_resource_dimension instruction)) as (named & -> & Hnamed); [lia|]. mstep.
  assert (Hsame : decides (E:=unit) (if named then strings_equal (ui_resource_dimension instruction) (me_dimension m) else Ret true)
    (holds (ui_resource_dimension instruction) "" \/ same_string (ui_resource_dimension instruction) (me_dimension m))).
  { destruct named.
    - eapply decides_mono; [apply strings_equal_decides; [lia|by apply bool_decide_eq_true]|]. split; [by right|].
      intros [Hh|]; [|done]. by destruct (proj1 Hnamed eq_refl).
    - apply decides_bool. split; [intros _; left|done].
      assert (Hdec : Decision (holds (ui_resource_dimension instruction) "")) by (unfold holds; apply _).
      destruct Hdec as [|Hn]; [done|]. by apply Hnamed in Hn. }
  destruct Hsame as (same & -> & Hsame). mstep. rewrite guard_iff, !orb_false_iff, !andb_false_iff, !negb_false_iff, !Z.eqb_eq.
  assert (Hstride : (ui_has_resource_dimension instruction = false \/ ui_resource_stride instruction = me_stride m) /\
      (ui_has_resource_dimension instruction = true \/ ui_resource_stride instruction = 0) <->
    ui_resource_stride instruction = if ui_has_resource_dimension instruction then me_stride m else 0).
  { destruct (ui_has_resource_dimension instruction); naive_solver. }
  assert (Htypes : (if negb (ui_has_resource_return_types instruction) then Ret tt else
      differs ← any_index 4 0 (fun component =>
        expected ← (if bool_decide (kind = USIL_MEMORY_TYPED) then aget (me_return_types m) component else Ret 6);
        type ← aget (ui_resource_return_types instruction) component; Ret (negb (type =? expected)));
      if differs : bool then Fail tt else Ret tt) = Ret tt <->
    (forall i, ui_has_resource_return_types instruction = true -> 0 <= i < 4 ->
      znth (ui_resource_return_types instruction) i =
        if decide (kind = USIL_MEMORY_TYPED) then znth (me_return_types m) i else Some 6)).
  { destruct (ui_has_resource_return_types instruction); cbn [negb]; [|naive_solver].
    edestruct (rejects_any (E:=unit) 4) with (P := fun i => znth (ui_resource_return_types instruction) i =
        if decide (kind = USIL_MEMORY_TYPED) then znth (me_return_types m) i else Some 6) as (r & -> & Hr).
    - intros i Hir. destruct (znth_is_Some (ui_resource_return_types instruction) i) as [x Hx]; [rewrite (io_return_types _ Hi); lia|].
      destruct (znth_is_Some (me_return_types m) i) as [y Hy]; [lia|].
      destruct (decide (kind = USIL_MEMORY_TYPED));
        [rewrite bool_decide_eq_true_2 by done|rewrite bool_decide_eq_false_2 by done]; rewrite ?(aget_ok _ _ _ Hy); mstep; rewrite (aget_ok _ _ _ Hx); mstep;
        apply rejects_bool; rewrite Hx, ?Hy, negb_false_iff, Z.eqb_eq; (split; [by intros ->|by intros [= ->]]).
    - mstep. destruct r; split; [done| |intros _ i _ Hir; apply (proj1 Hr eq_refl i); lia|done].
      intros Hall. enough (true = false) by done. apply Hr. intros i Hir. apply Hall; [done|lia]. }
  split.
  - intros [[[Ha Hb] Hc] Hrun]. constructor; [by apply Hsame|by apply Hstride|by apply Htypes].
  - intros [Ha Hb Hc]. apply Hsame in Ha. apply Hstride in Hb as [Hb1 Hb2]. split; [by split_and!|by apply Htypes].
Qed.
End instruction.
End stages.

Lemma kind_terminated needed binding m kind mode : access_kind needed binding m kind mode -> Byte.x00 ∈ me_dimension m.
Proof.
  assert (Hh : forall s, holds (me_dimension m) s -> Byte.x00 ∈ me_dimension m).
  { intros s [r ->]. apply elem_of_app. left. apply elem_of_app. right. left. }
  assert (Hk : forall k, kind_of_memory m k -> Byte.x00 ∈ me_dimension m) by (intros k []; eauto).
  intros []; eauto.
Qed.

(** [usil_instruction_memory_access] returns the memory access of the
    instruction, whenever it has one. *)
Lemma memory_access_exact program instruction a : declarations_ok program -> instruction_ok instruction ->
  usil_instruction_memory_access program instruction = Ret a <-> memory_access_of program instruction a.
Proof.
  intros Hd Hi. unfold usil_instruction_memory_access. rewrite shape_of_opcode.
  destruct (memory_instruction (ui_opcode instruction)) as [[[action needed] roles]|] eqn:Hm; cbn [fmap option_fmap option_map].
  2:{ split; [done|]. destruct 1. congruence. }
  pose proof (memory_instruction_layout _ _ _ _ Hm) as HL.
  rewrite guard_iff, negb_false_iff, compute_program_iff.
  destruct (role_operand _ _ _ HL instruction Hi ROLE_BINDING (lo_binding _ _ _ HL)) as (binding & Hop & Hat & Hbo).
  change (ms_binding (shape_of action needed roles)) with (place ROLE_BINDING roles). rewrite Hop. mstep. split.
  - intros [[Hp Hb] Hrun]. apply bind_Ret_inv in Hrun as (a1 & (Hst & m & k & Hn & Hk & ->)%declaration_iff & Hrun); [|done..].
    cbn beta in Hrun. destruct (memory_sizes program Hd binding m Hn) as [Hl Ht].
    rewrite guard_iff in Hrun. destruct Hrun as [Href Hrun].
    apply bind_Ret_inv in Hrun as (a2 & Hc & Hrun).
    destruct (proj1 (kind_found action needed roles HL binding m a2)) as (Hw & kind & mode & Hkm & ->); [by exists k|].
    apply bind_Ret_inv in Hrun as (a3 & H3 & Hrun). apply (address_found action needed roles HL) in H3 as (al & Hal & ->); [|done..].
    apply bind_Ret_inv in Hrun as (a4 & H4 & Hrun).
    apply (destination_found program action needed roles HL instruction Hi) in H4 as (dl & Hdl & ->).
    apply bind_Ret_inv in Hrun as (a5 & H5 & Hrun).
    apply (components_found program action needed roles HL) in H5 as (vl & cl & Hdata & ->); [|done..].
    apply bind_Ret_inv in Hrun as ([] & H1 & Hrun). apply bind_Ret_inv in Hrun as ([] & H2 & Hrun).
    apply bind_Ret_inv in Hrun as ([] & H3 & Hrun). apply bind_Ret_inv in Hrun as ([] & H4 & Hrun).
    apply bind_Ret_inv in Hrun as ([] & H5 & [= <-]).
    eapply (makes_access program instruction action needed roles binding m kind mode dl al vl cl); try done.
    + intros r lanes Hr Hlanes.
      destruct r; try done; injection Hlanes as <-;
        [eapply (source_found program Hd action needed roles HL instruction Hi) in H1
        |eapply (source_found program Hd action needed roles HL instruction Hi) in H2
        |eapply (source_found program Hd action needed roles HL instruction Hi) in H3
        |eapply (source_found program Hd action needed roles HL instruction Hi) in H4]; eauto.
    + eapply resource_found; [exact Hi|..|exact H5]; try done. by eapply kind_terminated.
  - intros Ha. destruct Ha as [action' needed' roles' binding' m kind mode dl al vl cl Hm' Hp Hb Hat' Hst Hn Hw Hkm Hal Hdl Hdata Hsrc Hra].
    rewrite Hm in Hm'. injection Hm' as <- <- <-. rewrite (at_role_unique _ _ _ _ _ Hat' Hat) in *. clear binding' Hat'.
    split; [done|]. destruct (memory_sizes program Hd binding m Hn) as [Hl Ht].
    set (parts := access_of action roles (op_register_index binding) m kind mode).
    destruct (proj2 (kind_found action needed roles HL binding m (parts 0 0 0 0))) as (k & Hk & Href & Hc);
      [split; [exact Hw|by exists kind, mode]|].
    apply bind_Ret_iff. eexists. split; [apply declaration_iff; [done|done|]; split; [done|]; by exists m, k|].
    apply guard_iff. split; [exact Href|]. apply bind_Ret_iff. eexists. split; [exact Hc|].
    apply bind_Ret_iff. exists (parts 0 al 0 0). split; [by apply (address_found action needed roles HL binding m kind mode _ Hl Ht Hkm); eauto|].
    apply bind_Ret_iff. exists (parts dl al 0 0). split; [by apply (destination_found program action needed roles HL instruction Hi binding m kind mode); eauto|].
    apply bind_Ret_iff. exists (parts dl al vl cl). split; [by apply (components_found program action needed roles HL binding m kind mode dl al _ Hbo Hn); eauto|].
    assert (Hsource : forall r lanes, source_lanes r al vl = Some lanes -> source_access program instruction (place r roles) lanes = Ret tt).
    { intros r lanes Hlanes. apply (source_found program Hd action needed roles HL instruction Hi). intros Hr. by apply Hsrc. }
    unfold parts. cbn [ms_address ms_byte_offset ms_value ms_compare shape_of ma_address_lanes ma_value_lanes access_of].
    rewrite (Hsource ROLE_ADDRESS al eq_refl), (Hsource ROLE_OFFSET 1 eq_refl), (Hsource ROLE_VALUE vl eq_refl),
      (Hsource ROLE_COMPARE 1 eq_refl). mstep.
    rewrite (proj2 (resource_found instruction Hi (access_of action roles (op_register_index binding) m kind mode dl al vl cl) m kind eq_refl eq_refl eq_refl eq_refl Hl Ht (kind_terminated _ _ _ _ _ Hkm)) Hra).
    reflexivity.
Qed.
