(* ===== verification/UsilValidationCorrect.v ===== *)
(** The shape checks of USIL instructions never leave an array, give every
    operand of a valid instruction a use, and classify its effects. *)

From stdpp Require Import gmultiset.
From S2P Require Import Prelude CArray UnityCommon ShaderStage StageContract Operand Instruction Usil Cfg UsilValidation UsilValidationSteps UsilMemory.

#[local] Set Warnings "-register-all,-clear-no-such-hyp".

(** * Shapes of memory opcodes *)

Lemma memory_shape_bounds opcode shape : memory_opcode_shape opcode = Some shape ->
  ms_operand_count shape <= 5 /\ ms_destination shape < 5 /\ 0 <= ms_binding shape < 5 /\
  ms_address shape < 5 /\ ms_byte_offset shape < 5 /\ ms_value shape < 5 /\ ms_compare shape < 5.
Proof. destruct opcode; intros [= <-]; cbn; lia. Qed.

Lemma memory_shape_covers opcode shape i : memory_opcode_shape opcode = Some shape ->
  0 <= i < ms_operand_count shape ->
  i = ms_destination shape \/ i = ms_binding shape \/ i = ms_address shape \/
  i = ms_value shape \/ i = ms_byte_offset shape \/ i = ms_compare shape.
Proof. destruct opcode; intros [= <-]; cbn; lia. Qed.

(** * Memory accesses *)

(** What an accepted access says of its instruction. *)
Record access_valid (program : USILProgram) (instruction : USILInstruction)
    (shape : MemoryOpcodeShape) (access : USILMemoryAccess) : Prop := {
  av_count : ui_operand_count instruction = ms_operand_count shape;
  av_stage : up_program_type program = DXBC_PROGRAM_TYPE_COMPUTE;
  av_operands : access_operands access = access_operands (new_access shape);
  av_binding : exists binding, znth (ui_operands instruction) (ms_binding shape) = Some binding /\
    binding_declared program binding access;
  av_writable : ma_writes access = true -> ma_space access <> USIL_MEMORY_SHADER_RESOURCE;
  av_kind : if ms_flexible_kind shape then ma_kind access <> USIL_MEMORY_COUNTER
            else ma_kind access = ms_kind shape;
  av_counter : ma_kind access = USIL_MEMORY_COUNTER <-> ma_counter_mode access <> USIL_COUNTER_NONE;
  av_address : 0 <= ms_address shape -> 0 < ma_address_lanes access < 16;
  av_value : 0 <= ms_value shape -> 0 < ma_value_lanes access < 16;
  av_destination : destination_written program instruction shape (ma_destination_lanes access);
  av_components : 0 <= ma_memory_component_lanes access < 16;
}.

(** A shape with a fixed kind is a counter or is not flexible. *)
Lemma memory_shape_counter opcode shape : memory_opcode_shape opcode = Some shape ->
  ms_kind shape = USIL_MEMORY_COUNTER -> ms_flexible_kind shape = false.
Proof. by destruct opcode; intros [= <-]. Qed.

(** An access once its memory is known, before its lanes are. *)
Record access_begun (program : USILProgram) (binding : DXBCOperand) (shape : MemoryOpcodeShape)
    (a : USILMemoryAccess) : Prop := {
  ab_binding : binding_declared program binding a;
  ab_operands : access_operands a = access_operands (new_access shape);
  ab_dimension : length (ma_dimension a) = 16%nat;
  ab_terminated : terminated (ma_dimension a) = true;
  ab_types : zlength (ma_return_types a) = 4;
  ab_writable : ma_writes a = true -> ma_space a <> USIL_MEMORY_SHADER_RESOURCE;
  ab_lanes : ma_destination_lanes a = 0 /\ ma_address_lanes a = 0 /\ ma_value_lanes a = 0 /\
    ma_memory_component_lanes a = 0;
  ab_counter : ma_kind a = USIL_MEMORY_COUNTER <-> ma_counter_mode a <> USIL_COUNTER_NONE;
  ab_kind : if ms_flexible_kind shape then ma_kind a <> USIL_MEMORY_COUNTER
            else ma_kind a = ms_kind shape;
}.

Lemma access_begins program binding opcode shape a :
  memory_opcode_shape opcode = Some shape ->
  declaration_filled program binding (new_access shape) a ->
  (ms_writes shape && bool_decide (ma_space a = USIL_MEMORY_SHADER_RESOURCE)) ||
    (negb (ms_flexible_kind shape) && negb (bool_decide (ms_kind shape = USIL_MEMORY_COUNTER)) &&
     negb (bool_decide (ms_kind shape = ma_kind a))) = false ->
  outcome (counter_access binding shape a) (access_begun program binding shape) (fun _ => True).
Proof.
  intros Hs [Hb0 Hbd Hl Ht Hty Hk Hop Hla] Hg. apply orb_false_iff in Hg as [Hw Hkind].
  assert (Hops := Hop). injection Hops as _ _ _ _ _ _ _ Hwr _.
  injection Hla as H1 H2 H3 H4 H5. cbn in H1, H2, H3, H4, H5, Hwr.
  assert (Hwrite : ma_writes a = true -> ma_space a <> USIL_MEMORY_SHADER_RESOURCE).
  { rewrite Hwr. intros Hms. rewrite Hms in Hw. cbn [andb] in Hw. by bools. }
  eapply outcome_mono; [apply counter_access_spec| |done].
  intros a' [[Hnc ->]|(Hc & Hsp & Hst & mode & Hm & ->)].
  - constructor; try done; [by rewrite H5; destruct (ma_kind a)|].
    destruct (ms_flexible_kind shape); [by destruct (ma_kind a)|].
    rewrite bool_decide_eq_false_2 in Hkind by done. cbn in Hkind. by bools.
  - constructor; unfold binding_declared, access_operands in *; fields; try done.
    by rewrite (memory_shape_counter opcode).
Qed.

Section accesses.
Context (program : USILProgram) (instruction : USILInstruction).
Hypothesis (Hd : declarations_ok program) (Hi : instruction_ok instruction).

(** The stages that find the lanes. *)
Lemma access_lanes_found binding opcode shape a :
  memory_opcode_shape opcode = Some shape -> znth (ui_operands instruction) (ms_binding shape) = Some binding ->
  operand_ok binding -> ui_operand_count instruction = ms_operand_count shape ->
  up_program_type program = DXBC_PROGRAM_TYPE_COMPUTE -> access_begun program binding shape a ->
  outcome (access ← address_access shape a;
      access ← destination_access program instruction shape access;
      access ← component_access binding shape access;
      _ ← source_access program instruction (ms_address shape) (ma_address_lanes access);
      _ ← source_access program instruction (ms_byte_offset shape) 1;
      _ ← source_access program instruction (ms_value shape) (ma_value_lanes access);
      _ ← source_access program instruction (ms_compare shape) 1;
      _ ← resource_agrees instruction access;
      Ret access) (access_valid program instruction shape) (fun _ => True).
Proof.
  intros Hs Hbz Hbo Hn Hp [Hb Hop Hl Ht Hty Hw (L1 & L2 & L3 & L4) Hc Hk].
  destruct (memory_shape_bounds _ _ Hs) as (_ & Hdb & _ & Hab & Hob & Hvb & Hcb).
  assert (5 < DXBC_MAX_OPERANDS) as HM by (unfold DXBC_MAX_OPERANDS; lia).
  apply outcome_bind. eapply outcome_mono; [apply address_access_spec; [done|done|lia]| |done].
  intros a3 (la & Hla & ->).
  apply outcome_bind. eapply outcome_mono; [apply destination_access_spec; [done|lia|fields; lia]| |done].
  intros a4 (ld & Hld & Hdest & ->).
  apply outcome_bind. eapply outcome_mono; [apply component_access_spec; [done|by fields|fields; lia]| |done].
  intros a5 (lv & lc & Hlv & Hlc & ->).
  set (a5 := (_ <| ma_memory_component_lanes := lc |>)).
  apply outcome_bind. eapply outcome_mono; [apply source_access_spec; [done|done|lia]| |done]. intros [] Ha.
  apply outcome_bind. eapply outcome_mono; [apply source_access_spec; [done|done|lia]| |done]. intros [] _.
  apply outcome_bind. eapply outcome_mono; [apply source_access_spec; [done|done|lia]| |done]. intros [] Hv.
  apply outcome_bind. eapply outcome_mono; [apply source_access_spec; [done|done|lia]| |done]. intros [] _.
  apply outcome_bind. eapply outcome_mono; [apply resource_agrees_defined; done| |done]. intros [] _.
  change (ma_address_lanes a5) with la in Ha. change (ma_value_lanes a5) with lv in Hv.
  constructor; try done; [by exists binding|..]; intros Hpos.
  - specialize (Ha Hpos). change (0 < la < 16). lia.
  - specialize (Hv Hpos). change (0 < lv < 16). lia.
Qed.

Lemma memory_access_spec :
  outcome (usil_instruction_memory_access program instruction)
    (fun access => exists shape, memory_opcode_shape (ui_opcode instruction) = Some shape /\
       access_valid program instruction shape access) (fun _ => True).
Proof.
  unfold usil_instruction_memory_access.
  destruct (memory_opcode_shape (ui_opcode instruction)) as [shape|] eqn:Hs; [|done].
  destruct (memory_shape_bounds _ _ Hs) as (_ & _ & Hbb & _).
  destruct (memory_instruction_ok program instruction shape) eqn:Hok; [|done]. cbn [negb].
  unfold memory_instruction_ok in Hok. bools.
  destruct (operand_at_ok instruction Hi (ms_binding shape)) as (binding & -> & Hbz & Hbo);
    [unfold DXBC_MAX_OPERANDS; lia|]. mstep.
  apply outcome_bind. eapply outcome_mono; [by apply memory_declaration_spec| |done].
  intros a1 Hf. destruct (_ || _) eqn:Hg; [done|].
  apply outcome_bind. eapply outcome_mono; [by eapply access_begins| |done].
  intros a2 Ha2. eapply outcome_mono; [by eapply access_lanes_found| |done]. intros a Ha. by exists shape.
Qed.

(** * Uses of operands *)

Lemma find_texture_defined n index register :
  0 <= index -> (forall i, index <= i < index + Z.of_nat n -> i < up_texture_count program) ->
  exists t, find_texture (E:=unit) n index (up_textures program) register = Ret t /\
    forall x, t = Some x -> texture_ok x.
Proof.
  revert index. induction n as [|n IH]; intros index H0 Hn; cbn [find_texture]; [by eexists|].
  destruct (up_textures program) as [l|] eqn:Hl.
  2:{ specialize (Hn index). destruct (do_texture_table _ Hd); [lia|done]. }
  destruct (do_textures _ Hd l Hl) as [Hlen HF]. pose proof (do_texture_count _ Hd).
  destruct (znth_is_Some l index) as [x Hx]; [specialize (Hn index); lia|]. cbn [ptr]. mstep.
  rewrite (aget_ok _ _ _ Hx). mstep. destruct (_ =? _).
  - eexists. split; [reflexivity|]. intros y [= <-]. rewrite list.Forall_forall in HF.
    apply HF, znth_elem_of. eauto.
  - apply IH; [lia|]. intros i Hj. apply Hn. lia.
Qed.

Lemma dimension_lanes_defined table d :
  Forall (fun c => (length (literal c.1) <= 16)%nat) table -> length d = 16%nat ->
  exists r, dimension_lanes (E:=unit) table d = Ret r /\ forall c, r = Some c -> c ∈ table.*2.
Proof.
  intros HF Hl. induction table as [|[name lanes] table IH]; cbn [dimension_lanes]; [by eexists|].
  apply list.Forall_cons in HF as [Hn HF].
  destruct (string_is_defined (E:=unit) d name) as [r ->]; [by rewrite Hl|]. mstep. destruct r.
  - eexists. split; [done|]. intros c [= <-]. by left.
  - destruct (IH HF) as (r & -> & Hr). eexists. split; [done|]. intros c Hc. right. by apply Hr.
Qed.

Lemma texture_lanes_spec operand lod :
  operand < DXBC_MAX_OPERANDS ->
  outcome (texture_dimension_lanes program instruction operand lod) (fun mask => 0 < mask < 16)
    (fun _ => True).
Proof.
  intros Hm. unfold texture_dimension_lanes. destruct (_ || _) eqn:Hb; [done|]. bools.
  destruct (operand_at_ok instruction Hi operand) as (o & -> & _ & _); [lia|]. mstep.
  destruct (negb _); [done|].
  destruct (not_empty_defined (E:=unit) (ui_resource_dimension instruction)) as [own ->];
    [rewrite (io_dimension _ Hi); lia|]. mstep.
  assert (exists d, (if own then Ret (ui_resource_dimension instruction) else
       texture ← find_texture (Z.to_nat (up_texture_count program)) 0 (up_textures program)
                   (op_register_index o);
       Ret (from_option tx_dimension (ui_resource_dimension instruction) texture) : res unit (list byte)) = Ret d /\
     length d = 16%nat) as (d & -> & Hl).
  { destruct own; [eexists; split; [done|apply Hi]|].
    destruct (find_texture_defined (Z.to_nat (up_texture_count program)) 0 (op_register_index o))
      as (t & -> & Ht); [lia|intros; lia|]. mstep. eexists. split; [done|].
    destruct t as [t|]; [by apply Ht|apply Hi]. }
  mstep. destruct (dimension_lanes_defined texture_dimensions d) as (r & -> & Hr).
  { repeat constructor; vm_compute; lia. }
  { done. }
  mstep. destruct r as [[lanes mip]|]; [|done]. specialize (Hr _ eq_refl).
  assert (1 <= lanes <= 4) as Hlanes.
  { assert (HF : Forall (fun c => 1 <= c.1 <= 4) (texture_dimensions.*2)) by (repeat constructor; cbn; lia).
    rewrite list.Forall_forall in HF. apply (HF _ Hr). }
  cbv zeta. set (lanes' := if _ : bool then lanes + 1 else lanes).
  assert (1 <= lanes' <= 4) as Hlanes' by (subst lanes'; destruct (lod && mip); cbn [andb]; [zcase|]; lia).
  clearbody lanes'. cbn [outcome].
  assert (lanes' = 1 \/ lanes' = 2 \/ lanes' = 3 \/ lanes' = 4) as H4 by lia.
  destruct H4 as [-> | [-> | [-> | ->]]]; vm_compute; split; congruence.
Qed.

(** A source has lanes, and nothing else has. *)
Definition use_ok (info : USILOperandUseInfo) : Prop :=
  0 <= ou_source_lane_mask info < 16 /\
  (ou_use info = USIL_OPERAND_USE_SOURCE <-> ou_source_lane_mask info <> 0).

Lemma use_of_ok use : use <> USIL_OPERAND_USE_SOURCE -> outcome (use_of use 0) use_ok (fun _ => True).
Proof. intros. split; cbn; [lia|]. by split. Qed.

Lemma source_use_ok mask : 0 < mask < 16 -> outcome (source_use mask) use_ok (fun _ => True).
Proof. intros. split; cbn; [lia|]. split; [lia|done]. Qed.

Lemma written_lanes_ok mask : 0 <= mask < 16 -> outcome (written_lanes_use mask) use_ok (fun _ => True).
Proof. intros. unfold written_lanes_use. zcase; [done|]. apply source_use_ok. lia. Qed.

Lemma destination_use_ok : outcome destination_use use_ok (fun _ => True).
Proof. by apply use_of_ok. Qed.
Lemma resource_use_ok : outcome resource_use use_ok (fun _ => True).
Proof. by apply use_of_ok. Qed.

Lemma memory_operand_use_ok shape access i : access_valid program instruction shape access -> 0 <= i ->
  outcome (memory_operand_use access i) use_ok (fun _ => True).
Proof.
  intros Ha H0. pose proof (av_operands _ _ _ _ Ha) as Hop. injection Hop as Ed Eb Ea Eo Ev Ec _ _ _.
  unfold memory_operand_use. cbn in Ed, Eb, Ea, Eo, Ev, Ec. rewrite Ed, Eb, Ea, Eo, Ev, Ec.
  destruct (i =? _); [apply destination_use_ok|].
  destruct (i =? _); [apply resource_use_ok|].
  destruct (Z.eqb_spec i (ms_address shape)); [apply source_use_ok, Ha; lia|].
  destruct (Z.eqb_spec i (ms_value shape)); [apply source_use_ok, Ha; lia|].
  destruct (_ || _); [by apply source_use_ok|done].
Qed.

Lemma operand_lanes_ok i (k : DXBCOperand -> res unit USILOperandUseInfo) :
  0 <= i < DXBC_MAX_OPERANDS -> (forall o, operand_ok o -> outcome (k o) use_ok (fun _ => True)) ->
  outcome (o ← operand_at instruction i; k o) use_ok (fun _ => True).
Proof. intros Hr Hk. destruct (operand_at_ok instruction Hi i Hr) as (o & -> & _ & Ho). by apply Hk. Qed.

Lemma texture_use_ok (lod : bool) (f : Z -> Z) :
  (forall mask, 0 < mask < 16 -> 0 < f mask < 16) ->
  outcome (mask ← texture_dimension_lanes program instruction 2 lod; source_use (f mask)) use_ok
    (fun _ => True).
Proof.
  intros Hf. apply outcome_bind. eapply outcome_mono; [by apply texture_lanes_spec| |done].
  intros mask Hm. by apply source_use_ok, Hf.
Qed.

Lemma sample_operand_use_ok i :
  outcome (sample_operand_use program instruction i) use_ok (fun _ => True).
Proof.
  unfold sample_operand_use. destruct (i =? 0); [apply destination_use_ok|].
  destruct (_ || _).
  { apply (texture_use_ok false (fun mask => if (4 <=? i) && (mask =? 0xf) then 0x7 else mask)).
    intros mask Hm. destruct (_ && _); lia. }
  destruct (i =? 2); [apply resource_use_ok|]. destruct (i =? 3); [by apply use_of_ok|].
  by apply source_use_ok.
Qed.

Lemma load_operand_use_ok i multisampled :
  outcome (load_operand_use program instruction i multisampled) use_ok (fun _ => True).
Proof.
  unfold load_operand_use. destruct (i =? 0); [apply destination_use_ok|].
  destruct (i =? 2); [apply resource_use_ok|]. destruct (_ && _); [by apply source_use_ok|].
  by apply (texture_use_ok _ id).
Qed.

(** Every read is inside its object, whatever the shape. *)
Lemma operand_use_unchecked_ok i : 0 <= i ->
  outcome (operand_use_unchecked program instruction i) use_ok (fun _ => True).
Proof.
  intros H0. unfold operand_use_unchecked. destruct (_ && _).
  { apply outcome_bind. eapply outcome_mono; [apply memory_access_spec| |done].
    intros a (shape & _ & Ha). by eapply memory_operand_use_ok. }
  destruct (0 <=? _).
  { destruct (i =? 0); [apply destination_use_ok|]. apply operand_lanes_ok; [done|].
    intros o _. apply written_lanes_ok, destination_lanes_range. }
  destruct (ui_opcode instruction); try exact I;
    try (by apply source_use_ok); try apply sample_operand_use_ok; try apply load_operand_use_ok;
    try (by apply use_of_ok);
    try (destruct (i =? 0); [apply destination_use_ok|]); try (by apply source_use_ok);
    try apply resource_use_ok;
    try (destruct (i =? _); [first [apply resource_use_ok|by apply source_use_ok]|
                             first [apply resource_use_ok|by apply source_use_ok]]).
  all: destruct (i <? 2); [apply destination_use_ok|]; apply operand_lanes_ok; [done|]; intros o1 _;
    apply operand_lanes_ok; [done|]; intros o2 _; apply written_lanes_ok;
    apply (lor_lt_pow2 _ _ 4); apply destination_lanes_range.
Qed.

(** * Valid shapes *)

Lemma expected_count_range :
  outcome (expected_operand_count instruction) (fun n => 0 <= n <= 6) (fun _ => True).
Proof.
  unfold expected_operand_count. destruct (memory_opcode_shape _) as [shape|] eqn:Hs.
  { cbn. clear Hd Hi. destruct (ui_opcode instruction); simplify_eq/=; lia. }
  destruct (Z.leb_spec 0 (regular_componentwise_operand_count (ui_opcode instruction))).
  { cbn. destruct (ui_opcode instruction); cbn in *; lia. }
  assert (Hg : outcome (geometry_shape_valid instruction) (fun n => 0 <= n <= 6) (fun _ => True)).
  { unfold geometry_shape_valid. destruct (_ || _); [done|]. destruct (negb _).
    { destruct (negb _); cbn; [done|lia]. }
    destruct (negb _); [cbn; lia|].
    destruct (operand_at_ok instruction Hi 0) as (o & -> & _ & []); [done|]. mstep.
    repeat (edestruct (operand_get (E:=unit) (A:=bool)) as [? ->]; [eassumption|done|]; mstep).
    edestruct (operand_get (E:=unit) (op_index_values o) 3 0) as [? ->]; [done|lia|]. mstep.
    destruct (_ && _); cbn; [lia|done]. }
  destruct (ui_opcode instruction); first [exact Hg|exact I|cbn; lia].
Qed.

Section shapes.
Context {E : Type}.

Lemma sync_valid_defined : exists b, sync_valid (E:=E) program instruction = Ret b.
Proof.
  unfold sync_valid. destruct (op_is _ _); [|by eexists].
  destruct (not_empty_defined (E:=E) (ui_resource_dimension instruction)) as [r ->];
    [rewrite (io_dimension _ Hi); lia|]. by eexists.
Qed.

Lemma modifiers_valid_defined : exists b, modifiers_valid (E:=E) instruction = Ret b.
Proof.
  assert (Hget : forall i, 0 <= i < DXBC_MAX_OPERANDS -> exists o, operand_at (E:=E) instruction i = Ret o).
  { intros i Hr. unfold operand_at. eapply operand_get; [apply Hi|done]. }
  unfold modifiers_valid. destruct (Hget 2) as [a Ha]; [done|]. destruct (Hget 3) as [b Hb]; [done|].
  destruct (ui_opcode instruction); first [by eexists|rewrite Ha; mstep; rewrite Hb; by eexists].
Qed.

Lemma operand_use_invalid_spec i : 0 <= i ->
  exists b, operand_use_invalid (E:=E) program instruction i = Ret b /\
    (b = false <-> exists info, operand_use_unchecked program instruction i = Ret info).
Proof.
  intros H0. unfold operand_use_invalid. pose proof (operand_use_unchecked_ok i H0) as Ho.
  destruct (operand_use_unchecked program instruction i) as [info|[]|]; [| |done].
  2:{ exists true. split; [done|]. split; [done|]. by intros [? ?]. }
  destruct Ho as [_ Hs]. cbn. eexists. split; [reflexivity|]. split; [by eauto|]. intros _.
  apply negb_false_iff, eqb_true_iff.
  destruct (bool_decide _) eqn:Hu; bools; symmetry; [apply negb_true_iff|apply negb_false_iff].
  - by apply Z.eqb_neq, Hs.
  - apply Z.eqb_eq. destruct (decide (ou_source_lane_mask info = 0)); [done|]. by apply Hs in n.
Qed.

(** The operands of a valid instruction all have a use. *)
Lemma shape_valid_spec :
  exists b, usil_instruction_shape_valid (E:=E) program instruction = Ret b /\
    (b = true -> 0 <= ui_operand_count instruction <= DXBC_MAX_OPERANDS /\
      (if usil_opcode_has_memory_access (ui_opcode instruction) &&
          (up_program_type program =? DXBC_PROGRAM_TYPE_COMPUTE)
       then exists access, usil_instruction_memory_access program instruction = Ret access
       else (exists n, expected_operand_count instruction = Ret n) /\
         (usil_opcode_has_memory_access (ui_opcode instruction) = true ->
          ui_opcode instruction = USIL_OP_LD_STRUCTURED \/ ui_opcode instruction = USIL_OP_IMM_ATOMIC_IADD)) /\
      forall i, 0 <= i < ui_operand_count instruction ->
      exists info, operand_use_unchecked program instruction i = Ret info).
Proof.
  unfold usil_instruction_shape_valid. destruct (_ || _) eqn:Hc; [by eexists|]. bools.
  pose proof memory_access_spec as Hm. destruct (_ && _) eqn:Hmem.
  - destruct (usil_instruction_memory_access program instruction) as [access|[]|] eqn:Hacc; [|by eexists|done].
    cbn. eexists. split; [reflexivity|]. intros _. destruct Hm as (shape & Hs & Ha).
    rewrite (av_stage _ _ _ _ Ha). apply andb_true_iff in Hmem as [Hmem _]. rewrite Hmem.
    split; [done|]. split; [by eexists|]. intros i Hr. unfold operand_use_unchecked.
    rewrite (av_stage _ _ _ _ Ha), Hacc, Hmem. cbn.
    pose proof (memory_shape_covers _ _ i Hs ltac:(rewrite <- (av_count _ _ _ _ Ha); done)) as Hcov.
    pose proof (av_operands _ _ _ _ Ha) as Hop. injection Hop as Ed Eb Ea Eo Ev Ec _ _ _.
    cbn in Ed, Eb, Ea, Eo, Ev, Ec. unfold memory_operand_use. rewrite Ed, Eb, Ea, Eo, Ev, Ec.
    repeat first [eexists; reflexivity|zcase]. exfalso. tauto.
  - pose proof expected_count_range as He.
    destruct (expected_operand_count instruction) as [n|[]|]; [|by eexists|done]. cbn.
    destruct (Z.eqb_spec (ui_operand_count instruction) n) as [Hn|]; [|by eexists]. cbn.
    destruct sync_valid_defined as [sync ->]. mstep. destruct sync; [|by eexists]. cbn [negb].
    destruct modifiers_valid_defined as [modifiers ->]. mstep. destruct modifiers; [|by eexists]. cbn [negb].
    destruct (any_index_spec (fun i => ~ exists info, operand_use_unchecked program instruction i = Ret info)
      (Z.to_nat n) 0 (operand_use_invalid (E:=E) program instruction)) as (b & -> & Hb).
    { intros j Hj. destruct (operand_use_invalid_spec j) as (b & -> & Hb); [lia|]. exists b.
      split; [done|]. rewrite <- Hb. by destruct b. }
    mstep. eexists. split; [reflexivity|]. intros Hbf%negb_true_iff. split; [done|]. split.
    + destruct (usil_opcode_has_memory_access _); cbn [andb] in *; [|split; [by eexists|done]].
      apply orb_false_iff in Hmem as [-> Hmem]. split; [by eexists|]. intros _.
      apply andb_false_iff in Hmem. unfold op_is in Hmem. destruct Hmem; bools; auto.
    + intros i Hr. pose proof (operand_use_unchecked_ok i ltac:(lia)) as Hu.
      destruct (operand_use_unchecked program instruction i) eqn:Hrun; [by eexists| |done].
      assert (b = true) as ->; [|done]. apply Hb. exists i. split; [lia|]. rewrite Hrun. by intros [? ?].
Qed.
End shapes.
End accesses.

(** * Effects *)

Definition memory_bits : Z :=
  Z.lor (Z.lor USIL_EFFECT_RESOURCE_READ USIL_EFFECT_EXTERNAL_WRITE)
        (Z.lor USIL_EFFECT_THREAD_GROUP_READ USIL_EFFECT_THREAD_GROUP_WRITE).

Definition has_effect (effects bits : Z) : Prop := Z.land effects bits <> 0.

(** An operand that names something outside the registers has an effect. *)
Definition use_has_effect (effects : Z) (info : USILOperandUseInfo) : Prop :=
  match ou_use info with
  | USIL_OPERAND_USE_DESTINATION | USIL_OPERAND_USE_SOURCE => True
  | USIL_OPERAND_USE_RESOURCE_BINDING => has_effect effects memory_bits
  | USIL_OPERAND_USE_SAMPLER_BINDING => has_effect effects USIL_EFFECT_RESOURCE_READ
  | USIL_OPERAND_USE_STREAM_SELECTOR => has_effect effects USIL_EFFECT_GEOMETRY_OUTPUT
  end.

(** The opcodes that write the output of a geometry shader. *)
Definition emits (opcode : USILOpcode) : Prop :=
  opcode = USIL_OP_GEOMETRY_APPEND \/ opcode = USIL_OP_GEOMETRY_RESTART_STRIP.

(** Which instructions have effects on control and on the geometry output. *)
Definition control_effects (instruction : USILInstruction) (effects : Z) : Prop :=
  (has_effect effects USIL_EFFECT_GEOMETRY_OUTPUT <-> emits (ui_opcode instruction)) /\
  if decide (ui_opcode instruction = USIL_OP_SYNC)
  then is_boundary (ui_opcode instruction) = false /\
       (has_effect effects USIL_EFFECT_CONTROL <-> Z.testbit (ui_sync_flags instruction) 0 = true)
  else has_effect effects USIL_EFFECT_CONTROL <->
       is_boundary (ui_opcode instruction) = true /\ ~ emits (ui_opcode instruction).

Section effects.
Context (program : USILProgram) (instruction : USILInstruction).
Hypothesis (Hd : declarations_ok program) (Hi : instruction_ok instruction).

Lemma source_use_effect e mask : outcome (source_use mask) (use_has_effect e) (fun _ => True).
Proof. exact I. Qed.

Lemma written_lanes_effect e mask : outcome (written_lanes_use mask) (use_has_effect e) (fun _ => True).
Proof. unfold written_lanes_use. by destruct (mask =? 0). Qed.

Lemma operand_effect e i (k : DXBCOperand -> res unit USILOperandUseInfo) :
  0 <= i < DXBC_MAX_OPERANDS -> (forall o, outcome (k o) (use_has_effect e) (fun _ => True)) ->
  outcome (o ← operand_at instruction i; k o) (use_has_effect e) (fun _ => True).
Proof. intros Hr Hk. destruct (operand_at_ok instruction Hi i Hr) as (o & -> & _ & _). apply Hk. Qed.

Lemma texture_effect e lod (f : Z -> Z) :
  outcome (mask ← texture_dimension_lanes program instruction 2 lod; source_use (f mask))
    (use_has_effect e) (fun _ => True).
Proof.
  apply outcome_bind. eapply outcome_mono; [by apply (texture_lanes_spec program instruction)| |done].
  done.
Qed.

Lemma sample_effect e i : has_effect e USIL_EFFECT_RESOURCE_READ -> has_effect e memory_bits ->
  outcome (sample_operand_use program instruction i) (use_has_effect e) (fun _ => True).
Proof.
  intros Hs Hm. unfold sample_operand_use. destruct (i =? 0); [done|]. destruct (_ || _).
  { apply (texture_effect e false (fun mask => if (4 <=? i) && (mask =? 0xf) then 0x7 else mask)). }
  by destruct (i =? 2); [|destruct (i =? 3)].
Qed.

Lemma load_effect e i multisampled : has_effect e memory_bits ->
  outcome (load_operand_use program instruction i multisampled) (use_has_effect e) (fun _ => True).
Proof.
  intros Hm. unfold load_operand_use. destruct (i =? 0); [done|]. destruct (i =? 2); [done|].
  destruct (_ && _); [done|]. apply (texture_effect e _ id).
Qed.

Lemma opcode_use_effect i e :
  usil_opcode_has_memory_access (ui_opcode instruction) &&
    (up_program_type program =? DXBC_PROGRAM_TYPE_COMPUTE) = false ->
  opcode_effects instruction = Some e ->
  outcome (operand_use_unchecked program instruction i) (use_has_effect e) (fun _ => True).
Proof.
  intros Hm He. unfold operand_use_unchecked. rewrite Hm. destruct (0 <=? _).
  { destruct (i =? 0); [done|]. apply operand_effect; [done|]. intros. apply written_lanes_effect. }
  unfold opcode_effects in He.
  clear Hm. destruct (ui_opcode instruction); try exact I; injection He as <-;
    try (apply sample_effect; compute; congruence); try (apply load_effect; compute; congruence);
    try (compute; congruence);
    try (destruct (i =? 0); [exact I|]); first [exact I|compute; congruence|
    destruct (i =? _); first [exact I|compute; congruence]|idtac].
  all: destruct (i <? 2); [done|]; apply operand_effect; [done|]; intros o1;
    apply operand_effect; [done|]; intros o2; apply written_lanes_effect.
Qed.

(** An opcode with a valid shape has effects, and those of control flow are
    what ends a basic block. *)
Lemma opcode_effects_defined :
  (exists n, expected_operand_count instruction = Ret n) ->
  (usil_opcode_has_memory_access (ui_opcode instruction) = true ->
   ui_opcode instruction = USIL_OP_LD_STRUCTURED \/ ui_opcode instruction = USIL_OP_IMM_ATOMIC_IADD) ->
  exists e, opcode_effects instruction = Some e.
Proof.
  intros [n Hn] Hm. unfold opcode_effects, expected_operand_count in *.
  destruct (ui_opcode instruction); first [by eexists|done|by destruct Hm as [?|?]].
Qed.

Lemma opcode_effects_boundary e : opcode_effects instruction = Some e ->
  ui_opcode instruction <> USIL_OP_SYNC ->
  is_boundary (ui_opcode instruction) = true <->
  has_effect e (Z.lor USIL_EFFECT_CONTROL USIL_EFFECT_GEOMETRY_OUTPUT).
Proof.
  unfold opcode_effects, has_effect. intros He Hs.
  destruct (ui_opcode instruction); try done; injection He as <-; by vm_compute.
Qed.

Lemma opcode_control_effects e : opcode_effects instruction = Some e -> control_effects instruction e.
Proof.
  unfold opcode_effects, control_effects, emits, has_effect. intros He.
  destruct (decide (ui_opcode instruction = USIL_OP_SYNC)) as [Hs|Hs].
  - rewrite Hs in *. injection He as <-.
    assert (Hbit : negb (Z.land (ui_sync_flags instruction) DXBC_SYNC_THREADS_IN_GROUP =? 0) =
      Z.testbit (ui_sync_flags instruction) 0).
    { exact (has_lane_testbit (ui_sync_flags instruction) 0 ltac:(lia)). }
    rewrite Hbit. split; [split; [by destruct (Z.testbit _ _)|by intros [?|?]]|]. split; [done|].
    destruct (Z.testbit _ _); split; done || by vm_compute.
  - destruct (ui_opcode instruction); try done; injection He as <-; vm_compute; (split; [split|split]); 
      first [naive_solver|intuition congruence].
Qed.
End effects.

(** The effects of an access. *)
Lemma memory_shape_reads_or_writes opcode shape : memory_opcode_shape opcode = Some shape ->
  ms_reads shape || ms_writes shape = true.
Proof. by destruct opcode; intros [= <-]. Qed.

Lemma memory_effects_spec access :
  ma_reads access || ma_writes access = true ->
  has_effect (memory_effects access) memory_bits /\
  ~ has_effect (memory_effects access) (Z.lor USIL_EFFECT_CONTROL USIL_EFFECT_GEOMETRY_OUTPUT).
Proof.
  intros H. unfold memory_effects, has_effect.
  destruct (bool_decide (ma_space access = _)), (ma_reads access), (ma_writes access),
    (ma_atomic access), (bool_decide (ma_kind access = _)); try discriminate H; compute; split; congruence.
Qed.

(** A memory access affects neither control nor the geometry output. *)
Lemma memory_control_effects instruction shape access :
  memory_opcode_shape (ui_opcode instruction) = Some shape ->
  ~ has_effect (memory_effects access) (Z.lor USIL_EFFECT_CONTROL USIL_EFFECT_GEOMETRY_OUTPUT) ->
  control_effects instruction (memory_effects access).
Proof.
  intros Hs Hno.
  assert (Hsub : forall bits, Z.land bits (Z.lor USIL_EFFECT_CONTROL USIL_EFFECT_GEOMETRY_OUTPUT) = bits ->
    ~ has_effect (memory_effects access) bits).
  { unfold has_effect in *. intros bits Hb Hh. apply Hno. intros H0. apply Hh.
    rewrite <- Hb, (Z.land_comm bits), Z.land_assoc, H0. done. }
  pose proof (Hsub USIL_EFFECT_CONTROL eq_refl) as H1. pose proof (Hsub USIL_EFFECT_GEOMETRY_OUTPUT eq_refl) as H2.
  unfold control_effects, emits. destruct (ui_opcode instruction); try done;
    (rewrite decide_False by done; split; [split; [done|by intros [?|?]]|split; [done|by intros [? _]]]).
Qed.

Lemma memory_operand_use_kind access i info : memory_operand_use access i = Ret info ->
  has_effect (memory_effects access) memory_bits -> use_has_effect (memory_effects access) info.
Proof.
  unfold memory_operand_use. intros Hu Hm.
  repeat match type of Hu with (if ?b then _ else _) = _ => destruct b end; first [discriminate Hu|by injection Hu as <-].
Qed.

Lemma memory_not_boundary opcode shape : memory_opcode_shape opcode = Some shape ->
  is_boundary opcode = false /\ opcode <> USIL_OP_SYNC.
Proof. by destruct opcode. Qed.

(** * A sample: a compute program that stores a temporary to a raw view *)

Definition indexed_operand (type index : Z) : DXBCOperand :=
  zero_operand <| op_type := type |> <| op_register_index := index |> <| op_register_index_dim := 1 |>
               <| op_index_values := [index; 0; 0] |> <| op_index_has_immediate := [true; false; false] |>.

Definition sample_store : USILInstruction := plain_instruction USIL_OP_STORE_RAW
  [(indexed_operand OPERAND_TYPE_UAV 0) <| op_destination_mask := 0x10 |>;
   zero_operand <| op_type := OPERAND_TYPE_IMMEDIATE32 |> <| op_imm_value_count := 1 |>
                <| op_immediate_word_count := 1 |>;
   (indexed_operand OPERAND_TYPE_TEMP 0) <| op_swizzle_mode := 1 |> <| op_swizzle := [0; 1; 2; 3] |>].

Definition sample_uav : USILUav := {|
  uav_reg_idx := 0; uav_dimension := copy_literal "raw" (replicate 16 Byte.x00);
  uav_return_types := [0; 0; 0; 0]; uav_stride := 0; uav_globally_coherent := false;
  uav_rasterizer_ordered := false; uav_has_order_preserving_counter := false |}.

Definition sample_compute : USILProgram := {|
  up_signature_declarations := None; up_signature_declaration_count := 0;
  up_signature_declaration_alloc := 0; up_temp_count := 1;
  up_cbuffers := None; up_cbuffer_count := 0; up_cbuffer_alloc := 0;
  up_textures := None; up_texture_count := 0; up_texture_alloc := 0;
  up_uavs := Some [sample_uav]; up_uav_count := 1; up_uav_alloc := 1;
  up_instructions := Some [sample_store]; up_instruction_count := 1;
  up_instruction_alloc := 1; up_has_stage_contract := true;
  up_program_type := DXBC_PROGRAM_TYPE_COMPUTE; up_shader_model_major := 5; up_shader_model_minor := 0;
  up_tessellation := {| tc_valid := false; tc_phase_count := 0; tc_phase_capacity := 0; tc_phases := None |};
  up_compute := {| cc_valid := true; cc_shared_memory := None; cc_shared_memory_count := 0;
                   cc_shared_memory_capacity := 0 |} |}.

Lemma sample_store_ok : instruction_ok sample_store.
Proof.
  constructor; try reflexivity. cbn [sample_store plain_instruction ui_operands].
  repeat (apply list.Forall_cons; split; [by repeat constructor|]). by repeat constructor.
Qed.

Lemma sample_compute_ok : declarations_ok sample_compute.
Proof. constructor; try done. intros l [= <-]. split; [done|]. by repeat constructor. Qed.

Lemma sample_store_valid : usil_instruction_shape_valid (E:=unit) sample_compute sample_store = Ret true.
Proof. by vm_compute. Qed.

(** * The claims *)

Section claims.
Context (program : USILProgram) (instruction : USILInstruction).

(** C19: the shape of an instruction is either accepted or rejected, without a
    read outside any array, and [usil_instruction_operand_use] then answers for
    exactly the operands of accepted instructions; every answer it gives has a
    lane mask of four bits that is not empty exactly for the operands that are
    read as values.  So no client of a valid instruction meets an operand
    without a use, and the last test of [usil_instruction_shape_valid] on uses
    and masks never fails by itself. *)
Theorem usil_instruction_operand_use_correct :
  declarations_ok program -> instruction_ok instruction ->
  exists valid, usil_instruction_shape_valid (E:=unit) program instruction = Ret valid /\
    forall i, outcome (usil_instruction_operand_use program instruction i)
      (fun info => valid = true /\ 0 <= i < ui_operand_count instruction /\
         0 <= ou_source_lane_mask info < 16 /\
         (ou_use info = USIL_OPERAND_USE_SOURCE <-> ou_source_lane_mask info <> 0))
      (fun _ => ~ (valid = true /\ 0 <= i < ui_operand_count instruction)).
Proof.
  intros Hd Hi. destruct (shape_valid_spec (E:=unit) program instruction Hd Hi) as (valid & Hv & Hops).
  exists valid. split; [done|]. intros i. unfold usil_instruction_operand_use. rewrite Hv. mstep.
  destruct (_ || _) eqn:Hg; [intros [-> Hr]; bools; lia|]. bools.
  destruct Hops as (_ & _ & Hops); [done|]. destruct (Hops i) as [info Hinfo]; [lia|].
  pose proof (operand_use_unchecked_ok program instruction Hd Hi i ltac:(lia)) as Hok.
  rewrite Hinfo in *. destruct Hok. split; [done|]. split; [lia|done].
Qed.

(** C21: [usil_instruction_memory_access] accepts exactly the instructions that
    have a memory access, and returns it.  The access is pinned field by field:
    the roles of the operands of its opcode, the space, dimension, types, stride
    and flags of the one declaration its binding names, its kind (what its opcode
    needs and its declaration is, or a counter with the mode of its view), the
    lanes of its address (by kind, dimension and atomicity), of its value and its
    destination, and the components of memory those touch; every source is an
    operand the shader can read in the lanes of its role, and the destination an
    existing temporary or, for atomics only, nothing. *)
Theorem usil_instruction_memory_access_correct :
  declarations_ok program -> instruction_ok instruction ->
  outcome (usil_instruction_memory_access program instruction)
    (memory_access_of program instruction)
    (fun _ => forall access, ~ memory_access_of program instruction access).
Proof.
  intros Hd Hi. pose proof (memory_access_spec program instruction Hd Hi) as Hdef.
  destruct (usil_instruction_memory_access program instruction) as [access|e|] eqn:Hrun; [..|done].
  - by apply memory_access_exact in Hrun.
  - intros access Ha. apply memory_access_exact in Ha; [|done..]. congruence.
Qed.

(** C20: every instruction with a valid shape has known effects, and an operand
    that binds a resource or a sampler or selects a stream shows in them: an
    instruction without effects only reads and writes registers.  What ends a
    basic block of the control-flow graph is what has effects on control or on
    the output of a geometry shader, the latter being exactly the two opcodes
    that emit and restart.  The exception is SYNC, which ends no block: it
    affects control exactly if it makes the threads of its group wait. *)
Theorem usil_instruction_effects_correct :
  declarations_ok program -> instruction_ok instruction ->
  exists valid effects, usil_instruction_shape_valid (E:=unit) program instruction = Ret valid /\
    usil_instruction_effects (E:=unit) program instruction = Ret (valid, effects) /\
    (valid = false -> effects = USIL_EFFECT_UNKNOWN) /\
    (valid = true ->
      (forall i info, usil_instruction_operand_use program instruction i = Ret info ->
         use_has_effect effects info) /\
      (ui_opcode instruction <> USIL_OP_SYNC ->
         is_boundary (ui_opcode instruction) = true <->
         has_effect effects (Z.lor USIL_EFFECT_CONTROL USIL_EFFECT_GEOMETRY_OUTPUT)) /\
      control_effects instruction effects).
Proof.
  intros Hd Hi. unfold usil_instruction_effects, usil_instruction_operand_use.
  destruct (shape_valid_spec (E:=unit) program instruction Hd Hi) as ([] & Hv & Hops); rewrite Hv; mstep.
  2:{ by exists false, USIL_EFFECT_UNKNOWN. }
  destruct Hops as (Hc & Hmem & Hops); [done|]. cbn [negb orb].
  destruct (usil_opcode_has_memory_access (ui_opcode instruction) && _) eqn:Hm.
  - pose proof (memory_access_spec program instruction Hd Hi) as Hspec.
    destruct Hmem as [access Hacc]. rewrite Hacc in *. destruct Hspec as (shape & Hs & Ha). cbn.
    pose proof (av_operands _ _ _ _ Ha) as Hop. injection Hop as _ _ _ _ _ _ Hr Hw _. cbn in Hr, Hw.
    destruct (memory_effects_spec access) as [Hbits Hno];
      [rewrite Hr, Hw; by eapply memory_shape_reads_or_writes|].
    destruct (memory_not_boundary _ _ Hs) as [Hb Hsync].
    eexists true, _. split; [done|]. split; [done|]. split; [done|]. intros _. split.
    + intros i info. destruct (_ || _); [done|]. unfold operand_use_unchecked. rewrite Hm, Hacc. cbn.
      intros Hu. by eapply memory_operand_use_kind.
    + split; [|by eapply memory_control_effects].
      intros _. rewrite Hb. split; [done|]. intros He. by apply Hno in He.
  - destruct Hmem as [Hn Hmem]. destruct (opcode_effects_defined instruction Hn Hmem) as [e He].
    rewrite He. eexists true, e. split; [done|]. split; [done|]. split; [done|]. intros _. split.
    + intros i info. destruct (_ || _); [done|]. intros Hu.
      pose proof (opcode_use_effect program instruction Hd Hi i e Hm He) as Ho. by rewrite Hu in Ho.
    + split; [|by apply opcode_control_effects]. intros Hs. by apply opcode_effects_boundary.
Qed.
End claims.

Lemma usil_instruction_operand_use_correct_witness :
  usil_instruction_shape_valid (E:=unit) sample_compute sample_store = Ret true /\
  exists valid, usil_instruction_shape_valid (E:=unit) sample_compute sample_store = Ret valid /\
    forall i, outcome (usil_instruction_operand_use sample_compute sample_store i)
      (fun info => valid = true /\ 0 <= i < ui_operand_count sample_store /\
         0 <= ou_source_lane_mask info < 16 /\
         (ou_use info = USIL_OPERAND_USE_SOURCE <-> ou_source_lane_mask info <> 0))
      (fun _ => ~ (valid = true /\ 0 <= i < ui_operand_count sample_store)).
Proof.
  split; [exact sample_store_valid|].
  exact (usil_instruction_operand_use_correct sample_compute sample_store sample_compute_ok sample_store_ok).
Defined.

Lemma usil_instruction_memory_access_correct_witness :
  (exists access, usil_instruction_memory_access sample_compute sample_store = Ret access /\
     ma_space access = USIL_MEMORY_UNORDERED_ACCESS /\ ma_writes access = true) /\
  outcome (usil_instruction_memory_access sample_compute sample_store)
    (memory_access_of sample_compute sample_store)
    (fun _ => forall access, ~ memory_access_of sample_compute sample_store access).
Proof.
  split; [eexists; split; [vm_compute; reflexivity|done]|].
  exact (usil_instruction_memory_access_correct sample_compute sample_store sample_compute_ok sample_store_ok).
Defined.

Lemma usil_instruction_effects_correct_witness :
  exists valid effects, usil_instruction_shape_valid (E:=unit) sample_compute sample_store = Ret valid /\
    usil_instruction_effects (E:=unit) sample_compute sample_store = Ret (valid, effects) /\
    (valid = false -> effects = USIL_EFFECT_UNKNOWN) /\
    (valid = true ->
      (forall i info, usil_instruction_operand_use sample_compute sample_store i = Ret info ->
         use_has_effect effects info) /\
      (ui_opcode sample_store <> USIL_OP_SYNC ->
         is_boundary (ui_opcode sample_store) = true <->
         has_effect effects (Z.lor USIL_EFFECT_CONTROL USIL_EFFECT_GEOMETRY_OUTPUT)) /\
      control_effects sample_store effects).
Proof.
  exact (usil_instruction_effects_correct sample_compute sample_store sample_compute_ok sample_store_ok).
Defined.
