(* ===== verification/UsilHullCorrect.v ===== *)
(** The phases of a hull program: what
    [usil_hull_phase_temp_registers_are_valid] accepts. *)

From stdpp Require Import gmultiset.
From S2P Require Import Prelude CArray UnityCommon ShaderStage StageContract Operand Instruction Usil UsilValidation UsilValidationSteps.

#[local] Set Warnings "-register-all".

(** * Operand trees *)

(** An operand and every operand that indexes below it, in the order of the walk. *)
Fixpoint operand_tree (o : DXBCOperand) : list DXBCOperand :=
  o :: from_option operand_tree [] (op_rel_op0 o)
    ++ from_option operand_tree [] (op_rel_op1 o)
    ++ from_option operand_tree [] (op_rel_op2 o).

(** Induction over an operand and its relative operands. *)
Definition operand_induction (P : DXBCOperand -> Prop)
  (step : forall o, (forall r, op_rel_op0 o = Some r -> P r) -> (forall r, op_rel_op1 o = Some r -> P r) ->
     (forall r, op_rel_op2 o = Some r -> P r) -> P o) : forall o, P o.
Proof.
  fix IH 1. intros [? ? ? ? ? ? ? ? ? ? ? ? ? ? ? r0 r1 r2]. apply step; cbn.
  - destruct r0 as [x|]; [|clear IH; done]. pose proof (IH x). clear IH. by intros r [= <-].
  - destruct r1 as [x|]; [|clear IH; done]. pose proof (IH x). clear IH. by intros r [= <-].
  - destruct r2 as [x|]; [|clear IH; done]. pose proof (IH x). clear IH. by intros r [= <-].
Qed.

Definition temp_declared (count : Z) (o : DXBCOperand) : Prop :=
  op_type o = OPERAND_TYPE_TEMP -> 0 <= op_register_index o < count.

(** The walk of one optional operand. *)
Definition walk_optional (o : option DXBCOperand) (count remaining : Z) : option Z :=
  match o with
  | Some root => hull_temp_operand_is_declared root count remaining
  | None => Some remaining
  end.

Definition walk_ok (l : list DXBCOperand) (count remaining r : Z) : Prop :=
  Forall (temp_declared count) l /\ zlength l <= remaining /\ r = remaining - zlength l.

Lemma walk_ok_app l l' count remaining r :
  walk_ok (l ++ l') count remaining r <->
  exists middle, walk_ok l count remaining middle /\ walk_ok l' count middle r.
Proof.
  unfold walk_ok. rewrite Forall_app, zlength_app. pose proof (zlength_nonneg l). pose proof (zlength_nonneg l').
  split.
  - intros ([? ?] & ? & ->). exists (remaining - zlength l). repeat split; try done; lia.
  - intros (m & (? & ? & ->) & ? & ? & ->). repeat split; try done; lia.
Qed.

Lemma walk_optional_ok o count remaining r :
  (forall x, o = Some x -> forall n r, 0 <= n ->
     hull_temp_operand_is_declared x count n = Some r <-> walk_ok (operand_tree x) count n r) ->
  0 <= remaining ->
  walk_optional o count remaining = Some r <-> walk_ok (from_option operand_tree [] o) count remaining r.
Proof.
  intros IH H0. destruct o as [x|]; cbn; [by apply IH|].
  unfold walk_ok. cbn. split.
  - intros [= ->]. split; [constructor|]. unfold zlength; cbn. lia.
  - intros (_ & _ & ->). unfold zlength; cbn. f_equal. lia.
Qed.

Lemma exists_iff {A} (P Q : A -> Prop) : (forall x, P x <-> Q x) -> (exists x, P x) <-> exists x, Q x.
Proof. intros H. split; intros [x Hx]; exists x; by apply H. Qed.

Lemma and_iff (P Q R S : Prop) : (P <-> Q) -> (Q -> R <-> S) -> P /\ R <-> Q /\ S.
Proof. tauto. Qed.

Lemma bind_walk (m : option Z) (k : Z -> option Z) r :
  m ≫= k = Some r <-> exists n, m = Some n /\ k n = Some r.
Proof. apply bind_Some. Qed.

(** The recursion accepts the operands all whose temporaries are declared, and
    that have no more nodes than the budget. *)
Lemma hull_temp_operand_spec o count remaining r :
  0 <= remaining ->
  hull_temp_operand_is_declared o count remaining = Some r <-> walk_ok (operand_tree o) count remaining r.
Proof.
  revert remaining r. induction o as [o IH0 IH1 IH2] using operand_induction. intros remaining r H0.
  assert (Hun : hull_temp_operand_is_declared o count remaining =
    if remaining =? 0 then None else
    if (op_type o =? OPERAND_TYPE_TEMP) &&
       ((op_register_index o <? 0) || (count <=? op_register_index o)) then None else
    walk_optional (op_rel_op0 o) count (remaining - 1) ≫= fun n =>
    walk_optional (op_rel_op1 o) count n ≫= fun n => walk_optional (op_rel_op2 o) count n)
    by (by destruct o).
  assert (Htree : operand_tree o = [o] ++ from_option operand_tree [] (op_rel_op0 o) ++
    from_option operand_tree [] (op_rel_op1 o) ++ from_option operand_tree [] (op_rel_op2 o)) by (by destruct o).
  assert (Hnn : forall l n m, 0 <= n -> walk_ok l count n m -> 0 <= m) by (intros l n m ? (? & ? & ->); lia).
  rewrite Hun, Htree, walk_ok_app. clear Hun Htree.
  destruct (Z.eqb_spec remaining 0) as [->|Hr].
  { split; [done|]. intros (m & (_ & Hle & _) & _). unfold zlength in Hle. cbn in Hle. lia. }
  destruct (_ && _) eqn:Hbad.
  { split; [done|]. intros (m & (HF & _) & _). apply list.Forall_cons in HF as [HF _].
    apply andb_true_iff in Hbad as [Ht Hb]. bools. specialize (HF Ht).
    apply orb_true_iff in Hb as [Hb|Hb]; bools; lia. }
  assert (Hone : forall m, walk_ok [o] count remaining m <-> m = remaining - 1).
  { intros m. unfold walk_ok, zlength. cbn. split; [intros (_ & _ & ->); lia|]. intros ->.
    split; [|lia]. constructor; [|constructor]. intros Ht. rewrite Ht in Hbad. cbn in Hbad. bools. lia. }
  rewrite bind_walk. setoid_rewrite Hone.
  transitivity (exists n, walk_ok (from_option operand_tree [] (op_rel_op0 o)) count (remaining - 1) n /\
    exists n1, walk_ok (from_option operand_tree [] (op_rel_op1 o)) count n n1 /\
      walk_ok (from_option operand_tree [] (op_rel_op2 o)) count n1 r).
  - apply exists_iff. intros n. apply and_iff; [apply walk_optional_ok; [done|lia]|].
    intros Hn. apply Hnn in Hn; [|lia]. rewrite bind_walk.
    apply exists_iff. intros n1. apply and_iff; [apply walk_optional_ok; [done|lia]|].
    intros Hn1. apply Hnn in Hn1; [|lia]. by apply walk_optional_ok.
  - split.
    + intros (n & Hn & n1 & Hn1 & Hr1). exists (remaining - 1). split; [done|].
      apply walk_ok_app. exists n. split; [done|]. apply walk_ok_app. by exists n1.
    + intros (m & -> & H). apply walk_ok_app in H as (n & Hn & H). apply walk_ok_app in H as (n1 & Hn1 & Hr1).
      exists n. split; [done|]. by exists n1.
Qed.

(** * Phases *)

(** The arrays behind the two tables, which have the elements their
    allocations say. *)
Record hull_program_ok (program : USILProgram) (instructions : list USILInstruction)
    (phases : list USILHullPhase) : Prop := {
  ho_instructions : up_instructions program = Some instructions;
  ho_instruction_length : zlength instructions = up_instruction_alloc program;
  ho_instruction : Forall instruction_ok instructions;
  ho_count : up_instruction_count program <= INT_MAX;
  ho_phases : tc_phases (up_tessellation program) = Some phases;
  ho_phase_length : zlength phases = tc_phase_capacity (up_tessellation program);
  ho_phase_count : 0 <= tc_phase_count (up_tessellation program);
}.

Definition operand_declared (count : Z) (o : DXBCOperand) : Prop :=
  Forall (temp_declared count) (operand_tree o) /\
  zlength (operand_tree o) <= DXBC_MAX_NESTED_OPERAND_TOKENS.

(** An instruction of a phase. *)
Definition instruction_in_phase (scope : USILHullPhase) (instruction : USILInstruction) : Prop :=
  hp_first_source_instruction_index scope <= ui_source_instruction_index instruction <
    hp_end_source_instruction_index scope /\
  0 <= ui_operand_count instruction <= DXBC_MAX_OPERANDS /\
  forall k o, 0 <= k < ui_operand_count instruction -> znth (ui_operands instruction) k = Some o ->
    operand_declared (hp_temp_count scope) o.

(** A phase whose instructions begin at [next]: it is not empty, its source
    instructions follow its marker, and its temporaries are declared among them
    or not at all. *)
Record phase_at (program : USILProgram) (scope : USILHullPhase) (next : Z) : Prop := {
  pa_first : hp_first_instruction_index scope = next;
  pa_end : next < hp_end_instruction_index scope <= up_instruction_count program;
  pa_marker : hp_marker_source_instruction_index scope < hp_first_source_instruction_index scope;
  pa_source : hp_first_source_instruction_index scope < hp_end_source_instruction_index scope;
  pa_temps : if hp_has_temp_count scope
    then hp_temp_count scope <= 4096 /\
         hp_first_source_instruction_index scope <= hp_temp_count_source_instruction_index scope <
           hp_end_source_instruction_index scope
    else hp_temp_count scope = 0 /\ hp_temp_count_source_instruction_index scope = 0;
}.

Lemma hull_phase_ok_iff program scope next : hull_phase_ok program scope next = true <-> phase_at program scope next.
Proof.
  unfold hull_phase_ok. rewrite !andb_true_iff, !Z.leb_le, !Z.ltb_lt, Z.eqb_eq.
  destruct (hp_has_temp_count scope) eqn:Ht; rewrite ?andb_true_iff, ?Z.leb_le, ?Z.ltb_lt, ?Z.eqb_eq.
  - split; [intros; destruct_and!; constructor; rewrite ?Ht; lia|]. intros [? ? ? ? Hc]. rewrite Ht in Hc. lia.
  - split; [intros; destruct_and!; constructor; rewrite ?Ht; lia|]. intros [? ? ? ? Hc]. rewrite Ht in Hc. lia.
Qed.

(** The phases follow each other without gaps, from [next] to [last]. *)
Inductive phases_tile (program : USILProgram) (instructions : list USILInstruction)
  : Z -> list USILHullPhase -> Z -> Prop :=
| tile_nil next : phases_tile program instructions next [] next
| tile_cons next scope phases last :
    phase_at program scope next ->
    (forall i instruction, next <= i < hp_end_instruction_index scope ->
       znth instructions i = Some instruction -> instruction_in_phase scope instruction) ->
    phases_tile program instructions (hp_end_instruction_index scope) phases last ->
    phases_tile program instructions next (scope :: phases) last.

Lemma phases_tile_end program instructions next l x y :
  phases_tile program instructions next l x -> phases_tile program instructions next l y -> x = y.
Proof.
  intros Hx. induction Hx as [|? ? ? ? _ _ _ IH]; intros Hy; inversion Hy; subst; [done|]. by apply IH.
Qed.

(** A search that finds nothing. *)
Lemma any_index_none {E} (Q : Z -> Prop) n i (test : Z -> res E bool) :
  (forall j, i <= j < i + Z.of_nat n -> exists b, test j = Ret b /\ (b = false <-> Q j)) ->
  exists b, any_index n i test = Ret b /\ (b = false <-> forall j, i <= j < i + Z.of_nat n -> Q j).
Proof.
  intros Ht. destruct (any_index_spec (fun j => test j = Ret true) n i test) as (b & Hb & Hiff).
  { intros j Hj. destruct (Ht j Hj) as (b & -> & _). exists b. split; [done|]. split; [by intros ->|congruence]. }
  exists b. split; [done|]. destruct b; split; try done.
  - intros Hall. destruct (proj1 Hiff eq_refl) as (j & Hj & Hrun).
    destruct (Ht j Hj) as (b & Hb' & HQ). rewrite Hrun in Hb'. injection Hb' as <-. by apply HQ, Hall.
  - intros _ j Hj. destruct (Ht j Hj) as ([] & Hrun & HQ); [|by apply HQ].
    assert (false = true) as [=]. apply Hiff. eauto.
Qed.

Section phases.
Context (program : USILProgram) (instructions : list USILInstruction) (phases : list USILHullPhase).
Hypothesis Hp : hull_program_ok program instructions phases.

Lemma hull_operand_spec {E} scope instruction k o :
  znth (ui_operands instruction) k = Some o ->
  exists b, hull_operand_undeclared (E:=E) scope instruction k = Ret b /\
    (b = false <-> operand_declared (hp_temp_count scope) o).
Proof.
  intros Ho. unfold hull_operand_undeclared, operand_at. rewrite (aget_ok _ _ _ Ho). mstep.
  eexists. split; [done|]. rewrite bool_decide_eq_false.
  assert (Hs := fun r => hull_temp_operand_spec o (hp_temp_count scope) DXBC_MAX_NESTED_OPERAND_TOKENS r ltac:(done)).
  split.
  - intros Hn. destruct (hull_temp_operand_is_declared _ _ _) as [r|] eqn:Hr; [|done].
    destruct (proj1 (Hs r) eq_refl) as (? & ? & _). by split.
  - intros [HF Hl] Hn. rewrite Hn in Hs. assert (H := proj2 (Hs _) (conj HF (conj Hl eq_refl))). done.
Qed.

Lemma hull_instruction_spec {E} scope i instruction :
  znth instructions i = Some instruction ->
  exists b, hull_instruction_bad (E:=E) program scope i = Ret b /\
    (b = false <-> instruction_in_phase scope instruction).
Proof.
  intros Hi. unfold hull_instruction_bad, instruction_at. rewrite (ho_instructions _ _ _ Hp). cbn [ptr]. mstep.
  rewrite (aget_ok _ _ _ Hi). mstep. unfold instruction_in_phase.
  destruct (_ || _) eqn:Hb.
  { exists true. split; [done|]. split; [done|]. intros (H1 & H2 & _).
    repeat (apply orb_true_iff in Hb as [Hb|Hb]); bools; lia. }
  bools. pose proof (ho_instruction _ _ _ Hp) as HF. rewrite list.Forall_forall in HF.
  assert (Hok : instruction_ok instruction) by (apply HF, znth_elem_of; eauto).
  destruct (any_index_none (fun k => forall o, znth (ui_operands instruction) k = Some o ->
    operand_declared (hp_temp_count scope) o) (Z.to_nat (ui_operand_count instruction)) 0
    (hull_operand_undeclared (E:=E) scope instruction)) as (b & Hrun & Hbad).
  - intros k Hk. destruct (znth_is_Some (ui_operands instruction) k) as [o Ho];
      [rewrite (io_operands _ Hok); lia|].
    destruct (hull_operand_spec (E:=E) scope instruction k o Ho) as (b & -> & Hb).
    exists b. split; [done|]. rewrite Hb, Ho. split; [by intros ? ? [= <-]|by intros Hall; apply Hall].
  - exists b. split; [done|]. rewrite Hbad. split.
    + intros Hall. split; [lia|]. split; [lia|]. intros k o Hk. apply Hall. lia.
    + intros (_ & _ & Hall) k Hk o. apply Hall. lia.
Qed.

(** The loop over the phases: where it stops, and with which maximum. *)
Lemma hull_walk k n maximum next :
  up_instruction_count program <= up_instruction_alloc program -> 0 <= next -> 0 <= k ->
  k + Z.of_nat n <= zlength phases ->
  outcome (for_loop n k (hull_phase_step program phases) (maximum, next))
    (fun '(maximum', next') =>
       phases_tile program instructions next (take n (drop (Z.to_nat k) phases)) next' /\
       maximum' = foldl Z.max maximum (hp_temp_count <$> take n (drop (Z.to_nat k) phases)))
    (fun _ => forall next', ~ phases_tile program instructions next (take n (drop (Z.to_nat k) phases)) next').
Proof.
  intros Ha. revert k maximum next. induction n as [|n IH]; intros k maximum next H0 Hk Hn.
  { split; [constructor|done]. }
  destruct (znth_is_Some phases k) as [scope Hs]; [lia|].
  assert (Hdrop : drop (Z.to_nat k) phases = scope :: drop (Z.to_nat (k + 1)) phases).
  { rewrite znth_nonneg in Hs by done. rewrite (drop_S _ _ _ Hs). do 2 f_equal. lia. }
  rewrite Hdrop. cbn [take fmap list_fmap foldl for_loop]. apply outcome_bind.
  unfold hull_phase_step. rewrite (aget_ok _ _ _ Hs). mstep.
  destruct (hull_phase_ok program scope next) eqn:Hok; cbn [negb].
  2:{ intros next' Ht. inversion Ht as [|? ? ? ? Hat]; subst. apply hull_phase_ok_iff in Hat. congruence. }
  apply hull_phase_ok_iff in Hok. pose proof (pa_end _ _ _ Hok) as [Hlt Hle].
  destruct (any_index_none (fun i => forall instruction, znth instructions i = Some instruction ->
      instruction_in_phase scope instruction) (Z.to_nat (hp_end_instruction_index scope - next)) next
      (hull_instruction_bad (E:=unit) program scope)) as (b & -> & Hb).
  { intros i Hi. destruct (znth_is_Some instructions i) as [ins Hins];
      [rewrite (ho_instruction_length _ _ _ Hp); lia|].
    destruct (hull_instruction_spec (E:=unit) scope i ins Hins) as (b & -> & Hb).
    exists b. split; [done|]. rewrite Hb, Hins. split; [by intros ? ? [= <-]|by intros Hall; apply Hall]. }
  mstep. destruct b.
  { intros next' Ht. inversion Ht as [|? ? ? ? _ Hall]; subst. assert (true = false) as [=]. apply Hb.
    intros i Hi. intros ins. apply Hall. lia. }
  assert (Hall : forall i ins, next <= i < hp_end_instruction_index scope -> znth instructions i = Some ins ->
    instruction_in_phase scope ins) by (intros i ins Hi; apply Hb; [done|lia]).
  cbn [outcome]. replace (if maximum <? hp_temp_count scope then hp_temp_count scope else maximum)
    with (Z.max maximum (hp_temp_count scope)) by (zcase; lia).
  eapply outcome_mono; [apply (IH (k + 1)); lia| |].
  - intros [maximum' next'] [Ht Hm]. split; [by constructor|done].
  - intros [] Hno next' Ht. inversion Ht; subst. by eapply Hno.
Qed.
End phases.

(** A hull program with instructions, phases and at most 4096 temporaries. *)
Record hull_program (program : USILProgram) : Prop := {
  hg_type : up_program_type program = DXBC_PROGRAM_TYPE_HULL;
  hg_contract : up_has_stage_contract program = true /\ tc_valid (up_tessellation program) = true;
  hg_instructions : 0 < up_instruction_count program <= up_instruction_alloc program;
  hg_temps : 0 <= up_temp_count program <= 4096;
  hg_phases : 0 < tc_phase_count (up_tessellation program) <= up_instruction_count program /\
    tc_phase_count (up_tessellation program) <= tc_phase_capacity (up_tessellation program);
}.

(** C23: the check of a hull program reads inside its arrays, ends, and accepts
    exactly the programs whose phases cover the instructions from the first to
    the last without gap or overlap, where every temporary an instruction names
    (in an operand, or at any depth of its relative indices, with at most 126
    operands in all) is below the count its own phase declares, and the
    program's count is the largest of those.  Each phase begins where the last
    one ended, after its marker, and declares its temporaries within itself. *)
Theorem usil_hull_phase_temp_registers_are_valid_correct program instructions phases :
  hull_program_ok program instructions phases ->
  exists valid, usil_hull_phase_temp_registers_are_valid (E:=unit) program = Ret valid /\
    (valid = true <->
       hull_program program /\
       let declared := take (Z.to_nat (tc_phase_count (up_tessellation program))) phases in
       phases_tile program instructions 0 declared (up_instruction_count program) /\
       foldl Z.max 0 (hp_temp_count <$> declared) = up_temp_count program).
Proof.
  intros Hp. unfold usil_hull_phase_temp_registers_are_valid.
  rewrite (ho_instructions _ _ _ Hp), (ho_phases _ _ _ Hp). pose proof (ho_count _ _ _ Hp) as Hmax.
  unfold INT_MAX in Hmax. pose proof (ho_phase_count _ _ _ Hp). pose proof (ho_phase_length _ _ _ Hp).
  destruct (_ || _) eqn:Hg.
  { exists false. split; [done|]. split; [done|]. intros [[? [? ?] ? ? ?] _].
    repeat (apply orb_true_iff in Hg as [Hg|Hg]); bools; try congruence; try lia.
    rewrite u64_small in Hg by lia. lia. }
  bools. assert (Hh : hull_program program).
  { rewrite u64_small in * by lia. constructor; try done; lia. }
  pose proof (hull_walk program instructions phases Hp 0 (Z.to_nat (tc_phase_count (up_tessellation program))) 0 0) as Hw.
  destruct (for_loop _ _ _ _) as [[maximum next]|[]|]; cbn [attempt].
  - destruct Hw as [Ht Hm]; [lia..|]. mstep. eexists. split; [done|]. rewrite u32_small by lia.
    cbn [Z.to_nat drop] in *. split.
    + intros Hv. bools. subst. done.
    + intros (_ & Ht' & Hm'). pose proof (phases_tile_end _ _ _ _ _ _ Ht Ht') as ->.
      apply andb_true_iff. split; apply Z.eqb_eq; [done|]. by rewrite Hm.
  - exists false. split; [done|]. split; [done|]. intros (_ & Ht & _). by apply Hw in Ht; [|lia..].
  - by destruct Hw; lia.
Qed.

(** One phase of one instruction, which moves a temporary. *)
Definition sample_hull_move : USILInstruction :=
  let i := plain_instruction USIL_OP_MOV [zero_operand; zero_operand] in {|
  ui_opcode := ui_opcode i; ui_saturate := false; ui_precise_mask := 0;
  ui_condition_test := ui_condition_test i; ui_resource_dimension := ui_resource_dimension i;
  ui_has_resource_dimension := false; ui_resource_stride := 0; ui_has_texel_offset := false;
  ui_has_resource_return_types := false; ui_resource_return_types := ui_resource_return_types i;
  ui_source_instruction_index := 1; ui_geometry_effect := ui_geometry_effect i;
  ui_geometry_stream_id := 0; ui_geometry_stream_explicit := false; ui_sync_flags := 0;
  ui_operands := ui_operands i; ui_operand_count := ui_operand_count i |}.

Definition sample_hull_phase : USILHullPhase := {|
  hp_marker_source_instruction_index := 0; hp_first_source_instruction_index := 1;
  hp_end_source_instruction_index := 2; hp_first_instruction_index := 0; hp_end_instruction_index := 1;
  hp_has_temp_count := true; hp_temp_count := 1; hp_temp_count_source_instruction_index := 1 |}.

Definition sample_hull : USILProgram := {|
  up_signature_declarations := None; up_signature_declaration_count := 0;
  up_signature_declaration_alloc := 0; up_temp_count := 1;
  up_cbuffers := None; up_cbuffer_count := 0; up_cbuffer_alloc := 0;
  up_textures := None; up_texture_count := 0; up_texture_alloc := 0;
  up_uavs := None; up_uav_count := 0; up_uav_alloc := 0;
  up_instructions := Some [sample_hull_move]; up_instruction_count := 1;
  up_instruction_alloc := 1; up_has_stage_contract := true;
  up_program_type := DXBC_PROGRAM_TYPE_HULL; up_shader_model_major := 5; up_shader_model_minor := 0;
  up_tessellation := {| tc_valid := true; tc_phase_count := 1; tc_phase_capacity := 1;
                        tc_phases := Some [sample_hull_phase] |};
  up_compute := {| cc_valid := false; cc_shared_memory := None; cc_shared_memory_count := 0;
                   cc_shared_memory_capacity := 0 |} |}.

Lemma sample_hull_ok : hull_program_ok sample_hull [sample_hull_move] [sample_hull_phase].
Proof.
  constructor; try done. constructor; [|constructor]. constructor; try done.
  repeat (apply list.Forall_cons; split; [by repeat constructor|]). by repeat constructor.
Qed.

Lemma usil_hull_phase_temp_registers_are_valid_correct_witness :
  usil_hull_phase_temp_registers_are_valid (E:=unit) sample_hull = Ret true /\
  exists valid, usil_hull_phase_temp_registers_are_valid (E:=unit) sample_hull = Ret valid /\
    (valid = true <->
       hull_program sample_hull /\
       let declared := take (Z.to_nat (tc_phase_count (up_tessellation sample_hull))) [sample_hull_phase] in
       phases_tile sample_hull [sample_hull_move] 0 declared (up_instruction_count sample_hull) /\
       foldl Z.max 0 (hp_temp_count <$> declared) = up_temp_count sample_hull).
Proof.
  split; [vm_compute; reflexivity|].
  exact (usil_hull_phase_temp_registers_are_valid_correct sample_hull _ _ sample_hull_ok).
Defined.
