(* ===== verification/Ssa.v ===== *)
(** SSA form over the control-flow graph: [src/translation/hlsl_ssa.c], and
    [hlsl_lift_operand_is_plain] of [hlsl_expression_lift.c].

    Every array is its own block of memory with one owner, so [free] is the
    field of the context becoming null; [malloc] leaves cells that hold nothing
    until they are written.  [active_version] is one block of [register_count]
    rows of four. *)

From stdpp Require Import gmultiset.
From S2P Require Import Prelude CArray UnityCommon ShaderStage StageContract Heap Operand Instruction Usil SsaGraph Cfg UsilValidation.

#[local] Set Warnings "-register-all".

(** * Offsets and definitions *)

Definition operand_offset (instruction operand component : Z) : Z :=
  u64 ((instruction * DXBC_MAX_OPERANDS + operand) * 4 + component).

(** One operand of the search; [Fail b] is [return b]. *)
Definition defines_step (program : USILProgram) (inst : USILInstruction) (reg comp : Z)
    (index : Z) (_ : unit) : res bool unit :=
  use ← attempt (usil_instruction_operand_use program inst index);
  match use with
  | None => Fail false
  | Some use =>
      dest ← operand_at inst index;
      if bool_decide (ou_use use = USIL_OPERAND_USE_DESTINATION) && (op_type dest =? OPERAND_TYPE_TEMP) &&
         (op_register_index dest =? reg) && has_lane (usil_operand_destination_lane_mask dest) comp
      then Fail true else Ret tt
  end.

Definition instruction_defines_reg_comp {E} (program : USILProgram) (inst : USILInstruction) (reg comp : Z)
    : res E bool :=
  match for_loop (Z.to_nat (ui_operand_count inst)) 0 (defines_step program inst reg comp) tt with
  | Ret _ => Ret false
  | Fail b => Ret b
  | Undef => Undef
  end.

Definition hlsl_lift_operand_is_plain (value : DXBCOperand) : bool :=
  (op_min_precision value =? 0) && negb (op_has_abs value) && negb (op_has_neg value) &&
  bool_decide (op_rel_op0 value = None) && bool_decide (op_rel_op1 value = None) &&
  bool_decide (op_rel_op2 value = None) && bool_decide (op_extended_tokens value = []).

(** * The undo log *)

Record RenamingUndoEntry := { un_reg : Z; un_comp : Z; un_old_version : Z }.

(** The entries, the last one first; [undo_count] is their number. *)
Record undo_log := { ul_entries : list RenamingUndoEntry; ul_capacity : Z }.

(** [sizeof] of the structures. *)
Definition PHI_NODE_SIZE : Z := 32.
Definition BLOCK_PHIS_SIZE : Z := 16.
Definition UNDO_ENTRY_SIZE : Z := 12.
Definition RENAME_FRAME_SIZE : Z := 16.

(** [active_version[reg][comp]] *)
Definition version_index (reg comp : Z) : Z := reg * 4 + comp.

(** * Renaming *)

(** The arrays the traversal fills, and its own state. *)
Record rename_state := {
  rn_phis : list HLSLBlockPhis;
  rn_vars : list Z;
  rn_relative : list Z;
  rn_defs : cells;
  rn_active : list Z;
  rn_next : Z;
  rn_undo : undo_log;
}.

#[export] Instance eta_rename : Eta rename_state := fun r =>
  {| rn_phis := rn_phis r; rn_vars := rn_vars r; rn_relative := rn_relative r; rn_defs := rn_defs r;
     rn_active := rn_active r; rn_next := rn_next r; rn_undo := rn_undo r |}.
#[export] Instance set_rn_phis : Setter rn_phis := ltac:(derive_setter).
#[export] Instance set_rn_vars : Setter rn_vars := ltac:(derive_setter).
#[export] Instance set_rn_relative : Setter rn_relative := ltac:(derive_setter).
#[export] Instance set_rn_defs : Setter rn_defs := ltac:(derive_setter).
#[export] Instance set_rn_active : Setter rn_active := ltac:(derive_setter).
#[export] Instance set_rn_next : Setter rn_next := ltac:(derive_setter).
#[export] Instance set_rn_undo : Setter rn_undo := ltac:(derive_setter).

(** The register component a root of a relative index reads, if it is a plain
    scalar temporary. *)
Definition relative_root {E} (program : USILProgram) (root : option DXBCOperand) : res E (option (Z * Z)) :=
  match root with
  | None => Ret None
  | Some root =>
      immediate ← aget (op_index_has_immediate root) 0;
      representation ← aget (op_index_representations root) 0;
      exceeds ← aget (op_index_value_exceeds_int root) 0;
      value ← aget (op_index_values root) 0;
      if negb (op_type root =? OPERAND_TYPE_TEMP) || negb (op_register_index_dim root =? 1) ||
         negb (hlsl_lift_operand_is_plain root) || negb immediate || negb (representation =? 0) ||
         exceeds || (op_register_index root <? 0) || (up_temp_count program <=? op_register_index root) ||
         negb (value =? op_register_index root) || negb (op_swizzle_mode root =? 2)
      then Ret None else
      component ← usil_operand_source_component root 0;
      Ret (if 0 <=? component then Some (op_register_index root, component) else None)
  end.

(** [roots[dimension]] *)
Definition operand_root (owner : DXBCOperand) (dimension : Z) : option DXBCOperand :=
  if dimension =? 0 then op_rel_op0 owner else if dimension =? 1 then op_rel_op1 owner else op_rel_op2 owner.

Definition rename_relative (program : USILProgram) (inst_idx : Z) (inst : USILInstruction)
    (operand dimension : Z) (st : rename_state) : res unit rename_state :=
  owner ← operand_at inst operand;
  root ← relative_root program (operand_root owner dimension);
  match root with
  | None => Ret st
  | Some (reg, component) =>
      version ← aget (rn_active st) (version_index reg component);
      vars ← aput (rn_relative st) (operand_offset inst_idx operand dimension) version;
      Ret (st <| rn_relative := vars |>)
  end.

(** One lane of a source. *)
Definition rename_use_lane (inst_idx op_idx : Z) (operand : DXBCOperand) (mask reg : Z) (comp : Z)
    (st : rename_state) : res unit rename_state :=
  if negb (has_lane mask comp) then Ret st else
  source ← usil_operand_source_component operand comp;
  if source <? 0 then Fail tt else
  version ← aget (rn_active st) (version_index reg source);
  vars ← aput (rn_vars st) (operand_offset inst_idx op_idx comp) version;
  Ret (st <| rn_vars := vars |>).

Definition rename_use (program : USILProgram) (inst_idx : Z) (inst : USILInstruction) (op_idx : Z)
    (st : rename_state) : res unit rename_state :=
  use ← usil_instruction_operand_use program inst op_idx;
  operand ← operand_at inst op_idx;
  if negb (op_type operand =? OPERAND_TYPE_TEMP) ||
     negb (bool_decide (ou_use use = USIL_OPERAND_USE_SOURCE)) then Ret st else
  let reg := op_register_index operand in
  if (reg <? 0) || (up_temp_count program <=? reg) then Fail tt else
  for_loop 4 0 (rename_use_lane inst_idx op_idx operand (ou_source_lane_mask use) reg) st.

Section ssa.
Context `{U : UnityCommon} `{L : LibcMalloc}.

Definition add_phi_node (bp : HLSLBlockPhis) (reg comp predecessor_count : Z) : res unit HLSLBlockPhis :=
  let n := zlength (bp_phis bp) in
  if (n =? INT_MAX) || (predecessor_count <? 0) ||
     dxbc_size_multiply_overflows (u64 (n + 1)) PHI_NODE_SIZE ||
     dxbc_size_multiply_overflows predecessor_count 4 then Fail tt else
  if negb (libc_malloc (u64 (u64 (n + 1) * PHI_NODE_SIZE))) then Fail tt else
  if (0 <? predecessor_count) && negb (libc_malloc (u64 (predecessor_count * 4))) then Fail tt else
  Ret {| bp_phis := bp_phis bp ++
    [{| phi_register_index := reg; phi_component := comp; phi_ssa_var := -1;
        phi_incoming_vars := filled predecessor_count (-1);
        phi_incoming_blocks := filled predecessor_count (-1) |}] |}.

Definition append_undo_entry (log : undo_log) (reg comp old_version : Z) : res unit undo_log :=
  let count := zlength (ul_entries log) in
  let entry := {| un_reg := reg; un_comp := comp; un_old_version := old_version |} in
  if (ul_capacity log <? count) || (count =? INT_MAX) then Fail tt else
  if count =? ul_capacity log then
    let new_capacity := if ul_capacity log =? 0 then 64 else ul_capacity log in
    let new_capacity := if INT_MAX / 2 <? new_capacity then INT_MAX else new_capacity * 2 in
    if (new_capacity <=? count) || dxbc_size_multiply_overflows new_capacity UNDO_ENTRY_SIZE then Fail tt else
    if negb (libc_malloc (u64 (new_capacity * UNDO_ENTRY_SIZE))) then Fail tt else
    Ret {| ul_entries := entry :: ul_entries log; ul_capacity := new_capacity |}
  else Ret {| ul_entries := entry :: ul_entries log; ul_capacity := ul_capacity log |}.

(** A new variable with its definition, which becomes the active version of a
    register component. *)
Definition new_version (definition reg comp : Z) (st : rename_state) : res unit (Z * rename_state) :=
  let new_var := rn_next st in
  defs ← cput (rn_defs st) new_var definition;
  old ← aget (rn_active st) (version_index reg comp);
  undo ← append_undo_entry (rn_undo st) reg comp old;
  active ← aput (rn_active st) (version_index reg comp) new_var;
  Ret (new_var, st <| rn_defs := defs |> <| rn_active := active |> <| rn_next := new_var + 1 |>
                   <| rn_undo := undo |>).

(** [ssa->block_phis[block].phis[i]], and an assignment to it. *)
Definition phi_at {E} (phis : list HLSLBlockPhis) (block i : Z) : res E HLSLPhiNode :=
  bp ← aget phis block; aget (bp_phis bp) i.
Definition put_phi {E} (phis : list HLSLBlockPhis) (block i : Z) (phi : HLSLPhiNode)
    : res E (list HLSLBlockPhis) :=
  bp ← aget phis block; nodes ← aput (bp_phis bp) i phi; aput phis block {| bp_phis := nodes |}.

Definition rename_phi (block i : Z) (st : rename_state) : res unit rename_state :=
  phi ← phi_at (rn_phis st) block i;
  '(new_var, st) ← new_version HLSL_DEFINITION_AMBIGUOUS (phi_register_index phi) (phi_component phi) st;
  phis ← put_phi (rn_phis st) block i (phi <| phi_ssa_var := new_var |>);
  Ret (st <| rn_phis := phis |>).

(** One lane of a destination. *)
Definition rename_definition_lane (inst_idx op_idx mask reg comp : Z) (st : rename_state)
    : res unit rename_state :=
  if negb (has_lane mask comp) then Ret st else
  '(new_var, st) ← new_version inst_idx reg comp st;
  vars ← aput (rn_vars st) (operand_offset inst_idx op_idx comp) new_var;
  Ret (st <| rn_vars := vars |>).

Definition rename_definition (program : USILProgram) (inst_idx : Z) (inst : USILInstruction) (op_idx : Z)
    (st : rename_state) : res unit rename_state :=
  use ← usil_instruction_operand_use program inst op_idx;
  operand ← operand_at inst op_idx;
  if negb (op_type operand =? OPERAND_TYPE_TEMP) ||
     negb (bool_decide (ou_use use = USIL_OPERAND_USE_DESTINATION)) then Ret st else
  let reg := op_register_index operand in
  if (reg <? 0) || (up_temp_count program <=? reg) then Fail tt else
  for_loop 4 0 (rename_definition_lane inst_idx op_idx (usil_operand_destination_lane_mask operand) reg) st.

Definition rename_instruction (program : USILProgram) (inst_idx : Z) (st : rename_state)
    : res unit rename_state :=
  inst ← instruction_at program inst_idx;
  let n := Z.to_nat (ui_operand_count inst) in
  st ← for_loop n 0 (fun operand => for_loop 3 0 (rename_relative program inst_idx inst operand)) st;
  st ← for_loop n 0 (rename_use program inst_idx inst) st;
  for_loop n 0 (rename_definition program inst_idx inst) st.

(** The first slot of a predecessor from [k] on, or -1. *)
Fixpoint predecessor_slot {E} (n : nat) (k : Z) (cfg : HLSLControlFlowGraph) (succ : HLSLBasicBlock)
    (block : Z) : res E Z :=
  match n with
  | O => Ret (-1)
  | S n =>
      p ← predecessor_at cfg succ k;
      if p =? block then Ret k else predecessor_slot n (k + 1) cfg succ block
  end.

Definition fill_phi (block succ slot i : Z) (st : rename_state) : res unit rename_state :=
  phi ← phi_at (rn_phis st) succ i;
  version ← aget (rn_active st) (version_index (phi_register_index phi) (phi_component phi));
  vars ← aput (phi_incoming_vars phi) slot version;
  blocks ← aput (phi_incoming_blocks phi) slot block;
  phis ← put_phi (rn_phis st) succ i (phi <| phi_incoming_vars := vars |> <| phi_incoming_blocks := blocks |>);
  Ret (st <| rn_phis := phis |>).

Definition fill_successor (cfg : HLSLControlFlowGraph) (block : Z) (current : HLSLBasicBlock) (s : Z)
    (st : rename_state) : res unit rename_state :=
  succ ← successor_at cfg current s;
  next ← block_at cfg succ;
  slot ← predecessor_slot (Z.to_nat (bb_predecessor_count next)) 0 cfg next block;
  if slot =? -1 then Ret st else
  bp ← aget (rn_phis st) succ;
  for_loop (Z.to_nat (zlength (bp_phis bp))) 0 (fill_phi block succ slot) st.

Definition rename_ssa_block (program : USILProgram) (cfg : HLSLControlFlowGraph) (block : Z)
    (st : rename_state) : res unit rename_state :=
  bp ← aget (rn_phis st) block;
  st ← for_loop (Z.to_nat (zlength (bp_phis bp))) 0 (rename_phi block) st;
  current ← block_at cfg block;
  let start := bb_first_instruction current in
  st ← for_loop (Z.to_nat (bb_last_instruction current - start + 1)) start (rename_instruction program) st;
  for_loop (Z.to_nat (bb_successor_count current)) 0 (fill_successor cfg block current) st.

(** * The traversal of the dominator tree *)

Record SSARenameFrame := {
  rf_block : Z;
  rf_next_child : Z;
  rf_undo_start : Z;
  rf_entered : bool;
}.

(** The frames, the top one first, with the state of the renaming. *)
Abbreviation traversal := (list SSARenameFrame * rename_state)%type.

(** [while (undo_count > undo_start)] of the way back. *)
Fixpoint unwind {E} (entries : list RenamingUndoEntry) (undo_start : Z) (active : list Z)
    : res E (list RenamingUndoEntry * list Z) :=
  if zlength entries <=? undo_start then Ret (entries, active) else
  match entries with
  | [] => Undef
  | entry :: entries =>
      active ← aput active (version_index (un_reg entry) (un_comp entry)) (un_old_version entry);
      unwind entries undo_start active
  end.

(** A frame that is met for the first time. *)
Definition enter_frame (program : USILProgram) (cfg : HLSLControlFlowGraph) (frame : SSARenameFrame)
    (st : rename_state) : res unit (SSARenameFrame * rename_state) :=
  if rf_entered frame then Ret (frame, st) else
  st' ← rename_ssa_block program cfg (rf_block frame) st;
  Ret ({| rf_block := rf_block frame; rf_next_child := rf_next_child frame;
          rf_undo_start := zlength (ul_entries (rn_undo st)); rf_entered := true |}, st').

Definition rename_step (program : USILProgram) (cfg : HLSLControlFlowGraph)
    (dom_children : list (option cells)) (dom_child_counts : list Z) (t : traversal)
    : res unit traversal :=
  let '(stack, st) := t in
  match stack with
  | [] => Undef
  | frame :: rest =>
      '(frame, st) ← enter_frame program cfg frame st;
      children ← aget dom_child_counts (rf_block frame);
      if rf_next_child frame <? children then
        row ← aget dom_children (rf_block frame); row ← ptr row;
        child ← cget row (rf_next_child frame);
        let frame := {| rf_block := rf_block frame; rf_next_child := rf_next_child frame + 1;
                        rf_undo_start := rf_undo_start frame; rf_entered := rf_entered frame |} in
        if cfg_block_count cfg <=? zlength (frame :: rest) then Undef else
        Ret ({| rf_block := child; rf_next_child := 0; rf_undo_start := 0; rf_entered := false |}
               :: frame :: rest, st)
      else
        '(entries, active) ← unwind (ul_entries (rn_undo st)) (rf_undo_start frame) (rn_active st);
        Ret (rest, st <| rn_active := active |>
                      <| rn_undo := {| ul_entries := entries; ul_capacity := ul_capacity (rn_undo st) |} |>)
  end.

Definition rename_running (t : traversal) : bool := match fst t with [] => false | _ => true end.

(** Each block is pushed and popped once. *)
Definition rename_fuel (cfg : HLSLControlFlowGraph) : nat := Z.to_nat (2 * cfg_block_count cfg).

Definition rename_ssa (program : USILProgram) (cfg : HLSLControlFlowGraph)
    (dom_children : list (option cells)) (dom_child_counts : list Z) (st : rename_state)
    : res unit rename_state :=
  if dxbc_size_multiply_overflows (cfg_block_count cfg) RENAME_FRAME_SIZE then Fail tt else
  if negb (libc_malloc (cfg_block_count cfg * RENAME_FRAME_SIZE)) then Fail tt else
  '(_, st) ← while (rename_fuel cfg) rename_running (rename_step program cfg dom_children dom_child_counts)
    ([{| rf_block := 0; rf_next_child := 0; rf_undo_start := 0; rf_entered := false |}], st);
  Ret st.

(** * Placement of the phis *)

Record place_state := {
  ps_phis : list HLSLBlockPhis;
  ps_has_phi : list bool;
  ps_visited : list bool;
  ps_worklist : cells;
  ps_work_count : Z;
}.

(** Whether a block defines a register component. *)
Definition block_defines (program : USILProgram) (cfg : HLSLControlFlowGraph) (reg comp b : Z)
    : res unit bool :=
  block ← block_at cfg b;
  let start := bb_first_instruction block in
  any_index (Z.to_nat (bb_last_instruction block - start + 1)) start (fun inst_idx =>
    inst ← instruction_at program inst_idx; instruction_defines_reg_comp program inst reg comp).

Definition seed_block (program : USILProgram) (cfg : HLSLControlFlowGraph) (reg comp b : Z)
    (st : place_state) : res unit place_state :=
  defined ← block_defines program cfg reg comp b;
  if negb defined then Ret st else
  worklist ← cput (ps_worklist st) (ps_work_count st) b;
  visited ← aput (ps_visited st) b true;
  Ret {| ps_phis := ps_phis st; ps_has_phi := ps_has_phi st; ps_visited := visited;
         ps_worklist := worklist; ps_work_count := ps_work_count st + 1 |}.

(** One block of the frontier of [n]. *)
Definition place_phi (cfg : HLSLControlFlowGraph) (reg comp : Z) (row : option (list Z)) (d : Z)
    (st : place_state) : res unit place_state :=
  xs ← ptr row; y ← aget xs d;
  has ← aget (ps_has_phi st) y;
  if has : bool then Ret st else
  block ← block_at cfg y;
  bp ← aget (ps_phis st) y;
  bp ← add_phi_node bp reg comp (bb_predecessor_count block);
  phis ← aput (ps_phis st) y bp;
  has_phi ← aput (ps_has_phi st) y true;
  seen ← aget (ps_visited st) y;
  if seen : bool then
    Ret {| ps_phis := phis; ps_has_phi := has_phi; ps_visited := ps_visited st;
           ps_worklist := ps_worklist st; ps_work_count := ps_work_count st |}
  else
    visited ← aput (ps_visited st) y true;
    worklist ← cput (ps_worklist st) (ps_work_count st) y;
    Ret {| ps_phis := phis; ps_has_phi := has_phi; ps_visited := visited;
           ps_worklist := worklist; ps_work_count := ps_work_count st + 1 |}.

(** One block of the worklist, at [head]. *)
Definition place_step (cfg : HLSLControlFlowGraph) (reg comp : Z) (st : Z * place_state)
    : res unit (Z * place_state) :=
  let '(head, st) := st in
  n ← cget (ps_worklist st) head;
  counts ← ptr (cfg_df_count cfg); df_size ← aget counts n;
  rows ← ptr (cfg_df cfg); row ← aget rows n;
  st ← for_loop (Z.to_nat df_size) 0 (place_phi cfg reg comp row) st;
  Ret (head + 1, st).

(** The phis of one register component; every block is met once. *)
Definition place_component (program : USILProgram) (cfg : HLSLControlFlowGraph) (reg comp : Z)
    (worklist_phis : cells * list HLSLBlockPhis) : res unit (cells * list HLSLBlockPhis) :=
  let '(worklist, phis) := worklist_phis in
  let n := cfg_block_count cfg in
  st ← for_loop (Z.to_nat n) 0 (seed_block program cfg reg comp)
         {| ps_phis := phis; ps_has_phi := filled n false; ps_visited := filled n false;
            ps_worklist := worklist; ps_work_count := 0 |};
  '(_, st) ← while (Z.to_nat n) (fun st => fst st <? ps_work_count (snd st))
               (place_step cfg reg comp) (0, st);
  Ret (ps_worklist st, ps_phis st).

Definition place_phis (program : USILProgram) (cfg : HLSLControlFlowGraph) (register_count : Z)
    (phis : list HLSLBlockPhis) : res unit (list HLSLBlockPhis) :=
  let n := cfg_block_count cfg in
  '(_, phis) ← for_loop (Z.to_nat register_count) 0
    (fun reg => for_loop 4 0 (fun comp => place_component program cfg reg comp))
    (uninitialised n, phis);
  Ret phis.

(** * The children of the dominator tree *)

Definition count_child {E} (idom : list Z) (i : Z) (counts : list Z) : res E (list Z) :=
  parent ← aget idom i;
  if (0 <=? parent) && negb (parent =? i) then aupd counts parent (fun n => n + 1) else Ret counts.

(** [dom_children[i]] of [malloc], and the count reset. *)
Definition allocate_row (i : Z) (st : list (option cells) * list Z)
    : res unit (list (option cells) * list Z) :=
  let '(rows, counts) := st in
  n ← aget counts i;
  if (0 <? n) && negb (libc_malloc (u64 (n * 4))) then Fail tt else
  rows ← aput rows i (if 0 <? n then Some (uninitialised n) else None);
  counts ← aput counts i 0;
  Ret (rows, counts).

Definition add_child {E} (idom : list Z) (i : Z) (st : list (option cells) * list Z)
    : res E (list (option cells) * list Z) :=
  let '(rows, counts) := st in
  parent ← aget idom i;
  if (0 <=? parent) && negb (parent =? i) then
    n ← aget counts parent;
    row ← aget rows parent; row ← ptr row;
    row ← cput row n i;
    rows ← aput rows parent (Some row);
    counts ← aput counts parent (n + 1);
    Ret (rows, counts)
  else Ret (rows, counts).

Definition dominator_children (cfg : HLSLControlFlowGraph) : res unit (list (option cells) * list Z) :=
  let n := cfg_block_count cfg in
  if negb (libc_malloc (u64 (n * 4)) && libc_malloc (u64 (n * 8))) then Fail tt else
  idom ← ptr (cfg_idom cfg);
  counts ← for_loop (Z.to_nat n) 0 (count_child idom) (filled n 0);
  st ← for_loop (Z.to_nat n) 0 allocate_row (filled n None, counts);
  for_loop (Z.to_nat n) 0 (add_child idom) st.

(** * The whole *)

Definition free_hlsl_ssa_graph (ctx : HLSLEmitterContext) : HLSLEmitterContext :=
  ctx <| ctx_ssa := zero_ssa |>.

(** The sizes that must not overflow: [None] if one does, else the number of
    operand slots and of variables. *)
Definition ssa_sizes (count register_count block_count : Z) : option (Z * Z) :=
  let operand_slots := DXBC_MAX_OPERANDS * 4 in
  if dxbc_size_multiply_overflows register_count 4 then None else
  let phi_slots_per_block := u64 (register_count * 4) in
  if dxbc_size_multiply_overflows count operand_slots ||
     dxbc_size_multiply_overflows block_count phi_slots_per_block then None else
  let operand_count := u64 (count * operand_slots) in
  let phi_slots := u64 (block_count * phi_slots_per_block) in
  if dxbc_size_add_overflows operand_count phi_slots ||
     dxbc_size_multiply_overflows operand_count 4 ||
     dxbc_size_multiply_overflows (u64 (operand_count + phi_slots)) 4 ||
     dxbc_size_multiply_overflows block_count BLOCK_PHIS_SIZE ||
     dxbc_size_multiply_overflows block_count 8 ||
     dxbc_size_multiply_overflows block_count 4 then None else
  let max_ssa_vars := u64 (operand_count + phi_slots) in
  if INT_MAX <? max_ssa_vars then None else Some (operand_count, max_ssa_vars).

(** [active_version], if there are registers. *)
Definition active_memory (register_count : Z) : bool :=
  (register_count <=? 0) ||
  (negb (dxbc_size_multiply_overflows register_count 16) && libc_malloc (u64 (register_count * 16))).

(** The placement, the children and the traversal: [Fail] is every path that
    frees the graph. *)
Definition construct_ssa (program : USILProgram) (cfg : HLSLControlFlowGraph)
    (operand_count max_ssa_vars : Z) : res unit HLSLSSAGraph :=
  let count := up_instruction_count program in
  let register_count := up_temp_count program in
  let n := cfg_block_count cfg in
  if negb (libc_malloc (u64 (operand_count * 4)) && libc_malloc (u64 (max_ssa_vars * 4)) &&
           libc_malloc (u64 (n * BLOCK_PHIS_SIZE))) then Fail tt else
  if negb (libc_malloc (n * 1) && libc_malloc (u64 (n * 4))) then Fail tt else
  phis ← place_phis program cfg register_count (filled n {| bp_phis := [] |});
  '(dom_children, dom_child_counts) ← dominator_children cfg;
  if negb (active_memory register_count) then Fail tt else
  st ← rename_ssa program cfg dom_children dom_child_counts {|
    rn_phis := phis; rn_vars := filled operand_count (-1); rn_relative := filled operand_count (-1);
    rn_defs := uninitialised max_ssa_vars; rn_active := filled (register_count * 4) (-1); rn_next := 0;
    rn_undo := {| ul_entries := []; ul_capacity := 0 |} |};
  Ret {| ssa_block_phis := Some (rn_phis st); ssa_operand_ssa_vars := Some (rn_vars st);
         ssa_relative_operand_ssa_vars := Some (rn_relative st); ssa_var_defs := Some (rn_defs st);
         ssa_instruction_count := count; ssa_var_count := rn_next st |}.

Definition build_hlsl_ssa_graph {E} (ctx : option HLSLEmitterContext)
    : res E (bool * option HLSLEmitterContext) :=
  match ctx with
  | None => Ret (false, ctx)
  | Some c =>
  match ctx_program c with
  | None => Ret (false, ctx)
  | Some program =>
      let cfg := ctx_cfg c in
      if (up_instruction_count program <? 0) || (cfg_block_count cfg <? 0) || (up_temp_count program <? 0)
      then Ret (false, ctx) else
      if cfg_block_count cfg =? 0 then Ret (true, ctx) else
      match ssa_sizes (up_instruction_count program) (up_temp_count program) (cfg_block_count cfg) with
      | None => Ret (false, ctx)
      | Some (operand_count, max_ssa_vars) =>
          built ← attempt (construct_ssa program cfg operand_count max_ssa_vars);
          Ret match built with
              | Some ssa => (true, Some (c <| ctx_ssa := ssa |>))
              | None => (false, Some (free_hlsl_ssa_graph c))
              end
      end
  end end.
End ssa.

(** The definition behind a variable. *)
Definition variable_definition {E} (ssa : HLSLSSAGraph) (defs : cells) (variable : Z) : res E Z :=
  if (0 <=? variable) && (variable <? ssa_var_count ssa) then cget defs variable
  else Ret HLSL_DEFINITION_UNKNOWN.

Definition hlsl_relative_operand_definition {E} (ctx : option HLSLEmitterContext)
    (instruction operand dimension : Z) : res E Z :=
  match ctx with
  | None => Ret HLSL_DEFINITION_UNKNOWN
  | Some c =>
      let ssa := ctx_ssa c in
      if (instruction <? 0) || (ssa_instruction_count ssa <=? instruction) || (operand <? 0) ||
         (DXBC_MAX_OPERANDS <=? operand) || (dimension <? 0) || (3 <=? dimension)
      then Ret HLSL_DEFINITION_UNKNOWN else
      match ssa_relative_operand_ssa_vars ssa, ssa_var_defs ssa with
      | Some vars, Some defs =>
          variable ← aget vars (operand_offset instruction operand dimension);
          variable_definition ssa defs variable
      | _, _ => Ret HLSL_DEFINITION_UNKNOWN
      end
  end.
