(* ===== verification/SsaMeaning.v ===== *)
(** What reaches an instruction: for one register component, which instructions
    define it being [D] and which blocks have a phi for it being [P], the
    meaning of the component on entry to a block is a function of the dominator
    tree.  If [P] is closed under the dominance frontiers of the blocks that
    define the component, that meaning is true of every execution. *)

From stdpp Require Import relations.
From S2P Require Import Prelude CArray UnityCommon Heap Usil SsaGraph Cfg FlowGraph DominatorTree Dominance Frontier FlowStructure FlowMatch FlowStep CfgBlocks CfgBuild FlowTrace.

#[local] Set Warnings "-register-all".

(** No definition, one definition, or the phi of a block. *)
Inductive meaning := Undefined | Defined (definition : Z) | Merged (block : Z).

(** The last of some instructions that defines the component. *)
Definition latest (D : Z -> bool) (l : list Z) : option Z := list_basics.list.last (base.filter (fun i => D i = true) l).

Lemma latest_nil D : latest D [] = None.
Proof. done. Qed.

Lemma latest_snoc D l i : latest D (l ++ [i]) = if D i then Some i else latest D l.
Proof.
  unfold latest. rewrite list.filter_app. destruct (D i) eqn:Hi.
  - rewrite filter_cons_True, filter_nil by done. apply last_snoc.
  - rewrite filter_cons_False, filter_nil by congruence. by rewrite app_nil_r.
Qed.

Lemma latest_app D l l' : latest D (l ++ l') = match latest D l' with Some d => Some d | None => latest D l end.
Proof.
  induction l' as [|j l' IH] using rev_ind; [by rewrite app_nil_r|].
  rewrite app_assoc, !latest_snoc, IH. by destruct (D j).
Qed.

Lemma latest_in D l d : latest D l = Some d -> d ∈ l.
Proof.
  intros Hl. assert (Hin : d ∈ base.filter (fun i => D i = true) l).
  { unfold latest in Hl. apply list.last_Some in Hl as [l' ->]. apply elem_of_app. right. left. }
  by apply list_elem_of_filter in Hin as [_ ?].
Qed.

Lemma latest_none D l i : latest D l = None -> i ∈ l -> D i = false.
Proof.
  intros Hl Hi. apply not_true_iff_false. intros Hd. unfold latest in Hl. apply list.last_None in Hl.
  assert (Hin : i ∈ base.filter (fun i => D i = true) l) by by apply list_elem_of_filter.
  rewrite Hl in Hin. by apply not_elem_of_nil in Hin.
Qed.

(** What a meaning says where execution has run the instructions [l] and is at
    [next]; of a phi, that execution has been at the start of its block, and the
    component has not been defined since. *)
Definition holds_of (D : Z -> bool) (start : Z -> Z) (m : meaning) (l next : list Z) : Prop :=
  match m with
  | Undefined => latest D l = None
  | Defined d => latest D l = Some d
  | Merged b => exists l1 l2, l = l1 ++ l2 /\ latest D l2 = None /\ head (l2 ++ next) = Some (start b)
  end.

(** The meaning after [n] instructions from [a] on. *)
Fixpoint through (D : Z -> bool) (n : nat) (a : Z) (m : meaning) : meaning :=
  match n with O => m | S n => through D n (a + 1) (if D a then Defined a else m) end.

Lemma through_snoc D n a m :
  through D (S n) a m = if D (a + Z.of_nat n) then Defined (a + Z.of_nat n) else through D n a m.
Proof.
  revert a m. induction n as [|n IH]; intros a m.
  - cbn. by rewrite Z.add_0_r.
  - change (through D (S (S n)) a m) with (through D (S n) (a + 1) (if D a then Defined a else m)).
    rewrite IH. by replace (a + 1 + Z.of_nat n) with (a + Z.of_nat (S n)) by lia.
Qed.

Lemma through_none D n a m : (forall i, a <= i < a + Z.of_nat n -> D i = false) -> through D n a m = m.
Proof.
  revert a m. induction n as [|n IH]; intros a m Hno; [done|]. cbn [through].
  rewrite (Hno a) by lia. apply IH. intros i Hi. apply Hno. lia.
Qed.

Lemma holds_of_step D start m l i next :
  holds_of D start m l [i] -> holds_of D start (if D i then Defined i else m) (l ++ [i]) next.
Proof.
  intros Hm. unfold holds_of in *. destruct (D i) eqn:Hi; [by rewrite latest_snoc, Hi|].
  destruct m as [|d|b]; rewrite ?latest_snoc, ?Hi; [done..|].
  destruct Hm as (l1 & l2 & -> & Hl & Hh). exists l1, (l2 ++ [i]). rewrite latest_snoc, Hi, app_assoc.
  split_and!; [done|done|]. by destruct l2.
Qed.

Lemma holds_of_entry D start b l : holds_of D start (Merged b) l [start b].
Proof. exists l, []. by rewrite app_nil_r. Qed.

Section meaning.
Context (program : USILProgram) (first end_ : Z).

Abbreviation op := (op_of program).
Abbreviation count := (up_instruction_count program).

Hypothesis Hrange : 0 <= first < end_ /\ end_ <= count.

Context (starts : list Z) (G : flow_graph) (cfg : HLSLControlFlowGraph).
Context (Hst : structured op first end_) (HB : built_graph program first end_ cfg starts G).
Context (idom : list Z) (HD : dominator_tree G idom).
Context (D : Z -> bool) (P : Z -> bool).

Abbreviation start := (start_of starts).
Abbreviation last_of := (block_end end_ starts).
Abbreviation in_block_ := (in_block end_ starts).
Abbreviation up := (at_ idom).
Abbreviation chain := (anc up).

(** On entry to a block, before an instruction of it, and at its end. *)
Definition before_from (m : meaning) (b i : Z) : meaning := through D (Z.to_nat (i - start b)) (start b) m.
Definition leaving_from (m : meaning) (b : Z) : meaning := before_from m b (last_of b + 1).

Fixpoint entering_fuel (fuel : nat) (b : Z) : meaning :=
  if P b then Merged b else
  if b =? 0 then Undefined else
  match fuel with
  | O => Undefined
  | S fuel => leaving_from (entering_fuel fuel (up b)) (up b)
  end.

(** No block is deeper in the tree than the number of blocks. *)
Definition entering (b : Z) : meaning := entering_fuel (Z.to_nat (fg_count G)) b.
Definition before (b i : Z) : meaning := before_from (entering b) b i.
Definition leaving (b : Z) : meaning := leaving_from (entering b) b.

(** What a block inherits from its immediate dominator. *)
Definition inherited (b : Z) : meaning := if b =? 0 then Undefined else leaving (up b).

Lemma entering_eq b : reachable G b -> entering b = if P b then Merged b else inherited b.
Proof.
  destruct (dt_rank _ _ HD) as [rank Hrank].
  assert (Hfuel : forall n m b, reachable G b -> fg_count G - rank b <= Z.of_nat n ->
            fg_count G - rank b <= Z.of_nat m -> entering_fuel n b = entering_fuel m b).
  { induction n as [|n IH]; intros [|m] c Hc Hn Hm; destruct (Hrank c Hc) as [Hr Hup]; try lia.
    cbn [entering_fuel]. destruct (P c); [done|]. destruct (Z.eqb_spec c 0) as [|Hc0]; [done|].
    destruct (Hup Hc0) as [Hu Hlt]. rewrite (IH m); [done|done|lia|lia]. }
  intros Hb. destruct (Hrank b Hb) as [Hr Hup]. unfold entering at 1, inherited, leaving, entering.
  destruct (Z.to_nat (fg_count G)) as [|n] eqn:Hn; [lia|]. cbn [entering_fuel].
  destruct (P b); [done|]. destruct (Z.eqb_spec b 0) as [|Hb0]; [done|].
  destruct (Hup Hb0) as [Hu Hlt]. pose proof (proj1 (Hrank _ Hu)).
  rewrite (Hfuel n (S n)); [done|done|lia|lia].
Qed.

Lemma before_start b : before b (start b) = entering b.
Proof. unfold before, before_from. by rewrite Z.sub_diag. Qed.

Lemma before_next b i :
  start b <= i -> before b (i + 1) = if D i then Defined i else before b i.
Proof.
  intros Hi. unfold before, before_from. replace (Z.to_nat (i + 1 - start b)) with (S (Z.to_nat (i - start b))) by lia.
  rewrite through_snoc. by replace (start b + Z.of_nat (Z.to_nat (i - start b))) with i by lia.
Qed.

(** * Executions *)

Hypothesis Hclosed : forall n b,
  P n = true \/ (exists i, in_block_ i n /\ D i = true) -> in_frontier G n b -> P b = true.

Let Hs : split_at program first end_ starts := bg_split _ _ _ _ _ _ HB.
Let HG : flow_graph_ok G := bg_ok _ _ _ _ _ _ HB.

Lemma start_in b : node G b -> in_block_ (start b) b.
Proof.
  intros Hb. apply (start_in_block program first end_ starts Hs), start_of_ok.
  unfold node in Hb. rewrite <- (bg_count _ _ _ _ _ _ HB). done.
Qed.

Lemma in_block_start i b : in_block_ i b -> start b <= i <= last_of b.
Proof. intros (x & Hx & Hi). unfold start_of. by rewrite Hx. Qed.

(** A block outside of what a frontier forces passes on what it inherits. *)
Lemma clean_leaving n b :
  reachable G n -> n <> 0 -> in_frontier G n b -> P b = false -> leaving n = leaving (up n).
Proof.
  intros Hn Hn0 Hf Hb.
  assert (Hp : P n = false).
  { apply not_true_iff_false. intros Hp. rewrite (Hclosed n b) in Hb by auto. done. }
  unfold leaving at 1, leaving_from, before_from. rewrite entering_eq, Hp by done. unfold inherited.
  rewrite (proj2 (Z.eqb_neq _ _) Hn0). apply through_none. intros i Hi. apply not_true_iff_false. intros Hd.
  assert (Hin : in_block_ i n).
  { destruct (start_in n (reachable_node G HG n Hn)) as (x & Hx & _). exists x. split; [done|].
    unfold start_of in Hi. rewrite Hx in Hi. cbn in Hi. lia. }
  rewrite (Hclosed n b) in Hb; [done|eauto|done].
Qed.

(** Between a block without a phi and its immediate dominator nothing happens. *)
Lemma chain_leaving n b :
  reachable G b -> P b = false -> (forall k, chain k n -> ~ chain k (up b) -> in_frontier G k b) ->
  chain (up b) n -> reachable G n -> leaving n = leaving (up b).
Proof.
  intros Hb Hp Hf Hc. induction Hc as [|n Hn0 Hc IH]; [done|]. intros Hn.
  destruct (decide (n = up b)) as [->|Hne]; [done|].
  rewrite (clean_leaving n b); [|done|done| |done].
  - apply IH; [|by apply (idom_reachable G)]. intros k Hk. apply Hf. by apply anc_up.
  - apply Hf; [constructor|]. intros Ha. apply Hne.
    apply (chain_antisym G idom HD); [|done|by apply anc_up]. by apply (idom_reachable G).
Qed.

(** Whatever edge a block without a phi is entered by, it inherits the same. *)
Lemma edge_leaving p b :
  reachable G p -> edge G p b -> P b = false -> leaving p = inherited b.
Proof.
  intros Hp He Hnp. pose proof (reachable_step G p b Hp He) as Hb.
  assert (Hb0 : b <> 0) by (intros ->; by apply (fg_entry G HG p)).
  unfold inherited. rewrite (proj2 (Z.eqb_neq _ _) Hb0).
  apply chain_leaving; [done|done| |by apply (idom_on_pred G idom HD)|done].
  intros k Hk Hno. apply (in_frontier_chain G HG idom HD); [done|]. eauto.
Qed.

(** The meaning before an instruction is true of all that was executed. *)
Lemma before_holds l i :
  path op first end_ first l i -> exists l0 b, l = l0 ++ [i] /\ in_block_ i b /\ reachable G b /\
    holds_of D start (before b i) l0 [i].
Proof.
  induction 1 as [|l i t Hp (l0 & b & -> & Hib & Hb & Hm) Hstep Ht].
  - pose proof (split_nonempty program first end_ starts ltac:(lia) Hs) as H0.
    exists [], 0. split; [done|]. split; [by apply (start_in_block program first end_ starts Hs)|].
    split; [apply reachable_entry|].
    assert (Hs0 : start 0 = first) by (unfold start_of; by rewrite H0).
    rewrite <- Hs0. rewrite before_start, entering_eq by apply reachable_entry.
    destruct (P 0); [apply holds_of_entry|done].
  - pose proof (in_block_start i b Hib) as Hi.
    assert (Hm' : forall next, holds_of D start (before b (i + 1)) (l0 ++ [i]) next).
    { intros next. rewrite before_next by lia. by apply holds_of_step. }
    destruct (flow_step_target op first end_ Hst i t) as [Htr _];
      [|done|].
    { destruct Hib as (x & Hx & Hi'). pose proof (block_range program first end_ starts Hs b x Hx). lia. }
    destruct (in_block_exists program first end_ Hrange starts Hs t ltac:(lia)) as [c Htc].
    exists (l0 ++ [i]), c. split; [done|]. split; [done|].
    destruct (step_edge program first end_ starts G cfg Hst HB i t b c Hstep Ht Hib Htc)
      as [(He & -> & Hc)|[<- ->]]; [|by split].
    pose proof (reachable_step G b c Hb He) as Hrc. split; [done|].
    assert (Hsc : start c = t) by (unfold start_of; by rewrite Hc).
    rewrite <- Hsc. rewrite before_start, entering_eq by done.
    destruct (P c) eqn:Hpc; [apply holds_of_entry|]. rewrite <- (edge_leaving b c Hb He Hpc). apply Hm'.
Qed.

(** And on leaving its block, of all of it. *)
Lemma leaving_holds l b next :
  path op first end_ first l (last_of b) -> in_block_ (last_of b) b ->
  holds_of D start (leaving b) l next.
Proof.
  intros Hp Hb. destruct (before_holds l _ Hp) as (l0 & b' & -> & Hb' & _ & Hm).
  rewrite (in_block_unique program first end_ starts Hs _ _ _ Hb' Hb) in Hm.
  unfold leaving, leaving_from. pose proof (in_block_start _ _ Hb).
  change (before_from (entering b) b (last_of b + 1)) with (before b (last_of b + 1)).
  rewrite before_next by lia. by apply holds_of_step.
Qed.
End meaning.
