(* ===== verification/SsaMerge.v ===== *)
(** Where a phi belongs: a block that the dominance frontiers lead to from the
    definitions of a component is one before which executions disagree on what
    was last defined. *)

From stdpp Require Import relations.
From S2P Require Import Prelude CArray UnityCommon Heap Usil SsaGraph Cfg FlowGraph DominatorTree Dominance FlowStructure FlowMatch FlowStep CfgBlocks CfgBuild FlowTrace SsaMeaning.

#[local] Set Warnings "-register-all".

(** * Executions in pieces *)

Section pieces.
Context (op : Z -> USILOpcode) (first end_ : Z).

Abbreviation run := (path op first end_).

Lemma path_ends a l i : run a l i -> exists l0, l = l0 ++ [i].
Proof. destruct 1; [by exists []|eauto]. Qed.

(** An execution that has been at [x], from there on. *)
Lemma path_split a l i l1 x l2 : run a l i -> l = l1 ++ x :: l2 -> run a (l1 ++ [x]) x /\ run x (x :: l2) i.
Proof.
  intros Hp. revert l1 x l2. induction Hp as [|l i t Hp IH Hs Ht]; intros l1 x l2 Hl.
  - destruct l1 as [|y l1]; [|by destruct l1]. injection Hl as -> <-. split; constructor.
  - destruct l2 as [|y l2 _] using rev_ind.
    + apply app_inj_2 in Hl as [-> Hx]; [|done]. injection Hx as ->. split; [by eapply path_step|constructor].
    + change (l1 ++ x :: l2 ++ [y]) with (l1 ++ (x :: l2) ++ [y]) in Hl. rewrite app_assoc in Hl.
      apply app_inj_2 in Hl as [-> Hy]; [|done]. injection Hy as ->. destruct (IH l1 x l2 eq_refl) as [H1 H2].
      split; [done|]. change (x :: l2 ++ [y]) with ((x :: l2) ++ [y]). by eapply path_step.
Qed.

Lemma path_join a l i l' j : run a l i -> run i (i :: l') j -> run a (l ++ l') j.
Proof.
  intros Hp Hp'. assert (Hgen : forall m j, run i m j -> exists m', m = i :: m' /\ run a (l ++ m') j).
  { clear l' j Hp'. intros m j. induction 1 as [|m j t _ (m' & -> & IH) Hs Ht].
    - exists []. by rewrite app_nil_r.
    - exists (m' ++ [t]). split; [done|]. rewrite app_assoc. by eapply path_step. }
  destruct (Hgen _ _ Hp') as (m' & [= <-] & Hm). done.
Qed.

(** Two executions come to [x] after different definitions. *)
Definition disagree (D : Z -> bool) (x : Z) : Prop :=
  exists l l', run first (l ++ [x]) x /\ run first (l' ++ [x]) x /\ latest D l <> latest D l'.

(** And so they do to where nothing has been defined since [x]. *)
Lemma disagree_later D x l1 l2 i : disagree D x -> run first (l1 ++ l2 ++ [i]) i ->
  latest D l2 = None -> head (l2 ++ [i]) = Some x -> disagree D i.
Proof.
  intros (la & lb & Ha & Hb & Hne) Hp Hl Hh. destruct (l2 ++ [i]) as [|y rest] eqn:Hx; [done|]. injection Hh as ->.
  destruct (path_split first _ _ l1 x rest Hp eq_refl) as [_ Hsuf].
  exists (la ++ l2), (lb ++ l2). rewrite <- !app_assoc, Hx, !latest_app, Hl.
  assert (Hext : forall l, run first (l ++ [x]) x -> run first (l ++ x :: rest) i).
  { intros l Hr. pose proof (path_join _ _ _ _ _ Hr Hsuf) as Hj. by rewrite <- app_assoc in Hj. }
  auto.
Qed.
End pieces.

Section merge.
Context (program : USILProgram) (first end_ : Z).

Abbreviation op := (op_of program).
Abbreviation count := (up_instruction_count program).
Abbreviation run := (path op first end_).

Hypothesis Hrange : 0 <= first < end_ /\ end_ <= count.

Context (starts : list Z) (G : flow_graph) (cfg : HLSLControlFlowGraph).
Context (Hst : structured op first end_) (HB : built_graph program first end_ cfg starts G).

Abbreviation start := (start_of starts).
Abbreviation last_of := (block_end end_ starts).
Abbreviation in_block_ := (in_block end_ starts).

Let Hs : split_at program first end_ starts := bg_split _ _ _ _ _ _ HB.
Let HG : flow_graph_ok G := bg_ok _ _ _ _ _ _ HB.

Lemma starts_node b : node G b -> znth starts b = Some (start b).
Proof. intros Hb. apply start_of_ok. unfold node in Hb. by rewrite <- (bg_count _ _ _ _ _ _ HB). Qed.

(** Where an execution is. *)
Lemma run_block l i : run first l i -> exists b, in_block_ i b /\ reachable G b.
Proof.
  intros Hp. destruct (executed_walk program first end_ Hrange starts G cfg Hst HB l i Hp) as (w & b & Hb & Hw & _).
  exists b. split; [done|]. apply reachable_walk. eauto.
Qed.

(** An execution that comes to a block [b] dominates has been at the start of
    [b], and from then on in blocks that [b] dominates. *)
Lemma dominated_suffix b l i q : run first l i -> in_block_ i q -> dominates G b q ->
  exists m1 m2, l = m1 ++ start b :: m2 /\
    forall j, j ∈ start b :: m2 -> exists e, in_block_ j e /\ dominates G b e.
Proof.
  intros Hp. revert q. induction Hp as [|l i t Hp IH Hstep Ht]; intros q Hq Hd.
  - pose proof (split_nonempty program first end_ starts ltac:(lia) Hs) as H0.
    pose proof (start_in_block program first end_ starts Hs 0 first H0) as Hb0.
    rewrite (in_block_unique program first end_ starts Hs _ _ _ Hq Hb0) in Hd.
    assert (b = 0) as -> by by apply (dominates_of_entry G).
    assert (start 0 = first) as -> by (unfold start_of; by rewrite H0). exists [], []. split; [done|].
    intros j ->%list_elem_of_singleton. exists 0. by split.
  - destruct (run_block l i Hp) as (p & Hp' & Hrp).
    assert (Hkeep : dominates G b p -> exists m1 m2, l ++ [t] = m1 ++ start b :: m2 /\
      forall j, j ∈ start b :: m2 -> exists e, in_block_ j e /\ dominates G b e).
    { intros Hdp. destruct (IH p Hp' Hdp) as (m1 & m2 & -> & Hm). exists m1, (m2 ++ [t]).
      split; [by rewrite <- app_assoc|]. intros j Hj. change (start b :: m2 ++ [t]) with ((start b :: m2) ++ [t]) in Hj.
      apply elem_of_app in Hj as [Hj|Hj]; [by apply Hm|]. apply list_elem_of_singleton in Hj as ->. eauto. }
    destruct (step_edge program first end_ starts G cfg Hst HB i t p q Hstep Ht Hp' Hq) as [(He & _ & Ht')|[<- _]];
      [|by apply Hkeep].
    destruct (decide (q = b)) as [->|Hne].
    + exists l, []. assert (start b = t) as -> by (unfold start_of; by rewrite Ht'). split; [done|].
      intros j ->%list_elem_of_singleton. eauto.
    + apply Hkeep. apply (dominates_pred G b q); [apply Hd| |done|exact Hd|done|done].
      intros ->. by apply (fg_entry G HG p).
Qed.

(** An execution from the start of a block that has left the block, or is at its
    end, has run all of it. *)
Lemma block_run b l i : node G b -> run (start b) l i -> i = last_of b \/ ~ in_block_ i b -> forall j, in_block_ j b -> j ∈ l.
Proof.
  intros Hb Hp Hend. pose proof (starts_node b Hb) as Hsb.
  pose proof (start_in_block program first end_ starts Hs b _ Hsb) as Hin.
  assert (Hinv : first <= i < end_ /\
    ((in_block_ i b /\ forall j, in_block_ j b -> j <= i -> j ∈ l) \/ forall j, in_block_ j b -> j ∈ l)).
  2:{ destruct Hinv as [_ [[Hi Hall]|Hall]]; [|done]. destruct Hend as [->|Hno]; [|done].
      intros j Hj. apply Hall; [done|]. destruct Hj as (x & _ & ?). lia. }
  clear Hend. induction Hp as [|l i t Hp [Hi IH] Hstep Ht].
  - split; [pose proof (block_range program first end_ starts Hs b _ Hsb); lia|]. left. split; [done|]. intros j Hj Hle.
    destruct Hj as (x & Hx & Hr). assert (x = start b) as -> by congruence. assert (j = start b) as -> by lia. left.
  - destruct (flow_step_target op first end_ Hst i t Hi Hstep) as [Htr _]. split; [lia|].
    destruct IH as [[Hib Hall]|Hall]; [|right; intros j Hj; apply elem_of_app; left; by apply Hall].
    destruct (in_block_exists program first end_ Hrange starts Hs t ltac:(lia)) as [c Htc].
    destruct (step_edge program first end_ starts G cfg Hst HB i t b c Hstep Ht Hib Htc) as [(_ & -> & _)|[<- ->]].
    + right. intros j Hj. apply elem_of_app. left. apply Hall; [done|]. destruct Hj as (x & _ & ?). lia.
    + left. split; [done|]. intros j Hj Hle. apply elem_of_app. destruct (decide (j = i + 1)) as [->|]; [right; left|].
      left. apply Hall; [done|lia].
Qed.

(** * Disagreement *)

Section component.
Context (D : Z -> bool).

(** The start of the block is one where executions disagree. *)
Definition disputed (b : Z) : Prop := disagree op first end_ D (start b).

Lemma edge_run l q c : run first l (last_of q) -> edge G q c -> run first (l ++ [start c]) (start c).
Proof.
  intros Hp He. destruct (edge_steps program first end_ starts G cfg HB q c He) as (Hstep & Hlt & _).
  by eapply path_step.
Qed.

(** An execution in the blocks of a walk, to the end of the last. *)
Lemma walk_run w q : walk G 0 w q -> exists l, run first l (last_of q) /\
  forall j, j ∈ l -> exists e, e ∈ w /\ in_block_ j e.
Proof.
  intros Hw. destruct (walk_executed program first end_ Hrange starts G cfg HB w q Hw) as (l & y & Hy & Hp & Hall).
  pose proof (start_in_block program first end_ starts Hs q y Hy) as Hq.
  destruct (path_through program first end_ starts G cfg HB first l y q Hp Hq) as (l' & Hp' & Hall').
  exists l'. split; [done|]. intros j [Hj|Hj]%Hall'; [by apply Hall|]. exists q. split; [by eapply walk_end|done].
Qed.

Lemma frontier_disputed b c : in_frontier G b c -> (exists i, in_block_ i b /\ D i = true) \/ disputed b -> disputed c.
Proof.
  intros Hf Hwhy. destruct (frontier_entered G HG b c Hf) as (w & q & Hw & Hq & Hbw).
  destruct (walk_run w q Hw) as (l2 & Hp2 & Hw2). destruct Hf as [(p & He & Hdp) _].
  destruct (proj1 (reachable_walk G p) (proj1 Hdp)) as [wp Hwp]. destruct (walk_run wp p Hwp) as (l1 & Hp1 & _).
  assert (Hnp : node G p) by by apply (reachable_node G HG), Hdp.
  assert (Hpb : in_block_ (last_of p) p).
  { exists (start p). pose proof (starts_node p Hnp) as Hsp. split; [done|].
    pose proof (block_range program first end_ starts Hs p _ Hsp). lia. }
  destruct (dominated_suffix b l1 (last_of p) p Hp1 Hpb Hdp) as (m1 & m2 & -> & Hm).
  destruct (path_split op first end_ first _ _ m1 (start b) m2 Hp1 eq_refl) as [_ Hsuf].
  destruct (latest D (start b :: m2)) as [d|] eqn:Hl.
  - exists (m1 ++ start b :: m2), l2. split_and!; [by apply (edge_run _ p c)|by apply (edge_run _ q c)|].
    rewrite latest_app, Hl. intros Heq. symmetry in Heq. apply latest_in in Heq, Hl.
    destruct (Hm d Hl) as (e & Hde & Hbe), (Hw2 d Heq) as (e' & He' & Hde').
    rewrite (in_block_unique program first end_ starts Hs _ _ _ Hde Hde') in Hbe.
    destruct (walk_prefix G 0 w q e' Hw He') as (w1 & w2 & -> & Hw1). apply Hbw. apply (proj2 Hbe) in Hw1.
    rewrite app_assoc. apply elem_of_app. by left.
  - destruct Hwhy as [(i & Hi & Hdi)|(la & lb & Ha & Hb & Hne)].
    + exfalso. enough (Hin : i ∈ start b :: m2) by (by rewrite (latest_none D _ i Hl Hin) in Hdi).
      apply (block_run b _ (last_of p)); [| done | |done].
      * apply (reachable_node G HG). by apply (dominates_reachable G b p).
      * destruct (decide (p = b)) as [->|Hne]; [by left|right]. intros Hin. apply Hne.
        by apply (in_block_unique program first end_ starts Hs (last_of p)).
    + exists (la ++ start b :: m2), (lb ++ start b :: m2).
      assert (Hext : forall l, run first (l ++ [start b]) (start b) -> run first ((l ++ start b :: m2) ++ [start c]) (start c)).
      { intros l Hr. apply (edge_run _ p c); [|exact He]. pose proof (path_join op first end_ _ _ _ _ _ Hr Hsuf) as Hj.
        by rewrite <- app_assoc in Hj. }
      split_and!; [by apply Hext..|]. by rewrite !latest_app, Hl.
Qed.

(** The blocks the frontiers lead to from those that define the component. *)
Inductive iterated : Z -> Prop :=
| iterated_definition b c : (exists i, in_block_ i b /\ D i = true) -> in_frontier G b c -> iterated c
| iterated_frontier b c : iterated b -> in_frontier G b c -> iterated c.

Lemma iterated_disputed b : iterated b -> disputed b.
Proof. induction 1; eapply frontier_disputed; eauto. Qed.
End component.
End merge.
