(* ===== verification/SsaInstruction.v ===== *)
(** What one instruction does to the temporaries, as the renaming sees it: which
    register components it defines and which its sources and the roots of its
    relative indices read; and the programs whose instructions are in order. *)

From S2P Require Import Prelude CArray UnityCommon Heap Operand Instruction Usil SsaGraph Cfg FlowStructure UsilValidation UsilValidationSteps UsilValidationCorrect Ssa.

#[local] Set Warnings "-register-all".

Record ssa_instruction_ok (inst : USILInstruction) : Prop := {
  si_ok : instruction_ok inst;
  si_count : ui_operand_count inst <= DXBC_MAX_OPERANDS;
  si_roots op o dimension root :
    znth (ui_operands inst) op = Some o -> operand_root o dimension = Some root -> operand_ok root;
}.

Definition instruction_in (program : USILProgram) (i : Z) (inst : USILInstruction) : Prop :=
  exists l, up_instructions program = Some l /\ znth l i = Some inst.

Record ssa_program_ok (program : USILProgram) : Prop := {
  sp_program : program_ok program;
  sp_declarations : declarations_ok program;
  sp_instruction i inst : instruction_in program i inst -> ssa_instruction_ok inst;
  sp_temps : 0 <= up_temp_count program <= INT_MAX;
}.

(** Operand [k] writes a component of a temporary. *)
Definition writes (program : USILProgram) (inst : USILInstruction) (k reg comp : Z) : Prop :=
  exists use dest, usil_instruction_operand_use program inst k = Ret use /\
    znth (ui_operands inst) k = Some dest /\ ou_use use = USIL_OPERAND_USE_DESTINATION /\
    op_type dest = OPERAND_TYPE_TEMP /\ op_register_index dest = reg /\
    has_lane (usil_operand_destination_lane_mask dest) comp = true.

(** Lane [lane] of operand [k] reads a component of a temporary. *)
Definition reads (program : USILProgram) (inst : USILInstruction) (k lane reg comp : Z) : Prop :=
  exists use source, usil_instruction_operand_use program inst k = Ret use /\
    znth (ui_operands inst) k = Some source /\ ou_use use = USIL_OPERAND_USE_SOURCE /\
    op_type source = OPERAND_TYPE_TEMP /\ op_register_index source = reg /\
    has_lane (ou_source_lane_mask use) lane = true /\
    usil_operand_source_component (E:=unit) source lane = Ret comp.

(** A dimension of operand [k] is indexed by a component of a temporary. *)
Definition indexes (program : USILProgram) (inst : USILInstruction) (k dimension reg comp : Z) : Prop :=
  exists owner, znth (ui_operands inst) k = Some owner /\
    relative_root (E:=unit) program (operand_root owner dimension) = Ret (Some (reg, comp)).

(** Operand [k] is one the renaming accepts. *)
Definition operand_renamable (program : USILProgram) (inst : USILInstruction) (k : Z) : Prop :=
  exists use o, usil_instruction_operand_use program inst k = Ret use /\
    znth (ui_operands inst) k = Some o /\
    (op_type o = OPERAND_TYPE_TEMP ->
     ou_use use = USIL_OPERAND_USE_SOURCE \/ ou_use use = USIL_OPERAND_USE_DESTINATION ->
     0 <= op_register_index o < up_temp_count program) /\
    (op_type o = OPERAND_TYPE_TEMP -> ou_use use = USIL_OPERAND_USE_SOURCE ->
     forall lane, 0 <= lane < 4 -> has_lane (ou_source_lane_mask use) lane = true ->
     exists c, usil_operand_source_component (E:=unit) o lane = Ret c /\ 0 <= c).

Definition renamable (program : USILProgram) (inst : USILInstruction) : Prop :=
  forall k, 0 <= k < ui_operand_count inst -> operand_renamable program inst k.

(** Instruction [i] defines the component, as the placement asks. *)
Definition defines (program : USILProgram) (reg comp i : Z) : bool :=
  match instruction_at (E:=unit) program i with
  | Ret inst =>
      match instruction_defines_reg_comp (E:=unit) program inst reg comp with Ret b => b | _ => false end
  | _ => false
  end.

(** Instruction [i] is one the renaming accepts. *)
Definition renamable_at (program : USILProgram) (i : Z) : Prop :=
  exists inst, instruction_in program i inst /\ renamable program inst.

Section instructions.
Context (program : USILProgram) (HP : ssa_program_ok program).

Lemma instruction_in_at {E} i inst : instruction_in program i inst -> instruction_at (E:=E) program i = Ret inst.
Proof. intros (l & Hl & Hi). unfold instruction_at. rewrite Hl. mstep. by apply aget_ok. Qed.

Lemma instruction_in_unique i inst inst' :
  instruction_in program i inst -> instruction_in program i inst' -> inst = inst'.
Proof. intros (l & Hl & Hi) (l' & Hl' & Hi'). congruence. Qed.

Lemma instruction_in_exists i : 0 <= i < up_instruction_count program -> exists inst, instruction_in program i inst.
Proof.
  intros Hi. destruct (sp_program _ HP) as (l & Hl & Hn).
  destruct (znth_is_Some l i) as [inst Hinst]; [by rewrite Hn|]. by exists inst, l.
Qed.

Section one.
Context (inst : USILInstruction) (Hi : ssa_instruction_ok inst).

Lemma operand_in k : 0 <= k < ui_operand_count inst ->
  exists o, (forall E, operand_at (E:=E) inst k = Ret o) /\ znth (ui_operands inst) k = Some o /\ operand_ok o.
Proof.
  intros Hk. destruct (operand_at_ok inst (si_ok _ Hi) k) as (o & _ & Ho & Hok).
  - pose proof (si_count _ Hi). lia.
  - exists o. split; [|done]. intros E. by apply aget_ok.
Qed.

Lemma operand_use_defined k :
  outcome (usil_instruction_operand_use program inst k)
    (fun _ => 0 <= k < ui_operand_count inst) (fun _ => True).
Proof.
  pose proof (sp_declarations _ HP) as Hd. pose proof (si_ok _ Hi) as Hok.
  destruct (shape_valid_spec (E:=unit) program inst Hd Hok) as (valid & Hv & _).
  unfold usil_instruction_operand_use. rewrite Hv. mstep. destruct (_ || _) eqn:Hg; [done|]. bools.
  eapply outcome_mono; [by apply (operand_use_unchecked_ok program inst Hd Hok)| |done]. intros info _. lia.
Qed.

(** The search for a definition. *)
Lemma defines_step_spec reg comp k : 0 <= k < ui_operand_count inst ->
  outcome (defines_step program inst reg comp k tt)
    (fun _ => ~ writes program inst k reg comp)
    (fun b => if b : bool then writes program inst k reg comp
              else usil_instruction_operand_use program inst k = Fail tt).
Proof.
  intros Hk. unfold defines_step. pose proof (operand_use_defined k) as Hu.
  destruct (usil_instruction_operand_use program inst k) as [use|[]|] eqn:Huse; cbn in Hu; [|done..].
  cbn [attempt]. mstep. destruct (operand_in k Hk) as (o & -> & Ho & _). mstep.
  destruct (_ && _) eqn:Hb.
  - bools. exists use, o. split_and!; done.
  - intros (use' & o' & Hu' & Ho' & H1 & H2 & H3 & H4). simplify_eq.
    rewrite bool_decide_true in Hb by congruence. rewrite H2, H4, !Z.eqb_refl in Hb. done.
Qed.

Lemma instruction_defines_spec reg comp : exists b,
  (forall E, instruction_defines_reg_comp (E:=E) program inst reg comp = Ret b) /\
  (b = true -> exists k, 0 <= k < ui_operand_count inst /\ writes program inst k reg comp) /\
  (b = false -> (forall k, 0 <= k < ui_operand_count inst ->
       exists use, usil_instruction_operand_use program inst k = Ret use) ->
     forall k, 0 <= k < ui_operand_count inst -> ~ writes program inst k reg comp).
Proof.
  unfold instruction_defines_reg_comp. set (n := Z.to_nat (ui_operand_count inst)).
  assert (Hloop : outcome (for_loop n 0 (defines_step program inst reg comp) tt)
    (fun _ => forall k, 0 <= k < 0 + Z.of_nat n -> ~ writes program inst k reg comp)
    (fun b => exists k, 0 <= k < ui_operand_count inst /\
       if b : bool then writes program inst k reg comp
       else usil_instruction_operand_use program inst k = Fail tt)).
  { apply outcome_for with (I := fun j _ => forall k, 0 <= k < j -> ~ writes program inst k reg comp); [lia|].
    intros j [] Hj HI. assert (Hr : 0 <= j < ui_operand_count inst) by lia.
    eapply outcome_mono; [by apply defines_step_spec| |by eauto].
    intros [] Hno k Hk. destruct (decide (k = j)) as [->|]; [done|]. apply HI. lia. }
  destruct (for_loop n 0 _ tt) as [u|b|]; cbn in Hloop; [|exists b|done].
  - exists false. split; [done|]. split; [done|]. intros _ _ k Hk. apply Hloop. lia.
  - destruct Hloop as (k & Hk & Hb). split; [done|]. destruct b; (split; [|done || intros _ Hall]).
    + by eauto.
    + done.
    + destruct (Hall k Hk). congruence.
Qed.

(** The roots of relative indices. *)
Lemma source_component_any {E E'} o lane c :
  usil_operand_source_component (E:=E) o lane = Ret c -> usil_operand_source_component (E:=E') o lane = Ret c.
Proof.
  unfold usil_operand_source_component, aget. destruct (_ || _); [congruence|].
  destruct (_ =? 2); [destruct (znth _ _); cbn; congruence|].
  destruct (_ =? 1); [destruct (znth _ _); cbn; congruence|cbn; congruence].
Qed.

Lemma source_component_ok o lane : operand_ok o ->
  exists c, (forall E, usil_operand_source_component (E:=E) o lane = Ret c) /\ -1 <= c < 4.
Proof.
  intros Ho. destruct (source_component_defined (E:=unit) o lane Ho) as (c & Hc & Hr).
  exists c. split; [|done]. intros E. by eapply source_component_any.
Qed.

Lemma relative_root_spec root : (forall r, root = Some r -> operand_ok r) ->
  exists p, (forall E, relative_root (E:=E) program root = Ret p) /\
    forall reg comp, p = Some (reg, comp) -> 0 <= reg < up_temp_count program /\ 0 <= comp < 4.
Proof.
  intros Hroot. destruct root as [r|]; [|by exists None]. specialize (Hroot r eq_refl).
  destruct (znth_is_Some (op_index_has_immediate r) 0) as [v3 E3]; [rewrite (ok_has_immediate r Hroot); lia|].
  destruct (znth_is_Some (op_index_representations r) 0) as [v2 E2]; [rewrite (ok_representations r Hroot); lia|].
  destruct (znth_is_Some (op_index_value_exceeds_int r) 0) as [v4 E4]; [rewrite (ok_exceeds r Hroot); lia|].
  destruct (znth_is_Some (op_index_values r) 0) as [v1 E1]; [rewrite (ok_index_values r Hroot); lia|].
  destruct (source_component_ok r 0 Hroot) as (c & Hc & Hr).
  set (bad := negb (op_type r =? OPERAND_TYPE_TEMP) || negb (op_register_index_dim r =? 1) ||
       negb (hlsl_lift_operand_is_plain r) || negb v3 || negb (v2 =? 0) ||
       v4 || (op_register_index r <? 0) || (up_temp_count program <=? op_register_index r) ||
       negb (v1 =? op_register_index r) || negb (op_swizzle_mode r =? 2)).
  exists (if bad then None else if 0 <=? c then Some (op_register_index r, c) else None). split.
  - intros E. unfold relative_root.
    rewrite (aget_ok _ _ _ E3). mstep. rewrite (aget_ok _ _ _ E2). mstep.
    rewrite (aget_ok _ _ _ E4). mstep. rewrite (aget_ok _ _ _ E1). mstep. fold bad.
    destruct bad; [done|]. by rewrite Hc.
  - destruct bad eqn:Hg; [done|]. unfold bad in Hg. bools.
    intros reg comp. destruct (Z.leb_spec 0 c); [|done]. intros [= <- <-]. lia.
Qed.
End one.

(** * The definitions of the program *)

Lemma defines_ok reg comp i inst :
  instruction_in program i inst ->
  forall E, instruction_defines_reg_comp (E:=E) program inst reg comp = Ret (defines program reg comp i).
Proof.
  intros Hi. destruct (instruction_defines_spec inst (sp_instruction _ HP i inst Hi) reg comp) as (b & Hb & _).
  intros E. unfold defines. by rewrite (instruction_in_at i inst Hi), !Hb.
Qed.

(** Of an instruction the renaming accepts, it is what its operands write. *)
Lemma defines_writes reg comp i inst :
  instruction_in program i inst -> renamable program inst ->
  defines program reg comp i = true <->
  exists k, 0 <= k < ui_operand_count inst /\ writes program inst k reg comp.
Proof.
  intros Hi Hr. pose proof (defines_ok reg comp i inst Hi unit) as Hd.
  destruct (instruction_defines_spec inst (sp_instruction _ HP i inst Hi) reg comp) as (b & Hb & Ht & Hf).
  rewrite Hb in Hd. injection Hd as <-. split; [done|]. intros (k & Hk & Hw).
  destruct b; [done|]. exfalso. apply (Hf eq_refl) in Hw; [done| |done].
  intros k' Hk'. destruct (Hr k' Hk') as (use & _ & Hu & _). by exists use.
Qed.
End instructions.
