(* ===== verification/SsaPlacement.v ===== *)
(** Where the phis go: for each register component, in the blocks a worklist
    over the dominance frontiers reaches from the blocks that define it.  The
    placement is closed under the frontiers, and puts a phi only where two
    executions arrive with different values of the register component. *)

From S2P Require Import Prelude CArray UnityCommon Heap Usil SsaGraph Cfg FlowGraph Postorder DominatorTree Dominance Frontier FlowStructure FlowMatch FlowStep CfgBlocks CfgBuild FlowTrace CfgAnalysis Ssa SsaMerge SsaInstruction.

#[local] Set Warnings "-register-all".

(** The register components a block has a phi for. *)
Definition phi_key (phi : HLSLPhiNode) : Z * Z := (phi_register_index phi, phi_component phi).
Definition phi_keys (phis : list HLSLBlockPhis) (b : Z) : list (Z * Z) :=
  match znth phis b with Some bp => phi_key <$> bp_phis bp | None => [] end.
Definition has_phi (phis : list HLSLBlockPhis) (reg comp b : Z) : bool :=
  bool_decide ((reg, comp) ∈ phi_keys phis b).

Lemma has_phi_iff phis reg comp b : has_phi phis reg comp b = true <-> (reg, comp) ∈ phi_keys phis b.
Proof. apply bool_decide_eq_true. Qed.

Lemma phi_keys_at phis b bp : znth phis b = Some bp -> phi_keys phis b = phi_key <$> bp_phis bp.
Proof. intros Hb. unfold phi_keys. by rewrite Hb. Qed.

Definition new_phi (reg comp predecessor_count : Z) : HLSLPhiNode := {|
  phi_register_index := reg; phi_component := comp; phi_ssa_var := -1;
  phi_incoming_vars := filled predecessor_count (-1); phi_incoming_blocks := filled predecessor_count (-1) |}.

Section graph.
Context `{U : UnityCommon} {HU : UnityCommonSpec U} `{L : LibcMalloc}.
Context (program : USILProgram) (HP : ssa_program_ok program) (first end_ : Z).

Abbreviation count := (up_instruction_count program).
Hypothesis Hrange : 0 <= first < end_ /\ end_ <= count.

Context (cfg : HLSLControlFlowGraph) (starts : list Z) (G : flow_graph) (idom : list Z).
Context (HA : analysed_graph program first end_ cfg starts G idom).

Abbreviation start := (start_of starts).
Abbreviation last_of := (block_end end_ starts).
Abbreviation in_block_ := (in_block end_ starts).

Lemma graph_ok : flow_graph_ok G.
Proof. destruct HA as [_ (cfg0 & fs & cs & HB & _) _]. by apply (bg_ok _ _ _ _ _ _ HB). Qed.

Lemma graph_split : split_at program first end_ starts.
Proof. destruct HA as [_ (cfg0 & fs & cs & HB & _) _]. by apply (bg_split _ _ _ _ _ _ HB). Qed.

Lemma graph_nodes : fg_count G = zlength starts.
Proof. destruct HA as [_ (cfg0 & fs & cs & HB & _) _]. by apply (bg_count _ _ _ _ _ _ HB). Qed.

Lemma graph_block_count : cfg_block_count cfg = fg_count G.
Proof. apply (rp_count _ _ (analysed_represents _ _ _ _ _ _ _ HA)). Qed.

Lemma graph_idom : cfg_idom cfg = Some idom.
Proof. by destruct HA as [_ (cfg0 & fs & cs & _ & _ & ->) _]. Qed.

Lemma in_block_iff b i : node G b -> in_block_ i b <-> start b <= i <= last_of b.
Proof.
  intros Hb. unfold node in Hb. rewrite graph_nodes in Hb. pose proof (start_of_ok starts b Hb) as Hx. split.
  - intros (x & Hx' & Hi). by assert (x = start b) as <- by congruence.
  - intros Hi. by exists (start b).
Qed.

Lemma block_bounds b : node G b -> first <= start b <= last_of b /\ last_of b < end_.
Proof.
  intros Hb. unfold node in Hb. rewrite graph_nodes in Hb.
  pose proof (block_range program first end_ starts graph_split b _ (start_of_ok starts b Hb)). lia.
Qed.

Lemma graph_block b : node G b -> exists block, (forall E, block_at (E:=E) cfg b = Ret block) /\
  bb_first_instruction block = start b /\ bb_last_instruction block = last_of b /\
  block_represents cfg G b block.
Proof.
  intros Hb. destruct (rp_block _ _ (analysed_represents _ _ _ _ _ _ _ HA) b Hb) as (block & Hat & Hbl).
  exists block. split; [done|]. pose proof (start_of_ok starts b) as Hx.
  unfold node in Hb. rewrite graph_nodes in Hb. specialize (Hx Hb).
  destruct HA as [_ (cfg0 & fs & cs & HB & _ & ->) _].
  destruct (bg_blocks _ _ _ _ _ _ HB b _ Hx) as (block' & Hat' & Hf & Hl).
  assert (block' = block) as ->; [|done].
  specialize (Hat Empty_set). specialize (Hat' Empty_set). unfold block_at in *. fields. cbn in *. congruence.
Qed.

(** Every instruction of a block is one of the program. *)
Lemma block_instruction b i : node G b -> start b <= i <= last_of b -> exists inst, instruction_in program i inst.
Proof.
  intros Hb Hi. pose proof (block_bounds b Hb). apply (instruction_in_exists program HP). lia.
Qed.

Section component.
Context (reg comp : Z).

Abbreviation D := (defines program reg comp).

Lemma block_defines_spec b : node G b -> exists d, block_defines program cfg reg comp b = Ret d /\
  (d = true <-> exists i, in_block_ i b /\ D i = true).
Proof.
  intros Hb. destruct (graph_block b Hb) as (block & Hat & Hf & Hl & _).
  unfold block_defines. rewrite Hat. mstep. rewrite Hf, Hl. pose proof (block_bounds b Hb) as Hr.
  destruct (any_index_spec (E:=unit) (fun i => D i = true) (Z.to_nat (last_of b - start b + 1)) (start b)
    (fun inst_idx => inst ← instruction_at program inst_idx; instruction_defines_reg_comp program inst reg comp))
    as (d & Hrun & Hd).
  - intros i Hi. destruct (block_instruction b i Hb) as [inst Hin]; [lia|].
    rewrite (instruction_in_at program i inst Hin). mstep. rewrite (defines_ok program HP reg comp i inst Hin). by eexists.
  - exists d. split; [done|]. rewrite Hd. split; intros (i & Hi & Hdi); exists i.
    + split; [apply in_block_iff; [done|lia]|done].
    + apply in_block_iff in Hi; [|done]. split; [lia|done].
Qed.

(** * The worklist *)

Abbreviation n := (fg_count G).

(** Why a block is in the worklist, and why a block has a phi. *)
Abbreviation merges := (iterated end_ starts G D).
Definition listed (b : Z) : Prop := (exists i, in_block_ i b /\ D i = true) \/ merges b.

Lemma listed_frontier b c : listed b -> in_frontier G b c -> merges c.
Proof. intros [Hd|Hm] Hf; [by eapply iterated_definition|by eapply iterated_frontier]. Qed.

(** [W] is all that was ever in the worklist. *)
Record placing (phis0 : list HLSLBlockPhis) (W : list Z) (st : place_state) : Prop := {
  pl_worklist : wrote (ps_worklist st) W /\ zlength (ps_worklist st) = n;
  pl_count : ps_work_count st = zlength W;
  pl_nodup : NoDup W;
  pl_nodes b : b ∈ W -> node G b;
  pl_listed b : b ∈ W -> listed b;
  pl_visited : zlength (ps_visited st) = n /\
    forall b v, znth (ps_visited st) b = Some v -> v = true <-> b ∈ W;
  pl_has : zlength (ps_has_phi st) = n /\ forall b, znth (ps_has_phi st) b = Some true -> b ∈ W /\ merges b;
  pl_phis : zlength (ps_phis st) = n /\ forall b bp0 h,
    znth phis0 b = Some bp0 -> znth (ps_has_phi st) b = Some h ->
    znth (ps_phis st) b = Some (if h : bool
      then {| bp_phis := bp_phis bp0 ++ [new_phi reg comp (zlength (fg_pred G b))] |} else bp0);
}.

Definition has (st : place_state) (b : Z) : Prop := znth (ps_has_phi st) b = Some true.

Lemma placing_room phis0 W st b : placing phis0 W st -> node G b -> b ∉ W -> zlength W < n.
Proof.
  intros HI Hb Hn. pose proof (fg_count_ok G graph_ok).
  assert (Hle : zlength (W ++ [b]) <= n).
  { apply zlength_NoDup_le; [lia| |].
    - apply list.NoDup_app. split_and!; [apply HI| |apply NoDup_singleton].
      by intros x Hx ->%list_elem_of_singleton.
    - intros x [Hx|Hx]%elem_of_app; [by apply (pl_nodes _ _ _ HI)|]. by apply list_elem_of_singleton in Hx as ->. }
  rewrite zlength_snoc in Hle. lia.
Qed.

(** A block that joins the worklist. *)
Lemma placing_push phis0 W st b :
  placing phis0 W st -> node G b -> listed b -> b ∉ W -> exists worklist visited,
    cput (E:=unit) (ps_worklist st) (ps_work_count st) b = Ret worklist /\
    aput (E:=unit) (ps_visited st) b true = Ret visited /\
    placing phis0 (W ++ [b]) {| ps_phis := ps_phis st; ps_has_phi := ps_has_phi st; ps_visited := visited;
      ps_worklist := worklist; ps_work_count := ps_work_count st + 1 |}.
Proof.
  intros HI Hb Hwhy Hn. pose proof (placing_room _ _ _ _ HI Hb Hn) as Hroom.
  destruct HI as [[Hw Hwl] Hc Hd Hnodes Hlisted [Hvl Hv] [Hhl Hh] Hp]. unfold node in Hb.
  pose proof (zlength_nonneg W) as Hnn. rewrite Hc. unfold cput. rewrite !aput_ok by lia.
  eexists _, _. split; [done|]. split; [done|]. split; cbn.
  - split; [|by rewrite zlength_zset]. destruct (wrote_push _ _ b Hw) as [|]; [done|lia].
  - by rewrite zlength_snoc.
  - apply list.NoDup_app. split_and!; [done| |apply NoDup_singleton]. by intros x Hx ->%list_elem_of_singleton.
  - intros x [Hx|Hx]%elem_of_app; [by apply Hnodes|]. by apply list_elem_of_singleton in Hx as ->.
  - intros x [Hx|Hx]%elem_of_app; [by apply Hlisted|]. by apply list_elem_of_singleton in Hx as ->.
  - split; [by rewrite zlength_zset|]. intros x v. destruct (decide (x = b)) as [->|Hne].
    + rewrite znth_zset_eq by lia. intros [= <-]. split; [|done]. intros _. apply elem_of_app. right. left.
    + rewrite znth_zset_ne by done. intros Hx. rewrite (Hv x v Hx), elem_of_app, list_elem_of_singleton. tauto.
  - split; [done|]. intros x Hx. destruct (Hh x Hx) as [? ?]. split; [apply elem_of_app; by left|done].
  - done.
Qed.

Lemma seed_block_spec phis0 W st b :
  placing phis0 W st -> (forall c, c ∈ W -> c < b) -> node G b ->
  outcome (seed_block program cfg reg comp b st)
    (fun st' => exists W', placing phis0 W' st' /\ (forall c, c ∈ W -> c ∈ W') /\ (forall c, c ∈ W' -> c < b + 1) /\
       ((exists i, in_block_ i b /\ D i = true) -> b ∈ W') /\ ps_has_phi st' = ps_has_phi st)
    (fun _ => malloc_failed).
Proof.
  intros HI Hlt Hb. unfold seed_block. destruct (block_defines_spec b Hb) as (d & -> & Hd). mstep.
  destruct d; cbn [negb].
  - assert (Hn : b ∉ W) by (intros Hin; specialize (Hlt b Hin); lia).
    destruct (placing_push _ _ _ _ HI Hb (or_introl (proj1 Hd eq_refl)) Hn) as (worklist & visited & -> & Hv & HI'). mstep. rewrite Hv. mstep.
    cbn. exists (W ++ [b]). split_and!; [done| | |..].
    + intros c Hc. apply elem_of_app. by left.
    + intros c [Hc|Hc]%elem_of_app; [specialize (Hlt c Hc); lia|]. apply list_elem_of_singleton in Hc as ->. lia.
    + intros _. apply elem_of_app. right. left.
    + done.
  - cbn. exists W. split_and!; [done|done| | |done].
    + intros c Hc. specialize (Hlt c Hc). lia.
    + intros Hex. apply Hd in Hex. done.
Qed.

Lemma add_phi_node_spec bp b :
  node G b -> zlength (bp_phis bp) < INT_MAX ->
  outcome (add_phi_node bp reg comp (zlength (fg_pred G b)))
    (fun bp' => bp' = {| bp_phis := bp_phis bp ++ [new_phi reg comp (zlength (fg_pred G b))] |})
    (fun _ => malloc_failed).
Proof.
  intros Hb Hs. pose proof (zlength_nonneg (bp_phis bp)). pose proof (zlength_nonneg (fg_pred G b)).
  pose proof (fg_count_ok G graph_ok) as Hn.
  assert (Hpc : zlength (fg_pred G b) <= n).
  { apply zlength_NoDup_le; [lia|apply (fg_pred_nodup G graph_ok)|]. intros p Hp.
    by apply (pred_edge G graph_ok) in Hp as [? _]. }
  unfold add_phi_node, PHI_NODE_SIZE, INT_MAX in *. wrap.
  rewrite !size_multiply_overflows_spec by (unfold in_u64; lia).
  rewrite (proj2 (Z.eqb_neq _ _)), (proj2 (Z.ltb_ge _ _)) by lia.
  rewrite !(proj2 (Z.leb_gt _ _)) by lia. cbn [orb].
  destruct (libc_malloc (_ * 32)) eqn:Hm; [|by eexists]. cbn [negb].
  destruct (_ && _) eqn:Hm'; [|done]. apply andb_true_iff in Hm' as [_ Hm']. apply negb_true_iff in Hm'. by eexists.
Qed.

Lemma place_phi_spec phis0 W st row xs d y :
  placing phis0 W st -> zlength phis0 = n -> (forall b bp, znth phis0 b = Some bp -> zlength (bp_phis bp) < INT_MAX) ->
  row = Some xs -> znth xs d = Some y -> node G y -> merges y ->
  outcome (place_phi cfg reg comp row d st)
    (fun st' => exists W', placing phis0 W' st' /\ W `prefix_of` W' /\ has st' y /\ (forall b, has st b -> has st' b))
    (fun _ => malloc_failed).
Proof.
  intros HI Hl0 Hsmall -> Hy Hny Hmy. unfold place_phi. cbn [ptr]. mstep. rewrite (aget_ok _ _ _ Hy). mstep.
  pose proof (pl_has _ _ _ HI) as [Hhl Hh]. pose proof (pl_phis _ _ _ HI) as [Hpl Hp].
  pose proof (pl_visited _ _ _ HI) as [Hvl Hv]. pose proof Hny as Hny'. unfold node in Hny'.
  destruct (znth_is_Some (ps_has_phi st) y) as [h Hhy]; [lia|]. rewrite (aget_ok _ _ _ Hhy). mstep.
  destruct h; [by cbn; eauto|].
  destruct (graph_block y Hny) as (block & -> & _ & _ & Hbl). mstep.
  destruct (znth_is_Some phis0 y) as [bp0 Hbp0]; [lia|].
  rewrite (aget_ok _ _ _ (Hp y bp0 false Hbp0 Hhy)). mstep. rewrite (br_pred_count _ _ _ _ Hbl).
  apply outcome_bind. eapply outcome_mono; [apply add_phi_node_spec; [done|by eapply Hsmall]| |done].
  intros bp ->. rewrite !aput_ok by lia. mstep.
  destruct (znth_is_Some (ps_visited st) y) as [v Hvy]; [lia|]. rewrite (aget_ok _ _ _ Hvy). mstep.
  set (phis := zset (ps_phis st) y _). set (hs := zset (ps_has_phi st) y true).
  assert (Hph : zlength phis = n /\ forall b bp0 h, znth phis0 b = Some bp0 -> znth hs b = Some h ->
    znth phis b = Some (if h : bool
      then {| bp_phis := bp_phis bp0 ++ [new_phi reg comp (zlength (fg_pred G b))] |} else bp0)).
  { unfold phis, hs. split; [by rewrite zlength_zset|]. intros b bp h Hb. destruct (decide (b = y)) as [->|Hne].
    - rewrite !znth_zset_eq by lia. intros [= <-]. by assert (bp = bp0) as -> by congruence.
    - rewrite !znth_zset_ne by done. by apply Hp. }
  assert (Hhs : forall b, znth hs b = Some true <-> znth (ps_has_phi st) b = Some true \/ b = y).
  { intros b. unfold hs. destruct (decide (b = y)) as [->|Hne]; [rewrite znth_zset_eq by lia; tauto|].
    rewrite znth_zset_ne by done. tauto. }
  assert (Hend : forall W' worklist visited count, W `prefix_of` W' -> y ∈ W' ->
    placing phis0 W' {| ps_phis := ps_phis st; ps_has_phi := ps_has_phi st; ps_visited := visited;
                        ps_worklist := worklist; ps_work_count := count |} ->
    exists W', placing phis0 W' {| ps_phis := phis; ps_has_phi := hs; ps_visited := visited;
                        ps_worklist := worklist; ps_work_count := count |} /\
      W `prefix_of` W' /\ znth hs y = Some true /\ (forall b, has st b -> znth hs b = Some true)).
  { intros W' worklist visited k Hpre Hin [H1 H2 H3 H4 Hli H5 _ _]. exists W'. split; [split; try done|split_and!].
    - split; [cbn; unfold hs; by rewrite zlength_zset|]. cbn. intros b [Hb| ->]%Hhs; [|done].
      destruct (Hh b Hb) as [? ?]. split; [|done]. by eapply list.elem_of_prefix.
    - done.
    - apply Hhs. by right.
    - intros b Hb. apply Hhs. by left. }
  destruct v.
  - cbn. apply (Hend W); [done|by apply (Hv y true Hvy)|]. destruct st; exact HI.
  - assert (Hn : y ∉ W) by (intros Hin; apply (Hv y false Hvy) in Hin; done).
    destruct (placing_push _ _ _ _ HI Hny (or_intror Hmy) Hn) as (worklist & visited & Hw & Hvis & HI').
    rewrite aput_ok in Hvis by lia. injection Hvis as <-. rewrite Hw. mstep. cbn. apply (Hend (W ++ [y])); [by apply prefix_app_r| |done].
    apply elem_of_app. right. left.
Qed.

(** The blocks a block of the worklist passes the component on to. *)
Definition spread (W : list Z) (k : Z) (st : place_state) : Prop :=
  forall i b c, i < k -> znth W i = Some b -> in_frontier G b c -> has st c.

Lemma place_step_spec phis0 W st head :
  placing phis0 W st -> zlength phis0 = n -> (forall b bp, znth phis0 b = Some bp -> zlength (bp_phis bp) < INT_MAX) ->
  0 <= head < zlength W -> spread W head st ->
  outcome (place_step cfg reg comp (head, st))
    (fun '(head', st') => head' = head + 1 /\
       exists W', placing phis0 W' st' /\ W `prefix_of` W' /\ spread W' (head + 1) st')
    (fun _ => malloc_failed).
Proof.
  intros HI Hl0 Hsmall Hhead Hsp. destruct (znth_is_Some W head Hhead) as [b Hb].
  assert (Hin : b ∈ W) by (apply znth_elem_of; eauto). pose proof (pl_nodes _ _ _ HI b Hin) as Hnb.
  unfold place_step. rewrite (cget_ok _ _ _ (proj1 (pl_worklist _ _ _ HI) _ _ Hb)). mstep.
  destruct HA as [_ (cfg0 & frontiers & counts & HB & HF & Hcfg) _].
  assert (cfg_df_count cfg = Some counts /\ cfg_df cfg = Some frontiers) as [-> ->] by by subst cfg. cbn [ptr]. mstep.
  destruct (fh_at _ _ _ HF b Hnb) as (v & Hv & Hc & _ & Hnodes & Hx). cbn [fst snd] in *.
  rewrite (aget_ok _ _ _ Hc). mstep. rewrite (aget_ok _ _ _ Hv). mstep.
  apply outcome_bind. eapply outcome_mono; [apply outcome_for_array with (xs := default [] v)
    (F := fun _ => malloc_failed) (I := fun l st' => exists W', placing phis0 W' st' /\ W `prefix_of` W' /\
       (forall c, c ∈ l -> has st' c) /\ forall c, has st c -> has st' c)| |done].
  - exists W. split_and!; [done|done| |done]. by intros c ?%not_elem_of_nil.
  - intros l y rest st' Heq Hy (W' & HI' & Hpre & Hl & Hmono).
    assert (Hyin : y ∈ default [] v) by (apply znth_elem_of; eauto).
    destruct v as [xs|]; [|by apply not_elem_of_nil in Hyin].
    eapply outcome_mono; [apply (place_phi_spec phis0 W' st' (Some xs) xs _ y); [done..|by apply Hnodes|]| |done].
    { eapply listed_frontier; [by apply (pl_listed _ _ _ HI)|by apply Hx]. }
    intros st'' (W'' & HI'' & Hpre' & Hhas & Hmono'). exists W''. split_and!; [done|by etrans| |by auto].
    intros c [Hc'|Hc']%elem_of_app; [by auto|]. by apply list_elem_of_singleton in Hc' as ->.
  - intros st' (W' & HI' & Hpre & Hl & Hmono). cbn. split; [done|]. exists W'. split_and!; [done|done|].
    assert (Hsame : forall i, i <= head -> znth W' i = znth W i).
    { intros i Hi. destruct Hpre as [rest ->]. destruct (decide (0 <= i)).
      - destruct (znth_is_Some W i) as [x Hxi]; [lia|]. rewrite Hxi. by apply znth_app_l.
      - rewrite !(proj2 (znth_None _ _)); [done|lia|lia]. }
    intros i d c Hi Hd Hc'. rewrite Hsame in Hd by lia. destruct (decide (i = head)) as [->|].
    + assert (d = b) as -> by congruence. apply Hl, Hx, Hc'.
    + apply Hmono. eapply Hsp; [|done|done]. lia.
Qed.

(** All the phis of the component. *)
Lemma place_component_spec phis0 worklist :
  zlength worklist = n -> zlength phis0 = n ->
  (forall b bp, znth phis0 b = Some bp -> zlength (bp_phis bp) < INT_MAX) ->
  outcome (place_component program cfg reg comp (worklist, phis0))
    (fun '(worklist', phis) => zlength worklist' = n /\ zlength phis = n /\ exists P : Z -> bool,
       (forall b bp0, znth phis0 b = Some bp0 -> znth phis b = Some (if P b
          then {| bp_phis := bp_phis bp0 ++ [new_phi reg comp (zlength (fg_pred G b))] |} else bp0)) /\
       (forall b c, node G b -> P b = true \/ (exists i, in_block_ i b /\ D i = true) ->
         in_frontier G b c -> P c = true) /\
       forall b, P b = true -> merges b)
    (fun _ => malloc_failed).
Proof.
  intros Hwl Hl0 Hsmall. pose proof (fg_count_ok G graph_ok) as Hn. unfold place_component.
  rewrite graph_block_count.
  assert (Hinit : placing phis0 [] {| ps_phis := phis0; ps_has_phi := filled n false;
    ps_visited := filled n false; ps_worklist := worklist; ps_work_count := 0 |}).
  { split; cbn; rewrite ?zlength_filled by lia.
    - split; [|done]. intros i x Hi%znth_Some. unfold zlength in Hi. cbn in Hi. lia.
    - done.
    - constructor.
    - by intros b ?%not_elem_of_nil.
    - by intros b ?%not_elem_of_nil.
    - split; [done|]. intros b v Hb. pose proof (znth_Some _ _ _ Hb) as Hr. rewrite zlength_filled in Hr by lia.
      rewrite znth_filled in Hb by lia. injection Hb as <-. by rewrite elem_of_nil.
    - split; [done|]. intros b Hb. pose proof (znth_Some _ _ _ Hb) as Hr. rewrite zlength_filled in Hr by lia.
      by rewrite znth_filled in Hb by lia.
    - split; [done|]. intros b bp0 h Hb Hh. rewrite znth_filled in Hh by (apply znth_Some in Hb; lia).
      by injection Hh as <-. }
  apply outcome_bind. eapply outcome_mono; [apply outcome_for with (F := fun _ => malloc_failed)
    (I := fun b st => exists W, placing phis0 W st /\ (forall c, c ∈ W -> c < b) /\
       (forall c, c < b -> node G c -> (exists i, in_block_ i c /\ D i = true) -> c ∈ W))| |done].
  { exists []. split_and!; [done| |].
    - by intros c ?%not_elem_of_nil.
    - intros c Hc Hnc. unfold node in Hnc. lia. }
  { intros b st Hb (W & HI & Hlt & Hseed).
    eapply outcome_mono; [apply seed_block_spec; [done|done|unfold node; lia]| |done].
    intros st' (W' & HI' & Hsub & Hlt' & Hin & _). exists W'. split_and!; [done|done|].
    intros c Hc Hnc Hd. destruct (decide (c = b)) as [->|]; [by apply Hin|]. apply Hsub, Hseed; [lia|done|done]. }
  rewrite Z2Nat.id, Z.add_0_l by lia. intros st (W & HI & _ & Hseed). apply outcome_bind.
  eapply outcome_mono; [apply outcome_while with (F := fun _ => malloc_failed)
    (I := fun '(head, st) => 0 <= head /\ exists W', placing phis0 W' st /\ W `prefix_of` W' /\ head <= zlength W' /\
       spread W' head st) (μ := fun '(head, _) => Z.to_nat (n - head))| |done].
  - split; [done|]. exists W. split_and!; [done|done|apply zlength_nonneg|].
    intros i b c Hi Hb. apply znth_Some in Hb. lia.
  - lia.
  - intros [head st'] (Hh0 & W' & HI' & Hpre & Hh & Hsp) Hc. cbn [fst snd] in Hc.
    rewrite (pl_count _ _ _ HI') in Hc. apply Z.ltb_lt in Hc.
    assert (Hroom : zlength W' <= n).
    { apply zlength_NoDup_le; [lia|apply HI'|apply HI']. }
    split; [lia|]. eapply outcome_mono; [by apply (place_step_spec phis0 W'); [..|lia|]| |done].
    intros [head' st''] (-> & W'' & HI'' & Hpre' & Hsp'). split; [|lia]. split; [lia|].
    exists W''. split_and!; [done|by etrans| |done]. apply prefix_length in Hpre'. unfold zlength in *. lia.
  - intros [head st'] ((Hh0 & W' & HI' & Hpre & Hh & Hsp) & Hc). cbn [fst snd] in Hc.
    rewrite (pl_count _ _ _ HI') in Hc. apply Z.ltb_ge in Hc. cbn.
    pose proof (pl_has _ _ _ HI') as [Hhl Hhas]. pose proof (pl_phis _ _ _ HI') as [Hpl Hp].
    split; [apply HI'|]. split; [done|]. exists (fun b => default false (znth (ps_has_phi st') b)). split_and!.
    + intros b bp0 Hb. pose proof (znth_Some _ _ _ Hb). destruct (znth_is_Some (ps_has_phi st') b) as [h Hhb]; [lia|].
      rewrite Hhb. by apply Hp.
    + intros b c Hnb Hb Hf. assert (Hin : b ∈ W').
      { destruct Hb as [Hb|Hd].
        - apply (proj1 (A := b ∈ W') (B := merges b)), Hhas. by destruct (znth (ps_has_phi st') b) as [[]|].
        - eapply list.elem_of_prefix; [|exact Hpre]. apply Hseed; [unfold node in Hnb; lia|done|done]. }
      apply znth_elem_of in Hin as [i Hi]. rewrite (Hsp i b c); [done| |done|done]. apply znth_Some in Hi. lia.
    + intros b Hb. apply Hhas. by destruct (znth (ps_has_phi st') b) as [[]|].
Qed.
End component.

(** * All components *)

Abbreviation n := (fg_count G).
Abbreviation registers := (up_temp_count program).

(** The phis of the components up to the [k]th. *)
Record placed (k : Z) (phis : list HLSLBlockPhis) : Prop := {
  pc_length : zlength phis = n;
  pc_few b bp : znth phis b = Some bp -> zlength (bp_phis bp) <= k;
  pc_phi b bp phi : znth phis b = Some bp -> phi ∈ bp_phis bp ->
    exists reg comp, phi = new_phi reg comp (zlength (fg_pred G b)) /\
      0 <= reg < registers /\ 0 <= comp < 4 /\ version_index reg comp < k;
  pc_closed reg comp b c : 0 <= reg < registers -> 0 <= comp < 4 -> version_index reg comp < k ->
    has_phi phis reg comp b = true \/ (exists i, in_block_ i b /\ defines program reg comp i = true) ->
    in_frontier G b c -> has_phi phis reg comp c = true;
  pc_merges reg comp b : has_phi phis reg comp b = true -> iterated end_ starts G (defines program reg comp) b;
}.

Lemma in_block_node i b : in_block_ i b -> node G b.
Proof. intros (x & Hx & _). unfold node. rewrite graph_nodes. by apply znth_Some in Hx. Qed.

Lemma place_next reg comp worklist phis :
  0 <= reg < registers -> 0 <= comp < 4 -> version_index reg comp < INT_MAX ->
  zlength worklist = n -> placed (version_index reg comp) phis ->
  outcome (place_component program cfg reg comp (worklist, phis))
    (fun '(worklist', phis') => zlength worklist' = n /\ placed (version_index reg comp + 1) phis')
    (fun _ => malloc_failed).
Proof.
  intros Hr Hc Hk Hw [Hl Hfew Hphi Hclosed Hmerges].
  eapply outcome_mono; [apply place_component_spec; [done|done|]| |done].
  { intros b bp Hb. specialize (Hfew b bp Hb). lia. }
  intros [worklist' phis'] (Hw' & Hl' & P & Hp & Hcl & Hmg). split; [done|].
  assert (Hback : forall b bp', znth phis' b = Some bp' -> exists bp, znth phis b = Some bp /\
    bp' = if P b then {| bp_phis := bp_phis bp ++ [new_phi reg comp (zlength (fg_pred G b))] |} else bp).
  { intros b bp' Hb. pose proof (znth_Some _ _ _ Hb). destruct (znth_is_Some phis b) as [bp Hbp]; [lia|].
    exists bp. split; [done|]. rewrite (Hp _ _ Hbp) in Hb. congruence. }
  assert (Hnode : forall b r c, (r, c) ∈ phi_keys phis' b -> node G b).
  { intros b r c. unfold phi_keys. destruct (znth phis' b) as [bp|] eqn:Hb; [|by intros ?%not_elem_of_nil].
    apply znth_Some in Hb. unfold node. lia. }
  assert (Hkeys : forall b r c, node G b ->
    (r, c) ∈ phi_keys phis' b <-> (r, c) ∈ phi_keys phis b \/ (P b = true /\ r = reg /\ c = comp)).
  { intros b r c Hb. unfold node in Hb. destruct (znth_is_Some phis b) as [bp Hbp]; [lia|].
    rewrite (phi_keys_at _ _ _ Hbp), (phi_keys_at _ _ _ (Hp _ _ Hbp)). destruct (P b).
    2:{ split; [by left|]. by intros [?|[? _]]. }
    cbn [bp_phis]. rewrite fmap_app, elem_of_app. change (phi_key <$> [_]) with [(reg, comp)].
    rewrite list_elem_of_singleton. split; [intros [?|[= -> ->]]; [by left|by right]|].
    intros [?|(_ & -> & ->)]; [by left|by right]. }
  assert (Hold : forall r c b, has_phi phis r c b = true -> version_index r c < version_index reg comp).
  { intros r c b. rewrite has_phi_iff. unfold phi_keys. destruct (znth phis b) as [bp|] eqn:Hb; [|by intros ?%not_elem_of_nil].
    intros (phi & Heq & Hin)%list_elem_of_fmap.
    destruct (Hphi b bp phi Hb Hin) as (r' & c' & -> & _ & _ & Hlt). by injection Heq as -> ->. }
  split; [done|..].
  - intros b bp' (bp & Hb & ->)%Hback. specialize (Hfew b bp Hb). destruct (P b); [|lia].
    cbn. rewrite zlength_snoc. lia.
  - intros b bp' phi (bp & Hb & ->)%Hback Hin. assert (Hcase : phi ∈ bp_phis bp \/
      phi = new_phi reg comp (zlength (fg_pred G b))).
    { destruct (P b); [|by left]. cbn in Hin. by rewrite elem_of_app, list_elem_of_singleton in Hin. }
    destruct Hcase as [Hin'| ->]; [|exists reg, comp; split_and!; done || lia].
    destruct (Hphi b bp phi Hb Hin') as (r & c & -> & ? & ? & ?). exists r, c. split_and!; done || lia.
  - intros r c b d Hr' Hc' Hlt Hor Hf. pose proof Hf as [(p & Hpe & Hdom) _].
    assert (Hnd : node G d) by by apply (fg_edge_node G graph_ok p).
    assert (Hnb : node G b).
    { destruct Hor as [Hb|(i & Hi & _)]; [|by eapply in_block_node]. apply has_phi_iff in Hb. by eapply Hnode. }
    apply has_phi_iff, Hkeys; [done|].
    destruct (decide (r = reg /\ c = comp)) as [[-> ->]|Hne].
    + right. split; [|done]. apply (Hcl b d Hnb); [|done]. destruct Hor as [Hb|]; [left|by right].
      apply has_phi_iff, Hkeys in Hb; [|done]. destruct Hb as [Hb|[? _]]; [|done].
      apply has_phi_iff, Hold in Hb. lia.
    + left. apply has_phi_iff, (Hclosed r c b d Hr' Hc'); [|destruct Hor as [Hb|]; [left|by right]|done].
      * unfold version_index in *. lia.
      * apply has_phi_iff, Hkeys in Hb; [|done]. apply has_phi_iff. destruct Hb as [|(_ & -> & ->)]; [done|]. by destruct Hne.
  - intros r c b Hb. apply has_phi_iff in Hb. pose proof (Hnode _ _ _ Hb) as Hnb.
    apply Hkeys in Hb as [Hb|(Hb & -> & ->)]; [by apply Hmerges, has_phi_iff|by apply Hmg|done].
Qed.

Lemma place_phis_spec :
  0 <= registers -> registers * 4 <= INT_MAX ->
  outcome (place_phis program cfg registers (filled n {| bp_phis := [] |})) (placed (registers * 4))
    (fun _ => malloc_failed).
Proof.
  intros Hr0 Hr. pose proof (fg_count_ok G graph_ok) as Hn. unfold place_phis. rewrite graph_block_count.
  apply outcome_bind. eapply outcome_mono; [apply outcome_for with (F := fun _ => malloc_failed)
    (I := fun reg st => zlength st.1 = n /\ placed (version_index reg 0) st.2)| |done].
  - cbn. split; [apply zlength_uninitialised; lia|].
    assert (Hat : forall b bp, znth (filled n {| bp_phis := [] |}) b = Some bp -> bp = {| bp_phis := [] |}).
    { intros b bp Hb. pose proof (znth_Some _ _ _ Hb) as Hlt. rewrite zlength_filled in Hlt by lia.
      rewrite znth_filled in Hb by lia. congruence. }
    split; [apply zlength_filled; lia|..].
    + by intros b bp ->%Hat.
    + intros b bp phi ->%Hat ?%not_elem_of_nil. done.
    + intros reg comp b c Hreg Hcomp. unfold version_index. lia.
    + intros reg comp b Hb. exfalso. apply has_phi_iff in Hb. unfold phi_keys in Hb.
      destruct (znth (filled n {| bp_phis := [] |}) b) as [bp|] eqn:Hz; [|by apply not_elem_of_nil in Hb].
      apply Hat in Hz as ->. by apply not_elem_of_nil in Hb.
  - intros reg [worklist phis] Hreg [Hw Hp].
    assert (Hstep : outcome (for_loop 4 0 (fun comp => place_component program cfg reg comp) (worklist, phis))
      (fun st => zlength st.1 = n /\ placed (version_index reg (0 + Z.of_nat 4)) st.2) (fun _ => malloc_failed)).
    { apply outcome_for with (I := fun comp st => zlength st.1 = n /\ placed (version_index reg comp) st.2); [done|].
      intros comp [worklist' phis'] Hcomp [Hw' Hp']. cbn [fst snd] in *.
      eapply outcome_mono; [apply place_next; [lia|lia|unfold version_index, INT_MAX in *; lia|done|done]| |done].
      intros [wl ph] [Hwl Hph]. split; [done|]. cbn. by replace (version_index reg (comp + 1)) with
        (version_index reg comp + 1) by (unfold version_index; lia). }
    eapply outcome_mono; [exact Hstep| |done]. intros [wl ph] [Hwl Hph]. split; [done|]. cbn [fst snd] in *.
    by replace (version_index (reg + 1) 0) with (version_index reg (0 + Z.of_nat 4)) by (unfold version_index; lia).
  - intros [worklist phis] [_ Hp]. cbn [fst snd] in *.
    by replace (registers * 4) with (version_index (0 + Z.of_nat (Z.to_nat registers)) 0) by (unfold version_index; lia).
Qed.
End graph.

(** The children of the dominator tree: counted, allocated, and written row by
    row. *)

Section children.
Context `{U : UnityCommon} {HU : UnityCommonSpec U} `{L : LibcMalloc}.
Context (G : flow_graph) (HG : flow_graph_ok G) (cfg : HLSLControlFlowGraph) (idom : list Z).
Context (Hcount : cfg_block_count cfg = fg_count G) (Hidom : cfg_idom cfg = Some idom).
Context (HD : dominator_tree G idom).

Abbreviation up := (at_ idom).
Abbreviation n := (fg_count G).

(** The children of [b] among the blocks below [i], in their order. *)
Definition children_below (b i : Z) : list Z := base.filter (fun c => up c = b /\ c <> b) (seqZ 0 i).
Definition children (b : Z) : list Z := children_below b n.

Lemma children_iff b c : c ∈ children b <-> node G c /\ up c = b /\ c <> b.
Proof. unfold children, children_below, node. rewrite list_elem_of_filter, elem_of_seqZ. split; intros; destruct_and?; split_and!; done || lia. Qed.

Lemma children_nodup b : NoDup (children b).
Proof. apply list.NoDup_filter, NoDup_seqZ. Qed.

Lemma children_next b i : 0 <= i ->
  children_below b (i + 1) = children_below b i ++ if decide (up i = b /\ i <> b) then [i] else [].
Proof.
  intros Hi. unfold children_below. rewrite seqZ_app by lia. rewrite list.filter_app, Z.add_0_l. f_equal.
Qed.

Lemma children_room b i : 0 <= i < n -> up i = b -> i <> b -> zlength (children_below b i) < zlength (children b).
Proof.
  intros Hi Hu Hne. assert (Hsub : children_below b (i + 1) `prefix_of` children b).
  { unfold children, children_below. replace n with ((i + 1) + (n - (i + 1))) by lia.
    rewrite (seqZ_app 0 (i + 1)) by lia. rewrite list.filter_app. by apply prefix_app_r. }
  apply prefix_length in Hsub. rewrite children_next, decide_True in Hsub by (done || lia).
  rewrite length_app in Hsub. cbn in Hsub. unfold zlength. lia.
Qed.

Lemma children_zero b : children_below b 0 = [].
Proof. done. Qed.

(** What one more block changes: its parent's list. *)
Lemma parent_case {E} i : 0 <= i < n ->
  (exists p, aget (E:=E) idom i = Ret p /\ (0 <=? p) && negb (p =? i) = true /\ node G p /\
     (forall b, node G b -> children_below b (i + 1) = children_below b i ++ if decide (b = p) then [i] else []) /\
     zlength (children_below p i) < zlength (children p)) \/
  (exists p, aget (E:=E) idom i = Ret p /\ (0 <=? p) && negb (p =? i) = false /\
     forall b, node G b -> children_below b (i + 1) = children_below b i).
Proof.
  intros Hi. rewrite (aget_at idom i) by by rewrite (dt_length _ _ HD).
  destruct ((0 <=? up i) && negb (up i =? i)) eqn:Hb; [left|right]; exists (up i).
  - apply andb_true_iff in Hb as [Hp Hne]. apply Z.leb_le in Hp. apply negb_true_iff, Z.eqb_neq in Hne.
    split_and!; [done|rewrite (proj2 (Z.leb_le _ _)), (proj2 (Z.eqb_neq _ _)) by lia; done| | |].
    + apply (reachable_node G HG), (idom_reachable G idom HD). by apply (dt_done _ _ HD).
    + intros b Hbn. rewrite children_next by lia. f_equal.
      destruct (decide (b = up i)) as [->|Hbu]; [by rewrite decide_True by (split; [done|congruence])|].
      rewrite decide_False; [done|]. intros [? _]. congruence.
    + apply children_room; [lia|done|congruence].
  - split_and!; [done|done|]. intros b Hbn. rewrite children_next, decide_False, app_nil_r; [done| |lia].
    intros [Hu Hne]. apply andb_false_iff in Hb as [Hb|Hb].
    + apply Z.leb_gt in Hb. unfold node in Hbn. lia.
    + apply negb_false_iff, Z.eqb_eq in Hb. congruence.
Qed.

(** The rows and their lengths. *)
Definition rows_hold (i : Z) (st : list (option cells) * list Z) : Prop :=
  zlength st.1 = n /\ zlength st.2 = n /\ forall b, node G b ->
    znth st.2 b = Some (zlength (children_below b i)) /\
    (0 < zlength (children b) -> exists row, znth st.1 b = Some (Some row) /\
       zlength row = zlength (children b) /\ wrote row (children_below b i)).

Lemma add_child_spec {E} i st : 0 <= i < n -> rows_hold i st ->
  outcome (add_child (E:=E) idom i st) (rows_hold (i + 1)) (fun _ => False).
Proof.
  destruct st as [rows counts]. intros Hi (Hr & Hc & Hat). cbn [fst snd] in *. unfold add_child.
  destruct (parent_case (E:=E) i Hi) as [(p & -> & Hb & Hp & Hnext & Hroom)|(p & -> & Hb & Hnext)];
    mstep; rewrite Hb; cbn [outcome].
  - destruct (Hat p Hp) as [Hcp Hrow]. destruct Hrow as (row & Hrp & Hl & Hw).
    { pose proof (zlength_nonneg (children_below p i)). lia. }
    rewrite (aget_ok _ _ _ Hcp). mstep. rewrite (aget_ok _ _ _ Hrp). mstep. cbn [ptr]. mstep. unfold cput.
    unfold node in Hp. pose proof (zlength_nonneg (children_below p i)).
    rewrite !aput_ok by lia. mstep. rewrite ?aput_ok by lia. cbn.
    split; [cbn; by rewrite zlength_zset|]. split; [cbn; by rewrite zlength_zset|]. cbn [fst snd].
    intros b Hnb. rewrite (Hnext b Hnb). case_decide as Hd.
    + subst b. rewrite !znth_zset_eq by lia. split; [by rewrite zlength_snoc|]. intros _.
      eexists. split; [done|]. split; [by rewrite zlength_zset|].
      destruct (wrote_push _ _ i Hw) as [|]; [done|lia].
    + rewrite !znth_zset_ne by done. rewrite app_nil_r. by apply Hat.
  - split; [done|]. split; [done|]. intros b Hnb. rewrite (Hnext b Hnb). by apply Hat.
Qed.

Lemma count_children_spec {E} :
  outcome (for_loop (Z.to_nat n) 0 (count_child (E:=E) idom) (filled n 0))
    (fun counts => zlength counts = n /\ forall b, node G b -> znth counts b = Some (zlength (children b)))
    (fun _ => False).
Proof.
  pose proof (fg_count_ok G HG) as Hn.
  eapply outcome_mono; [apply outcome_for with (F := fun _ => False) (I := fun i counts => zlength counts = n /\
    forall b, node G b -> znth counts b = Some (zlength (children_below b i)))| |done].
  - split; [apply zlength_filled; lia|]. intros b Hb. by rewrite znth_filled.
  - intros i counts Hi [Hl Hat]. unfold count_child.
    destruct (parent_case (E:=E) i ltac:(lia)) as [(p & -> & Hb & Hp & Hnext & Hroom)|(p & -> & Hb & Hnext)];
      mstep; rewrite Hb; cbn [outcome].
    + rewrite (aupd_ok _ _ _ _ (Hat p Hp)). cbn. split; [by rewrite zlength_zset|]. intros b Hnb.
      rewrite (Hnext b Hnb). case_decide as Hd.
      * subst b. unfold node in Hp. rewrite znth_zset_eq by lia. by rewrite zlength_snoc.
      * rewrite znth_zset_ne by done. rewrite app_nil_r. by apply Hat.
    + split; [done|]. intros b Hnb. rewrite (Hnext b Hnb). by apply Hat.
  - intros counts [Hl Hat]. split; [done|]. intros b Hb. rewrite (Hat b Hb).
    unfold children. by replace (0 + Z.of_nat (Z.to_nat n)) with n by lia.
Qed.

Lemma allocate_rows_spec counts :
  zlength counts = n -> (forall b, node G b -> znth counts b = Some (zlength (children b))) ->
  outcome (for_loop (Z.to_nat n) 0 allocate_row (filled n None, counts)) (rows_hold 0) (fun _ => malloc_failed).
Proof.
  intros Hl Hat. pose proof (fg_count_ok G HG) as Hn.
  eapply outcome_mono; [apply outcome_for with (F := fun _ => malloc_failed) (I := fun i st =>
    zlength st.1 = n /\ zlength st.2 = n /\ forall b, node G b ->
      znth st.2 b = Some (if decide (b < i) then 0 else zlength (children b)) /\
      (b < i -> 0 < zlength (children b) -> znth st.1 b = Some (Some (uninitialised (zlength (children b))))))| |done].
  - cbn. split; [apply zlength_filled; lia|]. split; [done|]. intros b Hb.
    rewrite decide_False by (unfold node in Hb; lia). split; [by apply Hat|unfold node in Hb; lia].
  - intros i [rows cs] Hi (Hr & Hc & Hall). cbn [fst snd] in *. unfold allocate_row.
    assert (Hni : node G i) by (unfold node; lia). destruct (Hall i Hni) as [Hci _].
    rewrite decide_False in Hci by lia. rewrite (aget_ok _ _ _ Hci). mstep.
    destruct ((0 <? _) && _) eqn:Hm.
    { apply andb_true_iff in Hm as [_ Hm]. apply negb_true_iff in Hm. by eexists. }
    rewrite !aput_ok by lia. mstep. rewrite ?aput_ok by lia. mstep. cbn.
    split; [by rewrite zlength_zset|]. split; [by rewrite zlength_zset|]. intros b Hb.
    destruct (decide (b = i)) as [->|Hne].
    + rewrite !znth_zset_eq by lia. rewrite decide_True by lia. split; [done|]. intros _ Hpos.
      by rewrite (proj2 (Z.ltb_lt _ _) Hpos).
    + rewrite !znth_zset_ne by done. destruct (Hall b Hb) as [Hcb Hrb]. split.
      * rewrite Hcb. f_equal. destruct (decide (b < i)), (decide (b < i + 1)); done || lia.
      * intros ?. apply Hrb. lia.
  - intros [rows cs] (Hr & Hc & Hall). cbn [fst snd] in *. split; [done|]. split; [done|]. intros b Hb.
    destruct (Hall b Hb) as [Hcb Hrb]. unfold node in Hb. cbn [fst snd].
    rewrite decide_True in Hcb by lia. split; [done|]. intros Hpos. eexists. split; [apply Hrb; [lia|done]|].
    split; [apply zlength_uninitialised; unfold zlength; lia|]. intros k x Hk. rewrite children_zero in Hk. apply znth_Some in Hk. unfold zlength in Hk. cbn in Hk. lia.
Qed.

Lemma dominator_children_spec :
  outcome (dominator_children cfg) (rows_hold n) (fun _ => malloc_failed).
Proof.
  pose proof (fg_count_ok G HG) as Hn. unfold dominator_children. rewrite Hcount.
  destruct (libc_malloc (u64 (n * 4))) eqn:Hm1; [|by eexists].
  destruct (libc_malloc (u64 (n * 8))) eqn:Hm2; [|by eexists]. cbn [andb negb]. rewrite Hidom. cbn [ptr]. mstep.
  apply outcome_bind. eapply outcome_mono; [apply count_children_spec| |done]. intros counts [Hl Hat].
  apply outcome_bind. eapply outcome_mono; [by apply allocate_rows_spec| |done]. intros st Hst.
  eapply outcome_mono; [apply outcome_for with (F := fun _ => False) (I := rows_hold)| |done].
  - done.
  - intros i st' Hi. apply add_child_spec. lia.
  - intros st'. by replace (0 + Z.of_nat (Z.to_nat n)) with n by lia.
Qed.
End children.
