(* ===== verification/SsaState.v ===== *)
(** The state of the renaming: what its variables stand for, that a new one
    disturbs none of the old, and that the undo log gives the active versions
    back. *)

From stdpp Require Import relations.
From S2P Require Import Prelude CArray UnityCommon Heap Usil SsaGraph Cfg FlowGraph Ssa SsaMeaning.

#[local] Set Warnings "-register-all".

(** * The phis *)

Definition phi_of (phis : list HLSLBlockPhis) (b k : Z) : option HLSLPhiNode :=
  bp ← znth phis b; znth (bp_phis bp) k.

(** The same phis in the same places, related one by one. *)
Record phis_related (R : Z -> HLSLPhiNode -> HLSLPhiNode -> Prop) (phis phis' : list HLSLBlockPhis) : Prop := {
  pr_length : zlength phis' = zlength phis;
  pr_phi b k : option_Forall2 (R b) (phi_of phis b k) (phi_of phis' b k);
}.

#[export] Instance phis_related_preorder R : (forall b, PreOrder (R b)) -> PreOrder (phis_related R).
Proof.
  intros HR. split.
  - intros phis. split; [done|]. intros b k. destruct (phi_of phis b k); by constructor.
  - intros p1 p2 p3 [H1 H2] [H3 H4]. split; [congruence|]. intros b k. specialize (H2 b k). specialize (H4 b k).
    destruct H2 as [x y Hxy|]; inversion_clear H4; constructor. by etrans.
Qed.

Lemma phis_related_mono (R R' : Z -> HLSLPhiNode -> HLSLPhiNode -> Prop) phis phis' :
  (forall b x y, R b x y -> R' b x y) -> phis_related R phis phis' -> phis_related R' phis phis'.
Proof.
  intros Himp [Hl Hp]. split; [done|]. intros b k. destruct (Hp b k); constructor. by apply Himp.
Qed.

Lemma phis_related_forward R phis phis' b k phi :
  phis_related R phis phis' -> phi_of phis b k = Some phi ->
  exists phi', phi_of phis' b k = Some phi' /\ R b phi phi'.
Proof. intros [_ Hp] Hb. specialize (Hp b k). rewrite Hb in Hp. inversion_clear Hp. eauto. Qed.

Lemma phis_related_back R phis phis' b k phi' :
  phis_related R phis phis' -> phi_of phis' b k = Some phi' ->
  exists phi, phi_of phis b k = Some phi /\ R b phi phi'.
Proof. intros [_ Hp] Hb. specialize (Hp b k). rewrite Hb in Hp. inversion_clear Hp. eauto. Qed.

Lemma phi_at_ok {E} phis b k phi : phi_of phis b k = Some phi -> phi_at (E:=E) phis b k = Ret phi.
Proof.
  unfold phi_of, phi_at. destruct (znth phis b) as [bp|] eqn:Hb; [|done]. cbn. intros Hk.
  rewrite (aget_ok _ _ _ Hb). mstep. by apply aget_ok.
Qed.

Lemma put_phi_ok {E} phis b k phi phi' : phi_of phis b k = Some phi -> exists phis',
  put_phi (E:=E) phis b k phi' = Ret phis' /\ zlength phis' = zlength phis /\
  phi_of phis' b k = Some phi' /\
  forall b' k', b' <> b \/ k' <> k -> phi_of phis' b' k' = phi_of phis b' k'.
Proof.
  unfold phi_of at 1, put_phi. destruct (znth phis b) as [bp|] eqn:Hb; [|done]. cbn. intros Hk.
  pose proof (znth_Some _ _ _ Hb) as Hbr. pose proof (znth_Some _ _ _ Hk) as Hkr.
  rewrite (aget_ok _ _ _ Hb). mstep. rewrite aput_ok by done. mstep. rewrite aput_ok by done.
  eexists. split; [done|]. split; [apply zlength_zset|]. unfold phi_of. split.
  - rewrite znth_zset_eq by done. cbn. by rewrite znth_zset_eq.
  - intros b' k' Hne. destruct (decide (b' = b)) as [->|]; [|by rewrite znth_zset_ne].
    rewrite znth_zset_eq, Hb by done. cbn. destruct Hne; [done|]. by rewrite znth_zset_ne.
Qed.

(** An assignment to a phi is a step of any relation it respects. *)
Lemma put_phi_related {E} (R : Z -> HLSLPhiNode -> HLSLPhiNode -> Prop) phis b k phi phi' :
  (forall b, Reflexive (R b)) -> phi_of phis b k = Some phi -> R b phi phi' -> exists phis',
  put_phi (E:=E) phis b k phi' = Ret phis' /\ phis_related R phis phis' /\
  phi_of phis' b k = Some phi' /\
  forall b' k', b' <> b \/ k' <> k -> phi_of phis' b' k' = phi_of phis b' k'.
Proof.
  intros Hrefl Hk HR. destruct (put_phi_ok (E:=E) phis b k phi phi' Hk) as (phis' & Hrun & Hl & Hsame & Hrest).
  exists phis'. split_and!; [done| |done|done]. split; [done|]. intros b' k'.
  destruct (decide (b' = b /\ k' = k)) as [[-> ->]|Hne].
  - rewrite Hk, Hsame. by constructor.
  - rewrite Hrest by (destruct (decide (b' = b)); [right|left]; tauto).
    destruct (phi_of phis b' k'); constructor. apply Hrefl.
Qed.

(** What never changes of a phi. *)
Definition phi_like (_ : Z) (phi phi' : HLSLPhiNode) : Prop :=
  phi_register_index phi' = phi_register_index phi /\ phi_component phi' = phi_component phi /\
  zlength (phi_incoming_vars phi') = zlength (phi_incoming_vars phi) /\
  zlength (phi_incoming_blocks phi') = zlength (phi_incoming_blocks phi).

#[export] Instance phi_like_preorder b : PreOrder (phi_like b).
Proof. split; [done|]. intros x y z (? & ? & ? & ?) (? & ? & ? & ?). split_and!; congruence. Qed.

(** What the renaming of block [q] changes: the variables of its own phis, and
    its slots in the others. *)
Record phi_frame (G : flow_graph) (q : Z) (b : Z) (phi phi' : HLSLPhiNode) : Prop := {
  pf_like : phi_like b phi phi';
  pf_var : b <> q -> phi_ssa_var phi' = phi_ssa_var phi;
  pf_slot s : znth (fg_pred G b) s <> Some q ->
    znth (phi_incoming_vars phi') s = znth (phi_incoming_vars phi) s /\
    znth (phi_incoming_blocks phi') s = znth (phi_incoming_blocks phi) s;
}.

#[export] Instance phi_frame_preorder G q b : PreOrder (phi_frame G q b).
Proof.
  split; [by split|]. intros x y z [L1 V1 S1] [L2 V2 S2]. split; [by etrans|..].
  - intros Hb. by rewrite V2, V1.
  - intros s Hs. destruct (S1 s Hs) as [<- <-]. by apply S2.
Qed.

(** A variable that is set stays. *)
Definition phi_kept (_ : Z) (phi phi' : HLSLPhiNode) : Prop :=
  phi_register_index phi' = phi_register_index phi /\ phi_component phi' = phi_component phi /\
  (0 <= phi_ssa_var phi -> phi_ssa_var phi' = phi_ssa_var phi).

#[export] Instance phi_kept_preorder b : PreOrder (phi_kept b).
Proof.
  split; [done|]. intros x y z (? & ? & Hv) (? & ? & Hw). split_and!; [congruence..|].
  intros Hx. rewrite Hw; [by apply Hv|]. by rewrite Hv.
Qed.

(** * What variables stand for *)

(** Nothing that is named is renamed. *)
Record extends (st st' : rename_state) : Prop := {
  ex_next : rn_next st <= rn_next st';
  ex_defs v : v < rn_next st -> znth (rn_defs st') v = znth (rn_defs st) v;
  ex_phis : phis_related phi_kept (rn_phis st) (rn_phis st');
}.

#[export] Instance extends_preorder : PreOrder extends.
Proof.
  split; [by split|]. intros x y z [N1 D1 P1] [N2 D2 P2]. split; [lia| |by etrans].
  intros v Hv. rewrite D2 by lia. by apply D1.
Qed.

(** Variable [v] of a register component stands for a meaning. *)
Definition denotes (st : rename_state) (reg comp v : Z) (m : meaning) : Prop :=
  match m with
  | Undefined => v = -1
  | Defined d => 0 <= v < rn_next st /\ znth (rn_defs st) v = Some (Some d)
  | Merged b => 0 <= v < rn_next st /\ znth (rn_defs st) v = Some (Some HLSL_DEFINITION_AMBIGUOUS) /\
      exists k phi, phi_of (rn_phis st) b k = Some phi /\ phi_register_index phi = reg /\
        phi_component phi = comp /\ phi_ssa_var phi = v
  end.

Lemma denotes_mono st st' reg comp v m : extends st st' -> denotes st reg comp v m -> denotes st' reg comp v m.
Proof.
  intros [Hn Hd Hp]. destruct m as [|d|b]; cbn; [done|..].
  - intros [Hv <-]. split; [lia|]. apply Hd. lia.
  - intros (Hv & <- & k & phi & Hk & <- & <- & Hsv). split; [lia|]. split; [apply Hd; lia|].
    destruct (phis_related_forward _ _ _ _ _ _ Hp Hk) as (phi' & Hk' & ? & ? & Hv').
    exists k, phi'. split_and!; [done..|]. rewrite Hv'; [done|lia].
Qed.

Section registers.
Context (registers : Z).

Definition in_registers (reg comp : Z) : Prop := 0 <= reg < registers /\ 0 <= comp < 4.

Lemma version_range reg comp : in_registers reg comp -> 0 <= version_index reg comp < registers * 4.
Proof. unfold in_registers, version_index. lia. Qed.

Lemma version_inj r c r' c' : in_registers r c -> in_registers r' c' ->
  version_index r c = version_index r' c' -> r = r' /\ c = c'.
Proof. unfold in_registers, version_index. lia. Qed.

(** The active versions stand for meanings. *)
Definition active_means (st : rename_state) (active : list Z) (M : Z -> Z -> meaning) : Prop :=
  zlength active = registers * 4 /\ forall reg comp, in_registers reg comp ->
    exists v, znth active (version_index reg comp) = Some v /\ denotes st reg comp v (M reg comp).

Lemma active_means_mono st st' active M : extends st st' -> active_means st active M -> active_means st' active M.
Proof.
  intros He [Hl Ha]. split; [done|]. intros reg comp Hr. destruct (Ha reg comp Hr) as (v & Hv & Hd).
  exists v. split; [done|]. by eapply denotes_mono.
Qed.

(** Those of [W] stand for [m], the others for what they stood for. *)
Definition active_mix (st : rename_state) (W : Z -> Z -> Prop) (m : meaning) (M : Z -> Z -> meaning) : Prop :=
  zlength (rn_active st) = registers * 4 /\ forall reg comp, in_registers reg comp ->
    exists v, znth (rn_active st) (version_index reg comp) = Some v /\
      ((W reg comp /\ denotes st reg comp v m) \/ (~ W reg comp /\ denotes st reg comp v (M reg comp))).

Lemma active_mix_iff st W W' m M :
  (forall r c, in_registers r c -> W r c <-> W' r c) -> active_mix st W m M -> active_mix st W' m M.
Proof.
  intros HW [Hl Ha]. split; [done|]. intros r c Hr. destruct (Ha r c Hr) as (v & Hv & Hor).
  exists v. split; [done|]. by rewrite <- (HW r c Hr).
Qed.

Lemma active_mix_none st m M : active_means st (rn_active st) M -> active_mix st (fun _ _ => False) m M.
Proof.
  intros [Hl Ha]. split; [done|]. intros r c Hr. destruct (Ha r c Hr) as (v & Hv & Hd). exists v. split; [done|].
  right. tauto.
Qed.

Lemma active_mix_means st (W : Z -> Z -> bool) m M :
  active_mix st (fun r c => W r c = true) m M ->
  active_means st (rn_active st) (fun r c => if W r c then m else M r c).
Proof.
  intros [Hl Ha]. split; [done|]. intros r c Hr. destruct (Ha r c Hr) as (v & Hv & Hor). exists v. split; [done|].
  destruct Hor as [[-> ?]|[Hn ?]]; [done|]. apply not_true_iff_false in Hn. by rewrite Hn.
Qed.

(** One more register component. *)
Lemma active_mix_add st st' W m M reg comp v :
  active_mix st W m M -> extends st st' -> in_registers reg comp ->
  rn_active st' = zset (rn_active st) (version_index reg comp) v -> denotes st' reg comp v m ->
  active_mix st' (fun r c => W r c \/ (r = reg /\ c = comp)) m M.
Proof.
  intros [Hl Ha] He Hr Hact Hd. pose proof (version_range reg comp Hr) as Hx.
  split; [by rewrite Hact, zlength_zset|]. intros r c Hrc. rewrite Hact.
  destruct (decide (version_index r c = version_index reg comp)) as [Heq|Hne].
  - apply version_inj in Heq as [-> ->]; [|done|done]. exists v. rewrite znth_zset_eq by lia. split; [done|]. left. tauto.
  - rewrite znth_zset_ne by done. destruct (Ha r c Hrc) as (w & Hw & Hor). exists w. split; [done|].
    assert (Hno : ~ (r = reg /\ c = comp)) by (intros [-> ->]; done).
    destruct Hor as [[? Hdw]|[? Hdw]]; [left|right]; (split; [tauto|by eapply denotes_mono]).
Qed.
End registers.

(** * The undo log *)

(** Unwinding to [u] entries leaves [r]. *)
Definition undone (u : Z) (st : rename_state) (r : list RenamingUndoEntry * list Z) : Prop :=
  u <= zlength (ul_entries (rn_undo st)) /\
  unwind (E:=unit) (ul_entries (rn_undo st)) u (rn_active st) = Ret r.

Lemma undone_here st : undone (zlength (ul_entries (rn_undo st))) st (ul_entries (rn_undo st), rn_active st).
Proof. split; [done|]. destruct (ul_entries (rn_undo st)); cbn [unwind]; by rewrite (proj2 (Z.leb_le _ _)). Qed.

(** Nothing is lost but what is logged. *)
Record evolves (st st' : rename_state) : Prop := {
  ev_extends : extends st st';
  ev_undone u r : undone u st r -> undone u st' r;
}.

#[export] Instance evolves_preorder : PreOrder evolves.
Proof. split; [by split|]. intros x y z [E1 U1] [E2 U2]. split; [by etrans|]. auto. Qed.

Lemma zset_back {A} (xs : list A) i x v : znth xs i = Some x -> zset (zset xs i v) i x = xs.
Proof.
  intros Hx. apply znth_Some in Hx as Hr. unfold zset. rewrite (proj2 (Z.leb_le _ _)) by lia.
  rewrite list_insert_insert_eq. apply list_insert_id. by rewrite <- znth_nonneg by lia.
Qed.

(** A logged assignment is undone. *)
Lemma undone_push st st' u r entry v :
  undone u st r -> znth (rn_active st) (version_index (un_reg entry) (un_comp entry)) = Some (un_old_version entry) ->
  ul_entries (rn_undo st') = entry :: ul_entries (rn_undo st) ->
  rn_active st' = zset (rn_active st) (version_index (un_reg entry) (un_comp entry)) v ->
  undone u st' r.
Proof.
  intros [Hu Hrun] Hold Hent Hact. unfold undone. rewrite Hent, Hact, zlength_cons. split; [lia|].
  cbn [unwind]. rewrite zlength_cons, (proj2 (Z.leb_gt _ _)) by lia.
  apply znth_Some in Hold as Hr. rewrite aput_ok by by rewrite zlength_zset. mstep. by rewrite zset_back.
Qed.

Section new_version.
Context `{U : UnityCommon} {HU : UnityCommonSpec U} `{L : LibcMalloc}.
Context (registers slots max : Z) (phis0 : list HLSLBlockPhis).
Hypothesis (Hmax : max <= INT_MAX).

Abbreviation in_registers := (in_registers registers).

(** The code of a phi, or an instruction; each has 32 slots. *)
Definition definition_ok (d : Z) : Prop := d = HLSL_DEFINITION_AMBIGUOUS \/ (0 <= d /\ d * 32 < slots).

(** The arrays keep their sizes, and the log never outgrows the variables. *)
Record rename_ok (st : rename_state) : Prop := {
  ro_active : zlength (rn_active st) = registers * 4;
  ro_vars : zlength (rn_vars st) = slots;
  ro_relative : zlength (rn_relative st) = slots;
  ro_defs : zlength (rn_defs st) = max;
  ro_next : 0 <= rn_next st;
  ro_named v : 0 <= v < rn_next st -> exists d, znth (rn_defs st) v = Some (Some d) /\ definition_ok d;
  ro_log : zlength (ul_entries (rn_undo st)) <= rn_next st /\
    zlength (ul_entries (rn_undo st)) <= ul_capacity (rn_undo st) <= INT_MAX;
  ro_phis : phis_related phi_like phis0 (rn_phis st);
}.

Lemma append_undo_entry_spec log reg comp old :
  zlength (ul_entries log) < INT_MAX -> zlength (ul_entries log) <= ul_capacity log <= INT_MAX ->
  outcome (append_undo_entry log reg comp old)
    (fun log' => ul_entries log' = {| un_reg := reg; un_comp := comp; un_old_version := old |} :: ul_entries log /\
       zlength (ul_entries log') <= ul_capacity log' <= INT_MAX)
    (fun _ => malloc_failed).
Proof.
  intros Hlt Hcap. pose proof (zlength_nonneg (ul_entries log)). unfold append_undo_entry, INT_MAX, UNDO_ENTRY_SIZE in *.
  rewrite (proj2 (Z.ltb_ge _ _)), (proj2 (Z.eqb_neq _ _)) by lia. cbn [orb].
  destruct (Z.eqb_spec (zlength (ul_entries log)) (ul_capacity log)) as [Heq|Hne].
  2:{ cbn. rewrite zlength_cons. split; [done|lia]. }
  set (c := if ul_capacity log =? 0 then 64 else ul_capacity log).
  assert (Hc : 0 < c <= 2147483647 /\ ul_capacity log <= c) by (unfold c; destruct (Z.eqb_spec (ul_capacity log) 0); lia).
  change (2147483647 / 2) with 1073741823.
  set (c' := if 1073741823 <? c then 2147483647 else c * 2).
  assert (Hc' : ul_capacity log < c' <= 2147483647) by (unfold c'; destruct (Z.ltb_spec 1073741823 c); lia).
  rewrite (proj2 (Z.leb_gt _ _)) by lia.
  rewrite size_multiply_overflows_spec by (unfold in_u64; lia). rewrite (proj2 (Z.leb_gt _ _)) by lia. cbn [orb].
  destruct (libc_malloc (u64 (c' * 12))) eqn:Hm; [|by eexists]. cbn. rewrite zlength_cons. split; [done|lia].
Qed.

Lemma new_version_spec definition reg comp st :
  rename_ok st -> in_registers reg comp -> rn_next st < max -> definition_ok definition ->
  outcome (new_version definition reg comp st)
    (fun '(v, st') => v = rn_next st /\ rn_next st' = rn_next st + 1 /\
       znth (rn_defs st') v = Some (Some definition) /\ rn_phis st' = rn_phis st /\
       rn_vars st' = rn_vars st /\ rn_relative st' = rn_relative st /\
       rn_active st' = zset (rn_active st) (version_index reg comp) v /\ rename_ok st' /\ evolves st st')
    (fun _ => malloc_failed).
Proof.
  intros [Ha Hv Hr Hd Hn Hnamed [Hl1 Hl2] Hp] Hreg Hroom Hdef. pose proof (version_range registers reg comp Hreg) as Hx.
  unfold new_version, cput. rewrite (aput_ok (rn_defs st)) by lia. mstep.
  destruct (znth_is_Some (rn_active st) (version_index reg comp)) as [old Hold]; [lia|].
  rewrite (aget_ok _ _ _ Hold). mstep. apply outcome_bind.
  eapply outcome_mono; [apply append_undo_entry_spec; [unfold INT_MAX in *; lia|done]| |done].
  intros log' (Hent & Hcap). rewrite aput_ok by lia. cbn.
  split_and!; try done.
  - by rewrite znth_zset_eq by lia.
  - split; fields; cbn; rewrite ?zlength_zset; try done; [lia| |].
    + intros v Hlt. destruct (decide (v = rn_next st)) as [->|]; [rewrite znth_zset_eq by lia; by eexists|].
      rewrite znth_zset_ne by done. apply Hnamed. lia.
    + rewrite Hent, zlength_cons in *. lia.
  - split; [split; fields; cbn; [lia| |done]|].
    + intros v Hlt. rewrite znth_zset_ne by lia. done.
    + intros u r Hun. eapply undone_push; [exact Hun| |exact Hent|reflexivity]. done.
Qed.
End new_version.
