(* ===== verification/SsaRename.v ===== *)
(** The renaming of one instruction: each lane a source reads and each root of
    a relative index is given the active version, then each lane a destination
    writes becomes a new one. *)

From S2P Require Import Prelude CArray UnityCommon Heap Operand Instruction Usil SsaGraph Cfg FlowGraph UsilValidation UsilValidationSteps Ssa SsaMeaning SsaInstruction SsaState.

#[local] Set Warnings "-register-all".

(** Two readings of the same operand. *)
#[local] Ltac same_use :=
  repeat match goal with
  | H1 : usil_instruction_operand_use _ _ _ = Ret _, H2 : usil_instruction_operand_use _ _ _ = Ret _ |- _ =>
      rewrite H1 in H2; injection H2 as H2
  | H1 : znth (ui_operands _) _ = Some _, H2 : znth (ui_operands _) _ = Some _ |- _ =>
      rewrite H1 in H2; injection H2 as H2
  end; subst.

Section rename.
Context `{U : UnityCommon} {HU : UnityCommonSpec U} `{L : LibcMalloc}.
Context (program : USILProgram) (HP : ssa_program_ok program).
Context (max : Z) (phis0 : list HLSLBlockPhis).

Abbreviation count := (up_instruction_count program).
Abbreviation registers := (up_temp_count program).
Abbreviation slots := (count * 32).

Hypothesis (Hmax : max <= INT_MAX) (Hslots : slots <= INT_MAX).

Abbreviation ok := (rename_ok registers slots max phis0).
Abbreviation means := (active_means registers).
Abbreviation mix := (active_mix registers).

Definition of_operand (i k x : Z) : Prop := i * 32 + k * 4 <= x < i * 32 + k * 4 + 4.
Definition of_instruction (i x : Z) : Prop := i * 32 <= x < i * 32 + 32.

Lemma operand_offset_ok i k c : 0 <= i < count -> 0 <= k < 8 -> 0 <= c < 4 ->
  operand_offset i k c = i * 32 + k * 4 + c.
Proof. intros. unfold operand_offset, DXBC_MAX_OPERANDS, INT_MAX in *. wrap. lia. Qed.

(** What the arrays hold of the sources and roots of an instruction. *)
Definition source_recorded (st : rename_state) (vars : list Z) (inst : USILInstruction) (i k lane : Z)
    (M : Z -> Z -> meaning) : Prop :=
  forall reg comp, reads program inst k lane reg comp -> exists v,
    znth vars (i * 32 + k * 4 + lane) = Some v /\ denotes st reg comp v (M reg comp).

Definition root_recorded (st : rename_state) (vars : list Z) (inst : USILInstruction) (i k dimension : Z)
    (M : Z -> Z -> meaning) : Prop :=
  forall reg comp, indexes program inst k dimension reg comp -> exists v,
    znth vars (i * 32 + k * 4 + dimension) = Some v /\ denotes st reg comp v (M reg comp).

Record recorded (st : rename_state) (inst : USILInstruction) (i : Z) (M : Z -> Z -> meaning) : Prop := {
  rc_source k lane : 0 <= k < ui_operand_count inst -> 0 <= lane < 4 ->
    source_recorded st (rn_vars st) inst i k lane M;
  rc_root k dimension : 0 <= k < ui_operand_count inst -> 0 <= dimension < 3 ->
    root_recorded st (rn_relative st) inst i k dimension M;
}.

Lemma source_recorded_mono st st' vars vars' inst i k lane M :
  extends st st' -> znth vars' (i * 32 + k * 4 + lane) = znth vars (i * 32 + k * 4 + lane) ->
  source_recorded st vars inst i k lane M -> source_recorded st' vars' inst i k lane M.
Proof.
  intros He Hsame Hs reg comp Hr. destruct (Hs reg comp Hr) as (v & Hv & Hd). exists v.
  rewrite Hsame. split; [done|by eapply denotes_mono].
Qed.

Lemma root_recorded_mono st st' vars vars' inst i k d M :
  extends st st' -> znth vars' (i * 32 + k * 4 + d) = znth vars (i * 32 + k * 4 + d) ->
  root_recorded st vars inst i k d M -> root_recorded st' vars' inst i k d M.
Proof.
  intros He Hsame Hs reg comp Hr. destruct (Hs reg comp Hr) as (v & Hv & Hd). exists v.
  rewrite Hsame. split; [done|by eapply denotes_mono].
Qed.

Lemma recorded_mono st st' inst i M :
  ui_operand_count inst <= DXBC_MAX_OPERANDS -> extends st st' ->
  (forall x, of_instruction i x -> znth (rn_vars st') x = znth (rn_vars st) x /\
     znth (rn_relative st') x = znth (rn_relative st) x) ->
  recorded st inst i M -> recorded st' inst i M.
Proof.
  unfold DXBC_MAX_OPERANDS, of_instruction. intros Hc He Hsame [Hs Hr]. split; intros k lane Hk Hl.
  - eapply source_recorded_mono; [done|apply Hsame; lia|by apply Hs].
  - eapply root_recorded_mono; [done|apply Hsame; lia|by apply Hr].
Qed.

(** Changes of the arrays of uses keep the rest. *)
Lemma ok_relative st rel : ok st -> zlength rel = slots -> ok (st <| rn_relative := rel |>).
Proof. intros [] ?. by split. Qed.
Lemma ok_vars st vars : ok st -> zlength vars = slots -> ok (st <| rn_vars := vars |>).
Proof. intros [] ?. by split. Qed.
Lemma relative_evolves st rel : evolves st (st <| rn_relative := rel |>).
Proof. by split; [split|]. Qed.
Lemma vars_evolves st vars : evolves st (st <| rn_vars := vars |>).
Proof. by split; [split|]. Qed.

Section instruction.
Context (i : Z) (inst : USILInstruction) (Hi : 0 <= i < count) (Hin : instruction_in program i inst).
Context (M : Z -> Z -> meaning).

Let Hinst : ssa_instruction_ok inst := sp_instruction _ HP i inst Hin.

Lemma few_operands k : 0 <= k < ui_operand_count inst -> 0 <= k < 8.
Proof. intros Hk. pose proof (si_count _ Hinst) as Hc. unfold DXBC_MAX_OPERANDS in Hc. lia. Qed.

(** * The roots of relative indices *)

Lemma rename_relative_spec k d st :
  ok st -> means st (rn_active st) M -> 0 <= k < ui_operand_count inst -> 0 <= d < 3 ->
  outcome (rename_relative program i inst k d st)
    (fun st' => exists rel, st' = st <| rn_relative := rel |> /\ zlength rel = slots /\
       (forall x, x <> i * 32 + k * 4 + d -> znth rel x = znth (rn_relative st) x) /\
       root_recorded st rel inst i k d M)
    (fun _ => False).
Proof.
  intros Hok [Hl Ha] Hk Hd. pose proof (few_operands k Hk). unfold rename_relative.
  destruct (operand_in inst Hinst k Hk) as (owner & -> & Ho & _). mstep.
  destruct (relative_root_spec program (operand_root owner d)) as (p & Hp & Hrange).
  { intros root Hroot. by eapply (si_roots _ Hinst). }
  rewrite Hp. mstep. destruct p as [[reg comp]|].
  - destruct (Hrange reg comp eq_refl) as [Hreg Hcomp].
    destruct (Ha reg comp) as (v & Hv & Hden); [done|]. rewrite (aget_ok _ _ _ Hv). mstep.
    rewrite operand_offset_ok by lia. rewrite aput_ok by (rewrite (ro_relative _ _ _ _ _ Hok); lia). mstep.
    cbn. eexists. split; [done|]. rewrite zlength_zset. split; [apply Hok|]. split.
    + intros x Hx. by rewrite znth_zset_ne.
    + intros r c (owner' & Ho' & Hroot). assert (owner' = owner) as -> by congruence.
      rewrite Hp in Hroot. injection Hroot as <- <-. exists v.
      rewrite znth_zset_eq by (rewrite (ro_relative _ _ _ _ _ Hok); lia). done.
  - cbn. exists (rn_relative st). split; [by destruct st|]. split; [apply Hok|]. split; [done|].
    intros r c (owner' & Ho' & Hroot). assert (owner' = owner) as -> by congruence. congruence.
Qed.

(** All of them. *)
Lemma rename_relatives_spec st :
  ok st -> means st (rn_active st) M ->
  outcome (for_loop (Z.to_nat (ui_operand_count inst)) 0
             (fun k => for_loop 3 0 (rename_relative program i inst k)) st)
    (fun st' => exists rel, st' = st <| rn_relative := rel |> /\ zlength rel = slots /\
       (forall x, ~ of_instruction i x -> znth rel x = znth (rn_relative st) x) /\
       forall k d, 0 <= k < ui_operand_count inst -> 0 <= d < 3 -> root_recorded st rel inst i k d M)
    (fun _ => False).
Proof.
  intros Hok Ha. set (J k d st' := exists rel, st' = st <| rn_relative := rel |> /\ zlength rel = slots /\
    (forall x, ~ of_instruction i x -> znth rel x = znth (rn_relative st) x) /\
    forall k' d', 0 <= k' -> 0 <= d' < 3 -> k' < k \/ k' = k /\ d' < d -> root_recorded st rel inst i k' d' M).
  eapply outcome_mono; [apply outcome_for with (F := fun _ => False) (I := fun k => J k 0)| |done].
  - exists (rn_relative st). split; [by destruct st|]. split; [apply Hok|]. split; [done|lia].
  - intros k st1 Hk HJ. assert (Hk' : 0 <= k < ui_operand_count inst) by lia. pose proof (few_operands k Hk') as Hk8.
    eapply outcome_mono; [apply outcome_for with (F := fun _ => False) (I := J k)| |done]; [done| |].
    + intros d st2 Hd (rel & -> & Hlen & Hframe & Hrec).
      eapply outcome_mono; [apply rename_relative_spec; [by apply ok_relative|exact Ha|done|lia]| |done].
      intros st3 (rel' & -> & Hlen' & Hframe' & Hrec'). fields. cbn in Hframe'. exists rel'.
      split; [done|]. split; [done|]. split.
      * intros x Hx. rewrite Hframe'; [by apply Hframe|]. unfold of_instruction in Hx. lia.
      * intros k' d' Hk0 Hd' Hlt. destruct (decide (k' = k /\ d' = d)) as [[-> ->]|Hne]; [exact Hrec'|].
        eapply root_recorded_mono; [reflexivity| |apply Hrec; lia]. apply Hframe'. lia.
    + intros st2 (rel & -> & Hlen & Hframe & Hrec). exists rel. split_and!; [done|done|done|].
      intros k' d' Hk0 Hd' Hlt. apply Hrec; lia.
  - intros st1 (rel & -> & Hlen & Hframe & Hrec). exists rel. split_and!; [done|done|done|].
    intros k d Hk Hd. apply Hrec; lia.
Qed.

(** * The sources *)

Definition source_ok (k : Z) : Prop :=
  exists use o, usil_instruction_operand_use program inst k = Ret use /\ znth (ui_operands inst) k = Some o /\
    (op_type o = OPERAND_TYPE_TEMP -> ou_use use = USIL_OPERAND_USE_SOURCE ->
     0 <= op_register_index o < registers /\
     forall lane, 0 <= lane < 4 -> has_lane (ou_source_lane_mask use) lane = true ->
     exists c, usil_operand_source_component (E:=unit) o lane = Ret c /\ 0 <= c).

Lemma rename_use_lane_spec k o use lane st :
  ok st -> means st (rn_active st) M -> 0 <= k < ui_operand_count inst -> 0 <= lane < 4 ->
  usil_instruction_operand_use program inst k = Ret use -> znth (ui_operands inst) k = Some o ->
  operand_ok o -> 0 <= op_register_index o < registers ->
  outcome (rename_use_lane i k o (ou_source_lane_mask use) (op_register_index o) lane st)
    (fun st' => exists vars, st' = st <| rn_vars := vars |> /\ zlength vars = slots /\
       (forall x, x <> i * 32 + k * 4 + lane -> znth vars x = znth (rn_vars st) x) /\
       source_recorded st vars inst i k lane M /\
       (has_lane (ou_source_lane_mask use) lane = true ->
        exists c, usil_operand_source_component (E:=unit) o lane = Ret c /\ 0 <= c))
    (fun _ => exists c, has_lane (ou_source_lane_mask use) lane = true /\
       usil_operand_source_component (E:=unit) o lane = Ret c /\ c < 0).
Proof.
  intros Hok [Hl Ha] Hk Hlane Huse Ho Hoo Hreg. pose proof (few_operands k Hk). unfold rename_use_lane.
  assert (Hreads : forall r c, reads program inst k lane r c ->
    r = op_register_index o /\ has_lane (ou_source_lane_mask use) lane = true /\
    usil_operand_source_component (E:=unit) o lane = Ret c).
  { intros r c (use' & o' & Hu' & Ho' & _ & _ & <- & Hm & Hc). same_use. by split_and!. }
  destruct (has_lane _ lane) eqn:Hm; cbn [negb].
  2:{ cbn. exists (rn_vars st). split; [by destruct st|]. split; [apply Hok|]. split; [done|].
      split; [|done]. by intros r c (_ & ? & _)%Hreads. }
  destruct (source_component_ok o lane Hoo) as (c & Hc & Hcr). rewrite Hc. mstep.
  destruct (Z.ltb_spec c 0) as [Hneg|Hpos]; [by exists c|].
  destruct (Ha (op_register_index o) c) as (v & Hv & Hden); [split; lia|].
  rewrite (aget_ok _ _ _ Hv). mstep. rewrite operand_offset_ok by lia.
  rewrite aput_ok by (rewrite (ro_vars _ _ _ _ _ Hok); lia). mstep.
  cbn. eexists. split; [done|]. rewrite zlength_zset. split; [apply Hok|]. split_and!.
  - intros x Hx. by rewrite znth_zset_ne.
  - intros r c' (-> & _ & Hc')%Hreads. rewrite Hc in Hc'. injection Hc' as <-. exists v.
    rewrite znth_zset_eq by (rewrite (ro_vars _ _ _ _ _ Hok); lia). done.
  - eauto.
Qed.

Lemma rename_use_spec k st :
  ok st -> means st (rn_active st) M -> 0 <= k < ui_operand_count inst ->
  outcome (rename_use program i inst k st)
    (fun st' => exists vars, st' = st <| rn_vars := vars |> /\ zlength vars = slots /\
       (forall x, ~ of_operand i k x -> znth vars x = znth (rn_vars st) x) /\
       (forall lane, 0 <= lane < 4 -> source_recorded st vars inst i k lane M) /\ source_ok k)
    (fun _ => ~ operand_renamable program inst k).
Proof.
  intros Hok Ha Hk. unfold rename_use. pose proof (operand_use_defined program HP inst Hinst k) as Hu.
  destruct (usil_instruction_operand_use program inst k) as [use|[]|] eqn:Huse; [|cbn|done].
  2:{ intros (use & _ & Hu' & _). congruence. }
  mstep. destruct (operand_in inst Hinst k Hk) as (o & -> & Ho & Hoo). mstep.
  destruct (negb (op_type o =? OPERAND_TYPE_TEMP) || _) eqn:Hskip.
  { assert (Hno : ~ (op_type o = OPERAND_TYPE_TEMP /\ ou_use use = USIL_OPERAND_USE_SOURCE)).
    { intros [H1 H2]. rewrite H1, H2, Z.eqb_refl, bool_decide_true in Hskip by done. done. }
    cbn. exists (rn_vars st). split; [by destruct st|]. split; [apply Hok|]. split; [done|]. split.
    - intros lane _ r c (use' & o' & Hu' & Ho' & H1 & H2 & _). same_use. tauto.
    - exists use, o. split_and!; [done|done|]. tauto. }
  apply orb_false_iff in Hskip as [Ht Hs]. apply negb_false_iff, Z.eqb_eq in Ht.
  apply negb_false_iff, bool_decide_eq_true in Hs.
  destruct ((op_register_index o <? 0) || _) eqn:Hrange.
  { cbn. intros (use' & o' & Hu' & Ho' & Hr & _). same_use. specialize (Hr Ht (or_introl Hs)).
    rewrite (proj2 (Z.ltb_ge _ _)), (proj2 (Z.leb_gt _ _)) in Hrange by lia. done. }
  apply orb_false_iff in Hrange as [Hr0%Z.ltb_ge Hr1%Z.leb_gt].
  eapply outcome_mono; [apply outcome_for with
    (F := fun _ => ~ operand_renamable program inst k) (I := fun j st' => exists vars, st' = st <| rn_vars := vars |> /\ zlength vars = slots /\
       (forall x, ~ of_operand i k x -> znth vars x = znth (rn_vars st) x) /\
       forall lane, 0 <= lane < j -> source_recorded st vars inst i k lane M /\
         (has_lane (ou_source_lane_mask use) lane = true ->
          exists c, usil_operand_source_component (E:=unit) o lane = Ret c /\ 0 <= c))| |done].
  - exists (rn_vars st). split; [by destruct st|]. split; [apply Hok|]. split; [done|lia].
  - intros lane st1 Hlane (vars & -> & Hlen & Hframe & Hrec).
    eapply outcome_mono; [apply (rename_use_lane_spec k o use lane); [by apply ok_vars|exact Ha|done|lia|done..]| |].
    + intros st2 (vars' & -> & Hlen' & Hframe' & Hrec' & Hc). fields. cbn in Hframe'. exists vars'.
      split; [done|]. split; [done|]. split.
      * intros x Hx. rewrite Hframe'; [by apply Hframe|]. unfold of_operand in Hx. lia.
      * intros lane' Hl'. destruct (decide (lane' = lane)) as [->|Hne]; [by split|].
        destruct (Hrec lane') as [Hr2 Hc2]; [lia|]. split; [|done].
        eapply source_recorded_mono; [reflexivity| |exact Hr2]. apply Hframe'. lia.
    + intros _ (c & Hm & Hc & Hneg) (use' & o' & Hu' & Ho' & _ & Hr). same_use.
      destruct (Hr Ht Hs lane ltac:(lia) Hm) as (c' & Hc' & Hpos). assert (c' = c) by congruence. lia.
  - intros st1 (vars & -> & Hlen & Hframe & Hrec). exists vars. split_and!; [done|done|done| |].
    + intros lane Hlane. by apply Hrec.
    + exists use, o. split_and!; [done|done|]. intros _ _. split; [lia|]. intros lane Hlane. by apply Hrec.
Qed.

Lemma rename_uses_spec st :
  ok st -> means st (rn_active st) M ->
  outcome (for_loop (Z.to_nat (ui_operand_count inst)) 0 (rename_use program i inst) st)
    (fun st' => exists vars, st' = st <| rn_vars := vars |> /\ zlength vars = slots /\
       (forall x, ~ of_instruction i x -> znth vars x = znth (rn_vars st) x) /\
       forall k, 0 <= k < ui_operand_count inst ->
         (forall lane, 0 <= lane < 4 -> source_recorded st vars inst i k lane M) /\ source_ok k)
    (fun _ => ~ renamable program inst).
Proof.
  intros Hok Ha. eapply outcome_mono; [apply outcome_for with
    (F := fun _ => ~ renamable program inst) (I := fun j st' => exists vars, st' = st <| rn_vars := vars |> /\ zlength vars = slots /\
       (forall x, ~ of_instruction i x -> znth vars x = znth (rn_vars st) x) /\
       forall k, 0 <= k < j ->
         (forall lane, 0 <= lane < 4 -> source_recorded st vars inst i k lane M) /\ source_ok k)| |done].
  - exists (rn_vars st). split; [by destruct st|]. split; [apply Hok|]. split; [done|lia].
  - intros k st1 Hk (vars & -> & Hlen & Hframe & Hrec). assert (Hk' : 0 <= k < ui_operand_count inst) by lia.
    pose proof (few_operands k Hk') as Hk8.
    eapply outcome_mono; [apply (rename_use_spec k); [by apply ok_vars|exact Ha|done]| |].
    + intros st2 (vars' & -> & Hlen' & Hframe' & Hrec' & Hs). fields. cbn in Hframe'. exists vars'.
      split; [done|]. split; [done|]. split.
      * intros x Hx. rewrite Hframe'; [by apply Hframe|]. unfold of_instruction, of_operand in *. lia.
      * intros k' Hlt. destruct (decide (k' = k)) as [->|Hne]; [by split|].
        destruct (Hrec k') as [Hr2 Hs2]; [lia|]. split; [|done]. intros lane Hlane.
        eapply source_recorded_mono; [reflexivity| |by apply Hr2]. apply Hframe'. unfold of_operand. lia.
    + intros [] Hno Hall. by apply Hno, Hall.
  - intros st1 (vars & -> & Hlen & Hframe & Hrec). exists vars. split_and!; [done|done|done|].
    intros k Hk. apply Hrec. lia.
Qed.
(** * The destinations *)

Definition destination_ok (k : Z) : Prop :=
  forall use o, usil_instruction_operand_use program inst k = Ret use -> znth (ui_operands inst) k = Some o ->
    op_type o = OPERAND_TYPE_TEMP -> ou_use use = USIL_OPERAND_USE_DESTINATION ->
    0 <= op_register_index o < registers.

Lemma rename_definition_lane_spec W k mask reg lane st :
  ok st -> mix st W (Defined i) M -> 0 <= k < ui_operand_count inst -> 0 <= lane < 4 ->
  0 <= reg < registers -> rn_next st < max ->
  outcome (rename_definition_lane i k mask reg lane st)
    (fun st' => ok st' /\ evolves st st' /\ rn_next st' <= rn_next st + 1 /\
       rn_phis st' = rn_phis st /\ rn_relative st' = rn_relative st /\
       (forall x, ~ of_operand i k x -> znth (rn_vars st') x = znth (rn_vars st) x) /\
       mix st' (fun r c => W r c \/ (r = reg /\ c = lane /\ has_lane mask lane = true)) (Defined i) M)
    (fun _ => malloc_failed).
Proof.
  intros Hok HW Hk Hlane Hreg Hroom. pose proof (few_operands k Hk). unfold rename_definition_lane.
  destruct (has_lane mask lane) eqn:Hm; cbn [negb].
  2:{ cbn. split_and!; try done; [lia|]. eapply active_mix_iff; [|exact HW]. intros r c _. split; [by left|].
      intros [?|(_ & _ & ?)]; [done|congruence]. }
  apply outcome_bind. eapply outcome_mono; [apply (new_version_spec registers slots max phis0 Hmax); [done|done|done|right; lia]| |done].
  intros [v st'] (-> & Hn & Hd & Hp & Hv & Hr & Ha & Hok' & Hev). rewrite operand_offset_ok by lia.
  rewrite aput_ok by (rewrite (ro_vars _ _ _ _ _ Hok'); lia). mstep. cbn.
  split; [apply ok_vars; [done|]; rewrite zlength_zset; apply Hok'|].
  split; [etrans; [exact Hev|apply vars_evolves]|]. fields. split; [lia|]. split; [done|]. split; [done|]. split.
  - intros x Hx. rewrite znth_zset_ne by (unfold of_operand in Hx; lia). by rewrite Hv.
  - eapply active_mix_iff; [|eapply active_mix_add; [exact HW| | |exact Ha|]].
    + intros r c _. cbn. tauto.
    + exact (ev_extends _ _ Hev).
    + by split.
    + cbn. split; [|done]. pose proof (ro_next _ _ _ _ _ Hok). lia.
Qed.

Lemma rename_definition_spec W k st :
  ok st -> mix st W (Defined i) M -> 0 <= k < ui_operand_count inst -> rn_next st + 4 <= max ->
  outcome (rename_definition program i inst k st)
    (fun st' => ok st' /\ evolves st st' /\ rn_next st' <= rn_next st + 4 /\
       rn_phis st' = rn_phis st /\ rn_relative st' = rn_relative st /\
       (forall x, ~ of_operand i k x -> znth (rn_vars st') x = znth (rn_vars st) x) /\
       (rn_vars st' = rn_vars st \/ exists use, usil_instruction_operand_use program inst k = Ret use /\
          ou_use use = USIL_OPERAND_USE_DESTINATION) /\
       mix st' (fun r c => W r c \/ writes program inst k r c) (Defined i) M /\ destination_ok k)
    (fun _ => malloc_failed \/ ~ operand_renamable program inst k).
Proof.
  intros Hok HW Hk Hroom. unfold rename_definition. pose proof (operand_use_defined program HP inst Hinst k) as Hu.
  destruct (usil_instruction_operand_use program inst k) as [use|[]|] eqn:Huse; [|cbn; right|done].
  2:{ intros (use & _ & Hu' & _). congruence. }
  mstep. destruct (operand_in inst Hinst k Hk) as (o & -> & Ho & Hoo). mstep.
  destruct (negb (op_type o =? OPERAND_TYPE_TEMP) || _) eqn:Hskip.
  { assert (Hno : ~ (op_type o = OPERAND_TYPE_TEMP /\ ou_use use = USIL_OPERAND_USE_DESTINATION)).
    { intros [H1 H2]. rewrite H1, H2, Z.eqb_refl, bool_decide_true in Hskip by done. done. }
    cbn. split_and!; try done; [lia|by left| |].
    - eapply active_mix_iff; [|exact HW]. intros r c _. split; [by left|]. intros [?|Hw]; [done|].
      destruct Hw as (use' & o' & Hu' & Ho' & H1 & H2 & _). same_use. tauto.
    - intros use' o' Hu' Ho' H1 H2. same_use. tauto. }
  apply orb_false_iff in Hskip as [Ht Hs]. apply negb_false_iff, Z.eqb_eq in Ht.
  apply negb_false_iff, bool_decide_eq_true in Hs.
  destruct ((op_register_index o <? 0) || _) eqn:Hrange.
  { cbn. right. intros (use' & o' & Hu' & Ho' & Hr & _). same_use. specialize (Hr Ht (or_intror Hs)).
    rewrite (proj2 (Z.ltb_ge _ _)), (proj2 (Z.leb_gt _ _)) in Hrange by lia. done. }
  apply orb_false_iff in Hrange as [Hr0%Z.ltb_ge Hr1%Z.leb_gt].
  set (mask := usil_operand_destination_lane_mask o). set (reg := op_register_index o).
  eapply outcome_mono; [apply outcome_for with
    (F := fun _ => malloc_failed) (I := fun j st' => ok st' /\ evolves st st' /\ rn_next st' <= rn_next st + j /\
       rn_phis st' = rn_phis st /\ rn_relative st' = rn_relative st /\
       (forall x, ~ of_operand i k x -> znth (rn_vars st') x = znth (rn_vars st) x) /\
       mix st' (fun r c => W r c \/ (r = reg /\ 0 <= c < j /\ has_lane mask c = true)) (Defined i) M)| |].
  - split_and!; try done; [lia|]. eapply active_mix_iff; [|exact HW]. intros r c _. split; [by left|].
    intros [?|(_ & ? & _)]; [done|lia].
  - intros lane st1 Hlane (Hok1 & Hev1 & Hn1 & Hp1 & Hr & Hv1 & HW1).
    eapply outcome_mono; [apply rename_definition_lane_spec; [done|exact HW1|done|lia|unfold reg; lia|lia]| |done].
    intros st2 (Hok2 & Hev2 & Hn2 & Hp2 & Hr2 & Hv2 & HW2). split; [done|]. split; [by etrans|]. split; [lia|].
    split; [congruence|]. split; [congruence|]. split.
    + intros x Hx. rewrite Hv2 by done. by apply Hv1.
    + eapply active_mix_iff; [|exact HW2]. intros r c _. split.
      * intros [[?|(-> & ? & ?)]|(-> & -> & ?)]; [by left|right; split_and!; done || lia..].
      * intros [?|(-> & Hc & ?)]; [tauto|]. destruct (decide (c = lane)) as [->|]; [tauto|].
        left; right. split_and!; done || lia.
  - intros st1 (Hok1 & Hev1 & Hn1 & Hp1 & Hr & Hv1 & HW1). split_and!; try done.
    + right. by exists use.
    + eapply active_mix_iff; [|exact HW1]. intros r c [_ Hc]. split.
      * intros [?|(-> & _ & Hm)]; [by left|]. right. exists use, o. split_and!; done.
      * intros [?|(use' & o' & Hu' & Ho' & _ & _ & <- & Hm)]; [by left|right]. same_use. split_and!; done || lia.
    + intros use' o' Hu' Ho' _ _. same_use. lia.
  - intros []. by left.
Qed.

(** * The whole instruction *)

Record renamed (st st' : rename_state) : Prop := {
  rd_ok : ok st';
  rd_evolves : evolves st st';
  rd_next : rn_next st' <= rn_next st + 32;
  rd_phis : rn_phis st' = rn_phis st;
  rd_frame x : ~ of_instruction i x -> znth (rn_vars st') x = znth (rn_vars st) x /\
    znth (rn_relative st') x = znth (rn_relative st) x;
  rd_active : means st' (rn_active st') (fun r c => if defines program r c i then Defined i else M r c);
  rd_recorded : recorded st' inst i M;
  rd_renamable : renamable program inst;
}.

Lemma parts_renamable k : source_ok k -> destination_ok k -> operand_renamable program inst k.
Proof.
  intros (use & o & Hu & Ho & Hs) Hd. exists use, o. split_and!; [done|done| |].
  - intros Ht [Huse|Huse]; [by apply Hs|by eapply Hd].
  - intros Ht Huse. by apply Hs.
Qed.

Lemma rename_definitions_spec st :
  ok st -> means st (rn_active st) M -> rn_next st + 32 <= max ->
  outcome (for_loop (Z.to_nat (ui_operand_count inst)) 0 (rename_definition program i inst) st)
    (fun st' => ok st' /\ evolves st st' /\ rn_next st' <= rn_next st + 32 /\
       rn_phis st' = rn_phis st /\ rn_relative st' = rn_relative st /\
       (forall x, ~ of_instruction i x -> znth (rn_vars st') x = znth (rn_vars st) x) /\
       (forall k use x, usil_instruction_operand_use program inst k = Ret use ->
          ou_use use = USIL_OPERAND_USE_SOURCE -> 0 <= k -> of_operand i k x ->
          znth (rn_vars st') x = znth (rn_vars st) x) /\
       mix st' (fun r c => exists k, 0 <= k < ui_operand_count inst /\ writes program inst k r c) (Defined i) M /\
       forall k, 0 <= k < ui_operand_count inst -> destination_ok k)
    (fun _ => malloc_failed \/ ~ renamable program inst).
Proof.
  intros Hok Ha Hroom. eapply outcome_mono; [apply outcome_for with
    (F := fun _ => malloc_failed \/ ~ renamable program inst)
    (I := fun j st' => ok st' /\ evolves st st' /\ rn_next st' <= rn_next st + 4 * j /\
       rn_phis st' = rn_phis st /\ rn_relative st' = rn_relative st /\
       (forall x, ~ of_instruction i x -> znth (rn_vars st') x = znth (rn_vars st) x) /\
       (forall k use x, usil_instruction_operand_use program inst k = Ret use ->
          ou_use use = USIL_OPERAND_USE_SOURCE -> 0 <= k -> of_operand i k x ->
          znth (rn_vars st') x = znth (rn_vars st) x) /\
       mix st' (fun r c => exists k, 0 <= k < j /\ writes program inst k r c) (Defined i) M /\
       forall k, 0 <= k < j -> destination_ok k)| |done].
  - split_and!; try done; [lia| |lia]. eapply active_mix_iff; [|by apply active_mix_none].
    intros r c _. split; [done|]. intros (k & ? & _). lia.
  - intros k st1 Hk (Hok1 & Hev1 & Hn1 & Hp1 & Hr1 & Hv1 & Hsrc1 & HW1 & Hd1).
    assert (Hk' : 0 <= k < ui_operand_count inst) by lia. pose proof (few_operands k Hk') as Hk8.
    eapply outcome_mono; [apply rename_definition_spec; [done|exact HW1|done|lia]| |].
    + intros st2 (Hok2 & Hev2 & Hn2 & Hp2 & Hr2 & Hv2 & Hsrc2 & HW2 & Hd2).
      split; [done|]. split; [by etrans|]. split; [lia|]. split; [congruence|]. split; [congruence|]. split_and!.
      * intros x Hx. rewrite Hv2; [by apply Hv1|]. unfold of_operand, of_instruction in *. lia.
      * intros k' use x Hu Huse Hk0 Hx. rewrite <- (Hsrc1 k' use x) by done.
        destruct (decide (k' = k)) as [->|Hne].
        -- destruct Hsrc2 as [->|(use' & Hu' & Huse')]; [done|]. exfalso. congruence.
        -- apply Hv2. unfold of_operand in *. lia.
      * eapply active_mix_iff; [|exact HW2]. intros r c _. split.
        -- intros [(k' & ? & ?)|?]; [exists k'|exists k]; (split; [lia|done]).
        -- intros (k' & Hk'' & Hw). destruct (decide (k' = k)) as [->|]; [by right|]. left. exists k'. split; [lia|done].
      * intros k' Hk''. destruct (decide (k' = k)) as [->|]; [done|]. apply Hd1. lia.
    + intros [] [?|Hno]; [by left|right]. intros Hall. by apply Hno, Hall.
  - intros st1 (Hok1 & Hev1 & Hn1 & Hp1 & Hr1 & Hv1 & Hsrc1 & HW1 & Hd1).
    assert (Hle : Z.of_nat (Z.to_nat (ui_operand_count inst)) <= 8).
    { pose proof (si_count _ Hinst) as Hc. unfold DXBC_MAX_OPERANDS in Hc. lia. }
    split_and!; try done; [lia| |].
    + eapply active_mix_iff; [|exact HW1]. intros r c _.
      split; intros (k & ? & ?); exists k; (split; [lia|done]).
    + intros k Hk. apply Hd1. lia.
Qed.

Lemma rename_instruction_spec st :
  ok st -> means st (rn_active st) M -> rn_next st + 32 <= max ->
  outcome (rename_instruction program i st) (renamed st)
    (fun _ => malloc_failed \/ ~ renamable program inst).
Proof.
  intros Hok Ha Hroom. unfold rename_instruction. rewrite (instruction_in_at program i inst Hin). mstep.
  apply outcome_bind. eapply outcome_mono; [by apply rename_relatives_spec| |done].
  intros st1 (rel & -> & Hlen1 & Hframe1 & Hroots). apply outcome_bind.
  eapply outcome_mono; [apply rename_uses_spec; [by apply ok_relative|exact Ha]| |by right].
  intros st2 (vars & -> & Hlen2 & Hframe2 & Hsources).
  set (st2 := st <| rn_relative := rel |> <| rn_vars := vars |>).
  assert (Hev : evolves st st2) by (etrans; [apply relative_evolves|apply vars_evolves]).
  eapply outcome_mono; [apply (rename_definitions_spec st2); [apply ok_vars; [by apply ok_relative|done]|exact Ha|exact Hroom]| |done].
  intros st3 (Hok3 & Hev3 & Hn3 & Hp3 & Hr3 & Hv3 & Hsrc3 & HW3 & Hd3).
  assert (Hren : renamable program inst).
  { intros k Hk. apply parts_renamable; [by apply Hsources|by apply Hd3]. }
  split; [done|by etrans|done|done| | | |done].
  - intros x Hx. rewrite Hv3, Hr3 by done. split; [by apply Hframe2|by apply Hframe1].
  - apply (active_mix_means registers st3 (fun r c => defines program r c i)).
    eapply active_mix_iff; [|exact HW3]. intros r c _. symmetry.
    by apply (defines_writes program HP r c i inst).
  - split.
    + intros k lane Hk Hlane r c Hr. pose proof Hr as (use & o & Hu & _ & Huse & _).
      assert (Hsame : znth (rn_vars st3) (i * 32 + k * 4 + lane) = znth vars (i * 32 + k * 4 + lane)).
      { apply (Hsrc3 k use); [done|done|lia|unfold of_operand; lia]. }
      rewrite Hsame. destruct (Hsources k Hk) as [Hrec _]. destruct (Hrec lane Hlane r c Hr) as (v & Hv & Hden).
      exists v. split; [done|]. eapply denotes_mono; [|exact Hden].
      etrans; [exact (ev_extends _ _ (vars_evolves _ vars))|exact (ev_extends _ _ Hev3)].
    + intros k d Hk Hd r c Hr. rewrite Hr3. destruct (Hroots k d Hk Hd r c Hr) as (v & Hv & Hden).
      exists v. split; [done|]. eapply denotes_mono; [|exact Hden]. etrans; [exact (ev_extends _ _ Hev)|exact (ev_extends _ _ Hev3)].
Qed.
End instruction.
End rename.
