(* ===== verification/SsaBlock.v ===== *)
(** The renaming of one block: its phis, its instructions, and its slot in the
    phis of its successors. *)

From stdpp Require Import relations.
From S2P Require Import Prelude CArray UnityCommon Heap Operand Instruction Usil SsaGraph Cfg FlowGraph Postorder DominatorTree Dominance Frontier FlowStructure FlowMatch FlowStep CfgBlocks CfgBuild FlowTrace CfgAnalysis Ssa SsaMeaning SsaInstruction SsaPlacement SsaState SsaRename.

#[local] Set Warnings "-register-all".

Section block.
Context `{U : UnityCommon} {HU : UnityCommonSpec U} `{L : LibcMalloc}.
Context (program : USILProgram) (HP : ssa_program_ok program) (first end_ : Z).

Abbreviation count := (up_instruction_count program).
Abbreviation registers := (up_temp_count program).
Abbreviation slots := (count * 32).

Hypothesis Hrange : 0 <= first < end_ /\ end_ <= count.

Context (cfg : HLSLControlFlowGraph) (starts : list Z) (G : flow_graph) (idom : list Z).
Context (HA : analysed_graph program first end_ cfg starts G idom).
Context (max : Z) (phis0 : list HLSLBlockPhis).
Hypothesis (Hmax : max <= INT_MAX) (Hslots : slots <= INT_MAX).
Hypothesis (Hplaced : placed program end_ starts G (registers * 4) phis0).

Abbreviation start := (start_of starts).
Abbreviation last_of := (block_end end_ starts).
Abbreviation ok := (rename_ok registers slots max phis0).
Abbreviation means := (active_means registers).
Abbreviation mix := (active_mix registers).

(** The meanings of the register components, with the phis that were placed. *)
Definition entering_of (b reg comp : Z) : meaning :=
  entering end_ starts G idom (defines program reg comp) (has_phi phis0 reg comp) b.
Definition before_of (b i reg comp : Z) : meaning :=
  before end_ starts G idom (defines program reg comp) (has_phi phis0 reg comp) b i.
Definition leaving_of (b reg comp : Z) : meaning :=
  leaving end_ starts G idom (defines program reg comp) (has_phi phis0 reg comp) b.
Definition inherited_of (b reg comp : Z) : meaning :=
  inherited end_ starts G idom (defines program reg comp) (has_phi phis0 reg comp) b.

Let HG : flow_graph_ok G := graph_ok program first end_ cfg starts G idom HA.
Let Hstructured : structured (op_of program) first end_ := ag_structured _ _ _ _ _ _ _ HA.

(** * The phis that were placed *)

Lemma placed_phi b k phi : phi_of phis0 b k = Some phi ->
  node G b /\ in_registers registers (phi_register_index phi) (phi_component phi) /\
  phi_ssa_var phi = -1 /\ zlength (phi_incoming_vars phi) = zlength (fg_pred G b) /\
  zlength (phi_incoming_blocks phi) = zlength (fg_pred G b).
Proof.
  unfold phi_of. destruct (znth phis0 b) as [bp|] eqn:Hb; [|done]. cbn. intros Hk.
  assert (Hin : phi ∈ bp_phis bp) by (apply znth_elem_of; eauto).
  destruct (pc_phi _ _ _ _ _ _ Hplaced b bp phi Hb Hin) as (reg & comp & -> & Hr & Hc & _). cbn.
  pose proof (zlength_nonneg (fg_pred G b)). rewrite zlength_filled by lia. apply znth_Some in Hb. rewrite (pc_length _ _ _ _ _ _ Hplaced) in Hb.
  by split_and!.
Qed.

Lemma has_phi_at reg comp b : has_phi phis0 reg comp b = true <->
  exists k phi, 0 <= k < zlength (phi_keys phis0 b) /\ phi_of phis0 b k = Some phi /\
    phi_register_index phi = reg /\ phi_component phi = comp.
Proof.
  rewrite has_phi_iff. unfold phi_keys, phi_of. destruct (znth phis0 b) as [bp|]; cbn.
  2:{ split; [by intros ?%not_elem_of_nil|]. by intros (? & ? & _ & ? & _). }
  split.
  - intros (phi & Heq & Hin)%list_elem_of_fmap. injection Heq as -> ->. apply znth_elem_of in Hin as [k Hk].
    exists k, phi. split_and!; try done; [|]; apply znth_Some in Hk; unfold zlength in *; rewrite ?length_map; lia.
  - intros (k & phi & _ & Hk & <- & <-). apply list_elem_of_fmap. exists phi. split; [done|]. apply znth_elem_of. eauto.
Qed.

(** A phi in the state is one that was placed. *)
Lemma current_phi st b k phi : ok st -> phi_of (rn_phis st) b k = Some phi ->
  node G b /\ in_registers registers (phi_register_index phi) (phi_component phi) /\
  zlength (phi_incoming_vars phi) = zlength (fg_pred G b) /\
  zlength (phi_incoming_blocks phi) = zlength (fg_pred G b) /\
  exists phi0, phi_of phis0 b k = Some phi0 /\
    phi_register_index phi = phi_register_index phi0 /\ phi_component phi = phi_component phi0.
Proof.
  intros Hok Hk. destruct (phis_related_back _ _ _ _ _ _ (ro_phis _ _ _ _ _ Hok) Hk) as (phi0 & Hk0 & H1 & H2 & H3 & H4).
  destruct (placed_phi b k phi0 Hk0) as (Hb & Hr & _ & Hv & Hbl).
  rewrite H1, H2. split_and!; [done|done|congruence|congruence|]. by exists phi0.
Qed.

Lemma current_count st b bp : ok st -> znth (rn_phis st) b = Some bp ->
  zlength (bp_phis bp) = zlength (phi_keys phis0 b) /\
  forall k, 0 <= k < zlength (bp_phis bp) -> exists phi, phi_of (rn_phis st) b k = Some phi.
Proof.
  intros Hok Hb. assert (Hphi : forall k, phi_of (rn_phis st) b k = znth (bp_phis bp) k).
  { intros k. unfold phi_of. by rewrite Hb. }
  split; [|intros k Hk; rewrite Hphi; by apply znth_is_Some].
  pose proof (ro_phis _ _ _ _ _ Hok) as [Hl Hp]. pose proof (znth_Some _ _ _ Hb) as Hbr. rewrite Hl in Hbr.
  destruct (znth_is_Some phis0 b Hbr) as [bp0 Hb0]. rewrite (phi_keys_at _ _ _ Hb0).
  unfold zlength at 2. rewrite length_fmap. fold (zlength (bp_phis bp0)).
  assert (Hsame : forall k, znth (bp_phis bp) k = None <-> znth (bp_phis bp0) k = None).
  { intros k. specialize (Hp b k). rewrite Hphi in Hp. unfold phi_of in Hp. rewrite Hb0 in Hp. cbn in Hp.
    inversion Hp; split; done. }
  pose proof (zlength_nonneg (bp_phis bp)). pose proof (zlength_nonneg (bp_phis bp0)).
  pose proof (Hsame (zlength (bp_phis bp))) as H1. pose proof (Hsame (zlength (bp_phis bp0))) as H2.
  rewrite !znth_None in H1, H2. lia.
Qed.

(** No phi of the block has its variable yet. *)
Definition unset (b : Z) (st : rename_state) : Prop :=
  forall k phi, phi_of (rn_phis st) b k = Some phi -> phi_ssa_var phi < 0.

(** Every one has. *)
Definition phis_named (b : Z) (st : rename_state) : Prop :=
  forall k phi, phi_of (rn_phis st) b k = Some phi ->
    denotes st (phi_register_index phi) (phi_component phi) (phi_ssa_var phi) (Merged b).

Lemma ok_phis st phis : ok st -> phis_related phi_like phis0 phis -> ok (st <| rn_phis := phis |>).
Proof. intros [] ?. by split. Qed.

Lemma phis_evolves st phis : phis_related phi_kept (rn_phis st) phis -> evolves st (st <| rn_phis := phis |>).
Proof. intros Hp. by split; [split|]. Qed.

Lemma rename_phi_spec b k st W M phi :
  ok st -> mix st W (Merged b) M -> rn_next st < max ->
  phi_of (rn_phis st) b k = Some phi -> phi_ssa_var phi < 0 ->
  outcome (rename_phi b k st)
    (fun st' => ok st' /\ evolves st st' /\ rn_next st' = rn_next st + 1 /\
       rn_vars st' = rn_vars st /\ rn_relative st' = rn_relative st /\
       phis_related (phi_frame G b) (rn_phis st) (rn_phis st') /\
       (forall k', k' <> k -> phi_of (rn_phis st') b k' = phi_of (rn_phis st) b k') /\
       (exists phi', phi_of (rn_phis st') b k = Some phi' /\
          denotes st' (phi_register_index phi') (phi_component phi') (phi_ssa_var phi') (Merged b)) /\
       mix st' (fun r c => W r c \/ (r = phi_register_index phi /\ c = phi_component phi)) (Merged b) M)
    (fun _ => malloc_failed).
Proof.
  intros Hok HW Hroom Hk Hneg. destruct (current_phi st b k phi Hok Hk) as (Hb & Hreg & _).
  unfold rename_phi. rewrite (phi_at_ok _ _ _ _ Hk). mstep. apply outcome_bind.
  eapply outcome_mono; [apply (new_version_spec registers slots max phis0 Hmax); [done|done|done|by left]| |done].
  intros [v st1] (-> & Hn1 & Hd1 & Hp1 & Hv1 & Hr1 & Ha1 & Hok1 & Hev1). rewrite Hp1.
  set (v := rn_next st). set (phi' := phi <| phi_ssa_var := v |>).
  assert (Hkf : phi_frame G b b phi phi') by (split; [done|done|done]).
  destruct (put_phi_related (E:=unit) (phi_frame G b) (rn_phis st) b k phi phi' _ Hk Hkf)
    as (phis' & -> & Hrel & Hnew & Hrest). mstep. cbn [outcome].
  assert (Hkept : phis_related phi_kept (rn_phis st1) phis').
  { rewrite Hp1. destruct Hrel as [Hl _]. split; [done|]. intros b' k'.
    destruct (decide (b' = b /\ k' = k)) as [[-> ->]|Hne].
    - rewrite Hk, Hnew. constructor. split_and!; [done|done|]. intros ?. lia.
    - rewrite Hrest by (destruct (decide (b' = b)); [right|left]; tauto).
      destruct (phi_of (rn_phis st) b' k'); constructor. reflexivity. }
  set (st2 := st1 <| rn_phis := phis' |>).
  assert (Hev2 : evolves st st2) by (etrans; [exact Hev1|by apply phis_evolves]).
  assert (Hden : denotes st2 (phi_register_index phi) (phi_component phi) v (Merged b)).
  { unfold st2, v. cbn. fields. split; [pose proof (ro_next _ _ _ _ _ Hok); lia|]. split; [done|].
    by exists k, phi'. }
  split.
  { apply ok_phis; [done|]. etrans; [apply Hok|]. eapply phis_related_mono; [|exact Hrel]. by intros ? ? ? []. }
  split; [exact Hev2|]. split; [exact Hn1|]. split; [exact Hv1|]. split; [exact Hr1|]. split; [exact Hrel|].
  split; [|split].
  - intros k' Hne. by apply Hrest; right.
  - exists phi'. split; [exact Hnew|exact Hden].
  - eapply active_mix_iff; [|eapply (active_mix_add registers st st2); [exact HW|exact (ev_extends _ _ Hev2)|exact Hreg|exact Ha1|exact Hden]].
    intros r c _. done.
Qed.

Lemma rename_phis_spec b st bp M :
  ok st -> means st (rn_active st) M -> znth (rn_phis st) b = Some bp -> unset b st ->
  rn_next st + zlength (phi_keys phis0 b) <= max ->
  outcome (for_loop (Z.to_nat (zlength (bp_phis bp))) 0 (rename_phi b) st)
    (fun st' => ok st' /\ evolves st st' /\ rn_next st' <= rn_next st + zlength (phi_keys phis0 b) /\
       rn_vars st' = rn_vars st /\ rn_relative st' = rn_relative st /\
       phis_related (phi_frame G b) (rn_phis st) (rn_phis st') /\ phis_named b st' /\
       means st' (rn_active st') (fun r c => if has_phi phis0 r c b then Merged b else M r c))
    (fun _ => malloc_failed).
Proof.
  intros Hok Ha Hb Hun Hroom. destruct (current_count st b bp Hok Hb) as [Hcount Hex].
  pose proof (zlength_nonneg (bp_phis bp)) as Hnn.
  eapply outcome_mono; [apply outcome_for with (F := fun _ => malloc_failed)
    (I := fun j st' => ok st' /\ evolves st st' /\ rn_next st' = rn_next st + j /\
       rn_vars st' = rn_vars st /\ rn_relative st' = rn_relative st /\
       phis_related (phi_frame G b) (rn_phis st) (rn_phis st') /\
       (forall k phi, phi_of (rn_phis st') b k = Some phi -> if decide (k < j)
          then denotes st' (phi_register_index phi) (phi_component phi) (phi_ssa_var phi) (Merged b)
          else phi_ssa_var phi < 0) /\
       mix st' (fun r c => exists k phi, 0 <= k < j /\ phi_of phis0 b k = Some phi /\
          phi_register_index phi = r /\ phi_component phi = c) (Merged b) M)| |done].
  - split_and!; try done; [lia| |].
    + intros k phi Hk. rewrite decide_False; [by eapply Hun|]. unfold phi_of in Hk. rewrite Hb in Hk.
      apply znth_Some in Hk. lia.
    + eapply active_mix_iff; [|by apply active_mix_none]. intros r c _. split; [done|]. intros (k & phi & ? & _). lia.
  - intros k st1 Hk (Hok1 & Hev1 & Hn1 & Hv1 & Hr1 & Hrel1 & Hset1 & HW1).
    destruct (Hex k ltac:(lia)) as [phi Hphi].
    destruct (phis_related_forward _ _ _ _ _ _ Hrel1 Hphi) as (phi1 & Hphi1 & _).
    pose proof (Hset1 k phi1 Hphi1) as Hneg. rewrite decide_False in Hneg by lia.
    destruct (current_phi st1 b k phi1 Hok1 Hphi1) as (_ & _ & _ & _ & phi0 & Hphi0 & Hr0 & Hc0).
    eapply outcome_mono; [apply rename_phi_spec; [done|exact HW1|lia|done|done]| |done].
    intros st2 (Hok2 & Hev2 & Hn2 & Hv2 & Hr2 & Hrel2 & Hrest2 & (phi2 & Hphi2 & Hden2) & HW2).
    split; [done|]. split; [by etrans|]. split; [lia|]. split; [congruence|]. split; [congruence|].
    split; [by etrans|]. split.
    + intros k' phi' Hk'. destruct (decide (k' = k)) as [->|Hne].
      * rewrite decide_True by lia. by assert (phi' = phi2) as -> by congruence.
      * rewrite Hrest2 in Hk' by done. specialize (Hset1 k' phi' Hk').
        destruct (decide (k' < k)); [rewrite decide_True by lia|by rewrite decide_False by lia].
        eapply denotes_mono; [exact (ev_extends _ _ Hev2)|done].
    + eapply active_mix_iff; [|exact HW2]. intros r c _. rewrite Hr0, Hc0. split.
      * intros [(k' & phi' & ? & ?)|[-> ->]]; [exists k', phi'|exists k, phi0]; (split; [lia|done]).
      * intros (k' & phi' & Hk' & Hphi' & <- & <-). destruct (decide (k' = k)) as [->|Hne].
        -- right. by assert (phi' = phi0) as -> by congruence.
        -- left. exists k', phi'. split_and!; done || lia.
  - intros st1 (Hok1 & Hev1 & Hn1 & Hv1 & Hr1 & Hrel1 & Hset1 & HW1).
    split_and!; try done; [lia| |].
    + intros k phi Hk. specialize (Hset1 k phi Hk). rewrite decide_True in Hset1; [done|].
      destruct (phis_related_back _ _ _ _ _ _ Hrel1 Hk) as (phi' & Hk' & _). unfold phi_of in Hk'. rewrite Hb in Hk'.
      apply znth_Some in Hk'. lia.
    + apply (active_mix_means registers st1 (fun r c => has_phi phis0 r c b)).
      eapply active_mix_iff; [|exact HW1]. intros r c _. rewrite has_phi_at.
      split; intros (k & phi & ? & ?); exists k, phi; (split; [lia|done]).
Qed.
(** * The instructions *)

Definition of_block (b x : Z) : Prop := exists i, start b <= i <= last_of b /\ of_instruction i x.

Definition block_recorded (b : Z) (st : rename_state) : Prop :=
  forall i inst, start b <= i <= last_of b -> instruction_in program i inst ->
    recorded program st inst i (before_of b i) /\ renamable program inst.

Lemma means_ext st active M M' :
  (forall r c, in_registers registers r c -> M r c = M' r c) -> means st active M -> means st active M'.
Proof.
  intros HM [Hl Ha]. split; [done|]. intros r c Hr. destruct (Ha r c Hr) as (v & Hv & Hd).
  exists v. by rewrite <- (HM r c Hr).
Qed.

Lemma instruction_count_ok i inst : instruction_in program i inst -> ui_operand_count inst <= DXBC_MAX_OPERANDS.
Proof. intros Hin. apply (si_count _ (sp_instruction _ HP i inst Hin)). Qed.

Lemma other_instruction i j x : of_instruction i x -> i <> j -> ~ of_instruction j x.
Proof. unfold of_instruction. lia. Qed.

Lemma rename_instructions_spec b st :
  ok st -> node G b -> means st (rn_active st) (entering_of b) ->
  rn_next st + 32 * (last_of b - start b + 1) <= max ->
  outcome (for_loop (Z.to_nat (last_of b - start b + 1)) (start b) (rename_instruction program) st)
    (fun st' => ok st' /\ evolves st st' /\ rn_next st' <= rn_next st + 32 * (last_of b - start b + 1) /\
       rn_phis st' = rn_phis st /\
       (forall x, ~ of_block b x -> znth (rn_vars st') x = znth (rn_vars st) x /\
          znth (rn_relative st') x = znth (rn_relative st) x) /\
       means st' (rn_active st') (leaving_of b) /\ block_recorded b st')
    (fun _ => malloc_failed \/ exists i, start b <= i <= last_of b /\ ~ renamable_at program i).
Proof.
  intros Hok Hb Ha Hroom. pose proof (block_bounds program first end_ cfg starts G idom HA b Hb) as Hbb.
  eapply outcome_mono; [apply outcome_for with
    (F := fun _ => malloc_failed \/ exists i, start b <= i <= last_of b /\ ~ renamable_at program i)
    (I := fun j st' => ok st' /\ evolves st st' /\ rn_next st' <= rn_next st + 32 * (j - start b) /\
       rn_phis st' = rn_phis st /\
       (forall x, ~ of_block b x -> znth (rn_vars st') x = znth (rn_vars st) x /\
          znth (rn_relative st') x = znth (rn_relative st) x) /\
       means st' (rn_active st') (before_of b j) /\
       forall i inst, start b <= i < j -> instruction_in program i inst ->
         recorded program st' inst i (before_of b i) /\ renamable program inst)| |done].
  - split_and!; try done; [lia| |lia]. eapply means_ext; [|exact Ha]. intros r c _.
    unfold before_of. by rewrite before_start.
  - intros i st1 Hi (Hok1 & Hev1 & Hn1 & Hp1 & Hf1 & Ha1 & Hrec1).
    destruct (instruction_in_exists program HP i) as [inst Hin]; [lia|].
    eapply outcome_mono; [apply (rename_instruction_spec program HP max phis0 Hmax Hslots i inst);
      [lia|done|done|exact Ha1|lia]| |].
    + intros st2 [Hok2 Hev2 Hn2 Hp2 Hf2 Ha2 Hrec2 Hren2].
      split; [done|]. split; [by etrans|]. split; [lia|]. split; [congruence|]. split_and!.
      * intros x Hx. destruct (Hf2 x) as [-> ->]; [|by apply Hf1]. intros Hix. apply Hx. exists i. split; [lia|done].
      * eapply means_ext; [|exact Ha2]. intros r c _. cbn. unfold before_of. by rewrite before_next by lia.
      * intros j inst' Hj Hin'. destruct (decide (j = i)) as [->|Hne].
        -- by rewrite (instruction_in_unique program i inst' inst Hin' Hin).
        -- destruct (Hrec1 j inst') as [Hr Hren]; [lia|done|]. split; [|done].
           eapply recorded_mono; [by eapply instruction_count_ok|exact (ev_extends _ _ Hev2)| |exact Hr].
           intros x Hx. apply Hf2. by eapply other_instruction.
    + intros [] [?|Hno]; [by left|right]. exists i. split; [lia|].
      intros (inst' & Hin' & Hr). apply Hno. by rewrite <- (instruction_in_unique program i inst' inst Hin' Hin).
  - intros st1 (Hok1 & Hev1 & Hn1 & Hp1 & Hf1 & Ha1 & Hrec1).
    replace (start b + Z.of_nat (Z.to_nat (last_of b - start b + 1))) with (last_of b + 1) in * by lia.
    split_and!; try done; [lia|]. intros i inst Hi Hin. apply Hrec1; [lia|done].
Qed.

(** * The phis of the successors *)

(** The slots of [q] in the phis of [b]. *)
Definition filled_for (q b : Z) (st : rename_state) : Prop :=
  forall k phi, phi_of (rn_phis st) b k = Some phi -> exists slot v,
    znth (fg_pred G b) slot = Some q /\ znth (phi_incoming_blocks phi) slot = Some q /\
    znth (phi_incoming_vars phi) slot = Some v /\
    denotes st (phi_register_index phi) (phi_component phi) v
      (leaving_of q (phi_register_index phi) (phi_component phi)).

Lemma predecessor_slot_spec {E} b block q n k :
  block_represents cfg G b block -> 0 <= k -> k + Z.of_nat n = zlength (fg_pred G b) ->
  (exists slot, k <= slot /\ znth (fg_pred G b) slot = Some q) ->
  exists slot, predecessor_slot (E:=E) n k cfg block q = Ret slot /\ 0 <= slot /\ znth (fg_pred G b) slot = Some q.
Proof.
  intros Hbl. revert k. induction n as [|n IH]; intros k Hk Hn (slot & Hle & Hs).
  { apply znth_Some in Hs. lia. }
  cbn [predecessor_slot]. destruct (znth_is_Some (fg_pred G b) k) as [p Hp]; [lia|].
  rewrite (br_pred _ _ _ _ Hbl _ _ Hp). mstep. destruct (Z.eqb_spec p q) as [->|Hne].
  - by exists k.
  - apply IH; [lia|lia|]. exists slot. split; [|done]. destruct (decide (slot = k)) as [->|]; [congruence|lia].
Qed.

Lemma fill_phi_spec q b slot k st phi :
  ok st -> means st (rn_active st) (leaving_of q) -> phi_of (rn_phis st) b k = Some phi ->
  znth (fg_pred G b) slot = Some q ->
  outcome (fill_phi q b slot k st)
    (fun st' => exists phis, st' = st <| rn_phis := phis |> /\
       phis_related phi_kept (rn_phis st) phis /\ phis_related (phi_frame G q) (rn_phis st) phis /\
       (forall b' k', b' <> b \/ k' <> k -> phi_of phis b' k' = phi_of (rn_phis st) b' k') /\
       exists phi' v, phi_of phis b k = Some phi' /\ znth (phi_incoming_blocks phi') slot = Some q /\
         znth (phi_incoming_vars phi') slot = Some v /\
         denotes st' (phi_register_index phi') (phi_component phi') v
           (leaving_of q (phi_register_index phi') (phi_component phi')))
    (fun _ => False).
Proof.
  intros Hok [Hl Ha] Hk Hs. destruct (current_phi st b k phi Hok Hk) as (Hb & Hreg & Hlv & Hlb & _).
  unfold fill_phi. rewrite (phi_at_ok _ _ _ _ Hk). mstep.
  destruct (Ha _ _ Hreg) as (v & Hv & Hd). rewrite (aget_ok _ _ _ Hv). mstep.
  pose proof (znth_Some _ _ _ Hs). rewrite !aput_ok by lia. mstep. rewrite ?aput_ok by lia. mstep.
  set (phi' := phi <| phi_incoming_vars := zset (phi_incoming_vars phi) slot v |>
                   <| phi_incoming_blocks := zset (phi_incoming_blocks phi) slot q |>).
  assert (Hframe : phi_frame G q b phi phi').
  { split; [split_and!; try done; apply zlength_zset|done|]. intros s Hne.
    cbn. rewrite !znth_zset_ne by congruence. done. }
  assert (Hkept : phi_kept b phi phi') by by split_and!.
  destruct (put_phi_related (E:=unit) (phi_frame G q) (rn_phis st) b k phi phi' _ Hk Hframe)
    as (phis & Hrun & Hrel & Hnew & Hrest).
  destruct (put_phi_related (E:=unit) phi_kept (rn_phis st) b k phi phi' _ Hk Hkept)
    as (phis' & Hrun' & Hrel' & _). assert (phis' = phis) as -> by congruence. rewrite Hrun. mstep.
  cbn [outcome]. exists phis. split_and!; try done.
  exists phi', v. split; [done|]. cbn. rewrite !znth_zset_eq by lia. split_and!; [done..|].
  eapply denotes_mono; [|exact Hd]. exact (ev_extends _ _ (phis_evolves st phis Hrel')).
Qed.

Record filling (q : Z) (st : rename_state) (phis : list HLSLBlockPhis) : Prop := {
  fl_kept : phis_related phi_kept (rn_phis st) phis;
  fl_frame : phis_related (phi_frame G q) (rn_phis st) phis;
}.

Lemma filling_ok q st phis : ok st -> filling q st phis -> ok (st <| rn_phis := phis |>).
Proof.
  intros Hok [_ Hf]. apply ok_phis; [done|]. etrans; [apply Hok|].
  eapply phis_related_mono; [|exact Hf]. by intros ? ? ? [].
Qed.

Lemma filling_evolves q st phis : filling q st phis -> evolves st (st <| rn_phis := phis |>).
Proof. intros [Hk _]. by apply phis_evolves. Qed.

Lemma filled_for_mono q b st st' :
  extends st st' -> (forall k, phi_of (rn_phis st') b k = phi_of (rn_phis st) b k) ->
  filled_for q b st -> filled_for q b st'.
Proof.
  intros He Hsame Hf k phi Hk. rewrite Hsame in Hk. destruct (Hf k phi Hk) as (slot & v & ? & ? & ? & Hd).
  exists slot, v. split_and!; [done..|]. by eapply denotes_mono.
Qed.

Lemma fill_successor_spec q block st s b :
  ok st -> means st (rn_active st) (leaving_of q) -> block_represents cfg G q block ->
  znth (fg_succ G q) s = Some b -> edge G q b ->
  outcome (fill_successor cfg q block s st)
    (fun st' => exists phis, st' = st <| rn_phis := phis |> /\ filling q st phis /\
       (forall b' k', b' <> b -> phi_of phis b' k' = phi_of (rn_phis st) b' k') /\ filled_for q b st')
    (fun _ => False).
Proof.
  intros Hok Ha Hbl Hs He. unfold fill_successor. rewrite (br_succ _ _ _ _ Hbl _ _ Hs). mstep.
  assert (Hb : node G b) by by apply (fg_edge_node G HG q).
  destruct (graph_block program first end_ cfg starts G idom HA b Hb) as (next & -> & _ & _ & Hnext). mstep.
  rewrite (br_pred_count _ _ _ _ Hnext). pose proof (zlength_nonneg (fg_pred G b)).
  destruct (predecessor_slot_spec (E:=unit) b next q (Z.to_nat (zlength (fg_pred G b))) 0 Hnext)
    as (slot & -> & Hslot & Hq); [lia|lia| |].
  { apply (edge_pred G HG q b Hb), znth_elem_of in He as [slot Hslot]. exists slot. split; [|done].
    apply znth_Some in Hslot. lia. }
  mstep. rewrite (proj2 (Z.eqb_neq _ _)) by lia.
  pose proof (ro_phis _ _ _ _ _ Hok) as [Hlen _]. rewrite (pc_length _ _ _ _ _ _ Hplaced) in Hlen.
  destruct (znth_is_Some (rn_phis st) b) as [bp Hbp]; [unfold node in Hb; lia|]. rewrite (aget_ok _ _ _ Hbp). mstep.
  destruct (current_count st b bp Hok Hbp) as [_ Hex]. pose proof (zlength_nonneg (bp_phis bp)).
  eapply outcome_mono; [apply outcome_for with (F := fun _ => False)
    (I := fun j st' => exists phis, st' = st <| rn_phis := phis |> /\ filling q st phis /\
       (forall b' k', b' <> b -> phi_of phis b' k' = phi_of (rn_phis st) b' k') /\
       forall k phi, k < j -> phi_of phis b k = Some phi -> exists v,
         znth (phi_incoming_blocks phi) slot = Some q /\ znth (phi_incoming_vars phi) slot = Some v /\
         denotes st' (phi_register_index phi) (phi_component phi) v
           (leaving_of q (phi_register_index phi) (phi_component phi)))| |done].
  - exists (rn_phis st). split; [by destruct st|]. split; [by split|]. split; [done|].
    intros k phi Hk Hphi. unfold phi_of in Hphi. rewrite Hbp in Hphi. apply znth_Some in Hphi. lia.
  - intros k st1 Hk (phis & -> & Hfill & Hother & Hdone).
    destruct (Hex k ltac:(lia)) as [phi0 Hphi0].
    destruct (phis_related_forward _ _ _ _ _ _ (fl_kept _ _ _ Hfill) Hphi0) as (phi & Hphi & _).
    eapply outcome_mono; [eapply (fill_phi_spec q b slot k); [by eapply filling_ok| |exact Hphi|done]| |done].
    { eapply active_means_mono; [|exact Ha]. exact (ev_extends _ _ (filling_evolves _ _ _ Hfill)). }
    intros st2 (phis2 & -> & Hk2 & Hf2 & Hrest2 & phi2 & v & Hphi2 & Hb2 & Hv2 & Hd2). fields.
    change (rn_phis (st <| rn_phis := phis |>)) with phis in *.
    exists phis2. split; [done|]. split; [|split].
    + destruct Hfill as [Hfk Hff]. split; [by etrans|by etrans].
    + intros b' k' Hne. rewrite Hrest2 by by left. by apply Hother.
    + intros k' phi' Hk' Hphi'. destruct (decide (k' = k)) as [->|Hne].
      * assert (phi' = phi2) as -> by congruence. by exists v.
      * rewrite Hrest2 in Hphi' by by right. destruct (Hdone k' phi') as (v' & ? & ? & Hd'); [lia|done|].
        exists v'. split_and!; [done..|]. eapply denotes_mono; [|exact Hd'].
        exact (ev_extends _ _ (phis_evolves (st <| rn_phis := phis |>) phis2 Hk2)).
  - intros st1 (phis & -> & Hfill & Hother & Hdone). exists phis. split_and!; [done..|].
    intros k phi Hphi. destruct (Hdone k phi) as (v & Hb1 & Hv1 & Hd1); [|done|by exists slot, v].
    destruct (phis_related_back _ _ _ _ _ _ (fl_kept _ _ _ Hfill) Hphi) as (phi' & Hk' & _).
    unfold phi_of in Hk'. rewrite Hbp in Hk'. apply znth_Some in Hk'. lia.
Qed.

Lemma fill_successors_spec q block st :
  ok st -> means st (rn_active st) (leaving_of q) -> node G q -> block_represents cfg G q block ->
  outcome (for_loop (Z.to_nat (bb_successor_count block)) 0 (fill_successor cfg q block) st)
    (fun st' => exists phis, st' = st <| rn_phis := phis |> /\ filling q st phis /\
       forall b, edge G q b -> filled_for q b st')
    (fun _ => False).
Proof.
  intros Hok Ha Hq Hbl. rewrite (br_succ_count _ _ _ _ Hbl).
  eapply outcome_mono; [apply outcome_for_array with (xs := fg_succ G q) (F := fun _ => False)
    (I := fun l st' => exists phis, st' = st <| rn_phis := phis |> /\ filling q st phis /\
       forall b, b ∈ l -> filled_for q b st')| |done].
  - exists (rn_phis st). split; [by destruct st|]. split; [by split|]. by intros b ?%not_elem_of_nil.
  - intros l b rest st1 Heq Hb (phis & -> & Hfill & Hdone).
    assert (He : edge G q b) by (split; [done|]; apply znth_elem_of; eauto).
    assert (Hnew : b ∉ l).
    { pose proof (fg_succ_nodup G HG q) as Hnd. rewrite Heq in Hnd. apply list.NoDup_app in Hnd as (_ & Hd & _).
      intros Hin. apply (Hd b Hin). left. }
    eapply outcome_mono; [eapply (fill_successor_spec q block _ _ b); [by eapply filling_ok| |done|exact Hb|done]| |done].
    { eapply active_means_mono; [|exact Ha]. exact (ev_extends _ _ (filling_evolves _ _ _ Hfill)). }
    intros st2 (phis2 & -> & Hfill2 & Hother2 & Hb2). exists phis2. split; [done|].
    pose proof (filling_evolves _ _ _ Hfill2) as Hev2.
    change (rn_phis (st <| rn_phis := phis |>)) with phis in *. split.
    + destruct Hfill as [Hfk Hff], Hfill2 as [Hfk2 Hff2]. split; [by etrans|by etrans].
    + intros b' [Hin|Hin]%elem_of_app; [|by apply list_elem_of_singleton in Hin as ->].
      eapply (filled_for_mono q b' (st <| rn_phis := phis |>)); [exact (ev_extends _ _ Hev2)| |by apply Hdone].
      intros k. apply Hother2. intros ->. done.
  - intros st1 (phis & -> & Hfill & Hdone). exists phis. split_and!; [done..|]. intros b [_ Hb]. by apply Hdone.
Qed.
(** * The whole block *)

Definition block_cost (b : Z) : Z := zlength (phi_keys phis0 b) + 32 * (last_of b - start b + 1).

Record block_renamed (b : Z) (st st' : rename_state) : Prop := {
  bk_ok : ok st';
  bk_evolves : evolves st st';
  bk_next : rn_next st' <= rn_next st + block_cost b;
  bk_phis : phis_related (phi_frame G b) (rn_phis st) (rn_phis st');
  bk_frame x : ~ of_block b x -> znth (rn_vars st') x = znth (rn_vars st) x /\
    znth (rn_relative st') x = znth (rn_relative st) x;
  bk_active : means st' (rn_active st') (leaving_of b);
  bk_named : phis_named b st';
  bk_recorded : block_recorded b st';
  bk_filled c : edge G b c -> filled_for b c st';
}.

Lemma phis_named_mono b st st' :
  extends st st' -> phis_related (fun _ phi phi' => phi_register_index phi' = phi_register_index phi /\
    phi_component phi' = phi_component phi /\ (0 <= phi_ssa_var phi -> phi_ssa_var phi' = phi_ssa_var phi))
    (rn_phis st) (rn_phis st') -> phis_named b st -> phis_named b st'.
Proof.
  intros He Hrel Hn k phi' Hk'. destruct (phis_related_back _ _ _ _ _ _ Hrel Hk') as (phi & Hk & -> & -> & Hv).
  pose proof (Hn k phi Hk) as Hd. rewrite Hv by (destruct Hd as [? _]; lia). by eapply denotes_mono.
Qed.

Lemma block_recorded_mono b st st' :
  extends st st' -> (forall x, of_block b x -> znth (rn_vars st') x = znth (rn_vars st) x /\
    znth (rn_relative st') x = znth (rn_relative st) x) ->
  block_recorded b st -> block_recorded b st'.
Proof.
  intros He Hsame Hr i inst Hi Hin. destruct (Hr i inst Hi Hin) as [Hrec Hren]. split; [|done].
  eapply recorded_mono; [by eapply instruction_count_ok|done| |done]. intros x Hx. apply Hsame. by exists i.
Qed.

Lemma filled_for_frame q q' b st st' :
  extends st st' -> phis_related (phi_frame G q') (rn_phis st) (rn_phis st') -> q <> q' ->
  filled_for q b st -> filled_for q b st'.
Proof.
  intros He Hrel Hne Hf k phi' Hk'.
  destruct (phis_related_back _ _ _ _ _ _ Hrel Hk') as (phi & Hk & [(-> & -> & _ & _) _ Hslot]).
  destruct (Hf k phi Hk) as (slot & v & Hs & Hb & Hv & Hd). destruct (Hslot slot) as [Hv' Hb']; [congruence|].
  exists slot, v. rewrite Hv', Hb'. split_and!; [done..|]. by eapply denotes_mono.
Qed.

Lemma rename_ssa_block_spec b st :
  ok st -> reachable G b -> means st (rn_active st) (inherited_of b) -> unset b st ->
  rn_next st + block_cost b <= max ->
  outcome (rename_ssa_block program cfg b st) (block_renamed b st)
    (fun _ => malloc_failed \/ exists i, start b <= i <= last_of b /\ ~ renamable_at program i).
Proof.
  intros Hok Hreach Ha Hun Hroom. unfold block_cost in *.
  assert (Hb : node G b) by by apply (reachable_node G HG).
  pose proof (block_bounds program first end_ cfg starts G idom HA b Hb) as Hbb.
  pose proof (zlength_nonneg (phi_keys phis0 b)). unfold rename_ssa_block.
  pose proof (ro_phis _ _ _ _ _ Hok) as [Hlen _]. rewrite (pc_length _ _ _ _ _ _ Hplaced) in Hlen.
  destruct (znth_is_Some (rn_phis st) b) as [bp Hbp]; [unfold node in Hb; lia|]. rewrite (aget_ok _ _ _ Hbp). mstep.
  apply outcome_bind. eapply outcome_mono; [apply (rename_phis_spec b st bp _ Hok Ha Hbp Hun); lia| |by left].
  intros st1 (Hok1 & Hev1 & Hn1 & Hv1 & Hr1 & Hp1 & Hnamed1 & Ha1).
  destruct (graph_block program first end_ cfg starts G idom HA b Hb) as (block & Hat & Hfirst & Hlast & Hbl).
  rewrite Hat. mstep. rewrite Hfirst, Hlast.
  apply outcome_bind. eapply outcome_mono; [apply (rename_instructions_spec b st1 Hok1 Hb)| |done].
  { eapply means_ext; [|exact Ha1]. intros r c _. unfold entering_of, inherited_of.
    by rewrite (entering_eq end_ starts G idom (ag_tree _ _ _ _ _ _ _ HA)). }
  { lia. }
  intros st2 (Hok2 & Hev2 & Hn2 & Hp2 & Hf2 & Ha2 & Hrec2).
  eapply outcome_mono; [by apply (fill_successors_spec b block st2)| |done].
  intros st3 (phis & -> & Hfill & Hdone). pose proof (filling_evolves _ _ _ Hfill) as Hev3.
  assert (Hev : evolves st (st2 <| rn_phis := phis |>)) by (etrans; [exact Hev1|by etrans]).
  split.
  - by eapply filling_ok.
  - exact Hev.
  - change (rn_next (st2 <| rn_phis := phis |>)) with (rn_next st2). unfold block_cost. lia.
  - etrans; [exact Hp1|]. rewrite <- Hp2. apply Hfill.
  - intros x Hx. rewrite <- Hv1, <- Hr1. by apply Hf2.
  - eapply active_means_mono; [|exact Ha2]. exact (ev_extends _ _ Hev3).
  - eapply (phis_named_mono b st1); [|..|exact Hnamed1].
    + etrans; [exact (ev_extends _ _ Hev2)|exact (ev_extends _ _ Hev3)].
    + rewrite <- Hp2. apply (fl_kept _ _ _ Hfill).
  - eapply (block_recorded_mono b st2); [exact (ev_extends _ _ Hev3)|done|done].
  - exact Hdone.
Qed.
End block.
