(* ===== verification/SsaTraversal.v ===== *)
(** The traversal of the dominator tree: every reachable block is renamed once,
    after its immediate dominator and from the versions it leaves, which the
    undo log restores on the way back. *)

From stdpp Require Import relations.
From S2P Require Import Prelude CArray UnityCommon Heap Operand Instruction Usil SsaGraph Cfg FlowGraph Postorder DominatorTree Dominance Frontier FlowStructure FlowMatch FlowStep CfgBlocks CfgBuild FlowTrace CfgAnalysis Ssa SsaMeaning SsaInstruction SsaPlacement SsaState SsaRename SsaBlock.

#[local] Set Warnings "-register-all".

(** A loop whose measure is not in its state. *)
Lemma outcome_while_ghost {E S} (I : nat -> S -> Prop) (F : E -> Prop) fuel cond (body : S -> res E S) m s :
  I m s -> (m <= fuel)%nat ->
  (forall m t, I m t -> cond t = true ->
    (0 < m)%nat /\ outcome (body t) (fun t' => exists m', (m' < m)%nat /\ I m' t') F) ->
  outcome (while fuel cond body s) (fun t => (exists m, I m t) /\ cond t = false) F.
Proof.
  intros Hi Hm Hbody. revert m s Hi Hm. induction fuel as [|fuel IH]; intros m s Hi Hm; simpl.
  all: destruct (cond s) eqn:Hc; [|by split; [exists m|]]; destruct (Hbody m s Hi Hc) as [Hpos Hout].
  { lia. }
  apply outcome_bind. eapply outcome_mono; [exact Hout| |done].
  intros t (m' & Hlt & Ht). by apply (IH m'); [|lia].
Qed.

(** Where an element is, when it is there once. *)
Lemma znth_NoDup {A} (l : list A) i j x : NoDup l -> znth l i = Some x -> znth l j = Some x -> i = j.
Proof.
  intros Hd Hi Hj. pose proof (znth_Some _ _ _ Hi). pose proof (znth_Some _ _ _ Hj).
  rewrite znth_nonneg in Hi, Hj by lia. assert (Z.to_nat i = Z.to_nat j) by by eapply NoDup_lookup. lia.
Qed.

Section traversal.
Context `{U : UnityCommon} {HU : UnityCommonSpec U} `{L : LibcMalloc}.
Context (program : USILProgram) (HP : ssa_program_ok program) (first end_ : Z).

Abbreviation count := (up_instruction_count program).
Abbreviation registers := (up_temp_count program).
Abbreviation slots := (count * 32).

Hypothesis Hrange : 0 <= first < end_ /\ end_ <= count.

Context (cfg : HLSLControlFlowGraph) (starts : list Z) (G : flow_graph) (idom : list Z).
Context (HA : analysed_graph program first end_ cfg starts G idom).
Context (max : Z) (phis0 : list HLSLBlockPhis).
Hypothesis (Hmax : max <= INT_MAX) (Hslots : slots <= INT_MAX).
Hypothesis (Hplaced : placed program end_ starts G (registers * 4) phis0).
Hypothesis (Henough : fg_count G * (registers * 4) + slots <= max).

Abbreviation start := (start_of starts).
Abbreviation last_of := (block_end end_ starts).
Abbreviation ok := (rename_ok registers slots max phis0).
Abbreviation means := (active_means registers).
Abbreviation leaving_ := (leaving_of program end_ starts G idom phis0).
Abbreviation inherited_ := (inherited_of program end_ starts G idom phis0).
Abbreviation cost := (block_cost end_ starts phis0).
Abbreviation n := (fg_count G).
Abbreviation child_list := (children G idom).

Let HG : flow_graph_ok G := graph_ok program first end_ cfg starts G idom HA.
Let HD : dominator_tree G idom := ag_tree _ _ _ _ _ _ _ HA.

(** * The variables are enough *)

Definition total (Q : list Z) : Z := foldr (fun b s => cost b + s) 0 Q.

Lemma total_app Q Q' : total (Q ++ Q') = total Q + total Q'.
Proof. induction Q as [|b Q IH]; cbn; [done|]. unfold total in *. lia. Qed.

Lemma cost_nonneg b : node G b -> 0 <= cost b.
Proof.
  intros Hb. pose proof (block_bounds program first end_ cfg starts G idom HA b Hb).
  unfold block_cost. pose proof (zlength_nonneg (phi_keys phis0 b)). lia.
Qed.

Lemma total_perm Q Q' : Q ≡ₚ Q' -> total Q = total Q'.
Proof. induction 1; cbn; unfold total in *; lia. Qed.

Lemma total_nonneg Q : (forall b, b ∈ Q -> node G b) -> 0 <= total Q.
Proof.
  induction Q as [|b Q IH]; intros Hn; cbn; [done|]. pose proof (cost_nonneg b (Hn b (list_elem_of_here _ _))).
  assert (0 <= total Q) by (apply IH; intros c Hc; apply Hn; by right). unfold total in *. lia.
Qed.

Lemma total_all : total (seqZ 0 n) <= max.
Proof.
  pose proof (fg_count_ok G HG) as Hn.
  pose proof (graph_nodes program first end_ cfg starts G idom HA) as Hnodes.
  pose proof (graph_split program first end_ cfg starts G idom HA) as Hs.
  assert (H0 : znth starts 0 = Some first) by (by apply (split_nonempty program first end_ starts ltac:(lia))).
  set (from k := default end_ (znth starts k)).
  assert (Hall : forall k : nat, Z.of_nat k <= n ->
    total (seqZ 0 (Z.of_nat k)) <= Z.of_nat k * (registers * 4) + 32 * (from (Z.of_nat k) - first)).
  { induction k as [|k IH]; intros Hk.
    - change (Z.of_nat 0) with 0. unfold from. rewrite H0. cbn. unfold id. change (total (seqZ 0 0)) with 0. lia.
    - replace (Z.of_nat (S k)) with (Z.of_nat k + 1) by lia. rewrite seqZ_app by lia. rewrite total_app.
      replace (seqZ (0 + Z.of_nat k) 1) with [Z.of_nat k] by (by rewrite Z.add_0_l). cbn.
      specialize (IH ltac:(lia)). assert (Hb : node G (Z.of_nat k)) by (unfold node; lia).
      assert (Hfew : zlength (phi_keys phis0 (Z.of_nat k)) <= registers * 4).
      { destruct (znth_is_Some phis0 (Z.of_nat k)) as [bp Hbp]; [rewrite (pc_length _ _ _ _ _ _ Hplaced); done|].
        rewrite (phi_keys_at _ _ _ Hbp). unfold zlength. rewrite length_fmap.
        apply (pc_few _ _ _ _ _ _ Hplaced _ _ Hbp). }
      assert (Hf : from (Z.of_nat k) = start (Z.of_nat k)).
      { unfold from, start_of. destruct (znth_is_Some starts (Z.of_nat k)) as [x ->]; [unfold node in Hb; lia|done]. }
      assert (Hl : from (Z.of_nat k + 1) = last_of (Z.of_nat k) + 1) by (unfold from, block_end; lia).
      rewrite Hf in IH. rewrite Hl. unfold block_cost, total in *. lia. }
  specialize (Hall (Z.to_nat n) ltac:(lia)). rewrite Z2Nat.id in Hall by lia.
  assert (Hend : from n = end_).
  { unfold from. rewrite (proj2 (znth_None _ _)); [done|]. rewrite Hnodes. lia. }
  rewrite Hend in Hall. lia.
Qed.

Lemma total_le Q : NoDup Q -> (forall b, b ∈ Q -> node G b) -> total Q <= max.
Proof.
  intros Hd Hn. assert (Hsub : Q ⊆+ seqZ 0 n).
  { apply NoDup_submseteq; [done|]. intros b Hb. apply elem_of_seqZ. specialize (Hn b Hb). unfold node in Hn. lia. }
  apply submseteq_Permutation in Hsub as [rest Hrest].
  pose proof total_all as Hall. rewrite (total_perm _ _ Hrest), total_app in Hall.
  assert (0 <= total rest); [|lia]. apply total_nonneg. intros b Hb.
  assert (Hin : b ∈ seqZ 0 n) by (rewrite Hrest; apply elem_of_app; by right).
  apply elem_of_seqZ in Hin. unfold node. lia.
Qed.

(** * The stack *)

(** What the log restores, frame by frame. *)
Fixpoint stack_ok (st : rename_state) (entries : list RenamingUndoEntry) (active : list Z)
    (stack : list SSARenameFrame) : Prop :=
  match stack with
  | [] => True
  | f :: rest =>
      if rf_entered f
      then means st active (leaving_ (rf_block f)) /\
        exists E A, rf_undo_start f <= zlength entries /\
          unwind (E:=unit) entries (rf_undo_start f) active = Ret (E, A) /\ stack_ok st E A rest
      else means st active (inherited_ (rf_block f)) /\ stack_ok st entries active rest
  end.

Lemma stack_ok_mono st st' entries active stack :
  extends st st' -> stack_ok st entries active stack -> stack_ok st' entries active stack.
Proof.
  intros He. revert entries active. induction stack as [|f rest IH]; intros entries active; cbn; [done|].
  destruct (rf_entered f).
  - intros [Hm (E & A & Hu & Hrun & Hs)]. split; [by eapply active_means_mono|]. exists E, A. auto.
  - intros [Hm Hs]. split; [by eapply active_means_mono|]. by apply IH.
Qed.

(** The frame on top is not entered yet. *)
Definition waiting (stack : list SSARenameFrame) (b : Z) : Prop :=
  match stack with f :: _ => rf_entered f = false /\ rf_block f = b | [] => False end.

Definition finished (b : Z) (st : rename_state) : Prop :=
  phis_named b st /\ block_recorded program end_ starts G idom phis0 b st /\
  forall c, edge G b c -> filled_for program end_ starts G idom phis0 b c st.

Definition pending (stack : list SSARenameFrame) : Z :=
  match stack with f :: _ => if rf_entered f then 0 else cost (rf_block f) | [] => 0 end.

Record frame_ok (Q : list Z) (f : SSARenameFrame) : Prop := {
  fr_block : rf_block f ∈ Q;
  fr_next : 0 <= rf_next_child f <= zlength (child_list (rf_block f));
  fr_children j c : znth (child_list (rf_block f)) j = Some c -> c ∈ Q <-> j < rf_next_child f;
}.

(** [Q] are the blocks that were ever on the stack. *)
Record traversing (Q : list Z) (stack : list SSARenameFrame) (st : rename_state) : Prop := {
  tv_ok : ok st;
  tv_nodup : NoDup Q;
  tv_reach b : b ∈ Q -> reachable G b;
  tv_entry : 0 ∈ Q;
  tv_up b : b ∈ Q -> b = 0 \/ at_ idom b ∈ Q;
  tv_stack : NoDup (rf_block <$> stack);
  tv_below : Forall (fun f => rf_entered f = true) (tail stack);
  tv_frame f : f ∈ stack -> frame_ok Q f;
  tv_closed b : b ∈ Q -> b ∈ rf_block <$> stack \/ forall c, c ∈ child_list b -> c ∈ Q;
  tv_log : stack_ok st (ul_entries (rn_undo st)) (rn_active st) stack;
  tv_next : rn_next st + pending stack <= total Q;
  tv_done b : b ∈ Q -> ~ waiting stack b -> finished b st;
  tv_unset b : b ∉ Q \/ waiting stack b -> unset b st;
}.

Lemma traversing_node Q stack st b : traversing Q stack st -> b ∈ Q -> node G b.
Proof. intros HT Hb. apply (reachable_node G HG). by apply (tv_reach _ _ _ HT). Qed.

Lemma traversing_few Q stack st : traversing Q stack st -> zlength Q <= n.
Proof.
  intros HT. pose proof (fg_count_ok G HG). apply zlength_NoDup_le; [lia|apply HT|].
  intros b Hb. by apply (traversing_node _ _ _ _ HT).
Qed.

(** * Entering *)

Lemma blocks_apart b b' x : node G b -> node G b' -> of_block end_ starts b x -> of_block end_ starts b' x -> b = b'.
Proof.
  intros Hb Hb' (i & Hi & Hx) (i' & Hi' & Hx'). assert (i' = i) as -> by (unfold of_instruction in *; lia).
  apply (in_block_unique program first end_ starts (graph_split program first end_ cfg starts G idom HA) i);
    by apply (in_block_iff program first end_ cfg starts G idom HA).
Qed.

Lemma finished_renamed b b' st st' :
  node G b -> node G b' -> b' <> b ->
  block_renamed program end_ starts G idom max phis0 b st st' -> finished b' st -> finished b' st'.
Proof.
  intros Hb Hb' Hne HR (Hn & Hr & Hf). pose proof (ev_extends _ _ (bk_evolves _ _ _ _ _ _ _ _ _ _ HR)) as He.
  split; [|split].
  - eapply phis_named_mono; [exact He|exact (ex_phis _ _ He)|done].
  - eapply block_recorded_mono; [exact HP|exact He| |exact Hr]. intros x Hx.
    apply (bk_frame _ _ _ _ _ _ _ _ _ _ HR). intros Hx'. apply Hne. by eapply blocks_apart.
  - intros c Hc. eapply filled_for_frame; [exact He|exact (bk_phis _ _ _ _ _ _ _ _ _ _ HR)|done|by apply Hf].
Qed.

Lemma finished_same b st st' :
  extends st st' -> rn_phis st' = rn_phis st -> rn_vars st' = rn_vars st -> rn_relative st' = rn_relative st ->
  finished b st -> finished b st'.
Proof.
  intros He Hp Hv Hr (Hn & Hrec & Hf). split; [|split].
  - eapply phis_named_mono; [exact He|exact (ex_phis _ _ He)|done].
  - eapply block_recorded_mono; [exact HP|exact He| |exact Hrec]. intros x _. by rewrite Hv, Hr.
  - intros c Hc. eapply filled_for_mono; [exact He| |by apply Hf]. intros k. by rewrite Hp.
Qed.

Lemma unset_renamed b b' st st' :
  b' <> b -> block_renamed program end_ starts G idom max phis0 b st st' -> unset b' st -> unset b' st'.
Proof.
  intros Hne HR Hu k phi' Hk.
  destruct (phis_related_back _ _ _ _ _ _ (bk_phis _ _ _ _ _ _ _ _ _ _ HR) Hk) as (phi & Hk' & [_ Hv _]).
  rewrite Hv by done. by apply (Hu k).
Qed.

Definition failure : Prop :=
  malloc_failed \/ exists b i, reachable G b /\ start b <= i <= last_of b /\ ~ renamable_at program i.

Lemma enter_frame_spec Q f rest st :
  traversing Q (f :: rest) st ->
  outcome (enter_frame program cfg f st)
    (fun '(f', st') => rf_entered f' = true /\ rf_block f' = rf_block f /\ rf_next_child f' = rf_next_child f /\
       traversing Q (f' :: rest) st')
    (fun _ => failure).
Proof.
  intros HT. unfold enter_frame. destruct (rf_entered f) eqn:Hent; [done|].
  pose proof (tv_frame _ _ _ HT f (list_elem_of_here _ _)) as [Hb Hnc Hch].
  pose proof (tv_reach _ _ _ HT _ Hb) as Hreach. pose proof (traversing_node _ _ _ _ HT Hb) as Hnb.
  pose proof (tv_log _ _ _ HT) as Hlog. cbn [stack_ok] in Hlog. rewrite Hent in Hlog. destruct Hlog as [Hact Hlog].
  assert (Hwait : waiting (f :: rest) (rf_block f)) by done.
  assert (Hle : total Q <= max).
  { apply total_le; [apply HT|]. intros b Hb'. by apply (traversing_node _ _ _ _ HT). }
  pose proof (tv_next _ _ _ HT) as Hnext. cbn [pending] in Hnext. rewrite Hent in Hnext.
  apply outcome_bind. eapply outcome_mono; [apply (rename_ssa_block_spec program HP first end_ Hrange cfg starts G idom
    HA max phis0 Hmax Hslots Hplaced (rf_block f) st); [apply HT|done|done|apply HT; by right|lia]| |].
  2:{ intros [] [?|(i & Hi & Hno)]; [by left|right; eauto]. }
  intros st' HR. cbn [outcome]. split; [done|]. split; [done|]. split; [done|].
  destruct HT as [Hok Hnd Hr H0 Hparent Hsnd Hbelow Hframes Hclosed _ _ Hdone Hunset].
  split; try done.
  - apply (bk_ok _ _ _ _ _ _ _ _ _ _ HR).
  - intros g [->|Hg]%elem_of_cons; [by split|]. apply Hframes. by right.
  - cbn. split; [apply (bk_active _ _ _ _ _ _ _ _ _ _ HR)|].
    destruct (ev_undone _ _ (bk_evolves _ _ _ _ _ _ _ _ _ _ HR) _ _ (undone_here st)) as [Hu Hrun].
    exists (ul_entries (rn_undo st)), (rn_active st). split_and!; [done|done|].
    eapply stack_ok_mono; [exact (ev_extends _ _ (bk_evolves _ _ _ _ _ _ _ _ _ _ HR))|done].
  - cbn. pose proof (bk_next _ _ _ _ _ _ _ _ _ _ HR). lia.
  - intros b Hbq _. destruct (decide (b = rf_block f)) as [->|Hne].
    + split_and!; apply HR.
    + eapply finished_renamed; [exact Hnb| |exact Hne|exact HR|].
      * apply (reachable_node G HG). by apply Hr.
      * apply Hdone; [done|]. by intros [_ ?].
  - intros b [Hbq|[? _]]; [|done]. assert (Hne : b <> rf_block f) by (intros ->; done).
    eapply unset_renamed; [exact Hne|exact HR|]. apply Hunset. by left.
Qed.

(** * Going on *)

Lemma push_traversing Q f rest st c :
  traversing Q (f :: rest) st -> rf_entered f = true -> znth (child_list (rf_block f)) (rf_next_child f) = Some c ->
  (c ∉ Q) /\ node G c /\
  traversing (Q ++ [c])
    ({| rf_block := c; rf_next_child := 0; rf_undo_start := 0; rf_entered := false |} ::
     {| rf_block := rf_block f; rf_next_child := rf_next_child f + 1; rf_undo_start := rf_undo_start f;
        rf_entered := rf_entered f |} :: rest) st.
Proof.
  intros HT Hent Hc. pose proof (tv_frame _ _ _ HT f (list_elem_of_here _ _)) as [Hb Hnc Hch].
  assert (Hcin : c ∈ child_list (rf_block f)) by (apply znth_elem_of; eauto).
  pose proof (children_iff G idom (rf_block f) c) as Hiff. apply Hiff in Hcin as (Hnode & Hup & Hne).
  assert (Hnew : c ∉ Q) by (intros Hin; apply (Hch _ _ Hc) in Hin; lia).
  pose proof (tv_reach _ _ _ HT _ Hb) as Hreach. pose proof (reachable_node G HG _ Hreach) as Hnb.
  assert (Hrc : reachable G c) by (apply (dt_done _ _ HD); rewrite Hup; unfold node in Hnb; lia).
  assert (Hc0 : c <> 0) by (intros ->; rewrite (dt_root _ _ HD) in Hup; congruence).
  split; [done|]. split; [done|].
  assert (Hother : forall b j c', b <> rf_block f -> znth (child_list b) j = Some c' -> c' <> c).
  { intros b j c' Hbf Hj ->. assert (Hin : c ∈ child_list b) by (apply znth_elem_of; eauto).
    apply (children_iff G idom) in Hin as (_ & ? & _). congruence. }
  destruct HT as [Hok Hnd Hr H0 Hparent Hsnd Hbelow Hframes Hclosed Hlog Hnext Hdone Hunset].
  cbn [fmap list_fmap] in Hsnd. apply list.NoDup_cons in Hsnd as [Hfn Hsnd].
  split; try done.
  - apply list.NoDup_app. split_and!; [done| |apply NoDup_singleton]. by intros x Hx ->%list_elem_of_singleton.
  - intros b [Hx|Hx]%elem_of_app; [by apply Hr|]. by apply list_elem_of_singleton in Hx as ->.
  - apply elem_of_app. by left.
  - intros b [Hx|Hx]%elem_of_app.
    + destruct (Hparent b Hx) as [?|?]; [by left|right]. apply elem_of_app. by left.
    + apply list_elem_of_singleton in Hx as ->. right. rewrite Hup. apply elem_of_app. by left.
  - cbn. apply list.NoDup_cons. split; [|by apply list.NoDup_cons]. intros [Hcf|(g & -> & Hg)%list_elem_of_fmap]%elem_of_cons.
    + congruence.
    + apply Hnew. apply (fr_block _ _ (Hframes g ltac:(by right))).
  - cbn. apply list.Forall_cons. split; [done|]. exact Hbelow.
  - intros g [->|[->|Hg]%elem_of_cons]%elem_of_cons.
    + split; cbn; [apply elem_of_app; right; left|split; [done|apply zlength_nonneg]|].
      intros j d Hd. split; [|apply znth_Some in Hd; lia]. intros [Hin|Hin]%elem_of_app.
      * exfalso. apply znth_Some in Hd as Hj. assert (Hdc : d ∈ child_list c) by (apply znth_elem_of; eauto).
        apply (children_iff G idom) in Hdc as (_ & Hud & Hdn). apply Hnew. rewrite <- Hud.
        destruct (Hparent d Hin) as [->|]; [|done]. rewrite (dt_root _ _ HD) in Hud. congruence.
      * apply list_elem_of_singleton in Hin as ->. assert (Hdc : c ∈ child_list c) by (apply znth_elem_of; eauto).
        apply (children_iff G idom) in Hdc as (_ & _ & ?). done.
    + split; cbn; [apply elem_of_app; by left|apply znth_Some in Hc; lia|].
      intros j d Hd. rewrite elem_of_app, list_elem_of_singleton, (Hch _ _ Hd). split.
      * intros [?| ->]; [lia|]. assert (j = rf_next_child f); [|lia].
        by eapply znth_NoDup; [apply children_nodup| |].
      * intros Hlt. destruct (decide (j = rf_next_child f)) as [->|]; [right; congruence|left; lia].
    + destruct (Hframes g ltac:(by right)) as [Hgb Hgn Hgc]. split; [apply elem_of_app; by left|done|].
      intros j d Hd. rewrite elem_of_app, list_elem_of_singleton, (Hgc _ _ Hd). split; [|by left].
      intros [?| ->]; [done|]. exfalso. eapply Hother; [|exact Hd|done]. intros Heq. apply Hfn.
      rewrite <- Heq. by apply list_elem_of_fmap_2.
  - intros b [Hx|Hx]%elem_of_app.
    + cbn. destruct (Hclosed b Hx) as [Hin|Hall]; [left; by right|].
      right. intros d Hd. apply elem_of_app. left. by apply Hall.
    + apply list_elem_of_singleton in Hx as ->. left. left.
  - cbn in Hlog |- *. rewrite Hent in *. split; [|done]. destruct Hlog as [Hm _].
    eapply means_ext; [|exact Hm]. intros r k _. unfold inherited_of, inherited, leaving_of.
    rewrite (proj2 (Z.eqb_neq _ _) Hc0). by rewrite Hup.
  - cbn in Hnext |- *. rewrite Hent in Hnext. rewrite total_app. cbn. unfold total in *. lia.
  - intros b [Hx|Hx]%elem_of_app Hw; [|apply list_elem_of_singleton in Hx as ->; by destruct Hw].
    apply Hdone; [done|]. cbn. rewrite Hent. by intros [? _].
  - intros b [Hx|[_ Hx]]; apply Hunset; left.
    + intros Hin. apply Hx. apply elem_of_app. by left.
    + cbn in Hx. by subst b.
Qed.

(** The way back. *)
Lemma unwind_length entries u active E A :
  unwind (E:=unit) entries u active = Ret (E, A) ->
  zlength E <= zlength entries /\ zlength A = zlength active.
Proof.
  revert active. induction entries as [|e entries IH]; intros active; cbn [unwind].
  - destruct (_ <=? _); [|done]. by intros [= <- <-].
  - destruct (_ <=? _); [by intros [= <- <-]|]. unfold aput. destruct (znth active _); [|done]. mstep.
    intros [H1 H2]%IH. rewrite zlength_zset in H2. rewrite zlength_cons. split; [lia|done].
Qed.

Lemma waiting_below f rest b : Forall (fun f => rf_entered f = true) (tail (f :: rest)) -> ~ waiting rest b.
Proof. cbn. intros Hb. destruct rest as [|g rest]; cbn; [tauto|]. inversion Hb; subst. intros [? _]. congruence. Qed.

Lemma pop_traversing Q f rest st :
  traversing Q (f :: rest) st -> rf_entered f = true -> rf_next_child f = zlength (child_list (rf_block f)) ->
  exists entries active, unwind (E:=unit) (ul_entries (rn_undo st)) (rf_undo_start f) (rn_active st) = Ret (entries, active) /\
    traversing Q rest (st <| rn_active := active |>
      <| rn_undo := {| ul_entries := entries; ul_capacity := ul_capacity (rn_undo st) |} |>).
Proof.
  intros HT Hent Hlast. pose proof (tv_frame _ _ _ HT f (list_elem_of_here _ _)) as [Hb Hnc Hch].
  destruct HT as [Hok Hnd Hr H0 Hparent Hsnd Hbelow Hframes Hclosed Hlog Hnext Hdone Hunset].
  cbn [stack_ok] in Hlog. rewrite Hent in Hlog. destruct Hlog as [_ (E & A & Hu & Hrun & Hrest)].
  exists E, A. split; [done|]. destruct (unwind_length _ _ _ _ _ Hrun) as [HlE HlA].
  set (st' := st <| rn_active := A |> <| rn_undo := _ |>).
  assert (Hev : extends st st') by by split.
  cbn [fmap list_fmap] in Hsnd. apply list.NoDup_cons in Hsnd as [Hfn Hsnd].
  split; try done.
  - destruct Hok as [H1 H2 H3 H4 H5 H5' [H6 H7] H8]. split; cbn; try done; [congruence|]. unfold zlength in *. cbn. lia.
  - cbn in Hbelow. destruct rest as [|g rest]; [constructor|]. by inversion Hbelow.
  - intros g Hg. apply Hframes. by right.
  - intros b Hbq. destruct (Hclosed b Hbq) as [Hin|]; [|by right]. cbn in Hin.
    apply elem_of_cons in Hin as [->|Hin]; [right|by left]. intros c Hc.
    apply znth_elem_of in Hc as [j Hj]. apply (Hch _ _ Hj). apply znth_Some in Hj. lia.
  - by apply (stack_ok_mono st).
  - assert (Hp : pending rest = 0).
    { unfold pending. destruct rest as [|g rest]; [done|]. cbn in Hbelow. inversion Hbelow as [|? ? Hg _]. by rewrite Hg. }
    rewrite Hp. cbn in Hnext |- *. rewrite Hent in Hnext. lia.
  - intros b Hbq _. apply (finished_same b st); [done..|]. apply Hdone; [done|]. cbn. rewrite Hent. by intros [? _].
  - intros b [Hbq|Hw]; [exact (Hunset b (or_introl Hbq))|]. exfalso. by apply (waiting_below f rest b).
Qed.

(** * One step, and all of them *)

Definition measure (Q : list Z) (stack : list SSARenameFrame) : nat :=
  (2 * Z.to_nat (n - zlength Q) + length stack)%nat.

Definition running (m : nat) (t : list SSARenameFrame * rename_state) : Prop :=
  exists Q, traversing Q t.1 t.2 /\ m = measure Q t.1.

Context (rows : list (option cells)) (counts : list Z) (Hrows : rows_hold G idom n (rows, counts)).

Lemma rename_step_spec m t :
  running m t -> rename_running t = true ->
  (0 < m)%nat /\ outcome (rename_step program cfg rows counts t) (fun t' => exists m', (m' < m)%nat /\ running m' t')
    (fun _ => failure).
Proof.
  destruct t as [[|f rest] st]; [done|]. intros (Q & HT & ->) _. cbn [fst snd] in *.
  split; [unfold measure; cbn; lia|]. unfold rename_step. apply outcome_bind.
  eapply outcome_mono; [by apply enter_frame_spec| |done].
  intros [f' st'] (Hent & Hblock & Hnc & HT'). 
  pose proof (tv_frame _ _ _ HT' f' (list_elem_of_here _ _)) as [Hb Hnext _].
  pose proof (traversing_node _ _ _ _ HT' Hb) as Hnb.
  destruct Hrows as (Hrl & Hcl & Hat). destruct (Hat _ Hnb) as [Hcount Hrow]. cbn [fst snd] in *.
  rewrite (aget_ok _ _ _ Hcount). mstep. fold (child_list (rf_block f')) in *.
  destruct (Z.ltb_spec (rf_next_child f') (zlength (child_list (rf_block f')))) as [Hlt|Hge].
  - destruct Hrow as (row & Hr & Hrlen & Hw); [lia|].
    rewrite (aget_ok _ _ _ Hr). mstep. cbn [ptr]. mstep.
    destruct (znth_is_Some (child_list (rf_block f')) (rf_next_child f')) as [c Hc]; [lia|].
    rewrite (cget_ok _ _ _ (Hw _ _ Hc)). mstep.
    destruct (push_traversing Q f' rest st' c HT' Hent Hc) as (Hnew & Hnc' & HT2).
    rewrite (graph_block_count program first end_ cfg starts G idom HA).
    pose proof (traversing_few _ _ _ HT2) as Hfew. rewrite zlength_snoc in Hfew.
    assert (Hdepth : zlength (f' :: rest) <= zlength Q).
    { assert (Hsub : (rf_block <$> f' :: rest) ⊆+ Q).
      { apply NoDup_submseteq; [apply HT'|]. intros b (g & -> & Hg)%list_elem_of_fmap.
        apply (fr_block _ _ (tv_frame _ _ _ HT' g Hg)). }
      apply submseteq_length in Hsub. rewrite length_fmap in Hsub. unfold zlength. lia. }
    rewrite (proj2 (Z.leb_gt _ _)) by (unfold zlength in *; cbn [length] in *; lia).
    cbn [outcome]. exists (measure (Q ++ [c]) (f' :: f' :: rest)). split.
    + unfold measure. rewrite zlength_snoc. cbn [length]. lia.
    + exists (Q ++ [c]). split; [exact HT2|done].
  - destruct (pop_traversing Q f' rest st' HT' Hent) as (entries & active & -> & HT2); [lia|]. mstep.
    cbn [outcome]. exists (measure Q rest). split; [unfold measure; cbn [length]; lia|]. by exists Q.
Qed.

(** At the end every reachable block is finished. *)
Lemma traversed Q st b : traversing Q [] st -> reachable G b -> finished b st.
Proof.
  intros HT Hb. apply (tv_done _ _ _ HT); [|tauto].
  assert (Hanc : anc (at_ idom) 0 b) by (apply (dt_anc _ _ HD); [done|by apply dominates_entry]).
  revert Hb. induction Hanc as [|b Hb0 _ IH]; intros Hb; [apply HT|].
  pose proof (idom_reachable G idom HD b Hb) as Hu.
  destruct (tv_closed _ _ _ HT _ (IH Hu)) as [Hin|Hall]; [by apply not_elem_of_nil in Hin|].
  apply Hall, (children_iff G idom). split; [by apply (reachable_node G HG)|]. split; [done|]. intros Heq.
  destruct (dt_rank _ _ HD) as [rank Hrank]. destruct (Hrank b Hb) as [_ [_ Hlt]]; [done|]. rewrite <- Heq in Hlt. lia.
Qed.

Lemma rename_ssa_spec st :
  ok st -> means st (rn_active st) (fun _ _ => Undefined) -> rn_next st = 0 ->
  (forall b, unset b st) ->
  outcome (rename_ssa program cfg rows counts st)
    (fun st' => ok st' /\ forall b, reachable G b -> finished b st')
    (fun _ => failure).
Proof.
  intros Hok Ha H0 Hun. pose proof (fg_count_ok G HG) as Hn. unfold rename_ssa, RENAME_FRAME_SIZE, rename_fuel.
  rewrite (graph_block_count program first end_ cfg starts G idom HA).
  rewrite size_multiply_overflows_spec by (unfold in_u64, INT_MAX in *; lia).
  rewrite (proj2 (Z.leb_gt _ _)) by (unfold INT_MAX in *; lia).
  destruct (libc_malloc (n * 16)) eqn:Hm; [|by left; eexists]. cbn [negb].
  pose proof (entry_node G HG) as Hentry.
  set (f := {| rf_block := 0; rf_next_child := 0; rf_undo_start := 0; rf_entered := false |}).
  assert (HT : traversing [0] [f] st).
  { split.
    - done.
    - apply NoDup_singleton.
    - intros b ->%list_elem_of_singleton. apply reachable_entry.
    - left.
    - intros b ->%list_elem_of_singleton. by left.
    - apply NoDup_singleton.
    - constructor.
    - intros g ->%list_elem_of_singleton. split; cbn; [left|split; [done|apply zlength_nonneg]|].
      intros j c Hc. rewrite list_elem_of_singleton. split; [intros ->|apply znth_Some in Hc; lia].
      assert (Hin : 0 ∈ child_list 0) by (apply znth_elem_of; eauto).
      apply (children_iff G idom) in Hin as (_ & _ & ?). done.
    - intros b ->%list_elem_of_singleton. left. left.
    - cbn. split; [|done]. exact Ha.
    - cbn. rewrite H0. lia.
    - intros b ->%list_elem_of_singleton Hw. by destruct Hw.
    - intros b _. apply Hun. }
  apply outcome_bind. eapply outcome_mono; [apply (outcome_while_ghost running (fun _ => failure)) with (m := measure [0] [f])| |done].
  - by exists [0].
  - unfold measure, zlength. cbn. lia.
  - intros m t HI Hc. by apply rename_step_spec.
  - intros [stack st'] [(m & Q & HT' & _) Hc]. cbn [fst snd] in *. destruct stack as [|g rest]; [|done]. cbn.
    split; [apply HT'|]. intros b. by apply (traversed Q).
Qed.
End traversal.
