(* ===== verification/SsaCorrect.v ===== *)
(** What the SSA form promises: whatever the execution, the variable of a source
    lane names the definition that reaches it, and so does the variable that
    enters a phi from each side. *)

From stdpp Require Import relations.
From S2P Require Import Prelude CArray UnityCommon Heap Operand Instruction Usil SsaGraph Cfg FlowGraph Postorder DominatorTree Dominance Frontier FlowStructure FlowMatch FlowStep CfgBlocks CfgBuild FlowTrace CfgAnalysis CfgTheorems UsilValidation UsilValidationSteps Ssa SsaMeaning SsaMerge SsaInstruction SsaPlacement SsaState SsaRename SsaBlock SsaTraversal.

#[local] Set Warnings "-register-all".

(** A phi of the graph. *)
Definition ssa_phi (ssa : HLSLSSAGraph) (b : Z) (phi : HLSLPhiNode) : Prop :=
  exists phis k, ssa_block_phis ssa = Some phis /\ phi_of phis b k = Some phi.

(** Variable [v] names a definition: an instruction, or the code of a phi. *)
Definition defined_as (ssa : HLSLSSAGraph) (v d : Z) : Prop :=
  0 <= v < ssa_var_count ssa /\ exists defs, ssa_var_defs ssa = Some defs /\ znth defs v = Some (Some d).

Section correct.
Context (program : USILProgram) (first end_ : Z) (cfg : HLSLControlFlowGraph).

Abbreviation op := (op_of program).
Abbreviation count := (up_instruction_count program).

(** Variable [v] stands for what a register component holds where execution has
    run the instructions [l], and is at [next] if that is known: nothing if none of them defined it, else
    what the last of them that did has defined, or what a phi has joined when
    execution was last at the start of its block, and it has not been defined
    since. *)
Inductive stands_for (ssa : HLSLSSAGraph) (reg comp v : Z) (l next : list Z) : Prop :=
| stands_unknown : v = HLSL_DEFINITION_UNKNOWN -> latest (defines program reg comp) l = None ->
    stands_for ssa reg comp v l next
| stands_defined d : defined_as ssa v d -> 0 <= d -> latest (defines program reg comp) l = Some d ->
    stands_for ssa reg comp v l next
| stands_merged b x phi l1 l2 : defined_as ssa v HLSL_DEFINITION_AMBIGUOUS ->
    ssa_phi ssa b phi -> phi_register_index phi = reg -> phi_component phi = comp -> phi_ssa_var phi = v ->
    starts_at cfg b x -> l = l1 ++ l2 -> latest (defines program reg comp) l2 = None ->
    head (l2 ++ next) = Some x -> stands_for ssa reg comp v l next.

(** [v] is in the array of uses, in the slot of a lane. *)
Definition slot_holds (vars : option (list Z)) (i k lane v : Z) : Prop :=
  exists xs, vars = Some xs /\ znth xs (operand_offset i k lane) = Some v.

Record ssa_correct (ssa : HLSLSSAGraph) : Prop := {
  sc_count : ssa_instruction_count ssa = count;
  sc_source l i inst k lane reg comp :
    path op first end_ first (l ++ [i]) i -> instruction_in program i inst ->
    0 <= k < ui_operand_count inst -> 0 <= lane < 4 -> reads program inst k lane reg comp ->
    exists v, slot_holds (ssa_operand_ssa_vars ssa) i k lane v /\ stands_for ssa reg comp v l [i];
  sc_root l i inst k dimension reg comp :
    path op first end_ first (l ++ [i]) i -> instruction_in program i inst ->
    0 <= k < ui_operand_count inst -> 0 <= dimension < 3 -> indexes program inst k dimension reg comp ->
    exists v, slot_holds (ssa_relative_operand_ssa_vars ssa) i k dimension v /\ stands_for ssa reg comp v l [i];
  sc_phi b x phi l i :
    starts_at cfg b x -> ssa_phi ssa b phi ->
    path op first end_ first l i -> flow_step op first i x ->
    defined_as ssa (phi_ssa_var phi) HLSL_DEFINITION_AMBIGUOUS /\
    exists slot blocks p v, cfg_instruction_block cfg = Some blocks /\ znth blocks i = Some p /\
      znth (phi_incoming_blocks phi) slot = Some p /\ znth (phi_incoming_vars phi) slot = Some v /\
      stands_for ssa (phi_register_index phi) (phi_component phi) v l [];
  sc_merge b x phi : starts_at cfg b x -> ssa_phi ssa b phi ->
    disagree op first end_ (defines program (phi_register_index phi) (phi_component phi)) x;
  sc_renamable i : executed op first end_ i -> renamable_at program i;
}.

(** There are more slots and phis than an [int] can count. *)
Definition ssa_too_big : Prop :=
  INT_MAX < count * 32 + cfg_block_count cfg * (up_temp_count program * 4).

Section proofs.
Context `{U : UnityCommon} {HU : UnityCommonSpec U} `{L : LibcMalloc}.
Context (HP : ssa_program_ok program) (Hok : range_ok program first end_).
Context (starts : list Z) (G : flow_graph) (idom : list Z).
Context (HA : analysed_graph program first end_ cfg starts G idom).

Abbreviation registers := (up_temp_count program).
Abbreviation n := (fg_count G).
Abbreviation start := (start_of starts).
Abbreviation last_of := (block_end end_ starts).

Let Hrange : 0 <= first < end_ /\ end_ <= count := rg_range _ _ _ Hok.
Let HG : flow_graph_ok G := graph_ok program first end_ cfg starts G idom HA.
Let HD : dominator_tree G idom := ag_tree _ _ _ _ _ _ _ HA.

Lemma ssa_sizes_spec : 0 <= registers <= INT_MAX -> 0 <= count <= INT_MAX ->
  match ssa_sizes count registers n with
  | Some (operand_count, max) => operand_count = count * 32 /\ max = count * 32 + n * (registers * 4) /\ max <= INT_MAX
  | None => INT_MAX < count * 32 + n * (registers * 4)
  end.
Proof.
  pose proof (fg_count_ok G HG) as Hn. unfold ssa_sizes, DXBC_MAX_OPERANDS, BLOCK_PHIS_SIZE, INT_MAX in *. intros Hr Hc.
  change (8 * 4) with 32.
  rewrite (size_multiply_overflows_spec registers 4) by (unfold in_u64; lia).
  rewrite (proj2 (Z.leb_gt _ _)) by lia. rewrite (u64_small (registers * 4)) by lia.
  rewrite !(size_multiply_overflows_spec count), !(size_multiply_overflows_spec n) by (unfold in_u64; lia).
  rewrite (proj2 (Z.leb_gt (2 ^ 64) (count * 32))) by lia. cbn [orb]. rewrite (u64_small (count * 32)) by lia.
  destruct (Z.leb_spec (2 ^ 64) (n * (registers * 4))) as [|Hs]; [lia|].
  assert (0 <= n * (registers * 4)) by (apply Z.mul_nonneg_nonneg; lia).
  rewrite (u64_small (n * (registers * 4))) by lia.
  rewrite size_add_overflows_spec by (unfold in_u64; lia).
  destruct (Z.leb_spec (2 ^ 64) (count * 32 + n * (registers * 4))); [cbn [orb]; lia|].
  rewrite (u64_small (count * 32 + _)) by lia. rewrite !size_multiply_overflows_spec by (unfold in_u64; lia).
  rewrite !(proj2 (Z.leb_gt (2 ^ 64) (n * _))) by lia.
  rewrite (proj2 (Z.leb_gt (2 ^ 64) (count * 32 * 4))) by lia. cbn [orb].
  destruct (Z.leb_spec (2 ^ 64) ((count * 32 + n * (registers * 4)) * 4)); cbn [orb]; [lia|].
  destruct (Z.ltb_spec 2147483647 (count * 32 + n * (registers * 4))); [done|]. done.
Qed.

Lemma filled_active k v : 0 <= k -> zlength (filled k v : list Z) = k.
Proof. apply zlength_filled. Qed.

(** A graph whose reachable blocks are finished. *)
Definition finished_all (phis0 : list HLSLBlockPhis) (st : rename_state) : Prop :=
  forall b, reachable G b -> finished program end_ starts G idom phis0 b st.

Definition graph_of (st : rename_state) : HLSLSSAGraph :=
  {| ssa_block_phis := Some (rn_phis st); ssa_operand_ssa_vars := Some (rn_vars st);
     ssa_relative_operand_ssa_vars := Some (rn_relative st); ssa_var_defs := Some (rn_defs st);
     ssa_instruction_count := count; ssa_var_count := rn_next st |}.

Definition built (ssa : HLSLSSAGraph) : Prop := exists phis0 st max,
  placed program end_ starts G (registers * 4) phis0 /\ count * 32 <= INT_MAX /\
  rename_ok registers (count * 32) max phis0 st /\ finished_all phis0 st /\ ssa = graph_of st.

Lemma construct_ssa_spec operand_count max :
  ssa_sizes count registers n = Some (operand_count, max) ->
  outcome (construct_ssa program cfg operand_count max) built
    (fun _ => failure program end_ starts G).
Proof.
  intros Hsizes. pose proof (sp_temps _ HP) as Hr. pose proof (rg_count _ _ _ Hok) as Hc.
  pose proof (ssa_sizes_spec Hr ltac:(lia)) as Hspec. rewrite Hsizes in Hspec. destruct Hspec as (-> & -> & Hmax).
  pose proof (fg_count_ok G HG) as Hn. assert (Hnr : registers * 4 <= n * (registers * 4)) by nia.
  assert (Hslots : count * 32 <= INT_MAX) by lia.
  assert (Henough : n * (registers * 4) + count * 32 <= count * 32 + n * (registers * 4)) by lia.
  unfold construct_ssa. rewrite (graph_block_count program first end_ cfg starts G idom HA).
  destruct (libc_malloc (u64 (count * 32 * 4))) eqn:Hm1; [|by left; eexists].
  destruct (libc_malloc (u64 ((count * 32 + _) * 4))) eqn:Hm2; [|by left; eexists].
  destruct (libc_malloc (u64 (n * BLOCK_PHIS_SIZE))) eqn:Hm3; [|by left; eexists]. cbn [andb negb].
  destruct (libc_malloc (n * 1)) eqn:Hm4; [|by left; eexists].
  destruct (libc_malloc (u64 (n * 4))) eqn:Hm5; [|by left; eexists]. cbn [andb negb].
  apply outcome_bind. eapply outcome_mono; [apply (place_phis_spec program HP first end_ Hrange cfg starts G idom HA); lia| |by left].
  intros phis0 Hplaced. apply outcome_bind.
  eapply outcome_mono; [apply (dominator_children_spec G HG cfg idom
    (graph_block_count program first end_ cfg starts G idom HA) (graph_idom program first end_ cfg starts G idom HA) HD)| |by left].
  intros [rows counts] Hrows.
  destruct (active_memory registers) eqn:Hm6.
  2:{ left. unfold active_memory in Hm6. apply orb_false_iff in Hm6 as [_ Hm6].
      rewrite size_multiply_overflows_spec in Hm6 by (unfold in_u64, INT_MAX in *; lia).
      rewrite (proj2 (Z.leb_gt _ _)) in Hm6 by (unfold INT_MAX in *; lia). cbn [negb andb] in Hm6. by eexists. }
  cbn [negb]. apply outcome_bind.
  eapply outcome_mono; [apply (rename_ssa_spec program HP first end_ Hrange cfg starts G idom HA
    (count * 32 + n * (registers * 4)) phis0 Hmax Hslots Hplaced Henough rows counts Hrows)| |done].
  - split; cbn; rewrite ?zlength_filled, ?zlength_uninitialised by lia; try done. lia.
  - split; [cbn; apply zlength_filled; lia|]. intros r c Hrc. pose proof (version_range registers r c Hrc).
    exists (-1). cbn. by rewrite znth_filled.
  - done.
  - intros b k phi Hphi. cbn in Hphi.
    destruct (placed_phi program end_ starts G phis0 Hplaced b k phi Hphi) as (_ & _ & -> & _). lia.
  - intros st [Hst Hall]. cbn. exists phis0, st, (count * 32 + n * (registers * 4)). split_and!; done || lia.
Qed.
(** * What it means for executions *)

Lemma path_range l i : path op first end_ first l i -> forall d, d ∈ l -> first <= d < end_.
Proof.
  assert (Hpath : path op first end_ first l i -> first <= i < end_ /\ forall d, d ∈ l -> first <= d < end_); [|intros Hp; apply (proj2 (Hpath Hp))].
  induction 1 as [|l i t _ [Hi IH] Hstep Ht].
  - split; [lia|]. intros d ->%list_elem_of_singleton. lia.
  - destruct (flow_step_target op first end_ (ag_structured _ _ _ _ _ _ _ HA) i t Hi Hstep) as [Htr _].
    split; [lia|]. intros d [Hd|Hd]%elem_of_app; [by apply IH|]. apply list_elem_of_singleton in Hd as ->. lia.
Qed.

Section meaning.
Context (phis0 : list HLSLBlockPhis) (st : rename_state) (max : Z).
Hypothesis (Hplaced : placed program end_ starts G (registers * 4) phis0).
Hypothesis (Hst : rename_ok registers (count * 32) max phis0 st) (Hall : finished_all phis0 st).
Hypothesis (Hslots : count * 32 <= INT_MAX).

Abbreviation before_ := (before_of program end_ starts G idom phis0).
Abbreviation leaving_ := (leaving_of program end_ starts G idom phis0).
Abbreviation D := (defines program).

Lemma denotes_stands reg comp v m l next :
  denotes st reg comp v m -> holds_of (D reg comp) start m l next -> (forall d, d ∈ l -> first <= d < end_) ->
  stands_for (graph_of st) reg comp v l next.
Proof.
  intros Hd Hm Hl. destruct m as [|d|b]; cbn in Hd, Hm.
  - by apply stands_unknown.
  - destruct Hd as [Hv Hd]. apply (stands_defined _ _ _ _ _ _ d); [split; [done|by eexists]| |done].
    apply latest_in, Hl in Hm. lia.
  - destruct Hd as (Hv & Hd & k & phi & Hphi & Hr & Hc & Hvar), Hm as (l1 & l2 & -> & Hno & Hh).
    apply (stands_merged _ _ _ _ _ _ b (start b) phi l1 l2); try done.
    + split; [done|by eexists].
    + by exists (rn_phis st), k.
    + apply (starts_at_inv program first end_ _ _ _ _ _ _ HA).
      destruct (current_phi program end_ starts G max phis0 Hplaced st b k phi Hst Hphi) as (Hb & _).
      apply start_of_ok. unfold node in Hb. by rewrite (graph_nodes program first end_ cfg starts G idom HA) in Hb.
Qed.

Lemma closed_component reg comp n' b : in_registers registers reg comp ->
  has_phi phis0 reg comp n' = true \/ (exists i, in_block end_ starts i n' /\ D reg comp i = true) ->
  in_frontier G n' b -> has_phi phis0 reg comp b = true.
Proof.
  intros [Hr Hc]. apply (pc_closed _ _ _ _ _ _ Hplaced reg comp n' b Hr Hc). unfold version_index. lia.
Qed.

(** Where an execution is, and what holds there. *)
Lemma execution_before l i : path op first end_ first l i -> exists l0 b, l = l0 ++ [i] /\
  in_block end_ starts i b /\ reachable G b /\ start b <= i <= last_of b /\
  forall reg comp, in_registers registers reg comp -> holds_of (D reg comp) start (before_ b i reg comp) l0 [i].
Proof.
  intros Hp. pose proof HA as [Hstr (cfg0 & _ & _ & HB & _) _].
  destruct (executed_walk program first end_ Hrange starts G cfg0 Hstr HB l i Hp) as (w & b & Hb & Hw & _).
  assert (Hreach : reachable G b) by (apply reachable_walk; eauto).
  assert (Hl : exists l0, l = l0 ++ [i]) by (inversion Hp; [by exists []|eauto]). destruct Hl as [l0 ->].
  exists l0, b. split; [done|]. split; [done|]. split; [done|]. split.
  - apply (in_block_iff program first end_ cfg starts G idom HA); [by apply (reachable_node G HG)|done].
  - intros reg comp Hr. destruct (before_holds program first end_ Hrange starts G cfg0 Hstr HB idom HD (D reg comp)
      (has_phi phis0 reg comp) (fun n' c => closed_component reg comp n' c Hr) (l0 ++ [i]) i Hp)
      as (l1 & b' & Heq & Hb' & _ & Hm).
    apply app_inj_2 in Heq as [-> _]; [|done].
    by rewrite (in_block_unique program first end_ starts (bg_split _ _ _ _ _ _ HB) i b' b Hb' Hb) in Hm.
Qed.

Lemma reads_range i inst k lane reg comp :
  instruction_in program i inst -> renamable program inst -> 0 <= k < ui_operand_count inst -> 0 <= lane < 4 ->
  reads program inst k lane reg comp -> in_registers registers reg comp.
Proof.
  intros Hin Hren Hk Hlane (use & o & Hu & Ho & Huse & Ht & <- & Hm & Hc).
  destruct (Hren k Hk) as (use' & o' & Hu' & Ho' & Hr & Hcs).
  assert (use' = use) as -> by congruence. assert (o' = o) as -> by congruence.
  destruct (operand_in inst (sp_instruction _ HP i inst Hin) k Hk) as (o'' & _ & Ho'' & Hok'').
  assert (o'' = o) as -> by congruence. destruct (source_component_ok o lane Hok'') as (c & Hc' & Hcr).
  destruct (Hcs Ht Huse lane Hlane Hm) as (c2 & Hc2 & Hpos). specialize (Hc' unit).
  assert (c = comp) as -> by congruence. assert (c2 = comp) as -> by congruence.
  split; [apply Hr; [done|by left]|lia].
Qed.

Lemma indexes_range i inst k d reg comp :
  instruction_in program i inst -> indexes program inst k d reg comp -> in_registers registers reg comp.
Proof.
  intros Hin (owner & Ho & Hroot). destruct (relative_root_spec program (operand_root owner d)) as (p & Hp & Hr).
  { intros root Hr. by eapply (si_roots _ (sp_instruction _ HP i inst Hin)). }
  rewrite Hp in Hroot. injection Hroot as ->. by apply Hr.
Qed.

Lemma offset_in i inst k lane : instruction_in program i inst -> 0 <= k < ui_operand_count inst -> 0 <= lane < 4 ->
  operand_offset i k lane = i * 32 + k * 4 + lane.
Proof.
  intros Hin Hk Hlane. pose proof (si_count _ (sp_instruction _ HP i inst Hin)) as Hc. unfold DXBC_MAX_OPERANDS in Hc.
  assert (0 <= i < count).
  { destruct Hin as (xs & Hxs & Hi). destruct (sp_program _ HP) as (xs' & Hxs' & Hlen). apply znth_Some in Hi.
    assert (xs' = xs) as -> by congruence. lia. }
  apply (operand_offset_ok program Hslots); [done|lia|done].
Qed.

Lemma execution_recorded l i inst : path op first end_ first l i -> instruction_in program i inst ->
  exists b, reachable G b /\ recorded program st inst i (before_ b i) /\ renamable program inst /\
    exists l0, l = l0 ++ [i] /\ forall reg comp, in_registers registers reg comp ->
      holds_of (D reg comp) start (before_ b i reg comp) l0 [i].
Proof.
  intros Hp Hin. destruct (execution_before l i Hp) as (l0 & b & -> & Hb & Hreach & Hi & Hm).
  destruct (Hall b Hreach) as (_ & Hrec & _). destruct (Hrec i inst Hi Hin) as [Hr Hren]. exists b.
  split_and!; [done..|]. by exists l0.
Qed.

Lemma graph_correct : ssa_correct (graph_of st).
Proof.
  split; [done|..].
  - intros l i inst k lane reg comp Hp Hin Hk Hlane Hr.
    destruct (execution_recorded _ _ _ Hp Hin) as (b & _ & Hrec & Hren & l0 & Heq & Hm).
    apply app_inj_2 in Heq as [<- _]; [|done].
    destruct (rc_source _ _ _ _ _ Hrec k lane Hk Hlane reg comp Hr) as (v & Hv & Hd). exists v. split.
    + exists (rn_vars st). by rewrite (offset_in i inst k lane).
    + eapply denotes_stands; [exact Hd|apply Hm; by eapply reads_range|].
      intros d Hdl. apply (path_range _ _ Hp). apply elem_of_app. by left.
  - intros l i inst k d reg comp Hp Hin Hk Hdim Hr.
    destruct (execution_recorded _ _ _ Hp Hin) as (b & _ & Hrec & Hren & l0 & Heq & Hm).
    apply app_inj_2 in Heq as [<- _]; [|done].
    destruct (rc_root _ _ _ _ _ Hrec k d Hk Hdim reg comp Hr) as (v & Hv & Hd). exists v. split.
    + exists (rn_relative st). rewrite (offset_in i inst k d); [done|done|done|lia].
    + eapply denotes_stands; [exact Hd|apply Hm; by eapply indexes_range|].
      intros e Hel. apply (path_range _ _ Hp). apply elem_of_app. by left.
  - intros b x phi l i Hx (phis & k & Hphis & Hphi) Hp Hstep. injection Hphis as <-.
    apply (starts_at_inv program first end_ _ _ _ _ _ _ HA) in Hx. pose proof HA as [Hstr (cfg0 & fs & cs & HB & _ & Hcfg) _].
    pose proof (bg_split _ _ _ _ _ _ HB) as Hs.
    destruct (execution_before l i Hp) as (l0 & p & Hl & Hip & Hreach & Hi & _).
    assert (Hxr : first <= x < end_) by (apply (sp_in _ _ _ _ Hs), znth_elem_of; eauto).
    pose proof (start_in_block program first end_ starts Hs b x Hx) as Hxb.
    destruct (step_edge program first end_ starts G cfg0 Hstr HB i x p b Hstep ltac:(lia) Hip Hxb) as [(He & Hlast & _)|[-> ->]].
    2:{ exfalso. destruct Hip as (y & Hy & Hiy). assert (y = i + 1) by congruence. lia. }
    destruct (current_phi program end_ starts G max phis0 Hplaced st b k phi Hst Hphi) as (_ & Hreg & _).
    split.
    { destruct (Hall b (reachable_step G p b Hreach He)) as (Hnamed & _).
      destruct (Hnamed k phi Hphi) as (Hv & Hd & _). split; [done|by eexists]. }
    destruct (Hall p Hreach) as (_ & _ & Hfill). destruct (Hfill b He k phi Hphi) as (slot & v & Hs1 & Hb1 & Hv1 & Hd1).
    destruct (bg_map _ _ _ _ _ _ HB) as (map & Hmap & Hnum).
    pose proof (block_bounds program first end_ cfg starts G idom HA p (reachable_node G HG p Hreach)) as Hbb.
    destruct (numbers_hold_at program first end_ Hrange starts map i Hnum) as (p' & Hp' & Hin'); [lia|].
    rewrite (in_block_unique program first end_ starts Hs i p' p Hin' Hip) in Hp'.
    exists slot, map, p, v. split; [by rewrite Hcfg|]. split_and!; [done..|].
    eapply denotes_stands; [exact Hd1| |exact (path_range l i Hp)].
    subst i. apply (leaving_holds program first end_ Hrange starts G cfg0 Hstr HB idom HD (D _ _)
      (has_phi phis0 _ _) (fun n' c => closed_component _ _ n' c Hreg) l p [] Hp Hip).
  - intros b x phi Hx (phis & k & Hphis & Hphi). injection Hphis as <-.
    apply (starts_at_inv program first end_ _ _ _ _ _ _ HA) in Hx. pose proof HA as [Hstr (cfg0 & _ & _ & HB & _) _].
    destruct (current_phi program end_ starts G max phis0 Hplaced st b k phi Hst Hphi)
      as (_ & _ & _ & _ & phi0 & Hphi0 & -> & ->).
    assert (Hhas : has_phi phis0 (phi_register_index phi0) (phi_component phi0) b = true).
    { apply has_phi_iff. unfold phi_of in Hphi0. unfold phi_keys. destruct (znth phis0 b) as [bp|]; [|done].
      apply list_elem_of_fmap. exists phi0. split; [done|]. apply znth_elem_of. eauto. }
    apply (pc_merges _ _ _ _ _ _ Hplaced) in Hhas.
    apply (iterated_disputed program first end_ Hrange starts G cfg0 Hstr HB) in Hhas.
    assert (Hsx : start b = x) by (unfold start_of; by rewrite Hx). unfold disputed in Hhas. by rewrite Hsx in Hhas.
  - intros i [l Hp]. destruct (instruction_in_exists program HP i) as [inst Hin].
    { assert (Hil : i ∈ l) by (inversion Hp; [left|apply elem_of_app; right; left]).
      pose proof (path_range _ _ Hp i Hil). lia. }
    destruct (execution_recorded _ _ _ Hp Hin) as (b & _ & _ & Hren & _). by exists inst.
Qed.
End meaning.

Lemma built_correct ssa : built ssa -> ssa_correct ssa.
Proof. intros (phis0 & st & max & Hplaced & Hslots & Hst & Hall & ->). by eapply graph_correct. Qed.

(** A failure of the renaming is an instruction that is executed. *)
Lemma failure_executed : failure program end_ starts G ->
  malloc_failed \/ exists i, executed op first end_ i /\ ~ renamable_at program i.
Proof.
  intros [?|(b & i & Hb & Hi & Hno)]; [by left|right]. exists i. split; [|done].
  pose proof HA as [Hstr (cfg0 & _ & _ & HB & _) _]. pose proof (reachable_node G HG b Hb) as Hnb.
  pose proof Hnb as Hnb'. unfold node in Hnb'. rewrite (graph_nodes program first end_ cfg starts G idom HA) in Hnb'.
  apply (reachable_executed program first end_ Hrange starts G cfg0 Hstr HB b _ (start_of_ok starts b Hnb')) in Hb as [l Hp].
  destruct (path_to program first end_ starts G cfg0 HB first l (start b) i b Hp) as (l' & Hp' & _); [| |lia|by exists l'].
  - apply (in_block_iff program first end_ cfg starts G idom HA); [done|lia].
  - by apply (in_block_iff program first end_ cfg starts G idom HA).
Qed.
End proofs.
End correct.
