(* ===== verification/Provenance.v ===== *)
(** Where the value of a register component comes from, by a linear scan:
    [src/translation/hlsl_provenance.c].

    [component_provenance] is one block of [instruction_count + 1] states, each
    of [provenance_register_count] rows of four. *)

From S2P Require Import Prelude CArray UnityCommon Heap Operand Instruction Usil SsaGraph Cfg FlowStructure UsilValidation UsilValidationSteps Ssa SsaMeaning SsaInstruction.

#[local] Set Warnings "-register-all".

Definition classify_instruction (inst : USILInstruction) : HLSLProvenanceKind :=
  match ui_opcode inst with
  | USIL_OP_SAMPLE | USIL_OP_SAMPLE_L | USIL_OP_SAMPLE_D | USIL_OP_SAMPLE_B | USIL_OP_SAMPLE_C
  | USIL_OP_SAMPLE_C_LZ | USIL_OP_LD => HLSL_PROVENANCE_TEXTURE
  | USIL_OP_MOV | USIL_OP_MOVC => HLSL_PROVENANCE_COPY
  | USIL_OP_LT | USIL_OP_GE | USIL_OP_EQ | USIL_OP_NE | USIL_OP_ILT | USIL_OP_IGE | USIL_OP_IEQ
  | USIL_OP_INE | USIL_OP_ULT | USIL_OP_UGE => HLSL_PROVENANCE_COMPARISON
  | USIL_OP_IF | USIL_OP_ELSE | USIL_OP_ENDIF | USIL_OP_LOOP | USIL_OP_ENDLOOP | USIL_OP_BREAK
  | USIL_OP_BREAKC | USIL_OP_CONTINUE | USIL_OP_CONTINUEC | USIL_OP_DISCARD => HLSL_PROVENANCE_CONTROL
  | _ => HLSL_PROVENANCE_ARITHMETIC
  end.

(** In [size_t]. *)
Definition provenance_offset (register_count state reg component : Z) : Z :=
  u64 ((state * register_count + reg) * 4 + component).

(** The pointer it returns is read at once by every caller. *)
Definition component_provenance_at {E} (program : USILProgram) (provenance : option (list HLSLComponentProvenance))
    (register_count state reg component : Z) : res E (option HLSLComponentProvenance) :=
  match provenance with
  | None => Ret None
  | Some values =>
      if (state <? 0) || (up_instruction_count program <? state) || (reg <? 0) || (register_count <=? reg) ||
         (component <? 0) || (4 <=? component) then Ret None else
      value ← aget values (provenance_offset register_count state reg component);
      Ret (Some value)
  end.

Definition get_component_provenance {E} (ctx : option HLSLEmitterContext) (state reg component : Z)
    : res E (option HLSLComponentProvenance) :=
  match ctx with
  | None => Ret None
  | Some c =>
      if is_null (ctx_component_provenance c) then Ret None else
      if state <? 0 then Ret None else
      program ← ptr (ctx_program c);
      component_provenance_at program (ctx_component_provenance c) (ctx_provenance_register_count c)
        state reg component
  end.

Definition component_value_unchanged {E} (c : HLSLEmitterContext) (reg component first_state second_state : Z)
    : res E bool :=
  first ← get_component_provenance (Some c) first_state reg component;
  second ← get_component_provenance (Some c) second_state reg component;
  program ← ptr (ctx_program c);
  let count := up_instruction_count program in
  let first_instruction := if first_state <? count then first_state else count - 1 in
  let second_instruction := if second_state <? count then second_state else count - 1 in
  match first, second with
  | Some first, Some second =>
      straight ← instructions_have_unambiguous_path program (ctx_cfg c) first_instruction second_instruction;
      Ret (straight &&
           (cp_definition_instruction first =? cp_definition_instruction second) &&
           (cp_root_instruction first =? cp_root_instruction second) &&
           (cp_root_register first =? cp_root_register second) &&
           (cp_root_component first =? cp_root_component second))
  | _, _ => Ret false
  end.

Definition free_component_provenance (c : HLSLEmitterContext) : HLSLEmitterContext :=
  c <| ctx_component_provenance := None |> <| ctx_provenance_register_count := 0 |>.

(** * The scan *)

(** [sizeof(HLSLComponentProvenance)] *)
Definition COMPONENT_PROVENANCE_SIZE : Z := 28.

Definition initial_provenance (reg component : Z) (value : HLSLComponentProvenance) : HLSLComponentProvenance := {|
  cp_kind := cp_kind value; cp_definition_instruction := -1; cp_root_instruction := -1;
  cp_root_register := reg; cp_root_component := component; cp_vector_definition := -1;
  cp_vector_mask := cp_vector_mask value |}.

(** [memcpy] of the state at [from] over the state at [to]. *)
Definition copy_state {E A} (width from to : Z) (values : list A) : res E (list A) :=
  for_loop (Z.to_nat width) 0 (fun k values =>
    value ← aget values (from + k); aput values (to + k) value) values.

(** A plain copy of a whole temporary lane. *)
Definition copies_source {E} (inst : USILInstruction) (destination : DXBCOperand) : res E (option DXBCOperand) :=
  if negb (op_is (ui_opcode inst) USIL_OP_MOV) || ui_saturate inst then Ret None else
  source ← operand_at inst 1;
  Ret (if (op_type source =? OPERAND_TYPE_TEMP) && negb (op_has_neg source) && negb (op_has_abs source) &&
          (op_min_precision source =? 0) && (op_min_precision destination =? 0)
       then Some source else None).

(** One lane of a destination, in the state after the instruction. *)
Definition define_lane (program : USILProgram) (register_count index : Z) (inst : USILInstruction)
    (destination : DXBCOperand) (mask component : Z) (values : list HLSLComponentProvenance)
    : res unit (list HLSLComponentProvenance) :=
  if negb (has_lane mask component) then Ret values else
  let reg := op_register_index destination in
  let offset := provenance_offset register_count (index + 1) 0 0 + (reg * 4 + component) in
  let value := {|
    cp_kind := classify_instruction inst; cp_definition_instruction := index; cp_root_instruction := index;
    cp_root_register := reg; cp_root_component := component; cp_vector_definition := index;
    cp_vector_mask := u8 (Z.shiftl mask 4) |} in
  values ← aput values offset value;
  copied ← copies_source inst destination;
  match copied with
  | None => Ret values
  | Some source =>
      source_comp ← usil_operand_source_component source component;
      from ← component_provenance_at program (Some values) register_count index (op_register_index source) source_comp;
      match from with
      | None => Ret values
      | Some from =>
          aput values offset {|
            cp_kind := cp_kind value; cp_definition_instruction := index;
            cp_root_instruction := cp_root_instruction from; cp_root_register := cp_root_register from;
            cp_root_component := cp_root_component from; cp_vector_definition := index;
            cp_vector_mask := cp_vector_mask value |}
      end
  end.

Definition define_operand (program : USILProgram) (register_count index : Z) (inst : USILInstruction)
    (operand_index : Z) (values : list HLSLComponentProvenance) : res unit (list HLSLComponentProvenance) :=
  use ← usil_instruction_operand_use program inst operand_index;
  destination ← operand_at inst operand_index;
  if negb (bool_decide (ou_use use = USIL_OPERAND_USE_DESTINATION)) ||
     negb (op_type destination =? OPERAND_TYPE_TEMP) then Ret values else
  if (op_register_index destination <? 0) || (register_count <=? op_register_index destination) then Fail tt else
  for_loop 4 0 (define_lane program register_count index inst destination
                  (usil_operand_destination_lane_mask destination)) values.

Definition scan_instruction (program : USILProgram) (register_count index : Z)
    (values : list HLSLComponentProvenance) : res unit (list HLSLComponentProvenance) :=
  values ← copy_state (register_count * 4) (provenance_offset register_count index 0 0)
             (provenance_offset register_count (index + 1) 0 0) values;
  inst ← instruction_at program index;
  for_loop (Z.to_nat (ui_operand_count inst)) 0 (define_operand program register_count index inst) values.

Definition initial_state {E} (register_count : Z) (values : list HLSLComponentProvenance)
    : res E (list HLSLComponentProvenance) :=
  for_loop (Z.to_nat register_count) 0 (fun reg => for_loop 4 0 (fun component values =>
    aupd values (provenance_offset register_count 0 reg component) (initial_provenance reg component))) values.

Section build.
Context `{L : LibcMalloc}.

(** [calloc] of [count] elements, which fails if the size does not fit. *)
Definition libc_calloc (count size : Z) : bool := (u64 (count * size) =? count * size) && libc_malloc (count * size).

Definition build_component_provenance {E} (c : HLSLEmitterContext) : res E (bool * HLSLEmitterContext) :=
  program ← ptr (ctx_program c);
  let register_count := if up_temp_count program <? 1 then 1 else up_temp_count program in
  let state_width := u64 (register_count * 4) in
  let entry_count := u64 (u64 (up_instruction_count program + 1) * state_width) in
  let c := c <| ctx_provenance_register_count := register_count |> in
  if negb (libc_calloc entry_count COMPONENT_PROVENANCE_SIZE)
  then Ret (false, c <| ctx_component_provenance := None |>) else
  scanned ← attempt (
    values ← initial_state register_count (filled entry_count zero_provenance);
    for_loop (Z.to_nat (up_instruction_count program)) 0 (scan_instruction program register_count) values);
  Ret match scanned with
      | Some values => (true, c <| ctx_component_provenance := Some values |>)
      | None => (false, free_component_provenance c)
      end.
End build.

(** What the linear scan knows of every state: the last definition of each
    register component, and an earlier place its value was copied from.
    [component_value_unchanged] is then a fact about the instructions between
    two states. *)

(** Instruction [i] does nothing but copy one component of a temporary to
    another. *)
Definition moves (program : USILProgram) (i reg comp source_reg source_comp : Z) : Prop :=
  exists inst k destination source, instruction_in program i inst /\ writes program inst k reg comp /\
    znth (ui_operands inst) k = Some destination /\ znth (ui_operands inst) 1 = Some source /\
    ui_opcode inst = USIL_OP_MOV /\ ui_saturate inst = false /\
    op_type source = OPERAND_TYPE_TEMP /\ op_has_neg source = false /\ op_has_abs source = false /\
    op_min_precision source = 0 /\ op_min_precision destination = 0 /\
    op_register_index source = source_reg /\ usil_operand_source_component (E:=unit) source comp = Ret source_comp.

(** What the components hold before each instruction when they run in their
    textual order: an instruction changes only what it defines, and a plain copy
    copies. *)
Record linear_run (program : USILProgram) {V : Type} (value : Z -> Z -> Z -> V) : Prop := {
  lr_frame i reg comp : 0 <= i < up_instruction_count program -> defines program reg comp i = false ->
    value (i + 1) reg comp = value i reg comp;
  lr_move i reg comp source_reg source_comp : moves program i reg comp source_reg source_comp ->
    value (i + 1) reg comp = value i source_reg source_comp;
}.

(** The number of registers the scan follows. *)
Definition provenance_registers (program : USILProgram) : Z :=
  if up_temp_count program <? 1 then 1 else up_temp_count program.

(** What an entry says about the state before instruction [s]. *)
Record entry_ok (program : USILProgram) (s reg comp : Z) (p : HLSLComponentProvenance) : Prop := {
  en_definition : cp_definition_instruction p = default (-1) (latest (defines program reg comp) (seqZ 0 s));
  en_root : -1 <= cp_root_instruction p < s /\ 0 <= cp_root_register p < provenance_registers program /\
    0 <= cp_root_component p < 4;
  en_value (V : Type) (value : Z -> Z -> Z -> V) : linear_run program value ->
    value s reg comp = value (cp_root_instruction p + 1) (cp_root_register p) (cp_root_component p);
}.

Section provenance.
Context (program : USILProgram) (HP : ssa_program_ok program).

Abbreviation count := (up_instruction_count program).
Abbreviation registers := (provenance_registers program).
Abbreviation width := (registers * 4).

Hypothesis (Hcount : count <= INT_MAX).

Definition place (s reg comp : Z) : Z := (s * registers + reg) * 4 + comp.
Definition in_state (reg comp : Z) : Prop := 0 <= reg < registers /\ 0 <= comp < 4.

Lemma count_nonneg : 0 <= count.
Proof. destruct (sp_program _ HP) as (l & _ & <-). apply zlength_nonneg. Qed.

Lemma registers_range : 1 <= registers <= INT_MAX.
Proof.
  pose proof (sp_temps _ HP). unfold provenance_registers, INT_MAX in *. destruct (Z.ltb_spec (up_temp_count program) 1); lia.
Qed.

Lemma entries_fit : (count + 1) * width < 2 ^ 64.
Proof.
  pose proof registers_range. pose proof count_nonneg. unfold INT_MAX in *.
  assert ((count + 1) * width <= 2147483648 * (2147483647 * 4)) by (apply Z.mul_le_mono_nonneg; lia). lia.
Qed.

Lemma place_range s reg comp : 0 <= s <= count -> in_state reg comp -> 0 <= place s reg comp < (count + 1) * width.
Proof. unfold place, in_state. pose proof registers_range. intros ? [? ?]. split; nia. Qed.

Lemma place_offset s reg comp : 0 <= s <= count -> in_state reg comp ->
  provenance_offset registers s reg comp = place s reg comp.
Proof. intros Hs Hr. pose proof (place_range s reg comp Hs Hr). pose proof entries_fit. unfold provenance_offset. by rewrite u64_small by (unfold place in *; lia). Qed.

Lemma place_start s : 0 <= s <= count -> provenance_offset registers s 0 0 = s * width.
Proof.
  intros Hs. rewrite place_offset; [unfold place; lia|done|]. pose proof registers_range. split; lia.
Qed.

(** A place of a state is in its part of the array. *)
Lemma place_in s reg comp : in_state reg comp -> s * width <= place s reg comp < s * width + width.
Proof. unfold place, in_state. intros [? ?]. lia. Qed.

Lemma place_inj s r c r' c' : in_state r c -> in_state r' c' -> place s r c = place s r' c' -> r = r' /\ c = c'.
Proof. unfold place, in_state. intros [? ?] [? ?] ?. lia. Qed.

Abbreviation entries := (list HLSLComponentProvenance).

Definition state_ok (values : entries) (s : Z) : Prop :=
  forall reg comp, in_state reg comp -> exists p, znth values (place s reg comp) = Some p /\ entry_ok program s reg comp p.

(** An instruction leaves the entries of what it does not define. *)
Definition kept (values : entries) (i : Z) : Prop := forall reg comp, in_state reg comp ->
  defines program reg comp i = false -> znth values (place (i + 1) reg comp) = znth values (place i reg comp).

(** Different states are apart. *)
Lemma states_apart s s' r c r' c' : in_state r c -> in_state r' c' -> s < s' -> place s r c < place s' r' c'.
Proof.
  intros Hr Hr'. pose proof (place_in s r c Hr). pose proof (place_in s' r' c' Hr'). pose proof registers_range.
  intros Hs. assert (s * width + width <= s' * width) by nia. lia.
Qed.

(** * One state from the one before *)

Lemma copy_state_spec {E} from to (values : entries) :
  0 <= from -> from + width <= to -> to + width <= zlength values ->
  outcome (copy_state (E:=E) width from to values)
    (fun values' => zlength values' = zlength values /\
       forall x, znth values' x = if decide (to <= x < to + width) then znth values (x - to + from) else znth values x)
    (fun _ => False).
Proof.
  intros Hf Ht Hl. pose proof registers_range. unfold copy_state.
  eapply outcome_mono; [apply outcome_for with (F := fun _ => False) (I := fun k values' => zlength values' = zlength values /\
    forall x, znth values' x = if decide (to <= x < to + k) then znth values (x - to + from) else znth values x)| |done].
  - split; [done|]. intros x. by rewrite decide_False by lia.
  - intros k values' Hk [Hl' Hx']. destruct (znth_is_Some values' (from + k)) as [v Hv]; [lia|].
    rewrite (aget_ok _ _ _ Hv). mstep. rewrite aput_ok by lia. cbn. split; [by rewrite zlength_zset|]. intros x.
    destruct (decide (x = to + k)) as [->|Hne].
    + rewrite znth_zset_eq, decide_True by lia. rewrite <- Hv, Hx', decide_False by lia. f_equal. lia.
    + rewrite znth_zset_ne, Hx' by done. destruct (decide (to <= x < to + k)).
      * by rewrite decide_True by lia.
      * by rewrite decide_False by lia.
  - intros values' [Hl' Hx']. split; [done|]. intros x. rewrite Hx'.
    by replace (0 + Z.of_nat (Z.to_nat width)) with width by lia.
Qed.

Section instruction.
Context (i : Z) (inst : USILInstruction) (Hi : 0 <= i < count) (Hin : instruction_in program i inst).

Let Hinst : ssa_instruction_ok inst := sp_instruction _ HP i inst Hin.

(** An entry of a component the instruction has defined. *)
Record fresh_entry (reg comp : Z) (p : HLSLComponentProvenance) : Prop := {
  fe_definition : cp_definition_instruction p = i;
  fe_root : -1 <= cp_root_instruction p < i + 1 /\ 0 <= cp_root_register p < registers /\ 0 <= cp_root_component p < 4;
  fe_value (V : Type) (value : Z -> Z -> Z -> V) : linear_run program value ->
    value (i + 1) reg comp = value (cp_root_instruction p + 1) (cp_root_register p) (cp_root_component p);
}.

(** The array while the operands are gone through: [W] is defined so far. *)
Record defining (values0 values : entries) (W : Z -> Z -> Prop) : Prop := {
  df_length : zlength values = zlength values0;
  df_before s reg comp : 0 <= s <= i -> in_state reg comp ->
    znth values (place s reg comp) = znth values0 (place s reg comp);
  df_after reg comp : in_state reg comp ->
    (W reg comp /\ exists p, znth values (place (i + 1) reg comp) = Some p /\ fresh_entry reg comp p) \/
    (~ W reg comp /\ znth values (place (i + 1) reg comp) = znth values0 (place i reg comp));
}.

Lemma defining_iff values0 values W W' :
  (forall r c, in_state r c -> W r c <-> W' r c) -> defining values0 values W -> defining values0 values W'.
Proof. intros HW [Hl Hb Ha]. split; [done|done|]. intros r c Hr. rewrite <- (HW r c Hr). by apply Ha. Qed.

(** One entry more. *)
Lemma defining_put values0 values W reg comp p :
  zlength values0 = (count + 1) * width -> defining values0 values W -> in_state reg comp -> fresh_entry reg comp p ->
  defining values0 (zset values (place (i + 1) reg comp) p) (fun r c => W r c \/ (r = reg /\ c = comp)).
Proof.
  intros Hlen [Hl Hb Ha] Hr Hp. pose proof (place_range (i + 1) reg comp ltac:(lia) Hr) as Hx. split.
  - by rewrite zlength_zset.
  - intros s r c Hs Hrc. pose proof (states_apart s (i + 1) r c reg comp Hrc Hr ltac:(lia)).
    rewrite znth_zset_ne by lia. by apply Hb.
  - intros r c Hrc. destruct (decide (place (i + 1) r c = place (i + 1) reg comp)) as [Heq|Hne].
    + apply place_inj in Heq as [-> ->]; [|done|done]. left. split; [tauto|]. exists p.
      by rewrite znth_zset_eq by lia.
    + rewrite znth_zset_ne by done. assert (~ (r = reg /\ c = comp)) by (intros [-> ->]; done).
      destruct (Ha r c Hrc) as [[? ?]|[? ?]]; [left|right]; (split; [tauto|done]).
Qed.

Lemma copies_source_spec {E} destination k :
  znth (ui_operands inst) k = Some destination ->
  exists copied, copies_source (E:=E) inst destination = Ret copied /\
    forall source, copied = Some source -> znth (ui_operands inst) 1 = Some source /\ operand_ok source /\
      ui_opcode inst = USIL_OP_MOV /\ ui_saturate inst = false /\
      op_type source = OPERAND_TYPE_TEMP /\ op_has_neg source = false /\ op_has_abs source = false /\
      op_min_precision source = 0 /\ op_min_precision destination = 0.
Proof.
  intros Hk. unfold copies_source. destruct (negb _ || ui_saturate inst) eqn:Hop; [by exists None|].
  apply orb_false_iff in Hop as [Hop Hsat]. apply negb_false_iff in Hop.
  destruct (znth_is_Some (ui_operands inst) 1) as [source Hs].
  { rewrite (io_operands _ (si_ok _ Hinst)). unfold DXBC_MAX_OPERANDS. lia. }
  unfold operand_at. rewrite (aget_ok _ _ _ Hs). mstep. eexists. split; [done|].
  intros source' Hc. destruct (_ && _) eqn:Hb; [|done]. injection Hc as ->. bools.
  assert (Hopc : ui_opcode inst = USIL_OP_MOV) by (unfold op_is in Hop; by apply bool_decide_eq_true in Hop).
  pose proof (io_operand _ (si_ok _ Hinst)) as HF. rewrite list.Forall_forall in HF.
  split_and!; try done. apply HF, znth_elem_of. eauto.
Qed.

Lemma define_lane_spec values0 values W k destination use comp :
  zlength values0 = (count + 1) * width -> state_ok values0 i -> defining values0 values W ->
  0 <= k < ui_operand_count inst -> 0 <= comp < 4 -> znth (ui_operands inst) k = Some destination ->
  usil_instruction_operand_use program inst k = Ret use -> ou_use use = USIL_OPERAND_USE_DESTINATION ->
  op_type destination = OPERAND_TYPE_TEMP -> 0 <= op_register_index destination < registers ->
  outcome (define_lane program registers i inst destination (usil_operand_destination_lane_mask destination) comp values)
    (fun values' => defining values0 values' (fun r c => W r c \/ (r = op_register_index destination /\ c = comp /\
       has_lane (usil_operand_destination_lane_mask destination) comp = true)))
    (fun _ => False).
Proof.
  intros Hlen Hst HD Hk Hcomp Ho Hu Huse Ht Hreg. unfold define_lane.
  destruct (has_lane _ comp) eqn:Hm; cbn [negb].
  2:{ cbn. eapply defining_iff; [|exact HD]. intros r c _. split; [by left|]. intros [?|(_ & _ & ?)]; [done|congruence]. }
  set (reg := op_register_index destination) in *. set (mask := usil_operand_destination_lane_mask destination) in *.
  assert (Hr : in_state reg comp) by by split.
  pose proof (place_range (i + 1) reg comp ltac:(lia) Hr) as Hx.
  assert (Hoff : provenance_offset registers (i + 1) 0 0 + (reg * 4 + comp) = place (i + 1) reg comp).
  { rewrite place_start by lia. unfold place. lia. }
  rewrite Hoff. rewrite aput_ok by (rewrite (df_length _ _ _ HD), Hlen; lia). mstep.
  destruct (copies_source_spec (E:=unit) destination k Ho) as (copied & -> & Hcopy). mstep.
  set (p := {| cp_kind := classify_instruction inst; cp_definition_instruction := i; cp_root_instruction := i;
    cp_root_register := reg; cp_root_component := comp; cp_vector_definition := i; cp_vector_mask := u8 (Z.shiftl mask 4) |}).
  assert (Hp : fresh_entry reg comp p) by (split; [done|cbn; lia|done]).
  assert (HD1 : defining values0 (zset values (place (i + 1) reg comp) p) (fun r c => W r c \/ (r = reg /\ c = comp)))
    by by apply defining_put.
  assert (Hdone : forall values', defining values0 values' (fun r c => W r c \/ (r = reg /\ c = comp)) ->
    defining values0 values' (fun r c => W r c \/ (r = reg /\ c = comp /\ true = true))).
  { intros values'. apply defining_iff. intros r c _. tauto. }
  destruct copied as [source|]; [|by cbn; apply Hdone].
  destruct (Hcopy source eq_refl) as (Hs1 & Hsok & Hopc & Hsat & Hst' & Hneg & Habs & Hmp & Hmpd).
  destruct (source_component_ok source comp Hsok) as (sc & Hsc & Hscr). rewrite Hsc. mstep.
  unfold component_provenance_at. rewrite (proj2 (Z.ltb_ge i 0)), (proj2 (Z.ltb_ge count i)) by lia. cbn [orb].
  destruct ((op_register_index source <? 0) || _ || _ || _) eqn:Hbad; [by cbn; apply Hdone|]. bools.
  assert (Hsr : in_state (op_register_index source) sc) by (split; lia).
  rewrite place_offset by (done || lia).
  destruct (Hst _ _ Hsr) as (from & Hfrom & Hfok).
  rewrite <- (df_before _ _ _ HD1 i _ _ ltac:(lia) Hsr) in Hfrom. rewrite (aget_ok _ _ _ Hfrom). mstep.
  rewrite aput_ok by (rewrite (df_length _ _ _ HD1), Hlen; lia). cbn [outcome].
  apply Hdone. eapply defining_iff; [|apply defining_put; [done|exact HD1|done|]].
  { intros r c _. cbn. tauto. }
  destruct (en_root _ _ _ _ _ Hfok) as (Hri & Hrr & Hrc). split; [done|cbn; lia|]. cbn. intros V value Hrun.
  rewrite <- (en_value _ _ _ _ _ Hfok V value Hrun). apply (lr_move _ _ Hrun).
  exists inst, k, destination, source. split_and!; try done. exists use, destination. split_and!; done.
Qed.
(** An operand the scan accepts: a use, and a temporary it follows. *)
Definition operand_scannable (k : Z) : Prop :=
  exists use o, usil_instruction_operand_use program inst k = Ret use /\ znth (ui_operands inst) k = Some o /\
    (op_type o = OPERAND_TYPE_TEMP -> ou_use use = USIL_OPERAND_USE_DESTINATION ->
     0 <= op_register_index o < registers).

Lemma define_operand_spec values0 values W k :
  zlength values0 = (count + 1) * width -> state_ok values0 i -> defining values0 values W ->
  0 <= k < ui_operand_count inst ->
  outcome (define_operand program registers i inst k values)
    (fun values' => defining values0 values' (fun r c => W r c \/ writes program inst k r c) /\ operand_scannable k)
    (fun _ => ~ operand_scannable k).
Proof.
  intros Hlen Hst HD Hk. unfold define_operand. pose proof (operand_use_defined program HP inst Hinst k) as Hu.
  destruct (usil_instruction_operand_use program inst k) as [use|[]|] eqn:Huse; [|cbn|done].
  2:{ intros (use & _ & Hu' & _). congruence. }
  mstep. destruct (operand_in inst Hinst k Hk) as (o & -> & Ho & Hoo). mstep.
  destruct (negb _ || negb _) eqn:Hskip.
  { assert (Hno : ~ (op_type o = OPERAND_TYPE_TEMP /\ ou_use use = USIL_OPERAND_USE_DESTINATION)).
    { intros [H1 H2]. rewrite H1, H2, Z.eqb_refl, bool_decide_true in Hskip by done. done. }
    cbn. split.
    - eapply defining_iff; [|exact HD]. intros r c _. split; [by left|]. intros [?|Hw]; [done|].
      destruct Hw as (use' & o' & Hu' & Ho' & H1 & H2 & _). assert (use' = use) as -> by congruence.
      assert (o' = o) as -> by congruence. tauto.
    - exists use, o. split_and!; [done|done|]. tauto. }
  apply orb_false_iff in Hskip as [Hs Ht]. apply negb_false_iff, Z.eqb_eq in Ht.
  apply negb_false_iff, bool_decide_eq_true in Hs.
  destruct ((op_register_index o <? 0) || _) eqn:Hrange.
  { cbn. intros (use' & o' & Hu' & Ho' & Hr). assert (use' = use) as -> by congruence.
    assert (o' = o) as -> by congruence. specialize (Hr Ht Hs).
    rewrite (proj2 (Z.ltb_ge _ _)), (proj2 (Z.leb_gt _ _)) in Hrange by lia. done. }
  apply orb_false_iff in Hrange as [Hr0%Z.ltb_ge Hr1%Z.leb_gt].
  set (mask := usil_operand_destination_lane_mask o). set (reg := op_register_index o).
  eapply outcome_mono; [apply outcome_for with (F := fun _ => False)
    (I := fun j values' => defining values0 values' (fun r c => W r c \/ (r = reg /\ 0 <= c < j /\ has_lane mask c = true)))| |done].
  - eapply defining_iff; [|exact HD]. intros r c _. split; [by left|]. intros [?|(_ & ? & _)]; [done|lia].
  - intros lane values1 Hlane HD1.
    eapply outcome_mono; [apply (define_lane_spec values0 values1 (fun r c => W r c \/ (r = reg /\ 0 <= c < lane /\ has_lane mask c = true)) k o use lane);
      [done|done|exact HD1|done|lia|done|done|done|done|by split]| |done].
    intros values2 HD2. eapply defining_iff; [|exact HD2]. intros r c _. split.
    + intros [[?|(-> & ? & ?)]|(-> & -> & ?)]; [by left|right; split_and!; done || lia..].
    + intros [?|(-> & Hc & ?)]; [tauto|]. destruct (decide (c = lane)) as [->|]; [tauto|].
      left; right. split_and!; done || lia.
  - intros values1 HD1. split.
    + eapply defining_iff; [|exact HD1]. intros r c [_ Hc]. split.
      * intros [?|(-> & _ & Hm)]; [by left|]. right. exists use, o. split_and!; done.
      * intros [?|(use' & o' & Hu' & Ho' & _ & _ & <- & Hm)]; [by left|right].
        assert (o' = o) as -> by congruence. split_and!; done || lia.
    + exists use, o. split_and!; done || lia.
Qed.

Definition scannable : Prop := forall k, 0 <= k < ui_operand_count inst -> operand_scannable k.
Definition rejected : Prop := exists k, 0 <= k < ui_operand_count inst /\ ~ operand_scannable k.

Lemma scan_defines reg comp : scannable ->
  defines program reg comp i = true <-> exists k, 0 <= k < ui_operand_count inst /\ writes program inst k reg comp.
Proof.
  intros Hall. pose proof (defines_ok program HP reg comp i inst Hin unit) as Hd.
  destruct (instruction_defines_spec program HP inst Hinst reg comp) as (b & Hb & Ht & Hf).
  rewrite Hb in Hd. injection Hd as <-. split; [done|]. intros (k & Hk & Hw).
  destruct b; [done|]. exfalso. apply (Hf eq_refl) in Hw; [done| |done].
  intros k' Hk'. destruct (Hall k' Hk') as (use & _ & Hu & _). by exists use.
Qed.

Lemma latest_next reg comp : latest (defines program reg comp) (seqZ 0 (i + 1)) =
  if defines program reg comp i then Some i else latest (defines program reg comp) (seqZ 0 i).
Proof.
  replace (seqZ 0 (i + 1)) with (seqZ 0 i ++ [i]); [apply latest_snoc|].
  rewrite seqZ_app by lia. by rewrite Z.add_0_l.
Qed.

Lemma scan_instruction_spec values :
  zlength values = (count + 1) * width -> (forall s, 0 <= s <= i -> state_ok values s) ->
  (forall j, 0 <= j < i -> kept values j) ->
  outcome (scan_instruction program registers i values)
    (fun values' => zlength values' = (count + 1) * width /\ (forall s, 0 <= s <= i + 1 -> state_ok values' s) /\
       (forall j, 0 <= j < i + 1 -> kept values' j) /\ scannable)
    (fun _ => rejected).
Proof.
  intros Hlen Hst Hkept. pose proof registers_range. unfold scan_instruction. rewrite !place_start by lia.
  apply outcome_bind. eapply outcome_mono; [apply copy_state_spec; nia| |done].
  intros values1 [Hl1 Hx1]. rewrite (instruction_in_at program i inst Hin). mstep.
  assert (HD : defining values values1 (fun _ _ => False)).
  { split; [done| |].
    - intros s r c Hs Hr. pose proof (place_in s r c Hr). assert (s * width + width <= (i + 1) * width) by nia.
      rewrite Hx1, decide_False; [done|lia].
    - intros r c Hr. right. split; [tauto|]. pose proof (place_in (i + 1) r c Hr).
      rewrite Hx1, decide_True by lia. f_equal. unfold place. lia. }
  eapply outcome_mono; [apply outcome_for with (F := fun _ => rejected) (I := fun j values' =>
    defining values values' (fun r c => exists k, 0 <= k < j /\ writes program inst k r c) /\
    forall k, 0 <= k < j -> operand_scannable k)| |done].
  - split; [|lia]. eapply defining_iff; [|exact HD]. intros r c _. split; [done|]. intros (k & ? & _). lia.
  - intros k values' Hk [HD' Hsc]. eapply outcome_mono; [apply (define_operand_spec values values' (fun r c => exists k', 0 <= k' < k /\ writes program inst k' r c) k);
      [done|apply Hst; lia|exact HD'|lia]| |].
    + intros values2 [HD2 Hs2]. split.
      * eapply defining_iff; [|exact HD2]. intros r c _. split.
        -- intros [(k' & ? & ?)|?]; [exists k'|exists k]; (split; [lia|done]).
        -- intros (k' & Hk' & Hw). destruct (decide (k' = k)) as [->|]; [by right|]. left. exists k'. split; [lia|done].
      * intros k' Hk'. destruct (decide (k' = k)) as [->|]; [done|]. apply Hsc. lia.
    + intros [] Hno. exists k. split; [lia|done].
  - intros values' [HD' Hsc]. assert (Hall : scannable) by (intros k Hk; apply Hsc; lia).
    assert (Hw : forall r c,
      (exists k, 0 <= k < 0 + Z.of_nat (Z.to_nat (ui_operand_count inst)) /\ writes program inst k r c) <->
      defines program r c i = true).
    { intros r c. rewrite scan_defines by done. split; intros (k & ? & ?); exists k; (split; [lia|done]). }
    split; [by rewrite (df_length _ _ _ HD')|].
    assert (Hk' : forall j, 0 <= j < i + 1 -> kept values' j).
    { intros j Hj r c Hr Hno. rewrite (df_before _ _ _ HD' j) by (done || lia).
      destruct (decide (j = i)) as [->|].
      - destruct (df_after _ _ _ HD' r c Hr) as [[Hd%Hw _]|[_ Hp]]; [congruence|done].
      - rewrite (df_before _ _ _ HD') by (done || lia). apply (Hkept j); [lia|done|done]. }
    split_and!; [|done|done]. intros s Hs r c Hr.
    destruct (decide (s = i + 1)) as [->|Hne].
    2:{ rewrite (df_before _ _ _ HD') by (done || lia). by apply (Hst s ltac:(lia)). }
    destruct (df_after _ _ _ HD' r c Hr) as [[Hd (p & Hp & Hf)]|[Hd Hp]]; rewrite Hw in Hd.
    + exists p. split; [done|]. split; [|apply Hf|apply Hf]. rewrite latest_next, Hd. apply Hf.
    + apply not_true_iff_false in Hd. destruct (Hst i ltac:(lia) r c Hr) as (p & Hp' & Hok). exists p.
      split; [congruence|]. destruct Hok as [E1 (E2 & E3 & E4) E5]. split.
      * by rewrite latest_next, Hd.
      * lia.
      * intros V value Hrun. rewrite (lr_frame _ _ Hrun i r c Hi Hd). by apply E5.
Qed.
End instruction.

(** * The whole scan *)

Lemma initial_state_spec {E} :
  outcome (initial_state (E:=E) registers (filled ((count + 1) * width) zero_provenance))
    (fun values => zlength values = (count + 1) * width /\ state_ok values 0) (fun _ => False).
Proof.
  pose proof registers_range. pose proof count_nonneg. assert (0 <= (count + 1) * width) by nia.
  set (J reg comp (values : entries) := zlength values = (count + 1) * width /\
    (forall r c, in_state r c -> r < reg \/ (r = reg /\ c < comp) ->
       exists p, znth values (place 0 r c) = Some p /\ entry_ok program 0 r c p)).
  eapply outcome_mono; [apply outcome_for with (F := fun _ => False) (I := fun reg => J reg 0)| |done].
  - split; [by apply zlength_filled|]. intros r c [? ?]. lia.
  - intros reg values Hreg HJ.
    eapply outcome_mono; [apply outcome_for with (F := fun _ => False) (I := J reg)| |done]; [done| |].
    + intros comp values1 Hcomp [Hl Hat]. assert (Hr : in_state reg comp) by (split; lia).
      rewrite place_offset by (done || lia). pose proof (place_range 0 reg comp ltac:(lia) Hr) as Hx.
      destruct (znth_is_Some values1 (place 0 reg comp)) as [p Hp]; [lia|].
      rewrite (aupd_ok _ _ _ _ Hp). cbn. split; [by rewrite zlength_zset|]. intros r c Hrc Hlt.
      destruct (decide (place 0 r c = place 0 reg comp)) as [Heq|Hne].
      * apply place_inj in Heq as [-> ->]; [|done|done]. rewrite znth_zset_eq by lia.
        eexists. split; [done|]. destruct Hr. split; cbn; [done|lia|done].
      * rewrite znth_zset_ne by done. apply Hat; [done|].
        destruct Hlt as [?|[-> ?]]; [by left|right]. split; [done|]. destruct (decide (c = comp)) as [->|]; [done|lia].
    + intros values1 [Hl Hat]. split; [done|]. intros r c [Hr Hc] Hlt. apply Hat; [by split|]. lia.
  - intros values [Hl Hat]. split; [done|]. intros r c [Hr Hc]. apply Hat; [by split|]. lia.
Qed.

(** Every instruction is one the scan accepts. *)
Definition all_scannable : Prop := forall i inst, instruction_in program i inst -> scannable inst.
Definition some_rejected : Prop := exists i inst, instruction_in program i inst /\ rejected inst.

(** The array the scan leaves. *)
Record scanned (values : entries) : Prop := {
  sn_length : zlength values = (count + 1) * width;
  sn_state s : 0 <= s <= count -> state_ok values s;
  sn_kept i : 0 <= i < count -> kept values i;
}.

Lemma scan_spec :
  outcome (values ← initial_state registers (filled ((count + 1) * width) zero_provenance);
           for_loop (Z.to_nat count) 0 (scan_instruction program registers) values)
    (fun values => scanned values /\ all_scannable) (fun _ => some_rejected).
Proof.
  pose proof count_nonneg. apply outcome_bind. eapply outcome_mono; [apply initial_state_spec| |done].
  intros values [Hl H0].
  eapply outcome_mono; [apply outcome_for with (F := fun _ => some_rejected)
    (I := fun i values => zlength values = (count + 1) * width /\ (forall s, 0 <= s <= i -> state_ok values s) /\
       (forall j, 0 <= j < i -> kept values j) /\ forall j inst, j < i -> instruction_in program j inst -> scannable inst)| |done].
  - split_and!; [done| |lia|].
    + intros s Hs. assert (s = 0) as -> by lia. done.
    + intros j inst Hj (xs & _ & Hx). apply znth_Some in Hx. lia.
  - intros i values1 Hi (Hl1 & Hst1 & Hk1 & Hsc1). destruct (instruction_in_exists program HP i) as [inst Hin]; [lia|].
    eapply outcome_mono; [apply (scan_instruction_spec i inst ltac:(lia) Hin); done| |].
    + intros values2 (Hl2 & Hst2 & Hk2 & Hsc2). split_and!; [done|done|done|]. intros j inst' Hj Hin'.
      destruct (decide (j = i)) as [->|]; [by rewrite (instruction_in_unique program i inst' inst Hin' Hin)|].
      apply (Hsc1 j); [lia|done].
    + intros [] Hno. by exists i, inst.
  - intros values1 (Hl1 & Hst1 & Hk1 & Hsc1).
    split; [split; [done|intros s Hs; apply Hst1; lia|intros j Hj; apply Hk1; lia]|].
    intros j inst Hin. apply (Hsc1 j); [|done]. destruct Hin as (xs & Hxs & Hx).
    destruct (sp_program _ HP) as (ys & Hys & Hlen). assert (ys = xs) as -> by congruence. apply znth_Some in Hx. lia.
Qed.

(** Entries of a component no instruction in between defines are the same. *)
Lemma scanned_same values s t reg comp : scanned values -> in_state reg comp -> 0 <= s -> s <= t <= count ->
  (forall j, s <= j < t -> defines program reg comp j = false) ->
  znth values (place t reg comp) = znth values (place s reg comp).
Proof.
  intros Hsn Hr Hs Ht Hno. replace t with (s + Z.of_nat (Z.to_nat (t - s))) in * by lia.
  induction (Z.to_nat (t - s)) as [|n IH]; [by rewrite Z.add_0_r|].
  replace (s + Z.of_nat (S n)) with (s + Z.of_nat n + 1) in * by lia.
  rewrite (sn_kept _ Hsn) by (done || lia || (apply Hno; lia)). apply IH; [lia|]. intros j Hj. apply Hno. lia.
Qed.

(** * The context the construction leaves *)

(** The context holds the array of the scan. *)
Definition provenance_built (c : HLSLEmitterContext) : Prop :=
  ctx_program c = Some program /\ ctx_provenance_register_count c = registers /\
  exists values, ctx_component_provenance c = Some values /\ scanned values.

Lemma get_component_provenance_spec {E} c s reg comp : provenance_built c ->
  (0 <= s <= count /\ in_state reg comp /\ exists p values, ctx_component_provenance c = Some values /\
     get_component_provenance (E:=E) (Some c) s reg comp = Ret (Some p) /\ entry_ok program s reg comp p /\
     znth values (place s reg comp) = Some p) \/
  (~ (0 <= s <= count /\ in_state reg comp) /\ get_component_provenance (E:=E) (Some c) s reg comp = Ret None).
Proof.
  intros (Hp & Hreg & values & Hv & Hsn). unfold get_component_provenance. rewrite Hv, Hp, Hreg. cbn [is_null].
  destruct (Z.ltb_spec s 0); [right; split; [lia|done]|]. cbn [ptr]. mstep. unfold component_provenance_at.
  rewrite (proj2 (Z.ltb_ge s 0)) by lia. destruct (_ || _) eqn:Hb; cbn [orb] in Hb.
  - right. split; [|done]. intros (Hs & Hr & Hc). unfold in_state in *.
    rewrite (proj2 (Z.ltb_ge count s)), !(proj2 (Z.ltb_ge _ 0)), !(proj2 (Z.leb_gt _ _)) in Hb by lia. done.
  - bools. assert (Hr : in_state reg comp) by (split; lia). left. split; [lia|]. split; [done|].
    destruct (sn_state _ Hsn s ltac:(lia) reg comp Hr) as (p & Hpl & Hok).
    exists p, values. rewrite place_offset by (done || lia). rewrite (aget_ok _ _ _ Hpl). done.
Qed.

Section build.
Context `{L : LibcMalloc}.

Definition provenance_allocated : bool := libc_calloc ((count + 1) * width) COMPONENT_PROVENANCE_SIZE.

Lemma build_provenance_spec {E} c : ctx_program c = Some program -> exists ok c',
  build_component_provenance (E:=E) c = Ret (ok, c') /\
  c' = c <| ctx_component_provenance := ctx_component_provenance c' |>
         <| ctx_provenance_register_count := ctx_provenance_register_count c' |> /\
  if ok : bool then provenance_built c' /\ all_scannable
  else ctx_component_provenance c' = None /\ (provenance_allocated = false \/ some_rejected).
Proof.
  intros Hp. pose proof count_nonneg. pose proof registers_range. pose proof entries_fit. unfold INT_MAX in *.
  unfold build_component_provenance. rewrite Hp. cbn [ptr]. mstep. fold registers.
  rewrite (u64_small width), (u64_small (count + 1)), (u64_small ((count + 1) * width)) by nia.
  fold provenance_allocated. destruct provenance_allocated eqn:Ha; cbn [negb]; [|by eexists false, _; eauto].
  pose proof scan_spec as Hs. destruct (_ ≫= _) as [values|[]|]; cbn in Hs |- *; [|..|done].
  - eexists true, _. split; [done|]. split; [done|]. destruct Hs as [Hs Hall]. split; [|done]. by split_and!; eauto.
  - eexists false, _. eauto.
Qed.
End build.

(** * Two states between which a component keeps its value *)

Lemma latest_split reg comp s t d : 0 <= s <= t -> t <= count ->
  default (-1) (latest (defines program reg comp) (seqZ 0 t)) = d -> d < s ->
  forall j, s <= j < t -> defines program reg comp j = false.
Proof.
  intros Hs Hc <- Hlt. replace t with (s + Z.of_nat (Z.to_nat (t - s))) in * by lia.
  induction (Z.to_nat (t - s)) as [|n IH]; [lia|]. intros j Hj.
  replace (s + Z.of_nat (S n)) with (s + Z.of_nat n + 1) in * by lia.
  pose proof (latest_next (s + Z.of_nat n) ltac:(lia) reg comp) as Hn. rewrite Hn in Hlt.
  destruct (defines program reg comp (s + Z.of_nat n)) eqn:Hd; [cbn in Hlt; lia|].
  destruct (decide (j = s + Z.of_nat n)) as [->|]; [done|]. apply IH; [lia|lia|done|lia].
Qed.
End provenance.
