(* ===== verification/UseDef.v ===== *)
(** Which definition every source lane reads, and how often each is used:
    [src/translation/hlsl_use_def.c]. *)

From S2P Require Import Prelude CArray UnityCommon Heap Operand Instruction Usil SsaGraph Cfg FlowStructure UsilValidation UsilValidationSteps Ssa SsaInstruction Provenance.

#[local] Set Warnings "-register-all".

Definition hlsl_operand_definition {E} (ctx : option HLSLEmitterContext) (instruction operand component : Z)
    : res E Z :=
  match ctx with
  | None => Ret HLSL_DEFINITION_UNKNOWN
  | Some c =>
      if (instruction <? 0) || (operand <? 0) || (DXBC_MAX_OPERANDS <=? operand) || (component <? 0) || (4 <=? component)
      then Ret HLSL_DEFINITION_UNKNOWN else
      let ssa := ctx_ssa c in
      match ssa_operand_ssa_vars ssa, instruction <? ssa_instruction_count ssa with
      | Some vars, true =>
          ssa_var ← aget vars (operand_offset instruction operand component);
          if (0 <=? ssa_var) && (ssa_var <? ssa_var_count ssa)
          then defs ← ptr (ssa_var_defs ssa); cget defs ssa_var
          else Ret HLSL_DEFINITION_UNKNOWN
      | _, _ =>
          let graph := ctx_use_def c in
          match ud_operand_definitions graph, instruction <? ud_instruction_count graph with
          | Some definitions, true => aget definitions (operand_offset instruction operand component)
          | _, _ => Ret HLSL_DEFINITION_UNKNOWN
          end
      end
  end.

Definition hlsl_definition_use_count {E} (ctx : option HLSLEmitterContext) (instruction component : Z) : res E Z :=
  match ctx with
  | None => Ret 0
  | Some c =>
      let graph := ctx_use_def c in
      match ud_definition_use_counts graph with
      | None => Ret 0
      | Some counts =>
          if (instruction <? 0) || (ud_instruction_count graph <=? instruction) || (component <? 0) || (4 <=? component)
          then Ret 0 else aget counts (u64 (instruction * 4 + component))
      end
  end.

Definition free_hlsl_use_def_graph (c : HLSLEmitterContext) : HLSLEmitterContext :=
  c <| ctx_use_def := zero_use_def |>.

(** The two arrays while they are filled: [operand_definitions] and
    [definition_use_counts]. *)
Definition count_use {E} (definition component : Z) (counts : list Z) : res E (list Z) :=
  if 0 <=? definition then aupd counts (u64 (definition * 4 + component)) (fun n => u32 (n + 1)) else Ret counts.

(** The definition a lane reads: the variable's, if there is SSA form, else the
    last one of the scan, if only it can be the one. *)
Definition lane_definition {E} (c : HLSLEmitterContext) (index operand_index component reg source : Z) : res E Z :=
  if is_null (ssa_operand_ssa_vars (ctx_ssa c)) then
    provenance ← get_component_provenance (Some c) index reg source;
    match provenance with
    | Some provenance =>
        if 0 <=? cp_definition_instruction provenance then
          program ← ptr (ctx_program c);
          straight ← instructions_have_unambiguous_path program (ctx_cfg c) (cp_definition_instruction provenance) index;
          Ret (if straight : bool then cp_definition_instruction provenance else HLSL_DEFINITION_AMBIGUOUS)
        else Ret HLSL_DEFINITION_UNKNOWN
    | None => Ret HLSL_DEFINITION_UNKNOWN
    end
  else hlsl_operand_definition (Some c) index operand_index component.

(** The context with its graph as it is at this point. *)
Definition with_graph (c : HLSLEmitterContext) (count : Z) (graph : list Z * list Z) : HLSLEmitterContext :=
  c <| ctx_use_def := {| ud_operand_definitions := Some (fst graph); ud_definition_use_counts := Some (snd graph);
                         ud_instruction_count := count |} |>.

Definition use_lane (c : HLSLEmitterContext) (count index operand_index : Z) (operand : DXBCOperand) (mask component : Z)
    (graph : list Z * list Z) : res unit (list Z * list Z) :=
  if negb (has_lane mask component) then Ret graph else
  source ← usil_operand_source_component operand component;
  if source <? 0 then Fail tt else
  definition ← lane_definition (with_graph c count graph) index operand_index component (op_register_index operand) source;
  definitions ← aput (fst graph) (operand_offset index operand_index component) definition;
  counts ← count_use definition source (snd graph);
  Ret (definitions, counts).

Definition use_operand (c : HLSLEmitterContext) (program : USILProgram) (index : Z) (inst : USILInstruction)
    (operand_index : Z) (graph : list Z * list Z) : res unit (list Z * list Z) :=
  use ← usil_instruction_operand_use program inst operand_index;
  operand ← operand_at inst operand_index;
  if negb (bool_decide (ou_use use = USIL_OPERAND_USE_SOURCE)) || negb (op_type operand =? OPERAND_TYPE_TEMP)
  then Ret graph else
  for_loop 4 0 (use_lane c (up_instruction_count program) index operand_index operand (ou_source_lane_mask use)) graph.

Definition use_instruction (c : HLSLEmitterContext) (program : USILProgram) (index : Z) (graph : list Z * list Z)
    : res unit (list Z * list Z) :=
  inst ← instruction_at program index;
  for_loop (Z.to_nat (ui_operand_count inst)) 0 (use_operand c program index inst) graph.

(** One edge into a phi. *)
Definition count_edge (ssa : HLSLSSAGraph) (count : Z) (phi : HLSLPhiNode) (edge : Z) (counts : list Z)
    : res unit (list Z) :=
  variable ← aget (phi_incoming_vars phi) edge;
  if (variable <? 0) || (ssa_var_count ssa <=? variable) then Ret counts else
  defs ← ptr (ssa_var_defs ssa);
  definition ← cget defs variable;
  if (0 <=? definition) && (definition <? count)
  then aupd counts (u64 (definition * 4 + phi_component phi)) (fun n => u32 (n + 1)) else Ret counts.

Definition count_phi (cfg : HLSLControlFlowGraph) (ssa : HLSLSSAGraph) (count block : Z) (phis : HLSLBlockPhis)
    (index : Z) (counts : list Z) : res unit (list Z) :=
  phi ← aget (bp_phis phis) index;
  basic_block ← block_at cfg block;
  for_loop (Z.to_nat (bb_predecessor_count basic_block)) 0 (count_edge ssa count phi) counts.

Definition count_block (cfg : HLSLControlFlowGraph) (ssa : HLSLSSAGraph) (count : Z) (block_phis : list HLSLBlockPhis)
    (block : Z) (counts : list Z) : res unit (list Z) :=
  phis ← aget block_phis block;
  for_loop (Z.to_nat (zlength (bp_phis phis))) 0 (count_phi cfg ssa count block phis) counts.

Section build.
Context `{L : LibcMalloc}.

Definition fill_use_def (c : HLSLEmitterContext) (program : USILProgram) (operand_count : Z)
    : res unit (list Z * list Z) :=
  let count := up_instruction_count program in
  '(definitions, counts) ← for_loop (Z.to_nat count) 0 (use_instruction c program)
    (filled operand_count HLSL_DEFINITION_UNKNOWN, filled (count * 4) 0);
  counts ← match ssa_block_phis (ctx_ssa c) with
           | Some block_phis =>
               for_loop (Z.to_nat (cfg_block_count (ctx_cfg c))) 0
                 (count_block (ctx_cfg c) (ctx_ssa c) count block_phis) counts
           | None => Ret counts
           end;
  Ret (definitions, counts).

Definition build_hlsl_use_def_graph {E} (c : HLSLEmitterContext) : res E (bool * HLSLEmitterContext) :=
  program ← ptr (ctx_program c);
  let count := up_instruction_count program in
  let operand_count := u64 (u64 (count * DXBC_MAX_OPERANDS) * 4) in
  if negb (libc_malloc (u64 (operand_count * 4)) && libc_calloc (u64 (count * 4)) 4)
  then Ret (false, free_hlsl_use_def_graph c) else
  graph ← attempt (fill_use_def c program operand_count);
  Ret match graph with
      | Some graph => (true, with_graph c count graph)
      | None => (false, free_hlsl_use_def_graph c)
      end.
End build.

(** The use-def graph over the SSA form: which slots are written with what, and
    the use counts as the number of uses of each definition, phi edges
    included.  A definition that an execution reads is always counted. *)

(** * Uses *)

(** A definition of a component that is used. *)
Abbreviation use_site := (Z * Z)%type.

(** How often a definition is used. *)
Definition occurrences (x : use_site) (uses : list use_site) : Z := zlength (base.filter (fun y => y = x) uses).

Lemma occurrences_app x uses uses' : occurrences x (uses ++ uses') = occurrences x uses + occurrences x uses'.
Proof. unfold occurrences, zlength. rewrite list.filter_app, length_app. lia. Qed.

Lemma occurrences_one x y : occurrences x [y] = if decide (y = x) then 1 else 0.
Proof.
  unfold occurrences. destruct (decide (y = x)); [rewrite filter_cons_True|rewrite filter_cons_False]; done.
Qed.

Lemma occurrences_nonneg x uses : 0 <= occurrences x uses <= zlength uses.
Proof.
  unfold occurrences, zlength. pose proof (length_filter (fun y => y = x) uses). lia.
Qed.

Lemma occurrences_pos x uses : x ∈ uses -> 0 < occurrences x uses.
Proof.
  intros (l1 & l2 & ->)%list_elem_of_split. change (x :: l2) with ([x] ++ l2). rewrite !occurrences_app, occurrences_one, decide_True by done.
  pose proof (occurrences_nonneg x l1). pose proof (occurrences_nonneg x l2). lia.
Qed.

(** The counts of a number of uses, in [unsigned int]. *)
Record tallied (count : Z) (counts : list Z) (uses : list use_site) : Prop := {
  tl_length : zlength counts = count * 4;
  tl_count d comp : 0 <= d < count -> 0 <= comp < 4 ->
    znth counts (d * 4 + comp) = Some (u32 (occurrences (d, comp) uses));
}.

Lemma tallied_start count : 0 <= count -> tallied count (filled (count * 4) 0) [].
Proof.
  intros Hc. split; [apply zlength_filled; lia|]. intros d comp Hd Hcomp. by rewrite znth_filled by lia.
Qed.

Lemma tallied_add {E} count counts uses d comp :
  count <= INT_MAX -> tallied count counts uses -> 0 <= d < count -> 0 <= comp < 4 ->
  outcome (aupd (E:=E) counts (u64 (d * 4 + comp)) (fun n => u32 (n + 1)))
    (fun counts' => tallied count counts' (uses ++ [(d, comp)])) (fun _ => False).
Proof.
  intros Hc [Hl Hn] Hd Hcomp. unfold INT_MAX in Hc. rewrite u64_small by lia.
  rewrite (aupd_ok _ _ _ _ (Hn d comp Hd Hcomp)). cbn. split; [by rewrite zlength_zset|].
  intros d' comp' Hd' Hcomp'. rewrite occurrences_app, occurrences_one.
  destruct (decide (d' * 4 + comp' = d * 4 + comp)) as [Heq|Hne].
  - assert (d' = d) as -> by lia. assert (comp' = comp) as -> by lia.
    rewrite znth_zset_eq, decide_True by (done || lia). by rewrite u32_add_l.
  - rewrite znth_zset_ne, Hn, decide_False by (done || lia || congruence). by rewrite Z.add_0_r.
Qed.

Lemma seqZ_bind_snoc {A} (f : Z -> list A) j : 0 <= j -> (seqZ 0 (j + 1) ≫= f) = (seqZ 0 j ≫= f) ++ f j.
Proof.
  intros Hj. replace (seqZ 0 (j + 1)) with (seqZ 0 j ++ [j]).
  - rewrite bind_app, bind_cons. cbn [mbind list_bind]. by rewrite app_nil_r.
  - rewrite seqZ_app by lia. by rewrite Z.add_0_l.
Qed.

(** A loop whose body adds, for each index, some items to what it has built. *)
Lemma outcome_for_items {E S A} (T : S -> list A -> Prop) (f : Z -> list A) F n (body : Z -> S -> res E S) s items :
  T s items ->
  (forall j t items, 0 <= j < n -> T t items -> outcome (body j t) (fun t' => T t' (items ++ f j)) F) ->
  outcome (for_loop (Z.to_nat n) 0 body s) (fun t => T t (items ++ (seqZ 0 n ≫= f))) F.
Proof.
  intros Hs Hbody. destruct (Z.le_gt_cases 0 n) as [Hn|Hn].
  2:{ unfold seqZ. replace (Z.to_nat n) with 0%nat by lia. cbn. by rewrite app_nil_r. }
  eapply outcome_mono; [apply outcome_for with (F := F) (I := fun j t => T t (items ++ (seqZ 0 j ≫= f)))| |done].
  - cbn. by rewrite app_nil_r.
  - intros j t Hj Ht. eapply outcome_mono; [apply (Hbody j t _ ltac:(lia) Ht)| |done].
    intros t' Ht'. rewrite seqZ_bind_snoc by lia. by rewrite app_assoc.
  - intros t. by rewrite Z2Nat.id, Z.add_0_l by lia.
Qed.

(** * The uses of a program *)

Section program.
Context (program : USILProgram) (HP : ssa_program_ok program).

Abbreviation count := (up_instruction_count program).

(** The slot and the component of a source lane that reads a temporary. *)
Definition lane_sources (i : Z) (inst : USILInstruction) (k lane : Z) : list (Z * Z) :=
  match usil_instruction_operand_use program inst k, znth (ui_operands inst) k with
  | Ret use, Some o =>
      if bool_decide (ou_use use = USIL_OPERAND_USE_SOURCE) && (op_type o =? OPERAND_TYPE_TEMP) &&
         has_lane (ou_source_lane_mask use) lane
      then match usil_operand_source_component (E:=unit) o lane with
           | Ret source => [(operand_offset i k lane, source)]
           | _ => []
           end
      else []
  | _, _ => []
  end.

Definition operand_sources (i : Z) (inst : USILInstruction) (k : Z) : list (Z * Z) :=
  seqZ 0 4 ≫= lane_sources i inst k.

Definition instruction_sources (i : Z) : list (Z * Z) :=
  match instruction_at (E:=unit) program i with
  | Ret inst => seqZ 0 (ui_operand_count inst) ≫= operand_sources i inst
  | _ => []
  end.

Definition sources : list (Z * Z) := seqZ 0 count ≫= instruction_sources.

Lemma lane_sources_elem i inst k lane x source :
  (x, source) ∈ lane_sources i inst k lane <->
  x = operand_offset i k lane /\ exists reg, reads program inst k lane reg source.
Proof.
  unfold lane_sources. split.
  - destruct (usil_instruction_operand_use _ _ _) as [use| |] eqn:Hu; [|by intros ?%elem_of_nil..].
    destruct (znth _ k) as [o|] eqn:Ho; [|by intros ?%elem_of_nil].
    destruct (_ && _) eqn:Hb; [|by intros ?%elem_of_nil]. bools.
    destruct (usil_operand_source_component _ _) as [c| |] eqn:Hc; [|by intros ?%elem_of_nil..].
    intros [= -> ->]%list_elem_of_singleton. split; [done|]. by exists (op_register_index o), use, o.
  - intros (-> & reg & use & o & -> & -> & Hs & -> & _ & -> & ->).
    rewrite bool_decide_true by done. cbn. left.
Qed.

Lemma sources_elem i inst k lane reg source :
  instruction_in program i inst -> 0 <= i < count -> 0 <= k < ui_operand_count inst -> 0 <= lane < 4 ->
  reads program inst k lane reg source -> (operand_offset i k lane, source) ∈ sources.
Proof.
  intros Hin Hi Hk Hlane Hr. apply list_elem_of_bind. exists i. split; [|by apply elem_of_seqZ; lia].
  unfold instruction_sources. rewrite (instruction_in_at program i inst Hin).
  apply list_elem_of_bind. exists k. split; [|apply elem_of_seqZ; lia].
  apply list_elem_of_bind. exists lane. split; [|apply elem_of_seqZ; lia].
  apply lane_sources_elem. eauto.
Qed.

(** A context whose SSA form can be looked up. *)
Record ssa_ready (c : HLSLEmitterContext) (vars : list Z) (defs : cells) (phis : list HLSLBlockPhis) : Prop := {
  rd_program : ctx_program c = Some program;
  rd_small : count * 32 <= INT_MAX;
  rd_vars : ssa_operand_ssa_vars (ctx_ssa c) = Some vars;
  rd_length : zlength vars = count * 32;
  rd_count : ssa_instruction_count (ctx_ssa c) = count;
  rd_defs : ssa_var_defs (ctx_ssa c) = Some defs;
  rd_named v : 0 <= v < ssa_var_count (ctx_ssa c) -> exists d, znth defs v = Some (Some d) /\ -2 <= d < count;
  rd_phis : ssa_block_phis (ctx_ssa c) = Some phis;
  rd_blocks : 0 <= cfg_block_count (ctx_cfg c);
  rd_phi b : 0 <= b < cfg_block_count (ctx_cfg c) -> exists bp block, znth phis b = Some bp /\
    block_at (E:=unit) (ctx_cfg c) b = Ret block /\ forall phi, phi ∈ bp_phis bp ->
      zlength (phi_incoming_vars phi) = bb_predecessor_count block /\ 0 <= phi_component phi < 4;
}.

Section ready.
Context (c : HLSLEmitterContext) (vars : list Z) (defs : cells) (phis : list HLSLBlockPhis).
Hypothesis (HR : ssa_ready c vars defs phis).

Lemma use_def_count : 0 <= count <= INT_MAX.
Proof.
  pose proof (rd_small _ _ _ _ HR). destruct (sp_program _ HP) as (l & _ & Hl). pose proof (zlength_nonneg l). lia.
Qed.

(** The definition of a variable, and of the one in a slot. *)
Definition variable_names (v : Z) : Z :=
  if (0 <=? v) && (v <? ssa_var_count (ctx_ssa c)) then default HLSL_DEFINITION_UNKNOWN (default None (znth defs v))
  else HLSL_DEFINITION_UNKNOWN.
Definition slot_definition (x : Z) : Z := default HLSL_DEFINITION_UNKNOWN (variable_names <$> znth vars x).

Lemma variable_names_range v : -2 <= variable_names v < count \/ variable_names v = HLSL_DEFINITION_UNKNOWN.
Proof.
  unfold variable_names. destruct (_ && _) eqn:Hb; [|by right]. bools.
  destruct (rd_named _ _ _ _ HR v ltac:(lia)) as (d & -> & Hd). by left.
Qed.

Lemma slot_definition_range x : slot_definition x < 0 \/ 0 <= slot_definition x < count.
Proof.
  unfold slot_definition. destruct (znth vars x) as [v|]; cbn; [|unfold HLSL_DEFINITION_UNKNOWN; lia].
  destruct (variable_names_range v) as [?| ->]; unfold HLSL_DEFINITION_UNKNOWN; lia.
Qed.

Lemma slot_in_range i k lane : 0 <= i < count -> 0 <= k < DXBC_MAX_OPERANDS -> 0 <= lane < 4 ->
  operand_offset i k lane = i * 32 + k * 4 + lane /\ 0 <= operand_offset i k lane < count * 32.
Proof.
  intros Hi Hk Hlane. pose proof (rd_small _ _ _ _ HR). unfold operand_offset, DXBC_MAX_OPERANDS, INT_MAX in *.
  rewrite u64_small by lia. lia.
Qed.

Lemma operand_definition_slot {E} c0 i k lane :
  ctx_ssa c0 = ctx_ssa c -> 0 <= i < count -> 0 <= k < DXBC_MAX_OPERANDS -> 0 <= lane < 4 ->
  hlsl_operand_definition (E:=E) (Some c0) i k lane = Ret (slot_definition (operand_offset i k lane)).
Proof.
  intros Hc Hi Hk Hlane. destruct (slot_in_range i k lane Hi Hk Hlane) as [_ Hr].
  unfold hlsl_operand_definition. rewrite Hc, (rd_vars _ _ _ _ HR), (rd_count _ _ _ _ HR), (rd_defs _ _ _ _ HR).
  rewrite !(proj2 (Z.ltb_ge _ 0)), !(proj2 (Z.leb_gt _ _)), (proj2 (Z.ltb_lt _ _)) by lia. cbn [orb].
  destruct (znth_is_Some vars (operand_offset i k lane)) as [v Hv]; [by rewrite (rd_length _ _ _ _ HR)|].
  unfold slot_definition. rewrite (aget_ok _ _ _ Hv), Hv. cbn [fmap option_fmap option_map default]. mstep. unfold variable_names.
  destruct (_ && _) eqn:Hb; [|done]. bools. destruct (rd_named _ _ _ _ HR v ltac:(lia)) as (d & Hd & _).
  cbn [ptr]. mstep. rewrite Hd. by apply cget_ok.
Qed.

(** * Source lanes *)

Definition slot_use (item : Z * Z) : list use_site :=
  if 0 <=? slot_definition (fst item) then [(slot_definition (fst item), snd item)] else [].

(** The two arrays after some source lanes. *)
Record filled_lanes (graph : list Z * list Z) (items : list (Z * Z)) : Prop := {
  fl_length : zlength (fst graph) = count * 32;
  fl_written x source : (x, source) ∈ items -> znth (fst graph) x = Some (slot_definition x);
  fl_other x : 0 <= x < count * 32 -> (forall source, (x, source) ∉ items) ->
    znth (fst graph) x = Some HLSL_DEFINITION_UNKNOWN;
  fl_counts : tallied count (snd graph) (items ≫= slot_use);
}.

(** One lane more. *)
Lemma filled_lanes_add graph items x source counts :
  filled_lanes graph items -> 0 <= x < count * 32 ->
  tallied count counts ((items ≫= slot_use) ++ slot_use (x, source)) ->
  filled_lanes (zset (fst graph) x (slot_definition x), counts) (items ++ [(x, source)]).
Proof.
  intros [Hl Hw Ho _] Hx Ht. split; cbn [fst snd].
  - by rewrite zlength_zset.
  - intros y s Hy. destruct (decide (y = x)) as [->|Hne]; [by rewrite znth_zset_eq by lia|].
    rewrite znth_zset_ne by done. apply elem_of_app in Hy as [Hy|Hy]; [by eapply Hw|].
    apply list_elem_of_singleton in Hy. congruence.
  - intros y Hy Hno. assert (y <> x).
    { intros ->. apply (Hno source), elem_of_app. right. left. }
    rewrite znth_zset_ne by done. apply Ho; [done|]. intros s Hs. apply (Hno s), elem_of_app. by left.
  - rewrite bind_app. cbn [mbind list_bind]. by rewrite app_nil_r.
Qed.

(** A use, with components for the lanes of a source. *)
Definition operand_usable (inst : USILInstruction) (k : Z) : Prop :=
  exists use o, usil_instruction_operand_use program inst k = Ret use /\ znth (ui_operands inst) k = Some o /\
    (ou_use use = USIL_OPERAND_USE_SOURCE -> op_type o = OPERAND_TYPE_TEMP ->
     forall lane, 0 <= lane < 4 -> has_lane (ou_source_lane_mask use) lane = true ->
     exists source, usil_operand_source_component (E:=unit) o lane = Ret source /\ 0 <= source).

Section operand.
Context (i : Z) (inst : USILInstruction) (Hin : instruction_in program i inst) (Hi : 0 <= i < count).
Context (k : Z) (Hk : 0 <= k < ui_operand_count inst).

Let Hinst : ssa_instruction_ok inst := sp_instruction _ HP i inst Hin.

Lemma use_lane_spec use o lane graph items :
  usil_instruction_operand_use program inst k = Ret use -> znth (ui_operands inst) k = Some o ->
  ou_use use = USIL_OPERAND_USE_SOURCE -> op_type o = OPERAND_TYPE_TEMP -> 0 <= lane < 4 ->
  filled_lanes graph items ->
  outcome (use_lane c count i k o (ou_source_lane_mask use) lane graph)
    (fun graph' => filled_lanes graph' (items ++ lane_sources i inst k lane))
    (fun _ => ~ operand_usable inst k).
Proof.
  intros Hu Ho Huse Ht Hlane HF. unfold use_lane, lane_sources.
  rewrite Hu, Ho, Huse, Ht, bool_decide_true, Z.eqb_refl by done. cbn [andb].
  destruct (has_lane _ lane) eqn:Hm; cbn [negb]; [|by rewrite app_nil_r].
  destruct (operand_in inst Hinst k Hk) as (o' & _ & Ho' & Hok). assert (o' = o) as -> by congruence.
  destruct (source_component_ok o lane Hok) as (source & Hs & Hsr). rewrite !Hs. mstep.
  destruct (Z.ltb_spec source 0) as [Hneg|Hpos].
  { cbn. intros (use' & o' & Hu' & Ho'' & Hall). assert (use' = use) as -> by congruence.
    assert (o' = o) as -> by congruence. destruct (Hall Huse Ht lane Hlane Hm) as (s & Hs' & ?). rewrite Hs in Hs'.
    injection Hs' as ->. lia. }
  pose proof (si_count _ Hinst) as Hcount.
  destruct (slot_in_range i k lane Hi ltac:(lia) Hlane) as [_ Hx].
  unfold lane_definition. change (ctx_ssa (with_graph c count graph)) with (ctx_ssa c). rewrite (rd_vars _ _ _ _ HR). cbn [is_null].
  rewrite operand_definition_slot by (done || lia). mstep.
  rewrite aput_ok by (rewrite (fl_length _ _ HF); lia). mstep.
  set (x := operand_offset i k lane) in *. apply outcome_bind. unfold count_use.
  pose proof use_def_count as Hc. pose proof (fl_counts _ _ HF) as Htal.
  destruct (Z.leb_spec 0 (slot_definition x)) as [Hd|Hd].
  - destruct (slot_definition_range x) as [?|Hd']; [lia|].
    eapply outcome_mono; [apply (tallied_add count); [lia|exact Htal|done|lia]| |done].
    intros counts Hcounts. apply filled_lanes_add; [done|done|]. unfold slot_use. cbn [fst snd].
    by rewrite (proj2 (Z.leb_le _ _)).
  - cbn [outcome]. apply filled_lanes_add; [done|done|]. unfold slot_use. cbn [fst snd].
    rewrite (proj2 (Z.leb_gt _ _)) by done. by rewrite app_nil_r.
Qed.

Lemma operand_sources_none :
  (forall use o, usil_instruction_operand_use program inst k = Ret use -> znth (ui_operands inst) k = Some o ->
     ou_use use = USIL_OPERAND_USE_SOURCE -> op_type o = OPERAND_TYPE_TEMP -> False) ->
  operand_sources i inst k = [].
Proof.
  intros Hno. unfold operand_sources.
  assert (Hlane : forall lane, lane_sources i inst k lane = []).
  { intros lane. unfold lane_sources. destruct (usil_instruction_operand_use _ _ _) as [use| |]; [|done..].
    destruct (znth _ k) as [o|]; [|done]. destruct (_ && _) eqn:Hb; [|done]. bools. exfalso. eauto. }
  induction (seqZ 0 4) as [|lane lanes IH]; [done|]. by rewrite bind_cons, Hlane, IH.
Qed.

Lemma use_operand_spec graph items :
  filled_lanes graph items ->
  outcome (use_operand c program i inst k graph)
    (fun graph' => filled_lanes graph' (items ++ operand_sources i inst k)) (fun _ => ~ operand_usable inst k).
Proof.
  intros HF. unfold use_operand. pose proof (operand_use_defined program HP inst Hinst k) as Hd.
  destruct (usil_instruction_operand_use program inst k) as [use|[]|] eqn:Hu; [|cbn|done].
  2:{ intros (use & o & Hu' & _). congruence. }
  mstep. destruct (operand_in inst Hinst k Hk) as (o & -> & Ho & Hok). mstep.
  destruct (negb _ || negb _) eqn:Hskip.
  - cbn [outcome]. rewrite operand_sources_none; [by rewrite app_nil_r|]. intros use' o' Hu' Ho' Hs Ht.
    assert (use' = use) as -> by congruence. assert (o' = o) as -> by congruence.
    by rewrite Hs, Ht, Z.eqb_refl, bool_decide_true in Hskip by done.
  - apply orb_false_iff in Hskip as [Hs%negb_false_iff%bool_decide_eq_true Ht%negb_false_iff%Z.eqb_eq].
    change 4%nat with (Z.to_nat 4). apply outcome_for_items; [done|]. intros lane t items' Hlane HF'.
    by apply use_lane_spec.
Qed.
End operand.

Definition unusable : Prop := exists i inst k,
  instruction_in program i inst /\ 0 <= k < ui_operand_count inst /\ ~ operand_usable inst k.

Lemma use_instruction_spec i graph items :
  0 <= i < count -> filled_lanes graph items ->
  outcome (use_instruction c program i graph)
    (fun graph' => filled_lanes graph' (items ++ instruction_sources i)) (fun _ => unusable).
Proof.
  intros Hi HF. destruct (instruction_in_exists program HP i Hi) as [inst Hin].
  unfold use_instruction, instruction_sources. rewrite !(instruction_in_at program i inst Hin). mstep.
  apply outcome_for_items; [done|]. intros k t items' Hk HF'.
  eapply outcome_mono; [by apply (use_operand_spec i inst Hin Hi k)|done|].
  intros [] Hno. by exists i, inst, k.
Qed.

Lemma use_instructions_spec :
  outcome (for_loop (Z.to_nat count) 0 (use_instruction c program)
             (filled (u64 (u64 (count * DXBC_MAX_OPERANDS) * 4)) HLSL_DEFINITION_UNKNOWN, filled (count * 4) 0))
    (fun graph => filled_lanes graph sources) (fun _ => unusable).
Proof.
  pose proof use_def_count as Hc. pose proof (rd_small _ _ _ _ HR). unfold INT_MAX, DXBC_MAX_OPERANDS in *.
  rewrite (u64_small (count * 8)), u64_small by lia. replace (count * 8 * 4) with (count * 32) by lia.
  apply (outcome_for_items filled_lanes _ _ _ _ _ []).
  - split; cbn [fst snd]; [apply zlength_filled; lia|by intros x source ?%elem_of_nil| |apply tallied_start; lia].
    intros x Hx _. by apply znth_filled.
  - intros i t items Hi HF. by apply use_instruction_spec.
Qed.

(** * Phi edges *)

Definition edge_uses (phi : HLSLPhiNode) (edge : Z) : list use_site :=
  match znth (phi_incoming_vars phi) edge with
  | Some v => if 0 <=? variable_names v then [(variable_names v, phi_component phi)] else []
  | None => []
  end.

Definition phi_uses (b k : Z) : list use_site :=
  match znth phis b ≫= (fun bp => znth (bp_phis bp) k) with
  | Some phi => seqZ 0 (zlength (phi_incoming_vars phi)) ≫= edge_uses phi
  | None => []
  end.

Definition block_uses (b : Z) : list use_site :=
  match znth phis b with Some bp => seqZ 0 (zlength (bp_phis bp)) ≫= phi_uses b | None => [] end.

Definition merged_uses : list use_site := seqZ 0 (cfg_block_count (ctx_cfg c)) ≫= block_uses.

Lemma count_edge_spec phi edge counts uses :
  0 <= edge < zlength (phi_incoming_vars phi) -> 0 <= phi_component phi < 4 -> tallied count counts uses ->
  outcome (count_edge (ctx_ssa c) count phi edge counts)
    (fun counts' => tallied count counts' (uses ++ edge_uses phi edge)) (fun _ => False).
Proof.
  intros He Hcomp Htal. unfold count_edge, edge_uses. destruct (znth_is_Some _ _ He) as [v Hv].
  rewrite (aget_ok _ _ _ Hv), Hv. mstep. pose proof use_def_count as Hc.
  destruct (_ || _) eqn:Hg.
  - assert (variable_names v = HLSL_DEFINITION_UNKNOWN) as ->.
    { unfold variable_names. apply orb_true_iff in Hg as [Hg%Z.ltb_lt|Hg%Z.leb_le].
      - by rewrite (proj2 (Z.leb_gt 0 v)).
      - by rewrite (proj2 (Z.ltb_ge v _)), andb_false_r. }
    cbn. by rewrite app_nil_r.
  - apply orb_false_iff in Hg as [Hg1%Z.ltb_ge Hg2%Z.leb_gt].
    destruct (rd_named _ _ _ _ HR v ltac:(lia)) as (d & Hd & Hdr). rewrite (rd_defs _ _ _ _ HR). cbn [ptr]. mstep.
    rewrite (cget_ok _ _ _ Hd). mstep.
    assert (variable_names v = d) as ->.
    { unfold variable_names. rewrite (proj2 (Z.leb_le 0 v)), (proj2 (Z.ltb_lt v _)), Hd by lia. done. }
    rewrite (proj2 (Z.ltb_lt d count)), andb_true_r by lia. destruct (Z.leb_spec 0 d).
    + apply tallied_add; [lia|done|lia|done].
    + cbn. by rewrite app_nil_r.
Qed.

Lemma count_block_spec b counts uses :
  0 <= b < cfg_block_count (ctx_cfg c) -> tallied count counts uses ->
  outcome (count_block (ctx_cfg c) (ctx_ssa c) count phis b counts)
    (fun counts' => tallied count counts' (uses ++ block_uses b)) (fun _ => False).
Proof.
  intros Hb Htal. destruct (rd_phi _ _ _ _ HR b Hb) as (bp & block & Hbp & Hblock & Hphis).
  unfold count_block, block_uses. rewrite (aget_ok _ _ _ Hbp), Hbp. mstep.
  apply outcome_for_items; [done|]. intros k t items Hk Ht.
  destruct (znth_is_Some _ _ Hk) as [phi Hphi]. destruct (Hphis phi) as [Hlen Hcomp]; [apply znth_elem_of; eauto|].
  unfold count_phi, phi_uses. rewrite (aget_ok _ _ _ Hphi), Hbp. mstep. rewrite Hblock. mstep. cbn [mbind option_bind].
  rewrite Hphi, <- Hlen. apply outcome_for_items; [done|].
  intros edge t' items' He Ht'. by apply count_edge_spec.
Qed.

(** * The graph *)

(** Every use of a definition: by the source lanes and by the phi edges. *)
Definition all_uses : list use_site := (sources ≫= slot_use) ++ merged_uses.

Section build.
Context `{L : LibcMalloc}.

Lemma fill_use_def_spec :
  outcome (fill_use_def c program (u64 (u64 (count * DXBC_MAX_OPERANDS) * 4)))
    (fun graph => (forall x source, (x, source) ∈ sources -> znth (fst graph) x = Some (slot_definition x)) /\
       tallied count (snd graph) all_uses)
    (fun _ => unusable).
Proof.
  unfold fill_use_def. apply outcome_bind. eapply outcome_mono; [apply use_instructions_spec| |done].
  intros [definitions counts] [_ Hw _ Htal]. rewrite (rd_phis _ _ _ _ HR). apply outcome_bind.
  eapply outcome_mono; [apply (outcome_for_items (tallied count) block_uses (fun _ => False) _ _ _ _ Htal)| |done].
  - intros b t items Hb Ht. by apply count_block_spec.
  - intros counts' Htal'. split; [exact Hw|exact Htal'].
Qed.

Lemma build_use_def_spec {E} : exists ok c',
  build_hlsl_use_def_graph (E:=E) c = Ret (ok, c') /\
  if ok : bool
  then exists graph, c' = with_graph c count graph /\
    (forall x source, (x, source) ∈ sources -> znth (fst graph) x = Some (slot_definition x)) /\
    tallied count (snd graph) all_uses
  else c' = free_hlsl_use_def_graph c /\ (malloc_failed \/ unusable).
Proof.
  pose proof use_def_count as Hc. pose proof (rd_small _ _ _ _ HR) as Hs. unfold INT_MAX in *.
  unfold build_hlsl_use_def_graph. rewrite (rd_program _ _ _ _ HR). cbn [ptr]. mstep.
  destruct (libc_malloc _ && libc_calloc _ _) eqn:Hm; cbn [negb].
  2:{ eexists false, _. split; [done|]. split; [done|]. left. apply andb_false_iff in Hm as [Hm|Hm]; [by eexists|].
      unfold libc_calloc in Hm. rewrite (u64_small (count * 4)), u64_small, Z.eqb_refl in Hm by lia. by eexists. }
  pose proof fill_use_def_spec as Hf. destruct (fill_use_def _ _ _) as [graph|[]|]; cbn in Hf |- *; [|..|done].
  - eexists true, _. split; [done|]. exists graph. by destruct Hf.
  - eexists false, _. by eauto.
Qed.
End build.

Lemma use_count_spec {E} graph d comp : tallied count (snd graph) all_uses -> 0 <= d < count -> 0 <= comp < 4 ->
  hlsl_definition_use_count (E:=E) (Some (with_graph c count graph)) d comp = Ret (u32 (occurrences (d, comp) all_uses)).
Proof.
  intros [_ Ht] Hd Hcomp. pose proof use_def_count as Hc. unfold INT_MAX in *.
  change (ctx_use_def (with_graph c count graph)) with
    {| ud_operand_definitions := Some (fst graph); ud_definition_use_counts := Some (snd graph); ud_instruction_count := count |}.
  unfold hlsl_definition_use_count, with_graph. fields. cbn [ud_definition_use_counts ud_instruction_count].
  rewrite !(proj2 (Z.ltb_ge _ 0)), !(proj2 (Z.leb_gt _ _)) by lia. cbn [orb]. rewrite u64_small by lia.
  by apply aget_ok, Ht.
Qed.
End ready.

(** The uses a context shows. *)
Definition uses_of (c : HLSLEmitterContext) : list use_site :=
  all_uses c (default [] (ssa_operand_ssa_vars (ctx_ssa c))) (default [] (ssa_var_defs (ctx_ssa c)))
    (default [] (ssa_block_phis (ctx_ssa c))).

Lemma uses_of_ready c vars defs phis : ssa_ready c vars defs phis -> uses_of c = all_uses c vars defs phis.
Proof. intros HR. unfold uses_of. by rewrite (rd_vars _ _ _ _ HR), (rd_defs _ _ _ _ HR), (rd_phis _ _ _ _ HR). Qed.
End program.
