(* ===== verification/SsaTheorems.v ===== *)
(** The claims about the SSA form, from the entry points of hlsl_ssa.c and
    hlsl_use_def.c, with a sample program that meets every hypothesis. *)

From S2P Require Import Prelude CArray UnityCommon Heap Operand Instruction Usil SsaGraph Cfg FlowGraph FlowStructure FlowMatch FlowStep FlowTrace CfgAnalysis CfgTheorems UsilValidation UsilValidationSteps UsilValidationCorrect Ssa SsaMeaning SsaMerge SsaInstruction SsaState SsaTraversal SsaCorrect Provenance UseDef.

#[local] Set Warnings "-register-all".

(** [d] is the definition of a register component that reaches instruction [i]
    on every execution; [HLSL_DEFINITION_UNKNOWN] if none does on any; and
    [HLSL_DEFINITION_AMBIGUOUS] if two executions come to [i] after different
    definitions, or one after a definition and one after none. *)
Definition reaches (program : USILProgram) (first end_ reg comp i d : Z) : Prop :=
  (0 <= d /\ forall l, path (op_of program) first end_ first (l ++ [i]) i ->
     latest (defines program reg comp) l = Some d) \/
  (d = HLSL_DEFINITION_UNKNOWN /\ forall l, path (op_of program) first end_ first (l ++ [i]) i ->
     latest (defines program reg comp) l = None) \/
  (d = HLSL_DEFINITION_AMBIGUOUS /\ disagree (op_of program) first end_ (defines program reg comp) i).

Section theorems.
Context `{U : UnityCommon} {HU : UnityCommonSpec U} `{L : LibcMalloc}.
Context (program : USILProgram) (first end_ : Z) (cfg : HLSLControlFlowGraph) (c : HLSLEmitterContext).

Abbreviation op := (op_of program).

(** The renaming runs on a well-formed program with its analysed graph. *)
Record ssa_input : Prop := {
  in_range : range_ok program first end_;
  in_program : ssa_program_ok program;
  in_analysed : analysed program first end_ = Some cfg;
  in_context : ctx_program c = Some program;
  in_cfg : ctx_cfg c = cfg;
}.

Lemma build_ssa_spec : ssa_input -> exists ok c',
  build_hlsl_ssa_graph (E:=Empty_set) (Some c) = Ret (ok, Some c') /\
  if ok : bool
  then c' = c <| ctx_ssa := ctx_ssa c' |> /\ ssa_correct program first end_ cfg (ctx_ssa c') /\
    exists starts G idom, analysed_graph program first end_ cfg starts G idom /\
      built program end_ starts G idom (ctx_ssa c')
  else malloc_failed \/ ssa_too_big program cfg \/ exists i, executed op first end_ i /\ ~ renamable_at program i.
Proof.
  intros [Hok HP Han Hp Hcfg]. destruct (analysed_inv program first end_ cfg Hok Han) as (starts & G & idom & HA).
  unfold build_hlsl_ssa_graph. rewrite Hp, Hcfg.
  pose proof (SsaPlacement.graph_block_count program first end_ cfg starts G idom HA) as Hn.
  pose proof (fg_count_ok G (SsaPlacement.graph_ok program first end_ cfg starts G idom HA)) as Hg.
  pose proof (sp_temps _ HP) as Hr. pose proof (rg_count _ _ _ Hok) as Hc. pose proof (rg_range _ _ _ Hok) as Hrange.
  rewrite !(proj2 (Z.ltb_ge _ _)) by lia. cbn [orb]. rewrite (proj2 (Z.eqb_neq _ _)) by lia. rewrite Hn.
  pose proof (ssa_sizes_spec program first end_ cfg Hok starts G idom HA Hr ltac:(lia)) as Hs.
  destruct (ssa_sizes _ _ _) as [[operand_count max]|] eqn:Hsizes.
  2:{ exists false, c. split; [done|]. right; left. unfold ssa_too_big. by rewrite Hn. }
  pose proof (construct_ssa_spec program first end_ cfg HP Hok starts G idom HA operand_count max Hsizes) as Hspec.
  destruct (construct_ssa program cfg operand_count max) as [ssa|[]|]; cbn in Hspec |- *; [|..|done].
  - eexists true, _. split; [done|]. split; [done|]. split; [by eapply built_correct|]. eauto.
  - eexists false, _. split; [done|]. destruct (failure_executed program first end_ cfg Hok starts G idom HA Hspec); auto.
Qed.

(** C3: on a well-formed program with its analysed graph the construction of
    the SSA form always returns.  It succeeds unless memory runs out, an [int]
    cannot number the variables, or an operand of an instruction that can be
    executed has no valid use; and then, on every execution, the variable of
    each lane a source reads and of each root of a relative index stands for
    what the register component holds, and so does the variable that enters
    each phi from the block execution comes from. *)
Theorem build_hlsl_ssa_graph_correct : ssa_input -> exists ok c',
  build_hlsl_ssa_graph (E:=Empty_set) (Some c) = Ret (ok, Some c') /\
  if ok : bool
  then c' = c <| ctx_ssa := ctx_ssa c' |> /\ ssa_correct program first end_ cfg (ctx_ssa c')
  else malloc_failed \/ ssa_too_big program cfg \/ exists i, executed op first end_ i /\ ~ renamable_at program i.
Proof.
  intros (ok & c' & Hrun & Hres)%build_ssa_spec. exists ok, c'. split; [done|].
  destruct ok; [|done]. by destruct Hres as (? & ? & _).
Qed.

(** * The definition a variable names *)

Lemma stands_reaches ssa reg comp v i :
  ssa_correct program first end_ cfg ssa ->
  (forall l, path op first end_ first (l ++ [i]) i -> stands_for program cfg ssa reg comp v l [i]) ->
  executed op first end_ i -> exists d, reaches program first end_ reg comp i d /\
    ((v = -1 /\ d = HLSL_DEFINITION_UNKNOWN) \/ defined_as ssa v d).
Proof.
  intros Hsc Hall [l Hp]. assert (Hl : exists l0, l = l0 ++ [i]) by (inversion Hp; [by exists []|eauto]).
  destruct Hl as [l0 ->].
  assert (Hfun : forall d d', defined_as ssa v d -> defined_as ssa v d' -> d = d').
  { intros d d' (_ & xs & Hx & Hd) (_ & ys & Hy & Hd'). congruence. }
  assert (Hno : forall d, defined_as ssa (-1) d -> False) by (intros d [? _]; lia).
  destruct (Hall l0 Hp) as [-> _|d Hd Hpos _|b x phi l1 l2 Hd Hphi <- <- _ Hx -> Hno2 Hh].
  - exists HLSL_DEFINITION_UNKNOWN. split; [|by left]. right; left. split; [done|]. intros l Hl.
    destruct (Hall l Hl) as [_ ?|d Hd _ _|b x phi l1 l2 Hd _ _ _ _ _ _ _ _]; [done|exfalso; by eapply Hno..].
  - exists d. split; [|by right]. left. split; [done|]. intros l Hl.
    destruct (Hall l Hl) as [-> _|d' Hd' _ ?|b x phi l1 l2 Hd' _ _ _ _ _ _ _ _].
    + exfalso. by eapply Hno.
    + by rewrite (Hfun d d' Hd Hd').
    + rewrite (Hfun d _ Hd Hd') in Hpos. unfold HLSL_DEFINITION_AMBIGUOUS in Hpos. lia.
  - exists HLSL_DEFINITION_AMBIGUOUS. split; [|by right]. right; right. split; [done|].
    rewrite <- app_assoc in Hp. eapply disagree_later; [by eapply sc_merge|done..].
Qed.

Lemma instruction_bounds i inst : ssa_input -> instruction_in program i inst ->
  0 <= i < up_instruction_count program /\ ui_operand_count inst <= DXBC_MAX_OPERANDS.
Proof.
  intros Hin Hi. pose proof (in_program Hin) as HP. split; [|apply (si_count _ (sp_instruction _ HP i inst Hi))].
  destruct Hi as (xs & Hxs & Hi). destruct (sp_program _ HP) as (ys & Hys & <-). apply znth_Some in Hi. congruence.
Qed.

Lemma named_definition {E} ssa defs v d :
  ssa_var_defs ssa = Some defs -> (v = -1 /\ d = HLSL_DEFINITION_UNKNOWN) \/ defined_as ssa v d ->
  (if (0 <=? v) && (v <? ssa_var_count ssa) then cget (E:=E) defs v else Ret HLSL_DEFINITION_UNKNOWN) = Ret d.
Proof.
  intros Hdefs [[-> ->]|(Hv & defs' & Hdefs' & Hd)]; [done|].
  rewrite (proj2 (Z.leb_le _ _)), (proj2 (Z.ltb_lt _ _)) by lia. cbn [andb].
  assert (defs' = defs) as -> by congruence. by apply cget_ok.
Qed.

(** C4: [hlsl_operand_definition] after the construction: of a lane that reads
    a temporary, in an instruction that can be executed, it names the one
    instruction whose definition every execution reads there, or says that no
    execution has defined the component there, or says that executions
    disagree: two come there with different last definitions. *)
Theorem hlsl_operand_definition_reaches c' i inst k lane reg comp :
  ssa_input -> build_hlsl_ssa_graph (E:=Empty_set) (Some c) = Ret (true, Some c') ->
  executed op first end_ i -> instruction_in program i inst -> 0 <= lane < 4 ->
  reads program inst k lane reg comp -> exists d,
  hlsl_operand_definition (E:=Empty_set) (Some c') i k lane = Ret d /\ reaches program first end_ reg comp i d.
Proof.
  intros Hin Hrun He Hi Hlane Hr. destruct (build_ssa_spec Hin) as (ok & c2 & Hrun2 & Hres).
  rewrite Hrun in Hrun2. injection Hrun2 as <- <-.
  destruct Hres as (_ & Hsc & _ & _ & _ & _ & phis0 & st & max & _ & _ & _ & _ & Hssa).
  destruct (instruction_bounds i inst Hin Hi) as [Hib Hcount]. pose proof (in_program Hin) as HP.
  assert (Hk : 0 <= k < ui_operand_count inst).
  { destruct Hr as (use & _ & Hu & _). pose proof (operand_use_defined program HP inst (sp_instruction _ HP i inst Hi) k) as Hd.
    by rewrite Hu in Hd. }
  assert (Hv : exists v, slot_holds (ssa_operand_ssa_vars (ctx_ssa c')) i k lane v).
  { destruct He as [l Hp]. assert (Hl : exists l0, l = l0 ++ [i]) by (inversion Hp; [by exists []|eauto]).
    destruct Hl as [l0 ->]. destruct (sc_source _ _ _ _ _ Hsc l0 i inst k lane reg comp) as (v & Hv & _); eauto. }
  destruct Hv as [v Hslot]. destruct (stands_reaches (ctx_ssa c') reg comp v i) as (d & Hreach & Hd); [done| |done|].
  { intros l Hl. destruct (sc_source _ _ _ _ _ Hsc l i inst k lane reg comp) as (v' & Hv' & Hst); [done..|].
    destruct Hslot as (xs & Hxs & Hx), Hv' as (ys & Hys & Hy). by assert (v' = v) as -> by congruence. }
  exists d. split; [|done]. destruct Hslot as (xs & Hxs & Hx). unfold hlsl_operand_definition.
  rewrite !(proj2 (Z.ltb_ge _ 0)), !(proj2 (Z.leb_gt _ _)) by lia. cbn [orb].
  rewrite Hxs, (sc_count _ _ _ _ _ Hsc), (proj2 (Z.ltb_lt _ _)) by lia. rewrite (aget_ok _ _ _ Hx). mstep.
  rewrite Hssa in Hd |- *. cbn [graph_of ssa_var_defs ssa_var_count ptr]. mstep.
  exact (named_definition (graph_of program st) (rn_defs st) v d eq_refl Hd).
Qed.

(** And [hlsl_relative_operand_definition] names the definition of the
    scalar temporary that indexes a dimension of an operand. *)
Theorem hlsl_relative_operand_definition_reaches c' i inst k dimension reg comp :
  ssa_input -> build_hlsl_ssa_graph (E:=Empty_set) (Some c) = Ret (true, Some c') ->
  executed op first end_ i -> instruction_in program i inst -> 0 <= k < ui_operand_count inst -> 0 <= dimension < 3 ->
  indexes program inst k dimension reg comp -> exists d,
  hlsl_relative_operand_definition (E:=Empty_set) (Some c') i k dimension = Ret d /\
  reaches program first end_ reg comp i d.
Proof.
  intros Hin Hrun He Hi Hk Hdim Hr. destruct (build_ssa_spec Hin) as (ok & c2 & Hrun2 & Hres).
  rewrite Hrun in Hrun2. injection Hrun2 as <- <-.
  destruct Hres as (_ & Hsc & _ & _ & _ & _ & phis0 & st & max & _ & _ & _ & _ & Hssa).
  destruct (instruction_bounds i inst Hin Hi) as [Hib Hcount].
  assert (Hv : exists v, slot_holds (ssa_relative_operand_ssa_vars (ctx_ssa c')) i k dimension v).
  { destruct He as [l Hp]. assert (Hl : exists l0, l = l0 ++ [i]) by (inversion Hp; [by exists []|eauto]).
    destruct Hl as [l0 ->]. destruct (sc_root _ _ _ _ _ Hsc l0 i inst k dimension reg comp) as (v & Hv & _); eauto. }
  destruct Hv as [v Hslot]. destruct (stands_reaches (ctx_ssa c') reg comp v i) as (d & Hreach & Hd); [done| |done|].
  { intros l Hl. destruct (sc_root _ _ _ _ _ Hsc l i inst k dimension reg comp) as (v' & Hv' & Hst); [done..|].
    destruct Hslot as (xs & Hxs & Hx), Hv' as (ys & Hys & Hy). by assert (v' = v) as -> by congruence. }
  exists d. split; [|done]. destruct Hslot as (xs & Hxs & Hx). unfold hlsl_relative_operand_definition.
  rewrite !(proj2 (Z.ltb_ge _ 0)), (sc_count _ _ _ _ _ Hsc), !(proj2 (Z.leb_gt _ _)) by lia. cbn [orb].
  rewrite Hssa in Hxs, Hd |- *. cbn [graph_of ssa_relative_operand_ssa_vars ssa_var_defs] in Hxs |- *.
  injection Hxs as ->. rewrite (aget_ok _ _ _ Hx). mstep.
  exact (named_definition (graph_of program st) (rn_defs st) v d eq_refl Hd).
Qed.
End theorems.

(** * The hypotheses hold of a sample *)

Section sample.
#[local] Existing Instance unity_common_ref.
#[local] Existing Instance unity_common_ref_spec.
#[local] Existing Instance ample_memory.

Definition temp_destination (reg : Z) : DXBCOperand :=
  (indexed_operand OPERAND_TYPE_TEMP reg) <| op_destination_mask := 0x10 |>.
Definition temp_source (reg : Z) : DXBCOperand := (indexed_operand OPERAND_TYPE_TEMP reg) <| op_swizzle_mode := 2 |>.
Definition immediate_source : DXBCOperand :=
  zero_operand <| op_type := OPERAND_TYPE_IMMEDIATE32 |> <| op_imm_value_count := 1 |> <| op_immediate_word_count := 1 |>.
Definition relative_source : DXBCOperand :=
  (indexed_operand 1 0) <| op_swizzle_mode := 2 |> <| op_rel_op0 := Some (temp_source 1) |>.

(** [r0.x] is set, set again under a condition, and then read. *)
Definition ssa_sample : USILProgram := plain_program 3 [
  plain_instruction USIL_OP_MOV [temp_destination 0; immediate_source];
  plain_instruction USIL_OP_IF [temp_source 0];
  plain_instruction USIL_OP_MOV [temp_destination 0; immediate_source];
  plain_instruction USIL_OP_ENDIF [];
  plain_instruction USIL_OP_MOV [temp_destination 1; temp_source 0];
  plain_instruction USIL_OP_MOV [temp_destination 2; temp_source 1];
  plain_instruction USIL_OP_MOV [temp_destination 2; relative_source];
  plain_instruction USIL_OP_RET []].

Definition ssa_sample_cfg : HLSLControlFlowGraph := default zero_cfg (analysed ssa_sample 0 8).
Definition ssa_sample_context : HLSLEmitterContext := emitter_context ssa_sample ssa_sample_cfg.

Lemma plain_instruction_ok opcode operands :
  zlength operands <= DXBC_MAX_OPERANDS -> Forall operand_ok operands ->
  (forall o d r, o ∈ operands -> operand_root o d = Some r -> operand_ok r) ->
  ssa_instruction_ok (plain_instruction opcode operands).
Proof.
  unfold DXBC_MAX_OPERANDS, zlength. intros Hn Ho Hr.
  assert (Hzero : operand_ok zero_operand) by by repeat constructor. split.
  - split; cbn; [done|done| |].
    + unfold zlength. rewrite length_app, length_replicate. unfold DXBC_MAX_OPERANDS. lia.
    + apply list.Forall_app. split; [done|]. apply list.Forall_replicate. done.
  - cbn. done.
  - cbn. intros k o d r Hk Hroot. assert (Hin : o ∈ operands ++ replicate (Z.to_nat DXBC_MAX_OPERANDS - length operands) zero_operand)
      by (apply znth_elem_of; eauto).
    apply elem_of_app in Hin as [Hin|Hin]; [by eapply Hr|]. apply elem_of_replicate in Hin as [-> _].
    unfold operand_root in Hroot. cbn in Hroot. by repeat destruct (_ =? _).
Qed.

Lemma ssa_sample_ok : ssa_program_ok ssa_sample.
Proof.
  split.
  - by eexists.
  - by constructor.
  - intros i inst (l & Hl & Hi). injection Hl as <-.
    assert (Hin : inst ∈ default [] (up_instructions ssa_sample)) by (apply znth_elem_of; eauto). clear Hi i.
    cbn in Hin. rename Hin into Hi.
    repeat (apply elem_of_cons in Hi as [->|Hi]); [..|by apply not_elem_of_nil in Hi].
    all: apply plain_instruction_ok; [by vm_compute|by repeat constructor|].
    all: intros o d r Ho Hroot; unfold operand_root in Hroot.
    all: repeat (apply elem_of_cons in Ho as [->|Ho]); try by apply not_elem_of_nil in Ho.
    all: cbn in Hroot; repeat destruct (_ =? _); simplify_eq; by repeat constructor.
  - by vm_compute.
Qed.
Lemma ssa_sample_analysed : analysed ssa_sample 0 8 = Some ssa_sample_cfg.
Proof. by vm_compute. Qed.

Lemma ssa_sample_input : ssa_input ssa_sample 0 8 ssa_sample_cfg ssa_sample_context.
Proof.
  split; [|exact ssa_sample_ok|exact ssa_sample_analysed|done|done].
  split; [exact (sp_program _ ssa_sample_ok)|by vm_compute|by vm_compute].
Qed.

(** Through the condition. *)
Lemma ssa_sample_executed i : 0 <= i <= 6 -> executed (op_of ssa_sample) 0 8 i.
Proof.
  assert (Hstep : forall j, j ∈ [0; 1; 2; 3; 4; 5] -> executed (op_of ssa_sample) 0 8 j -> executed (op_of ssa_sample) 0 8 (j + 1)).
  { intros j Hj [l Hl]. exists (l ++ [j + 1]). eapply path_step; [exact Hl| |].
    - apply step_next. by repeat (apply elem_of_cons in Hj as [->|Hj]; [vm_compute; reflexivity|]);
        apply not_elem_of_nil in Hj.
    - repeat (apply elem_of_cons in Hj as [->|Hj]; [lia|]). by apply not_elem_of_nil in Hj. }
  intros Hi. assert (H0 : executed (op_of ssa_sample) 0 8 0) by (exists [0]; constructor).
  assert (Hcase : i = 0 \/ i = 0 + 1 \/ i = 0 + 1 + 1 \/ i = 0 + 1 + 1 + 1 \/ i = 0 + 1 + 1 + 1 + 1 \/
    i = 0 + 1 + 1 + 1 + 1 + 1 \/ i = 0 + 1 + 1 + 1 + 1 + 1 + 1) by lia.
  repeat destruct Hcase as [->|Hcase]; try subst i.
  all: repeat (first [exact H0|apply Hstep; [by apply (bool_decide_unpack _); vm_compute|]]).
Qed.

Definition ssa_sample_built : HLSLEmitterContext :=
  match build_hlsl_ssa_graph (E:=Empty_set) (Some ssa_sample_context) with
  | Ret (true, Some c) => c
  | _ => ssa_sample_context
  end.

Lemma ssa_sample_builds :
  build_hlsl_ssa_graph (E:=Empty_set) (Some ssa_sample_context) = Ret (true, Some ssa_sample_built).
Proof. by vm_compute. Qed.

Lemma built_pair {E A B} (a a' : A) (b b' : B) : @Ret E _ (a, Some b) = Ret (a', Some b') -> a = a' /\ b = b'.
Proof. by intros [= -> ->]. Qed.

Lemma build_hlsl_ssa_graph_correct_witness :
  ssa_input ssa_sample 0 8 ssa_sample_cfg ssa_sample_context /\
  ssa_correct ssa_sample 0 8 ssa_sample_cfg (ctx_ssa ssa_sample_built).
Proof.
  split; [exact ssa_sample_input|].
  destruct (build_hlsl_ssa_graph_correct ssa_sample 0 8 ssa_sample_cfg ssa_sample_context ssa_sample_input)
    as (ok & c' & Hrun & Hres).
  rewrite ssa_sample_builds in Hrun. apply built_pair in Hrun as [<- <-]. exact (proj2 Hres).
Defined.

Lemma ssa_sample_instruction i inst :
  znth (default [] (up_instructions ssa_sample)) i = Some inst -> instruction_in ssa_sample i inst.
Proof. intros Hi. exists (default [] (up_instructions ssa_sample)). by split. Qed.

(** The source of instruction 5 reads what instruction 4 defines. *)
Lemma hlsl_operand_definition_reaches_witness :
  reaches ssa_sample 0 8 1 0 5 4.
Proof.
  destruct (hlsl_operand_definition_reaches ssa_sample 0 8 ssa_sample_cfg ssa_sample_context ssa_sample_built 5
    (plain_instruction USIL_OP_MOV [temp_destination 2; temp_source 1]) 1 0 1 0 ssa_sample_input ssa_sample_builds)
    as (d & Hd & Hr).
  - apply ssa_sample_executed. lia.
  - by apply ssa_sample_instruction.
  - lia.
  - eexists _, _. split; [by vm_compute|]. split; [reflexivity|]. by repeat split; vm_compute.
  - vm_compute in Hd. injection Hd as <-. exact Hr.
Defined.

(** And so does the index of instruction 6. *)
Lemma hlsl_relative_operand_definition_reaches_witness :
  reaches ssa_sample 0 8 1 0 6 4.
Proof.
  destruct (hlsl_relative_operand_definition_reaches ssa_sample 0 8 ssa_sample_cfg ssa_sample_context ssa_sample_built 6
    (plain_instruction USIL_OP_MOV [temp_destination 2; relative_source]) 1 0 1 0 ssa_sample_input ssa_sample_builds)
    as (d & Hd & Hr).
  - apply ssa_sample_executed. lia.
  - by apply ssa_sample_instruction.
  - by vm_compute.
  - lia.
  - eexists. split; [reflexivity|]. by vm_compute.
  - vm_compute in Hd. injection Hd as <-. exact Hr.
Defined.
End sample.
