(* ===== verification/ProvenanceTheorems.v ===== *)
(** The claims about hlsl_provenance.c, from its entry points, with the sample
    program of the SSA form. *)

From S2P Require Import Prelude CArray UnityCommon Heap Operand Instruction Usil SsaGraph Cfg FlowGraph FlowStructure FlowMatch FlowStep CfgBuild FlowTrace CfgAnalysis CfgTheorems UsilValidation UsilValidationSteps Ssa SsaMeaning SsaInstruction SsaCorrect Provenance SsaTheorems.

#[local] Set Warnings "-register-all".

Lemma path_last op first end_ a l i : path op first end_ a l i -> exists l0, l = l0 ++ [i].
Proof. destruct 1; [by exists []|eauto]. Qed.

(** An execution that arrives over a straight path has just run along it. *)
Lemma straight_arrival program first end_ a b l :
  straight_path program first end_ a b ->
  (forall l i, path (op_of program) first end_ first l i -> forall d, d ∈ l -> first <= d < end_) ->
  first <= a <= b -> path (op_of program) first end_ first (l ++ [b]) b ->
  exists l0, l = l0 ++ seqZ a (b - a) /\ path (op_of program) first end_ first (l0 ++ [a]) a.
Proof.
  intros Hpred Hrange Hab. replace b with (a + Z.of_nat (Z.to_nat (b - a))) in * by lia.
  replace (a + Z.of_nat (Z.to_nat (b - a)) - a) with (Z.of_nat (Z.to_nat (b - a))) by lia.
  revert l. induction (Z.to_nat (b - a)) as [|n IH]; intros l Hp.
  - exists l. rewrite Z.add_0_r in Hp. by rewrite app_nil_r.
  - replace (a + Z.of_nat (S n)) with (a + Z.of_nat n + 1) in * by lia.
    remember (l ++ [a + Z.of_nat n + 1]) as l1 eqn:Hl1. remember (a + Z.of_nat n + 1) as t eqn:Ht1.
    destruct Hp as [|l' i t Hp' Hstep Ht]; [lia|]. subst t. apply app_inj_2 in Hl1 as [-> _]; [|done].
    destruct (path_last _ _ _ _ _ _ Hp') as [l1 ->].
    assert (Hi : first <= i < end_) by (apply (Hrange _ _ Hp'), elem_of_app; right; left).
    apply (proj2 (Hpred (a + Z.of_nat n) ltac:(lia)) i Hi) in Hstep. subst i.
    destruct (IH ltac:(intros k Hk; apply Hpred; lia) ltac:(lia) l1 Hp') as (l0 & -> & Ha). exists l0. split; [|done].
    rewrite <- app_assoc. f_equal. replace (Z.of_nat (S n)) with (Z.of_nat n + 1) by lia.
    rewrite seqZ_app by lia. done.
Qed.

Lemma latest_app_none D l l' : (forall j, j ∈ l' -> D j = false) -> latest D (l ++ l') = latest D l.
Proof.
  induction l' as [|j l' IH] using rev_ind; intros Hno; [by rewrite app_nil_r|].
  rewrite app_assoc, latest_snoc, (Hno j) by (apply elem_of_app; right; left).
  apply IH. intros i Hi. apply Hno, elem_of_app. by left.
Qed.

Section theorems.
Context `{U : UnityCommon} {HU : UnityCommonSpec U} `{L : LibcMalloc}.
Context (program : USILProgram) (c : HLSLEmitterContext).

Abbreviation count := (up_instruction_count program).

(** The scan runs on a well-formed program. *)
Record scan_input : Prop := {
  sc_program : ssa_program_ok program;
  sc_int : count <= INT_MAX;
  sc_context : ctx_program c = Some program;
}.

(** C12: on a well-formed program the scan always returns.  It succeeds unless
    memory runs out or an operand has no valid use or is a temporary beyond the
    declared ones.  Then [get_component_provenance] has, for every state and
    register component and for nothing else, the last definition of the component
    in textual order and a root: however the instructions compute, as long as
    they change only what they define and plain copies copy, the component holds
    what its root did right after it was set. *)
Theorem build_component_provenance_correct : scan_input -> exists ok c',
  build_component_provenance (E:=Empty_set) c = Ret (ok, c') /\
  if ok : bool
  then all_scannable program /\ forall s reg comp,
    exists p, get_component_provenance (E:=Empty_set) (Some c') s reg comp = Ret p /\
      match p with
      | Some p => 0 <= s <= count /\ in_state program reg comp /\ entry_ok program s reg comp p
      | None => ~ (0 <= s <= count /\ in_state program reg comp)
      end
  else ctx_component_provenance c' = None /\ (provenance_allocated program = false \/ some_rejected program).
Proof.
  intros [HP Hc Hctx]. destruct (build_provenance_spec program HP Hc (E:=Empty_set) c Hctx) as (ok & c' & -> & _ & Hres).
  exists ok, c'. split; [done|]. destruct ok; [|done]. destruct Hres as [Hb Hall]. split; [done|]. intros s reg comp.
  destruct (get_component_provenance_spec program HP Hc (E:=Empty_set) c' s reg comp Hb)
    as [(? & ? & p & values & _ & -> & Hok & _)|[? ->]]; eexists; (split; [done|]); done.
Qed.

Context (first end_ : Z) (cfg : HLSLControlFlowGraph).

(** No instruction between the two states defines the component. *)
Definition undefined_between (reg comp s t : Z) : Prop :=
  forall j, Z.min s t <= j < Z.max s t -> defines program reg comp j = false.

(** What [component_value_unchanged] compares. *)
Definition same_origin (p q : HLSLComponentProvenance) : bool :=
  (cp_definition_instruction p =? cp_definition_instruction q) && (cp_root_instruction p =? cp_root_instruction q) &&
  (cp_root_register p =? cp_root_register q) && (cp_root_component p =? cp_root_component q).

Lemma same_origin_comm p q : same_origin p q = same_origin q p.
Proof. unfold same_origin. by rewrite (Z.eqb_sym (cp_definition_instruction p)), (Z.eqb_sym (cp_root_instruction p)),
  (Z.eqb_sym (cp_root_register p)), (Z.eqb_sym (cp_root_component p)). Qed.

(** The entries of two states are the same when nothing defines the component
    in between, and only then. *)
Lemma entries_agree_le values s t reg comp p q : scan_input -> scanned program values ->
  in_state program reg comp -> 0 <= s <= t -> t <= count ->
  znth values (place program s reg comp) = Some p -> znth values (place program t reg comp) = Some q ->
  entry_ok program s reg comp p -> entry_ok program t reg comp q ->
  same_origin p q = true <-> undefined_between reg comp s t.
Proof.
  intros [HP Hc _] Hsn Hr Hs Ht Hp Hq Hpo Hqo. unfold same_origin, undefined_between.
  rewrite Z.min_l, Z.max_r by lia. split.
  - intros Heq. bools. apply (latest_split program reg comp s t (cp_definition_instruction q)); [lia|done| |].
    + by rewrite <- (en_definition _ _ _ _ _ Hqo).
    + replace (cp_definition_instruction q) with (cp_definition_instruction p) by lia.
      rewrite (en_definition _ _ _ _ _ Hpo). destruct (latest _ _) as [d|] eqn:Hl; cbn; [|lia].
      apply latest_in, elem_of_seqZ in Hl. lia.
  - intros Hno. rewrite (scanned_same program values s t) in Hq by (done || lia).
    assert (q = p) as -> by congruence. by rewrite !Z.eqb_refl.
Qed.

Lemma entries_agree values s t reg comp p q : scan_input -> scanned program values ->
  in_state program reg comp -> 0 <= s <= count -> 0 <= t <= count ->
  znth values (place program s reg comp) = Some p -> znth values (place program t reg comp) = Some q ->
  entry_ok program s reg comp p -> entry_ok program t reg comp q ->
  same_origin p q = true <-> undefined_between reg comp s t.
Proof.
  intros Hin Hsn Hr Hs Ht Hp Hq Hpo Hqo. destruct (Z.le_ge_cases s t).
  - apply (entries_agree_le values); done || lia.
  - rewrite same_origin_comm. unfold undefined_between. rewrite Z.min_comm, Z.max_comm.
    apply (entries_agree_le values); done || lia.
Qed.

(** The instruction a state is before, or the last one. *)
Definition clamped (s : Z) : Z := if s <? count then s else count - 1.

Lemma component_value_unchanged_spec {E} c' reg comp s t straight :
  scan_input -> provenance_built program c' -> ctx_cfg c' = cfg ->
  instructions_have_unambiguous_path (E:=E) program cfg (clamped s) (clamped t) = Ret straight ->
  exists yes, component_value_unchanged (E:=E) c' reg comp s t = Ret yes /\
    (yes = true <-> straight = true /\ 0 <= s <= count /\ 0 <= t <= count /\ in_state program reg comp /\
       undefined_between reg comp s t).
Proof.
  intros Hin Hb Hcfg Hpath. pose proof Hin as [HP Hc _]. unfold component_value_unchanged.
  pose proof Hb as (Hp & _ & values & Hv & Hsn). rewrite Hp, Hcfg.
  destruct (get_component_provenance_spec program HP Hc (E:=E) c' s reg comp Hb)
    as [(Hs & Hr & p & values1 & Hv1 & -> & Hpo & Hpl)|[Hno ->]]; mstep.
  2:{ destruct (get_component_provenance_spec program HP Hc (E:=E) c' t reg comp Hb) as [(_ & _ & q & _ & _ & -> & _)|[_ ->]];
      mstep; exists false; (split; [done|]); (split; [done|]); intros (_ & ? & _ & ? & _); tauto. }
  destruct (get_component_provenance_spec program HP Hc (E:=E) c' t reg comp Hb)
    as [(Ht & _ & q & values2 & Hv2 & -> & Hqo & Hql)|[Hno ->]]; mstep.
  2:{ exists false. split; [done|]. split; [done|]. intros (_ & _ & ? & ? & _). tauto. }
  cbn [ptr]. mstep. fold (clamped s) (clamped t). rewrite Hpath. mstep. eexists. split; [done|].
  rewrite <- !andb_assoc, andb_true_iff, !andb_assoc. fold (same_origin p q).
  assert (values1 = values) as -> by congruence. assert (values2 = values) as -> by congruence.
  rewrite (entries_agree values s t reg comp p q) by done. tauto.
Qed.

(** C13: after a scan, [component_value_unchanged] always answers, and says yes
    exactly when the path between the two states is straight and no instruction
    between them defines the component; every execution that comes to the second
    one has then just come from the first, along instructions that leave the
    component alone. *)
Theorem component_value_unchanged_correct c' reg comp s t :
  scan_input -> build_component_provenance (E:=Empty_set) c = Ret (true, c') ->
  range_ok program first end_ -> analysed program first end_ = Some cfg -> ctx_cfg c = cfg ->
  exists straight yes,
  instructions_have_unambiguous_path (E:=Empty_set) program cfg (clamped s) (clamped t) = Ret straight /\
  component_value_unchanged (E:=Empty_set) c' reg comp s t = Ret yes /\
  (yes = true <-> straight = true /\ 0 <= s <= count /\ 0 <= t <= count /\ in_state program reg comp /\
     undefined_between reg comp s t) /\
  (yes = true -> forall l, path (op_of program) first end_ first (l ++ [clamped t]) (clamped t) ->
     exists l0, l = l0 ++ seqZ (clamped s) (clamped t - clamped s) /\
       path (op_of program) first end_ first (l0 ++ [clamped s]) (clamped s) /\
       latest (defines program reg comp) l = latest (defines program reg comp) l0).
Proof.
  intros Hin Hrun Hok Han Hcfg. pose proof Hin as [HP Hc Hctx].
  destruct (build_provenance_spec program HP Hc (E:=Empty_set) c Hctx) as (ok & c2 & Hrun2 & Hc2 & Hres).
  rewrite Hrun in Hrun2. injection Hrun2 as <- <-. destruct Hres as [Hb _].
  assert (Hcfg' : ctx_cfg c' = cfg) by (by rewrite Hc2).
  destruct (analysed_inv program first end_ cfg Hok Han) as (starts & G & idom & HA).
  assert (Hpath : exists straight, instructions_have_unambiguous_path (E:=Empty_set) program cfg (clamped s) (clamped t) =
    Ret straight /\ (straight = true -> first <= clamped s <= clamped t /\ clamped t < end_ /\
      straight_path program first end_ (clamped s) (clamped t))).
  { destruct HA as [Hst (cfg0 & fs & cs & HB & _ & ->) _]. destruct Hok as [_ Hr _].
    exact (unambiguous_path_spec program first end_ Hr cfg0 starts G Hst HB (E:=Empty_set) _ _). }
  destruct Hpath as (straight & Hpath & Hstraight). exists straight.
  destruct (component_value_unchanged_spec c' reg comp s t straight Hin Hb Hcfg' Hpath) as (yes & Hans & Hyes).
  exists yes. split_and!; [done|done|done|]. intros Hy l Hl.
  apply Hyes in Hy as (Hs & Hs0 & Ht & Hr & Hno). destruct (Hstraight Hs) as (Hab & Hbe & Hsp).
  destruct (straight_arrival program first end_ _ _ l Hsp (path_range program first end_ cfg Hok starts G idom HA) Hab Hl)
    as (l0 & -> & Hl0). exists l0. split_and!; [done|done|].
  apply latest_app_none. intros j Hj%elem_of_seqZ. apply Hno. unfold clamped in *.
  destruct (Z.ltb_spec s count), (Z.ltb_spec t count); lia.
Qed.
End theorems.

(** * The hypotheses hold of the sample *)

Section sample.
#[local] Existing Instance unity_common_ref.
#[local] Existing Instance unity_common_ref_spec.
#[local] Existing Instance ample_memory.

Lemma ssa_sample_scan_input : scan_input ssa_sample ssa_sample_context.
Proof. split; [exact ssa_sample_ok|by vm_compute|done]. Qed.

Definition scanned_sample : HLSLEmitterContext :=
  match build_component_provenance (E:=Empty_set) ssa_sample_context with
  | Ret (true, c) => c
  | _ => ssa_sample_context
  end.

Lemma ssa_sample_scans : build_component_provenance (E:=Empty_set) ssa_sample_context = Ret (true, scanned_sample).
Proof. by vm_compute. Qed.

Lemma scanned_pair {E A B} (a a' : A) (b b' : B) : @Ret E _ (a, b) = Ret (a', b') -> a = a' /\ b = b'.
Proof. by intros [= -> ->]. Qed.

(** Before instruction 6, [r2.x] is a copy of a copy of what instruction 2 put
    into [r0.x]. *)
Lemma build_component_provenance_correct_witness :
  scan_input ssa_sample ssa_sample_context /\
  exists p, entry_ok ssa_sample 6 2 0 p /\ cp_definition_instruction p = 5 /\
    cp_root_instruction p = 2 /\ cp_root_register p = 0 /\ cp_root_component p = 0.
Proof.
  split; [exact ssa_sample_scan_input|].
  destruct (build_component_provenance_correct ssa_sample ssa_sample_context ssa_sample_scan_input) as (ok & c' & Hrun & Hres).
  rewrite ssa_sample_scans in Hrun. apply scanned_pair in Hrun as [<- <-]. destruct Hres as [_ Hat]. destruct (Hat 6 2 0) as (p & Hp & Hok).
  vm_compute in Hp. injection Hp as <-. destruct Hok as (_ & _ & Hok). eexists. split; [exact Hok|]. by vm_compute.
Defined.

(** From state 5 to state 6 the path is straight: [r1.x] is unchanged, and
    [r2.x] is not. *)
Lemma component_value_unchanged_correct_witness :
  undefined_between ssa_sample 1 0 5 6 /\ ~ undefined_between ssa_sample 2 0 5 6.
Proof.
  split.
  - destruct (component_value_unchanged_correct ssa_sample ssa_sample_context 0 8 ssa_sample_cfg scanned_sample 1 0 5 6)
      as (straight & yes & Hs & Hy & Hiff & _);
      [exact ssa_sample_scan_input|exact ssa_sample_scans|exact (in_range _ _ _ _ _ ssa_sample_input)|exact ssa_sample_analysed|done|].
    vm_compute in Hy. injection Hy as <-. by apply Hiff.
  - destruct (component_value_unchanged_correct ssa_sample ssa_sample_context 0 8 ssa_sample_cfg scanned_sample 2 0 5 6)
      as (straight & yes & Hs & Hy & Hiff & _);
      [exact ssa_sample_scan_input|exact ssa_sample_scans|exact (in_range _ _ _ _ _ ssa_sample_input)|exact ssa_sample_analysed|done|].
    vm_compute in Hy. injection Hy as <-. vm_compute in Hs. injection Hs as <-. intros Hno.
    enough (false = true) by done. apply Hiff. split_and!; try done.
Defined.
End sample.
