(* ===== verification/UseDefTheorems.v ===== *)
(** The claims about hlsl_use_def.c over the SSA form, from its entry points,
    with the sample program of the SSA form. *)

From S2P Require Import Prelude CArray UnityCommon Heap Operand Instruction Usil SsaGraph Cfg FlowGraph FlowStructure FlowMatch FlowStep FlowTrace CfgAnalysis CfgTheorems UsilValidation UsilValidationSteps Ssa SsaMeaning SsaInstruction SsaPlacement SsaState SsaBlock SsaCorrect Provenance UseDef SsaTheorems.

#[local] Set Warnings "-register-all".

(** Where an execution was before it came to an instruction. *)
Lemma path_prefix op first end_ l1 x l2 i : path op first end_ first (l1 ++ x :: l2) i ->
  l1 = [] \/ exists j, path op first end_ first l1 j /\ flow_step op first j x /\ x < end_.
Proof.
  intros Hp. remember (l1 ++ x :: l2) as l eqn:Hl. revert l1 x l2 Hl.
  induction Hp as [|l i t Hp IH Hs Ht]; intros l1 x l2 Hl.
  - left. destruct l1 as [|y l1]; [done|]. injection Hl as _ Hl. by destruct l1.
  - destruct l2 as [|y l2 _] using rev_ind.
    + apply app_inj_2 in Hl as [-> Hx]; [|done]. injection Hx as ->. right. by exists i.
    + change (l1 ++ x :: l2 ++ [y]) with (l1 ++ (x :: l2) ++ [y]) in Hl. rewrite app_assoc in Hl.
      apply app_inj_2 in Hl as [-> _]; [|done]. by apply (IH l1 x l2).
Qed.

Section theorems.
Context `{U : UnityCommon} {HU : UnityCommonSpec U} `{L : LibcMalloc}.
Context (program : USILProgram) (first end_ : Z) (cfg : HLSLControlFlowGraph) (c : HLSLEmitterContext).

Abbreviation op := (op_of program).
Abbreviation count := (up_instruction_count program).

Lemma built_ready c' starts G idom : ssa_input program first end_ cfg c ->
  c' = c <| ctx_ssa := ctx_ssa c' |> -> analysed_graph program first end_ cfg starts G idom ->
  built program end_ starts G idom (ctx_ssa c') -> exists vars defs phis, ssa_ready program c' vars defs phis.
Proof.
  intros [Hok HP _ Hp Hcfg] Hc' HA (phis0 & st & max & Hplaced & Hslots & Hst & _ & Hssa).
  exists (rn_vars st), (rn_defs st), (rn_phis st).
  pose proof (graph_block_count program first end_ cfg starts G idom HA) as Hn.
  pose proof (fg_count_ok G (graph_ok program first end_ cfg starts G idom HA)) as Hg.
  assert (Hcfg' : ctx_cfg c' = cfg) by (by rewrite Hc').
  split; rewrite ?Hssa; cbn [graph_of ssa_operand_ssa_vars ssa_instruction_count ssa_var_defs ssa_var_count ssa_block_phis];
    try done.
  - by rewrite Hc'.
  - apply (ro_vars _ _ _ _ _ Hst).
  - intros v Hv. destruct (ro_named _ _ _ _ _ Hst v Hv) as (d & Hd & Hdo). exists d. split; [done|].
    pose proof (rg_range _ _ _ Hok). unfold definition_ok, HLSL_DEFINITION_AMBIGUOUS in Hdo. lia.
  - rewrite Hcfg'. lia.
  - intros b Hb. rewrite Hcfg', Hn in Hb.
    destruct (rp_block _ _ (analysed_represents _ _ _ _ _ _ _ HA) b Hb) as (block & Hblock & Hbr).
    destruct (znth_is_Some (rn_phis st) b) as [bp Hbp].
    { rewrite (pr_length _ _ _ (ro_phis _ _ _ _ _ Hst)), (pc_length _ _ _ _ _ _ Hplaced). done. }
    exists bp, block. split; [done|]. split; [by rewrite Hcfg'|]. intros phi (k & Hphi)%znth_elem_of.
    destruct (current_phi program end_ starts G max phis0 Hplaced st b k phi Hst) as (_ & Hr & Hlen & _).
    { unfold phi_of. by rewrite Hbp. }
    split; [|apply Hr]. rewrite Hlen. by rewrite (br_pred_count _ _ _ _ Hbr).
Qed.

(** * A definition that is read is counted *)

Section live.
Context (c' : HLSLEmitterContext) (vars : list Z) (defs : cells) (phis : list HLSLBlockPhis).
Context (HP : ssa_program_ok program) (HR : ssa_ready program c' vars defs phis).
Context (Hsc : ssa_correct program first end_ cfg (ctx_ssa c')).

Lemma defined_names v d : defined_as (ctx_ssa c') v d -> variable_names c' defs v = d.
Proof.
  intros (Hv & defs' & Hdefs & Hd). rewrite (rd_defs _ _ _ _ _ HR) in Hdefs. injection Hdefs as <-.
  unfold variable_names. by rewrite (proj2 (Z.leb_le 0 v)), (proj2 (Z.ltb_lt v _)), Hd by lia.
Qed.

Lemma merged_elem b phi slot v d : 0 <= b < cfg_block_count (ctx_cfg c') -> ssa_phi (ctx_ssa c') b phi ->
  znth (phi_incoming_vars phi) slot = Some v -> defined_as (ctx_ssa c') v d -> 0 <= d ->
  (d, phi_component phi) ∈ merged_uses c' defs phis.
Proof.
  intros Hb (phis' & k & Hphis & Hphi) Hslot Hd Hpos. rewrite (rd_phis _ _ _ _ _ HR) in Hphis. injection Hphis as <-.
  unfold phi_of in Hphi. destruct (znth phis b) as [bp|] eqn:Hbp; [|done]. cbn in Hphi.
  apply list_elem_of_bind. exists b. split; [|apply elem_of_seqZ; lia]. unfold block_uses. rewrite Hbp.
  apply list_elem_of_bind. exists k. split; [|apply elem_of_seqZ; apply znth_Some in Hphi; lia].
  unfold phi_uses. rewrite Hbp. cbn [mbind option_bind]. rewrite Hphi.
  apply list_elem_of_bind. exists slot. split; [|apply elem_of_seqZ; apply znth_Some in Hslot; lia].
  unfold edge_uses. rewrite Hslot, (defined_names v d Hd), (proj2 (Z.leb_le _ _)) by done. left.
Qed.

(** What a variable stands for is named by it, or enters a phi. *)
Lemma stands_used reg comp n : forall l next v i d, (length (l ++ next) <= n)%nat ->
  path op first end_ first (l ++ next) i -> stands_for program cfg (ctx_ssa c') reg comp v l next ->
  latest (defines program reg comp) l = Some d -> 0 <= d -> ctx_cfg c' = cfg ->
  defined_as (ctx_ssa c') v d \/ (d, comp) ∈ merged_uses c' defs phis.
Proof.
  induction n as [|n IH]; intros l next v i d Hn Hp Hst Hl Hd Hcfg.
  { destruct (l ++ next) eqn:Hnil; [|cbn in Hn; lia]. apply app_nil in Hnil as [-> _]. done. }
  destruct Hst as [_ Hno|d' Hd' _ Hl'|b x phi l1 l2 _ Hphi <- <- _ Hx -> Hl2 Hhead]; [congruence| |].
  { left. by assert (d' = d) as -> by congruence. }
  right. rewrite latest_app, Hl2 in Hl. destruct (l2 ++ next) as [|y l3] eqn:Hl3; [done|]. injection Hhead as ->.
  rewrite <- app_assoc, Hl3 in Hp, Hn. rewrite length_app in Hn. cbn [length] in Hn.
  destruct (path_prefix _ _ _ _ _ _ _ Hp) as [->|(j & Hj & Hstep & _)]; [done|].
  destruct (sc_phi _ _ _ _ _ Hsc b x phi l1 j Hx Hphi Hj Hstep) as (_ & slot & blocks & p & v' & _ & _ & _ & Hslot & Hst').
  assert (Hb : 0 <= b < cfg_block_count (ctx_cfg c')) by (rewrite Hcfg; by destruct Hx as (_ & _ & ? & _)).
  destruct (IH l1 [] v' j d) as [Hv|Hv]; rewrite ?app_nil_r; try done; [lia|]. by eapply merged_elem.
Qed.
End live.

(** * The claims *)

(** C14: over the SSA form the construction of the use-def graph always returns.
    It fails only if memory runs out or an operand has no valid use.  Otherwise
    the slot of every source lane holds what [hlsl_operand_definition] says of
    it, and [hlsl_definition_use_count] of each component of each definition is
    the number of source lanes and phi edges that use it, in [unsigned int]. *)
Theorem build_hlsl_use_def_graph_correct c' : ssa_input program first end_ cfg c ->
  build_hlsl_ssa_graph (E:=Empty_set) (Some c) = Ret (true, Some c') ->
  exists ok c'', build_hlsl_use_def_graph (E:=Empty_set) c' = Ret (ok, c'') /\
  if ok : bool
  then (forall i inst k lane reg comp, instruction_in program i inst -> 0 <= k < ui_operand_count inst -> 0 <= lane < 4 ->
       reads program inst k lane reg comp -> exists d,
       hlsl_operand_definition (E:=Empty_set) (Some c') i k lane = Ret d /\
       slot_holds (ud_operand_definitions (ctx_use_def c'')) i k lane d) /\
    forall d comp, 0 <= d < count -> 0 <= comp < 4 ->
      hlsl_definition_use_count (E:=Empty_set) (Some c'') d comp =
        Ret (u32 (occurrences (d, comp) (uses_of program c')))
  else ctx_use_def c'' = zero_use_def /\ (malloc_failed \/ unusable program).
Proof.
  intros Hin Hrun. destruct (build_ssa_spec program first end_ cfg c Hin) as (ok & c2 & Hrun2 & Hres).
  rewrite Hrun in Hrun2. injection Hrun2 as <- <-. destruct Hres as (Hc' & _ & starts & G & idom & HA & Hb).
  pose proof (in_program _ _ _ _ _ Hin) as HP. destruct (built_ready c' starts G idom Hin Hc' HA Hb) as (vars & defs & phis & HR).
  destruct (build_use_def_spec program HP c' vars defs phis HR (E:=Empty_set)) as (ok & c'' & -> & Hres).
  exists ok, c''. split; [done|]. destruct ok; [|by destruct Hres as [-> ?]].
  destruct Hres as (graph & -> & Hw & Htal). rewrite (uses_of_ready program c' vars defs phis HR). split.
  - intros i inst k lane reg comp Hi Hk Hlane Hr. destruct (instruction_bounds program first end_ cfg c i inst Hin Hi) as [Hib Hn].
    exists (slot_definition c' vars defs (operand_offset i k lane)). split.
    + apply (operand_definition_slot program c' vars defs phis HR); done || lia.
    + exists (fst graph). split; [done|]. by eapply Hw, sources_elem.
  - intros d comp Hd Hcomp. by apply (use_count_spec program HP c' vars defs phis HR).
Qed.

(** C15: a definition that a source lane reads on some execution has a use: if
    instruction [d] is the last to define the component before an instruction
    that reads it in a lane of a source operand, with or without phis in between,
    [hlsl_definition_use_count] of it is not 0, provided there are fewer than
    2^32 uses in all.  A read as the root of a relative index is not counted:
    see [use_count_omits_relative_index]. *)
Theorem hlsl_definition_use_count_live c' c'' l i inst k lane reg comp d :
  ssa_input program first end_ cfg c ->
  build_hlsl_ssa_graph (E:=Empty_set) (Some c) = Ret (true, Some c') ->
  build_hlsl_use_def_graph (E:=Empty_set) c' = Ret (true, c'') ->
  zlength (uses_of program c') < 2 ^ 32 ->
  path op first end_ first (l ++ [i]) i -> instruction_in program i inst ->
  0 <= k < ui_operand_count inst -> 0 <= lane < 4 -> reads program inst k lane reg comp ->
  latest (defines program reg comp) l = Some d ->
  exists n, hlsl_definition_use_count (E:=Empty_set) (Some c'') d comp = Ret n /\ 0 < n.
Proof.
  intros Hin Hrun Hrun' Hsmall Hp Hi Hk Hlane Hr Hl. destruct (build_ssa_spec program first end_ cfg c Hin) as (ok & c2 & Hrun2 & Hres).
  rewrite Hrun in Hrun2. injection Hrun2 as <- <-. destruct Hres as (Hc' & Hsc & starts & G & idom & HA & Hb).
  pose proof (in_program _ _ _ _ _ Hin) as HP.
  destruct (built_ready c' starts G idom Hin Hc' HA Hb) as (vars & defs & phis & HR).
  rewrite (uses_of_ready program c' vars defs phis HR) in Hsmall.
  destruct (build_use_def_spec program HP c' vars defs phis HR (E:=Empty_set)) as (ok & c3 & Hrun3 & Hres).
  rewrite Hrun' in Hrun3. injection Hrun3 as <- <-. destruct Hres as (graph & -> & _ & Htal).
  destruct (instruction_bounds program first end_ cfg c i inst Hin Hi) as [Hib Hn].
  pose proof (path_range program first end_ cfg (in_range _ _ _ _ _ Hin) starts G idom HA _ _ Hp d
    ltac:(apply elem_of_app; left; by eapply latest_in)) as Hdr.
  pose proof (rg_range _ _ _ (in_range _ _ _ _ _ Hin)) as Hrange.
  assert (Hcomp : 0 <= comp < 4).
  { destruct (sc_renamable _ _ _ _ _ Hsc i) as (inst' & Hi' & Hren); [by eexists|].
    rewrite (instruction_in_unique program i inst' inst Hi' Hi) in Hren.
    apply (reads_range program HP i inst k lane reg comp Hi Hren Hk Hlane Hr). }
  rewrite (use_count_spec program HP c' vars defs phis HR) by (done || lia). eexists. split; [done|].
  assert (Hu : (d, comp) ∈ all_uses program c' vars defs phis).
  { destruct (sc_source _ _ _ _ _ Hsc l i inst k lane reg comp Hp Hi Hk Hlane Hr) as (v & (xs & Hxs & Hx) & Hst).
    unfold all_uses. apply elem_of_app.
    destruct (stands_used c' vars defs phis HR Hsc reg comp _ l [i] v i d (le_n _) Hp Hst Hl ltac:(lia)) as [Hv|Hv]; [|left|by right].
    { rewrite Hc'. apply (in_cfg _ _ _ _ _ Hin). }
    apply list_elem_of_bind. exists (operand_offset i k lane, comp). split; [|by eapply sources_elem].
    rewrite (rd_vars _ _ _ _ _ HR) in Hxs. injection Hxs as <-. unfold slot_use, slot_definition. cbn [fst snd].
    rewrite Hx. cbn [fmap option_fmap option_map default]. rewrite (defined_names c' vars defs phis HR v d Hv).
    change (id d) with d. rewrite (proj2 (Z.leb_le _ _)) by lia. left. }
  pose proof (occurrences_pos _ _ Hu). pose proof (occurrences_nonneg (d, comp) (all_uses program c' vars defs phis)).
  rewrite u32_small by lia. lia.
Qed.
End theorems.

(** * The hypotheses hold of the sample *)

Section sample.
#[local] Existing Instance unity_common_ref.
#[local] Existing Instance unity_common_ref_spec.
#[local] Existing Instance ample_memory.

Definition ssa_sample_uses : HLSLEmitterContext :=
  match build_hlsl_use_def_graph (E:=Empty_set) ssa_sample_built with
  | Ret (true, c) => c
  | _ => ssa_sample_built
  end.

Lemma ssa_sample_use_def : build_hlsl_use_def_graph (E:=Empty_set) ssa_sample_built = Ret (true, ssa_sample_uses).
Proof. by vm_compute. Qed.

Lemma use_def_pair {E A B} (a a' : A) (b b' : B) : @Ret E _ (a, b) = Ret (a', b') -> a = a' /\ b = b'.
Proof. by intros [= -> ->]. Qed.

Lemma use_def_value {E A} (a a' : A) : @Ret E _ a = Ret a' -> a' = a.
Proof. by intros [= ->]. Qed.

(** What instruction 4 defines is used twice, by a source and by an index: only
    the source counts. *)
Lemma build_hlsl_use_def_graph_correct_witness :
  ssa_input ssa_sample 0 8 ssa_sample_cfg ssa_sample_context /\
  u32 (occurrences (4, 0) (uses_of ssa_sample ssa_sample_built)) = 1.
Proof.
  split; [exact ssa_sample_input|].
  destruct (build_hlsl_use_def_graph_correct ssa_sample 0 8 ssa_sample_cfg ssa_sample_context ssa_sample_built
    ssa_sample_input ssa_sample_builds) as (ok & c' & Hrun & Hres).
  rewrite ssa_sample_use_def in Hrun. apply use_def_pair in Hrun as [<- <-]. destruct Hres as [_ Hcount].
  specialize (Hcount 4 0 ltac:(by vm_compute) ltac:(by vm_compute)).
  assert (Hone : hlsl_definition_use_count (E:=Empty_set) (Some ssa_sample_uses) 4 0 = Ret 1) by by vm_compute.
  rewrite Hone in Hcount. by apply use_def_value in Hcount.
Defined.

(** Both read what instruction 4 defines, and the count is 1. *)
Lemma use_count_omits_relative_index :
  hlsl_operand_definition (E:=Empty_set) (Some ssa_sample_uses) 5 1 0 = Ret 4 /\
  hlsl_relative_operand_definition (E:=Empty_set) (Some ssa_sample_uses) 6 1 0 = Ret 4 /\
  hlsl_definition_use_count (E:=Empty_set) (Some ssa_sample_uses) 4 0 = Ret 1.
Proof. by vm_compute. Qed.

(** What instruction 2 defines under the condition is read by instruction 4,
    through the phi after it. *)
Lemma hlsl_definition_use_count_live_witness :
  exists n, hlsl_definition_use_count (E:=Empty_set) (Some ssa_sample_uses) 2 0 = Ret n /\ 0 < n.
Proof.
  apply (hlsl_definition_use_count_live ssa_sample 0 8 ssa_sample_cfg ssa_sample_context ssa_sample_built ssa_sample_uses
    [0; 1; 2; 3] 4 (plain_instruction USIL_OP_MOV [temp_destination 1; temp_source 0]) 1 0 0 0);
    [exact ssa_sample_input|exact ssa_sample_builds|exact ssa_sample_use_def|by vm_compute| |by apply ssa_sample_instruction
    |by vm_compute|lia| |by vm_compute].
  - assert (Hstep : forall j l, j ∈ [0; 1; 2; 3] -> path (op_of ssa_sample) 0 8 0 l j ->
      path (op_of ssa_sample) 0 8 0 (l ++ [j + 1]) (j + 1)).
    { intros j l Hj Hl. eapply path_step; [exact Hl| |].
      - apply step_next. repeat (apply elem_of_cons in Hj as [->|Hj]; [vm_compute; reflexivity|]).
        by apply not_elem_of_nil in Hj.
      - repeat (apply elem_of_cons in Hj as [->|Hj]; [lia|]). by apply not_elem_of_nil in Hj. }
    apply (Hstep 3 [0; 1; 2; 3]); [by apply (bool_decide_unpack _); vm_compute|].
    apply (Hstep 2 [0; 1; 2]); [by apply (bool_decide_unpack _); vm_compute|].
    apply (Hstep 1 [0; 1]); [by apply (bool_decide_unpack _); vm_compute|].
    apply (Hstep 0 [0]); [by apply (bool_decide_unpack _); vm_compute|]. constructor.
  - eexists _, _. split; [by vm_compute|]. split; [reflexivity|]. by repeat split; vm_compute.
Defined.
End sample.
