(* ===== verification/VariantKey.v ===== *)
(** The identity of a shader variant: [src/common/variant_key.c] and
    [variant_key.h].

    [struct VariantKey] has the members of [VariantKeyDescriptor], in the same
    order, so one record stands for both.  A string is the array it is in; the
    blocks of a key belong to its fields alone, so releasing them is forgetting
    the key.  A function that returns a status is [Fail status] for every status
    but [VARIANT_KEY_OK]. *)

From S2P Require Import Prelude CArray Heap.

#[local] Set Warnings "-register-all".

Definition VARIANT_KEY_FORMAT_VERSION : Z := 4.
Definition VARIANT_KEY_DIGEST_SIZE : Z := 32.
Definition VARIANT_KEY_MAX_KEYWORD_INDICES : Z := 1048576.
Definition VARIANT_KEY_MAX_COMPILER_KEYWORDS : Z := 1048576.
Definition VARIANT_KEY_MAX_STRING_BYTES : Z := 16777216.
Definition VARIANT_KEY_MAGIC : list byte := String.list_byte_of_string "DXBCVKEY".

(** [sizeof(VariantKey)] *)
Definition VARIANT_KEY_SIZE : Z := 416.

Record VariantKeyFingerprint := { fp_present : bool; fp_bytes : list byte }.

(** A [const char*], and an array of them. *)
Abbreviation text := (option (list byte)).
Abbreviation texts := (option (list text)).

Record VariantCompilerAuthority := {
  vc_schema_version : Z;
  vc_build_platform : Z;
  vc_compiler_flags : Z;
  vc_language : Z;
  vc_shader_type : Z;
  vc_request_requirements : Z;
  vc_request_program_mask : Z;
  vc_program_start : Z;
  vc_render_state_length : Z;
  vc_valid_apis : Z;
  vc_caching_preprocessor : bool;
  vc_preprocess_only : bool;
  vc_strip_line_directives : bool;
  vc_source_directory : text;
  vc_source_basename : text;
  vc_pass_name : text;
  vc_variant_keywords : texts;
  vc_variant_keyword_count : Z;
  vc_user_keywords : texts;
  vc_user_keyword_count : Z;
  vc_enabled_platform_keywords : texts;
  vc_enabled_platform_keyword_count : Z;
  vc_disabled_keywords : texts;
  vc_disabled_keyword_count : Z;
  vc_compiler_fingerprint : VariantKeyFingerprint;
  vc_environment_fingerprint : VariantKeyFingerprint;
  vc_source_fingerprint : VariantKeyFingerprint;
  vc_request_input_fingerprint : VariantKeyFingerprint;
}.

Record VariantKeyDescriptor := {
  vk_shader_path_id : Z;
  vk_subshader_index : Z;
  vk_pass_index : Z;
  vk_stage : Z;
  vk_compiler_platform : Z;
  vk_archive_platform_index : Z;
  vk_hardware_tier_group : Z;
  vk_subprogram_index : Z;
  vk_parameter_blob_index : Z;
  vk_serialized_program_type : Z;
  vk_serialized_hardware_tier_present : bool;
  vk_serialized_hardware_tier : Z;
  vk_serialized_requirements : Z;
  vk_serialized_program_mask : Z;
  vk_player_metadata_present : bool;
  vk_player_program_type : Z;
  vk_player_header_words : list Z;
  vk_player_source_map : Z;
  vk_keyword_scopes_are_explicit : bool;
  vk_global_keyword_indices : option (list Z);
  vk_global_keyword_index_count : Z;
  vk_local_keyword_indices : option (list Z);
  vk_local_keyword_index_count : Z;
  vk_compiler : VariantCompilerAuthority;
}.

Definition VariantKey : Type := VariantKeyDescriptor.

Inductive VariantKeyStatus :=
  | VARIANT_KEY_OK
  | VARIANT_KEY_INVALID_ARGUMENT
  | VARIANT_KEY_INVALID_COUNT
  | VARIANT_KEY_INCONSISTENT_ARRAY
  | VARIANT_KEY_INVALID_VALUE
  | VARIANT_KEY_ALLOCATION_FAILED
  | VARIANT_KEY_SIZE_OVERFLOW.

#[export] Instance VariantKeyStatus_eq_dec : EqDecision VariantKeyStatus.
Proof. solve_decision. Defined.

(** * Validation *)

Fixpoint bytes_are_zero_from {E} (n : nat) (i : Z) (bytes : list byte) : res E bool :=
  match n with
  | O => Ret true
  | S n => b ← aget bytes i; if bool_decide (b <> Byte.x00) then Ret false else bytes_are_zero_from n (i + 1) bytes
  end.

Definition bytes_are_zero {E} (bytes : list byte) (count : Z) : res E bool :=
  bytes_are_zero_from (Z.to_nat count) 0 bytes.

Definition fingerprint_is_valid {E} (fingerprint : VariantKeyFingerprint) : res E bool :=
  if fp_present fingerprint then Ret true else bytes_are_zero (fp_bytes fingerprint) VARIANT_KEY_DIGEST_SIZE.

(** The index of the first NUL from [i] on, if it is at most the maximum. *)
Fixpoint bounded_length_from {E} (value : list byte) (i : Z) : res E (option Z) :=
  if VARIANT_KEY_MAX_STRING_BYTES <? i then Ret None else
  match value with
  | [] => Undef
  | b :: value => if bool_decide (b = Byte.x00) then Ret (Some i) else bounded_length_from value (i + 1)
  end.

Definition bounded_string_length {E} (value : text) : res E (option Z) :=
  match value with None => Ret None | Some value => bounded_length_from value 0 end.

Definition validate_string (reject_empty : bool) (values : list text) (i : Z) (_ : unit) : res VariantKeyStatus unit :=
  value ← aget values i;
  length ← bounded_string_length value;
  match length with
  | None => Fail VARIANT_KEY_INVALID_VALUE
  | Some length => if reject_empty && (length =? 0) then Fail VARIANT_KEY_INVALID_VALUE else Ret tt
  end.

Definition validate_string_array (values : texts) (count : Z) (reject_empty : bool) : res VariantKeyStatus unit :=
  if (VARIANT_KEY_MAX_COMPILER_KEYWORDS <? count) || (4294967295 <? count) then Fail VARIANT_KEY_INVALID_COUNT else
  if negb (eqb (count =? 0) (bool_decide (values = None))) then Fail VARIANT_KEY_INCONSISTENT_ARRAY else
  for_loop (Z.to_nat count) 0 (fun i u => values ← ptr values; validate_string reject_empty values i u) tt.

(** [!bounded_string_length(value, &ignored_length)] as a condition. *)
Definition unbounded {E} (value : text) : res E bool :=
  length ← bounded_string_length value; Ret (bool_decide (length = None)).

Definition descriptor_fields_bad (descriptor : VariantKeyDescriptor) : bool :=
  let compiler := vk_compiler descriptor in
  (vk_compiler_platform descriptor <? 0) || (3 <? vk_hardware_tier_group descriptor) ||
  (vk_parameter_blob_index descriptor <? -1) || (vk_serialized_program_type descriptor <? 0) ||
  (vk_serialized_hardware_tier_present descriptor &&
   ((vk_serialized_hardware_tier descriptor <? 0) || (3 <? vk_serialized_hardware_tier descriptor))) ||
  (vk_player_metadata_present descriptor && (vk_player_program_type descriptor <? 0)) ||
  (vc_language compiler <? 0) || (vc_shader_type compiler <? 0) || (vc_program_start compiler <? 0) ||
  (vc_render_state_length compiler <? 0).

(** [if (!test) return status;] *)
Definition require {E} (status : E) (test : res E bool) : res E unit :=
  ok ← test; if ok : bool then Ret tt else Fail status.

Definition validate_descriptor (descriptor : option VariantKeyDescriptor) : res VariantKeyStatus unit :=
  match descriptor with
  | None => Fail VARIANT_KEY_INVALID_ARGUMENT
  | Some d =>
      let global_count := vk_global_keyword_index_count d in
      let local_count := vk_local_keyword_index_count d in
      let c := vk_compiler d in
      if (VARIANT_KEY_MAX_KEYWORD_INDICES <? global_count) || (VARIANT_KEY_MAX_KEYWORD_INDICES <? local_count) ||
         (4294967295 <? global_count) || (4294967295 <? local_count) then Fail VARIANT_KEY_INVALID_COUNT else
      if negb (eqb (global_count =? 0) (bool_decide (vk_global_keyword_indices d = None))) ||
         negb (eqb (local_count =? 0) (bool_decide (vk_local_keyword_indices d = None)))
      then Fail VARIANT_KEY_INCONSISTENT_ARRAY else
      bad ← unbounded (vc_source_directory c);
      bad ← (if bad : bool then Ret true else unbounded (vc_source_basename c));
      bad ← (if bad : bool then Ret true else unbounded (vc_pass_name c));
      if bad : bool then Fail VARIANT_KEY_INVALID_VALUE else
      _ ← validate_string_array (vc_variant_keywords c) (vc_variant_keyword_count c) true;
      _ ← validate_string_array (vc_user_keywords c) (vc_user_keyword_count c) true;
      _ ← validate_string_array (vc_enabled_platform_keywords c) (vc_enabled_platform_keyword_count c) true;
      _ ← validate_string_array (vc_disabled_keywords c) (vc_disabled_keyword_count c) true;
      if descriptor_fields_bad d then Fail VARIANT_KEY_INVALID_VALUE else
      _ ← require VARIANT_KEY_INVALID_VALUE (fingerprint_is_valid (vc_compiler_fingerprint c));
      _ ← require VARIANT_KEY_INVALID_VALUE (fingerprint_is_valid (vc_environment_fingerprint c));
      _ ← require VARIANT_KEY_INVALID_VALUE (fingerprint_is_valid (vc_source_fingerprint c));
      require VARIANT_KEY_INVALID_VALUE (fingerprint_is_valid (vc_request_input_fingerprint c))
  end.

(** * Construction *)

Section construct.
Context `{L : LibcMalloc}.

(** A copy function returns NULL, or the new block. *)
Definition copy_indices {E} (indices : option (list Z)) (count : Z) : res E (option (list Z)) :=
  if count =? 0 then Ret None else
  if SIZE_MAX / 4 <? count then Ret None else
  if negb (libc_malloc (count * 4)) then Ret None else
  indices ← ptr indices;
  if zlength indices <? count then Undef else Ret (Some (take (Z.to_nat count) indices)).

Definition copy_string {E} (value : text) : res E text :=
  value ← ptr value;
  length ← strlen value;
  if negb (libc_malloc (u64 (length + 1))) then Ret None else
  block ← view value 0 (length + 1); Ret (Some block).

(** One entry of the copy; [Fail tt] where the allocation of one fails. *)
Definition copy_entry (values : texts) (i : Z) (result : list text) : res unit (list text) :=
  values ← ptr values; value ← aget values i;
  copy ← copy_string value;
  match copy with
  | Some block => Ret (result ++ [Some block])
  | None => Fail tt
  end.

Definition copy_string_array {E} (values : texts) (count : Z) : res E texts :=
  if count =? 0 then Ret None else
  if SIZE_MAX / 8 <? count then Ret None else
  if negb (libc_malloc (count * 8)) then Ret None else
  attempt (for_loop (Z.to_nat count) 0 (copy_entry values) []).

Definition canonicalize_fingerprint (fingerprint : VariantKeyFingerprint) : VariantKeyFingerprint :=
  if fp_present fingerprint then fingerprint
  else {| fp_present := false; fp_bytes := replicate (Z.to_nat VARIANT_KEY_DIGEST_SIZE) Byte.x00 |}.

(** The copy of an array whose length is [count], or the failure of the whole. *)
Definition copied {A} (count : Z) (copy : option A) : res VariantKeyStatus (option A) :=
  match copy with
  | None => if 0 <? count then Fail VARIANT_KEY_ALLOCATION_FAILED else Ret None
  | Some _ => Ret copy
  end.

(** The fields of the new key: those of the descriptor, and the copies. *)
Definition filled_key (d : VariantKeyDescriptor) (global local : option (list Z)) (directory basename pass : text)
    (variants users enabled disabled : texts) : VariantKey :=
  let c := vk_compiler d in
  {|
    vk_shader_path_id := vk_shader_path_id d; vk_subshader_index := vk_subshader_index d;
    vk_pass_index := vk_pass_index d; vk_stage := vk_stage d;
    vk_compiler_platform := vk_compiler_platform d;
    vk_archive_platform_index := vk_archive_platform_index d;
    vk_hardware_tier_group := vk_hardware_tier_group d; vk_subprogram_index := vk_subprogram_index d;
    vk_parameter_blob_index := vk_parameter_blob_index d;
    vk_serialized_program_type := vk_serialized_program_type d;
    vk_serialized_hardware_tier_present := vk_serialized_hardware_tier_present d;
    vk_serialized_hardware_tier :=
      if vk_serialized_hardware_tier_present d then vk_serialized_hardware_tier d else 0;
    vk_serialized_requirements := vk_serialized_requirements d;
    vk_serialized_program_mask := vk_serialized_program_mask d;
    vk_player_metadata_present := vk_player_metadata_present d;
    vk_player_program_type := if vk_player_metadata_present d then vk_player_program_type d else 0;
    vk_player_header_words := if vk_player_metadata_present d then vk_player_header_words d else [0; 0; 0; 0];
    vk_player_source_map := if vk_player_metadata_present d then vk_player_source_map d else 0;
    vk_keyword_scopes_are_explicit := vk_keyword_scopes_are_explicit d;
    vk_global_keyword_indices := global; vk_global_keyword_index_count := vk_global_keyword_index_count d;
    vk_local_keyword_indices := local; vk_local_keyword_index_count := vk_local_keyword_index_count d;
    vk_compiler := {|
      vc_schema_version := vc_schema_version c; vc_build_platform := vc_build_platform c;
      vc_compiler_flags := vc_compiler_flags c; vc_language := vc_language c;
      vc_shader_type := vc_shader_type c; vc_request_requirements := vc_request_requirements c;
      vc_request_program_mask := vc_request_program_mask c; vc_program_start := vc_program_start c;
      vc_render_state_length := vc_render_state_length c; vc_valid_apis := vc_valid_apis c;
      vc_caching_preprocessor := vc_caching_preprocessor c; vc_preprocess_only := vc_preprocess_only c;
      vc_strip_line_directives := vc_strip_line_directives c;
      vc_source_directory := directory; vc_source_basename := basename; vc_pass_name := pass;
      vc_variant_keywords := variants; vc_variant_keyword_count := vc_variant_keyword_count c;
      vc_user_keywords := users; vc_user_keyword_count := vc_user_keyword_count c;
      vc_enabled_platform_keywords := enabled;
      vc_enabled_platform_keyword_count := vc_enabled_platform_keyword_count c;
      vc_disabled_keywords := disabled; vc_disabled_keyword_count := vc_disabled_keyword_count c;
      vc_compiler_fingerprint := canonicalize_fingerprint (vc_compiler_fingerprint c);
      vc_environment_fingerprint := canonicalize_fingerprint (vc_environment_fingerprint c);
      vc_source_fingerprint := canonicalize_fingerprint (vc_source_fingerprint c);
      vc_request_input_fingerprint := canonicalize_fingerprint (vc_request_input_fingerprint c) |} |}.

(** [has_out] is [out_key != NULL]. *)
Definition variant_key_init (has_out : bool) (descriptor : option VariantKeyDescriptor) : res VariantKeyStatus VariantKey :=
  if negb has_out then Fail VARIANT_KEY_INVALID_ARGUMENT else
  _ ← validate_descriptor descriptor;
  d ← ptr descriptor;
  if negb (libc_malloc VARIANT_KEY_SIZE) then Fail VARIANT_KEY_ALLOCATION_FAILED else
  global ← copy_indices (vk_global_keyword_indices d) (vk_global_keyword_index_count d);
  global ← copied (vk_global_keyword_index_count d) global;
  local ← copy_indices (vk_local_keyword_indices d) (vk_local_keyword_index_count d);
  local ← copied (vk_local_keyword_index_count d) local;
  let c := vk_compiler d in
  directory ← copy_string (vc_source_directory c);
  basename ← copy_string (vc_source_basename c);
  pass ← copy_string (vc_pass_name c);
  if bool_decide (directory = None) || bool_decide (basename = None) || bool_decide (pass = None)
  then Fail VARIANT_KEY_ALLOCATION_FAILED else
  variants ← copy_string_array (vc_variant_keywords c) (vc_variant_keyword_count c);
  variants ← copied (vc_variant_keyword_count c) variants;
  users ← copy_string_array (vc_user_keywords c) (vc_user_keyword_count c);
  users ← copied (vc_user_keyword_count c) users;
  enabled ← copy_string_array (vc_enabled_platform_keywords c) (vc_enabled_platform_keyword_count c);
  enabled ← copied (vc_enabled_platform_keyword_count c) enabled;
  disabled ← copy_string_array (vc_disabled_keywords c) (vc_disabled_keyword_count c);
  disabled ← copied (vc_disabled_keyword_count c) disabled;
  Ret (filled_key d global local directory basename pass variants users enabled disabled).

Definition variant_key_describe (key : option VariantKey) (has_out : bool) : res VariantKeyStatus VariantKeyDescriptor :=
  match key with
  | None => Fail VARIANT_KEY_INVALID_ARGUMENT
  | Some key => if negb has_out then Fail VARIANT_KEY_INVALID_ARGUMENT else Ret key
  end.

Definition variant_key_copy (has_out : bool) (source : option VariantKey) : res VariantKeyStatus VariantKey :=
  if negb has_out then Fail VARIANT_KEY_INVALID_ARGUMENT else
  match source with
  | None => Fail VARIANT_KEY_INVALID_ARGUMENT
  | Some _ => descriptor ← variant_key_describe source true; variant_key_init true (Some descriptor)
  end.
End construct.

(** * Equality *)

Definition fingerprints_equal {E} (left right : VariantKeyFingerprint) : res E bool :=
  if negb (eqb (fp_present left) (fp_present right)) then Ret false else
  if negb (fp_present left) then Ret true else
  memory_equal VARIANT_KEY_DIGEST_SIZE (fp_bytes left) (fp_bytes right).

Definition texts_differ {E} (left right : texts) (i : Z) : res E bool :=
  left ← ptr left; right ← ptr right; a ← aget left i; b ← aget right i;
  a ← ptr a; b ← ptr b; same ← strings_equal a b; Ret (negb same).

Definition string_arrays_equal {E} (left right : texts) (count : Z) : res E bool :=
  different ← any_index (Z.to_nat count) 0 (texts_differ left right); Ret (negb different).

Definition texts_equal {E} (left right : text) : res E bool :=
  left ← ptr left; right ← ptr right; strings_equal left right.

(** [a && b && ...], from the left. *)
Fixpoint conjunction {E} (tests : list (res E bool)) : res E bool :=
  match tests with
  | [] => Ret true
  | test :: tests => ok ← test; if ok : bool then conjunction tests else Ret false
  end.

Definition compiler_authority_equal {E} (l r : VariantCompilerAuthority) : res E bool :=
  conjunction [
    Ret (vc_schema_version l =? vc_schema_version r); Ret (vc_build_platform l =? vc_build_platform r);
    Ret (vc_compiler_flags l =? vc_compiler_flags r); Ret (vc_language l =? vc_language r);
    Ret (vc_shader_type l =? vc_shader_type r); Ret (vc_request_requirements l =? vc_request_requirements r);
    Ret (vc_request_program_mask l =? vc_request_program_mask r); Ret (vc_program_start l =? vc_program_start r);
    Ret (vc_render_state_length l =? vc_render_state_length r); Ret (vc_valid_apis l =? vc_valid_apis r);
    Ret (eqb (vc_caching_preprocessor l) (vc_caching_preprocessor r));
    Ret (eqb (vc_preprocess_only l) (vc_preprocess_only r));
    Ret (eqb (vc_strip_line_directives l) (vc_strip_line_directives r));
    texts_equal (vc_source_directory l) (vc_source_directory r);
    texts_equal (vc_source_basename l) (vc_source_basename r);
    texts_equal (vc_pass_name l) (vc_pass_name r);
    Ret (vc_variant_keyword_count l =? vc_variant_keyword_count r);
    Ret (vc_user_keyword_count l =? vc_user_keyword_count r);
    Ret (vc_enabled_platform_keyword_count l =? vc_enabled_platform_keyword_count r);
    Ret (vc_disabled_keyword_count l =? vc_disabled_keyword_count r);
    string_arrays_equal (vc_variant_keywords l) (vc_variant_keywords r) (vc_variant_keyword_count l);
    string_arrays_equal (vc_user_keywords l) (vc_user_keywords r) (vc_user_keyword_count l);
    string_arrays_equal (vc_enabled_platform_keywords l) (vc_enabled_platform_keywords r)
      (vc_enabled_platform_keyword_count l);
    string_arrays_equal (vc_disabled_keywords l) (vc_disabled_keywords r) (vc_disabled_keyword_count l);
    fingerprints_equal (vc_compiler_fingerprint l) (vc_compiler_fingerprint r);
    fingerprints_equal (vc_environment_fingerprint l) (vc_environment_fingerprint r);
    fingerprints_equal (vc_source_fingerprint l) (vc_source_fingerprint r);
    fingerprints_equal (vc_request_input_fingerprint l) (vc_request_input_fingerprint r)].

Definition indices_equal {E} (left right : option (list Z)) (count : Z) : res E bool :=
  if count =? 0 then Ret true else
  left ← ptr left; right ← ptr right; memory_equal count left right.

(** [same] is [left == right]. *)
Definition variant_key_equal {E} (same : bool) (left right : option VariantKey) : res E bool :=
  if same then Ret true else
  match left, right with
  | Some l, Some r =>
      conjunction [
        Ret (vk_shader_path_id l =? vk_shader_path_id r); Ret (vk_subshader_index l =? vk_subshader_index r);
        Ret (vk_pass_index l =? vk_pass_index r); Ret (vk_stage l =? vk_stage r);
        Ret (vk_compiler_platform l =? vk_compiler_platform r);
        Ret (vk_archive_platform_index l =? vk_archive_platform_index r);
        Ret (vk_hardware_tier_group l =? vk_hardware_tier_group r);
        Ret (vk_subprogram_index l =? vk_subprogram_index r);
        Ret (vk_parameter_blob_index l =? vk_parameter_blob_index r);
        Ret (vk_serialized_program_type l =? vk_serialized_program_type r);
        Ret (eqb (vk_serialized_hardware_tier_present l) (vk_serialized_hardware_tier_present r));
        Ret (vk_serialized_hardware_tier l =? vk_serialized_hardware_tier r);
        Ret (vk_serialized_requirements l =? vk_serialized_requirements r);
        Ret (vk_serialized_program_mask l =? vk_serialized_program_mask r);
        Ret (eqb (vk_player_metadata_present l) (vk_player_metadata_present r));
        Ret (vk_player_program_type l =? vk_player_program_type r);
        memory_equal 4 (vk_player_header_words l) (vk_player_header_words r);
        Ret (vk_player_source_map l =? vk_player_source_map r);
        Ret (eqb (vk_keyword_scopes_are_explicit l) (vk_keyword_scopes_are_explicit r));
        Ret (vk_global_keyword_index_count l =? vk_global_keyword_index_count r);
        Ret (vk_local_keyword_index_count l =? vk_local_keyword_index_count r);
        compiler_authority_equal (vk_compiler l) (vk_compiler r);
        indices_equal (vk_global_keyword_indices l) (vk_global_keyword_indices r) (vk_global_keyword_index_count l);
        indices_equal (vk_local_keyword_indices l) (vk_local_keyword_indices r) (vk_local_keyword_index_count l)]
  | _, _ => Ret false
  end.

(** * Serialisation

    [false] of a helper is [Fail tt]. *)

Definition checked_add_size (amount total : Z) : res unit Z :=
  if SIZE_MAX - amount <? total then Fail tt else Ret (total + amount).

Definition checked_add_encoded_string_size (value : text) (total : Z) : res unit Z :=
  value ← ptr value; length ← strlen value;
  if 4294967295 <? length then Fail tt else
  total ← checked_add_size 4 total; checked_add_size length total.

Definition checked_add_string_array_size (values : texts) (count total : Z) : res unit Z :=
  for_loop (Z.to_nat count) 0 (fun i total =>
    values ← ptr values; value ← aget values i; checked_add_encoded_string_size value total) total.

(** What has been written; [offset] is its length. *)
Record VariantKeyWriter := { vw_data : list byte; vw_size : Z }.

Definition writer_bytes (data : list byte) (writer : VariantKeyWriter) : res unit VariantKeyWriter :=
  let offset := size (vw_data writer) in
  if (vw_size writer <? offset) || (vw_size writer - offset <? size data) then Fail tt
  else Ret {| vw_data := vw_data writer ++ data; vw_size := vw_size writer |}.

Definition writer_u32 (value : Z) : VariantKeyWriter -> res unit VariantKeyWriter := writer_bytes (le_bytes 4 value).
Definition writer_u64 (value : Z) : VariantKeyWriter -> res unit VariantKeyWriter := writer_bytes (le_bytes 8 value).
Definition writer_i32 (value : Z) : VariantKeyWriter -> res unit VariantKeyWriter := writer_u32 (u32 value).
Definition writer_i64 (value : Z) : VariantKeyWriter -> res unit VariantKeyWriter := writer_u64 (u64 value).
Definition writer_bool (value : bool) : VariantKeyWriter -> res unit VariantKeyWriter :=
  writer_u32 (if value then 1 else 0).

Definition writer_string (value : text) (writer : VariantKeyWriter) : res unit VariantKeyWriter :=
  value ← ptr value; length ← strlen value;
  if 4294967295 <? length then Fail tt else
  writer ← writer_u32 length writer;
  data ← view value 0 length; writer_bytes data writer.

Definition writer_string_array (values : texts) (count : Z) (writer : VariantKeyWriter) : res unit VariantKeyWriter :=
  if 4294967295 <? count then Fail tt else
  writer ← writer_u32 count writer;
  for_loop (Z.to_nat count) 0 (fun i writer => values ← ptr values; value ← aget values i; writer_string value writer) writer.

Definition writer_indices (indices : option (list Z)) (count : Z) (writer : VariantKeyWriter) : res unit VariantKeyWriter :=
  writer ← writer_u32 (u32 count) writer;
  for_loop (Z.to_nat count) 0 (fun i writer => indices ← ptr indices; index ← aget indices i; writer_u32 index writer) writer.

Definition writer_fingerprint (fingerprint : VariantKeyFingerprint) (writer : VariantKeyWriter) : res unit VariantKeyWriter :=
  writer ← writer_bool (fp_present fingerprint) writer;
  bytes ← (if fp_present fingerprint then view (fp_bytes fingerprint) 0 VARIANT_KEY_DIGEST_SIZE
           else Ret (replicate (Z.to_nat VARIANT_KEY_DIGEST_SIZE) Byte.x00));
  writer_bytes bytes writer.

(** The size of the encoding. *)
Definition serialized_size (key : VariantKey) : res unit Z :=
  let c := vk_compiler key in
  if (SIZE_MAX / 4 <? vk_global_keyword_index_count key) || (SIZE_MAX / 4 <? vk_local_keyword_index_count key) then Fail tt else
  total ← checked_add_size (vk_global_keyword_index_count key * 4) 340;
  total ← checked_add_size (vk_local_keyword_index_count key * 4) total;
  total ← checked_add_encoded_string_size (vc_source_directory c) total;
  total ← checked_add_encoded_string_size (vc_source_basename c) total;
  total ← checked_add_encoded_string_size (vc_pass_name c) total;
  total ← checked_add_string_array_size (vc_variant_keywords c) (vc_variant_keyword_count c) total;
  total ← checked_add_string_array_size (vc_user_keywords c) (vc_user_keyword_count c) total;
  total ← checked_add_string_array_size (vc_enabled_platform_keywords c) (vc_enabled_platform_keyword_count c) total;
  checked_add_string_array_size (vc_disabled_keywords c) (vc_disabled_keyword_count c) total.

Definition compiler_writes (c : VariantCompilerAuthority) : list (VariantKeyWriter -> res unit VariantKeyWriter) := [
  writer_u32 (vc_schema_version c); writer_u32 (vc_build_platform c); writer_u32 (vc_compiler_flags c);
  writer_i32 (vc_language c); writer_i32 (vc_shader_type c); writer_u64 (vc_request_requirements c);
  writer_u32 (vc_request_program_mask c); writer_i32 (vc_program_start c); writer_i32 (vc_render_state_length c);
  writer_u32 (vc_valid_apis c); writer_bool (vc_caching_preprocessor c); writer_bool (vc_preprocess_only c);
  writer_bool (vc_strip_line_directives c);
  writer_string (vc_source_directory c); writer_string (vc_source_basename c); writer_string (vc_pass_name c);
  writer_string_array (vc_variant_keywords c) (vc_variant_keyword_count c);
  writer_string_array (vc_user_keywords c) (vc_user_keyword_count c);
  writer_string_array (vc_enabled_platform_keywords c) (vc_enabled_platform_keyword_count c);
  writer_string_array (vc_disabled_keywords c) (vc_disabled_keyword_count c);
  writer_fingerprint (vc_compiler_fingerprint c); writer_fingerprint (vc_environment_fingerprint c);
  writer_fingerprint (vc_source_fingerprint c); writer_fingerprint (vc_request_input_fingerprint c)].

Definition key_writes (key : VariantKey) (total : Z) : list (VariantKeyWriter -> res unit VariantKeyWriter) := [
  writer_bytes VARIANT_KEY_MAGIC; writer_u32 VARIANT_KEY_FORMAT_VERSION; writer_u64 total;
  writer_i64 (vk_shader_path_id key); writer_u32 (vk_subshader_index key); writer_u32 (vk_pass_index key);
  writer_u32 (vk_stage key); writer_i32 (vk_compiler_platform key); writer_u32 (vk_archive_platform_index key);
  writer_u32 (vk_hardware_tier_group key); writer_u32 (vk_subprogram_index key);
  writer_i32 (vk_parameter_blob_index key); writer_i32 (vk_serialized_program_type key);
  writer_bool (vk_serialized_hardware_tier_present key); writer_i32 (vk_serialized_hardware_tier key);
  writer_u64 (vk_serialized_requirements key); writer_u32 (vk_serialized_program_mask key);
  writer_bool (vk_player_metadata_present key); writer_i32 (vk_player_program_type key);
  (fun writer => for_loop 4 0 (fun i writer => word ← aget (vk_player_header_words key) i; writer_u32 word writer) writer);
  writer_u32 (vk_player_source_map key); writer_bool (vk_keyword_scopes_are_explicit key);
  writer_indices (vk_global_keyword_indices key) (vk_global_keyword_index_count key);
  writer_indices (vk_local_keyword_indices key) (vk_local_keyword_index_count key)] ++
  compiler_writes (vk_compiler key).

(** One write after the other, until one fails. *)
Fixpoint write_all (writes : list (VariantKeyWriter -> res unit VariantKeyWriter)) (writer : VariantKeyWriter)
    : res unit VariantKeyWriter :=
  match writes with
  | [] => Ret writer
  | write :: writes => writer ← write writer; write_all writes writer
  end.

Section serialize.
Context `{L : LibcMalloc}.

Definition variant_key_serialize (key : option VariantKey) (has_out : bool) : res VariantKeyStatus (list byte) :=
  if negb has_out then Fail VARIANT_KEY_INVALID_ARGUMENT else
  match key with
  | None => Fail VARIANT_KEY_INVALID_ARGUMENT
  | Some key =>
      total ← or_fail (serialized_size key) VARIANT_KEY_SIZE_OVERFLOW;
      if negb (libc_malloc total) then Fail VARIANT_KEY_ALLOCATION_FAILED else
      writer ← or_fail (write_all (key_writes key total) {| vw_data := []; vw_size := total |}) VARIANT_KEY_SIZE_OVERFLOW;
      if negb (size (vw_data writer) =? total) then Fail VARIANT_KEY_SIZE_OVERFLOW else Ret (vw_data writer)
  end.

(** [common_sha256], of UnityCommon. *)
Variable common_sha256 : list byte -> list byte.

Definition variant_key_digest (key : option VariantKey) (has_digest : bool) : res VariantKeyStatus (list byte) :=
  if negb has_digest then Fail VARIANT_KEY_INVALID_ARGUMENT else
  data ← variant_key_serialize key true; Ret (common_sha256 data).
End serialize.

Definition variant_key_status_string (status : VariantKeyStatus) : string :=
  match status with
  | VARIANT_KEY_OK => "ok"
  | VARIANT_KEY_INVALID_ARGUMENT => "invalid argument"
  | VARIANT_KEY_INVALID_COUNT => "invalid count"
  | VARIANT_KEY_INCONSISTENT_ARRAY => "inconsistent array"
  | VARIANT_KEY_INVALID_VALUE => "invalid value"
  | VARIANT_KEY_ALLOCATION_FAILED => "allocation failed"
  | VARIANT_KEY_SIZE_OVERFLOW => "size overflow"
  end.
