(* ===== verification/VariantKeyCorrect.v ===== *)
(** The format of serialised variant keys, as the list of the items a key
    consists of, and the three views of a key that agree on it: construction,
    equality and serialisation. *)

From S2P Require Import Prelude CArray Heap VariantKey.

#[local] Set Warnings "-register-all".

(** * Strings *)

Definition is_text (t : text) (s : list byte) : Prop :=
  exists block, t = Some block /\ c_string block s /\ size s <= VARIANT_KEY_MAX_STRING_BYTES.

Lemma c_string_unique block s t : c_string block s -> c_string block t -> s = t.
Proof.
  revert s t. induction block as [|b block IH]; intros s t Hs Ht; [by apply c_string_nil in Hs|].
  apply c_string_cons in Hs as [[-> ->]|(s' & -> & Hb & Hs)], Ht as [[-> Hb']|(t' & -> & Hb' & Ht)]; [done|done..|].
  f_equal. by apply IH.
Qed.

Lemma is_text_fun t s s' : is_text t s -> is_text t s' -> s = s'.
Proof. intros (b & -> & Hs & _) (b' & [= <-] & Hs' & _). by eapply c_string_unique. Qed.

Lemma strlen_spec {E} block s : c_string block s -> strlen (E:=E) block = Ret (size s).
Proof.
  revert s. induction block as [|b block IH]; intros s Hs; [by apply c_string_nil in Hs|].
  apply c_string_cons in Hs as [[-> ->]|(s' & -> & Hb & Hs)]; [done|].
  cbn [strlen]. rewrite bool_decide_false, (IH _ Hs) by done. mstep. f_equal. unfold size. cbn [length]. lia.
Qed.

Lemma c_string_view {E} block s : c_string block s -> view (E:=E) block 0 (size s) = Ret s.
Proof.
  intros (rest & -> & _). unfold view, in_bounds, slice, size. rewrite length_app. cbn [length].
  rewrite !(proj2 (Z.leb_le _ _)) by lia. cbn [andb]. change (Z.to_nat 0) with 0%nat. by rewrite drop_0, Nat2Z.id, take_app_length.
Qed.

Lemma c_string_block {E} block s : c_string block s ->
  exists copy, view (E:=E) block 0 (size s + 1) = Ret copy /\ c_string copy s.
Proof.
  intros (rest & -> & Hs). exists (s ++ [Byte.x00]). split; [|by exists []].
  unfold view, in_bounds, slice, size. rewrite length_app. cbn [length].
  rewrite !(proj2 (Z.leb_le _ _)) by lia. cbn [andb]. change (Z.to_nat 0) with 0%nat. rewrite drop_0. f_equal.
  replace (Z.to_nat (Z.of_nat (length s) + 1)) with (length s + 1)%nat by lia.
  change (Byte.x00 :: rest) with ([Byte.x00] ++ rest). rewrite app_assoc.
  replace (length s + 1)%nat with (length (s ++ [Byte.x00])) by (rewrite length_app; done). apply take_app_length.
Qed.

Lemma strings_equal_spec {E} a b s t : c_string a s -> c_string b t -> strings_equal (E:=E) a b = Ret (bool_decide (s = t)).
Proof.
  revert b s t. induction a as [|x a IH]; intros [|y b] s t Hs Ht; try by apply c_string_nil in Hs.
  { by apply c_string_nil in Ht. }
  apply c_string_cons in Hs as [[-> ->]|(s' & -> & Hx & Hs)], Ht as [[-> ->]|(t' & -> & Hy & Ht)]; cbn [strings_equal]; [done|..].
  - by rewrite bool_decide_true.
  - rewrite bool_decide_true by done. by rewrite bool_decide_false.
  - destruct (decide (x = y)) as [<-|Hne].
    + rewrite (bool_decide_false (x <> x)), bool_decide_false, (IH _ _ _ Hs Ht) by tauto. f_equal.
      apply bool_decide_ext. split; [by intros ->|by intros [= ->]].
    + rewrite bool_decide_true by done. rewrite bool_decide_false; [done|congruence].
Qed.

(** * Arrays *)

(** The first [count] strings of an array, which is NULL if there are none. *)
Definition are_texts (ts : texts) (count : Z) (l : list (list byte)) : Prop :=
  zlength l = count /\ count <= VARIANT_KEY_MAX_COMPILER_KEYWORDS /\
  if count =? 0 then ts = None
  else exists values, ts = Some values /\ Forall2 is_text (take (Z.to_nat count) values) l.

(** The first [count] words of an array, which is NULL if there are none. *)
Definition are_indices (ix : option (list Z)) (count : Z) (l : list Z) : Prop :=
  zlength l = count /\ count <= VARIANT_KEY_MAX_KEYWORD_INDICES /\ Forall in_u32 l /\
  if count =? 0 then ix = None else exists values, ix = Some values /\ take (Z.to_nat count) values = l.

Lemma are_texts_at ts count l i : are_texts ts count l -> 0 <= i < count ->
  exists values t s, ts = Some values /\ znth values i = Some t /\ znth l i = Some s /\ is_text t s.
Proof.
  intros (Hl & _ & Hts) Hi. rewrite (proj2 (Z.eqb_neq _ _)) in Hts by lia. destruct Hts as (values & -> & HF).
  destruct (znth_is_Some l i) as [s Hs]; [lia|]. rewrite znth_nonneg in Hs by lia.
  destruct (Forall2_lookup_r _ _ _ _ _ HF Hs) as (t & Ht & Hts). apply lookup_take_Some in Ht as [Ht _].
  exists values, t, s. rewrite !znth_nonneg by lia. done.
Qed.

(** * Fingerprints *)

(** The bytes of a fingerprint that count. *)
Definition fingerprint_digest (f : VariantKeyFingerprint) : list byte :=
  if fp_present f then take 32 (fp_bytes f) else replicate 32 Byte.x00.

Definition fingerprint_ok (f : VariantKeyFingerprint) : Prop := size (fp_bytes f) = 32.

Lemma size_digest f : fingerprint_ok f -> length (fingerprint_digest f) = 32%nat.
Proof. unfold fingerprint_ok, fingerprint_digest, size. intros Hf. destruct (fp_present f); [rewrite length_take; lia|done]. Qed.

(** * Items *)

Inductive item :=
  | Raw (bytes : list byte)
  | Word (z : Z)
  | Double (z : Z)
  | Flag (b : bool)
  | Text (s : list byte)
  | Texts (l : list (list byte))
  | Words (l : list Z)
  | Indices (l : list Z)
  | Digest (f : bool) (bytes : list byte).

Definition encode_text (s : list byte) : list byte := le_bytes 4 (size s) ++ s.

Definition encode_item (x : item) : list byte :=
  match x with
  | Raw bytes => bytes
  | Word z => le_bytes 4 z
  | Double z => le_bytes 8 z
  | Flag b => le_bytes 4 (if b then 1 else 0)
  | Text s => encode_text s
  | Texts l => le_bytes 4 (zlength l) ++ concat (encode_text <$> l)
  | Words l => concat (le_bytes 4 <$> l)
  | Indices l => le_bytes 4 (zlength l) ++ concat (le_bytes 4 <$> l)
  | Digest f bytes => le_bytes 4 (if f then 1 else 0) ++ bytes
  end.

Definition encode_items (xs : list item) : list byte := concat (encode_item <$> xs).

(** Values that fit their fields. *)
Definition item_ok (x : item) : Prop :=
  match x with
  | Raw _ | Flag _ => True
  | Word z => in_u32 z
  | Double z => in_u64 z
  | Text s => size s <= VARIANT_KEY_MAX_STRING_BYTES
  | Texts l => zlength l <= VARIANT_KEY_MAX_COMPILER_KEYWORDS /\ Forall (fun s => size s <= VARIANT_KEY_MAX_STRING_BYTES) l
  | Words l => Forall in_u32 l
  | Indices l => zlength l <= VARIANT_KEY_MAX_KEYWORD_INDICES /\ Forall in_u32 l
  | Digest _ bytes => size bytes = 32
  end.

(** The same field of two keys. *)
Definition same_field (x y : item) : Prop :=
  match x, y with
  | Raw a, Raw b => length a = length b
  | Words a, Words b => length a = length b
  | Word _, Word _ | Double _, Double _ | Flag _, Flag _ | Text _, Text _ | Texts _, Texts _
  | Indices _, Indices _ | Digest _ _, Digest _ _ => True
  | _, _ => False
  end.

Lemma le_bytes_inj n a b : 0 <= a < 256 ^ Z.of_nat n -> 0 <= b < 256 ^ Z.of_nat n -> le_bytes n a = le_bytes n b -> a = b.
Proof.
  intros Ha Hb Heq. apply (f_equal le_val) in Heq. rewrite !le_val_bytes, !Z.mod_small in Heq by done. done.
Qed.

Lemma word_prefix a b r r' : in_u32 a -> in_u32 b -> le_bytes 4 a ++ r = le_bytes 4 b ++ r' -> a = b /\ r = r'.
Proof.
  intros Ha Hb Heq. apply app_inj_1 in Heq as [Heq ->]; [|done]. split; [|done]. by apply (le_bytes_inj 4).
Qed.

Lemma text_prefix s t r r' : size s <= VARIANT_KEY_MAX_STRING_BYTES -> size t <= VARIANT_KEY_MAX_STRING_BYTES ->
  encode_text s ++ r = encode_text t ++ r' -> s = t /\ r = r'.
Proof.
  unfold encode_text, VARIANT_KEY_MAX_STRING_BYTES. rewrite <- !app_assoc. intros Hs Ht Heq.
  pose proof (size_nonneg s). pose proof (size_nonneg t).
  apply word_prefix in Heq as [Hlen Heq]; [|unfold in_u32; lia..]. unfold size in Hlen. apply app_inj_1 in Heq; [done|lia].
Qed.

(** Two lists of as many entries, each of which tells its own end. *)
Lemma concat_prefix {A} (f : A -> list byte) (P : A -> Prop) :
  (forall x y r r', P x -> P y -> f x ++ r = f y ++ r' -> x = y /\ r = r') ->
  forall l l' r r', length l = length l' -> Forall P l -> Forall P l' ->
  concat (f <$> l) ++ r = concat (f <$> l') ++ r' -> l = l' /\ r = r'.
Proof.
  intros Hf l. induction l as [|x l IH]; intros [|y l'] r r' Hlen Hl Hl' Heq; try done.
  apply list.Forall_cons in Hl as [Hx Hl], Hl' as [Hy Hl']. cbn in Heq. rewrite <- !app_assoc in Heq.
  apply Hf in Heq as [-> Heq]; [|done..]. injection Hlen as Hlen.
  by destruct (IH l' r r' Hlen Hl Hl' Heq) as [-> ->].
Qed.

Lemma word_list_prefix l l' r r' : length l = length l' -> Forall in_u32 l -> Forall in_u32 l' ->
  concat (le_bytes 4 <$> l) ++ r = concat (le_bytes 4 <$> l') ++ r' -> l = l' /\ r = r'.
Proof. apply concat_prefix. intros x y s s' Hx Hy. by apply word_prefix. Qed.

(** An item tells its own end. *)
Lemma item_prefix x y r r' : same_field x y -> item_ok x -> item_ok y ->
  encode_item x ++ r = encode_item y ++ r' -> x = y /\ r = r'.
Proof.
  assert (Hb : forall b : bool, in_u32 (if b then 1 else 0)) by (intros []; unfold in_u32; lia).
  destruct x as [a|a|a|a|a|a|a|a|a u], y as [b|b|b|b|b|b|b|b|b v]; try done; cbn [encode_item item_ok same_field]; intros Hs Hx Hy Heq.
  - apply app_inj_1 in Heq as [-> ->]; done.
  - apply word_prefix in Heq as [-> ->]; done.
  - apply app_inj_1 in Heq as [Heq ->]; [|done]. split; [|done]. f_equal. by apply (le_bytes_inj 8).
  - apply word_prefix in Heq as [Heq ->]; [|done..]. by destruct a, b.
  - by apply text_prefix in Heq as [-> ->].
  - rewrite <- !app_assoc in Heq. destruct Hx as [Hx Hx'], Hy as [Hy Hy'].
    pose proof (zlength_nonneg a). pose proof (zlength_nonneg b). unfold VARIANT_KEY_MAX_COMPILER_KEYWORDS in *.
    apply word_prefix in Heq as [Hlen Heq]; [|unfold in_u32; lia..]. unfold zlength in Hlen.
    apply (concat_prefix _ (fun s => size s <= VARIANT_KEY_MAX_STRING_BYTES)) in Heq as [-> ->]; [done| |lia|done|done].
    intros s t q q'. apply text_prefix.
  - apply word_list_prefix in Heq as [-> ->]; done.
  - rewrite <- !app_assoc in Heq. destruct Hx as [Hx Hx'], Hy as [Hy Hy'].
    pose proof (zlength_nonneg a). pose proof (zlength_nonneg b). unfold VARIANT_KEY_MAX_KEYWORD_INDICES in *.
    apply word_prefix in Heq as [Hlen Heq]; [|unfold in_u32; lia..]. unfold zlength in Hlen.
    apply word_list_prefix in Heq as [-> ->]; [done|lia|done|done].
  - rewrite <- !app_assoc in Heq. apply word_prefix in Heq as [Heq1 Heq2]; [|done..].
    apply app_inj_1 in Heq2 as [-> ->]; [|unfold size in *; lia]. by destruct a, b.
Qed.

(** The encoding of a key's items tells them all. *)
Lemma encode_items_inj xs ys : Forall2 same_field xs ys -> Forall item_ok xs -> Forall item_ok ys ->
  encode_items xs = encode_items ys -> xs = ys.
Proof.
  unfold encode_items. induction 1 as [|x y xs ys Hf _ IH]; [done|]. intros Hx Hy Heq.
  apply list.Forall_cons in Hx as [Hx Hxs], Hy as [Hy Hys]. cbn in Heq.
  apply item_prefix in Heq as [-> Heq]; [|done..]. f_equal. by apply IH.
Qed.

(** * The items of a key *)

Fixpoint upto_nul (block : list byte) : list byte :=
  match block with
  | [] => []
  | b :: block => if bool_decide (b = Byte.x00) then [] else b :: upto_nul block
  end.

Lemma upto_c_string block s : c_string block s -> upto_nul block = s.
Proof.
  revert s. induction block as [|b block IH]; intros s Hs; [by apply c_string_nil in Hs|].
  apply c_string_cons in Hs as [[-> ->]|(s' & -> & Hb & Hs)]; cbn [upto_nul]; [done|].
  rewrite bool_decide_false by done. by rewrite (IH _ Hs).
Qed.

Definition text_of (t : text) : list byte := upto_nul (default [] t).
Definition texts_of (ts : texts) (count : Z) : list (list byte) := text_of <$> take (Z.to_nat count) (default [] ts).
Definition indices_of (ix : option (list Z)) (count : Z) : list Z := take (Z.to_nat count) (default [] ix).

Lemma is_text_of t s : is_text t s -> text_of t = s.
Proof. intros (b & -> & Hs & _). by apply upto_c_string. Qed.

Lemma are_texts_of ts count l : are_texts ts count l -> texts_of ts count = l.
Proof.
  intros (Hl & _ & Hts). unfold texts_of. destruct (Z.eqb_spec count 0) as [->|Hne].
  - destruct l as [|s l]; [done|]. unfold zlength in Hl. cbn in Hl. lia.
  - destruct Hts as (values & -> & HF). change (default [] (Some values)) with values. clear Hl Hne.
    induction HF as [|t s ts' l' Ht _ IH]; [done|]. cbn. by rewrite (is_text_of _ _ Ht), IH.
Qed.

Lemma are_indices_of ix count l : are_indices ix count l -> indices_of ix count = l.
Proof.
  intros (Hl & _ & _ & Hix). unfold indices_of. destruct (Z.eqb_spec count 0) as [->|Hne].
  - destruct l as [|s l]; [done|]. unfold zlength in Hl. cbn in Hl. lia.
  - by destruct Hix as (values & -> & <-).
Qed.

(** The range of an [int32_t], and of an [int64_t]. *)
Definition in_i32 (z : Z) : Prop := - 2 ^ 31 <= z < 2 ^ 31.
Definition in_i64 (z : Z) : Prop := - 2 ^ 63 <= z < 2 ^ 63.

Record compiler_ok (c : VariantCompilerAuthority) : Prop := {
  co_words : Forall in_u32 [vc_schema_version c; vc_build_platform c; vc_compiler_flags c; vc_request_program_mask c; vc_valid_apis c];
  co_integers : Forall in_i32 [vc_language c; vc_shader_type c; vc_program_start c; vc_render_state_length c];
  co_requirements : in_u64 (vc_request_requirements c);
  co_directory : is_text (vc_source_directory c) (text_of (vc_source_directory c));
  co_basename : is_text (vc_source_basename c) (text_of (vc_source_basename c));
  co_pass : is_text (vc_pass_name c) (text_of (vc_pass_name c));
  co_variant : are_texts (vc_variant_keywords c) (vc_variant_keyword_count c) (texts_of (vc_variant_keywords c) (vc_variant_keyword_count c));
  co_user : are_texts (vc_user_keywords c) (vc_user_keyword_count c) (texts_of (vc_user_keywords c) (vc_user_keyword_count c));
  co_enabled : are_texts (vc_enabled_platform_keywords c) (vc_enabled_platform_keyword_count c)
    (texts_of (vc_enabled_platform_keywords c) (vc_enabled_platform_keyword_count c));
  co_disabled : are_texts (vc_disabled_keywords c) (vc_disabled_keyword_count c) (texts_of (vc_disabled_keywords c) (vc_disabled_keyword_count c));
  co_fingerprints : Forall fingerprint_ok [vc_compiler_fingerprint c; vc_environment_fingerprint c;
    vc_source_fingerprint c; vc_request_input_fingerprint c];
}.

(** A key as [variant_key_init] makes it. *)
Record key_ok (key : VariantKey) : Prop := {
  ko_path : in_i64 (vk_shader_path_id key);
  ko_words : Forall in_u32 [vk_subshader_index key; vk_pass_index key; vk_stage key; vk_archive_platform_index key;
    vk_hardware_tier_group key; vk_subprogram_index key; vk_serialized_program_mask key; vk_player_source_map key];
  ko_integers : Forall in_i32 [vk_compiler_platform key; vk_parameter_blob_index key; vk_serialized_program_type key;
    vk_serialized_hardware_tier key; vk_player_program_type key];
  ko_requirements : in_u64 (vk_serialized_requirements key);
  ko_header : length (vk_player_header_words key) = 4%nat /\ Forall in_u32 (vk_player_header_words key);
  ko_global : are_indices (vk_global_keyword_indices key) (vk_global_keyword_index_count key)
    (indices_of (vk_global_keyword_indices key) (vk_global_keyword_index_count key));
  ko_local : are_indices (vk_local_keyword_indices key) (vk_local_keyword_index_count key)
    (indices_of (vk_local_keyword_indices key) (vk_local_keyword_index_count key));
  ko_compiler : compiler_ok (vk_compiler key);
}.

Definition fingerprint_item (f : VariantKeyFingerprint) : item := Digest (fp_present f) (fingerprint_digest f).

Definition compiler_items (c : VariantCompilerAuthority) : list item := [
  Word (vc_schema_version c); Word (vc_build_platform c); Word (vc_compiler_flags c); Word (u32 (vc_language c));
  Word (u32 (vc_shader_type c)); Double (vc_request_requirements c); Word (vc_request_program_mask c);
  Word (u32 (vc_program_start c)); Word (u32 (vc_render_state_length c)); Word (vc_valid_apis c);
  Flag (vc_caching_preprocessor c); Flag (vc_preprocess_only c); Flag (vc_strip_line_directives c);
  Text (text_of (vc_source_directory c)); Text (text_of (vc_source_basename c)); Text (text_of (vc_pass_name c));
  Texts (texts_of (vc_variant_keywords c) (vc_variant_keyword_count c));
  Texts (texts_of (vc_user_keywords c) (vc_user_keyword_count c));
  Texts (texts_of (vc_enabled_platform_keywords c) (vc_enabled_platform_keyword_count c));
  Texts (texts_of (vc_disabled_keywords c) (vc_disabled_keyword_count c));
  fingerprint_item (vc_compiler_fingerprint c); fingerprint_item (vc_environment_fingerprint c);
  fingerprint_item (vc_source_fingerprint c); fingerprint_item (vc_request_input_fingerprint c)].

(** Everything after the size. *)
Definition body_items (key : VariantKey) : list item := [
  Double (u64 (vk_shader_path_id key)); Word (vk_subshader_index key); Word (vk_pass_index key); Word (vk_stage key);
  Word (u32 (vk_compiler_platform key)); Word (vk_archive_platform_index key); Word (vk_hardware_tier_group key);
  Word (vk_subprogram_index key); Word (u32 (vk_parameter_blob_index key)); Word (u32 (vk_serialized_program_type key));
  Flag (vk_serialized_hardware_tier_present key); Word (u32 (vk_serialized_hardware_tier key));
  Double (vk_serialized_requirements key); Word (vk_serialized_program_mask key);
  Flag (vk_player_metadata_present key); Word (u32 (vk_player_program_type key));
  Words (vk_player_header_words key); Word (vk_player_source_map key); Flag (vk_keyword_scopes_are_explicit key);
  Indices (indices_of (vk_global_keyword_indices key) (vk_global_keyword_index_count key));
  Indices (indices_of (vk_local_keyword_indices key) (vk_local_keyword_index_count key))] ++
  compiler_items (vk_compiler key).

(** The magic, the version, the size of the whole, and the rest. *)
Definition key_items (key : VariantKey) : list item :=
  [Raw VARIANT_KEY_MAGIC; Word VARIANT_KEY_FORMAT_VERSION; Double (20 + size (encode_items (body_items key)))] ++ body_items key.

Definition encoding (key : VariantKey) : list byte := encode_items (key_items key).

(** * Sizes *)

Fixpoint texts_size (l : list (list byte)) : Z := match l with [] => 0 | s :: l => 4 + size s + texts_size l end.

Definition item_size (x : item) : Z :=
  match x with
  | Raw bytes => size bytes
  | Word _ | Flag _ => 4
  | Double _ => 8
  | Text s => 4 + size s
  | Texts l => 4 + texts_size l
  | Words l => 4 * zlength l
  | Indices l => 4 + 4 * zlength l
  | Digest _ bytes => 4 + size bytes
  end.

Fixpoint items_size (xs : list item) : Z := match xs with [] => 0 | x :: xs => item_size x + items_size xs end.

Lemma size_le n z : size (le_bytes n z) = Z.of_nat n.
Proof. unfold size. by rewrite length_le_bytes. Qed.

Lemma size_words l : size (concat (le_bytes 4 <$> l)) = 4 * zlength l.
Proof.
  induction l as [|z l IH]; [done|]. cbn [fmap list_fmap concat]. rewrite size_app, size_le, IH.
  unfold zlength. cbn [length]. lia.
Qed.

Lemma size_texts l : size (concat (encode_text <$> l)) = texts_size l.
Proof.
  induction l as [|s l IH]; [done|]. cbn [fmap list_fmap concat texts_size]. unfold encode_text at 1.
  rewrite !size_app, size_le, IH. lia.
Qed.

Lemma size_item x : size (encode_item x) = item_size x.
Proof.
  destruct x; cbn [encode_item item_size]; unfold encode_text; rewrite ?size_app, ?size_le, ?size_words, ?size_texts; lia.
Qed.

Lemma size_items xs : size (encode_items xs) = items_size xs.
Proof.
  unfold encode_items. induction xs as [|x xs IH]; [done|]. cbn [fmap list_fmap concat items_size].
  by rewrite size_app, size_item, IH.
Qed.

Lemma texts_size_app l l' : texts_size (l ++ l') = texts_size l + texts_size l'.
Proof. induction l; cbn [texts_size app]; lia. Qed.

Lemma texts_size_bound l : Forall (fun s => size s <= VARIANT_KEY_MAX_STRING_BYTES) l ->
  0 <= texts_size l <= zlength l * (4 + VARIANT_KEY_MAX_STRING_BYTES).
Proof.
  unfold VARIANT_KEY_MAX_STRING_BYTES, zlength.
  induction 1 as [|s l Hs _ IH]; [done|]. cbn [texts_size length]. pose proof (size_nonneg s). lia.
Qed.

Lemma are_texts_ok ts count l : are_texts ts count l -> item_ok (Texts l).
Proof.
  intros (Hl & Hc & Hts). split; [lia|]. destruct (Z.eqb_spec count 0) as [->|Hne].
  - destruct l as [|s l]; [done|]. unfold zlength in Hl. cbn in Hl. lia.
  - destruct Hts as (values & _ & HF). clear Hl Hc Hne. induction HF as [|t s ts' l' (b & _ & _ & Hs) _ IH]; constructor; done.
Qed.

Lemma digest_ok f : fingerprint_ok f -> item_ok (fingerprint_item f).
Proof. intros Hf. cbn. unfold size. by rewrite (size_digest f Hf). Qed.

Lemma i32_word z : in_u32 (u32 z).
Proof. apply u32_range. Qed.

Ltac each H := repeat match type of H with Forall _ (_ :: _) =>
  let H1 := fresh "Hf" in apply list.Forall_cons in H as [H1 H] end; clear H.

Lemma compiler_items_ok c : compiler_ok c -> Forall item_ok (compiler_items c).
Proof.
  intros [Hw _ Hr Hd Hb Hp Hv Hu He Hdis Hf]. each Hw. each Hf.
  apply are_texts_ok in Hv, Hu, He, Hdis. destruct Hd as (? & _ & _ & ?), Hb as (? & _ & _ & ?), Hp as (? & _ & _ & ?).
  unfold compiler_items. repeat (apply list.Forall_cons_2; [first [done|apply i32_word|by apply digest_ok]|]). by constructor.
Qed.

Lemma body_items_ok key : key_ok key -> Forall item_ok (body_items key).
Proof.
  intros [Hp Hw _ Hr [_ Hh] Hg Hl Hc]. each Hw. destruct Hg as (Hg1 & Hg2 & Hg3 & _), Hl as (Hl1 & Hl2 & Hl3 & _).
  apply list.Forall_app. split; [|by apply compiler_items_ok].
  repeat (apply list.Forall_cons_2; [first [done|apply u32_range|apply u64_range|by split; [lia|]]|]). by constructor.
Qed.

(** The size [variant_key_serialize] adds up. *)
Definition key_total (key : VariantKey) : Z :=
  let c := vk_compiler key in
  340 + vk_global_keyword_index_count key * 4 + vk_local_keyword_index_count key * 4 +
  (4 + size (text_of (vc_source_directory c))) + (4 + size (text_of (vc_source_basename c))) +
  (4 + size (text_of (vc_pass_name c))) +
  texts_size (texts_of (vc_variant_keywords c) (vc_variant_keyword_count c)) +
  texts_size (texts_of (vc_user_keywords c) (vc_user_keyword_count c)) +
  texts_size (texts_of (vc_enabled_platform_keywords c) (vc_enabled_platform_keyword_count c)) +
  texts_size (texts_of (vc_disabled_keywords c) (vc_disabled_keyword_count c)).

Lemma key_total_size key : key_ok key -> 20 + size (encode_items (body_items key)) = key_total key.
Proof.
  intros [_ _ _ _ [Hh _] [Hg _] [Hl _] [_ _ _ _ _ _ _ _ _ _ Hf]]. each Hf.
  repeat match goal with H : fingerprint_ok ?f |- _ => apply digest_ok in H; cbn [item_ok fingerprint_item] in H end.
  rewrite size_items. unfold key_total, body_items, compiler_items, fingerprint_item.
  cbn [app items_size item_size]. rewrite Hg, Hl. unfold zlength at 1. rewrite Hh. lia.
Qed.

Lemma key_total_range key : key_ok key -> 340 <= key_total key < 2 ^ 50.
Proof.
  intros [_ _ _ _ _ (Hg & Hgc & _) (Hl & Hlc & _) [_ _ _ Hd Hb Hp Hv Hu He Hdis _]].
  pose proof (zlength_nonneg (indices_of (vk_global_keyword_indices key) (vk_global_keyword_index_count key))).
  pose proof (zlength_nonneg (indices_of (vk_local_keyword_indices key) (vk_local_keyword_index_count key))).
  destruct Hd as (_ & _ & _ & Hd), Hb as (_ & _ & _ & Hb), Hp as (_ & _ & _ & Hp).
  apply are_texts_ok in Hv as [Hv1 Hv], Hu as [Hu1 Hu], He as [He1 He], Hdis as [Hdis1 Hdis].
  apply texts_size_bound in Hv, Hu, He, Hdis. unfold key_total.
  repeat match goal with |- context [size ?s] => pose proof (size_nonneg s); generalize dependent (size s); intros end.
  unfold VARIANT_KEY_MAX_KEYWORD_INDICES, VARIANT_KEY_MAX_COMPILER_KEYWORDS, VARIANT_KEY_MAX_STRING_BYTES in *. lia.
Qed.

(** * Adding up the size *)

(** A computation that cannot fail has the result it is shown to have. *)
Lemma outcome_value {E A} (m : res E A) a : outcome m (fun x => x = a) (fun _ => False) -> m = Ret a.
Proof. destruct m; cbn; [by intros ->|done..]. Qed.

Lemma checked_add_ok amount total : 0 <= amount -> total + amount < 2 ^ 64 -> checked_add_size amount total = Ret (total + amount).
Proof. intros Ha Ht. unfold checked_add_size, SIZE_MAX. by rewrite (proj2 (Z.ltb_ge _ _)) by lia. Qed.

Lemma checked_add_text_ok t s total : is_text t s -> 0 <= total < 2 ^ 60 ->
  checked_add_encoded_string_size t total = Ret (total + (4 + size s)).
Proof.
  intros (block & -> & Hs & Hmax) Ht. unfold checked_add_encoded_string_size. cbn [ptr]. mstep.
  rewrite (strlen_spec _ _ Hs). mstep. unfold VARIANT_KEY_MAX_STRING_BYTES in Hmax. pose proof (size_nonneg s).
  rewrite (proj2 (Z.ltb_ge _ _)) by lia. rewrite checked_add_ok by lia. mstep. rewrite checked_add_ok by lia. f_equal. lia.
Qed.

Lemma take_znth {A} (l : list A) j x : 0 <= j -> znth l j = Some x ->
  take (Z.to_nat (j + 1)) l = take (Z.to_nat j) l ++ [x].
Proof.
  intros Hj Hx. rewrite znth_nonneg in Hx by done. replace (Z.to_nat (j + 1)) with (S (Z.to_nat j)) by lia. by apply take_S_r.
Qed.

Lemma take_all {A} (l : list A) : take (Z.to_nat (zlength l)) l = l.
Proof. unfold zlength. rewrite Nat2Z.id. apply firstn_all. Qed.

Lemma concat_take {A} (f : A -> list byte) l i x : 0 <= i -> znth l i = Some x ->
  size (concat (f <$> take (Z.to_nat i) l)) + size (f x) <= size (concat (f <$> l)).
Proof.
  intros Hi Hx. rewrite <- (take_drop (Z.to_nat (i + 1)) l) at 2. rewrite (take_znth l i x Hi Hx), !fmap_app, !concat_app, !size_app.
  cbn [fmap list_fmap concat]. rewrite app_nil_r. pose proof (size_nonneg (concat (f <$> drop (Z.to_nat (i + 1)) l))). lia.
Qed.

(** A loop over the strings of an array that folds a measure of each. *)
Lemma texts_loop {E S} (T : list (list byte) -> S -> Prop) ts count l (body : list text -> Z -> S -> res E S) s :
  are_texts ts count l -> T [] s ->
  (forall values i t x l' s', ts = Some values -> znth values i = Some t -> is_text t x -> 0 <= i < count ->
     znth l i = Some x -> l' = take (Z.to_nat i) l -> T l' s' -> outcome (body values i s') (T (l' ++ [x])) (fun _ => False)) ->
  outcome (for_loop (Z.to_nat count) 0 (fun i s => values ← ptr ts; body values i s) s) (T l) (fun _ => False).
Proof.
  intros Hts Hs Hbody. pose proof Hts as (Hl & _). pose proof (zlength_nonneg l).
  eapply outcome_mono; [apply outcome_for with (I := fun i s => T (take (Z.to_nat i) l) s) (F := fun _ => False)| |done].
  - done.
  - intros i t Hi Ht. destruct (are_texts_at ts count l i Hts ltac:(lia)) as (values & v & x & Hv & Hvi & Hxi & Hx).
    rewrite Hv. cbn [ptr]. mstep. rewrite (take_znth l i x) by (done || lia). by eapply Hbody; eauto; lia.
  - intros t. rewrite Z2Nat.id, Z.add_0_l, <- Hl, take_all by lia. done.
Qed.

Lemma checked_add_texts_ok ts count l total : are_texts ts count l -> 0 <= total < 2 ^ 55 ->
  checked_add_string_array_size ts count total = Ret (total + texts_size l).
Proof.
  intros Hts Ht. apply outcome_value. pose proof (texts_size_bound l (proj2 (are_texts_ok _ _ _ Hts))) as Hb.
  pose proof Hts as (Hl & Hc & _). unfold VARIANT_KEY_MAX_COMPILER_KEYWORDS, VARIANT_KEY_MAX_STRING_BYTES in *.
  eapply outcome_mono; [apply (texts_loop (fun l' t => t = total + texts_size l') ts count l
    (fun values i total => value ← aget values i; checked_add_encoded_string_size value total)); [done|cbn; lia|]|done|done].
  intros values i t x l' s' _ Hvi Hx Hi Hxi -> ->. rewrite (aget_ok _ _ _ Hvi). mstep.
  assert (Hle : 0 <= texts_size (take (Z.to_nat i) l) <= texts_size l).
  { pose proof (are_texts_ok _ _ _ Hts) as [_ HF].
    assert (Heq : texts_size l = texts_size (take (Z.to_nat i) l) + texts_size (drop (Z.to_nat i) l))
      by by rewrite <- texts_size_app, take_drop.
    pose proof (texts_size_bound _ (list.Forall_take _ (Z.to_nat i) _ HF)).
    pose proof (texts_size_bound _ (list.Forall_drop _ (Z.to_nat i) _ HF)). lia. }
  rewrite (checked_add_text_ok _ x) by (done || lia). cbn. rewrite texts_size_app. cbn [texts_size]. lia.
Qed.

Lemma serialized_size_ok key : key_ok key -> serialized_size key = Ret (key_total key).
Proof.
  intros Hok. pose proof (key_total_range key Hok) as Hrange. unfold key_total in Hrange |- *.
  destruct Hok as [_ _ _ _ _ (Hg & Hgc & _) (Hl & Hlc & _) [_ _ _ Hd Hb Hp Hv Hu He Hdis _]].
  pose proof (zlength_nonneg (indices_of (vk_global_keyword_indices key) (vk_global_keyword_index_count key))).
  pose proof (zlength_nonneg (indices_of (vk_local_keyword_indices key) (vk_local_keyword_index_count key))).
  pose proof (texts_size_bound _ (proj2 (are_texts_ok _ _ _ Hv))). pose proof (texts_size_bound _ (proj2 (are_texts_ok _ _ _ Hu))).
  pose proof (texts_size_bound _ (proj2 (are_texts_ok _ _ _ He))). pose proof (texts_size_bound _ (proj2 (are_texts_ok _ _ _ Hdis))).
  unfold VARIANT_KEY_MAX_KEYWORD_INDICES in *. unfold serialized_size, SIZE_MAX. change (18446744073709551615 / 4) with 4611686018427387903.
  rewrite !(proj2 (Z.ltb_ge _ _)) by lia. cbn [orb].
  pose proof (size_nonneg (text_of (vc_source_directory (vk_compiler key)))).
  pose proof (size_nonneg (text_of (vc_source_basename (vk_compiler key)))).
  pose proof (size_nonneg (text_of (vc_pass_name (vk_compiler key)))).
  rewrite checked_add_ok by lia. mstep. rewrite checked_add_ok by lia. mstep.
  rewrite (checked_add_text_ok _ _ _ Hd) by lia. mstep. rewrite (checked_add_text_ok _ _ _ Hb) by lia. mstep.
  rewrite (checked_add_text_ok _ _ _ Hp) by lia. mstep. rewrite (checked_add_texts_ok _ _ _ _ Hv) by lia. mstep.
  rewrite (checked_add_texts_ok _ _ _ _ Hu) by lia. mstep. rewrite (checked_add_texts_ok _ _ _ _ He) by lia. mstep.
  by apply checked_add_texts_ok; [|lia].
Qed.

(** * Writing *)

Lemma for_loop_ext {E S} n i (f g : Z -> S -> res E S) s :
  (forall j t, i <= j < i + Z.of_nat n -> f j t = g j t) -> for_loop n i f s = for_loop n i g s.
Proof.
  revert i s. induction n as [|n IH]; intros i s Hfg; [done|]. cbn [for_loop]. rewrite Hfg by lia.
  destruct (g i s); [|done..]. mstep. apply IH. intros. apply Hfg. lia.
Qed.


(** A write appends these bytes where there is room for them. *)
Definition appends (write : VariantKeyWriter -> res unit VariantKeyWriter) (bytes : list byte) : Prop :=
  forall w, size (vw_data w) + size bytes <= vw_size w ->
    write w = Ret {| vw_data := vw_data w ++ bytes; vw_size := vw_size w |}.

Lemma appends_bytes bytes : appends (writer_bytes bytes) bytes.
Proof.
  intros w Hw. unfold writer_bytes. pose proof (size_nonneg bytes). by rewrite !(proj2 (Z.ltb_ge _ _)) by lia.
Qed.

(** One write after another. *)
Lemma appends_then f g a b : appends f a -> appends g b -> appends (fun w => f w ≫= g) (a ++ b).
Proof.
  intros Hf Hg w Hw. rewrite size_app in Hw. pose proof (size_nonneg b). rewrite Hf by lia. mstep.
  rewrite Hg; cbn [vw_data vw_size]; [by rewrite app_assoc|rewrite size_app; lia].
Qed.

Lemma appends_text t s : is_text t s -> appends (writer_string t) (encode_text s).
Proof.
  intros (block & -> & Hs & Hmax) w Hw. unfold writer_string. cbn [ptr]. mstep. rewrite (strlen_spec _ _ Hs). mstep.
  unfold VARIANT_KEY_MAX_STRING_BYTES in Hmax. rewrite (proj2 (Z.ltb_ge _ _)) by lia.
  unfold encode_text in Hw |- *. rewrite size_app in Hw. pose proof (size_nonneg s).
  unfold writer_u32. rewrite (appends_bytes _ w) by lia. mstep. rewrite (c_string_view _ _ Hs). mstep.
  rewrite appends_bytes; cbn [vw_data vw_size]; [by rewrite app_assoc|rewrite size_app; lia].
Qed.

Lemma appends_fingerprint f : fingerprint_ok f -> appends (writer_fingerprint f) (encode_item (fingerprint_item f)).
Proof.
  intros Hf. unfold writer_fingerprint, writer_bool, writer_u32. cbn [encode_item fingerprint_item].
  apply (appends_then (writer_bytes _) (fun w => _ ≫= fun bytes => writer_bytes bytes w)); [apply appends_bytes|].
  intros w Hw. unfold fingerprint_digest in Hw |- *. destruct (fp_present f); [|by apply appends_bytes].
  unfold fingerprint_ok in Hf. rewrite view_ok by (unfold VARIANT_KEY_DIGEST_SIZE; lia). mstep. by apply appends_bytes.
Qed.

Lemma appends_texts ts count l : are_texts ts count l -> appends (writer_string_array ts count) (encode_item (Texts l)).
Proof.
  intros Hts. pose proof Hts as (Hl & Hc & _). unfold VARIANT_KEY_MAX_COMPILER_KEYWORDS in Hc. cbn [encode_item]. rewrite Hl.
  intros w Hw. unfold writer_string_array. rewrite (proj2 (Z.ltb_ge _ _)) by lia. revert w Hw.
  apply (appends_then (writer_u32 count)); [apply appends_bytes|]. intros w Hw. apply outcome_value.
  eapply outcome_mono; [apply (texts_loop (fun l' w' => w' = {| vw_data := vw_data w ++ concat (encode_text <$> l'); vw_size := vw_size w |})
    ts count l (fun values i writer => value ← aget values i; writer_string value writer)); [done| |]|done|done].
  - cbn. rewrite app_nil_r. by destruct w.
  - intros values i t x l' s' _ Hvi Hx Hi Hxi -> ->. rewrite (aget_ok _ _ _ Hvi). mstep.
    rewrite (appends_text _ x Hx); cbn [vw_data vw_size].
    + cbn. rewrite fmap_app, concat_app. cbn. by rewrite app_nil_r, app_assoc.
    + rewrite size_app. pose proof (concat_take encode_text l i x ltac:(lia) Hxi). lia.
Qed.

Lemma appends_words l : appends (fun w => for_loop (length l) 0 (fun i w => word ← aget l i; writer_u32 word w) w) (concat (le_bytes 4 <$> l)).
Proof.
  intros w Hw. apply outcome_value.
  eapply outcome_mono; [apply outcome_for with (F := fun _ => False)
    (I := fun i w' => w' = {| vw_data := vw_data w ++ concat (le_bytes 4 <$> take (Z.to_nat i) l); vw_size := vw_size w |})| |done].
  - cbn. rewrite app_nil_r. by destruct w.
  - intros i w' Hi ->. destruct (znth_is_Some l i) as [x Hx]; [unfold zlength; lia|]. rewrite (aget_ok _ _ _ Hx). mstep.
    unfold writer_u32. rewrite appends_bytes; cbn [vw_data vw_size outcome].
    + rewrite (take_znth l i x), fmap_app, concat_app by (done || lia). cbn [fmap list_fmap concat].
      by rewrite app_nil_r, app_assoc.
    + rewrite size_app. pose proof (concat_take (le_bytes 4) l i x ltac:(lia) Hx). lia.
  - intros w' ->. by rewrite Z.add_0_l, Nat2Z.id, firstn_all.
Qed.

Lemma appends_indices ix count l : are_indices ix count l -> appends (writer_indices ix count) (encode_item (Indices l)).
Proof.
  intros (Hl & Hc & _ & Hix). unfold VARIANT_KEY_MAX_KEYWORD_INDICES in Hc. pose proof (zlength_nonneg l). cbn [encode_item]. rewrite Hl.
  unfold writer_indices. rewrite u32_small by lia. apply (appends_then (writer_u32 count)); [apply appends_bytes|].
  destruct (Z.eqb_spec count 0) as [->|Hne].
  { destruct l as [|x l]; [|unfold zlength in Hl; cbn in Hl; lia]. intros w _. cbn. rewrite app_nil_r. by destruct w. }
  destruct Hix as (values & -> & Htake). intros w Hw. rewrite <- (appends_words l w Hw).
  replace (Z.to_nat count) with (length l) in * by (unfold zlength in Hl; lia).
  apply for_loop_ext. intros i w' Hi. cbn [ptr]. mstep. f_equal. unfold aget. f_equal.
  rewrite !znth_nonneg, <- Htake by lia. rewrite lookup_take_lt by lia. done.
Qed.

Lemma write_all_ok writes bytes w : Forall2 appends writes bytes -> size (vw_data w) + size (concat bytes) <= vw_size w ->
  write_all writes w = Ret {| vw_data := vw_data w ++ concat bytes; vw_size := vw_size w |}.
Proof.
  intros HF. revert w. induction HF as [|f b writes bytes Hf _ IH]; intros w Hw; cbn [write_all concat].
  { rewrite app_nil_r. by destruct w. }
  cbn [concat] in Hw. rewrite size_app in Hw. pose proof (size_nonneg (concat bytes)). rewrite Hf by lia. mstep.
  rewrite IH; cbn [vw_data vw_size]; [by rewrite app_assoc|rewrite size_app; lia].
Qed.

Lemma compiler_writes_append c : compiler_ok c -> Forall2 appends (compiler_writes c) (encode_item <$> compiler_items c).
Proof.
  intros [_ _ _ Hd Hb Hp Hv Hu He Hdis Hf]. each Hf. unfold compiler_writes, compiler_items. cbn [fmap list_fmap].
  repeat (apply Forall2_cons; [first [apply appends_bytes|by apply appends_text|by apply appends_texts|by apply appends_fingerprint]|]).
  constructor.
Qed.

Lemma key_writes_append key : key_ok key -> Forall2 appends (key_writes key (key_total key)) (encode_item <$> key_items key).
Proof.
  intros Hok. pose proof (key_total_size key Hok) as Ht. unfold key_items. rewrite Ht. destruct Hok as [_ _ _ _ [Hh _] Hg Hl Hc].
  pose proof (appends_words (vk_player_header_words key)) as Hwords. rewrite Hh in Hwords.
  unfold key_writes, body_items. rewrite !fmap_app. rewrite (app_assoc (encode_item <$> _)). apply Forall2_app; [|by apply compiler_writes_append].
  cbn [fmap list_fmap app].
  repeat (apply Forall2_cons; [first [exact Hwords|by apply appends_indices|apply appends_bytes]|]). constructor.
Qed.

Lemma encoding_size key : key_ok key -> size (encoding key) = key_total key.
Proof.
  intros Hok. rewrite <- (key_total_size key Hok). unfold encoding, key_items, encode_items.
  rewrite fmap_app, concat_app, size_app. reflexivity.
Qed.

Section serialize.
Context `{L : LibcMalloc}.

Lemma serialize_ok key : key_ok key ->
  variant_key_serialize (Some key) true =
    if libc_malloc (key_total key) then Ret (encoding key) else Fail VARIANT_KEY_ALLOCATION_FAILED.
Proof.
  intros Hok. unfold variant_key_serialize. cbn [negb]. rewrite (serialized_size_ok key Hok). cbn [or_fail]. mstep.
  destruct (libc_malloc (key_total key)); cbn [negb]; [|done].
  pose proof (encoding_size key Hok) as Hs. unfold encoding, encode_items in Hs |- *.
  rewrite (write_all_ok _ _ _ (key_writes_append key Hok)) by (cbn [vw_data vw_size]; change (size []) with 0; lia).
  cbn [or_fail]. mstep. cbn [vw_data vw_size app]. by rewrite Hs, Z.eqb_refl.
Qed.
End serialize.

(** * Two keys *)

Lemma key_items_ok key : key_ok key -> Forall item_ok (key_items key).
Proof.
  intros Hok. pose proof (key_total_size key Hok) as Ht. pose proof (key_total_range key Hok) as Hr.
  unfold key_items. apply list.Forall_app. split; [|by apply body_items_ok].
  repeat (apply list.Forall_cons_2; [cbn [item_ok]; unfold in_u32, in_u64, VARIANT_KEY_FORMAT_VERSION; lia || done|]). constructor.
Qed.

Lemma same_fields l r : key_ok l -> key_ok r -> Forall2 same_field (key_items l) (key_items r).
Proof.
  intros [_ _ _ _ [Hl _] _ _ _] [_ _ _ _ [Hr _] _ _ _]. unfold key_items, body_items, compiler_items. cbn [app].
  repeat (apply Forall2_cons; [first [done|cbn [same_field]; congruence]|]). constructor.
Qed.

Lemma encoding_inj l r : key_ok l -> key_ok r -> encoding l = encoding r -> key_items l = key_items r.
Proof. intros Hl Hr. apply encode_items_inj; [by apply same_fields|by apply key_items_ok..]. Qed.

(** A test of two keys answers whether two items are the same. *)
Definition decides (test : res Empty_set bool) (P : Prop) : Prop := exists b, test = Ret b /\ (b = true <-> P).

(** Tests one after the other, each of which may rely on those before it. *)
Inductive judged : list (res Empty_set bool) -> list Prop -> Prop :=
| judged_nil : judged [] []
| judged_cons test P tests Ps : decides test P -> (P -> judged tests Ps) -> judged (test :: tests) (P :: Ps).

Lemma conjunction_decides tests Ps : judged tests Ps -> decides (conjunction tests) (Forall id Ps).
Proof.
  induction 1 as [|t P tests Ps (b & -> & Hb) _ IH]; cbn [conjunction].
  { exists true. split; [done|]. split; [constructor|done]. }
  mstep. destruct b.
  - destruct (IH (proj1 Hb eq_refl)) as (b' & Ht & Hb'). exists b'. split; [done|]. rewrite Hb', list.Forall_cons. unfold id at 2. tauto.
  - exists false. split; [done|]. split; [done|]. intros [HP _]%list.Forall_cons. unfold id in HP. tauto.
Qed.

Lemma decides_eqb a b : decides (Ret (a =? b)) (a = b).
Proof. eexists. split; [done|]. apply Z.eqb_eq. Qed.

Lemma decides_flag a b : decides (Ret (eqb a b)) (a = b).
Proof. eexists. split; [done|]. apply eqb_true_iff. Qed.

Lemma decides_text a b s t : is_text a s -> is_text b t -> decides (texts_equal a b) (s = t).
Proof.
  intros (x & -> & Hs & _) (y & -> & Ht & _). unfold texts_equal. cbn [ptr]. mstep. rewrite (strings_equal_spec _ _ _ _ Hs Ht).
  eexists. split; [done|]. apply bool_decide_eq_true.
Qed.

Lemma decides_texts a b n s t : are_texts a n s -> are_texts b n t -> decides (string_arrays_equal a b n) (s = t).
Proof.
  intros Hs Ht. pose proof Hs as (Hls & _). pose proof Ht as (Hlt & _). pose proof (zlength_nonneg s). unfold string_arrays_equal.
  destruct (any_index_spec (E:=Empty_set) (fun i => znth s i <> znth t i) (Z.to_nat n) 0 (texts_differ a b)) as (v & Hv & Hiff).
  { intros i Hi. destruct (are_texts_at a n s i Hs ltac:(lia)) as (xs & x & u & -> & Hx & Hu & (bx & -> & Hux & _)).
    destruct (are_texts_at b n t i Ht ltac:(lia)) as (ys & y & w & -> & Hy & Hw & (bw & -> & Hwy & _)).
    unfold texts_differ. cbn [ptr]. mstep. rewrite (aget_ok _ _ _ Hx). mstep. rewrite (aget_ok _ _ _ Hy). mstep. cbn [ptr]. mstep.
    rewrite (strings_equal_spec _ _ _ _ Hux Hwy). mstep. eexists. split; [done|].
    rewrite Hu, Hw, negb_true_iff, bool_decide_eq_false. split; congruence. }
  rewrite Hv. mstep. eexists. split; [done|]. rewrite negb_true_iff. split.
  - intros ->. apply list_eq. intros i. destruct (decide (i < length s)%nat) as [Hi|Hi].
    + destruct (decide (znth s (Z.of_nat i) = znth t (Z.of_nat i))) as [Heq|Hne].
      * rewrite !znth_nonneg, !Nat2Z.id in Heq by lia. done.
      * exfalso. enough (false = true) by done. apply Hiff. exists (Z.of_nat i). unfold zlength in Hls. split; [lia|done].
    + unfold zlength in *. by rewrite !lookup_ge_None_2 by lia.
  - intros ->. destruct v; [|done]. destruct (proj1 Hiff eq_refl) as (i & _ & Hne). done.
Qed.

Lemma decides_fingerprint f g : fingerprint_ok f -> fingerprint_ok g ->
  decides (fingerprints_equal f g) (fingerprint_item f = fingerprint_item g).
Proof.
  unfold fingerprint_ok, size. intros Hf Hg. unfold fingerprints_equal, fingerprint_item, fingerprint_digest.
  destruct (fp_present f), (fp_present g); cbn [eqb negb].
  - unfold memory_equal, VARIANT_KEY_DIGEST_SIZE, zlength. rewrite !(proj2 (Z.ltb_ge _ _)) by lia. cbn [orb].
    eexists. split; [done|]. change (Z.to_nat 32) with 32%nat. rewrite bool_decide_eq_true. split; [by intros ->|by intros [=]].
  - by exists false.
  - by exists false.
  - by exists true.
Qed.

Lemma decides_indices a b n s t : are_indices a n s -> are_indices b n t -> decides (indices_equal a b n) (s = t).
Proof.
  intros (Hs & _ & _ & Ha) (Ht & _ & _ & Hb). unfold indices_equal. destruct (Z.eqb_spec n 0) as [->|Hn].
  - exists true. split; [done|]. destruct s, t; unfold zlength in *; cbn in *; try lia. done.
  - destruct Ha as (x & -> & <-), Hb as (y & -> & <-). cbn [ptr]. mstep. unfold memory_equal.
    unfold zlength in Hs, Ht. rewrite length_take in Hs, Ht. unfold zlength. rewrite !(proj2 (Z.ltb_ge _ _)) by lia. cbn [orb].
    eexists. split; [done|]. apply bool_decide_eq_true.
Qed.

Lemma decides_memory n (a b : list Z) : length a = n -> length b = n -> decides (memory_equal (Z.of_nat n) a b) (a = b).
Proof.
  intros Ha Hb. unfold memory_equal, zlength. rewrite !(proj2 (Z.ltb_ge _ _)) by lia. cbn [orb].
  eexists. split; [done|]. rewrite Nat2Z.id, bool_decide_eq_true. rewrite <- Ha at 1. rewrite <- Hb. by rewrite !firstn_all.
Qed.

Lemma u32_signed_inj a b : in_i32 a -> in_i32 b -> u32 a = u32 b -> a = b.
Proof. unfold in_i32, u32. intros. Z.div_mod_to_equations. lia. Qed.

Lemma u64_signed_inj a b : in_i64 a -> in_i64 b -> u64 a = u64 b -> a = b.
Proof. unfold in_i64, u64. intros. Z.div_mod_to_equations. lia. Qed.

(** One test of two keys. *)
Ltac judge :=
  apply judged_cons; [
    first [ apply decides_eqb | apply decides_flag | eapply decides_text; eassumption | by apply decides_fingerprint
          | eapply decides_texts; [eassumption|match goal with H : ?n = _ |- are_texts _ ?n _ => rewrite H; eassumption end]
          | eapply decides_indices; [eassumption|match goal with H : ?n = _ |- are_indices _ ?n _ => rewrite H; eassumption end]
          | by apply (decides_memory 4) ]
  | let H := fresh "HP" in intros H ].

(** The tests hold together exactly if the items are the same. *)
Ltac same_items :=
  match goal with |- Forall id _ <-> _ => split end; [
    let H := fresh "H" in intros H; each H; unfold id in *; congruence
  | let H := fresh "H" in intros H; injection H; intros;
    repeat (apply list.Forall_cons_2; [unfold id; first
      [ congruence | by apply u32_signed_inj | by apply u64_signed_inj | unfold fingerprint_item; congruence ]|]);
    constructor ].

Lemma compiler_equal l r : compiler_ok l -> compiler_ok r ->
  decides (compiler_authority_equal l r) (compiler_items l = compiler_items r).
Proof.
  intros [_ Hi _ Hd Hb Hp Hv Hu He Hdis Hf] [_ Hi' _ Hd' Hb' Hp' Hv' Hu' He' Hdis' Hf']. each Hf. each Hf'. each Hi. each Hi'.
  pose proof (proj1 Hv). pose proof (proj1 Hv'). pose proof (proj1 Hu). pose proof (proj1 Hu').
  pose proof (proj1 He). pose proof (proj1 He'). pose proof (proj1 Hdis). pose proof (proj1 Hdis').
  eassert (Hj : judged _ _); [|destruct (conjunction_decides _ _ Hj) as (b & Hb0 & Hiff); exists b; split; [exact Hb0|]].
  { repeat judge. apply judged_nil. }
  rewrite Hiff. clear Hj Hiff Hb0. unfold compiler_items. same_items.
Qed.

Lemma key_equal l r same : key_ok l -> key_ok r -> (same = true -> l = r) ->
  decides (variant_key_equal same (Some l) (Some r)) (body_items l = body_items r).
Proof.
  intros Hl Hr Hsame. unfold variant_key_equal. destruct same; [exists true; split; [done|]; by rewrite Hsame|].
  destruct Hl as [Hpath _ Hi _ [Hh _] Hg Hloc Hc], Hr as [Hpath' _ Hi' _ [Hh' _] Hg' Hloc' Hc']. each Hi. each Hi'.
  pose proof (proj1 Hg). pose proof (proj1 Hg'). pose proof (proj1 Hloc). pose proof (proj1 Hloc').
  pose proof (compiler_equal _ _ Hc Hc') as Hcomp.
  eassert (Hj : judged _ _); [|destruct (conjunction_decides _ _ Hj) as (b & Hb0 & Hiff); exists b; split; [exact Hb0|]].
  { repeat (judge || (apply judged_cons; [exact Hcomp|let H := fresh "HP" in intros H])). apply judged_nil. }
  rewrite Hiff. clear Hj Hiff Hb0 Hcomp. unfold body_items. cbn [app].
  generalize (compiler_items (vk_compiler l)) (compiler_items (vk_compiler r)). intros cl cr. same_items.
Qed.
