(* ===== verification/VariantKeyTheorems.v ===== *)
(** Construction of variant keys: which descriptors are accepted, with which
    status the others are refused, and what the key holds. *)

From S2P Require Import Prelude CArray Heap VariantKey VariantKeyCorrect.

#[local] Set Warnings "-register-all".

(** * Descriptors *)

(** A string the caller passes can be read up to its NUL, or past the maximum. *)
Definition readable (t : text) : Prop :=
  forall block, t = Some block -> (exists s, c_string block s) \/ VARIANT_KEY_MAX_STRING_BYTES < size block.

Definition readable_texts (ts : texts) (count : Z) : Prop :=
  in_u64 count /\ forall values, ts = Some values -> count <= zlength values /\ Forall readable (take (Z.to_nat count) values).

Definition readable_indices (ix : option (list Z)) (count : Z) : Prop :=
  in_u64 count /\ forall values, ix = Some values -> count <= zlength values /\ Forall in_u32 (take (Z.to_nat count) values).

(** The keyword arrays of a descriptor, with their counts. *)
Definition keyword_arrays (c : VariantCompilerAuthority) : list (texts * Z) := [
  (vc_variant_keywords c, vc_variant_keyword_count c); (vc_user_keywords c, vc_user_keyword_count c);
  (vc_enabled_platform_keywords c, vc_enabled_platform_keyword_count c);
  (vc_disabled_keywords c, vc_disabled_keyword_count c)].

Definition path_texts (c : VariantCompilerAuthority) : list text :=
  [vc_source_directory c; vc_source_basename c; vc_pass_name c].

Definition fingerprints (c : VariantCompilerAuthority) : list VariantKeyFingerprint :=
  [vc_compiler_fingerprint c; vc_environment_fingerprint c; vc_source_fingerprint c; vc_request_input_fingerprint c].

Definition index_arrays (d : VariantKeyDescriptor) : list (option (list Z) * Z) := [
  (vk_global_keyword_indices d, vk_global_keyword_index_count d);
  (vk_local_keyword_indices d, vk_local_keyword_index_count d)].

(** What the types of a descriptor give: integers in range, pointers to as many
    elements as their counts say. *)
Record descriptor_ok (d : VariantKeyDescriptor) : Prop := {
  do_path : in_i64 (vk_shader_path_id d);
  do_words : Forall in_u32 [vk_subshader_index d; vk_pass_index d; vk_stage d; vk_archive_platform_index d;
    vk_hardware_tier_group d; vk_subprogram_index d; vk_serialized_program_mask d; vk_player_source_map d];
  do_integers : Forall in_i32 [vk_compiler_platform d; vk_parameter_blob_index d; vk_serialized_program_type d;
    vk_serialized_hardware_tier d; vk_player_program_type d];
  do_requirements : in_u64 (vk_serialized_requirements d);
  do_header : length (vk_player_header_words d) = 4%nat /\ Forall in_u32 (vk_player_header_words d);
  do_indices : Forall (fun p => readable_indices (fst p) (snd p)) (index_arrays d);
  do_compiler_words : Forall in_u32 [vc_schema_version (vk_compiler d); vc_build_platform (vk_compiler d);
    vc_compiler_flags (vk_compiler d); vc_request_program_mask (vk_compiler d); vc_valid_apis (vk_compiler d)];
  do_compiler_integers : Forall in_i32 [vc_language (vk_compiler d); vc_shader_type (vk_compiler d);
    vc_program_start (vk_compiler d); vc_render_state_length (vk_compiler d)];
  do_compiler_requirements : in_u64 (vc_request_requirements (vk_compiler d));
  do_texts : Forall readable (path_texts (vk_compiler d));
  do_keywords : Forall (fun p => readable_texts (fst p) (snd p)) (keyword_arrays (vk_compiler d));
  do_fingerprints : Forall fingerprint_ok (fingerprints (vk_compiler d));
}.

(** * What is refused *)

Definition is_keyword (t : text) : Prop := exists s, is_text t s /\ s <> [].

Definition too_many (d : VariantKeyDescriptor) : Prop :=
  Exists (fun p => VARIANT_KEY_MAX_KEYWORD_INDICES < snd p) (index_arrays d) \/
  Exists (fun p => VARIANT_KEY_MAX_COMPILER_KEYWORDS < snd p) (keyword_arrays (vk_compiler d)).

Definition inconsistent (d : VariantKeyDescriptor) : Prop :=
  Exists (fun p => ~ (snd p = 0 <-> fst p = None)) (index_arrays d) \/
  Exists (fun p => ~ (snd p = 0 <-> fst p = None)) (keyword_arrays (vk_compiler d)).

Definition keywords_bad (ts : texts) (count : Z) : Prop :=
  exists values i t, ts = Some values /\ 0 <= i < count /\ znth values i = Some t /\ ~ is_keyword t.

Definition fingerprint_bad (f : VariantKeyFingerprint) : Prop :=
  fp_present f = false /\ fp_bytes f <> replicate 32 Byte.x00.

(** The values a descriptor's integers may have. *)
Record fields_valid (d : VariantKeyDescriptor) : Prop := {
  fv_compiler_platform : 0 <= vk_compiler_platform d;
  fv_hardware_tier_group : vk_hardware_tier_group d <= 3;
  fv_parameter_blob_index : -1 <= vk_parameter_blob_index d;
  fv_serialized_program_type : 0 <= vk_serialized_program_type d;
  fv_serialized_hardware_tier : vk_serialized_hardware_tier_present d = true -> 0 <= vk_serialized_hardware_tier d <= 3;
  fv_player_program_type : vk_player_metadata_present d = true -> 0 <= vk_player_program_type d;
  fv_language : 0 <= vc_language (vk_compiler d);
  fv_shader_type : 0 <= vc_shader_type (vk_compiler d);
  fv_program_start : 0 <= vc_program_start (vk_compiler d);
  fv_render_state_length : 0 <= vc_render_state_length (vk_compiler d);
}.

Lemma fields_valid_iff d : descriptor_fields_bad d = false <-> fields_valid d.
Proof.
  unfold descriptor_fields_bad. cbv zeta. rewrite !orb_false_iff, !andb_false_iff, !orb_false_iff, !Z.ltb_ge. split.
  - intros H. destruct_and!. constructor; try done; intros Hp; rewrite Hp in *;
      repeat match goal with H : true = false \/ _ |- _ => destruct H as [H|H]; [done|] end; done.
  - intros [? ? ? ? Ht Hp ? ? ? ?]. split_and!; try done.
    + destruct (vk_serialized_hardware_tier_present d); [right; by apply Ht|by left].
    + destruct (vk_player_metadata_present d); [right; by apply Hp|by left].
Qed.

Definition bad_value (d : VariantKeyDescriptor) : Prop :=
  Exists (fun t => ~ exists s, is_text t s) (path_texts (vk_compiler d)) \/
  Exists (fun p => keywords_bad (fst p) (snd p)) (keyword_arrays (vk_compiler d)) \/
  ~ fields_valid d \/ Exists fingerprint_bad (fingerprints (vk_compiler d)).

(** The status says what is wrong. *)
Definition refused (d : VariantKeyDescriptor) (status : VariantKeyStatus) : Prop :=
  match status with
  | VARIANT_KEY_INVALID_COUNT => too_many d
  | VARIANT_KEY_INCONSISTENT_ARRAY => inconsistent d
  | VARIANT_KEY_INVALID_VALUE => bad_value d
  | _ => False
  end.

Definition valid_descriptor (d : VariantKeyDescriptor) : Prop := ~ too_many d /\ ~ inconsistent d /\ ~ bad_value d.

Lemma refused_invalid d status : refused d status -> ~ valid_descriptor d.
Proof. unfold valid_descriptor. destruct status; cbn; tauto. Qed.

(** * Strings *)

Lemma bounded_length_from_spec {E} block i : 0 <= i ->
  (exists s, c_string block s) \/ VARIANT_KEY_MAX_STRING_BYTES < i + size block ->
  exists r, bounded_length_from (E:=E) block i = Ret r /\
    match r with
    | Some n => exists s, c_string block s /\ n = i + size s /\ n <= VARIANT_KEY_MAX_STRING_BYTES
    | None => forall s, c_string block s -> VARIANT_KEY_MAX_STRING_BYTES < i + size s
    end.
Proof.
  revert i. induction block as [|b block IH]; intros i Hi Hr; cbn [bounded_length_from];
    (destruct (Z.ltb_spec VARIANT_KEY_MAX_STRING_BYTES i) as [Hlt|Hle];
      [exists None; split; [done|]; intros s _; pose proof (size_nonneg s); lia|]).
  { destruct Hr as [[s Hs]|Hr]; [by apply c_string_nil in Hs|]. change (size []) with 0 in Hr. lia. }
  destruct (decide (b = Byte.x00)) as [->|Hb].
  { rewrite bool_decide_true by done. exists (Some i). split; [done|]. exists []. split; [exists block; split; [done|apply not_elem_of_nil]|]. change (size []) with 0. lia. }
  rewrite bool_decide_false by done. destruct (IH (i + 1)) as (r & -> & Hspec); [lia| |].
  { destruct Hr as [[s Hs]|Hr]; [left|right].
    - apply c_string_cons in Hs as [[_ ?]|(s' & _ & _ & Hs)]; [done|eauto].
    - unfold size in *. cbn [length] in Hr. lia. }
  exists r. split; [done|]. destruct r as [n|].
  - destruct Hspec as (s & (rest & -> & Hs) & -> & Hn). exists (b :: s). split.
    + exists rest. split; [done|]. by apply not_elem_of_cons.
    + unfold size in *. cbn [length]. lia.
  - intros s Hs. apply c_string_cons in Hs as [[_ ?]|(s' & -> & _ & Hs)]; [done|]. specialize (Hspec s' Hs).
    unfold size in *. cbn [length]. lia.
Qed.

Lemma bounded_string_length_spec {E} t : readable t -> exists r, bounded_string_length (E:=E) t = Ret r /\
  match r with Some n => exists s, is_text t s /\ n = size s | None => ~ exists s, is_text t s end.
Proof.
  intros Hr. destruct t as [block|]; cbn [bounded_string_length].
  2:{ exists None. split; [done|]. by intros (s & block & ? & _). }
  destruct (bounded_length_from_spec (E:=E) block 0 ltac:(lia)) as (r & -> & Hspec).
  { destruct (Hr block eq_refl) as [?|?]; [by left|right; lia]. }
  exists r. split; [done|]. destruct r as [n|].
  - destruct Hspec as (s & Hs & -> & Hn). exists s. split; [by exists block|lia].
  - intros (s & block' & [= <-] & Hs & Hn). specialize (Hspec s Hs). lia.
Qed.

Lemma unbounded_spec {E} t : readable t -> exists b, unbounded (E:=E) t = Ret b /\ (b = true <-> ~ exists s, is_text t s).
Proof.
  intros Hr. unfold unbounded. destruct (bounded_string_length_spec (E:=E) t Hr) as (r & -> & Hspec). mstep.
  eexists. split; [done|]. rewrite bool_decide_eq_true. destruct r as [n|]; [|done]. split; [done|].
  intros Hno. exfalso. apply Hno. destruct Hspec as (s & Hs & _). eauto.
Qed.

Lemma bytes_are_zero_from_spec {E} n bs i : 0 <= i -> i + Z.of_nat n <= zlength bs ->
  bytes_are_zero_from (E:=E) n i bs = Ret (bool_decide (take n (drop (Z.to_nat i) bs) = replicate n Byte.x00)).
Proof.
  revert i. induction n as [|n IH]; intros i Hi Hn; cbn [bytes_are_zero_from]; [done|].
  destruct (znth_is_Some bs i) as [b Hb]; [lia|]. rewrite (aget_ok _ _ _ Hb). mstep.
  rewrite znth_nonneg in Hb by done. rewrite (drop_S _ _ _ Hb). cbn [take replicate].
  destruct (decide (b = Byte.x00)) as [->|Hne].
  - rewrite bool_decide_false by tauto. rewrite IH by lia. f_equal. apply bool_decide_ext.
    replace (Z.to_nat (i + 1)) with (S (Z.to_nat i)) by lia. split; [by intros ->|by intros [=]].
  - rewrite bool_decide_true by done. rewrite bool_decide_false; [done|]. by intros [=].
Qed.

Lemma fingerprint_is_valid_spec {E} f : fingerprint_ok f ->
  exists b, fingerprint_is_valid (E:=E) f = Ret b /\ (b = false <-> fingerprint_bad f).
Proof.
  unfold fingerprint_ok, size. intros Hf. unfold fingerprint_is_valid, fingerprint_bad. destruct (fp_present f).
  { exists true. split; [done|]. split; [done|]. by intros []. }
  unfold bytes_are_zero, VARIANT_KEY_DIGEST_SIZE. rewrite bytes_are_zero_from_spec by (unfold zlength; lia).
  eexists. split; [done|]. change (Z.to_nat 32) with 32%nat. change (Z.to_nat 0) with 0%nat. rewrite drop_0.
  rewrite bool_decide_eq_false. rewrite take_ge by lia. tauto.
Qed.

(** * Validation *)

Lemma eqb_null {A} (n : Z) (p : option A) : eqb (n =? 0) (bool_decide (p = None)) = true <-> (n = 0 <-> p = None).
Proof. rewrite eqb_true_iff, eq_iff_eq_true, Z.eqb_eq, bool_decide_eq_true. done. Qed.

Lemma is_keyword_dec_spec t r :
  match r with Some n => exists s, is_text t s /\ n = size s | None => ~ exists s, is_text t s end ->
  match r with Some n => (n =? 0) = false | None => False end <-> is_keyword t.
Proof.
  unfold is_keyword. destruct r as [n|]; intros Hspec.
  - destruct Hspec as (s & Hs & ->). rewrite Z.eqb_neq. unfold size. split.
    + intros Hn. exists s. split; [done|]. by intros ->.
    + intros (s' & Hs' & Hne). rewrite (is_text_fun _ _ _ Hs Hs'). destruct s'; [done|cbn; lia].
  - split; [done|]. intros (s & Hs & _). apply Hspec. eauto.
Qed.

Lemma validate_string_array_spec ts count : readable_texts ts count ->
  outcome (validate_string_array ts count true)
    (fun _ => count <= VARIANT_KEY_MAX_COMPILER_KEYWORDS /\ (count = 0 <-> ts = None) /\ ~ keywords_bad ts count)
    (fun e => match e with
              | VARIANT_KEY_INVALID_COUNT => VARIANT_KEY_MAX_COMPILER_KEYWORDS < count
              | VARIANT_KEY_INCONSISTENT_ARRAY => ~ (count = 0 <-> ts = None)
              | VARIANT_KEY_INVALID_VALUE => keywords_bad ts count
              | _ => False
              end).
Proof.
  intros [Hc Hr]. unfold validate_string_array, in_u64, VARIANT_KEY_MAX_COMPILER_KEYWORDS in *.
  destruct ((1048576 <? count) || _) eqn:Hbig; [cbn; apply orb_true_iff in Hbig as [?%Z.ltb_lt|?%Z.ltb_lt]; lia|].
  apply orb_false_iff in Hbig as [Hbig%Z.ltb_ge _].
  destruct (eqb _ _) eqn:Hn; cbn [negb].
  2:{ cbn. rewrite <- eqb_null. by rewrite Hn. }
  apply eqb_null in Hn.
  eapply outcome_mono; [apply outcome_for with (I := fun j _ => forall values i t, ts = Some values -> 0 <= i < j -> znth values i = Some t -> is_keyword t)
    (F := fun e => e = VARIANT_KEY_INVALID_VALUE /\ keywords_bad ts count)| |].
  - lia.
  - intros i [] Hi HI. destruct ts as [values|]; [|pose proof (proj2 Hn eq_refl); lia]. destruct (Hr values eq_refl) as [Hl Hread]. cbn [ptr]. mstep.
    destruct (znth_is_Some values i) as [t Ht]; [lia|]. unfold validate_string. rewrite (aget_ok _ _ _ Ht). mstep.
    rewrite list.Forall_forall in Hread.
    destruct (bounded_string_length_spec (E:=VariantKeyStatus) t) as (r & -> & Hspec); [apply Hread, list_elem_of_lookup; exists (Z.to_nat i); rewrite lookup_take_lt by lia; by rewrite <- znth_nonneg by lia|]. mstep.
    pose proof (is_keyword_dec_spec t r Hspec) as Hk.
    assert (Hbad : ~ is_keyword t -> keywords_bad (Some values) count) by (intros Hno; exists values, i, t; split_and!; done || lia).
    destruct r as [n|]; [destruct (n =? 0) eqn:En|]; cbn [andb outcome].
    + split; [done|]. apply Hbad. rewrite <- Hk. done.
    + intros values' j t' [= <-] Hj Ht'. destruct (decide (j = i)) as [->|]; [|apply (HI values j); [done|lia|done]].
      assert (t' = t) as -> by congruence. by apply Hk.
    + split; [done|]. apply Hbad. by intros ?%Hk.
  - intros [] HI. split; [lia|]. split; [done|]. intros (values & i & t & Hts & Hi & Ht & Hno). apply Hno.
    apply (HI values i t); [done|lia|done].
  - by intros e [-> Hbad].
Qed.

(** What a call that may refuse establishes, in a sequence of such calls. *)
Lemma outcome_seq {E A B} (m : res E A) (k : A -> res E B) (P : A -> Prop) (Q : B -> Prop) (F F' : E -> Prop) :
  outcome m P F -> (forall e, F e -> F' e) -> (forall a, P a -> outcome (k a) Q F') -> outcome (m ≫= k) Q F'.
Proof. intros Hm HF Hk. apply outcome_bind. eapply outcome_mono; [exact Hm|exact Hk|exact HF]. Qed.

Lemma require_fingerprint_spec f : fingerprint_ok f ->
  outcome (require VARIANT_KEY_INVALID_VALUE (fingerprint_is_valid f)) (fun _ => ~ fingerprint_bad f)
    (fun e => e = VARIANT_KEY_INVALID_VALUE /\ fingerprint_bad f).
Proof.
  intros Hf. destruct (fingerprint_is_valid_spec (E:=VariantKeyStatus) f Hf) as (b & Hb & Hiff). unfold require. rewrite Hb. mstep.
  destruct b; cbn; [intros Hbad; by apply Hiff in Hbad|split; [done|by apply Hiff]].
Qed.

Lemma path_texts_spec {E} c (status : E) (k : res E unit) : Forall readable (path_texts c) ->
  exists b, (bad ← unbounded (vc_source_directory c);
             bad ← (if bad : bool then Ret true else unbounded (vc_source_basename c));
             bad ← (if bad : bool then Ret true else unbounded (vc_pass_name c));
             if bad : bool then Fail status else k) = (if b : bool then Fail status else k) /\
    (b = true <-> Exists (fun t => ~ exists s, is_text t s) (path_texts c)).
Proof.
  unfold path_texts. intros [H1 [H2 [H3 _]%list.Forall_cons]%list.Forall_cons]%list.Forall_cons.
  destruct (unbounded_spec (E:=E) _ H1) as (b1 & -> & Hb1), (unbounded_spec (E:=E) _ H2) as (b2 & E2 & Hb2),
    (unbounded_spec (E:=E) _ H3) as (b3 & E3 & Hb3).
  exists (b1 || b2 || b3). split; [destruct b1; [done|]; mstep; rewrite E2; destruct b2; [done|]; mstep; by rewrite E3|].
  rewrite !List.Exists_cons, List.Exists_nil, !orb_true_iff, Hb1, Hb2, Hb3. tauto.
Qed.

(** What the checks of a keyword array refuse. *)
Definition array_refused (ts : texts) (count : Z) (e : VariantKeyStatus) : Prop :=
  match e with
  | VARIANT_KEY_INVALID_COUNT => VARIANT_KEY_MAX_COMPILER_KEYWORDS < count
  | VARIANT_KEY_INCONSISTENT_ARRAY => ~ (count = 0 <-> ts = None)
  | VARIANT_KEY_INVALID_VALUE => keywords_bad ts count
  | _ => False
  end.

Lemma refused_array d ts count e : (ts, count) ∈ keyword_arrays (vk_compiler d) -> array_refused ts count e -> refused d e.
Proof.
  intros Hin He. assert (Hex : forall P, P (ts, count) -> Exists P (keyword_arrays (vk_compiler d))).
  { intros P HP. apply list.Exists_exists. by exists (ts, count). }
  destruct e; try done; cbn in *; [right|right|right; left]; by apply Hex.
Qed.

Lemma refused_fingerprint d f e : f ∈ fingerprints (vk_compiler d) -> e = VARIANT_KEY_INVALID_VALUE /\ fingerprint_bad f -> refused d e.
Proof. intros Hin [-> Hf]. right. right. right. apply list.Exists_exists. by exists f. Qed.

Lemma validate_spec d : descriptor_ok d ->
  outcome (validate_descriptor (Some d)) (fun _ => valid_descriptor d) (refused d).
Proof.
  intros [_ _ _ _ _ Hix _ _ _ Ht Hk Hf]. unfold validate_descriptor.
  unfold index_arrays in Hix. destruct (proj1 (list.Forall_cons _ _ _) Hix) as [[Hg _] Hix'].
  destruct (proj1 (list.Forall_cons _ _ _) Hix') as [[Hl _] _]. clear Hix Hix'. cbn [fst snd] in Hg, Hl. unfold in_u64 in Hg, Hl.
  destruct (_ || _ || _ || _) eqn:Hbig.
  { cbn [outcome refused]. left. unfold index_arrays. unfold VARIANT_KEY_MAX_KEYWORD_INDICES in *.
    rewrite !orb_true_iff, !Z.ltb_lt in Hbig. rewrite !List.Exists_cons. cbn [snd]. lia. }
  rewrite !orb_false_iff, !Z.ltb_ge in Hbig. destruct Hbig as [[[Hg1 Hl1] _] _].
  destruct (negb _ || negb _) eqn:Hnull.
  { cbn [outcome refused]. left. unfold index_arrays. rewrite !List.Exists_cons. cbn [fst snd].
    apply orb_true_iff in Hnull as [Hnull|Hnull]; apply negb_true_iff in Hnull; [left|right; left]; rewrite <- eqb_null; by rewrite Hnull. }
  apply orb_false_iff in Hnull as [Hgn%negb_false_iff%eqb_null Hln%negb_false_iff%eqb_null].
  assert (Hix : ~ Exists (fun p => VARIANT_KEY_MAX_KEYWORD_INDICES < snd p) (index_arrays d) /\
    ~ Exists (fun p => ~ (snd p = 0 <-> fst p = None)) (index_arrays d)).
  { unfold index_arrays. rewrite !List.Exists_cons, !List.Exists_nil. cbn [fst snd]. split; [lia|tauto]. }
  edestruct (path_texts_spec (E:=VariantKeyStatus)) as (b & -> & Hb); [exact Ht|]. destruct b.
  { cbn [outcome refused]. left. by apply Hb. }
  unfold keyword_arrays in Hk. apply list.Forall_cons in Hk as [Hk1 Hk]. apply list.Forall_cons in Hk as [Hk2 Hk].
  apply list.Forall_cons in Hk as [Hk3 Hk]. apply list.Forall_cons in Hk as [Hk4 _]. cbn [fst snd] in *.
  unfold fingerprints in Hf. apply list.Forall_cons in Hf as [Hf1 Hf]. apply list.Forall_cons in Hf as [Hf2 Hf].
  apply list.Forall_cons in Hf as [Hf3 Hf]. apply list.Forall_cons in Hf as [Hf4 _].
  destruct Hix as [Hix1 Hix2]. cbv iota.
  do 4 (eapply outcome_seq; [apply validate_string_array_spec; eassumption|
    intros e He; eapply refused_array; [|exact He]; unfold keyword_arrays; rewrite !elem_of_cons; tauto|];
    let H := fresh "Ha" in intros [] H).
  destruct (descriptor_fields_bad d) eqn:Hfields.
  { right; right; left. rewrite <- fields_valid_iff, Hfields. done. }
  apply fields_valid_iff in Hfields.
  do 3 (eapply outcome_seq; [apply require_fingerprint_spec; assumption|
    intros e He; eapply refused_fingerprint; [|exact He]; unfold fingerprints; rewrite !elem_of_cons; tauto|];
    let H := fresh "Hp" in intros [] H).
  eapply outcome_mono; [apply require_fingerprint_spec; assumption| |
    intros e He; eapply refused_fingerprint; [|exact He]; unfold fingerprints; rewrite !elem_of_cons; tauto].
  intros [] Hp3. unfold valid_descriptor, too_many, inconsistent, bad_value.
  unfold keyword_arrays, fingerprints. rewrite !List.Exists_cons, !List.Exists_nil. cbn [fst snd].
  assert (~ Exists (fun t => ~ exists s, is_text t s) (path_texts (vk_compiler d))) by (by intros ?%Hb).
  split_and!; intuition (lia || congruence).
Qed.

(** * Valid descriptors *)

Lemma readable_text t : readable t -> ~ ~ (exists s, is_text t s) -> is_text t (text_of t).
Proof.
  intros Hr Hnn. destruct (bounded_string_length_spec (E:=Empty_set) t Hr) as ([n|] & _ & Hspec); [|by destruct Hnn].
  destruct Hspec as (s & Hs & _). by rewrite (is_text_of _ _ Hs).
Qed.

Lemma valid_indices ix count : readable_indices ix count -> count <= VARIANT_KEY_MAX_KEYWORD_INDICES ->
  (count = 0 <-> ix = None) -> are_indices ix count (indices_of ix count).
Proof.
  unfold indices_of. intros [Hc Hr] Hmax Hnull. unfold in_u64 in Hc. unfold are_indices, zlength. destruct (Z.eqb_spec count 0) as [->|Hne].
  - rewrite (proj1 Hnull eq_refl). done.
  - destruct ix as [values|]; [|by destruct Hne; apply Hnull]. destruct (Hr values eq_refl) as [Hl Hw]. unfold zlength in Hl.
    change (default [] (Some values)) with values. rewrite length_take.
    split_and!; [lia|done|done|by exists values].
Qed.

Lemma valid_texts ts count : readable_texts ts count -> count <= VARIANT_KEY_MAX_COMPILER_KEYWORDS ->
  (count = 0 <-> ts = None) -> ~ keywords_bad ts count -> are_texts ts count (texts_of ts count).
Proof.
  unfold texts_of. intros [Hc Hr] Hmax Hnull Hok. unfold in_u64 in Hc. unfold are_texts, zlength. destruct (Z.eqb_spec count 0) as [->|Hne].
  - rewrite (proj1 Hnull eq_refl). done.
  - destruct ts as [values|]; [|by destruct Hne; apply Hnull]. destruct (Hr values eq_refl) as [Hl Hread]. unfold zlength in Hl.
    change (default [] (Some values)) with values. rewrite length_fmap, length_take. split_and!; [lia|done|].
    exists values. split; [done|]. apply Forall2_fmap_r, Forall_Forall2_diag, Forall_lookup. intros i t Ht.
    pose proof (lookup_lt_Some _ _ _ Ht) as Hi. rewrite length_take in Hi.
    rewrite Forall_lookup in Hread. apply readable_text; [by eapply Hread|]. apply lookup_take_Some in Ht as [Ht _]. intros Hno. apply Hok.
    exists values, (Z.of_nat i), t. split_and!; [done|lia|lia|by rewrite znth_nonneg, Nat2Z.id by lia|].
    intros (s & Hs & _). eauto.
Qed.

Lemma keywords_nonempty ts count l : ~ keywords_bad ts count -> are_texts ts count l -> Forall (fun s => s <> []) l.
Proof.
  intros Hok Hl. apply Forall_lookup. intros i s Hs ->. pose proof Hl as (Hlen & _). unfold zlength in Hlen.
  pose proof (lookup_lt_Some _ _ _ Hs) as Hi.
  destruct (are_texts_at ts count l (Z.of_nat i) Hl ltac:(lia)) as (values & t & u & -> & Ht & Hu & Htu).
  rewrite znth_nonneg, Nat2Z.id, Hs in Hu by lia. injection Hu as <-. apply Hok.
  exists values, (Z.of_nat i), t. split_and!; [done|lia|lia|done|]. intros (s & Hs' & Hne). apply Hne. by eapply is_text_fun.
Qed.

(** * Copies *)

(** What the copies are made to hold. *)
Lemma are_texts_self ts count l : are_texts ts count l -> are_texts ts count (texts_of ts count).
Proof. intros Hl. by rewrite (are_texts_of _ _ _ Hl). Qed.

Lemma are_indices_self ix count l : are_indices ix count l -> are_indices ix count (indices_of ix count).
Proof. intros Hl. by rewrite (are_indices_of _ _ _ Hl). Qed.

Lemma is_text_self t s : is_text t s -> is_text t (text_of t).
Proof. intros Hs. by rewrite (is_text_of _ _ Hs). Qed.

Lemma keywords_of_nonempty ts count l : are_texts ts count l -> Forall (fun s => s <> []) l -> ~ keywords_bad ts count.
Proof.
  intros Hl Hne (values & i & t & -> & Hi & Ht & Hno). destruct (are_texts_at _ _ _ _ Hl Hi) as (values' & t' & s & [= <-] & Ht' & Hs & Hts).
  apply Hno. exists s. assert (t' = t) as <- by congruence. split; [done|]. rewrite Forall_lookup in Hne.
  rewrite znth_nonneg in Hs by lia. by eapply Hne.
Qed.

(** The keyword lists of a key, none of which holds an empty string. *)
Definition nonempty_keywords (c : VariantCompilerAuthority) : Prop :=
  Forall (fun p => Forall (fun s => s <> []) (texts_of (fst p) (snd p))) (keyword_arrays c).

Lemma are_texts_null ts count l : are_texts ts count l -> (count = 0 <-> ts = None).
Proof. intros (_ & _ & Hv). destruct (Z.eqb_spec count 0); [done|]. destruct Hv as (values & -> & _). done. Qed.

Lemma are_indices_null ix count l : are_indices ix count l -> (count = 0 <-> ix = None).
Proof. intros (_ & _ & _ & Hv). destruct (Z.eqb_spec count 0); [done|]. destruct Hv as (values & -> & _). done. Qed.

Lemma key_arrays c : compiler_ok c -> Forall (fun p => are_texts (fst p) (snd p) (texts_of (fst p) (snd p))) (keyword_arrays c).
Proof. intros []. repeat (apply list.Forall_cons_2; [assumption|]). constructor. Qed.

Lemma key_index_arrays key : key_ok key -> Forall (fun p => are_indices (fst p) (snd p) (indices_of (fst p) (snd p))) (index_arrays key).
Proof. intros []. repeat (apply list.Forall_cons_2; [assumption|]). constructor. Qed.

Lemma not_exists {A} (P : A -> Prop) l : Forall (fun x => ~ P x) l -> ~ Exists P l.
Proof. intros Hl Hex. apply list.Exists_exists in Hex as (x & Hx & HP). rewrite list.Forall_forall in Hl. by apply (Hl x). Qed.

(** A key is a descriptor that can be used to make keys. *)
Lemma key_valid key : key_ok key -> nonempty_keywords (vk_compiler key) -> fields_valid key ->
  Forall (fun f => ~ fingerprint_bad f) (fingerprints (vk_compiler key)) -> valid_descriptor key.
Proof.
  intros Hok Hne Hfields Hf. pose proof (key_index_arrays key Hok) as Hix. destruct Hok as [_ _ _ _ _ _ _ Hc].
  pose proof (key_arrays _ Hc) as Hk. destruct Hc as [_ _ _ Hd Hb Hp _ _ _ _ _].
  unfold valid_descriptor, too_many, inconsistent, bad_value. split_and!; [intros [H|H]|intros [H|H]|intros [H|[H|[H|H]]]]; revert H.
  - apply not_exists. eapply list.Forall_impl; [exact Hix|]. intros [ix n] (_ & Hn & _). cbn in *. lia.
  - apply not_exists. eapply list.Forall_impl; [exact Hk|]. intros [ts n] (_ & Hn & _). cbn in *. lia.
  - apply not_exists. eapply list.Forall_impl; [exact Hix|]. intros [ix n] H Hno. apply Hno. by eapply are_indices_null.
  - apply not_exists. eapply list.Forall_impl; [exact Hk|]. intros [ts n] H Hno. apply Hno. by eapply are_texts_null.
  - apply not_exists. unfold path_texts. repeat (apply list.Forall_cons_2; [intros Hno; apply Hno; eauto|]). constructor.
  - apply not_exists. eapply list.Forall_impl; [exact (proj2 (list.Forall_and _ _) (conj Hk Hne))|]. intros [ts n] [H H']. by eapply keywords_of_nonempty.
  - done.
  - by apply not_exists.
Qed.

Lemma text_readable t s : is_text t s -> readable t.
Proof. intros (block & -> & Hs & _) b [= <-]. left. eauto. Qed.

Lemma texts_readable ts count l : are_texts ts count l -> readable_texts ts count.
Proof.
  intros (Hl & Hc & Hv). pose proof (zlength_nonneg l). unfold VARIANT_KEY_MAX_COMPILER_KEYWORDS in Hc.
  split; [unfold in_u64; lia|]. intros values ->. destruct (Z.eqb_spec count 0); [done|]. destruct Hv as (? & [= <-] & HF).
  pose proof (List.Forall2_length HF) as Hlen. rewrite length_take in Hlen. unfold zlength in *. split; [lia|].
  apply Forall_lookup. intros i t Ht. destruct (Forall2_lookup_l _ _ _ _ _ HF Ht) as (s & _ & Hs). by eapply text_readable.
Qed.

Lemma indices_readable ix count l : are_indices ix count l -> readable_indices ix count.
Proof.
  intros (Hl & Hc & Hw & Hv). pose proof (zlength_nonneg l). unfold VARIANT_KEY_MAX_KEYWORD_INDICES in Hc.
  split; [unfold in_u64; lia|]. intros values ->. destruct (Z.eqb_spec count 0); [done|]. destruct Hv as (? & [= <-] & <-).
  split; [|done]. unfold zlength in *. rewrite length_take in Hl. lia.
Qed.

Lemma key_descriptor key : key_ok key -> descriptor_ok key.
Proof.
  intros Hok. pose proof (key_index_arrays key Hok) as Hix. destruct Hok as [? ? ? ? ? _ _ Hc].
  pose proof (key_arrays _ Hc) as Hk. destruct Hc as [? ? ? Hd Hb Hp _ _ _ _ Hf]. split; try assumption.
  - eapply list.Forall_impl; [exact Hix|]. intros [ix n]. apply indices_readable.
  - unfold path_texts. repeat (apply list.Forall_cons_2; [by eapply text_readable|]). constructor.
  - eapply list.Forall_impl; [exact Hk|]. intros [ts n]. apply texts_readable.
Qed.

Section construct.
Context `{L : LibcMalloc}.

Definition no_memory (e : VariantKeyStatus) : Prop := e = VARIANT_KEY_ALLOCATION_FAILED /\ malloc_failed.

Lemma malloc_refused n : libc_malloc n = false -> malloc_failed.
Proof. by exists n. Qed.

Lemma copied_spec {A} count (copy : option A) (P : option A -> Prop) : (copy = None -> 0 < count -> malloc_failed) ->
  (0 < count -> copy <> None -> P copy) -> (~ 0 < count -> P copy) -> outcome (copied count copy) P no_memory.
Proof.
  intros Hm Hs Hn. unfold copied. destruct copy as [a|]; [cbn; destruct (decide (0 < count)); auto; by apply Hs|].
  destruct (Z.ltb_spec 0 count); cbn; [by split; [|apply Hm]|apply Hn; lia].
Qed.

Lemma copy_indices_spec ix count l : are_indices ix count l ->
  outcome (global ← copy_indices ix count; copied count global) (fun out => are_indices out count l) no_memory.
Proof.
  intros Hix. pose proof Hix as (Hl & Hc & Hw & Hv). pose proof (zlength_nonneg l).
  unfold copy_indices, VARIANT_KEY_MAX_KEYWORD_INDICES in *. change (SIZE_MAX / 4) with 4611686018427387903. destruct (Z.eqb_spec count 0) as [->|Hne]; mstep.
  { rewrite Hv in Hix. exact Hix. }
  rewrite (proj2 (Z.ltb_ge _ _)) by lia. destruct (libc_malloc _) eqn:Hm; cbn [negb]; mstep.
  2:{ unfold copied. rewrite (proj2 (Z.ltb_lt _ _)) by lia. split; [done|by eapply malloc_refused]. }
  destruct Hv as (values & -> & Htake). cbn [ptr]. mstep. unfold zlength in *. rewrite <- Htake in Hl. rewrite length_take in Hl.
  rewrite (proj2 (Z.ltb_ge _ _)) by (unfold zlength; lia). mstep. cbn [copied outcome]. rewrite Htake.
  unfold are_indices. rewrite (proj2 (Z.eqb_neq _ _)) by done. subst l. unfold zlength. rewrite length_take. split_and!; [lia|done|done|].
  exists (take (Z.to_nat count) values). split; [done|]. rewrite take_take. f_equal. lia.
Qed.

Lemma copy_string_spec {E} t s : is_text t s ->
  outcome (copy_string (E:=E) t) (fun out => match out with Some _ => is_text out s | None => malloc_failed end) (fun _ => False).
Proof.
  intros (block & -> & Hs & Hmax). unfold copy_string. cbn [ptr]. mstep. rewrite (strlen_spec _ _ Hs). mstep.
  pose proof (size_nonneg s). unfold VARIANT_KEY_MAX_STRING_BYTES in Hmax.
  destruct (libc_malloc _) eqn:Hm; cbn [negb]; [|by eapply malloc_refused].
  destruct (c_string_block (E:=E) _ _ Hs) as (copy & -> & Hcopy). mstep. by exists copy.
Qed.

Lemma copied_text out s : out <> None -> match out with Some _ => is_text out s | None => malloc_failed end -> is_text out s.
Proof. by destruct out. Qed.

Lemma copy_string_array_spec ts count l : are_texts ts count l ->
  outcome (global ← copy_string_array ts count; copied count global) (fun out => are_texts out count l) no_memory.
Proof.
  intros Hts. pose proof Hts as (Hl & Hc & Hv). pose proof (zlength_nonneg l).
  unfold copy_string_array, VARIANT_KEY_MAX_COMPILER_KEYWORDS in *. change (SIZE_MAX / 8) with 2305843009213693951. destruct (Z.eqb_spec count 0) as [->|Hne]; mstep.
  { rewrite Hv in Hts. exact Hts. }
  rewrite (proj2 (Z.ltb_ge _ _)) by lia. destruct (libc_malloc _) eqn:Hm; cbn [negb]; mstep.
  2:{ unfold copied. rewrite (proj2 (Z.ltb_lt _ _)) by lia. split; [done|by eapply malloc_refused]. }
  apply outcome_bind. apply outcome_attempt.
  assert (Hfail : malloc_failed -> outcome (copied (A:=list text) count None) (fun out => are_texts out count l) no_memory).
  { intros Hmf. unfold copied. rewrite (proj2 (Z.ltb_lt _ _)) by lia. done. }
  eapply outcome_mono; [apply outcome_for with (I := fun i values => Forall2 is_text values (take (Z.to_nat i) l)) (F := fun _ => malloc_failed)| |].
  - constructor.
  - intros i values Hi HI. destruct (are_texts_at ts count l i Hts ltac:(lia)) as (from & t & s & -> & Ht & Hs & Hts').
    unfold copy_entry. cbn [ptr]. mstep. rewrite (aget_ok _ _ _ Ht). mstep. apply outcome_bind.
    eapply outcome_mono; [by apply copy_string_spec| |done]. intros [block|] Hout; [|done].
    cbn [outcome]. rewrite (take_znth l i s) by (done || lia). apply Forall2_app; [done|]. by repeat constructor.
  - intros values HI. cbn [copied outcome]. unfold are_texts. rewrite (proj2 (Z.eqb_neq _ _)) by done. split_and!; [done|done|].
    rewrite Z.add_0_l, Z2Nat.id, <- Hl, take_all in HI by lia. exists values. split; [done|].
    pose proof (List.Forall2_length HI). unfold zlength in Hl. by rewrite take_ge by lia.
  - intros []. exact Hfail.
Qed.

Lemma outcome_copied {A B} (m : res VariantKeyStatus (option A)) count (k : option A -> res VariantKeyStatus B) P Q (F : VariantKeyStatus -> Prop) :
  outcome (x ← m; copied count x) P no_memory -> (forall e, no_memory e -> F e) -> (forall x, P x -> outcome (k x) Q F) ->
  outcome (x ← m; x ← copied count x; k x) Q F.
Proof.
  intros Hm HF Hk. destruct m as [x|e|]; [|by apply HF|done]. revert Hm. mstep. intros Hm. by eapply outcome_seq.
Qed.

Definition canonical (d : VariantKeyDescriptor) : VariantKeyDescriptor := {|
  vk_shader_path_id := vk_shader_path_id d; vk_subshader_index := vk_subshader_index d;
  vk_pass_index := vk_pass_index d; vk_stage := vk_stage d; vk_compiler_platform := vk_compiler_platform d;
  vk_archive_platform_index := vk_archive_platform_index d; vk_hardware_tier_group := vk_hardware_tier_group d;
  vk_subprogram_index := vk_subprogram_index d; vk_parameter_blob_index := vk_parameter_blob_index d;
  vk_serialized_program_type := vk_serialized_program_type d;
  vk_serialized_hardware_tier_present := vk_serialized_hardware_tier_present d;
  vk_serialized_hardware_tier := if vk_serialized_hardware_tier_present d then vk_serialized_hardware_tier d else 0;
  vk_serialized_requirements := vk_serialized_requirements d; vk_serialized_program_mask := vk_serialized_program_mask d;
  vk_player_metadata_present := vk_player_metadata_present d;
  vk_player_program_type := if vk_player_metadata_present d then vk_player_program_type d else 0;
  vk_player_header_words := if vk_player_metadata_present d then vk_player_header_words d else [0; 0; 0; 0];
  vk_player_source_map := if vk_player_metadata_present d then vk_player_source_map d else 0;
  vk_keyword_scopes_are_explicit := vk_keyword_scopes_are_explicit d;
  vk_global_keyword_indices := vk_global_keyword_indices d; vk_global_keyword_index_count := vk_global_keyword_index_count d;
  vk_local_keyword_indices := vk_local_keyword_indices d; vk_local_keyword_index_count := vk_local_keyword_index_count d;
  vk_compiler := vk_compiler d |}.

(** A key that was made: it is well formed, is itself a valid descriptor, and is canonical. *)
Definition made (key : VariantKey) : Prop :=
  key_ok key /\ valid_descriptor key /\ body_items (canonical key) = body_items key.

Lemma canonical_digest f : fingerprint_digest (canonicalize_fingerprint f) = fingerprint_digest f.
Proof. by destruct f as [[] bytes]. Qed.

Lemma canonical_present f : fp_present (canonicalize_fingerprint f) = fp_present f.
Proof. by destruct f as [[] bytes]. Qed.

Lemma canonical_item f : fingerprint_item (canonicalize_fingerprint f) = fingerprint_item f.
Proof. unfold fingerprint_item. by rewrite canonical_present, canonical_digest. Qed.

Lemma canonical_fingerprint_ok f : fingerprint_ok f -> fingerprint_ok (canonicalize_fingerprint f).
Proof. by destruct f as [[] bytes]. Qed.

Lemma canonical_not_bad f : ~ fingerprint_bad (canonicalize_fingerprint f).
Proof. destruct f as [[] bytes]; by intros [? ?]. Qed.

Lemma exists_none {A} (P : A -> Prop) l x : ~ Exists P l -> x ∈ l -> ~ P x.
Proof. intros Hl Hx HP. apply Hl, list.Exists_exists. by exists x. Qed.

Lemma null_stable {A} n (p : option A) : ~ ~ (n = 0 <-> p = None) -> (n = 0 <-> p = None).
Proof. rewrite <- eqb_null. destruct (eqb _ _); [done|]. intros H. by destruct H. Qed.

(** What a valid descriptor holds. *)
Record described (d : VariantKeyDescriptor) : Prop := {
  de_indices : Forall (fun p => are_indices (fst p) (snd p) (indices_of (fst p) (snd p))) (index_arrays d);
  de_paths : Forall (fun t => is_text t (text_of t)) (path_texts (vk_compiler d));
  de_keywords : Forall (fun p => are_texts (fst p) (snd p) (texts_of (fst p) (snd p))) (keyword_arrays (vk_compiler d));
  de_nonempty : nonempty_keywords (vk_compiler d);
  de_fields : fields_valid d;
}.

Lemma valid_described d : descriptor_ok d -> valid_descriptor d -> described d.
Proof.
  intros [_ _ _ _ _ Hix _ _ _ Ht Hk _] (Hmany & Hinc & Hbad). unfold too_many, inconsistent, bad_value in *.
  assert (Hpaths : ~ Exists (fun t => ~ exists s, is_text t s) (path_texts (vk_compiler d))) by tauto.
  assert (Hwords : ~ Exists (fun p => keywords_bad (fst p) (snd p)) (keyword_arrays (vk_compiler d))) by tauto.
  rewrite !list.Forall_forall in *.
  assert (Hkeys : forall p, p ∈ keyword_arrays (vk_compiler d) -> are_texts (fst p) (snd p) (texts_of (fst p) (snd p))).
  { intros p Hp. apply valid_texts; [by apply Hk| |apply null_stable|exact (exists_none _ _ p Hwords Hp)].
    - apply Z.nlt_ge. intros Hlt. apply Hmany. right. apply list.Exists_exists. eauto.
    - intros Hno. apply Hinc. right. apply list.Exists_exists. eauto. }
  split; unfold nonempty_keywords; rewrite ?list.Forall_forall; [| |done| |].
  - intros p Hp. apply valid_indices; [by apply Hix| |apply null_stable].
    + apply Z.nlt_ge. intros Hlt. apply Hmany. left. apply list.Exists_exists. eauto.
    + intros Hno. apply Hinc. left. apply list.Exists_exists. eauto.
  - intros t Hin. apply readable_text; [by apply Ht|]. exact (exists_none _ _ t Hpaths Hin).
  - intros p Hp. eapply keywords_nonempty; [exact (exists_none _ _ p Hwords Hp)|by apply Hkeys].
  - apply fields_valid_iff. destruct (descriptor_fields_bad d) eqn:Hb; [|done]. exfalso. apply Hbad. right; right; left.
    intros Hf%fields_valid_iff. congruence.
Qed.

(** Fields in range, some of them zero. *)
Ltac ranges := repeat (apply list.Forall_cons_2;
  [first [done | unfold in_u32, in_i32 in *; repeat case_match; lia]|]); constructor.

(** What the copies of a descriptor's arrays hold. *)
Record copies (d : VariantKeyDescriptor) (g l : option (list Z)) (t1 t2 t3 : text) (k1 k2 k3 k4 : texts) : Prop := {
  cp_global : are_indices g (vk_global_keyword_index_count d) (indices_of (vk_global_keyword_indices d) (vk_global_keyword_index_count d));
  cp_local : are_indices l (vk_local_keyword_index_count d) (indices_of (vk_local_keyword_indices d) (vk_local_keyword_index_count d));
  cp_paths : Forall2 (fun out t => is_text out (text_of t)) [t1; t2; t3] (path_texts (vk_compiler d));
  cp_keywords : Forall2 (fun out p => are_texts out (snd p) (texts_of (fst p) (snd p))) [k1; k2; k3; k4] (keyword_arrays (vk_compiler d));
}.

Ltac each2 H := repeat match type of H with Forall2 _ (_ :: _) _ =>
  let H1 := fresh "Hc" in apply Forall2_cons_1 in H as [H1 H]; cbn [fst snd] in H1 end; clear H.

Section filled.
Context (d : VariantKeyDescriptor) (g l : option (list Z)) (t1 t2 t3 : text) (k1 k2 k3 k4 : texts).
Context (Hcopies : copies d g l t1 t2 t3 k1 k2 k3 k4).
Let key := filled_key d g l t1 t2 t3 k1 k2 k3 k4.

Lemma filled_items : body_items key = body_items (canonical d).
Proof.
  destruct Hcopies as [Hg Hl Hp Hk]. unfold path_texts, keyword_arrays in *. each2 Hp. each2 Hk.
  unfold key, filled_key, body_items, compiler_items, canonical. cbn [vk_compiler].
  cbn -[text_of texts_of indices_of u32 u64 fingerprint_item].
  repeat match goal with H : is_text ?t _ |- context [text_of ?t] => is_var t; rewrite (is_text_of _ _ H)
    | H : are_texts ?t ?n _ |- context [texts_of ?t ?n] => is_var t; rewrite (are_texts_of _ _ _ H)
    | H : are_indices ?t ?n _ |- context [indices_of ?t ?n] => is_var t; rewrite (are_indices_of _ _ _ H) end.
  by rewrite !canonical_item.
Qed.

Lemma filled_ok : descriptor_ok d -> key_ok key.
Proof.
  intros [Hpath Hw Hi Hr [Hh Hh'] _ Hcw Hci Hcr _ _ Hfp]. destruct Hcopies as [Hg Hl Hp Hk].
  unfold path_texts, keyword_arrays, fingerprints in *. each2 Hp. each2 Hk. each Hw. each Hi. each Hfp. unfold key, filled_key.
  split; [exact Hpath| | |exact Hr| |by eapply are_indices_self|by eapply are_indices_self|]; cbn -[text_of texts_of indices_of in_u32 in_i32].
  - ranges.
  - ranges.
  - destruct (vk_player_metadata_present d); [done|]. split; [done|]. ranges.
  - split; cbn -[text_of texts_of indices_of in_u32 in_i32]; try done; try (by eapply is_text_self); try (by eapply are_texts_self).
    repeat (apply list.Forall_cons_2; [by apply canonical_fingerprint_ok|]). constructor.
Qed.

Lemma filled_made : descriptor_ok d -> valid_descriptor d -> made key.
Proof.
  intros Hd Hvalid. destruct (valid_described d Hd Hvalid) as [_ _ _ Hne Hfields]. pose proof (filled_ok Hd) as Hok.
  split_and!; [done| |].
  - apply key_valid; [done| | |].
    + destruct Hcopies as [_ _ _ Hk]. unfold nonempty_keywords, keyword_arrays in *. each Hne. each2 Hk. cbn [fst snd] in *.
      unfold key, filled_key. cbn -[text_of texts_of].
      repeat (apply list.Forall_cons_2; [cbn -[text_of texts_of]; erewrite are_texts_of by eassumption; done|]). constructor.
    + apply fields_valid_iff in Hfields. apply fields_valid_iff. revert Hfields. unfold descriptor_fields_bad, key. cbn.
      by destruct (vk_serialized_hardware_tier_present d), (vk_player_metadata_present d).
    + unfold fingerprints. repeat (apply list.Forall_cons_2; [apply canonical_not_bad|]). constructor.
  - unfold key. cbn -[text_of texts_of indices_of u32 u64 fingerprint_item].
    by destruct (vk_serialized_hardware_tier_present d), (vk_player_metadata_present d).
Qed.
End filled.

(** Making a key: the descriptor is refused for what is wrong with it, or the
    allocation fails, or the key says what the canonical descriptor says. *)
Lemma init_spec d : descriptor_ok d ->
  outcome (variant_key_init true (Some d))
    (fun key => valid_descriptor d /\ made key /\ body_items key = body_items (canonical d))
    (fun e => refused d e \/ valid_descriptor d /\ no_memory e).
Proof.
  intros Hd. pose proof (validate_spec d Hd) as Hv. unfold variant_key_init. cbn [negb].
  eapply outcome_seq; [exact Hv|tauto|]. intros [] Hvalid. cbn [ptr]. mstep.
  assert (Hno : forall e, no_memory e -> refused d e \/ valid_descriptor d /\ no_memory e) by tauto.
  destruct (libc_malloc VARIANT_KEY_SIZE) eqn:Hm; cbn [negb]; [|apply Hno; split; [done|by eapply malloc_refused]].
  destruct (valid_described d Hd Hvalid) as [Hix Hpaths Hk Hne Hfields].
  unfold nonempty_keywords, index_arrays, path_texts, keyword_arrays in *. each Hix. each Hpaths. each Hk. each Hne. cbn [fst snd] in *.
  do 2 (eapply outcome_copied; [apply copy_indices_spec; eassumption|exact Hno|]; let H := fresh "Hi" in intros ? H; cbv beta in H).
  do 3 (eapply outcome_seq; [apply copy_string_spec; eassumption|done|]; let H := fresh "Ht" in intros ? H).
  destruct (bool_decide _ || bool_decide _ || bool_decide _) eqn:Hnull.
  { apply Hno. split; [done|]. rewrite !orb_true_iff, !bool_decide_eq_true in Hnull.
    destruct Hnull as [[->| ->]| ->]; done. }
  rewrite !orb_false_iff, !bool_decide_eq_false in Hnull. destruct Hnull as [[Hn1 Hn2] Hn3].
  apply (copied_text _ _ Hn1) in Ht. apply (copied_text _ _ Hn2) in Ht0. apply (copied_text _ _ Hn3) in Ht1.
  do 4 (eapply outcome_copied; [apply copy_string_array_spec; eassumption|exact Hno|]; let H := fresh "Hs" in intros ? H; cbv beta in H).
  assert (Hcopies : copies d x x0 a a0 a1 x1 x2 x3 x4).
  { split; unfold path_texts, keyword_arrays; [done|done| |]; repeat (apply Forall2_cons; [done|]); constructor. }
  cbn [outcome]. split_and!; [done..| |by apply filled_items].
  by apply filled_made.
Qed.

(** A key that was made can be copied, unless memory runs out, and the copy says the same. *)
Lemma copy_spec key : made key ->
  outcome (variant_key_copy true (Some key)) (fun copy => made copy /\ body_items copy = body_items key) no_memory.
Proof.
  intros (Hok & Hvalid & Hcanon). unfold variant_key_copy, variant_key_describe. cbn [negb]. mstep.
  eapply outcome_mono; [apply init_spec; by apply key_descriptor| |].
  - intros copy (_ & Hmade & Hitems). by rewrite <- Hcanon.
  - intros e [He|[_ He]]; [|done]. by apply refused_invalid in He.
Qed.
End construct.

(** The promises of variant keys: construction accepts exactly the valid
    descriptors, a copy equals its source, and two keys have the same
    serialisation exactly if they are equal, so that the digest of the
    serialisation identifies the variant. *)

Section properties.
Context `{L : LibcMalloc}.

(** C37: the serialisation of a well-formed key is a canonical form.  A key is
    serialised to as many bytes as were computed beforehand, the magic, the
    version and that size first; and two keys are equal for [variant_key_equal]
    exactly if their serialisations are the same bytes, wherever their strings
    and keyword lists are split. *)
Theorem variant_key_serialize_canonical l r same left right : key_ok l -> key_ok r -> (same = true -> l = r) ->
  variant_key_serialize (Some l) true = Ret left -> variant_key_serialize (Some r) true = Ret right ->
  left = encoding l /\ serialized_size l = Ret (size left) /\
  (exists rest, left = VARIANT_KEY_MAGIC ++ le_bytes 4 VARIANT_KEY_FORMAT_VERSION ++ le_bytes 8 (size left) ++ rest) /\
  exists equal, variant_key_equal (E:=Empty_set) same (Some l) (Some r) = Ret equal /\ (equal = true <-> left = right).
Proof.
  intros Hl Hr Hsame Hleft Hright. rewrite serialize_ok in Hleft, Hright by done.
  destruct (libc_malloc (key_total l)), (libc_malloc (key_total r)); try done.
  injection Hleft as <-. injection Hright as <-. split; [done|]. rewrite encoding_size by done.
  split; [by apply serialized_size_ok|]. split.
  { exists (encode_items (body_items l)). rewrite <- (key_total_size l Hl). unfold encoding, key_items, encode_items.
    cbn [app fmap list_fmap concat encode_item]. done. }
  destruct (key_equal l r same Hl Hr Hsame) as (equal & Heq & Hiff). exists equal. split; [done|]. rewrite Hiff.
  split; [unfold encoding, key_items; by intros ->|]. intros Henc. apply (encoding_inj l r Hl Hr) in Henc.
  exact (f_equal (drop 3) Henc).
Qed.

(** C38: [variant_key_init] accepts exactly the valid descriptors.  It refuses a
    descriptor with the status that says what is wrong with it: a count over the
    limit, an array that is NULL though its count is not 0 or the reverse, or a
    value out of range (a string with no NUL in reach, an empty keyword, an absent
    fingerprint that is not zero).  A valid one becomes a well-formed key that
    holds what the descriptor says, absent metadata zeroed, unless memory runs out. *)
Theorem variant_key_init_correct d : descriptor_ok d ->
  match variant_key_init true (Some d) with
  | Ret key => valid_descriptor d /\ made key /\ body_items key = body_items (canonical d)
  | Fail VARIANT_KEY_ALLOCATION_FAILED => valid_descriptor d /\ malloc_failed
  | Fail status => refused d status /\ ~ valid_descriptor d
  | Undef => False
  end.
Proof.
  intros Hd. pose proof (init_spec d Hd) as Hspec. destruct (variant_key_init _ _) as [key|status|]; [done| |done].
  destruct Hspec as [Hspec|[Hv [-> Hm]]]; [|done]. pose proof (refused_invalid _ _ Hspec). by destruct status.
Qed.

(** C39: [variant_key_copy] of a key that was made fails only where memory runs
    out, and gives a key that was made, that [variant_key_equal] says is equal to
    its source, and that is serialised to the same bytes. *)
Theorem variant_key_copy_equal key : made key ->
  match variant_key_copy true (Some key) with
  | Ret copy => made copy /\ variant_key_equal (E:=Empty_set) false (Some key) (Some copy) = Ret true /\
      variant_key_serialize (Some copy) true = variant_key_serialize (Some key) true
  | Fail status => status = VARIANT_KEY_ALLOCATION_FAILED /\ malloc_failed
  | Undef => False
  end.
Proof.
  intros Hmade. pose proof (copy_spec key Hmade) as Hspec. destruct (variant_key_copy _ _) as [copy|status|]; [|done|done].
  destruct Hspec as [Hcopy Hitems]. split; [done|]. destruct Hmade as (Hok & _), Hcopy as (Hok' & _). split.
  - destruct (key_equal key copy false Hok Hok') as (b & -> & Hb); [done|]. f_equal. by apply Hb.
  - assert (Henc : encoding copy = encoding key) by (unfold encoding, key_items; by rewrite Hitems).
    rewrite !serialize_ok by done. rewrite Henc. by rewrite <- !encoding_size, Henc by done.
Qed.
End properties.

(** * A key *)

Definition cstr (s : string) : text := Some (String.list_byte_of_string s ++ [Byte.x00]).

Definition sample_fingerprint (present : bool) (b : byte) : VariantKeyFingerprint :=
  {| fp_present := present; fp_bytes := replicate 32 b |}.

(** The first subprogram of a D3D11 pass, compiled with [keywords]. *)
Definition sample_key (keywords : list string) : VariantKey := {|
  vk_shader_path_id := -5; vk_subshader_index := 0; vk_pass_index := 1; vk_stage := 0; vk_compiler_platform := 4;
  vk_archive_platform_index := 0; vk_hardware_tier_group := 2; vk_subprogram_index := 0; vk_parameter_blob_index := -1;
  vk_serialized_program_type := 7; vk_serialized_hardware_tier_present := false; vk_serialized_hardware_tier := 0;
  vk_serialized_requirements := 227; vk_serialized_program_mask := 6; vk_player_metadata_present := true;
  vk_player_program_type := 16; vk_player_header_words := [1; 2; 3; 4]; vk_player_source_map := 3;
  vk_keyword_scopes_are_explicit := true; vk_global_keyword_indices := Some [3; 9]; vk_global_keyword_index_count := 2;
  vk_local_keyword_indices := None; vk_local_keyword_index_count := 0;
  vk_compiler := {|
    vc_schema_version := 1; vc_build_platform := 19; vc_compiler_flags := 0; vc_language := 0; vc_shader_type := 1;
    vc_request_requirements := 227; vc_request_program_mask := 6; vc_program_start := 12; vc_render_state_length := 40;
    vc_valid_apis := 16; vc_caching_preprocessor := true; vc_preprocess_only := false; vc_strip_line_directives := false;
    vc_source_directory := cstr "Assets/"; vc_source_basename := cstr "Lit.shader"; vc_pass_name := cstr "";
    vc_variant_keywords := Some (cstr <$> keywords); vc_variant_keyword_count := zlength keywords;
    vc_user_keywords := None; vc_user_keyword_count := 0;
    vc_enabled_platform_keywords := Some [cstr "SHADER_API_D3D11"]; vc_enabled_platform_keyword_count := 1;
    vc_disabled_keywords := None; vc_disabled_keyword_count := 0;
    vc_compiler_fingerprint := sample_fingerprint true Byte.x5a;
    vc_environment_fingerprint := sample_fingerprint false Byte.x00;
    vc_source_fingerprint := sample_fingerprint true Byte.x01;
    vc_request_input_fingerprint := sample_fingerprint false Byte.x00 |} |}.

(** A string that fits a key. *)
Definition plain (s : string) : Prop := size (String.list_byte_of_string s) <= VARIANT_KEY_MAX_STRING_BYTES /\
  bool_decide (Byte.x00 ∈ String.list_byte_of_string s) = false.

Lemma cstr_text s : size (String.list_byte_of_string s) <= VARIANT_KEY_MAX_STRING_BYTES ->
  bool_decide (Byte.x00 ∈ String.list_byte_of_string s) = false -> is_text (cstr s) (text_of (cstr s)).
Proof.
  intros Hs Hn. apply is_text_self with (String.list_byte_of_string s). eexists. split; [done|]. split; [|done].
  exists []. split; [done|]. by apply bool_decide_eq_false in Hn.
Qed.

Lemma cstr_texts l : zlength l <= VARIANT_KEY_MAX_COMPILER_KEYWORDS -> l <> [] ->
  Forall plain l ->
  are_texts (Some (cstr <$> l)) (zlength l) (texts_of (Some (cstr <$> l)) (zlength l)).
Proof.
  intros Hl Hne HF. unfold are_texts, texts_of. change (default [] (Some (cstr <$> l))) with (cstr <$> l).
  unfold zlength in *. rewrite Nat2Z.id. rewrite !(take_ge (cstr <$> l)) by (by rewrite length_fmap).
  rewrite !length_fmap. split_and!; [done|done|]. destruct (Z.eqb_spec (Z.of_nat (length l)) 0); [by destruct l|].
  exists (cstr <$> l). split; [done|]. rewrite take_ge by (by rewrite length_fmap).
  apply Forall2_fmap_r, Forall_Forall2_diag, Forall_fmap. eapply list.Forall_impl; [exact HF|]. intros s [? ?]. by apply cstr_text.
Qed.

Ltac decides_list := repeat (apply list.Forall_cons_2; [first [done|vm_compute; split; [discriminate|reflexivity]|split; vm_compute; congruence]|]); constructor.

Lemma sample_key_ok keywords : zlength keywords <= VARIANT_KEY_MAX_COMPILER_KEYWORDS -> keywords <> [] ->
  Forall plain keywords -> key_ok (sample_key keywords).
Proof.
  intros Hl Hne HF. split.
  - by split.
  - decides_list.
  - decides_list.
  - by split.
  - split; [done|]. decides_list.
  - split_and!; [done|done|decides_list|]. by eexists.
  - split_and!; [done|done|decides_list|done].
  - split; cbn [vk_compiler sample_key vc_source_directory vc_source_basename vc_pass_name vc_variant_keywords vc_variant_keyword_count
      vc_user_keywords vc_user_keyword_count vc_enabled_platform_keywords vc_enabled_platform_keyword_count vc_disabled_keywords
      vc_disabled_keyword_count].
    + decides_list.
    + decides_list.
    + by split.
    + by apply cstr_text.
    + by apply cstr_text.
    + by apply cstr_text.
    + by apply cstr_texts.
    + by split.
    + apply (cstr_texts ["SHADER_API_D3D11"%string]); [done|done|decides_list].
    + by split.
    + decides_list.
Qed.

(** The key compiled with two keywords. *)
Lemma pair_key_ok a b : Forall plain [a; b] -> key_ok (sample_key [a; b]).
Proof. by apply sample_key_ok. Qed.

Lemma sample_made : made (sample_key ["A"; "BC"]%string).
Proof.
  assert (Hok : key_ok (sample_key ["A"; "BC"]%string)) by (apply pair_key_ok; decides_list).
  split_and!; [done| |done]. apply key_valid; [done| |by apply fields_valid_iff|].
  - repeat (apply list.Forall_cons_2; [vm_compute; repeat (apply list.Forall_cons_2; [discriminate|]); apply List.Forall_nil|]). constructor.
  - repeat (apply list.Forall_cons_2; [by intros [? ?]|]). constructor.
Qed.

(** With enough memory. *)
#[local] Instance ample : LibcMalloc := fun _ => true.

Lemma sample_serialized a b : Forall plain [a; b] ->
  variant_key_serialize (Some (sample_key [a; b])) true = Ret (encoding (sample_key [a; b])).
Proof. intros Hab. by rewrite serialize_ok by by apply pair_key_ok. Qed.

(** Where the keywords are split matters. *)
Lemma variant_key_serialize_canonical_witness :
  let l := sample_key ["A"; "BC"]%string in
  let r := sample_key ["AB"; "C"]%string in
  variant_key_serialize (Some l) true = Ret (encoding l) /\
  exists equal, variant_key_equal (E:=Empty_set) false (Some l) (Some r) = Ret equal /\
    (equal = true <-> encoding l = encoding r) /\ equal = false.
Proof.
  assert (Hs : Forall plain ["A"; "BC"]%string) by decides_list.
  assert (Hs' : Forall plain ["AB"; "C"]%string) by decides_list.
  pose proof (sample_serialized _ _ Hs) as Hl. pose proof (sample_serialized _ _ Hs') as Hr.
  pose proof (pair_key_ok _ _ Hs) as Hl'. pose proof (pair_key_ok _ _ Hs') as Hr'.
  intros l r.
  split; [exact Hl|].
  destruct (variant_key_serialize_canonical l r false (encoding l) (encoding r) Hl' Hr' (fun H => False_ind _ (diff_false_true H)) Hl Hr)
    as (_ & _ & _ & equal & Heq & Hiff).
  exists equal. split; [exact Heq|]. split; [exact Hiff|]. clear -Heq.
  assert (Hf : variant_key_equal (E:=Empty_set) false (Some l) (Some r) = Ret false) by (vm_compute; reflexivity).
  rewrite Hf in Heq. by injection Heq.
Defined.

Lemma variant_key_init_correct_witness :
  match variant_key_init true (Some (sample_key ["A"; "BC"]%string)) with
  | Ret key => valid_descriptor (sample_key ["A"; "BC"]%string) /\ made key /\
      body_items key = body_items (canonical (sample_key ["A"; "BC"]%string))
  | Fail VARIANT_KEY_ALLOCATION_FAILED => valid_descriptor (sample_key ["A"; "BC"]%string) /\ malloc_failed
  | Fail status => refused (sample_key ["A"; "BC"]%string) status /\ ~ valid_descriptor (sample_key ["A"; "BC"]%string)
  | Undef => False
  end /\
  variant_key_init true (Some (sample_key ["A"; "BC"]%string)) = Ret (sample_key ["A"; "BC"]%string) /\
  variant_key_init true (Some (sample_key ["A"; ""]%string)) = Fail VARIANT_KEY_INVALID_VALUE.
Proof.
  split; [apply variant_key_init_correct, key_descriptor, sample_made|]. split; vm_compute; reflexivity.
Defined.

Lemma variant_key_copy_equal_witness :
  made (sample_key ["A"; "BC"]%string) /\
  match variant_key_copy true (Some (sample_key ["A"; "BC"]%string)) with
  | Ret copy => made copy /\ variant_key_equal (E:=Empty_set) false (Some (sample_key ["A"; "BC"]%string)) (Some copy) = Ret true /\
      variant_key_serialize (Some copy) true = variant_key_serialize (Some (sample_key ["A"; "BC"]%string)) true
  | Fail status => status = VARIANT_KEY_ALLOCATION_FAILED /\ malloc_failed
  | Undef => False
  end.
Proof. split; [exact sample_made|exact (variant_key_copy_equal _ sample_made)]. Defined.
